(* ===== verification/_CoqProject ===== *)
-Q . S2P
Prelude.v
Bitstring.v
Popcount.v
BitstringFacts.v
BitstringCount.v
BitstringFmt.v
BitstringProps.v
Pack.v
PackFacts.v
PackProps.v
NatCmp.v
Hostlist.v
HostlistParse.v
HostlistPrint.v
HostlistFacts.v
HostlistOps.v
HostlistSeq.v
HostlistText.v
HostlistRead.v
HostlistSort.v
HostlistCoalesce.v
HostlistOrder.v
HostlistIter.v
HostlistNames.v
HostlistProps.v
Route.v
RouteFacts.v
RouteProps.v
RouteCollect.v
Forward.v
ForwardFacts.v
ForwardProps.v
ForwardNode.v
ForwardNodeProps.v
ForwardTree.v
ReverseTree.v
ReverseTreeFacts.v
ReverseTreeProps.v
Mapping.v
MappingFacts.v
MappingPack.v
MappingProps.v
Hilbert.v
HilbertFacts.v
HilbertProps.v
HilbertCurve.v
NodeOrder.v
NodeOrderProps.v
Backfill.v
BackfillFacts.v
BackfillProps.v
BackfillPlan.v
StepLayout.v
HostlistLayout.v
StepLayoutFacts.v
StepLayoutProps.v
NodeConf.v
Locks.v
LocksFacts.v
LocksProps.v
PortMgr.v
PortMgrFacts.v
PortMgrProps.v
PortRestart.v
Licenses.v
LicensesProps.v
Cbuf.v
CbufFacts.v
CbufWrite.v
CbufLines.v
CbufOps.v
CbufProps.v
Heap.v
Lists.v
HeapLogic.v
ListsLogic.v
ListsOps.v
ListsIter.v
ListsMachine.v
ListsProps.v
