(* ===== verification/Prelude.v ===== *)
(** * Slurm 17.02 (TANGO Device Supervisor): verification development

    Slurm is a workload manager: a controller (src/slurmctld) accepts jobs, orders
    and reserves resources and starts job steps on the nodes of a cluster, where
    daemons (src/slurmd) run the tasks; plugins (src/plugins) hold the policies,
    and src/common the code that all of them share.  This development models the
    shared data structures of src/common, the parts of the controller that keep
    account of resources, the plan of the backfill scheduler, and the way in which
    messages travel between the daemons, and proves that they do what the code
    means to do.

    ** How the code is translated

    Paths are those of the repository.  Functions keep their names.  A C function that can fail an assertion, touch
    memory out of bounds, read a null or freed pointer or overflow a signed integer
    is a function to [exec] (this file): [Ret] is a normal return, [Fault] any of
    those failures.  Loops are [loop] and [for_while]; [NoFuel] is the model running
    out of fuel, and every theorem that concludes with [Ret] or with [wp] (total
    correctness) shows that this does not happen.  Integers are [Z] with the
    conversions to their width written out ([u16], [u32], [u64], [s32], [i32]);
    bytes and characters are [Z], strings [list Z]; arrays are lists read with
    [aget] and written with [aset], which fault outside the array; structs are
    records and enums inductive types.  Threads are state machines: a state holds
    the position of each thread and the data they share, and a step lets one thread
    go on to its next access to them.  Pointer-based code (list.c) runs on words of
    memory (Heap.v).  Allocation succeeds, as [xmalloc] aborts the program when it
    fails; log messages are left out.

    ** Components

    Bitmaps (src/common/bitstring.c, bitstring.h): Bitstring.v has every operation on
    the 64-bit words, with the magic word and the assertions.  BitstringFacts.v and
    BitstringCount.v say what each computes on the set of bits, BitstringFmt.v the
    same for the text formats, Popcount.v for the word-parallel count;
    BitstringProps.v has the theorems: operations refine those on finite sets, text
    and masks are read back, [hweight] counts bits.

    Message buffers (src/common/pack.c, pack.h): Pack.v, PackFacts.v, PackProps.v.
    Unpacking of integers, arrays, memory and strings is memory safe on any bytes
    (that of bitmaps is not), what is packed is unpacked, and escaped strings stay
    inside their SQL literal.

    Host list expressions (src/common/hostlist.c, hostlist.h; strnatcmp.c): Hostlist.v is
    the data structure of ranges, iterators included; HostlistParse.v and
    HostlistPrint.v parse and print; NatCmp.v is the natural order of strings.
    The lemmas: HostlistFacts.v (representation), HostlistOps.v (single operations),
    HostlistSeq.v (lists as sequences), HostlistText.v and HostlistRead.v (printed text
    and its parsing), HostlistOrder.v, HostlistSort.v and HostlistCoalesce.v
    (sorting), HostlistIter.v (iterators), HostlistNames.v (the names that
    a list stands for).  HostlistProps.v has the theorems: lists refine sequences of host names, printed expressions are parsed
    back, sorting terminates and sorts, [hostlist_uniq] removes exactly the
    duplicates, printing stays in its buffer, iterators visit every host.

    Message routing and forwarding (src/common/slurm_route.c, forward.c, parts of
    slurm_protocol_api.c; src/plugins/route/default): Route.v divides a host list over
    the branches of a tree and chooses the collectors of aggregated messages;
    RouteFacts.v, RouteProps.v and RouteCollect.v show that the branches partition the list and
    that collectors form a tree.  Forward.v models the threads of [start_msg_tree],
    ForwardNode.v those of a node that forwards ([forward_msg], [forward_wait]), with a
    network that may fail or answer in any way; ForwardFacts.v,
    ForwardProps.v and ForwardNodeProps.v show that every interleaving ends with an answer for every
    host; a thread of a node that outlives [forward_wait] and uses the freed
    [forward_struct] faults in the model.  ForwardTree.v composes head, nodes, routing and
    the printing and parsing of host lists: the message reaches each host once.

    Reverse tree (src/slurmd/common/reverse_tree_math.c): ReverseTree.v,
    ReverseTreeFacts.v, ReverseTreeProps.v.  All nodes compute the same tree.

    Process mappings (src/common/mapping.c): Mapping.v; MappingFacts.v and
    MappingPack.v for the writing side, with assertions and without; MappingProps.v: a
    layout survives its text.

    Order of the node table (src/slurmctld/read_config.c, src/plugins/topology/3d_torus):
    Hilbert.v is the Hilbert transformation, HilbertFacts.v and HilbertProps.v show that
    it is a bijection and HilbertCurve.v that the curve of 32 x 32 x 32 points is
    continuous; NodeOrder.v orders the table by rank or by name, and
    NodeOrderProps.v shows that the table of a torus follows the curve and that any
    other is in natural order.

    Names and cores of nodes (src/common/node_conf.c, xhash.c): NodeConf.v.  Sets of
    nodes are saved as host list expressions and read back with a hash table of the
    node names; the same nodes are found.  The cores of the cluster are numbered
    node by node.

    Backfill scheduler (src/plugins/sched/backfill/backfill.c): Backfill.v is the table
    of free nodes over time, on the bitmaps of Bitstring.v; BackfillFacts.v and
    BackfillProps.v say what its operations do to the intervals; BackfillPlan.v has
    the theorems: a reservation takes its nodes out of its time only, and a planned
    job that was tested for overlap has no conflict with the jobs planned before it
    (jobs that wait for a burst buffer are planned without the test).

    Task layout of job steps (src/common/slurm_step_layout.c): StepLayout.v,
    StepLayoutFacts.v, StepLayoutProps.v.  Every distribution places each task once,
    and fairly.  Host lists are used through the class [HostExprs], which
    HostlistLayout.v discharges with the model of hostlist.c.

    Locks of the controller (src/slurmctld/locks.c, locks.h): Locks.v, LocksFacts.v,
    LocksProps.v.  Mutual exclusion, absence of deadlock and lost wake-ups in every
    interleaving.

    Reserved ports (src/slurmctld/port_mgr.c): PortMgr.v, PortMgrFacts.v,
    PortMgrProps.v; PortRestart.v puts the host lists in place of the parameters.
    Ports are never reserved twice on a node, and reservations survive a restart.  The
    counters are [int]s that fault when they overflow.

    Licenses (src/slurmctld/licenses.c): Licenses.v, LicensesProps.v.  The counts in use
    are those of the running jobs.

    Circular buffers (src/common/cbuf.c): Cbuf.v, CbufFacts.v, CbufWrite.v, CbufLines.v,
    CbufOps.v, CbufProps.v.  Buffers refine queues with a bounded memory of what was
    read, as cbuf.h documents them; CbufProps.v also has the exact simulation, with the
    places where cbuf.c and cbuf.h differ.

    Generic lists (src/common/list.c): Heap.v, Lists.v; HeapLogic.v is a separation
    logic (Iris) for the memory, ListsLogic.v, ListsOps.v and ListsIter.v the
    specifications in it, ListsMachine.v the machine on sequences that programs with
    lists and iterators simulate; ListsProps.v has the theorems, for that machine and
    for the one whose iterators are those that list.h documents.

    ** Groups of theorems

    The theorems that the components are about carry an identifier (C1 and so on) in
    the comment before them, and a lemma whose name ends in [_witness] applies each
    of them to concrete data.  They are of these kinds: safety in every
    interleaving or sequence of operations (locks, ports, licenses, backfill plan,
    unpacking); termination and progress (locks, forwarding, sorting); refinement of
    abstract data (bitmaps as sets, host lists and generic lists as sequences,
    circular buffers as queues, the backfill table as a function of time); round
    trips (expressions, messages, node names, licenses, ports, mappings, the Hilbert
    transformation); and the functional behaviour of single operations, with errors.
    Examples after the theorems show behaviour that the comments or assertions of
    the source do not expect.

    ** Bounds and fuel

    Loops over arrays and lists take the size of the structure as fuel, which their
    specifications show to be enough.  [hostlist_sort] restarts whenever it splits a
    range; its fuel [sort_rounds] is a function of the number of hosts.  The parsers
    take their fuel as an argument ([fuel]), theorems hold for all values that are
    large enough, or for all.  [qsort] is the merge sort of glibc, which is stable.
    Theorems on host names are for systems of one dimension ([one_dim]); the code for
    boxes of coordinates is modelled and printed without theorems on its meaning.
    Sorting, [hostlist_uniq] and what uses them (forwarding, routing of messages) are for names whose numbers
    after one stem are padded to one width ([uniform]): with mixed padding
    [hostlist_uniq] leaves duplicates.  The forwarding node and the whole tree are for
    systems that are not a Cray, and the tree is of the configured width.
    Messages go to at most 65536 hosts, because their number is sent in 16 bits;
    the ports that pack jobs ask for add up to less than the largest [int]; printed
    licenses fit the 128 characters of their buffer;
    reverse trees have num_nodes * width * width at most [INT_MAX]; a layout has at
    most 65535 tasks per node; Hilbert words have up to 30 bits, as the code shifts an
    [int]; reservations of the backfill scheduler begin before 2^32 seconds and do
    not end before they or the table begin.

    ** Not modelled

    Floating-point values in messages (pack.c), as their text conversion is that of
    the C library.  The pack and unpack functions of single messages, which are
    sequences of the primitives shown safe here.  Timeouts, message bodies and the
    failure of [pthread_create] in forward.c; the route/topology plugin, which needs
    the switch tables of the topology plugins.  The select and priority plugins, the
    job, step, node and reservation records of the controller and the accounting
    tables: their decisions depend on the clock, on floating-point priorities and on
    databases.  The daemons, commands and plugins that talk to the kernel, to
    devices, to a database or to the user.  [job_resources.c] and [gres.c] follow the
    bitmap operations and would be the next to model. *)

From Stdlib Require Export ZArith Lia ZifyBool.
From stdpp Require Export base list numbers option tactics sets.

#[global] Set Default Goal Selector "!".

(** ** Execution results

    C code that can fail an [assert], touch memory out of bounds or overflow
    a signed integer is modelled in the monad [exec].  [Ret a] is a normal
    return, [Fault] any of those failures, and [NoFuel] the model running out
    of loop fuel (theorems that conclude [Ret] show that it does not). *)
Inductive exec (A : Type) : Type :=
| Ret (a : A)
| Fault
| NoFuel.
Arguments Ret {A} a.
Arguments Fault {A}.
Arguments NoFuel {A}.

#[global] Instance exec_ret : MRet exec := fun A a => Ret a.
#[global] Instance exec_bind : MBind exec := fun A B f m =>
  match m with Ret a => f a | Fault => Fault | NoFuel => NoFuel end.
#[global] Instance exec_fmap : FMap exec := fun A B f m =>
  match m with Ret a => Ret (f a) | Fault => Fault | NoFuel => NoFuel end.

(** C's [assert], as in a build without [NDEBUG] ([--enable-developer]); other
    builds compile it out, so code that never faults here behaves the same. *)
Definition assert_ (c : bool) : exec unit := if c then Ret tt else Fault.

Declare Scope slurm_scope.
Delimit Scope slurm_scope with slurm.
Notation "'assert!' c ';;' k" := (mbind (M:=exec) (fun _ : unit => k) (assert_ c))
  (at level 20, c at level 99, k at level 200, right associativity,
   format "'assert!'  c  ';;' '/' k") : slurm_scope.

(** A C loop: [step] runs one test-and-body; [inl] goes round again with the
    new loop variables, [inr] leaves the loop (condition false or break). *)
Fixpoint loop {S R : Type} (fuel : nat) (step : S -> exec (S + R)) (s : S) : exec R :=
  match fuel with
  | O => NoFuel
  | Datatypes.S n =>
      match step s with
      | Ret (inl s') => loop n step s'
      | Ret (inr r) => Ret r
      | Fault => Fault
      | NoFuel => NoFuel
      end
  end.

(** The value of a run, with a default for runs that do not return. *)
Definition value {A : Type} (d : A) (e : exec A) : A := match e with Ret a => a | _ => d end.

(** ** Total-correctness triples *)
Definition wp {A : Type} (e : exec A) (Q : A -> Prop) : Prop :=
  match e with Ret a => Q a | Fault => False | NoFuel => False end.

Create HintDb slurm.

Section wp_rules.
Context {A B : Type}.

Lemma wp_ret (a : A) (Q : A -> Prop) : Q a -> wp (Ret a) Q.
Proof. done. Qed.

Lemma wp_bind (e : exec A) (f : A -> exec B) (Q : B -> Prop) :
  wp e (fun a => wp (f a) Q) -> wp (mbind f e) Q.
Proof. by destruct e. Qed.

Lemma wp_mono (e : exec A) (P Q : A -> Prop) :
  wp e P -> (forall a, P a -> Q a) -> wp e Q.
Proof. destruct e; simpl; auto. Qed.

Lemma wp_assert (c : bool) (k : unit -> exec A) (Q : A -> Prop) :
  c = true -> wp (k tt) Q -> wp (mbind k (assert_ c)) Q.
Proof. by intros ->. Qed.

Lemma wp_inv (e : exec A) (Q : A -> Prop) : wp e Q -> exists a, e = Ret a /\ Q a.
Proof. destruct e; simpl; naive_solver. Qed.

Lemma wp_eq (e : exec A) (a : A) : e = Ret a <-> wp e (eq a).
Proof. destruct e; simpl; naive_solver. Qed.

Lemma wp_conj (e : exec A) (P Q : A -> Prop) :
  wp e P -> wp e Q -> wp e (fun a => P a /\ Q a).
Proof. by destruct e. Qed.
End wp_rules.

(** Loops terminate with the postcondition when an invariant is kept and a
    natural-number measure below the fuel decreases on every iteration. *)
Lemma wp_loop {S R : Type} (I : S -> Prop) (mu : S -> nat) (P Q : R -> Prop)
    (step : S -> exec (S + R)) (fuel : nat) (s : S) :
  (forall s, I s -> wp (step s) (fun x =>
     match x with inl s' => I s' /\ (mu s' < mu s)%nat | inr r => P r end)) ->
  I s -> (mu s < fuel)%nat -> (forall r, P r -> Q r) -> wp (loop fuel step s) Q.
Proof.
  intros Hstep HI Hmu HPQ. revert s HI Hmu.
  induction fuel as [|n IH]; intros s HI Hmu; [lia|]. simpl.
  specialize (Hstep s HI).
  destruct (step s) as [[s'|r]| |]; simpl in *; try done; [|auto].
  destruct Hstep as [HI' Hlt]. apply IH; [done|lia].
Qed.

Lemma loop_step {S R : Type} n (f : S -> exec (S + R)) s :
  loop (Datatypes.S n) f s =
  match f s with Ret (inl s') => loop n f s' | Ret (inr r) => Ret r | Fault => Fault | NoFuel => NoFuel end.
Proof. reflexivity. Qed.

(** Partial correctness of a loop, for code that may fault. *)
Lemma loop_partial {S R : Type} (I : S -> Prop) (P : R -> Prop) (f : S -> exec (S + R)) n s r :
  (forall s x, I s -> f s = Ret x -> match x with inl s' => I s' | inr r => P r end) ->
  I s -> loop n f s = Ret r -> P r.
Proof.
  intros Hf. revert s. induction n as [|n IH]; intros s HI; [done|]. rewrite loop_step.
  destruct (f s) as [[s'|r']| |] eqn:E; try done.
  - apply IH. by apply (Hf s (inl s')).
  - intros [= <-]. by apply (Hf s (inr r')).
Qed.

#[global] Arguments loop : simpl never.

Ltac wp_step :=
  lazymatch goal with
  | |- wp (mbind _ (assert_ _)) _ => apply wp_assert
  | |- wp (mbind _ (mbind _ _)) _ => apply wp_bind
  | |- wp (mbind _ _) _ => apply wp_bind
  | |- wp (Ret _) _ => apply wp_ret
  | |- wp (mret _) _ => apply wp_ret
  end.

(** ** Machine integers *)
Local Open Scope Z_scope.

Definition u8 (x : Z) : Z := x `mod` 2 ^ 8.
Definition u16 (x : Z) : Z := x `mod` 2 ^ 16.
Definition u32 (x : Z) : Z := x `mod` 2 ^ 32.
Definition u64 (x : Z) : Z := x `mod` 2 ^ 64.
Definition i32_min : Z := - 2 ^ 31.
Definition i32_max : Z := 2 ^ 31 - 1.

(** Signed 32-bit arithmetic overflow is undefined behaviour. *)
Definition i32 (x : Z) : exec Z :=
  if (i32_min <=? x) && (x <=? i32_max) then Ret x else Fault.

(** [for (i = i0; i < i0 + n && cond; i++) body]. *)
Fixpoint for_while {S : Type} (cond : S -> bool) (body : Z -> S -> exec S) (n : nat) (i : Z)
    (s : S) : exec S :=
  match n with
  | O => Ret s
  | Datatypes.S n' =>
      if cond s then s' ← body i s; for_while cond body n' (i + 1) s' else Ret s
  end.

Lemma wp_for {S : Type} (I : Z -> S -> Prop) (cond : S -> bool) (body : Z -> S -> exec S)
    (Q : S -> Prop) n i s :
  I i s ->
  (forall k s, i <= k < i + Z.of_nat n -> I k s -> cond s = true -> wp (body k s) (I (k + 1))) ->
  (forall k s, i <= k <= i + Z.of_nat n -> I k s ->
     (k = i + Z.of_nat n \/ cond s = false) -> Q s) ->
  wp (for_while cond body n i s) Q.
Proof.
  revert i s. induction n as [|n IH]; intros i s HI Hbody HQ; cbn [for_while].
  - apply wp_ret. apply (HQ i); [lia|done|lia].
  - destruct (cond s) eqn:Hc; [|apply wp_ret, (HQ i); [lia|done|by right]].
    apply wp_bind. eapply wp_mono; [apply Hbody; [lia|done|done]|]. intros s' HI'. apply IH; [done|..].
    + intros k s'' Hk. apply Hbody. lia.
    + intros k s'' Hk HIk Hk'. apply (HQ k); [lia|done|]. destruct Hk'; [left; lia|by right].
Qed.

(** [for_while] over a family of states. *)
Lemma for_family {S : Type} (W : Z -> S) (body : Z -> S -> exec S) n i :
  (forall k, i <= k < i + Z.of_nat n -> body k (W k) = Ret (W (k + 1))) ->
  for_while (fun _ => true) body n i (W i) = Ret (W (i + Z.of_nat n)).
Proof.
  intros Hb. apply wp_eq. eapply (wp_for (fun k s => s = W k)); [done| |].
  - intros k s Hk -> _. by rewrite Hb.
  - intros k s Hk -> [->|]; done.
Qed.

(** ** Arrays: C indexing, with accesses outside the object faulting *)
Definition aget {A : Type} (l : list A) (i : Z) : exec A :=
  if i <? 0 then Fault else
  match l !! Z.to_nat i with Some x => Ret x | None => Fault end.

Definition aset {A : Type} (l : list A) (i : Z) (x : A) : exec (list A) :=
  if (0 <=? i) && (i <? Z.of_nat (length l)) then Ret (<[Z.to_nat i := x]> l) else Fault.

Lemma aget_lookup {A : Type} (l : list A) (i : Z) (x : A) :
  0 <= i -> l !! Z.to_nat i = Some x -> aget l i = Ret x.
Proof. intros Hi Hx. unfold aget. case_match; [lia|]. by rewrite Hx. Qed.

Lemma wp_aget {A : Type} (l : list A) (i : Z) (Q : A -> Prop) :
  0 <= i < Z.of_nat (length l) ->
  (forall x, l !! Z.to_nat i = Some x -> Q x) -> wp (aget l i) Q.
Proof.
  intros Hi HQ. destruct (lookup_lt_is_Some_2 l (Z.to_nat i)) as [x Hx]; [lia|].
  rewrite (aget_lookup l i x) by (done || lia). simpl. auto.
Qed.

Lemma wp_aset {A : Type} (l : list A) (i : Z) (x : A) (Q : list A -> Prop) :
  0 <= i < Z.of_nat (length l) -> Q (<[Z.to_nat i := x]> l) -> wp (aset l i x) Q.
Proof. intros Hi HQ. unfold aset. by rewrite (proj2 (andb_true_iff _ _)) by lia. Qed.

Lemma wp_i32 (x : Z) (Q : Z -> Prop) : i32_min <= x <= i32_max -> Q x -> wp (i32 x) Q.
Proof. intros Hx HQ. unfold i32. by rewrite (proj2 (andb_true_iff _ _)) by lia. Qed.

Lemma i32_ok (x : Z) : i32_min <= x <= i32_max -> i32 x = Ret x.
Proof. intros Hx. by apply wp_eq, wp_i32. Qed.

(** [lia] with [/], [mod], [Z.quot] and [Z.rem] expanded. *)
Ltac dlia := intros; Z.to_euclidean_division_equations; lia.

(** Decide the first conditional of the goal by arithmetic. *)
Ltac if_true :=
  match goal with |- context [if ?c then _ else _] =>
    let E := fresh in destruct c eqn:E; [clear E|exfalso; (lia || dlia)] end.
Ltac if_false :=
  match goal with |- context [if ?c then _ else _] =>
    let E := fresh in destruct c eqn:E; [exfalso; (lia || dlia)|clear E] end.

(** Case analysis on the first conditional of the goal. *)
Ltac if_case :=
  match goal with
  | |- wp (if ?c then _ else _) _ => let E := fresh "E" in destruct c eqn:E
  | |- context [if ?c then _ else _] => let E := fresh "E" in destruct c eqn:E
  end.
Ltac if_solve := repeat if_case; try done; try lia; try (exfalso; dlia); dlia.

(** ** Bit arithmetic *)
Create Rewrite HintDb zbits.
#[export] Hint Rewrite Z.lor_spec Z.land_spec Z.lxor_spec Z.ldiff_spec Z.testbit_0_l : zbits.

Lemma testbit_small (w n i : Z) : 0 <= w < 2 ^ n -> n <= i -> Z.testbit w i = false.
Proof.
  intros Hw Hi. destruct (decide (w = 0)) as [->|Hne]; [apply Z.testbit_0_l|].
  destruct (decide (0 <= n)) as [Hn|Hn].
  - apply Z.bits_above_log2; [lia|]. apply Z.lt_le_trans with n; [|done].
    apply Z.log2_lt_pow2; lia.
  - rewrite Z.pow_neg_r in Hw by lia. lia.
Qed.

Lemma bits_bound (w n : Z) :
  0 <= n -> (forall i, n <= i -> Z.testbit w i = false) -> 0 <= w < 2 ^ n.
Proof.
  intros Hn Hw.
  assert (w = w `mod` 2 ^ n) as ->; [|apply Z.mod_pos_bound; lia].
  apply Z.bits_inj'. intros i Hi. destruct (decide (i < n)).
  - by rewrite Z.mod_pow2_bits_low.
  - rewrite Z.mod_pow2_bits_high by lia. apply Hw. lia.
Qed.

Lemma u64_range (x : Z) : 0 <= u64 x < 2 ^ 64.
Proof. apply Z.mod_pos_bound. lia. Qed.

Lemma u64_testbit (x i : Z) : 0 <= i -> Z.testbit (u64 x) i = (i <? 64) && Z.testbit x i.
Proof.
  intros Hi. unfold u64. destruct (Z.ltb_spec i 64).
  - by rewrite Z.mod_pow2_bits_low.
  - by rewrite Z.mod_pow2_bits_high by lia.
Qed.

Lemma u64_lnot_testbit (x i : Z) : 0 <= i -> Z.testbit (u64 (Z.lnot x)) i = (i <? 64) && negb (Z.testbit x i).
Proof. intros Hi. rewrite u64_testbit by done. by rewrite Z.lnot_spec. Qed.

Lemma land_range (x y n : Z) : 0 <= n -> 0 <= x < 2 ^ n -> 0 <= Z.land x y < 2 ^ n.
Proof.
  intros Hn Hx. apply bits_bound; [done|]. intros i Hi.
  by rewrite Z.land_spec, (testbit_small x n).
Qed.

Lemma lor_range (x y n : Z) :
  0 <= n -> 0 <= x < 2 ^ n -> 0 <= y < 2 ^ n -> 0 <= Z.lor x y < 2 ^ n.
Proof.
  intros Hn Hx Hy. apply bits_bound; [done|]. intros i Hi.
  by rewrite Z.lor_spec, (testbit_small x n), (testbit_small y n).
Qed.

Lemma shiftl_one_testbit (k i : Z) : 0 <= k -> Z.testbit (Z.shiftl 1 k) i = (i =? k).
Proof.
  intros Hk. rewrite Z.shiftl_mul_pow2, Z.mul_1_l by done.
  destruct (Z.eqb_spec i k) as [->|Hne]; [by apply Z.pow2_bits_true|].
  apply Z.pow2_bits_false. lia.
Qed.

Lemma shiftl_one_range (k n : Z) : 0 <= k < n -> 0 <= Z.shiftl 1 k < 2 ^ n.
Proof.
  intros Hk. rewrite Z.shiftl_mul_pow2, Z.mul_1_l by lia.
  split; [lia|]. apply Z.pow_lt_mono_r; lia.
Qed.

(** ** Searching and counting over integer intervals *)

(** [r] is the first position of [lo, hi) with [P], or -1. *)
Definition first_in (P : Z -> bool) (lo hi r : Z) : Prop :=
  (r = -1 /\ forall i, lo <= i < hi -> P i = false) \/
  (lo <= r < hi /\ P r = true /\ forall i, lo <= i < r -> P i = false).

(** [r] is the last position of [lo, hi) with [P], or -1. *)
Definition last_in (P : Z -> bool) (lo hi r : Z) : Prop :=
  (r = -1 /\ forall i, lo <= i < hi -> P i = false) \/
  (lo <= r < hi /\ P r = true /\ forall i, r < i < hi -> P i = false).

(** The number of positions of [lo, hi) with [P]. *)
Definition count (P : Z -> bool) (lo hi : Z) : Z :=
  Z.of_nat (length (filter (fun i => P i = true) (seqZ lo (hi - lo)))).

Lemma count_empty P lo hi : hi <= lo -> count P lo hi = 0.
Proof. intros H. unfold count. by rewrite seqZ_nil by lia. Qed.

Lemma count_split P lo mid hi :
  lo <= mid <= hi -> count P lo hi = count P lo mid + count P mid hi.
Proof.
  intros H. unfold count.
  replace (hi - lo) with (mid - lo + (hi - mid)) by lia.
  rewrite seqZ_app, list.filter_app, length_app by lia.
  replace (lo + (mid - lo)) with mid by lia. lia.
Qed.

Lemma count_one P i : count P i (i + 1) = if P i then 1 else 0.
Proof.
  unfold count. replace (i + 1 - i) with 1 by lia.
  change (seqZ i 1) with [(0 + i)%Z]. rewrite Z.add_0_l, filter_cons.
  case_decide; destruct (P i); done.
Qed.

Lemma count_snoc P lo hi :
  lo <= hi -> count P lo (hi + 1) = count P lo hi + (if P hi then 1 else 0).
Proof. intros H. rewrite (count_split P lo hi (hi + 1)) by lia. by rewrite count_one. Qed.

Lemma count_cons P lo hi :
  lo < hi -> count P lo hi = (if P lo then 1 else 0) + count P (lo + 1) hi.
Proof. intros H. rewrite (count_split P lo (lo + 1) hi) by lia. by rewrite count_one. Qed.

Lemma count_range P lo hi : lo <= hi -> 0 <= count P lo hi <= hi - lo.
Proof.
  intros H. unfold count. split; [lia|].
  pose proof (list.length_filter (fun i => P i = true) (seqZ lo (hi - lo))) as Hl.
  rewrite length_seqZ in Hl. lia.
Qed.

Lemma count_shift (P R : Z -> bool) k n :
  (forall i, 0 <= i < n -> P (k + i) = R i) -> count P k (k + n) = count R 0 n.
Proof.
  intros H. destruct (decide (0 <= n)) as [Hn|Hn]; [|by rewrite !count_empty by lia].
  revert n Hn H. apply (natlike_ind (fun n => (forall i, 0 <= i < n -> P (k + i) = R i) ->
    count P k (k + n) = count R 0 n)); [intros; by rewrite !count_empty by lia|].
  intros n Hn IH H. rewrite <-Z.add_1_r, Z.add_assoc, !count_snoc by lia.
  rewrite IH by (intros; apply H; lia). by rewrite H by lia.
Qed.

Lemma count_ext (P R : Z -> bool) lo hi :
  (forall i, lo <= i < hi -> P i = R i) -> count P lo hi = count R lo hi.
Proof.
  intros H. replace hi with (lo + (hi - lo)) by lia.
  rewrite (count_shift P (fun i => R (lo + i)) lo (hi - lo)).
  - symmetry. by apply (count_shift R).
  - intros i Hi. apply H. lia.
Qed.

Lemma count_pos P lo hi i : lo <= i < hi -> P i = true -> 0 < count P lo hi.
Proof.
  intros Hi HP. rewrite (count_split P lo i hi), (count_cons P i hi), HP by lia.
  pose proof (count_range P lo i). pose proof (count_range P (i + 1) hi). lia.
Qed.

Lemma count_zero P lo hi : count P lo hi = 0 <-> forall i, lo <= i < hi -> P i = false.
Proof.
  split.
  - intros H i Hi. destruct (P i) eqn:E; [|done]. pose proof (count_pos P lo hi i Hi E). lia.
  - intros H. rewrite (count_ext P (fun _ => false)) by done. unfold count.
    induction (seqZ lo (hi - lo)); [done|]. rewrite filter_cons. by case_decide.
Qed.

Lemma count_all P lo hi :
  lo <= hi -> (forall i, lo <= i < hi -> P i = true) -> count P lo hi = hi - lo.
Proof.
  intros Hle H. rewrite (count_ext P (fun _ => true)) by done. unfold count.
  assert (forall l : list Z, filter (fun i => true = true) l = l) as ->.
  { induction l as [|x l IH]; [done|]. rewrite filter_cons_True by done. by rewrite IH. }
  rewrite length_seqZ. lia.
Qed.

(** ** C strings

    A [char *] is the list of its characters' codes, without the terminating
    NUL. *)
Abbreviation cstr := (list Z).

(** Conversion to [int32_t] (implementation-defined wrap-around). *)
Definition s32 (x : Z) : Z := (x + 2 ^ 31) `mod` 2 ^ 32 - 2 ^ 31.

Definition isdigit (c : Z) : bool := (48 <=? c) && (c <=? 57).
Definition isxdigit (c : Z) : bool :=
  isdigit c || ((65 <=? c) && (c <=? 70)) || ((97 <=? c) && (c <=? 102)).
Definition isspace (c : Z) : bool := (c =? 32) || ((9 <=? c) && (c <=? 13)).
Definition toupper (c : Z) : Z := if (97 <=? c) && (c <=? 122) then c - 32 else c.

(** The decimal digits that ["%d"] prints; 20 digits hold any 64-bit value. *)
Fixpoint dec_digits (fuel : nat) (n : Z) (acc : cstr) : cstr :=
  match fuel with
  | O => acc
  | S f => if n <? 10 then (48 + n) :: acc else dec_digits f (n / 10) ((48 + n `mod` 10) :: acc)
  end.
Definition fmt_d (n : Z) : cstr :=
  if n <? 0 then 45 :: dec_digits 20 (- n) [] else dec_digits 20 n [].

(** [strtol(s, &rest, 10)]: white space, a sign, digits; saturating. *)
Fixpoint skip_space (s : cstr) : cstr :=
  match s with c :: s' => if isspace c then skip_space s' else s | [] => [] end.
Fixpoint scan_digits (n : Z) (s : cstr) : Z * cstr :=
  match s with
  | c :: s' => if isdigit c then scan_digits (n * 10 + (c - 48)) s' else (n, s)
  | [] => (n, [])
  end.
Definition clamp64 (n : Z) : Z := Z.max (- 2 ^ 63) (Z.min n (2 ^ 63 - 1)).
Definition strtol (s : cstr) : Z * cstr :=
  let t := skip_space s in
  let '(neg, t) := match t with
                   | 45 :: t' => (true, t') | 43 :: t' => (false, t') | _ => (false, t)
                   end in
  match t with
  | c :: _ => if isdigit c
              then let '(n, rest) := scan_digits 0 t in
                   (clamp64 (if neg then - n else n), rest)
              else (0, s)
  | [] => (0, s)
  end.
Definition atoi (s : cstr) : Z := s32 (strtol s).1.

(** What is printed is read back. *)
Lemma scan_dec f : forall n acc, 0 <= n < 10 ^ Z.of_nat f ->
  scan_digits 0 (dec_digits f n acc) = scan_digits n acc.
Proof.
  induction f as [|f IH]; intros n acc Hn; cbn [dec_digits].
  { replace n with 0 by (simpl in Hn; lia). done. }
  rewrite Nat2Z.inj_succ, Z.pow_succ_r in Hn by lia. destruct (Z.ltb_spec n 10).
  - cbn [scan_digits]. unfold isdigit. rewrite (proj2 (andb_true_iff _ _)) by lia. f_equal. lia.
  - rewrite IH by dlia. cbn [scan_digits]. unfold isdigit. rewrite (proj2 (andb_true_iff _ _)) by dlia. f_equal. dlia.
Qed.

Lemma dec_head f : forall n acc, 0 <= n -> exists c r, dec_digits (S f) n acc = c :: r /\ 48 <= c <= 57.
Proof.
  induction f as [|f IH]; intros n acc Hn; cbn [dec_digits].
  - destruct (Z.ltb_spec n 10); eexists _, _; (split; [done|]); [lia|dlia].
  - destruct (Z.ltb_spec n 10); [eexists _, _; split; [done|lia]|]. apply IH. dlia.
Qed.

Lemma atoi_fmt_d n : 0 <= n < 2 ^ 31 -> atoi (fmt_d n) = n.
Proof.
  intros Hn. unfold atoi, fmt_d, strtol. rewrite (proj2 (Z.ltb_ge n 0)) by lia.
  pose proof (scan_dec 20 n [] ltac:(simpl; lia)) as Hs.
  destruct (dec_head 19 n [] ltac:(lia)) as (c & r & E & Hc). rewrite E in *. cbn [skip_space].
  assert (isspace c = false) as -> by (unfold isspace; lia).
  assert (Hd : isdigit c = true) by (unfold isdigit; lia).
  assert (Hm : match c with 45 => (true, r) | 43 => (false, r) | _ => (false, c :: r) end = (false, c :: r)).
  { assert (Hcs : c = 48 \/ c = 49 \/ c = 50 \/ c = 51 \/ c = 52 \/ c = 53 \/ c = 54 \/ c = 55 \/ c = 56 \/ c = 57) by lia.
    by destruct_or! Hcs; subst. }
  rewrite Hm, Hd, Hs. cbn [scan_digits fst]. unfold clamp64, s32. rewrite Z.min_l, Z.max_r, Z.mod_small; lia.
Qed.

Lemma dec_digits_are_digits f : forall n acc, 0 <= n ->
  Forall (fun c => isdigit c = true) acc -> Forall (fun c => isdigit c = true) (dec_digits f n acc).
Proof.
  induction f as [|f IH]; intros n acc Hn Hacc; cbn [dec_digits]; [done|]. destruct (Z.ltb_spec n 10).
  - apply Forall_cons. split; [unfold isdigit; lia|done].
  - apply IH; [dlia|]. apply Forall_cons. split; [unfold isdigit; dlia|done].
Qed.

Lemma fmt_d_digits n : 0 <= n -> Forall (fun c => isdigit c = true) (fmt_d n) /\ fmt_d n <> [].
Proof.
  intros Hn. unfold fmt_d. rewrite (proj2 (Z.ltb_ge n 0)) by lia. split; [by apply dec_digits_are_digits|].
  destruct (dec_head 19 n [] Hn) as (c & r & -> & _). done.
Qed.
