(* ===== verification/Bitstring.v ===== *)
(** * Bitmaps: src/common/bitstring.c and bitstring.h

    A [bitstr_t *] is an array of 64-bit words: word 0 is a magic cookie,
    word 1 the number of valid bits, and the bits follow from word 2
    ([BITSTR_OVERHEAD]).  [bs_words] holds the words from index 2 on, each as
    the unsigned 64-bit integer with the same bit pattern. *)

From S2P Require Import Prelude.

Local Open Scope Z_scope.
Local Open Scope slurm_scope.

Definition BITSTR_SHIFT : Z := 6.
Definition BITSTR_MAXVAL : Z := 0xffffffffffffffff.
Definition BITSTR_MAXPOS : Z := 63.
Definition BITSTR_MAGIC : Z := 0x42434445.
Definition BITSTR_MAGIC_STACK : Z := 0x42434446.
Abbreviation word_size := 64 (only parsing).

Record bitstr : Type := Bitstr {
  bs_magic : Z;
  bs_bits : Z;
  bs_words : list Z
}.

(** [_bit_word], counted from the first word after the overhead. *)
Definition bit_word (bit : Z) : Z := Z.shiftr bit BITSTR_SHIFT.
Definition bit_mask (bit : Z) : Z := Z.shiftl 1 (Z.land bit BITSTR_MAXPOS).
(** [_bitstr_words], less the overhead. *)
Definition bitstr_words (nbits : Z) : Z := Z.shiftr (nbits + BITSTR_MAXPOS) BITSTR_SHIFT.
Definition bitstr_valid (b : bitstr) : bool :=
  (bs_magic b =? BITSTR_MAGIC) || (bs_magic b =? BITSTR_MAGIC_STACK).
Definition bit_valid (b : bitstr) (bit : Z) : bool := (0 <=? bit) && (bit <? bs_bits b).
Definition valid_size (nbits : Z) : bool := (0 <=? nbits) && (nbits <=? 0x40000000).

(** [b[word]] read and written. *)
Definition get_word (b : bitstr) (word : Z) : exec Z := aget (bs_words b) word.
Definition set_word (b : bitstr) (word v : Z) : exec bitstr :=
  ws ← aset (bs_words b) word v; Ret (Bitstr (bs_magic b) (bs_bits b) ws).

Definition bit_alloc (nbits : Z) : exec bitstr :=
  assert! valid_size nbits ;;
  Ret (Bitstr BITSTR_MAGIC nbits (replicate (Z.to_nat (bitstr_words nbits)) 0)).

(** [xrealloc] keeps the common prefix and zeroes what it adds. *)
Definition bit_realloc (b : bitstr) (nbits : Z) : exec bitstr :=
  assert! bitstr_valid b ;;
  assert! valid_size nbits ;;
  Ret (Bitstr (bs_magic b) nbits
         (resize (Z.to_nat (bitstr_words nbits)) 0 (bs_words b))).

Definition bit_free (b : bitstr) : exec unit :=
  assert! bs_magic b =? BITSTR_MAGIC ;;
  Ret tt.

Definition bit_size (b : bitstr) : exec Z :=
  assert! bitstr_valid b ;;
  Ret (bs_bits b).

Definition bit_test (b : bitstr) (bit : Z) : exec bool :=
  assert! bitstr_valid b ;;
  assert! bit_valid b bit ;;
  w ← get_word b (bit_word bit);
  Ret (negb (Z.land w (bit_mask bit) =? 0)).

Definition bit_set (b : bitstr) (bit : Z) : exec bitstr :=
  assert! bitstr_valid b ;;
  assert! bit_valid b bit ;;
  w ← get_word b (bit_word bit);
  set_word b (bit_word bit) (Z.lor w (bit_mask bit)).

Definition bit_clear (b : bitstr) (bit : Z) : exec bitstr :=
  assert! bitstr_valid b ;;
  assert! bit_valid b bit ;;
  w ← get_word b (bit_word bit);
  set_word b (bit_word bit) (Z.land w (u64 (Z.lnot (bit_mask bit)))).

(** One byte store into a little-endian word. *)
Definition set_byte (w k c : Z) : Z :=
  Z.lor (Z.land w (u64 (Z.lnot (Z.shiftl 0xff (8 * k))))) (Z.shiftl c (8 * k)).

(** [memset] of [n] bytes from byte offset [addr] of the bit area. *)
Fixpoint memset (b : bitstr) (addr c : Z) (n : nat) : exec bitstr :=
  match n with
  | O => Ret b
  | S n' =>
      w ← get_word b (addr / 8);
      b' ← set_word b (addr / 8) (set_byte w (addr `mod` 8) c);
      memset b' (addr + 1) c n'
  end.

Definition bit_byteaddr (bit : Z) : Z := Z.shiftr bit 3.

(** The loops of [bit_nset] and [bit_nclear] over the partial first and last
    bytes; [op] is [bit_set] or [bit_clear]. *)
Definition nfill_low (op : bitstr -> Z -> exec bitstr) (stop : Z)
    (b : bitstr) (start : Z) : exec (bitstr * Z) :=
  loop 9 (fun '(b, start) =>
    if (start <=? stop) && (0 <? start `mod` 8)
    then b' ← op b start; Ret (inl (b', start + 1))
    else Ret (inr (b, start))) (b, start).

Definition nfill_high (op : bitstr -> Z -> exec bitstr) (start : Z)
    (b : bitstr) (stop : Z) : exec (bitstr * Z) :=
  loop 9 (fun '(b, stop) =>
    if (start <=? stop) && (0 <? (stop + 1) `mod` 8)
    then b' ← op b stop; Ret (inl (b', stop - 1))
    else Ret (inr (b, stop))) (b, stop).

(** The body shared by [bit_nset] (bit operation [op = bit_set], fill byte
    [0xff]) and [bit_nclear] ([op = bit_clear], fill byte [0]). *)
Definition bit_nfill (op : bitstr -> Z -> exec bitstr) (fill : Z)
    (b : bitstr) (start stop : Z) : exec bitstr :=
  assert! bitstr_valid b ;;
  assert! bit_valid b start ;;
  assert! bit_valid b stop ;;
  '(b, start) ← nfill_low op stop b start;
  '(b, stop) ← nfill_high op start b stop;
  if start <? stop
  then assert! (stop - start + 1) `mod` 8 =? 0 ;;
       memset b (bit_byteaddr start) fill (Z.to_nat ((stop - start + 1) / 8))
  else Ret b.

Definition bit_nset : bitstr -> Z -> Z -> exec bitstr := bit_nfill bit_set 0xff.
Definition bit_nclear : bitstr -> Z -> Z -> exec bitstr := bit_nfill bit_clear 0.

Definition bit_set_all (b : bitstr) : exec bitstr :=
  n ← bit_size b; bit_nset b 0 (n - 1).
Definition bit_clear_all (b : bitstr) : exec bitstr :=
  n ← bit_size b; bit_nclear b 0 (n - 1).

Definition loop_fuel (b : bitstr) : nat := S (Z.to_nat (bs_bits b)).

(** The body shared by [bit_ffc] (skip words equal to [BITSTR_MAXVAL], look
    for a clear bit) and [bit_ffs] (skip zero words, look for a set bit). *)
Definition bit_ff_word (want : bool) (b : bitstr) (word bit : Z) : exec (Z * Z) :=
  loop (loop_fuel b) (fun bit =>
    if (bit <? bs_bits b) && (bit_word bit =? word)
    then t ← bit_test b bit;
         if Bool.eqb t want then Ret (inr (bit, bit)) else Ret (inl (bit + 1))
    else Ret (inr (bit, -1))) bit.

Definition bit_ff (skip : Z) (want : bool) (b : bitstr) : exec Z :=
  assert! bitstr_valid b ;;
  loop (loop_fuel b) (fun '(bit, value) =>
    if (bit <? bs_bits b) && (value =? -1)
    then w ← get_word b (bit_word bit);
         if w =? skip then Ret (inl (bit + word_size, value))
         else p ← bit_ff_word want b (bit_word bit) bit; Ret (inl p)
    else Ret (inr value)) (0, -1).

Definition bit_ffc : bitstr -> exec Z := bit_ff BITSTR_MAXVAL false.
Definition bit_ffs : bitstr -> exec Z := bit_ff 0 true.

(** One scan for [n] consecutive bits equal to [want] over positions
    [bit .. until-1]; [brk bit] tells whether to give up at a bit that breaks
    the run. *)
Definition find_run (want : bool) (brk : Z -> bool) (b : bitstr) (n bit until : Z) : exec Z :=
  loop (loop_fuel b) (fun '(bit, cnt) =>
    if bit <? until
    then t ← bit_test b bit;
         if Bool.eqb t want
         then if n <=? cnt + 1 then Ret (inr (bit - cnt)) else Ret (inl (bit + 1, cnt + 1))
         else if brk bit then Ret (inr (-1)) else Ret (inl (bit + 1, 0))
    else Ret (inr (-1))) (bit, 0).

Definition bit_nffc (b : bitstr) (n : Z) : exec Z :=
  assert! bitstr_valid b ;;
  assert! (0 <? n) && (n <? bs_bits b) ;;
  find_run false (fun _ => false) b n 0 (bs_bits b).

Definition bit_noc (b : bitstr) (n seed : Z) : exec Z :=
  assert! bitstr_valid b ;;
  assert! (0 <? n) && (n <=? bs_bits b) ;;
  s ← i32 (seed + n);
  let seed := if bs_bits b <=? s then bs_bits b else seed in
  value ← find_run false (fun _ => false) b n seed (bs_bits b);
  if value =? -1
  then find_run false (fun bit => seed <=? bit) b n 0 (bs_bits b)
  else Ret value.

(** The loop runs while [bit <= _bitstr_bits(b) - n]. *)
Definition bit_nffs (b : bitstr) (n : Z) : exec Z :=
  assert! bitstr_valid b ;;
  assert! (0 <? n) && (n <=? bs_bits b) ;;
  find_run true (fun _ => false) b n 0 (bs_bits b - n + 1).

Definition bit_fls (b : bitstr) : exec Z :=
  assert! bitstr_valid b ;;
  if bs_bits b =? 0 then Ret (-1) else
  '(bit, value) ← loop (loop_fuel b) (fun bit =>
    if (0 <=? bit) && (bit_word bit =? bit_word (bit + 1))
    then t ← bit_test b bit;
         if (t : bool) then Ret (inr (bit, bit)) else Ret (inl (bit - 1))
    else Ret (inr (bit, -1))) (bs_bits b - 1);
  loop (loop_fuel b) (fun '(bit, value) =>
    if (0 <=? bit) && (value =? -1)
    then w ← get_word b (bit_word bit);
         if w =? 0 then Ret (inl (bit - word_size, value))
         else p ← loop (loop_fuel b) (fun bit =>
                if 0 <=? bit
                then t ← bit_test b bit;
                     if (t : bool) then Ret (inr (bit, bit)) else Ret (inl (bit - 1))
                else Ret (inr (bit, -1))) bit;
              Ret (inl p)
    else Ret (inr value)) (bit, value).

Definition bit_fill_gaps (b : bitstr) : exec bitstr :=
  assert! bitstr_valid b ;;
  first ← bit_ffs b;
  if first =? -1 then Ret b else
  last ← bit_fls b;
  bit_nset b first last.

(** [for (bit = 0; bit < nbits; bit += 64)] over pairs of words, stopping with
    0 at the first pair that fails [test]. *)
Definition all_words (test : Z -> Z -> bool) (b1 b2 : bitstr) : exec bool :=
  loop (loop_fuel b1) (fun bit =>
    if bit <? bs_bits b1
    then w1 ← get_word b1 (bit_word bit);
         w2 ← get_word b2 (bit_word bit);
         if test w1 w2 then Ret (inl (bit + word_size)) else Ret (inr false)
    else Ret (inr true)) 0.

Definition bit_super_set (b1 b2 : bitstr) : exec bool :=
  assert! bitstr_valid b1 ;;
  assert! bitstr_valid b2 ;;
  assert! bs_bits b1 =? bs_bits b2 ;;
  all_words (fun w1 w2 => w1 =? Z.land w1 w2) b1 b2.

Definition bit_equal (b1 b2 : bitstr) : exec bool :=
  assert! bitstr_valid b1 ;;
  assert! bitstr_valid b2 ;;
  if negb (bs_bits b1 =? bs_bits b2) then Ret false else
  all_words (fun w1 w2 => w1 =? w2) b1 b2.

(** [for (bit = 0; bit < nbits; bit += 64) b1[w] = f(b1[w], b2[w])]. *)
Definition map_words (f : Z -> Z -> Z) (b1 b2 : bitstr) : exec bitstr :=
  loop (loop_fuel b1) (fun '(bit, b1) =>
    if bit <? bs_bits b1
    then w1 ← get_word b1 (bit_word bit);
         w2 ← get_word b2 (bit_word bit);
         b1' ← set_word b1 (bit_word bit) (f w1 w2);
         Ret (inl (bit + word_size, b1'))
    else Ret (inr b1)) (0, b1).

Definition bit_op (f : Z -> Z -> Z) (b1 b2 : bitstr) : exec bitstr :=
  assert! bitstr_valid b1 ;;
  assert! bitstr_valid b2 ;;
  assert! bs_bits b1 =? bs_bits b2 ;;
  map_words f b1 b2.

Definition bit_and : bitstr -> bitstr -> exec bitstr := bit_op Z.land.
Definition bit_and_not : bitstr -> bitstr -> exec bitstr :=
  bit_op (fun w1 w2 => Z.land w1 (u64 (Z.lnot w2))).
Definition bit_or : bitstr -> bitstr -> exec bitstr := bit_op Z.lor.
Definition bit_not (b : bitstr) : exec bitstr :=
  assert! bitstr_valid b ;;
  map_words (fun w _ => u64 (Z.lnot w)) b b.

(** [memcpy] of the data words. *)
Definition copy_words (dest src : bitstr) (n : nat) : exec bitstr :=
  assert! (n <=? length (bs_words dest))%nat && (n <=? length (bs_words src))%nat ;;
  Ret (Bitstr (bs_magic dest) (bs_bits dest)
         (take n (bs_words src) ++ drop n (bs_words dest))).

Definition bit_copy (b : bitstr) : exec bitstr :=
  assert! bitstr_valid b ;;
  newsize_bits ← bit_size b;
  new ← bit_alloc newsize_bits;
  copy_words new b (Z.to_nat (bitstr_words newsize_bits)).

Definition bit_copybits (dest src : bitstr) : exec bitstr :=
  assert! bitstr_valid dest ;;
  assert! bitstr_valid src ;;
  n ← bit_size src;
  m ← bit_size dest;
  assert! n =? m ;;
  copy_words dest src (Z.to_nat (bitstr_words n)).

Definition hweight (w : Z) : Z :=
  let w := u64 (w - Z.land (Z.shiftr w 1) 0x5555555555555555) in
  let w := u64 (Z.land w 0x3333333333333333 + Z.land (Z.shiftr w 2) 0x3333333333333333) in
  let w := Z.land (u64 (w + Z.shiftr w 4)) 0x0f0f0f0f0f0f0f0f in
  Z.shiftr (u64 (w * 0x0101010101010101)) 56.

(** [for (; bit + 64 <= end; bit += 64) count += hweight(f(word))], then
    [for (; bit < end; bit++) if (test) count++]: the counting loops shared by
    the four counting functions. *)
Definition count_words (word : Z -> exec Z) (fuel : nat) (end_ : Z) (bit count : Z)
    : exec (Z * Z) :=
  loop fuel (fun '(bit, count) =>
    if bit + word_size <=? end_
    then w ← word bit; Ret (inl (bit + word_size, count + hweight w))
    else Ret (inr (bit, count))) (bit, count).

Definition count_bits (test : Z -> exec bool) (fuel : nat) (end_ : Z) (bit count : Z)
    : exec (Z * Z) :=
  loop fuel (fun '(bit, count) =>
    if bit <? end_
    then t ← test bit; Ret (inl (bit + 1, if (t : bool) then count + 1 else count))
    else Ret (inr (bit, count))) (bit, count).

Definition bit_set_count (b : bitstr) : exec Z :=
  assert! bitstr_valid b ;;
  let bit_cnt := bs_bits b in
  '(bit, count) ← count_words (fun bit => get_word b (bit_word bit)) (loop_fuel b) bit_cnt 0 0;
  '(_, count) ← count_bits (bit_test b) (loop_fuel b) bit_cnt bit count;
  Ret count.

Definition bit_set_count_range (b : bitstr) (start end_ : Z) : exec Z :=
  assert! bitstr_valid b ;;
  assert! bit_valid b start ;;
  let end_ := if end_ <? bs_bits b then end_ else bs_bits b in
  let eow := (start + word_size - 1) / word_size * word_size in
  '(bit, count) ← count_bits (bit_test b) (loop_fuel b)
                    (if end_ <? eow then end_ else eow) start 0;
  '(bit, count) ← count_words (fun bit => get_word b (bit_word bit)) (loop_fuel b) end_ bit count;
  '(_, count) ← count_bits (bit_test b) (loop_fuel b) end_ bit count;
  Ret count.

Definition bit_overlap (b1 b2 : bitstr) : exec Z :=
  assert! bitstr_valid b1 ;;
  assert! bitstr_valid b2 ;;
  assert! bs_bits b1 =? bs_bits b2 ;;
  let bit_cnt := bs_bits b1 in
  '(bit, count) ← count_words (fun bit =>
      w1 ← get_word b1 (bit_word bit);
      w2 ← get_word b2 (bit_word bit);
      Ret (Z.land w1 w2)) (loop_fuel b1) bit_cnt 0 0;
  '(_, count) ← count_bits (fun bit =>
      t1 ← bit_test b1 bit;
      if (t1 : bool) then bit_test b2 bit else Ret false) (loop_fuel b1) bit_cnt bit count;
  Ret count.

Definition bit_clear_count (b : bitstr) : exec Z :=
  assert! bitstr_valid b ;;
  n ← bit_set_count b;
  Ret (bs_bits b - n).

Definition bit_clear_count_range (b : bitstr) (start end_ : Z) : exec Z :=
  assert! bitstr_valid b ;;
  diff ← i32 (end_ - start);
  if diff <? 1 then Ret 0 else
  n ← bit_set_count_range b start end_;
  Ret (diff - n).

Definition bit_nset_max_count (b : bitstr) : exec Z :=
  assert! bitstr_valid b ;;
  let bitsize := bs_bits b in
  loop (loop_fuel b) (fun '(bit, cnt, maxcnt) =>
    if bit <? bitsize
    then t ← bit_test b bit;
         let cnt' := if (t : bool) then cnt + 1 else 0 in
         let maxcnt' := if t && (maxcnt <? cnt') then cnt' else maxcnt in
         if (cnt' =? 0) && (bitsize - bit <? maxcnt') then Ret (inr maxcnt')
         else Ret (inl (bit + 1, cnt', maxcnt'))
    else Ret (inr maxcnt)) (0, 0, 0).

(** Both copying loops of [bit_rotate_copy]: source bits [bit .. stop-1] go to
    destination bits from [dst] on ([bit + n] in the first loop, which starts
    at bit 0; the wrapped-around [dst] in the second). *)
Definition rotate_bits (b1 : bitstr) (stop bit dst : Z) (new : bitstr) : exec (Z * bitstr) :=
  loop (loop_fuel b1) (fun '(bit, dst, new) =>
    if bit <? stop
    then t ← bit_test b1 bit;
         new' ← (if (t : bool) then bit_set new dst else Ret new);
         Ret (inl (bit + 1, dst + 1, new'))
    else Ret (inr (bit, new))) (bit, dst, new).

Definition bit_rotate_copy (b1 : bitstr) (n nbits : Z) : exec bitstr :=
  assert! bitstr_valid b1 ;;
  bitsize ← bit_size b1;
  assert! bitsize <=? nbits ;;
  let deltasize := nbits - bitsize in
  assert! negb (nbits =? 0) ;;          (* division by zero *)
  let n := Z.rem n nbits in
  let n := if n <? 0 then n + nbits else n in
  let wrapbits := if deltasize <? n then n - deltasize else 0 in
  new ← bit_alloc nbits;
  new ← bit_nclear new 0 (nbits - 1);
  '(bit, new) ← rotate_bits b1 (bitsize - wrapbits) 0 n new;
  '(_, new) ← rotate_bits b1 bitsize bit 0 new;
  Ret new.

Definition bit_rotate (b1 : bitstr) (n : Z) : exec bitstr :=
  if n =? 0 then Ret b1 else
  assert! bitstr_valid b1 ;;
  bitsize ← bit_size b1;
  new ← bit_rotate_copy b1 n bitsize;
  b1 ← bit_copybits b1 new;
  _ ← bit_free new;
  Ret b1.

(** [None] is the NULL result. *)
Definition bit_pick_cnt (b : bitstr) (nbits : Z) : exec (option bitstr) :=
  assert! bitstr_valid b ;;
  if bs_bits b <? nbits then Ret None else
  n ← bit_size b;
  new ← bit_alloc n;
  '(count, new) ← loop (loop_fuel b) (fun '(bit, count, new) =>
    if (bit <? bs_bits b) && (count <? nbits)
    then w ← get_word b (bit_word bit);
         if w =? 0 then Ret (inl (bit + word_size, count, new)) else
         let new_bits := hweight w in
         if (count + new_bits <=? nbits) && (bit + word_size - 1 <? bs_bits b)
         then new' ← set_word new (bit_word bit) w;
              Ret (inl (bit + word_size, count + new_bits, new'))
         else s' ← loop (loop_fuel b) (fun '(bit, count, new) =>
                if (bit <? bs_bits b) && (count <? nbits)
                then t ← bit_test b bit;
                     if (t : bool)
                     then new' ← bit_set new bit; Ret (inl (bit + 1, count + 1, new'))
                     else Ret (inl (bit + 1, count, new))
                else Ret (inr (bit, count, new))) (bit, count, new);
              Ret (inl s')
    else Ret (inr (count, new))) (0, 0, new);
  if count <? nbits then _ ← bit_free new; Ret None else Ret (Some new).

Definition bit_get_bit_num (b : bitstr) (pos : Z) : exec Z :=
  assert! bitstr_valid b ;;
  let bit_cnt := bs_bits b in
  assert! pos <=? bit_cnt ;;
  bit ← loop (loop_fuel b) (fun '(bit, cnt) =>
    if bit <? bit_cnt
    then t ← bit_test b bit;
         if (t : bool)
         then if cnt =? pos then Ret (inr bit) else Ret (inl (bit + 1, cnt + 1))
         else Ret (inl (bit + 1, cnt))
    else Ret (inr bit)) (0, 0);
  Ret (if bit_cnt <=? bit then -1 else bit).

Definition bit_get_pos_num (b : bitstr) (pos : Z) : exec Z :=
  assert! bitstr_valid b ;;
  let bit_cnt := bs_bits b in
  assert! pos <=? bit_cnt ;;
  t ← bit_test b pos;
  if negb t then Ret (-1) else
  '(_, cnt) ← count_bits (bit_test b) (loop_fuel b) (pos + 1) 0 (-1);
  Ret cnt.

#[global] Arguments hweight : simpl never.
