(* ===== verification/Popcount.v ===== *)
(** * The population count of src/common/bitstring.c

    [hweight] adds the bits of a word in parallel fields of two, four and
    eight bits.  The proof follows the bytes of the word: each of the three
    masking steps acts on the bytes one by one, with no carry between them. *)

From S2P Require Import Prelude Bitstring.

Local Open Scope Z_scope.

Lemma testbit_split x y i :
  0 <= x < 256 -> 0 <= i ->
  Z.testbit (x + 256 * y) i = if i <? 8 then Z.testbit x i else Z.testbit y (i - 8).
Proof.
  intros Hx Hi. destruct (Z.ltb_spec i 8).
  - rewrite <-(Z.mod_pow2_bits_low _ 8) by lia. f_equal. change (2 ^ 8) with 256. dlia.
  - replace i with (i - 8 + 8) at 1 by lia. rewrite <-Z.div_pow2_bits by lia.
    f_equal. change (2 ^ 8) with 256. dlia.
Qed.

(** A mask that keeps only bits unaffected by the neighbouring byte. *)
Lemma land_shift_split x y m M k :
  0 <= k <= 8 -> 0 <= x < 256 -> 0 <= m < 2 ^ (8 - k) ->
  Z.land (Z.shiftr (x + 256 * y) k) (m + 256 * M) =
  Z.land (Z.shiftr x k) m + 256 * Z.land (Z.shiftr y k) M.
Proof.
  intros Hk Hx Hm. assert (2 ^ (8 - k) <= 256) by (apply (Z.pow_le_mono_r 2 _ 8); lia).
  assert (0 <= Z.land (Z.shiftr x k) m < 256).
  { rewrite Z.land_comm. apply (land_range m _ 8); lia. }
  apply Z.bits_inj'. intros i Hi.
  rewrite Z.land_spec, Z.shiftr_spec, !testbit_split by lia.
  destruct (Z.ltb_spec i 8).
  - rewrite Z.land_spec, Z.shiftr_spec by lia. if_case; [done|].
    rewrite (testbit_small m (8 - k) i) by lia. by rewrite !andb_false_r.
  - if_case; [lia|]. rewrite Z.land_spec, Z.shiftr_spec by lia. do 2 f_equal. lia.
Qed.

(** The mask with byte [m] repeated [n] times. *)
Fixpoint rep (m : Z) (n : nat) : Z :=
  match n with O => 0 | S n => m + 256 * rep m n end.

Definition swar1 (n : nat) (w : Z) : Z := w - Z.land (Z.shiftr w 1) (rep 0x55 n).
Definition swar2 (n : nat) (w : Z) : Z :=
  Z.land w (rep 0x33 n) + Z.land (Z.shiftr w 2) (rep 0x33 n).
Definition swar3 (n : nat) (w : Z) : Z := Z.land (w + Z.shiftr w 4) (rep 0x0f n).

Definition pop8 (x : Z) : Z := count (Z.testbit x) 0 8.

(** The three steps on a single byte, checked on all 256 of them. *)
Lemma byte_steps x :
  0 <= x < 256 ->
  let x1 := swar1 1 x in let x2 := swar2 1 x1 in
  (0 <= x1 < 256 /\ 0 <= x2 <= 0x44 /\ x2 `mod` 16 <= 4) /\
  swar3 1 x2 = pop8 x /\ 0 <= pop8 x <= 8.
Proof.
  intros Hx.
  assert (forallb (fun x : Z =>
     let x1 := swar1 1 x in let x2 := swar2 1 x1 in
     (0 <=? x1) && (x1 <? 256) && (0 <=? x2) && (x2 <=? 0x44) && (x2 `mod` 16 <=? 4) &&
     (swar3 1 x2 =? pop8 x) && (0 <=? pop8 x) && (pop8 x <=? 8)) (seqZ 0 256) = true) as H
    by (vm_compute; reflexivity).
  rewrite forallb_forall in H. specialize (H x). cbv zeta in *.
  rewrite <-list_elem_of_In, elem_of_seqZ in H. specialize (H ltac:(lia)). lia.
Qed.

Lemma rep_S m n : rep m (S n) = m + 256 * rep m n.
Proof. done. Qed.

Lemma rep_1 m : rep m 1 = m.
Proof. simpl. lia. Qed.

Lemma swar1_split n x y : 0 <= x < 256 -> swar1 (S n) (x + 256 * y) = swar1 1 x + 256 * swar1 n y.
Proof.
  intros Hx. unfold swar1. rewrite (rep_S _ n), rep_1, land_shift_split by lia. lia.
Qed.

Lemma swar2_split n x y : 0 <= x < 256 -> swar2 (S n) (x + 256 * y) = swar2 1 x + 256 * swar2 n y.
Proof.
  intros Hx. unfold swar2. rewrite (rep_S _ n), rep_1, land_shift_split by lia.
  pose proof (land_shift_split x y 0x33 (rep 0x33 n) 0) as H.
  rewrite !Z.shiftr_0_r in H. rewrite H by lia. lia.
Qed.

Lemma swar3_split n x y :
  0 <= x <= 0x44 -> 0 <= y -> y `mod` 16 <= 4 ->
  swar3 (S n) (x + 256 * y) = swar3 1 x + 256 * swar3 n y.
Proof.
  intros Hx Hy Hm. unfold swar3. rewrite (rep_S _ n), rep_1.
  replace (x + 256 * y + Z.shiftr (x + 256 * y) 4)
    with (x + Z.shiftr x 4 + 16 * (y `mod` 16) + 256 * (y + Z.shiftr y 4)).
  2: { rewrite !Z.shiftr_div_pow2 by lia. change (2 ^ 4) with 16. dlia. }
  pose proof (land_shift_split (x + Z.shiftr x 4 + 16 * (y `mod` 16)) (y + Z.shiftr y 4)
                0x0f (rep 0x0f n) 0) as H.
  rewrite !Z.shiftr_0_r in H. rewrite H; [|lia| |lia].
  2: { rewrite !Z.shiftr_div_pow2 by lia. change (2 ^ 4) with 16. dlia. }
  f_equal. change 0x0f with (Z.ones 4). rewrite !Z.land_ones by lia.
  change (2 ^ 4) with 16. dlia.
Qed.

(** The bytes of [w] replaced by their population counts. *)
Fixpoint pops (n : nat) (w : Z) : Z :=
  match n with O => 0 | S n => pop8 (w `mod` 256) + 256 * pops n (w / 256) end.

Lemma swar_pops n : forall w, 0 <= w < 256 ^ Z.of_nat n ->
  (0 <= swar1 n w < 256 ^ Z.of_nat n /\ 0 <= swar2 n (swar1 n w) < 256 ^ Z.of_nat n /\
   swar2 n (swar1 n w) `mod` 16 <= 4 /\
   0 <= swar2 n (swar1 n w) + Z.shiftr (swar2 n (swar1 n w)) 4 < 256 ^ Z.of_nat n) /\
  swar3 n (swar2 n (swar1 n w)) = pops n w.
Proof.
  induction n as [|n IH]; intros w Hw.
  { replace w with 0 by (simpl in Hw; lia). by vm_compute. }
  rewrite Nat2Z.inj_succ, Z.pow_succ_r in * by lia.
  cbn [pops]. set (x := w `mod` 256). set (y := w / 256).
  replace w with (x + 256 * y) by (unfold x, y; dlia).
  destruct (IH y) as [(H1 & H2 & H3 & H4) H5]; [unfold y; dlia|].
  destruct (byte_steps x) as [(B1 & B2 & B3) [B4 B5]]; [unfold x; dlia|]. cbv zeta in *.
  rewrite swar1_split by (unfold x; dlia). rewrite swar2_split by lia.
  rewrite swar3_split, B4, H5 by lia. split; [|done].
  set (a := swar2 1 _) in *. set (c := swar2 n _) in *. split_and!; try lia; try dlia.
  - rewrite !Z.shiftr_div_pow2 in * by lia. change (2 ^ 4) with 16 in *. dlia.
  - rewrite !Z.shiftr_div_pow2 in * by lia. change (2 ^ 4) with 16 in *. dlia.
Qed.

Lemma pop8_range x : 0 <= pop8 x <= 8.
Proof. pose proof (count_range (Z.testbit x) 0 8). unfold pop8. lia. Qed.

(** Multiplying by 0x0101...01 leaves the sum of the bytes in the top byte. *)
Lemma top_byte_sum c0 c1 c2 c3 c4 c5 c6 c7 :
  0 <= c0 <= 8 -> 0 <= c1 <= 8 -> 0 <= c2 <= 8 -> 0 <= c3 <= 8 ->
  0 <= c4 <= 8 -> 0 <= c5 <= 8 -> 0 <= c6 <= 8 -> 0 <= c7 <= 8 ->
  Z.shiftr (u64 ((c0 + 256 * (c1 + 256 * (c2 + 256 * (c3 + 256 * (c4 + 256 * (c5 + 256 * (c6
     + 256 * c7))))))) * 0x0101010101010101)) 56 = c0 + c1 + c2 + c3 + c4 + c5 + c6 + c7.
Proof.
  intros. rewrite Z.shiftr_div_pow2 by lia. unfold u64.
  set (q := (c1 + c2 + c3 + c4 + c5 + c6 + c7) + 256 * ((c2 + c3 + c4 + c5 + c6 + c7) + 256 * ((c3 + c4 + c5 + c6 + c7) + 256 * ((c4 + c5 + c6 + c7) + 256 * ((c5 + c6 + c7) + 256 * ((c6 + c7) + 256 * ((c7)))))))).
  set (r := (c0) + 256 * ((c0 + c1) + 256 * ((c0 + c1 + c2) + 256 * ((c0 + c1 + c2 + c3) + 256 * ((c0 + c1 + c2 + c3 + c4) + 256 * ((c0 + c1 + c2 + c3 + c4 + c5) + 256 * ((c0 + c1 + c2 + c3 + c4 + c5 + c6)))))))).
  set (s := c0 + c1 + c2 + c3 + c4 + c5 + c6 + c7).
  rewrite <-(Z.mod_unique _ (2 ^ 64) q (r + 2 ^ 56 * s)); [|left; lia|lia].
  symmetry. apply (Z.div_unique _ _ _ r); [left; lia|lia].
Qed.

Lemma count_bytes n : forall w, count (Z.testbit w) 0 (8 * Z.of_nat (S n)) =
  pop8 (w `mod` 256) + count (Z.testbit (w / 256)) 0 (8 * Z.of_nat n).
Proof.
  intros w. rewrite (count_split _ 0 8) by lia. f_equal.
  - unfold pop8. apply count_ext. intros i Hi.
    change 256 with (2 ^ 8). by rewrite Z.mod_pow2_bits_low by lia.
  - replace (8 * Z.of_nat (S n)) with (8 + 8 * Z.of_nat n) by lia. apply count_shift.
    intros i Hi. change 256 with (2 ^ 8). rewrite Z.div_pow2_bits by lia. f_equal. lia.
Qed.

Lemma hweight_spec w : 0 <= w < 2 ^ 64 -> hweight w = count (Z.testbit w) 0 64.
Proof.
  intros Hw. destruct (swar_pops 8 w) as [(H1 & H2 & _ & H4) H5]; [done|].
  change (256 ^ Z.of_nat 8) with (2 ^ 64) in *.
  unfold hweight. cbv zeta.
  change 0x5555555555555555 with (rep 0x55 8). change 0x3333333333333333 with (rep 0x33 8).
  change 0x0f0f0f0f0f0f0f0f with (rep 0x0f 8).
  fold (swar1 8 w). rewrite (Z.mod_small _ _ H1 : u64 (swar1 8 w) = _).
  fold (swar2 8 (swar1 8 w)). rewrite (Z.mod_small _ _ H2 : u64 (swar2 8 (swar1 8 w)) = _).
  rewrite (Z.mod_small _ _ H4 : u64 (_ + _) = _). fold (swar3 8 (swar2 8 (swar1 8 w))).
  rewrite H5. cbn [pops]. rewrite Z.mul_0_r, Z.add_0_r.
  rewrite top_byte_sum by (apply pop8_range).
  change 64 with (8 * Z.of_nat 8). rewrite !count_bytes. rewrite count_empty by lia. lia.
Qed.
