(* ===== verification/BitstringFacts.v ===== *)
(** * Bitmaps: what the operations of [Bitstring] compute

    [bs_mem b i] is the abstract value of bit [i]; [bs_wf] is the
    representation invariant; [bs_upd b b' f] says that [b'] is a well-formed
    bitmap of the same shape as [b] whose bits are given by [f]. *)

From S2P Require Import Prelude Bitstring.
Local Open Scope Z_scope.
Local Open Scope slurm_scope.

Record bs_wf (b : bitstr) : Prop := {
  wf_magic : bitstr_valid b = true;
  wf_size : 0 <= bs_bits b <= 0x40000000;
  wf_len : Z.of_nat (length (bs_words b)) = bitstr_words (bs_bits b);
  wf_words : Forall (fun w => 0 <= w < 2 ^ 64) (bs_words b)
}.

Definition bs_mem (b : bitstr) (i : Z) : bool :=
  Z.testbit (default 0 (bs_words b !! Z.to_nat (i / 64))) (i `mod` 64).

Record bs_upd (b b' : bitstr) (f : Z -> bool) : Prop := {
  upd_wf : bs_wf b';
  upd_magic : bs_magic b' = bs_magic b;
  upd_bits : bs_bits b' = bs_bits b;
  upd_mem : forall i, 0 <= i -> bs_mem b' i = f i
}.

Lemma bit_word_div (bit : Z) : bit_word bit = bit / 64.
Proof. unfold bit_word, BITSTR_SHIFT. by rewrite Z.shiftr_div_pow2. Qed.

Lemma bitstr_words_div (n : Z) : bitstr_words n = (n + 63) / 64.
Proof. unfold bitstr_words, BITSTR_SHIFT, BITSTR_MAXPOS. by rewrite Z.shiftr_div_pow2. Qed.

Lemma bit_mask_mod (bit : Z) : 0 <= bit -> bit_mask bit = Z.shiftl 1 (bit `mod` 64).
Proof.
  intros H. unfold bit_mask, BITSTR_MAXPOS.
  change 63 with (Z.ones 6). by rewrite Z.land_ones.
Qed.

Lemma word_index_lt (b : bitstr) (bit : Z) :
  bs_wf b -> 0 <= bit < bs_bits b -> 0 <= bit / 64 < Z.of_nat (length (bs_words b)).
Proof.
  intros Hwf Hbit. rewrite (wf_len b Hwf), bitstr_words_div.
  split; [apply Z.div_pos; lia|].
  assert (bit / 64 <= (bs_bits b - 1) / 64) by (apply Z.div_le_mono; lia).
  replace (bs_bits b + 63) with (bs_bits b - 1 + 1 * 64) by lia.
  rewrite Z.div_add by lia. lia.
Qed.

Lemma wp_get_word (b : bitstr) (k : Z) (Q : Z -> Prop) :
  bs_wf b -> 0 <= k < Z.of_nat (length (bs_words b)) ->
  (forall w, bs_words b !! Z.to_nat k = Some w -> 0 <= w < 2 ^ 64 ->
     (forall i, 0 <= i < 64 -> bs_mem b (64 * k + i) = Z.testbit w i) -> Q w) ->
  wp (get_word b k) Q.
Proof.
  intros Hwf Hk HQ. apply wp_aget; [done|]. intros w Hw. apply HQ; [done| |].
  - pose proof (wf_words b Hwf) as HF. rewrite Forall_lookup in HF. eauto.
  - intros i Hi. unfold bs_mem.
    rewrite Z.mul_comm, Z.add_comm, Z.div_add, Z.mod_add, Z.div_small, Z.mod_small by lia.
    by rewrite Z.add_0_l, Hw.
Qed.

Lemma wp_set_word (b : bitstr) (k v : Z) :
  bs_wf b -> 0 <= k < Z.of_nat (length (bs_words b)) -> 0 <= v < 2 ^ 64 ->
  wp (set_word b k v) (fun b' =>
    bs_upd b b' (fun i => if i / 64 =? k then Z.testbit v (i `mod` 64) else bs_mem b i)).
Proof.
  intros Hwf Hk Hv. unfold set_word. wp_step. apply wp_aset; [done|]. wp_step.
  split; simpl; try done.
  - destruct Hwf as [Hm Hs Hl HF]. split; simpl; try done.
    + by rewrite length_insert.
    + by apply Forall_insert.
  - intros i Hi. unfold bs_mem; simpl.
    destruct (Z.eqb_spec (i / 64) k) as [->|Hne].
    + by rewrite list_lookup_insert_eq by lia.
    + rewrite list_lookup_insert_ne; [done|].
      pose proof (Z.div_pos i 64). lia.
Qed.

Lemma upd_trans b b1 b2 f g : bs_upd b b1 f -> bs_upd b1 b2 g -> bs_upd b b2 g.
Proof. intros [? ? ? ?] [? ? ? ?]. split; [done|congruence|congruence|done]. Qed.

Lemma upd_ext b b' f g : bs_upd b b' f -> (forall i, 0 <= i -> f i = g i) -> bs_upd b b' g.
Proof. intros [? ? ? Hm] Hfg. split; try done. intros i Hi. rewrite Hm by done. auto. Qed.

Lemma upd_refl b : bs_wf b -> bs_upd b b (bs_mem b).
Proof. done. Qed.

Lemma bit_valid_true b bit : 0 <= bit < bs_bits b -> bit_valid b bit = true.
Proof. intros H. unfold bit_valid. lia. Qed.

Lemma land_bit_test w k : 0 <= k -> negb (Z.land w (Z.shiftl 1 k) =? 0) = Z.testbit w k.
Proof.
  intros Hk. destruct (Z.eqb_spec (Z.land w (Z.shiftl 1 k)) 0) as [H|H]; simpl.
  - apply (f_equal (fun z => Z.testbit z k)) in H.
    rewrite Z.land_spec, shiftl_one_testbit, Z.eqb_refl, andb_true_r, Z.testbit_0_l in H by done.
    done.
  - destruct (Z.testbit w k) eqn:E; [done|]. destruct H. apply Z.bits_inj'. intros i Hi.
    rewrite Z.land_spec, shiftl_one_testbit, Z.testbit_0_l by done.
    destruct (Z.eqb_spec i k) as [->|]; [by rewrite E|by rewrite andb_false_r].
Qed.




Lemma div_mod_64 (i : Z) : i = 64 * (i / 64) + i `mod` 64.
Proof. dlia. Qed.

Lemma mod_64_range (i : Z) : 0 <= i `mod` 64 < 64.
Proof. dlia. Qed.
#[local] Hint Resolve mod_64_range : core.

Lemma bit_test_spec b bit :
  bs_wf b -> 0 <= bit < bs_bits b -> bit_test b bit = Ret (bs_mem b bit).
Proof.
  intros Hwf Hbit. apply wp_eq. unfold bit_test.
  wp_step; [apply (wf_magic _ Hwf)|]. wp_step; [by apply bit_valid_true|]. wp_step.
  rewrite bit_word_div. apply wp_get_word; [done|by apply word_index_lt|].
  intros w Hw _ Hmem. wp_step. rewrite bit_mask_mod, land_bit_test by dlia.
  rewrite (div_mod_64 bit) at 1. by apply Hmem.
Qed.

Lemma wp_put_bit b bit (v : bool) (F : Z -> Z) :
  bs_wf b -> 0 <= bit < bs_bits b ->
  (forall w, 0 <= w < 2 ^ 64 -> 0 <= F w < 2 ^ 64 /\
     forall i, 0 <= i < 64 ->
       Z.testbit (F w) i = if i =? bit `mod` 64 then v else Z.testbit w i) ->
  wp (w ← get_word b (bit_word bit); set_word b (bit_word bit) (F w)) (fun b' =>
    bs_upd b b' (fun i => if i =? bit then v else bs_mem b i)).
Proof.
  intros Hwf Hbit HF. wp_step. rewrite bit_word_div.
  apply wp_get_word; [done|by apply word_index_lt|]. intros w Hw Hr Hmem.
  destruct (HF w Hr) as [HFr HFt].
  eapply wp_mono; [apply wp_set_word; [done|by apply word_index_lt|done]|].
  intros b' Hu. eapply upd_ext; [exact Hu|]. intros i Hi; simpl.
  destruct (Z.eqb_spec (i / 64) (bit / 64)) as [He|Hne].
  - rewrite HFt by done.
    assert (bs_mem b i = Z.testbit w (i `mod` 64)) as ->.
    { rewrite (div_mod_64 i) at 1. rewrite He. by apply Hmem. }
    destruct (Z.eqb_spec (i `mod` 64) (bit `mod` 64)); case_match; try done; dlia.
  - case_match; [|done]. exfalso. apply Hne. f_equal. lia.
Qed.

Lemma bit_set_spec b bit :
  bs_wf b -> 0 <= bit < bs_bits b ->
  wp (bit_set b bit) (fun b' => bs_upd b b' (fun i => if i =? bit then true else bs_mem b i)).
Proof.
  intros Hwf Hbit. unfold bit_set.
  wp_step; [apply (wf_magic _ Hwf)|]. wp_step; [by apply bit_valid_true|].
  apply (wp_put_bit b bit true (fun w => Z.lor w (bit_mask bit))); [done..|].
  intros w Hw. rewrite bit_mask_mod by lia. split.
  - apply lor_range; [done..|]. by apply shiftl_one_range.
  - intros i Hi. rewrite Z.lor_spec, shiftl_one_testbit by dlia.
    case_match; [apply orb_true_r|apply orb_false_r].
Qed.

Lemma bit_clear_spec b bit :
  bs_wf b -> 0 <= bit < bs_bits b ->
  wp (bit_clear b bit) (fun b' => bs_upd b b' (fun i => if i =? bit then false else bs_mem b i)).
Proof.
  intros Hwf Hbit. unfold bit_clear.
  wp_step; [apply (wf_magic _ Hwf)|]. wp_step; [by apply bit_valid_true|].
  apply (wp_put_bit b bit false (fun w => Z.land w (u64 (Z.lnot (bit_mask bit))))); [done..|].
  intros w Hw. rewrite bit_mask_mod by lia. split; [by apply land_range|].
  intros i Hi. rewrite Z.land_spec, u64_lnot_testbit, shiftl_one_testbit by dlia.
  rewrite (proj2 (Z.ltb_lt i 64)) by lia. case_match; simpl; [apply andb_false_r|apply andb_true_r].
Qed.

Lemma bit_alloc_spec n :
  0 <= n <= 0x40000000 ->
  wp (bit_alloc n) (fun b => bs_wf b /\ bs_magic b = BITSTR_MAGIC /\ bs_bits b = n /\
    forall i, 0 <= i -> bs_mem b i = false).
Proof.
  intros Hn. unfold bit_alloc. wp_step; [unfold valid_size; lia|]. wp_step.
  split_and!; simpl; try done.
  - split; simpl; try done.
    + rewrite length_replicate, Z2Nat.id; [done|].
      rewrite bitstr_words_div. apply Z.div_pos; lia.
    + apply Forall_replicate. lia.
  - intros i Hi. unfold bs_mem; simpl.
    destruct (_ !! _) as [w|] eqn:E; [|apply Z.testbit_0_l].
    apply lookup_replicate in E as [-> _]. apply Z.testbit_0_l.
Qed.

Lemma set_byte_testbit w k c i :
  0 <= i < 64 -> 0 <= k < 8 -> 0 <= c < 256 ->
  Z.testbit (set_byte w k c) i = if i / 8 =? k then Z.testbit c (i `mod` 8) else Z.testbit w i.
Proof.
  intros Hi Hk Hc. unfold set_byte.
  rewrite Z.lor_spec, Z.land_spec, u64_lnot_testbit, !Z.shiftl_spec by lia.
  rewrite (proj2 (Z.ltb_lt i 64)) by lia. simpl.
  change 255 with (Z.ones 8).
  destruct (Z.eqb_spec (i / 8) k) as [<-|Hne].
  - rewrite Z.ones_spec_low by dlia. rewrite andb_false_r, orb_false_l.
    f_equal. dlia.
  - destruct (decide (i < 8 * k)).
    + rewrite !(Z.testbit_neg_r _ (i - 8 * k)) by lia.
      by rewrite andb_true_r, orb_false_r.
    + rewrite Z.ones_spec_high by dlia. rewrite (testbit_small c 8) by dlia.
      by rewrite andb_true_r, orb_false_r.
Qed.

Lemma set_byte_range w k c :
  0 <= w < 2 ^ 64 -> 0 <= k < 8 -> 0 <= c < 256 -> 0 <= set_byte w k c < 2 ^ 64.
Proof.
  intros Hw Hk Hc. unfold set_byte. apply lor_range; [done|by apply land_range|].
  apply bits_bound; [done|]. intros i Hi. rewrite Z.shiftl_spec by lia.
  apply (testbit_small c 8); lia.
Qed.

Lemma memset_spec c n :
  0 <= c < 256 -> forall b addr,
  bs_wf b -> 0 <= addr -> addr + Z.of_nat n <= 8 * Z.of_nat (length (bs_words b)) ->
  wp (memset b addr c n) (fun b' => bs_upd b b' (fun i =>
    if (addr <=? i / 8) && (i / 8 <? addr + Z.of_nat n)
    then Z.testbit c (i `mod` 8) else bs_mem b i)).
Proof.
  intros Hc. induction n as [|n IH]; intros b addr Hwf Ha Hn; cbn [memset].
  { wp_step. eapply upd_ext; [by apply upd_refl|]. intros i Hi. change (Z.of_nat 0) with 0. by if_false. }
  assert (0 <= addr / 8 < Z.of_nat (length (bs_words b))) by dlia.
  wp_step. apply wp_get_word; [done..|]. intros w Hw Hr Hmem.
  wp_step. eapply wp_mono; [apply wp_set_word; [done..|]|].
  { apply set_byte_range; [done|dlia|done]. }
  intros b1 Hu1. assert (length (bs_words b1) = length (bs_words b)) as Hlen.
  { apply Nat2Z.inj. rewrite (wf_len _ (upd_wf _ _ _ Hu1)), (wf_len _ Hwf). by rewrite (upd_bits _ _ _ Hu1). }
  eapply wp_mono; [apply (IH b1 (addr + 1)); [apply (upd_wf _ _ _ Hu1)|lia|rewrite Hlen; lia]|].
  intros b2 Hu2. eapply upd_ext; [eapply upd_trans; [exact Hu1|exact Hu2]|].
  intros i Hi; cbn beta. rewrite (upd_mem _ _ _ Hu1) by done.
  destruct (Z.eqb_spec (i / 8) addr) as [He|Hne].
  - if_false. if_true. if_true.
    rewrite set_byte_testbit by (done || dlia).
    if_true. f_equal. dlia.
  - replace ((addr <=? i / 8) && (i / 8 <? addr + Z.of_nat (S n)))
      with ((addr + 1 <=? i / 8) && (i / 8 <? addr + 1 + Z.of_nat n)) by lia.
    case_match; [done|]. destruct (Z.eqb_spec (i / 64) (addr / 8)) as [He|]; [|done].
    rewrite set_byte_testbit by (done || dlia).
    if_false.
    rewrite (div_mod_64 i) at 2. rewrite He. symmetry. by apply Hmem.
Qed.

Definition bs_range (v : bool) (b : bitstr) (start stop i : Z) : bool :=
  if (start <=? i) && (i <=? stop) then v else bs_mem b i.

Section nfill.
Context (v : bool) (op : bitstr -> Z -> exec bitstr) (fill : Z).
Hypothesis op_spec : forall b i, bs_wf b -> 0 <= i < bs_bits b ->
  wp (op b i) (fun b' => bs_upd b b' (fun j => if j =? i then v else bs_mem b j)).
Hypothesis fill_spec : fill = (if v then 0xff else 0).

Lemma fill_testbit k : 0 <= k < 8 -> Z.testbit fill k = v.
Proof.
  intros Hk. rewrite fill_spec. destruct v.
  - change 255 with (Z.ones 8). by apply Z.ones_spec_low.
  - apply Z.testbit_0_l.
Qed.

Lemma range_step b b1 b2 (s1 e1 s2 e2 i1 : Z) :
  bs_upd b b1 (bs_range v b s1 e1) ->
  bs_upd b1 b2 (fun j => if j =? i1 then v else bs_mem b1 j) ->
  (forall j, 0 <= j -> (s2 <= j <= e2) <-> (s1 <= j <= e1 \/ j = i1)) ->
  bs_upd b b2 (bs_range v b s2 e2).
Proof.
  intros H1 H2 Hr. eapply upd_ext; [eapply upd_trans; [exact H1|exact H2]|].
  intros j Hj; cbn beta. rewrite (upd_mem _ _ _ H1) by done. unfold bs_range.
  specialize (Hr j Hj). if_solve.
Qed.

Lemma upd_range_empty b s e : bs_wf b -> e < s -> bs_upd b b (bs_range v b s e).
Proof.
  intros Hwf Hse. eapply upd_ext; [by apply upd_refl|]. intros i Hi. unfold bs_range. by if_false.
Qed.

Lemma nfill_low_spec b start stop :
  bs_wf b -> 0 <= start < bs_bits b -> 0 <= stop < bs_bits b ->
  wp (nfill_low op stop b start) (fun '(b1, s) =>
    start <= s <= Z.max start (stop + 1) /\ (stop < s \/ s `mod` 8 = 0) /\
    bs_upd b b1 (bs_range v b start (s - 1))).
Proof.
  intros Hwf Hs Hp. unfold nfill_low.
  eapply (wp_loop (fun '(b1, s) => start <= s <= Z.max start (stop + 1) /\
            s - start <= (- start) `mod` 8 /\ bs_upd b b1 (bs_range v b start (s - 1)))
         (fun '(_, s) => Z.to_nat ((- s) `mod` 8))); [| |dlia|exact (fun _ H => H)].
  - intros [b1 s] (Hs1 & Hs2 & Hu1). if_case; [|wp_step; split_and!; try done; dlia].
    wp_step. pose proof (upd_bits _ _ _ Hu1).
    eapply wp_mono; [apply op_spec; [apply (upd_wf _ _ _ Hu1)|lia]|].
    intros b2 Hu2. wp_step. split; [split_and!|dlia]; [lia|lia|dlia|].
    eapply range_step; [exact Hu1|exact Hu2|lia].
  - split_and!; [lia|lia|dlia|]. apply upd_range_empty; [done|lia].
Qed.

Lemma nfill_high_spec b start stop :
  bs_wf b -> 0 <= start -> 0 <= stop < bs_bits b ->
  wp (nfill_high op start b stop) (fun '(b1, e) =>
    Z.min stop (start - 1) <= e <= stop /\ (e < start \/ (e + 1) `mod` 8 = 0) /\
    bs_upd b b1 (bs_range v b (e + 1) stop)).
Proof.
  intros Hwf Hs Hp. unfold nfill_high.
  eapply (wp_loop (fun '(b1, e) => Z.min stop (start - 1) <= e <= stop /\
            stop - e <= (stop + 1) `mod` 8 /\ bs_upd b b1 (bs_range v b (e + 1) stop))
         (fun '(_, e) => Z.to_nat ((e + 1) `mod` 8))); [| |dlia|exact (fun _ H => H)].
  - intros [b1 e] (He1 & He2 & Hu1). if_case; [|wp_step; split_and!; try done; dlia].
    wp_step. pose proof (upd_bits _ _ _ Hu1).
    eapply wp_mono; [apply op_spec; [apply (upd_wf _ _ _ Hu1)|lia]|].
    intros b2 Hu2. wp_step. split; [split_and!|dlia]; [lia|lia|dlia|].
    eapply range_step; [exact Hu1|exact Hu2|lia].
  - split_and!; [lia|lia|dlia|]. apply upd_range_empty; [done|lia].
Qed.

(** Ranges filled one after the other. *)
Lemma upd_range2 b b1 b2 s1 e1 s2 e2 :
  bs_upd b b1 (bs_range v b s1 e1) -> bs_upd b1 b2 (bs_range v b1 s2 e2) ->
  bs_upd b b2 (fun i => if (s1 <=? i) && (i <=? e1) || (s2 <=? i) && (i <=? e2)
                        then v else bs_mem b i).
Proof.
  intros H1 H2. eapply upd_ext; [eapply upd_trans; [exact H1|exact H2]|].
  intros i Hi. unfold bs_range at 1. rewrite (upd_mem _ _ _ H1) by done. unfold bs_range.
  if_solve.
Qed.

Lemma bit_nfill_spec b start stop :
  bs_wf b -> 0 <= start < bs_bits b -> 0 <= stop < bs_bits b ->
  wp (bit_nfill op fill b start stop) (fun b' => bs_upd b b' (bs_range v b start stop)).
Proof.
  intros Hwf Hs Hp. unfold bit_nfill.
  wp_step; [apply (wf_magic _ Hwf)|]. do 2 (wp_step; [by apply bit_valid_true|]).
  wp_step. eapply wp_mono; [by apply nfill_low_spec|]. intros [b1 s] (Hs1 & Hs2 & Hu1).
  pose proof (upd_bits _ _ _ Hu1).
  wp_step. eapply wp_mono; [apply nfill_high_spec; [apply (upd_wf _ _ _ Hu1)|lia|lia]|].
  intros [b2 e] (He1 & He2 & Hu2).
  pose proof (upd_range2 _ _ _ _ _ _ _ Hu1 Hu2) as Hu3.
  if_case.
  2: { wp_step. eapply upd_ext; [exact Hu3|]. intros i Hi. unfold bs_range. if_solve. }
  wp_step; [dlia|].
  pose proof (upd_bits _ _ _ Hu3). pose proof (upd_wf _ _ _ Hu3).
  unfold bit_byteaddr. rewrite Z.shiftr_div_pow2 by lia. change (2 ^ 3) with 8.
  eapply wp_mono; [apply memset_spec; [rewrite fill_spec; destruct v; lia|done|dlia|]|].
  { rewrite (wf_len b2), bitstr_words_div by done. dlia. }
  intros b3 Hu4. eapply upd_ext; [eapply upd_trans; [exact Hu3|exact Hu4]|].
  intros i Hi; cbn beta. rewrite (upd_mem _ _ _ Hu3) by done. unfold bs_range.
  rewrite fill_testbit by dlia. rewrite Z2Nat.id by dlia. if_solve.
Qed.
End nfill.

Definition bit_nset_spec := bit_nfill_spec true bit_set 0xff bit_set_spec eq_refl.
Definition bit_nclear_spec := bit_nfill_spec false bit_clear 0 bit_clear_spec eq_refl.

(** ** Whole-word loops *)
Lemma mem_beyond b i : 64 * Z.of_nat (length (bs_words b)) <= i -> bs_mem b i = false.
Proof.
  intros Hi. unfold bs_mem. rewrite lookup_ge_None_2 by dlia. apply Z.testbit_0_l.
Qed.

Lemma words_eq_len b1 b2 :
  bs_wf b1 -> bs_wf b2 -> bs_bits b1 = bs_bits b2 ->
  length (bs_words b1) = length (bs_words b2).
Proof.
  intros H1 H2 He. apply Nat2Z.inj. by rewrite (wf_len _ H1), (wf_len _ H2), He.
Qed.

Lemma upd_len b b' f : bs_wf b -> bs_upd b b' f -> length (bs_words b') = length (bs_words b).
Proof. intros Hwf Hu. eapply words_eq_len; [apply Hu|done|apply Hu]. Qed.

Lemma aligned_lt b bit :
  bs_wf b -> bit `mod` 64 = 0 -> (bit <? bs_bits b) = (bit <? 64 * Z.of_nat (length (bs_words b))).
Proof. intros Hwf Hm. rewrite (wf_len _ Hwf), bitstr_words_div. dlia. Qed.

(** A word operation that acts bit by bit. *)
Definition bitwise (f : Z -> Z -> Z) (g : bool -> bool -> bool) : Prop :=
  forall w1 w2, 0 <= w1 < 2 ^ 64 -> 0 <= w2 < 2 ^ 64 ->
    0 <= f w1 w2 < 2 ^ 64 /\
    forall i, 0 <= i < 64 -> Z.testbit (f w1 w2) i = g (Z.testbit w1 i) (Z.testbit w2 i).

Lemma map_words_spec f g b1 b2 :
  bitwise f g -> bs_wf b1 -> bs_wf b2 -> bs_bits b1 = bs_bits b2 ->
  wp (map_words f b1 b2) (fun b' => bs_upd b1 b' (fun i =>
    if i <? 64 * Z.of_nat (length (bs_words b1)) then g (bs_mem b1 i) (bs_mem b2 i) else false)).
Proof.
  intros Hfg H1 H2 Hb. set (n := Z.of_nat (length (bs_words b1))).
  assert (Hn : Z.of_nat (length (bs_words b2)) = n) by (unfold n; f_equal; symmetry; by apply words_eq_len).
  unfold map_words.
  eapply (wp_loop (fun '(bit, b') => bit `mod` 64 = 0 /\ 0 <= bit <= 64 * n /\
            bs_upd b1 b' (fun i => if i <? bit then g (bs_mem b1 i) (bs_mem b2 i) else bs_mem b1 i))
          (fun '(bit, _) => Z.to_nat (n - bit / 64))
          (fun b' => bs_upd b1 b' (fun i => if i <? 64 * n then g (bs_mem b1 i) (bs_mem b2 i) else false)));
    [| | |by intros].
  - intros [bit b'] (Hm & Hr & Hu). pose proof (upd_wf _ _ _ Hu) as Hwf.
    pose proof (upd_len _ _ _ H1 Hu) as Hlen.
    rewrite (aligned_lt b') by done. rewrite Hlen. fold n. if_case.
    2: { wp_step. eapply upd_ext; [exact Hu|]. intros i Hi; cbn beta.
         if_case; [by if_true|]. if_false. apply mem_beyond. fold n. lia. }
    rewrite bit_word_div. wp_step. apply wp_get_word; [done|rewrite Hlen; dlia|].
    intros w1 _ Hr1 Hm1. wp_step. apply wp_get_word; [done|rewrite Hn; dlia|].
    intros w2 _ Hr2 Hm2. destruct (Hfg w1 w2 Hr1 Hr2) as [Hfr Hft].
    wp_step. eapply wp_mono; [apply wp_set_word; [done|rewrite Hlen; dlia|done]|].
    intros b'' Hu'. wp_step. split; [split_and!|dlia]; [dlia|dlia|dlia|].
    eapply upd_ext; [eapply upd_trans; [exact Hu|exact Hu']|]. intros i Hi; cbn beta.
    destruct (Z.eqb_spec (i / 64) (bit / 64)) as [He|Hne].
    + if_true. rewrite Hft by done. rewrite <-Hm1, <-Hm2, <-He, <-div_mod_64 by done.
      rewrite (upd_mem _ _ _ Hu) by done. by if_false.
    + rewrite (upd_mem _ _ _ Hu) by done. if_solve.
  - split_and!; [done|lia|lia|]. eapply upd_ext; [by apply upd_refl|]. intros i Hi. by if_false.
  - unfold loop_fuel, n. rewrite (wf_len _ H1), bitstr_words_div. dlia.
Qed.

Lemma bitwise_land : bitwise Z.land andb.
Proof. intros w1 w2 H1 H2. split; [by apply land_range|]. intros. apply Z.land_spec. Qed.

Lemma bitwise_lor : bitwise Z.lor orb.
Proof. intros w1 w2 H1 H2. split; [by apply lor_range|]. intros. apply Z.lor_spec. Qed.

Lemma bitwise_andnot : bitwise (fun w1 w2 => Z.land w1 (u64 (Z.lnot w2))) (fun x y => x && negb y).
Proof.
  intros w1 w2 H1 H2. split; [by apply land_range|]. intros i Hi.
  rewrite Z.land_spec, u64_lnot_testbit by lia.
  rewrite (proj2 (Z.ltb_lt i 64)) by lia. done.
Qed.

Lemma bitwise_not : bitwise (fun w _ => u64 (Z.lnot w)) (fun x _ => negb x).
Proof.
  intros w1 w2 H1 H2. split; [apply u64_range|]. intros i Hi.
  rewrite u64_lnot_testbit by lia. rewrite (proj2 (Z.ltb_lt i 64)) by lia. done.
Qed.

Lemma bit_op_spec f g b1 b2 :
  bitwise f g -> g false false = false ->
  bs_wf b1 -> bs_wf b2 -> bs_bits b1 = bs_bits b2 ->
  wp (bit_op f b1 b2) (fun b' => bs_upd b1 b' (fun i => g (bs_mem b1 i) (bs_mem b2 i))).
Proof.
  intros Hfg Hg H1 H2 Hb. unfold bit_op.
  do 2 (wp_step; [by apply wf_magic|]). wp_step; [lia|].
  eapply wp_mono; [by apply map_words_spec|]. intros b' Hu.
  eapply upd_ext; [exact Hu|]. intros i Hi; cbn beta. if_case; [done|].
  rewrite !mem_beyond; [done| |lia]. rewrite <-(words_eq_len b1 b2) by done. lia.
Qed.

Lemma bit_and_spec b1 b2 :
  bs_wf b1 -> bs_wf b2 -> bs_bits b1 = bs_bits b2 ->
  wp (bit_and b1 b2) (fun b' => bs_upd b1 b' (fun i => bs_mem b1 i && bs_mem b2 i)).
Proof. apply (bit_op_spec _ andb); [apply bitwise_land|done]. Qed.

Lemma bit_or_spec b1 b2 :
  bs_wf b1 -> bs_wf b2 -> bs_bits b1 = bs_bits b2 ->
  wp (bit_or b1 b2) (fun b' => bs_upd b1 b' (fun i => bs_mem b1 i || bs_mem b2 i)).
Proof. apply (bit_op_spec _ orb); [apply bitwise_lor|done]. Qed.

Lemma bit_and_not_spec b1 b2 :
  bs_wf b1 -> bs_wf b2 -> bs_bits b1 = bs_bits b2 ->
  wp (bit_and_not b1 b2) (fun b' => bs_upd b1 b' (fun i => bs_mem b1 i && negb (bs_mem b2 i))).
Proof. apply (bit_op_spec _ (fun x y => x && negb y)); [apply bitwise_andnot|done]. Qed.

(** [bit_not] complements whole words: also the unused bits of the last one. *)
Lemma bit_not_spec b :
  bs_wf b ->
  wp (bit_not b) (fun b' => bs_upd b b' (fun i =>
    (i <? 64 * Z.of_nat (length (bs_words b))) && negb (bs_mem b i))).
Proof.
  intros Hwf. unfold bit_not. wp_step; [by apply wf_magic|].
  eapply wp_mono; [by apply (map_words_spec _ _ b b bitwise_not)|].
  intros b' Hu. eapply upd_ext; [exact Hu|]. intros i Hi; cbn beta. by if_case.
Qed.

(** ** Comparisons *)
Lemma all_words_spec test b1 b2 :
  bs_wf b1 -> bs_wf b2 -> bs_bits b1 = bs_bits b2 ->
  wp (all_words test b1 b2) (fun r => r = true <->
    forall k w1 w2, bs_words b1 !! k = Some w1 -> bs_words b2 !! k = Some w2 -> test w1 w2 = true).
Proof.
  intros H1 H2 Hb. pose proof (words_eq_len _ _ H1 H2 Hb) as Hlen. unfold all_words.
  eapply (wp_loop (fun bit => bit `mod` 64 = 0 /\ 0 <= bit /\
      forall k w1 w2, Z.of_nat k < bit / 64 ->
        bs_words b1 !! k = Some w1 -> bs_words b2 !! k = Some w2 -> test w1 w2 = true)
    (fun bit => Z.to_nat (Z.of_nat (length (bs_words b1)) - bit / 64)));
    [| | |exact (fun _ H => H)].
  - intros bit (Hm & Hr & Hpre). rewrite (aligned_lt b1) by done. if_case.
    2: { wp_step. split; [|done]. intros _ k w1 w2 Hw1 Hw2. apply (Hpre k); [|done..].
         apply lookup_lt_Some in Hw1. dlia. }
    rewrite bit_word_div. wp_step. apply wp_get_word; [done|dlia|].
    intros w1 Hw1 _ _. wp_step. apply wp_get_word; [done|rewrite <-Hlen; dlia|].
    intros w2 Hw2 _ _. if_case.
    + wp_step. split; [|dlia]. split_and!; [dlia|dlia|]. intros k v1 v2 Hk Hv1 Hv2.
      destruct (decide (Z.of_nat k = bit / 64)) as [He|]; [|apply (Hpre k); [dlia|done..]].
      replace (Z.to_nat (bit / 64)) with k in * by lia. congruence.
    + wp_step. split; [done|]. intros Hall. rewrite (Hall _ _ _ Hw1 Hw2) in *. done.
  - split_and!; [done|lia|dlia].
  - unfold loop_fuel. rewrite (wf_len _ H1), bitstr_words_div. dlia.
Qed.

(** Words agree at every position exactly when all bits do. *)
Lemma words_agree b1 b2 (test : Z -> Z -> bool) (g : bool -> bool -> bool) :
  bs_wf b1 -> bs_wf b2 -> bs_bits b1 = bs_bits b2 -> g false false = true ->
  (forall w1 w2, test w1 w2 = true <->
    forall i, 0 <= i -> g (Z.testbit w1 i) (Z.testbit w2 i) = true) ->
  (forall k w1 w2, bs_words b1 !! k = Some w1 -> bs_words b2 !! k = Some w2 -> test w1 w2 = true)
  <-> (forall i, 0 <= i -> g (bs_mem b1 i) (bs_mem b2 i) = true).
Proof.
  intros H1 H2 Hb Hg Htest. pose proof (words_eq_len _ _ H1 H2 Hb) as Hlen. split.
  - intros Hall i Hi. unfold bs_mem.
    destruct (bs_words b1 !! _) as [w1|] eqn:E1.
    + destruct (lookup_lt_is_Some_2 (bs_words b2) (Z.to_nat (i / 64))) as [w2 E2].
      { rewrite <-Hlen. by apply lookup_lt_Some in E1. }
      rewrite E2. simpl. apply (proj1 (Htest w1 w2)); [by eapply Hall|]. apply mod_64_range.
    + rewrite (lookup_ge_None_2 (bs_words b2)); [by rewrite Z.testbit_0_l|].
      rewrite <-Hlen. by apply lookup_ge_None.
  - intros Hall k w1 w2 Hw1 Hw2. apply Htest. intros i Hi. destruct (decide (i < 64)) as [Hs|Hs].
    + specialize (Hall (64 * Z.of_nat k + i)). unfold bs_mem in Hall.
      replace ((64 * Z.of_nat k + i) / 64) with (Z.of_nat k) in Hall by dlia.
      replace ((64 * Z.of_nat k + i) `mod` 64) with i in Hall by dlia.
      rewrite Nat2Z.id, Hw1, Hw2 in Hall. apply Hall. lia.
    + pose proof (wf_words _ H1) as F1. pose proof (wf_words _ H2) as F2.
      rewrite Forall_lookup in F1, F2.
      by rewrite (testbit_small w1 64), (testbit_small w2 64) by (eauto || lia).
Qed.

Lemma bit_super_set_spec b1 b2 :
  bs_wf b1 -> bs_wf b2 -> bs_bits b1 = bs_bits b2 ->
  wp (bit_super_set b1 b2) (fun r => r = true <->
    forall i, 0 <= i -> implb (bs_mem b1 i) (bs_mem b2 i) = true).
Proof.
  intros H1 H2 Hb. unfold bit_super_set.
  do 2 (wp_step; [by apply wf_magic|]). wp_step; [lia|].
  eapply wp_mono; [by apply all_words_spec|]. intros r ->.
  apply words_agree; try done. intros w1 w2. rewrite Z.eqb_eq. split.
  - intros He i Hi. rewrite He, Z.land_spec. by destruct (Z.testbit w1 i), (Z.testbit w2 i).
  - intros Ht. apply Z.bits_inj'. intros i Hi. specialize (Ht i Hi). rewrite Z.land_spec.
    by destruct (Z.testbit w1 i), (Z.testbit w2 i).
Qed.

Lemma bit_equal_spec b1 b2 :
  bs_wf b1 -> bs_wf b2 ->
  wp (bit_equal b1 b2) (fun r => r = true <->
    bs_bits b1 = bs_bits b2 /\ forall i, 0 <= i -> bs_mem b1 i = bs_mem b2 i).
Proof.
  intros H1 H2. unfold bit_equal. do 2 (wp_step; [by apply wf_magic|]).
  destruct (Z.eqb_spec (bs_bits b1) (bs_bits b2)) as [Hb|Hb]; simpl; [|naive_solver].
  eapply wp_mono; [by apply all_words_spec|]. intros r ->.
  rewrite (words_agree b1 b2 _ Bool.eqb); try done.
  - split; [intros H; split; [done|]; intros i Hi; by apply eqb_prop, H|].
    intros [_ H] i Hi. rewrite (H i Hi). apply eqb_reflx.
  - intros w1 w2. rewrite Z.eqb_eq. split; [intros ->; intros; apply eqb_reflx|].
    intros Ht. apply Z.bits_inj'. intros i Hi. by apply eqb_prop, Ht.
Qed.

(** ** Searches *)
Definition bs_is (b : bitstr) (want : bool) (i : Z) : bool := Bool.eqb (bs_mem b i) want.

Lemma bit_ff_word_spec want b bit :
  bs_wf b -> 0 <= bit < bs_bits b ->
  wp (bit_ff_word want b (bit_word bit) bit) (fun '(bit', v) =>
    (v = -1 /\ bit' = Z.min (bs_bits b) (64 * (bit / 64) + 64) /\
       forall i, bit <= i < bit' -> bs_is b want i = false) \/
    (v = bit' /\ bit <= bit' < bs_bits b /\ bs_is b want bit' = true /\
       forall i, bit <= i < bit' -> bs_is b want i = false)).
Proof.
  intros Hwf Hbit. unfold bit_ff_word.
  eapply (wp_loop (fun j => bit <= j <= Z.min (bs_bits b) (64 * (bit / 64) + 64) /\
            forall i, bit <= i < j -> bs_is b want i = false)
          (fun j => Z.to_nat (bs_bits b - j))); [| |unfold loop_fuel; lia|exact (fun _ H => H)].
  - intros j (Hj & Hpre). rewrite !bit_word_div. if_case.
    + wp_step. rewrite bit_test_spec by (done || lia). simpl. unfold bs_is in *. if_case; simpl.
      * right. split_and!; try done; lia.
      * split; [split; [dlia|]|lia]. intros i Hi. destruct (decide (i = j)) as [->|]; [done|].
        apply Hpre. lia.
    + wp_step. left. split_and!; try done. dlia.
  - split; [dlia|lia].
Qed.

Lemma bit_ff_spec skip want b :
  bs_wf b -> (forall i, 0 <= i < 64 -> Z.testbit skip i = negb want) ->
  wp (bit_ff skip want b) (first_in (bs_is b want) 0 (bs_bits b)).
Proof.
  intros Hwf Hskip. unfold bit_ff. wp_step; [by apply wf_magic|].
  pose proof (wf_size _ Hwf) as Hsz.
  eapply (wp_loop (fun '(bit, v) =>
            (v = -1 /\ 0 <= bit /\ (bit `mod` 64 = 0 \/ bs_bits b <= bit) /\
               forall i, 0 <= i < Z.min bit (bs_bits b) -> bs_is b want i = false) \/
            (0 <= v /\ first_in (bs_is b want) 0 (bs_bits b) v))
          (fun '(bit, v) => if v =? -1 then Z.to_nat (bs_bits b - bit) else 0%nat));
    [| |unfold loop_fuel; simpl; lia|exact (fun _ H => H)].
  2: { left. split_and!; try done; [by left|lia]. }
  intros [bit v] [(-> & Hb & Ha & Hpre)|(Hv & Hf)].
  2: { if_case; [lia|]. done. }
  if_case. 2: { wp_step. left. split; [done|]. intros i Hi. apply Hpre. lia. }
  wp_step. rewrite bit_word_div. apply wp_get_word; [done|apply word_index_lt; [done|lia]|].
  intros w Hw Hr Hm. if_case.
  - wp_step. split; [left|simpl; lia]. split_and!; [done|lia|dlia|].
    intros i Hi. destruct (decide (i < bit)); [apply Hpre; lia|].
    unfold bs_is. rewrite (div_mod_64 i). replace (i / 64) with (bit / 64) by dlia.
    rewrite Hm by done. replace w with skip by lia. rewrite Hskip by done. by destruct want.
  - wp_step. rewrite <-bit_word_div. eapply wp_mono; [apply bit_ff_word_spec; [done|lia]|].
    intros [bit' v'] [(-> & -> & Hno)|(-> & Hr' & Hyes & Hno)]; wp_step.
    + split; [left|simpl; dlia]. split_and!; [done|dlia|dlia|].
      intros i Hi. destruct (decide (i < bit)); [apply Hpre; lia|]. apply Hno. lia.
    + replace (bit' =? -1) with false by lia. split; [right|simpl; lia]. split; [lia|]. right.
      split_and!; try done; [lia|lia|]. intros i Hi.
      destruct (decide (i < bit)); [apply Hpre; lia|]. apply Hno. lia.
Qed.

Lemma first_in_ext P R lo hi r :
  (forall i, lo <= i < hi -> P i = R i) -> first_in P lo hi r -> first_in R lo hi r.
Proof.
  intros H [[-> Hno]|(Hr & Hy & Hno)]; [left|right].
  - split; [done|]. intros i Hi. rewrite <-H by done. auto.
  - split_and!; [lia..|by rewrite <-H|]. intros i Hi. rewrite <-H by lia. auto.
Qed.

Lemma bit_ffs_spec b : bs_wf b -> wp (bit_ffs b) (first_in (bs_mem b) 0 (bs_bits b)).
Proof.
  intros Hwf. eapply wp_mono; [apply (bit_ff_spec 0 true); [done|]|].
  - intros. apply Z.testbit_0_l.
  - intros r. apply first_in_ext. intros i _. unfold bs_is. by destruct (bs_mem b i).
Qed.

Lemma bit_ffc_spec b : bs_wf b -> wp (bit_ffc b) (first_in (fun i => negb (bs_mem b i)) 0 (bs_bits b)).
Proof.
  intros Hwf. eapply wp_mono; [apply (bit_ff_spec BITSTR_MAXVAL false); [done|]|].
  - intros i Hi. change BITSTR_MAXVAL with (Z.ones 64). by apply Z.ones_spec_low.
  - intros r. apply first_in_ext. intros i _. unfold bs_is. by destruct (bs_mem b i).
Qed.

(** Scanning down from [hi]: the last set bit of the positions up to [hi]. *)
Lemma scan_down_spec (c : Z -> bool) b hi lo :
  bs_wf b -> -1 <= hi < bs_bits b -> -1 <= lo <= hi ->
  (forall i, lo <= i <= hi -> c i = true <-> lo < i) ->
  wp (loop (loop_fuel b) (fun bit =>
        if c bit
        then t ← bit_test b bit;
             if (t : bool) then Ret (inr (bit, bit)) else Ret (inl (bit - 1))
        else Ret (inr (bit, -1))) hi)
     (fun '(bit, v) =>
        (v = -1 /\ bit = lo /\ forall i, lo < i <= hi -> bs_mem b i = false) \/
        (v = bit /\ lo < bit <= hi /\ bs_mem b bit = true /\
           forall i, bit < i <= hi -> bs_mem b i = false)).
Proof.
  intros Hwf Hhi Hlo Hc.
  eapply (wp_loop (fun j => lo <= j <= hi /\ forall i, j < i <= hi -> bs_mem b i = false)
          (fun j => Z.to_nat (j + 1))); [| |unfold loop_fuel; lia|exact (fun _ H => H)].
  2: { split; [lia|]. intros; lia. }
  intros j (Hj & Hpre). destruct (c j) eqn:Ec.
  - pose proof (proj1 (Hc j ltac:(lia)) Ec). wp_step.
    rewrite bit_test_spec by (done || lia). simpl. if_case; simpl.
    + right. split_and!; try done; lia.
    + split; [|lia]. split; [lia|]. intros i Hi. destruct (decide (i = j)) as [->|]; [done|].
      apply Hpre. lia.
  - assert (~ lo < j) by (intros H; apply Hc in H; [congruence|lia]).
    wp_step. left. split_and!; [done|lia|]. replace lo with j by lia. done.
Qed.

Lemma bit_fls_spec b : bs_wf b -> wp (bit_fls b) (last_in (bs_mem b) 0 (bs_bits b)).
Proof.
  intros Hwf. unfold bit_fls. wp_step; [by apply wf_magic|].
  pose proof (wf_size _ Hwf). if_case; [wp_step; left; split; [done|lia]|].
  wp_step. set (n := bs_bits b) in *.
  eapply wp_mono; [apply (scan_down_spec _ b (n - 1) (64 * (n / 64) - 1)); [done|dlia|dlia|]|].
  { intros i Hi. rewrite !bit_word_div. dlia. }
  intros [bit v] H1.
  eapply (wp_loop (fun '(bit, v) =>
     (v = -1 /\ -1 <= bit < n /\ bit `mod` 64 = 63 /\ forall i, bit < i < n -> bs_mem b i = false) \/
     (0 <= v /\ last_in (bs_mem b) 0 n v))
     (fun '(bit, v) => if v =? -1 then Z.to_nat (bit + 1) else 0%nat));
    [| | |exact (fun _ H => H)].
  - clear bit v H1. intros [bit v] [(-> & Hb & Ha & Hpre)|(Hv & Hf)].
    2: { if_case; [lia|]. done. }
    if_case. 2: { wp_step. left. split; [done|]. intros i Hi. apply Hpre. lia. }
    wp_step. rewrite bit_word_div. apply wp_get_word; [done|apply word_index_lt; [done|lia]|].
    intros w Hw Hr Hm. if_case.
    + wp_step. split; [left|simpl; lia]. split_and!; [done|dlia|dlia|dlia|].
      intros i Hi. destruct (decide (bit < i)); [apply Hpre; lia|].
      rewrite (div_mod_64 i). replace (i / 64) with (bit / 64) by dlia.
      rewrite Hm by done. replace w with 0 by lia. apply Z.testbit_0_l.
    + wp_step. eapply wp_mono; [apply (scan_down_spec _ b bit (-1)); [done|lia|lia|lia]|].
      intros [bit' v'] [(-> & -> & Hno)|(-> & Hr' & Hyes & Hno)]; wp_step.
      * split; [left|simpl; lia]. split_and!; [done|lia|lia|done|].
        intros i Hi. destruct (decide (bit < i)); [apply Hpre; lia|]. apply Hno. lia.
      * replace (bit' =? -1) with false by lia. split; [right|simpl; lia]. split; [lia|]. right.
        split_and!; try done; [lia|lia|]. intros i Hi.
        destruct (decide (bit < i)); [apply Hpre; lia|]. apply Hno. lia.
  - destruct H1 as [(-> & -> & Hno)|(-> & Hr & Hyes & Hno)].
    + left. split_and!; [done|dlia|dlia|dlia|]. intros i Hi. apply Hno. lia.
    + right. split; [dlia|]. right. split_and!; [dlia|lia|done|]. intros i Hi. apply Hno. lia.
  - unfold loop_fuel. fold n. destruct H1 as [(-> & -> & _)|(-> & Hr & _)]; simpl; if_solve.
Qed.

Lemma bit_fill_gaps_spec b :
  bs_wf b ->
  wp (bit_fill_gaps b) (fun b' => bs_upd b b' (fun i =>
    bs_mem b i ||
    ((i <? bs_bits b) && (0 <? count (bs_mem b) 0 (i + 1)) && (0 <? count (bs_mem b) i (bs_bits b))))).
Proof.
  intros Hwf. unfold bit_fill_gaps. wp_step; [by apply wf_magic|].
  wp_step. eapply wp_mono; [by apply bit_ffs_spec|]. intros first [[-> Hno]|(Hr & Hy & Hno)]; simpl.
  - eapply upd_ext; [by apply upd_refl|]. intros i Hi; cbn beta.
    rewrite (proj2 (count_zero (bs_mem b) i (bs_bits b))); [lia|]. intros; apply Hno; lia.
  - if_case; [lia|]. wp_step. eapply wp_mono; [by apply bit_fls_spec|].
    intros last [[-> Hno']|(Hr' & Hy' & Hno')]; [rewrite Hno' in Hy by lia; done|].
    assert (first <= last). { destruct (decide (first <= last)); [done|]. rewrite Hno in Hy' by lia. done. }
    eapply wp_mono; [apply bit_nset_spec; [done|lia|lia]|]. intros b' Hu.
    eapply upd_ext; [exact Hu|]. intros i Hi. unfold bs_range.
    destruct ((first <=? i) && (i <=? last)) eqn:Ein.
    + pose proof (count_pos (bs_mem b) 0 (i + 1) first ltac:(lia) Hy).
      pose proof (count_pos (bs_mem b) i (bs_bits b) last ltac:(lia) Hy'). lia.
    + destruct (bs_mem b i) eqn:Em; [done|]. simpl.
      destruct (decide (i < first)).
      * rewrite (proj2 (count_zero (bs_mem b) 0 (i + 1))); [lia|]. intros; apply Hno; lia.
      * rewrite (proj2 (count_zero (bs_mem b) i (bs_bits b))); [lia|]. intros; apply Hno'; lia.
Qed.
