(* ===== verification/BitstringCount.v ===== *)
(** * Bitmaps: counting, runs, rotation and picking

    Specifications of the operations of [Bitstring] that count bits, look for
    runs of equal bits, rotate a bitmap or pick its first set bits, and the rule for
    loops over the set bits of a bitmap. *)

From S2P Require Import Prelude Bitstring Popcount BitstringFacts.

Local Open Scope Z_scope.
Local Open Scope slurm_scope.

(** ** Counting *)
Lemma count_bits_spec test (P : Z -> bool) fuel end_ bit c (Q : Z * Z -> Prop) :
  (forall i, bit <= i < end_ -> test i = Ret (P i)) ->
  (Z.to_nat (end_ - bit) < fuel)%nat ->
  Q (Z.max bit end_, c + count P bit (Z.max bit end_)) ->
  wp (count_bits test fuel end_ bit c) Q.
Proof.
  intros Ht Hf HQ. unfold count_bits.
  eapply (wp_loop (fun '(j, d) => bit <= j <= Z.max bit end_ /\ d = c + count P bit j)
            (fun '(j, _) => Z.to_nat (end_ - j))
            (fun p => p = (Z.max bit end_, c + count P bit (Z.max bit end_))));
    [| |done|by intros ? ->].
  - intros [j d] (Hj & ->). if_case.
    + rewrite Ht by lia. simpl. split; [|lia]. split; [lia|].
      rewrite count_snoc by lia. destruct (P j); lia.
    + wp_step. replace (Z.max bit end_) with j by lia. done.
  - split; [lia|]. rewrite count_empty by lia. lia.
Qed.

Lemma count_words_spec word (P : Z -> bool) fuel end_ bit c (Q : Z * Z -> Prop) :
  (forall i, bit <= i -> i `mod` 64 = bit `mod` 64 -> i + 64 <= end_ ->
     exists w, word i = Ret w /\ hweight w = count P i (i + 64)) ->
  (Z.to_nat (end_ - bit) < fuel)%nat ->
  (forall bit', bit <= bit' -> bit' <= Z.max bit end_ -> end_ < bit' + 64 ->
     Q (bit', c + count P bit bit')) ->
  wp (count_words word fuel end_ bit c) Q.
Proof.
  intros Ht Hf HQ. unfold count_words.
  eapply (wp_loop (fun '(j, d) => bit <= j <= Z.max bit end_ /\ j `mod` 64 = bit `mod` 64 /\
                     d = c + count P bit j)
            (fun '(j, _) => Z.to_nat (end_ - j))
            (fun p => exists j, bit <= j <= Z.max bit end_ /\ end_ < j + 64 /\ p = (j, c + count P bit j)));
    [| |done|intros ? (j & ? & ? & ->); apply HQ; lia].
  - intros [j d] (Hj & Hm & ->). if_case.
    + destruct (Ht j) as (w & -> & Hw); [lia|done|lia|]. simpl. split; [|lia].
      split_and!; [lia|lia|dlia|]. rewrite (count_split P bit j (j + 64)) by lia. lia.
    + wp_step. exists j. split_and!; [lia|lia|lia|done].
  - split_and!; [lia|lia|done|]. rewrite count_empty by lia. lia.
Qed.

Lemma word_count b bit :
  bs_wf b -> 0 <= bit -> bit `mod` 64 = 0 -> bit + 64 <= bs_bits b ->
  exists w, get_word b (bit_word bit) = Ret w /\ 0 <= w < 2 ^ 64 /\
    forall i, 0 <= i < 64 -> bs_mem b (bit + i) = Z.testbit w i.
Proof.
  intros Hwf Hb Hm He. apply wp_inv. rewrite bit_word_div.
  apply wp_get_word; [done|apply word_index_lt; [done|lia]|]. intros w _ Hr Hw.
  split; [done|]. intros i Hi. rewrite <-Hw by done. f_equal. dlia.
Qed.

Lemma hweight_mem b bit :
  bs_wf b -> 0 <= bit -> bit `mod` 64 = 0 -> bit + 64 <= bs_bits b ->
  exists w, get_word b (bit_word bit) = Ret w /\ hweight w = count (bs_mem b) bit (bit + 64).
Proof.
  intros Hwf Hb Hm He. destruct (word_count b bit) as (w & Hg & Hr & Hw); [done..|].
  exists w. split; [done|]. rewrite hweight_spec by done. symmetry. by apply count_shift.
Qed.

Lemma bit_set_count_spec b :
  bs_wf b -> bit_set_count b = Ret (count (bs_mem b) 0 (bs_bits b)).
Proof.
  intros Hwf. pose proof (wf_size _ Hwf). apply wp_eq. unfold bit_set_count.
  wp_step; [by apply wf_magic|]. cbv zeta. wp_step.
  apply (count_words_spec _ (bs_mem b)); [|unfold loop_fuel; lia|].
  { intros i Hi Hm He. apply hweight_mem; [done|lia|dlia|lia]. }
  intros bit Hb1 Hb2 Hb3. wp_step.
  apply (count_bits_spec _ (bs_mem b)); [|unfold loop_fuel; lia|].
  { intros i Hi. apply bit_test_spec; [done|lia]. }
  wp_step. rewrite (count_split (bs_mem b) 0 bit (bs_bits b)) by lia.
  replace (Z.max bit (bs_bits b)) with (bs_bits b) by lia. lia.
Qed.

Lemma bit_set_count_range_spec b start end_ :
  bs_wf b -> 0 <= start < bs_bits b ->
  bit_set_count_range b start end_ =
    Ret (count (bs_mem b) start (Z.min end_ (bs_bits b))).
Proof.
  intros Hwf Hs. apply wp_eq. unfold bit_set_count_range.
  wp_step; [by apply wf_magic|]. wp_step; [by apply bit_valid_true|]. cbv zeta.
  replace (if end_ <? bs_bits b then end_ else bs_bits b) with (Z.min end_ (bs_bits b)) by if_solve.
  set (e := Z.min end_ (bs_bits b)). set (eow := (start + 64 - 1) / 64 * 64).
  replace (if e <? eow then e else eow) with (Z.min e eow) by if_solve.
  assert (Ht : forall i, start <= i < e -> bit_test b i = Ret (bs_mem b i)).
  { intros i Hi. apply bit_test_spec; [done|unfold e in *; lia]. }
  wp_step. apply (count_bits_spec _ (bs_mem b)); [intros; apply Ht; lia|unfold loop_fuel; lia|].
  wp_step. apply (count_words_spec _ (bs_mem b)); [|unfold loop_fuel; lia|].
  { intros i Hi Hm He. apply hweight_mem; [done|lia|unfold eow in *; dlia|lia]. }
  intros bit Hb1 Hb2 Hb3. wp_step.
  apply (count_bits_spec _ (bs_mem b)); [intros; apply Ht; lia|unfold loop_fuel; lia|].
  wp_step. destruct (decide (start <= e)).
  - set (m := Z.max start (Z.min e eow)) in *.
    rewrite (count_split (bs_mem b) start m e), (count_split (bs_mem b) m bit e) by lia.
    replace (Z.max bit e) with e by lia. lia.
  - rewrite !count_empty by lia. lia.
Qed.

Lemma bit_overlap_spec b1 b2 :
  bs_wf b1 -> bs_wf b2 -> bs_bits b1 = bs_bits b2 ->
  bit_overlap b1 b2 = Ret (count (fun i => bs_mem b1 i && bs_mem b2 i) 0 (bs_bits b1)).
Proof.
  intros H1 H2 Hb. pose proof (wf_size _ H1). apply wp_eq. unfold bit_overlap.
  do 2 (wp_step; [by apply wf_magic|]). wp_step; [lia|]. cbv zeta. wp_step.
  set (P := fun i => bs_mem b1 i && bs_mem b2 i).
  apply (count_words_spec _ P); [|unfold loop_fuel; lia|].
  { intros i Hi Hm He.
    destruct (word_count b1 i) as (w1 & Hg1 & Hr1 & Hw1); [done|lia|dlia|lia|].
    destruct (word_count b2 i) as (w2 & Hg2 & Hr2 & Hw2); [done|lia|dlia|lia|].
    rewrite Hg1, Hg2. exists (Z.land w1 w2). split; [done|].
    rewrite hweight_spec by (by apply land_range). symmetry. apply count_shift.
    intros j Hj. unfold P. by rewrite Hw1, Hw2, Z.land_spec. }
  intros bit Hb1 Hb2 Hb3. wp_step.
  apply (count_bits_spec _ P); [|unfold loop_fuel; lia|].
  { intros i Hi. rewrite !bit_test_spec by (done || lia). unfold P. simpl. by destruct (bs_mem b1 i). }
  wp_step. rewrite (count_split P 0 bit (bs_bits b1)) by lia.
  replace (Z.max bit (bs_bits b1)) with (bs_bits b1) by lia. lia.
Qed.

Lemma count_negb P lo hi : lo <= hi -> count (fun i => negb (P i)) lo hi = hi - lo - count P lo hi.
Proof.
  intros H. replace hi with (lo + (hi - lo)) by lia. assert (0 <= hi - lo) as Hn by lia.
  revert Hn. generalize (hi - lo). apply natlike_ind; [rewrite !count_empty by lia; lia|].
  intros n Hn IH. rewrite <-Z.add_1_r, Z.add_assoc, !count_snoc by lia.
  rewrite IH. destruct (P (lo + n)); simpl; lia.
Qed.

Lemma bit_clear_count_spec b :
  bs_wf b -> bit_clear_count b = Ret (count (fun i => negb (bs_mem b i)) 0 (bs_bits b)).
Proof.
  intros Hwf. pose proof (wf_size _ Hwf). unfold bit_clear_count. rewrite (wf_magic _ Hwf). simpl.
  rewrite bit_set_count_spec by done. simpl. rewrite count_negb by lia. f_equal. lia.
Qed.

Lemma bit_clear_count_range_spec b start end_ :
  bs_wf b -> 0 <= start < bs_bits b -> end_ <= bs_bits b ->
  i32_min <= end_ - start ->
  bit_clear_count_range b start end_ = Ret (count (fun i => negb (bs_mem b i)) start end_).
Proof.
  intros Hwf Hs He Hm. pose proof (wf_size _ Hwf). apply wp_eq. unfold bit_clear_count_range.
  wp_step; [by apply wf_magic|]. wp_step. apply wp_i32; [unfold i32_max; lia|].
  if_case; [wp_step; by rewrite count_empty by lia|].
  rewrite bit_set_count_range_spec by done. simpl.
  rewrite Z.min_l by lia. by rewrite count_negb by lia.
Qed.

(** ** Runs of equal bits *)

(** Bits [s .. s+n-1] all have the value [want]. *)
Definition run_at (b : bitstr) (want : bool) (n s : Z) : bool :=
  count (bs_is b want) s (s + n) =? n.

Lemma run_at_true b want n s :
  0 <= n -> run_at b want n s = true <-> forall i, s <= i < s + n -> bs_is b want i = true.
Proof.
  intros Hn. unfold run_at. rewrite Z.eqb_eq. split.
  - intros Hc i Hi. destruct (bs_is b want i) eqn:E; [done|].
    rewrite (count_split _ s i), (count_cons _ i), E in Hc by lia.
    pose proof (count_range (bs_is b want) s i). pose proof (count_range (bs_is b want) (i + 1) (s + n)).
    lia.
  - intros H. rewrite count_all by (done || lia). lia.
Qed.

Lemma run_at_broken b want n s i :
  s <= i < s + n -> bs_is b want i = false -> run_at b want n s = false.
Proof.
  intros Hi Hf. destruct (run_at b want n s) eqn:E; [|done].
  rewrite run_at_true in E by lia. rewrite E in Hf by done. done.
Qed.

Lemma find_run_spec want brk b n from until :
  bs_wf b -> 0 < n -> 0 <= from -> until <= bs_bits b ->
  wp (find_run want brk b n from until) (fun r =>
    first_in (run_at b want n) from (until - n + 1) r \/
    (r = -1 /\ exists i, brk i = true /\ from <= i < until /\
       forall s, from <= s <= i -> run_at b want n s = false)).
Proof.
  intros Hwf Hn Hf Hu. unfold find_run.
  eapply (wp_loop (fun '(bit, cnt) => from <= bit - cnt /\ 0 <= cnt < n /\ bit <= Z.max from until /\
            (forall i, bit - cnt <= i < bit -> bs_is b want i = true) /\
            (forall s, from <= s < bit - cnt -> run_at b want n s = false))
          (fun '(bit, _) => Z.to_nat (until - bit))); [| |unfold loop_fuel; lia|exact (fun _ H => H)].
  2: { split_and!; [lia..| |]; intros; lia. }
  intros [bit cnt] (Hs & Hc & Hb & Hrun & Hno). if_case.
  2: { wp_step. left. left. split; [done|]. intros s Hsr. apply Hno. lia. }
  wp_step. rewrite bit_test_spec by (done || lia). simpl.
  destruct (Bool.eqb (bs_mem b bit) want) eqn:Ew.
  - assert (Hrun' : forall i, bit - cnt <= i < bit + 1 -> bs_is b want i = true).
    { intros i Hi. destruct (decide (i = bit)) as [->|]; [done|]. apply Hrun. lia. }
    if_case.
    + wp_step. left. right. split_and!; [lia|lia| |].
      * apply run_at_true; [lia|]. intros; apply Hrun'; lia.
      * intros; apply Hno; lia.
    + wp_step. split; [|lia]. split_and!; [lia..| |].
      * intros; apply Hrun'; lia.
      * intros; apply Hno; lia.
  - assert (Hbrk : forall s, from <= s <= bit -> run_at b want n s = false).
    { intros s Hsr. destruct (decide (s < bit - cnt)); [apply Hno; lia|].
      apply (run_at_broken _ _ _ _ bit); [lia|done]. }
    destruct (brk bit) eqn:Eb; wp_step.
    + right. split; [done|]. exists bit. split_and!; try done; lia.
    + split; [|lia]. split_and!; [lia..| |]; intros; [lia|apply Hbrk; lia].
Qed.

(** [bit_nffc] finds the first run of [n] clear bits. *)
Lemma bit_nffc_spec b n :
  bs_wf b -> 0 < n < bs_bits b ->
  wp (bit_nffc b n) (first_in (run_at b false n) 0 (bs_bits b - n + 1)).
Proof.
  intros Hwf Hn. unfold bit_nffc. wp_step; [by apply wf_magic|]. wp_step; [lia|].
  eapply wp_mono; [by apply find_run_spec; [|lia..]|]. intros r [H|(_ & i & Hi & _)]; done.
Qed.

(** The loop bound of [bit_nffs] only lets it see runs that end by position
    [bits - n], not all of those that fit in the bitmap. *)
Lemma bit_nffs_spec b n :
  bs_wf b -> 0 < n <= bs_bits b ->
  wp (bit_nffs b n) (first_in (run_at b true n) 0 (bs_bits b - 2 * n + 2)).
Proof.
  intros Hwf Hn. unfold bit_nffs. wp_step; [by apply wf_magic|]. wp_step; [lia|].
  eapply wp_mono; [by apply find_run_spec; [|lia..]|]. intros r [H|(_ & i & Hi & _)]; [|done].
  by replace (bs_bits b - 2 * n + 2) with (bs_bits b - n + 1 - n + 1) by lia.
Qed.

(** [bit_noc] prefers the first run of [n] clear bits at or after [seed] and
    otherwise returns the first one of the bitmap; -1 only if there is none. *)
Lemma bit_noc_spec b n seed :
  bs_wf b -> 0 < n <= bs_bits b -> 0 <= seed -> seed + n <= i32_max ->
  let seed' := if bs_bits b <=? seed + n then bs_bits b else seed in
  wp (bit_noc b n seed) (fun r =>
    (0 <= r /\ first_in (run_at b false n) seed' (bs_bits b - n + 1) r) \/
    ((forall s, seed' <= s < bs_bits b - n + 1 -> run_at b false n s = false) /\
     first_in (run_at b false n) 0 (bs_bits b - n + 1) r)).
Proof.
  intros Hwf Hn Hs Hi seed'. unfold bit_noc. wp_step; [by apply wf_magic|]. wp_step; [lia|].
  wp_step. apply wp_i32; [unfold i32_min; lia|]. cbv zeta. fold seed'.
  assert (0 <= seed') by (unfold seed'; if_solve).
  wp_step. eapply wp_mono; [apply find_run_spec; [done|lia..]|].
  intros v [Hv|(_ & i & Hbrk & _)]; [|done]. if_case.
  - destruct Hv as [[_ Hno]|(? & _)]; [|lia].
    eapply wp_mono; [apply find_run_spec; [done|lia..]|].
    intros r [Hr|(-> & i & Hbrk & Hir & Hr)]; right; split; try done.
    left. split; [done|]. intros s Hsr. destruct (decide (s <= i)); [apply Hr; lia|].
    apply Hno. lia.
  - wp_step. left. destruct Hv as [[-> _]|Hv]; [done|]. split; [lia|]. by right.
Qed.

(** [bit_nset_max_count] is the length of the longest run of set bits. *)
Lemma bit_nset_max_count_spec b :
  bs_wf b ->
  wp (bit_nset_max_count b) (fun m => 0 <= m /\
    (0 < m -> exists s, 0 <= s /\ s + m <= bs_bits b /\ run_at b true m s = true) /\
    (forall s n, 0 <= s -> m < n -> s + n <= bs_bits b -> run_at b true n s = false)).
Proof.
  intros Hwf. pose proof (wf_size _ Hwf). unfold bit_nset_max_count. wp_step; [by apply wf_magic|].
  cbv zeta.
  eapply (wp_loop (fun '(bit, cnt, m) => 0 <= bit <= bs_bits b /\ 0 <= cnt <= m /\ cnt <= bit /\
            (forall i, bit - cnt <= i < bit -> bs_is b true i = true) /\
            (0 < bit - cnt -> bs_is b true (bit - cnt - 1) = false) /\
            (0 < m -> exists s, 0 <= s /\ s + m <= bs_bits b /\ run_at b true m s = true) /\
            (forall s n, 0 <= s -> m < n -> s + n <= bit -> run_at b true n s = false))
          (fun '(bit, _, _) => Z.to_nat (bs_bits b - bit)));
    [| |unfold loop_fuel; lia|exact (fun _ H => H)].
  2: { split_and!; [lia..| | |lia|]; intros; lia. }
  intros [[bit cnt] m] (Hb & Hc & Hcb & Hrun & Hprev & Hex & Hno). if_case.
  2: { wp_step. split_and!; [lia|done|]. intros; apply Hno; lia. }
  wp_step. rewrite bit_test_spec by (done || lia). simpl.
  destruct (bs_mem b bit) eqn:Eb; cbn [andb].
  - if_case; [lia|]. wp_step. split; [|lia].
    assert (Hrun' : forall i, bit - cnt <= i < bit + 1 -> bs_is b true i = true).
    { intros i Hi. destruct (decide (i = bit)) as [->|]; [unfold bs_is; by rewrite Eb|]. apply Hrun. lia. }
    assert (Hmax : forall s n, 0 <= s -> Z.max m (cnt + 1) < n -> s + n <= bit + 1 ->
                   run_at b true n s = false).
    { intros s n Hs0 Hn He. destruct (decide (s + n <= bit)); [apply Hno; lia|].
      apply (run_at_broken _ _ _ _ (bit - cnt - 1)); [lia|apply Hprev; lia]. }
    replace (if m <? cnt + 1 then cnt + 1 else m) with (Z.max m (cnt + 1)) by if_solve.
    split_and!; [lia..| | | |done].
    + intros; apply Hrun'; lia.
    + intros. replace (bit + 1 - (cnt + 1) - 1) with (bit - cnt - 1) by lia. apply Hprev. lia.
    + intros _. destruct (decide (m < cnt + 1)).
      * exists (bit - cnt). rewrite Z.max_r by lia. split_and!; [lia..|].
        apply run_at_true; [lia|]. intros; apply Hrun'; lia.
      * rewrite Z.max_l by lia. apply Hex. lia.
  - assert (Hbit : bs_is b true bit = false) by (unfold bs_is; by rewrite Eb).
    assert (Hmax : forall s n, 0 <= s -> m < n -> s + n <= bit + 1 -> run_at b true n s = false).
    { intros s n Hs0 Hn He. destruct (decide (s + n <= bit)); [apply Hno; lia|].
      apply (run_at_broken _ _ _ _ bit); [lia|done]. }
    if_case; wp_step.
    + split_and!; [lia|done|]. intros s n Hs0 Hn He.
      destruct (decide (s + n <= bit)); [apply Hno; lia|].
      apply (run_at_broken _ _ _ _ bit); [lia|done].
    + split; [|lia]. split_and!; [lia..| | |done|done].
      * intros; lia.
      * intros. by replace (bit + 1 - 0 - 1) with bit by lia.
Qed.

(** ** Copies and resizing *)
Lemma copy_words_spec dest src :
  bs_wf dest -> bs_wf src -> bs_bits dest = bs_bits src ->
  wp (copy_words dest src (Z.to_nat (bitstr_words (bs_bits src)))) (fun b' =>
    bs_upd dest b' (bs_mem src)).
Proof.
  intros Hd Hs Hb. pose proof (words_eq_len _ _ Hd Hs Hb) as Hlen.
  rewrite <-(wf_len _ Hs), Nat2Z.id. unfold copy_words.
  wp_step; [rewrite Hlen; by rewrite Nat.leb_refl|]. wp_step.
  rewrite firstn_all, <-Hlen, drop_all, app_nil_r.
  split; simpl; try done. destruct Hd, Hs. split; simpl; try done; lia.
Qed.

Lemma bit_copy_spec b :
  bs_wf b -> wp (bit_copy b) (fun b' => bs_wf b' /\ bs_magic b' = BITSTR_MAGIC /\
    bs_bits b' = bs_bits b /\ forall i, 0 <= i -> bs_mem b' i = bs_mem b i).
Proof.
  intros Hwf. unfold bit_copy, bit_size. wp_step; [by apply wf_magic|].
  rewrite (wf_magic _ Hwf). simpl. wp_step.
  eapply wp_mono; [apply bit_alloc_spec, (wf_size _ Hwf)|]. intros new (Hn & Hm & Hb & _).
  eapply wp_mono; [by apply copy_words_spec|]. intros b' [Hw' Hm' Hb' Hmem].
  split_and!; [done|congruence|congruence|done].
Qed.

Lemma bit_copybits_spec dest src :
  bs_wf dest -> bs_wf src -> bs_bits dest = bs_bits src ->
  wp (bit_copybits dest src) (fun b' => bs_upd dest b' (bs_mem src)).
Proof.
  intros Hd Hs Hb. unfold bit_copybits, bit_size.
  rewrite (wf_magic _ Hd), (wf_magic _ Hs). simpl. wp_step; [lia|]. by apply copy_words_spec.
Qed.

(** Bits below both sizes survive a [bit_realloc]; a grown bitmap reads the
    zeroes [xrealloc] appends, after whatever the last old word held. *)
Lemma bit_realloc_spec b n :
  bs_wf b -> 0 <= n <= 0x40000000 ->
  wp (bit_realloc b n) (fun b' => bs_wf b' /\ bs_bits b' = n /\
    forall i, 0 <= i < n -> bs_mem b' i = bs_mem b i).
Proof.
  intros Hwf Hn. unfold bit_realloc. wp_step; [by apply wf_magic|].
  wp_step; [unfold valid_size; lia|]. wp_step.
  assert (0 <= bitstr_words n) by (rewrite bitstr_words_div; dlia).
  split_and!; simpl; [|done|].
  - destruct Hwf as [Hm Hs Hl HF]. split; simpl; try done.
    + rewrite length_resize. lia.
    + apply Forall_resize; [lia|done].
  - intros i Hi. unfold bs_mem; simpl. f_equal.
    assert (0 <= i / 64 < bitstr_words n) by (rewrite bitstr_words_div; dlia).
    destruct (decide (Z.to_nat (i / 64) < length (bs_words b))%nat).
    + by rewrite lookup_resize by lia.
    + by rewrite lookup_resize_new, (lookup_ge_None_2 (bs_words b)) by lia.
Qed.

(** ** Positions of set bits *)
Lemma bit_get_bit_num_spec b pos :
  bs_wf b -> 0 <= pos <= bs_bits b ->
  wp (bit_get_bit_num b pos) (first_in (fun i => bs_mem b i && (count (bs_mem b) 0 i =? pos))
                                0 (bs_bits b)).
Proof.
  intros Hwf Hp. pose proof (wf_size _ Hwf). unfold bit_get_bit_num.
  wp_step; [by apply wf_magic|]. cbv zeta. wp_step; [lia|]. wp_step.
  set (P := fun i => bs_mem b i && (count (bs_mem b) 0 i =? pos)).
  eapply (wp_loop (fun '(bit, cnt) => 0 <= bit <= bs_bits b /\ cnt = count (bs_mem b) 0 bit /\ cnt <= pos /\
            forall i, 0 <= i < bit -> P i = false)
          (fun '(bit, _) => Z.to_nat (bs_bits b - bit))
          (fun bit => 0 <= bit <= bs_bits b /\ (forall i, 0 <= i < bit -> P i = false) /\
             (bit < bs_bits b -> P bit = true)));
    [| |unfold loop_fuel; lia|].
  - intros [bit cnt] (Hb & -> & Hc & Hno). if_case; [|wp_step; split_and!; (done || lia)].
    wp_step. rewrite bit_test_spec by (done || lia). simpl.
    assert (Hnext : P bit = false -> forall i, 0 <= i < bit + 1 -> P i = false).
    { intros HP i Hi. destruct (decide (i = bit)) as [->|]; [done|]. apply Hno. lia. }
    unfold P in *. destruct (bs_mem b bit) eqn:Eb; [if_case|]; wp_step; simpl in *.
    + split_and!; [lia|lia|done|lia].
    + split; [|lia]. split_and!; [lia|lia|rewrite count_snoc, Eb by lia; lia|lia|apply Hnext; lia].
    + split; [|lia]. split_and!; [lia|lia|rewrite count_snoc, Eb by lia; lia|lia|by apply Hnext].
  - split_and!; [lia|lia|by rewrite count_empty by lia|lia|]. intros; lia.
  - intros r (Hr & Hno & Hyes). wp_step. if_case; [left|right].
    + split; [done|]. intros; apply Hno; lia.
    + split_and!; [lia|lia|apply Hyes; lia|done].
Qed.

Lemma bit_get_pos_num_spec b pos :
  bs_wf b -> 0 <= pos < bs_bits b ->
  bit_get_pos_num b pos =
    Ret (if bs_mem b pos then count (bs_mem b) 0 pos else -1).
Proof.
  intros Hwf Hp. apply wp_eq. unfold bit_get_pos_num.
  wp_step; [by apply wf_magic|]. cbv zeta. wp_step; [lia|].
  wp_step. rewrite bit_test_spec by done. simpl. destruct (bs_mem b pos) eqn:Ep; simpl; [|done].
  wp_step. apply (count_bits_spec _ (bs_mem b)); [|unfold loop_fuel; lia|].
  { intros i Hi. apply bit_test_spec; [done|lia]. }
  wp_step. rewrite Z.max_r, count_snoc, Ep by lia. lia.
Qed.

(** ** Rotation *)
Lemma rotate_bits_spec b1 stop bit dst new (Q : Z * bitstr -> Prop) :
  bs_wf b1 -> bs_wf new -> 0 <= bit <= stop -> stop <= bs_bits b1 ->
  0 <= dst -> dst + (stop - bit) <= bs_bits new ->
  (forall new', bs_upd new new' (fun i =>
     bs_mem new i || ((dst <=? i) && (i <? dst + (stop - bit)) && bs_mem b1 (bit + (i - dst)))) ->
     Q (stop, new')) ->
  wp (rotate_bits b1 stop bit dst new) Q.
Proof.
  intros H1 Hn Hb Hs Hlo Hhi HQ. unfold rotate_bits.
  eapply (wp_loop (fun '(j, d, new') => bit <= j <= stop /\ d = dst + (j - bit) /\
            bs_upd new new' (fun i =>
              bs_mem new i || ((dst <=? i) && (i <? d) && bs_mem b1 (bit + (i - dst)))))
          (fun '(j, _, _) => Z.to_nat (stop - j))
          (fun '(j, new') => j = stop /\ bs_upd new new' (fun i =>
            bs_mem new i || ((dst <=? i) && (i <? dst + (stop - bit)) && bs_mem b1 (bit + (i - dst))))));
    [| |unfold loop_fuel; lia|intros [j new'] [-> Hu]; by apply HQ].
  - intros [[j d] new'] (Hj & -> & Hu). pose proof (upd_bits _ _ _ Hu). if_case.
    2: { wp_step. replace stop with j by lia. done. }
    wp_step. rewrite bit_test_spec by (done || lia). simpl. wp_step.
    assert (Hnext : forall i, 0 <= i ->
      (if i =? dst + (j - bit) then bs_mem b1 j else
         ((dst <=? i) && (i <? dst + (j - bit)) && bs_mem b1 (bit + (i - dst)))) =
      (dst <=? i) && (i <? dst + (j - bit) + 1) && bs_mem b1 (bit + (i - dst))).
    { intros i Hi. destruct (Z.eqb_spec i (dst + (j - bit))) as [->|].
      - replace (bit + (dst + (j - bit) - dst)) with j by lia. lia.
      - f_equal. lia. }
    destruct (bs_mem b1 j) eqn:Ej.
    + eapply wp_mono; [apply bit_set_spec; [apply Hu|lia]|]. intros n2 Hu2. wp_step.
      split; [|lia]. split_and!; [lia..|]. eapply upd_ext; [eapply upd_trans; [exact Hu|exact Hu2]|].
      intros i Hi; cbn beta. rewrite (upd_mem _ _ _ Hu), <-Hnext by done.
      if_case; [by rewrite orb_true_r|done].
    + wp_step. wp_step. split; [|lia]. split_and!; [lia..|]. eapply upd_ext; [exact Hu|].
      intros i Hi; cbn beta. rewrite <-Hnext by done. f_equal. if_case; lia.
  - split_and!; [lia..|]. eapply upd_ext; [by apply upd_refl|]. intros i Hi. lia.
Qed.

(** Normalising the C remainder of a rotation distance. *)
Lemma rem_normalised n k :
  0 < k -> (if Z.rem n k <? 0 then Z.rem n k + k else Z.rem n k) = n `mod` k.
Proof.
  intros Hk. pose proof (Z.quot_rem' n k) as Hq. pose proof (Z.rem_bound_abs n k).
  if_case.
  - apply (Z.mod_unique n k (Z.quot n k - 1)); [left|]; lia.
  - apply (Z.mod_unique n k (Z.quot n k)); [left|]; lia.
Qed.

(** Bit [i] of the source moves to bit [(i + n) mod nbits] of the copy. *)
Lemma bit_rotate_copy_spec b1 n nbits :
  bs_wf b1 -> 0 < nbits <= 0x40000000 -> bs_bits b1 <= nbits ->
  wp (bit_rotate_copy b1 n nbits) (fun b' => bs_wf b' /\ bs_magic b' = BITSTR_MAGIC /\
    bs_bits b' = nbits /\
    (forall i, 0 <= i < nbits -> bs_mem b' ((i + n) `mod` nbits) = (i <? bs_bits b1) && bs_mem b1 i) /\
    (forall i, nbits <= i -> bs_mem b' i = false)).
Proof.
  intros Hwf Hn Hle. pose proof (wf_size _ Hwf). unfold bit_rotate_copy, bit_size.
  wp_step; [by apply wf_magic|]. rewrite (wf_magic _ Hwf). simpl.
  wp_step; [lia|]. wp_step; [lia|].
  set (m := if Z.rem n nbits <? 0 then Z.rem n nbits + nbits else Z.rem n nbits).
  assert (Hm : m = n `mod` nbits) by (apply rem_normalised; lia).
  pose proof (Z.mod_pos_bound n nbits). set (w := if nbits - bs_bits b1 <? m then _ else 0).
  assert (Hw : w = Z.max 0 (m - (nbits - bs_bits b1))) by (unfold w; if_solve).
  clearbody m w.
  wp_step. eapply wp_mono; [by apply bit_alloc_spec; lia|]. intros a (Ha & Hma & Hba & Hza).
  wp_step. eapply wp_mono; [apply bit_nclear_spec; [done|lia..]|]. intros c Hc.
  pose proof (upd_bits _ _ _ Hc). pose proof (upd_magic _ _ _ Hc).
  assert (Hzc : forall i, 0 <= i -> bs_mem c i = false).
  { intros i Hi. rewrite (upd_mem _ _ _ Hc) by done. unfold bs_range. rewrite Hza by done. by if_case. }
  wp_step. apply rotate_bits_spec; [done|apply Hc|lia..|]. intros c1 Hc1.
  pose proof (upd_bits _ _ _ Hc1). pose proof (upd_magic _ _ _ Hc1).
  wp_step. apply rotate_bits_spec; [done|apply Hc1|lia..|]. intros c2 Hc2.
  pose proof (upd_bits _ _ _ Hc2). pose proof (upd_magic _ _ _ Hc2).
  assert (Hmem : forall i, 0 <= i -> bs_mem c2 i =
     ((m <=? i) && (i <? m + (bs_bits b1 - w)) && bs_mem b1 (i - m)) ||
     ((i <? w) && bs_mem b1 (bs_bits b1 - w + i))).
  { intros i Hi. rewrite (upd_mem _ _ _ Hc2), (upd_mem _ _ _ Hc1), Hzc by done. simpl.
    apply f_equal2; apply f_equal2; (lia || (f_equal; lia)). }
  wp_step. split_and!; [apply Hc2|congruence|lia| |].
  - intros i Hi. rewrite Z.add_mod, <-Hm, (Z.mod_small i) by lia. rewrite Hm in *.
    destruct (decide (i + n `mod` nbits < nbits)).
    + rewrite Z.mod_small, Hmem by lia.
      replace (i + n `mod` nbits - n `mod` nbits) with i by lia. lia.
    + replace ((i + n `mod` nbits) `mod` nbits) with (i + n `mod` nbits - nbits)
        by (apply (Z.mod_unique _ _ 1); lia).
      rewrite Hmem by lia.
      destruct (decide (i < bs_bits b1)).
      * replace (bs_bits b1 - w + (i + n `mod` nbits - nbits)) with i by lia. lia.
      * lia.
  - intros i Hi. rewrite Hmem by lia. lia.
Qed.

Lemma bit_rotate_spec b n :
  bs_wf b -> 0 < bs_bits b ->
  wp (bit_rotate b n) (fun b' => bs_wf b' /\ bs_magic b' = bs_magic b /\ bs_bits b' = bs_bits b /\
    forall i, 0 <= i < bs_bits b -> bs_mem b' ((i + n) `mod` bs_bits b) = bs_mem b i).
Proof.
  intros Hwf Hb. pose proof (wf_size _ Hwf). unfold bit_rotate, bit_size. if_case.
  - wp_step. split_and!; try done. intros i Hi. f_equal. rewrite Z.mod_small by lia. lia.
  - rewrite (wf_magic _ Hwf). simpl. wp_step.
    eapply wp_mono; [apply bit_rotate_copy_spec; [done|lia..]|].
    intros new (Hn & Hm & Hbn & Hmem & _). wp_step.
    eapply wp_mono; [by apply bit_copybits_spec|]. intros b' [Hw' Hm' Hb' Hmem'].
    unfold bit_free. rewrite Hm. simpl. split_and!; try done.
    intros i Hi. rewrite Hmem' by (apply Z.mod_pos_bound; lia). rewrite Hmem by done.
    by replace (i <? bs_bits b) with true by lia.
Qed.

(** ** The first [nbits] set bits *)
Section pick.
Context (b a : bitstr) (nbits : Z).
Hypothesis Hb : bs_wf b.
Hypothesis Ha : bs_wf a.
Hypothesis Hab : bs_bits a = bs_bits b.
Hypothesis Hnbits : nbits <= bs_bits b.

(** All set bits of [b] below [bit] have been copied to [new], and there are
    [cnt] of them, not more than wanted. *)
Definition picked (bit cnt : Z) (new : bitstr) : Prop :=
  0 <= bit /\ cnt = count (bs_mem b) 0 (Z.min bit (bs_bits b)) /\ cnt <= Z.max 0 nbits /\
  bs_upd a new (fun i => (i <? Z.min bit (bs_bits b)) && bs_mem b i).

Lemma picked_bit bit cnt new (Q : bitstr -> Prop) :
  bit < bs_bits b -> cnt < nbits -> picked bit cnt new ->
  (forall new', picked (bit + 1) (if bs_mem b bit then cnt + 1 else cnt) new' -> Q new') ->
  wp (if bs_mem b bit then bit_set new bit else Ret new) Q.
Proof using All.
  intros Hlt Hc (H0 & -> & Hm & Hu) HQ. pose proof (upd_bits _ _ _ Hu).
  assert (Hs : count (bs_mem b) 0 (Z.min (bit + 1) (bs_bits b)) =
               count (bs_mem b) 0 (Z.min bit (bs_bits b)) + if bs_mem b bit then 1 else 0).
  { rewrite !Z.min_l by lia. apply count_snoc. lia. }
  destruct (bs_mem b bit) eqn:E.
  - eapply wp_mono; [apply bit_set_spec; [apply Hu|lia]|]. intros n2 Hu2. apply HQ.
    split_and!; [lia..|]. eapply upd_ext; [eapply upd_trans; [exact Hu|exact Hu2]|].
    intros i Hi; cbn beta. rewrite (upd_mem _ _ _ Hu) by done.
    destruct (Z.eqb_spec i bit) as [->|]; [rewrite E; lia|f_equal; lia].
  - wp_step. apply HQ. split_and!; [lia..|]. eapply upd_ext; [exact Hu|].
    intros i Hi; cbn beta. destruct (decide (i = bit)) as [->|]; [rewrite E; lia|f_equal; lia].
Qed.

Lemma picked_word bit cnt new w (Q : bitstr -> Prop) :
  bit `mod` 64 = 0 -> bit + 64 <= bs_bits b -> picked bit cnt new ->
  0 <= w < 2 ^ 64 -> (forall i, 0 <= i < 64 -> bs_mem b (bit + i) = Z.testbit w i) ->
  cnt + hweight w <= nbits ->
  (forall new', picked (bit + 64) (cnt + hweight w) new' -> Q new') ->
  wp (set_word new (bit_word bit) w) Q.
Proof using All.
  intros Hm Hle (H0 & -> & Hc & Hu) Hr Hw Hn HQ. pose proof (upd_bits _ _ _ Hu).
  eapply wp_mono; [apply wp_set_word; [apply Hu| |done]|].
  { rewrite bit_word_div. apply word_index_lt; [apply Hu|lia]. }
  intros n2 Hu2. apply HQ. split_and!; [lia| |lia|].
  - rewrite !Z.min_l, (count_split _ 0 bit (bit + 64)), hweight_spec by lia. f_equal.
    symmetry. by apply count_shift.
  - eapply upd_ext; [eapply upd_trans; [exact Hu|exact Hu2]|]. intros i Hi; cbn beta.
    rewrite bit_word_div, (upd_mem _ _ _ Hu) by done.
    destruct (Z.eqb_spec (i / 64) (bit / 64)) as [He|Hne].
    + rewrite <-Hw by dlia. replace (bit + i `mod` 64) with i by dlia. dlia.
    + f_equal. dlia.
Qed.

Lemma picked_skip bit cnt new :
  (forall i, 0 <= i < 64 -> bs_mem b (bit + i) = false) ->
  picked bit cnt new -> picked (bit + 64) cnt new.
Proof using All.
  intros Hz (H0 & -> & Hc & Hu).
  assert (Hs : count (bs_mem b) 0 (Z.min (bit + 64) (bs_bits b)) =
               count (bs_mem b) 0 (Z.min bit (bs_bits b))).
  { destruct (decide (bs_bits b <= bit)); [f_equal; lia|].
    rewrite (count_split _ 0 bit (Z.min (bit + 64) (bs_bits b))) by lia.
    rewrite (proj2 (count_zero (bs_mem b) bit (Z.min (bit + 64) (bs_bits b)))).
    - rewrite Z.min_l by lia. lia.
    - intros i Hi. replace i with (bit + (i - bit)) by lia. apply Hz. lia. }
  split_and!; [lia|lia|lia|]. eapply upd_ext; [exact Hu|]. intros i Hi; cbn beta.
  destruct (decide (bit <= i < bit + 64)) as [Hin|]; [|f_equal; lia].
  replace i with (bit + (i - bit)) at 2 4 by lia. rewrite Hz by lia. by rewrite !andb_false_r.
Qed.

Lemma picked_tail bit cnt new :
  bit < bs_bits b -> cnt < nbits -> picked bit cnt new ->
  wp (loop (loop_fuel b) (fun '(bit, cnt, new) =>
        if (bit <? bs_bits b) && (cnt <? nbits)
        then t ← bit_test b bit;
             if (t : bool)
             then new' ← bit_set new bit; Ret (inl (bit + 1, cnt + 1, new'))
             else Ret (inl (bit + 1, cnt, new))
        else Ret (inr (bit, cnt, new))) (bit, cnt, new))
     (fun '(bit', cnt', new') => bit < bit' /\ picked bit' cnt' new' /\
        (bs_bits b <= bit' \/ nbits <= cnt')).
Proof using All.
  intros Hlt Hc Hp.
  eapply (wp_loop (fun '(bit', cnt', new') => bit <= bit' /\ (bit < bit' \/ cnt' < nbits) /\
                     picked bit' cnt' new')
          (fun '(bit, _, _) => Z.to_nat (bs_bits b - bit)));
    [| |unfold loop_fuel; destruct Hp as (? & _); lia|exact (fun _ H => H)].
  2: { split_and!; [lia|by right|done]. }
  intros [[bit' cnt'] new'] (Hle & Hor & Hp'). pose proof Hp' as (Hb0 & _). if_case.
  2: { wp_step. split_and!; [lia|done|lia]. }
  wp_step. rewrite bit_test_spec by (done || lia). simpl.
  assert (Hstep := picked_bit bit' cnt' new' _ ltac:(lia) ltac:(lia) Hp' (fun _ H => H)).
  destruct (bs_mem b bit'); wp_step.
  - eapply wp_mono; [exact Hstep|]. intros n2 Hp2. wp_step. split; [split_and!; [lia|lia|done]|lia].
  - split; [split_and!; [lia|lia|done]|lia].
Qed.

Lemma picked_done bit cnt new :
  (bs_bits b <= bit \/ nbits <= cnt) -> picked bit cnt new ->
  if cnt <? nbits then count (bs_mem b) 0 (bs_bits b) < nbits
  else nbits <= count (bs_mem b) 0 (bs_bits b) /\
    bs_upd a new (fun i => (i <? bs_bits b) && bs_mem b i && (count (bs_mem b) 0 i <? nbits)).
Proof using All.
  pose proof (wf_size _ Hb) as Hsz. intros Hx (H0 & -> & Hc & Hu). set (m := Z.min bit (bs_bits b)) in *.
  pose proof (count_split (bs_mem b) 0 m (bs_bits b)) as Hs. pose proof (count_range (bs_mem b) m (bs_bits b)).
  if_case.
  - replace m with (bs_bits b) in * by lia. lia.
  - split; [lia|]. eapply upd_ext; [exact Hu|]. intros i Hi; cbn beta.
    destruct (bs_mem b i) eqn:Ei; [|lia]. destruct (decide (i < m)).
    + rewrite (count_split _ 0 (i + 1)), count_snoc, Ei in Hc by lia.
      pose proof (count_range (bs_mem b) (i + 1) m). pose proof (count_range (bs_mem b) 0 i). lia.
    + destruct (decide (i < bs_bits b)); [|lia].
      rewrite (count_split _ 0 m i) by lia. pose proof (count_range (bs_mem b) m i). lia.
Qed.
End pick.

Lemma bit_pick_cnt_spec b nbits :
  bs_wf b ->
  wp (bit_pick_cnt b nbits) (fun r =>
    if count (bs_mem b) 0 (bs_bits b) <? nbits then r = None
    else exists new, r = Some new /\ bs_wf new /\ bs_bits new = bs_bits b /\
      forall i, 0 <= i ->
        bs_mem new i = (i <? bs_bits b) && bs_mem b i && (count (bs_mem b) 0 i <? nbits)).
Proof.
  intros Hwf. pose proof (wf_size _ Hwf). pose proof (count_range (bs_mem b) 0 (bs_bits b)).
  unfold bit_pick_cnt, bit_size. wp_step; [by apply wf_magic|]. if_case; [wp_step; by if_true|].
  rewrite (wf_magic _ Hwf). simpl. wp_step.
  eapply wp_mono; [by apply bit_alloc_spec; lia|]. intros a (Ha & Hma & Hba & Hza). wp_step.
  assert (Hp0 : picked b a nbits 0 0 a).
  { split_and!; [lia|by rewrite count_empty by lia|lia|]. eapply upd_ext; [by apply upd_refl|].
    intros i Hi. rewrite Hza by done. lia. }
  eapply (wp_loop (fun '(bit, cnt, new) => picked b a nbits bit cnt new /\
            (bit `mod` 64 = 0 \/ bs_bits b <= bit \/ nbits <= cnt))
          (fun '(bit, _, _) => Z.to_nat (bs_bits b - bit))
          (fun '(cnt, new) => exists bit, (bs_bits b <= bit \/ nbits <= cnt) /\ picked b a nbits bit cnt new));
    [| |unfold loop_fuel; lia|].
  - intros [[bit cnt] new] [Hp Hal]. pose proof Hp as (Hb0 & _). if_case; [|wp_step; exists bit; split; [lia|done]].
    wp_step. rewrite bit_word_div. apply wp_get_word; [done|apply word_index_lt; [done|lia]|].
    intros w _ Hr Hw. replace (64 * (bit / 64)) with bit in Hw by dlia. if_case; [|cbv zeta; if_case].
    + wp_step. split; [split; [|dlia]|lia]. apply (picked_skip b a nbits); try done; [lia|].
      intros i Hi. rewrite Hw by done. replace w with 0 by lia. apply Z.testbit_0_l.
    + wp_step. rewrite <-bit_word_div. apply (picked_word b a nbits) with (cnt := cnt); try done; try lia; try dlia.
      intros new' Hp'. wp_step. split; [split; [done|dlia]|lia].
    + wp_step. eapply wp_mono; [apply (picked_tail b a nbits); try done; lia|].
      intros [[bit' cnt'] new'] (Hlt & Hp' & Hd). wp_step. split; [split; [done|by right]|lia].
  - split; [done|by left].
  - intros [cnt new] (bit & Hx & Hp). pose proof (picked_done b a nbits Hwf Ha Hba ltac:(lia) _ _ _ Hx Hp) as Hd.
    if_case; revert Hd; if_case; intros Hd.
    + unfold bit_free. destruct Hp as (_ & _ & _ & Hu). rewrite (upd_magic _ _ _ Hu), Hma. done.
    + lia.
    + lia.
    + wp_step. exists new. destruct Hd as (_ & [? ? ? ?]). split_and!; try done. lia.
Qed.

(** ** Walking over the set bits

    The controller visits the nodes of a bitmap with a loop from the first to the last
    set bit that skips the others; such a loop acts on the list of the set bits. *)

(** The set bits of [lo, hi), in order. *)
Definition bits_in (b : bitstr) (lo hi : Z) : list Z := filter (fun i => bs_mem b i = true) (seqZ lo (hi - lo)).
Definition set_bits (b : bitstr) : list Z := bits_in b 0 (bs_bits b).

Lemma elem_of_bits_in b lo hi i : i ∈ bits_in b lo hi <-> lo <= i < hi /\ bs_mem b i = true.
Proof. unfold bits_in. rewrite list_elem_of_filter, elem_of_seqZ. lia. Qed.

Lemma elem_of_set_bits b i : i ∈ set_bits b <-> 0 <= i < bs_bits b /\ bs_mem b i = true.
Proof. apply elem_of_bits_in. Qed.

Lemma bits_in_empty b lo hi : (forall i, lo <= i < hi -> bs_mem b i = false) -> bits_in b lo hi = [].
Proof.
  intros H. apply elem_of_nil_inv. intros i [Hi E]%elem_of_bits_in. rewrite (H i Hi) in E. done.
Qed.

Lemma bits_in_split b lo mid hi : lo <= mid <= hi -> bits_in b lo hi = bits_in b lo mid ++ bits_in b mid hi.
Proof.
  intros H. unfold bits_in. rewrite <-filter_app. f_equal. replace (hi - lo) with ((mid - lo) + (hi - mid)) by lia.
  rewrite seqZ_app by lia. by replace (lo + (mid - lo)) with mid by lia.
Qed.

Lemma bits_in_snoc b lo hi : lo <= hi -> bits_in b lo (hi + 1) = bits_in b lo hi ++ (if bs_mem b hi then [hi] else []).
Proof.
  intros H. rewrite (bits_in_split b lo hi) by lia. f_equal. unfold bits_in. replace (hi + 1 - hi) with 1 by lia. change (seqZ hi 1) with [0 + hi].
  rewrite Z.add_0_l. destruct (bs_mem b hi) eqn:E; [by rewrite filter_cons_True|by rewrite filter_cons_False by (by rewrite E)].
Qed.

Lemma bits_in_ext b b' lo hi : (forall i, lo <= i < hi -> bs_mem b' i = bs_mem b i) -> bits_in b' lo hi = bits_in b lo hi.
Proof.
  intros H. unfold bits_in. assert (HF : Forall (fun i => bs_mem b' i = bs_mem b i) (seqZ lo (hi - lo))) by (apply Forall_forall; intros i Hi%elem_of_seqZ; apply H; lia).
  induction HF as [|i l Hi _ IH]; [done|]. rewrite !filter_cons, Hi, IH. done.
Qed.

Lemma NoDup_bits_in b lo hi : NoDup (bits_in b lo hi).
Proof. apply NoDup_filter, NoDup_seqZ. Qed.

Lemma set_bits_count b : Z.of_nat (length (set_bits b)) = count (bs_mem b) 0 (bs_bits b).
Proof. done. Qed.

(** The bits between the first and the last set bit are all of them. *)
Lemma set_bits_between b first last : first_in (bs_mem b) 0 (bs_bits b) first -> last_in (bs_mem b) 0 (bs_bits b) last -> first <> -1 ->
  0 <= first <= last /\ last < bs_bits b /\ set_bits b = bits_in b first (last + 1) /\ set_bits b <> [].
Proof.
  intros [[-> _]|(Hf & Ef & Hno)] Hl Hne; [done|]. destruct Hl as [[-> Hno']|(Hl & El & Hno')]; [rewrite Hno' in Ef by lia; done|].
  assert (first <= last) by (destruct (decide (last < first)); [rewrite Hno in El by lia; done|lia]).
  split_and!; [lia|lia|lia| |].
  - unfold set_bits. rewrite (bits_in_split b 0 first (bs_bits b)), (bits_in_empty b 0 first) by (lia || intros; apply Hno; lia). simpl.
    rewrite (bits_in_split b first (last + 1) (bs_bits b)), (bits_in_empty b (last + 1)) by (lia || intros; apply Hno'; lia). by rewrite app_nil_r.
  - intros E. assert (Hin : first ∈ set_bits b) by (apply elem_of_set_bits; lia). rewrite E in Hin. by apply not_elem_of_nil in Hin.
Qed.

Lemma set_bits_none b : first_in (bs_mem b) 0 (bs_bits b) (-1) -> set_bits b = [].
Proof. intros [[_ H]|[H _]]; [by apply bits_in_empty|lia]. Qed.

(** Loops that act on set bits only. *)
Lemma wp_for_bits {S : Type} b lo n (act : Z -> S -> exec S) (I : list Z -> S -> Prop) (Q : S -> Prop) s :
  bs_wf b -> 0 <= lo -> lo + Z.of_nat n <= bs_bits b -> I [] s ->
  (forall i s, lo <= i < lo + Z.of_nat n -> bs_mem b i = true -> I (bits_in b lo i) s -> wp (act i s) (I (bits_in b lo i ++ [i]))) ->
  (forall s, I (bits_in b lo (lo + Z.of_nat n)) s -> Q s) ->
  wp (for_while (fun _ => true) (fun i s => t ← bit_test b i; if negb t then Ret s else act i s) n lo s) Q.
Proof.
  intros Wf Hlo Hn H0 Hact HQ. eapply (wp_for (fun k s => I (bits_in b lo k) s)).
  - by rewrite bits_in_empty by lia.
  - intros k s' Hk HI _. rewrite bit_test_spec by (done || lia). cbn [mbind exec_bind]. rewrite bits_in_snoc by lia. destruct (bs_mem b k) eqn:E; simpl.
    + by apply Hact.
    + by rewrite app_nil_r.
  - intros k s' Hk HI [->|?]; [by apply HQ|done].
Qed.
