(* ===== verification/BitstringFmt.v ===== *)
(** * Bitmaps: text formats of src/common/bitstring.c

    Range lists ("0-5,42"), index arrays, and hexadecimal and binary masks,
    with the theorems that parsing undoes printing. *)

From S2P Require Import Prelude Bitstring Popcount BitstringFacts BitstringCount.

Local Open Scope Z_scope.
Local Open Scope slurm_scope.

(** The loop over maximal ranges of set bits that [bit_fmt], [bit_fmt_full]
    and [bitstr2inx] share; [emit] is what each does with a range. *)
Definition range_end (b : bitstr) (bit : Z) : exec Z :=
  loop (loop_fuel b) (fun bit =>
    if bit + 1 <? bs_bits b
    then t ← bit_test b (bit + 1);
         if (t : bool) then Ret (inl (bit + 1)) else Ret (inr bit)
    else Ret (inr bit)) bit.

Definition bit_ranges {A : Type} (emit : A -> Z -> Z -> A) (b : bitstr) (acc : A) : exec A :=
  loop (loop_fuel b) (fun '(bit, acc) =>
    if bit <? bs_bits b
    then w ← get_word b (bit_word bit);
         if w =? 0 then Ret (inl (bit + word_size, acc)) else
         t ← bit_test b bit;
         if (t : bool)
         then e ← range_end b bit; Ret (inl (e + 1, emit acc bit e))
         else Ret (inl (bit + 1, acc))
    else Ret (inr acc)) (0, acc).

(** One position or range: ["%d"] or ["%d-%d"]. *)
Definition fmt_range (start bit : Z) : cstr :=
  if bit =? start then fmt_d start else fmt_d start ++ [45] ++ fmt_d bit.

(** [snprintf(str+strlen(str), len-strlen(str), ...)]. *)
Definition snprintf_cat (len : nat) (str s : cstr) : cstr :=
  str ++ take (len - length str - 1) s.

Definition bit_fmt (len : nat) (b : bitstr) : exec cstr :=
  assert! bitstr_valid b ;;
  assert! (0 <? len)%nat ;;
  '(str, cnt) ← bit_ranges (fun '(str, cnt) start bit =>
      (snprintf_cat len str (fmt_range start bit ++ [44]), cnt + (bit - start + 1))) b ([], 0);
  if 0 <? cnt
  then assert! (0 <? length str)%nat ;;       (* str[strlen(str) - 1] = NUL *)
       Ret (removelast str)
  else Ret str.

Definition bit_fmt_full (b : bitstr) : exec (option cstr) :=
  assert! bitstr_valid b ;;
  bit_ranges (fun str start bit =>
    match str with
    | None => Some (fmt_range start bit)
    | Some s => Some (s ++ [44] ++ fmt_range start bit)
    end) b None.

Definition bitstr2inx (ob : option bitstr) : exec (list Z) :=
  match ob with
  | None => Ret [-1]
  | Some b =>
      l ← bit_ranges (fun l start bit => l ++ [start; bit]) b [];
      Ret (l ++ [-1])
  end.

(** The digit loop of [bitfmt2int] over the characters of the string and its
    terminating NUL; [i] is the index of the current character. *)
Fixpoint bitfmt_scan (i : Z) (s : cstr) (inx : list Z) (sum start_val : Z) : exec (list Z) :=
  match s with
  | [] => Ret inx
  | c :: s' =>
      if isdigit c then
        m ← i32 (sum * 10);
        sum' ← i32 (m + (c - 48));
        bitfmt_scan (i + 1) s' inx sum' start_val
      else if c =? 45 then bitfmt_scan (i + 1) s' inx 0 sum
      else if (c =? 44) || (c =? 0) then
        if i =? 0 then Ret inx else
        let start_val := if start_val =? -1 then sum else start_val in
        bitfmt_scan (i + 1) s' (inx ++ [start_val; sum]) 0 (-1)
      else bitfmt_scan (i + 1) s' inx sum start_val
  end.

Fixpoint step_pairs (fuel : nat) (i end_task_id step : Z) (inx : list Z) : exec (list Z) :=
  match fuel with
  | O => NoFuel
  | S f => if i <? end_task_id
           then j ← i32 (i + step); step_pairs f j end_task_id step (inx ++ [i; i])
           else Ret inx
  end.

Definition bitfmt2int (str : option cstr) : exec (option (list Z)) :=
  match str with
  | None => Ret None
  | Some s =>
      if negb (existsb (Z.eqb 58) s) then
        inx ← bitfmt_scan 0 (s ++ [0]) [] 0 (-1);
        assert! (length inx <? (length s + 1) * 2 + 1)%nat ;;
        Ret (Some (inx ++ [-1]))
      else
        let '(n, tmp) := strtol s in
        let start_task_id := s32 n in
        match tmp with
        | 45 :: t1 =>
            let '(n, tmp) := strtol t1 in
            let end_task_id := s32 n in
            match tmp with
            | 58 :: t2 =>
                let '(n, tmp) := strtol t2 in
                let step := s32 n in
                match tmp with
                | [] =>
                    if (end_task_id <? start_task_id) || (step <=? 0) then Ret None else
                    d ← i32 (end_task_id - start_task_id);
                    inx ← step_pairs (S (Z.to_nat d)) start_task_id end_task_id step [];
                    Ret (Some (inx ++ [-1]))
                | _ => Ret None
                end
            | _ => Ret None
            end
        | _ => Ret None
        end
  end.

Fixpoint inx2bitfmt_loop (inx : list Z) (str : option cstr) : exec (option cstr) :=
  match inx with
  | a :: rest =>
      if a <? 0 then Ret str else
      match rest with
      | e :: rest' =>
          let s := fmt_d a ++ [45] ++ fmt_d e in
          inx2bitfmt_loop rest' (Some (match str with Some p => p ++ [44] ++ s | None => s end))
      | [] => Fault
      end
  | [] => Fault
  end.
Definition inx2bitfmt (inx : option (list Z)) : exec (option cstr) :=
  match inx with None => Ret None | Some l => inx2bitfmt_loop l None end.

Fixpoint inx2bitstr_loop (b : bitstr) (inx : list Z) : exec (bitstr * Z) :=
  match inx with
  | p :: rest =>
      if p =? -1 then Ret (b, 0) else
      match rest with
      | q :: rest' =>
          if (p <? 0) || (bs_bits b <=? p) || (q <? 0) || (bs_bits b <=? q) then Ret (b, -1)
          else b' ← bit_nset b p q; inx2bitstr_loop b' rest'
      | [] => Fault
      end
  | [] => Fault
  end.
Definition inx2bitstr (b : bitstr) (inx : list Z) : exec (bitstr * Z) :=
  b ← bit_nclear b 0 (bs_bits b - 1);
  inx2bitstr_loop b inx.

Definition bit_unfmt (b : bitstr) (str : option cstr) : exec (bitstr * Z) :=
  assert! bitstr_valid b ;;
  match str with
  | None | Some [] => Ret (b, 0)
  | Some s =>
      intvec ← bitfmt2int (Some s);
      match intvec with
      | None => Ret (b, -1)
      | Some inx => inx2bitstr b inx
      end
  end.

Definition hex_char (current : Z) : Z := if current <=? 9 then current + 48 else current + 55.

Definition bit_fmt_hexmask (bitmap : bitstr) : exec cstr :=
  bitsize ← bit_size bitmap;
  s ← loop (loop_fuel bitmap) (fun '(i, acc) =>
    if i <? bitsize
    then t0 ← bit_test bitmap i;
         let '(c, i) := (if (t0 : bool) then 1 else 0, i + 1) in
         '(c, i) ← (if i <? bitsize
                    then t ← bit_test bitmap i; Ret (if (t : bool) then Z.lor c 2 else c, i + 1)
                    else Ret (c, i));
         '(c, i) ← (if i <? bitsize
                    then t ← bit_test bitmap i; Ret (if (t : bool) then Z.lor c 4 else c, i + 1)
                    else Ret (c, i));
         '(c, i) ← (if i <? bitsize
                    then t ← bit_test bitmap i; Ret (if (t : bool) then Z.lor c 8 else c, i + 1)
                    else Ret (c, i));
         Ret (inl (i, hex_char c :: acc))
    else Ret (inr acc)) (0, []);
  Ret ([48; 120] ++ s).

Definition set_if (b : bitstr) (c : bool) (bit : Z) : exec bitstr :=
  if c && (bit <? bs_bits b) then bit_set b bit else Ret b.

(** The characters are visited from the last to the first. *)
Fixpoint unfmt_hex_loop (b : bitstr) (rev_str : cstr) (bit_index rc : Z) : exec (bitstr * Z) :=
  match rev_str with
  | [] => Ret (b, rc)
  | c :: rest =>
      let '(current, rc) :=
        if isxdigit c then (if isdigit c then c - 48 else toupper c - 55, rc) else (0, -1) in
      b ← set_if b (Z.testbit current 0) bit_index;
      b ← set_if b (Z.testbit current 1) (bit_index + 1);
      b ← set_if b (Z.testbit current 2) (bit_index + 2);
      b ← set_if b (Z.testbit current 3) (bit_index + 3);
      unfmt_hex_loop b rest (bit_index + 4) rc
  end.

Definition bit_unfmt_hexmask (bitmap : bitstr) (str : cstr) : exec (bitstr * Z) :=
  bitsize ← bit_size bitmap;
  b ← bit_nclear bitmap 0 (bitsize - 1);
  let str := match str with 48 :: 120 :: t => t | _ => str end in
  unfmt_hex_loop b (reverse str) 0 0.

Definition bit_fmt_binmask (bitmap : bitstr) : exec cstr :=
  bitsize ← bit_size bitmap;
  loop (loop_fuel bitmap) (fun '(i, acc) =>
    if i <? bitsize
    then t ← bit_test bitmap i; Ret (inl (i + 1, (if (t : bool) then 49 else 48) :: acc))
    else Ret (inr acc)) (0, []).

Fixpoint unfmt_bin_loop (b : bitstr) (rev_str : cstr) (bit_index : Z) : exec bitstr :=
  match rev_str with
  | [] => Ret b
  | c :: rest =>
      b ← set_if b (Z.testbit (c - 48) 0) bit_index;
      unfmt_bin_loop b rest (bit_index + 1)
  end.

Definition bit_unfmt_binmask (bitmap : bitstr) (str : cstr) : exec bitstr :=
  bitsize ← bit_size bitmap;
  b ← bit_nclear bitmap 0 (bitsize - 1);
  unfmt_bin_loop b (reverse str) 0.

(** ** Ranges *)

(** [L] lists ranges inside [lo, hi), in order and not adjacent. *)
Fixpoint separated (lo hi : Z) (L : list (Z * Z)) : Prop :=
  match L with
  | [] => True
  | (s, e) :: L' => lo <= s <= e /\ e < hi /\ separated (e + 2) hi L'
  end.

Definition in_ranges (L : list (Z * Z)) (i : Z) : bool :=
  existsb (fun '(s, e) => (s <=? i) && (i <=? e)) L.

(** [L] is the list of maximal ranges of set bits of [b]. *)
Definition ranges_of (b : bitstr) (L : list (Z * Z)) : Prop :=
  separated 0 (bs_bits b) L /\ forall i, 0 <= i < bs_bits b -> bs_mem b i = in_ranges L i.

Lemma separated_app lo hi L s e :
  separated lo hi L -> (forall s' e', (s', e') ∈ L -> e' + 2 <= s) -> lo <= s <= e -> e < hi ->
  separated lo hi (L ++ [(s, e)]).
Proof.
  revert lo. induction L as [|[s' e'] L IH]; intros lo; simpl; [intros; lia|].
  intros (H1 & H2 & H3) Hin Hs He. split_and!; [lia..|].
  assert (e' + 2 <= s) by (apply (Hin s' e'); left).
  apply IH; [done| |lia|done]. intros s2 e2 H4. apply (Hin s2 e2). by right.
Qed.

Lemma in_ranges_app L s e i :
  in_ranges (L ++ [(s, e)]) i = in_ranges L i || ((s <=? i) && (i <=? e)).
Proof. unfold in_ranges. rewrite existsb_app. simpl. by rewrite orb_false_r. Qed.

Lemma in_ranges_beyond L i : (forall s e, (s, e) ∈ L -> e < i) -> in_ranges L i = false.
Proof.
  intros H. unfold in_ranges. apply not_true_is_false. rewrite existsb_exists.
  intros ([s e] & Hin & Hi). apply list_elem_of_In in Hin. specialize (H s e Hin). lia.
Qed.

Lemma nonzero_testbit w : 0 < w < 2 ^ 64 -> exists i, 0 <= i < 64 /\ Z.testbit w i = true.
Proof.
  intros Hw. exists (Z.log2 w). split; [|apply Z.bit_log2; lia].
  pose proof (Z.log2_nonneg w). pose proof (proj1 (Z.log2_lt_pow2 w 64 ltac:(lia))). lia.
Qed.

Lemma range_end_spec b bit :
  bs_wf b -> 0 <= bit < bs_bits b -> bs_mem b bit = true ->
  wp (range_end b bit) (fun e => bit <= e < bs_bits b /\
    (forall i, bit <= i <= e -> bs_mem b i = true) /\
    (e + 1 < bs_bits b -> bs_mem b (e + 1) = false)).
Proof.
  intros Hwf Hb Hbit. unfold range_end.
  eapply (wp_loop (fun e => bit <= e < bs_bits b /\ forall i, bit <= i <= e -> bs_mem b i = true)
            (fun e => Z.to_nat (bs_bits b - e))); [| |unfold loop_fuel; lia|exact (fun _ H => H)].
  - intros e (He & Hall). if_case; [|wp_step; split_and!; (done || lia)].
    wp_step. rewrite bit_test_spec by (done || lia). simpl.
    destruct (bs_mem b (e + 1)) eqn:E'; wp_step.
    + split; [|lia]. split; [lia|]. intros i Hi.
      destruct (decide (i = e + 1)) as [->|]; [done|]. apply Hall. lia.
    + split_and!; try done; lia.
  - split; [lia|]. intros i Hi. by replace i with bit by lia.
Qed.

Section ranges.
Context {A : Type} (emit : A -> Z -> Z -> A) (b : bitstr) (acc0 : A).
Hypothesis Hwf : bs_wf b.

(** The loop stands at [bit], with the ranges [L] behind it; a word is
    entered at its first bit or holds a set bit. *)
Definition ranges_inv (bit : Z) (acc : A) : Prop :=
  0 <= bit /\
  (bit `mod` 64 = 0 \/ exists j, 0 <= j /\ j / 64 = bit / 64 /\ bs_mem b j = true) /\
  exists L, acc = foldl (fun a p => emit a p.1 p.2) acc0 L /\ separated 0 (bs_bits b) L /\
    (forall s e, (s, e) ∈ L -> e < bit /\ (e + 1 = bit -> bit < bs_bits b -> bs_mem b bit = false)) /\
    (forall i, 0 <= i < Z.min bit (bs_bits b) -> bs_mem b i = in_ranges L i).

Lemma ranges_step_clear bit acc bit' :
  ranges_inv bit acc -> bit < bit' ->
  (forall i, bit <= i < Z.min bit' (bs_bits b) -> bs_mem b i = false) ->
  (bit' `mod` 64 = 0 \/ exists j, 0 <= j /\ j / 64 = bit' / 64 /\ bs_mem b j = true) ->
  ranges_inv bit' acc.
Proof.
  intros (H0 & _ & L & -> & Hsep & Hend & Hcov) Hlt Hz Hal. split_and!; [lia|done|].
  exists L. split_and!; try done.
  - intros s e Hin. destruct (Hend s e Hin). split; [lia|]. intros; lia.
  - intros i Hi. destruct (decide (i < bit)); [apply Hcov; lia|].
    rewrite Hz, in_ranges_beyond; [done| |lia]. intros s e Hin. destruct (Hend s e Hin). lia.
Qed.

Lemma ranges_step_set bit acc e :
  ranges_inv bit acc -> bit <= e < bs_bits b -> (forall i, bit <= i <= e -> bs_mem b i = true) ->
  (e + 1 < bs_bits b -> bs_mem b (e + 1) = false) ->
  ranges_inv (e + 1) (emit acc bit e).
Proof using Hwf.
  intros (H0 & _ & L & -> & Hsep & Hend & Hcov) He Hall Hnext. split_and!; [lia| |].
  { destruct (decide ((e + 1) `mod` 64 = 0)); [by left|right]. exists e.
    split_and!; [lia|dlia|apply Hall; lia]. }
  exists (L ++ [(bit, e)]). split_and!.
  - by rewrite foldl_snoc.
  - apply separated_app; [done| |lia|lia]. intros s' e' Hin. destruct (Hend s' e' Hin) as [Hlt Hadj].
    destruct (decide (e' + 1 = bit)) as [Heq|]; [|lia].
    specialize (Hadj Heq ltac:(lia)). rewrite Hall in Hadj by lia. done.
  - intros s' e' [Hin|Hin]%elem_of_app.
    + destruct (Hend s' e' Hin). split; [lia|]. intros; lia.
    + apply list_elem_of_singleton in Hin. injection Hin as -> ->. split; [lia|]. done.
  - intros i Hi. rewrite in_ranges_app. destruct (decide (i < bit)).
    + rewrite Hcov by lia. replace ((bit <=? i) && (i <=? e)) with false by lia.
      by rewrite orb_false_r.
    + rewrite Hall by lia. lia.
Qed.

Lemma bit_ranges_spec :
  wp (bit_ranges emit b acc0) (fun r => exists L,
    r = foldl (fun a p => emit a p.1 p.2) acc0 L /\ ranges_of b L).
Proof using Hwf.
  pose proof (wf_size _ Hwf). unfold bit_ranges.
  eapply (wp_loop (fun '(bit, acc) => ranges_inv bit acc)
            (fun '(bit, _) => Z.to_nat (bs_bits b - bit)));
    [| |unfold loop_fuel; lia|exact (fun _ H => H)].
  2: { split_and!; [lia|by left|]. exists []. split_and!; try done; [set_solver|intros; lia]. }
  intros [bit acc] Hinv. pose proof Hinv as (H0 & Hal & Hex). if_case.
  2: { wp_step. destruct Hex as (L & -> & Hsep & _ & Hcov). exists L. split; [done|].
       split; [done|]. intros i Hi. apply Hcov. lia. }
  wp_step. rewrite bit_word_div. apply wp_get_word; [done|apply word_index_lt; [done|lia]|].
  intros w _ Hr Hw. if_case.
  - assert (Hz : forall i, 0 <= i -> i / 64 = bit / 64 -> bs_mem b i = false).
    { intros i Hi Hd. rewrite (div_mod_64 i), Hd, Hw by apply mod_64_range. replace w with 0 by lia.
      apply Z.testbit_0_l. }
    destruct Hal as [Hal|(j & Hj & Hd & Hs)]; [|rewrite Hz in Hs; done].
    wp_step. split; [|lia]. eapply ranges_step_clear; [done|lia| |left; dlia].
    intros i Hi. apply Hz; [lia|dlia].
  - destruct (nonzero_testbit w) as (k & Hk & Hkt); [lia|].
    rewrite <-Hw in Hkt by done.
    wp_step. rewrite bit_test_spec by (done || lia). simpl. destruct (bs_mem b bit) eqn:Eb.
    + wp_step. eapply wp_mono; [apply range_end_spec; [done|lia|done]|]. intros e (He & Hall & Hnext).
      wp_step. split; [|lia]. by apply ranges_step_set.
    + wp_step. split; [|lia]. eapply ranges_step_clear; [done|lia| |].
      * intros i Hi. by replace i with bit by lia.
      * destruct (decide ((bit + 1) `mod` 64 = 0)); [by left|right].
        exists (64 * (bit / 64) + k). split_and!; [dlia|dlia|done].
Qed.
End ranges.

(** ** Index arrays *)
Definition flat (L : list (Z * Z)) : list Z := flat_map (fun p => [p.1; p.2]) L.

Lemma foldl_flat L acc :
  foldl (fun (a : list Z) p => a ++ [p.1; p.2]) acc L = acc ++ flat L.
Proof.
  revert acc. induction L as [|p L IH]; intros acc; simpl; [by rewrite app_nil_r|].
  by rewrite IH, <-app_assoc.
Qed.

Lemma separated_length lo hi L : separated lo hi L -> 2 * Z.of_nat (length L) <= Z.max 0 (hi - lo + 1).
Proof.
  revert lo. induction L as [|[s e] L IH]; intros lo; simpl; [lia|].
  intros (H1 & H2 & H3). specialize (IH _ H3). lia.
Qed.

Lemma separated_valid lo hi L s e : separated lo hi L -> 0 <= lo -> (s, e) ∈ L -> 0 <= s <= e /\ e < hi.
Proof.
  revert lo. induction L as [|[s' e'] L IH]; intros lo; simpl; [set_solver|].
  intros (H1 & H2 & H3) Hlo [[= -> ->]|Hin]%elem_of_cons; [lia|]. apply (IH (e' + 2)); [done|lia|done].
Qed.

Lemma length_flat L : length (flat L) = (2 * length L)%nat.
Proof. induction L; simpl in *; lia. Qed.

(** [bitstr2inx] lists the ranges, and fits in the [bits + 2] words allocated. *)
Lemma bitstr2inx_spec b :
  bs_wf b ->
  wp (bitstr2inx (Some b)) (fun inx => exists L, ranges_of b L /\ inx = flat L ++ [-1] /\
    Z.of_nat (length inx) <= bs_bits b + 2).
Proof.
  intros Hwf. pose proof (wf_size _ Hwf). simpl. wp_step.
  eapply wp_mono; [by apply bit_ranges_spec|]. intros l (L & -> & HL). wp_step. exists L.
  split; [done|]. rewrite foldl_flat. split; [done|]. destruct HL as [Hsep _].
  apply separated_length in Hsep. simpl. rewrite length_app, length_flat. simpl. lia.
Qed.

Lemma inx2bitstr_loop_spec L : forall b,
  bs_wf b -> (forall s e, (s, e) ∈ L -> 0 <= s <= e /\ e < bs_bits b) ->
  wp (inx2bitstr_loop b (flat L ++ [-1])) (fun '(b', rc) => rc = 0 /\
    bs_upd b b' (fun i => in_ranges L i || bs_mem b i)).
Proof.
  induction L as [|[s e] L IH]; intros b Hwf Hin; simpl.
  { split; [done|]. by apply upd_refl. }
  destruct (Hin s e) as [Hs He]; [left|]. if_case; [lia|]. if_case; [lia|].
  wp_step. eapply wp_mono; [apply bit_nset_spec; [done|lia..]|]. intros b1 Hu1.
  eapply wp_mono; [apply IH; [apply Hu1|]|].
  - intros s' e' H'. rewrite (upd_bits _ _ _ Hu1). apply Hin. by right.
  - intros [b' rc] (-> & Hu2). split; [done|]. eapply upd_ext; [eapply upd_trans; [exact Hu1|exact Hu2]|].
    intros i Hi; cbn beta. rewrite (upd_mem _ _ _ Hu1) by done. unfold bs_range. simpl.
    destruct ((s <=? i) && (i <=? e)); simpl; [by rewrite orb_true_r|done].
Qed.

Lemma inx2bitstr_spec b L :
  bs_wf b -> 0 < bs_bits b -> (forall s e, (s, e) ∈ L -> 0 <= s <= e /\ e < bs_bits b) ->
  wp (inx2bitstr b (flat L ++ [-1])) (fun '(b', rc) => rc = 0 /\
    bs_upd b b' (fun i => if i <? bs_bits b then in_ranges L i else bs_mem b i)).
Proof.
  intros Hwf Hb Hin. unfold inx2bitstr. wp_step.
  eapply wp_mono; [apply bit_nclear_spec; [done|lia..]|]. intros b1 Hu1.
  eapply wp_mono; [apply inx2bitstr_loop_spec; [apply Hu1|by rewrite (upd_bits _ _ _ Hu1)]|].
  intros [b' rc] (-> & Hu2). split; [done|]. eapply upd_ext; [eapply upd_trans; [exact Hu1|exact Hu2]|].
  intros i Hi; cbn beta. rewrite (upd_mem _ _ _ Hu1) by done. unfold bs_range.
  if_case; if_case; [by rewrite orb_false_r|lia|lia|].
  rewrite in_ranges_beyond; [done|]. intros s e H. destruct (Hin s e H). lia.
Qed.

(** ** Range lists *)
Lemma dec_digits_S f n acc :
  dec_digits (S f) n acc =
  if n <? 10 then (48 + n) :: acc else dec_digits f (n / 10) ((48 + n `mod` 10) :: acc).
Proof. done. Qed.

Lemma scan_dec_digits s inx sv f : forall n acc i,
  0 <= n < 10 ^ Z.of_nat (S f) -> n <= i32_max -> 0 <= i ->
  exists k, 0 < k /\ bitfmt_scan i (dec_digits (S f) n acc ++ s) inx 0 sv =
                     bitfmt_scan (i + k) (acc ++ s) inx n sv.
Proof.
  induction f as [|f IH]; intros n acc i Hn Hm Hi;
    rewrite Nat2Z.inj_succ, Z.pow_succ_r in Hn by lia;
    rewrite dec_digits_S; destruct (Z.ltb_spec n 10); try (simpl in Hn; lia).
  1, 2: exists 1; split; [lia|]; cbn [app bitfmt_scan]; unfold isdigit; if_true;
    rewrite Z.mul_0_l; change (i32 0) with (Ret 0); cbn [mbind exec_bind];
    replace (0 + (48 + n - 48)) with n by lia; by rewrite i32_ok by (unfold i32_min; lia).
  destruct (IH (n / 10) ((48 + n `mod` 10) :: acc) i) as (k & Hk & ->); [dlia|dlia|done|].
  exists (k + 1). split; [lia|]. cbn [app bitfmt_scan]. unfold isdigit. if_true.
  rewrite i32_ok by (unfold i32_min; dlia).
  cbn [mbind exec_bind]. replace (n / 10 * 10 + (48 + n `mod` 10 - 48)) with n by dlia.
  rewrite i32_ok by (unfold i32_min; lia).
  cbn [mbind exec_bind]. f_equal. lia.
Qed.

Lemma scan_fmt_d n s inx sv i :
  0 <= n <= i32_max -> 0 <= i ->
  exists k, 0 < k /\ bitfmt_scan i (fmt_d n ++ s) inx 0 sv = bitfmt_scan (i + k) s inx n sv.
Proof.
  intros Hn Hi. unfold fmt_d. if_case; [lia|].
  destruct (scan_dec_digits s inx sv 19 n [] i) as (k & Hk & ->); [unfold i32_max in *; lia|lia|done|].
  eauto.
Qed.

(** One range followed by a comma or the end of the string. *)
Lemma scan_fmt_range st e c s inx i :
  0 <= st <= e -> e <= i32_max -> 0 <= i -> c = 44 \/ c = 0 ->
  exists i', 0 < i' /\ bitfmt_scan i (fmt_range st e ++ c :: s) inx 0 (-1) =
                       bitfmt_scan i' s (inx ++ [st; e]) 0 (-1).
Proof.
  intros Hs He Hi Hc. unfold fmt_range.
  assert (Hend : forall j n sv, 0 < j -> bitfmt_scan j (c :: s) inx n sv =
            bitfmt_scan (j + 1) s (inx ++ [if sv =? -1 then n else sv; n]) 0 (-1)).
  { intros j n sv Hj. cbn [bitfmt_scan]. unfold isdigit.
    destruct Hc as [-> | ->]; simpl; by replace (j =? 0) with false by lia. }
  if_case.
  - destruct (scan_fmt_d st (c :: s) inx (-1) i) as (k & Hk & ->); [lia|done|].
    exists (i + k + 1). split; [lia|]. rewrite Hend by lia. simpl.
    by replace st with e by lia.
  - rewrite <-!app_assoc. cbn [app].
    destruct (scan_fmt_d st (45 :: fmt_d e ++ c :: s) inx (-1) i) as (k & Hk & ->); [lia|done|].
    cbn [bitfmt_scan]. change (isdigit 45) with false. change (45 =? 45) with true. cbv iota.
    destruct (scan_fmt_d e (c :: s) inx st (i + k + 1)) as (k' & Hk' & ->); [lia|lia|].
    exists (i + k + 1 + k' + 1). split; [lia|]. rewrite Hend by lia.
    by replace (st =? -1) with false by lia.
Qed.

Definition tail_ranges (L : list (Z * Z)) : cstr :=
  flat_map (fun p => 44 :: fmt_range p.1 p.2) L.

Lemma foldl_fmt L s :
  foldl (fun str p => match str with
                      | None => Some (fmt_range p.1 p.2)
                      | Some s => Some (s ++ [44] ++ fmt_range p.1 p.2)
                      end) (Some s) L = Some (s ++ tail_ranges L).
Proof.
  revert s. induction L as [|p L IH]; intros s; simpl; [by rewrite app_nil_r|].
  rewrite IH, <-app_assoc. done.
Qed.

Lemma scan_tail L : forall i inx st e,
  0 <= i -> (forall s e', (s, e') ∈ (st, e) :: L -> 0 <= s <= e' /\ e' <= i32_max) ->
  bitfmt_scan i (fmt_range st e ++ tail_ranges L ++ [0]) inx 0 (-1) =
  Ret (inx ++ st :: e :: flat L).
Proof.
  induction L as [|[s' e'] L IH]; intros i inx st e Hi Hin; simpl;
    (destruct (Hin st e) as [Hs He]; [left|]).
  - destruct (scan_fmt_range st e 0 [] inx i) as (i' & _ & ->); [lia..|by right|]. done.
  - rewrite <-app_assoc. destruct (scan_fmt_range st e 44 (fmt_range s' e' ++ tail_ranges L ++ [0]) inx i)
      as (i' & Hi' & ->); [lia..|by left|].
    rewrite IH; [|lia|]. { by rewrite <-app_assoc. }
    intros s2 e2 H2. apply Hin. by right.
Qed.

Lemma dec_digits_chars f n acc :
  0 <= n -> Forall (fun c => isdigit c = true) acc -> Forall (fun c => isdigit c = true) (dec_digits f n acc).
Proof.
  revert n acc. induction f as [|f IH]; intros n acc Hn Hacc; simpl; [done|]. unfold isdigit in *.
  if_case; [constructor; [lia|done]|]. apply IH; [dlia|]. constructor; [dlia|done].
Qed.

Lemma no_colon_range s e : 0 <= s -> 0 <= e -> Forall (fun c => c <> 58) (fmt_range s e).
Proof.
  assert (H : forall n, 0 <= n -> Forall (fun c => c <> 58) (fmt_d n)).
  { intros n Hn. unfold fmt_d. if_case; [lia|].
    eapply Forall_impl; [by apply dec_digits_chars|]. intros c Hc. unfold isdigit in Hc. lia. }
  intros Hs He. unfold fmt_range. if_case; [auto|]. rewrite !Forall_app. split_and!; auto.
Qed.

Lemma no_colon_tail L :
  (forall s e, (s, e) ∈ L -> 0 <= s <= e) -> Forall (fun c => c <> 58) (tail_ranges L).
Proof.
  induction L as [|[s e] L IH]; intros Hin; simpl; [done|]. constructor; [done|].
  destruct (Hin s e) as [? ?]; [left|].
  rewrite Forall_app. split; [apply no_colon_range; lia|]. apply IH. intros; apply Hin. by right.
Qed.

Lemma fmt_d_length n : (0 < length (fmt_d n))%nat.
Proof.
  assert (H : forall f n acc, (length acc <= length (dec_digits f n acc))%nat).
  { induction f as [|f IH]; intros m acc; simpl; [done|]. if_case; simpl; [lia|].
    specialize (IH (m / 10) ((48 + m `mod` 10) :: acc)). simpl in IH. lia. }
  unfold fmt_d. if_case; cbn [length]; [lia|]. rewrite dec_digits_S. if_case; cbn [length]; [lia|].
  eapply Nat.lt_le_trans; [|apply H]. cbn [length]. lia.
Qed.

Lemma range_length s e : (0 < length (fmt_range s e))%nat.
Proof.
  unfold fmt_range. if_case; [apply fmt_d_length|]. rewrite length_app. pose proof (fmt_d_length s). lia.
Qed.

Lemma tail_length L : (length L <= length (tail_ranges L))%nat.
Proof. induction L as [|p L IH]; simpl; [done|]. rewrite length_app. lia. Qed.

(** Parsing a printed range list gives the index array of the ranges. *)
Lemma bitfmt2int_ranges L st e :
  (forall s e', (s, e') ∈ (st, e) :: L -> 0 <= s <= e' /\ e' <= i32_max) ->
  bitfmt2int (Some (fmt_range st e ++ tail_ranges L)) = Ret (Some (flat ((st, e) :: L) ++ [-1])).
Proof.
  intros Hin. unfold bitfmt2int. destruct (Hin st e) as [Hs He]; [left|].
  replace (existsb (Z.eqb 58) _) with false.
  2: { symmetry. apply not_true_is_false. rewrite existsb_exists. intros (c & Hc & Heq).
       assert (HF : Forall (fun c => c <> 58) (fmt_range st e ++ tail_ranges L)).
       { rewrite Forall_app. split; [apply no_colon_range; lia|].
         apply no_colon_tail. intros s2 e2 H2. apply (Hin s2 e2). by right. }
       rewrite Forall_forall in HF. apply (HF c); [by apply list_elem_of_In|lia]. }
  cbn [negb]. rewrite <-app_assoc, scan_tail by (done || lia). cbn [mbind exec_bind].
  replace (_ <? _)%nat with true; [done|]. symmetry. apply Nat.ltb_lt.
  change (st :: e :: flat L) with (flat ((st, e) :: L)). cbn [app].
  rewrite length_app, length_flat. pose proof (range_length st e). pose proof (tail_length L). simpl. lia.
Qed.

(** ** Masks *)
Lemma set_if_spec b c bit :
  bs_wf b -> 0 <= bit ->
  wp (set_if b c bit) (fun b' => bs_upd b b' (fun i =>
    ((i =? bit) && c && (i <? bs_bits b)) || bs_mem b i)).
Proof.
  intros Hwf Hb. unfold set_if. if_case.
  - eapply wp_mono; [apply bit_set_spec; [done|lia]|]. intros b' Hu. eapply upd_ext; [exact Hu|].
    intros i Hi; cbn beta. destruct (Z.eqb_spec i bit); simpl; [|done]. lia.
  - wp_step. eapply upd_ext; [by apply upd_refl|]. intros i Hi; cbn beta.
    replace ((i =? bit) && c && (i <? bs_bits b)) with false by lia. done.
Qed.

(** The value of the hexadecimal digit for bits [i .. i+3]. *)
Definition nib (t0 t1 t2 t3 : bool) : Z :=
  (if t0 then 1 else 0) + (if t1 then 2 else 0) + (if t2 then 4 else 0) + (if t3 then 8 else 0).

Definition bs_in (b : bitstr) (i : Z) : bool := (i <? bs_bits b) && bs_mem b i.
Definition nib_at (b : bitstr) (i : Z) : Z :=
  nib (bs_in b i) (bs_in b (i + 1)) (bs_in b (i + 2)) (bs_in b (i + 3)).

Lemma nib_testbit t0 t1 t2 t3 k :
  0 <= k < 4 -> Z.testbit (nib t0 t1 t2 t3) k =
  if k =? 0 then t0 else if k =? 1 then t1 else if k =? 2 then t2 else t3.
Proof.
  intros Hk. assert (k = 0 \/ k = 1 \/ k = 2 \/ k = 3) as [-> | [-> | [-> | ->]]] by lia;
    by destruct t0, t1, t2, t3.
Qed.

Lemma nib_at_testbit b i k : 0 <= k < 4 -> Z.testbit (nib_at b i) k = bs_in b (i + k).
Proof.
  intros Hk. unfold nib_at. rewrite nib_testbit by done.
  assert (k = 0 \/ k = 1 \/ k = 2 \/ k = 3) as [-> | [-> | [-> | ->]]] by lia; simpl; f_equal; lia.
Qed.

Lemma nib_range b i : 0 <= nib_at b i < 16.
Proof. unfold nib_at, nib. repeat if_case; lia. Qed.

Lemma hex_char_decode v :
  0 <= v < 16 -> isxdigit (hex_char v) = true /\
  (if isdigit (hex_char v) then hex_char v - 48 else toupper (hex_char v) - 55) = v.
Proof. intros Hv. unfold hex_char, isxdigit, isdigit, toupper. if_solve. Qed.

(** One optional bit of a hexadecimal digit. *)
Lemma hex_bit b i c v (k : Z * Z -> exec (Z * cstr + cstr)) Q :
  bs_wf b -> 0 <= i -> 0 <= c < v -> (v = 2 \/ v = 4 \/ v = 8) ->
  wp (k (c + (if bs_in b i then v else 0), Z.min (i + 1) (Z.max i (bs_bits b)))) Q ->
  wp (p ← (if i <? bs_bits b
           then t ← bit_test b i; Ret (if (t : bool) then Z.lor c v else c, i + 1)
           else Ret (c, i)); k p) Q.
Proof.
  intros Hwf Hi Hc Hv HQ. unfold bs_in in HQ.
  destruct (Z.ltb_spec i (bs_bits b)).
  - rewrite bit_test_spec by done. cbn [mbind exec_bind]. rewrite Z.min_l in HQ by lia.
    replace (if bs_mem b i then Z.lor c v else c)
      with (c + (if true && bs_mem b i then v else 0)); [done|]. simpl.
    if_case; [|lia]. symmetry.
    assert (c = 0 \/ c = 1 \/ c = 2 \/ c = 3 \/ c = 4 \/ c = 5 \/ c = 6 \/ c = 7) by lia.
    destruct_or!; subst; done || lia.
  - cbn [mbind exec_bind]. simpl in HQ. rewrite Z.add_0_r in HQ.
    by replace (Z.min (i + 1) (Z.max i (bs_bits b))) with i in HQ by lia.
Qed.

Lemma bit_fmt_hexmask_spec b :
  bs_wf b ->
  bit_fmt_hexmask b = Ret ([48; 120] ++
    reverse ((fun j => hex_char (nib_at b (4 * j))) <$> seqZ 0 ((bs_bits b + 3) / 4))).
Proof.
  intros Hwf. pose proof (wf_size _ Hwf). apply wp_eq. unfold bit_fmt_hexmask, bit_size.
  rewrite (wf_magic _ Hwf). cbn [assert_ mbind exec_bind].
  set (F := fun j => hex_char (nib_at b (4 * j))).
  wp_step.
  eapply (wp_loop (fun '(i, acc) => exists j, 0 <= j /\ i = Z.min (4 * j) (bs_bits b) /\ j <= (bs_bits b + 3) / 4 /\
            acc = reverse (F <$> seqZ 0 j))
          (fun '(i, _) => Z.to_nat (bs_bits b - i))
          (fun s => s = reverse (F <$> seqZ 0 ((bs_bits b + 3) / 4))));
    [| |unfold loop_fuel; lia|intros s ->; by wp_step].
  2: { exists 0. split_and!; [lia|lia|dlia|done]. }
  intros [i acc] (j & Hj & Hi & Hle & ->). if_case.
  2: { wp_step. do 3 f_equal. dlia. }
  assert (i = 4 * j) as -> by lia. clear Hi.
  wp_step. rewrite bit_test_spec by (done || lia). simpl.
  apply (hex_bit b (4 * j + 1) _ 2); [done|lia|if_solve|lia|].
  apply (hex_bit b _ _ 4); [done|lia|unfold bs_in; if_solve|lia|].
  apply (hex_bit b _ _ 8); [done|lia|unfold bs_in; if_solve|lia|].
  wp_step. split; [|lia]. exists (j + 1). split_and!; [lia|lia|dlia|].
  replace (j + 1) with (Z.of_nat (S (Z.to_nat j))) by lia.
  rewrite seqZ_S, fmap_app, reverse_app, Z2Nat.id by lia.
  cbn [app fmap list_fmap]. rewrite reverse_singleton. cbn [app]. f_equal. unfold F, nib_at, nib. rewrite Z.add_0_l. f_equal.
  assert (Hb0 : bs_mem b (4 * j) = bs_in b (4 * j)) by (unfold bs_in; by replace (4 * j <? bs_bits b) with true by lia).
  rewrite Hb0. 
  assert (Hs : forall x y, x = y \/ (bs_bits b <= x /\ bs_bits b <= y) -> bs_in b x = bs_in b y).
  { intros x y [->|[? ?]]; [done|]. unfold bs_in. by replace (x <? bs_bits b) with false by lia;
    replace (y <? bs_bits b) with false by lia. }
  rewrite (Hs (Z.min (4 * j + 1 + 1) _) (4 * j + 2)) by lia.
  rewrite (Hs (Z.min (_ + 1) _) (4 * j + 3)) by lia. done.
Qed.

Lemma unfmt_hex_loop_spec vs : forall b bi rc,
  bs_wf b -> 0 <= bi -> Forall (fun v => 0 <= v < 16) vs ->
  wp (unfmt_hex_loop b (hex_char <$> vs) bi rc) (fun '(b', rc') => rc' = rc /\
    bs_upd b b' (fun i => ((bi <=? i) && (i <? bs_bits b) &&
      Z.testbit (default 0 (vs !! Z.to_nat ((i - bi) / 4))) ((i - bi) `mod` 4)) || bs_mem b i)).
Proof.
  induction vs as [|v vs IH]; intros b bi rc Hwf Hbi HF; cbn [unfmt_hex_loop fmap list_fmap].
  { wp_step. split; [done|]. eapply upd_ext; [by apply upd_refl|]. intros i Hi; cbn beta.
    rewrite lookup_nil. simpl. by rewrite Z.testbit_0_l, andb_false_r. }
  apply Forall_cons in HF as [Hv HF].
  destruct (hex_char_decode v Hv) as [-> ->].
  wp_step. eapply wp_mono; [by apply set_if_spec|]. intros b1 Hu1. pose proof (upd_bits _ _ _ Hu1).
  wp_step. eapply wp_mono; [apply set_if_spec; [apply Hu1|lia]|]. intros b2 Hu2. pose proof (upd_bits _ _ _ Hu2).
  wp_step. eapply wp_mono; [apply set_if_spec; [apply Hu2|lia]|]. intros b3 Hu3. pose proof (upd_bits _ _ _ Hu3).
  wp_step. eapply wp_mono; [apply set_if_spec; [apply Hu3|lia]|]. intros b4 Hu4. pose proof (upd_bits _ _ _ Hu4).
  eapply wp_mono; [apply IH; [apply Hu4|lia|done]|]. intros [b5 rc'] (-> & Hu5). split; [done|].
  eapply upd_ext.
  { eapply upd_trans; [|exact Hu5]. eapply upd_trans; [|exact Hu4]. eapply upd_trans; [|exact Hu3].
    eapply upd_trans; [exact Hu1|exact Hu2]. }
  intros i Hi; cbn beta.
  rewrite (upd_mem _ _ _ Hu4), (upd_mem _ _ _ Hu3), (upd_mem _ _ _ Hu2), (upd_mem _ _ _ Hu1) by done.
  replace (bs_bits b4) with (bs_bits b) by lia. replace (bs_bits b3) with (bs_bits b) by lia.
  replace (bs_bits b2) with (bs_bits b) by lia. replace (bs_bits b1) with (bs_bits b) by lia.
  destruct (decide (bi + 4 <= i)) as [Hge|Hlt].
  - replace (Z.to_nat ((i - bi) / 4)) with (S (Z.to_nat ((i - (bi + 4)) / 4))) by dlia.
    simpl. replace ((i - bi) `mod` 4) with ((i - (bi + 4)) `mod` 4) by dlia.
    replace (bi <=? i) with true by lia. replace (bi + 4 <=? i) with true by lia.
    replace (i =? bi) with false by lia. replace (i =? bi + 1) with false by lia.
    replace (i =? bi + 2) with false by lia. replace (i =? bi + 3) with false by lia. done.
  - replace (bi + 4 <=? i) with false by lia. destruct (decide (bi <= i)) as [Hin|].
    + replace (Z.to_nat ((i - bi) / 4)) with 0%nat by dlia. simpl.
      replace ((i - bi) `mod` 4) with (i - bi) by dlia. replace (bi <=? i) with true by lia.
      assert (i = bi \/ i = bi + 1 \/ i = bi + 2 \/ i = bi + 3) as [-> | [-> | [-> | ->]]] by lia;
      rewrite ?Z.sub_diag; repeat match goal with |- context [bi + ?k - bi] => replace (bi + k - bi) with k by lia end;
      repeat match goal with |- context [(?x =? ?y)] => first [replace (x =? y) with true by lia | replace (x =? y) with false by lia] end;
      simpl; f_equal; apply andb_comm.
    + replace (bi <=? i) with false by lia.
      replace (i =? bi) with false by lia. replace (i =? bi + 1) with false by lia.
      replace (i =? bi + 2) with false by lia. replace (i =? bi + 3) with false by lia. done.
Qed.

Lemma seqZ_lookup_map {A} (F : Z -> A) n k :
  0 <= k < n -> (F <$> seqZ 0 n) !! Z.to_nat k = Some (F k).
Proof.
  intros Hk. rewrite list_lookup_fmap.
  replace (seqZ 0 n !! Z.to_nat k) with (Some k); [done|]. symmetry. apply lookup_seqZ. split; lia.
Qed.

Lemma clear_for_unfmt b :
  bs_wf b -> 0 < bs_bits b -> wp (bit_nclear b 0 (bs_bits b - 1)) (fun b' =>
    bs_upd b b' (fun i => if i <? bs_bits b then false else bs_mem b i)).
Proof.
  intros Hwf Hb. eapply wp_mono; [apply bit_nclear_spec; [done|lia..]|].
  intros b' Hu. eapply upd_ext; [exact Hu|]. intros i Hi; cbn beta. unfold bs_range. if_solve.
Qed.

(** Reading back the hexadecimal mask of [b] into a bitmap of the same size. *)
Lemma hexmask_roundtrip b c s :
  bs_wf b -> bs_wf c -> bs_bits c = bs_bits b -> 0 < bs_bits b -> bit_fmt_hexmask b = Ret s ->
  wp (bit_unfmt_hexmask c s) (fun '(c', rc) => rc = 0 /\ bs_upd c c' (fun i => if i <? bs_bits c then bs_mem b i else bs_mem c i)).
Proof.
  intros Hb Hc Hn Hpos. rewrite bit_fmt_hexmask_spec by done. intros [= <-].
  unfold bit_unfmt_hexmask, bit_size. rewrite (wf_magic _ Hc). cbn [assert_ mbind exec_bind app].
  wp_step. eapply wp_mono; [apply clear_for_unfmt; [done|lia]|]. intros c1 Hu1.
  rewrite reverse_involutive.
  replace ((fun j => hex_char (nib_at b (4 * j))) <$> seqZ 0 ((bs_bits b + 3) / 4))
    with (hex_char <$> ((fun j => nib_at b (4 * j)) <$> seqZ 0 ((bs_bits b + 3) / 4))) by (by rewrite <- list_fmap_compose).
  eapply wp_mono; [apply unfmt_hex_loop_spec; [apply Hu1|lia|]|].
  { apply Forall_fmap, Forall_forall. intros j _. apply nib_range. }
  intros [c2 rc] (-> & Hu2). split; [done|].
  eapply upd_ext; [eapply upd_trans; [exact Hu1|exact Hu2]|]. intros i Hi; cbn beta.
  rewrite (upd_mem _ _ _ Hu1), (upd_bits _ _ _ Hu1), Z.sub_0_r by done.
  destruct (Z.ltb_spec i (bs_bits c)); [|by rewrite andb_false_r]. rewrite orb_false_r, seqZ_lookup_map by dlia. cbn [default from_option id]. rewrite nib_at_testbit by dlia.
  unfold bs_in. replace (4 * (i / 4) + i `mod` 4) with i by dlia.
  by replace (i <? bs_bits b) with true by lia; replace ((0 <=? i) && true) with true by lia.
Qed.

Lemma bit_fmt_binmask_spec b :
  bs_wf b ->
  bit_fmt_binmask b = Ret (reverse ((fun i => if bs_mem b i then 49 else 48) <$> seqZ 0 (bs_bits b))).
Proof.
  intros Hwf. pose proof (wf_size _ Hwf). apply wp_eq. unfold bit_fmt_binmask, bit_size.
  rewrite (wf_magic _ Hwf). cbn [assert_ mbind exec_bind].
  eapply (wp_loop (fun '(i, acc) => 0 <= i <= bs_bits b /\ acc = reverse ((fun i => if bs_mem b i then 49 else 48) <$> seqZ 0 i))
          (fun '(i, _) => Z.to_nat (bs_bits b - i)) _);
    [|split; [lia|done]|unfold loop_fuel; lia|intros s Hs; exact Hs].
  intros [i acc] (Hi & ->). if_case.
  - rewrite bit_test_spec by (done || lia). wp_step. split; [|lia]. split; [lia|].
    replace (i + 1) with (Z.of_nat (S (Z.to_nat i))) by lia.
    rewrite seqZ_S, fmap_app, reverse_app, Z2Nat.id by lia.
    cbn [app fmap list_fmap]. by rewrite reverse_singleton.
  - wp_step. by replace i with (bs_bits b) by lia.
Qed.

Lemma unfmt_bin_loop_spec vs : forall b bi,
  bs_wf b -> 0 <= bi ->
  wp (unfmt_bin_loop b vs bi) (fun b' => bs_upd b b' (fun i =>
    ((bi <=? i) && (i <? bs_bits b) && Z.testbit (default 48 (vs !! Z.to_nat (i - bi)) - 48) 0) || bs_mem b i)).
Proof.
  induction vs as [|v vs IH]; intros b bi Hwf Hbi; cbn [unfmt_bin_loop].
  { wp_step. eapply upd_ext; [by apply upd_refl|]. intros i Hi; cbn beta.
    rewrite lookup_nil. simpl. by rewrite andb_false_r. }
  wp_step. eapply wp_mono; [by apply set_if_spec|]. intros b1 Hu1. pose proof (upd_bits _ _ _ Hu1).
  eapply wp_mono; [apply IH; [apply Hu1|lia]|]. intros b2 Hu2.
  eapply upd_ext; [eapply upd_trans; [exact Hu1|exact Hu2]|]. intros i Hi; cbn beta.
  rewrite (upd_mem _ _ _ Hu1), (upd_bits _ _ _ Hu1) by done.
  destruct (Z.eqb_spec i bi) as [->|].
  - rewrite Z.sub_diag. replace (bi + 1 <=? bi) with false by lia. replace (bi <=? bi) with true by lia.
    simpl. f_equal. apply andb_comm.
  - destruct (decide (bi <= i)).
    + replace (Z.to_nat (i - bi)) with (S (Z.to_nat (i - (bi + 1)))) by lia.
      replace (bi + 1 <=? i) with true by lia. by replace (bi <=? i) with true by lia.
    + replace (bi + 1 <=? i) with false by lia. by replace (bi <=? i) with false by lia.
Qed.

Lemma binmask_roundtrip b c s :
  bs_wf b -> bs_wf c -> bs_bits c = bs_bits b -> 0 < bs_bits b -> bit_fmt_binmask b = Ret s ->
  wp (bit_unfmt_binmask c s) (fun c' => bs_upd c c' (fun i => if i <? bs_bits c then bs_mem b i else bs_mem c i)).
Proof.
  intros Hb Hc Hn Hpos. rewrite bit_fmt_binmask_spec by done. intros [= <-].
  unfold bit_unfmt_binmask, bit_size. rewrite (wf_magic _ Hc). cbn [assert_ mbind exec_bind].
  wp_step. eapply wp_mono; [apply clear_for_unfmt; [done|lia]|]. intros c1 Hu1.
  rewrite reverse_involutive.
  eapply wp_mono; [apply unfmt_bin_loop_spec; [apply Hu1|lia]|]. intros c2 Hu2.
  eapply upd_ext; [eapply upd_trans; [exact Hu1|exact Hu2]|]. intros i Hi; cbn beta.
  rewrite (upd_mem _ _ _ Hu1), (upd_bits _ _ _ Hu1), Z.sub_0_r by done. replace (0 <=? i) with true by lia.
  destruct (Z.ltb_spec i (bs_bits c)); [|done].
  rewrite orb_false_r, seqZ_lookup_map by lia. simpl. by destruct (bs_mem b i).
Qed.

(** ** The range-list round trip *)

(** The text of a list of ranges: ["0-5,42"]. *)
Definition ranges_text (L : list (Z * Z)) : cstr :=
  match L with [] => [] | p :: L' => fmt_range p.1 p.2 ++ tail_ranges L' end.

Lemma bit_fmt_full_spec b :
  bs_wf b ->
  wp (bit_fmt_full b) (fun str => exists L, ranges_of b L /\
    str = match L with [] => None | _ => Some (ranges_text L) end).
Proof.
  intros Hwf. unfold bit_fmt_full. wp_step; [apply (wf_magic _ Hwf)|].
  eapply wp_mono; [by apply bit_ranges_spec|]. intros str (L & -> & HL). exists L. split; [done|].
  destruct L as [|p L]; [done|]. simpl. apply foldl_fmt.
Qed.

Lemma ranges_of_valid b L s e :
  bs_wf b -> ranges_of b L -> (s, e) ∈ L -> 0 <= s <= e /\ e < bs_bits b /\ e <= i32_max.
Proof.
  intros Hwf [Hsep _] Hin. pose proof (wf_size _ Hwf).
  destruct (separated_valid _ _ _ _ _ Hsep ltac:(done) Hin). unfold i32_max. lia.
Qed.

Lemma fmt_range_nonempty s e : fmt_range s e <> [].
Proof.
  pose proof (range_length s e). destruct (fmt_range s e); simpl in *; [lia|done].
Qed.

Lemma ranges_roundtrip b c L :
  bs_wf b -> bs_wf c -> bs_bits c = bs_bits b -> ranges_of b L -> L <> [] ->
  wp (bit_unfmt c (Some (ranges_text L))) (fun '(c', rc) => rc = 0 /\
    bs_upd c c' (fun i => if i <? bs_bits c then bs_mem b i else bs_mem c i)).
Proof.
  intros Hb Hc Hn HL Hne. destruct L as [|[s e] L]; [done|]. unfold bit_unfmt.
  wp_step; [apply (wf_magic _ Hc)|]. unfold ranges_text; cbn [fst snd].
  destruct (fmt_range s e ++ tail_ranges L) as [|ch rest] eqn:Htxt.
  { apply app_eq_nil in Htxt as [Htxt _]. by destruct (fmt_range_nonempty s e). }
  rewrite <-Htxt, bitfmt2int_ranges.
  2: { intros s' e' Hin. destruct (ranges_of_valid b _ s' e' Hb HL Hin); lia. }
  cbn [mbind exec_bind]. destruct (ranges_of_valid b _ s e Hb HL) as [? ?]; [left|].
  eapply wp_mono; [apply inx2bitstr_spec; [done|lia|]|].
  { intros s' e' Hin. rewrite Hn. destruct (ranges_of_valid b _ s' e' Hb HL Hin); lia. }
  intros [c' rc] (-> & Hu). split; [done|]. eapply upd_ext; [exact Hu|]. intros i Hi; cbn beta.
  if_case; [|done]. symmetry. apply HL. lia.
Qed.

Lemma ranges_of_nil b L :
  ranges_of b L -> (L = [] <-> forall i, 0 <= i < bs_bits b -> bs_mem b i = false).
Proof.
  intros [Hsep Hm]. split; [intros -> i Hi; by rewrite Hm|].
  intros Hz. destruct L as [|[s e] L]; [done|]. simpl in Hsep. exfalso.
  specialize (Hm s). rewrite Hz in Hm by lia. simpl in Hm. specialize (Hm ltac:(lia)). lia.
Qed.

(** With a buffer that is large enough [bit_fmt] prints what [bit_fmt_full] does. *)
Definition fmt_emit (len : nat) : cstr * Z -> Z -> Z -> cstr * Z :=
  fun '(str, cnt) start bit =>
    (snprintf_cat len str (fmt_range start bit ++ [44]), cnt + (bit - start + 1)).

Lemma foldl_snprintf len L : forall str cnt,
  (length str + length (tail_ranges L) < len)%nat ->
  foldl (fun a p => fmt_emit len a p.1 p.2) (str, cnt) L =
  (str ++ flat_map (fun p => fmt_range p.1 p.2 ++ [44]) L, cnt + foldr (fun p a => p.2 - p.1 + 1 + a) 0 L).
Proof.
  induction L as [|p L IH]; intros str cnt Hlen; [simpl; by rewrite app_nil_r, Z.add_0_r|].
  cbn [foldl flat_map foldr fmt_emit]. unfold snprintf_cat.
  unfold tail_ranges in Hlen. cbn [flat_map app length] in Hlen. rewrite length_app in Hlen.
  fold (tail_ranges L) in Hlen.
  rewrite take_ge by (rewrite length_app; simpl; lia).
  rewrite IH by (rewrite !length_app; simpl; lia). f_equal; [by rewrite <-!app_assoc|lia].
Qed.

Lemma removelast_tail L : forall s e,
  removelast (fmt_range s e ++ [44] ++ flat_map (fun p => fmt_range p.1 p.2 ++ [44]) L) =
  fmt_range s e ++ tail_ranges L.
Proof.
  induction L as [|p L IH]; intros s e.
  - cbn [flat_map tail_ranges app]. rewrite app_nil_r. apply removelast_last.
  - cbn [flat_map]. rewrite removelast_app by done. f_equal.
    change (tail_ranges (p :: L)) with (44 :: (fmt_range p.1 p.2 ++ tail_ranges L)).
    rewrite <-(IH p.1 p.2), <-app_assoc.
    cbn [app removelast]. destruct (fmt_range _ _) eqn:Hf; [by destruct (fmt_range_nonempty p.1 p.2)|done].
Qed.

Lemma sum_pos lo hi L :
  separated lo hi L -> 0 <= foldr (fun p a => p.2 - p.1 + 1 + a) 0 L /\
  (L <> [] -> 0 < foldr (fun p a => p.2 - p.1 + 1 + a) 0 L).
Proof.
  revert lo. induction L as [|[s e] L IH]; intros lo; simpl; [done|].
  intros (H1 & H2 & H3). apply IH in H3 as [H3 _]. split; [lia|]. intros _. lia.
Qed.

Lemma bit_fmt_enough b len :
  bs_wf b -> exists L, ranges_of b L /\
    ((length (ranges_text L) + 1 < len)%nat -> bit_fmt len b = Ret (ranges_text L)).
Proof.
  intros Hwf.
  destruct (wp_inv _ _ (bit_ranges_spec (fmt_emit len) b ([], 0) Hwf)) as (r & Hr & L & Hfold & HL).
  exists L. split; [done|]. intros Hlen. unfold bit_fmt. rewrite (wf_magic _ Hwf).
  replace (0 <? len)%nat with true by (symmetry; apply Nat.ltb_lt; lia).
  fold (fmt_emit len). rewrite Hr. subst r. cbn [mbind exec_bind assert_].
  destruct L as [|[s e] L]; [done|].
  assert (He : (length (tail_ranges ((s, e) :: L)) < len)%nat).
  { cbn [tail_ranges flat_map ranges_text fst snd] in *. rewrite length_app in Hlen.
    cbn [app length]. rewrite length_app. unfold tail_ranges in Hlen. lia. }
  rewrite foldl_snprintf by done. cbn [app].
  destruct HL as [Hsep _]. destruct (sum_pos _ _ _ Hsep) as [_ Hpos]. specialize (Hpos ltac:(done)).
  replace (0 <? _) with true by lia. cbn [flat_map fst snd]. rewrite <-app_assoc, removelast_tail.
  replace (0 <? _)%nat with true; [done|]. symmetry. apply Nat.ltb_lt.
  rewrite length_app. pose proof (range_length s e). lia.
Qed.

(** The maximal ranges of a bitmap are determined by it. *)
Lemma in_ranges_before lo hi L i : separated lo hi L -> i < lo -> in_ranges L i = false.
Proof.
  revert lo. induction L as [|[s e] L IH]; intros lo; [done|]. simpl.
  intros (H1 & H2 & H3) Hi. rewrite (IH (e + 2)) by (done || lia). lia.
Qed.

Lemma in_ranges_cons lo hi s e L i :
  separated lo hi ((s, e) :: L) -> i < e + 2 -> in_ranges ((s, e) :: L) i = (s <=? i) && (i <=? e).
Proof.
  intros (H1 & H2 & H3) Hi. simpl. rewrite (in_ranges_before (e + 2) hi) by done. apply orb_false_r.
Qed.

Lemma separated_unique hi L : forall lo L',
  separated lo hi L -> separated lo hi L' ->
  (forall i, lo <= i < hi -> in_ranges L i = in_ranges L' i) -> L = L'.
Proof.
  induction L as [|[s e] L IH]; intros lo [|[s' e'] L'] S1 S2 Heq; [done| | |].
  - exfalso. pose proof S2 as (? & ? & _). specialize (Heq s' ltac:(lia)).
    erewrite (in_ranges_cons _ _ s') in Heq by (exact S2 || lia). simpl in Heq. lia.
  - exfalso. pose proof S1 as (? & ? & _). specialize (Heq s ltac:(lia)).
    erewrite (in_ranges_cons _ _ s) in Heq by (exact S1 || lia). simpl in Heq. lia.
  - pose proof S1 as (? & ? & S1'). pose proof S2 as (? & ? & S2').
    pose proof (in_ranges_cons _ _ _ _ _ (Z.min s s') S1 ltac:(lia)).
    pose proof (in_ranges_cons _ _ _ _ _ (Z.min s s') S2 ltac:(lia)).
    pose proof (Heq (Z.min s s') ltac:(lia)). assert (s' = s) as -> by lia.
    pose proof (in_ranges_cons _ _ _ _ _ (Z.min e e' + 1) S1 ltac:(lia)).
    pose proof (in_ranges_cons _ _ _ _ _ (Z.min e e' + 1) S2 ltac:(lia)).
    assert (e' = e) as ->.
    { destruct (decide (e' = e)); [done|]. pose proof (Heq (Z.min e e' + 1) ltac:(lia)). lia. }
    f_equal. apply (IH (e + 2)); [done..|]. intros i Hi. specialize (Heq i ltac:(lia)). simpl in Heq.
    by replace ((s <=? i) && (i <=? e)) with false in Heq by lia.
Qed.

Lemma ranges_of_unique b L L' : ranges_of b L -> ranges_of b L' -> L = L'.
Proof.
  intros [S1 M1] [S2 M2]. eapply separated_unique; [done..|]. intros i Hi. by rewrite <-M1, <-M2.
Qed.
