(* ===== verification/BitstringProps.v ===== *)
(** * Bitmaps: the properties of src/common/bitstring.c

    [bs_set b] is the set of positions a bitmap stands for, as a finite set
    of integers.  The theorems of this file say that the word-level operations
    implement the operations on such sets, and that the text formats lose
    nothing. *)

From stdpp Require Import gmap fin_sets.
From S2P Require Import Prelude Bitstring Popcount BitstringFacts BitstringCount BitstringFmt.

Local Open Scope Z_scope.
Local Open Scope slurm_scope.

Definition bs_set (b : bitstr) : gset Z :=
  list_to_set (filter (fun i => bs_mem b i = true) (seqZ 0 (bs_bits b))).

(** The positions of a bitmap of [n] bits. *)
Definition universe (n : Z) : gset Z := list_to_set (seqZ 0 n).
Definition interval (s e : Z) : gset Z := list_to_set (seqZ s (e + 1 - s)).

(** [m] computes a well-formed bitmap of [b]'s size that stands for [X]. *)
Definition computes (m : exec bitstr) (b : bitstr) (X : gset Z) : Prop :=
  wp m (fun b' => bs_wf b' /\ bs_bits b' = bs_bits b /\ bs_set b' = X).

(** No bit beyond the size is set. *)
Definition clean (b : bitstr) : Prop := forall i, bs_bits b <= i -> bs_mem b i = false.

Lemma elem_of_bs_set b i : i ∈ bs_set b <-> 0 <= i < bs_bits b /\ bs_mem b i = true.
Proof.
  unfold bs_set. rewrite elem_of_list_to_set, list_elem_of_filter, elem_of_seqZ. split; intuition lia.
Qed.

Lemma elem_of_universe n i : i ∈ universe n <-> 0 <= i < n.
Proof. unfold universe. rewrite elem_of_list_to_set, elem_of_seqZ. lia. Qed.

Lemma elem_of_interval s e i : i ∈ interval s e <-> s <= i <= e.
Proof. unfold interval. rewrite elem_of_list_to_set, elem_of_seqZ. lia. Qed.

#[global] Instance set_unfold_bs_set b i :
  SetUnfoldElemOf i (bs_set b) (0 <= i < bs_bits b /\ bs_mem b i = true).
Proof. constructor. apply elem_of_bs_set. Qed.
#[global] Instance set_unfold_universe n i : SetUnfoldElemOf i (universe n) (0 <= i < n).
Proof. constructor. apply elem_of_universe. Qed.
#[global] Instance set_unfold_interval s e i : SetUnfoldElemOf i (interval s e) (s <= i <= e).
Proof. constructor. apply elem_of_interval. Qed.

Lemma computes_upd m b (f : Z -> bool) X :
  0 <= bs_bits b -> wp m (fun b' => bs_upd b b' f) ->
  (forall i, i ∈ X <-> 0 <= i < bs_bits b /\ f i = true) -> computes m b X.
Proof.
  intros Hn Hm HX. eapply wp_mono; [exact Hm|]. intros b' Hu. split_and!; [apply Hu|apply Hu|].
  apply set_eq. intros i. rewrite HX, elem_of_bs_set, (upd_bits _ _ _ Hu).
  split; intros [? Hi]; (split; [done|]); by rewrite (upd_mem _ _ _ Hu) in *; try lia.
Qed.

Lemma size_count (X : gset Z) P lo hi :
  (forall i, i ∈ X <-> lo <= i < hi /\ P i = true) -> Z.of_nat (size X) = count P lo hi.
Proof.
  intros HX. unfold count.
  rewrite <-(size_list_to_set (C := gset Z)) by (apply NoDup_filter, NoDup_seqZ). do 2 f_equal.
  apply set_eq. intros i. rewrite HX, elem_of_list_to_set, list_elem_of_filter, elem_of_seqZ.
  intuition lia.
Qed.

(** [r] is the least, or the greatest, element of [X], or -1 when [X] is empty. *)
Definition least (X : gset Z) (r : Z) : Prop :=
  (r = -1 /\ X = ∅) \/ (r ∈ X /\ forall j, j ∈ X -> r <= j).
Definition greatest (X : gset Z) (r : Z) : Prop :=
  (r = -1 /\ X = ∅) \/ (r ∈ X /\ forall j, j ∈ X -> j <= r).

Lemma first_in_least P n (X : gset Z) r :
  (forall i, i ∈ X <-> 0 <= i < n /\ P i = true) -> first_in P 0 n r -> least X r.
Proof.
  intros HX [[-> Hno]|(Hr & HP & Hno)]; [left|right].
  - split; [done|]. apply set_eq. intros i. rewrite HX. split; [|set_solver].
    intros [Hi Ht]. rewrite Hno in Ht; done.
  - rewrite HX. split; [done|]. intros j [Hj Ht]%HX. destruct (decide (j < r)); [|lia].
    rewrite Hno in Ht by lia. done.
Qed.

Lemma last_in_greatest P n (X : gset Z) r :
  (forall i, i ∈ X <-> 0 <= i < n /\ P i = true) -> last_in P 0 n r -> greatest X r.
Proof.
  intros HX [[-> Hno]|(Hr & HP & Hno)]; [left|right].
  - split; [done|]. apply set_eq. intros i. rewrite HX. split; [|set_solver].
    intros [Hi Ht]. rewrite Hno in Ht; done.
  - rewrite HX. split; [done|]. intros j [Hj Ht]%HX. destruct (decide (r < j)); [|lia].
    rewrite Hno in Ht by lia. done.
Qed.

(** ** Set algebra *)

(** C35: every operation that changes a bitmap computes the corresponding set
    operation, keeps the size and keeps the bitmap well formed: setting and
    clearing one bit or a range, union, intersection, difference and
    complement. *)
Theorem bitmap_updates_refine_sets (b1 b2 : bitstr) (i s e : Z) :
  bs_wf b1 -> bs_wf b2 -> bs_bits b1 = bs_bits b2 ->
  0 <= i < bs_bits b1 -> 0 <= s < bs_bits b1 -> 0 <= e < bs_bits b1 ->
  computes (bit_set b1 i) b1 (bs_set b1 ∪ {[i]}) /\
  computes (bit_clear b1 i) b1 (bs_set b1 ∖ {[i]}) /\
  computes (bit_nset b1 s e) b1 (bs_set b1 ∪ interval s e) /\
  computes (bit_nclear b1 s e) b1 (bs_set b1 ∖ interval s e) /\
  computes (bit_and b1 b2) b1 (bs_set b1 ∩ bs_set b2) /\
  computes (bit_or b1 b2) b1 (bs_set b1 ∪ bs_set b2) /\
  computes (bit_and_not b1 b2) b1 (bs_set b1 ∖ bs_set b2) /\
  computes (bit_not b1) b1 (universe (bs_bits b1) ∖ bs_set b1) /\
  computes (bit_copybits b1 b2) b1 (bs_set b2).
Proof.
  intros W1 W2 Hn Hi Hs He. pose proof (wf_size _ W1).
  split_and!.
  - eapply computes_upd; [lia|by apply bit_set_spec|]. intros j. set_unfold. if_case; intuition (congruence || lia).
  - eapply computes_upd; [lia|by apply bit_clear_spec|]. intros j. set_unfold. if_case; intuition (congruence || lia).
  - eapply computes_upd; [lia|by apply bit_nset_spec|]. intros j. set_unfold.
    unfold bs_range. if_case; intuition (congruence || lia).
  - eapply computes_upd; [lia|by apply bit_nclear_spec|]. intros j. set_unfold.
    unfold bs_range. if_case; intuition (congruence || lia).
  - eapply computes_upd; [lia|by apply bit_and_spec|]. intros j. set_unfold. rewrite andb_true_iff. intuition lia.
  - eapply computes_upd; [lia|by apply bit_or_spec|]. intros j. set_unfold. rewrite orb_true_iff. intuition lia.
  - eapply computes_upd; [lia|by apply bit_and_not_spec|]. intros j. set_unfold.
    rewrite andb_true_iff, negb_true_iff, <-not_true_iff_false. intuition lia.
  - eapply computes_upd; [lia|by apply bit_not_spec|]. intros j. set_unfold.
    assert (bs_bits b1 <= 64 * Z.of_nat (length (bs_words b1)))
      by (rewrite (wf_len _ W1), bitstr_words_div; dlia).
    rewrite andb_true_iff, negb_true_iff, <-not_true_iff_false, Z.ltb_lt. intuition lia.
  - eapply computes_upd; [lia|by apply bit_copybits_spec|]. intros j. set_unfold. intuition lia.
Qed.

(** C36: the operations that inspect a bitmap answer the corresponding
    question about its set: membership, the least and greatest element, the
    least position outside, the number of elements, of missing elements, of
    elements in a range and of common elements. *)
Theorem bitmap_queries_refine_sets (b1 b2 : bitstr) (i e : Z) :
  bs_wf b1 -> bs_wf b2 -> bs_bits b1 = bs_bits b2 -> 0 <= i < bs_bits b1 -> e <= bs_bits b1 ->
  bit_test b1 i = Ret (bool_decide (i ∈ bs_set b1)) /\
  wp (bit_ffs b1) (least (bs_set b1)) /\
  wp (bit_fls b1) (greatest (bs_set b1)) /\
  wp (bit_ffc b1) (least (universe (bs_bits b1) ∖ bs_set b1)) /\
  bit_set_count b1 = Ret (Z.of_nat (size (bs_set b1))) /\
  bit_clear_count b1 = Ret (Z.of_nat (size (universe (bs_bits b1) ∖ bs_set b1))) /\
  bit_set_count_range b1 i e = Ret (Z.of_nat (size (bs_set b1 ∩ interval i (e - 1)))) /\
  bit_overlap b1 b2 = Ret (Z.of_nat (size (bs_set b1 ∩ bs_set b2))).
Proof.
  intros W1 W2 Hn [Hi1 Hi2] He. split_and!.
  - rewrite bit_test_spec by done. f_equal. symmetry. destruct (bs_mem b1 i) eqn:Hm.
    + apply bool_decide_eq_true. set_solver.
    + apply bool_decide_eq_false. set_unfold. intros [_ ?]. congruence.
  - eapply wp_mono; [by apply bit_ffs_spec|]. intros r. apply first_in_least. set_solver.
  - eapply wp_mono; [by apply bit_fls_spec|]. intros r. apply last_in_greatest. set_solver.
  - eapply wp_mono; [by apply bit_ffc_spec|]. intros r. apply first_in_least.
    intros j. set_unfold. rewrite negb_true_iff, <-not_true_iff_false. intuition lia.
  - rewrite bit_set_count_spec by done. f_equal. symmetry. apply size_count. set_solver.
  - rewrite bit_clear_count_spec by done. f_equal. symmetry. apply size_count.
    intros j. set_unfold. rewrite negb_true_iff, <-not_true_iff_false. intuition lia.
  - rewrite bit_set_count_range_spec by done. f_equal. symmetry. apply size_count.
    intros j. set_unfold. intuition lia.
  - rewrite bit_overlap_spec by done. f_equal. symmetry. apply size_count.
    intros j. set_unfold. rewrite andb_true_iff. intuition lia.
Qed.

(** A concrete bitmap for the examples. *)
Definition sample (n w : Z) : bitstr :=
  {| bs_magic := BITSTR_MAGIC; bs_bits := n; bs_words := [w] |}.

Lemma sample_wf n w : 0 < n <= 64 -> 0 <= w < 2 ^ 64 -> bs_wf (sample n w).
Proof.
  intros Hn Hw. constructor; simpl; [done|lia|rewrite bitstr_words_div; dlia|by apply Forall_singleton].
Qed.

Lemma bitmap_updates_refine_sets_witness :
  bs_wf (sample 10 37) /\
  computes (bit_and (sample 10 37) (sample 10 7)) (sample 10 37)
    (bs_set (sample 10 37) ∩ bs_set (sample 10 7)).
Proof.
  assert (bs_wf (sample 10 37)) by (apply sample_wf; lia).
  split; [done|].
  destruct (bitmap_updates_refine_sets (sample 10 37) (sample 10 7) 3 0 9) as (_ & _ & _ & _ & Hand & _);
    [done|apply sample_wf; lia|done|simpl; lia..|exact Hand].
Defined.

Lemma bitmap_queries_refine_sets_witness :
  bit_overlap (sample 10 37) (sample 10 7) =
    Ret (Z.of_nat (size (bs_set (sample 10 37) ∩ bs_set (sample 10 7)))) /\
  bit_overlap (sample 10 37) (sample 10 7) = Ret 2.
Proof.
  split; [|done].
  apply (bitmap_queries_refine_sets (sample 10 37) (sample 10 7) 3 9); simpl; try lia.
  all: apply sample_wf; lia.
Defined.

(** ** Comparisons *)

Lemma clean_mem b i : bs_wf b -> clean b -> 0 <= i -> bs_mem b i = bool_decide (i ∈ bs_set b).
Proof.
  intros _ Hc Hi. destruct (decide (i < bs_bits b)).
  - destruct (bs_mem b i) eqn:Hm; symmetry;
      [apply bool_decide_eq_true|apply bool_decide_eq_false]; set_unfold; intuition congruence.
  - rewrite Hc by lia. symmetry. apply bool_decide_eq_false. set_unfold. lia.
Qed.

(** on bitmaps whose padding is clear, [bit_equal] and [bit_super_set],
    which compare whole words, decide equality and inclusion of the sets. *)
Theorem bitmap_comparisons_refine_sets (b1 b2 : bitstr) :
  bs_wf b1 -> bs_wf b2 -> bs_bits b1 = bs_bits b2 -> clean b1 -> clean b2 ->
  bit_equal b1 b2 = Ret (bool_decide (bs_set b1 = bs_set b2)) /\
  bit_super_set b1 b2 = Ret (bool_decide (bs_set b1 ⊆ bs_set b2)).
Proof.
  intros W1 W2 Hn C1 C2. split; apply wp_eq; (eapply wp_mono; [by (apply bit_equal_spec || apply bit_super_set_spec)|]);
    intros r Hr; (destruct r; [rewrite bool_decide_eq_true_2|rewrite bool_decide_eq_false_2]; [done| |done|]).
  - destruct Hr as [[_ Hr] _]; [done|]. apply set_eq. intros i. set_unfold. rewrite Hn.
    split; intros [? ?]; (split; [done|]); [rewrite <-Hr|rewrite Hr]; (done || lia).
  - intros Heq. destruct Hr as [_ Hr]. discriminate Hr. split; [done|]. intros i Hi.
    by rewrite !clean_mem, Heq.
  - destruct Hr as [Hr _]. specialize (Hr eq_refl). intros i. set_unfold. intros [Hi Hm].
    specialize (Hr i ltac:(lia)). rewrite Hm in Hr. simpl in Hr. split; [lia|done].
  - intros Hsub. destruct Hr as [_ Hr]. discriminate Hr. intros i Hi. rewrite !clean_mem by done.
    case_bool_decide; [|done]. simpl. by apply bool_decide_eq_true, Hsub.
Qed.

Lemma sample_clean n w : 0 < n <= 64 -> 0 <= w < 2 ^ n -> clean (sample n w).
Proof.
  intros Hn Hw i Hi. unfold bs_mem. cbn [bs_words sample] in *.
  destruct (decide (i < 64)).
  - rewrite Z.div_small, Z.mod_small by (simpl in *; lia). simpl.
    apply (testbit_small _ n); simpl in *; lia.
  - rewrite lookup_ge_None_2; [apply Z.testbit_0_l|]. simpl. dlia.
Qed.

Lemma bitmap_comparisons_refine_sets_witness :
  bit_super_set (sample 10 5) (sample 10 37) =
    Ret (bool_decide (bs_set (sample 10 5) ⊆ bs_set (sample 10 37))).
Proof.
  apply (bitmap_comparisons_refine_sets (sample 10 5) (sample 10 37)); try done.
  all: apply sample_wf || apply sample_clean; lia.
Defined.

Lemma clean_upd b b' f :
  bs_upd b b' f -> 0 <= bs_bits b -> (forall i, bs_bits b <= i -> f i = false) -> clean b'.
Proof. intros Hu Hn Hf i Hi. rewrite (upd_bits _ _ _ Hu) in Hi. rewrite (upd_mem _ _ _ Hu) by lia. auto. Qed.

Ltac keep_clean spec :=
  eapply wp_mono; [by apply spec|]; intros ? Hu; eapply clean_upd; [exact Hu|lia|]; intros j Hj; cbn beta.

(** clear padding is an invariant: a new bitmap has it, and setting and
    clearing bits, intersection, union, difference, filling gaps and copying
    keep it. *)
Theorem clean_padding_preserved (b1 b2 : bitstr) (n i s e : Z) :
  bs_wf b1 -> bs_wf b2 -> bs_bits b1 = bs_bits b2 -> clean b1 -> clean b2 ->
  0 <= n <= 0x40000000 -> 0 <= i < bs_bits b1 -> 0 <= s < bs_bits b1 -> 0 <= e < bs_bits b1 ->
  wp (bit_alloc n) clean /\ wp (bit_set b1 i) clean /\ wp (bit_clear b1 i) clean /\
  wp (bit_nset b1 s e) clean /\ wp (bit_nclear b1 s e) clean /\
  wp (bit_and b1 b2) clean /\ wp (bit_or b1 b2) clean /\ wp (bit_and_not b1 b2) clean /\
  wp (bit_fill_gaps b1) clean /\ wp (bit_copy b1) clean /\ wp (bit_copybits b1 b2) clean.
Proof.
  intros W1 W2 Hn C1 C2 Hsz Hi Hs He. pose proof (wf_size _ W1).
  split_and!.
  - eapply wp_mono; [by apply bit_alloc_spec|]. intros b (_ & _ & Hb & Hm) j Hj. apply Hm. lia.
  - keep_clean bit_set_spec. if_case; [lia|auto].
  - keep_clean bit_clear_spec. if_case; [lia|auto].
  - keep_clean bit_nset_spec. unfold bs_range. if_case; [lia|auto].
  - keep_clean bit_nclear_spec. unfold bs_range. if_case; [lia|auto].
  - keep_clean bit_and_spec. by rewrite C1.
  - keep_clean bit_or_spec. by rewrite C1, C2 by lia.
  - keep_clean bit_and_not_spec. by rewrite C1.
  - keep_clean bit_fill_gaps_spec. rewrite C1 by lia. by replace (j <? bs_bits b1) with false by lia.
  - eapply wp_mono; [by apply bit_copy_spec|]. intros b (_ & _ & Hb & Hm) j Hj.
    rewrite Hm by lia. apply C1. lia.
  - keep_clean bit_copybits_spec. apply C2. lia.
Qed.

Lemma clean_padding_preserved_witness : wp (bit_or (sample 10 5) (sample 10 32)) clean.
Proof.
  destruct (clean_padding_preserved (sample 10 5) (sample 10 32) 10 0 0 9)
    as (_ & _ & _ & _ & _ & _ & Hor & _);
    [apply sample_wf; lia|apply sample_wf; lia|done|apply sample_clean; lia|apply sample_clean; lia|
     simpl; lia..|exact Hor].
Defined.

(** The complement sets the padding: two bitmaps of ten bits with the same
    elements then differ for [bit_equal]. *)
Lemma bit_not_breaks_equality :
  exists b c, bit_not (sample 10 0) = Ret b /\ bit_nset (sample 10 0) 0 9 = Ret c /\
    bs_set b = bs_set c /\ bit_equal b c = Ret false.
Proof.
  eexists _, _. split; [vm_compute; reflexivity|]. split; [vm_compute; reflexivity|].
  split; [|done]. apply set_eq. intros i. set_unfold. split; intros [Hi Hm]; (split; [lia|]).
  all: assert (i = 0 \/ i = 1 \/ i = 2 \/ i = 3 \/ i = 4 \/ i = 5 \/ i = 6 \/ i = 7 \/ i = 8 \/ i = 9) by lia;
    destruct_or!; by subst i.
Qed.

Lemma run_all_set b n s :
  0 < n -> run_at b true n s = true -> forall i, s <= i < s + n -> bs_mem b i = true.
Proof.
  unfold run_at. intros Hn Hr i Hi. destruct (bs_mem b i) eqn:Hm; [done|]. exfalso.
  rewrite (count_split _ s i (s + n)), (count_cons _ i (s + n)) in Hr by lia.
  unfold bs_is at 2 in Hr. rewrite Hm in Hr. simpl in Hr.
  pose proof (count_range (bs_is b true) s i). pose proof (count_range (bs_is b true) (i + 1) (s + n)). lia.
Qed.

Lemma run_not_all_set b n s :
  0 < n -> run_at b true n s = false -> exists i, s <= i < s + n /\ bs_mem b i = false.
Proof.
  intros Hn Hr. destruct (decide (Exists (fun i => bs_mem b i = false) (seqZ s n))) as [He|Hne].
  - apply Exists_exists in He as (i & Hi%elem_of_seqZ & Hm). exists i. split; [lia|done].
  - exfalso. apply not_Exists_Forall in Hne; [|apply _]. rewrite Forall_forall in Hne.
    unfold run_at in Hr. rewrite count_all in Hr; [lia|lia|]. intros i Hi. unfold bs_is.
    destruct (bs_mem b i) eqn:Hm; [done|]. exfalso. apply (Hne i); [apply elem_of_seqZ; lia|done].
Qed.

(** The first [k] of at least [k] positions with [P] are [k] positions. *)
Lemma count_prefix P n k :
  0 <= n -> 0 <= k <= count P 0 n -> count (fun i => P i && (count P 0 i <? k)) 0 n = k.
Proof.
  intros Hn Hk. enough (count (fun i => P i && (count P 0 i <? k)) 0 n = Z.min k (count P 0 n)) by lia.
  destruct Hk as [Hk _]. revert n Hn. apply natlike_ind; [by rewrite !count_empty by lia; lia|].
  intros n Hn IH. unfold Z.succ. rewrite !count_snoc, IH by lia.
  destruct (P n); simpl; [if_case|]; lia.
Qed.

(** ** Counting and searching *)

(** The word-parallel bit count of [hweight] is the number of set bits. *)
Theorem hweight_counts_bits (w : Z) :
  0 <= w < 2 ^ 64 ->
  hweight w = Z.of_nat (length (filter (fun i => Z.testbit w i = true) (seqZ 0 64))).
Proof. intros Hw. rewrite hweight_spec by done. unfold count. by rewrite Z.sub_0_r. Qed.

Lemma hweight_counts_bits_witness : hweight 0xF0F0 = 8.
Proof. rewrite (hweight_counts_bits 0xF0F0) by lia. vm_compute. reflexivity. Defined.

(** [bit_nffc] and [bit_noc] return the first run of [n] clear bits, from
    the start of the bitmap, or from [seed] and then from the start, and -1
    only when there is none. *)
Theorem clear_run_search (b : bitstr) (n seed : Z) :
  bs_wf b -> 0 < n < bs_bits b -> 0 <= seed -> seed + n < bs_bits b ->
  wp (bit_nffc b n) (first_in (run_at b false n) 0 (bs_bits b - n + 1)) /\
  wp (bit_noc b n seed) (fun r =>
    (0 <= r /\ first_in (run_at b false n) seed (bs_bits b - n + 1) r) \/
    ((forall s, seed <= s < bs_bits b - n + 1 -> run_at b false n s = false) /\
     first_in (run_at b false n) 0 (bs_bits b - n + 1) r)).
Proof.
  intros W Hn Hs Hsn. pose proof (wf_size _ W). split; [by apply bit_nffc_spec|].
  pose proof (bit_noc_spec b n seed W ltac:(lia) Hs ltac:(unfold i32_max; lia)) as Hnoc.
  cbv zeta in Hnoc. by replace (bs_bits b <=? seed + n) with false in Hnoc by lia.
Qed.

Lemma clear_run_search_witness :
  bit_nffc (sample 10 37) 2 = Ret 3 /\
  wp (bit_nffc (sample 10 37) 2) (first_in (run_at (sample 10 37) false 2) 0 9).
Proof.
  split; [done|].
  destruct (clear_run_search (sample 10 37) 2 1) as [Hc _]; [apply sample_wf; lia|simpl; lia..|exact Hc].
Defined.

(** [bit_nset_max_count] is the length of the longest run of set bits. *)
Theorem longest_run (b : bitstr) :
  bs_wf b ->
  wp (bit_nset_max_count b) (fun m => 0 <= m /\
    (0 < m -> exists s, 0 <= s /\ s + m <= bs_bits b /\ forall i, s <= i < s + m -> bs_mem b i = true) /\
    (forall s n, 0 <= s -> m < n -> s + n <= bs_bits b ->
       exists i, s <= i < s + n /\ bs_mem b i = false)).
Proof.
  intros W. eapply wp_mono; [by apply bit_nset_max_count_spec|]. intros m (Hm & Hrun & Hmax).
  split_and!; [done| |].
  - intros Hpos. destruct (Hrun Hpos) as (s & Hs & Hsm & Hr). exists s. split_and!; [done..|].
    apply run_all_set; [lia|done].
  - intros s n Hs Hmn Hsn. apply run_not_all_set; [lia|by apply Hmax].
Qed.

Lemma longest_run_witness :
  bit_nset_max_count (sample 10 0x1DC) = Ret 3 /\
  wp (bit_nset_max_count (sample 10 0x1DC)) (fun m => 0 <= m).
Proof.
  split; [done|]. eapply wp_mono; [apply (longest_run (sample 10 0x1DC)), sample_wf; lia|].
  intros m Hm. apply Hm.
Defined.

(** [bit_nffs] stops looking too early: the run of two set bits at the end of
    a bitmap of four bits is not found. *)
Lemma bit_nffs_misses_last_run :
  bit_nffs (sample 4 12) 2 = Ret (-1) /\ run_at (sample 4 12) true 2 2 = true.
Proof. by vm_compute. Qed.

(** [bit_rotate] moves every bit [n] places up, modulo the size, and
    [bit_rotate_copy] does so into a new and possibly larger bitmap. *)
Theorem rotation_permutes_bits (b : bitstr) (n nbits : Z) :
  bs_wf b -> 0 < bs_bits b <= nbits -> nbits <= 0x40000000 ->
  wp (bit_rotate b n) (fun b' => bs_wf b' /\ bs_bits b' = bs_bits b /\
    forall i, 0 <= i < bs_bits b -> bs_mem b' ((i + n) `mod` bs_bits b) = bs_mem b i) /\
  wp (bit_rotate_copy b n nbits) (fun b' => bs_wf b' /\ bs_bits b' = nbits /\
    forall i, 0 <= i < nbits ->
      bs_mem b' ((i + n) `mod` nbits) = (i <? bs_bits b) && bs_mem b i).
Proof.
  intros W Hb Hn. split.
  - eapply wp_mono; [apply bit_rotate_spec; [done|lia]|]. intros b' (? & ? & ? & ?). done.
  - eapply wp_mono; [apply bit_rotate_copy_spec; [done|lia..]|]. intros b' (? & ? & ? & ? & ?). done.
Qed.

Lemma rotation_permutes_bits_witness :
  wp (bit_rotate (sample 10 37) (-3)) (fun b' => bs_mem b' 9 = true).
Proof.
  destruct (rotation_permutes_bits (sample 10 37) (-3) 12) as [Hr _];
    [apply sample_wf; lia|simpl; lia..|].
  eapply wp_mono; [exact Hr|]. intros b' (_ & _ & Hm). apply (Hm 2). simpl. lia.
Defined.

(** [bit_pick_cnt] returns the first [nbits] set bits, in a bitmap of the
    same size, and nothing when there are fewer. *)
Theorem pick_first_bits (b : bitstr) (nbits : Z) :
  bs_wf b -> 0 <= nbits ->
  wp (bit_pick_cnt b nbits) (fun r =>
    if Z.of_nat (size (bs_set b)) <? nbits then r = None
    else exists new, r = Some new /\ bs_wf new /\ bs_bits new = bs_bits b /\
      bs_set new ⊆ bs_set b /\ Z.of_nat (size (bs_set new)) = nbits /\
      forall i j, i ∈ bs_set new -> j ∈ bs_set b -> j < i -> j ∈ bs_set new).
Proof.
  intros W Hnb. pose proof (wf_size _ W). eapply wp_mono; [by apply bit_pick_cnt_spec|]. intros r.
  rewrite (size_count (bs_set b) (bs_mem b) 0 (bs_bits b)) by (intros i; set_unfold; done).
  if_case; [done|]. intros (new & -> & Wn & Hbits & Hm). exists new. split_and!; [done..| | |].
  - intros i. set_unfold. intros [Hi Ht]. rewrite Hm, !andb_true_iff in Ht by lia. intuition lia.
  - rewrite (size_count (bs_set new) (fun i => bs_mem b i && (count (bs_mem b) 0 i <? nbits)) 0 (bs_bits b)).
    + apply count_prefix; lia.
    + intros i. set_unfold. rewrite Hbits. split; intros [Hi Ht]; (split; [done|]).
      * rewrite Hm in Ht by lia. by replace (i <? bs_bits b) with true in Ht by lia.
      * rewrite Hm by lia. by replace (i <? bs_bits b) with true by lia.
  - intros i j. set_unfold. intros [Hi Ht] [Hj Hjt] Hlt. split; [lia|].
    rewrite Hm, !andb_true_iff in Ht by lia. rewrite Hm, Hjt by lia. destruct Ht as [_ Ht].
    replace (j <? bs_bits b) with true by lia. simpl.
    rewrite (count_split (bs_mem b) 0 j i) in Ht by lia. pose proof (count_range (bs_mem b) j i). lia.
Qed.

Lemma pick_first_bits_witness :
  bit_pick_cnt (sample 10 37) 2 = Ret (Some (sample 10 5)) /\ wp (bit_pick_cnt (sample 10 37) 4) (eq None).
Proof.
  split; [by vm_compute|]. eapply wp_mono; [apply (pick_first_bits (sample 10 37) 4); [apply sample_wf|]; lia|].
  intros r. by vm_compute.
Defined.

(** ** Text formats *)

(** The bits of [c] after reading a text that stands for [b]. *)
Definition reads_back (b c c' : bitstr) : Prop :=
  bs_wf c' /\ bs_bits c' = bs_bits b /\ bs_set c' = bs_set b.

Lemma reads_back_upd b c c' :
  bs_bits c = bs_bits b -> 
  bs_upd c c' (fun i => if i <? bs_bits c then bs_mem b i else bs_mem c i) -> reads_back b c c'.
Proof.
  intros Hn Hu. pose proof (upd_bits _ _ _ Hu). split_and!; [apply Hu|congruence|].
  apply set_eq. intros i. set_unfold. split; intros [Hi Hm]; (split; [lia|]).
  - rewrite (upd_mem _ _ _ Hu) in Hm by lia. by replace (i <? bs_bits c) with true in Hm by lia.
  - rewrite (upd_mem _ _ _ Hu) by lia. by replace (i <? bs_bits c) with true by lia.
Qed.

(** reading the range list ["0-5,42"] printed for a bitmap that has a set
    bit gives the bitmap back, whatever the target held before; so does
    printing into a buffer that is long enough. *)
Theorem range_list_roundtrip (b c : bitstr) :
  bs_wf b -> bs_wf c -> bs_bits c = bs_bits b -> bs_set b ≠ ∅ ->
  wp (bit_fmt_full b) (fun str => exists s, str = Some s /\
    wp (bit_unfmt c str) (fun '(c', rc) => rc = 0 /\ reads_back b c c') /\
    forall len, (length s + 1 < len)%nat -> bit_fmt len b = Ret s).
Proof.
  intros W1 W2 Hn Hne. eapply wp_mono; [by apply bit_fmt_full_spec|]. intros str (L & HL & ->).
  assert (HLne : L <> []).
  { intros HL0. apply Hne. pose proof (proj1 (ranges_of_nil b L HL) HL0) as Hz. apply set_eq. intros i.
    set_unfold. split; [|done]. intros [Hi Hm]. rewrite Hz in Hm; done. }
  exists (ranges_text L). split; [by destruct L|]. split.
  - replace (match L with [] => None | _ => Some (ranges_text L) end) with (Some (ranges_text L))
      by (by destruct L).
    eapply wp_mono; [by apply (ranges_roundtrip b c L)|]. intros [c' rc] [-> Hu]. split; [done|].
    by apply (reads_back_upd b c).
  - intros len Hlen. destruct (bit_fmt_enough b len W1) as (L' & HL' & Hfmt).
    by rewrite (ranges_of_unique b L L' HL HL') in *; apply Hfmt.
Qed.

Lemma range_list_roundtrip_witness :
  bit_fmt_full (sample 10 0x1DC) = Ret (Some [50; 45; 52; 44; 54; 45; 56]) /\
  wp (bit_fmt_full (sample 10 0x1DC)) (fun str =>
    wp (bit_unfmt (sample 10 1) str) (fun '(c', _) => bs_set c' = bs_set (sample 10 0x1DC))).
Proof.
  split; [by vm_compute|].
  eapply wp_mono; [apply (range_list_roundtrip (sample 10 0x1DC) (sample 10 1))|].
  - apply sample_wf; lia.
  - apply sample_wf; lia.
  - done.
  - intros Hs. assert (2 ∈ bs_set (sample 10 0x1DC)) as H2 by (set_unfold; done). by rewrite Hs in H2.
  - intros str (s & _ & Hr & _). eapply wp_mono; [exact Hr|]. intros [c' rc] (_ & _ & _ & Hc). done.
Defined.

(** hexadecimal and binary masks read back to the bitmap they were
    printed from, and so do arrays of range bounds. *)
Theorem masks_roundtrip (b c : bitstr) :
  bs_wf b -> bs_wf c -> bs_bits c = bs_bits b -> 0 < bs_bits b ->
  wp (s ← bit_fmt_hexmask b; bit_unfmt_hexmask c s) (fun '(c', rc) => rc = 0 /\ reads_back b c c') /\
  wp (s ← bit_fmt_binmask b; bit_unfmt_binmask c s) (reads_back b c) /\
  wp (inx ← bitstr2inx (Some b); inx2bitstr c inx) (fun '(c', rc) => rc = 0 /\ reads_back b c c').
Proof.
  intros W1 W2 Hn Hpos. split_and!; wp_step.
  - destruct (bit_fmt_hexmask b) as [s| |] eqn:Hs; try by rewrite bit_fmt_hexmask_spec in Hs.
    simpl. eapply wp_mono; [by eapply (hexmask_roundtrip b c)|]. intros [c' rc] [-> Hu]. split; [done|].
    by apply (reads_back_upd b c).
  - destruct (bit_fmt_binmask b) as [s| |] eqn:Hs; try by rewrite bit_fmt_binmask_spec in Hs.
    simpl. eapply wp_mono; [by eapply (binmask_roundtrip b c)|]. intros c' Hu. by apply (reads_back_upd b c).
  - eapply wp_mono; [by apply bitstr2inx_spec|]. intros inx (L & HL & -> & _).
    eapply wp_mono; [apply inx2bitstr_spec; [done|lia|]|].
    { intros s e Hin. rewrite Hn. destruct (ranges_of_valid b L s e W1 HL Hin). lia. }
    intros [c' rc] [-> Hu]. split; [done|]. apply (reads_back_upd b c); [done|].
    eapply upd_ext; [exact Hu|]. intros i Hi; cbn beta. if_case; [|done]. symmetry. apply HL. lia.
Qed.

Lemma masks_roundtrip_witness :
  bit_fmt_hexmask (sample 10 0x1DC) = Ret [48; 120; 49; 68; 67] /\
  wp (s ← bit_fmt_hexmask (sample 10 0x1DC); bit_unfmt_hexmask (sample 10 3) s)
     (fun '(c', rc) => rc = 0 /\ reads_back (sample 10 0x1DC) (sample 10 3) c').
Proof.
  split; [by vm_compute|].
  apply (masks_roundtrip (sample 10 0x1DC) (sample 10 3)); [apply sample_wf; lia|apply sample_wf; lia|done|done].
Defined.

(** The documented step format ["1-17:4"] does not yield its last index. *)
Lemma step_format_drops_last :
  bitfmt2int (Some [49; 45; 49; 55; 58; 52]) = Ret (Some [1; 1; 5; 5; 9; 9; 13; 13; -1]).
Proof. by vm_compute. Qed.

(** Reading the text of an empty bitmap leaves the target as it was. *)
Lemma empty_text_keeps_target :
  bit_fmt_full (sample 10 0) = Ret None /\ bit_unfmt (sample 10 37) None = Ret (sample 10 37, 0).
Proof. by vm_compute. Qed.

(** A buffer of one byte leaves no comma to remove. *)
Lemma bit_fmt_one_byte_buffer : bit_fmt 1 (sample 10 37) = Fault.
Proof. by vm_compute. Qed.
