(* ===== verification/Pack.v ===== *)
(** * Message buffers: src/common/pack.c and src/common/pack.h

    A buffer is a record of its magic word, its memory, the allocated size and
    the offset reached so far.  Packing appends the network-order bytes of a
    value at the offset, growing the memory when needed; unpacking reads from
    the offset and fails when too few bytes are left.  Floating-point values
    are not modelled. *)

From S2P Require Import Prelude Bitstring BitstringFmt.

Local Open Scope Z_scope.
Local Open Scope slurm_scope.

Definition BUF_MAGIC : Z := 0x42554545.
Definition BUF_SIZE : Z := 16 * 1024.
Definition MAX_BUF_SIZE : Z := 0xffff0000.
Definition MAX_PACK_ARRAY_LEN : Z := 128 * 1024.
Definition MAX_PACK_MEM_LEN : Z := 1024 * 1024 * 1024.
Definition NO_VAL : Z := 0xfffffffe.

Record slurm_buf : Type := Buf {
  buf_magic : Z;
  buf_head : list Z;
  buf_size : Z;
  buf_processed : Z
}.

Definition create_buf (data : list Z) (size : Z) : option slurm_buf :=
  if MAX_BUF_SIZE <? size then None else Some (Buf BUF_MAGIC data size 0).

Definition init_buf (size : Z) : option slurm_buf :=
  if MAX_BUF_SIZE <? size then None else
  let size := if size <=? 0 then BUF_SIZE else size in
  Some (Buf BUF_MAGIC (replicate (Z.to_nat size) 0) size 0).

Definition free_buf (b : option slurm_buf) : exec unit :=
  match b with
  | None => Ret tt
  | Some b => assert! buf_magic b =? BUF_MAGIC ;; Ret tt
  end.

Definition xfer_buf_data (b : slurm_buf) : exec (list Z) :=
  assert! buf_magic b =? BUF_MAGIC ;; Ret (buf_head b).

Definition get_buf_offset (b : slurm_buf) : Z := buf_processed b.
Definition set_buf_offset (b : slurm_buf) (val : Z) : slurm_buf :=
  Buf (buf_magic b) (buf_head b) (buf_size b) val.
Definition remaining_buf (b : slurm_buf) : Z := u32 (buf_size b - buf_processed b).

(** [buffer->size += extra; xrealloc_nz(buffer->head, buffer->size)]; the new
    bytes are unspecified and always written before they are read. *)
Definition buf_extend (b : slurm_buf) (extra : Z) : slurm_buf :=
  let size := u32 (buf_size b + extra) in
  Buf (buf_magic b) (resize (Z.to_nat size) 0 (buf_head b)) size (buf_processed b).

Definition grow_buf (b : slurm_buf) (size : Z) : slurm_buf :=
  if MAX_BUF_SIZE <? u32 (buf_size b + size) then b else buf_extend b size.

(** The common prologue of the packing functions: make room for [n] bytes by
    adding [extra] bytes; [None] when the size limit is exceeded. *)
Definition make_room (n extra : Z) (b : slurm_buf) : option slurm_buf :=
  if remaining_buf b <? n
  then if MAX_BUF_SIZE <? u32 (buf_size b + extra) then None else Some (buf_extend b extra)
  else Some b.

(** [memcpy(&head[processed], bytes, n); processed += n]. *)
Definition put (bytes : list Z) (b : slurm_buf) : exec slurm_buf :=
  let p := Z.to_nat (buf_processed b) in
  if (0 <=? buf_processed b) && (p + length bytes <=? length (buf_head b))%nat
  then Ret (Buf (buf_magic b)
              (take p (buf_head b) ++ bytes ++ drop (p + length bytes) (buf_head b))
              (buf_size b) (u32 (buf_processed b + Z.of_nat (length bytes))))
  else Fault.

(** Network byte order. *)
Fixpoint be (n : nat) (v : Z) : list Z :=
  match n with
  | O => []
  | S k => (v / 256 ^ Z.of_nat k) `mod` 256 :: be k v
  end.
Definition of_be (bytes : list Z) : Z := foldl (fun a x => a * 256 + x) 0 bytes.

Definition pack_int (n : nat) (val : Z) (b : slurm_buf) : exec slurm_buf :=
  match make_room (Z.of_nat n) BUF_SIZE b with
  | None => Ret b
  | Some b => put (be n val) b
  end.

Definition pack64 : Z -> slurm_buf -> exec slurm_buf := pack_int 8.
Definition pack32 : Z -> slurm_buf -> exec slurm_buf := pack_int 4.
Definition pack16 : Z -> slurm_buf -> exec slurm_buf := pack_int 2.
Definition pack8 : Z -> slurm_buf -> exec slurm_buf := pack_int 1.
Definition pack_time (val : Z) (b : slurm_buf) : exec slurm_buf := pack_int 8 (u64 val) b.

(** ** Unpacking

    An unpacker returns the buffer and the value; [None] is [SLURM_ERROR],
    after which the [safe_unpack] macros jump to [unpack_error]. *)
Definition unpacker (A : Type) : Type := slurm_buf -> exec (slurm_buf * option A).

Definition ubind {A B : Type} (m : unpacker A) (f : A -> unpacker B) : unpacker B := fun b =>
  '(b, r) ← m b;
  match r with Some a => f a b | None => Ret (b, None) end.
Definition uret {A : Type} (a : A) : unpacker A := fun b => Ret (b, Some a).
Definition ufail {A : Type} : unpacker A := fun b => Ret (b, None).
Definition ulift {A : Type} (e : exec A) : unpacker A := fun b => a ← e; Ret (b, Some a).

Notation "x '<-?' m ';;' k" := (ubind m (fun x => k))
  (at level 20, m at level 99, k at level 200, right associativity) : slurm_scope.

(** The bytes at the offset, without a bounds check of the program's own. *)
Definition get (n : Z) : unpacker (list Z) := fun b =>
  let p := Z.to_nat (buf_processed b) in
  if (0 <=? buf_processed b) && (p + Z.to_nat n <=? length (buf_head b))%nat
  then Ret (Buf (buf_magic b) (buf_head b) (buf_size b) (u32 (buf_processed b + n)),
            Some (take (Z.to_nat n) (drop p (buf_head b))))
  else Fault.

(** [if (remaining_buf(buffer) < n) return SLURM_ERROR]. *)
Definition need (n : Z) : unpacker unit := fun b =>
  Ret (b, if remaining_buf b <? n then None else Some tt).

Definition unpack_int (n : nat) : unpacker Z :=
  _ <-? need (Z.of_nat n) ;;
  bytes <-? get (Z.of_nat n) ;;
  uret (of_be bytes).

Definition unpack64 : unpacker Z := unpack_int 8.
Definition unpack32 : unpacker Z := unpack_int 4.
Definition unpack16 : unpacker Z := unpack_int 2.
Definition unpack8 : unpacker Z := unpack_int 1.
Definition s64 (x : Z) : Z := if 2 ^ 63 <=? u64 x then u64 x - 2 ^ 64 else u64 x.
Definition unpack_time : unpacker Z := v <-? unpack_int 8 ;; uret (s64 v).

(** ** Arrays *)
Fixpoint pack_elems (pk : Z -> slurm_buf -> exec slurm_buf) (valp : list Z) (i : Z) (n : nat)
    (b : slurm_buf) : exec slurm_buf :=
  match n with
  | O => Ret b
  | S n => v ← aget valp i; b ← pk v b; pack_elems pk valp (i + 1) n b
  end.
Definition pack_array (pk : Z -> slurm_buf -> exec slurm_buf) (valp : list Z) (size_val : Z)
    (b : slurm_buf) : exec slurm_buf :=
  b ← pack32 size_val b;
  pack_elems pk valp 0 (Z.to_nat size_val) b.
Definition pack16_array := pack_array pack16.
Definition pack32_array := pack_array pack32.
Definition pack64_array := pack_array pack64.
Definition pack64_array_as_32 := pack_array (fun v => pack32 (u32 v)).

Fixpoint unpack_elems {A : Type} (u : unpacker A) (n : nat) : unpacker (list A) :=
  match n with
  | O => uret []
  | S n => v <-? u ;; l <-? unpack_elems u n ;; uret (v :: l)
  end.
Definition unpack_array (u : unpacker Z) : unpacker (list Z) :=
  size_val <-? unpack32 ;; unpack_elems u (Z.to_nat size_val).
Definition unpack16_array : unpacker (list Z) := unpack_array unpack16.
Definition unpack32_array : unpacker (list Z) := unpack_array unpack32.
Definition unpack64_array : unpacker (list Z) := unpack_array unpack64.
Definition unpack64_array_from_32 : unpacker (list Z) := unpack_array unpack32.

(** ** Memory blocks and strings *)

(** [size_val] bytes read from memory at [valp]. *)
Definition read_mem (valp : list Z) (size_val : Z) : exec (list Z) :=
  if size_val <=? Z.of_nat (length valp) then Ret (take (Z.to_nat size_val) valp) else Fault.

Definition packmem (valp : list Z) (size_val : Z) (b : slurm_buf) : exec slurm_buf :=
  if MAX_PACK_MEM_LEN <? size_val then Ret b else
  match make_room (4 + size_val) (size_val + BUF_SIZE) b with
  | None => Ret b
  | Some b =>
      b ← put (be 4 size_val) b;
      if size_val =? 0 then Ret b
      else bytes ← read_mem valp size_val; put bytes b
  end.

(** A C string in memory carries its terminating NUL; [None] is [NULL]. *)
Definition packstr (str : option cstr) (b : slurm_buf) : exec slurm_buf :=
  match str with
  | None => packmem [] 0 b
  | Some s =>
      assert! buf_magic b =? BUF_MAGIC ;;
      packmem (s ++ [0]) (u32 (Z.of_nat (length s) + 1)) b
  end.
Definition packnull (b : slurm_buf) : exec slurm_buf :=
  assert! buf_magic b =? BUF_MAGIC ;;
  packmem [] 0 b.

(** The size word and its check. *)
Definition unpack_size (limit : Z) : unpacker Z :=
  size_val <-? unpack32 ;;
  if limit <? size_val then ufail else uret size_val.

(** The value pointer is [NULL] when the size is zero. *)
Definition unpackmem_ptr : unpacker (option (list Z)) :=
  size_val <-? unpack_size MAX_PACK_MEM_LEN ;;
  if 0 <? size_val
  then _ <-? need size_val ;; bytes <-? get size_val ;; uret (Some bytes)
  else uret None.
Definition unpackmem_xmalloc : unpacker (option (list Z)) := unpackmem_ptr.
Definition unpackmem_malloc : unpacker (option (list Z)) := unpackmem_ptr.

(** [memcpy] into the caller's memory of [length mem] bytes. *)
Definition write_mem (mem bytes : list Z) : exec (list Z) :=
  if (length bytes <=? length mem)%nat then Ret (bytes ++ drop (length bytes) mem) else Fault.
Definition unpackmem (mem : list Z) : unpacker (list Z * Z) :=
  size_val <-? unpack_size MAX_PACK_MEM_LEN ;;
  if 0 <? size_val
  then _ <-? need size_val ;;
       bytes <-? get size_val ;;
       mem <-? ulift (write_mem mem bytes) ;;
       uret (mem, size_val)
  else mem <-? ulift (write_mem mem [0]) ;; uret (mem, size_val).

(** The copy loop of [unpackstr_xmalloc_escaped]: [copy] is what was written to
    a block of [cap] bytes; the size grows with every escape. *)
Definition BACKSLASH : Z := 92.
Definition QUOTE : Z := 39.
Definition put_char (cap : Z) (copy : list Z) (c : Z) : exec (list Z) :=
  if Z.of_nat (length copy) <? cap then Ret (copy ++ [c]) else Fault.
Fixpoint escape_loop (cap : Z) (str : list Z) (copy : list Z) (size_val : Z) : exec (list Z * Z) :=
  match str with
  | [] => Ret (copy, size_val)
  | tmp :: rest =>
      if tmp =? 0 then Ret (copy, size_val) else
      if (tmp =? BACKSLASH) || (tmp =? QUOTE)
      then copy ← put_char cap copy BACKSLASH;
           copy ← put_char cap copy tmp;
           escape_loop cap rest copy (u32 (size_val + 1))
      else copy ← put_char cap copy tmp;
           escape_loop cap rest copy size_val
  end.
Definition unpackstr_xmalloc_escaped : unpacker (option (list Z) * Z) :=
  cnt <-? unpack_size MAX_PACK_MEM_LEN ;;
  if 0 <? cnt
  then _ <-? need cnt ;;
       str <-? get cnt ;;
       res <-? ulift (let cap := u32 (u32 (cnt * 2) + 1) in
                      '(copy, size_val) ← escape_loop cap str [] cnt;
                      copy ← put_char cap copy 0;
                      Ret (copy, size_val)) ;;
       uret (Some res.1, res.2)
  else uret (None, 0).

(** [slurmdbd_conf] is set in the database daemon only. *)
Definition unpackstr_xmalloc_chooser (slurmdbd_conf : bool) : unpacker (option (list Z)) :=
  if slurmdbd_conf then r <-? unpackstr_xmalloc_escaped ;; uret r.1 else unpackmem_xmalloc.

Fixpoint packstr_elems (valp : list (option cstr)) (i : Z) (n : nat) (b : slurm_buf) : exec slurm_buf :=
  match n with
  | O => Ret b
  | S n => s ← aget valp i; b ← packstr s b; packstr_elems valp (i + 1) n b
  end.
Definition packstr_array (valp : list (option cstr)) (size_val : Z) (b : slurm_buf) : exec slurm_buf :=
  match make_room 4 BUF_SIZE b with
  | None => Ret b
  | Some b => b ← put (be 4 size_val) b; packstr_elems valp 0 (Z.to_nat size_val) b
  end.
Definition unpackstr_array : unpacker (list (option (list Z))) :=
  size_val <-? unpack_size MAX_PACK_ARRAY_LEN ;;
  unpack_elems unpackmem_xmalloc (Z.to_nat size_val).

Definition packmem_array (valp : list Z) (size_val : Z) (b : slurm_buf) : exec slurm_buf :=
  match make_room size_val (size_val + BUF_SIZE) b with
  | None => Ret b
  | Some b => bytes ← read_mem valp size_val; put bytes b
  end.
Definition unpackmem_array (mem : list Z) (size_val : Z) : slurm_buf -> exec (slurm_buf * list Z * bool) :=
  fun b =>
    if size_val <=? remaining_buf b
    then '(b, r) ← get size_val b;
         mem ← write_mem mem (default [] r);
         Ret (b, mem, true)
    else mem ← write_mem mem [0]; Ret (b, mem, false).

(** ** Bitmaps *)
Definition pack_bit_str_hex (bitmap : option bitstr) (b : slurm_buf) : exec slurm_buf :=
  assert! buf_magic b =? BUF_MAGIC ;;
  match bitmap with
  | Some bm =>
      str ← bit_fmt_hexmask bm;
      size ← bit_size bm;
      b ← pack32 (u32 size) b;
      packmem (str ++ [0]) (u32 (Z.of_nat (length str) + 1)) b
  | None => pack32 NO_VAL b
  end.

(** The characters before the first NUL. *)
Fixpoint c_prefix (mem : list Z) : cstr :=
  match mem with [] => [] | c :: rest => if c =? 0 then [] else c :: c_prefix rest end.

(** Memory read as a C string: the bytes before the first NUL; reading through
    a [NULL] pointer or past the end of the block faults. *)
Fixpoint c_string (mem : list Z) : exec cstr :=
  match mem with
  | [] => Fault
  | c :: rest => if c =? 0 then Ret [] else s ← c_string rest; Ret (c :: s)
  end.
Definition c_string_ptr (mem : option (list Z)) : exec cstr :=
  match mem with None => Fault | Some m => c_string m end.

Definition unpack_bit_str_hex (slurmdbd_conf : bool) : unpacker (option bitstr) :=
  size <-? unpack32 ;;
  if size =? NO_VAL then uret None else
  mem <-? unpackstr_xmalloc_chooser slurmdbd_conf ;;
  bitmap <-? ulift (bit_alloc size) ;;
  res <-? ulift (str ← c_string_ptr mem; bit_unfmt_hexmask bitmap str) ;;
  uret (Some res.1).
