(* ===== verification/PackFacts.v ===== *)
(** * Message buffers: lemmas

    [written b] is what a buffer holds up to its offset and [unread b] what
    follows it.  [writes p l] says that the packing function [p] appends the
    bytes [l], [reads u l a] that the unpacker [u] consumes [l] and yields [a],
    and [safe u P] that [u] returns on every buffer, whatever its contents. *)

From S2P Require Import Prelude Bitstring BitstringFacts BitstringFmt Pack.

Local Open Scope Z_scope.
Local Open Scope slurm_scope.

Definition is_byte (x : Z) : Prop := 0 <= x < 256.

Record buf_wf (b : slurm_buf) : Prop := {
  bufwf_magic : buf_magic b = BUF_MAGIC;
  bufwf_processed : 0 <= buf_processed b <= buf_size b;
  bufwf_size : buf_size b <= MAX_BUF_SIZE;
  bufwf_head : Z.of_nat (length (buf_head b)) = buf_size b;
  bufwf_bytes : Forall is_byte (buf_head b)
}.

Definition written (b : slurm_buf) : list Z := take (Z.to_nat (buf_processed b)) (buf_head b).
Definition unread (b : slurm_buf) : list Z := drop (Z.to_nat (buf_processed b)) (buf_head b).

(** [n] more bytes fit below the size limit, growth included. *)
Definition fits (b : slurm_buf) (n : Z) : Prop :=
  buf_processed b + 2 * n + BUF_SIZE <= MAX_BUF_SIZE.

Definition writes (p : slurm_buf -> exec slurm_buf) (l : list Z) : Prop :=
  forall b, buf_wf b -> fits b (Z.of_nat (length l)) ->
    wp (p b) (fun b' => buf_wf b' /\ written b' = written b ++ l).
Definition reads {A : Type} (u : unpacker A) (l : list Z) (a : A) : Prop :=
  forall b tl, buf_wf b -> unread b = l ++ tl ->
    wp (u b) (fun '(b', r) => r = Some a /\ buf_wf b' /\ unread b' = tl /\
      buf_head b' = buf_head b).
Definition safe {A : Type} (u : unpacker A) (P : A -> Prop) : Prop :=
  forall b, buf_wf b ->
    wp (u b) (fun '(b', r) => buf_wf b' /\ match r with Some a => P a | None => True end).

(** ** Byte order *)
Lemma be_length n v : length (be n v) = n.
Proof. induction n; simpl; congruence. Qed.

Lemma be_bytes n v : Forall is_byte (be n v).
Proof. induction n; simpl; constructor; [unfold is_byte; apply Z.mod_pos_bound; lia|done]. Qed.

Lemma of_be_app l l' :
  of_be (l ++ l') = of_be l * 256 ^ Z.of_nat (length l') + of_be l'.
Proof.
  unfold of_be. rewrite foldl_app. generalize (foldl (fun a x => a * 256 + x) 0 l). intros a.
  assert (Hg : forall l' a, foldl (fun a x => a * 256 + x) a l' =
    a * 256 ^ Z.of_nat (length l') + foldl (fun a x => a * 256 + x) 0 l').
  { clear. induction l' as [|y l' IH]; intros a; cbn [foldl length]; [simpl; lia|].
    rewrite IH, (IH (0 * 256 + y)), Nat2Z.inj_succ, Z.pow_succ_r by lia. lia. }
  apply Hg.
Qed.

Lemma of_be_be n v : 0 <= v < 256 ^ Z.of_nat n -> of_be (be n v) = v.
Proof.
  intros Hv. assert (Hg : of_be (be n v) = v `mod` 256 ^ Z.of_nat n).
  2: { rewrite Hg. by apply Z.mod_small. }
  clear Hv. induction n as [|n IH]; [by rewrite Z.mod_1_r|].
  cbn [be]. change (?x :: ?l) with ([x] ++ l). rewrite of_be_app, be_length, IH.
  rewrite Nat2Z.inj_succ, Z.pow_succ_r by lia. unfold of_be; cbn [foldl].
  rewrite (Z.mul_comm 256), Z.rem_mul_r by lia. lia.
Qed.

Lemma of_be_range l : Forall is_byte l -> 0 <= of_be l < 256 ^ Z.of_nat (length l).
Proof.
  induction l as [|x l IH] using rev_ind; intros HF; [done|].
  apply Forall_app in HF as [HF Hx]. apply Forall_cons in Hx as [Hx _]. specialize (IH HF).
  rewrite of_be_app, length_app. unfold is_byte in Hx. cbn [length].
  replace (Z.of_nat (length l + 1)) with (Z.succ (Z.of_nat (length l))) by lia.
  rewrite Z.pow_succ_r by lia. change (256 ^ Z.of_nat 1) with 256. change (of_be [x]) with (0 * 256 + x). lia.
Qed.

(** ** Buffers *)
Lemma u32_small x : 0 <= x < 2 ^ 32 -> u32 x = x.
Proof. intros Hx. by apply Z.mod_small. Qed.

Lemma remaining_wf b : buf_wf b -> remaining_buf b = buf_size b - buf_processed b.
Proof.
  intros Hwf. destruct Hwf. unfold remaining_buf. apply u32_small. unfold MAX_BUF_SIZE in *. lia.
Qed.

Lemma length_written b : buf_wf b -> Z.of_nat (length (written b)) = buf_processed b.
Proof. intros Hwf. destruct Hwf. unfold written. rewrite length_take. lia. Qed.

Lemma length_unread b : buf_wf b -> Z.of_nat (length (unread b)) = buf_size b - buf_processed b.
Proof. intros Hwf. destruct Hwf. unfold unread. rewrite length_drop. lia. Qed.

Lemma put_spec l b :
  buf_wf b -> Forall is_byte l -> buf_processed b + Z.of_nat (length l) <= buf_size b ->
  wp (put l b) (fun b' => buf_wf b' /\ written b' = written b ++ l /\ buf_size b' = buf_size b).
Proof.
  intros Hwf Hl Hfit. pose proof Hwf as [Hm Hp Hs Hh Hb]. unfold put.
  if_true. wp_step.
  assert (Hu : u32 (buf_processed b + Z.of_nat (length l)) = buf_processed b + Z.of_nat (length l))
    by (apply u32_small; unfold MAX_BUF_SIZE in *; lia).
  split_and!; [constructor|..]; cbn [buf_magic buf_head buf_size buf_processed written]; rewrite ?Hu.
  - done.
  - lia.
  - done.
  - rewrite !length_app, length_take, length_drop. lia.
  - rewrite !Forall_app. split_and!; [by apply Forall_take|done|by apply Forall_drop].
  - unfold written; cbn [buf_head buf_processed]. rewrite app_assoc, take_app_length'; [done|].
    rewrite length_app, length_take. lia.
  - done.
Qed.

Lemma extend_wf b extra :
  buf_wf b -> 0 <= extra -> buf_size b + extra <= MAX_BUF_SIZE ->
  buf_wf (buf_extend b extra) /\ written (buf_extend b extra) = written b /\
  buf_size (buf_extend b extra) = buf_size b + extra.
Proof.
  intros Hwf He Hfit. pose proof Hwf as [Hm Hp Hs Hh Hb]. unfold buf_extend.
  rewrite u32_small by (unfold MAX_BUF_SIZE in *; lia).
  split_and!; [constructor|..]; cbn [buf_magic buf_head buf_size buf_processed]; try lia.
  - rewrite length_resize. lia.
  - apply Forall_resize; [unfold is_byte; lia|done].
  - unfold written; cbn [buf_head buf_processed]. rewrite take_resize_le by lia.
    by rewrite resize_le by lia.
Qed.

Lemma make_room_spec n extra b :
  buf_wf b -> 0 <= n <= extra -> buf_processed b + n + extra <= MAX_BUF_SIZE ->
  exists b', make_room n extra b = Some b' /\ buf_wf b' /\ written b' = written b /\
    buf_processed b' = buf_processed b /\ buf_processed b' + n <= buf_size b'.
Proof.
  intros Hwf Hn Hfit. pose proof Hwf as [Hm Hp Hs Hh Hb]. unfold make_room. rewrite remaining_wf by done.
  if_case; [|exists b; split_and!; done || lia].
  destruct (extend_wf b extra Hwf) as (Hwf' & Hw' & Hsz'); [lia|lia|].
  rewrite u32_small by (unfold MAX_BUF_SIZE in *; lia). if_false.
  exists (buf_extend b extra). split_and!; [done..|]. rewrite Hsz'. cbn [buf_extend buf_processed]. lia.
Qed.

(** ** Composition *)
Lemma writes_seq p q l l' :
  writes p l -> writes q l' -> writes (fun b => b ← p b; q b) (l ++ l').
Proof.
  intros Hp Hq b Hwf Hf. unfold fits in Hf. rewrite length_app in Hf.
  wp_step. eapply wp_mono; [apply Hp; [done|unfold fits; lia]|]. intros b1 [W1 E1].
  assert (buf_processed b1 = buf_processed b + Z.of_nat (length l))
    by (rewrite <-!length_written by done; rewrite E1, length_app; lia).
  eapply wp_mono; [apply Hq; [done|unfold fits; lia]|]. intros b2 [W2 E2].
  split; [done|]. by rewrite E2, E1, app_assoc.
Qed.

Lemma writes_nil : writes Ret [].
Proof. intros b Hwf _. by rewrite app_nil_r. Qed.

Lemma reads_ret {A} (a : A) : reads (uret a) [] a.
Proof. intros b tl Hwf Hu. done. Qed.

Lemma reads_bind {A B} (m : unpacker A) (f : A -> unpacker B) l l' a c :
  reads m l a -> reads (f a) l' c -> reads (ubind m f) (l ++ l') c.
Proof.
  intros Hm Hf b tl Hwf Hu. unfold ubind. wp_step. rewrite <-app_assoc in Hu.
  eapply wp_mono; [by apply (Hm b (l' ++ tl))|]. intros [b1 r] (-> & W1 & U1 & H1).
  eapply wp_mono; [by apply (Hf b1 tl)|]. intros [b2 r2] (-> & W2 & U2 & H2). by rewrite H2, H1.
Qed.

Lemma reads_bind_nil {A B} (m : unpacker A) (f : A -> unpacker B) l a c :
  reads m l a -> reads (f a) [] c -> reads (ubind m f) l c.
Proof. intros Hm Hf. rewrite <-(app_nil_r l). by eapply reads_bind. Qed.

Lemma safe_ret {A} (a : A) (P : A -> Prop) : P a -> safe (uret a) P.
Proof. intros HP b Hwf. by split. Qed.

Lemma safe_fail {A} (P : A -> Prop) : safe ufail P.
Proof. intros b Hwf. by split. Qed.

Lemma safe_bind {A B} (m : unpacker A) (f : A -> unpacker B) P Q :
  safe m P -> (forall a, P a -> safe (f a) Q) -> safe (ubind m f) Q.
Proof.
  intros Hm Hf b Hwf. unfold ubind. wp_step. eapply wp_mono; [by apply Hm|].
  intros [b1 [a|]] [W1 HP]; [by apply Hf|done].
Qed.

Lemma safe_mono {A} (u : unpacker A) (P Q : A -> Prop) :
  safe u P -> (forall a, P a -> Q a) -> safe u Q.
Proof.
  intros Hu HPQ b Hwf. eapply wp_mono; [by apply Hu|]. intros [b' [a|]] [? ?]; split; auto.
Qed.

Lemma reads_lift {A} (e : exec A) a : e = Ret a -> reads (ulift e) [] a.
Proof. intros -> b tl Hwf Hu. done. Qed.

Lemma safe_lift {A} (e : exec A) (P : A -> Prop) : wp e P -> safe (ulift e) P.
Proof. intros He b Hwf. unfold ulift. wp_step. eapply wp_mono; [exact He|]. by split. Qed.

(** ** Reading bytes *)
Lemma get_spec n b :
  buf_wf b -> 0 <= n <= buf_size b - buf_processed b ->
  wp (get n b) (fun '(b', r) => r = Some (take (Z.to_nat n) (unread b)) /\ buf_wf b' /\
    unread b' = drop (Z.to_nat n) (unread b) /\ buf_head b' = buf_head b).
Proof.
  intros Hwf Hn. pose proof Hwf as [Hm Hp Hs Hh Hb]. unfold get. if_true.
  wp_step. assert (Hu : u32 (buf_processed b + n) = buf_processed b + n)
    by (apply u32_small; unfold MAX_BUF_SIZE in *; lia).
  split_and!; [done|constructor|..]; cbn [buf_magic buf_head buf_size buf_processed]; rewrite ?Hu; try done; try lia.
  unfold unread; cbn [buf_head buf_processed]. rewrite drop_drop. f_equal. lia.
Qed.

Lemma reads_get l : reads (get (Z.of_nat (length l))) l l.
Proof.
  intros b tl Hwf Hu. pose proof (length_unread b Hwf) as Hl. rewrite Hu, length_app in Hl.
  eapply wp_mono; [apply get_spec; [done|lia]|]. intros [b' r] (-> & W & U & H).
  rewrite Hu, Nat2Z.id, take_app_length in *. rewrite drop_app_length in U. done.
Qed.

Lemma need_reads {A} (n : Z) (u : unpacker A) l a :
  n <= Z.of_nat (length l) -> reads u l a -> reads (_ <-? need n ;; u) l a.
Proof.
  intros Hn Hr b tl Hwf Hu. unfold ubind, need. cbn [mbind exec_bind].
  pose proof (length_unread b Hwf) as Hl. rewrite Hu, length_app in Hl.
  rewrite remaining_wf by done. if_false. by apply Hr.
Qed.

Lemma need_get_safe {A} (n : Z) (f : list Z -> unpacker A) P :
  0 <= n -> (forall l, Z.of_nat (length l) = n -> Forall is_byte l -> safe (f l) P) ->
  safe (_ <-? need n ;; l <-? get n ;; f l) P.
Proof.
  intros Hn Hf b Hwf. unfold ubind, need. cbn [mbind exec_bind]. rewrite remaining_wf by done.
  destruct (Z.ltb_spec (buf_size b - buf_processed b) n); [by cbn|]. wp_step. eapply wp_mono; [apply get_spec; [done|lia]|].
  intros [b1 r] (-> & W1 & U1 & _). apply Hf; [| |done].
  - rewrite length_take. pose proof (length_unread b Hwf). lia.
  - apply Forall_take, Forall_drop, Hwf.
Qed.

(** ** Integers *)
Lemma pack_int_writes n v : (n <= 8)%nat -> writes (pack_int n v) (be n v).
Proof.
  intros Hn b Hwf Hf. unfold fits in Hf. rewrite be_length in Hf. unfold pack_int.
  destruct (make_room_spec (Z.of_nat n) BUF_SIZE b Hwf) as (b1 & -> & W1 & E1 & P1 & R1);
    [unfold BUF_SIZE; lia|lia|].
  eapply wp_mono; [apply put_spec; [done|apply be_bytes|rewrite be_length; lia]|].
  intros b2 (W2 & E2 & _). split; [done|]. by rewrite E2, E1.
Qed.

Lemma unpack_int_reads n v : 0 <= v < 256 ^ Z.of_nat n -> reads (unpack_int n) (be n v) v.
Proof.
  intros Hv. unfold unpack_int. apply need_reads; [by rewrite be_length|].
  eapply reads_bind_nil.
  - pose proof (reads_get (be n v)) as Hg. rewrite be_length in Hg. exact Hg.
  - rewrite of_be_be by done. apply reads_ret.
Qed.

Lemma unpack_int_safe n : safe (unpack_int n) (fun v => 0 <= v < 256 ^ Z.of_nat n).
Proof.
  apply need_get_safe; [lia|]. intros l Hl Hb. apply safe_ret. rewrite <-Hl. by apply of_be_range.
Qed.

Lemma pow256 n : 256 ^ Z.of_nat n = 2 ^ (8 * Z.of_nat n).
Proof. rewrite Z.pow_mul_r by lia. done. Qed.

(** ** Arrays *)
Lemma pack_elems_writes pk (enc : Z -> list Z) valp : forall l pre,
  (forall v, v ∈ l -> writes (pk v) (enc v)) -> valp = pre ++ l ->
  writes (pack_elems pk valp (Z.of_nat (length pre)) (length l)) (flat_map enc l).
Proof.
  induction l as [|v l IH]; intros pre Hpk Hvalp; cbn [pack_elems flat_map length]; [apply writes_nil|].
  rewrite (aget_lookup _ _ v); [|lia|rewrite Hvalp, Nat2Z.id; by apply list_lookup_middle].
  cbn [mbind exec_bind]. apply writes_seq; [apply Hpk; left|].
  replace (Z.of_nat (length pre) + 1) with (Z.of_nat (length (pre ++ [v]))) by (rewrite length_app; simpl; lia).
  apply IH; [intros v' Hv'; apply Hpk; by right|by rewrite Hvalp, <-app_assoc].
Qed.

Lemma pack_array_writes pk enc l :
  (forall v, v ∈ l -> writes (pk v) (enc v)) ->
  writes (pack_array pk l (Z.of_nat (length l))) (be 4 (Z.of_nat (length l)) ++ flat_map enc l).
Proof.
  intros Hpk. unfold pack_array. rewrite Nat2Z.id. apply writes_seq; [apply pack_int_writes; lia|].
  by apply (pack_elems_writes pk enc l l []).
Qed.

Lemma unpack_elems_reads {A} (u : unpacker A) (enc : A -> list Z) l :
  (forall a, a ∈ l -> reads u (enc a) a) -> reads (unpack_elems u (length l)) (flat_map enc l) l.
Proof.
  induction l as [|a l IH]; intros Hu; cbn [unpack_elems flat_map length]; [apply reads_ret|].
  eapply reads_bind; [apply Hu; left|]. eapply reads_bind_nil; [apply IH; intros a' Ha'; apply Hu; by right|].
  apply reads_ret.
Qed.

Lemma unpack_elems_safe {A} (u : unpacker A) P n :
  safe u P -> safe (unpack_elems u n) (fun l => length l = n /\ Forall P l).
Proof.
  intros Hu. induction n as [|n IH]; cbn [unpack_elems]; [by apply safe_ret|].
  eapply safe_bind; [exact Hu|]. intros a Ha. eapply safe_bind; [exact IH|]. intros l [Hl HF].
  apply safe_ret. split; [simpl; lia|by constructor].
Qed.

Lemma unpack_array_reads u enc l :
  (forall a, a ∈ l -> reads u (enc a) a) -> Z.of_nat (length l) < 2 ^ 32 ->
  reads (unpack_array u) (be 4 (Z.of_nat (length l)) ++ flat_map enc l) l.
Proof.
  intros Hu Hl. unfold unpack_array. eapply reads_bind.
  - apply unpack_int_reads. rewrite pow256. simpl. lia.
  - cbv beta. rewrite Nat2Z.id. by apply unpack_elems_reads.
Qed.

Lemma unpack_array_safe u P : safe u P -> safe (unpack_array u) (fun l => Forall P l).
Proof.
  intros Hu. eapply safe_bind; [apply unpack_int_safe|]. intros n _.
  eapply safe_mono; [by apply unpack_elems_safe|]. by intros l [_ ?].
Qed.

(** ** Memory blocks *)
Definition enc_mem (m : option (list Z)) : list Z :=
  match m with
  | None => be 4 0
  | Some l => be 4 (Z.of_nat (length l)) ++ l
  end.

(** What a block can hold: a nonempty list of bytes below the limit. *)
Definition mem_valid (m : option (list Z)) : Prop :=
  match m with
  | None => True
  | Some l => l <> [] /\ Forall is_byte l /\ Z.of_nat (length l) <= MAX_PACK_MEM_LEN
  end.

Lemma packmem_writes l :
  Forall is_byte l -> Z.of_nat (length l) <= MAX_PACK_MEM_LEN ->
  writes (packmem l (Z.of_nat (length l))) (be 4 (Z.of_nat (length l)) ++ l).
Proof.
  intros Hb Hmax b Hwf Hf. unfold fits in Hf. rewrite length_app, be_length in Hf. unfold packmem.
  if_false.
  destruct (make_room_spec (4 + Z.of_nat (length l)) (Z.of_nat (length l) + BUF_SIZE) b Hwf)
    as (b1 & -> & W1 & E1 & P1 & R1); [unfold BUF_SIZE in *; lia|lia|].
  wp_step. eapply wp_mono; [apply put_spec; [done|apply be_bytes|rewrite be_length; lia]|].
  intros b2 (W2 & E2 & S2). destruct l as [|x l'] eqn:El.
  - simpl in *. split; [done|]. by rewrite E2, E1.
  - rewrite <-El in *. assert (0 < Z.of_nat (length l)) by (rewrite El; simpl; lia).
    if_false. unfold read_mem. if_true.
    rewrite Nat2Z.id, take_ge by lia. cbn [mbind exec_bind].
    assert (buf_processed b2 = buf_processed b1 + 4)
      by (rewrite <-!length_written by done; rewrite E2, length_app, be_length; lia).
    eapply wp_mono; [apply put_spec; [done|done|lia]|]. intros b3 (W3 & E3 & _). split; [done|].
    by rewrite E3, E2, E1, <-app_assoc.
Qed.

Lemma packmem_null_writes : writes (packmem [] 0) (be 4 0).
Proof. apply (packmem_writes []); [done|unfold MAX_PACK_MEM_LEN; simpl; lia]. Qed.

(** A C string is packed with its NUL. *)
Definition str_mem (s : option cstr) : option (list Z) := (fun s => s ++ [0]) <$> s.
Definition str_valid (s : option cstr) : Prop :=
  match s with
  | None => True
  | Some s => Forall (fun c => 0 < c < 256) s /\ Z.of_nat (length s) < MAX_PACK_MEM_LEN
  end.

Lemma str_mem_valid s : str_valid s -> mem_valid (str_mem s).
Proof.
  destruct s as [s|]; simpl; [|done]. intros [Hc Hl]. split_and!.
  - by destruct s.
  - apply Forall_app. split; [|by repeat constructor]. eapply Forall_impl; [exact Hc|]. unfold is_byte. simpl. lia.
  - rewrite length_app. simpl. lia.
Qed.

Lemma packstr_writes s : str_valid s -> writes (packstr s) (enc_mem (str_mem s)).
Proof.
  intros Hv. destruct s as [s|]; [|apply packmem_null_writes].
  destruct (str_mem_valid _ Hv) as (_ & Hb & Hl). intros b Hwf Hf. cbn [packstr str_mem fmap option_fmap option_map] in *.
  destruct Hv as [_ Hv].
  wp_step; [rewrite (bufwf_magic _ Hwf); done|]. rewrite u32_small by (unfold MAX_PACK_MEM_LEN in *; lia).
  replace (Z.of_nat (length s) + 1) with (Z.of_nat (length (s ++ [0]))) by (rewrite length_app; simpl; lia).
  by apply packmem_writes.
Qed.

Lemma unpack_size_reads limit n :
  0 <= n <= limit -> n < 2 ^ 32 -> reads (unpack_size limit) (be 4 n) n.
Proof.
  intros Hn Hl. eapply reads_bind_nil; [apply unpack_int_reads; rewrite pow256; simpl; lia|].
  cbv beta. if_false. apply reads_ret.
Qed.

Lemma unpack_size_safe limit : safe (unpack_size limit) (fun n => 0 <= n <= limit).
Proof.
  eapply safe_bind; [apply unpack_int_safe|]. intros n Hn; cbv beta in Hn |- *.
  destruct (Z.ltb_spec limit n); [apply safe_fail|]. apply safe_ret. cbn in Hn. lia.
Qed.

Lemma unpackmem_ptr_reads m : mem_valid m -> reads unpackmem_ptr (enc_mem m) m.
Proof.
  intros Hv. destruct m as [l|]; unfold unpackmem_ptr; simpl in Hv.
  - destruct Hv as (Hne & Hb & Hl). eapply reads_bind.
    + apply unpack_size_reads; unfold MAX_PACK_MEM_LEN in *; lia.
    + cbv beta. assert (0 < Z.of_nat (length l)) by (destruct l; [done|simpl; lia]). if_true.
      apply need_reads; [lia|]. eapply reads_bind_nil; [apply reads_get|apply reads_ret].
  - eapply reads_bind_nil; [apply (unpack_size_reads _ 0); unfold MAX_PACK_MEM_LEN; done|]. apply reads_ret.
Qed.

Lemma unpackmem_ptr_safe : safe unpackmem_ptr mem_valid.
Proof.
  eapply safe_bind; [apply unpack_size_safe|]. intros n Hn; cbv beta in Hn |- *.
  destruct (Z.ltb_spec 0 n); [|by apply safe_ret].
  apply need_get_safe; [lia|]. intros l Hl Hb. apply safe_ret. split_and!; [|done|lia].
  intros ->. simpl in Hl. lia.
Qed.

Lemma packstr_elems_writes valp : forall l pre,
  Forall str_valid l -> valp = pre ++ l ->
  writes (packstr_elems valp (Z.of_nat (length pre)) (length l)) (flat_map (fun s => enc_mem (str_mem s)) l).
Proof.
  induction l as [|v l IH]; intros pre Hl Hvalp; cbn [packstr_elems flat_map length]; [apply writes_nil|].
  apply Forall_cons in Hl as [Hv Hl].
  rewrite (aget_lookup _ _ v); [|lia|rewrite Hvalp, Nat2Z.id; by apply list_lookup_middle].
  cbn [mbind exec_bind]. apply writes_seq; [by apply packstr_writes|].
  replace (Z.of_nat (length pre) + 1) with (Z.of_nat (length (pre ++ [v]))) by (rewrite length_app; simpl; lia).
  apply IH; [done|by rewrite Hvalp, <-app_assoc].
Qed.

Lemma packstr_array_writes l :
  Forall str_valid l ->
  writes (packstr_array l (Z.of_nat (length l)))
    (be 4 (Z.of_nat (length l)) ++ flat_map (fun s => enc_mem (str_mem s)) l).
Proof.
  intros Hl b Hwf Hf. pose proof Hf as Hf'. unfold fits in Hf'. rewrite length_app, be_length in Hf'.
  pose proof (writes_seq (pack_int 4 (Z.of_nat (length l))) _ _ _ ltac:(apply pack_int_writes; lia)
    (packstr_elems_writes l l [] Hl eq_refl) b Hwf Hf) as Hw.
  unfold packstr_array. rewrite Nat2Z.id. unfold pack_int in Hw. change (Z.of_nat 4) with 4 in Hw.
  destruct (make_room 4 BUF_SIZE b) eqn:Hr; [exact Hw|].
  destruct (make_room_spec 4 BUF_SIZE b Hwf) as (b1 & Hr' & _); [unfold BUF_SIZE; lia|lia|congruence].
Qed.

Lemma unpackstr_array_reads l :
  Forall mem_valid l -> Z.of_nat (length l) <= MAX_PACK_ARRAY_LEN ->
  reads unpackstr_array (be 4 (Z.of_nat (length l)) ++ flat_map enc_mem l) l.
Proof.
  intros Hv Hl. eapply reads_bind; [apply unpack_size_reads; unfold MAX_PACK_ARRAY_LEN in *; lia|].
  cbv beta. rewrite Nat2Z.id. apply unpack_elems_reads. intros m Hm. apply unpackmem_ptr_reads.
  rewrite Forall_forall in Hv. auto.
Qed.

Lemma unpackstr_array_safe : safe unpackstr_array (fun l => Forall mem_valid l).
Proof.
  eapply safe_bind; [apply unpack_size_safe|]. intros n _.
  eapply safe_mono; [apply unpack_elems_safe, unpackmem_ptr_safe|]. by intros l [_ ?].
Qed.

(** ** Escaping *)
Definition special (c : Z) : bool := (c =? BACKSLASH) || (c =? QUOTE).
Definition escape (s : cstr) : cstr := flat_map (fun c => if special c then [BACKSLASH; c] else [c]) s.

Lemma escape_loop_spec cap str : forall copy size_val,
  Z.of_nat (length copy) + 2 * Z.of_nat (length str) <= cap ->
  0 <= size_val -> size_val + Z.of_nat (length str) < 2 ^ 32 ->
  escape_loop cap str copy size_val =
    Ret (copy ++ escape (c_prefix str),
         size_val + Z.of_nat (length (escape (c_prefix str)) - length (c_prefix str))).
Proof.
  induction str as [|c str IH]; intros copy size_val Hcap H0 Hsz; cbn [escape_loop c_prefix].
  - cbn [escape flat_map length]. rewrite app_nil_r. simpl. by rewrite Z.add_0_r.
  - cbn [length] in *. destruct (Z.eqb_spec c 0).
    { cbn [escape flat_map length]. rewrite app_nil_r. simpl. by rewrite Z.add_0_r. }
    unfold escape; cbn [flat_map]; fold (escape (c_prefix str)). fold (special c).
    assert (Hlen : (length (c_prefix str) <= length (escape (c_prefix str)))%nat).
    { clear. unfold escape. induction (c_prefix str) as [|x l IHl]; simpl; [lia|].
      rewrite length_app. destruct (special x); simpl; lia. }
    unfold put_char. destruct (special c).
    + rewrite (proj2 (Z.ltb_lt _ _)) by lia. cbn [mbind exec_bind].
      rewrite (proj2 (Z.ltb_lt _ _)) by (rewrite length_app; simpl; lia). cbn [mbind exec_bind].
      rewrite u32_small, IH by (rewrite ?length_app; simpl; lia).
      rewrite <-!app_assoc. cbn [app length]. do 2 f_equal. lia.
    + rewrite (proj2 (Z.ltb_lt _ _)) by lia. cbn [mbind exec_bind].
      rewrite IH by (rewrite ?length_app; simpl; lia). rewrite <-!app_assoc. cbn [app length].
      do 2 f_equal.
Qed.

(** The unpacked and escaped string: always terminated, never longer than the
    block allocated for it. *)
Lemma unpackstr_escaped_safe :
  safe unpackstr_xmalloc_escaped (fun '(m, size_val) =>
    match m with
    | None => size_val = 0
    | Some l => exists s, l = escape s ++ [0] /\ Forall (fun c => c <> 0) s
    end).
Proof.
  eapply safe_bind; [apply unpack_size_safe|]. intros cnt Hn; cbv beta in Hn |- *.
  destruct (Z.ltb_spec 0 cnt); [|by apply safe_ret].
  apply need_get_safe; [lia|]. intros str Hl Hb. unfold MAX_PACK_MEM_LEN in *.
  rewrite (u32_small (cnt * 2)), u32_small by lia.
  rewrite (escape_loop_spec (cnt * 2 + 1) str) by (simpl; lia).
  cbn [mbind exec_bind app]. unfold put_char.
  assert (Hlen : (length (escape (c_prefix str)) <= 2 * length str)%nat).
  { clear. unfold escape. induction str as [|x l IHl]; simpl; [lia|].
    destruct (x =? 0); simpl; [lia|]. rewrite length_app. destruct (special x); simpl; lia. }
  rewrite (proj2 (Z.ltb_lt _ _)) by lia. cbn [mbind exec_bind].
  eapply safe_bind; [apply (safe_lift _ (fun r => r.1 = escape (c_prefix str) ++ [0])); done|].
  intros [l sz] Hr. simpl in Hr. subst l. apply safe_ret. exists (c_prefix str). split; [done|].
  clear. induction str as [|c str IH]; cbn [c_prefix]; [done|]. destruct (Z.eqb_spec c 0); by constructor.
Qed.

Lemma c_prefix_terminated s l : Forall (fun c => 0 < c < 256) s -> c_prefix (s ++ 0 :: l) = s.
Proof.
  induction 1 as [|c s Hc Hs IH]; [done|]. cbn [app c_prefix].
  rewrite (proj2 (Z.eqb_neq c 0)) by lia. by rewrite IH.
Qed.

Lemma escape_length s : (length s <= length (escape s) <= 2 * length s)%nat.
Proof.
  unfold escape. induction s as [|c s IH]; simpl; [lia|]. rewrite length_app.
  destruct (special c); simpl; lia.
Qed.

Lemma escaped_reads s :
  str_valid (Some s) ->
  reads unpackstr_xmalloc_escaped (enc_mem (str_mem (Some s)))
    (Some (escape s ++ [0]), Z.of_nat (length (escape s)) + 1).
Proof.
  intros [Hc Hl]. unfold unpackstr_xmalloc_escaped. cbn [str_mem fmap option_fmap option_map enc_mem].
  pose proof (escape_length s). unfold MAX_PACK_MEM_LEN in *.
  eapply reads_bind; [apply unpack_size_reads; rewrite length_app; unfold MAX_PACK_MEM_LEN; simpl; lia|].
  cbv beta. rewrite length_app. cbn [length]. if_true.
  apply need_reads; [rewrite length_app; simpl; lia|].
  replace (Z.of_nat (length s + 1)) with (Z.of_nat (length (s ++ [0]))) by (rewrite length_app; done).
  eapply reads_bind_nil; [apply reads_get|]. cbv beta. rewrite length_app; cbn [length].
  rewrite (u32_small (_ * 2)), u32_small by lia.
  rewrite escape_loop_spec by (rewrite ?length_app; simpl; lia).
  rewrite c_prefix_terminated by done. cbn [mbind exec_bind app]. unfold put_char.
  rewrite (proj2 (Z.ltb_lt _ _)) by lia. cbn [mbind exec_bind].
  eapply reads_bind_nil; [by apply reads_lift|]. cbn [fst snd].
  replace (Z.of_nat (length (escape s)) + 1)
    with (Z.of_nat (length s + 1) + Z.of_nat (length (escape s) - length s)) by lia.
  apply reads_ret.
Qed.
