(* ===== verification/PackProps.v ===== *)
(** * Message buffers: properties

    What is packed is unpacked again, and unpacking a message that did not come
    from the packing functions fails without touching memory outside the
    buffer. *)

From S2P Require Import Prelude Bitstring BitstringFacts BitstringFmt Pack PackFacts.

Local Open Scope Z_scope.
Local Open Scope slurm_scope.

(** Packing [n] bytes with [p] and reading them again with [u] from where
    packing started gives [a], and ends where packing ended. *)
Definition roundtrips {A : Type} (n : Z) (p : slurm_buf -> exec slurm_buf) (u : unpacker A)
    (a : A) : Prop :=
  forall b, buf_wf b -> fits b n ->
    wp (p b) (fun b' => buf_wf b' /\ buf_processed b' = buf_processed b + n /\
      u (set_buf_offset b' (buf_processed b)) = Ret (b', Some a)).

Lemma rewind_unread b b' l :
  buf_wf b -> buf_wf b' -> written b' = written b ++ l ->
  buf_wf (set_buf_offset b' (buf_processed b)) /\
  unread (set_buf_offset b' (buf_processed b)) = l ++ unread b' /\
  buf_processed b' = buf_processed b + Z.of_nat (length l).
Proof.
  intros W W' Hw. pose proof (length_written b W) as Hl. pose proof (length_written b' W') as Hl'.
  rewrite Hw, length_app in Hl'. pose proof (bufwf_processed _ W). pose proof (bufwf_processed _ W').
  split_and!.
  - destruct W'. constructor; cbn; try done; lia.
  - unfold unread, set_buf_offset; cbn [buf_head buf_processed].
    rewrite <-(take_drop (Z.to_nat (buf_processed b')) (buf_head b')) at 1.
    fold (written b'). rewrite Hw, <-app_assoc, drop_app_length'; [done|]. lia.
  - lia.
Qed.

Lemma roundtrips_intro {A} p (u : unpacker A) l a :
  writes p l -> reads u l a -> roundtrips (Z.of_nat (length l)) p u a.
Proof.
  intros Hp Hu b W Hf. eapply wp_mono; [by apply Hp|]. intros b' [W' Hw].
  destruct (rewind_unread b b' l W W' Hw) as (Wr & Ur & Hpr). split_and!; [done..|].
  apply wp_eq. eapply wp_mono; [by apply (Hu _ (unread b'))|]. intros [b2 r] (-> & W2 & U2 & H2).
  f_equal. destruct b' as [m h s p'], b2 as [m2 h2 s2 p2]. cbn in H2. subst h2.
  pose proof (length_unread _ W2) as L2. rewrite U2, length_unread in L2 by done.
  destruct W', W2; cbn in *. f_equal; congruence || lia.
Qed.

Lemma int_roundtrips n v :
  (n <= 8)%nat -> 0 <= v < 256 ^ Z.of_nat n -> roundtrips (Z.of_nat n) (pack_int n v) (unpack_int n) v.
Proof.
  intros Hn Hv. rewrite <-(be_length n v) at 1.
  apply roundtrips_intro; [by apply pack_int_writes|by apply unpack_int_reads].
Qed.

Lemma s64_u64 t : - 2 ^ 63 <= t < 2 ^ 63 -> s64 (u64 t) = t.
Proof. intros Ht. unfold s64, u64. rewrite Z.mod_mod by lia. if_case; dlia. Qed.

Lemma time_roundtrips t :
  - 2 ^ 63 <= t < 2 ^ 63 -> roundtrips 8 (pack_time t) unpack_time t.
Proof.
  intros Ht. apply (roundtrips_intro _ _ (be 8 (u64 t))); [by apply pack_int_writes; lia|].
  eapply reads_bind_nil; [apply unpack_int_reads|].
  - unfold u64. apply Z.mod_pos_bound. lia.
  - rewrite s64_u64 by done. apply reads_ret.
Qed.

Lemma length_flat_be n l : length (flat_map (be n) l) = (n * length l)%nat.
Proof. induction l as [|x l IH]; simpl; [lia|]. rewrite length_app, be_length, IH. lia. Qed.

Lemma array_roundtrips n l :
  (n <= 8)%nat -> Forall (fun v => 0 <= v < 256 ^ Z.of_nat n) l -> Z.of_nat (length l) < 2 ^ 32 ->
  roundtrips (4 + Z.of_nat n * Z.of_nat (length l)) (pack_array (pack_int n) l (Z.of_nat (length l)))
    (unpack_array (unpack_int n)) l.
Proof.
  intros Hn HF Hl. rewrite Forall_forall in HF.
  replace (4 + Z.of_nat n * Z.of_nat (length l))
    with (Z.of_nat (length (be 4 (Z.of_nat (length l)) ++ flat_map (be n) l)))
    by (rewrite length_app, be_length, length_flat_be; lia).
  apply roundtrips_intro.
  - apply pack_array_writes. intros v _. by apply pack_int_writes.
  - apply unpack_array_reads; [|done]. intros v Hv. by apply unpack_int_reads, HF.
Qed.

Lemma str_array_roundtrips sa :
  Forall str_valid sa -> Z.of_nat (length sa) <= MAX_PACK_ARRAY_LEN ->
  roundtrips (4 + Z.of_nat (length (flat_map (fun s => enc_mem (str_mem s)) sa)))
    (packstr_array sa (Z.of_nat (length sa))) unpackstr_array (str_mem <$> sa).
Proof.
  intros Hsa Hl.
  assert (He : flat_map (fun s => enc_mem (str_mem s)) sa = flat_map enc_mem (str_mem <$> sa))
    by (clear; induction sa as [|x l IH]; [done|]; cbn; by rewrite IH).
  replace (4 + _) with (Z.of_nat (length (be 4 (Z.of_nat (length sa)) ++
    flat_map (fun s => enc_mem (str_mem s)) sa))) by (rewrite length_app, be_length; lia).
  apply roundtrips_intro; [by apply packstr_array_writes|].
  rewrite He, <-(length_fmap str_mem sa). apply unpackstr_array_reads; [|by rewrite length_fmap].
  apply Forall_fmap. eapply Forall_impl; [exact Hsa|]. intros s. apply str_mem_valid.
Qed.

(** C38: every integer width, times, arrays, strings and string arrays survive
    packing and unpacking, at any position of a buffer with room for them. *)
Theorem pack_unpack_roundtrip (v8 v16 v32 v64 t : Z) (a16 a32 a64 : list Z) (s : option cstr)
    (sa : list (option cstr)) :
  0 <= v8 < 2 ^ 8 -> 0 <= v16 < 2 ^ 16 -> 0 <= v32 < 2 ^ 32 -> 0 <= v64 < 2 ^ 64 ->
  - 2 ^ 63 <= t < 2 ^ 63 ->
  Forall (fun v => 0 <= v < 2 ^ 16) a16 -> Z.of_nat (length a16) < 2 ^ 32 ->
  Forall (fun v => 0 <= v < 2 ^ 32) a32 -> Z.of_nat (length a32) < 2 ^ 32 ->
  Forall (fun v => 0 <= v < 2 ^ 64) a64 -> Z.of_nat (length a64) < 2 ^ 32 ->
  str_valid s -> Forall str_valid sa -> Z.of_nat (length sa) <= MAX_PACK_ARRAY_LEN ->
  roundtrips 1 (pack8 v8) unpack8 v8 /\
  roundtrips 2 (pack16 v16) unpack16 v16 /\
  roundtrips 4 (pack32 v32) unpack32 v32 /\
  roundtrips 8 (pack64 v64) unpack64 v64 /\
  roundtrips 8 (pack_time t) unpack_time t /\
  roundtrips (4 + 2 * Z.of_nat (length a16)) (pack16_array a16 (Z.of_nat (length a16))) unpack16_array a16 /\
  roundtrips (4 + 4 * Z.of_nat (length a32)) (pack32_array a32 (Z.of_nat (length a32))) unpack32_array a32 /\
  roundtrips (4 + 8 * Z.of_nat (length a64)) (pack64_array a64 (Z.of_nat (length a64))) unpack64_array a64 /\
  roundtrips (Z.of_nat (length (enc_mem (str_mem s)))) (packstr s) unpackmem_xmalloc (str_mem s) /\
  roundtrips (4 + Z.of_nat (length (flat_map (fun s => enc_mem (str_mem s)) sa)))
    (packstr_array sa (Z.of_nat (length sa))) unpackstr_array (str_mem <$> sa).
Proof.
  intros H8 H16 H32 H64 Ht F16 L16 F32 L32 F64 L64 Hs Hsa Lsa.
  split_and!.
  - apply (int_roundtrips 1); [lia|done].
  - apply (int_roundtrips 2); [lia|done].
  - apply (int_roundtrips 4); [lia|done].
  - apply (int_roundtrips 8); [lia|done].
  - by apply time_roundtrips.
  - apply (array_roundtrips 2); [lia|done|done].
  - apply (array_roundtrips 4); [lia|done|done].
  - apply (array_roundtrips 8); [lia|done|done].
  - apply roundtrips_intro; [by apply packstr_writes|by apply unpackmem_ptr_reads, str_mem_valid].
  - by apply str_array_roundtrips.
Qed.

(** A fresh buffer for the examples. *)
Definition small_buf : slurm_buf := Buf BUF_MAGIC (replicate 64 0) 64 0.
Lemma small_buf_wf : buf_wf small_buf.
Proof. constructor; try done. apply Forall_replicate. unfold is_byte; lia. Qed.

Lemma pack_unpack_roundtrip_witness :
  wp (pack32 0xDEADBEEF small_buf) (fun b' =>
    unpack32 (set_buf_offset b' 0) = Ret (b', Some 0xDEADBEEF)) /\
  pack32 0xDEADBEEF small_buf = Ret (Buf BUF_MAGIC ([0xDE; 0xAD; 0xBE; 0xEF] ++ replicate 60 0) 64 4).
Proof.
  split; [|by vm_compute].
  destruct (pack_unpack_roundtrip 7 7 0xDEADBEEF 7 (-7) [1; 2] [3] [] (Some [65; 66]) [None; Some [67]])
    as (_ & _ & H32 & _);
    [lia|lia|lia|lia|lia|by repeat constructor|done|by repeat constructor|done|done|done|
     by repeat constructor|by repeat constructor|done|].
  eapply wp_mono; [apply H32; [apply small_buf_wf|unfold fits; vm_compute; congruence]|].
  intros b' (_ & _ & Hb). exact Hb.
Defined.

(** The functions that copy into the caller's memory. *)
Lemma write_mem_ok mem bytes : (length bytes <= length mem)%nat -> wp (write_mem mem bytes) (fun m => length m = length mem).
Proof. intros Hl. unfold write_mem. rewrite (proj2 (Nat.leb_le _ _)) by done. apply wp_ret. rewrite length_app, length_drop. lia. Qed.

Lemma unpackmem_safe mem b : buf_wf b -> (0 < length mem)%nat -> buf_size b <= Z.of_nat (length mem) ->
  wp (unpackmem mem b) (fun '(b', r) => buf_wf b' /\ match r with Some (m, n) => length m = length mem /\ 0 <= n <= Z.of_nat (length mem) | None => True end).
Proof.
  intros W Hm Hs. unfold unpackmem, unpack_size, unpack32, unpack_int, ubind, uret, ufail, ulift, need. cbn [mbind exec_bind].
  rewrite remaining_wf by done. destruct (Z.ltb_spec (buf_size b - buf_processed b) (Z.of_nat 4)); [done|]. cbn [mbind exec_bind].
  pose proof (get_spec (Z.of_nat 4) b W ltac:(lia)) as Hg. apply wp_inv in Hg as ([b1 r] & -> & -> & W1 & _ & E1). cbn [mbind exec_bind].
  set (n := of_be _). destruct (Z.ltb_spec MAX_PACK_MEM_LEN n); [done|]. cbn [mbind exec_bind].
  assert (Hsz : buf_size b1 = buf_size b) by (by rewrite <-(bufwf_head _ W1), <-(bufwf_head _ W), E1). pose proof (bufwf_processed _ W1).
  destruct (Z.ltb_spec 0 n).
  - cbn [mbind exec_bind]. rewrite remaining_wf by done. destruct (Z.ltb_spec (buf_size b1 - buf_processed b1) n); [done|]. cbn [mbind exec_bind].
    pose proof (get_spec n b1 W1 ltac:(lia)) as Hg. apply wp_inv in Hg as ([b2 r] & -> & -> & W2 & _ & _). cbn [mbind exec_bind].
    apply wp_bind, wp_bind. eapply wp_mono; [apply write_mem_ok; rewrite length_take; lia|]. intros m Hlm. apply wp_ret, wp_ret. split; [done|]. split; [done|lia].
  - cbn [mbind exec_bind]. apply wp_bind, wp_bind. eapply wp_mono; [apply write_mem_ok; simpl; lia|]. intros m Hlm. apply wp_ret, wp_ret. split; [done|]. split; [done|].
    assert (0 <= n) by (apply of_be_range, Forall_take, Forall_drop, W). lia.
Qed.

Lemma unpackmem_array_safe mem size_val b : buf_wf b -> (0 < length mem)%nat -> 0 <= size_val <= Z.of_nat (length mem) ->
  wp (unpackmem_array mem size_val b) (fun '(b', m, _) => buf_wf b' /\ length m = length mem).
Proof.
  intros W Hm Hs. unfold unpackmem_array. rewrite remaining_wf by done. destruct (Z.leb_spec size_val (buf_size b - buf_processed b)).
  - apply wp_bind. eapply wp_mono; [apply get_spec; [done|lia]|]. intros [b1 r] (-> & W1 & _). apply wp_bind.
    eapply wp_mono; [apply write_mem_ok; cbn [default from_option id]; rewrite length_take; lia|]. intros m Hlm. by apply wp_ret.
  - apply wp_bind. eapply wp_mono; [apply write_mem_ok; simpl; lia|]. intros m Hlm. by apply wp_ret.
Qed.

(** C37: unpacking of integers, times, arrays of integers, memory and strings is memory
    safe on any input: on every well-formed buffer, whatever bytes it holds and
    wherever its offset is, each of these functions returns (with a value in range or
    with an error), the buffer stays well formed, and no byte outside it is read.  For
    [unpackmem] and [unpackmem_array], which copy into memory of the caller, the
    caller's memory is as large as the buffer, or as the size asked for, and nothing is
    written outside it.  Not among them are the functions for floating point numbers,
    which are not modelled, and those for bitmaps ([unpack_bit_str_hex]), which are not safe:
    they use the string of the message without a check ([unpack_bitmap_null_string],
    [unpack_bitmap_open_string]). *)
Theorem unpack_memory_safe (b : slurm_buf) :
  buf_wf b ->
  let ok {A} (u : unpacker A) (P : A -> Prop) :=
    wp (u b) (fun '(b', r) => buf_wf b' /\ match r with Some a => P a | None => True end) in
  ok unpack8 (fun v => 0 <= v < 2 ^ 8) /\ ok unpack16 (fun v => 0 <= v < 2 ^ 16) /\
  ok unpack32 (fun v => 0 <= v < 2 ^ 32) /\ ok unpack64 (fun v => 0 <= v < 2 ^ 64) /\
  ok unpack_time (fun v => - 2 ^ 63 <= v < 2 ^ 63) /\
  ok unpack16_array (Forall (fun v => 0 <= v < 2 ^ 16)) /\
  ok unpack32_array (Forall (fun v => 0 <= v < 2 ^ 32)) /\
  ok unpack64_array (Forall (fun v => 0 <= v < 2 ^ 64)) /\
  ok unpack64_array_from_32 (Forall (fun v => 0 <= v < 2 ^ 32)) /\
  ok unpackmem_ptr mem_valid /\ ok unpackmem_xmalloc mem_valid /\ ok unpackmem_malloc mem_valid /\ ok unpackstr_array (Forall mem_valid) /\
  ok unpackstr_xmalloc_escaped (fun _ => True) /\ (forall slurmdbd_conf, ok (unpackstr_xmalloc_chooser slurmdbd_conf) (fun _ => True)) /\
  (forall mem, (0 < length mem)%nat -> buf_size b <= Z.of_nat (length mem) ->
     ok (unpackmem mem) (fun '(m, n) => length m = length mem /\ 0 <= n <= Z.of_nat (length mem))) /\
  (forall mem size_val, (0 < length mem)%nat -> 0 <= size_val <= Z.of_nat (length mem) ->
     wp (unpackmem_array mem size_val b) (fun '(b', m, _) => buf_wf b' /\ length m = length mem)).
Proof.
  intros W ok. subst ok. cbv beta. split_and!.
  - by apply (unpack_int_safe 1).
  - by apply (unpack_int_safe 2).
  - by apply (unpack_int_safe 4).
  - by apply (unpack_int_safe 8).
  - eapply (safe_bind _ _ _ _ (unpack_int_safe 8)); [|done]. intros v Hv. apply safe_ret.
    unfold s64, u64. if_case; dlia.
  - by apply (unpack_array_safe _ _ (unpack_int_safe 2)).
  - by apply (unpack_array_safe _ _ (unpack_int_safe 4)).
  - by apply (unpack_array_safe _ _ (unpack_int_safe 8)).
  - by apply (unpack_array_safe _ _ (unpack_int_safe 4)).
  - by apply unpackmem_ptr_safe.
  - by apply unpackmem_ptr_safe.
  - by apply unpackmem_ptr_safe.
  - by apply unpackstr_array_safe.
  - by apply (safe_mono _ _ _ unpackstr_escaped_safe).
  - intros []; [|by apply (safe_mono _ _ _ unpackmem_ptr_safe)].
    eapply (safe_bind _ _ (fun _ => True)); [by apply (safe_mono _ _ _ unpackstr_escaped_safe)| |done]. intros r _. by apply safe_ret.
  - intros mem Hm Hs. eapply wp_mono; [by apply unpackmem_safe|]. by intros [b' [[m n]|]].
  - intros mem n Hm Hs. by apply unpackmem_array_safe.
Qed.

Lemma unpack_memory_safe_witness :
  wp (unpack32_array (Buf BUF_MAGIC [0; 0; 0; 9; 1; 2; 3; 4; 5] 9 0))
    (fun '(b', r) => buf_wf b') /\
  unpack32_array (Buf BUF_MAGIC [0; 0; 0; 9; 1; 2; 3; 4; 5] 9 0) =
    Ret (Buf BUF_MAGIC [0; 0; 0; 9; 1; 2; 3; 4; 5] 9 8, None).
Proof.
  split; [|by vm_compute].
  destruct (unpack_memory_safe (Buf BUF_MAGIC [0; 0; 0; 9; 1; 2; 3; 4; 5] 9 0))
    as (_ & _ & _ & _ & _ & _ & Ha & _).
  - constructor; try done. repeat constructor; done.
  - eapply wp_mono; [exact Ha|]. by intros [b' r] [? _].
Defined.

(** How a database reads a quoted literal: the text up to the first quote that
    no backslash precedes; [None] when the text never closes the literal. *)
Fixpoint literal_end (s : cstr) : option nat :=
  match s with
  | [] => None
  | c :: rest =>
      if c =? QUOTE then Some O
      else if c =? BACKSLASH
      then match rest with [] => Some O | _ :: rest' => (fun n => S (S n)) <$> literal_end rest' end
      else S <$> literal_end rest
  end.
Fixpoint unescape (s : cstr) : cstr :=
  match s with
  | [] => []
  | c :: rest => if c =? BACKSLASH
                 then match rest with [] => [] | d :: rest' => d :: unescape rest' end
                 else c :: unescape rest
  end.

Lemma escape_closed s : literal_end (escape s) = None /\ unescape (escape s) = s.
Proof.
  induction s as [|c s [IH1 IH2]]; [done|]. unfold escape; cbn [flat_map]; fold (escape s).
  unfold special, BACKSLASH, QUOTE in *. destruct (Z.eqb_spec c 92) as [->|]; simpl.
  - by rewrite IH1, IH2.
  - destruct (Z.eqb_spec c 39) as [->|]; simpl; [by rewrite IH1, IH2|].
    unfold QUOTE, BACKSLASH. rewrite (proj2 (Z.eqb_neq c 92)), (proj2 (Z.eqb_neq c 39)), IH1, IH2 by done. done.
Qed.

(** C39: a string unpacked by the database daemon cannot end the quoted literal
    it is put into, the database reads back the packed string, and the result
    is terminated within the block allocated for it. *)
Theorem escaped_strings_stay_quoted (s : cstr) (b : slurm_buf) :
  str_valid (Some s) -> buf_wf b -> fits b (Z.of_nat (length s) + 5) ->
  wp (packstr (Some s) b) (fun b' =>
    wp (unpackstr_xmalloc_escaped (set_buf_offset b' (buf_processed b))) (fun '(_, r) =>
      exists e n, r = Some (Some (e ++ [0]), n) /\ n = Z.of_nat (length e) + 1 /\
        literal_end e = None /\ unescape e = s)).
Proof.
  intros Hs W Hf. destruct (str_mem_valid _ Hs) as (_ & _ & Hmax). cbn in Hmax.
  eapply wp_mono; [apply packstr_writes; [done|done|]|].
  { unfold fits in *. cbn [str_mem fmap option_fmap option_map enc_mem].
    rewrite length_app, be_length, length_app. simpl. lia. }
  intros b' [W' Hw]. destruct (rewind_unread b b' _ W W' Hw) as (Wr & Ur & _).
  eapply wp_mono; [apply (escaped_reads s Hs _ (unread b') Wr Ur)|].
  intros [b2 r] (-> & _). exists (escape s), (Z.of_nat (length (escape s)) + 1).
  destruct (escape_closed s). done.
Qed.

Lemma escaped_strings_stay_quoted_witness :
  wp (packstr (Some [79; 39; 72]) small_buf) (fun b' =>
    wp (unpackstr_xmalloc_escaped (set_buf_offset b' 0)) (fun '(_, r) =>
      exists e n, r = Some (Some (e ++ [0]), n) /\ n = Z.of_nat (length e) + 1 /\
        literal_end e = None /\ unescape e = [79; 39; 72])).
Proof.
  apply (escaped_strings_stay_quoted [79; 39; 72] small_buf);
    [repeat constructor; done|apply small_buf_wf|unfold fits; vm_compute; congruence].
Defined.

(** ** Bitmaps in messages *)
Lemma c_string_terminated s : Forall (fun c => 0 < c < 256) s -> c_string (s ++ [0]) = Ret s.
Proof.
  induction 1 as [|c s Hc Hs IH]; [done|]. cbn [app c_string].
  rewrite (proj2 (Z.eqb_neq c 0)) by lia. by rewrite IH.
Qed.

Lemma hexmask_valid bm str :
  bs_wf bm -> bit_fmt_hexmask bm = Ret str ->
  Forall (fun c => 0 < c < 256) str /\ Z.of_nat (length str) = 2 + (bs_bits bm + 3) / 4.
Proof.
  intros W. rewrite bit_fmt_hexmask_spec by done. intros [= <-]. pose proof (wf_size _ W). split.
  - cbn [app]. repeat (constructor; [lia|]). apply Forall_reverse, Forall_fmap, Forall_forall.
    intros j _. simpl. pose proof (nib_range bm (4 * j)). unfold hex_char. if_case; lia.
  - cbn [app length]. rewrite length_reverse, length_fmap, length_seqZ. dlia.
Qed.

Lemma unpack_bitmap_reads bm str :
  bs_wf bm -> 0 < bs_bits bm -> bit_fmt_hexmask bm = Ret str ->
  exists bm', reads (unpack_bit_str_hex false) (be 4 (bs_bits bm) ++ enc_mem (str_mem (Some str))) (Some bm') /\
    bs_wf bm' /\ bs_bits bm' = bs_bits bm /\
    (forall i, 0 <= i < bs_bits bm -> bs_mem bm' i = bs_mem bm i).
Proof.
  intros W Hpos Hstr. destruct (hexmask_valid bm str W Hstr) as [Hc Hl]. pose proof (wf_size _ W) as Hsz.
  destruct (wp_inv _ _ (bit_alloc_spec (bs_bits bm) Hsz)) as (bm0 & Ha & W0 & _ & Hb0 & _).
  destruct (wp_inv _ _ (hexmask_roundtrip bm bm0 str W W0 Hb0 Hpos Hstr)) as ([bm' rc] & Hu & -> & Hupd).
  exists bm'. split_and!; [|apply Hupd|rewrite (upd_bits _ _ _ Hupd); done|].
  - unfold unpack_bit_str_hex. eapply reads_bind; [apply unpack_int_reads; rewrite pow256; simpl; lia|].
    cbv beta. rewrite (proj2 (Z.eqb_neq _ NO_VAL)) by (unfold NO_VAL; lia).
    eapply reads_bind_nil; [apply unpackmem_ptr_reads, str_mem_valid|].
    { split; [done|]. unfold MAX_PACK_MEM_LEN. rewrite Hl. dlia. }
    eapply reads_bind_nil; [by apply reads_lift|]. cbv beta.
    apply (reads_bind_nil _ _ _ (bm', 0)); [|apply reads_ret].
    apply (reads_lift _ (bm', 0)). cbn [str_mem fmap option_fmap option_map c_string_ptr].
    rewrite c_string_terminated by done. exact Hu.
  - intros i Hi. rewrite (upd_mem _ _ _ Hupd) by lia. by replace (i <? bs_bits bm0) with true by lia.
Qed.

Lemma pack_bitmap_writes bm str :
  bs_wf bm -> bit_fmt_hexmask bm = Ret str ->
  writes (pack_bit_str_hex (Some bm)) (be 4 (bs_bits bm) ++ enc_mem (str_mem (Some str))).
Proof.
  intros W Hstr b Wb Hf. destruct (hexmask_valid bm str W Hstr) as [Hc Hl]. pose proof (wf_size _ W) as Hsz.
  unfold pack_bit_str_hex. wp_step; [rewrite (bufwf_magic _ Wb); done|].
  rewrite Hstr. unfold bit_size. rewrite (wf_magic _ W). cbn [mbind exec_bind assert_].
  rewrite !u32_small by (rewrite ?Hl; dlia).
  refine (writes_seq (pack_int 4 (bs_bits bm)) (packmem (str ++ [0]) (Z.of_nat (length str) + 1)) _ _ _ _ b Wb Hf).
  - apply pack_int_writes. lia.
  - replace (Z.of_nat (length str) + 1) with (Z.of_nat (length (str ++ [0]))) by (rewrite length_app; simpl; lia).
    destruct (str_mem_valid (Some str)) as (_ & Hb & Hm); [|by apply packmem_writes].
    split; [done|]. unfold MAX_PACK_MEM_LEN. rewrite Hl. dlia.
Qed.

(** a bitmap sent with [pack_bit_str_hex] arrives with [unpack_bit_str_hex]
    with the same size and the same bits; [NULL] arrives as [NULL]. *)
Theorem bitmap_message_roundtrip (bm : bitstr) (b : slurm_buf) :
  bs_wf bm -> 0 < bs_bits bm -> buf_wf b -> fits b (11 + (bs_bits bm + 3) / 4) ->
  wp (pack_bit_str_hex (Some bm) b) (fun b' => buf_wf b' /\
    wp (unpack_bit_str_hex false (set_buf_offset b' (buf_processed b))) (fun '(_, r) =>
      exists bm', r = Some (Some bm') /\ bs_wf bm' /\ bs_bits bm' = bs_bits bm /\
        forall i, 0 <= i < bs_bits bm -> bs_mem bm' i = bs_mem bm i)) /\
  roundtrips 4 (pack_bit_str_hex None) (unpack_bit_str_hex false) None.
Proof.
  intros W Hpos Wb Hf. split.
  - destruct (bit_fmt_hexmask bm) as [str| |] eqn:Hstr; try by rewrite bit_fmt_hexmask_spec in Hstr.
    destruct (hexmask_valid bm str W Hstr) as [Hc Hl].
    eapply wp_mono; [apply (pack_bitmap_writes bm str W Hstr b Wb)|].
    { unfold fits in *. cbn [str_mem fmap option_fmap option_map enc_mem].
      rewrite !length_app, !be_length. simpl. lia. }
    intros b' [W' Hw]. split; [done|]. destruct (rewind_unread b b' _ Wb W' Hw) as (Wr & Ur & _).
    destruct (unpack_bitmap_reads bm str W Hpos Hstr) as (bm' & Hr & Hbm).
    eapply wp_mono; [apply (Hr _ (unread b') Wr Ur)|]. intros [b2 r] (-> & _). by exists bm'.
  - apply (roundtrips_intro _ _ (be 4 NO_VAL)).
    + intros b0 W0 F0. unfold pack_bit_str_hex. wp_step; [rewrite (bufwf_magic _ W0); done|].
      apply pack_int_writes; [lia|done|done].
    + eapply reads_bind_nil; [by apply unpack_int_reads|]. apply reads_ret.
Qed.

Definition ten_bits : bitstr := Bitstr BITSTR_MAGIC 10 [0x1DC].

Lemma bitmap_message_roundtrip_witness :
  wp (pack_bit_str_hex (Some ten_bits) small_buf) (fun b' => buf_wf b' /\
    wp (unpack_bit_str_hex false (set_buf_offset b' 0)) (fun '(_, r) =>
      exists bm', r = Some (Some bm') /\ bs_wf bm' /\ bs_bits bm' = 10 /\
        forall i, 0 <= i < 10 -> bs_mem bm' i = bs_mem ten_bits i)).
Proof.
  destruct (bitmap_message_roundtrip ten_bits small_buf) as [Hr _]; [|done|apply small_buf_wf| |exact Hr].
  - constructor; [done|done|done|by apply Forall_singleton].
  - unfold fits. vm_compute. congruence.
Defined.

(** ** Limits *)

(** The size check of [packmem] wraps around at 32 bits: when the buffer is full
    and its size, the block and the slack add up to more than 32 bits (3.5 GiB
    and 768 MiB, say), the check passes, the buffer shrinks below its own
    offset, and the copy runs outside it. *)
Lemma packmem_size_check_wraps head valp size size_val :
  0 < size_val <= MAX_PACK_MEM_LEN -> size <= MAX_BUF_SIZE ->
  2 ^ 32 <= size + (size_val + BUF_SIZE) ->
  packmem valp size_val (Buf BUF_MAGIC head size size) = Fault.
Proof.
  intros Hv Hs Hw. unfold packmem, make_room, remaining_buf. cbn [buf_size buf_processed].
  rewrite Z.sub_diag. change (u32 0) with 0. rewrite (proj2 (Z.ltb_ge _ _)) by lia.
  rewrite (proj2 (Z.ltb_lt 0 _)) by lia.
  assert (Hu : u32 (size + (size_val + BUF_SIZE)) = size + (size_val + BUF_SIZE) - 2 ^ 32)
    by (unfold u32, MAX_BUF_SIZE, MAX_PACK_MEM_LEN, BUF_SIZE in *; dlia).
  rewrite Hu, (proj2 (Z.ltb_ge _ _)) by (unfold MAX_BUF_SIZE, MAX_PACK_MEM_LEN, BUF_SIZE in *; lia).
  unfold put, buf_extend. cbn [buf_size buf_processed buf_magic buf_head]. rewrite length_resize, Hu.
  rewrite (proj2 (andb_false_iff _ _)); [done|]. right. apply Nat.leb_gt.
  unfold MAX_BUF_SIZE, MAX_PACK_MEM_LEN, BUF_SIZE in *. lia.
Qed.

(** A message that announces a bitmap but carries no mask string makes
    [unpack_bit_str_hex] read through a null pointer. *)
Lemma unpack_bitmap_null_string :
  unpack_bit_str_hex false (Buf BUF_MAGIC [0; 0; 0; 10; 0; 0; 0; 0] 8 0) = Fault.
Proof. by vm_compute. Qed.

(** Nor is the string checked to be terminated: without a NUL the mask is read past the
    end of the block. *)
Lemma unpack_bitmap_open_string :
  unpack_bit_str_hex false (Buf BUF_MAGIC [0; 0; 0; 10; 0; 0; 0; 2; 48; 120] 10 0) = Fault.
Proof. by vm_compute. Qed.
