(* ===== verification/NatCmp.v ===== *)
(** * Natural order of strings: src/common/strnatcmp.c

    The comparison of host name prefixes: runs of digits are compared as
    numbers, unless one of them has a leading zero, and other characters by
    their codes.  On strings without white space it is a linear order, which is
    shown by comparing keys: [strnatcmp] is the lexicographic comparison of the
    tokens that start at each position. *)

From S2P Require Import Prelude.

Local Open Scope Z_scope.

(** A [char] as it is compared, where [char] is signed. *)
Definition schar (c : Z) : Z := if c <? 128 then c else c - 256.

(** The longest run of digits wins; between runs of one length the first
    difference, kept in [bias], does. *)
Fixpoint compare_right (a b : cstr) (bias : Z) : Z :=
  match a with
  | ca :: a' =>
      if isdigit ca then
        match b with
        | cb :: b' =>
            if isdigit cb then
              compare_right a' b'
                (if schar ca <? schar cb then if bias =? 0 then -1 else bias
                 else if schar cb <? schar ca then if bias =? 0 then 1 else bias
                 else bias)
            else 1
        | [] => 1
        end
      else if match b with cb :: _ => isdigit cb | [] => false end then -1 else bias
  | [] => if match b with cb :: _ => isdigit cb | [] => false end then -1 else bias
  end.

(** Left-aligned runs: the first difference wins. *)
Fixpoint compare_left (a b : cstr) : Z :=
  match a with
  | ca :: a' =>
      if isdigit ca then
        match b with
        | cb :: b' =>
            if isdigit cb then
              if schar ca <? schar cb then -1
              else if schar cb <? schar ca then 1
              else compare_left a' b'
            else 1
        | [] => 1
        end
      else if match b with cb :: _ => isdigit cb | [] => false end then -1 else 0
  | [] => if match b with cb :: _ => isdigit cb | [] => false end then -1 else 0
  end.

(** The end of a string is read as the character 0. *)
Fixpoint strnatcmp0 (fold_case : bool) (a : cstr) : cstr -> Z :=
  fix inner (b : cstr) : Z :=
    match a with
    | ca :: a' =>
        if isspace ca then strnatcmp0 fold_case a' b else
        match b with
        | cb :: b' =>
            if isspace cb then inner b' else
            let result :=
              if isdigit ca && isdigit cb then
                if (ca =? 48) || (cb =? 48) then compare_left a b else compare_right a b 0
              else 0 in
            if negb (result =? 0) then result else
            let da := if fold_case then toupper ca else ca in
            let db := if fold_case then toupper cb else cb in
            if schar da <? schar db then -1
            else if schar db <? schar da then 1
            else strnatcmp0 fold_case a' b'
        | [] => if schar ca <? 0 then -1 else 1
        end
    | [] =>
        match b with
        | cb :: b' => if isspace cb then inner b' else if 0 <? schar cb then -1 else 1
        | [] => 0
        end
    end.

Definition strnatcmp : cstr -> cstr -> Z := strnatcmp0 false.
Definition strnatcasecmp : cstr -> cstr -> Z := strnatcmp0 true.

(** ** Linear comparison functions *)

(** A comparison of C's kind, negative, zero or positive, that is a linear
    order. *)
Class LinearCmp {A : Type} (cmp : A -> A -> Z) : Prop := {
  cmp_eq : forall x y, cmp x y = 0 <-> x = y;
  cmp_anti : forall x y, cmp y x = - cmp x y;
  cmp_trans : forall x y z, cmp x y <= 0 -> cmp y z <= 0 -> cmp x z <= 0
}.

Definition Zcmp (x y : Z) : Z := if x <? y then -1 else if y <? x then 1 else 0.

#[global] Instance Zcmp_linear : LinearCmp Zcmp.
Proof. split; intros *; unfold Zcmp; if_solve. Qed.

Lemma Zcmp_lt x y : x < y -> Zcmp x y = -1.
Proof. unfold Zcmp. if_solve. Qed.
Lemma Zcmp_gt x y : y < x -> Zcmp x y = 1.
Proof. unfold Zcmp. if_solve. Qed.

Section lex.
Context {A : Type} (cmp : A -> A -> Z).

(** Lexicographic order, a proper prefix coming first. *)
Fixpoint lex (a b : list A) : Z :=
  match a, b with
  | [], [] => 0
  | [], _ :: _ => -1
  | _ :: _, [] => 1
  | x :: a, y :: b => if cmp x y =? 0 then lex a b else cmp x y
  end.

Context `{!LinearCmp cmp}.

Lemma cmp_refl x : cmp x x = 0.
Proof. by apply cmp_eq. Qed.

#[global] Instance lex_linear : LinearCmp lex.
Proof.
  split.
  - intros a. induction a as [|x a IH]; intros [|y b]; cbn [lex]; try done.
    destruct (Z.eqb_spec (cmp x y) 0) as [E|E].
    + apply (cmp_eq (cmp:=cmp)) in E as ->. rewrite IH. split; congruence.
    + split; [done|]. intros [= -> _]. by rewrite cmp_refl in E.
  - intros a. induction a as [|x a IH]; intros [|y b]; cbn [lex]; try done.
    rewrite (cmp_anti x y). destruct (Z.eqb_spec (cmp x y) 0), (Z.eqb_spec (- cmp x y) 0); lia || auto.
  - intros a. induction a as [|x a IH]; intros [|y b] [|z c]; cbn [lex]; try lia.
    intros H1 H2. destruct (Z.eqb_spec (cmp x y) 0) as [E1|E1].
    { apply (cmp_eq (cmp:=cmp)) in E1 as ->. destruct (Z.eqb_spec (cmp y z) 0); [by apply (IH b)|done]. }
    destruct (Z.eqb_spec (cmp y z) 0) as [E2|E2].
    { apply (cmp_eq (cmp:=cmp)) in E2 as <-. by destruct (Z.eqb_spec (cmp x y) 0). }
    pose proof (cmp_trans x y z H1 H2).
    destruct (Z.eqb_spec (cmp x z) 0) as [E|]; [|done].
    apply (cmp_eq (cmp:=cmp)) in E as <-. rewrite (cmp_anti x y) in H2. lia.
Qed.
End lex.

Abbreviation lexz := (lex Zcmp).

(** ** Tokens *)

Fixpoint digit_run (s : cstr) : cstr :=
  match s with c :: s' => if isdigit c then c :: digit_run s' else [] | [] => [] end.

(** The key of the token at the start of [s]: the code of a character, a run
    of digits with a leading zero as it is, other runs after all of those, by
    length. *)
Definition tok (s : cstr) : list Z :=
  match s with
  | [] => [0]
  | c :: _ =>
      if isdigit c then
        if c =? 48 then digit_run s else 49 :: Z.of_nat (length (digit_run s)) :: digit_run s
      else [schar c]
  end.

Fixpoint toks (s : cstr) : list (list Z) :=
  tok s :: match s with [] => [] | _ :: s' => toks s' end.

(** Strings of the characters a host name prefix can have. *)
Definition plain (s : cstr) : Prop := Forall (fun c => 0 < c < 256 /\ isspace c = false) s.

Lemma schar_digit c : isdigit c = true -> schar c = c.
Proof. unfold isdigit, schar. if_solve. Qed.

Lemma compare_left_run a : forall b, Forall (fun c => 0 < c < 256) a -> Forall (fun c => 0 < c < 256) b ->
  compare_left a b = lexz (digit_run a) (digit_run b).
Proof.
  induction a as [|x a IH]; intros [|y b] Ha Hb; decompose_Forall_hyps; cbn [compare_left digit_run].
  - done.
  - by destruct (isdigit y).
  - by destruct (isdigit x).
  - destruct (isdigit x) eqn:Ex, (isdigit y) eqn:Ey; try done. cbn [lex]. rewrite <-IH, !schar_digit by done.
    unfold Zcmp. by destruct (x <? y), (y <? x).
Qed.

Lemma compare_right_run a : forall b bias, Forall (fun c => 0 < c < 256) a -> Forall (fun c => 0 < c < 256) b ->
  bias = -1 \/ bias = 0 \/ bias = 1 ->
  compare_right a b bias =
    let la := Z.of_nat (length (digit_run a)) in let lb := Z.of_nat (length (digit_run b)) in
    if la <? lb then -1 else if lb <? la then 1
    else if bias =? 0 then lexz (digit_run a) (digit_run b) else bias.
Proof.
  induction a as [|x a IH]; intros [|y b] bias Ha Hb Hbias; decompose_Forall_hyps;
    cbn [compare_right digit_run].
  - simpl. by destruct (Z.eqb_spec bias 0).
  - destruct (isdigit y); [done|]. simpl. by destruct (Z.eqb_spec bias 0).
  - destruct (isdigit x); [done|]. simpl. by destruct (Z.eqb_spec bias 0).
  - destruct (isdigit x) eqn:Ex, (isdigit y) eqn:Ey; try done;
      [|simpl; by destruct (Z.eqb_spec bias 0)].
    rewrite IH by (done || (repeat if_case; lia)). cbn [lex length]. rewrite !schar_digit by done.
    unfold Zcmp. cbn zeta. destruct Hbias as [->|[->| ->]], (Z.ltb_spec x y), (Z.ltb_spec y x); simpl; if_solve.
Qed.

Lemma plain_bytes s : plain s -> Forall (fun c => 0 < c < 256) s.
Proof. intros H. eapply Forall_impl; [exact H|]. simpl. by intros c [? _]. Qed.

Lemma schar_inj x y : 0 < x < 256 -> 0 < y < 256 -> schar x = schar y -> x = y.
Proof. unfold schar. if_solve. Qed.

Lemma tok_first c s : 0 < c < 256 -> exists k r, tok (c :: s) = k :: r /\
  (if isdigit c then (k = 48 \/ k = 49) else k = schar c).
Proof.
  intros Hc. unfold tok. cbn [digit_run]. destruct (isdigit c) eqn:E; [|by eexists _, _].
  destruct (Z.eqb_spec c 48); eexists _, _; (split; [done|]); auto.
Qed.

(** Equal tokens start with the same character. *)
Lemma tok_head x a y b : 0 < x < 256 -> 0 < y < 256 -> tok (x :: a) = tok (y :: b) -> x = y.
Proof.
  intros Hx Hy E. destruct (tok_first x a Hx) as (k & r & E1 & Hk), (tok_first y b Hy) as (k' & r' & E2 & Hk').
  assert (k = k') by congruence. subst k'. clear E1 E2. unfold tok in E. cbn [digit_run] in E.
  destruct (isdigit x) eqn:Ex, (isdigit y) eqn:Ey.
  - destruct (Z.eqb_spec x 48), (Z.eqb_spec y 48); congruence || (injection E; lia).
  - unfold schar, isdigit in *. case_match; lia.
  - unfold schar, isdigit in *. case_match; lia.
  - apply schar_inj; congruence || lia.
Qed.

Lemma toks_inj a : forall b, plain a -> plain b -> toks a = toks b -> a = b.
Proof.
  induction a as [|x a IH]; intros [|y b] Ha Hb E; [done|destruct b; by injection E|destruct a; by injection E|].
  unfold plain in *. rewrite Forall_cons in Ha, Hb. destruct Ha as [[? _] Ha], Hb as [[? _] Hb].
  injection E as E1 E2. apply tok_head in E1 as ->; [|lia..]. f_equal. by apply IH.
Qed.

Lemma tok_end c s : 0 < c < 256 -> lexz (tok []) (tok (c :: s)) = if 0 <? schar c then -1 else 1.
Proof.
  intros Hc. destruct (tok_first c s Hc) as (k & r & -> & Hk). cbn [tok lex]. unfold Zcmp, schar, isdigit in *.
  repeat case_match; lia.
Qed.

(** One round of the comparison. *)
Definition round (a b : cstr) (ca cb : Z) : Z :=
  let result :=
    if isdigit ca && isdigit cb then
      if (ca =? 48) || (cb =? 48) then compare_left a b else compare_right a b 0
    else 0 in
  if negb (result =? 0) then result else Zcmp (schar ca) (schar cb).

Ltac ltb_cases := repeat match goal with |- context [?x <? ?y] => destruct (Z.ltb_spec x y) end.

Lemma round_tok x a y b : Forall (fun c => 0 < c < 256) (x :: a) -> Forall (fun c => 0 < c < 256) (y :: b) ->
  round (x :: a) (y :: b) x y = lexz (tok (x :: a)) (tok (y :: b)).
Proof.
  intros Ha Hb. unfold round. rewrite compare_left_run, compare_right_run by (done || lia).
  unfold tok. cbn [digit_run]. decompose_Forall_hyps.
  destruct (isdigit x) eqn:Ex, (isdigit y) eqn:Ey; cbn [andb negb Z.eqb lex].
  - rewrite !schar_digit by done.
    destruct (Z.eqb_spec x 48), (Z.eqb_spec y 48); cbn [orb lex]; generalize (lexz (digit_run a) (digit_run b));
      generalize (Z.of_nat (length (x :: digit_run a))), (Z.of_nat (length (y :: digit_run b)));
      intros la lb L; unfold Zcmp, isdigit in *; ltb_cases; simpl; try done; try lia; by destruct (Z.eqb_spec L 0).
  - unfold schar, isdigit in *. destruct (Z.ltb_spec x 128), (Z.ltb_spec y 128), (Z.eqb_spec x 48);
      cbn [lex]; unfold Zcmp; ltb_cases; simpl; done || lia.
  - unfold schar, isdigit in *. destruct (Z.ltb_spec x 128), (Z.ltb_spec y 128), (Z.eqb_spec y 48);
      cbn [lex]; unfold Zcmp; ltb_cases; simpl; done || lia.
  - unfold Zcmp. by ltb_cases.
Qed.

(** The comparison is the lexicographic comparison of the tokens. *)
Lemma strnatcmp_toks a : forall b, plain a -> plain b -> strnatcmp a b = lex lexz (toks a) (toks b).
Proof.
  unfold strnatcmp. induction a as [|x a IH]; intros [|y b] Ha Hb; [done|..];
    pose proof (plain_bytes _ Ha) as Ha'; pose proof (plain_bytes _ Hb) as Hb';
    unfold plain in Ha, Hb; rewrite ?Forall_cons in Ha; rewrite ?Forall_cons in Hb; cbn [toks lex].
  - destruct Hb as [[Hy Sy] _]. cbn [strnatcmp0]. rewrite Sy, tok_end by lia. by destruct (0 <? schar y).
  - destruct Ha as [[Hx Sx] _]. cbn [strnatcmp0]. rewrite Sx, (cmp_anti (tok [])), tok_end by lia.
    destruct (Z.ltb_spec 0 (schar x)), (Z.ltb_spec (schar x) 0); simpl; try done; try lia.
    unfold schar in *. case_match; lia.
  - destruct Ha as [[Hx Sx] Ha], Hb as [[Hy Sy] Hb]. rewrite <-round_tok by done.
    cbn [strnatcmp0]. rewrite Sx, Sy. unfold round. cbn zeta.
    set (r := if _ && _ then _ else _). destruct (Z.eqb_spec r 0); cbn [negb].
    + unfold Zcmp. ltb_cases; [done..|]. simpl. by apply IH.
    + by rewrite (proj2 (Z.eqb_neq _ _)).
Qed.

(** Natural order is a linear order on strings without white space, so that
    equal strings are exactly those that compare equal. *)
Lemma strnatcmp_eq a b : plain a -> plain b -> strnatcmp a b = 0 <-> a = b.
Proof.
  intros Ha Hb. rewrite strnatcmp_toks by done. rewrite cmp_eq.
  split; [by apply toks_inj|by intros ->].
Qed.

Lemma strnatcmp_anti a b : plain a -> plain b -> strnatcmp b a = - strnatcmp a b.
Proof. intros Ha Hb. rewrite !strnatcmp_toks by done. apply cmp_anti. Qed.

Lemma strnatcmp_trans a b c : plain a -> plain b -> plain c ->
  strnatcmp a b <= 0 -> strnatcmp b c <= 0 -> strnatcmp a c <= 0.
Proof. intros Ha Hb Hc. rewrite !strnatcmp_toks by done. apply cmp_trans. Qed.

(** A common start that does not end within a number does not matter. *)
Lemma digit_run_stop q x : (exists c, last q = Some c /\ isdigit c = false) -> digit_run (q ++ x) = digit_run q.
Proof.
  intros (c & Hl & Hc). induction q as [|a q IH]; [done|]. cbn [app digit_run]. destruct (isdigit a) eqn:Ea; [|done].
  f_equal. apply IH. destruct q as [|b q]; [|done]. simpl in Hl. congruence.
Qed.

Lemma strnatcmp_common p x y : plain (p ++ x) -> plain (p ++ y) -> (forall c, last p = Some c -> isdigit c = false) ->
  strnatcmp (p ++ x) (p ++ y) = strnatcmp x y.
Proof.
  intros Hx Hy. pose proof (proj2 (proj1 (Forall_app _ _ _) Hx)) as Hx'. pose proof (proj2 (proj1 (Forall_app _ _ _) Hy)) as Hy'.
  rewrite !strnatcmp_toks by done. clear. induction p as [|c p IH]; [done|]. intros Hl. cbn [app toks lex].
  assert (E : tok (c :: p ++ x) = tok (c :: p ++ y)).
  { assert (Hs : exists d, last (c :: p) = Some d /\ isdigit d = false).
    { destruct (last (c :: p)) as [d|] eqn:Hd; [exists d; split; [done|by apply Hl]|by apply last_None in Hd]. }
    pose proof (digit_run_stop _ x Hs) as Ex. pose proof (digit_run_stop _ y Hs) as Ey.
    rewrite <-!app_comm_cons in *. unfold tok. by rewrite Ex, Ey. }
  rewrite E, (cmp_refl lexz), Z.eqb_refl. apply IH. intros d Hd. apply Hl. by destruct p.
Qed.

(** Numbers of the same length compare by their digits. *)
Lemma scan_digits_lt a : forall b n m, Forall (fun c => isdigit c = true) a -> Forall (fun c => isdigit c = true) b ->
  length a = length b -> n < m -> (scan_digits n a).1 < (scan_digits m b).1.
Proof.
  induction a as [|x a IH]; intros [|y b] n m Ha Hb Hl Hlt; try done. cbn [scan_digits].
  rewrite Forall_cons in Ha, Hb. destruct Ha as [Hx Ha], Hb as [Hy Hb]. rewrite Hx, Hy.
  apply IH; [done|done|by injection Hl|]. unfold isdigit in *. lia.
Qed.

Lemma lexz_scan a : forall b n, Forall (fun c => isdigit c = true) a -> Forall (fun c => isdigit c = true) b ->
  length a = length b -> lexz a b = Zcmp (scan_digits n a).1 (scan_digits n b).1.
Proof.
  induction a as [|x a IH]; intros [|y b] n Ha Hb Hl; try done; [by rewrite (cmp_refl Zcmp)|]. cbn [scan_digits lex].
  rewrite Forall_cons in Ha, Hb. destruct Ha as [Hx Ha], Hb as [Hy Hb]. rewrite Hx, Hy. injection Hl as Hl.
  destruct (Z.lt_trichotomy x y) as [Hlt|[->|Hlt]].
  - pose proof (scan_digits_lt a b (n * 10 + (x - 48)) (n * 10 + (y - 48)) Ha Hb Hl ltac:(lia)).
    by rewrite !Zcmp_lt by lia.
  - rewrite (cmp_refl Zcmp). by apply IH.
  - pose proof (scan_digits_lt b a (n * 10 + (y - 48)) (n * 10 + (x - 48)) Hb Ha (eq_sym Hl) ltac:(lia)).
    by rewrite !Zcmp_gt by lia.
Qed.
