(* ===== verification/Hostlist.v ===== *)
(** * Host list expressions: src/common/hostlist.c

    The data structure: host names split in a prefix and a number, ranges of
    hosts, arrays of ranges, and the operations on them that do not print or
    parse expressions.  A list owns its range objects: every object lives in
    one slot of the array, with a number that stands for its address, and the
    iterators of a list refer to ranges by address.  Reading through a pointer
    that is NULL or whose object has been freed faults. *)

From S2P Require Import Prelude NatCmp.

Local Open Scope Z_scope.
Local Open Scope slurm_scope.

(** ** Cluster configuration: src/common/working_cluster.c *)

Definition CLUSTER_FLAG_CRAY : Z := 0x00000500.

Record cluster_rec : Type := ClusterRec { cl_dimensions : Z; cl_flags : Z }.

(** The remote cluster that commands work on, if any, and what the build was
    configured for. *)
Record cluster_env : Type := ClusterEnv {
  working_cluster_rec : option cluster_rec;
  SYSTEM_DIMENSIONS : Z;
  HAVE_CRAY : bool
}.

Definition slurmdb_setup_cluster_dims (env : cluster_env) : Z :=
  match working_cluster_rec env with Some r => cl_dimensions r | None => SYSTEM_DIMENSIONS env end.

Definition is_cray_system (env : cluster_env) : bool :=
  match working_cluster_rec env with
  | Some r => negb (Z.land (cl_flags r) CLUSTER_FLAG_CRAY =? 0)
  | None => HAVE_CRAY env
  end.

Definition slurmdb_setup_cluster_name_dims (env : cluster_env) : Z :=
  if is_cray_system env then 1 else slurmdb_setup_cluster_dims env.

(** ** Constants, numbers and strings *)

Definition HOSTLIST_CHUNK : Z := 16.
Definition MAX_RANGE : Z := 64 * 1024.
Definition MAX_RANGES : Z := 64 * 1024.
Definition MAX_PREFIX_CNT : Z := 64 * 1024.
Definition MAXHOSTNAMELEN : Z := 64.
Definition ULONG_MAX : Z := 2 ^ 64 - 1.

Definition hostlist_get_base (dims : Z) : Z := if 1 <? dims then 36 else 10.

(** "0123456789ABCDEFGHIJKLMNOPQRSTUVWXYZ" *)
Definition alpha_num : cstr := seqZ 48 10 ++ seqZ 65 26.

Definition isupper (c : Z) : bool := (65 <=? c) && (c <=? 90).
Definition strlen (s : cstr) : Z := Z.of_nat (length s).

(** [strtoul(s, &rest, base)] for bases without a prefix of their own. *)
Definition digit_value (base c : Z) : option Z :=
  let v := if isdigit c then c - 48
           else if isupper c then c - 55
           else if (97 <=? c) && (c <=? 122) then c - 87
           else base in
  if v <? base then Some v else None.
Fixpoint scan_base (base n : Z) (s : cstr) : Z * cstr :=
  match s with
  | c :: s' => match digit_value base c with Some v => scan_base base (n * base + v) s' | None => (n, s) end
  | [] => (n, [])
  end.
Definition strtoul (base : Z) (s : cstr) : Z * cstr :=
  let t := skip_space s in
  let '(neg, t) := match t with
                   | 45 :: t' => (true, t') | 43 :: t' => (false, t') | _ => (false, t)
                   end in
  match t with
  | c :: _ =>
      match digit_value base c with
      | Some _ =>
          let '(n, rest) := scan_base base 0 t in
          (if ULONG_MAX <? n then ULONG_MAX else if neg then u64 (- n) else n, rest)
      | None => (0, s)
      end
  | [] => (0, s)
  end.

(** [printf("%0*lu", width, n)]. *)
Definition fmt_lu (width n : Z) : cstr :=
  let d := dec_digits 20 n [] in replicate (Z.to_nat width - length d) 48 ++ d.

(** The text that [snprintf] leaves in a buffer of [size] characters. *)
Definition snprintf (size : Z) (text : cstr) : cstr := take (Z.to_nat (size - 1)) text.

(** The number of decimal digits of an [unsigned long]: [while (num /= 10L) n++]. *)
Fixpoint count_digits (fuel : nat) (num n : Z) : Z :=
  match fuel with
  | O => n
  | S f => if num / 10 =? 0 then n else count_digits f (num / 10) (n + 1)
  end.
Definition _zero_padded (num width : Z) : Z :=
  let n := count_digits 20 num 1 in if n <? width then width - n else 0.

(** Whether the widths are equivalent, and the widths afterwards. *)
Definition _width_equiv (n wn m wm : Z) : bool * Z * Z :=
  if wn =? wm then (true, wn, wm) else
  let npad := _zero_padded n wn in
  let nmpad := _zero_padded n wm in
  let mpad := _zero_padded m wm in
  let mnpad := _zero_padded m wn in
  if negb (npad =? nmpad) && negb (mpad =? mnpad) then (false, wn, wm)
  else if negb (npad =? nmpad) then (true, wn, wn)
  else (true, wm, wm).

(** The digits of a multi-dimensional coordinate. *)
Fixpoint int_digits (dims : nat) (n base : Z) (out : list Z) : list Z :=
  match dims with
  | O => out
  | S d => int_digits d (Z.quot n base) base (Z.rem n base :: out)
  end.
Definition hostlist_parse_int_to_array (n dims base : Z) : list Z :=
  int_digits (Z.to_nat dims) (s32 n) (if base =? 0 then hostlist_get_base dims else base) [].
Definition coord_string (n dims : Z) : exec cstr :=
  mapM (aget alpha_num) (hostlist_parse_int_to_array n dims 0).

(** ** Host names *)

Record hostname_t : Type := Hostname {
  hn_hostname : cstr;
  hn_prefix : cstr;
  hn_num : Z;
  hn_suffix : option cstr
}.

Fixpoint drop_run (p : Z -> bool) (s : cstr) : cstr :=
  match s with c :: s' => if p c then drop_run p s' else s | [] => [] end.

(** The index of the last character of the prefix. *)
Definition host_prefix_end (env : cluster_env) (hostname : cstr) (dims : Z) : Z :=
  let dims := if dims =? 0 then slurmdb_setup_cluster_name_dims env else dims in
  let in_suffix c := if 1 <? dims then isdigit c || isupper c else isdigit c in
  strlen (drop_run in_suffix (rev hostname)) - 1.

Definition hostname_create_dims (env : cluster_env) (hostname : cstr) (dims : Z) : hostname_t :=
  let dims := if dims =? 0 then slurmdb_setup_cluster_name_dims env else dims in
  let idx := host_prefix_end env hostname dims in
  if idx =? strlen hostname - 1 then Hostname hostname hostname 0 None else
  let suffix := drop (Z.to_nat (idx + 1)) hostname in
  let base := if (1 <? dims) && negb (strlen suffix =? dims) then 10 else hostlist_get_base dims in
  let '(num, p) := strtoul base suffix in
  match p with
  | [] => Hostname hostname (take (Z.to_nat (idx + 1)) hostname) num (Some suffix)
  | _ :: _ => Hostname hostname hostname num None
  end.

Definition hostname_create (env : cluster_env) (hostname : cstr) : hostname_t :=
  hostname_create_dims env hostname (slurmdb_setup_cluster_name_dims env).

(** ** Ranges of hosts *)

(** [lo] and [hi] are unsigned longs; for a single host without a number they
    are not used, apart from marking the host as removed. *)
Record hostrange : Type := Hostrange {
  hr_prefix : cstr;
  hr_lo : Z;
  hr_hi : Z;
  hr_width : Z;
  hr_singlehost : bool
}.

Definition with_lo (h : hostrange) (lo : Z) : hostrange :=
  Hostrange (hr_prefix h) lo (hr_hi h) (hr_width h) (hr_singlehost h).
Definition with_hi (h : hostrange) (hi : Z) : hostrange :=
  Hostrange (hr_prefix h) (hr_lo h) hi (hr_width h) (hr_singlehost h).
Definition with_width (h : hostrange) (w : Z) : hostrange :=
  Hostrange (hr_prefix h) (hr_lo h) (hr_hi h) w (hr_singlehost h).

Definition hostrange_create_single (prefix : cstr) : hostrange := Hostrange prefix 0 0 0 true.
Definition hostrange_create (prefix : cstr) (lo hi width : Z) : hostrange :=
  Hostrange prefix lo hi width false.

Definition hostrange_count (h : hostrange) : Z :=
  if hr_singlehost h then 1 else u64 (hr_hi h - hr_lo h + 1).

Definition hostrange_copy (h : hostrange) : hostrange :=
  if hr_singlehost h then hostrange_create_single (hr_prefix h)
  else hostrange_create (hr_prefix h) (hr_lo h) (hr_hi h) (hr_width h).

(** The range afterwards, and the upper part when it is split in two. *)
Definition hostrange_delete_host (h : hostrange) (n : Z) : exec (hostrange * option hostrange) :=
  assert! (hr_lo h <=? n) && (n <=? hr_hi h);;
  if n =? hr_lo h then Ret (with_lo h (u64 (hr_lo h + 1)), None)
  else if n =? hr_hi h then Ret (with_hi h (u64 (hr_hi h - 1)), None)
  else Ret (with_hi h (u64 (n - 1)), Some (with_lo (hostrange_copy h) (u64 (n + 1)))).

Definition bit (b : bool) : Z := if b then 1 else 0.

Definition hostrange_prefix_cmp (h1 h2 : option hostrange) : Z :=
  match h1, h2 with
  | None, _ => 1
  | Some _, None => -1
  | Some h1, Some h2 =>
      let retval := strnatcmp (hr_prefix h1) (hr_prefix h2) in
      if retval =? 0 then bit (hr_singlehost h2) - bit (hr_singlehost h1) else retval
  end.

Definition hostrange_within_range (h1 h2 : option hostrange) : bool :=
  (hostrange_prefix_cmp h1 h2 =? 0) &&
  match h1, h2 with
  | Some h1, Some h2 => negb (hr_singlehost h1 || hr_singlehost h2)
  | _, _ => false
  end.

(** Compatible widths are made equal in the range objects. *)
Definition hostrange_width_combine (h0 h1 : hostrange) : bool * hostrange * hostrange :=
  let '(rc, w0, w1) := _width_equiv (hr_lo h0) (hr_width h0) (hr_lo h1) (hr_width h1) in
  (rc, with_width h0 w0, with_width h1 w1).

Definition hostrange_cmp (h1 h2 : hostrange) : Z * hostrange * hostrange :=
  let retval := hostrange_prefix_cmp (Some h1) (Some h2) in
  if negb (retval =? 0) then (retval, h1, h2) else
  let '(rc, h1, h2) := hostrange_width_combine h1 h2 in
  (s32 (if rc then hr_lo h1 - hr_lo h2 else hr_width h1 - hr_width h2), h1, h2).

Definition hostrange_empty (h : hostrange) : bool := (hr_hi h <? hr_lo h) || (hr_hi h =? ULONG_MAX).

(** The text of host [n] of a range, in a buffer of the size that the caller
    allocates. *)
Definition hostrange_host (h : hostrange) (n dims : Z) : exec cstr :=
  let size := strlen (hr_prefix h) + hr_width h + 16 in
  if (1 <? dims) && (hr_width h =? dims) then
    c ← coord_string n dims;
    Ret (if strlen (hr_prefix h) + dims <? size then hr_prefix h ++ c else snprintf size (hr_prefix h))
  else Ret (snprintf size (hr_prefix h ++ fmt_lu (hr_width h) n)).

Definition hostrange_pop (env : cluster_env) (h : hostrange) : exec (option cstr * hostrange) :=
  let dims := slurmdb_setup_cluster_name_dims env in
  if hr_singlehost h then Ret (Some (hr_prefix h), with_lo h (u64 (hr_lo h + 1))) else
  if 0 <? hostrange_count h then
    host ← hostrange_host h (hr_hi h) dims;
    Ret (Some host, with_hi h (u64 (hr_hi h - 1)))
  else Ret (None, h).

Definition hostrange_shift (env : cluster_env) (h : hostrange) (dims : Z) : exec (option cstr * hostrange) :=
  let dims := if dims =? 0 then slurmdb_setup_cluster_name_dims env else dims in
  if hr_singlehost h then Ret (Some (hr_prefix h), with_lo h (u64 (hr_lo h + 1))) else
  if 0 <? hostrange_count h then
    host ← hostrange_host h (hr_lo h) dims;
    Ret (Some host, with_lo h (u64 (hr_lo h + 1)))
  else Ret (None, h).

(** The number of hosts of the second range that the first one had, or -1 when
    they cannot be joined; the test in [assert] sets the widths as well. *)
Definition hostrange_join (h1 h2 : hostrange) : exec (Z * hostrange * hostrange) :=
  let '(c, h1, h2) := hostrange_cmp h1 h2 in
  assert! c <=? 0;;
  if negb (hostrange_prefix_cmp (Some h1) (Some h2) =? 0) then Ret (-1, h1, h2) else
  let '(rc, h1, h2) := hostrange_width_combine h1 h2 in
  if negb rc then Ret (-1, h1, h2) else
  if hr_singlehost h1 && hr_singlehost h2 then Ret (1, h1, h2)
  else if hr_hi h1 =? u64 (hr_lo h2 - 1) then Ret (0, with_hi h1 (hr_hi h2), h2)
  else if hr_lo h2 <=? hr_hi h1 then
    if hr_hi h1 <? hr_hi h2
    then Ret (s32 (hr_hi h1 - hr_lo h2 + 1), with_hi h1 (hr_hi h2), h2)
    else Ret (s32 (hostrange_count h2), h1, h2)
  else Ret (-1, h1, h2).

Definition hostrange_intersect (h1 h2 : hostrange) : exec (option hostrange * hostrange * hostrange) :=
  if hr_singlehost h1 || hr_singlehost h2 then Ret (None, h1, h2) else
  let '(c, h1, h2) := hostrange_cmp h1 h2 in
  assert! c <=? 0;;
  if negb ((hr_lo h2 <? hr_hi h1) && (hostrange_prefix_cmp (Some h1) (Some h2) =? 0))
  then Ret (None, h1, h2) else
  let '(rc, h1, h2) := hostrange_width_combine h1 h2 in
  if negb rc then Ret (None, h1, h2) else
  let new := hostrange_copy h1 in
  Ret (Some (with_hi (with_lo new (hr_lo h2)) (if hr_hi h2 <? hr_hi h1 then hr_hi h2 else hr_hi h1)), h1, h2).

(** Whether the prefixes match.  When the prefix of the range ends in digits that
    can be digits of the host's number, the split of the host name is moved, and
    stays moved for the caller. *)
Definition prefix_match (env : cluster_env) (h : hostrange) (hn : hostname_t) (suffix : cstr) : exec (bool * hostname_t) :=
  if bool_decide (hr_prefix h = hn_prefix hn) then Ret (true, hn) else
  if negb (slurmdb_setup_cluster_name_dims env =? 1) then Ret (false, hn) else
  let ldiff := strlen (hr_prefix h) - strlen (hn_prefix hn) in
  if 0 <? ldiff then
    c ← aget (hr_prefix h) (strlen (hr_prefix h) - 1);
    if isdigit c && (ldiff <=? strlen suffix) then
      let prefix := hn_prefix hn ++ take (Z.to_nat ldiff) suffix in
      let suffix := drop (Z.to_nat ldiff) suffix in
      Ret (bool_decide (hr_prefix h = prefix),
           Hostname (hn_hostname hn) prefix (strtoul 10 suffix).1 (Some suffix))
    else Ret (false, hn)
  else Ret (false, hn).

(** Whether the host is in the range. *)
Definition hostrange_hn_within (env : cluster_env) (h : hostrange) (hn : hostname_t) :
    exec (bool * hostrange * hostname_t) :=
  if hr_singlehost h then Ret (bool_decide (hn_hostname hn = hr_prefix h), h, hn) else
  match hn_suffix hn with
  | None => Ret (false, h, hn)
  | Some suffix =>
      '(same, hn) ← prefix_match env h hn suffix;
      if negb same then Ret (false, h, hn) else
      if (hn_num hn <=? hr_hi h) && (hr_lo h <=? hn_num hn) then
        let width := strlen (default [] (hn_suffix hn)) in
        let '(rc, w, _) := _width_equiv (hr_lo h) (hr_width h) (u64 (s32 (hn_num hn))) width in
        Ret (rc, with_width h w, hn)
      else Ret (false, h, hn)
  end.

(** ** Lists of ranges *)

(** An iterator: its index in the array, the address of its current range
    (NULL is [None]) and the depth it has reached in that range. *)
Record hiter : Type := Hiter {
  it_idx : Z;
  it_hr : option nat;
  it_depth : Z
}.

(** [hl_hr] is the allocated array, [hl_size] slots of which the first
    [hl_nranges] are used; a used slot holds the address and the contents of a
    range object.  [hl_ilist] holds the iterators by their handles, the newest
    first.  [hl_fresh] is the next unused address and handle. *)
Record hostlist : Type := Hostlist {
  hl_size : Z;
  hl_nranges : Z;
  hl_nhosts : Z;
  hl_hr : list (option (nat * hostrange));
  hl_ilist : list (nat * hiter);
  hl_fresh : nat
}.

Definition with_nhosts (hl : hostlist) (n : Z) : hostlist :=
  Hostlist (hl_size hl) (hl_nranges hl) n (hl_hr hl) (hl_ilist hl) (hl_fresh hl).
Definition with_ranges (hl : hostlist) (n : Z) (hr : list (option (nat * hostrange))) : hostlist :=
  Hostlist (hl_size hl) n (hl_nhosts hl) hr (hl_ilist hl) (hl_fresh hl).
Definition with_ilist (hl : hostlist) (l : list (nat * hiter)) : hostlist :=
  Hostlist (hl_size hl) (hl_nranges hl) (hl_nhosts hl) (hl_hr hl) l (hl_fresh hl).
Definition with_fresh (hl : hostlist) (n : nat) : hostlist :=
  Hostlist (hl_size hl) (hl_nranges hl) (hl_nhosts hl) (hl_hr hl) (hl_ilist hl) n.

Definition hostlist_new : hostlist :=
  Hostlist HOSTLIST_CHUNK 0 0 (replicate (Z.to_nat HOSTLIST_CHUNK) None) [] 0.

(** The range that [hl->hr[i]] points to. *)
Definition range_at (hl : hostlist) (i : Z) : exec (nat * hostrange) :=
  s ← aget (hl_hr hl) i;
  match s with Some x => Ret x | None => Fault end.
Definition set_slot (hl : hostlist) (i : Z) (s : option (nat * hostrange)) : exec hostlist :=
  hr ← aset (hl_hr hl) i s; Ret (with_ranges hl (hl_nranges hl) hr).
Definition set_range (hl : hostlist) (i : Z) (h : hostrange) : exec hostlist :=
  '(a, _) ← range_at hl i; set_slot hl i (Some (a, h)).

(** Reading and writing a range through its address. *)
Definition deref (hl : hostlist) (p : option nat) : exec hostrange :=
  match p ≫= fun a => list_find (fun s => fst <$> s = Some a) (hl_hr hl) with
  | Some (_, Some (_, h)) => Ret h
  | _ => Fault
  end.
Definition store_range (hl : hostlist) (p : option nat) (h : hostrange) : exec hostlist :=
  match p with
  | Some a =>
      match list_find (fun s => fst <$> s = Some a) (hl_hr hl) with
      | Some (i, _) => set_slot hl (Z.of_nat i) (Some (a, h))
      | None => Fault
      end
  | None => Fault
  end.

Definition hostlist_resize (hl : hostlist) (newsize : Z) : hostlist :=
  Hostlist newsize (hl_nranges hl) (hl_nhosts hl) (resize (Z.to_nat newsize) None (hl_hr hl))
    (hl_ilist hl) (hl_fresh hl).
Definition hostlist_expand (hl : hostlist) : hostlist := hostlist_resize hl (hl_size hl + HOSTLIST_CHUNK).
(** [if (hl->size == hl->nranges && !hostlist_expand(hl)) ...]. *)
Definition hl_room (hl : hostlist) : hostlist :=
  if hl_size hl =? hl_nranges hl then hostlist_expand hl else hl.

(** Extend the last range by [h] if [h] follows it; whether it was. *)
Definition join_tail (hl : hostlist) (h : hostrange) : exec (bool * hostlist * hostrange) :=
  if 0 <? hl_nranges hl then
    '(_, tail) ← range_at hl (hl_nranges hl - 1);
    if (hr_hi tail =? u64 (hr_lo h - 1)) && (hostrange_prefix_cmp (Some tail) (Some h) =? 0) then
      let '(rc, tail, h) := hostrange_width_combine tail h in
      hl ← set_range hl (hl_nranges hl - 1) (if rc then with_hi tail (hr_hi h) else tail);
      Ret (rc, hl, h)
    else Ret (false, hl, h)
  else Ret (false, hl, h).

(** [hl->hr[hl->nranges++] = hostrange_copy(hr)]. *)
Definition append_range (hl : hostlist) (h : hostrange) : exec hostlist :=
  hl' ← set_slot hl (hl_nranges hl) (Some (hl_fresh hl, hostrange_copy h));
  Ret (with_fresh (with_ranges hl' (hl_nranges hl + 1) (hl_hr hl')) (S (hl_fresh hl))).

(** The number of hosts in the list afterwards, the list and the range that was
    pushed, whose width may have been set. *)
Definition hostlist_push_range (hl : hostlist) (h : hostrange) : exec (Z * hostlist * hostrange) :=
  '(joined, hl, h) ← join_tail (hl_room hl) h;
  hl ← (if joined : bool then Ret hl else append_range hl h);
  let retval := s32 (hl_nhosts hl + hostrange_count h) in
  Ret (retval, with_nhosts hl retval, h).

Definition hostlist_push_hr (hl : hostlist) (prefix : cstr) (lo hi width : Z) : exec (Z * hostlist) :=
  '(retval, hl, _) ← hostlist_push_range hl (hostrange_create prefix lo hi width);
  Ret (retval, hl).

(** The address in a slot of the array. *)
Definition slot_ptr (hl : hostlist) (i : Z) : exec (option nat) :=
  s ← aget (hl_hr hl) i; Ret (option_map fst s).

(** [for each iterator of the list]. *)
Definition for_iterators (hl : hostlist) (f : hiter -> exec hiter) : exec hostlist :=
  l ← mapM (fun '(k, i) => i ← f i; Ret (k, i)) (hl_ilist hl);
  Ret (with_ilist hl l).

Definition hostlist_iterator_reset_in (hl : hostlist) (i : hiter) : exec hiter :=
  p ← slot_ptr hl 0; Ret (Hiter 0 p (-1)).

Definition hostlist_shift_iterators (hl : hostlist) (idx depth n : Z) : exec hostlist :=
  for_iterators hl (fun i =>
    if n =? 0 then
      Ret (if (it_idx i =? idx) && (depth <=? it_depth i)
           then Hiter (it_idx i) (it_hr i) (if -1 <? it_depth i then it_depth i - 1 else -1)
           else i)
    else if idx <=? it_idx i then
      let idx' := it_idx i - n in
      if 0 <=? idx' then p ← slot_ptr hl idx'; Ret (Hiter idx' p (it_depth i))
      else hostlist_iterator_reset_in hl (Hiter idx' (it_hr i) (it_depth i))
    else Ret i).

(** Insert a copy of the range at position [n]. *)
Definition hostlist_insert_range (hl : hostlist) (h : hostrange) (n : Z) : exec (Z * hostlist) :=
  if hl_nranges hl <? n then Ret (0, hl) else
  let hl := hl_room hl in
  tmp ← aget (hl_hr hl) n;
  hl ← set_slot hl n (Some (hl_fresh hl, hostrange_copy h));
  let hl := with_fresh hl (S (hl_fresh hl)) in
  '(hr, _) ← for_while (fun _ => true)
    (fun i '(hr, tmp) =>
       last ← aget hr i;
       hr ← aset hr i tmp;
       Ret (hr, last))
    (Z.to_nat (hl_nranges hl - n)) (n + 1) (hl_hr hl, tmp);
  let hl := with_ranges hl (hl_nranges hl + 1) hr in
  hl ← for_iterators hl (fun i =>
    if n <=? it_idx i then
      p ← slot_ptr hl (it_idx i + 1); Ret (Hiter (it_idx i + 1) p (it_depth i))
    else Ret i);
  Ret (1, hl).

(** The object at position [n] is freed; the caller adjusts [nhosts]. *)
Definition hostlist_delete_range (hl : hostlist) (n : Z) : exec hostlist :=
  assert! (n <? hl_nranges hl) && (0 <=? n);;
  hr ← for_while (fun _ => true)
    (fun i hr => s ← aget hr (i + 1); aset hr i s)
    (Z.to_nat (hl_nranges hl - 1 - n)) n (hl_hr hl);
  hr ← aset hr (hl_nranges hl - 1) None;
  hostlist_shift_iterators (with_ranges hl (hl_nranges hl - 1) hr) n 0 1.

Definition hostlist_copy (hl : hostlist) : exec hostlist :=
  let new := if HOSTLIST_CHUNK <? hl_nranges hl then hostlist_resize hostlist_new (hl_nranges hl)
             else hostlist_new in
  hr ← for_while (fun _ => true)
    (fun i hr =>
       '(_, h) ← range_at hl i;
       aset hr i (Some (Z.to_nat i, hostrange_copy h)))
    (Z.to_nat (hl_nranges hl)) 0 (hl_hr new);
  Ret (Hostlist (hl_size new) (hl_nranges hl) (hl_nhosts hl) hr [] (Z.to_nat (hl_nranges hl))).

(** The range that holds just this host. *)
Definition range_of_host (hn : hostname_t) (str : cstr) : hostrange :=
  match hn_suffix hn with
  | Some suffix => hostrange_create (hn_prefix hn) (hn_num hn) (hn_num hn) (strlen suffix)
  | None => hostrange_create_single str
  end.
Definition hostlist_push_host_dims (env : cluster_env) (hl : hostlist) (str : cstr) (dims : Z) :
    exec (Z * hostlist) :=
  let dims := if dims =? 0 then slurmdb_setup_cluster_name_dims env else dims in
  '(_, hl, _) ← hostlist_push_range hl (range_of_host (hostname_create_dims env str dims) str);
  Ret (1, hl).
Definition hostlist_push_host (env : cluster_env) (hl : hostlist) (str : cstr) : exec (Z * hostlist) :=
  hostlist_push_host_dims env hl str (slurmdb_setup_cluster_name_dims env).

(** Push the ranges of [h2], whose widths may be set, onto [h1]. *)
Definition hostlist_push_list (h1 h2 : hostlist) : exec (Z * hostlist * hostlist) :=
  for_while (fun _ => true)
    (fun i '(n, h1, h2) =>
       '(_, h) ← range_at h2 i;
       '(k, h1, h) ← hostlist_push_range h1 h;
       h2 ← set_range h2 i h;
       n ← i32 (n + k);
       Ret (n, h1, h2))
    (Z.to_nat (hl_nranges h2)) 0 (0, h1, h2).

Definition hostlist_pop (env : cluster_env) (hl : hostlist) : exec (option cstr * hostlist) :=
  if hl_nhosts hl <=? 0 then Ret (None, hl) else
  '(_, h) ← range_at hl (hl_nranges hl - 1);
  '(host, h) ← hostrange_pop env h;
  hl ← set_range hl (hl_nranges hl - 1) h;
  let hl := with_nhosts hl (hl_nhosts hl - 1) in
  if hostrange_empty h then
    hl' ← set_slot hl (hl_nranges hl - 1) None;
    Ret (host, with_ranges hl' (hl_nranges hl - 1) (hl_hr hl'))
  else Ret (host, hl).

Definition hostlist_shift_dims (env : cluster_env) (hl : hostlist) (dims : Z) : exec (option cstr * hostlist) :=
  let dims := if dims =? 0 then slurmdb_setup_cluster_name_dims env else dims in
  if hl_nhosts hl <=? 0 then Ret (None, hl) else
  '(_, h) ← range_at hl 0;
  '(host, h) ← hostrange_shift env h dims;
  hl ← set_range hl 0 h;
  let hl := with_nhosts hl (hl_nhosts hl - 1) in
  hl ← (if hostrange_empty h then hostlist_delete_range hl 0 else hostlist_shift_iterators hl 0 0 0);
  Ret (host, hl).
Definition hostlist_shift (env : cluster_env) (hl : hostlist) : exec (option cstr * hostlist) :=
  hostlist_shift_dims env hl 0.

(** ** Positions and searching *)

(** The text of the host at [depth] of a range, in a buffer of
    [MAXHOSTNAMELEN + 16] characters. *)
Definition host_text (h : hostrange) (depth dims : Z) : exec (option cstr) :=
  let size := MAXHOSTNAMELEN + 16 in
  let len := strlen (hr_prefix h) in
  if size <=? len + dims then Ret None else
  if hr_singlehost h then Ret (Some (hr_prefix h)) else
  if (1 <? dims) && (hr_width h =? dims) then
    c ← coord_string (u64 (hr_lo h + depth)) dims;
    Ret (Some (hr_prefix h ++ c))
  else
    let text := fmt_lu (hr_width h) (u64 (hr_lo h + depth)) in
    if size <=? strlen text then Ret None else Ret (Some (hr_prefix h ++ snprintf (size - len) text)).

Definition _hostrange_string (env : cluster_env) (h : hostrange) (depth : Z) : exec (option cstr) :=
  host_text h depth (slurmdb_setup_cluster_name_dims env).

(** [for (i = 0; i < nranges; i++) if (n <= num_in_range - 1 + count) ...]: the
    index of the range that holds host [n] and the hosts before that range. *)
Definition locate (hl : hostlist) (n : Z) : exec (option (Z * Z)) :=
  '(_, r) ← for_while (fun '(_, r) => bool_decide (r = None))
    (fun i '(count, _) =>
       '(_, h) ← range_at hl i;
       let num_in_range := s32 (hostrange_count h) in
       if n <=? num_in_range - 1 + count then Ret (count, Some (i, count))
       else c ← i32 (count + num_in_range); Ret (c, None))
    (Z.to_nat (hl_nranges hl)) 0 (0, None);
  Ret r.

Definition hostlist_nth (env : cluster_env) (hl : hostlist) (n : Z) : exec (option cstr) :=
  r ← locate hl n;
  match r with
  | Some (i, count) => '(_, h) ← range_at hl i; _hostrange_string env h (n - count)
  | None => Ret None
  end.

Definition hostlist_delete_nth (hl : hostlist) (n : Z) : exec (Z * hostlist) :=
  assert! (0 <=? n) && (n <=? hl_nhosts hl);;
  r ← locate hl n;
  hl ←
    match r with
    | None => Ret hl
    | Some (i, count) =>
        '(_, h) ← range_at hl i;
        if hr_singlehost h then hostlist_delete_range hl i else
        '(h, new) ← hostrange_delete_host h (u64 (hr_lo h + n - count));
        hl ← set_range hl i h;
        match new with
        | Some new => '(_, hl) ← hostlist_insert_range hl new (i + 1); Ret hl
        | None => if hostrange_empty h then hostlist_delete_range hl i else Ret hl
        end
    end;
  Ret (1, with_nhosts hl (hl_nhosts hl - 1)).

Definition hostlist_count (hl : hostlist) : Z := hl_nhosts hl.

(** Searching sets widths in the list; the index is -1 if the host is not found. *)
Definition hostlist_find (env : cluster_env) (hl : hostlist) (hostname : cstr) : exec (Z * hostlist) :=
  '(_, _, ret, hl) ← for_while (fun '(_, _, ret, _) => bool_decide (ret = None))
    (fun i '(hn, count, _, hl) =>
       '(_, h) ← range_at hl i;
       '(within, h, hn) ← hostrange_hn_within env h hn;
       hl ← set_range hl i h;
       if within : bool then
         let ret := match hn_suffix hn with Some _ => s32 (count + hn_num hn - hr_lo h) | None => count end in
         Ret (hn, count, Some ret, hl)
       else Ret (hn, s32 (count + hostrange_count h), None, hl))
    (Z.to_nat (hl_nranges hl)) 0 (hostname_create env hostname, 0, None, hl);
  Ret (default (-1) ret, hl).

Definition hostlist_delete_host (env : cluster_env) (hl : hostlist) (hostname : cstr) : exec (Z * hostlist) :=
  '(n, hl) ← hostlist_find env hl hostname;
  if 0 <=? n then '(_, hl) ← hostlist_delete_nth hl n; Ret (1, hl) else Ret (0, hl).

(** ** Sorting *)

(** [qsort] of the C library, a merge sort by halves; the comparison function
    sets the widths of the ranges it compares. *)
Section qsort.
Context {A : Type} (cmp : A -> A -> Z * A * A).

Fixpoint msort_merge (fuel : nat) (l1 l2 : list A) : list A :=
  match fuel with
  | O => []
  | S f =>
      match l1, l2 with
      | [], _ => l2
      | _, [] => l1
      | x :: l1', y :: l2' =>
          let '(c, x, y) := cmp x y in
          if c <=? 0 then x :: msort_merge f l1' (y :: l2') else y :: msort_merge f (x :: l1') l2'
      end
  end.

Fixpoint msort (fuel : nat) (l : list A) : list A :=
  match fuel with
  | O => l
  | S f =>
      if (length l <=? 1)%nat then l else
      let n1 := (length l / 2)%nat in
      msort_merge (S (length l)) (msort f (take n1 l)) (msort f (drop n1 l))
  end.
Definition qsort (l : list A) : list A := msort (length l) l.
End qsort.

Definition _cmp (x y : nat * hostrange) : Z * (nat * hostrange) * (nat * hostrange) :=
  let '(c, h1, h2) := hostrange_cmp x.2 y.2 in (c, (x.1, h1), (y.1, h2)).

(** The used slots of the array, all of which must hold a range. *)
Definition used_ranges (hl : hostlist) : exec (list (nat * hostrange)) :=
  mapM (range_at hl) (seqZ 0 (hl_nranges hl)).
Definition sort_ranges (hl : hostlist) : exec hostlist :=
  l ← used_ranges hl;
  Ret (with_ranges hl (hl_nranges hl) ((Some <$> qsort _cmp l) ++ drop (Z.to_nat (hl_nranges hl)) (hl_hr hl))).

Definition hostlist_collapse (hl : hostlist) : exec hostlist :=
  '(_, hl) ← for_while (fun _ => true)
    (fun _ '(i, hl) =>
       '(_, hprev) ← range_at hl (i - 1);
       '(_, hnext) ← range_at hl i;
       if (hr_hi hprev =? u64 (hr_lo hnext - 1)) &&
          (hostrange_prefix_cmp (Some hprev) (Some hnext) =? 0) then
         let '(rc, hprev, hnext) := hostrange_width_combine hprev hnext in
         hl ← set_range hl i hnext;
         if rc : bool then
           hl ← set_range hl (i - 1) (with_hi hprev (hr_hi hnext));
           hl ← hostlist_delete_range hl i;
           Ret (i - 1, hl)
         else hl ← set_range hl (i - 1) hprev; Ret (i - 1, hl)
       else Ret (i - 1, hl))
    (Z.to_nat (hl_nranges hl - 1)) 0 (hl_nranges hl - 1, hl);
  Ret hl.

(** The hosts that two neighbouring ranges share are put between them one by
    one, each as often as it occurs. *)
Definition spread (fuel : nat) (pprev pnext : option nat) (new : hostrange) (j : Z) (hl : hostlist) : exec hostlist :=
  '(_, _, hl) ← loop fuel (fun '(new, j, hl) =>
    if hr_hi new <? hr_lo new then Ret (inr (new, j, hl)) else
    let h := hostrange_create (hr_prefix new) (hr_lo new) (hr_lo new) (hr_width new) in
    hprev ← deref hl pprev;
    '(j, hl) ← (if hr_hi hprev <? hr_lo new
                then '(_, hl) ← hostlist_insert_range hl h j; Ret (j + 1, hl) else Ret (j, hl));
    hnext ← deref hl pnext;
    '(j, hl) ← (if hr_lo new <? hr_lo hnext
                then '(_, hl) ← hostlist_insert_range hl h j; Ret (j + 1, hl) else Ret (j, hl));
    Ret (inl (with_lo new (u64 (hr_lo new + 1)), j, hl)))
    (new, j, hl);
  Ret hl.

(** One round of the loop: ranges [i - 1] and [i], if there are such. *)
Definition coalesce_step (fuel : nat) : Z * hostlist -> exec (Z * hostlist + hostlist) :=
  fun '(i, hl) =>
    if i <=? 0 then Ret (inr hl) else
    '(pprev, hprev) ← range_at hl (i - 1);
    '(pnext, hnext) ← range_at hl i;
    '(new, hprev, hnext) ← hostrange_intersect hprev hnext;
    hl ← set_range hl (i - 1) hprev;
    hl ← set_range hl i hnext;
    match new with
    | None => Ret (inl (i - 1, hl))
    | Some new =>
        let hnext := if hr_hi new <? hr_hi hprev then with_hi hnext (hr_hi hprev) else hnext in
        let hprev := with_hi hprev (hr_lo new) in
        let hnext := with_lo hnext (hr_hi new) in
        hl ← set_range hl (i - 1) hprev;
        hl ← set_range hl i hnext;
        hl ← (if hostrange_empty hprev then hostlist_delete_range hl i else Ret hl);
        hl ← spread fuel (Some pprev) (Some pnext) new i hl;
        Ret (inl (hl_nranges hl - 1, hl))
    end.

Definition hostlist_coalesce (fuel : nat) (hl : hostlist) : exec hostlist :=
  hl ← loop fuel (coalesce_step fuel) (hl_nranges hl - 1, hl);
  hostlist_collapse hl.

Definition reset_iterators (hl : hostlist) : exec hostlist := for_iterators hl (hostlist_iterator_reset_in hl).

Definition hostlist_sort (fuel : nat) (hl : hostlist) : exec hostlist :=
  if hl_nranges hl <=? 1 then Ret hl else
  hl ← sort_ranges hl;
  hl ← reset_iterators hl;
  hostlist_coalesce fuel hl.

Definition _attempt_range_join (hl : hostlist) (loc : Z) : exec (Z * hostlist) :=
  assert! 0 <? loc;;
  assert! loc <? hl_nranges hl;;
  '(_, h1) ← range_at hl (loc - 1);
  '(_, h2) ← range_at hl loc;
  '(ndup, h1, h2) ← hostrange_join h1 h2;
  hl ← set_range hl (loc - 1) h1;
  hl ← set_range hl loc h2;
  if 0 <=? ndup then
    hl ← hostlist_delete_range hl loc;
    Ret (ndup, with_nhosts hl (hl_nhosts hl - ndup))
  else Ret (ndup, hl).

(** Each iteration removes a range or goes on to the next one. *)
Definition uniq_fuel (hl : hostlist) : nat := S (Z.to_nat (hl_nranges hl)).
Definition hostlist_uniq (hl : hostlist) : exec hostlist :=
  if hl_nranges hl <=? 1 then Ret hl else
  hl ← sort_ranges hl;
  hl ← loop (uniq_fuel hl) (fun '(i, hl) =>
    if i <? hl_nranges hl then
      '(rc, hl) ← _attempt_range_join hl i;
      Ret (inl (if rc <? 0 then i + 1 else i, hl))
    else Ret (inr hl))
    (1, hl);
  reset_iterators hl.

(** ** Iterators *)

Definition iter_at (hl : hostlist) (k : nat) : exec hiter :=
  match list_find (fun x => x.1 = k) (hl_ilist hl) with Some (_, (_, i)) => Ret i | None => Fault end.
Definition set_iter (hl : hostlist) (k : nat) (i : hiter) : hostlist :=
  with_ilist hl ((fun x => if decide (x.1 = k) then (k, i) else x) <$> hl_ilist hl).

(** The handle of the new iterator. *)
Definition hostlist_iterator_create (hl : hostlist) : exec (nat * hostlist) :=
  p ← slot_ptr hl 0;
  let k := hl_fresh hl in
  Ret (k, with_fresh (with_ilist hl ((k, Hiter 0 p (-1)) :: hl_ilist hl)) (S k)).

Definition hostlist_iterator_reset (hl : hostlist) (k : nat) : exec hostlist :=
  i ← iter_at hl k;
  i ← hostlist_iterator_reset_in hl i;
  Ret (set_iter hl k i).

Definition hostlist_iterator_destroy (hl : hostlist) (k : nat) : exec hostlist :=
  _ ← iter_at hl k;
  Ret (with_ilist hl (filter (fun x => x.1 <> k) (hl_ilist hl))).

Definition _iterator_advance (hl : hostlist) (i : hiter) : exec hiter :=
  if hl_nranges hl - 1 <? it_idx i then Ret i else
  h ← deref hl (it_hr i);
  let depth := it_depth i + 1 in
  if u64 (hr_hi h - hr_lo h) <? u64 depth then
    p ← slot_ptr hl (it_idx i + 1);
    Ret (Hiter (it_idx i + 1) p 0)
  else Ret (Hiter (it_idx i) (it_hr i) depth).

(** Advance past the ranges that share a bracketed list with the current one. *)
Definition _iterator_advance_range (hl : hostlist) (i : hiter) : exec hiter :=
  let depth := it_depth i + 1 in
  if 0 <? depth then
    j ← loop (S (Z.to_nat (hl_nranges hl - it_idx i))) (fun j =>
      if j + 1 <? hl_nranges hl then
        h ← deref hl (it_hr i);
        '(_, h') ← range_at hl (j + 1);
        if hostrange_within_range (Some h) (Some h') then Ret (inl (j + 1)) else Ret (inr (j + 1))
      else Ret (inr (j + 1)))
      (it_idx i);
    p ← slot_ptr hl j;
    Ret (Hiter j p 0)
  else Ret (Hiter (it_idx i) (it_hr i) depth).

Definition hostlist_next_dims (env : cluster_env) (hl : hostlist) (k : nat) (dims : Z) :
    exec (option cstr * hostlist) :=
  i ← iter_at hl k;
  i ← _iterator_advance hl i;
  let hl := set_iter hl k i in
  let dims := if dims =? 0 then slurmdb_setup_cluster_name_dims env else dims in
  if hl_nranges hl - 1 <? it_idx i then Ret (None, hl) else
  h ← deref hl (it_hr i);
  t ← host_text h (it_depth i) dims;
  Ret (t, hl).
Definition hostlist_next (env : cluster_env) (hl : hostlist) (k : nat) : exec (option cstr * hostlist) :=
  hostlist_next_dims env hl k (slurmdb_setup_cluster_name_dims env).

(** Remove the host that the iterator returned last. *)
Definition hostlist_remove (hl : hostlist) (k : nat) : exec (Z * hostlist) :=
  i ← iter_at hl k;
  h ← deref hl (it_hr i);
  '(h, new) ← hostrange_delete_host h (u64 (hr_lo h + it_depth i));
  hl ← store_range hl (it_hr i) h;
  hl ←
    match new with
    | Some new =>
        '(_, hl) ← hostlist_insert_range hl new (it_idx i + 1);
        i ← iter_at hl k;
        p ← slot_ptr hl (it_idx i + 1);
        Ret (set_iter hl k (Hiter (it_idx i + 1) p (-1)))
    | None =>
        if hostrange_empty h then hostlist_delete_range hl (it_idx i)
        else Ret (set_iter hl k (Hiter (it_idx i) (it_hr i) (it_depth i - 1)))
    end;
  Ret (1, with_nhosts hl (hl_nhosts hl - 1)).

(** ** Host sets *)

(** A host set is a list kept sorted without duplicates; the number of hosts
    that were inserted. *)
Definition hostset_insert_range (hl : hostlist) (h : hostrange) : exec (Z * hostlist * hostrange) :=
  let hl := hl_room hl in
  let nhosts := s32 (hostrange_count h) in
  '(inserted, ndups, hl, h) ← for_while (fun '(inserted, _, _, _) => negb inserted)
    (fun i '(_, ndups, hl, h) =>
       '(_, hi) ← range_at hl i;
       let '(c, h, hi) := hostrange_cmp h hi in
       hl ← set_range hl i hi;
       if 0 <? c then Ret (false, ndups, hl, h) else
       '(_, hi) ← range_at hl i;
       '(ndups, h, hi) ← hostrange_join h hi;
       hl ← set_range hl i hi;
       '(ndups, hl) ← (if 0 <=? ndups then hl ← hostlist_delete_range hl i; Ret (ndups, hl) else Ret (0, hl));
       '(_, hl) ← hostlist_insert_range hl h i;
       '(ndups, hl) ← (if 0 <? i then
                         '(m, hl) ← _attempt_range_join hl i;
                         Ret (if 0 <? m then ndups + m else ndups, hl)
                       else Ret (ndups, hl));
       Ret (true, ndups, with_nhosts hl (hl_nhosts hl + (nhosts - ndups)), h))
    (Z.to_nat (hl_nranges hl)) 0 (false, 0, hl, h);
  if inserted : bool then Ret (nhosts - ndups, hl, h) else
  hl ← append_range hl h;
  let hl := with_nhosts hl (hl_nhosts hl + nhosts) in
  '(ndups, hl) ← (if 1 <? hl_nranges hl then
                    '(m, hl) ← _attempt_range_join hl (hl_nranges hl - 1);
                    Ret (if m <=? 0 then 0 else m, hl)
                  else Ret (ndups, hl));
  Ret (nhosts - ndups, hl, h).

(** Whether the host is in the set; the search sets widths. *)
Definition hostset_find_host (env : cluster_env) (hl : hostlist) (host : cstr) : exec (Z * hostlist) :=
  '(_, found, hl) ← for_while (fun '(_, found, _) => negb found)
    (fun i '(hn, _, hl) =>
       '(_, h) ← range_at hl i;
       '(within, h, hn) ← hostrange_hn_within env h hn;
       hl ← set_range hl i h;
       Ret (hn, within, hl))
    (Z.to_nat (hl_nranges hl)) 0 (hostname_create env host, false, hl);
  Ret (bit found, hl).
