(* ===== verification/HostlistParse.v ===== *)
(** * Parsing of host list expressions: src/common/hostlist.c

    [hostlist_create] and what it uses: splitting an expression in tokens,
    reading the ranges between brackets, several brackets in one name, boxes of
    multi-dimensional systems; and the operations of lists and sets that take an
    expression. *)

From S2P Require Import Prelude NatCmp Hostlist.

Local Open Scope Z_scope.
Local Open Scope slurm_scope.

(** ** Characters and searches in strings *)

Definition c_open : Z := 91.    (* '[' *)
Definition c_close : Z := 93.   (* ']' *)
Definition c_comma : Z := 44.
Definition c_dash : Z := 45.
Definition c_x : Z := 120.

(** [strchr] and [strrchr] as indexes. *)
Fixpoint strchr (s : cstr) (c : Z) : option nat :=
  match s with
  | [] => None
  | x :: s' => if x =? c then Some O else S <$> strchr s' c
  end.
Fixpoint strrchr (s : cstr) (c : Z) : option nat :=
  match s with
  | [] => None
  | x :: s' =>
      match strrchr s' c with
      | Some i => Some (S i)
      | None => if x =? c then Some O else None
      end
  end.

(** ** Tokens *)

(** The separators of [hostlist_create]: "\t, ". *)
Definition separators : cstr := [9; 44; 32].
Definition is_sep (sep : cstr) (c : Z) : bool := bool_decide (c ∈ sep).

(** The first position from [i] that holds a separator, or the end. *)
Fixpoint skip_to_sep (sep : cstr) (s : cstr) : nat :=
  match s with c :: s' => if is_sep sep c then O else S (skip_to_sep sep s') | [] => O end.
Definition advance (sep : cstr) (s : cstr) (i : nat) : nat := (i + skip_to_sep sep (drop i s))%nat.

(** The end of the token at the start of [s]: past the first separator that is
    not between brackets.  Positions are offsets from the start of the token;
    [str] and [parse] are the code's pointers. *)
Definition token_step (sep : cstr) (s : cstr) : nat * nat -> exec (nat * nat + nat) :=
  fun '(str, parse) =>
    match strchr (drop parse s) c_open with
    | None => Ret (inr str)
    | Some o =>
        let open_bracket := (parse + o)%nat in
        if (str <? open_bracket)%nat then Ret (inr str) else
        match strchr (drop parse s) c_close with
        | None => Ret (inr str)
        | Some c =>
            let close_bracket := (parse + c)%nat in
            if (close_bracket <? open_bracket)%nat then Ret (inr str)
            else if (close_bracket <? str)%nat then Ret (inl (str, S close_bracket))
            else Ret (inl (advance sep s close_bracket, parse))
        end
    end.
Definition token_end (sep : cstr) (s : cstr) : exec nat :=
  loop (2 * length s + 3) (token_step sep s) (advance sep s 0, 0%nat).

(** The next token and the rest of the string, if there is a token. *)
Definition _next_tok (sep : cstr) (str : cstr) : exec (option (cstr * cstr)) :=
  match drop_run (is_sep sep) str with
  | [] => Ret None
  | s => e ← token_end sep s; Ret (Some (take e s, drop_run (is_sep sep) (drop e s)))
  end.

(** ** Ranges between brackets *)

Record range_t : Type := Range { r_lo : Z; r_hi : Z; r_width : Z }.

(** [None] is the error return. *)
Definition _parse_single_range (str : cstr) (dims : Z) : option range_t :=
  if strchr str c_x is Some _ then None else
  let '(str, p) := match strchr str c_dash with
                   | Some i => (take i str, Some (drop (S i) str))
                   | None => (str, None)
                   end in
  if (match p with Some (c :: _) => c =? c_dash | _ => false end) then None else
  let width := strlen str in
  let base := if (1 <? dims) && negb (width =? dims) then 10 else hostlist_get_base dims in
  let '(lo, q) := strtoul base str in
  if strlen q =? strlen str then None else
  let '(hi, q, q_is_p) := match p with
                          | Some (c :: p') => let '(hi, q) := strtoul base (c :: p') in
                                              (hi, q, strlen q =? strlen (c :: p'))
                          | _ => (lo, q, false)
                          end in
  if q_is_p || negb (strlen q =? 0) then None else
  if hi <? lo then None else
  if MAX_RANGE <? u64 (hi - lo + 1) then None else
  Some (Range lo hi width).

(** The capacity after growing the array of ranges. *)
Definition _grow_ranges (capacity max_capacity : Z) : option Z :=
  if max_capacity <=? capacity then None
  else Some (Z.min (capacity * 2 + 10) max_capacity).

(** What has been read so far: the capacity of the array and its ranges. *)
Record parsed : Type := Parsed { pr_capacity : Z; pr_ranges : list range_t }.
Definition pr_count (r : parsed) : Z := Z.of_nat (length (pr_ranges r)).

(** Room for one more range. *)
Definition room_for_range (max_capacity : Z) (r : parsed) : option parsed :=
  if pr_capacity r <=? pr_count r
  then (fun c => Parsed c (pr_ranges r)) <$> _grow_ranges (pr_capacity r) max_capacity
  else Some r.
Definition add_range (max_capacity dims : Z) (r : parsed) (str : cstr) : option parsed :=
  r ← room_for_range max_capacity r;
  g ← _parse_single_range str dims;
  Some (Parsed (pr_capacity r) (pr_ranges r ++ [g])).

(** The ranges of a box: one for every choice of the coordinates but the last;
    [pos] holds the coordinates chosen so far. *)
Fixpoint _add_box_ranges (n : nat) (max_capacity dims : Z) (pos start end_ : list Z) (r : parsed) : option parsed :=
  let dim := length pos in
  match n with
  | O => None
  | S n =>
      foldl (fun r x =>
        r ← r;
        if Z.of_nat dim =? dims - 2 then
          if pr_count r =? max_capacity then None else
          let coord i := alpha_num !!! Z.to_nat i in
          let head := coord <$> (pos ++ [x]) in
          add_range max_capacity dims r
            (head ++ [coord (start !!! S dim); c_dash] ++ head ++ [coord (end_ !!! S dim)])
        else _add_box_ranges n max_capacity dims (pos ++ [x]) start end_ r)
        (Some r) (seqZ (start !!! dim) (end_ !!! dim - start !!! dim + 1))
  end.

Definition coord_value (c : Z) : option Z :=
  if isdigit c then Some (c - 48) else if isupper c then Some (c - 55) else None.

Definition _parse_box_range (max_capacity dims : Z) (str : cstr) (r : parsed) : option parsed :=
  let d := Z.to_nat dims in
  if negb (bool_decide (str !! d = Some c_x)) || negb (strlen str =? 2 * dims + 1) then None else
  start ← mapM coord_value (take d str);
  end_ ← mapM coord_value (drop (S d) str);
  _add_box_ranges d max_capacity dims [] start end_ r.

(** The parts between commas; there is always one. *)
Fixpoint split_commas (s : cstr) : list cstr :=
  match s with
  | [] => [[]]
  | c :: s' =>
      if c =? c_comma then [] :: split_commas s'
      else match split_commas s' with t :: l => (c :: t) :: l | [] => [[c]] end
  end.

(** One part: a box, or a number or range of numbers. *)
Definition add_part (max_capacity dims : Z) (r : option parsed) (str : cstr) : option parsed :=
  r ← r;
  if pr_count r =? max_capacity then None else
  if (1 <? dims) && bool_decide (str !! Z.to_nat dims = Some c_x) && (strlen str =? dims * 2 + 1)
  then _parse_box_range max_capacity dims str r
  else add_range max_capacity dims r str.

Definition _parse_range_list (str : cstr) (capacity max_capacity dims : Z) : option parsed :=
  foldl (add_part max_capacity dims) (Some (Parsed capacity [])) (split_commas str).

(** ** Names with several brackets *)

Definition push_ranges (hl : hostlist) (prefix : cstr) (ranges : list range_t) : exec hostlist :=
  foldl (fun hl g => hl ← hl; '(_, hl) ← hostlist_push_hr hl prefix (r_lo g) (r_hi g) (r_width g); Ret hl)
    (Ret hl) ranges.

(** [tmp_prefix] cut at its last '[', the text up to the last ']' after it, and
    the text after that. *)
Definition split_prefix (tmp_prefix : cstr) : option (cstr * cstr * cstr) :=
  p ← strrchr tmp_prefix c_open;
  let s := drop p tmp_prefix in
  q ← strrchr s c_close;
  Some (take p tmp_prefix, drop 1 (take q s), drop (S q) s).

(** The prefix may have brackets of its own; the last one is expanded here, the
    ones before it by the recursive calls.  The result is 0, or -1 for an
    invalid prefix. *)
Fixpoint _push_range_list (depth fuel : nat) (hl : hostlist) (prefix : cstr) (ranges : list range_t) (dims : Z) :
    exec (Z * hostlist) :=
  match depth with
  | O => NoFuel
  | S depth =>
      match split_prefix (take 1023 prefix) with
      | None => hl ← push_ranges hl prefix ranges; Ret (0, hl)
      | Some (tmp_prefix, p, q) =>
          let recurse := if strrchr tmp_prefix c_open is Some _ then true else false in
          match _parse_range_list p 0 MAX_RANGES dims with
          | None => Ret (-1, hl)
          | Some r =>
              '(_, rc, err, hl) ← for_while (fun '(_, _, err, _) => negb err)
                (fun i '(prefix_cnt, rc, _, hl) =>
                   g ← aget (pr_ranges r) i;
                   let prefix_cnt := u64 (prefix_cnt + (r_hi g - r_lo g + 1)) in
                   if MAX_PREFIX_CNT <? prefix_cnt then Ret (prefix_cnt, rc, true, hl) else
                   '(rc, hl) ← loop fuel (fun '(j, rc, hl) =>
                     if r_hi g <? j then Ret (inr (rc, hl)) else
                     let new_prefix := snprintf 1024 (tmp_prefix ++ fmt_lu (r_width g) j ++ q) in
                     '(rc, hl) ←
                       (if recurse then
                          '(rc1, hl) ← _push_range_list depth fuel hl new_prefix ranges dims;
                          Ret (Z.max rc rc1, hl)
                        else hl ← push_ranges hl new_prefix ranges; Ret (rc, hl));
                     Ret (inl (u64 (j + 1), rc, hl)))
                     (r_lo g, rc, hl);
                   Ret (prefix_cnt, rc, false, hl))
                (length (pr_ranges r)) 0 (0, 0, false, hl);
              Ret (if err : bool then -1 else rc, hl)
          end
      end
  end.

(** ** Creating a list from an expression *)

(** A token with brackets; the capacity of the array of ranges is kept from
    token to token. *)
Definition push_bracketed (fuel : nat) (dims : Z) (prefix ranges : cstr) (capacity : Z) (new : hostlist) :
    exec (option (Z * hostlist)) :=
  match _parse_range_list ranges capacity MAX_RANGES dims with
  | None => Ret None
  | Some r =>
      '(rc, new) ← _push_range_list 1024 fuel new prefix (pr_ranges r) dims;
      Ret (if rc =? 0 then Some (pr_capacity r, new) else None)
  end.

(** One token; [None] is the error exit. *)
Definition push_token (env : cluster_env) (fuel : nat) (dims : Z) (tok : cstr) (capacity : Z) (new : hostlist) :
    exec (option (Z * hostlist)) :=
  match strrchr tok c_open with
  | None => '(_, new) ← hostlist_push_host_dims env new tok dims; Ret (Some (capacity, new))
  | Some i =>
      let prefix := take i tok in
      let p := drop (S i) tok in
      match strchr p c_close with
      | Some q =>
          if match p !! S q with Some c => negb (c =? c_comma) | None => false end then Ret None
          else push_bracketed fuel dims prefix (take q p) capacity new
      | None =>
          let host := match prefix with [] => p | _ :: _ => prefix ++ [c_close] end in
          '(_, new) ← hostlist_push_host_dims env new host dims;
          Ret (Some (capacity, new))
      end
  end.

Definition _hostlist_create_bracketed (env : cluster_env) (fuel : nat) (str : cstr) (sep : cstr) (dims : Z) :
    exec (option hostlist) :=
  loop (S (length str)) (fun '(str, capacity, new) =>
    t ← _next_tok sep str;
    match t with
    | None => Ret (inr (Some new))
    | Some (tok, str) =>
        r ← push_token env fuel dims tok capacity new;
        match r with
        | None => Ret (inr None)
        | Some (capacity, new) => Ret (inl (str, capacity, new))
        end
    end)
    (str, 0, hostlist_new).

Definition hostlist_create_dims (env : cluster_env) (fuel : nat) (str : cstr) (dims : Z) : exec (option hostlist) :=
  let dims := if dims =? 0 then slurmdb_setup_cluster_name_dims env else dims in
  _hostlist_create_bracketed env fuel str separators dims.
Definition hostlist_create (env : cluster_env) (fuel : nat) (str : cstr) : exec (option hostlist) :=
  hostlist_create_dims env fuel str (slurmdb_setup_cluster_name_dims env).

(** ** Operations that take an expression *)

Definition hostlist_push (env : cluster_env) (fuel : nat) (hl : hostlist) (hosts : cstr) : exec (Z * hostlist) :=
  new ← hostlist_create env fuel hosts;
  match new with
  | None => Ret (0, hl)
  | Some new => '(_, hl, _) ← hostlist_push_list hl new; Ret (hl_nhosts new, hl)
  end.

(** [while ((hostname = hostlist_pop(tmp)) != NULL) body]. *)
Definition for_popped {S : Type} (env : cluster_env) (tmp : hostlist) (cond : S -> bool)
    (body : cstr -> S -> exec S) (s : S) : exec S :=
  loop (Datatypes.S (Z.to_nat (hl_nhosts tmp))) (fun '(tmp, s) =>
    '(h, tmp) ← hostlist_pop env tmp;
    match h with
    | None => Ret (inr s)
    | Some h => s ← body h s; Ret (if cond s then inl (tmp, s) else inr s)
    end)
    (tmp, s).

Definition hostlist_delete (env : cluster_env) (fuel : nat) (hl : hostlist) (hosts : cstr) : exec (Z * hostlist) :=
  tmp ← hostlist_create env fuel hosts;
  match tmp with
  | None => Ret (0, hl)
  | Some tmp =>
      for_popped env tmp (fun _ => true)
        (fun h '(n, hl) => '(k, hl) ← hostlist_delete_host env hl h; Ret (n + k, hl)) (0, hl)
  end.

Definition hostset_create (env : cluster_env) (fuel : nat) (hosts : cstr) : exec (option hostlist) :=
  hl ← hostlist_create env fuel hosts;
  match hl with
  | None => Ret None
  | Some hl => hl ← hostlist_uniq hl; Ret (Some hl)
  end.

Definition hostset_insert (env : cluster_env) (fuel : nat) (set : hostlist) (hosts : cstr) : exec (Z * hostlist) :=
  hl ← hostlist_create env fuel hosts;
  match hl with
  | None => Ret (0, set)
  | Some hl =>
      hl ← hostlist_uniq hl;
      for_while (fun _ => true)
        (fun i '(n, set) =>
           '(_, h) ← range_at hl i;
           '(k, set, _) ← hostset_insert_range set h;
           n ← i32 (n + k);
           Ret (n, set))
        (Z.to_nat (hl_nranges hl)) 0 (0, set)
  end.

(** The first search stops at the first host that is found, the second counts
    them. *)
Definition hostset_intersects (env : cluster_env) (fuel : nat) (set : hostlist) (hosts : cstr) : exec (Z * hostlist) :=
  hl ← hostlist_create env fuel hosts;
  match hl with
  | None => Ret (0, set)
  | Some hl =>
      for_popped env hl (fun '(retval, _) => retval =? 0)
        (fun h '(retval, set) => '(k, set) ← hostset_find_host env set h; Ret (retval + k, set)) (0, set)
  end.

Definition hostset_within (env : cluster_env) (fuel : nat) (set : hostlist) (hosts : cstr) : exec (bool * hostlist) :=
  hl ← hostlist_create env fuel hosts;
  match hl with
  | None => Ret (false, set)
  | Some hl =>
      '(nfound, set) ← for_popped env hl (fun _ => true)
        (fun h '(nfound, set) => '(k, set) ← hostset_find_host env set h; Ret (nfound + k, set)) (0, set);
      Ret (hostlist_count hl =? nfound, set)
  end.

(** A host set is used through its list. *)
Definition hostset_copy (set : hostlist) : exec hostlist := hostlist_copy set.
Definition hostset_delete (env : cluster_env) (fuel : nat) (set : hostlist) (hosts : cstr) : exec (Z * hostlist) :=
  hostlist_delete env fuel set hosts.
Definition hostset_delete_host (env : cluster_env) (set : hostlist) (hostname : cstr) : exec (Z * hostlist) :=
  hostlist_delete_host env set hostname.
Definition hostset_shift (env : cluster_env) (set : hostlist) : exec (option cstr * hostlist) := hostlist_shift env set.
Definition hostset_pop (env : cluster_env) (set : hostlist) : exec (option cstr * hostlist) := hostlist_pop env set.
Definition hostset_count (set : hostlist) : Z := hostlist_count set.
Definition hostset_nth (env : cluster_env) (set : hostlist) (n : Z) : exec (option cstr) := hostlist_nth env set n.
Definition hostset_find (env : cluster_env) (set : hostlist) (hostname : cstr) : exec (Z * hostlist) := hostlist_find env set hostname.
