(* ===== verification/HostlistPrint.v ===== *)
(** * Printing of host list expressions: src/common/hostlist.c

    The ranged and the one-by-one text of a list, written into buffers of a
    given size, and the operations that return such text.  A buffer is an array
    of characters; writing outside it faults. *)

From S2P Require Import Prelude Bitstring NatCmp Hostlist HostlistParse.

Local Open Scope Z_scope.
Local Open Scope slurm_scope.

(** ** Buffers *)

Definition put (buf : cstr) (i c : Z) : exec cstr := aset buf i c.
Fixpoint put_all (buf : cstr) (i : Z) (s : cstr) : exec cstr :=
  match s with [] => Ret buf | c :: s' => buf ← put buf i c; put_all buf (i + 1) s' end.

(** [snprintf(buf + i, size, ...)]: nothing is written into an empty buffer. *)
Definition print_at (buf : cstr) (i size : Z) (text : cstr) : exec cstr :=
  if size <=? 0 then Ret buf else put_all buf i (snprintf size text ++ [0]).

(** The string that a buffer holds. *)
Fixpoint text_of (buf : cstr) : cstr :=
  match buf with c :: buf' => if c =? 0 then [] else c :: text_of buf' | [] => [] end.

(** ** One range *)

(** The suffix of host [n] of a range as it is printed; coordinates are written
    character by character. *)
Definition box_coords (h : hostrange) (dims : Z) : bool := (1 <? dims) && (hr_width h =? dims).

(** One round of the loop over the hosts of a range: the next host, or the
    length of the text and whether it did not fit. *)
Definition print_host (h : hostrange) (n at_ sep dims : Z) : Z * Z * cstr -> exec (Z * Z * cstr + Z * cstr * bool) :=
  fun '(i, len, buf) =>
    if hr_hi h <? i then Ret (inr (len, buf, false)) else
    '(len, buf) ← (if hr_lo h <? i then buf ← put buf (at_ + len) sep; Ret (len + 1, buf) else Ret (len, buf));
    if n <=? len then Ret (inr (len, buf, true)) else
    if box_coords h dims then
      c ← coord_string i dims;
      buf ← print_at buf (at_ + len) (n - len) (hr_prefix h);
      let len := len + strlen (hr_prefix h) in
      if (n <=? len) || (n <=? len + dims) then Ret (inr (len, buf, true)) else
      buf ← put_all buf (at_ + len) c;
      Ret (inl (u64 (i + 1), len + dims, buf))
    else
      let text := hr_prefix h ++ fmt_lu (hr_width h) i in
      buf ← print_at buf (at_ + len) (n - len) text;
      let len := len + strlen text in
      if n <=? len then Ret (inr (len, buf, true)) else Ret (inl (u64 (i + 1), len, buf)).

(** All hosts of the range, separated by [sep], into [n] characters from [at_];
    the result is the length of the text, or -1 when it does not fit. *)
Definition hostrange_to_string (env : cluster_env) (fuel : nat) (h : hostrange) (n : Z) (buf : cstr) (at_ : Z)
    (sep dims : Z) : exec (Z * cstr) :=
  let dims := if dims =? 0 then slurmdb_setup_cluster_name_dims env else dims in
  let truncated buf := buf ← put buf (at_ + n - 1) 0; Ret (-1, buf) in
  if n =? 0 then Ret (0, buf) else
  if hr_singlehost h then
    buf ← print_at buf at_ n (hr_prefix h);
    if n <=? strlen (hr_prefix h) then truncated buf else Ret (strlen (hr_prefix h), buf)
  else
    '(len, buf, trunc) ← loop fuel (print_host h n at_ sep dims)
      (hr_lo h, 0, buf);
    if trunc : bool then truncated buf else
    buf ← put buf (at_ + len) 0;
    Ret (len, buf).

(** The numbers of the range, without [width] of the leading zeros. *)
Definition hostrange_numstr (env : cluster_env) (h : hostrange) (n : Z) (buf : cstr) (at_ : Z) (width : Z) :
    exec (Z * cstr) :=
  let dims := slurmdb_setup_cluster_name_dims env in
  if hr_singlehost h || (n =? 0) then Ret (0, buf) else
  if n <=? dims then Ret (-1, buf) else
  let width := if (width <? 0) || (hr_width h <? width) then hr_width h else width in
  '(len, buf) ←
    (if box_coords h dims then
       c ← coord_string (hr_lo h) dims;
       buf ← put_all buf at_ (c ++ [0]); Ret (dims, buf)
     else
       let text := fmt_lu (hr_width h - width) (hr_lo h) in
       buf ← print_at buf at_ n text; Ret (if n <=? strlen text then -1 else strlen text, buf));
  if len <? 0 then Ret (-1, buf) else
  if hr_lo h <? hr_hi h then
    if n <? len + dims + 2 then Ret (-1, buf) else
    if box_coords h dims then
      c ← coord_string (hr_hi h) dims;
      buf ← put_all buf (at_ + len) (c_dash :: c ++ [0]);
      Ret (len + 1 + dims, buf)
    else
      let text := c_dash :: fmt_lu (hr_width h - width) (hr_hi h) in
      buf ← print_at buf (at_ + len) (n - len) text;
      let len := len + strlen text in
      Ret (if n <=? len then -1 else len, buf)
  else Ret (len, buf).

(** ** Bracketed lists *)

Definition _is_bracket_needed (hl : hostlist) (i : Z) : exec bool :=
  '(_, h1) ← range_at hl i;
  h2 ← (if i <? hl_nranges hl - 1 then '(_, h2) ← range_at hl (i + 1); Ret (Some h2) else Ret None);
  Ret ((1 <? hostrange_count h1) || hostrange_within_range (Some h1) h2).

(** The leading zeros that all the ranges of the bracketed list from [i] share,
    on Cray systems. *)
Definition common_zeropad (env : cluster_env) (hl : hostlist) (i : Z) : exec Z :=
  if negb (is_cray_system env) then Ret 0 else
  '(_, h) ← range_at hl i;
  '(zeropad, _) ← for_while (fun '(zeropad, stop) => negb (zeropad =? 0) && negb stop)
    (fun m '(zeropad, _) =>
       '(_, h) ← range_at hl m;
       '(_, h') ← range_at hl (m - 1);
       if negb (hostrange_within_range (Some h) (Some h')) then Ret (zeropad, true) else
       let pad := if hr_width h =? hr_width h' then _zero_padded (hr_hi h) (hr_width h) else 0 in
       Ret (Z.min pad zeropad, false))
    (Z.to_nat (hl_nranges hl - 1 - i)) (i + 1) (_zero_padded (hr_hi h) (hr_width h), false);
  Ret zeropad.

(** One round of the loop over the ranges of a bracketed list: the next range,
    or the range after the list and the length of the text if it fits. *)
Definition print_numbers (env : cluster_env) (hl : hostlist) (start n at_ zeropad : Z) :
    Z * Z * cstr -> exec (Z * Z * cstr + option (Z * Z) * cstr) :=
  fun '(i, len, buf) =>
    '(len, buf) ← (if start <? i then buf ← put buf (at_ + len) c_comma; Ret (len + 1, buf) else Ret (len, buf));
    '(_, h) ← range_at hl i;
    '(m, buf) ← hostrange_numstr env h (n - len) buf (at_ + len) zeropad;
    if (m <? 0) || (n - 1 <=? len + m) then Ret (inr (None, buf)) else
    let len := len + m in
    if i + 1 <? hl_nranges hl then
      '(_, h') ← range_at hl (i + 1);
      if hostrange_within_range (Some h') (Some h) then Ret (inl (i + 1, len, buf))
      else Ret (inr (Some (i + 1, len), buf))
    else Ret (inr (Some (i + 1, len), buf)).

(** Write the bracketed list that starts at range [start] into [n] characters
    from [at_]; the length of the text, or [n] when it does not fit, and the
    index of the first range after it. *)
Definition _get_bracketed_list (env : cluster_env) (hl : hostlist) (start n : Z) (buf : cstr) (at_ : Z)
    (brackets : bool) : exec (Z * Z * cstr) :=
  bracket_needed ← (if brackets then _is_bracket_needed hl start else Ret false);
  zeropad ← common_zeropad env hl start;
  '(_, h) ← range_at hl start;
  let text := hr_prefix h ++ (if zeropad =? 0 then [] else fmt_lu zeropad 0) in
  buf ← print_at buf at_ n text;
  let len := strlen text in
  if n <=? len + 4 then Ret (n, start, buf) else
  '(len, buf) ← (if bracket_needed : bool then buf ← put buf (at_ + len) c_open; Ret (len + 1, buf) else Ret (len, buf));
  r ← loop (S (Z.to_nat (hl_nranges hl - start))) (print_numbers env hl start n at_ zeropad)
    (start, len, buf);
  match r with
  | (None, buf) => Ret (n, start, buf)
  | (Some (i, len), buf) =>
      '(len, buf) ← (if bracket_needed : bool then buf ← put buf (at_ + len) c_close; Ret (len + 1, buf) else Ret (len, buf));
      buf ← put buf (at_ + len) 0;
      Ret (len, i, buf)
  end.

(** ** Whole lists *)

Definition hostlist_deranged_string_dims (env : cluster_env) (fuel : nat) (hl : hostlist) (n : Z) (buf : cstr) (dims : Z) :
    exec (Z * cstr) :=
  '(len, buf, trunc) ← for_while (fun '(len, _, trunc) => negb trunc && (len <? n))
    (fun i '(len, buf, _) =>
       '(len, buf) ← (if i =? 0 then Ret (len, buf) else buf ← put buf len c_comma; Ret (len + 1, buf));
       if n <=? len then Ret (len, buf, true) else
       '(_, h) ← range_at hl i;
       '(ret, buf) ← hostrange_to_string env fuel h (n - len) buf len c_comma dims;
       if ret <? 0 then Ret (len, buf, true) else Ret (len + ret, buf, false))
    (Z.to_nat (hl_nranges hl)) 0 (0, buf, false);
  if trunc : bool then buf ← put buf (n - 1) 0; Ret (-1, buf) else Ret (len, buf).

(** ** Boxes of multi-dimensional systems *)

Definition HIGHEST_DIMENSIONS : Z := 5.
Definition HIGHEST_BASE : Z := 36.

(** The static variables of the printing code: the map of the coordinates in
    use, its corners, and what is remembered between calls. *)
Record grid : Type := Grid {
  bit_grid : option bitstr;
  grid_start : list Z;
  grid_end : list Z;
  offset : list Z;
  dim_grid_size : Z;
  grid_size : Z;
  last_dims : Z;
  max_dims : Z;
  orig_grid_end : list Z;
  box_last : list Z
}.

Definition no_dims : list Z := replicate (Z.to_nat HIGHEST_DIMENSIONS) 0.
Definition grid_init : grid := Grid None no_dims no_dims no_dims (-1) 1 (-1) 1 no_dims no_dims.

Definition with_bits (g : grid) (b : bitstr) : grid :=
  Grid (Some b) (grid_start g) (grid_end g) (offset g) (dim_grid_size g) (grid_size g) (last_dims g) (max_dims g)
    (orig_grid_end g) (box_last g).
Definition with_corners (g : grid) (s e : list Z) : grid :=
  Grid (bit_grid g) s e (offset g) (dim_grid_size g) (grid_size g) (last_dims g) (max_dims g) (orig_grid_end g) (box_last g).
Definition with_orig_end (g : grid) (e : list Z) : grid :=
  Grid (bit_grid g) (grid_start g) (grid_end g) (offset g) (dim_grid_size g) (grid_size g) (last_dims g) (max_dims g)
    e (box_last g).
Definition with_box_last (g : grid) (l : list Z) : grid :=
  Grid (bit_grid g) (grid_start g) (grid_end g) (offset g) (dim_grid_size g) (grid_size g) (last_dims g) (max_dims g)
    (orig_grid_end g) l.

(** [memcpy(dst, src, dim_grid_size)] and [memset(dst, c, dim_grid_size)]. *)
Definition copy_dims (dims : Z) (src dst : list Z) : list Z := take (Z.to_nat dims) src ++ drop (Z.to_nat dims) dst.
Definition fill_dims (dims c : Z) (dst : list Z) : list Z := replicate (Z.to_nat dims) c ++ drop (Z.to_nat dims) dst.

Definition the_grid (g : grid) : exec bitstr := match bit_grid g with Some b => Ret b | None => Fault end.

(** Set or clear the box between two corners; [n] is the number of dimensions
    left, the last one included. *)
Fixpoint _set_box_in_grid (n : nat) (dim curr : Z) (start end_ : list Z) (value : bool) (dims : Z) (g : grid) : exec grid :=
  match n with
  | O => Ret g
  | S n =>
      s ← aget start dim;
      e ← aget end_ dim;
      off ← aget (offset g) dim;
      for_while (fun _ => true)
        (fun i g =>
           let curr := curr + i * off in
           if dim =? dims - 1 then
             b ← the_grid g;
             b ← (if value then bit_set b curr else bit_clear b curr);
             Ret (with_bits g b)
           else _set_box_in_grid n (dim + 1) curr start end_ value dims g)
        (Z.to_nat (e - s + 1)) s g
  end.

Fixpoint _test_box_in_grid (n : nat) (dim curr : Z) (start end_ : list Z) (dims : Z) (g : grid) : exec bool :=
  match n with
  | O => Ret true
  | S n =>
      s ← aget start dim;
      e ← aget end_ dim;
      off ← aget (offset g) dim;
      for_while (fun ok : bool => ok)
        (fun i _ =>
           let curr := curr + i * off in
           if dim =? dims - 1 then b ← the_grid g; bit_test b curr
           else _test_box_in_grid n (dim + 1) curr start end_ dims g)
        (Z.to_nat (e - s + 1)) s true
  end.

Definition _test_box (start end_ : list Z) (dims : Z) (g : grid) : exec bool :=
  let d := Z.to_nat dims in
  if bool_decide (take d start = take d end_) then Ret false else
  if existsb (fun '(s, e) => e <? s) (zip (take d start) (take d end_)) then Ret false else
  _test_box_in_grid d 0 0 start end_ dims g.

(** The corners of what is set between two corners. *)
Fixpoint _set_min_max_of_grid (n : nat) (dim curr : Z) (start end_ : list Z) (dims : Z) (g : grid)
    (st : list Z * list Z * list Z) : exec (list Z * list Z * list Z) :=
  match n with
  | O => Ret st
  | S n =>
      s ← aget start dim;
      e ← aget end_ dim;
      off ← aget (offset g) dim;
      for_while (fun _ => true)
        (fun p '(mn, mx, pos) =>
           pos ← aset pos dim p;
           let curr := curr + p * off in
           if dim =? dims - 1 then
             b ← the_grid g;
             t ← bit_test b curr;
             Ret (if t : bool then (zip_with Z.min mn pos, zip_with Z.max mx pos, pos) else (mn, mx, pos))
           else _set_min_max_of_grid n (dim + 1) curr start end_ dims g (mn, mx, pos))
        (Z.to_nat (e - s + 1)) s st
  end.

Definition _set_grid (start end_ dims : Z) (g : grid) : exec grid :=
  let sent_start := hostlist_parse_int_to_array start dims 0 in
  let sent_end := hostlist_parse_int_to_array end_ dims 0 in
  let g := with_corners g (copy_dims dims (zip_with Z.min (grid_start g) sent_start) (grid_start g))
                          (copy_dims dims (zip_with Z.max (grid_end g) sent_end) (grid_end g)) in
  _set_box_in_grid (Z.to_nat dims) 0 0 sent_start sent_end true dims g.

(** The search for the next box: the corners found so far, the position, and in
    which dimension the box is complete. *)
Record boxes : Type := Boxes { bx_start : list Z; bx_end : list Z; bx_last : list Z; bx_found : Z }.

Fixpoint _tell_if_used (n : nat) (dim curr : Z) (dims : Z) (g : grid) (x : boxes) : exec (Z * grid * boxes) :=
  match n with
  | O => NoFuel
  | S n =>
      s ← aget (bx_start x) dim;
      off ← aget (offset g) dim;
      last ← aset (bx_last x) dim s;
      loop 100 (fun '(rc, g, x) =>
        p ← aget (bx_last x) dim;
        ge ← aget (grid_end g) dim;
        let finish rc g x := last ← aset (bx_last x) dim (p - 1);
                             Ret (inr (rc, g, Boxes (bx_start x) (bx_end x) last (bx_found x))) in
        let next rc g x := p ← aget (bx_last x) dim;
                           last ← aset (bx_last x) dim (p + 1);
                           Ret (inl (rc, g, Boxes (bx_start x) (bx_end x) last (bx_found x))) in
        if ge <? p then finish rc g x else
        let curr := curr + p * off in
        if dim =? dims - 1 then
          b ← the_grid g;
          t ← bit_test b curr;
          if negb t then
            if bx_found x =? -1 then next rc g x else
            e ← aget (bx_end x) dim;
            if e <? ge then
              ends ← aset (grid_end g) dim e;
              finish rc (with_corners g (grid_start g) ends) x
            else Ret (inr (0, g, x))
          else if bx_found x =? -1 then next rc g (Boxes (bx_last x) (bx_last x) (bx_last x) dims)
          else if dim <=? bx_found x then next rc g (Boxes (bx_start x) (bx_last x) (bx_last x) dim)
          else next rc g x
        else
          '(rc, g, x) ← _tell_if_used n (dim + 1) curr dims g x;
          if negb (rc =? 1) then Ret (inr (rc, g, x)) else
          if dim <=? bx_found x then next rc g (Boxes (bx_start x) (bx_last x) (bx_last x) dim)
          else if bx_found x =? -1 then
            gs ← aget (grid_start g) dim;
            start ← aset (bx_start x) dim gs;
            next rc g (Boxes start (bx_end x) (bx_last x) (bx_found x))
          else next rc g x)
        (1, g, Boxes (bx_start x) (bx_end x) last (bx_found x))
  end.

(** [rc], the corners of the box, and the grid without it. *)
Definition _get_next_box (start end_ : list Z) (dims : Z) (g : grid) : exec (Z * list Z * list Z * grid) :=
  let d := Z.to_nat dims in
  loop 100 (fun '(start, end_, g) =>
    let '(start, g) :=
      if start !!! 0%nat =? -1 then (copy_dims dims (grid_start g) start, with_orig_end g (copy_dims dims (grid_end g) (orig_grid_end g)))
      else (copy_dims dims (box_last g) start, g) in
    '(_, g, x) ← _tell_if_used d 0 0 dims g (Boxes start start (take d (box_last g)) (-1));
    let g := with_box_last g (copy_dims dims (bx_last x) (box_last g)) in
    g ← _set_box_in_grid d 0 0 (bx_start x) (bx_end x) false dims g;
    '(mn, mx, _) ← _set_min_max_of_grid d 0 0 (grid_start g) (orig_grid_end g) dims g
      (replicate d (hostlist_get_base dims * 0x01010101), replicate d (-1), replicate d 0);
    if mx !!! 0%nat =? -1 then Ret (inr (if bx_found x =? -1 then 0 else 1, bx_start x, bx_end x, g)) else
    let g := with_corners g (copy_dims dims mn (grid_start g)) (copy_dims dims mx (grid_end g)) in
    let g := with_box_last g (copy_dims dims (grid_start g) (box_last g)) in
    if bx_found x =? -1 then Ret (inl (bx_start x, bx_end x, g))
    else Ret (inr (1, bx_start x, bx_end x, g)))
    (start, end_, g).

(** Write characters while there is room; whether all of them were written. *)
Fixpoint put_within (buf : cstr) (at_ len max_len : Z) (s : cstr) : exec (bool * Z * cstr) :=
  match s with
  | [] => Ret (true, len, buf)
  | c :: s' =>
      if max_len <=? len then Ret (false, len, buf) else
      buf ← put buf (at_ + len) c; put_within buf at_ (len + 1) max_len s'
  end.

(** Every box takes at least two characters of the buffer. *)
Definition _get_boxes (buf : cstr) (at_ max_len dims : Z) (brackets : bool) (g : grid) : exec (Z * cstr * grid) :=
  let d := Z.to_nat dims in
  '(len, buf, full, g) ← loop (S (S (Z.to_nat max_len))) (fun '(len, buf, curr_min, curr_max, g) =>
    '(rc, curr_min, curr_max, g) ← _get_next_box curr_min curr_max dims g;
    if rc =? 0 then Ret (inr (len, buf, false, g)) else
    mn ← mapM (aget alpha_num) curr_min;
    mx ← mapM (aget alpha_num) curr_max;
    let text := if bool_decide (curr_min = curr_max) then mn ++ [c_comma] else mn ++ [c_x] ++ mx ++ [c_comma] in
    '(ok, len, buf) ← put_within buf at_ len max_len text;
    Ret (if ok : bool then inl (len, buf, curr_min, curr_max, g) else inr (len, buf, true, g)))
    (0, buf, replicate d (-1), replicate d 0, g);
  buf ← (if full : bool then Ret buf else put buf (at_ + len - 1) (if brackets then c_close else 0));
  buf ← put buf (at_ + len) 0;
  Ret (len, buf, g).

(** The tables that depend on the number of dimensions, and an empty map. *)
Definition prepare_grid (dims : Z) (g : grid) : exec grid :=
  let base := hostlist_get_base dims in
  let g := if negb (last_dims g =? dims) || (dim_grid_size g =? -1)
           then Grid (bit_grid g) (grid_start g) (grid_end g)
                  (copy_dims dims ((fun i => base ^ (dims - 1 - i)) <$> seqZ 0 dims) (offset g))
                  (4 * dims) (grid_size g) dims (max_dims g) (orig_grid_end g) (box_last g)
           else g in
  g ← (if max_dims g <? dims then
         b ← bit_alloc (HIGHEST_BASE ^ dims);
         Ret (Grid (Some b) (grid_start g) (grid_end g) (offset g) (dim_grid_size g) (HIGHEST_BASE ^ dims)
                (last_dims g) dims (orig_grid_end g) (box_last g))
       else
         b ← the_grid g;
         b ← bit_nclear b 0 (grid_size g - 1);
         Ret (with_bits g b));
  Ret (with_corners g (fill_dims dims (base * 0x01010101) (grid_start g)) (fill_dims dims (-1) (grid_end g))).

(** Mark all the hosts of the list, if all of them have coordinates. *)
Definition mark_hosts (hl : hostlist) (dims : Z) (g : grid) : exec (bool * grid) :=
  for_while (fun '(box, _) => box)
    (fun i '(_, g) =>
       '(_, h) ← range_at hl i;
       if negb (hr_width h =? dims) then Ret (false, g) else
       g ← _set_grid (hr_lo h) (hr_hi h) dims g;
       Ret (true, g))
    (Z.to_nat (hl_nranges hl)) 0 (true, g).

(** The text of a list of hosts that all have coordinates; [n] is returned when
    it does not fit. *)
Definition box_string (hl : hostlist) (n : Z) (buf : cstr) (dims : Z) (brackets : bool) (g : grid) : exec (Z * cstr * grid) :=
  let d := Z.to_nat dims in
  '(_, h) ← range_at hl 0;
  let len := strlen (hr_prefix h) in
  buf ← print_at buf 0 n (hr_prefix h);
  '(len, buf, g) ←
    (if bool_decide (take d (grid_start g) = take d (grid_end g)) then
       if n <=? len + dims then Ret (n, buf, g) else
       c ← mapM (aget alpha_num) (take d (grid_start g));
       buf ← put_all buf len c;
       Ret (len + dims, buf, g)
     else
       t ← _test_box (grid_start g) (grid_end g) dims g;
       if negb t then
         if n <=? len + 1 then Ret (n, buf, g) else
         '(len, buf) ← (if brackets then buf ← put buf len c_open; Ret (len + 1, buf) else Ret (len, buf));
         '(m, buf, g) ← _get_boxes buf len (n - len) dims brackets g;
         Ret (len + m, buf, g)
       else
         if n <=? len + 3 + dims * 2 then Ret (n, buf, g) else
         mn ← mapM (aget alpha_num) (take d (grid_start g));
         mx ← mapM (aget alpha_num) (take d (grid_end g));
         let text := (if brackets then [c_open] else []) ++ mn ++ [c_x] ++ mx ++ (if brackets then [c_close] else []) in
         buf ← put_all buf len text;
         Ret (len + strlen text, buf, g));
  Ret (if n <? len then n else len, buf, g).

(** The ranges one bracketed list after the other. *)
Definition bracketed_lists (env : cluster_env) (hl : hostlist) (n : Z) (buf : cstr) (brackets : bool) : exec (Z * cstr) :=
  loop (S (S (Z.to_nat (hl_nranges hl)))) (fun '(i, len, buf) =>
    if (i <? hl_nranges hl) && (len <? n) then
      '(len, buf) ← (if i =? 0 then Ret (len, buf) else buf ← put buf len c_comma; Ret (len + 1, buf));
      '(m, i, buf) ← _get_bracketed_list env hl i (n - len) buf len brackets;
      Ret (inl (i, len + m, buf))
    else Ret (inr (len, buf)))
    (0, 0, buf).

(** The length of the text, or -1 when it does not fit in [n] characters. *)
Definition hostlist_ranged_string_dims (env : cluster_env) (g : grid) (hl : hostlist) (n : Z) (buf : cstr)
    (dims : Z) (brackets : bool) : exec (Z * cstr * grid) :=
  let dims := if dims =? 0 then slurmdb_setup_cluster_name_dims env else dims in
  '(box, len, buf, g) ←
    (if (1 <? dims) && negb (hl_nranges hl =? 0) then
       g ← prepare_grid dims g;
       '(box, g) ← mark_hosts hl dims g;
       if box : bool then '(len, buf, g) ← box_string hl n buf dims brackets g; Ret (true, len, buf, g)
       else Ret (false, 0, buf, g)
     else Ret (false, 0, buf, g));
  '(len, buf) ← (if box : bool then Ret (len, buf) else bracketed_lists env hl n buf brackets);
  if n <=? len then
    buf ← (if 0 <? n then put buf (n - 1) 0 else Ret buf);
    Ret (-1, buf, g)
  else buf ← put buf len 0; Ret (len, buf, g).
Definition hostlist_ranged_string (env : cluster_env) (g : grid) (hl : hostlist) (n : Z) (buf : cstr) : exec (Z * cstr * grid) :=
  hostlist_ranged_string_dims env g hl n buf (slurmdb_setup_cluster_name_dims env) true.
Definition hostlist_deranged_string (env : cluster_env) (fuel : nat) (hl : hostlist) (n : Z) (buf : cstr) : exec (Z * cstr) :=
  hostlist_deranged_string_dims env fuel hl n buf (slurmdb_setup_cluster_name_dims env).

(** ** Text in allocated buffers *)

(** A new buffer has unknown contents, here [fill]; it is doubled until the
    text fits. *)
Section allocated.
Variable fill : Z -> cstr.

Definition grow_until {A : Type} (rounds : nat) (print : Z -> cstr -> exec (Z * cstr * A)) : exec (cstr * A) :=
  loop rounds (fun '(buf_size, buf) =>
    '(len, buf, a) ← print buf_size buf;
    if len <? 0 then
      size ← i32 (buf_size * 2);
      Ret (inl (size, buf ++ drop (length buf) (fill size)))
    else Ret (inr (text_of buf, a)))
    (8192, fill 8192).

(** The same code with [malloc] and with [xmalloc]. *)
Definition hostlist_ranged_string_xmalloc_dims (env : cluster_env) (g : grid) (hl : hostlist) (dims : Z) (brackets : bool) :
    exec (cstr * grid) :=
  grow_until 20 (fun n buf => hostlist_ranged_string_dims env g hl n buf dims brackets).
Definition hostlist_ranged_string_xmalloc (env : cluster_env) (g : grid) (hl : hostlist) : exec (cstr * grid) :=
  hostlist_ranged_string_xmalloc_dims env g hl (slurmdb_setup_cluster_name_dims env) true.
Definition hostlist_ranged_string_malloc (env : cluster_env) (g : grid) (hl : hostlist) : exec (cstr * grid) :=
  grow_until 20 (fun n buf => hostlist_ranged_string env g hl n buf).

Definition hostlist_deranged_string_xmalloc_dims (env : cluster_env) (fuel : nat) (hl : hostlist) (dims : Z) : exec cstr :=
  let dims := if dims =? 0 then slurmdb_setup_cluster_name_dims env else dims in
  '(s, _) ← grow_until 20 (fun n buf => '(len, buf) ← hostlist_deranged_string_dims env fuel hl n buf dims; Ret (len, buf, tt));
  Ret s.
Definition hostlist_deranged_string_malloc (env : cluster_env) (fuel : nat) (hl : hostlist) : exec cstr :=
  '(s, _) ← grow_until 20 (fun n buf => '(len, buf) ← hostlist_deranged_string env fuel hl n buf; Ret (len, buf, tt));
  Ret s.

(** ** Taking whole bracketed lists *)

Definition hostlist_pop_range (env : cluster_env) (g : grid) (hl : hostlist) : exec (option cstr * hostlist * grid) :=
  if hl_nranges hl <? 1 then Ret (None, hl, g) else
  '(_, tail) ← range_at hl (hl_nranges hl - 1);
  i ← loop (S (Z.to_nat (hl_nranges hl))) (fun i =>
    if i <? 0 then Ret (inr i) else
    '(_, h) ← range_at hl i;
    Ret (if hostrange_within_range (Some tail) (Some h) then inl (i - 1) else inr i))
    (hl_nranges hl - 2);
  '(tmp, hl) ← for_while (fun _ => true)
    (fun i '(tmp, hl) =>
       '(_, h) ← range_at hl i;
       '(_, tmp, _) ← hostlist_push_range tmp h;
       hl ← set_slot hl i None;
       Ret (tmp, hl))
    (Z.to_nat (hl_nranges hl - (i + 1))) (i + 1) (hostlist_new, hl);
  let hl := with_nhosts (with_ranges hl (hl_nranges hl - hl_nranges tmp) (hl_hr hl)) (hl_nhosts hl - hl_nhosts tmp) in
  '(s, g) ← hostlist_ranged_string_malloc env g tmp;
  Ret (Some s, hl, g).

Definition hostlist_pop_range_values (hl : hostlist) : exec (Z * Z * Z * hostlist) :=
  if hl_nranges hl <? 1 then Ret (0, 0, 0, hl) else
  s ← aget (hl_hr hl) (hl_nranges hl - 1);
  match s with
  | None => Ret (1, 0, 0, hl)
  | Some (_, tail) =>
      hl' ← set_slot hl (hl_nranges hl - 1) None;
      Ret (1, hr_lo tail, hr_hi tail,
           with_nhosts (with_ranges hl' (hl_nranges hl - 1) (hl_hr hl')) (s32 (hl_nhosts hl - hostrange_count tail)))
  end.

(** A slot whose range has been freed is emptied: following its pointer faults
    like following NULL, until the rest of the array is moved over it. *)
Definition hostlist_shift_range (env : cluster_env) (g : grid) (hl : hostlist) : exec (option cstr * hostlist * grid) :=
  if hl_nranges hl =? 0 then Ret (None, hl, g) else
  '(i, tmp, hl) ← loop (S (Z.to_nat (hl_nranges hl))) (fun '(i, tmp, hl) =>
    '(_, h) ← range_at hl i;
    '(_, tmp, _) ← hostlist_push_range tmp h;
    hl ← set_slot hl i None;
    if i + 1 <? hl_nranges hl then
      '(_, first) ← range_at tmp 0;
      '(_, next) ← range_at hl (i + 1);
      Ret (if hostrange_within_range (Some first) (Some next) then inl (i + 1, tmp, hl) else inr (i + 1, tmp, hl))
    else Ret (inr (i + 1, tmp, hl)))
    (0, hostlist_new, hl);
  hl ← hostlist_shift_iterators hl i 0 (hl_nranges tmp);
  hr ← for_while (fun _ => true)
    (fun i hr =>
       s ← aget hr i;
       hr ← aset hr (i - hl_nranges tmp) s;
       aset hr i None)
    (Z.to_nat (hl_nranges hl - i)) i (hl_hr hl);
  let hl := with_nhosts (with_ranges hl (hl_nranges hl - hl_nranges tmp) hr) (hl_nhosts hl - hl_nhosts tmp) in
  '(s, g) ← hostlist_ranged_string_malloc env g tmp;
  Ret (Some s, hl, g).

(** The bracketed list that the iterator reaches, in a buffer that is grown
    without printing again. *)
Definition hostlist_next_range (env : cluster_env) (hl : hostlist) (k : nat) : exec (option cstr * hostlist) :=
  i ← iter_at hl k;
  i ← _iterator_advance_range hl i;
  let hl := set_iter hl k i in
  if hl_nranges hl - 1 <? it_idx i then Ret (None, hl) else
  '(_, _, buf) ← _get_bracketed_list env hl (it_idx i) 8192 (fill 8192) 0 true;
  Ret (Some (text_of buf), hl).

Definition hostset_shift_range (env : cluster_env) (g : grid) (set : hostlist) : exec (option cstr * hostlist * grid) :=
  hostlist_shift_range env g set.
Definition hostset_pop_range (env : cluster_env) (g : grid) (set : hostlist) : exec (option cstr * hostlist * grid) :=
  hostlist_pop_range env g set.
End allocated.
