(* ===== verification/HostlistFacts.v ===== *)
(** * Host names and ranges: lemmas

    Decimal numbers with leading zeros, when two widths give the same names,
    and what the operations on single ranges do to the hosts of a range. *)

From S2P Require Import Prelude NatCmp Hostlist.

Local Open Scope Z_scope.

(** ** Decimal numbers *)

(** The digits of a number and how many there are. *)
Definition dec (n : Z) : cstr := dec_digits 20 n [].
Definition dg (n : Z) : Z := Z.of_nat (length (dec n)).

Lemma dec_digits_acc f : forall n acc, dec_digits f n acc = dec_digits f n [] ++ acc.
Proof.
  induction f as [|f IH]; intros n acc; cbn [dec_digits]; [done|].
  destruct (n <? 10); [done|]. rewrite IH, (IH _ [_]), <-app_assoc. done.
Qed.

Lemma dec_digits_fuel f g n : 0 <= n < 10 ^ Z.of_nat f -> 0 <= n < 10 ^ Z.of_nat g -> (0 < f)%nat -> (0 < g)%nat ->
  dec_digits f n [] = dec_digits g n [].
Proof.
  revert g n. induction f as [|f IH]; intros [|g] n Hf Hg; [lia..|]. intros _ _. cbn [dec_digits].
  rewrite Nat2Z.inj_succ, Z.pow_succ_r in Hf, Hg by lia. destruct (Z.ltb_spec n 10); [done|].
  rewrite dec_digits_acc, (dec_digits_acc g). f_equal.
  assert (0 < n / 10) by dlia. apply IH; [dlia|dlia|..].
  - destruct f; [simpl in Hf; lia|lia].
  - destruct g; [simpl in Hg; lia|lia].
Qed.

#[global] Arguments dec_digits : simpl never.
#[global] Arguments dec : simpl never.
#[global] Arguments dg : simpl never.

Lemma dec_lt10 n : n < 10 -> dec n = [48 + n].
Proof. intros Hn. change (dec n) with (if n <? 10 then [48 + n] else dec_digits 19 (n / 10) [48 + n `mod` 10]).
  destruct (Z.ltb_spec n 10); [done|lia]. Qed.

Lemma dec_ge10 n : 10 <= n < 2 ^ 64 -> dec n = dec (n / 10) ++ [48 + n `mod` 10].
Proof.
  intros Hn. change (dec n) with (if n <? 10 then [48 + n] else dec_digits 19 (n / 10) [48 + n `mod` 10]).
  destruct (Z.ltb_spec n 10); [lia|]. rewrite dec_digits_acc. unfold dec.
  rewrite (dec_digits_fuel 19 20); [done|dlia|dlia|lia|lia].
Qed.

Lemma dg_lt10 n : n < 10 -> dg n = 1.
Proof. intros Hn. unfold dg. by rewrite dec_lt10. Qed.
Lemma dg_ge10 n : 10 <= n < 2 ^ 64 -> dg n = dg (n / 10) + 1.
Proof. intros Hn. unfold dg. rewrite (dec_ge10 n Hn), length_app. simpl. lia. Qed.

Lemma dg_pos n : 0 <= n < 2 ^ 64 -> 1 <= dg n.
Proof.
  intros Hn. destruct (decide (n < 10)); [by rewrite dg_lt10|]. rewrite dg_ge10 by lia. unfold dg. lia.
Qed.

(** Induction on the digits of a number. *)
Lemma digits_ind (P : Z -> Prop) :
  (forall n, 0 <= n < 10 -> P n) -> (forall n, 10 <= n < 2 ^ 64 -> P (n / 10) -> P n) ->
  forall n, 0 <= n < 2 ^ 64 -> P n.
Proof.
  intros H1 H2 n Hn. generalize Hn. pattern n. apply Z_lt_induction; [|lia].
  intros m IH Hm. destruct (decide (m < 10)); [apply H1; lia|]. apply H2; [lia|]. apply IH; dlia.
Qed.

Lemma dg_mono m : 0 <= m < 2 ^ 64 -> forall n, 0 <= n <= m -> dg n <= dg m.
Proof.
  intros Hm. pattern m. apply digits_ind; [| |done].
  - intros k Hk n Hn. rewrite !dg_lt10; lia.
  - intros k Hk IH n Hn. rewrite (dg_ge10 k Hk). destruct (decide (n < 10)).
    + rewrite dg_lt10 by lia. pose proof (dg_pos (k / 10)). dlia.
    + rewrite dg_ge10 by lia. specialize (IH (n / 10)). assert (n / 10 <= k / 10) by dlia.
      assert (0 <= n / 10) by dlia. lia.
Qed.

Lemma dg_20 n : 0 <= n < 2 ^ 64 -> dg n <= 20.
Proof. intros Hn. etransitivity; [apply (dg_mono (2 ^ 64 - 1)); lia|]. vm_compute. discriminate. Qed.

(** The loop of [_zero_padded] counts the digits. *)
Lemma count_digits_dg f : forall n k, 0 <= n < 2 ^ 64 -> (dg n <= Z.of_nat f) -> count_digits f n k = k + dg n - 1.
Proof.
  induction f as [|f IH]; intros n k Hn Hf; [pose proof (dg_pos n Hn); lia|]. cbn [count_digits].
  destruct (decide (n < 10)).
  - rewrite Z.div_small, dg_lt10 by lia. simpl. lia.
  - rewrite dg_ge10 in Hf |- * by lia. rewrite (proj2 (Z.eqb_neq _ _)) by dlia.
    rewrite IH; [lia|dlia|lia].
Qed.

Lemma zero_padded_eq n w : 0 <= n < 2 ^ 64 -> _zero_padded n w = Z.max 0 (w - dg n).
Proof.
  intros Hn. unfold _zero_padded. rewrite count_digits_dg by (done || by apply dg_20). if_solve.
Qed.

(** ** Names *)

(** The number of characters of a number printed with a width. *)
Definition ewidth (w n : Z) : Z := Z.max w (dg n).

Lemma fmt_lu_dec w n : fmt_lu w n = replicate (Z.to_nat w - length (dec n)) 48 ++ dec n.
Proof. done. Qed.

Lemma strlen_fmt_lu w n : 0 <= n < 2 ^ 64 -> strlen (fmt_lu w n) = ewidth w n.
Proof.
  intros Hn. unfold strlen, ewidth. rewrite fmt_lu_dec, length_app, length_replicate.
  pose proof (dg_pos n Hn). unfold dg in *. lia.
Qed.

Lemma fmt_lu_ewidth w w' n : ewidth w n = ewidth w' n -> fmt_lu w n = fmt_lu w' n.
Proof.
  unfold ewidth, dg. rewrite !fmt_lu_dec. intros H.
  by replace (Z.to_nat w - length (dec n))%nat with (Z.to_nat w' - length (dec n))%nat by lia.
Qed.

Lemma ewidth_mono w w' n m : 0 <= n <= m -> m < 2 ^ 64 -> ewidth w n = ewidth w' n -> ewidth w m = ewidth w' m.
Proof. unfold ewidth. intros H Hm E. pose proof (dg_mono m ltac:(lia) n H). lia. Qed.

(** Widths are equivalent when one of them suits both numbers. *)
Lemma width_equiv_spec n wn m wm : 0 <= n < 2 ^ 64 -> 0 <= m < 2 ^ 64 ->
  match _width_equiv n wn m wm with
  | (true, w, w') => w = w' /\ (w = wn \/ w = wm) /\ ewidth w n = ewidth wn n /\ ewidth w m = ewidth wm m
  | (false, w, w') => w = wn /\ w' = wm /\ ewidth wn n <> ewidth wm n /\ ewidth wm m <> ewidth wn m
  end.
Proof.
  intros Hn Hm. unfold _width_equiv. rewrite !zero_padded_eq by done. unfold ewidth.
  generalize (dg n), (dg m). intros dn dm. destruct (Z.eqb_spec wn wm) as [->|]; [split_and!; auto|].
  destruct (Z.eqb_spec (Z.max 0 (wn - dn)) (Z.max 0 (wm - dn)));
    destruct (Z.eqb_spec (Z.max 0 (wm - dm)) (Z.max 0 (wn - dm))); cbn [negb andb]; lia.
Qed.

(** Reading a number back. *)
Lemma scan_zeros k s : scan_digits 0 (replicate k 48 ++ s) = scan_digits 0 s.
Proof. by induction k. Qed.

Lemma scan_fmt_lu w n : 0 <= n < 2 ^ 64 -> scan_digits 0 (fmt_lu w n) = (n, []).
Proof. intros Hn. rewrite fmt_lu_dec, scan_zeros. unfold dec. by rewrite scan_dec by lia. Qed.

Lemma fmt_lu_inj w w' n m : 0 <= n < 2 ^ 64 -> 0 <= m < 2 ^ 64 -> fmt_lu w n = fmt_lu w' m ->
  n = m /\ ewidth w n = ewidth w' n.
Proof.
  intros Hn Hm E. assert (n = m) as <-.
  { pose proof (scan_fmt_lu w n Hn) as H. rewrite E, scan_fmt_lu in H by done. by injection H. }
  split; [done|]. by rewrite <-!strlen_fmt_lu, E.
Qed.

Lemma fmt_lu_digits w n : 0 <= n -> Forall (fun c => isdigit c = true) (fmt_lu w n).
Proof.
  intros Hn. rewrite fmt_lu_dec. apply Forall_app. split; [|by apply dec_digits_are_digits].
  by apply Forall_replicate.
Qed.

Lemma fmt_lu_nonempty w n : 0 <= n < 2 ^ 64 -> fmt_lu w n <> [].
Proof.
  intros Hn E. pose proof (strlen_fmt_lu w n Hn) as H. rewrite E in H. unfold ewidth in H.
  pose proof (dg_pos n Hn). change (strlen []) with 0 in H. lia.
Qed.

(** ** Ranges *)

Definition host_name (prefix : cstr) (width n : Z) : cstr := prefix ++ fmt_lu width n.

(** The hosts of a range, in order. *)
Definition range_hosts (h : hostrange) : list cstr :=
  if hr_singlehost h then [hr_prefix h]
  else host_name (hr_prefix h) (hr_width h) <$> seqZ (hr_lo h) (hr_hi h - hr_lo h + 1).

(** What the operations rely on: a range is not empty, its numbers fit an [int],
    and its prefix has no white space. *)
Record range_wf (h : hostrange) : Prop := {
  rw_plain : plain (hr_prefix h);
  rw_single : hr_singlehost h = true -> hr_lo h = 0 /\ hr_hi h = 0 /\ hr_width h = 0;
  rw_lo : 0 <= hr_lo h <= hr_hi h;
  rw_hi : hr_hi h < 2 ^ 31;
  rw_width : 0 <= hr_width h < 2 ^ 31
}.

Lemma range_count h : range_wf h -> hostrange_count h = hr_hi h - hr_lo h + 1.
Proof.
  intros [_ Hs Hl Hh _]. unfold hostrange_count. destruct (hr_singlehost h).
  - destruct (Hs eq_refl) as (-> & -> & _). done.
  - unfold u64. rewrite Z.mod_small; lia.
Qed.

Lemma length_range_hosts h : range_wf h -> Z.of_nat (length (range_hosts h)) = hr_hi h - hr_lo h + 1.
Proof.
  intros [_ Hs Hl Hh _]. unfold range_hosts. destruct (hr_singlehost h).
  - destruct (Hs eq_refl) as (-> & -> & _). done.
  - rewrite length_fmap, length_seqZ. lia.
Qed.

Lemma copy_range h : range_wf h -> hostrange_copy h = h.
Proof.
  intros [_ Hs _ _ _]. unfold hostrange_copy. destruct h as [p lo hi w []]; simpl in *; [|done].
  destruct (Hs eq_refl) as (-> & -> & ->). done.
Qed.

(** A range whose width has been set to one that gives the same names. *)
Definition rewidth (h h' : hostrange) : Prop :=
  exists w, h' = with_width h w /\ (hr_singlehost h = true -> w = hr_width h) /\ 0 <= w < 2 ^ 31 /\
            ewidth w (hr_lo h) = ewidth (hr_width h) (hr_lo h).

Lemma rewidth_refl h : range_wf h -> rewidth h h.
Proof. intros Hw. exists (hr_width h). pose proof (rw_width _ Hw). split_and!; [by destruct h|done|lia|lia|done]. Qed.

Lemma rewidth_trans h1 h2 h3 : rewidth h1 h2 -> rewidth h2 h3 -> rewidth h1 h3.
Proof.
  intros (w & -> & H1 & H2 & H3) (w' & -> & H1' & H2' & H3'). exists w'. simpl in *. split_and!; [done| |lia|lia|congruence].
  intros Hs. rewrite H1' by done. by apply H1.
Qed.

Lemma rewidth_fields h h' : rewidth h h' ->
  hr_prefix h' = hr_prefix h /\ hr_lo h' = hr_lo h /\ hr_hi h' = hr_hi h /\ hr_singlehost h' = hr_singlehost h.
Proof. by intros (w & -> & _). Qed.

Lemma rewidth_wf h h' : rewidth h h' -> range_wf h -> range_wf h'.
Proof.
  intros (w & -> & H1 & H2 & H3) [Hp Hs Hl Hh Hw]. split; simpl; try done.
  intros E. destruct (Hs E) as (? & ? & ?). rewrite (H1 E). done.
Qed.

Lemma host_name_ewidth p w w' n : ewidth w n = ewidth w' n -> host_name p w n = host_name p w' n.
Proof. intros E. unfold host_name. by rewrite (fmt_lu_ewidth w w'). Qed.

Lemma rewidth_hosts h h' : rewidth h h' -> range_wf h -> range_hosts h' = range_hosts h.
Proof.
  intros (w & -> & H1 & H2 & H3) [_ _ Hl Hh _]. unfold range_hosts. simpl. destruct (hr_singlehost h); [done|].
  apply list_fmap_ext. intros i n Hn. apply lookup_seqZ in Hn as [-> Hi]. apply host_name_ewidth.
  apply (ewidth_mono _ _ (hr_lo h)); [lia|lia|done].
Qed.

(** Ranges compare equal in their prefixes when these are the same, with or
    without a number. *)
Lemma prefix_cmp_0 h1 h2 : plain (hr_prefix h1) -> plain (hr_prefix h2) ->
  hostrange_prefix_cmp (Some h1) (Some h2) = 0 <->
  hr_prefix h1 = hr_prefix h2 /\ hr_singlehost h1 = hr_singlehost h2.
Proof.
  intros H1 H2. unfold hostrange_prefix_cmp. destruct (Z.eqb_spec (strnatcmp (hr_prefix h1) (hr_prefix h2)) 0) as [E|E].
  - apply strnatcmp_eq in E; [|done..]. unfold bit.
    destruct (hr_singlehost h1), (hr_singlehost h2); split; intros; (lia || done || (destruct_and!; done)).
  - split; [done|]. intros [E' _]. by apply strnatcmp_eq in E'.
Qed.

Lemma width_combine_spec h0 h1 : range_wf h0 -> range_wf h1 -> hr_singlehost h0 = hr_singlehost h1 ->
  match hostrange_width_combine h0 h1 with
  | (true, h0', h1') => rewidth h0 h0' /\ rewidth h1 h1' /\ hr_width h0' = hr_width h1'
  | (false, h0', h1') =>
      h0' = h0 /\ h1' = h1 /\
      ewidth (hr_width h0) (hr_lo h0) <> ewidth (hr_width h1) (hr_lo h0) /\
      ewidth (hr_width h1) (hr_lo h1) <> ewidth (hr_width h0) (hr_lo h1)
  end.
Proof.
  intros W0 W1 Es. unfold hostrange_width_combine.
  pose proof (rw_hi _ W0). pose proof (rw_hi _ W1). pose proof (rw_lo _ W0). pose proof (rw_lo _ W1).
  pose proof (width_equiv_spec (hr_lo h0) (hr_width h0) (hr_lo h1) (hr_width h1) ltac:(lia) ltac:(lia)) as H'.
  destruct (_width_equiv _ _ _ _) as [[[] w0] w1].
  - destruct H' as (<- & Hw & E0 & E1).
    assert (0 <= w0 < 2 ^ 31). { pose proof (rw_width _ W0). pose proof (rw_width _ W1). destruct Hw; lia. }
    assert (Hs : hr_singlehost h0 = true -> w0 = hr_width h0 /\ w0 = hr_width h1).
    { intros E. destruct (rw_single _ W0 E) as (_ & _ & E2). rewrite Es in E.
      destruct (rw_single _ W1 E) as (_ & _ & E3). destruct Hw; lia. }
    split_and!; [exists w0|exists w0|done]; (split_and!; [done| |lia|lia|done]); [by intros E; apply Hs|].
    rewrite <-Es. by intros E; apply Hs.
  - destruct H' as (-> & -> & ? & ?). destruct h0, h1. done.
Qed.

(** ** Host names *)

(** A name is its stem and its trailing digits. *)
Definition stem (s : cstr) : cstr := rev (drop_run isdigit (rev s)).
Definition trail (s : cstr) : cstr := rev (digit_run (rev s)).
Abbreviation all_digits := (Forall (fun c => isdigit c = true)).

Lemma run_split s : digit_run s ++ drop_run isdigit s = s.
Proof. induction s as [|c s IH]; [done|]. cbn [digit_run drop_run]. destruct (isdigit c); [|done]. simpl. by rewrite IH. Qed.

Lemma stem_trail s : stem s ++ trail s = s.
Proof.
  unfold stem, trail. rewrite <-rev_app_distr, run_split. apply rev_involutive.
Qed.

Lemma strlen_nonneg s : 0 <= strlen s.
Proof. unfold strlen. lia. Qed.

Lemma strlen_app s t : strlen (s ++ t) = strlen s + strlen t.
Proof. unfold strlen. rewrite length_app. lia. Qed.

Lemma strlen_trail s : strlen (stem s) + strlen (trail s) = strlen s.
Proof. by rewrite <-strlen_app, stem_trail. Qed.

Lemma digit_run_digits s : all_digits (digit_run s).
Proof. induction s as [|c s IH]; cbn [digit_run]; [done|]. destruct (isdigit c) eqn:E; [by constructor|done]. Qed.

Lemma trail_digits s : all_digits (trail s).
Proof. unfold trail. apply Forall_rev, digit_run_digits. Qed.

(** The stem does not end in a digit. *)
Lemma stem_last s c : last (stem s) = Some c -> isdigit c = false.
Proof.
  unfold stem. induction (rev s) as [|x l IH]; cbn [drop_run]; [done|]. destruct (isdigit x) eqn:E; [done|].
  simpl. rewrite last_snoc. by intros [= <-].
Qed.

Lemma trail_app p d : all_digits d -> (forall c, last p = Some c -> isdigit c = false) -> stem (p ++ d) = p /\ trail (p ++ d) = d.
Proof.
  intros Hd Hp. unfold stem, trail. rewrite rev_app_distr.
  assert (H : forall l r, all_digits l -> match r with c :: _ => isdigit c = false | [] => True end ->
    digit_run (l ++ r) = l /\ drop_run isdigit (l ++ r) = r).
  { intros l r Hl Hr. induction Hl as [|c l Hc Hl IH].
    - destruct r as [|c r]; [done|]. cbn [app digit_run drop_run]. by rewrite Hr.
    - cbn [app digit_run drop_run]. rewrite Hc. destruct IH as [-> ->]. done. }
  destruct (H (rev d) (rev p)) as [-> ->].
  - by apply Forall_rev.
  - destruct p as [|c p _] using rev_ind; [done|]. rewrite rev_app_distr. simpl. apply Hp. by rewrite last_snoc.
  - by rewrite !rev_involutive.
Qed.

(** The value of a string of digits. *)
Definition num (d : cstr) : Z := (scan_digits 0 d).1.

Lemma scan_digits_snoc d c : forall n, all_digits d -> isdigit c = true ->
  scan_digits n (d ++ [c]) = ((scan_digits n d).1 * 10 + (c - 48), []).
Proof.
  induction d as [|x d IH]; intros n Hd Hc; cbn [app scan_digits fst]; [by rewrite Hc|].
  apply Forall_cons in Hd as [-> Hd]. by apply IH.
Qed.

Lemma num_snoc d c : all_digits d -> isdigit c = true -> num (d ++ [c]) = num d * 10 + (c - 48).
Proof. intros Hd Hc. unfold num. by rewrite scan_digits_snoc. Qed.

Lemma scan_all_digits d : all_digits d -> scan_digits 0 d = (num d, []).
Proof.
  intros Hd. unfold num. destruct d as [|c d _] using rev_ind; [done|].
  rewrite Forall_app, Forall_singleton in Hd. destruct Hd. by rewrite scan_digits_snoc.
Qed.

Lemma num_nonneg d : all_digits d -> 0 <= num d.
Proof.
  induction d as [|c d IH] using rev_ind; [done|]. rewrite Forall_app, Forall_singleton. intros [Hd Hc].
  rewrite num_snoc by done. specialize (IH Hd). unfold isdigit in Hc. lia.
Qed.

(** A string of digits is its value printed with its length. *)
Lemma fmt_lu_num d : all_digits d -> d <> [] -> num d < 2 ^ 64 -> fmt_lu (strlen d) (num d) = d.
Proof.
  induction d as [|c d IH] using rev_ind; [done|]. rewrite Forall_app, Forall_singleton. intros [Hd Hc] _ Hn.
  rewrite num_snoc in * by done. pose proof (num_nonneg d Hd) as H0. rewrite fmt_lu_dec. unfold strlen. rewrite Nat2Z.id, length_app.
  assert (Hc' : 0 <= c - 48 < 10) by (unfold isdigit in Hc; lia).
  destruct d as [|x d'] eqn:Ed.
  { change (num []) with 0. rewrite dec_lt10 by lia. simpl. f_equal. lia. }
  rewrite <-Ed in *. specialize (IH Hd ltac:(by subst) ltac:(lia)). rewrite fmt_lu_dec in IH. unfold strlen in IH. rewrite Nat2Z.id in IH.
  destruct (decide (num d = 0)) as [E0|E0].
  - rewrite E0 in *. rewrite (dec_lt10 0) in IH by lia. rewrite dec_lt10 by lia. simpl in *.
    rewrite <-IH at 2. rewrite Nat.add_sub. rewrite <-app_assoc. simpl.
    replace (length d) with (S (length d - 1)) at 1 by (rewrite Ed; simpl; lia). rewrite replicate_S_end, <-app_assoc. simpl.
    do 3 f_equal. lia.
  - rewrite dec_ge10 by lia. replace ((num d * 10 + (c - 48)) / 10) with (num d) by dlia.
    replace (48 + (num d * 10 + (c - 48)) `mod` 10) with c by dlia.
    rewrite length_app. simpl. replace (length d + 1 - (length (dec (num d)) + 1))%nat with (length d - length (dec (num d)))%nat by lia.
    by rewrite app_assoc, IH.
Qed.

Lemma scan_base_10 d : forall n, scan_base 10 n d = scan_digits n d.
Proof.
  induction d as [|c d IH]; intros n; cbn [scan_base scan_digits]; [done|]. unfold digit_value, isdigit, isupper.
  destruct (Z.leb_spec 48 c), (Z.leb_spec c 57); cbn [andb]; rewrite ?(proj2 (Z.ltb_lt _ _)) by lia; rewrite ?IH; try done;
    repeat case_match; simplify_eq; done || lia.
Qed.

Lemma digit_cases c : isdigit c = true ->
  c = 48 \/ c = 49 \/ c = 50 \/ c = 51 \/ c = 52 \/ c = 53 \/ c = 54 \/ c = 55 \/ c = 56 \/ c = 57.
Proof. unfold isdigit. lia. Qed.

(** [strtoul] stops at the first character that is not a digit. *)
Lemma strtoul_digits d rest : all_digits d -> d <> [] -> num d <= ULONG_MAX ->
  match rest with c :: _ => isdigit c = false | [] => True end -> strtoul 10 (d ++ rest) = (num d, rest).
Proof.
  intros Hd Hne Hn Hr. destruct d as [|c d]; [done|]. pose proof Hd as Hd'. apply Forall_cons in Hd' as [Hc _].
  unfold strtoul. rewrite <-app_comm_cons. cbn [skip_space].
  assert (isspace c = false) as -> by (unfold isspace, isdigit in *; lia).
  assert (E : forall x y : bool * cstr, match c with 45 => x | 43 => y | _ => (false, c :: d ++ rest) end = (false, c :: d ++ rest)).
  { intros x y. apply digit_cases in Hc. by destruct_or! Hc; subst. }
  rewrite E. assert (digit_value 10 c = Some (c - 48)) as ->.
  { unfold digit_value. rewrite Hc. unfold isdigit in Hc. by rewrite (proj2 (Z.ltb_lt _ _)) by lia. }
  rewrite app_comm_cons, scan_base_10.
  assert (forall s n, all_digits s -> scan_digits n (s ++ rest) = ((scan_digits n s).1, rest)) as Hs.
  { induction s as [|y s IH]; intros n Hy; cbn [app scan_digits].
    - destruct rest as [|z r]; [done|]. cbn [scan_digits]. by rewrite Hr.
    - apply Forall_cons in Hy as [-> Hy]. by apply IH. }
  rewrite Hs by done. fold (num (c :: d)). by destruct (Z.ltb_spec ULONG_MAX (num (c :: d))); [lia|].
Qed.

Lemma plain_app s t : plain (s ++ t) <-> plain s /\ plain t.
Proof. apply Forall_app. Qed.

Lemma digits_are_plain d : all_digits d -> plain d.
Proof. intros H. eapply Forall_impl; [exact H|]. unfold isdigit, isspace. simpl. lia. Qed.

(** One dimension. *)
Definition one_dim (env : cluster_env) : Prop := slurmdb_setup_cluster_name_dims env = 1.

Section names.
Context (env : cluster_env).

Lemma prefix_end_stem s : host_prefix_end env s 1 = strlen (stem s) - 1.
Proof. unfold host_prefix_end, stem, strlen. by rewrite length_rev. Qed.

Lemma hostname_create_1 s : num (trail s) <= ULONG_MAX ->
  hostname_create_dims env s 1 =
  if decide (trail s = []) then Hostname s s 0 None
  else Hostname s (stem s) (num (trail s)) (Some (trail s)).
Proof.
  intros Hn. unfold hostname_create_dims. cbn zeta. change (1 =? 0) with false. cbn match. rewrite prefix_end_stem.
  assert (El : strlen s = strlen (stem s) + strlen (trail s)).
  { rewrite <-(stem_trail s) at 1. unfold strlen. rewrite length_app. lia. }
  case_decide as Et.
  - rewrite Et in El. change (strlen []) with 0 in El. by rewrite (proj2 (Z.eqb_eq _ _)) by lia.
  - assert (0 < strlen (trail s)). { unfold strlen. destruct (trail s); [done|simpl; lia]. }
    rewrite (proj2 (Z.eqb_neq _ _)) by lia. change (1 <? 1) with false. cbn [andb].
    replace (Z.to_nat (strlen (stem s) - 1 + 1)) with (length (stem s)) by (unfold strlen; lia).
    assert (drop (length (stem s)) s = trail s) as ->.
    { pose proof (drop_app_length (stem s) (trail s)) as E. by rewrite stem_trail in E. }
    assert (take (length (stem s)) s = stem s) as ->.
    { pose proof (take_app_length (stem s) (trail s)) as E. by rewrite stem_trail in E. }
    change (hostlist_get_base 1) with 10.
    rewrite <-(app_nil_r (trail s)) at 1. by rewrite strtoul_digits by (done || apply trail_digits).
Qed.

(** The range that [hostlist_push_host_dims] makes of a name. *)
Definition host_range (s : cstr) : hostrange :=
  if decide (trail s = []) then hostrange_create_single s
  else hostrange_create (stem s) (num (trail s)) (num (trail s)) (strlen (trail s)).

Lemma range_of_host_1 s : num (trail s) <= ULONG_MAX ->
  range_of_host (hostname_create_dims env s 1) s = host_range s.
Proof. intros Hn. rewrite hostname_create_1 by done. unfold host_range. by case_decide. Qed.

(** A name that a list can hold: no white space, and a number that fits an
    [int]. *)
Definition name_ok (s : cstr) : Prop := plain s /\ num (trail s) < 2 ^ 31 /\ strlen s < 2 ^ 31.

Lemma host_range_wf s : name_ok s -> range_wf (host_range s).
Proof.
  intros (Hp & Hn & Hl). unfold host_range. case_decide as Et.
  - split; simpl; first [done|intros; lia].
  - pose proof (num_nonneg _ (trail_digits s)). split; simpl; [|done|lia|done|].
    + rewrite <-(stem_trail s) in Hp. by apply plain_app in Hp as [? _].
    + unfold strlen in *. rewrite <-(stem_trail s), length_app in Hl. lia.
Qed.

Lemma host_range_hosts s : name_ok s -> range_hosts (host_range s) = [s].
Proof.
  intros (Hp & Hn & Hl). unfold host_range. case_decide as Et; [done|]. unfold range_hosts. simpl.
  replace (num (trail s) - num (trail s) + 1) with 1 by lia. change (seqZ (num (trail s)) 1) with [0 + num (trail s)].
  simpl. unfold host_name. rewrite fmt_lu_num; [by rewrite stem_trail|apply trail_digits|done|lia].
Qed.
End names.

(** ** Taking hosts from a range *)

Lemma dg_int n : 0 <= n < 2 ^ 31 -> dg n <= 10.
Proof. intros Hn. etransitivity; [apply (dg_mono (2 ^ 31 - 1)); lia|]. vm_compute. discriminate. Qed.

Lemma snprintf_all size s : strlen s < size -> snprintf size s = s.
Proof. unfold snprintf, strlen. intros H. apply take_ge. lia. Qed.

Lemma hostrange_host_1 h n : range_wf h -> 0 <= n < 2 ^ 31 ->
  hostrange_host h n 1 = Ret (host_name (hr_prefix h) (hr_width h) n).
Proof.
  intros W Hn. unfold hostrange_host. change (1 <? 1) with false. cbn [andb]. unfold host_name. rewrite snprintf_all; [done|].
  rewrite strlen_app, strlen_fmt_lu by lia. unfold ewidth. pose proof (dg_int n Hn). pose proof (rw_width _ W). lia.
Qed.

Lemma seqZ_last lo n : 0 < n -> seqZ lo n = seqZ lo (n - 1) ++ [lo + (n - 1)].
Proof. intros Hn. replace n with ((n - 1) + 1) at 1 by lia. by rewrite seqZ_app by lia. Qed.

Lemma u64_small x : 0 <= x < 2 ^ 64 -> u64 x = x.
Proof. intros H. unfold u64. by apply Z.mod_small. Qed.

Lemma with_lo_wf h lo : range_wf h -> hr_singlehost h = false -> hr_lo h <= lo <= hr_hi h -> range_wf (with_lo h lo).
Proof. intros [Hp Hs Hl Hh Hw] E H. split; simpl; (done || lia || by rewrite E). Qed.
Lemma with_hi_wf h hi : range_wf h -> hr_singlehost h = false -> hr_lo h <= hi <= hr_hi h -> range_wf (with_hi h hi).
Proof. intros [Hp Hs Hl Hh Hw] E H. split; simpl; (done || lia || by rewrite E). Qed.

(** Raising [lo] keeps the names, as more digits need no more zeros. *)
Lemma range_hosts_head h : range_wf h -> hr_singlehost h = false -> hr_lo h < hr_hi h ->
  range_hosts h = host_name (hr_prefix h) (hr_width h) (hr_lo h) :: range_hosts (with_lo h (hr_lo h + 1)).
Proof.
  intros W E H. unfold range_hosts. simpl. rewrite E, seqZ_cons by lia. simpl. do 3 f_equal. lia.
Qed.

Lemma range_hosts_last h : range_wf h -> hr_singlehost h = false -> hr_lo h < hr_hi h ->
  range_hosts h = range_hosts (with_hi h (hr_hi h - 1)) ++ [host_name (hr_prefix h) (hr_width h) (hr_hi h)].
Proof.
  intros W E H. unfold range_hosts. simpl. rewrite E, seqZ_last, fmap_app by lia. simpl.
  replace (hr_lo h + (hr_hi h - hr_lo h + 1 - 1)) with (hr_hi h) by lia. do 3 f_equal. lia.
Qed.

Lemma range_hosts_one h : range_wf h -> hr_singlehost h = false -> hr_lo h = hr_hi h ->
  range_hosts h = [host_name (hr_prefix h) (hr_width h) (hr_lo h)].
Proof.
  intros W E H. unfold range_hosts. rewrite E, H. replace (hr_hi h - hr_hi h + 1) with 1 by lia.
  change (seqZ (hr_hi h) 1) with [0 + hr_hi h]. done.
Qed.

Section take.
Context (env : cluster_env).

Lemma hostrange_pop_spec h : one_dim env -> range_wf h ->
  wp (hostrange_pop env h) (fun '(host, h') => exists s, host = Some s /\
    if hostrange_empty h' then range_hosts h = [s]
    else hr_singlehost h = false /\ range_wf h' /\ h' = with_hi h (hr_hi h - 1) /\ range_hosts h = range_hosts h' ++ [s]).
Proof.
  intros E1 W. unfold hostrange_pop. rewrite E1. destruct (hr_singlehost h) eqn:Es.
  - apply wp_ret. exists (hr_prefix h). split; [done|]. destruct (rw_single _ W Es) as (Hl & Hh & _).
    unfold hostrange_empty. simpl. rewrite Hl, Hh. unfold range_hosts. by rewrite Es.
  - pose proof (rw_lo _ W). pose proof (rw_hi _ W). rewrite range_count by done. rewrite (proj2 (Z.ltb_lt _ _)) by lia.
    rewrite hostrange_host_1 by (done || lia). simpl. exists (host_name (hr_prefix h) (hr_width h) (hr_hi h)). split; [done|].
    unfold hostrange_empty. simpl. destruct (decide (hr_lo h = hr_hi h)) as [E|E].
    + assert ((u64 (hr_hi h - 1) <? hr_lo h) = true \/ (u64 (hr_hi h - 1) =? ULONG_MAX) = true) as Ht.
      { destruct (decide (hr_hi h = 0)) as [E0|]; [right; by rewrite E0|left; rewrite u64_small; lia]. }
      assert ((u64 (hr_hi h - 1) <? hr_lo h) || (u64 (hr_hi h - 1) =? ULONG_MAX) = true) as -> by (destruct Ht as [-> | ->]; [done|by rewrite orb_true_r]).
      by rewrite range_hosts_one, E.
    + rewrite u64_small by lia. unfold ULONG_MAX. rewrite (proj2 (orb_false_iff _ _)) by lia.
      split; [done|]. split; [apply with_hi_wf; (done || lia)|]. split; [done|]. apply range_hosts_last; (done || lia).
Qed.

Lemma hostrange_shift_spec h dims : one_dim env -> dims = 0 \/ dims = 1 -> range_wf h ->
  wp (hostrange_shift env h dims) (fun '(host, h') => exists s, host = Some s /\
    if hostrange_empty h' then range_hosts h = [s]
    else hr_singlehost h = false /\ range_wf h' /\ h' = with_lo h (hr_lo h + 1) /\ range_hosts h = s :: range_hosts h').
Proof.
  intros E1 Hd W. unfold hostrange_shift.
  assert ((if dims =? 0 then slurmdb_setup_cluster_name_dims env else dims) = 1) as -> by (destruct Hd as [->| ->]; done).
  cbn zeta. destruct (hr_singlehost h) eqn:Es.
  - apply wp_ret. exists (hr_prefix h). split; [done|]. destruct (rw_single _ W Es) as (Hl & Hh & _).
    unfold hostrange_empty. simpl. rewrite Hl, Hh. unfold range_hosts. by rewrite Es.
  - pose proof (rw_lo _ W). pose proof (rw_hi _ W). rewrite range_count by done. rewrite (proj2 (Z.ltb_lt _ _)) by lia.
    rewrite hostrange_host_1 by (done || lia). simpl. exists (host_name (hr_prefix h) (hr_width h) (hr_lo h)). split; [done|].
    unfold hostrange_empty, ULONG_MAX. simpl. rewrite u64_small by lia. destruct (decide (hr_lo h = hr_hi h)) as [E|E].
    + rewrite (proj2 (orb_true_iff _ _)) by lia. by apply range_hosts_one.
    + rewrite (proj2 (orb_false_iff _ _)) by lia.
      split; [done|]. split; [apply with_lo_wf; (done || lia)|]. split; [done|]. apply range_hosts_head; (done || lia).
Qed.
End take.
