(* ===== verification/HostlistOps.v ===== *)
(** * Operations on host lists: lemmas

    The representation of a list of ranges, and the effect of the array
    operations on it. *)

From S2P Require Import Prelude NatCmp Hostlist HostlistFacts.

Local Open Scope Z_scope.

Abbreviation rlist := (list (nat * hostrange)).

(** The hosts of a list of ranges. *)
Definition rhosts (rs : rlist) : list cstr := rs ≫= fun x => range_hosts x.2.
#[global] Arguments rhosts : simpl never.

(** The prefixes of the ranges, and whether they are of single hosts. *)
Definition kind (h : hostrange) : cstr * bool := (hr_prefix h, hr_singlehost h).
Definition kinds (rs : rlist) : list (cstr * bool) := (fun x => kind x.2) <$> rs.

(** A used prefix of the array and NULL in the other slots. *)
Definition slots (size : Z) (rs : rlist) : list (option (nat * hostrange)) :=
  (Some <$> rs) ++ replicate (Z.to_nat size - length rs) None.

(** The array of [hl] holds the ranges [rs], whose addresses are different. *)
Record hl_arr (hl : hostlist) (rs : rlist) : Prop := {
  arr_hr : hl_hr hl = slots (hl_size hl) rs;
  arr_nranges : hl_nranges hl = Z.of_nat (length rs);
  arr_size : Z.of_nat (length rs) <= hl_size hl;
  arr_chunk : HOSTLIST_CHUNK <= hl_size hl;
  arr_ids : NoDup rs.*1;
  arr_fresh : Forall (fun x => (x.1 < hl_fresh hl)%nat) rs
}.

(** [hl] is a list of the ranges [rs] between two operations. *)
Record hl_rep (hl : hostlist) (rs : rlist) : Prop := {
  rep_arr : hl_arr hl rs;
  rep_nhosts : hl_nhosts hl = Z.of_nat (length (rhosts rs));
  rep_int : hl_nhosts hl <= i32_max;
  rep_wf : Forall (fun x => range_wf x.2) rs;
  rep_iter : hl_ilist hl = []
}.

(** ** The array *)

Section slots.
Implicit Types rs : rlist.

Lemma rhosts_app rs1 rs2 : rhosts (rs1 ++ rs2) = rhosts rs1 ++ rhosts rs2.
Proof. apply bind_app. Qed.

Lemma rhosts_cons x rs : rhosts (x :: rs) = range_hosts x.2 ++ rhosts rs.
Proof. done. Qed.

Lemma rhosts_snd rs1 : forall rs2, rs1.*2 = rs2.*2 -> rhosts rs1 = rhosts rs2.
Proof.
  induction rs1 as [|x rs1 IH]; intros [|y rs2] E; try done. injection E as E1 E2.
  by rewrite !rhosts_cons, E1, (IH rs2).
Qed.

Lemma length_slots size rs : Z.of_nat (length rs) <= size -> Z.of_nat (length (slots size rs)) = size.
Proof. intros H. unfold slots. rewrite length_app, length_fmap, length_replicate. lia. Qed.

Lemma slots_lookup size rs i x : rs !! i = Some x -> slots size rs !! i = Some (Some x).
Proof.
  intros H. unfold slots. rewrite lookup_app_l by (rewrite length_fmap; by eapply lookup_lt_Some).
  by rewrite list_lookup_fmap, H.
Qed.

Lemma slots_lookup_free size rs i : (length rs <= i < Z.to_nat size)%nat -> slots size rs !! i = Some None.
Proof.
  intros H. unfold slots. rewrite lookup_app_r, length_fmap by (rewrite length_fmap; lia).
  apply lookup_replicate. split; [done|lia].
Qed.

Lemma slots_insert size rs i x : (i < length rs)%nat -> <[i := Some x]> (slots size rs) = slots size (<[i := x]> rs).
Proof.
  intros H. unfold slots. rewrite insert_app_l by (by rewrite length_fmap).
  by rewrite list_fmap_insert, length_insert.
Qed.

Lemma slots_snoc size rs x : (length rs < Z.to_nat size)%nat ->
  <[length rs := Some x]> (slots size rs) = slots size (rs ++ [x]).
Proof.
  intros H. unfold slots. rewrite insert_app_r_alt, length_fmap, Nat.sub_diag by (by rewrite length_fmap).
  rewrite fmap_app, length_app, <-app_assoc. f_equal. simpl.
  replace (Z.to_nat size - length rs)%nat with (S (Z.to_nat size - (length rs + 1))) by lia. done.
Qed.

Lemma slots_pop size rs x : (length rs < Z.to_nat size)%nat ->
  <[length rs := None]> (slots size (rs ++ [x])) = slots size rs.
Proof.
  intros H. unfold slots. rewrite fmap_app, length_app, <-app_assoc.
  rewrite insert_app_r_alt, length_fmap, Nat.sub_diag by (by rewrite length_fmap). f_equal. simpl.
  by replace (Z.to_nat size - length rs)%nat with (S (Z.to_nat size - (length rs + 1))) by lia.
Qed.

Lemma slots_grow size size' rs : Z.of_nat (length rs) <= size <= size' ->
  resize (Z.to_nat size') None (slots size rs) = slots size' rs.
Proof.
  intros H. pose proof (length_slots size rs ltac:(lia)). rewrite resize_ge by lia. unfold slots at 1 2.
  rewrite <-app_assoc, <-replicate_add. unfold slots. do 2 f_equal.
  rewrite length_app, length_fmap, length_replicate. lia.
Qed.
End slots.

(** The same list with other ranges. *)
Definition hl_with (hl : hostlist) (rs : rlist) : hostlist :=
  Hostlist (hl_size hl) (Z.of_nat (length rs)) (hl_nhosts hl) (slots (hl_size hl) rs) (hl_ilist hl) (hl_fresh hl).

Lemma arr_with hl rs : hl_arr hl rs -> hl = hl_with hl rs.
Proof. intros [H1 H2 _ _ _ _]. destruct hl. simpl in *. by subst. Qed.

Section arr.
Context {hl : hostlist} {l1 l2 : rlist} {x : nat * hostrange}.

Lemma arr_range_at (A : hl_arr hl (l1 ++ x :: l2)) i : i = Z.of_nat (length l1) -> range_at hl i = Ret x.
Proof.
  intros ->. unfold range_at. rewrite (arr_hr _ _ A), (aget_lookup _ _ (Some x)); [done|lia|].
  rewrite Nat2Z.id. apply slots_lookup. by rewrite list_lookup_middle.
Qed.

Lemma arr_set_slot (A : hl_arr hl (l1 ++ x :: l2)) i y : i = Z.of_nat (length l1) ->
  set_slot hl i (Some y) = Ret (hl_with hl (l1 ++ y :: l2)).
Proof.
  intros ->. unfold set_slot, aset. rewrite (arr_hr _ _ A).
  pose proof (length_slots _ _ (arr_size _ _ A)) as E. pose proof (arr_size _ _ A) as Hs. rewrite length_app in Hs. simpl in Hs.
  rewrite (proj2 (andb_true_iff _ _)) by (split; lia). simpl. f_equal. unfold with_ranges, hl_with. f_equal.
  - rewrite (arr_nranges _ _ A), !length_app. done.
  - rewrite Nat2Z.id, slots_insert by (rewrite length_app; simpl; lia). by rewrite insert_app_r_alt, Nat.sub_diag by done.
Qed.

Lemma arr_set_range (A : hl_arr hl (l1 ++ x :: l2)) i h : i = Z.of_nat (length l1) ->
  set_range hl i h = Ret (hl_with hl (l1 ++ (x.1, h) :: l2)).
Proof.
  intros Hi. unfold set_range. rewrite (arr_range_at A) by done. simpl.
  rewrite (surjective_pairing x). simpl. by rewrite (arr_set_slot A).
Qed.

(** Ranges keep their places when their contents change. *)
Lemma arr_update (A : hl_arr hl (l1 ++ x :: l2)) h : hl_arr (hl_with hl (l1 ++ (x.1, h) :: l2)) (l1 ++ (x.1, h) :: l2).
Proof.
  destruct A as [_ _ H3 H4 H5 H6]. split; simpl; try done.
  - by rewrite length_app in *.
  - by rewrite fmap_app in *.
  - rewrite Forall_app, Forall_cons in *. done.
Qed.

Lemma arr_delete (A : hl_arr hl (l1 ++ x :: l2)) : hl_ilist hl = [] ->
  hostlist_delete_range hl (Z.of_nat (length l1)) = Ret (hl_with hl (l1 ++ l2)).
Proof.
  intros Hil. unfold hostlist_delete_range. pose proof (arr_nranges _ _ A) as Hn. pose proof (arr_size _ _ A) as Hs.
  rewrite length_app in Hn, Hs. simpl in Hn, Hs. apply wp_eq. apply wp_assert; [lia|].
  apply wp_bind. eapply wp_mono; [apply (wp_for (fun k hr => exists j y, k = Z.of_nat (length l1 + j) /\ (j <= length l2)%nat /\
      hr = slots (hl_size hl) (l1 ++ take j l2 ++ y :: drop j l2)) _ _
      (fun hr => exists y, hr = slots (hl_size hl) ((l1 ++ l2) ++ [y])))|].
  - exists 0%nat, x. split; [lia|]. split; [lia|]. rewrite (arr_hr _ _ A). done.
  - intros k hr Hk (j & y & -> & Hj & ->) _.
    destruct (lookup_lt_is_Some_2 l2 j) as [z Hz]; [lia|]. rewrite (drop_S _ _ _ Hz).
    set (pre := l1 ++ take j l2). assert (Hpre : length pre = (length l1 + j)%nat).
    { unfold pre. rewrite length_app, length_take. lia. }
    rewrite (aget_lookup _ _ (Some z)); [|lia|].
    2: { apply slots_lookup. rewrite app_assoc. fold pre. change (y :: z :: drop (S j) l2) with ([y] ++ z :: drop (S j) l2).
         rewrite app_assoc. replace (Z.to_nat _) with (length (pre ++ [y])) by (rewrite length_app; simpl; lia).
         by rewrite list_lookup_middle. }
    simpl. apply wp_aset; [rewrite length_slots; rewrite ?length_app, ?length_take; simpl; rewrite ?length_drop; lia|].
    exists (S j), z. split; [lia|]. split; [lia|]. rewrite app_assoc. fold pre.
    rewrite Nat2Z.id, slots_insert by (rewrite length_app; simpl; lia).
    rewrite insert_app_r_alt by lia. replace (length l1 + j - length pre)%nat with 0%nat by lia. simpl.
    rewrite (take_S_r _ _ _ Hz). unfold pre. by rewrite <-!app_assoc.
  - intros k hr Hk (j & y & -> & Hj & ->) [Hj'|]; [|done]. exists y.
    replace j with (length l2) by lia. rewrite take_ge, drop_ge by lia. by rewrite <-app_assoc.
  - intros hr (y & ->). apply wp_bind. apply wp_aset.
    { rewrite length_slots; rewrite ?length_app in *; simpl; lia. }
    replace (Z.to_nat (hl_nranges hl - 1)) with (length (l1 ++ l2)) by (rewrite length_app; lia).
    rewrite slots_pop by (rewrite length_app; lia). unfold hostlist_shift_iterators, for_iterators. simpl. rewrite Hil. simpl.
    unfold hl_with, with_ilist, with_ranges. simpl. rewrite Hil, length_app. f_equal. lia.
Qed.
End arr.

(** Room for one more range. *)
Lemma arr_room hl rs : hl_arr hl rs ->
  hl_arr (hl_room hl) rs /\ Z.of_nat (length rs) < hl_size (hl_room hl) /\
  hl_nhosts (hl_room hl) = hl_nhosts hl /\ hl_ilist (hl_room hl) = hl_ilist hl /\ hl_fresh (hl_room hl) = hl_fresh hl.
Proof.
  intros A. pose proof A as [H1 H2 H3 H4 H5 H6]. unfold hl_room.
  destruct (Z.eqb_spec (hl_size hl) (hl_nranges hl)); [|split; [done|split; [lia|done]]].
  unfold hostlist_expand, hostlist_resize, HOSTLIST_CHUNK in *. split; [|simpl; split_and!; (done || lia)].
  split; simpl; unfold HOSTLIST_CHUNK; try (done || lia). rewrite H1. apply slots_grow. lia.
Qed.

(** The same list with a new range among the others. *)
Definition hl_add (hl : hostlist) (rs : rlist) : hostlist := with_fresh (hl_with (hl_room hl) rs) (S (hl_fresh hl)).

Section arr_add.
Context {hl : hostlist} {l1 l2 : rlist}.

Lemma arr_add (A : hl_arr hl (l1 ++ l2)) h :
  hl_arr (hl_add hl (l1 ++ (hl_fresh hl, h) :: l2)) (l1 ++ (hl_fresh hl, h) :: l2).
Proof.
  destruct (arr_room _ _ A) as ([H1 H2 H3 H4 H5 H6] & Hlt & _ & _ & Ef). rewrite Ef in H6.
  split; simpl; try done.
  - rewrite length_app in *. simpl. lia.
  - rewrite fmap_app, fmap_cons, <-Permutation_middle, <-fmap_app. simpl. apply NoDup_cons. split; [|done].
    rewrite list_elem_of_fmap. intros (y & Ey & Hy). rewrite Forall_forall in H6. specialize (H6 _ Hy). lia.
  - rewrite Forall_app, Forall_cons in *. destruct H6 as [Ha Hb]. split_and!; [|simpl; lia|].
    + eapply Forall_impl; [exact Ha|]. simpl. lia.
    + eapply Forall_impl; [exact Hb|]. simpl. lia.
Qed.

Lemma arr_insert (A : hl_arr hl (l1 ++ l2)) h : hl_ilist hl = [] ->
  hostlist_insert_range hl h (Z.of_nat (length l1)) =
  Ret (1, hl_add hl (l1 ++ (hl_fresh hl, hostrange_copy h) :: l2)).
Proof.
  intros Hil. unfold hostlist_insert_range. rewrite (arr_nranges _ _ A), length_app.
  destruct (Z.ltb_spec (Z.of_nat (length l1 + length l2)) (Z.of_nat (length l1))); [lia|].
  destruct (arr_room _ _ A) as ([H1 H2 H3 H4 H5 H6] & Hlt & En & Ei & Ef). unfold hl_add. cbn zeta.
  set (hl' := hl_room hl) in *. rewrite length_app in Hlt, H2.
  pose proof (length_slots (hl_size hl') (l1 ++ l2) ltac:(rewrite length_app; lia)) as Hls.
  set (orig := slots (hl_size hl') (l1 ++ l2)) in *. set (new := (hl_fresh hl, hostrange_copy h)).
  destruct (lookup_lt_is_Some_2 orig (length l1)) as [tmp Htmp]; [lia|].
  apply wp_eq. rewrite H1, (aget_lookup _ _ tmp) by (rewrite ?Nat2Z.id; done || lia). simpl.
  unfold set_slot. rewrite H1. apply wp_bind, wp_bind. apply wp_aset; [lia|]. apply wp_ret. rewrite Nat2Z.id, Ef.
  fold new. simpl. apply wp_bind.
  eapply wp_mono; [apply (wp_for (fun k '(hr, t) => exists j, k = Z.of_nat (S (length l1 + j)) /\ (j <= length l2)%nat /\
      hr = (Some <$> l1 ++ new :: take j l2) ++ drop (S (length l1 + j)) orig /\ orig !! (length l1 + j)%nat = Some t) _ _
      (fun '(hr, _) => hr = slots (hl_size hl') (l1 ++ new :: l2)))|].
  - exists 0%nat. rewrite Nat.add_0_r, take_0. split; [lia|]. split; [lia|]. split; [|done].
    rewrite <-(take_drop (length l1) orig) at 1. rewrite (drop_S _ _ _ Htmp), fmap_app.
    rewrite insert_app_r_alt, length_take_le, Nat.sub_diag by (rewrite ?length_take_le; lia). simpl. rewrite <-app_assoc. f_equal.
    unfold orig, slots. rewrite take_app_le, fmap_app, take_app_le, take_ge by (rewrite ?fmap_app, ?length_app, ?length_fmap; lia). done.
  - intros k [hr t] Hk (j & -> & Hj & -> & Ht) _.
    destruct (lookup_lt_is_Some_2 orig (S (length l1 + j))) as [t' Ht']; [lia|].
    destruct (lookup_lt_is_Some_2 l2 j) as [z Hz]; [lia|].
    assert (t = Some z) as ->.
    { unfold orig in Ht. erewrite slots_lookup in Ht by (rewrite lookup_app_r by lia; replace (length l1 + j - length l1)%nat with j by lia; exact Hz). by injection Ht. }
    rewrite (drop_S _ _ _ Ht').
    set (pre := Some <$> l1 ++ new :: take j l2). assert (Hpre : length pre = S (length l1 + j)).
    { unfold pre. rewrite length_fmap, length_app. simpl. rewrite length_take. lia. }
    rewrite (aget_lookup _ _ t'); [|lia|rewrite Nat2Z.id, <-Hpre; by rewrite list_lookup_middle]. simpl.
    apply wp_bind, wp_aset; [rewrite length_app; simpl; lia|]. apply wp_ret.
    exists (S j). split; [lia|]. split; [lia|]. split; [|by rewrite Nat.add_succ_r].
    rewrite Nat2Z.id, <-Hpre, insert_app_r_alt, Nat.sub_diag by lia. simpl. rewrite (take_S_r _ _ _ Hz), app_comm_cons, app_assoc, fmap_app.
    fold pre. simpl. rewrite <-app_assoc. simpl. by rewrite Nat.add_succ_r, Hpre.
  - intros k [hr t] Hk (j & -> & Hj & -> & Ht) [Hj'|]; [|done].
    replace j with (length l2) by lia. rewrite take_ge by lia. unfold slots. f_equal.
    unfold orig, slots. rewrite drop_app_ge by (rewrite length_fmap, length_app; lia).
    rewrite drop_replicate, !length_fmap, !length_app. simpl. f_equal. lia.
  - intros [hr t] ->. unfold for_iterators. simpl. rewrite Ei, Hil. simpl. do 2 f_equal.
    unfold hl_with, with_ilist, with_ranges, with_fresh. simpl. rewrite Ei, Hil, Ef, length_app. f_equal. simpl. lia.
Qed.
End arr_add.

(** ** Pushing *)

(** Two ranges of one prefix and width that follow each other are one range. *)
Lemma range_hosts_join t h : range_wf t -> range_wf h -> hr_prefix t = hr_prefix h -> hr_width t = hr_width h ->
  hr_singlehost t = false -> hr_singlehost h = false -> hr_lo h = hr_hi t + 1 ->
  range_hosts (with_hi t (hr_hi h)) = range_hosts t ++ range_hosts h.
Proof.
  intros Wt Wh Ep Ew Et Eh El. unfold range_hosts. simpl. rewrite Et, Eh, <-Ep, <-Ew, El, <-fmap_app.
  pose proof (rw_lo _ Wt). pose proof (rw_lo _ Wh).
  replace (hr_hi h - hr_lo t + 1) with (hr_hi t - hr_lo t + 1 + (hr_hi h - (hr_hi t + 1) + 1)) by lia.
  rewrite seqZ_app by lia. by replace (hr_lo t + (hr_hi t - hr_lo t + 1)) with (hr_hi t + 1) by lia.
Qed.

(** The last range [t] grows by [h]: their widths are made equal first. *)
Record grows (t h h' t' : hostrange) : Prop := {
  gr_prefix : hr_prefix t = hr_prefix h;
  gr_single : hr_singlehost t = false /\ hr_singlehost h = false;
  gr_next : hr_lo h = hr_hi t + 1;
  gr_h : rewidth h h';
  gr_t : exists t0, rewidth t t0 /\ hr_width t0 = hr_width h' /\ t' = with_hi t0 (hr_hi h)
}.

Lemma grows_wf t h h' t' : range_wf t -> range_wf h -> grows t h h' t' -> range_wf t'.
Proof.
  intros Wt Wh [Ep [Es _] El _ (t0 & Rt & _ & ->)]. pose proof (rewidth_wf _ _ Rt Wt) as W0.
  destruct (rewidth_fields _ _ Rt) as (F1 & F2 & F3 & F4).
  pose proof (rw_lo _ Wt). pose proof (rw_lo _ Wh). pose proof (rw_hi _ Wh).
  split; simpl; [apply W0| |lia|done|apply W0]. rewrite F4, Es. done.
Qed.

Lemma grows_hosts t h h' t' : range_wf t -> range_wf h -> grows t h h' t' ->
  range_hosts t' = range_hosts t ++ range_hosts h.
Proof.
  intros Wt Wh [Ep [Es Eh] El Rh (t0 & Rt & Ew & ->)].
  destruct (rewidth_fields _ _ Rt) as (F1 & F2 & F3 & F4), (rewidth_fields _ _ Rh) as (G1 & G2 & G3 & G4).
  rewrite <-(rewidth_hosts _ _ Rt), <-(rewidth_hosts _ _ Rh), <-G3 by done.
  apply range_hosts_join; try congruence; try lia; by eapply rewidth_wf.
Qed.

(** The ranges after pushing [h] onto [rs]. *)
Inductive pushed (rs : rlist) (a : nat) (h h' : hostrange) : rlist -> Prop :=
| pushed_new : h' = h -> pushed rs a h h' (rs ++ [(a, h)])
| pushed_grow rs0 b t t' : rs = rs0 ++ [(b, t)] -> grows t h h' t' -> pushed rs a h h' (rs0 ++ [(b, t')]).

Lemma pushed_hosts rs a h h' rs' : Forall (fun x => range_wf x.2) rs -> range_wf h -> pushed rs a h h' rs' ->
  rhosts rs' = rhosts rs ++ range_hosts h /\ Forall (fun x => range_wf x.2) rs' /\ rewidth h h'.
Proof.
  intros Wrs Wh [->|rs0 b t t' -> G].
  - rewrite rhosts_app, rhosts_cons, app_nil_r. split_and!; [done| |by apply rewidth_refl].
    rewrite Forall_app, Forall_singleton. split; done.
  - rewrite Forall_app, Forall_singleton in Wrs. destruct Wrs as [W0 Wt]. simpl in Wt.
    rewrite !rhosts_app, !rhosts_cons, !app_nil_r, <-app_assoc. simpl.
    rewrite (grows_hosts t h h' t') by done. split_and!; [done| |apply G].
    rewrite Forall_app, Forall_singleton. split; [done|]. by apply (grows_wf t h h' t').
Qed.

Lemma kinds_app rs1 rs2 : kinds (rs1 ++ rs2) = kinds rs1 ++ kinds rs2.
Proof. apply fmap_app. Qed.

Lemma pushed_kinds rs a h h' rs' : pushed rs a h h' rs' -> kinds rs' ⊆ kinds rs ++ [kind h].
Proof.
  intros [->|rs0 b t t' -> [_ _ _ _ (t0 & (w & -> & _) & _ & ->)]]; rewrite !kinds_app; simpl; set_solver.
Qed.

Lemma s32_small x : i32_min <= x <= i32_max -> s32 x = x.
Proof. unfold s32, i32_min, i32_max. intros H. rewrite Z.mod_small; lia. Qed.

Lemma join_tail_spec hl rs a h : hl_arr hl rs -> Forall (fun x => range_wf x.2) rs -> range_wf h ->
  wp (join_tail hl h) (fun '(joined, hl', h') =>
    if joined : bool then exists rs', pushed rs a h h' rs' /\ hl' = hl_with hl rs' /\ hl_arr hl' rs'
    else h' = h /\ hl' = hl).
Proof.
  intros A W Wh. unfold join_tail. rewrite (arr_nranges _ _ A).
  destruct rs as [|[b t] rs0 _] using rev_ind; [by apply wp_ret|]. rewrite length_app. simpl.
  rewrite (proj2 (Z.ltb_lt _ _)) by lia. rewrite (arr_range_at A) by lia. simpl.
  rewrite Forall_app, Forall_singleton in W. destruct W as [W0 Wt]. simpl in Wt.
  if_case; [|by apply wp_ret]. apply andb_true_iff in E as [E1%Z.eqb_eq E2%Z.eqb_eq].
  apply prefix_cmp_0 in E2 as [Ep Es]; [|apply Wt|apply Wh].
  pose proof (width_combine_spec t h Wt Wh Es) as C. destruct (hostrange_width_combine t h) as [[[] t0] h0].
  - rewrite (arr_set_range A) by lia. apply wp_ret. destruct C as (Rt & Rh & Ew).
    exists (rs0 ++ [(b, with_hi t0 (hr_hi h0))]). split; [|split; [done|apply (arr_update A)]].
    destruct (rewidth_fields _ _ Rh) as (G1 & G2 & G3 & G4).
    eapply pushed_grow; [done|]. split; [done| | |done|].
    + rewrite <-Es. destruct (hr_singlehost t) eqn:Et; [|done]. exfalso.
      destruct (rw_single _ Wt Et) as (_ & Hh & _), (rw_single _ Wh (eq_sym Es)) as (Hl & _).
      rewrite Hh, Hl in E1. by vm_compute in E1.
    + pose proof (rw_lo _ Wh). pose proof (rw_hi _ Wh). pose proof (rw_lo _ Wt). pose proof (rw_hi _ Wt).
      unfold u64 in *. destruct (decide (hr_lo h = 0)) as [E0|].
      * rewrite E0 in E1. change ((0 - 1) `mod` 2 ^ 64) with (2 ^ 64 - 1) in E1. lia.
      * rewrite Z.mod_small in E1; lia.
    + exists t0. rewrite G3. done.
  - destruct C as (-> & -> & _). rewrite (arr_set_range A) by lia. apply wp_ret. split; [done|]. simpl.
    symmetry. by apply arr_with.
Qed.

Lemma append_range_spec hl rs h : hl_arr hl rs -> Z.of_nat (length rs) < hl_size hl -> range_wf h ->
  wp (append_range hl h) (fun hl' => hl_arr hl' (rs ++ [(hl_fresh hl, h)]) /\
    hl_nhosts hl' = hl_nhosts hl /\ hl_ilist hl' = hl_ilist hl).
Proof.
  intros A Hlt Wh. unfold append_range, set_slot. rewrite copy_range, (arr_hr _ _ A), (arr_nranges _ _ A) by done.
  apply wp_bind, wp_bind, wp_aset; [rewrite length_slots; lia|]. rewrite Nat2Z.id, slots_snoc by lia. do 2 apply wp_ret.
  pose proof (arr_add (hl:=hl) (l1:=rs) (l2:=[])) as H. rewrite app_nil_r in H. specialize (H A h).
  assert (hl_room hl = hl) as Er.
  { unfold hl_room. rewrite (arr_nranges _ _ A). by destruct (Z.eqb_spec (hl_size hl) (Z.of_nat (length rs))); [lia|]. }
  unfold hl_add in H. rewrite Er in H. split; [|done]. destruct H. split; simpl in *; try done.
  rewrite length_app. simpl. lia.
Qed.

Lemma push_range_spec hl rs h : hl_rep hl rs -> range_wf h ->
  Z.of_nat (length (rhosts rs ++ range_hosts h)) <= i32_max ->
  wp (hostlist_push_range hl h) (fun '(n, hl', h') =>
    exists rs', pushed rs (hl_fresh hl) h h' rs' /\ hl_rep hl' rs' /\ n = Z.of_nat (length (rhosts rs'))).
Proof.
  intros [A Hn Hi W Hil] Wh Hmax. unfold hostlist_push_range.
  destruct (arr_room _ _ A) as (A' & Hlt & En & Ei & Ef). set (hl' := hl_room hl) in *.
  apply wp_bind. eapply wp_mono; [by apply (join_tail_spec _ rs (hl_fresh hl))|].
  intros [[joined hl1] h1] Hj. apply wp_bind.
  eapply wp_mono with (P := fun hl2 => exists rs', pushed rs (hl_fresh hl) h h1 rs' /\ hl_arr hl2 rs' /\
    hl_nhosts hl2 = hl_nhosts hl /\ hl_ilist hl2 = []).
  { destruct joined.
    - destruct Hj as (rs' & P & -> & A1). apply wp_ret. exists rs'. rewrite <-Hil, <-Ei, <-En. done.
    - destruct Hj as [-> ->]. eapply wp_mono; [by apply append_range_spec|].
      intros hl2 (A2 & En2 & Ei2). rewrite Ef in A2. exists (rs ++ [(hl_fresh hl, h)]).
      split; [by apply pushed_new|]. rewrite En2, Ei2, Ei. done. }
  intros hl2 (rs' & P & A2 & En2 & Ei2). apply wp_ret.
  destruct (pushed_hosts _ _ _ _ _ W Wh P) as (Eh & W' & Rh). exists rs'. split; [done|].
  assert (E : s32 (hl_nhosts hl2 + hostrange_count h1) = Z.of_nat (length (rhosts rs'))).
  { pose proof (rewidth_wf _ _ Rh Wh) as Wh'. rewrite En2, Hn, (range_count _ Wh').
    destruct (rewidth_fields _ _ Rh) as (_ & -> & -> & _). rewrite <-(length_range_hosts _ Wh), Eh.
    rewrite s32_small; rewrite length_app in *; unfold i32_min; lia. }
  rewrite E. split; [|done]. destruct A2. split; simpl; [by split|done|by rewrite Eh|done|done].
Qed.

(** ** Removing at the ends *)

Lemma range_hosts_nonempty h : range_wf h -> range_hosts h <> [].
Proof. intros W E. pose proof (length_range_hosts _ W) as H. rewrite E in H. pose proof (rw_lo _ W). simpl in H. lia. Qed.

Lemma rhosts_nil rs : Forall (fun x => range_wf x.2) rs -> rhosts rs = [] -> rs = [].
Proof.
  destruct rs as [|x rs]; [done|]. rewrite Forall_cons, rhosts_cons. intros [W _] [E _]%app_nil. by apply range_hosts_nonempty in E.
Qed.

Lemma ranges_le_hosts rs : Forall (fun x => range_wf x.2) rs -> (length rs <= length (rhosts rs))%nat.
Proof.
  induction 1 as [|x rs W _ IH]; [done|]. rewrite rhosts_cons, length_app. simpl.
  pose proof (length_range_hosts _ W). pose proof (rw_lo _ W). lia.
Qed.

(** A list of the remaining ranges once [nhosts] counts their hosts. *)
Lemma rep_with hl rs : hl_arr hl rs -> Forall (fun x => range_wf x.2) rs -> hl_ilist hl = [] ->
  hl_nhosts hl = Z.of_nat (length (rhosts rs)) -> hl_nhosts hl <= i32_max -> hl_rep hl rs.
Proof. done. Qed.

Lemma arr_nhosts hl n rs : hl_arr hl rs -> hl_arr (with_nhosts hl n) rs.
Proof. by intros []. Qed.

(** The last range can be left out. *)
Lemma arr_drop_last hl rs x : hl_arr hl (rs ++ [x]) -> hl_arr (hl_with hl rs) rs.
Proof.
  intros [_ _ H3 H4 H5 H6]. rewrite length_app in H3. simpl in H3. split; simpl; try (done || lia).
  - rewrite fmap_app in H5. by apply NoDup_app in H5 as [? _].
  - by apply Forall_app in H6 as [? _].
Qed.

Lemma arr_drop_mid hl l1 x l2 : hl_arr hl (l1 ++ x :: l2) -> hl_arr (hl_with hl (l1 ++ l2)) (l1 ++ l2).
Proof.
  intros [_ _ H3 H4 H5 H6]. rewrite length_app in H3. simpl in H3.
  split; simpl; rewrite ?length_app; try (done || lia).
  - rewrite fmap_app in *. simpl in H5. rewrite NoDup_app, NoDup_cons in *. destruct H5 as (? & Hd & _ & ?).
    split_and!; try done. intros y Hy Hy'. apply (Hd y Hy). by right.
  - rewrite Forall_app, Forall_cons in *. tauto.
Qed.

Section ends.
Context (env : cluster_env) (E1 : one_dim env).

Lemma pop_spec hl rs : hl_rep hl rs ->
  wp (hostlist_pop env hl) (fun '(host, hl') => exists rs', hl_rep hl' rs' /\
    match host with
    | Some s => rhosts rs = rhosts rs' ++ [s] /\ kinds rs' ⊆ kinds rs
    | None => rhosts rs = [] /\ hl' = hl /\ rs' = rs
    end).
Proof.
  intros [A Hn Hi W Hil]. unfold hostlist_pop. if_case.
  { apply wp_ret. exists rs. split; [by apply rep_with|]. split; [|done]. apply nil_length_inv. lia. }
  destruct rs as [|[a h] rs0 _] using rev_ind; [simpl in Hn; lia|].
  pose proof (arr_nranges _ _ A) as Hnr. rewrite length_app in Hnr. simpl in Hnr.
  rewrite (arr_range_at A) by lia. simpl. rewrite Forall_app, Forall_singleton in W. destruct W as [W0 Wh]. simpl in Wh.
  apply wp_bind. eapply wp_mono; [by apply hostrange_pop_spec|]. intros [host h'] (s & -> & H).
  rewrite (arr_set_range A) by lia. simpl. rewrite rhosts_app, rhosts_cons in Hn |- *. simpl in *.
  rewrite !app_nil_r in *. rewrite length_app in Hn. destruct (hostrange_empty h').
  - rewrite H in *. unfold set_slot. simpl. apply wp_bind, wp_bind, wp_aset.
    { pose proof (arr_size _ _ A) as Hs. rewrite length_slots; rewrite length_app in *; simpl in *; lia. }
    do 2 apply wp_ret. exists rs0. split; [|by rewrite kinds_app; set_solver].
    replace (Z.to_nat (Z.of_nat (length (rs0 ++ [(a, h')])) - 1)) with (length rs0) by (rewrite length_app; simpl; lia).
    rewrite slots_pop by (pose proof (arr_size _ _ A) as Hs; rewrite length_app in Hs; simpl in Hs; lia).
    pose proof (arr_drop_last _ _ _ A) as A'. apply rep_with; [|done|done|simpl in *; lia|simpl; lia].
    destruct A'. split; simpl in *; try done. rewrite length_app. simpl. lia.
  - destruct H as (Es & Wh' & Eh' & H). apply wp_ret. exists (rs0 ++ [(a, h')]).
    pose proof (arr_update A h') as A'. simpl in A'. split.
    + apply rep_with; [by apply arr_nhosts|rewrite Forall_app, Forall_singleton; done|done| |simpl; lia].
      simpl. rewrite rhosts_app, rhosts_cons, app_nil_r. simpl. rewrite H in Hn. rewrite !length_app in *. simpl in *. lia.
    + rewrite !rhosts_app, !rhosts_cons, !app_nil_r. simpl. rewrite H, app_assoc, Eh', !kinds_app. done.
Qed.

Lemma shift_spec hl rs dims : dims = 0 \/ dims = 1 -> hl_rep hl rs ->
  wp (hostlist_shift_dims env hl dims) (fun '(host, hl') => exists rs', hl_rep hl' rs' /\
    match host with
    | Some s => rhosts rs = s :: rhosts rs' /\ kinds rs' ⊆ kinds rs
    | None => rhosts rs = [] /\ hl' = hl /\ rs' = rs
    end).
Proof.
  intros Hd [A Hn Hi W Hil]. unfold hostlist_shift_dims. if_case.
  { apply wp_ret. exists rs. split; [by apply rep_with|]. split; [|done]. apply nil_length_inv. lia. }
  destruct rs as [|[a h] rs0]; [simpl in Hn; lia|].
  assert (A0 : hl_arr hl ([] ++ (a, h) :: rs0)) by done.
  rewrite (arr_range_at A0) by done. simpl. rewrite Forall_cons in W. destruct W as [Wh W0]. simpl in Wh.
  apply wp_bind. eapply wp_mono.
  { apply hostrange_shift_spec; [done| |done]. right. destruct Hd as [->| ->]; [by rewrite E1|done]. }
  intros [host h'] (s & -> & H). rewrite (arr_set_range A0) by done. simpl. rewrite rhosts_cons in Hn. simpl in Hn.
  rewrite length_app in Hn. pose proof (arr_update A0 h') as A'. simpl in A'. apply wp_bind. destruct (hostrange_empty h').
  - rewrite H in *. change 0 with (Z.of_nat (length (@nil (nat * hostrange)))).
    rewrite (arr_delete (l1:=[]) (arr_nhosts _ _ _ A')) by done. do 2 apply wp_ret. exists rs0. split; [|rewrite rhosts_cons; simpl; rewrite H; set_solver].
    pose proof (arr_drop_mid _ [] _ _ (arr_nhosts _ (hl_nhosts hl - 1) _ A')) as A2. apply rep_with; [done|done|done|simpl in *; lia|simpl; lia].
  - destruct H as (Es & Wh' & Eh' & H). unfold hostlist_shift_iterators, for_iterators. simpl. rewrite Hil. simpl.
    exists ((a, h') :: rs0). split.
    + apply rep_with; [|by rewrite Forall_cons|done| |simpl; lia].
      * destruct A'. done.
      * simpl. rewrite rhosts_cons. simpl. rewrite H in Hn. simpl in Hn. rewrite length_app. lia.
    + rewrite !rhosts_cons. simpl. rewrite H, Eh'. done.
Qed.
End ends.
