(* ===== verification/HostlistSeq.v ===== *)
(** * Host lists as sequences of names: lemmas

    Pushing names and lists, the host at a position, deleting and finding. *)

From S2P Require Import Prelude NatCmp Hostlist HostlistFacts HostlistOps.

Local Open Scope Z_scope.

(** ** Creating, copying and pushing *)

Lemma rep_new : hl_rep hostlist_new [].
Proof. by split; [split; try constructor|..]. Qed.

Section push.
Context (env : cluster_env) (E1 : one_dim env).

Lemma push_host_spec hl rs s dims : dims = 0 \/ dims = 1 -> hl_rep hl rs -> name_ok s ->
  Z.of_nat (length (rhosts rs)) < i32_max ->
  wp (hostlist_push_host_dims env hl s dims) (fun '(rc, hl') => rc = 1 /\
    exists rs' h', pushed rs (hl_fresh hl) (host_range s) h' rs' /\ hl_rep hl' rs' /\ rhosts rs' = rhosts rs ++ [s]).
Proof.
  intros Hd R Hs Hlt. unfold hostlist_push_host_dims.
  assert ((if dims =? 0 then slurmdb_setup_cluster_name_dims env else dims) = 1) as -> by (destruct Hd as [->| ->]; done).
  cbn zeta. rewrite range_of_host_1 by (destruct Hs as (_ & ? & _); unfold ULONG_MAX; lia).
  pose proof (host_range_hosts s Hs) as Hh. apply wp_bind. eapply wp_mono.
  { apply (push_range_spec _ rs); [done|by apply host_range_wf|]. rewrite Hh, length_app. simpl. lia. }
  intros [[n hl'] h'] (rs' & P & R' & _). apply wp_ret. split; [done|]. exists rs', h'. split; [done|]. split; [done|].
  destruct (pushed_hosts _ _ _ _ _ (rep_wf _ _ R) (host_range_wf s Hs) P) as (-> & _). by rewrite Hh.
Qed.
End push.

(** Setting the width of one range of a list. *)
Lemma rep_rewidth hl l1 a h h' l2 : hl_rep hl (l1 ++ (a, h) :: l2) -> rewidth h h' ->
  hl_rep (hl_with hl (l1 ++ (a, h') :: l2)) (l1 ++ (a, h') :: l2) /\
  rhosts (l1 ++ (a, h') :: l2) = rhosts (l1 ++ (a, h) :: l2).
Proof.
  intros [A Hn Hi W Hil] Rh. rewrite Forall_app, Forall_cons in W. destruct W as (W1 & Wh & W2). simpl in Wh.
  assert (E : rhosts (l1 ++ (a, h') :: l2) = rhosts (l1 ++ (a, h) :: l2)).
  { rewrite !rhosts_app, !rhosts_cons. simpl. by rewrite (rewidth_hosts _ _ Rh). }
  split; [|done]. apply rep_with; [apply (arr_update A)| |done|simpl; by rewrite E|done].
  rewrite Forall_app, Forall_cons. simpl. split_and!; try done. by eapply rewidth_wf.
Qed.

Lemma push_list_spec hl1 rs1 hl2 rs2 : hl_rep hl1 rs1 -> hl_rep hl2 rs2 ->
  Z.of_nat (length rs2) * Z.of_nat (length (rhosts rs1 ++ rhosts rs2)) <= i32_max ->
  wp (hostlist_push_list hl1 hl2) (fun '(_, hl1', hl2') => exists rs1' rs2',
    (hl_rep hl1' rs1' /\ rhosts rs1' = rhosts rs1 ++ rhosts rs2 /\ kinds rs1' ⊆ kinds rs1 ++ kinds rs2) /\
    (hl_rep hl2' rs2' /\ rhosts rs2' = rhosts rs2 /\ kinds rs2' = kinds rs2)).
Proof.
  intros R1 R2 Hmax. unfold hostlist_push_list. set (total := Z.of_nat (length (rhosts rs1 ++ rhosts rs2))) in *.
  eapply (wp_for (fun k '(n, h1, h2) => exists rs1' p q, k = Z.of_nat (length p) /\ 0 <= n <= k * total /\
    hl_rep h1 rs1' /\ hl_rep h2 (p ++ q) /\ rhosts (p ++ q) = rhosts rs2 /\ length (p ++ q) = length rs2 /\
    rhosts rs1' = rhosts rs1 ++ rhosts p /\ kinds rs1' ⊆ kinds rs1 ++ kinds p /\ kinds (p ++ q) = kinds rs2)).
  - exists rs1, [], rs2. rewrite !app_nil_r. simpl. split_and!; (done || lia).
  - intros k [[n h1] h2] Hk (rs1' & p & q & -> & Hn & Rh1 & Rh2 & Eh & El & E1 & K1 & K2) _.
    rewrite (arr_nranges _ _ (rep_arr _ _ R2)) in Hk. rewrite length_app in El. destruct q as [|[a h] q]; [simpl in El; lia|].
    rewrite (arr_range_at (rep_arr _ _ Rh2)) by done. simpl.
    assert (Wh : range_wf h). { pose proof (rep_wf _ _ Rh2) as W. rewrite Forall_app, Forall_cons in W. apply W. }
    assert (Ht : rhosts rs1 ++ rhosts rs2 = (rhosts rs1' ++ range_hosts h) ++ rhosts q).
    { rewrite E1, <-Eh, rhosts_app, rhosts_cons, <-!app_assoc. done. }
    assert (Hle : Z.of_nat (length (rhosts rs1' ++ range_hosts h)) <= total).
    { unfold total. rewrite Ht, (length_app _ (rhosts q)). lia. }
    apply wp_bind. eapply wp_mono; [apply (push_range_spec _ rs1'); [done|done|nia]|].
    intros [[k h1'] h'] (rs1'' & P & R' & ->).
    destruct (pushed_hosts _ _ _ _ _ (rep_wf _ _ Rh1) Wh P) as (Eh' & _ & Rw).
    destruct (rep_rewidth _ _ _ _ h' _ Rh2 Rw) as [R2' E2'].
    rewrite (arr_set_range (rep_arr _ _ Rh2)) by done. simpl. rewrite Eh'. apply wp_bind, wp_i32; [unfold i32_min; nia|].
    apply wp_ret. exists rs1'', (p ++ [(a, h')]), q. rewrite <-!app_assoc, !length_app. simpl. rewrite Eh'.
    rewrite length_app in Hle.
    assert (Ek : kind h' = kind h). { destruct (rewidth_fields _ _ Rw) as (F1 & _ & _ & F2). unfold kind. by rewrite F1, F2. }
    split_and!; [lia|lia|lia|done|done|by rewrite E2'|simpl in El; lia|..].
    + rewrite E1, rhosts_app, rhosts_cons, app_nil_r, <-app_assoc. simpl. by rewrite (rewidth_hosts _ _ Rw).
    + pose proof (pushed_kinds _ _ _ _ _ P) as K. rewrite kinds_app. simpl. rewrite Ek. clear - K K1.
      intros k Hk. specialize (K k Hk). rewrite !elem_of_app in *. specialize (K1 k). rewrite elem_of_app in K1. tauto.
    + rewrite <-K2, !kinds_app. simpl. by rewrite Ek.
  - intros k [[n h1] h2] Hk (rs1' & p & q & -> & Hn & Rh1 & Rh2 & Eh & El & E1 & K1 & K2) [Hd|]; [|done].
    rewrite (arr_nranges _ _ (rep_arr _ _ R2)) in Hd. rewrite length_app in El. assert (q = []) as -> by (apply nil_length_inv; lia).
    rewrite app_nil_r in *. exists rs1', p. rewrite <-K2, E1, Eh. done.
Qed.

Lemma copy_spec hl rs : hl_rep hl rs -> wp (hostlist_copy hl) (fun hl' =>
  exists rs', hl_rep hl' rs' /\ rs'.*2 = rs.*2).
Proof.
  intros [A Hn Hi W Hil]. unfold hostlist_copy. rewrite (arr_nranges _ _ A).
  set (new := if HOSTLIST_CHUNK <? _ then _ else _).
  assert (Hnew : hl_hr new = slots (hl_size new) [] /\ Z.of_nat (length rs) <= hl_size new /\ HOSTLIST_CHUNK <= hl_size new).
  { unfold new, HOSTLIST_CHUNK. destruct (Z.ltb_spec 16 (Z.of_nat (length rs))); [|change (hl_size hostlist_new) with 16; split; [done|lia]].
    split; [|simpl; unfold HOSTLIST_CHUNK; lia]. change (hl_hr (hostlist_resize hostlist_new (Z.of_nat (length rs))))
      with (resize (Z.to_nat (Z.of_nat (length rs))) None (slots 16 [])). apply slots_grow. simpl. lia. }
  destruct Hnew as (E0 & Hs & Hc). apply wp_bind.
  eapply wp_mono; [eapply (wp_for (fun k hr => exists p, k = Z.of_nat (length p) /\ p.*2 = take (length p) rs.*2 /\
    p.*1 = seq 0 (length p) /\ hr = slots (hl_size new) p) _ _ (fun hr => exists p, p.*2 = rs.*2 /\ p.*1 = seq 0 (length p) /\ hr = slots (hl_size new) p))|].
  - exists []. by rewrite E0.
  - intros k hr Hk (p & -> & E2 & E3 & ->) _. destruct (lookup_lt_is_Some_2 rs (length p)) as [[a h] Ha]; [lia|].
    assert (Hr : range_at hl (Z.of_nat (length p)) = Ret (a, h)).
    { unfold range_at. rewrite (arr_hr _ _ A), (aget_lookup _ _ (Some (a, h))); [done|lia|]. rewrite Nat2Z.id. by apply slots_lookup. }
    rewrite Hr. simpl. pose proof (Forall_lookup_1 _ _ _ _ W Ha) as Wh. simpl in Wh. rewrite copy_range by done.
    apply wp_aset; [rewrite length_slots; lia|]. rewrite Nat2Z.id, slots_snoc by lia. exists (p ++ [(length p, h)]).
    rewrite length_app, !fmap_app. simpl. split_and!; [lia| | |done].
    + rewrite Nat.add_1_r. erewrite take_S_r by (by rewrite list_lookup_fmap, Ha). by rewrite <-E2.
    + by rewrite seq_app, E3.
  - intros k hr Hk (p & -> & E2 & E3 & ->) [Hd|]; [|done]. exists p. split; [|done].
    rewrite E2. apply take_ge. rewrite length_fmap. lia.
  - intros hr (p & E2 & E3 & ->). apply wp_ret. exists p. split; [|done].
    assert (El : length p = length rs) by (by rewrite <-!(length_fmap snd), E2).
    assert (W' : Forall range_wf p.*2) by (rewrite E2; by apply Forall_fmap).
    apply rep_with; [|exact (proj1 (Forall_fmap _ _ _) W')|done|simpl; by rewrite (rhosts_snd p rs)|done].
    split; simpl; [done|by rewrite El|lia|done|rewrite E3; apply NoDup_seq|].
    apply (Forall_fmap fst (fun x => (x < _)%nat)). rewrite E3, Forall_forall. intros x Hx%elem_of_seq. lia.
Qed.

(** ** Positions *)

(** Host [n] is in range [x] of the list, with [c] hosts before that range. *)
Definition located (rs : rlist) (n : Z) (l1 : rlist) (x : nat * hostrange) (l2 : rlist) : Prop :=
  rs = l1 ++ x :: l2 /\ Z.of_nat (length (rhosts l1)) <= n < Z.of_nat (length (rhosts l1 ++ range_hosts x.2)).

Lemma locate_spec hl rs n : hl_rep hl rs -> 0 <= n ->
  wp (locate hl n) (fun r => match r with
    | Some (i, c) => exists l1 x l2, located rs n l1 x l2 /\ i = Z.of_nat (length l1) /\ c = Z.of_nat (length (rhosts l1))
    | None => Z.of_nat (length (rhosts rs)) <= n
    end).
Proof.
  intros [A Hn Hi W Hil] H0. unfold locate. apply wp_bind.
  eapply (wp_for (fun k '(c, r) => match r with
    | Some (i, c) => exists l1 x l2, located rs n l1 x l2 /\ i = Z.of_nat (length l1) /\ c = Z.of_nat (length (rhosts l1))
    | None => exists l1 l2, rs = l1 ++ l2 /\ k = Z.of_nat (length l1) /\ c = Z.of_nat (length (rhosts l1)) /\ c <= n
    end)).
  - exists [], rs. done.
  - intros k [c r] Hk H Hr. rewrite (arr_nranges _ _ A) in Hk. destruct r as [|]; [done|]. destruct H as (l1 & l2 & -> & -> & -> & Hc).
    destruct l2 as [|[a h] l2]; [rewrite app_nil_r in Hk; lia|]. rewrite (arr_range_at A) by done. simpl.
    rewrite Forall_app, Forall_cons in W. destruct W as (_ & Wh & _). simpl in Wh.
    rewrite range_count, <-length_range_hosts by done. rewrite rhosts_app, rhosts_cons, !length_app in Hn. simpl in Hn.
    rewrite s32_small by (unfold i32_min; lia). if_case.
    + apply wp_ret. exists l1, (a, h), l2. split; [|done]. split; [done|]. rewrite length_app. simpl. lia.
    + apply wp_bind, wp_i32; [unfold i32_min; lia|]. apply wp_ret. exists (l1 ++ [(a, h)]), l2.
      rewrite <-app_assoc, rhosts_app, rhosts_cons, app_nil_r, !length_app. simpl. split_and!; (done || lia).
  - intros k [c r] Hk H Hd. rewrite (arr_nranges _ _ A) in Hd. apply wp_ret. destruct r as [[i c']|]; [done|].
    destruct H as (l1 & l2 & -> & -> & -> & Hc). destruct Hd as [Hd|]; [|done].
    rewrite length_app in Hd. assert (l2 = []) as -> by (apply nil_length_inv; lia). by rewrite app_nil_r.
Qed.

Lemma located_lookup rs n l1 x l2 : located rs n l1 x l2 ->
  rhosts rs !! Z.to_nat n = range_hosts x.2 !! (Z.to_nat n - length (rhosts l1))%nat.
Proof.
  intros (-> & Hn). rewrite length_app in Hn. rewrite rhosts_app, rhosts_cons, lookup_app_r, lookup_app_l by lia. done.
Qed.

Lemma range_hosts_lookup h k : range_wf h -> hr_singlehost h = false -> 0 <= k <= hr_hi h - hr_lo h ->
  range_hosts h !! Z.to_nat k = Some (host_name (hr_prefix h) (hr_width h) (hr_lo h + k)).
Proof.
  intros W E H. unfold range_hosts. rewrite E, list_lookup_fmap, lookup_seqZ_lt by lia. by replace (hr_lo h + Z.of_nat (Z.to_nat k)) with (hr_lo h + k) by lia.
Qed.

(** A name that fits the buffers of [hostlist_nth] and [hostlist_next]. *)
Definition short (s : cstr) : Prop := strlen s < 79.

Lemma host_text_spec h k s : range_wf h -> 0 <= k <= hr_hi h - hr_lo h -> range_hosts h !! Z.to_nat k = Some s -> short s ->
  host_text h k 1 = Ret (Some s).
Proof.
  intros W Hk Hs Hl. unfold host_text, MAXHOSTNAMELEN, short in *. pose proof (rw_lo _ W). pose proof (rw_hi _ W).
  destruct (hr_singlehost h) eqn:Es.
  - unfold range_hosts in Hs. rewrite Es in Hs. destruct (rw_single _ W Es) as (E0 & E1 & _).
    replace k with 0 in Hs by lia. simpl in Hs. injection Hs as <-. by destruct (Z.leb_spec (64 + 16) (strlen (hr_prefix h) + 1)); [lia|].
  - rewrite range_hosts_lookup in Hs by done. injection Hs as <-. unfold host_name in *. rewrite strlen_app, strlen_fmt_lu in Hl by lia.
    pose proof (dg_pos (hr_lo h + k) ltac:(lia)). unfold ewidth in Hl. assert (0 <= strlen (hr_prefix h)) by (unfold strlen; lia).
    destruct (Z.leb_spec (64 + 16) (strlen (hr_prefix h) + 1)); [lia|]. change (1 <? 1) with false. cbn [andb].
    rewrite u64_small by lia. rewrite strlen_fmt_lu by lia. unfold ewidth.
    destruct (Z.leb_spec (64 + 16) (Z.max (hr_width h) (dg (hr_lo h + k)))); [lia|].
    rewrite snprintf_all by (rewrite strlen_fmt_lu; unfold ewidth; lia). done.
Qed.

Lemma nth_spec env hl rs n : one_dim env -> hl_rep hl rs -> 0 <= n -> Forall short (rhosts rs) ->
  hostlist_nth env hl n = Ret (rhosts rs !! Z.to_nat n).
Proof.
  intros E1 R H0 Hs. apply wp_eq. unfold hostlist_nth. apply wp_bind. eapply wp_mono; [by apply (locate_spec _ rs)|].
  intros [[i c]|].
  - intros (l1 & [a h] & l2 & L & -> & ->). pose proof L as [-> Hn]. rewrite (arr_range_at (rep_arr _ _ R)) by done. simpl.
    unfold _hostrange_string. rewrite E1, (located_lookup _ _ _ _ _ L). simpl in *. rewrite length_app in Hn.
    pose proof (rep_wf _ _ R) as W. rewrite Forall_app, Forall_cons in W. destruct W as (_ & Wh & _). simpl in Wh.
    pose proof (length_range_hosts _ Wh) as Hl.
    destruct (lookup_lt_is_Some_2 (range_hosts h) (Z.to_nat n - length (rhosts l1))) as [s Es]; [lia|]. rewrite Es.
    rewrite (host_text_spec _ _ s); [done|done|lia| |].
    + by replace (Z.to_nat (n - Z.of_nat (length (rhosts l1)))) with (Z.to_nat n - length (rhosts l1))%nat by lia.
    + rewrite Forall_lookup in Hs. apply (Hs (Z.to_nat n)). by rewrite (located_lookup _ _ _ _ _ L).
  - intros Hn. apply wp_ret. rewrite lookup_ge_None_2 by lia. done.
Qed.

(** ** Deleting *)

Lemma range_hosts_split h n : range_wf h -> hr_singlehost h = false -> hr_lo h < n <= hr_hi h ->
  range_hosts h = range_hosts (with_hi h (n - 1)) ++ range_hosts (with_lo h n).
Proof.
  intros W E H. unfold range_hosts. simpl. rewrite E, <-fmap_app.
  replace (hr_hi h - hr_lo h + 1) with (n - 1 - hr_lo h + 1 + (hr_hi h - n + 1)) by lia.
  rewrite seqZ_app by lia. by replace (hr_lo h + (n - 1 - hr_lo h + 1)) with n by lia.
Qed.

Lemma delete_mid {A : Type} (l1 : list A) x l2 k : k = length l1 -> delete k (l1 ++ x :: l2) = l1 ++ l2.
Proof. intros ->. by apply delete_middle. Qed.

(** What is left of a range without its host [k]: a part on either side. *)
Lemma delete_host_spec h k : range_wf h -> hr_singlehost h = false -> 0 <= k <= hr_hi h - hr_lo h ->
  wp (hostrange_delete_host h (hr_lo h + k)) (fun '(h', new) =>
    match new with Some new => kind h' = kind h /\ kind new = kind h | None => kind h' = kind h end /\
    match new with
    | Some new => range_wf h' /\ range_wf new /\ hostrange_empty h' = false /\
        delete (Z.to_nat k) (range_hosts h) = range_hosts h' ++ range_hosts new
    | None => if hostrange_empty h' then delete (Z.to_nat k) (range_hosts h) = []
              else range_wf h' /\ delete (Z.to_nat k) (range_hosts h) = range_hosts h'
    end).
Proof.
  intros W Es Hk. pose proof (rw_lo _ W). pose proof (rw_hi _ W). unfold hostrange_delete_host, hostrange_empty, ULONG_MAX.
  apply wp_assert; [lia|]. destruct (decide (hr_lo h = hr_hi h)) as [E|E].
  { rewrite (proj2 (Z.eqb_eq _ _)) by lia. apply wp_ret. split; [done|]. simpl. rewrite u64_small by lia.
    rewrite (proj2 (orb_true_iff _ _)) by lia. rewrite range_hosts_one by done. by replace k with 0 by lia. }
  destruct (Z.eqb_spec (hr_lo h + k) (hr_lo h)).
  { apply wp_ret. split; [done|]. simpl. rewrite u64_small by lia. rewrite (proj2 (orb_false_iff _ _)) by lia.
    split; [apply with_lo_wf; (done || lia)|]. rewrite range_hosts_head by (done || lia). by replace k with 0 by lia. }
  destruct (Z.eqb_spec (hr_lo h + k) (hr_hi h)).
  { apply wp_ret. split; [done|]. simpl. rewrite u64_small by lia. rewrite (proj2 (orb_false_iff _ _)) by lia.
    assert (W' : range_wf (with_hi h (hr_hi h - 1))) by (apply with_hi_wf; (done || lia)). split; [done|].
    pose proof (length_range_hosts _ W') as El. simpl in El. rewrite range_hosts_last by (done || lia).
    rewrite delete_mid, app_nil_r by lia. done. }
  apply wp_ret. rewrite copy_range by done. split; [done|]. simpl. rewrite !u64_small by lia. rewrite (proj2 (orb_false_iff _ _)) by lia.
  assert (W' : range_wf (with_hi h (hr_lo h + k - 1))) by (apply with_hi_wf; (done || lia)).
  assert (W2 : range_wf (with_lo h (hr_lo h + k))) by (apply with_lo_wf; (done || lia)).
  split; [done|]. split; [apply with_lo_wf; (done || lia)|]. split; [done|].
  rewrite (range_hosts_split h (hr_lo h + k)) by (done || lia). rewrite (range_hosts_head (with_lo h (hr_lo h + k))) by (done || simpl; lia).
  pose proof (length_range_hosts _ W') as El. simpl in El. rewrite delete_mid by lia. done.
Qed.

Lemma delete_located rs n l1 x l2 : located rs n l1 x l2 ->
  delete (Z.to_nat n) (rhosts rs) = rhosts l1 ++ delete (Z.to_nat n - length (rhosts l1))%nat (range_hosts x.2) ++ rhosts l2.
Proof.
  intros (-> & Hn). rewrite length_app in Hn. rewrite rhosts_app, rhosts_cons, !delete_take_drop.
  rewrite take_app_ge, take_app_le, drop_app_ge, drop_app_le by lia. rewrite <-!app_assoc. do 2 f_equal.
  by replace (S (Z.to_nat n) - length (rhosts l1))%nat with (S (Z.to_nat n - length (rhosts l1))) by lia.
Qed.

Lemma length_delete_Z {A : Type} (l : list A) n : (n < length l)%nat -> Z.of_nat (length (delete n l)) = Z.of_nat (length l) - 1.
Proof. intros H. rewrite length_delete by (by apply lookup_lt_is_Some_2). lia. Qed.

(** A list without one of its hosts, once [nhosts] is adjusted. *)
Lemma rep_deleted hl rs hl' rs' n : hl_rep hl rs -> (n < length (rhosts rs))%nat ->
  hl_arr hl' rs' -> hl_nhosts hl' = hl_nhosts hl -> hl_ilist hl' = [] -> Forall (fun x => range_wf x.2) rs' ->
  rhosts rs' = delete n (rhosts rs) -> kinds rs' ⊆ kinds rs ->
  1 = 1 /\ exists rs'', hl_rep (with_nhosts hl' (hl_nhosts hl' - 1)) rs'' /\
    rhosts rs'' = delete n (rhosts rs) /\ kinds rs'' ⊆ kinds rs.
Proof.
  intros [A Hn Hi W Hil] Hlt A' Hnh Hil' W' E' K. split; [done|]. exists rs'. split; [|done].
  pose proof (length_delete_Z (rhosts rs) n Hlt) as Hd.
  apply rep_with; [by apply arr_nhosts|done|done|simpl; rewrite E'; lia|simpl; lia].
Qed.

Lemma delete_nth_spec hl rs n : hl_rep hl rs -> 0 <= n < Z.of_nat (length (rhosts rs)) ->
  wp (hostlist_delete_nth hl n) (fun '(rc, hl') => rc = 1 /\ exists rs', hl_rep hl' rs' /\
    rhosts rs' = delete (Z.to_nat n) (rhosts rs) /\ kinds rs' ⊆ kinds rs).
Proof.
  intros R Hn. pose proof R as [A Hh Hi W Hil]. unfold hostlist_delete_nth. apply wp_assert; [lia|].
  apply wp_bind. eapply wp_mono; [apply (locate_spec _ rs); [done|lia]|]. intros [[i c]|]; [|lia].
  intros (l1 & [a h] & l2 & L & -> & ->). pose proof L as [-> Hn']. pose proof (delete_located _ _ _ _ _ L) as Ed.
  rewrite (arr_range_at A) by done. simpl in *. rewrite Forall_app, Forall_cons in W. destruct W as (W1 & Wh & W2). simpl in Wh.
  pose proof (fun hl' rs' => rep_deleted hl _ hl' rs' (Z.to_nat n) R ltac:(lia)) as Hfin. unfold kinds in Hfin |- *.
  pose proof (length_range_hosts _ Wh) as Hl. rewrite length_app in Hn'. apply wp_bind.
  destruct (hr_singlehost h) eqn:Es.
  - rewrite (arr_delete A) by done. simpl. apply (Hfin (hl_with hl (l1 ++ l2)) (l1 ++ l2));
      [by apply (arr_drop_mid _ _ (a, h))|done|done|by apply Forall_app| |rewrite !fmap_app; clear; set_solver].
    rewrite Ed, rhosts_app. unfold range_hosts in *. rewrite Es in *. simpl in *.
    by replace (Z.to_nat n - length (rhosts l1))%nat with 0%nat by lia.
  - pose proof (rw_lo _ Wh). pose proof (rw_hi _ Wh).
    replace (hr_lo h + n - Z.of_nat (length (rhosts l1))) with (hr_lo h + (n - Z.of_nat (length (rhosts l1)))) by lia.
    rewrite u64_small by lia. apply wp_bind. eapply wp_mono; [apply delete_host_spec; [done|done|lia]|].
    replace (Z.to_nat (n - Z.of_nat (length (rhosts l1)))) with (Z.to_nat n - length (rhosts l1))%nat by lia.
    intros [h' [new|]] [K H']; rewrite (arr_set_range A) by done; simpl; pose proof (arr_update A h') as A'; simpl in A'.
    + destruct H' as (W' & Wn & _ & E').
      assert (A2 : hl_arr (hl_with hl (l1 ++ (a, h') :: l2)) ((l1 ++ [(a, h')]) ++ l2)) by (by rewrite <-app_assoc).
      replace (Z.of_nat (length l1) + 1) with (Z.of_nat (length (l1 ++ [(a, h')]))) by (rewrite length_app; simpl; lia).
      rewrite (arr_insert A2), copy_range by done. simpl. destruct (arr_room _ _ A2) as (_ & _ & En & Ei & _).
      eapply (Hfin (hl_add _ _)); [apply (arr_add A2)|done|simpl; by rewrite Ei|..].
      * rewrite !Forall_app, Forall_singleton, Forall_cons. done.
      * rewrite Ed, E', <-!app_assoc, !rhosts_app, !rhosts_cons. simpl. by rewrite <-!app_assoc.
      * rewrite !fmap_app. simpl. destruct K as [-> ->]. clear. set_solver.
    + destruct (hostrange_empty h').
      * rewrite (arr_delete A') by done. simpl. apply (Hfin (hl_with hl (l1 ++ l2)) (l1 ++ l2)); [|done|done|by apply Forall_app|by rewrite Ed, H', rhosts_app|rewrite !fmap_app; clear; set_solver].
        by apply (arr_drop_mid _ _ (a, h')) in A'.
      * destruct H' as [W' E']. apply (Hfin (hl_with hl (l1 ++ (a, h') :: l2)) (l1 ++ (a, h') :: l2)); [done|done|done| | |].
        -- by rewrite Forall_app, Forall_cons.
        -- by rewrite Ed, E', rhosts_app, rhosts_cons.
        -- rewrite !fmap_app. simpl. by rewrite K.
Qed.

(** ** Finding *)

(** The split between prefix and number is the one that host names are given:
    single hosts have no number, prefixes do not end in a digit. *)
Definition range_std (h : hostrange) : Prop :=
  if hr_singlehost h then trail (hr_prefix h) = [] else forall c, last (hr_prefix h) = Some c -> isdigit c = false.

Lemma std_kinds rs rs' : Forall (fun x => range_std x.2) rs -> kinds rs' ⊆ kinds rs -> Forall (fun x => range_std x.2) rs'.
Proof.
  rewrite !Forall_forall. intros S K [a h] Hx. destruct (proj1 (list_elem_of_fmap _ _ _) (K (kind h) (list_elem_of_fmap_2 (fun x => kind x.2) _ (a, h) Hx))) as ([b h0] & E & H0).
  specialize (S _ H0). simpl in *. unfold kind in E. injection E as E1 E2. unfold range_std in *. by rewrite E1, E2.
Qed.

Lemma host_range_std s : range_std (host_range s).
Proof. unfold host_range, range_std. case_decide; simpl; [done|]. apply stem_last. Qed.

Lemma ewidth_trail d : all_digits d -> d <> [] -> num d < 2 ^ 64 -> ewidth (strlen d) (num d) = strlen d.
Proof.
  intros Hd Hne Hn. rewrite <-strlen_fmt_lu by (split; [by apply num_nonneg|done]). by rewrite fmt_lu_num.
Qed.

Lemma num_fmt_lu w n : 0 <= n < 2 ^ 64 -> num (fmt_lu w n) = n.
Proof. intros Hn. unfold num. by rewrite scan_fmt_lu. Qed.

Lemma elem_of_range_hosts h s : range_wf h -> range_std h -> hr_singlehost h = false -> num (trail s) < 2 ^ 31 ->
  s ∈ range_hosts h <-> trail s <> [] /\ stem s = hr_prefix h /\ hr_lo h <= num (trail s) <= hr_hi h /\
    ewidth (hr_width h) (num (trail s)) = ewidth (strlen (trail s)) (num (trail s)).
Proof.
  intros W S Es Hs. pose proof (rw_lo _ W). pose proof (rw_hi _ W). unfold range_hosts, range_std in *. rewrite Es in *.
  rewrite list_elem_of_fmap. split.
  - intros (n & -> & Hn%elem_of_seqZ). unfold host_name in *.
    destruct (trail_app (hr_prefix h) (fmt_lu (hr_width h) n)) as [E2 E3]; [apply fmt_lu_digits; lia|done|].
    rewrite E2, E3, num_fmt_lu by lia. split_and!; [apply fmt_lu_nonempty; lia|done|lia|lia|].
    rewrite strlen_fmt_lu by lia. unfold ewidth. lia.
  - intros (Hne & E2 & Hn & Ew). exists (num (trail s)). split; [|rewrite elem_of_seqZ; lia].
    rewrite (host_name_ewidth _ _ (strlen (trail s))) by done. unfold host_name.
    rewrite fmt_lu_num by (apply trail_digits || done || lia). by rewrite <-E2, stem_trail.
Qed.

(** The digits of a host name are not moved for such a range. *)
Lemma prefix_match_std env h hn suffix : one_dim env -> range_std h -> hr_singlehost h = false ->
  prefix_match env h hn suffix = Ret (bool_decide (hr_prefix h = hn_prefix hn), hn).
Proof.
  intros E1 S Es. unfold prefix_match, range_std in *. rewrite Es, E1 in *. destruct (bool_decide _); [done|]. simpl.
  if_case; [|done]. destruct (hr_prefix h) as [|c p _] using rev_ind.
  { pose proof (strlen_nonneg (hn_prefix hn)). change (strlen []) with 0 in E. lia. }
  rewrite strlen_app in *. change (strlen [c]) with 1 in *. rewrite (aget_lookup _ _ c); [|unfold strlen; lia|].
  - simpl. by rewrite (S c) by apply last_snoc.
  - replace (Z.to_nat (strlen p + 1 - 1)) with (length p) by (unfold strlen; lia). by rewrite list_lookup_middle.
Qed.

Lemma hn_within_spec env h s : one_dim env -> range_wf h -> range_std h -> name_ok s ->
  wp (hostrange_hn_within env h (hostname_create env s)) (fun '(b, h', hn) =>
    hn = hostname_create env s /\ rewidth h h' /\ b = bool_decide (s ∈ range_hosts h)).
Proof.
  intros E1 W S (Hp & Hn & Hl). unfold hostname_create. rewrite E1, hostname_create_1 by (unfold ULONG_MAX; lia).
  pose proof (rw_lo _ W). pose proof (rw_hi _ W). pose proof (num_nonneg _ (trail_digits s)) as Hn0.
  unfold hostrange_hn_within. destruct (hr_singlehost h) eqn:Es.
  { apply wp_ret. split; [done|]. split; [by apply rewidth_refl|]. unfold range_hosts. rewrite Es. apply bool_decide_ext.
    rewrite list_elem_of_singleton. by case_decide. }
  pose proof (elem_of_range_hosts h s W S Es Hn) as Hin. case_decide as Et; simpl.
  { split; [done|]. split; [by apply rewidth_refl|]. symmetry. apply bool_decide_eq_false. rewrite Hin. by intros [? _]. }
  rewrite prefix_match_std by done. simpl. case_bool_decide as Ep; simpl.
  2: { split; [done|]. split; [by apply rewidth_refl|]. symmetry. apply bool_decide_eq_false. rewrite Hin.
       intros (_ & E & _). by rewrite E in Ep. }
  if_case.
  2: { split; [done|]. split; [by apply rewidth_refl|]. symmetry. apply bool_decide_eq_false. rewrite Hin. lia. }
  rewrite (s32_small (num (trail s))), u64_small by (unfold i32_min, i32_max; lia).
  pose proof (width_equiv_spec (hr_lo h) (hr_width h) (num (trail s)) (strlen (trail s)) ltac:(lia) ltac:(lia)) as Hw.
  destruct (_width_equiv _ _ _ _) as [[[] w1] w2]; simpl.
  - destruct Hw as (<- & Hw & Ea & Eb). split; [done|]. split.
    + exists w1. split; [done|]. split; [by rewrite Es|]. split; [|done]. pose proof (rw_width _ W).
      pose proof (strlen_trail s). pose proof (strlen_nonneg (stem s)). pose proof (strlen_nonneg (trail s)). destruct Hw; lia.
    + symmetry. apply bool_decide_eq_true, Hin. split_and!; [done|done|lia|lia|].
      rewrite <-Eb. symmetry. apply (ewidth_mono _ _ (hr_lo h)); [lia|lia|done].
  - destruct Hw as (-> & -> & _ & Hne). split; [done|]. split; [destruct h; by apply rewidth_refl|].
    symmetry. apply bool_decide_eq_false. rewrite Hin. intros (_ & _ & _ & E'). by rewrite E' in Hne.
Qed.

(** The first position of a name in a sequence. *)
Fixpoint index_of (s : cstr) (l : list cstr) : option nat :=
  match l with
  | [] => None
  | x :: l => if decide (x = s) then Some 0%nat else S <$> index_of s l
  end.

Lemma index_of_None s l : s ∉ l -> index_of s l = None.
Proof.
  induction l as [|x l IH]; [done|]. intros Hs. cbn [index_of]. rewrite decide_False by (intros ->; apply Hs; by left).
  rewrite IH; [done|]. intros ?. apply Hs. by right.
Qed.
Lemma index_of_app_l s l1 l2 k : index_of s l1 = Some k -> index_of s (l1 ++ l2) = Some k.
Proof.
  revert k. induction l1 as [|x l1 IH]; intros k; cbn [index_of app]; [done|]. case_decide; [done|].
  destruct (index_of s l1); [|done]. intros [= <-]. by rewrite (IH n).
Qed.
Lemma index_of_app_r s l1 l2 k : s ∉ l1 -> index_of s l2 = Some k -> index_of s (l1 ++ l2) = Some (length l1 + k)%nat.
Proof.
  intros Hs Hk. induction l1 as [|x l1 IH]; cbn [index_of app]; [done|].
  rewrite decide_False by (intros ->; apply Hs; by left). rewrite IH; [done|]. intros ?. apply Hs. by right.
Qed.
Lemma index_of_NoDup s l k : NoDup l -> l !! k = Some s -> index_of s l = Some k.
Proof.
  intros Hl. revert k. induction Hl as [|x l Hx Hl IH]; intros k; [done|]. cbn [index_of]. destruct k as [|k]; simpl.
  - intros [= ->]. by rewrite decide_True.
  - intros Hk. rewrite decide_False by (intros ->; by eapply Hx, list_elem_of_lookup_2). by rewrite (IH k).
Qed.

Lemma NoDup_range_hosts h : range_wf h -> NoDup (range_hosts h).
Proof.
  intros W. pose proof (rw_lo _ W). pose proof (rw_hi _ W). unfold range_hosts. destruct (hr_singlehost h); [apply NoDup_singleton|].
  apply NoDup_fmap_2_strong; [|apply NoDup_seqZ]. intros x y Hx%elem_of_seqZ Hy%elem_of_seqZ E.
  apply app_inv_head, fmt_lu_inj in E; lia.
Qed.

Lemma rewidth_std h h' : rewidth h h' -> range_std h -> range_std h'.
Proof. intros R. destruct (rewidth_fields _ _ R) as (E1 & _ & _ & E2). unfold range_std. by rewrite E1, E2. Qed.

(** Where in a range a host is that is found there. *)
Lemma index_in_range env h h' s c : one_dim env -> range_wf h -> range_std h -> name_ok s -> s ∈ range_hosts h -> rewidth h h' ->
  exists k, index_of s (range_hosts h) = Some k /\ (k < length (range_hosts h))%nat /\
    match hn_suffix (hostname_create env s) with
    | Some _ => c + hn_num (hostname_create env s) - hr_lo h' | None => c end = c + Z.of_nat k.
Proof.
  intros E1 W S (Hp & Hn & Hl) Hs R. destruct (rewidth_fields _ _ R) as (_ & -> & _ & _). unfold hostname_create.
  rewrite E1, hostname_create_1 by (unfold ULONG_MAX; lia). destruct (hr_singlehost h) eqn:Es.
  - exists 0%nat. unfold range_hosts, range_std in *. rewrite Es in *. apply list_elem_of_singleton in Hs as ->.
    cbn [index_of]. rewrite decide_True, decide_True by done. simpl. split_and!; (done || lia).
  - pose proof Hs as Hs'. apply elem_of_range_hosts in Hs' as (Hne & _ & Hr & _); [|done..]. rewrite decide_False by done.
    pose proof (length_range_hosts _ W) as Hlen. exists (Z.to_nat (num (trail s) - hr_lo h)). simpl. split_and!; [|lia|lia].
    apply index_of_NoDup; [by apply NoDup_range_hosts|]. rewrite range_hosts_lookup by (done || lia). f_equal.
    apply elem_of_range_hosts in Hs as (_ & E2 & _ & Ew); [|done..].
    replace (hr_lo h + (num (trail s) - hr_lo h)) with (num (trail s)) by lia.
    rewrite (host_name_ewidth _ _ (strlen (trail s))) by done. unfold host_name.
    rewrite fmt_lu_num by (apply trail_digits || done || lia). by rewrite <-E2, stem_trail.
Qed.

Definition found_at (s : cstr) (l : list cstr) : Z := match index_of s l with Some k => Z.of_nat k | None => -1 end.

Lemma find_spec env hl rs s : one_dim env -> hl_rep hl rs -> Forall (fun x => range_std x.2) rs -> name_ok s ->
  wp (hostlist_find env hl s) (fun '(i, hl') => i = found_at s (rhosts rs) /\
    exists rs', hl_rep hl' rs' /\ rhosts rs' = rhosts rs /\ Forall (fun x => range_std x.2) rs').
Proof.
  intros E1 R S Hs. unfold hostlist_find. rewrite (arr_nranges _ _ (rep_arr _ _ R)). apply wp_bind.
  eapply (wp_for (fun k '(hn, c, ret, hl') => hn = hostname_create env s /\ exists p q, hl_rep hl' (p ++ q) /\
    rhosts (p ++ q) = rhosts rs /\ length (p ++ q) = length rs /\ Forall (fun x => range_std x.2) (p ++ q) /\
    match ret with
    | Some r => r = found_at s (rhosts rs)
    | None => k = Z.of_nat (length p) /\ c = Z.of_nat (length (rhosts p)) /\ s ∉ rhosts p
    end)).
  - split; [done|]. exists [], rs. split_and!; try done. by apply not_elem_of_nil.
  - intros k [[[hn c] ret] hl'] Hk (-> & p & q & R' & Eh & El & S' & H) Hr. destruct ret as [|]; [done|].
    destruct H as (-> & -> & Hnp). rewrite length_app in El. destruct q as [|[a h] q]; [simpl in El; lia|].
    rewrite (arr_range_at (rep_arr _ _ R')) by done. simpl. pose proof (rep_wf _ _ R') as W. rewrite Forall_app, Forall_cons in W, S'.
    destruct W as (Wp & Wh & Wq), S' as (Sp & Sh & Sq). simpl in Wh, Sh.
    apply wp_bind. eapply wp_mono; [by apply hn_within_spec|]. intros [[b h'] hn] (-> & Rw & ->).
    destruct (rep_rewidth _ _ _ _ h' _ R' Rw) as [R2 E2]. rewrite (arr_set_range (rep_arr _ _ R')) by done. simpl.
    pose proof (rewidth_std _ _ Rw Sh) as Sh'. pose proof (rep_nhosts _ _ R') as Hn. pose proof (rep_int _ _ R').
    rewrite rhosts_app, rhosts_cons, !length_app in Hn. simpl in Hn.
    destruct (decide (s ∈ range_hosts h)) as [Hin|Hin]; [rewrite bool_decide_true by done|rewrite bool_decide_false by done]; apply wp_ret.
    + split; [done|]. exists p, ((a, h') :: q). rewrite Forall_app, Forall_cons, E2, length_app. split_and!; try done.
      destruct (index_in_range env h h' s (Z.of_nat (length (rhosts p)))) as (k & Ek & Hk' & Ev); [done..|].
      assert (Ef : found_at s (rhosts rs) = Z.of_nat (length (rhosts p)) + Z.of_nat k).
      { unfold found_at. rewrite <-Eh, rhosts_app, rhosts_cons. erewrite index_of_app_r; [|done|by apply index_of_app_l].
        simpl. lia. }
      rewrite Ef, <-Ev. destruct (hn_suffix _); [|done]. rewrite s32_small; [done|]. rewrite Ev. unfold i32_min. lia.
    + split; [done|]. exists (p ++ [(a, h')]), q. rewrite <-!app_assoc. simpl. rewrite E2, Forall_app, Forall_cons, !length_app.
      assert (Ep : rhosts (p ++ [(a, h')]) = rhosts p ++ range_hosts h).
      { rewrite rhosts_app, rhosts_cons, app_nil_r. simpl. by rewrite (rewidth_hosts _ _ Rw Wh). }
      rewrite Ep, length_app.
      rewrite (range_count _ (rewidth_wf _ _ Rw Wh)), <-(length_range_hosts _ (rewidth_wf _ _ Rw Wh)), (rewidth_hosts _ _ Rw Wh).
      split_and!; try done; [simpl; lia|rewrite s32_small; unfold i32_min; lia|].
      rewrite not_elem_of_app. done.
  - intros k [[[hn c] ret] hl'] Hk (_ & p & q & R' & Eh & El & S' & H) Hd. apply wp_ret. split; [|by exists (p ++ q)].
    destruct ret as [r|]; [done|]. destruct H as (-> & -> & Hnp). destruct Hd as [Hd|]; [|done]. rewrite length_app in El.
    assert (q = []) as -> by (apply nil_length_inv; lia). rewrite app_nil_r in Eh. unfold found_at. rewrite <-Eh.
    by rewrite index_of_None.
Qed.
