(* ===== verification/HostlistText.v ===== *)
(** * The text of host lists: lemmas

    What the printing functions write for systems of one dimension, that they
    write it inside the buffer, and that enough room is found for it. *)

From S2P Require Import Prelude NatCmp Hostlist HostlistParse HostlistPrint HostlistFacts HostlistOps HostlistSeq.

Local Open Scope Z_scope.
Local Open Scope slurm_scope.

(** ** Writing into a buffer *)

(** [buf] is [b0] with the text [t] at its start and nothing changed from
    position [n] on. *)
Record filled (b0 : cstr) (n : Z) (t buf : cstr) : Prop := {
  fl_len : length buf = length b0;
  fl_text : t `prefix_of` buf;
  fl_rest : drop (Z.to_nat n) buf = drop (Z.to_nat n) b0
}.

Section buffers.
Context (b0 : cstr) (n : Z) (Hn : 0 <= n <= Z.of_nat (length b0)).
Implicit Types t s buf : cstr.

Lemma filled_start : filled b0 n [] b0.
Proof. split; [done|by exists b0|done]. Qed.

Lemma filled_app t s buf : filled b0 n (t ++ s) buf -> filled b0 n t buf.
Proof. intros [H1 [r ->] H3]. split; [done|exists (s ++ r); by rewrite app_assoc|done]. Qed.

Lemma wp_put t buf c (Q : cstr -> Prop) : filled b0 n t buf -> strlen t < n ->
  (forall buf', filled b0 n (t ++ [c]) buf' -> Q buf') -> wp (put buf (strlen t) c) Q.
Proof.
  intros [H1 [r ->] H3] Ht HQ. unfold put, strlen in *. rewrite length_app in H1. apply wp_aset; [rewrite length_app; lia|].
  apply HQ. destruct r as [|x r]; [simpl in H1; lia|]. rewrite Nat2Z.id, insert_app_r_alt, Nat.sub_diag by done. simpl.
  split; [rewrite length_app; done|exists r; by rewrite <-app_assoc|]. rewrite <-H3, !drop_app.
  f_equal. by destruct (Z.to_nat n - length t)%nat eqn:E; [lia|].
Qed.

(** Any character that is inside can be overwritten. *)
Lemma wp_put_at t buf i c (Q : cstr -> Prop) : filled b0 n t buf -> 0 <= i < n ->
  (forall buf', length buf' = length b0 -> drop (Z.to_nat n) buf' = drop (Z.to_nat n) b0 ->
     buf' !! Z.to_nat i = Some c -> Q buf') -> wp (put buf i c) Q.
Proof.
  intros [H1 H2 H3] Hi HQ. apply wp_aset; [lia|]. apply HQ.
  - by rewrite length_insert.
  - rewrite drop_insert_lt by lia. done.
  - apply list_lookup_insert_eq. lia.
Qed.

(** Writing past the text keeps it. *)
Lemma wp_put_past t buf i c (Q : cstr -> Prop) : filled b0 n t buf -> strlen t <= i < n ->
  (forall buf', filled b0 n t buf' -> buf' !! Z.to_nat i = Some c -> Q buf') -> wp (put buf i c) Q.
Proof.
  intros [H1 [r ->] H3] Hi HQ. unfold strlen in Hi. apply wp_aset; [lia|]. apply HQ.
  - split; [by rewrite length_insert| |by rewrite drop_insert_lt by lia].
    rewrite insert_app_r_alt by lia. by eexists.
  - apply list_lookup_insert_eq. lia.
Qed.

Lemma wp_put_text s : forall t buf (Q : cstr -> Prop), filled b0 n t buf -> strlen t + strlen s <= n ->
  (forall buf', filled b0 n (t ++ s) buf' -> Q buf') -> wp (put_all buf (strlen t) s) Q.
Proof.
  induction s as [|c s IH]; intros t buf Q H Hl HQ; cbn [put_all]; [apply wp_ret, HQ; by rewrite app_nil_r|].
  change (strlen (c :: s)) with (Z.of_nat (S (length s))) in Hl. unfold strlen in *.
  apply wp_bind, (wp_put t); [done|unfold strlen; lia|]. intros buf' H'.
  replace (Z.of_nat (length t) + 1) with (strlen (t ++ [c])) by (rewrite strlen_app; unfold strlen; simpl; lia).
  apply IH; [done|rewrite length_app; simpl; lia|]. by rewrite <-app_assoc.
Qed.

(** Printing: the whole text, or as much of it as there is room for. *)
Lemma wp_print_at t buf size s (Q : cstr -> Prop) : filled b0 n t buf -> 0 <= size <= n - strlen t ->
  (forall buf', filled b0 n t buf' -> (strlen s < size -> filled b0 n (t ++ s ++ [0]) buf') -> Q buf') ->
  wp (print_at buf (strlen t) size s) Q.
Proof.
  intros H Hs HQ. unfold print_at. if_case; [apply wp_ret, HQ; [done|]; pose proof (strlen_nonneg s); lia|].
  apply (wp_put_text _ t); [done| |].
  - rewrite strlen_app. change (strlen [0]) with 1. unfold snprintf, strlen in *. rewrite length_take. lia.
  - intros buf' H'. apply HQ; [by eapply filled_app|]. intros Hlt. by rewrite snprintf_all in H'.
Qed.
End buffers.

(** ** Texts *)

(** Strings joined by commas. *)
Fixpoint commas (l : list cstr) : cstr :=
  match l with [] => [] | [s] => s | s :: l => s ++ c_comma :: commas l end.

Lemma commas_cons s l : l <> [] -> commas (s :: l) = s ++ c_comma :: commas l.
Proof. by destruct l. Qed.

Lemma commas_snoc l s : commas (l ++ [s]) = if decide (l = []) then s else commas l ++ c_comma :: s.
Proof.
  induction l as [|x l IH]; [done|]. rewrite decide_False by done. rewrite <-app_comm_cons.
  rewrite commas_cons by (by destruct l). rewrite IH. case_decide as E; [by subst|].
  rewrite (commas_cons x l) by done. by rewrite <-app_assoc.
Qed.

Lemma commas_app l1 l2 : l1 <> [] -> l2 <> [] -> commas (l1 ++ l2) = commas l1 ++ c_comma :: commas l2.
Proof.
  intros H1 H2. induction l1 as [|x l1 IH]; [done|]. rewrite <-app_comm_cons. destruct l1 as [|y l1].
  - by rewrite app_nil_l, commas_cons.
  - rewrite commas_cons, IH by (by destruct l2). rewrite (commas_cons x (y :: l1)) by done. by rewrite <-app_assoc.
Qed.

Lemma commas_take l k : strlen (commas (take k l)) <= strlen (commas l).
Proof.
  rewrite <-(take_drop k l) at 2. destruct (take k l) as [|x l1] eqn:E1; [apply strlen_nonneg|].
  destruct (drop k l) as [|y l2] eqn:E2; [rewrite app_nil_r; lia|]. rewrite commas_app by done. rewrite strlen_app.
  pose proof (strlen_nonneg (c_comma :: commas (y :: l2))). lia.
Qed.

(** The numbers of a range, without [z] of the leading zeros. *)
Definition num_text (z : Z) (h : hostrange) : cstr :=
  if hr_singlehost h then [] else
  let w := hr_width h - (if (z <? 0) || (hr_width h <? z) then hr_width h else z) in
  fmt_lu w (hr_lo h) ++ (if hr_lo h <? hr_hi h then c_dash :: fmt_lu w (hr_hi h) else []).

(** Consecutive ranges that share their brackets. *)
Definition follows (h h' : hostrange) : bool := hostrange_within_range (Some h') (Some h).

Fixpoint groups (rs : list hostrange) : list (list hostrange) :=
  match rs with
  | [] => []
  | h :: rs =>
      match groups rs with
      | (h' :: g) :: gs => if follows h h' then (h :: h' :: g) :: gs else [h] :: (h' :: g) :: gs
      | gs => [h] :: gs
      end
  end.

Definition needs_brackets (g : list hostrange) : bool :=
  match g with [] => false | h :: g => (1 <? hostrange_count h) || negb (bool_decide (g = [])) end.

(** On Cray systems, the leading zeros that all numbers of a group share. *)
Fixpoint pad_from (z : Z) (h : hostrange) (g : list hostrange) : Z :=
  match g with
  | [] => z
  | h' :: g =>
      pad_from (Z.min (if hr_width h' =? hr_width h then _zero_padded (hr_hi h') (hr_width h') else 0) z) h' g
  end.
Definition group_pad (cray : bool) (g : list hostrange) : Z :=
  match g with
  | h :: g => if cray then pad_from (_zero_padded (hr_hi h) (hr_width h)) h g else 0
  | [] => 0
  end.

(** The text of ranges that share brackets; the zeros that all the numbers start
    with are in front of the bracket. *)
Definition group_text (cray brackets : bool) (g : list hostrange) : cstr :=
  let b := brackets && needs_brackets g in
  let z := group_pad cray g in
  match g with [] => [] | h :: _ => hr_prefix h end ++ (if z =? 0 then [] else fmt_lu z 0) ++
  (if b then [c_open] else []) ++ commas (num_text z <$> g) ++ (if b then [c_close] else []).

Definition ranged_text (cray brackets : bool) (rs : list hostrange) : cstr :=
  commas (group_text cray brackets <$> groups rs).

(** All ranges of a group follow each other. *)
Fixpoint chained (g : list hostrange) : Prop :=
  match g with
  | h :: g => match g with h' :: _ => follows h h' = true | [] => True end /\ chained g
  | [] => True
  end.

Lemma groups_nonempty rs g : g ∈ groups rs -> g <> [].
Proof.
  revert g. induction rs as [|h rs IH]; intros g; cbn [groups]; [by intros ?%not_elem_of_nil|].
  destruct (groups rs) as [|[|h' g'] gs]; [| |destruct (follows h h')]; rewrite ?elem_of_cons, ?list_elem_of_singleton.
  - intros [->|H]; [done|by apply not_elem_of_nil in H].
  - intros [->|[->|H]]; [done| |apply IH; rewrite elem_of_cons; auto].
    apply IH. by left.
  - intros [->|H]; [done|]. apply IH. by right.
  - intros [->|[->|H]]; [done|done|]. apply IH. by right.
Qed.

(** The first group, and what comes after it. *)
Lemma groups_inv h rs : exists g l2, h :: rs = (h :: g) ++ l2 /\ groups (h :: rs) = (h :: g) :: groups l2 /\
  chained (h :: g) /\ (forall x y, last (h :: g) = Some x -> head l2 = Some y -> follows x y = false).
Proof.
  revert h. induction rs as [|h' rs IH]; intros h; [by exists [], []|].
  destruct (IH h') as (g & l2 & E & Eg & Hc & Hl). cbn [groups] in *. rewrite Eg. destruct (follows h h') eqn:Ef.
  - exists (h' :: g), l2. rewrite E. split_and!; done.
  - exists [], (h' :: rs). split_and!; [done|cbn [groups]; by rewrite Eg|done|]. by intros x y [= <-] [= <-].
Qed.

Lemma chained_lookup g j h h' : chained g -> g !! j = Some h -> g !! S j = Some h' -> follows h h' = true.
Proof.
  revert j. induction g as [|x g IH]; intros j Hc; [done|]. destruct Hc as [Hx Hc]. destruct j as [|j]; simpl; [|by apply IH].
  intros [= ->] Hh. destruct g as [|y g]; [done|]. simpl in Hh. by injection Hh as ->.
Qed.

Lemma zero_padded_nonneg n w : 0 <= _zero_padded n w.
Proof. unfold _zero_padded. if_solve. Qed.

Lemma pad_from_0 h g : pad_from 0 h g = 0.
Proof.
  revert h. induction g as [|h' g IH]; intros h; [done|]. cbn [pad_from]. rewrite Z.min_r; [done|].
  pose proof (zero_padded_nonneg (hr_hi h') (hr_width h')). case_match; lia.
Qed.

Lemma follows_sym h h' : plain (hr_prefix h) -> plain (hr_prefix h') ->
  hostrange_within_range (Some h) (Some h') = follows h h'.
Proof.
  intros H H'. unfold follows, hostrange_within_range. rewrite orb_comm. f_equal.
  destruct (Z.eqb_spec (hostrange_prefix_cmp (Some h) (Some h')) 0) as [E|E], (Z.eqb_spec (hostrange_prefix_cmp (Some h') (Some h)) 0) as [E'|E']; try done.
  - exfalso. apply E'. apply prefix_cmp_0 in E as [E2 E3]; [|done..]. by apply prefix_cmp_0.
  - exfalso. apply E. apply prefix_cmp_0 in E' as [E2 E3]; [|done..]. by apply prefix_cmp_0.
Qed.

(** ** One range *)

Section print.
Context (env : cluster_env) (E1 : one_dim env).
Context (b0 : cstr) (n : Z) (Hn : 0 <= n <= Z.of_nat (length b0)).

Lemma box_coords_1 h : box_coords h 1 = false.
Proof. done. Qed.

Lemma numstr_spec h z t buf : filled b0 n t buf -> strlen t < n ->
  wp (hostrange_numstr env h (n - strlen t) buf (strlen t) z) (fun '(m, buf') =>
    filled b0 n t buf' /\
    if m <? 0 then n - strlen t < strlen (num_text z h) + 3
    else m = strlen (num_text z h) /\ m < n - strlen t /\ filled b0 n (t ++ num_text z h) buf').
Proof.
  intros H Ht. unfold hostrange_numstr, num_text. rewrite E1, !box_coords_1. cbn zeta. destruct (hr_singlehost h) eqn:Es; simpl.
  { split; [done|]. rewrite app_nil_r. split; [done|]. split; [lia|done]. }
  rewrite (proj2 (Z.eqb_neq (n - strlen t) 0)) by lia. simpl. set (w := hr_width h - _).
  set (lo := fmt_lu w (hr_lo h)). set (hi := fmt_lu w (hr_hi h)). pose proof (strlen_nonneg lo). pose proof (strlen_nonneg hi).
  set (t2 := if hr_lo h <? hr_hi h then c_dash :: hi else []). pose proof (strlen_nonneg t2).
  if_case. { apply wp_ret. split; [done|]. simpl. rewrite strlen_app. lia. }
  apply wp_bind, wp_bind. apply (wp_print_at b0 n Hn); [done|lia|]. intros buf1 F1 F1'. apply wp_ret.
  destruct (Z.leb_spec (n - strlen t) (strlen lo)) as [Hlo|Hlo]; simpl.
  { split; [done|]. rewrite strlen_app. lia. }
  rewrite (proj2 (Z.ltb_ge (strlen lo) 0)) by lia. specialize (F1' Hlo).
  assert (F2 : filled b0 n (t ++ lo) buf1). { rewrite app_assoc in F1'. by eapply filled_app. }
  unfold t2 in *. clear t2. destruct (hr_lo h <? hr_hi h).
  2: { apply wp_ret. split; [done|]. rewrite app_nil_r. rewrite (proj2 (Z.ltb_ge (strlen lo) 0)) by lia. done. }
  assert (Hd : strlen (c_dash :: hi) = 1 + strlen hi) by (unfold strlen; simpl; lia).
  if_case. { apply wp_ret. split; [done|]. simpl. rewrite strlen_app, Hd. lia. }
  apply wp_bind. rewrite <-strlen_app. apply (wp_print_at b0 n Hn); [done|rewrite strlen_app; lia|]. intros buf2 F3 F3'. apply wp_ret.
  split; [by eapply filled_app|]. rewrite Hd. rewrite strlen_app in *. change (Z.pos (Pos.of_succ_nat (length hi))) with (strlen (c_dash :: hi)). rewrite Hd in *.
  destruct (Z.leb_spec (n - strlen t) (strlen lo + (1 + strlen hi))); simpl; [lia|].
  rewrite (proj2 (Z.ltb_ge _ 0)) by lia. split; [done|]. split; [lia|].
  specialize (F3' ltac:(lia)). rewrite app_assoc in F3'. rewrite app_assoc. by eapply filled_app.
Qed.

(** The hosts one by one. *)
Lemma hosts_loop_spec h t buf fuel : let names := range_hosts h in let n' := n - strlen t in
  range_wf h -> hr_singlehost h = false -> filled b0 n t buf -> 0 < n' -> (length names < fuel)%nat ->
  wp (loop fuel (print_host h n' (strlen t) c_comma 1)
      (hr_lo h, 0, buf)) (fun '(len, buf, trunc) =>
    if trunc : bool then filled b0 n t buf /\ n' <= strlen (commas names)
    else len = strlen (commas names) /\ len < n' /\ filled b0 n (t ++ commas names) buf).
Proof.
  intros names n' W Es F Hn' Hfuel. pose proof (rw_lo _ W). pose proof (rw_hi _ W). pose proof (length_range_hosts _ W) as Hlen. fold names in Hlen.
  set (part k := commas (take k names)).
  apply (wp_loop (fun '(i, len, buf) => exists k, (k <= length names)%nat /\ i = hr_lo h + Z.of_nat k /\ len = strlen (part k) /\
      len < n' /\ filled b0 n (t ++ part k) buf) (fun '(i, _, _) => Z.to_nat (hr_hi h + 1 - i)) (fun '(len, buf, trunc) =>
    if trunc : bool then filled b0 n t buf /\ n' <= strlen (commas names)
    else len = strlen (commas names) /\ len < n' /\ filled b0 n (t ++ commas names) buf)).
  3: lia. 3: done. 2: { exists 0%nat. unfold part. rewrite take_0. simpl. rewrite app_nil_r. split_and!; (done || lia). }
  intros [[i len] buf1] (k & Hk & -> & -> & Hl & F1). unfold print_host. if_case.
  { apply wp_ret. assert (Hall : part k = commas names) by (unfold part; by rewrite take_ge by lia). rewrite Hall in *. done. }
  set (name := host_name (hr_prefix h) (hr_width h) (hr_lo h + Z.of_nat k)).
  assert (Hname : names !! k = Some name).
  { rewrite <-(Nat2Z.id k). unfold names. rewrite range_hosts_lookup by (done || lia). done. }
  set (sep := if decide (k = 0%nat) then [] else part k ++ [c_comma]).
  assert (Hs : part (S k) = sep ++ name).
  { unfold part, sep. rewrite (take_S_r _ _ _ Hname), commas_snoc. repeat case_decide; simplify_eq; try done.
    - apply (f_equal length) in H1. rewrite length_take in H1. simpl in H1. lia.
    - by rewrite <-app_assoc. }
  assert (Hle : strlen sep + strlen name <= strlen (commas names)) by (rewrite <-strlen_app, <-Hs; apply commas_take).
  pose proof (strlen_nonneg name).
  apply wp_bind. eapply wp_mono with (P := fun '(len, buf) => len = strlen sep /\ len <= n' /\ filled b0 n (t ++ sep) buf).
  { unfold sep. destruct (decide (k = 0%nat)) as [->|Hj0].
    - rewrite (proj2 (Z.ltb_ge (hr_lo h) _)) by lia. apply wp_ret. unfold part in *. rewrite take_0 in *. split_and!; (done || lia).
    - rewrite (proj2 (Z.ltb_lt (hr_lo h) _)) by lia. apply wp_bind. rewrite <-strlen_app.
      apply (wp_put b0 n Hn); [done|rewrite strlen_app; lia|]. intros buf2 F2. apply wp_ret. rewrite !strlen_app in *.
      rewrite <-!app_assoc in F2. split_and!; [done|change (strlen [c_comma]) with 1; lia|done]. }
  intros [len2 buf2] (-> & Hl2 & F2). if_case; [apply wp_ret; split; [by eapply filled_app|lia]|].
  rewrite box_coords_1. fold (host_name (hr_prefix h) (hr_width h) (hr_lo h + Z.of_nat k)). fold name. cbn zeta. apply wp_bind.
  rewrite <-strlen_app. apply (wp_print_at b0 n Hn); [done|rewrite strlen_app; lia|]. intros buf3 F3 F3'. if_case.
  { apply wp_ret. split; [by eapply filled_app|lia]. }
  specialize (F3' ltac:(lia)). apply wp_ret. rewrite u64_small by lia. split; [|lia]. exists (S k). rewrite Hs, strlen_app.
  split_and!; [lia|lia|done|lia|]. rewrite app_assoc in F3'. apply filled_app in F3'. by rewrite app_assoc.
Qed.

Lemma to_string_spec h t buf fuel dims : let text := commas (range_hosts h) in
  range_wf h -> filled b0 n t buf -> strlen t < n -> (length (range_hosts h) < fuel)%nat -> dims = 0 \/ dims = 1 ->
  wp (hostrange_to_string env fuel h (n - strlen t) buf (strlen t) c_comma dims) (fun '(m, buf') =>
    (m = -1 /\ filled b0 n t buf' /\ n - strlen t <= strlen text) \/
    (m = strlen text /\ strlen t + m < n /\ filled b0 n (t ++ text ++ [0]) buf')).
Proof.
  intros text W F Ht Hfuel Hd. unfold hostrange_to_string.
  assert ((if dims =? 0 then slurmdb_setup_cluster_name_dims env else dims) = 1) as -> by (destruct Hd as [->| ->]; done).
  cbn zeta. rewrite (proj2 (Z.eqb_neq (n - strlen t) 0)) by lia. destruct (hr_singlehost h) eqn:Es.
  - assert (Et : text = hr_prefix h) by (unfold text, range_hosts; by rewrite Es). apply wp_bind, (wp_print_at b0 n Hn); [done|lia|].
    intros buf1 F1 F1'. rewrite Et in *. if_case.
    + apply wp_bind, (wp_put_past b0 n Hn t); [done|lia|]. intros buf2 F2 _. apply wp_ret. left. split_and!; (done || lia).
    + apply wp_ret. right. split; [done|]. split; [lia|]. apply F1'. lia.
  - apply wp_bind. eapply wp_mono; [apply hosts_loop_spec; (done || lia)|]. intros [[len buf1] []].
    + intros [F1 Hl]. apply wp_bind, (wp_put_past b0 n Hn t); [done|lia|]. intros buf2 F2 _. apply wp_ret. left. done.
    + intros (-> & Hl & F1). apply wp_bind. rewrite <-strlen_app. apply (wp_put b0 n Hn); [done|rewrite strlen_app; lia|].
      intros buf2 F2. apply wp_ret. right. rewrite <-app_assoc in F2. split_and!; [done|lia|done].
Qed.

(** The names of all hosts; nothing at all is written for an empty list. *)
Lemma deranged_string_spec hl rs fuel dims : let text := commas (rhosts rs) in 0 < n ->
  hl_arr hl rs -> Forall (fun x => range_wf x.2) rs -> (length (rhosts rs) < fuel)%nat -> dims = 0 \/ dims = 1 ->
  wp (hostlist_deranged_string_dims env fuel hl n b0 dims) (fun '(len, buf) =>
    length buf = length b0 /\ drop (Z.to_nat n) buf = drop (Z.to_nat n) b0 /\
    ((len = -1 /\ n <= strlen text /\ buf !! Z.to_nat (n - 1) = Some 0) \/
     (len = strlen text /\ len < n /\ if decide (rs = []) then buf = b0 else text ++ [0] `prefix_of` buf))).
Proof.
  intros text Hpos A W Hfuel Hd. unfold hostlist_deranged_string_dims. apply wp_bind. rewrite (arr_nranges _ _ A).
  eapply (wp_for (fun k '(len, buf, trunc) => if trunc : bool then filled b0 n [] buf /\ n <= strlen text else
    exists l1 l2, rs = l1 ++ l2 /\ k = Z.of_nat (length l1) /\ len = strlen (commas (rhosts l1)) /\ len < n /\
      if decide (l1 = []) then buf = b0 else filled b0 n (commas (rhosts l1) ++ [0]) buf)).
  - exists [], rs. split_and!; done.
  - intros k [[len buf] trunc] Hk H Hc. destruct trunc; [done|]. destruct H as (l1 & l2 & -> & -> & -> & Hl & F).
    rewrite length_app in Hk. destruct l2 as [|[a h] l2]; [simpl in Hk; lia|]. rewrite Forall_app, Forall_cons in W. destruct W as (W1 & Wh & W2). simpl in Wh.
    set (t := if decide (l1 = []) then [] else commas (rhosts l1) ++ [c_comma]).
    pose proof (range_hosts_nonempty _ Wh) as Hh. assert (Hnext : commas (rhosts (l1 ++ [(a, h)])) = t ++ commas (range_hosts h)).
    { rewrite rhosts_app, rhosts_cons, app_nil_r. unfold t. case_decide as E; [by subst|]. rewrite commas_app; [by rewrite <-app_assoc| |done].
      intros E'. by apply E, rhosts_nil. }
    assert (Hle : strlen t + strlen (commas (range_hosts h)) <= strlen text).
    { rewrite <-strlen_app, <-Hnext. unfold text. rewrite (app_assoc l1 [(a, h)] l2 : l1 ++ (a, h) :: l2 = _), (rhosts_app (l1 ++ _)).
      pose proof (commas_take (rhosts (l1 ++ [(a, h)]) ++ rhosts l2) (length (rhosts (l1 ++ [(a, h)])))) as Ht. by rewrite take_app_length in Ht. }
    apply wp_bind. eapply wp_mono with (P := fun '(len, buf) => len = strlen t /\ len <= n /\ filled b0 n t buf).
    { unfold t. case_decide as E; [subst l1; apply wp_ret; split_and!; [done|simpl in *; lia|subst; apply filled_start]|].
      rewrite (proj2 (Z.eqb_neq _ _)) by (destruct l1; [done|simpl; lia]).
      apply wp_bind, (wp_put b0 n Hn); [by eapply filled_app|done|]. intros buf1 F1. apply wp_ret. rewrite strlen_app.
      change (strlen [c_comma]) with 1. split_and!; (done || lia). }
    intros [len buf1] (-> & Hl1 & F1). pose proof (strlen_nonneg (commas (range_hosts h))).
    if_case; [apply wp_ret; split; [exact (filled_app _ _ [] _ _ F1)|lia]|].
    rewrite (arr_range_at A) by done. simpl. apply wp_bind.
    eapply wp_mono; [apply to_string_spec; [done|done|lia| |done]; rewrite rhosts_app, rhosts_cons, !length_app in Hfuel; simpl in Hfuel; lia|].
    intros [m buf2] [(-> & F2 & Hf)|(-> & Hlt & F2)].
    + simpl. split; [exact (filled_app _ _ [] _ _ F2)|lia].
    + rewrite (proj2 (Z.ltb_ge _ 0)) by lia. apply wp_ret. exists (l1 ++ [(a, h)]), l2. rewrite Hnext, strlen_app, <-!app_assoc, length_app.
      rewrite decide_False by (by destruct l1). split_and!; (done || simpl; lia).
  - intros k [[len buf] trunc] Hk H Hd'. destruct trunc.
    + destruct H as [F Hle]. apply wp_bind, (wp_put_at b0 n Hn []); [done|lia|]. intros buf' H1 H2 H3. apply wp_ret. split_and!; try done. by left.
    + destruct H as (l1 & l2 & -> & -> & -> & Hl & F). apply wp_ret. destruct Hd' as [Hk'|Hk']; [|simpl in Hk'; lia].
      rewrite length_app in Hk'. assert (l2 = []) as -> by (apply nil_length_inv; lia). unfold text. rewrite app_nil_r in *.
      case_decide; [subst; split_and!; try done; by right|]. destruct F as [F1 F2 F3]. split_and!; try done. by right.
Qed.

(** ** One group of ranges *)

(** The ranges [R] of a list, a group [G] of them and the ones after it. *)
Record group_at (hl : hostlist) (L1 G L2 : list hostrange) : Prop := {
  ga_arr : exists rs, hl_arr hl rs /\ rs.*2 = L1 ++ G ++ L2;
  ga_plain : Forall (fun h => plain (hr_prefix h)) (L1 ++ G ++ L2);
  ga_nonempty : G <> [];
  ga_chained : chained G;
  ga_end : forall x y, last G = Some x -> head L2 = Some y -> follows x y = false
}.

Section group.
Context (hl : hostlist) (L1 G L2 : list hostrange) (GA : group_at hl L1 G L2).
Let start := Z.of_nat (length L1).

Lemma ga_nranges : hl_nranges hl = start + Z.of_nat (length G + length L2).
Proof.
  destruct GA as [(rs & A & E) _ _ _ _]. rewrite (arr_nranges _ _ A), <-(length_fmap snd), E, !length_app. lia.
Qed.

Lemma ga_at i j h : (G ++ L2) !! j = Some h -> i = start + Z.of_nat j -> exists a, range_at hl i = Ret (a, h).
Proof.
  intros Hj ->. destruct GA as [(rs & A & E) _ _ _ _].
  assert (H : rs.*2 !! (length L1 + j)%nat = Some h) by (rewrite E, lookup_app_r by lia; by replace (length L1 + j - length L1)%nat with j by lia).
  apply list_lookup_fmap_Some in H as ([a h'] & -> & Hx). exists a. unfold range_at. rewrite (arr_hr _ _ A).
  rewrite (aget_lookup _ _ (Some (a, h'))); [done|lia|]. apply slots_lookup. rewrite <-Hx. f_equal. lia.
Qed.

Lemma ga_next j h h' : (G ++ L2) !! j = Some h -> (G ++ L2) !! S j = Some h' -> (j < length G)%nat ->
  follows h h' = bool_decide (S j < length G)%nat.
Proof.
  intros Hh Hh' Hj. destruct GA as [_ _ _ Hc He]. rewrite lookup_app_l in Hh by done. case_bool_decide as Hlt.
  - rewrite lookup_app_l in Hh' by done. by apply (chained_lookup G j).
  - apply He; [rewrite last_lookup; replace (pred (length G)) with j by lia; done|].
    rewrite lookup_app_r in Hh' by lia. replace (S j - length G)%nat with 0%nat in Hh' by lia. by destruct L2.
Qed.

Lemma common_zeropad_spec : common_zeropad env hl start = Ret (group_pad (is_cray_system env) G).
Proof.
  unfold common_zeropad, group_pad. destruct (is_cray_system env); simpl; [|by destruct G].
  pose proof ga_nranges as Hnr. destruct (lookup_lt_is_Some_2 G 0) as [h0 H0]; [pose proof (ga_nonempty _ _ _ _ GA); destruct G; simpl; [done|lia]|].
  destruct (ga_at start 0 h0) as [a0 ->]; [by rewrite lookup_app_l by (apply lookup_lt_Some in H0; lia)|lia|]. simpl.
  apply wp_eq. apply wp_bind. set (res := match G with [] => 0 | h :: g => _ end).
  eapply (wp_for (fun k '(zp, stop) => if stop : bool then zp = res else exists j h, k = start + Z.of_nat (S j) /\ (j < length G)%nat /\
    G !! j = Some h /\ pad_from zp h (drop (S j) G) = res)).
  - exists 0%nat, h0. pose proof (lookup_lt_Some _ _ _ H0). split_and!; [lia|done|done|]. unfold res. destruct G; [done|]. simpl in *. by injection H0 as ->.
  - intros k [zp stop] Hk H Hc. destruct stop; [by rewrite andb_false_r in Hc|]. destruct H as (j & h & -> & Hj & Hh & Hp).
    destruct (lookup_lt_is_Some_2 (G ++ L2) (S j)) as [h' Hh']; [rewrite length_app; lia|].
    assert (Hh2 : (G ++ L2) !! j = Some h) by (by rewrite lookup_app_l).
    destruct (ga_at (start + Z.of_nat (S j)) (S j) h') as [a ->]; [done|done|]. simpl.
    destruct (ga_at (start + Z.of_nat (S j) - 1) j h) as [a' ->]; [done|lia|]. simpl. fold (follows h h').
    rewrite (ga_next j h h') by done. case_bool_decide as Hlt; simpl.
    + exists (S j), h'. rewrite lookup_app_l in Hh' by done. split_and!; [lia|done|done|].
      rewrite (drop_S _ _ _ Hh') in Hp. done.
    + rewrite drop_ge in Hp by lia. done.
  - intros k [zp stop] Hk H Hc. apply wp_ret. destruct stop; [done|]. destruct H as (j & h & -> & Hj & Hh & Hp). destruct Hc as [Hc|Hc].
    + rewrite drop_ge in Hp by lia. done.
    + rewrite andb_true_r in Hc. apply negb_false_iff, Z.eqb_eq in Hc as ->. rewrite pad_from_0 in Hp. done.
Qed.

Lemma is_bracket_needed_spec : _is_bracket_needed hl start = Ret (needs_brackets G).
Proof.
  unfold _is_bracket_needed. pose proof ga_nranges as Hnr. pose proof (ga_plain _ _ _ _ GA) as Hp.
  destruct (lookup_lt_is_Some_2 G 0) as [h0 H0]; [pose proof (ga_nonempty _ _ _ _ GA); destruct G; simpl; [done|lia]|].
  assert (HL : (0 < length G)%nat) by (by eapply lookup_lt_Some).
  assert (H0' : (G ++ L2) !! 0%nat = Some h0) by (by rewrite lookup_app_l).
  destruct (ga_at start 0 h0) as [a0 ->]; [done|lia|]. simpl.
  rewrite !Forall_app, !Forall_forall in Hp. destruct Hp as (_ & HpG & HpL).
  assert (Hn' : needs_brackets G = (1 <? hostrange_count h0) || bool_decide (1 < length G)%nat).
  { destruct G as [|x [|y g]]; simpl in H0; by simplify_eq. }
  rewrite Hn'. destruct ((G ++ L2) !! 1%nat) as [h1|] eqn:E; rewrite ?length_app in *.
  - pose proof (lookup_lt_Some _ _ _ E) as Hlt. rewrite length_app in Hlt. rewrite (proj2 (Z.ltb_lt start _)) by lia.
    destruct (ga_at (start + 1) 1 h1) as [a1 ->]; [done|lia|]. cbn -[hostrange_within_range hostrange_count].
    rewrite follows_sym, (ga_next 0 h0 h1); [done|done|done|done| |].
    + apply HpG. by eapply list_elem_of_lookup_2.
    + apply list_elem_of_lookup_2, elem_of_app in E as [?|?]; [by apply HpG|by apply HpL].
  - apply lookup_ge_None in E. rewrite length_app in E. rewrite (proj2 (Z.ltb_ge start _)) by lia. simpl.
    f_equal. by rewrite bool_decide_eq_false_2 by lia.
Qed.

(** The loop over the ranges of a group: [q] has been written before. *)
Lemma group_loop_spec z t q len buf :
  let n' := n - strlen t in let nums := commas (num_text z <$> G) in
  filled b0 n (t ++ q) buf -> len = strlen q -> len + 2 <= n' ->
  wp (loop (S (Z.to_nat (hl_nranges hl - start))) (print_numbers env hl start n' (strlen t) z) (start, len, buf)) (fun '(r, buf') =>
    match r with
    | None => filled b0 n t buf' /\ n' < len + strlen nums + 4
    | Some (i, len') => i = start + Z.of_nat (length G) /\ len' = len + strlen nums /\ len' + 1 < n' /\
        filled b0 n (t ++ q ++ nums) buf'
    end).
Proof.
  intros n' nums F -> Hlen. pose proof ga_nranges as Hnr.
  assert (HL : (0 < length G)%nat) by (pose proof (ga_nonempty _ _ _ _ GA); destruct G; simpl; [done|lia]).
  set (part j := commas (num_text z <$> take j G)).
  assert (Hpart : forall j, strlen (part j) <= strlen nums) by (intros j; unfold part, nums; rewrite fmap_take; apply commas_take).
  apply (wp_loop (fun '(i, len, buf) => exists j, (j < length G)%nat /\ i = start + Z.of_nat j /\
      len = strlen (q ++ part j) /\ len + 2 <= n' /\ filled b0 n (t ++ q ++ part j) buf)
    (fun '(i, _, _) => Z.to_nat (hl_nranges hl - i)) (fun '(r, buf') => match r with
    | None => filled b0 n t buf' /\ n' < strlen q + strlen nums + 4
    | Some (i, len') => i = start + Z.of_nat (length G) /\ len' = strlen q + strlen nums /\ len' + 1 < n' /\
        filled b0 n (t ++ q ++ nums) buf' end)).
  3: lia. 3: done. 2: { exists 0%nat. unfold part. rewrite take_0, app_nil_r. split_and!; (done || lia). }
  intros [[i len] buf1] (j & Hj & -> & -> & Hl & F1). unfold print_numbers.
  destruct (lookup_lt_is_Some_2 G j Hj) as [h Hh]. assert (Hh' : (G ++ L2) !! j = Some h) by (by rewrite lookup_app_l).
  assert (Hs : part (S j) = (if decide (j = 0%nat) then [] else part j ++ [c_comma]) ++ num_text z h).
  { unfold part. rewrite (take_S_r _ _ _ Hh), fmap_app. simpl. rewrite commas_snoc. repeat case_decide; simplify_eq; try done.
    - apply fmap_nil_inv in H. apply (f_equal length) in H. rewrite length_take in H. simpl in H. lia.
    - by rewrite <-app_assoc. }
  set (sep := if decide (j = 0%nat) then [] else part j ++ [c_comma]) in *.
  apply wp_bind. eapply wp_mono with (P := fun '(len, buf) => len = strlen (q ++ sep) /\ len + 1 <= n' /\ filled b0 n (t ++ q ++ sep) buf).
  { unfold sep. destruct (decide (j = 0%nat)) as [->|Hj0].
    - rewrite (proj2 (Z.ltb_ge start _)) by lia. apply wp_ret. unfold part in *. rewrite take_0 in *. split_and!; (done || lia).
    - rewrite (proj2 (Z.ltb_lt start _)) by lia. apply wp_bind. rewrite <-strlen_app.
      apply (wp_put b0 n Hn); [done|rewrite strlen_app; lia|]. intros buf2 F2. apply wp_ret. rewrite !strlen_app in *.
      rewrite <-!app_assoc in F2. split_and!; [change (strlen [c_comma]) with 1; lia|lia|done]. }
  intros [len2 buf2] (-> & Hl2 & F2). destruct (ga_at (start + Z.of_nat j) j h) as [a ->]; [done|done|]. simpl.
  apply wp_bind. replace (n' - strlen (q ++ sep)) with (n - strlen (t ++ q ++ sep)) by (unfold n'; rewrite !strlen_app; lia).
  rewrite <-strlen_app. eapply wp_mono; [apply numstr_spec; [done|rewrite strlen_app; lia]|].
  pose proof (Hpart (S j)) as Hle. rewrite Hs, strlen_app in Hle.
  assert (En : n - strlen (t ++ q ++ sep) = n' - strlen q - strlen sep) by (unfold n'; rewrite !strlen_app; lia). rewrite En.
  rewrite !strlen_app in *.
  intros [m buf3] [F3 H3]. destruct (Z.ltb_spec m 0).
  { simpl. split; [by eapply filled_app|lia]. }
  destruct H3 as (-> & Hm & F4). simpl. if_case; [apply wp_ret; split; [by eapply filled_app|lia]|].
  rewrite <-!app_assoc, <-Hs in F4.
  assert (Elen : strlen q + strlen sep + strlen (num_text z h) = strlen q + strlen (part (S j))) by (rewrite Hs, strlen_app; lia).
  rewrite Elen. assert (Hdone : S j = length G -> part (S j) = nums).
  { intros ->. unfold part, nums. by rewrite firstn_all. }
  if_case.
  - destruct (lookup_lt_is_Some_2 (G ++ L2) (S j)) as [h' Hh2]; [rewrite length_app; lia|].
    destruct (ga_at (start + Z.of_nat j + 1) (S j) h') as [a' ->]; [done|lia|]. cbn -[hostrange_within_range]. fold (follows h h').
    rewrite (ga_next j h h') by done. case_bool_decide.
    + apply wp_ret. split; [|lia]. exists (S j). rewrite strlen_app. split_and!; (done || lia).
    + apply wp_ret. rewrite Hdone in * by lia. split_and!; (done || lia).
  - apply wp_ret. rewrite Hdone in * by lia. split_and!; (done || lia).
Qed.

(** A group is written completely, or the buffer is reported as full. *)
Lemma bracketed_list_spec t buf brackets : let gt := group_text (is_cray_system env) brackets G in
  filled b0 n t buf -> strlen t <= n ->
  wp (_get_bracketed_list env hl start (n - strlen t) buf (strlen t) brackets) (fun '(m, i, buf') =>
    (m = n - strlen t /\ i = start /\ filled b0 n t buf' /\ n - strlen t < strlen gt + 5) \/
    (m = strlen gt /\ strlen t + m < n /\ i = start + Z.of_nat (length G) /\ filled b0 n (t ++ gt) buf')).
Proof.
  intros gt F Ht. unfold _get_bracketed_list.
  assert (Eb : (if brackets then _is_bracket_needed hl start else Ret false) = Ret (brackets && needs_brackets G)).
  { destruct brackets; [apply is_bracket_needed_spec|done]. }
  rewrite Eb, common_zeropad_spec. simpl. set (b := brackets && needs_brackets G). set (z := group_pad _ G).
  destruct (lookup_lt_is_Some_2 G 0) as [h0 H0]; [pose proof (ga_nonempty _ _ _ _ GA); destruct G; simpl; [done|lia]|].
  destruct (ga_at start 0 h0) as [a0 ->]; [by rewrite lookup_app_l by (apply lookup_lt_Some in H0; lia)|lia|]. simpl.
  set (p := hr_prefix h0 ++ (if z =? 0 then [] else fmt_lu z 0)). set (o := if b then [c_open] else []).
  set (nums := commas (num_text z <$> G)).
  assert (Egt : gt = (p ++ o) ++ nums ++ (if b then [c_close] else [])).
  { assert (Hp : match G with [] => [] | h :: _ => hr_prefix h end = hr_prefix h0) by (destruct G; simpl in H0; by simplify_eq).
    unfold gt, group_text. fold b z nums. rewrite Hp. unfold p, o. by rewrite <-!app_assoc. }
  assert (Hgt : strlen gt = strlen p + strlen o + strlen nums + (if b then 1 else 0)).
  { rewrite Egt, !strlen_app. destruct b; unfold strlen at 4; simpl; lia. }
  pose proof (strlen_nonneg nums). pose proof (strlen_nonneg p).
  assert (Ho : 0 <= strlen o <= 1) by (unfold o; destruct b; unfold strlen; simpl; lia).
  apply wp_bind, (wp_print_at b0 n Hn); [done|lia|]. intros buf1 F1 F1'. if_case.
  { apply wp_ret. left. split_and!; try done. destruct b; lia. }
  specialize (F1' ltac:(lia)). rewrite app_assoc in F1'. apply filled_app in F1'.
  apply wp_bind. eapply wp_mono with (P := fun '(len, buf) => len = strlen (p ++ o) /\ filled b0 n (t ++ p ++ o) buf).
  { unfold o. destruct b; [|apply wp_ret; by rewrite app_nil_r]. apply wp_bind. rewrite <-strlen_app.
    apply (wp_put b0 n Hn); [done|rewrite strlen_app; lia|]. intros buf2 F2. apply wp_ret. rewrite <-app_assoc in F2. split; [|done].
    by rewrite strlen_app. }
  intros [len buf2] [-> F2]. apply wp_bind. eapply wp_mono; [apply (group_loop_spec z t (p ++ o)); [done|done|rewrite strlen_app; lia]|].
  fold nums. rewrite strlen_app. intros [[[i len']|] buf3] H3.
  - destruct H3 as (-> & -> & Hl & F3). apply wp_bind.
    eapply wp_mono with (P := fun '(len, buf) => len = strlen gt /\ filled b0 n (t ++ gt) buf).
    { rewrite Egt. destruct b.
      - apply wp_bind. replace (strlen t + (strlen p + strlen o + strlen nums)) with (strlen (t ++ (p ++ o) ++ nums)) by (rewrite !strlen_app; lia).
        apply (wp_put b0 n Hn); [done|rewrite !strlen_app; lia|]. intros buf4 F4. apply wp_ret.
        rewrite <-!app_assoc in *. rewrite !strlen_app. split; [change (strlen [c_close]) with 1; lia|done].
      - apply wp_ret. rewrite (app_nil_r nums), !strlen_app. split; [lia|done]. }
    intros [len buf4] [-> F4]. apply wp_bind. rewrite <-strlen_app.
    apply (wp_put b0 n Hn); [done|rewrite strlen_app; destruct b; lia|]. intros buf5 F5. apply wp_ret. right.
    split_and!; [done|destruct b; lia|done|by eapply filled_app].
  - destruct H3 as [F3 Hl]. apply wp_ret. left. split_and!; try done. destruct b; lia.
Qed.
End group.

(** ** Whole lists *)

Section lists.
Context (hl : hostlist) (rs : rlist) (A : hl_arr hl rs) (Hp : Forall (fun h => plain (hr_prefix h)) rs.*2).
Context (brackets : bool).
Let gtext := group_text (is_cray_system env) brackets.
Let total := ranged_text (is_cray_system env) brackets rs.*2.

(** [l1] and [gs] have been printed and [l2] is to be printed; or the buffer is
    full. *)
Definition print_state (s : Z * Z * cstr) : Prop :=
  let '(i, len, buf) := s in
  (exists l1 l2 gs, rs.*2 = l1 ++ l2 /\ groups rs.*2 = gs ++ groups l2 /\ i = Z.of_nat (length l1) /\ (l1 = [] <-> gs = []) /\
     len = strlen (commas (gtext <$> gs)) /\ (gs = [] \/ len < n) /\ filled b0 n (commas (gtext <$> gs)) buf) \/
  (len = n /\ filled b0 n [] buf /\ n < strlen total + 6).

Lemma print_step i len buf : print_state (i, len, buf) -> i < hl_nranges hl -> len < n ->
  wp ('(len, buf) ← (if i =? 0 then Ret (len, buf) else buf ← put buf len c_comma; Ret (len + 1, buf));
      '(m, i, buf) ← _get_bracketed_list env hl i (n - len) buf len brackets;
      Ret (inl (i, len + m, buf) : Z * Z * cstr + Z * cstr))
    (fun x => match x with
       | inl s' => print_state s' /\ (s'.1.2 = n \/ (s'.1.2 < n /\ i < s'.1.1 <= hl_nranges hl))
       | inr _ => False
       end).
Proof.
  intros [(l1 & l2 & gs & E & Eg & -> & Hnil & -> & _ & F)|H] Hi Hlen; [|lia].
  assert (Hnr : hl_nranges hl = Z.of_nat (length l1 + length l2)) by (rewrite (arr_nranges _ _ A), <-(length_fmap snd), E, length_app; done).
  destruct l2 as [|h l2]; [simpl in Hnr; lia|]. destruct (groups_inv h l2) as (g & l3 & E3 & Eg3 & Hc & He). rewrite E3 in *. rewrite Eg3 in Eg.
  assert (GA : group_at hl l1 (h :: g) l3) by (split; [by exists rs|by rewrite <-E|done|done|done]).
  set (texts := gtext <$> gs). set (t := if decide (gs = []) then [] else commas texts ++ [c_comma]).
  assert (Hnext : commas (gtext <$> gs ++ [h :: g]) = t ++ gtext (h :: g)).
  { rewrite fmap_app. simpl. rewrite commas_snoc. unfold t, texts. repeat case_decide; simplify_eq; try done.
    - by apply fmap_nil_inv in H.
    - by rewrite <-app_assoc. }
  assert (Hle : strlen (t ++ gtext (h :: g)) <= strlen total).
  { rewrite <-Hnext. unfold total, ranged_text. rewrite Eg. change (gs ++ (h :: g) :: groups l3) with (gs ++ [h :: g] ++ groups l3).
    rewrite app_assoc. rewrite (fmap_app _ (gs ++ [h :: g])).
    pose proof (commas_take ((gtext <$> gs ++ [h :: g]) ++ (gtext <$> groups l3)) (length (gtext <$> gs ++ [h :: g]))) as Ht.
    by rewrite take_app_length in Ht. }
  apply wp_bind. eapply wp_mono with (P := fun '(len, buf) => len = strlen t /\ len <= n /\ filled b0 n t buf).
  { unfold t. case_decide as Eq.
    - rewrite (proj2 Hnil Eq). subst gs. simpl in *. apply wp_ret. split_and!; (done || lia).
    - rewrite (proj2 (Z.eqb_neq _ _)) by (destruct l1; [by apply proj1 in Hnil; specialize (Hnil eq_refl)|simpl; lia]).
      apply wp_bind, (wp_put b0 n Hn); [done|done|]. intros buf1 F1. apply wp_ret. rewrite strlen_app. unfold texts.
      change (strlen [c_comma]) with 1. split_and!; (done || lia). }
  intros [len buf1] (-> & Hl & F1). apply wp_bind. eapply wp_mono; [by apply (bracketed_list_spec hl l1 (h :: g) l3 GA)|].
  intros [[m i'] buf2] Hm. apply wp_ret. rewrite strlen_app in Hle. unfold gtext in Hle.
  destruct Hm as [(-> & -> & F2 & Hf)|(-> & Hlt & -> & F2)].
  - split; [right|left; simpl; lia]. split; [lia|]. split; [exact (filled_app _ _ [] t _ F2)|lia].
  - split; [left|right; simpl; rewrite length_app in Hnr; simpl in *; lia]. exists (l1 ++ h :: g), l3, (gs ++ [h :: g]).
    rewrite Hnext, strlen_app, <-!app_assoc. split_and!; [done|done|rewrite length_app; lia| |done|by right|done].
    split; intros H%app_nil; by destruct H.
Qed.

Definition print_result (x : Z * cstr) : Prop :=
  (n <= x.1 /\ filled b0 n [] x.2 /\ n < strlen total + 6) \/ (x.1 = strlen total /\ x.1 < n /\ filled b0 n total x.2).

Lemma bracketed_lists_spec : wp (bracketed_lists env hl n b0 brackets) print_result.
Proof.
  unfold bracketed_lists. pose proof (arr_nranges _ _ A) as Hnr.
  apply (wp_loop print_state (fun '(i, len, _) => if len <? n then S (Z.to_nat (hl_nranges hl - i)) else O) print_result).
  - intros [[i len] buf] HS. if_case.
    + apply andb_true_iff in E as [E2%Z.ltb_lt E3%Z.ltb_lt]. eapply wp_mono; [by apply print_step|].
      intros [[[i' len'] buf']|]; [|done]. cbn [fst snd]. intros [HS' Hm]. split; [done|]. rewrite (proj2 (Z.ltb_lt len n)) by done.
      destruct (Z.ltb_spec len' n); lia.
    + apply wp_ret. destruct HS as [(l1 & l2 & gs & E2 & Eg & -> & Hnil & -> & Hlt & F)|(-> & F & Hlt)]; [|left; done].
      apply andb_false_iff in E. destruct (decide (n <= strlen (commas (gtext <$> gs)))) as [Hle|Hle].
      * left. split; [done|]. split; [exact (filled_app _ _ [] _ _ F)|]. pose proof (strlen_nonneg total). destruct Hlt as [->|]; [|lia].
        change (strlen (commas (gtext <$> []))) with 0 in Hle. lia.
      * destruct E as [E%Z.ltb_ge|E%Z.ltb_ge]; [|lia]. assert (l2 = []) as ->.
        { apply nil_length_inv. rewrite Hnr, <-(length_fmap snd), E2, length_app in E. lia. }
        rewrite app_nil_r in Eg. assert (Et : total = commas (gtext <$> gs)) by (unfold total, ranged_text; by rewrite Eg).
        right. rewrite Et. split; [done|]. split; [simpl; lia|done].
  - left. exists [], rs.*2, []. split_and!; try done; [by left|apply filled_start].
  - if_case; lia.
  - done.
Qed.

(** The whole function: the text and its length, or -1; nothing is written
    outside the buffer, and what is written ends in a NUL. *)
Lemma ranged_string_spec g dims : dims = 0 \/ dims = 1 ->
  wp (hostlist_ranged_string_dims env g hl n b0 dims brackets) (fun '(len, buf, g') => g' = g /\
    length buf = length b0 /\ drop (Z.to_nat n) buf = drop (Z.to_nat n) b0 /\
    ((len = -1 /\ n < strlen total + 6 /\ (0 < n -> buf !! Z.to_nat (n - 1) = Some 0)) \/
     (len = strlen total /\ len < n /\ total ++ [0] `prefix_of` buf))).
Proof.
  intros Hd. unfold hostlist_ranged_string_dims.
  assert ((if dims =? 0 then slurmdb_setup_cluster_name_dims env else dims) = 1) as -> by (destruct Hd as [->| ->]; done).
  simpl. apply wp_bind. eapply wp_mono; [apply bracketed_lists_spec|]. intros [len buf] H. unfold print_result in H. simpl in H. if_case.
  - destruct H as [(_ & F & Hlt)|?]; [|lia]. apply wp_bind. destruct (Z.ltb_spec 0 n).
    + apply (wp_put_at b0 n Hn []); [done|lia|]. intros buf' H1 H2 H3. apply wp_ret. split_and!; try done. by left.
    + apply wp_ret. destruct F. split_and!; try done. left. split_and!; (done || lia).
  - destruct H as [?|(-> & Hlt & F)]; [lia|]. apply wp_bind, (wp_put b0 n Hn); [done|lia|]. intros buf' [F1 F2 F3]. apply wp_ret.
    split_and!; try done. by right.
Qed.
End lists.
End print.

(** ** Allocated buffers *)

Lemma text_of_prefix t buf : Forall (fun c => c <> 0) t -> t ++ [0] `prefix_of` buf -> text_of buf = t.
Proof.
  intros H [r ->]. induction H as [|c t Hc H IH]; [done|]. simpl. rewrite (proj2 (Z.eqb_neq c 0)) by done. f_equal. apply IH.
Qed.

Lemma commas_nonzero l : Forall (Forall (fun c => c <> 0)) l -> Forall (fun c => c <> 0) (commas l).
Proof.
  induction 1 as [|s l Hs Hl IH]; [done|]. destruct l as [|s' l]; [done|]. rewrite commas_cons by done.
  apply Forall_app. split; [done|]. by apply Forall_cons.
Qed.

Lemma plain_chars_nonzero s : plain s -> Forall (fun c => c <> 0) s.
Proof. intros H. eapply Forall_impl; [exact H|]. simpl. lia. Qed.

Lemma fmt_lu_nonzero w n : 0 <= n -> Forall (fun c => c <> 0) (fmt_lu w n).
Proof. intros H. apply plain_chars_nonzero, digits_are_plain. by apply fmt_lu_digits. Qed.

Lemma group_text_nonzero cray brackets g : Forall (fun h => plain (hr_prefix h) /\ 0 <= hr_lo h <= hr_hi h) g ->
  Forall (fun c => c <> 0) (group_text cray brackets g).
Proof.
  intros H. unfold group_text. rewrite !Forall_app. split_and!.
  - destruct g as [|h g]; [done|]. apply Forall_cons in H as [[H _] _]. by apply plain_chars_nonzero.
  - case_match; [done|]. by apply fmt_lu_nonzero.
  - by case_match; [apply Forall_singleton|].
  - apply commas_nonzero, Forall_fmap. eapply Forall_impl; [exact H|]. intros h [_ Hh]. unfold num_text, compose. destruct (hr_singlehost h); [done|].
    apply Forall_app. split; [apply fmt_lu_nonzero; lia|]. case_match; [|done]. apply Forall_cons. split; [done|]. apply fmt_lu_nonzero. lia.
  - by case_match; [apply Forall_singleton|].
Qed.

Lemma groups_concat rs : concat (groups rs) = rs.
Proof.
  induction rs as [|h rs IH]; [done|]. cbn [groups]. destruct (groups rs) as [|[|h' g] gs]; [by rewrite <-IH|simpl in *; by rewrite IH|].
  destruct (follows h h'); simpl in *; by rewrite IH.
Qed.

Lemma groups_Forall (P : hostrange -> Prop) rs : Forall P rs -> Forall (Forall P) (groups rs).
Proof. intros H. rewrite <-(groups_concat rs) in H. by apply Forall_concat in H. Qed.

Lemma ranged_text_nonzero cray brackets rs : Forall (fun h => plain (hr_prefix h) /\ 0 <= hr_lo h <= hr_hi h) rs ->
  Forall (fun c => c <> 0) (ranged_text cray brackets rs).
Proof.
  intros H. apply commas_nonzero, Forall_fmap. eapply Forall_impl; [by apply groups_Forall|]. intros g Hg. by apply group_text_nonzero.
Qed.

Section allocated.
Context (fill : Z -> cstr) (Hfill : forall n, 0 <= n -> Z.of_nat (length (fill n)) = n).

(** The buffer is grown until the text fits. *)
Lemma grow_until_spec {A : Type} (print : Z -> cstr -> exec (Z * cstr * A)) (P : A -> Prop) t :
  (forall n buf, 0 < n -> Z.of_nat (length buf) = n -> wp (print n buf) (fun '(len, buf', a) =>
     Z.of_nat (length buf') = n /\ P a /\ ((len = -1 /\ n < strlen t + 6) \/ (0 <= len /\ text_of buf' = t)))) ->
  strlen t + 6 <= 2 ^ 30 -> wp (grow_until fill 20 print) (fun '(s, a) => s = t /\ P a).
Proof.
  intros Hprint Ht. unfold grow_until.
  apply (wp_loop (fun '(size, buf) => exists k, (k <= 17)%nat /\ size = 8192 * 2 ^ Z.of_nat k /\ Z.of_nat (length buf) = size)
    (fun '(size, _) => (17 - Z.to_nat (Z.log2 (size / 8192)))%nat) (fun '(s, a) => s = t /\ P a)).
  - intros [size buf] (k & Hk & -> & Hl). apply wp_bind. eapply wp_mono; [apply Hprint; [lia|done]|].
    intros [[len buf'] a] (Hl' & Pa & [[-> Hlt]|[Hpos Et]]).
    + simpl. assert (Hk17 : (k < 17)%nat). { destruct (decide (k = 17%nat)) as [->|]; [change (8192 * 2 ^ Z.of_nat 17) with (2 ^ 30) in Hlt; lia|lia]. }
      assert (E2 : 8192 * 2 ^ Z.of_nat k * 2 = 8192 * 2 ^ Z.of_nat (S k)) by (rewrite Nat2Z.inj_succ, Z.pow_succ_r by lia; lia).
      assert (Hle : 8192 * 2 ^ Z.of_nat (S k) <= 8192 * 2 ^ 17) by (apply Z.mul_le_mono_nonneg_l; [lia|]; apply Z.pow_le_mono_r; lia).
      rewrite E2. apply wp_bind, wp_i32; [unfold i32_min, i32_max; lia|]. apply wp_ret. split.
      * exists (S k). split; [lia|]. split; [done|]. rewrite length_app, length_drop. specialize (Hfill (8192 * 2 ^ Z.of_nat (S k)) ltac:(lia)). lia.
      * rewrite !(Z.mul_comm 8192), !Z.div_mul, !Z.log2_pow2 by lia. lia.
    + rewrite (proj2 (Z.ltb_ge len 0)) by lia. by apply wp_ret.
  - exists 0%nat. split; [lia|]. split; [done|]. apply Hfill. lia.
  - simpl. lia.
  - done.
Qed.

Section strings.
Context (env : cluster_env) (E1 : one_dim env).

Lemma ranged_xmalloc_spec g hl rs brackets dims : dims = 0 \/ dims = 1 -> hl_arr hl rs -> Forall (fun x => range_wf x.2) rs ->
  let text := ranged_text (is_cray_system env) brackets rs.*2 in strlen text + 6 <= 2 ^ 30 ->
  hostlist_ranged_string_xmalloc_dims fill env g hl dims brackets = Ret (text, g).
Proof.
  intros Hd A W text Ht. apply wp_eq. eapply wp_mono; [apply (grow_until_spec _ (eq g) text); [|done]|by intros [s a] [-> ->]].
  intros n buf Hn Hl. assert (W' : Forall (fun h => plain (hr_prefix h) /\ 0 <= hr_lo h <= hr_hi h) rs.*2).
  { apply Forall_fmap. eapply Forall_impl; [exact W|]. intros x Wx. split; [apply Wx|apply Wx]. }
  eapply wp_mono; [apply (ranged_string_spec env E1 buf n ltac:(lia) hl rs A); [|done]|].
  { eapply Forall_impl; [exact W'|]. by intros h [? _]. }
  intros [[len buf'] g'] (-> & Hl' & _ & Hr). split; [by rewrite Hl'|]. split; [done|].
  destruct Hr as [(-> & Hlt & _)|(-> & Hlt & Hp)]; [by left|right]. split; [apply strlen_nonneg|].
  apply text_of_prefix; [by apply ranged_text_nonzero|done].
Qed.

Lemma ranged_malloc_spec g hl rs : hl_arr hl rs -> Forall (fun x => range_wf x.2) rs ->
  let text := ranged_text (is_cray_system env) true rs.*2 in strlen text + 6 <= 2 ^ 30 ->
  hostlist_ranged_string_malloc fill env g hl = Ret (text, g).
Proof.
  intros A W text Ht. pose proof (ranged_xmalloc_spec g hl rs true 1 (or_intror eq_refl) A W Ht) as H.
  unfold hostlist_ranged_string_malloc, hostlist_ranged_string_xmalloc_dims, hostlist_ranged_string in *. by rewrite E1.
Qed.

Lemma rhosts_nonzero rs : Forall (fun x => range_wf x.2) rs -> Forall (Forall (fun c => c <> 0)) (rhosts rs).
Proof.
  intros W. unfold rhosts. apply Forall_bind. eapply Forall_impl; [exact W|]. intros [a h] Wh. simpl in *. unfold range_hosts.
  destruct (hr_singlehost h); [apply Forall_singleton, plain_chars_nonzero, Wh|]. apply Forall_fmap, Forall_forall. intros k Hk%elem_of_seqZ.
  unfold compose, host_name. apply Forall_app. split; [apply plain_chars_nonzero, Wh|]. apply fmt_lu_nonzero. pose proof (rw_lo _ Wh). lia.
Qed.

Lemma deranged_xmalloc_spec hl rs fuel dims : dims = 0 \/ dims = 1 -> hl_arr hl rs -> Forall (fun x => range_wf x.2) rs -> rs <> [] ->
  (length (rhosts rs) < fuel)%nat -> strlen (commas (rhosts rs)) + 6 <= 2 ^ 30 ->
  hostlist_deranged_string_xmalloc_dims fill env fuel hl dims = Ret (commas (rhosts rs)).
Proof.
  intros Hd A W Hne Hfuel Ht. apply wp_eq. unfold hostlist_deranged_string_xmalloc_dims. cbn zeta.
  assert ((if dims =? 0 then slurmdb_setup_cluster_name_dims env else dims) = 1) as -> by (destruct Hd as [->| ->]; done).
  apply wp_bind. eapply wp_mono; [apply (grow_until_spec _ (fun _ : unit => True) (commas (rhosts rs))); [|done]|by intros [s a] [-> _]].
  intros n buf Hn Hl. apply wp_bind. eapply wp_mono; [by apply (deranged_string_spec env E1 buf n ltac:(lia) hl rs fuel 1); [..|right]|].
  intros [len buf'] (Hl' & _ & Hr). apply wp_ret. split; [by rewrite Hl'|]. split; [done|].
  destruct Hr as [(-> & Hlt & _)|(-> & Hlt & Hp)]; [left; split; [done|lia]|right]. split; [apply strlen_nonneg|].
  rewrite decide_False in Hp by done. apply text_of_prefix; [|done]. by apply commas_nonzero, rhosts_nonzero.
Qed.
End strings.
End allocated.
