(* ===== verification/HostlistRead.v ===== *)
(** * Reading host list expressions: lemmas

    The expressions that the printing functions write are read back as the same
    hosts. *)

From S2P Require Import Prelude NatCmp Hostlist HostlistParse HostlistPrint HostlistFacts HostlistOps HostlistSeq HostlistText.

Local Open Scope Z_scope.
Local Open Scope slurm_scope.

(** ** Searching in strings *)

Lemma strchr_None s c : c ∉ s -> strchr s c = None.
Proof.
  induction s as [|x s IH]; [done|]. rewrite not_elem_of_cons. intros [Hx Hs]. cbn [strchr].
  rewrite (proj2 (Z.eqb_neq x c)) by done. by rewrite IH.
Qed.

Lemma strchr_app s c r : c ∉ s -> strchr (s ++ c :: r) c = Some (length s).
Proof.
  induction s as [|x s IH]; [intros _; cbn [app strchr]; by rewrite Z.eqb_refl|]. rewrite not_elem_of_cons. intros [Hx Hs].
  cbn [app strchr]. rewrite (proj2 (Z.eqb_neq x c)) by done. by rewrite IH.
Qed.

(** The first occurrence is not before the end of a part that has none. *)
Lemma strchr_ge s r c i : c ∉ s -> strchr (s ++ r) c = Some i -> (length s <= i)%nat.
Proof.
  revert i. induction s as [|x s IH]; intros i; [simpl; lia|]. rewrite not_elem_of_cons. intros [Hx Hs]. cbn [app strchr].
  rewrite (proj2 (Z.eqb_neq x c)) by done. destruct (strchr (s ++ r) c) as [k|]; [|done]. intros [= <-]. specialize (IH k Hs eq_refl). simpl. lia.
Qed.

Lemma strrchr_None s c : c ∉ s -> strrchr s c = None.
Proof.
  induction s as [|x s IH]; [done|]. rewrite not_elem_of_cons. intros [Hx Hs]. cbn [strrchr].
  by rewrite IH, (proj2 (Z.eqb_neq x c)).
Qed.

Lemma strrchr_app s c r : c ∉ r -> strrchr (s ++ c :: r) c = Some (length s).
Proof.
  intros Hr. induction s as [|x s IH]; cbn [app strrchr]; [by rewrite strrchr_None, Z.eqb_refl|]. by rewrite IH.
Qed.

(** ** Tokens *)

Abbreviation sep := separators.
Abbreviation unsplit := (Forall (fun c => is_sep sep c = false)).

(** A name, possibly with one bracketed list at its end. *)
Inductive token : cstr -> Prop :=
| token_name t : t <> [] -> unsplit t -> c_open ∉ t -> token t
| token_list p body : unsplit p -> c_open ∉ p -> c_close ∉ p -> c_open ∉ body -> c_close ∉ body ->
    token (p ++ c_open :: body ++ [c_close]).

(** What can follow a token. *)
Definition token_stop (r : cstr) : Prop := r = [] \/ exists r', r = c_comma :: r'.

Lemma skip_unsplit s r : unsplit s -> skip_to_sep sep (s ++ r) = (length s + skip_to_sep sep r)%nat.
Proof. induction 1 as [|c s Hc Hs IH]; [done|]. cbn [app skip_to_sep]. rewrite Hc, IH. done. Qed.

Lemma skip_stop r : token_stop r -> skip_to_sep sep r = 0%nat.
Proof. by intros [->|[r' ->]]. Qed.

(** A separator is found at or before the end of a token. *)
Lemma skip_le s r : token_stop r -> (skip_to_sep sep (s ++ r) <= length s)%nat.
Proof.
  intros Hr. induction s as [|c s IH]; [by rewrite skip_stop|]. cbn [app skip_to_sep]. case_match; simpl; lia.
Qed.

Lemma token_end_name t r : token_stop r -> unsplit t -> c_open ∉ t -> token_end sep (t ++ r) = Ret (length t).
Proof.
  intros Hr Hu Ho. unfold token_end. replace (2 * length (t ++ r) + 3)%nat with (S (2 * length (t ++ r) + 2)) by lia. rewrite loop_step.
  unfold token_step, advance. rewrite drop_0, skip_unsplit, skip_stop by done. destruct (strchr (t ++ r) c_open) as [o|] eqn:E; [|f_equal; lia].
  assert (length t < 0 + o)%nat as Hlt.
  { destruct Hr as [->|[r' ->]]; [by rewrite app_nil_r, strchr_None in E|]. change (c_comma :: r') with ([c_comma] ++ r') in E.
    rewrite app_assoc in E. apply strchr_ge in E; [rewrite length_app in E; simpl in E; lia|].
    rewrite not_elem_of_app. split; [done|]. by rewrite list_elem_of_singleton. }
  rewrite (proj2 (Nat.ltb_lt _ _)) by lia. f_equal. lia.
Qed.

Section token_list.
Context (p body r : cstr) (Hr : token_stop r) (Hu : unsplit p).
Context (Hpo : c_open ∉ p) (Hpc : c_close ∉ p) (Hbo : c_open ∉ body) (Hbc : c_close ∉ body).
Let t := p ++ c_open :: body ++ [c_close].
Let s := t ++ r.

Lemma token_list_length : length t = (length p + length body + 2)%nat.
Proof. unfold t. rewrite length_app. simpl. rewrite length_app. simpl. lia. Qed.

Lemma token_list_split : s = (p ++ c_open :: body) ++ c_close :: r.
Proof. unfold s, t. rewrite <-!app_assoc. simpl. by rewrite <-app_assoc. Qed.

Lemma token_list_open : strchr s c_open = Some (length p).
Proof. unfold s, t. rewrite <-app_assoc. by apply strchr_app. Qed.

Lemma token_list_close : strchr s c_close = Some (length p + length body + 1)%nat.
Proof.
  rewrite token_list_split, strchr_app; [f_equal; rewrite length_app; simpl; lia|].
  rewrite not_elem_of_app, not_elem_of_cons. done.
Qed.

(** From the end of the token no bracket comes before a separator. *)
Lemma token_list_last f : loop (S (S f)) (token_step sep s) (length t, 0%nat) = Ret (length t).
Proof.
  pose proof token_list_length as Hlen. rewrite loop_step. unfold token_step at 1. rewrite drop_0, token_list_open, token_list_close. cbn zeta.
  rewrite (proj2 (Nat.ltb_ge _ _)), (proj2 (Nat.ltb_ge _ _)), (proj2 (Nat.ltb_lt _ _)) by lia.
  rewrite loop_step. replace (S (0 + (length p + length body + 1)))%nat with (length t) by lia. unfold token_step at 1, s at 1. rewrite drop_app_length.
  destruct (strchr r c_open) as [o|] eqn:E; [|done]. destruct Hr as [->|[r' ->]]; [done|].
  change (c_comma :: r') with ([c_comma] ++ r') in E. apply strchr_ge in E; [|by rewrite list_elem_of_singleton].
  simpl in E. by rewrite (proj2 (Nat.ltb_lt _ _)) by lia.
Qed.

Lemma token_end_list : token_end sep s = Ret (length t).
Proof.
  pose proof token_list_length as Hlen. unfold token_end. replace (2 * length s + 3)%nat with (S (S (S (2 * length s)))) by lia.
  set (first := advance sep s 0). assert (Hf : (length p <= first <= length t)%nat).
  { unfold first, advance. rewrite drop_0. split; [|by apply skip_le]. unfold s, t. rewrite <-app_assoc, skip_unsplit by done. lia. }
  destruct (decide (first = length t)) as [->|Hne]; [apply token_list_last|].
  assert (Hcl : advance sep s (length p + length body + 1) = length t).
  { unfold advance. rewrite token_list_split. replace (length p + length body + 1)%nat with (length (p ++ c_open :: body)) by (rewrite length_app; simpl; lia).
    rewrite drop_app_length. change (c_close :: r) with ([c_close] ++ r). rewrite skip_unsplit, skip_stop by (done || by repeat constructor).
    rewrite length_app. simpl. lia. }
  rewrite loop_step. unfold token_step at 1. rewrite drop_0, token_list_open, token_list_close. cbn zeta.
  rewrite !(proj2 (Nat.ltb_ge _ _)) by lia. replace (0 + (length p + length body + 1))%nat with (length p + length body + 1)%nat by lia.
  rewrite Hcl. apply token_list_last.
Qed.
End token_list.

Lemma token_end_spec t r : token t -> token_stop r -> token_end sep (t ++ r) = Ret (length t).
Proof. intros [] Hr; [by apply token_end_name|by apply token_end_list]. Qed.

(** A token is not empty and does not start with a separator. *)
Lemma token_first t r : token t -> t <> [] /\ drop_run (is_sep sep) (t ++ r) = t ++ r.
Proof.
  intros [t' Hne Hu _|p body Hu _ _ _ _].
  - destruct t' as [|c t']; [done|]. apply Forall_cons in Hu as [Hc _]. simpl. by rewrite Hc.
  - rewrite <-app_assoc. destruct p as [|c p]; [done|]. apply Forall_cons in Hu as [Hc _]. simpl. by rewrite Hc.
Qed.

(** The first token of a string of tokens. *)
Lemma next_tok_spec t r : token t -> token_stop r -> _next_tok sep (t ++ r) = Ret (Some (t, drop_run (is_sep sep) r)).
Proof.
  intros Ht Hr. pose proof (token_end_spec t r Ht Hr) as He. destruct (token_first t r Ht) as [Hne Hd]. unfold _next_tok. rewrite Hd.
  destruct (t ++ r) as [|c s] eqn:E; [by apply app_nil in E as [-> _]|]. rewrite He. simpl. rewrite <-E. do 3 f_equal.
  - by rewrite take_app_length.
  - by rewrite drop_app_length.
Qed.

(** ** The numbers between brackets *)

Lemma digits_not_in d c : all_digits d -> isdigit c = false -> c ∉ d.
Proof. intros Hd Hc Hin. rewrite Forall_forall in Hd. specialize (Hd _ Hin). congruence. Qed.

Lemma split_commas_one s : c_comma ∉ s -> split_commas s = [s].
Proof.
  induction s as [|c s IH]; [done|]. rewrite not_elem_of_cons. intros [Hc Hs]. cbn [split_commas].
  rewrite (proj2 (Z.eqb_neq c c_comma)) by done. by rewrite IH.
Qed.

Lemma split_commas_app s r : c_comma ∉ s -> split_commas (s ++ c_comma :: r) = s :: split_commas r.
Proof.
  induction s as [|c s IH]; [done|]. rewrite not_elem_of_cons. intros [Hc Hs]. cbn [app split_commas].
  rewrite (proj2 (Z.eqb_neq c c_comma)) by done. by rewrite IH.
Qed.

Lemma split_commas_commas l : l <> [] -> Forall (fun s => c_comma ∉ s) l -> split_commas (commas l) = l.
Proof.
  intros Hne H. induction H as [|s l Hs Hl IH]; [done|]. destruct l as [|s' l]; [by apply split_commas_one|].
  rewrite commas_cons, split_commas_app by done. by rewrite IH.
Qed.

(** What a printed range of numbers is read as. *)
Definition read_range (h : hostrange) : range_t := Range (hr_lo h) (hr_hi h) (ewidth (hr_width h) (hr_lo h)).

Lemma num_text_0 h : range_wf h -> hr_singlehost h = false ->
  num_text 0 h = fmt_lu (hr_width h) (hr_lo h) ++ (if hr_lo h <? hr_hi h then c_dash :: fmt_lu (hr_width h) (hr_hi h) else []).
Proof.
  intros W Es. unfold num_text. rewrite Es. pose proof (rw_width _ W). rewrite (proj2 (Z.ltb_ge (hr_width h) 0)) by lia. simpl.
  by rewrite Z.sub_0_r.
Qed.

Lemma num_text_chars h c : range_wf h -> hr_singlehost h = false -> c <> c_dash -> isdigit c = false -> c ∉ num_text 0 h.
Proof.
  intros W Es Hc Hd. rewrite num_text_0 by done. pose proof (rw_lo _ W). rewrite not_elem_of_app.
  split; [apply digits_not_in; [apply fmt_lu_digits; lia|done]|]. case_match; [|by apply not_elem_of_nil]. rewrite not_elem_of_cons.
  split; [done|]. apply digits_not_in; [apply fmt_lu_digits; lia|done].
Qed.

Lemma strtoul_fmt_lu w n : 0 <= n < 2 ^ 64 -> strtoul 10 (fmt_lu w n) = (n, []).
Proof.
  intros Hn. rewrite <-(app_nil_r (fmt_lu w n)) at 1. rewrite strtoul_digits.
  - by rewrite num_fmt_lu.
  - apply fmt_lu_digits. lia.
  - by apply fmt_lu_nonempty.
  - rewrite num_fmt_lu by done. unfold ULONG_MAX. lia.
  - done.
Qed.

Lemma parse_num_text h : range_wf h -> hr_singlehost h = false -> hr_hi h - hr_lo h < MAX_RANGE ->
  _parse_single_range (num_text 0 h) 1 = Some (read_range h).
Proof.
  intros W Es Hmax. pose proof (rw_lo _ W). pose proof (rw_hi _ W). unfold _parse_single_range.
  rewrite strchr_None by (apply num_text_chars; done). change ((1 <? 1) && _) with false. change (hostlist_get_base 1) with 10.
  assert (Hnd : forall n, 0 <= n -> c_dash ∉ fmt_lu (hr_width h) n) by (intros; apply digits_not_in; [by apply fmt_lu_digits|done]).
  assert (Hpos : strlen (fmt_lu (hr_width h) (hr_lo h)) <> 0).
  { intros E. apply (fmt_lu_nonempty (hr_width h) (hr_lo h)); [lia|]. unfold strlen in E. apply nil_length_inv. lia. }
  assert (Hu : (MAX_RANGE <? u64 (hr_hi h - hr_lo h + 1)) = false) by (rewrite u64_small by lia; apply Z.ltb_ge; lia).
  rewrite num_text_0 by done. unfold read_range. rewrite <-strlen_fmt_lu by lia. destruct (Z.ltb_spec (hr_lo h) (hr_hi h)) as [Hlt|Hge].
  - rewrite strchr_app by (apply Hnd; lia). rewrite take_app_length. cbn zeta.
    change (c_dash :: fmt_lu (hr_width h) (hr_hi h)) with ([c_dash] ++ fmt_lu (hr_width h) (hr_hi h)).
    replace (S (length (fmt_lu (hr_width h) (hr_lo h)))) with (length (fmt_lu (hr_width h) (hr_lo h) ++ [c_dash])) by (rewrite length_app; simpl; lia).
    rewrite app_assoc, drop_app_length. pose proof (strtoul_fmt_lu (hr_width h) (hr_hi h) ltac:(lia)) as Eh.
    pose proof (Hnd (hr_hi h) ltac:(lia)) as Hd. pose proof (fmt_lu_nonempty (hr_width h) (hr_hi h) ltac:(lia)) as Hne.
    destruct (fmt_lu (hr_width h) (hr_hi h)) as [|c d]; [done|]. rewrite not_elem_of_cons in Hd.
    rewrite (proj2 (Z.eqb_neq c c_dash)) by (destruct Hd; congruence). rewrite strtoul_fmt_lu by lia. rewrite Eh.
    rewrite (proj2 (Z.eqb_neq (strlen []) _)) by (change (strlen []) with 0; lia).
    change (strlen []) with 0. rewrite (proj2 (Z.eqb_neq 0 (strlen (c :: d)))) by (unfold strlen; simpl; lia). simpl.
    by rewrite (proj2 (Z.ltb_ge (hr_hi h) (hr_lo h))), Hu by lia.
  - rewrite app_nil_r, strchr_None by (apply Hnd; lia). rewrite strtoul_fmt_lu by lia.
    rewrite (proj2 (Z.eqb_neq (strlen []) _)) by (change (strlen []) with 0; lia). change (strlen []) with 0. simpl.
    replace (hr_hi h) with (hr_lo h) in * by lia. by rewrite Z.ltb_irrefl, Hu.
Qed.

(** Ranges of one prefix that can be read back. *)
Record readable (p : cstr) (h : hostrange) : Prop := {
  rd_wf : range_wf h;
  rd_single : hr_singlehost h = false;
  rd_prefix : hr_prefix h = p;
  rd_count : hr_hi h - hr_lo h < MAX_RANGE
}.

Lemma add_part_spec p h r : readable p h -> 0 <= pr_capacity r <= MAX_RANGES -> pr_count r < MAX_RANGES ->
  exists cap, 0 <= cap <= MAX_RANGES /\
    add_part MAX_RANGES 1 (Some r) (num_text 0 h) = Some (Parsed cap (pr_ranges r ++ [read_range h])).
Proof.
  intros [W Es _ Hmax] Hcap Hlt. unfold add_part, add_range. cbn [mbind option_bind].
  rewrite (proj2 (Z.eqb_neq (pr_count r) MAX_RANGES)), parse_num_text by (done || lia). change (1 <? 1) with false. cbn [andb].
  unfold room_for_range, _grow_ranges. assert (0 <= pr_count r) by (unfold pr_count; lia).
  destruct (Z.leb_spec (pr_capacity r) (pr_count r)); [|by exists (pr_capacity r)].
  rewrite (proj2 (Z.leb_gt MAX_RANGES (pr_capacity r))) by lia. exists (Z.min (pr_capacity r * 2 + 10) MAX_RANGES). split; [lia|done].
Qed.

Lemma parse_range_list_spec p g cap : Forall (readable p) g -> g <> [] -> 0 <= cap <= MAX_RANGES -> Z.of_nat (length g) <= MAX_RANGES ->
  exists cap', 0 <= cap' <= MAX_RANGES /\
    _parse_range_list (commas (num_text 0 <$> g)) cap MAX_RANGES 1 = Some (Parsed cap' (read_range <$> g)).
Proof.
  intros Hg Hne Hcap Hlen. unfold _parse_range_list. rewrite split_commas_commas; [|by destruct g|].
  2: { apply Forall_fmap. eapply Forall_impl; [exact Hg|]. intros h [W Es _ _]. by apply num_text_chars. }
  assert (H : forall r, 0 <= pr_capacity r <= MAX_RANGES -> pr_count r + Z.of_nat (length g) <= MAX_RANGES ->
    exists cap', 0 <= cap' <= MAX_RANGES /\
      foldl (add_part MAX_RANGES 1) (Some r) (num_text 0 <$> g) = Some (Parsed cap' (pr_ranges r ++ (read_range <$> g)))).
  { clear Hcap Hlen Hne cap. induction Hg as [|h g Hh Hg IH]; intros r Hcap Hlen; simpl in Hlen.
    { exists (pr_capacity r). split; [done|]. simpl. rewrite app_nil_r. by destruct r. }
    destruct (add_part_spec p h r) as (cap1 & Hcap1 & E1); [done|done|lia|]. cbn [fmap list_fmap foldl]. rewrite E1.
    destruct (IH (Parsed cap1 (pr_ranges r ++ [read_range h]))) as (cap' & Hcap' & E); [done|unfold pr_count in *; simpl; rewrite length_app; simpl; lia|].
    exists cap'. split; [done|]. rewrite E. simpl. by rewrite <-app_assoc. }
  apply H; [done|]. unfold pr_count. simpl. lia.
Qed.

(** ** Pushing what has been read *)

Lemma ewidth_idem w n m : 0 <= n <= m -> m < 2 ^ 64 -> ewidth (ewidth w n) m = ewidth w m.
Proof. intros Hn Hm. unfold ewidth. pose proof (dg_mono m ltac:(lia) n Hn). lia. Qed.

(** The range that is pushed has the same hosts. *)
Lemma read_range_hosts p h : readable p h ->
  let h' := hostrange_create p (hr_lo h) (hr_hi h) (ewidth (hr_width h) (hr_lo h)) in
  range_wf h' /\ range_hosts h' = range_hosts h.
Proof.
  intros [W Es Ep _] h'. pose proof (rw_lo _ W). pose proof (rw_hi _ W). pose proof (rw_width _ W). split.
  - split; simpl; [rewrite <-Ep; apply W|done|done|done|]. unfold ewidth. pose proof (dg_int (hr_lo h)). lia.
  - unfold range_hosts, h'. simpl. rewrite Es, Ep. apply list_fmap_ext. intros i n Hn. apply lookup_seqZ in Hn as [-> Hi].
    apply host_name_ewidth, ewidth_idem; lia.
Qed.

(** A list that grows by ranges with the usual prefixes keeps to them. *)
Definition keeps_std (rs : rlist) (g : list hostrange) (rs' : rlist) : Prop :=
  Forall (fun x => range_std x.2) rs -> Forall range_std g -> Forall (fun x => range_std x.2) rs'.

Lemma pushed_std rs a h h' rs' : pushed rs a h h' rs' -> Forall (fun x => range_std x.2) rs -> range_std h -> Forall (fun x => range_std x.2) rs'.
Proof.
  intros P S Sh. apply (std_kinds (rs ++ [(0%nat, h)])); [by apply Forall_app; split; [|apply Forall_singleton]|].
  pose proof (pushed_kinds _ _ _ _ _ P). by rewrite kinds_app.
Qed.

Lemma push_ranges_spec p g : Forall (readable p) g -> forall hl rs, hl_rep hl rs ->
  Z.of_nat (length (rhosts rs ++ (g ≫= range_hosts))) <= i32_max ->
  wp (push_ranges hl p (read_range <$> g)) (fun hl' => exists rs', hl_rep hl' rs' /\ rhosts rs' = rhosts rs ++ (g ≫= range_hosts) /\ keeps_std rs g rs').
Proof.
  unfold push_ranges. induction 1 as [|h g Hh Hg IH]; intros hl rs R Hmax.
  { exists rs. simpl. rewrite app_nil_r. split_and!; [done..|by intros S]. }
  destruct (read_range_hosts p h Hh) as [W' E']. cbn [fmap list_fmap foldl mbind list_bind] in *. rewrite app_assoc in *. cbn [mbind exec_bind].
  change (hostlist_push_hr hl p _ _ _) with (hostlist_push_hr hl p (hr_lo h) (hr_hi h) (ewidth (hr_width h) (hr_lo h))).
  assert (Hp : wp (hostlist_push_hr hl p (hr_lo h) (hr_hi h) (ewidth (hr_width h) (hr_lo h)))
    (fun '(_, hl') => exists rs', hl_rep hl' rs' /\ rhosts rs' = rhosts rs ++ range_hosts h /\ keeps_std rs [h] rs')).
  { unfold hostlist_push_hr. apply wp_bind. eapply wp_mono; [apply (push_range_spec _ rs); [done|exact W'|]|].
    - rewrite E'. rewrite !length_app in *. lia.
    - intros [[k hl'] h'] (rs' & P & R' & _). apply wp_ret. exists rs'. split; [done|].
      destruct (pushed_hosts _ _ _ _ _ (rep_wf _ _ R) W' P) as (-> & _). rewrite E'. split; [done|]. intros S Sh. apply (pushed_std _ _ _ _ _ P S).
      rewrite Forall_singleton in Sh. unfold range_std in *. simpl. destruct Hh as [_ Es <- _]. by rewrite Es in Sh. }
  apply wp_inv in Hp as ([k hl'] & -> & rs' & R' & E & S'). simpl. rewrite <-E in *. eapply wp_mono; [by apply IH|].
  intros hl2 (rs2 & R2 & E2 & S2). exists rs2. split_and!; [done|done|]. intros S Sg. apply Forall_cons in Sg as [Sh Sg]. apply S2; [|done]. apply S'; [done|by apply Forall_singleton].
Qed.

Abbreviation clean p := (unsplit p /\ c_open ∉ p /\ c_close ∉ p).

Lemma push_range_list_spec p g depth fuel hl rs dims : clean p -> Forall (readable p) g -> hl_rep hl rs ->
  Z.of_nat (length (rhosts rs ++ (g ≫= range_hosts))) <= i32_max ->
  wp (_push_range_list (S depth) fuel hl p (read_range <$> g) dims) (fun '(rc, hl') => rc = 0 /\
    exists rs', hl_rep hl' rs' /\ rhosts rs' = rhosts rs ++ (g ≫= range_hosts) /\ keeps_std rs g rs').
Proof.
  intros (_ & Ho & _) Hg R Hmax. cbn [_push_range_list]. unfold split_prefix. rewrite strrchr_None.
  - simpl. apply wp_bind. eapply wp_mono; [by apply (push_ranges_spec p g Hg hl rs)|]. intros hl' H. by apply wp_ret.
  - intros Hin. apply Ho. by apply elem_of_take in Hin as (i & Hi & _); eapply list_elem_of_lookup_2.
Qed.

(** Groups of ranges that can be read back: a name without a number, or ranges of
    one prefix. *)
Inductive readable_group : list hostrange -> Prop :=
| rg_name h : range_wf h -> hr_singlehost h = true -> clean (hr_prefix h) -> name_ok (hr_prefix h) -> hr_prefix h <> [] -> readable_group [h]
| rg_list p g : clean p -> g <> [] -> Forall (readable p) g -> Z.of_nat (length g) <= MAX_RANGES ->
    (needs_brackets g = false -> Forall name_ok (g ≫= range_hosts)) -> readable_group g.

Section push_group.
Context (env : cluster_env) (E1 : one_dim env).

Lemma push_name_spec fuel t cap hl rs : c_open ∉ t -> name_ok t -> hl_rep hl rs -> Z.of_nat (length (rhosts rs)) < i32_max ->
  wp (push_token env fuel 1 t cap hl) (fun r => exists hl' rs', r = Some (cap, hl') /\ hl_rep hl' rs' /\ rhosts rs' = rhosts rs ++ [t] /\
    forall g, keeps_std rs g rs').
Proof.
  intros Ho Ht R Hmax. unfold push_token. rewrite strrchr_None by done. apply wp_bind.
  eapply wp_mono; [by apply (push_host_spec env E1 _ rs); [right|..]|]. intros [rc hl'] (_ & rs' & h' & P & R' & E). apply wp_ret.
  exists hl', rs'. split_and!; [done..|]. intros g S _. apply (pushed_std _ _ _ _ _ P S), host_range_std.
Qed.

Lemma unsplit_digits d : all_digits d -> unsplit d.
Proof.
  intros H. eapply Forall_impl; [exact H|]. intros c Hc. apply bool_decide_eq_false. unfold isdigit, separators in *.
  rewrite !elem_of_cons, elem_of_nil. lia.
Qed.

(** The texts of the three kinds of groups. *)
Lemma group_text_0 g : group_text false true g = match g with [] => [] | h :: _ => hr_prefix h end ++
  (if needs_brackets g then [c_open] else []) ++ commas (num_text 0 <$> g) ++ (if needs_brackets g then [c_close] else []).
Proof. unfold group_text. assert (group_pad false g = 0) as -> by (by destruct g). done. Qed.

Lemma group_text_name h : hr_singlehost h = true -> group_text false true [h] = hr_prefix h.
Proof.
  intros Es. rewrite group_text_0. unfold needs_brackets, hostrange_count. cbn [fmap list_fmap commas]. unfold num_text.
  rewrite Es. simpl. by rewrite app_nil_r.
Qed.

Lemma group_text_list p g : Forall (readable p) g -> g <> [] -> needs_brackets g = true ->
  group_text false true g = p ++ c_open :: commas (num_text 0 <$> g) ++ [c_close].
Proof.
  intros Hg Hne Eb. rewrite group_text_0, Eb. f_equal. destruct g; [done|]. by apply Forall_cons in Hg as [[] _].
Qed.

(** One host needs no brackets. *)
Lemma group_text_host p g : Forall (readable p) g -> g <> [] -> needs_brackets g = false ->
  exists h, g = [h] /\ range_hosts h = [group_text false true g] /\ group_text false true g = p ++ fmt_lu (hr_width h) (hr_lo h) /\ 0 <= hr_lo h < 2 ^ 31.
Proof.
  intros Hg Hne Eb. destruct g as [|h [|h' g]]; [done| |by simpl in Eb; rewrite orb_true_r in Eb]. exists h. split; [done|].
  apply Forall_cons in Hg as [[W Es <- _] _]. pose proof (rw_lo _ W). pose proof (rw_hi _ W).
  assert (El : hr_lo h = hr_hi h) by (simpl in Eb; rewrite orb_false_r, range_count in Eb by done; lia).
  assert (Et : group_text false true [h] = hr_prefix h ++ fmt_lu (hr_width h) (hr_lo h)).
  { rewrite group_text_0, Eb. cbn [fmap list_fmap commas]. rewrite num_text_0, (proj2 (Z.ltb_ge (hr_lo h) _)), !app_nil_r by (done || lia). done. }
  rewrite Et, range_hosts_one by done. split; [done|]. split; [done|lia].
Qed.

(** Brackets hold digits, dashes and commas only. *)
Lemma commas_chars p g c : Forall (readable p) g -> c <> c_dash -> isdigit c = false -> c <> c_comma -> c ∉ commas (num_text 0 <$> g).
Proof.
  intros Hg H1 H2 H3. induction Hg as [|h g [W Es _ _] Hg IH]; [by apply not_elem_of_nil|]. cbn [fmap list_fmap].
  pose proof (num_text_chars h c W Es H1 H2). destruct g as [|h' g]; [done|]. cbn [fmap list_fmap] in *. rewrite commas_cons by done.
  rewrite not_elem_of_app, not_elem_of_cons. done.
Qed.

(** The text of a group is one token. *)
Lemma group_token g : readable_group g -> token (group_text false true g).
Proof.
  intros [h W Es (Hu & Ho & Hc) Hok Hne|p g' (Hu & Ho & Hc) Hne Hg Hlen Hok].
  - rewrite group_text_name by done. by apply token_name.
  - destruct (needs_brackets g') eqn:Eb.
    + rewrite (group_text_list p) by done. apply token_list; try done; by apply (commas_chars p).
    + destruct (group_text_host p g') as (h & _ & _ & -> & Hlo); [done..|]. pose proof (fmt_lu_digits (hr_width h) (hr_lo h) ltac:(lia)) as Hd.
      apply token_name; [|by apply Forall_app; split; [|apply unsplit_digits]|].
      * intros [_ E]%app_nil. by apply fmt_lu_nonempty in E; [|lia].
      * rewrite not_elem_of_app. split; [done|by apply digits_not_in].
Qed.

(** Reading a bracketed list. *)
Lemma push_list_token fuel p g cap hl rs : clean p -> g <> [] -> Forall (readable p) g -> Z.of_nat (length g) <= MAX_RANGES ->
  hl_rep hl rs -> 0 <= cap <= MAX_RANGES -> Z.of_nat (length (rhosts rs ++ (g ≫= range_hosts))) <= i32_max ->
  wp (push_token env fuel 1 (p ++ c_open :: commas (num_text 0 <$> g) ++ [c_close]) cap hl) (fun r => exists cap' hl' rs',
    r = Some (cap', hl') /\ 0 <= cap' <= MAX_RANGES /\ hl_rep hl' rs' /\ rhosts rs' = rhosts rs ++ (g ≫= range_hosts) /\ keeps_std rs g rs').
Proof.
  intros Hp Hne Hg Hlen R Hcap Hmax. unfold push_token. rewrite strrchr_app.
  2: { rewrite not_elem_of_app, list_elem_of_singleton. split; [by apply (commas_chars p)|done]. }
  cbn zeta. rewrite take_app_length. replace (S (length p)) with (length (p ++ [c_open])) by (rewrite length_app; simpl; lia).
  set (nums := commas (num_text 0 <$> g)). rewrite (app_assoc p [c_open] (nums ++ [c_close]) : p ++ c_open :: nums ++ [c_close] = _).
  unfold nums. rewrite drop_app_length, strchr_app by (by apply (commas_chars p)). rewrite lookup_ge_None_2 by (rewrite length_app; simpl; lia).
  rewrite take_app_length. unfold push_bracketed.
  destruct (parse_range_list_spec p g cap) as (cap' & Hcap' & ->); [done..|]. cbn [pr_ranges pr_capacity].
  apply wp_bind. eapply wp_mono; [by apply (push_range_list_spec p g 1023 fuel hl rs 1)|]. intros [rc hl'] (-> & rs' & R' & E).
  apply wp_ret. by exists cap', hl', rs'.
Qed.

(** Reading the text of a group pushes its hosts. *)
Lemma read_group fuel g cap hl rs : readable_group g -> hl_rep hl rs -> 0 <= cap <= MAX_RANGES ->
  Z.of_nat (length (rhosts rs ++ (g ≫= range_hosts))) <= i32_max ->
  wp (push_token env fuel 1 (group_text false true g) cap hl) (fun r => exists cap' hl' rs', r = Some (cap', hl') /\
    0 <= cap' <= MAX_RANGES /\ hl_rep hl' rs' /\ rhosts rs' = rhosts rs ++ (g ≫= range_hosts) /\ keeps_std rs g rs').
Proof.
  intros Hg R Hcap Hmax.
  assert (Hname : forall t, c_open ∉ t -> name_ok t -> g ≫= range_hosts = [t] -> wp (push_token env fuel 1 t cap hl) (fun r =>
    exists cap' hl' rs', r = Some (cap', hl') /\ 0 <= cap' <= MAX_RANGES /\ hl_rep hl' rs' /\ rhosts rs' = rhosts rs ++ (g ≫= range_hosts) /\ keeps_std rs g rs')).
  { intros t Ho Hok Et. rewrite Et, length_app in Hmax. simpl in Hmax. rewrite Et.
    eapply wp_mono; [apply (push_name_spec fuel t cap hl rs); [done|done|done|lia]|]. intros r (hl' & rs' & -> & R' & E' & S'). by exists cap, hl', rs'. }
  destruct Hg as [h W Es (Hu & Ho & Hc) Hok Hne|p g (Hu & Ho & Hc) Hne Hg Hlen Hok].
  - rewrite group_text_name by done. apply Hname; [done|done|]. cbn [mbind list_bind]. unfold range_hosts. by rewrite Es.
  - destruct (needs_brackets g) eqn:Eb; [rewrite (group_text_list p) by done; by apply push_list_token|].
    destruct (group_text_host p g) as (h & -> & Eh & Et & Hlo); [done..|]. cbn [mbind list_bind] in *. rewrite app_nil_r in *.
    specialize (Hok eq_refl). rewrite Eh, Forall_singleton in Hok. apply Hname; [|done|done].
    rewrite Et, not_elem_of_app. split; [done|]. apply digits_not_in; [apply fmt_lu_digits; lia|done].
Qed.

(** Reading a whole expression. *)
Lemma create_groups fuel gs : Forall readable_group gs -> Z.of_nat (length (concat gs ≫= range_hosts)) <= i32_max ->
  wp (hostlist_create env fuel (commas (group_text false true <$> gs))) (fun r => exists hl rs, r = Some hl /\
    hl_rep hl rs /\ rhosts rs = concat gs ≫= range_hosts /\ keeps_std [] (concat gs) rs).
Proof.
  intros Hgs Hmax. unfold hostlist_create, hostlist_create_dims. rewrite E1. cbn [Z.eqb].
  set (text l := commas (group_text false true <$> l)). unfold _hostlist_create_bracketed.
  apply (wp_loop (fun '(str, cap, hl) => exists gs1 gs2 rs, gs = gs1 ++ gs2 /\ str = text gs2 /\ 0 <= cap <= MAX_RANGES /\
      hl_rep hl rs /\ rhosts rs = concat gs1 ≫= range_hosts /\ keeps_std [] (concat gs1) rs) (fun '(str, _, _) => length str)
    (fun r => exists hl rs, r = Some hl /\ hl_rep hl rs /\ rhosts rs = concat gs ≫= range_hosts /\ keeps_std [] (concat gs) rs)).
  3: unfold text; lia. 3: done. 2: { exists [], gs, []. split_and!; try done; [apply rep_new|by intros S]. }
  intros [[str cap] hl] (gs1 & gs2 & rs & -> & -> & Hcap & R & Er & Sr). destruct gs2 as [|g gs2].
  { simpl. exists hl, rs. by rewrite app_nil_r. }
  rewrite Forall_app, Forall_cons in Hgs. destruct Hgs as (_ & Hg & Hgs2). rewrite concat_app, bind_app in Hmax. simpl in Hmax. rewrite bind_app in Hmax.
  pose proof (group_token g Hg) as Ht. set (t := group_text false true g) in *.
  set (r := if decide (gs2 = []) then [] else c_comma :: text gs2).
  assert (Etext : text (g :: gs2) = t ++ r).
  { unfold r. case_decide as E; [subst; simpl; by rewrite app_nil_r|]. unfold text. cbn [fmap list_fmap]. by rewrite commas_cons by (by destruct gs2). }
  assert (Hr : token_stop r) by (unfold r; case_decide; [by left|right; by eexists]).
  assert (Hd : drop_run (is_sep sep) r = text gs2).
  { unfold r. case_decide as E; [by subst|]. change (drop_run (is_sep sep) (c_comma :: text gs2)) with (drop_run (is_sep sep) (text gs2)).
    destruct gs2 as [|g2 gs3]; [done|]. apply Forall_cons in Hgs2 as [Hg2 _]. pose proof (group_token g2 Hg2) as Ht2. unfold text. cbn [fmap list_fmap].
    destruct gs3 as [|g3 gs3]; [rewrite <-(app_nil_r (commas _)); by apply token_first|]. rewrite commas_cons by done. by apply token_first. }
  rewrite Etext, (next_tok_spec t r Ht Hr), Hd. cbn [mbind exec_bind].
  apply wp_bind. eapply wp_mono; [apply (read_group fuel g cap hl rs); [done|done|done|rewrite Er; rewrite !length_app in *; lia]|].
  intros x (cap' & hl' & rs' & -> & Hcap' & R' & Er' & Sr'). apply wp_ret. split.
  - exists (gs1 ++ [g]), gs2, rs'. rewrite <-app_assoc. split_and!; try (done || lia).
    { rewrite Er', Er, concat_app, bind_app. simpl. by rewrite app_nil_r. }
    intros S Sg. rewrite concat_app in Sg. simpl in Sg. rewrite app_nil_r, Forall_app in Sg. destruct Sg as [Sg1 Sg2]. by apply Sr'; [apply Sr|].
  - destruct (token_first t r Ht) as [Hne _]. unfold r. rewrite length_app. destruct t; [done|]. case_decide; subst; simpl; lia.
Qed.
End push_group.

(** ** Leading zeros in front of the brackets *)

(** A range whose first [z] zeros are part of the prefix. *)
Definition shift_pad (z : Z) (h : hostrange) : hostrange :=
  Hostrange (hr_prefix h ++ (if z =? 0 then [] else fmt_lu z 0)) (hr_lo h) (hr_hi h) (hr_width h - z) (hr_singlehost h).

(** All numbers of the range have [z] zeros to spare. *)
Definition spare (z : Z) (h : hostrange) : Prop := z = 0 \/ 0 < z <= hr_width h - dg (hr_hi h) /\ hr_singlehost h = false.

Lemma fmt_lu_zeros z : 0 < z -> fmt_lu z 0 = replicate (Z.to_nat z) 48.
Proof.
  intros Hz. rewrite fmt_lu_dec, dec_lt10 by lia. simpl. replace (Z.to_nat z) with (S (Z.to_nat z - 1)) at 2 by lia.
  by rewrite replicate_S_end.
Qed.

Lemma fmt_lu_shift z w n : 0 < z <= w - dg n -> fmt_lu z 0 ++ fmt_lu (w - z) n = fmt_lu w n.
Proof.
  intros Hz. rewrite fmt_lu_zeros, !fmt_lu_dec, app_assoc, <-replicate_add by lia. unfold dg in Hz. do 2 f_equal. lia.
Qed.

Lemma shift_pad_wf z h : range_wf h -> spare z h -> range_wf (shift_pad z h).
Proof.
  intros [Hp Hs Hl Hh Hw] Hz. split; simpl; try done.
  - apply Forall_app. split; [done|]. case_match; [done|]. apply digits_are_plain. by apply fmt_lu_digits.
  - intros E. destruct Hz as [->|[_ E']]; [|congruence]. rewrite Z.sub_0_r. by apply Hs.
  - pose proof (dg_pos (hr_hi h)). destruct Hz; lia.
Qed.

Lemma shift_pad_hosts z h : range_wf h -> spare z h -> range_hosts (shift_pad z h) = range_hosts h.
Proof.
  intros W [->|[Hz Es]]; unfold range_hosts, shift_pad; simpl; [by rewrite app_nil_r, Z.sub_0_r|]. rewrite Es, (proj2 (Z.eqb_neq z 0)) by lia.
  apply list_fmap_ext. intros i n Hn. apply lookup_seqZ in Hn as [-> Hi]. unfold host_name. rewrite <-app_assoc, fmt_lu_shift; [done|].
  pose proof (rw_lo _ W). pose proof (rw_hi _ W). pose proof (dg_mono (hr_hi h) ltac:(lia) (hr_lo h + Z.of_nat i) ltac:(lia)). lia.
Qed.

Lemma shift_pad_bind z l : Forall range_wf l -> Forall (spare z) l -> (shift_pad z <$> l) ≫= range_hosts = l ≫= range_hosts.
Proof.
  intros W Hs. induction l as [|x l IH]; [done|]. apply Forall_cons in W as [Wx W], Hs as [Hx Hs]. cbn [fmap list_fmap mbind list_bind] in *.
  by rewrite IH, shift_pad_hosts.
Qed.

Lemma shift_pad_text z h : range_wf h -> spare z h -> num_text 0 (shift_pad z h) = num_text z h.
Proof.
  intros W Hz. unfold num_text. simpl. destruct (hr_singlehost h) eqn:Es; [done|]. pose proof (dg_pos (hr_hi h)). pose proof (rw_lo _ W). pose proof (rw_hi _ W).
  pose proof (rw_width _ W). assert (0 <= z <= hr_width h) by (destruct Hz; lia).
  rewrite (proj2 (Z.ltb_ge (hr_width h - z) 0)), (proj2 (Z.ltb_ge z 0)), (proj2 (Z.ltb_ge (hr_width h) z)) by lia. simpl.
  by rewrite Z.sub_0_r.
Qed.

Lemma group_text_shift cray g : Forall range_wf g -> Forall (spare (group_pad cray g)) g ->
  group_text cray true g = group_text false true (shift_pad (group_pad cray g) <$> g).
Proof.
  intros W Hs. rewrite group_text_0. unfold group_text. set (z := group_pad cray g) in *.
  assert (En : needs_brackets (shift_pad z <$> g) = needs_brackets g).
  { destruct g as [|h g]; [done|]. unfold needs_brackets. simpl. f_equal. by destruct g. }
  assert (Et : num_text 0 <$> (shift_pad z <$> g) = num_text z <$> g).
  { rewrite <-list_fmap_compose. apply list_fmap_ext. intros i x Hx. rewrite Forall_lookup in W, Hs.
    unfold compose. rewrite shift_pad_text; [done|by eapply W|by eapply Hs]. }
  rewrite En, Et, andb_true_l, app_assoc. f_equal. by destruct g.
Qed.

(** The zeros to spare of a group. *)
Lemma pad_from_le z h g : pad_from z h g <= z.
Proof. revert z h. induction g as [|h' g IH]; intros z h; [done|]. cbn [pad_from]. etransitivity; [apply IH|lia]. Qed.

Lemma pad_from_nonneg z h g : 0 <= z -> 0 <= pad_from z h g.
Proof.
  revert z h. induction g as [|h' g IH]; intros z h Hz; [done|]. cbn [pad_from]. apply IH.
  pose proof (zero_padded_nonneg (hr_hi h') (hr_width h')). case_match; lia.
Qed.

Lemma pad_from_spare z h g : 0 < pad_from z h g -> Forall (fun x => pad_from z h g <= _zero_padded (hr_hi x) (hr_width x)) g.
Proof.
  revert z h. induction g as [|h' g IH]; intros z h Hz; [done|]. cbn [pad_from] in *. apply Forall_cons. split; [|by apply IH].
  match goal with |- pad_from ?z' _ _ <= _ => pose proof (pad_from_le z' h' g) end. case_match; lia.
Qed.

Lemma group_pad_spare cray g : Forall range_wf g -> Forall (spare (group_pad cray g)) g.
Proof.
  intros W. destruct (decide (group_pad cray g = 0)) as [->|Hz]; [apply Forall_forall; by left|].
  assert (Hp : 0 < group_pad cray g /\ Forall (fun x => group_pad cray g <= _zero_padded (hr_hi x) (hr_width x)) g).
  { destruct g as [|h g]; [done|]. unfold group_pad in *. destruct cray; [|done]. pose proof (zero_padded_nonneg (hr_hi h) (hr_width h)) as H0.
    pose proof (pad_from_nonneg _ h g H0). assert (0 < pad_from (_zero_padded (hr_hi h) (hr_width h)) h g) as Hpos by lia.
    split; [done|]. apply Forall_cons. split; [apply pad_from_le|by apply pad_from_spare]. }
  destruct Hp as [Hpos Hp]. apply Forall_forall. intros x Hx. rewrite Forall_forall in W, Hp. specialize (W _ Hx). specialize (Hp _ Hx).
  pose proof (rw_lo _ W). pose proof (rw_hi _ W). rewrite zero_padded_eq in Hp by lia. right. split; [lia|].
  destruct (hr_singlehost x) eqn:Es; [|done]. destruct (rw_single _ W Es) as (_ & Eh & Ew). rewrite Eh, Ew, dg_lt10 in Hp by lia. lia.
Qed.

(** ** Lists that can be read back *)

Record listable (h : hostrange) : Prop := {
  ls_wf : range_wf h;
  ls_clean : clean (hr_prefix h);
  ls_name : hr_singlehost h = true -> hr_prefix h <> [];
  ls_count : hr_hi h - hr_lo h < MAX_RANGE
}.

(** The ranges of a group with several of them have one prefix. *)
Lemma chained_uniform h g : Forall range_wf (h :: g) -> chained (h :: g) ->
  g = [] \/ Forall (fun x => hr_prefix x = hr_prefix h /\ hr_singlehost x = false) (h :: g).
Proof.
  revert h. induction g as [|h' g IH]; intros h W Hc; [by left|]. right. destruct Hc as [Hf Hc]. apply Forall_cons in W as [W W'].
  assert (Hhh : hr_prefix h' = hr_prefix h /\ hr_singlehost h = false /\ hr_singlehost h' = false).
  { unfold follows, hostrange_within_range in Hf. apply andb_true_iff in Hf as [Hf Hs]. apply Z.eqb_eq, prefix_cmp_0 in Hf as [Hf _].
    - apply negb_true_iff, orb_false_iff in Hs as [? ?]. done.
    - apply Forall_cons in W' as [W' _]. apply W'.
    - apply W. }
  destruct Hhh as (E & Es & Es'). apply Forall_cons. split; [done|].
  destruct (IH h' W' Hc) as [->|H]; [by apply Forall_singleton|]. eapply Forall_impl; [exact H|]. simpl. intros x [-> ->]. done.
Qed.

Lemma listable_group cray g : Forall listable g -> g <> [] -> chained g -> Z.of_nat (length g) <= MAX_RANGES ->
  Forall name_ok (g ≫= range_hosts) -> readable_group (shift_pad (group_pad cray g) <$> g).
Proof.
  intros Hl Hne Hc Hlen Hok. destruct g as [|h g]; [done|]. set (z := group_pad cray (h :: g)).
  assert (W : Forall range_wf (h :: g)) by (eapply Forall_impl; [exact Hl|]; by intros x []).
  pose proof (group_pad_spare cray _ W) as Hs. fold z in Hs. pose proof W as W0. apply Forall_cons in W0 as [Wh _].
  pose proof Hl as Hl0. apply Forall_cons in Hl0 as [[_ (Hu & Ho & Hcl) Hne' _] _].
  destruct (hr_singlehost h) eqn:Es.
  - assert (g = []) as ->. { destruct (chained_uniform h g W Hc) as [->|H]; [done|]. apply Forall_cons in H as [[_ ?] _]. congruence. }
    apply Forall_singleton in Hs as [Ez|[_ ?]]; [|congruence]. rewrite Ez. simpl.
    assert (Hp : hr_prefix (shift_pad 0 h) = hr_prefix h) by (apply app_nil_r). cbn [mbind list_bind] in Hok. unfold range_hosts in Hok. rewrite Es in Hok.
    apply Forall_cons in Hok as [Hok _]. apply rg_name; rewrite ?Hp; [|done|done|done|by apply Hne']. rewrite Forall_singleton in W. apply shift_pad_wf; [done|by left].
  - assert (Hu' : Forall (fun x => hr_prefix x = hr_prefix h /\ hr_singlehost x = false) (h :: g)).
    { destruct (chained_uniform h g W Hc) as [->|H]; [by apply Forall_singleton|done]. }
    assert (Hd : all_digits (if z =? 0 then [] else fmt_lu z 0)) by (case_match; [done|by apply fmt_lu_digits]).
    apply (rg_list (hr_prefix h ++ (if z =? 0 then [] else fmt_lu z 0))); [|done| |by rewrite length_fmap|].
    + rewrite Forall_app, !not_elem_of_app. split_and!; try done; [by apply unsplit_digits|by apply digits_not_in..].
    + apply Forall_fmap, Forall_forall. intros x Hx. rewrite Forall_forall in Hu', Hs, W, Hl. destruct (Hu' _ Hx) as [Ep Ex].
      split; simpl; [apply shift_pad_wf; auto|done|by rewrite Ep|by apply Hl].
    + intros _. by rewrite shift_pad_bind.
Qed.

(** The groups of a list, one after the other. *)
Lemma listable_groups cray rs : Forall listable rs -> Z.of_nat (length rs) <= MAX_RANGES -> Forall name_ok (rs ≫= range_hosts) ->
  Forall (fun g => readable_group (shift_pad (group_pad cray g) <$> g) /\ Forall range_wf g) (groups rs).
Proof.
  intros Hl Hlen Hok. assert (H : forall n l, (length l <= n)%nat -> Forall listable l -> Z.of_nat (length l) <= MAX_RANGES ->
    Forall name_ok (l ≫= range_hosts) -> Forall (fun g => readable_group (shift_pad (group_pad cray g) <$> g) /\ Forall range_wf g) (groups l));
    [|by apply (H (length rs))].
  clear. intros n. induction n as [|n IH]; intros l Hn Hl Hlen Hok; [by rewrite (nil_length_inv l) by lia|]. destruct l as [|h l]; [done|].
  destruct (groups_inv h l) as (g & l2 & E & -> & Hc & _). rewrite E in *. rewrite Forall_app in Hl. destruct Hl as [Hlg Hl2].
  rewrite bind_app, Forall_app in Hok. destruct Hok as [Hokg Hok2]. rewrite length_app in Hn, Hlen. simpl in Hn.
  apply Forall_cons. split; [|apply IH; (done || lia)]. split; [|eapply Forall_impl; [exact Hlg|]; by intros x []].
  apply listable_group; (done || lia).
Qed.

Lemma shift_pad_all cray gs : Forall (Forall range_wf) gs ->
  concat ((fun g => shift_pad (group_pad cray g) <$> g) <$> gs) ≫= range_hosts = concat gs ≫= range_hosts /\
  (group_text cray true <$> gs) = (group_text false true <$> ((fun g => shift_pad (group_pad cray g) <$> g) <$> gs)).
Proof.
  induction 1 as [|g gs W Hgs [IH1 IH2]]; [done|]. cbn [fmap list_fmap concat]. rewrite !bind_app, IH1, IH2. split.
  - f_equal. by apply shift_pad_bind; [|apply group_pad_spare].
  - f_equal. by apply group_text_shift, group_pad_spare.
Qed.

(** What the printing functions write is read back as the same hosts. *)
Lemma create_ranged_text env fuel rs : one_dim env -> Forall listable rs -> Z.of_nat (length rs) <= MAX_RANGES ->
  Forall name_ok (rs ≫= range_hosts) -> Z.of_nat (length (rs ≫= range_hosts)) <= i32_max ->
  wp (hostlist_create env fuel (ranged_text (is_cray_system env) true rs)) (fun r => exists hl rs', r = Some hl /\
    hl_rep hl rs' /\ rhosts rs' = rs ≫= range_hosts /\ (is_cray_system env = false -> Forall range_std rs -> Forall (fun x => range_std x.2) rs')).
Proof.
  intros E1 Hl Hlen Hok Hmax. pose proof (listable_groups (is_cray_system env) rs Hl Hlen Hok) as H. apply Forall_and in H as [Hr W].
  destruct (shift_pad_all (is_cray_system env) (groups rs) W) as [Eh Et]. rewrite groups_concat in Eh. unfold ranged_text. rewrite Et.
  rewrite <-Eh in Hmax |- *. eapply wp_mono; [apply (create_groups env E1 fuel); [by apply Forall_fmap|done]|].
  intros r (hl & rs' & -> & R & E & S). exists hl, rs'. split_and!; [done..|]. intros Ecray Sd. apply S; [constructor|]. rewrite Ecray.
  assert (Eg : forall gs, (fun g => shift_pad (group_pad false g) <$> g) <$> gs = (fun g => shift_pad 0 <$> g) <$> gs) by (intros gs; apply list_fmap_ext; by intros i [|h g] _).
  rewrite Eg. apply Forall_concat, Forall_fmap. pose proof (groups_concat rs) as Ec. rewrite <-Ec in Sd. apply Forall_concat in Sd.
  eapply Forall_impl; [exact Sd|]. intros g Sg. apply Forall_fmap. eapply Forall_impl; [exact Sg|]. intros h Sh. unfold range_std in *. simpl. by rewrite app_nil_r.
Qed.
