(* ===== verification/HostlistSort.v ===== *)
(** * Sorting host lists: lemmas

    The order of ranges, the merge sort that [qsort] is, removing duplicates and
    splitting ranges that overlap. *)

From Stdlib Require Import Sorting.Sorted.
From S2P Require Import Prelude NatCmp Hostlist HostlistFacts HostlistOps HostlistSeq.

Local Open Scope Z_scope.
Local Open Scope slurm_scope.

(** ** The order of ranges *)

(** By prefix in natural order, hosts without a number first, then by number. *)
Definition keycmp (h1 h2 : hostrange) : Z :=
  let c := hostrange_prefix_cmp (Some h1) (Some h2) in
  if c =? 0 then hr_lo h1 - hr_lo h2 else c.
Definition kle (h1 h2 : hostrange) : Prop := keycmp h1 h2 <= 0.

Lemma prefix_cmp_trans h1 h2 h3 : plain (hr_prefix h1) -> plain (hr_prefix h2) -> plain (hr_prefix h3) ->
  let c12 := hostrange_prefix_cmp (Some h1) (Some h2) in let c23 := hostrange_prefix_cmp (Some h2) (Some h3) in
  c12 <= 0 -> c23 <= 0 -> hostrange_prefix_cmp (Some h1) (Some h3) <= 0 /\ (hostrange_prefix_cmp (Some h1) (Some h3) = 0 -> c12 = 0 /\ c23 = 0).
Proof.
  intros P1 P2 P3. unfold hostrange_prefix_cmp. cbn zeta.
  pose proof (strnatcmp_trans _ _ _ P1 P2 P3) as T. pose proof (strnatcmp_eq _ _ P1 P2) as E12. pose proof (strnatcmp_eq _ _ P2 P3) as E23.
  pose proof (strnatcmp_eq _ _ P1 P3) as E13. pose proof (strnatcmp_anti _ _ P1 P2) as A12.
  destruct (Z.eqb_spec (strnatcmp (hr_prefix h1) (hr_prefix h2)) 0) as [E|E].
  { apply E12 in E. rewrite E in *. destruct (Z.eqb_spec (strnatcmp (hr_prefix h2) (hr_prefix h3)) 0);
      unfold bit; destruct (hr_singlehost h1), (hr_singlehost h2), (hr_singlehost h3); lia. }
  destruct (Z.eqb_spec (strnatcmp (hr_prefix h2) (hr_prefix h3)) 0) as [E'|E'].
  { apply E23 in E'. rewrite <-E' in *. rewrite (proj2 (Z.eqb_neq _ _)) by done. lia. }
  intros H1 H2. specialize (T H1 H2). destruct (Z.eqb_spec (strnatcmp (hr_prefix h1) (hr_prefix h3)) 0) as [E2|E2]; [|lia].
  exfalso. apply E13 in E2. rewrite <-E2 in *. lia.
Qed.

Lemma kle_trans h1 h2 h3 : plain (hr_prefix h1) -> plain (hr_prefix h2) -> plain (hr_prefix h3) -> kle h1 h2 -> kle h2 h3 -> kle h1 h3.
Proof.
  intros P1 P2 P3. unfold kle, keycmp. cbn zeta. pose proof (prefix_cmp_trans h1 h2 h3 P1 P2 P3) as T. cbn zeta in T. revert T.
  generalize (hostrange_prefix_cmp (Some h1) (Some h2)), (hostrange_prefix_cmp (Some h2) (Some h3)), (hostrange_prefix_cmp (Some h1) (Some h3)).
  intros c12 c23 c13 T. destruct (Z.eqb_spec c12 0), (Z.eqb_spec c23 0), (Z.eqb_spec c13 0); lia.
Qed.

Lemma prefix_cmp_anti h1 h2 : plain (hr_prefix h1) -> plain (hr_prefix h2) ->
  hostrange_prefix_cmp (Some h2) (Some h1) = - hostrange_prefix_cmp (Some h1) (Some h2).
Proof.
  intros P1 P2. unfold hostrange_prefix_cmp. cbn zeta. rewrite (strnatcmp_anti (hr_prefix h1)) by done.
  destruct (Z.eqb_spec (strnatcmp (hr_prefix h1) (hr_prefix h2)) 0), (Z.eqb_spec (- strnatcmp (hr_prefix h1) (hr_prefix h2)) 0); lia.
Qed.

Lemma keycmp_anti h1 h2 : plain (hr_prefix h1) -> plain (hr_prefix h2) -> keycmp h2 h1 = - keycmp h1 h2.
Proof.
  intros P1 P2. unfold keycmp. cbn zeta. rewrite (prefix_cmp_anti h1) by done.
  destruct (Z.eqb_spec (hostrange_prefix_cmp (Some h1) (Some h2)) 0), (Z.eqb_spec (- hostrange_prefix_cmp (Some h1) (Some h2)) 0); lia.
Qed.

(** Ranges of one kind are ordered by their first numbers. *)
Lemma keycmp_same h1 h2 : plain (hr_prefix h1) -> kind h1 = kind h2 -> keycmp h1 h2 = hr_lo h1 - hr_lo h2.
Proof.
  intros P E. injection E as E1 E2. unfold keycmp. cbn zeta. rewrite (proj2 (Z.eqb_eq _ _)); [done|].
  apply prefix_cmp_0; [done|by rewrite <-E1|done].
Qed.

(** ** Ranges that are padded in one way *)

(** All numbers after one prefix are printed with one width. *)
Record good (W : cstr -> Z) (h : hostrange) : Prop := {
  gd_wf : range_wf h;
  gd_width : hr_singlehost h = false -> ewidth (hr_width h) (hr_lo h) = ewidth (W (hr_prefix h)) (hr_lo h)
}.

(** A range apart from the choice between equivalent widths. *)
Definition norm (h : hostrange) : hostrange :=
  if hr_singlehost h then h else with_width h (ewidth (hr_width h) (hr_lo h)).

Lemma norm_rewidth h h' : rewidth h h' -> norm h' = norm h.
Proof.
  intros (w & -> & Hs & _ & E). unfold norm. simpl. destruct (hr_singlehost h) eqn:Es; [rewrite Hs by done; by destruct h|].
  unfold with_width. simpl. by rewrite E.
Qed.

Lemma norm_fields h h' : norm h = norm h' -> hr_prefix h = hr_prefix h' /\ hr_lo h = hr_lo h' /\ hr_hi h = hr_hi h' /\ hr_singlehost h = hr_singlehost h'.
Proof.
  assert (F : forall x, (hr_prefix (norm x), hr_lo (norm x), hr_hi (norm x), hr_singlehost (norm x)) = (hr_prefix x, hr_lo x, hr_hi x, hr_singlehost x)).
  { intros x. unfold norm. by destruct (hr_singlehost x) eqn:E; simpl; rewrite E. }
  intros H. pose proof (F h) as F1. rewrite H, F in F1. by injection F1.
Qed.

Lemma norm_hosts h : range_wf h -> range_hosts (norm h) = range_hosts h.
Proof.
  intros W. pose proof (rw_lo _ W). pose proof (rw_hi _ W). unfold norm, range_hosts. destruct (hr_singlehost h) eqn:Es; simpl; rewrite Es; [done|].
  apply list_fmap_ext. intros i n Hn. apply lookup_seqZ in Hn as [-> Hi]. apply host_name_ewidth. unfold ewidth.
  pose proof (dg_mono (hr_lo h + Z.of_nat i) ltac:(lia) (hr_lo h) ltac:(lia)). lia.
Qed.

Lemma good_rewidth W h h' : rewidth h h' -> good W h -> good W h'.
Proof.
  intros R [Hw Hg]. split; [by eapply rewidth_wf|]. destruct R as (w & -> & _ & _ & E). simpl. intros Es. rewrite E. by apply Hg.
Qed.

Lemma combine_good W h1 h2 : good W h1 -> good W h2 -> kind h1 = kind h2 ->
  exists h1' h2', hostrange_width_combine h1 h2 = (true, h1', h2') /\ rewidth h1 h1' /\ rewidth h2 h2' /\ hr_width h1' = hr_width h2'.
Proof.
  intros [W1 G1] [W2 G2] Ek. injection Ek as Ep Es. pose proof (width_combine_spec h1 h2 W1 W2 Es) as H.
  destruct (hostrange_width_combine h1 h2) as [[[] h1'] h2']; [by exists h1', h2'|]. exfalso. destruct H as (_ & _ & N1 & N2).
  destruct (hr_singlehost h1) eqn:E1.
  { destruct (rw_single _ W1 E1) as (_ & _ & Ew1), (rw_single _ W2 (eq_sym Es)) as (_ & _ & Ew2). by rewrite Ew1, Ew2 in N1. }
  specialize (G1 eq_refl). specialize (G2 (eq_sym Es)). rewrite <-Ep in G2.
  pose proof (rw_lo _ W1). pose proof (rw_hi _ W1). pose proof (rw_lo _ W2). pose proof (rw_hi _ W2).
  destruct (Z.le_ge_cases (hr_lo h1) (hr_lo h2)).
  - apply N2. rewrite G2. symmetry. apply (ewidth_mono _ _ (hr_lo h1)); [lia|lia|done].
  - apply N1. rewrite G1. symmetry. apply (ewidth_mono _ _ (hr_lo h2)); [lia|lia|done].
Qed.

Lemma cmp_good W h1 h2 : good W h1 -> good W h2 ->
  exists h1' h2', hostrange_cmp h1 h2 = (keycmp h1 h2, h1', h2') /\ rewidth h1 h1' /\ rewidth h2 h2'.
Proof.
  intros G1 G2. pose proof (gd_wf _ _ G1) as W1. pose proof (gd_wf _ _ G2) as W2. unfold hostrange_cmp, keycmp. cbn zeta.
  destruct (Z.eqb_spec (hostrange_prefix_cmp (Some h1) (Some h2)) 0) as [E|E]; cbn [negb].
  - apply prefix_cmp_0 in E as [Ep Es]; [|apply W1|apply W2].
    destruct (combine_good W h1 h2 G1 G2) as (h1' & h2' & -> & R1 & R2 & _); [unfold kind; by rewrite Ep, Es|].
    exists h1', h2'. split; [|done]. destruct (rewidth_fields _ _ R1) as (_ & -> & _), (rewidth_fields _ _ R2) as (_ & -> & _).
    pose proof (rw_lo _ W1). pose proof (rw_hi _ W1). pose proof (rw_lo _ W2). pose proof (rw_hi _ W2).
    rewrite s32_small; [done|unfold i32_min, i32_max; lia].
  - exists h1, h2. split; [done|]. split; by apply rewidth_refl.
Qed.

Lemma keycmp_norm h1 h1' h2 h2' : norm h1 = norm h1' -> norm h2 = norm h2' -> keycmp h1 h2 = keycmp h1' h2'.
Proof.
  intros E1 E2. apply norm_fields in E1 as (P1 & L1 & _ & S1), E2 as (P2 & L2 & _ & S2).
  unfold keycmp, hostrange_prefix_cmp. by rewrite P1, L1, S1, P2, L2, S2.
Qed.

(** ** Merge sort *)

(** The comparison may change what it compares as long as [f] and the order do
    not see it. *)
Section msort.
Context {A B : Type} (cmp : A -> A -> Z * A * A) (f : A -> B) (P : A -> Prop) (le : A -> A -> Prop).
Hypothesis Hcmp : forall x y, P x -> P y -> exists c x' y', cmp x y = (c, x', y') /\ f x' = f x /\ f y' = f y /\
  P x' /\ P y' /\ (c <= 0 -> le x y) /\ (0 < c -> le y x).
Hypothesis Hle : forall x x' y y', f x = f x' -> f y = f y' -> le x y -> le x' y'.
Hypothesis Htrans : forall x y z, P x -> P y -> P z -> le x y -> le y z -> le x z.

(** [l'] is [l] in another order, sorted. *)
Definition sorts (l l' : list A) : Prop := Forall P l' /\ StronglySorted le l' /\ f <$> l' ≡ₚ f <$> l.

Lemma sorts_bound x l l' : sorts l l' -> Forall (le x) l -> Forall (le x) l'.
Proof.
  intros (_ & _ & Hp) H. rewrite Forall_forall in *. intros z Hz.
  assert (Hf : f z ∈ f <$> l) by (rewrite <-Hp; by apply list_elem_of_fmap_2).
  apply list_elem_of_fmap in Hf as (w & E & Hw). eapply Hle; [done|symmetry; exact E|]. by apply H.
Qed.

Lemma le_head x x' y y' l : f x = f x' -> f y = f y' -> P x -> P y -> Forall P l -> StronglySorted le (y :: l) -> le x y -> Forall (le x') (y' :: l).
Proof.
  intros Ex Ey Px Py Pl Hs Hxy. apply StronglySorted_inv in Hs as [_ Hy]. apply Forall_cons. split; [by eapply Hle|].
  rewrite Forall_forall in *. intros z Hz. eapply (Hle x x' z z); [done|done|]. apply (Htrans x y); auto.
Qed.

Lemma merge_sorts fuel : forall l1 l2, (length l1 + length l2 < fuel)%nat -> Forall P l1 -> Forall P l2 ->
  StronglySorted le l1 -> StronglySorted le l2 -> sorts (l1 ++ l2) (msort_merge cmp fuel l1 l2).
Proof.
  induction fuel as [|fuel IH]; intros l1 l2 Hf P1 P2 S1 S2; [lia|]. cbn [msort_merge].
  destruct l1 as [|x l1]; [done|]. destruct l2 as [|y l2]; [rewrite app_nil_r; done|].
  pose proof P1 as P1'. pose proof P2 as P2'. apply Forall_cons in P1' as [Px P1'], P2' as [Py P2'].
  destruct (Hcmp x y Px Py) as (c & x' & y' & -> & Ex & Ey & Px' & Py' & Hc1 & Hc2). simpl in Hf.
  pose proof (StronglySorted_inv S1) as [S1' Hx]. pose proof (StronglySorted_inv S2) as [S2' Hy].
  assert (Sx : StronglySorted le (x' :: l1)) by (constructor; [done|]; eapply Forall_impl; [exact Hx|]; intros z Hz; by eapply Hle).
  assert (Sy : StronglySorted le (y' :: l2)) by (constructor; [done|]; eapply Forall_impl; [exact Hy|]; intros z Hz; by eapply Hle).
  destruct (Z.leb_spec c 0) as [Hc|Hc].
  - assert (S : sorts (l1 ++ y' :: l2) (msort_merge cmp fuel l1 (y' :: l2))).
    { apply IH; [simpl; lia|done|by apply Forall_cons|done|done]. }
    split; [apply Forall_cons; split; [done|apply S]|]. split.
    + constructor; [apply S|]. eapply sorts_bound; [exact S|]. apply Forall_app. split.
      * eapply Forall_impl; [exact Hx|]. intros z Hz. by eapply Hle.
      * by apply (le_head x x' y y'); auto.
    + cbn [fmap list_fmap app]. rewrite Ex. constructor. destruct S as (_ & _ & Hp). rewrite Hp, !fmap_app. cbn [fmap list_fmap]. by rewrite Ey.
  - assert (S : sorts ((x' :: l1) ++ l2) (msort_merge cmp fuel (x' :: l1) l2)).
    { apply IH; [simpl; lia|by apply Forall_cons|done|done|done]. }
    split; [apply Forall_cons; split; [done|apply S]|]. split.
    + constructor; [apply S|]. eapply sorts_bound; [exact S|]. apply Forall_app. split.
      * by apply (le_head y y' x x'); auto; apply Hc2.
      * eapply Forall_impl; [exact Hy|]. intros z Hz. by eapply Hle.
    + cbn [fmap list_fmap]. rewrite Ey. destruct S as (_ & _ & Hp). rewrite Hp, !fmap_app. cbn [fmap list_fmap app]. rewrite Ex.
      by rewrite <-Permutation_middle, Permutation_swap.
Qed.

Lemma msort_sorts fuel : forall l, (length l <= fuel)%nat -> Forall P l -> sorts l (msort cmp fuel l).
Proof.
  assert (H1 : forall l, (length l <= 1)%nat -> Forall P l -> sorts l l).
  { intros [|x [|y l]] Hl HP; [| |simpl in Hl; lia]; (split; [done|split; [repeat constructor|done]]). }
  induction fuel as [|fuel IH]; intros l Hl HP; cbn [msort]; [apply H1; (done || lia)|].
  destruct (Nat.leb_spec (length l) 1); [by apply H1|]. set (n1 := (length l / 2)%nat).
  assert (Hn : (0 < n1 < length l)%nat). { unfold n1. split; [apply Nat.div_str_pos; lia|apply Nat.div_lt; lia]. }
  destruct (IH (take n1 l)) as (Pa & Sa & Ha); [rewrite length_take; lia|by apply Forall_take|].
  destruct (IH (drop n1 l)) as (Pb & Sb & Hb); [rewrite length_drop; lia|by apply Forall_drop|].
  pose proof (Permutation_length Ha) as La. pose proof (Permutation_length Hb) as Lb. rewrite !length_fmap in La, Lb. rewrite length_take in La. rewrite length_drop in Lb.
  destruct (merge_sorts (S (length l)) (msort cmp fuel (take n1 l)) (msort cmp fuel (drop n1 l))) as (Pm & Sm & Hm); [lia|done..|].
  split; [done|]. split; [done|]. rewrite Hm, fmap_app, Ha, Hb, <-fmap_app, take_drop. done.
Qed.

Lemma qsort_sorts l : Forall P l -> sorts l (qsort cmp l).
Proof. by apply msort_sorts. Qed.
End msort.

(** ** Sorting the ranges of a list *)

Abbreviation rnorm := (fun x : nat * hostrange => (x.1, norm x.2)).
Abbreviation all_good W rs := (Forall (fun x : nat * hostrange => good W x.2) rs).

(** [rs'] has the ranges of [rs] in order. *)
Definition range_sorted (W : cstr -> Z) (rs rs' : rlist) : Prop :=
  sorts rnorm (fun x => good W x.2) (fun x y => kle x.2 y.2) rs rs'.

Lemma qsort_ranges W rs : all_good W rs -> range_sorted W rs (qsort _cmp rs).
Proof.
  apply qsort_sorts.
  - intros [a x] [b y] Gx Gy. simpl in *. destruct (cmp_good W x y Gx Gy) as (x' & y' & E & Rx & Ry).
    exists (keycmp x y), (a, x'), (b, y'). unfold _cmp. simpl. rewrite E. split; [done|].
    rewrite (norm_rewidth _ _ Rx), (norm_rewidth _ _ Ry). split_and!; try done; [by eapply good_rewidth..|].
    intros H. unfold kle. rewrite (keycmp_anti x y); [lia|apply (gd_wf _ _ Gx)|apply (gd_wf _ _ Gy)].
  - intros x x' y y' [= _ Ex] [= _ Ey]. unfold kle. by rewrite (keycmp_norm x.2 x'.2 y.2 y'.2).
  - intros x y z Gx Gy Gz. apply kle_trans; [apply (gd_wf _ _ Gx)|apply (gd_wf _ _ Gy)|apply (gd_wf _ _ Gz)].
Qed.

(** The hosts are the same ones. *)
Lemma sorted_hosts W rs rs' : all_good W rs -> range_sorted W rs rs' -> rhosts rs' ≡ₚ rhosts rs.
Proof.
  intros G (G' & _ & Hp). assert (E : forall l, all_good W l -> rhosts l = (rnorm <$> l) ≫= fun x => range_hosts x.2).
  { induction 1 as [|x l [Wx _] Hl IH]; [done|]. rewrite rhosts_cons, IH. cbn [fmap list_fmap mbind list_bind]. simpl. by rewrite norm_hosts. }
  rewrite (E rs'), (E rs), Hp by done. done.
Qed.

Lemma sorted_ids W rs rs' : range_sorted W rs rs' -> rs'.*1 ≡ₚ rs.*1.
Proof.
  intros (_ & _ & Hp). assert (E : forall l : rlist, l.*1 = (rnorm <$> l).*1) by (intros l; by rewrite <-list_fmap_compose).
  by rewrite (E rs'), (E rs), Hp.
Qed.

Lemma norm_kind h : kind (norm h) = kind h.
Proof. unfold norm, kind. by destruct (hr_singlehost h) eqn:E; simpl; rewrite E. Qed.

Lemma sorted_kinds W rs rs' : range_sorted W rs rs' -> kinds rs' ≡ₚ kinds rs.
Proof.
  intros (_ & _ & Hp). assert (E : forall l : rlist, kinds l = (fun x => kind x.2) <$> (rnorm <$> l)).
  { intros l. rewrite <-list_fmap_compose. apply list_fmap_ext. intros i x _. simpl. by rewrite norm_kind. }
  by rewrite (E rs'), (E rs), Hp.
Qed.

Lemma used_ranges_spec hl rs : hl_arr hl rs -> used_ranges hl = Ret rs.
Proof.
  intros A. unfold used_ranges. rewrite (arr_nranges _ _ A).
  assert (H : forall l1 l2, rs = l1 ++ l2 -> mapM (range_at hl) (seqZ (Z.of_nat (length l1)) (Z.of_nat (length l2))) = Ret l2).
  { intros l1 l2. revert l1. induction l2 as [|x l2 IH]; intros l1 E; [done|].
    assert (seqZ (Z.of_nat (length l1)) (Z.of_nat (length (x :: l2))) =
      Z.of_nat (length l1) :: seqZ (Z.of_nat (length (l1 ++ [x]))) (Z.of_nat (length l2))) as ->.
    { rewrite seqZ_cons by (simpl; lia). rewrite length_app. simpl. f_equal. f_equal; lia. }
    cbn [mapM]. rewrite (IH (l1 ++ [x])) by (by rewrite <-app_assoc). subst rs. by rewrite (arr_range_at A). }
  by apply (H [] rs).
Qed.

Lemma sort_ranges_spec W hl rs : hl_arr hl rs -> all_good W rs ->
  exists rs', sort_ranges hl = Ret (hl_with hl rs') /\ hl_arr (hl_with hl rs') rs' /\ range_sorted W rs rs'.
Proof.
  intros A G. unfold sort_ranges. rewrite (used_ranges_spec _ _ A). pose proof (qsort_ranges W rs G) as S. set (rs' := qsort _cmp rs) in *.
  pose proof (sorted_ids _ _ _ S) as Hi. pose proof (Permutation_length Hi) as Hl. rewrite !length_fmap in Hl. exists rs'. cbn [mbind exec_bind].
  destruct A as [H1 H2 H3 H4 H5 H6]. split; [|split; [split; simpl; rewrite ?Hl; try done|done]].
  - f_equal. unfold with_ranges, hl_with. rewrite H2, Hl. f_equal. rewrite H1. unfold slots. rewrite Nat2Z.id, drop_app_length' by (by rewrite length_fmap).
    by rewrite Hl.
  - by rewrite Hi.
  - apply (Forall_fmap fst (fun x => (x < _)%nat)). rewrite Hi. by apply Forall_fmap.
Qed.

(** ** Joining neighbours *)

(** All hosts of [h1] come before those of [h2], and they cannot be joined. *)
Definition before (h1 h2 : hostrange) : Prop :=
  hostrange_prefix_cmp (Some h1) (Some h2) < 0 \/
  (kind h1 = kind h2 /\ hr_singlehost h1 = false /\ hr_hi h1 + 1 < hr_lo h2).

(** [h2] starts inside [h1] or just after it. *)
Definition touches (h1 h2 : hostrange) : Prop :=
  kind h1 = kind h2 /\ (hr_singlehost h1 = false -> hr_lo h1 <= hr_lo h2 <= hr_hi h1 + 1).

(** The two as one range. *)
Definition joined (h1 h2 h : hostrange) : Prop :=
  rewidth (with_hi h1 (Z.max (hr_hi h1) (hr_hi h2))) h.

Lemma prefix_cmp_kind h1 h2 : plain (hr_prefix h1) -> plain (hr_prefix h2) ->
  hostrange_prefix_cmp (Some h1) (Some h2) = 0 <-> kind h1 = kind h2.
Proof. intros P1 P2. rewrite prefix_cmp_0 by done. unfold kind. split; [by intros [-> ->]|by intros [= -> ->]]. Qed.

Lemma with_hi_same h : with_hi h (hr_hi h) = h.
Proof. by destruct h. Qed.

Lemma join_spec W h1 h2 : good W h1 -> good W h2 -> kle h1 h2 -> hr_hi h2 - hr_lo h2 + 1 <= i32_max ->
  wp (hostrange_join h1 h2) (fun '(d, h1', h2') => rewidth h2 h2' /\
    if d <? 0 then rewidth h1 h1' /\ before h1 h2
    else touches h1 h2 /\ joined h1 h2 h1' /\
         d = hr_hi h1 - hr_lo h1 + 1 + (hr_hi h2 - hr_lo h2 + 1) - (Z.max (hr_hi h1) (hr_hi h2) - hr_lo h1 + 1)).
Proof.
  intros G1 G2 Hk Hmax. pose proof (gd_wf _ _ G1) as W1. pose proof (gd_wf _ _ G2) as W2. unfold hostrange_join.
  destruct (cmp_good W h1 h2 G1 G2) as (h1a & h2a & -> & R1 & R2). apply wp_assert; [unfold kle in Hk; lia|].
  pose proof (rewidth_wf _ _ R1 W1) as W1a. pose proof (rewidth_wf _ _ R2 W2) as W2a.
  destruct (rewidth_fields _ _ R1) as (P1 & L1 & H1 & S1), (rewidth_fields _ _ R2) as (P2 & L2 & H2 & S2).
  assert (Epc : hostrange_prefix_cmp (Some h1a) (Some h2a) = hostrange_prefix_cmp (Some h1) (Some h2)).
  { unfold hostrange_prefix_cmp. by rewrite P1, P2, S1, S2. }
  rewrite Epc. pose proof (rw_plain _ W1) as Pl1. pose proof (rw_plain _ W2) as Pl2. pose proof (prefix_cmp_kind h1 h2 Pl1 Pl2) as Ek.
  destruct (Z.eqb_spec (hostrange_prefix_cmp (Some h1) (Some h2)) 0) as [E0|E0]; cbn [negb].
  2: { apply wp_ret. split; [done|]. simpl. split; [done|]. left. unfold kle, keycmp in Hk. cbn zeta in Hk. rewrite (proj2 (Z.eqb_neq _ _)) in Hk by done. lia. }
  apply Ek in E0 as Ekk. pose proof (good_rewidth W _ _ R1 G1) as G1a. pose proof (good_rewidth W _ _ R2 G2) as G2a.
  destruct (combine_good W h1a h2a G1a G2a) as (h1b & h2b & -> & R1b & R2b & Ew); [unfold kind in *; congruence|].
  pose proof (rewidth_trans _ _ _ R1 R1b) as T1. pose proof (rewidth_trans _ _ _ R2 R2b) as T2.
  destruct (rewidth_fields _ _ T1) as (P1b & L1b & H1b & S1b), (rewidth_fields _ _ T2) as (P2b & L2b & H2b & S2b).
  assert (Hlo : hr_lo h1 <= hr_lo h2) by (unfold kle in Hk; rewrite (keycmp_same h1 h2) in Hk by done; lia).
  assert (Hm : forall hi, hi = Z.max (hr_hi h1) (hr_hi h2) -> joined h1 h2 (with_hi h1b hi)).
  { intros hi ->. destruct T1 as (w & -> & Hs & Hw & Ew1). exists w. done. }
  assert (Hm' : hr_hi h2 <= hr_hi h1 -> joined h1 h2 h1b).
  { intros Hle. rewrite <-(with_hi_same h1b). apply Hm. lia. }
  cbn [negb]. pose proof (rw_lo _ W1). pose proof (rw_hi _ W1). pose proof (rw_lo _ W2). pose proof (rw_hi _ W2).
  assert (Es : hr_singlehost h1 = hr_singlehost h2) by (unfold kind in Ekk; congruence).
  rewrite S1b, S2b, <-Es. destruct (hr_singlehost h1) eqn:E1; cbn [andb].
  { apply wp_ret. split; [done|]. simpl. destruct (rw_single _ W1 E1) as (Z1 & Z2 & _), (rw_single _ W2 (eq_sym Es)) as (Z3 & Z4 & _).
    split; [split; [done|congruence]|]. split; [apply Hm'; lia|lia]. }
  rewrite H1b, L2b, H2b. assert (Hu : hr_hi h1 = u64 (hr_lo h2 - 1) <-> hr_lo h2 = hr_hi h1 + 1).
  { destruct (decide (hr_lo h2 = 0)) as [E|E]; [|rewrite u64_small; lia]. rewrite E. change (u64 (0 - 1)) with (2 ^ 64 - 1). lia. }
  destruct (Z.eqb_spec (hr_hi h1) (u64 (hr_lo h2 - 1))) as [E2|E2].
  { apply Hu in E2. apply wp_ret. split; [done|]. simpl. split; [split; [done|intros _; lia]|]. split; [apply Hm; lia|lia]. }
  assert (hr_lo h2 <> hr_hi h1 + 1) by (intros E; by apply Hu in E). if_case; [if_case; apply wp_ret; (split; [done|])|].
  - rewrite s32_small by (unfold i32_min, i32_max; lia). rewrite (proj2 (Z.ltb_ge _ 0)) by lia. split; [split; [done|intros _; lia]|]. split; [apply Hm; lia|lia].
  - rewrite (range_count h2b) by (by eapply rewidth_wf). rewrite H2b, L2b, s32_small by (unfold i32_min; lia).
    rewrite (proj2 (Z.ltb_ge _ 0)) by lia. split; [split; [done|intros _; lia]|]. split; [apply Hm'; lia|lia].
  - apply wp_ret. split; [done|]. simpl. split; [done|]. right. split; [done|]. split; [done|lia].
Qed.

(** The hosts of a range by their numbers. *)
Lemma elem_of_good W h s : good W h -> hr_singlehost h = false ->
  s ∈ range_hosts h <-> exists n, hr_lo h <= n <= hr_hi h /\ s = host_name (hr_prefix h) (W (hr_prefix h)) n.
Proof.
  intros [Wf Hg] Es. specialize (Hg Es). pose proof (rw_lo _ Wf). pose proof (rw_hi _ Wf). unfold range_hosts. rewrite Es, list_elem_of_fmap.
  assert (E : forall n, hr_lo h <= n <= hr_hi h -> host_name (hr_prefix h) (hr_width h) n = host_name (hr_prefix h) (W (hr_prefix h)) n).
  { intros n Hn. apply host_name_ewidth, (ewidth_mono _ _ (hr_lo h)); [lia|lia|done]. }
  split; intros (n & H1 & H2).
  - apply elem_of_seqZ in H2. exists n. split; [lia|]. rewrite <-E by lia. done.
  - exists n. rewrite elem_of_seqZ. split; [|lia]. by rewrite E.
Qed.

Lemma joined_spec W h1 h2 h : good W h1 -> good W h2 -> touches h1 h2 -> joined h1 h2 h ->
  good W h /\ kind h = kind h1 /\ hr_lo h = hr_lo h1 /\ (forall s, s ∈ range_hosts h <-> s ∈ range_hosts h1 \/ s ∈ range_hosts h2) /\
  Z.of_nat (length (range_hosts h)) = Z.max (hr_hi h1) (hr_hi h2) - hr_lo h1 + 1.
Proof.
  intros G1 G2 [Ek Ht] J. pose proof (gd_wf _ _ G1) as W1. pose proof (gd_wf _ _ G2) as W2.
  pose proof (rw_lo _ W1). pose proof (rw_hi _ W1). pose proof (rw_lo _ W2). pose proof (rw_hi _ W2). unfold kind in Ek. injection Ek as Ep Es.
  assert (Gm : good W (with_hi h1 (Z.max (hr_hi h1) (hr_hi h2)))).
  { split; [|apply G1]. split; simpl; [apply W1| |lia|lia|apply W1]. intros E.
    destruct (rw_single _ W1 E) as (-> & -> & ->), (rw_single _ W2 ltac:(by rewrite <-Es)) as (_ & -> & _). done. }
  pose proof (good_rewidth W _ _ J Gm) as G. pose proof (gd_wf _ _ Gm) as Wm. destruct (rewidth_fields _ _ J) as (F1 & F2 & F3 & F4). simpl in *.
  split; [done|]. split; [unfold kind; by rewrite F1, F4|]. split; [done|]. split.
  2: { rewrite (length_range_hosts _ (gd_wf _ _ G)). by rewrite F2, F3. }
  intros s. destruct (hr_singlehost h1) eqn:E1.
  { unfold range_hosts. rewrite F4, E1, <-Es, F1, Ep, !list_elem_of_singleton. tauto. }
  rewrite (elem_of_good W h), (elem_of_good W h1), (elem_of_good W h2) by (done || congruence). rewrite F1, F2, F3, <-Ep. split.
  - intros (n & Hn & ->). destruct (decide (n <= hr_hi h1)); [left; exists n; split; [lia|done]|right; exists n; split; [|done]].
    specialize (Ht eq_refl). lia.
  - specialize (Ht eq_refl). intros [(n & Hn & ->)|(n & Hn & ->)]; exists n; (split; [lia|done]).
Qed.

(** [before] only looks at the kind, the start of the second and the end of the
    first range. *)
Lemma before_kle h1 h2 h3 : range_wf h1 -> range_wf h2 -> range_wf h3 -> before h1 h2 -> kle h2 h3 -> before h1 h3.
Proof.
  intros W1 W2 W3 H12 H23. pose proof (rw_plain _ W1) as P1. pose proof (rw_plain _ W2) as P2. pose proof (rw_plain _ W3) as P3.
  assert (H23' : hostrange_prefix_cmp (Some h2) (Some h3) <= 0).
  { unfold kle, keycmp in H23. cbn zeta in H23. destruct (Z.eqb_spec (hostrange_prefix_cmp (Some h2) (Some h3)) 0); lia. }
  pose proof (prefix_cmp_trans h1 h2 h3 P1 P2 P3) as T. cbn zeta in T. destruct H12 as [H12|(Ek & Es & Hlt)].
  - left. destruct T as [Hle Heq]; [lia|done|]. destruct (decide (hostrange_prefix_cmp (Some h1) (Some h3) = 0)) as [E|]; [|lia].
    apply Heq in E. lia.
  - assert (E12 : hostrange_prefix_cmp (Some h1) (Some h2) = 0) by (by apply prefix_cmp_kind).
    destruct (decide (hostrange_prefix_cmp (Some h2) (Some h3) = 0)) as [E|E].
    + right. apply prefix_cmp_kind in E; [|done..]. unfold kle in H23. rewrite (keycmp_same h2 h3) in H23 by done.
      split; [congruence|]. split; [done|lia].
    + left. destruct T as [Hle Heq]; [lia|done|]. destruct (decide (hostrange_prefix_cmp (Some h1) (Some h3) = 0)) as [E'|]; [|lia].
      apply Heq in E'. lia.
Qed.

Lemma before_same h1 h2 h2' : kind h2' = kind h2 -> hr_lo h2' = hr_lo h2 -> before h1 h2 -> before h1 h2'.
Proof.
  intros Ek El [H|(H1 & H2 & H3)].
  - left. unfold hostrange_prefix_cmp in *. unfold kind in Ek. injection Ek as -> ->. done.
  - right. split; [congruence|]. split; [done|lia].
Qed.

Lemma kle_same h1 h1' h2 : kind h1' = kind h1 -> hr_lo h1' = hr_lo h1 -> kle h1 h2 -> kle h1' h2.
Proof. unfold kle, keycmp, hostrange_prefix_cmp, kind. intros [= -> ->] ->. done. Qed.

(** ** Removing duplicates *)

(** The state of the loop: the ranges up to [x] are apart from each other, the
    others are sorted and come after [x]. *)
Record uniq_state (W : cstr -> Z) (rs : rlist) (hl : hostlist) (l1 : rlist) (x : nat * hostrange) (l2 : rlist) : Prop := {
  us_rep : hl_rep hl (l1 ++ x :: l2);
  us_good : all_good W (l1 ++ x :: l2);
  us_before : StronglySorted (fun a b => before a.2 b.2) (l1 ++ [x]);
  us_sorted : StronglySorted (fun a b => kle a.2 b.2) (x :: l2);
  us_hosts : forall s, s ∈ rhosts (l1 ++ x :: l2) <-> s ∈ rhosts rs;
  us_kinds : kinds (l1 ++ x :: l2) ⊆ kinds rs
}.

Lemma rep_int_range hl l1 a h l2 : hl_rep hl (l1 ++ (a, h) :: l2) -> hr_hi h - hr_lo h + 1 <= i32_max.
Proof.
  intros R. pose proof (rep_nhosts _ _ R) as Hn. pose proof (rep_int _ _ R) as Hi. pose proof (rep_wf _ _ R) as W.
  rewrite Forall_app, Forall_cons in W. destruct W as (_ & Wh & _). simpl in Wh. rewrite <-(length_range_hosts _ Wh).
  rewrite rhosts_app, rhosts_cons, !length_app in Hn. simpl in Hn. lia.
Qed.

(** The list with two neighbours of which only the widths may differ. *)
Lemma rep_rewidth2 hl l1 a x x' b y y' l2 : hl_rep hl (l1 ++ (a, x) :: (b, y) :: l2) -> rewidth x x' -> rewidth y y' ->
  hl_rep (hl_with hl (l1 ++ (a, x') :: (b, y') :: l2)) (l1 ++ (a, x') :: (b, y') :: l2).
Proof.
  intros R Rx Ry. destruct (rep_rewidth hl l1 a x x' ((b, y) :: l2) R Rx) as [R1 _].
  assert (R1' : hl_rep (hl_with hl (l1 ++ (a, x') :: (b, y) :: l2)) ((l1 ++ [(a, x')]) ++ (b, y) :: l2)) by (by rewrite <-app_assoc).
  destruct (rep_rewidth _ (l1 ++ [(a, x')]) b y y' l2 R1' Ry) as [R2 _]. rewrite <-app_assoc in R2. exact R2.
Qed.

(** Both ranges of a pair are stored. *)
Section pair.
Context {hl : hostlist} {l1 l2 : rlist} {a b : nat} {x y : hostrange}.

Lemma arr_pair (A : hl_arr hl (l1 ++ (a, x) :: (b, y) :: l2)) i : i = Z.of_nat (length l1) + 1 ->
  range_at hl (i - 1) = Ret (a, x) /\ range_at hl i = Ret (b, y).
Proof.
  intros ->. split; [apply (arr_range_at A); lia|]. rewrite (cons_middle (a, x) l1), app_assoc in A.
  apply (arr_range_at A). rewrite length_app. simpl. lia.
Qed.

Lemma arr_set_pair (A : hl_arr hl (l1 ++ (a, x) :: (b, y) :: l2)) i x' y' : i = Z.of_nat (length l1) + 1 ->
  let rs := l1 ++ (a, x') :: (b, y') :: l2 in
  set_range hl (i - 1) x' = Ret (hl_with hl (l1 ++ (a, x') :: (b, y) :: l2)) /\
  set_range (hl_with hl (l1 ++ (a, x') :: (b, y) :: l2)) i y' = Ret (hl_with hl rs) /\ hl_arr (hl_with hl rs) rs.
Proof.
  intros -> rs. split; [apply (arr_set_range A); lia|]. pose proof (arr_update A x') as A1. simpl in A1.
  assert (A1' : hl_arr (hl_with hl (l1 ++ (a, x') :: (b, y) :: l2)) ((l1 ++ [(a, x')]) ++ (b, y) :: l2)) by (by rewrite <-app_assoc).
  rewrite (arr_set_range A1') by (rewrite length_app; simpl; lia). pose proof (arr_update A1' y') as A2.
  rewrite <-!app_assoc in *. simpl in *. done.
Qed.
End pair.

Lemma attempt_join_spec W hl l1 a x b y l2 : let rs := l1 ++ (a, x) :: (b, y) :: l2 in
  hl_rep hl rs -> good W x -> good W y -> kle x y ->
  wp (_attempt_range_join hl (Z.of_nat (length l1) + 1)) (fun '(d, hl') =>
    if d <? 0 then exists x' y', rewidth x x' /\ rewidth y y' /\ before x y /\ hl_rep hl' (l1 ++ (a, x') :: (b, y') :: l2)
    else exists x', touches x y /\ joined x y x' /\ hl_rep hl' (l1 ++ (a, x') :: l2)).
Proof.
  intros rs R Gx Gy Hk. pose proof (rep_arr _ _ R) as A. unfold _attempt_range_join. apply wp_assert; [lia|].
  pose proof (arr_nranges _ _ A) as Hnr. unfold rs in Hnr. rewrite length_app in Hnr. simpl in Hnr. apply wp_assert; [lia|].
  destruct (arr_pair A (Z.of_nat (length l1) + 1) eq_refl) as [-> ->]. simpl.
  pose proof R as Rb. unfold rs in Rb. rewrite (cons_middle (a, x) l1), app_assoc in Rb. pose proof (rep_int_range _ _ _ _ _ Rb) as Hmax.
  apply wp_bind. eapply wp_mono; [by apply (join_spec W x y)|]. intros [[d x'] y'] [Ry H].
  destruct (arr_set_pair A (Z.of_nat (length l1) + 1) x' y' eq_refl) as (-> & S2 & A2). cbn [mbind exec_bind]. rewrite S2. cbn [mbind exec_bind].
  destruct (Z.ltb_spec d 0) as [Hd|Hd].
  - rewrite (proj2 (Z.leb_gt 0 d)) by lia. apply wp_ret. rewrite (proj2 (Z.ltb_lt d 0)) by lia. destruct H as [Rx Hb]. exists x', y'.
    split_and!; try done. by apply (rep_rewidth2 hl l1 a x x' b y y').
  - rewrite (proj2 (Z.leb_le 0 d)) by lia. destruct H as (Ht & Hj & Hd'). destruct (joined_spec W x y x' Gx Gy Ht Hj) as (Gx' & Ek & El & _ & Hlen).
    assert (A2' : hl_arr (hl_with hl (l1 ++ (a, x') :: (b, y') :: l2)) ((l1 ++ [(a, x')]) ++ (b, y') :: l2)) by (by rewrite <-app_assoc).
    replace (Z.of_nat (length l1) + 1) with (Z.of_nat (length (l1 ++ [(a, x')]))) by (rewrite length_app; simpl; lia).
    rewrite (arr_delete A2') by apply R. apply wp_ret. rewrite (proj2 (Z.ltb_ge d 0)) by lia. exists x'. split; [done|]. split; [done|].
    pose proof (arr_drop_mid _ _ _ _ A2') as A3. rewrite <-app_assoc in *. simpl in A3.
    pose proof (rep_nhosts _ _ R) as Hn. pose proof (rep_wf _ _ R) as Wf. unfold rs in Hn, Wf. rewrite Forall_app, !Forall_cons in Wf. simpl in Wf.
    destruct Wf as (W1 & Wx & Wy & W2). rewrite rhosts_app, !rhosts_cons, !length_app in Hn. simpl in Hn.
    pose proof (length_range_hosts _ Wx). pose proof (length_range_hosts _ Wy). pose proof (rep_int _ _ R). pose proof (rw_lo _ Wx). pose proof (rw_lo _ Wy).
    apply rep_with; [by apply arr_nhosts|rewrite Forall_app, Forall_cons; split_and!; [done|apply Gx'|done]|apply R| |simpl; lia].
    simpl. rewrite rhosts_app, rhosts_cons, !length_app. simpl. lia.
Qed.

Section sorted_app.
Context {A : Type} (R : A -> A -> Prop).

Lemma StronglySorted_snoc l x : StronglySorted R l -> Forall (fun y => R y x) l -> StronglySorted R (l ++ [x]).
Proof.
  induction 1 as [|y l Hs IH Hy]; intros Hx; [repeat constructor|]. apply Forall_cons in Hx as [Hyx Hx]. simpl. constructor; [by apply IH|].
  apply Forall_app. split; [done|by apply Forall_singleton].
Qed.

Lemma StronglySorted_snoc_inv l x : StronglySorted R (l ++ [x]) -> StronglySorted R l /\ Forall (fun y => R y x) l.
Proof.
  induction l as [|y l IH]; intros H; [split; constructor|]. apply StronglySorted_inv in H as [H Hy]. destruct (IH H) as [Hl Hx].
  apply Forall_app in Hy as [Hy Hyx]. rewrite Forall_singleton in Hyx. split; [by constructor|by constructor].
Qed.
End sorted_app.

Lemma rhosts_elem l1 x l2 s : s ∈ rhosts (l1 ++ x :: l2) <-> s ∈ rhosts l1 \/ s ∈ range_hosts x.2 \/ s ∈ rhosts l2.
Proof. rewrite rhosts_app, rhosts_cons, !elem_of_app. tauto. Qed.

(** The pair cannot be joined: go on with the second range. *)
Lemma uniq_step W rs hl hl' l1 a x b y l2 x' y' : uniq_state W rs hl l1 (a, x) ((b, y) :: l2) -> rewidth x x' -> rewidth y y' -> before x y ->
  hl_rep hl' (l1 ++ (a, x') :: (b, y') :: l2) -> uniq_state W rs hl' (l1 ++ [(a, x')]) (b, y') l2.
Proof.
  intros [R G Sb Ss Hh Hk] Rx Ry Hb R'. destruct (rewidth_fields _ _ Rx) as (Px & Lx & Hx & Sx), (rewidth_fields _ _ Ry) as (Py & Ly & Hy & Sy).
  assert (Ekx : kind x' = kind x) by (unfold kind; by rewrite Px, Sx). assert (Eky : kind y' = kind y) by (unfold kind; by rewrite Py, Sy).
  pose proof G as G0. rewrite Forall_app, !Forall_cons in G0. simpl in G0. destruct G0 as (G1 & Gx & Gy & G2).
  apply StronglySorted_snoc_inv in Sb as [Sb1 Hbx]. apply StronglySorted_inv in Ss as [Ss _]. pose proof Ss as Ss'. apply StronglySorted_inv in Ss' as [Ss2 Hky].
  assert (Hb' : before x' y'). { apply (before_same _ y); [done|done|]. destruct Hb as [Hb|Hb]; [left|right].
    - unfold hostrange_prefix_cmp in *. by rewrite Px, Sx.
    - by rewrite Ekx, Sx, Hx. }
  split; rewrite <-?app_assoc; simpl; [done| | | | |].
  - rewrite Forall_app, !Forall_cons. simpl. split_and!; [done|by eapply good_rewidth|by eapply good_rewidth|done].
  - rewrite (app_assoc l1 [(a, x')] [(b, y')] : l1 ++ [(a, x'); (b, y')] = _). assert (Sx1 : StronglySorted (fun a b => before a.2 b.2) (l1 ++ [(a, x')])).
    { apply StronglySorted_snoc; [done|]. eapply Forall_impl; [exact Hbx|]. intros z Hz. simpl. by apply (before_same _ x). }
    apply StronglySorted_snoc; [done|]. apply Forall_app. split; [|by apply Forall_singleton].
    apply StronglySorted_snoc_inv in Sx1 as [_ Hbx']. rewrite Forall_forall in *. intros z Hz. simpl.
    apply (before_kle z.2 x' y'); [apply (G1 _ Hz)|by eapply rewidth_wf; [|apply Gx]|by eapply rewidth_wf; [|apply Gy]|by apply Hbx'|].
    destruct Hb' as [Hb'|(Ek & _ & Hlt)]; unfold kle.
    + unfold keycmp. cbn zeta. rewrite (proj2 (Z.eqb_neq _ _)); lia.
    + pose proof (rewidth_wf _ _ Rx (gd_wf _ _ Gx)) as Wx. rewrite keycmp_same by (done || apply Wx). pose proof (rw_lo _ Wx). lia.
  - constructor; [done|]. eapply Forall_impl; [exact Hky|]. intros z Hz. by apply (kle_same y).
  - intros s. rewrite <-Hh, !rhosts_elem, !rhosts_cons, !elem_of_app. simpl.
    by rewrite (rewidth_hosts _ _ Rx (gd_wf _ _ Gx)), (rewidth_hosts _ _ Ry (gd_wf _ _ Gy)).
  - etransitivity; [|exact Hk]. rewrite !kinds_app. simpl. by rewrite Ekx, Eky.
Qed.

(** The second range becomes part of the first one. *)
Lemma uniq_join W rs hl hl' l1 a x b y l2 x' : uniq_state W rs hl l1 (a, x) ((b, y) :: l2) -> touches x y -> joined x y x' ->
  hl_rep hl' (l1 ++ (a, x') :: l2) -> uniq_state W rs hl' l1 (a, x') l2.
Proof.
  intros [R G Sb Ss Hh Hk] Ht Hj R'. pose proof G as G0. rewrite Forall_app, !Forall_cons in G0. simpl in G0. destruct G0 as (G1 & Gx & Gy & G2).
  destruct (joined_spec W x y x' Gx Gy Ht Hj) as (Gx' & Ek & El & Hs & _).
  apply StronglySorted_snoc_inv in Sb as [Sb1 Hbx]. apply StronglySorted_inv in Ss as [Ss Hkx]. apply StronglySorted_inv in Ss as [Ss _].
  apply Forall_cons in Hkx as [_ Hkx]. split; [done| | | | |].
  - by rewrite Forall_app, Forall_cons.
  - apply StronglySorted_snoc; [done|]. eapply Forall_impl; [exact Hbx|]. intros z Hz. simpl. by apply (before_same _ x).
  - constructor; [done|]. eapply Forall_impl; [exact Hkx|]. intros z Hz. by apply (kle_same x).
  - intros s. rewrite <-Hh, !rhosts_elem, rhosts_cons, elem_of_app. simpl. rewrite Hs. tauto.
  - etransitivity; [|exact Hk]. rewrite !kinds_app. simpl. rewrite Ek. intros k. rewrite !elem_of_app, !elem_of_cons. tauto.
Qed.

Lemma uniq_spec W hl rs : hl_rep hl rs -> all_good W rs -> wp (hostlist_uniq hl) (fun hl' => exists rs',
  hl_rep hl' rs' /\ all_good W rs' /\ StronglySorted (fun a b => before a.2 b.2) rs' /\ (forall s, s ∈ rhosts rs' <-> s ∈ rhosts rs) /\ kinds rs' ⊆ kinds rs).
Proof.
  intros R G. unfold hostlist_uniq. pose proof (rep_arr _ _ R) as A. rewrite (arr_nranges _ _ A). if_case.
  { apply wp_ret. exists rs. split_and!; try done. destruct rs as [|x [|y rs]]; [constructor|repeat constructor|simpl in E; lia]. }
  destruct (sort_ranges_spec W hl rs A G) as (rs1 & -> & A1 & S). pose proof S as (G1 & Ss & _). cbn [mbind exec_bind].
  pose proof (sorted_hosts W rs rs1 G S) as Hp. pose proof (Permutation_length (sorted_ids _ _ _ S)) as Hl. rewrite !length_fmap in Hl.
  assert (R1 : hl_rep (hl_with hl rs1) rs1).
  { apply rep_with; [done|eapply Forall_impl; [exact G1|]; by intros x []|apply R| |apply R]. simpl. rewrite (rep_nhosts _ _ R). by rewrite Hp. }
  destruct rs1 as [|x1 rs1]; [simpl in Hl; lia|]. apply wp_bind.
  apply (wp_loop (fun '(i, hl') => exists l1 x l2, i = Z.of_nat (length l1) + 1 /\ uniq_state W rs hl' l1 x l2)
    (fun '(i, hl') => Z.to_nat (hl_nranges hl' - i)) (fun hl' => exists l1 x, uniq_state W rs hl' l1 x [])).
  - intros [i hl'] (l1 & [a x] & l2 & -> & US). pose proof US as [R' G' Sb Ss' Hh Hk]. pose proof (arr_nranges _ _ (rep_arr _ _ R')) as Hnr.
    rewrite length_app in Hnr. simpl in Hnr. destruct l2 as [|[b y] l2].
    { simpl in Hnr. rewrite (proj2 (Z.ltb_ge _ _)) by lia. apply wp_ret. by exists l1, (a, x). }
    simpl in Hnr. rewrite (proj2 (Z.ltb_lt _ _)) by lia. apply wp_bind. rewrite Forall_app, !Forall_cons in G'. simpl in G'. destruct G' as (_ & Gx & Gy & _).
    apply StronglySorted_inv in Ss' as [_ Hkx]. apply Forall_cons in Hkx as [Hkx _].
    eapply wp_mono; [by apply (attempt_join_spec W hl' l1 a x b y l2)|]. intros [d hl2] H. apply wp_ret. destruct (d <? 0).
    + destruct H as (x' & y' & Rx & Ry & Hb & R2). pose proof (arr_nranges _ _ (rep_arr _ _ R2)) as Hnr2. rewrite length_app in Hnr2. simpl in Hnr2. split; [|lia].
      exists (l1 ++ [(a, x')]), (b, y'), l2. split; [rewrite length_app; simpl; lia|]. by apply (uniq_step W rs hl' hl2 l1 a x b y l2 x' y').
    + destruct H as (x' & Ht & Hj & R2). pose proof (arr_nranges _ _ (rep_arr _ _ R2)) as Hnr2. rewrite length_app in Hnr2. simpl in Hnr2. split; [|lia].
      exists l1, (a, x'), l2. split; [done|]. by apply (uniq_join W rs hl' hl2 l1 a x b y l2 x').
  - exists [], x1, rs1. split; [done|]. split; [done|done|repeat constructor|done|intros s; by rewrite Hp|]. intros k. by rewrite (sorted_kinds _ _ _ S).
  - unfold uniq_fuel. simpl. lia.
  - intros hl' (l1 & x & [R' G' Sb _ Hh Hk]). unfold reset_iterators, for_iterators. rewrite (rep_iter _ _ R'). simpl.
    exists (l1 ++ [x]). split_and!; try done. destruct R' as [A' ? ? ? Hil]. destruct hl'. simpl in *. by subst.
Qed.
