(* ===== verification/HostlistCoalesce.v ===== *)
(** * Splitting overlapping ranges: lemmas

    [hostlist_coalesce] splits the ranges of a sorted list until no two of them
    overlap, and terminates; [hostlist_collapse] joins what follows each other. *)

From Stdlib Require Import Sorting.Sorted.
From S2P Require Import Prelude NatCmp Hostlist HostlistFacts HostlistOps HostlistSeq HostlistSort.

Local Open Scope Z_scope.
Local Open Scope slurm_scope.

(** ** Splitting two ranges *)

(** The hosts of [h1] are not after those of [h2]. *)
Definition upto (h1 h2 : hostrange) : Prop :=
  hostrange_prefix_cmp (Some h1) (Some h2) < 0 \/ (kind h1 = kind h2 /\ hr_hi h1 <= hr_lo h2).

Lemma intersect_spec W h1 h2 : good W h1 -> good W h2 -> kle h1 h2 ->
  wp (hostrange_intersect h1 h2) (fun '(new, h1', h2') => rewidth h1 h1' /\ rewidth h2 h2' /\
    match new with
    | None => upto h1 h2
    | Some new => kind h1 = kind h2 /\ hr_singlehost h1 = false /\ hr_lo h1 <= hr_lo h2 < hr_hi h1 /\
        new = with_hi (with_lo h1' (hr_lo h2)) (Z.min (hr_hi h1) (hr_hi h2))
    end).
Proof.
  intros G1 G2 Hk. pose proof (gd_wf _ _ G1) as W1. pose proof (gd_wf _ _ G2) as W2. pose proof (rw_plain _ W1) as P1. pose proof (rw_plain _ W2) as P2.
  pose proof (prefix_cmp_kind h1 h2 P1 P2) as Ek. unfold hostrange_intersect.
  assert (Hk' : hostrange_prefix_cmp (Some h1) (Some h2) < 0 \/ (kind h1 = kind h2 /\ hr_lo h1 <= hr_lo h2)).
  { unfold kle in Hk. destruct (decide (hostrange_prefix_cmp (Some h1) (Some h2) = 0)) as [E|E].
    - right. apply Ek in E. rewrite keycmp_same in Hk by done. split; [done|lia].
    - left. unfold keycmp in Hk. cbn zeta in Hk. rewrite (proj2 (Z.eqb_neq _ _)) in Hk by done. lia. }
  destruct (hr_singlehost h1 || hr_singlehost h2) eqn:Es.
  { apply wp_ret. split; [by apply rewidth_refl|]. split; [by apply rewidth_refl|]. destruct Hk' as [?|[E Hlo]]; [by left|right]. split; [done|].
    unfold kind in E. injection E as _ E. assert (E1 : hr_singlehost h1 = true) by (apply orb_true_iff in Es as [?|?]; congruence).
    destruct (rw_single _ W1 E1) as (_ & -> & _), (rw_single _ W2 ltac:(congruence)) as (-> & _). done. }
  apply orb_false_iff in Es as [Es1 Es2]. destruct (cmp_good W h1 h2 G1 G2) as (h1a & h2a & -> & R1 & R2). apply wp_assert; [unfold kle in Hk; lia|].
  destruct (rewidth_fields _ _ R1) as (Q1 & L1 & H1 & S1), (rewidth_fields _ _ R2) as (Q2 & L2 & H2 & S2).
  assert (Epc : hostrange_prefix_cmp (Some h1a) (Some h2a) = hostrange_prefix_cmp (Some h1) (Some h2)).
  { unfold hostrange_prefix_cmp. by rewrite Q1, Q2, S1, S2. }
  rewrite Epc, L2, H1. if_case.
  { apply wp_ret. split; [done|]. split; [done|]. apply negb_true_iff, andb_false_iff in E. destruct Hk' as [?|[Ekk Hlo]]; [by left|right]. split; [done|].
    apply Ek in Ekk. rewrite Ekk in E. destruct E as [E%Z.ltb_ge|E]; [done|done]. }
  apply negb_false_iff, andb_true_iff in E as [E%Z.ltb_lt E0%Z.eqb_eq]. apply Ek in E0 as Ekk. destruct Hk' as [?|[_ Hlo]]; [lia|].
  destruct (combine_good W h1a h2a) as (h1b & h2b & -> & R1b & R2b & _); [by eapply good_rewidth..|unfold kind in *; congruence|].
  cbn [negb]. apply wp_ret. pose proof (rewidth_trans _ _ _ R1 R1b) as T1. pose proof (rewidth_trans _ _ _ R2 R2b) as T2.
  split; [done|]. split; [done|]. split; [done|]. split; [done|]. split; [lia|].
  destruct (rewidth_fields _ _ T1) as (_ & _ & H1b & _), (rewidth_fields _ _ T2) as (_ & L2b & H2b & _).
  rewrite (copy_range h1b) by (by eapply rewidth_wf). rewrite L2b, H1b, H2b. f_equal.
  destruct (Z.ltb_spec (hr_hi h2) (hr_hi h1)); lia.
Qed.

(** ** The hosts put between the two *)

(** The numbers from [c] to [e], each as often as the parts that are left on
    either side lack it. *)
Definition mid_nums (c e n : Z) : list Z := (if c <? n then [n] else []) ++ (if n <? e then [n] else []).
Definition mids (p : cstr) (w c e : Z) (l : list Z) : list hostrange :=
  (fun n => hostrange_create p n n w) <$> (l ≫= mid_nums c e).

Lemma arr_deref hl l1 a h l2 : hl_arr hl (l1 ++ (a, h) :: l2) -> deref hl (Some a) = Ret h.
Proof.
  intros A. unfold deref. cbn [mbind option_bind]. rewrite (arr_hr _ _ A).
  pose proof (arr_ids _ _ A) as Hids. rewrite fmap_app in Hids. apply NoDup_app in Hids as (_ & Hd & _).
  assert (Hf : list_find (fun s => fst <$> s = Some a) (slots (hl_size hl) (l1 ++ (a, h) :: l2)) = Some (length l1, Some (a, h))).
  { apply list_find_Some. split; [apply slots_lookup; by rewrite list_lookup_middle|]. split; [done|]. intros j s Hj Hlt Hs.
    unfold slots in Hj. rewrite lookup_app_l in Hj by (rewrite length_fmap, length_app; simpl; lia).
    rewrite list_lookup_fmap, lookup_app_l in Hj by done. destruct (l1 !! j) as [[b h']|] eqn:Ej; [|done]. injection Hj as <-. simpl in Hs.
    injection Hs as ->. apply (Hd a); [|simpl; by left]. by apply (list_elem_of_fmap_2 fst _ (a, h')), (list_elem_of_lookup_2 _ j). }
  by rewrite Hf.
Qed.

Section spread.
Context (l1 l2 : rlist) (a b : nat) (x y : hostrange).

(** The list with [ins] between the two ranges. *)
Record spread_at (hl : hostlist) (hl0 : hostlist) (ins : rlist) : Prop := {
  sp_arr : hl_arr hl (l1 ++ (a, x) :: ins ++ (b, y) :: l2);
  sp_nhosts : hl_nhosts hl = hl_nhosts hl0;
  sp_iter : hl_ilist hl = []
}.

Lemma spread_insert hl hl0 ins h : spread_at hl hl0 ins -> hr_singlehost h = false ->
  wp (hostlist_insert_range hl h (Z.of_nat (length l1 + 1 + length ins))) (fun '(_, hl') => exists k, spread_at hl' hl0 (ins ++ [(k, h)])).
Proof.
  intros [A Hn Hi] Es. assert (A' : hl_arr hl ((l1 ++ (a, x) :: ins) ++ (b, y) :: l2)) by (by rewrite <-app_assoc).
  replace (Z.of_nat (length l1 + 1 + length ins)) with (Z.of_nat (length (l1 ++ (a, x) :: ins))) by (rewrite length_app; simpl; lia).
  rewrite (arr_insert A') by done. apply wp_ret. exists (hl_fresh hl). destruct (arr_room _ _ A) as (_ & _ & En & Ei & _).
  split; [|simpl; by rewrite En|simpl; by rewrite Ei]. pose proof (arr_add A' (hostrange_copy h)) as A2.
  unfold hostrange_copy in *. rewrite Es in *. assert (E : hostrange_create (hr_prefix h) (hr_lo h) (hr_hi h) (hr_width h) = h) by (destruct h; simpl in *; by subst).
  rewrite E in *. rewrite <-!app_assoc in *. done.
Qed.

Lemma spread_spec fuel hl new : hl_arr hl (l1 ++ (a, x) :: (b, y) :: l2) -> hl_ilist hl = [] ->
  0 <= hr_lo new <= hr_hi new -> hr_hi new < 2 ^ 31 -> hr_hi x = hr_lo new -> hr_lo y = hr_hi new ->
  (Z.to_nat (hr_hi new - hr_lo new + 1) < fuel)%nat ->
  wp (spread fuel (Some a) (Some b) new (Z.of_nat (length l1) + 1) hl) (fun hl' => exists ins, spread_at hl' hl ins /\
    ins.*2 = mids (hr_prefix new) (hr_width new) (hr_lo new) (hr_hi new) (seqZ (hr_lo new) (hr_hi new - hr_lo new + 1))).
Proof.
  intros A Hi Hlo Hhi Ex Ey Hfuel. unfold spread. set (c := hr_lo new) in *. set (e := hr_hi new) in *. apply wp_bind.
  set (p := hr_prefix new). set (w := hr_width new).
  apply (wp_loop (fun '(nw, j, hl') => exists n ins, nw = with_lo new n /\ c <= n <= e + 1 /\ spread_at hl' hl ins /\
      j = Z.of_nat (length l1 + 1 + length ins) /\ ins.*2 = mids p w c e (seqZ c (n - c)))
    (fun '(nw, _, _) => Z.to_nat (e + 1 - hr_lo nw)) (fun '(_, _, hl') => exists ins, spread_at hl' hl ins /\ ins.*2 = mids p w c e (seqZ c (e - c + 1)))).
  - intros [[nw j] hl'] (n & ins & -> & Hn & SP & -> & Ei). simpl. fold e. if_case.
    { apply wp_ret. exists ins. split; [done|]. rewrite Ei. f_equal. f_equal. lia. }
    pose proof (sp_arr _ _ _ SP) as A1. rewrite (arr_deref hl' l1 a x _ A1). simpl. rewrite Ex. fold p w c.
    set (h := hostrange_create p n n w).
    assert (Hstep : forall (t : bool) ins1 hl1, spread_at hl1 hl ins1 -> wp (if t then '(_, hl2) ← hostlist_insert_range hl1 h (Z.of_nat (length l1 + 1 + length ins1));
        Ret (Z.of_nat (length l1 + 1 + length ins1) + 1, hl2) else Ret (Z.of_nat (length l1 + 1 + length ins1), hl1))
      (fun '(j, hl2) => exists ins2, spread_at hl2 hl (ins1 ++ ins2) /\ j = Z.of_nat (length l1 + 1 + length (ins1 ++ ins2)) /\ ins2.*2 = if t then [h] else [])).
    { intros [] ins1 hl1 SP1; [|apply wp_ret; exists []; by rewrite app_nil_r]. apply wp_bind. eapply wp_mono; [by apply (spread_insert hl1 hl ins1 h)|].
      intros [rc hl2] [k SP2]. apply wp_ret. exists [(k, h)]. rewrite length_app. simpl. split; [done|]. split; [lia|done]. }
    apply wp_bind. eapply wp_mono; [by apply (Hstep (c <? n) ins hl')|]. intros [j1 hl1] (i1 & SP1 & -> & E1).
    assert (A2 : hl_arr hl1 ((l1 ++ (a, x) :: ins ++ i1) ++ (b, y) :: l2)) by (rewrite <-app_assoc; apply SP1).
    rewrite (arr_deref hl1 _ b y _ A2). simpl. rewrite Ey. fold e. apply wp_bind. eapply wp_mono; [by apply (Hstep (n <? e) (ins ++ i1) hl1)|].
    intros [j2 hl2] (i2 & SP2 & -> & E2). apply wp_ret. rewrite u64_small by lia. simpl. split; [|lia]. exists (n + 1), ((ins ++ i1) ++ i2).
    split; [done|]. split; [lia|]. split; [done|]. split; [done|]. rewrite !fmap_app, E1, E2, Ei.
    replace (n + 1 - c) with (n - c + 1) by lia. rewrite seqZ_app by lia. unfold mids. rewrite bind_app, fmap_app, <-app_assoc. f_equal.
    replace (c + (n - c)) with n by lia. change (seqZ n 1) with [0 + n]. rewrite Z.add_0_l. cbn [mbind list_bind]. rewrite app_nil_r. unfold mid_nums.
    by destruct (c <? n), (n <? e).
  - exists c, []. split; [by destruct new|]. split; [lia|]. split; [done|]. split; [simpl; lia|]. by rewrite Z.sub_diag.
  - simpl. fold c. lia.
  - intros [[nw j] hl'] H. by apply wp_ret.
Qed.
End spread.

(** ** Splitting keeps the hosts *)

Definition nums (h : hostrange) : list Z := seqZ (hr_lo h) (hr_hi h - hr_lo h + 1).

Lemma good_hosts W h : good W h -> hr_singlehost h = false -> range_hosts h = host_name (hr_prefix h) (W (hr_prefix h)) <$> nums h.
Proof.
  intros [Wf Hg] Es. specialize (Hg Es). pose proof (rw_lo _ Wf). pose proof (rw_hi _ Wf). unfold range_hosts, nums. rewrite Es.
  apply list_fmap_ext. intros i n Hn. apply lookup_seqZ in Hn as [-> Hi]. apply host_name_ewidth, (ewidth_mono _ _ (hr_lo h)); [lia|lia|done].
Qed.

Lemma bind_app_perm {A B : Type} (f g : A -> list B) l : l ≫= (fun x => f x ++ g x) ≡ₚ (l ≫= f) ++ (l ≫= g).
Proof.
  induction l as [|x l IH]; [done|]. cbn [mbind list_bind]. rewrite IH, <-!app_assoc. f_equiv.
  rewrite !app_assoc. f_equiv. apply Permutation_app_comm.
Qed.

Lemma bind_if_all {A : Type} (P : A -> bool) l : Forall (fun x => P x = true) l -> l ≫= (fun x => if P x then [x] else []) = l.
Proof. induction 1 as [|x l Hx Hl IH]; [done|]. cbn [mbind list_bind]. by rewrite Hx, IH. Qed.

Lemma seqZ_all (P : Z -> bool) c k : (forall n, c <= n < c + k -> P n = true) -> Forall (fun x => P x = true) (seqZ c k).
Proof. intros H. apply Forall_forall. intros n Hn%elem_of_seqZ. apply H. lia. Qed.

Lemma mid_nums_perm c e : c <= e -> seqZ c (e - c + 1) ≫= mid_nums c e ≡ₚ seqZ (c + 1) (e - c) ++ seqZ c (e - c).
Proof.
  intros Hce. unfold mid_nums. rewrite bind_app_perm. apply Permutation_app.
  - rewrite seqZ_cons by lia. cbn [mbind list_bind]. rewrite Z.ltb_irrefl. simpl.
    replace (Z.pred (e - c + 1)) with (e - c) by lia. replace (Z.succ c) with (c + 1) by lia.
    rewrite bind_if_all; [done|]. apply seqZ_all. intros n Hn. apply Z.ltb_lt. lia.
  - rewrite seqZ_app by lia. rewrite bind_app, bind_if_all by (apply seqZ_all; intros n Hn; apply Z.ltb_lt; lia).
    replace (c + (e - c)) with e by lia. change (seqZ e 1) with [0 + e]. rewrite Z.add_0_l. cbn [mbind list_bind]. rewrite Z.ltb_irrefl. simpl. by rewrite app_nil_r.
Qed.

Lemma seqZ_rejoin a c b : a <= c <= b + 1 -> seqZ a (c - a) ++ seqZ c (b - c + 1) = seqZ a (b - a + 1).
Proof.
  intros H. replace (b - a + 1) with (c - a + (b - c + 1)) by lia. rewrite (seqZ_app a (c - a)) by lia. by replace (a + (c - a)) with c by lia.
Qed.

(** The numbers of two overlapping ranges. *)
Lemma split_nums a b c d : a <= c < b -> c <= d -> let e := Z.min b d in let m := Z.max b d in
  seqZ a (c - a + 1) ++ (seqZ c (e - c + 1) ≫= mid_nums c e) ++ seqZ e (m - e + 1) ≡ₚ seqZ a (b - a + 1) ++ seqZ c (d - c + 1).
Proof.
  intros Hac Hcd e m. rewrite mid_nums_perm by lia.
  assert (E1 : seqZ a (c - a + 1) ++ seqZ (c + 1) (e - c) = seqZ a (e - a + 1)).
  { rewrite <-(seqZ_rejoin a (c + 1) e) by lia. do 2 f_equal; lia. }
  assert (E2 : seqZ c (e - c) ++ seqZ e (m - e + 1) = seqZ c (m - c + 1)) by (apply seqZ_rejoin; lia).
  rewrite <-!app_assoc, E2, app_assoc, E1. unfold e, m. destruct (Z.le_ge_cases b d).
  - by rewrite Z.min_l, Z.max_r by lia.
  - rewrite Z.min_r, Z.max_l by lia. rewrite <-(seqZ_rejoin c (d + 1) b), <-(seqZ_rejoin a (d + 1) b) by lia.
    replace (d + 1 - c) with (d - c + 1) by lia. replace (d + 1 - a) with (d - a + 1) by lia. rewrite <-!app_assoc. f_equiv. apply Permutation_app_comm.
Qed.

(** Two overlapping ranges and what they are split into. *)
Record split_of (W : cstr -> Z) (x y x2 : hostrange) (ms : list hostrange) (y2 : hostrange) : Prop := {
  so_good : good W x /\ good W y /\ good W x2 /\ Forall (good W) ms /\ good W y2;
  so_kind : kind y = kind x /\ kind x2 = kind x /\ Forall (fun h => kind h = kind x) ms /\ kind y2 = kind x /\ hr_singlehost x = false;
  so_over : hr_lo x <= hr_lo y < hr_hi x /\ hr_lo y <= hr_hi y;
  so_x2 : hr_lo x2 = hr_lo x /\ hr_hi x2 = hr_lo y;
  so_y2 : hr_lo y2 = Z.min (hr_hi x) (hr_hi y) /\ hr_hi y2 = Z.max (hr_hi x) (hr_hi y);
  so_mids : let e := Z.min (hr_hi x) (hr_hi y) in exists w, ms = mids (hr_prefix x) w (hr_lo y) e (seqZ (hr_lo y) (e - hr_lo y + 1))
}.

Lemma mids_nums p w c e l : mids p w c e l ≫= nums = l ≫= mid_nums c e.
Proof.
  unfold mids. rewrite list_fmap_bind. induction (l ≫= mid_nums c e) as [|n k IH]; [done|]. cbn [mbind list_bind].
  unfold nums at 1, compose. simpl. replace (n - n + 1) with 1 by lia. change (seqZ n 1) with [0 + n]. rewrite Z.add_0_l. simpl. f_equal. exact IH.
Qed.

Lemma split_hosts W x y x2 ms y2 : split_of W x y x2 ms y2 ->
  range_hosts x2 ++ (ms ≫= range_hosts) ++ range_hosts y2 ≡ₚ range_hosts x ++ range_hosts y.
Proof.
  intros [(Gx & Gy & Gx2 & Gm & Gy2) (Ky & Kx2 & Km & Ky2 & Es) Ho [Lx2 Hx2] [Ly2 Hy2] [w Em]]. unfold kind in *.
  injection Ky as Py Sy. injection Kx2 as Px2 Sx2. injection Ky2 as Py2 Sy2.
  rewrite (good_hosts W x), (good_hosts W y), (good_hosts W x2), (good_hosts W y2) by (done || congruence). rewrite Py, Px2, Py2.
  assert (Ems : ms ≫= range_hosts = host_name (hr_prefix x) (W (hr_prefix x)) <$> (ms ≫= nums)).
  { clear Em. induction Gm as [|h ms Gh Gm IH]; [done|]. apply Forall_cons in Km as [Kh Km]. injection Kh as Ph Sh.
    cbn [mbind list_bind]. rewrite IH, fmap_app by done. f_equal. rewrite (good_hosts W h) by (done || congruence). by rewrite Ph. }
  rewrite Ems, Em, mids_nums, <-!fmap_app. apply fmap_Permutation. unfold nums. rewrite Lx2, Hx2, Ly2, Hy2.
  apply (split_nums (hr_lo x) (hr_hi x) (hr_lo y) (hr_hi y)); lia.
Qed.

(** ** Splitting makes progress *)

(** The squares of the lengths get smaller, or two ranges that start together
    change places. *)
Definition len2 (h : hostrange) : Z := (hr_hi h - hr_lo h + 1) * (hr_hi h - hr_lo h + 1).
Definition qsum (l : list hostrange) : Z := foldr (fun h s => len2 h + s) 0 l.

Fixpoint inversions (l : list Z) : Z :=
  match l with
  | [] => 0
  | x :: l => Z.of_nat (length (filter (fun y => y < x) l)) + inversions l
  end.

Definition potential (n : Z) (l : list hostrange) : Z := qsum l * (n * n + 1) + inversions (hr_hi <$> l).

Lemma qsum_app l1 l2 : qsum (l1 ++ l2) = qsum l1 + qsum l2.
Proof. induction l1 as [|h l1 IH]; [done|]. simpl. rewrite IH. lia. Qed.

Lemma qsum_nonneg l : 0 <= qsum l.
Proof. induction l as [|h l IH]; [done|]. simpl. unfold len2. pose proof (Z.square_nonneg (hr_hi h - hr_lo h + 1)). lia. Qed.

Lemma qsum_mids p w c e : c <= e -> qsum (mids p w c e (seqZ c (e - c + 1))) = 2 * (e - c).
Proof.
  intros H. pose proof (Permutation_length (mid_nums_perm c e H)) as Hl. rewrite length_app, !length_seqZ in Hl. unfold mids.
  assert (Hq : forall l : list Z, qsum ((fun n => hostrange_create p n n w) <$> l) = Z.of_nat (length l)).
  { induction l as [|n l IH]; [done|]. cbn [fmap list_fmap qsum foldr]. change (foldr (fun h s => len2 h + s) 0 ?l) with (qsum l). rewrite IH.
    unfold len2. simpl. lia. }
  rewrite Hq. lia.
Qed.

Lemma inversions_bound l : 0 <= inversions l <= Z.of_nat (length l) * Z.of_nat (length l).
Proof.
  induction l as [|x l IH]; [done|]. cbn [inversions length]. pose proof (list.length_filter (fun y => y < x) l). nia.
Qed.

Lemma inversions_swap l1 p q l2 : q < p -> inversions (l1 ++ p :: q :: l2) = inversions (l1 ++ q :: p :: l2) + 1.
Proof.
  intros Hlt. induction l1 as [|x l1 IH]; cbn [app inversions].
  - rewrite !filter_cons. rewrite decide_True by done. rewrite decide_False by lia. simpl. lia.
  - rewrite IH. rewrite !list.filter_app, !length_app, !filter_cons. repeat case_decide; simpl; lia.
Qed.

(** The numbers of a split: [u] before, [v] inside and [w] after the part that
    both ranges have. *)
Lemma split_squares W x y x2 ms y2 : split_of W x y x2 ms y2 ->
  qsum (x2 :: ms ++ [y2]) < qsum [x; y] \/
  (qsum (x2 :: ms ++ [y2]) = qsum [x; y] /\ ms = [] /\ hr_hi x2 = hr_hi y /\ hr_hi y2 = hr_hi x /\ hr_hi y < hr_hi x).
Proof.
  intros [_ _ Ho [Lx2 Hx2] [Ly2 Hy2] [w Em]]. cbn zeta in Em. change (qsum (x2 :: ms ++ [y2])) with (len2 x2 + qsum (ms ++ [y2])).
  rewrite qsum_app. change (qsum [y2]) with (len2 y2 + 0). change (qsum [x; y]) with (len2 x + (len2 y + 0)).
  assert (Eq : qsum ms = 2 * (Z.min (hr_hi x) (hr_hi y) - hr_lo y)) by (rewrite Em; apply qsum_mids; lia).
  rewrite Eq. unfold len2. rewrite Lx2, Hx2, Ly2, Hy2. destruct (Z.le_gt_cases (hr_hi x) (hr_hi y)) as [Hle|Hlt].
  - left. rewrite Z.min_l, Z.max_r by lia. nia.
  - rewrite Z.min_r, Z.max_l by lia. destruct (decide (hr_lo x = hr_lo y /\ hr_lo y = hr_hi y)) as [[E1 E2]|Hne].
    + right. split; [nia|]. split; [|lia]. rewrite Em, Z.min_r, E2, Z.sub_diag by lia. unfold mids. change (seqZ (hr_hi y) (0 + 1)) with [0 + hr_hi y].
      rewrite Z.add_0_l. cbn [mbind list_bind]. unfold mid_nums. by rewrite Z.ltb_irrefl.
    + left. assert (0 < hr_hi y - hr_lo y \/ 0 < hr_lo y - hr_lo x) by lia. nia.
Qed.

Lemma split_potential W x y x2 ms y2 l1 l2 n : split_of W x y x2 ms y2 -> 0 <= n ->
  Z.of_nat (length (l1 ++ x2 :: ms ++ y2 :: l2)) <= n -> 
  0 <= potential n (l1 ++ x2 :: ms ++ y2 :: l2) < potential n (l1 ++ x :: y :: l2).
Proof.
  intros S Hn Hl. unfold potential.
  assert (E1 : qsum (l1 ++ x2 :: ms ++ y2 :: l2) = qsum (x2 :: ms ++ [y2]) + qsum (l1 ++ l2)).
  { rewrite !qsum_app. change (qsum (x2 :: ?l)) with (len2 x2 + qsum l). rewrite !qsum_app. change (qsum (y2 :: l2)) with (len2 y2 + qsum l2).
    change (qsum [y2]) with (len2 y2 + 0). lia. }
  assert (E2 : qsum (l1 ++ x :: y :: l2) = qsum [x; y] + qsum (l1 ++ l2)).
  { rewrite !qsum_app. simpl. lia. }
  rewrite E1, E2. pose proof (qsum_nonneg (x2 :: ms ++ [y2])). pose proof (qsum_nonneg (l1 ++ l2)).
  pose proof (inversions_bound (hr_hi <$> l1 ++ x2 :: ms ++ y2 :: l2)) as B1. rewrite length_fmap in B1.
  pose proof (inversions_bound (hr_hi <$> l1 ++ x :: y :: l2)) as B2. set (len := Z.of_nat (length (l1 ++ x2 :: ms ++ y2 :: l2))) in *.
  assert (len * len <= n * n) by nia.
  destruct (split_squares W x y x2 ms y2 S) as [Hlt|(Eq & -> & Ha & Hb & Hc)]; [nia|]. split; [nia|]. rewrite Eq.
  rewrite !fmap_app. simpl. rewrite Ha, Hb, (inversions_swap _ (hr_hi x) (hr_hi y)) by done. nia.
Qed.

(** ** Splitting keeps the order *)

Lemma StronglySorted_app_iff {A : Type} (R : A -> A -> Prop) l1 l2 : StronglySorted R (l1 ++ l2) <->
  StronglySorted R l1 /\ StronglySorted R l2 /\ (forall x y, x ∈ l1 -> y ∈ l2 -> R x y).
Proof.
  induction l1 as [|z l1 IH]; simpl; [split; [intros H; split_and!; [constructor|done|by intros x y ?%not_elem_of_nil]|by intros (_ & ? & _)]|]. split.
  - intros H. apply StronglySorted_inv in H as [H Hz]. apply IH in H as (H1 & H2 & H3). rewrite Forall_app, !Forall_forall in Hz. destruct Hz as [Hz1 Hz2].
    split_and!; [constructor; [done|by apply Forall_forall]|done|]. intros x y [->|Hx]%elem_of_cons Hy; [by apply Hz2|by apply H3].
  - intros (H1 & H2 & H3). apply StronglySorted_inv in H1 as [H1 Hz]. constructor.
    + apply IH. split_and!; [done|done|]. intros x y Hx Hy. apply H3; [by right|done].
    + apply Forall_app. split; [done|]. apply Forall_forall. intros y Hy. apply H3; [by left|done].
Qed.

(** Ranges of one kind are in order when their first numbers are. *)
Lemma sorted_same W k l : Forall (good W) l -> Forall (fun h => kind h = k) l -> StronglySorted (fun a b => hr_lo a <= hr_lo b) l -> StronglySorted kle l.
Proof.
  intros G K S. induction S as [|h l S IH Hh]; [constructor|]. apply Forall_cons in G as [Gh G], K as [Kh K]. constructor; [by apply IH|].
  rewrite Forall_forall in *. intros h' Hh'. unfold kle. rewrite keycmp_same; [specialize (Hh _ Hh'); lia|apply (gd_wf _ _ Gh)|by rewrite Kh, (K _ Hh')].
Qed.

Lemma mids_bounds p w c e l h : Forall (fun n => c <= n <= e) l -> h ∈ mids p w c e l -> c <= hr_lo h <= e /\ hr_hi h = hr_lo h.
Proof.
  intros Hl Hh. apply list_elem_of_fmap in Hh as (n & -> & Hn). apply list_elem_of_bind in Hn as (m & Hn & Hm). rewrite Forall_forall in Hl. specialize (Hl _ Hm).
  unfold mid_nums in Hn. simpl. split; [|done]. apply elem_of_app in Hn as [Hn|Hn]; case_match; apply elem_of_nil in Hn || apply list_elem_of_singleton in Hn; subst; (done || lia).
Qed.

Lemma mids_sorted p w c e l : StronglySorted (fun a b : Z => a <= b) l -> StronglySorted (fun a b => hr_lo a <= hr_lo b) (mids p w c e l).
Proof.
  intros S. unfold mids. assert (H : StronglySorted (fun a b : Z => a <= b) (l ≫= mid_nums c e)).
  { assert (Hin : forall n m, m ∈ mid_nums c e n -> m = n).
    { intros n m. unfold mid_nums. rewrite elem_of_app. intros [H|H]; case_match; by (apply elem_of_nil in H || apply list_elem_of_singleton in H). }
    induction S as [|n l S IH Hn]; [constructor|]. cbn [mbind list_bind]. apply StronglySorted_app_iff. split_and!; [|done|].
    - unfold mid_nums. destruct (c <? n), (n <? e); repeat constructor; lia.
    - intros x y Hx%Hin Hy. apply list_elem_of_bind in Hy as (m & Hy%Hin & Hm). subst. rewrite Forall_forall in Hn. by apply Hn. }
  induction H as [|n l' H IH Hn]; [constructor|]. cbn [fmap list_fmap]. constructor; [done|]. apply Forall_fmap. eapply Forall_impl; [exact Hn|]. done.
Qed.

Lemma seqZ_sorted c k : StronglySorted (fun a b : Z => a <= b) (seqZ c k).
Proof.
  destruct (decide (0 <= k)) as [Hk|Hk]; [|rewrite seqZ_nil by lia; constructor]. revert c. pattern k. apply natlike_ind; [intros c; constructor| |done].
  clear k Hk. intros k Hk IH c. rewrite seqZ_cons by lia. rewrite Z.pred_succ. constructor; [apply IH|].
  apply Forall_forall. intros n Hn%elem_of_seqZ. lia.
Qed.

Lemma split_sorted W x y x2 ms y2 l1 l2 : split_of W x y x2 ms y2 -> Forall (good W) (l1 ++ x :: y :: l2) ->
  StronglySorted kle (l1 ++ x :: y :: l2) -> StronglySorted upto (y :: l2) -> StronglySorted kle (l1 ++ (x2 :: ms ++ [y2]) ++ l2).
Proof.
  intros [(Gx & Gy & Gx2 & Gm & Gy2) (Ky & Kx2 & Km & Ky2 & Es) Ho [Lx2 Hx2] [Ly2 Hy2] [w Em]] G S Su. cbn zeta in Em. set (e := Z.min (hr_hi x) (hr_hi y)) in *.
  pose proof (StronglySorted_inv Su) as [_ Hyz]. rewrite Forall_app, !Forall_cons in G. destruct G as (G1 & _ & _ & G2).
  apply StronglySorted_app_iff in S as (S1 & S2 & S12). apply StronglySorted_inv in S2 as [S2 Hx]. apply StronglySorted_inv in S2 as [S2 _].
  set (mid := x2 :: ms ++ [y2]).
  assert (Hin : forall h, h ∈ mid -> good W h /\ kind h = kind x /\ hr_lo x <= hr_lo h <= e).
  { intros h Hh. unfold mid in Hh. rewrite elem_of_cons, elem_of_app, list_elem_of_singleton in Hh. destruct Hh as [->|[Hh| ->]].
    - split_and!; [done|done|lia|lia].
    - rewrite Forall_forall in Gm, Km. split; [by apply Gm|]. split; [by apply Km|]. rewrite Em in Hh. apply mids_bounds in Hh as [Hh _]; [lia|].
      apply Forall_forall. intros n Hn%elem_of_seqZ. lia.
    - split_and!; [done|done|lia|lia]. }
  apply StronglySorted_app_iff. split_and!; [done| |].
  - apply StronglySorted_app_iff. split_and!; [|done|].
    + apply (sorted_same W (kind x)); [apply Forall_forall; intros h Hh; by apply Hin|apply Forall_forall; intros h Hh; by apply Hin|].
      unfold mid. constructor.
      * apply StronglySorted_app_iff. split_and!; [rewrite Em; apply mids_sorted, seqZ_sorted|repeat constructor|].
        intros h h' Hh ->%list_elem_of_singleton. rewrite Em in Hh. apply mids_bounds in Hh as [Hh _]; [lia|]. apply Forall_forall. intros n Hn%elem_of_seqZ. lia.
      * apply Forall_forall. intros h Hh. rewrite Lx2. apply Hin. by right.
    + intros h z Hh Hz. destruct (Hin h Hh) as (Gh & Kh & Hb). rewrite Forall_forall in Hyz. destruct (Hyz _ Hz) as [Hc|[Kz Hc]]; unfold kle.
      * assert (Hc' : hostrange_prefix_cmp (Some h) (Some z) < 0).
        { unfold hostrange_prefix_cmp, kind in *. injection Ky as Py Sy. injection Kh as Ph Sh. by rewrite Ph, Sh, <-Py, <-Sy. }
        unfold keycmp. cbn zeta. rewrite (proj2 (Z.eqb_neq _ _)); lia.
      * rewrite keycmp_same; [lia|apply (gd_wf _ _ Gh)|congruence].
  - intros v h Hv Hh. rewrite Forall_forall in G1. pose proof (G1 _ Hv) as Gv. apply elem_of_app in Hh as [Hh|Hh]; [|apply S12; [done|do 2 right; done]].
    destruct (Hin h Hh) as (Gh & Kh & Hb). apply (kle_trans v x h); [apply (gd_wf _ _ Gv)|apply (gd_wf _ _ Gx)|apply (gd_wf _ _ Gh)|apply S12; [done|by left]|].
    unfold kle. rewrite keycmp_same; [lia|apply (gd_wf _ _ Gx)|done].
Qed.

Lemma upto_trans h1 h2 h3 : range_wf h1 -> range_wf h2 -> range_wf h3 -> upto h1 h2 -> upto h2 h3 -> upto h1 h3.
Proof.
  intros W1 W2 W3 H12 H23. pose proof (rw_plain _ W1) as P1. pose proof (rw_plain _ W2) as P2. pose proof (rw_plain _ W3) as P3.
  pose proof (prefix_cmp_trans h1 h2 h3 P1 P2 P3) as T. cbn zeta in T.
  assert (Hle : forall a b, plain (hr_prefix a) -> plain (hr_prefix b) -> upto a b -> hostrange_prefix_cmp (Some a) (Some b) <= 0).
  { intros a b Pa Pb [?|[E _]]; [lia|]. apply prefix_cmp_kind in E; [lia|done..]. }
  destruct T as [T1 T2]; [by apply Hle..|]. destruct (decide (hostrange_prefix_cmp (Some h1) (Some h3) = 0)) as [E|E]; [|left; lia].
  destruct (T2 E) as [E1 E2]. right. destruct H12 as [?|[K12 L12]]; [lia|]. destruct H23 as [?|[K23 L23]]; [lia|].
  split; [congruence|]. pose proof (rw_lo _ W2). lia.
Qed.

Lemma upto_rewidth h1 h1' h2 h2' : rewidth h1 h1' -> rewidth h2 h2' -> upto h1 h2 -> upto h1' h2'.
Proof.
  intros R1 R2. destruct (rewidth_fields _ _ R1) as (P1 & L1 & H1 & S1), (rewidth_fields _ _ R2) as (P2 & L2 & H2 & S2).
  unfold upto, kind, hostrange_prefix_cmp. by rewrite P1, H1, S1, P2, L2, S2.
Qed.

(** Sorting does not see the widths. *)
Definition same_norm (h h' : hostrange) : Prop := norm h = norm h'.
#[global] Instance same_norm_refl : Reflexive same_norm.
Proof. done. Qed.

Lemma sorted_norm (R : hostrange -> hostrange -> Prop) :
  (forall a a' b b', same_norm a a' -> same_norm b b' -> R a b -> R a' b') ->
  forall l l', Forall2 same_norm l l' -> StronglySorted R l -> StronglySorted R l'.
Proof.
  intros HR l l' F. induction F as [|x x' l l' Hx F IH]; intros S; [done|]. apply StronglySorted_inv in S as [S Hl]. constructor; [by apply IH|].
  clear IH S. induction F as [|y y' l l' Hy F IH]; [done|]. apply Forall_cons in Hl as [Hxy Hl]. constructor; [by eapply HR|by apply IH].
Qed.

Lemma kle_norm a a' b b' : same_norm a a' -> same_norm b b' -> kle a b -> kle a' b'.
Proof. intros Ha Hb. unfold kle. by rewrite (keycmp_norm a a' b b'). Qed.

Lemma upto_norm a a' b b' : same_norm a a' -> same_norm b b' -> upto a b -> upto a' b'.
Proof.
  intros Ha Hb. apply norm_fields in Ha as (P1 & L1 & H1 & S1), Hb as (P2 & L2 & H2 & S2).
  unfold upto, kind, hostrange_prefix_cmp. by rewrite P1, H1, S1, P2, L2, S2.
Qed.

Lemma potential_nonneg n l : 0 <= potential n l.
Proof.
  unfold potential. pose proof (qsum_nonneg l). pose proof (inversions_bound (hr_hi <$> l)). pose proof (Z.square_nonneg n). nia.
Qed.

Lemma split_at_pair {A : Type} (l : list A) i : (0 < i < length l)%nat -> exists l1 x y l2, l = l1 ++ x :: y :: l2 /\ i = S (length l1).
Proof.
  intros Hi. destruct (lookup_lt_is_Some_2 l (i - 1)) as [x Hx]; [lia|]. destruct (lookup_lt_is_Some_2 l i) as [y Hy]; [lia|].
  exists (take (i - 1) l), x, y, (drop (S i) l). rewrite length_take. split; [|lia].
  rewrite <-(take_drop_middle _ _ _ Hx) at 1. f_equal. f_equal. replace (S (i - 1)) with i by lia. by rewrite (drop_S _ _ _ Hy).
Qed.

(** ** The loop *)

Definition ranges_of (hl : hostlist) : list hostrange := (omap id (hl_hr hl)).*2.

Lemma ranges_of_arr hl rs : hl_arr hl rs -> ranges_of hl = rs.*2.
Proof.
  intros A. unfold ranges_of. rewrite (arr_hr _ _ A). unfold slots. rewrite omap_app.
  assert (E : omap id (replicate (Z.to_nat (hl_size hl) - length rs) (@None (nat * hostrange))) = []) by (by induction (Z.to_nat (hl_size hl) - length rs)%nat).
  rewrite E, app_nil_r. f_equal. clear. induction rs as [|x rs IH]; [done|]. cbn. f_equal. exact IH.
Qed.

(** Parts of a range are padded like the range. *)
Lemma good_part W h lo hi : good W h -> hr_singlehost h = false -> hr_lo h <= lo <= hi -> hi < 2 ^ 31 ->
  good W (hostrange_create (hr_prefix h) lo hi (hr_width h)).
Proof.
  intros [Wf Hg] Es Hlo Hhi. specialize (Hg Es). pose proof (rw_lo _ Wf). split; [split; simpl; [apply Wf|done|lia|done|apply Wf]|].
  intros _. simpl. apply (ewidth_mono _ _ (hr_lo h)); [lia|lia|done].
Qed.

Section coalesce.
Context (W : cstr -> Z) (rs0 : rlist).
Let total := Z.of_nat (length (rhosts rs0)).

(** The list is sorted and the ranges from [i] on do not overlap. *)
Record coalesce_state (i : Z) (hl : hostlist) (rs : rlist) : Prop := {
  cs_rep : hl_rep hl rs;
  cs_good : all_good W rs;
  cs_hosts : rhosts rs ≡ₚ rhosts rs0;
  cs_sorted : StronglySorted kle rs.*2;
  cs_upto : StronglySorted upto (drop (Z.to_nat i) rs.*2);
  cs_kinds : kinds rs ⊆ kinds rs0;
  cs_index : 0 <= i < Z.of_nat (length rs)
}.

Definition coalesce_measure (i : Z) (hl : hostlist) : nat := Z.to_nat (potential total (ranges_of hl) * (total + 1) + i).


Lemma split_of_intersect x x' y y' : good W x -> good W y -> rewidth x x' -> rewidth y y' ->
  kind x = kind y -> hr_singlehost x = false -> hr_lo x <= hr_lo y < hr_hi x ->
  let e := Z.min (hr_hi x) (hr_hi y) in
  split_of W x y (with_hi x' (hr_lo y)) (mids (hr_prefix x) (hr_width x') (hr_lo y) e (seqZ (hr_lo y) (e - hr_lo y + 1)))
    (with_lo (with_hi y' (Z.max (hr_hi x) (hr_hi y))) e).
Proof.
  intros Gx Gy Rx Ry Ek Es Ho e. pose proof (good_rewidth W _ _ Rx Gx) as Gx'. pose proof (good_rewidth W _ _ Ry Gy) as Gy'.
  destruct (rewidth_fields _ _ Rx) as (Px & Lx & Hx & Sx), (rewidth_fields _ _ Ry) as (Py & Ly & Hy & Sy).
  pose proof (gd_wf _ _ Gx) as Wx. pose proof (gd_wf _ _ Gy) as Wy. pose proof (rw_lo _ Wx). pose proof (rw_hi _ Wx). pose proof (rw_lo _ Wy). pose proof (rw_hi _ Wy).
  injection Ek as Ep Esy. assert (E1 : with_hi x' (hr_lo y) = hostrange_create (hr_prefix x') (hr_lo x') (hr_lo y) (hr_width x')) by (unfold with_hi, hostrange_create; f_equal; congruence).
  assert (E2 : with_lo (with_hi y' (Z.max (hr_hi x) (hr_hi y))) e = hostrange_create (hr_prefix y') e (Z.max (hr_hi x) (hr_hi y)) (hr_width y'))
    by (unfold with_lo, with_hi, hostrange_create; simpl; f_equal; congruence).
  rewrite E1, E2. split.
  - split; [done|]. split; [done|]. split; [apply good_part; (congruence || done || lia)|]. split; [|apply good_part; (congruence || done || lia)].
    apply Forall_fmap, Forall_forall. intros n Hn. apply list_elem_of_bind in Hn as (m & Hn & Hm%elem_of_seqZ). unfold compose. rewrite <-Px.
    apply good_part; [done|congruence|unfold mid_nums in Hn; apply elem_of_app in Hn as [Hn|Hn]; case_match; apply elem_of_nil in Hn || apply list_elem_of_singleton in Hn; (done || lia)..].
  - unfold kind. simpl. split; [congruence|]. split; [congruence|]. split; [|split; congruence].
    apply Forall_fmap, Forall_forall. intros n _. unfold compose. simpl. congruence.
  - lia.
  - simpl. lia.
  - simpl. unfold e. lia.
  - simpl. exists (hr_width x'). done.
Qed.

(** The state after a split. *)
Lemma coalesce_split i hl hl' l1 a x b y l2 ins x2 y2 : i = Z.of_nat (length l1) + 1 ->
  coalesce_state i hl (l1 ++ (a, x) :: (b, y) :: l2) -> split_of W x y x2 ins.*2 y2 ->
  spread_at l1 l2 a b x2 y2 hl' hl ins ->
  let rs := l1 ++ (a, x2) :: ins ++ (b, y2) :: l2 in
  coalesce_state (hl_nranges hl' - 1) hl' rs /\ (coalesce_measure (hl_nranges hl' - 1) hl' < coalesce_measure i hl)%nat.
Proof.
  intros Hi [R G Hh Ss Su Hk Hidx] S SP rs. pose proof S as [(_ & _ & Gx2 & Gm & Gy2) (Ky & Kx2 & Km & Ky2 & _) _ _ _ _].
  rewrite !Forall_app, !Forall_cons in G. simpl in G. destruct G as (G1 & Gx & Gy & G2).
  assert (Gm' : all_good W ins) by (by apply (Forall_fmap snd (good W))).
  assert (G' : all_good W rs) by (unfold rs; rewrite Forall_app, Forall_cons, Forall_app, Forall_cons; done).
  assert (Hp : rhosts rs ≡ₚ rhosts (l1 ++ (a, x) :: (b, y) :: l2)).
  { unfold rs. rewrite !rhosts_app, !rhosts_cons, rhosts_app, rhosts_cons. simpl. f_equiv. rewrite !app_assoc. f_equiv. rewrite <-app_assoc.
    assert (Em : rhosts ins = ins.*2 ≫= range_hosts) by (by rewrite list_fmap_bind). rewrite Em. by apply (split_hosts W x y x2 ins.*2 y2). }
  pose proof SP as [A' Hn' Hil']. fold rs in A'. pose proof (arr_nranges _ _ A') as Hnr.
  assert (Wf' : Forall (fun x => range_wf x.2) rs) by (eapply Forall_impl; [exact G'|]; by intros z []).
  assert (R' : hl_rep hl' rs). { apply rep_with; [done|done|done| |rewrite Hn'; apply R]. rewrite Hn', (rep_nhosts _ _ R). by rewrite Hp. }
  assert (Hlen : (0 < length rs)%nat) by (unfold rs; rewrite length_app; simpl; lia).
  assert (Ers : rs.*2 = l1.*2 ++ x2 :: ins.*2 ++ y2 :: l2.*2) by (unfold rs; rewrite fmap_app; cbn [fmap list_fmap]; rewrite fmap_app; done).
  assert (Eold : (l1 ++ (a, x) :: (b, y) :: l2).*2 = l1.*2 ++ x :: y :: l2.*2) by (by rewrite fmap_app).
  assert (Etot : total = Z.of_nat (length (rhosts rs))) by (unfold total; by rewrite Hp, Hh).
  split.
  - split; [done|done|by rewrite Hp| | | |lia].
    + rewrite Ers. rewrite Eold in Ss.
      replace (drop (Z.to_nat i) (l1 ++ (a, x) :: (b, y) :: l2).*2) with (y :: l2.*2) in Su.
      2: { rewrite Eold. replace (Z.to_nat i) with (length (l1.*2 ++ [x])) by (rewrite length_app, length_fmap; simpl; lia).
           by rewrite (app_assoc l1.*2 [x] (y :: l2.*2) : l1.*2 ++ x :: y :: l2.*2 = _), drop_app_length. }
      pose proof (split_sorted W x y x2 ins.*2 y2 l1.*2 l2.*2 S) as H. rewrite <-app_comm_cons, <-app_assoc in H. apply H; [|done|done].
      rewrite Forall_app, !Forall_cons. split_and!; [by apply Forall_fmap|done|done|by apply Forall_fmap].
    + rewrite Hnr. rewrite <-(length_fmap snd). destruct rs.*2 as [|z l _] using rev_ind; [rewrite drop_nil; constructor|].
      rewrite length_app. simpl. replace (Z.to_nat (Z.of_nat (length l + 1) - 1)) with (length l) by lia. rewrite drop_app_length. repeat constructor.
    + etransitivity; [|exact Hk]. unfold rs. intros k. rewrite !kinds_app. simpl. rewrite kinds_app. simpl. rewrite !elem_of_app, !elem_of_cons, elem_of_app, elem_of_cons, Kx2, Ky2.
      intros [?|[?|[Hin|[?|?]]]]; [tauto|tauto| |tauto|tauto]. right. left. apply list_elem_of_fmap in Hin as (z & -> & Hz).
      rewrite Forall_forall in Km. apply Km. by apply list_elem_of_fmap_2.
  - unfold coalesce_measure. rewrite (ranges_of_arr _ _ A'), (ranges_of_arr _ _ (rep_arr _ _ R)), Ers, Eold.
    pose proof (ranges_le_hosts rs Wf') as Hle. rewrite <-(length_fmap snd) in Hle. rewrite Ers in Hle.
    destruct (split_potential W x y x2 ins.*2 y2 l1.*2 l2.*2 total S) as [Hp1 Hp2]; [lia|lia|].
    rewrite Hnr, <-(length_fmap snd), Ers. revert Hp1 Hp2 Hle. rewrite <-Ers, length_fmap.
    generalize (potential total rs.*2), (potential total (l1.*2 ++ x :: y :: l2.*2)). intros p' p0 Hp1 Hp2 Hle.
    assert (Hi' : Z.of_nat (length rs) - 1 < total) by lia.
    assert ((p' + 1) * (total + 1) <= p0 * (total + 1)) by (apply Z.mul_le_mono_nonneg_r; lia).
    assert (0 <= p' * (total + 1)) by (apply Z.mul_nonneg_nonneg; lia).
    apply Z2Nat.inj_lt; lia.
Qed.

(** The pair does not overlap: go on with the one before it. *)
Lemma coalesce_next i hl l1 a x b y l2 x' y' : i = Z.of_nat (length l1) + 1 ->
  coalesce_state i hl (l1 ++ (a, x) :: (b, y) :: l2) -> rewidth x x' -> rewidth y y' -> upto x y ->
  let rs := l1 ++ (a, x') :: (b, y') :: l2 in
  coalesce_state (i - 1) (hl_with hl rs) rs /\ (coalesce_measure (i - 1) (hl_with hl rs) < coalesce_measure i hl)%nat.
Proof.
  intros Hi [R G Hh Ss Su Hk Hidx] Rx Ry Hu rs. pose proof (rep_rewidth2 hl l1 a x x' b y y' l2 R Rx Ry) as R'. fold rs in R'.
  destruct (rewidth_fields _ _ Rx) as (Px & Lx & Hx & Sx), (rewidth_fields _ _ Ry) as (Py & Ly & Hy & Sy).
  assert (Ers : rs.*2 = l1.*2 ++ x' :: y' :: l2.*2) by (unfold rs; by rewrite fmap_app).
  assert (Eold : (l1 ++ (a, x) :: (b, y) :: l2).*2 = l1.*2 ++ x :: y :: l2.*2) by (by rewrite fmap_app).
  rewrite !Forall_app, !Forall_cons in G. simpl in G. destruct G as (G1 & Gx & Gy & G2).
  assert (G' : all_good W rs) by (unfold rs; rewrite !Forall_app, !Forall_cons; simpl; split_and!; [done|by eapply good_rewidth|by eapply good_rewidth|done]).
  assert (Wf : Forall range_wf (x' :: y' :: l2.*2)).
  { assert (Wf : Forall range_wf rs.*2) by (apply Forall_fmap; eapply Forall_impl; [exact G'|]; by intros z []). rewrite Ers, Forall_app in Wf. apply Wf. }
  assert (F : Forall2 same_norm (y :: l2.*2) (y' :: l2.*2)) by (constructor; [symmetry; by apply norm_rewidth|done]).
  rewrite Eold in Ss, Su. replace (Z.to_nat i) with (length (l1.*2 ++ [x])) in Su by (rewrite length_app, length_fmap; simpl; lia).
  rewrite (app_assoc l1.*2 [x] (y :: l2.*2) : l1.*2 ++ x :: y :: l2.*2 = _), drop_app_length in Su.
  pose proof (sorted_norm upto upto_norm _ _ F Su) as Su'. split; [split; [done|done| | | | |]|].
  - rewrite <-Hh. unfold rs. rewrite !rhosts_app, !rhosts_cons. simpl. by rewrite (rewidth_hosts _ _ Rx (gd_wf _ _ Gx)), (rewidth_hosts _ _ Ry (gd_wf _ _ Gy)).
  - rewrite Ers. apply (sorted_norm kle kle_norm (l1.*2 ++ x :: y :: l2.*2)); [|done].
    apply Forall2_app; [done|]. constructor; [symmetry; by apply norm_rewidth|done].
  - rewrite Ers. replace (Z.to_nat (i - 1)) with (length l1.*2) by (rewrite length_fmap; lia). rewrite drop_app_length. constructor; [done|].
    pose proof (upto_rewidth x x' y y' Rx Ry Hu) as Hu'. apply StronglySorted_inv in Su' as [_ Hyz]. apply Forall_cons. split; [done|].
    rewrite !Forall_cons in Wf. destruct Wf as (Wx & Wy & W2). rewrite Forall_forall in Hyz, W2 |- *. intros z Hz. apply (upto_trans x' y' z); auto.
  - etransitivity; [|exact Hk]. unfold rs. rewrite !kinds_app. simpl. unfold kind. by rewrite Px, Sx, Py, Sy.
  - unfold rs. rewrite length_app in *. simpl in *. lia.
  - unfold coalesce_measure. rewrite (ranges_of_arr _ _ (rep_arr _ _ R')), (ranges_of_arr _ _ (rep_arr _ _ R)), Ers, Eold.
    assert (Ep : potential total (l1.*2 ++ x' :: y' :: l2.*2) = potential total (l1.*2 ++ x :: y :: l2.*2)).
    { unfold potential. rewrite !qsum_app, !fmap_app. simpl. unfold len2. by rewrite Hx, Hy, Lx, Ly. }
    rewrite Ep. pose proof (potential_nonneg total (l1.*2 ++ x :: y :: l2.*2)). assert (0 <= total) by (unfold total; lia). apply Z2Nat.inj_lt; nia.
Qed.

Lemma coalesce_step_spec fuel i hl rs : coalesce_state i hl rs -> (S (length (rhosts rs0)) < fuel)%nat ->
  wp (coalesce_step fuel (i, hl)) (fun x => match x with
    | inl (i', hl') => exists rs', coalesce_state i' hl' rs' /\ (coalesce_measure i' hl' < coalesce_measure i hl)%nat
    | inr hl' => hl' = hl /\ StronglySorted upto rs.*2
    end).
Proof.
  intros CS Hfuel. pose proof CS as [R G Hh Ss Su Hk Hidx]. unfold coalesce_step. if_case.
  { apply wp_ret. split; [done|]. by replace (Z.to_nat i) with 0%nat in Su by lia. }
  destruct (split_at_pair rs (Z.to_nat i)) as (l1 & [a x] & [b y] & l2 & -> & Hl1); [lia|]. assert (Hi : i = Z.of_nat (length l1) + 1) by lia.
  pose proof (rep_arr _ _ R) as A. destruct (arr_pair A i Hi) as [-> ->]. simpl.
  pose proof G as G0. rewrite Forall_app, !Forall_cons in G0. simpl in G0. destruct G0 as (_ & Gx & Gy & _).
  assert (Hkxy : kle x y). { rewrite fmap_app in Ss. apply StronglySorted_app_iff in Ss as (_ & Ss & _). apply StronglySorted_inv in Ss as [_ Hx]. by apply Forall_cons in Hx as [Hx _]. }
  apply wp_bind. eapply wp_mono; [by apply (intersect_spec W x y)|]. intros [[new x'] y'] (Rx & Ry & Hnew).
  destruct (arr_set_pair A i x' y' Hi) as (-> & S2 & A2). cbn [mbind exec_bind]. rewrite S2. cbn [mbind exec_bind].
  destruct new as [new|]; [|apply wp_ret; eexists; by apply (coalesce_next i hl l1 a x b y l2 x' y')].
  destruct Hnew as (Ek & Es & Ho & ->). pose proof (split_of_intersect x x' y y' Gx Gy Rx Ry Ek Es Ho) as S. cbn zeta in S.
  destruct (rewidth_fields _ _ Rx) as (Px & Lx & Hx & Sx), (rewidth_fields _ _ Ry) as (Py & Ly & Hy & Sy). simpl.
  pose proof (gd_wf _ _ Gx) as Wx. pose proof (gd_wf _ _ Gy) as Wy. pose proof (rw_lo _ Wx). pose proof (rw_hi _ Wx). pose proof (rw_lo _ Wy). pose proof (rw_hi _ Wy).
  set (e := Z.min (hr_hi x) (hr_hi y)) in *. set (x2 := with_hi x' (hr_lo y)) in *.
  assert (Ey2 : with_lo (if e <? hr_hi x' then with_hi y' (hr_hi x') else y') e = with_lo (with_hi y' (Z.max (hr_hi x) (hr_hi y))) e).
  { rewrite Hx. destruct (Z.ltb_spec e (hr_hi x)); [by rewrite Z.max_l by lia|]. rewrite Z.max_r, <-Hy, with_hi_same by lia. done. }
  rewrite Ey2. set (y2 := with_lo (with_hi y' _) e) in *. destruct (arr_set_pair A2 i x2 y2 Hi) as (S3 & S4 & A4). simpl in *.
  rewrite S3. cbn [mbind exec_bind]. rewrite S4. cbn [mbind exec_bind].
  assert (hostrange_empty x2 = false) as -> by (unfold hostrange_empty, ULONG_MAX; simpl; lia). cbn [mbind exec_bind].
  replace i with (Z.of_nat (length l1) + 1) by done. apply wp_bind.
  assert (Hspan : (Z.to_nat (e - hr_lo y + 1) <= length (rhosts rs0))%nat).
  { rewrite <-(Permutation_length Hh), rhosts_app, !rhosts_cons, !length_app. simpl. pose proof (length_range_hosts _ Wy). lia. }
  eapply wp_mono; [apply (spread_spec l1 l2 a b x2 y2 fuel _ (with_hi (with_lo x' (hr_lo y)) e)); simpl; [exact A4|apply R|lia|lia|done|done|lia]|].
  intros hl' (ins & SP & Eins). simpl in Eins. rewrite Px in Eins. rewrite <-Eins in S. apply wp_ret. exists (l1 ++ (a, x2) :: ins ++ (b, y2) :: l2).
  rewrite <-Hi. apply (coalesce_split i hl hl' l1 a x b y l2 ins x2 y2); [done|done|done|].
  destruct SP as [SA SN SI]. split; [done|by rewrite SN|done].
Qed.

Lemma coalesce_loop_spec fuel i hl rs : coalesce_state i hl rs -> (coalesce_measure i hl < fuel)%nat -> (S (length (rhosts rs0)) < fuel)%nat ->
  wp (loop fuel (coalesce_step fuel) (i, hl)) (fun hl' => exists rs', hl_rep hl' rs' /\ all_good W rs' /\ rhosts rs' ≡ₚ rhosts rs0 /\
    StronglySorted upto rs'.*2 /\ kinds rs' ⊆ kinds rs0).
Proof.
  intros CS Hm Hf. apply (wp_loop (fun '(i, hl) => exists rs, coalesce_state i hl rs) (fun '(i, hl) => coalesce_measure i hl)
    (fun hl' => exists rs', hl_rep hl' rs' /\ all_good W rs' /\ rhosts rs' ≡ₚ rhosts rs0 /\ StronglySorted upto rs'.*2 /\ kinds rs' ⊆ kinds rs0)); [|by exists rs|done|done].
  intros [j hl1] [rs1 CS1]. eapply wp_mono; [by apply coalesce_step_spec|]. intros [[i' hl']|hl'].
  - intros (rs' & CS' & Hlt). split; [by exists rs'|done].
  - intros [-> Su]. destruct CS1. by exists rs1.
Qed.
End coalesce.

(** ** Joining what follows each other *)

Lemma collapse_pair W hl l1 a x b y l2 : let rs := l1 ++ (a, x) :: (b, y) :: l2 in
  hl_rep hl rs -> good W x -> good W y -> kind x = kind y -> hr_hi x = u64 (hr_lo y - 1) ->
  exists x' y', hostrange_width_combine x y = (true, x', y') /\
    wp (hl ← set_range hl (Z.of_nat (length l1) + 1) y';
        hl ← set_range hl (Z.of_nat (length l1)) (with_hi x' (hr_hi y'));
        hostlist_delete_range hl (Z.of_nat (length l1) + 1)) (fun hl' =>
      let rs' := l1 ++ (a, with_hi x' (hr_hi y')) :: l2 in hl_rep hl' rs' /\ good W (with_hi x' (hr_hi y')) /\ rhosts rs' = rhosts rs).
Proof.
  intros rs R Gx Gy Ek Hu. destruct (combine_good W x y Gx Gy Ek) as (x' & y' & E & Rx & Ry & Ew). exists x', y'. split; [done|].
  pose proof (rep_arr _ _ R) as A. assert (A' : hl_arr hl ((l1 ++ [(a, x)]) ++ (b, y) :: l2)) by (by rewrite <-app_assoc).
  rewrite (arr_set_range A') by (rewrite length_app; simpl; lia). cbn [mbind exec_bind fst]. pose proof (arr_update A' y') as A1. simpl in A1. rewrite <-!app_assoc in A1 |- *. simpl in A1 |- *.
  set (x2 := with_hi x' (hr_hi y')). rewrite (arr_set_range A1) by done. cbn [mbind exec_bind fst]. pose proof (arr_update A1 x2) as A2. simpl in A2.
  assert (A2' : hl_arr (hl_with hl (l1 ++ (a, x2) :: (b, y') :: l2)) ((l1 ++ [(a, x2)]) ++ (b, y') :: l2)) by (rewrite <-app_assoc; exact A2).
  change (hl_with (hl_with hl (l1 ++ (a, x) :: (b, y') :: l2)) (l1 ++ (a, x2) :: (b, y') :: l2)) with (hl_with hl (l1 ++ (a, x2) :: (b, y') :: l2)).
  replace (Z.of_nat (length l1) + 1) with (Z.of_nat (length (l1 ++ [(a, x2)]))) by (rewrite length_app; simpl; lia).
  rewrite (arr_delete A2') by apply R. apply wp_ret. pose proof (arr_drop_mid _ _ _ _ A2') as A3. rewrite <-!app_assoc in A3 |- *. simpl in A3 |- *.
  destruct (rewidth_fields _ _ Rx) as (Px & Lx & Hx & Sx), (rewidth_fields _ _ Ry) as (Py & Ly & Hy & Sy).
  pose proof (gd_wf _ _ Gx) as Wx. pose proof (gd_wf _ _ Gy) as Wy. pose proof (rw_lo _ Wx). pose proof (rw_hi _ Wx). pose proof (rw_lo _ Wy). pose proof (rw_hi _ Wy).
  injection Ek as Ep Es. assert (Hlo : hr_lo y = hr_hi x + 1).
  { destruct (decide (hr_lo y = 0)) as [E0|E0]; [rewrite E0 in Hu; change (u64 (0 - 1)) with (2 ^ 64 - 1) in Hu; lia|rewrite u64_small in Hu; lia]. }
  assert (E1 : hr_singlehost x = false). { destruct (hr_singlehost x) eqn:E1; [|done]. destruct (rw_single _ Wx E1) as (_ & Hh & _), (rw_single _ Wy (eq_sym Es)) as (Hl & _). lia. }
  assert (Hj : range_hosts x2 = range_hosts x ++ range_hosts y).
  { unfold x2. rewrite <-(rewidth_hosts _ _ Rx Wx), <-(rewidth_hosts _ _ Ry Wy).
    apply range_hosts_join; try congruence; try lia; by eapply rewidth_wf. }
  assert (G2 : good W x2).
  { pose proof (good_rewidth W _ _ Rx Gx) as Gx'. assert (Ex2 : x2 = hostrange_create (hr_prefix x') (hr_lo x') (hr_hi y') (hr_width x')).
    { unfold x2, with_hi, hostrange_create. f_equal. congruence. }
    rewrite Ex2. apply good_part; [done|congruence|lia|lia]. }
  assert (Eh : rhosts (l1 ++ (a, x2) :: l2) = rhosts rs) by (unfold rs; rewrite !rhosts_app, !rhosts_cons; simpl; by rewrite Hj, <-app_assoc).
  split; [|done]. pose proof (rep_wf _ _ R) as Wf. unfold rs in Wf. rewrite Forall_app, !Forall_cons in Wf. simpl in Wf. destruct Wf as (Wf1 & _ & _ & Wf2).
  apply rep_with; [done|rewrite Forall_app, Forall_cons; split_and!; [done|apply G2|done]|apply R| |apply R].
  rewrite Eh. apply R.
Qed.

Lemma collapse_spec W hl rs : hl_rep hl rs -> all_good W rs -> wp (hostlist_collapse hl) (fun hl' => exists rs',
  hl_rep hl' rs' /\ all_good W rs' /\ rhosts rs' = rhosts rs /\ kinds rs' ⊆ kinds rs).
Proof.
  intros R G. unfold hostlist_collapse. rewrite (arr_nranges _ _ (rep_arr _ _ R)). apply wp_bind.
  eapply (wp_for (fun k '(i, hl') => i = Z.of_nat (length rs) - 1 - k /\ exists rs', hl_rep hl' rs' /\ all_good W rs' /\ rhosts rs' = rhosts rs /\
    kinds rs' ⊆ kinds rs /\ i < Z.of_nat (length rs'))).
  - split; [lia|]. exists rs. split_and!; (done || lia).
  - intros k [i hl'] Hk (Ei & rs' & R' & G' & Hh & Hks & Hlt) _. destruct (split_at_pair rs' (Z.to_nat i)) as (l1 & [a x] & [b y] & l2 & -> & Hl1); [lia|].
    assert (Hi : i = Z.of_nat (length l1) + 1) by lia. pose proof (rep_arr _ _ R') as A. destruct (arr_pair A i Hi) as [-> ->]. simpl.
    pose proof G' as G0. rewrite Forall_app, !Forall_cons in G0. simpl in G0. destruct G0 as (G1 & Gx & Gy & G2).
    rewrite length_app in Hlt. simpl in Hlt. if_case.
    2: { apply wp_ret. split; [lia|]. exists (l1 ++ (a, x) :: (b, y) :: l2). rewrite length_app. simpl. split_and!; (done || lia). }
    apply andb_true_iff in E as [E1%Z.eqb_eq E2%Z.eqb_eq]. apply prefix_cmp_kind in E2; [|apply (gd_wf _ _ Gx)|apply (gd_wf _ _ Gy)].
    destruct (collapse_pair W hl' l1 a x b y l2 R' Gx Gy E2 E1) as (x' & y' & Ec & Hwp). rewrite Ec, Hi.
    replace (Z.of_nat (length l1) + 1 - 1) with (Z.of_nat (length l1)) by lia. apply wp_inv in Hwp as (hl2 & Ewp & R2 & G2' & Hh2).
    destruct (set_range hl' (Z.of_nat (length l1) + 1) y') as [hl3| |]; try done. cbn [mbind exec_bind] in Ewp |- *.
    destruct (set_range hl3 (Z.of_nat (length l1)) (with_hi x' (hr_hi y'))) as [hl4| |]; try done. cbn [mbind exec_bind] in Ewp |- *. rewrite Ewp.
    apply wp_ret. split; [lia|]. exists (l1 ++ (a, with_hi x' (hr_hi y')) :: l2). rewrite length_app. simpl.
    split_and!; [done|by rewrite Forall_app, Forall_cons|by rewrite Hh2| |lia].
    etransitivity; [|exact Hks]. intros q. rewrite !kinds_app. simpl. rewrite !elem_of_app, !elem_of_cons.
    assert (Ekx : kind (with_hi x' (hr_hi y')) = kind x).
    { pose proof (width_combine_spec x y (gd_wf _ _ Gx) (gd_wf _ _ Gy)) as Hc. rewrite Ec in Hc. unfold kind in E2. injection E2 as _ Es.
      destruct (Hc Es) as (Rx & _). destruct (rewidth_fields _ _ Rx) as (Px & _ & _ & Sx). unfold kind. simpl. by rewrite Px, Sx. }
    rewrite Ekx. tauto.
  - intros k [i hl'] Hk (Ei & rs' & R' & G' & Hh & Hks & Hlt) _. apply wp_ret. by exists rs'.
Qed.

(** ** Sorting *)

Lemma qsum_bound l : Forall range_wf l -> qsum l <= Z.of_nat (length (l ≫= range_hosts)) * Z.of_nat (length (l ≫= range_hosts)).
Proof.
  induction 1 as [|h l Wh Wl IH]; [done|]. cbn [qsum foldr mbind list_bind]. change (foldr (fun h s => len2 h + s) 0 l) with (qsum l).
  rewrite length_app. pose proof (length_range_hosts _ Wh) as Hl. unfold len2. rewrite <-Hl. nia.
Qed.

(** Rounds that are enough for a list of [n] hosts. *)
Definition sort_rounds (n : Z) : nat := Z.to_nat ((n * n * (n * n + 1) + n * n) * (n + 1) + n + 2).

Lemma sort_spec W fuel hl rs : hl_rep hl rs -> all_good W rs -> (sort_rounds (Z.of_nat (length (rhosts rs))) <= fuel)%nat ->
  wp (hostlist_sort fuel hl) (fun hl' => exists rs1 rs', hl_rep hl' rs' /\ all_good W rs1 /\ StronglySorted upto rs1.*2 /\ kinds rs1 ⊆ kinds rs /\
    rhosts rs' = rhosts rs1 /\ rhosts rs1 ≡ₚ rhosts rs /\ kinds rs' ⊆ kinds rs).
Proof.
  intros R G Hfuel. unfold hostlist_sort. pose proof (rep_arr _ _ R) as A. rewrite (arr_nranges _ _ A). if_case.
  { apply wp_ret. exists rs, rs. split_and!; try done. destruct rs as [|x [|y rs]]; [constructor|repeat constructor|simpl in E; lia]. }
  destruct (sort_ranges_spec W hl rs A G) as (rs1 & -> & A1 & S). pose proof S as (G1 & Ss & _). cbn [mbind exec_bind].
  pose proof (sorted_hosts W rs rs1 G S) as Hp. pose proof (Permutation_length (sorted_ids _ _ _ S)) as Hl. rewrite !length_fmap in Hl.
  assert (Wf1 : Forall (fun x => range_wf x.2) rs1) by (eapply Forall_impl; [exact G1|]; by intros x []).
  assert (R1 : hl_rep (hl_with hl rs1) rs1).
  { apply rep_with; [done|done|apply R| |apply R]. simpl. rewrite (rep_nhosts _ _ R). by rewrite Hp. }
  unfold reset_iterators, for_iterators. simpl. rewrite (rep_iter _ _ R). cbn [mapM mbind exec_bind mret exec_ret].
  set (hl1 := with_ilist (hl_with hl rs1) []). assert (Ehl1 : hl1 = hl_with hl rs1) by (unfold hl1, with_ilist, hl_with; simpl; by rewrite (rep_iter _ _ R)).
  rewrite Ehl1. clear Ehl1 hl1. unfold hostlist_coalesce.
  pose proof (ranges_le_hosts rs1 Wf1) as Hle. set (n := Z.of_nat (length (rhosts rs))) in *. pose proof (Permutation_length Hp) as Hlp.
  assert (CS : coalesce_state W rs (hl_nranges (hl_with hl rs1) - 1) (hl_with hl rs1) rs1).
  { split; [done|done|done| | |by intros k; rewrite (sorted_kinds _ _ _ S)|simpl; lia].
    - clear - Ss. induction Ss as [|x l Ss IH Hx]; [constructor|]. cbn [fmap list_fmap]. constructor; [done|]. by apply Forall_fmap.
    - simpl. rewrite <-(length_fmap snd). destruct rs1.*2 as [|z l _] using rev_ind; [rewrite drop_nil; constructor|].
      rewrite length_app. simpl. replace (Z.to_nat (Z.of_nat (length l + 1) - 1)) with (length l) by lia. rewrite drop_app_length. repeat constructor. }
  assert (Hb : (coalesce_measure rs (hl_nranges (hl_with hl rs1) - 1) (hl_with hl rs1) < fuel)%nat).
  { eapply Nat.lt_le_trans; [|exact Hfuel]. unfold coalesce_measure, sort_rounds. rewrite (ranges_of_arr _ _ A1). fold n. unfold potential.
    pose proof (qsum_bound rs1.*2 ltac:(by apply Forall_fmap)) as Hq. assert (Eb : rs1.*2 ≫= range_hosts = rhosts rs1) by (by rewrite list_fmap_bind).
    rewrite Eb, Hlp in Hq. fold n in Hq. pose proof (qsum_nonneg rs1.*2) as Hq0. pose proof (inversions_bound (hr_hi <$> rs1.*2)) as Hv. rewrite !length_fmap in Hv.
    simpl. assert (Hin : inversions (hr_hi <$> rs1.*2) <= n * n) by nia.
    assert (0 <= n) by lia. assert (qsum rs1.*2 * (n * n + 1) <= n * n * (n * n + 1)) by (apply Z.mul_le_mono_nonneg_r; nia).
    apply Z2Nat.inj_lt; [|nia|].
    - assert (0 <= qsum rs1.*2 * (n * n + 1)) by (apply Z.mul_nonneg_nonneg; nia). nia.
    - assert ((qsum rs1.*2 * (n * n + 1) + inversions (hr_hi <$> rs1.*2)) * (n + 1) <= (n * n * (n * n + 1) + n * n) * (n + 1)) by (apply Z.mul_le_mono_nonneg_r; lia). lia. }
  apply wp_bind. eapply wp_mono; [apply (coalesce_loop_spec W rs fuel _ _ rs1 CS Hb)|].
  { eapply Nat.lt_le_trans; [|exact Hfuel]. unfold sort_rounds. fold n. assert (0 <= n * n) by apply Z.square_nonneg.
    assert (0 <= (n * n * (n * n + 1) + n * n) * (n + 1)) by (apply Z.mul_nonneg_nonneg; nia). lia. }
  intros hl2 (rs2 & R2 & G2 & Hp2 & Su & Hk2). eapply wp_mono; [by apply (collapse_spec W hl2 rs2)|]. intros hl3 (rs3 & R3 & _ & Hh3 & Hk3). exists rs2, rs3. split_and!; try done. by etransitivity.
Qed.
