(* ===== verification/HostlistOrder.v ===== *)
(** * The order of host names: lemmas

    Sorted lists of ranges are sorted lists of host names, provided the names
    that share a prefix are padded to one width. *)

From Stdlib Require Import Sorting.Sorted.
From S2P Require Import Prelude NatCmp Hostlist HostlistFacts HostlistOps HostlistSeq HostlistSort HostlistCoalesce.

Local Open Scope Z_scope.
Local Open Scope slurm_scope.

(** By stem in natural order, names without a number first, then by number. *)
Definition name_cmp (s t : cstr) : Z :=
  let c := strnatcmp (stem s) (stem t) in
  if negb (c =? 0) then c
  else match trail s, trail t with
       | [], [] => 0
       | [], _ => -1
       | _, [] => 1
       | _, _ => num (trail s) - num (trail t)
       end.

Definition name_lt (s t : cstr) : Prop := name_cmp s t < 0.
Definition name_le (s t : cstr) : Prop := name_cmp s t <= 0.

(** The numbers after one stem are written with one minimal width. *)
Definition uniform (l : list cstr) : Prop :=
  exists W : cstr -> Z, Forall (fun s => trail s <> [] -> ewidth (strlen (trail s)) (num (trail s)) = ewidth (W (stem s)) (num (trail s))) l.

(** The parts of the names of a range. *)
Lemma name_of_range h s : range_wf h -> range_std h -> s ∈ range_hosts h ->
  stem s = hr_prefix h /\ hr_lo h <= num (trail s) <= hr_hi h /\ (if hr_singlehost h then trail s = [] else trail s <> []).
Proof.
  intros Wf Sd Hs. pose proof (rw_lo _ Wf). pose proof (rw_hi _ Wf). unfold range_hosts, range_std in *. destruct (hr_singlehost h) eqn:Es.
  - apply list_elem_of_singleton in Hs as ->. destruct (rw_single _ Wf Es) as (-> & -> & _). rewrite Sd.
    split_and!; try done. pose proof (stem_trail (hr_prefix h)) as E. by rewrite Sd, app_nil_r in E.
  - apply list_elem_of_fmap in Hs as (n & -> & Hn%elem_of_seqZ). unfold host_name.
    destruct (trail_app (hr_prefix h) (fmt_lu (hr_width h) n)) as [-> ->]; [apply fmt_lu_digits; lia|done|].
    rewrite num_fmt_lu by lia. split_and!; [done|lia|lia|apply fmt_lu_nonempty; lia].
Qed.

(** Names compare like the ranges they are in. *)
Lemma name_cmp_ranges h1 h2 s t : range_wf h1 -> range_std h1 -> s ∈ range_hosts h1 -> range_wf h2 -> range_std h2 -> t ∈ range_hosts h2 ->
  name_cmp s t = (let c := hostrange_prefix_cmp (Some h1) (Some h2) in if c =? 0 then num (trail s) - num (trail t) else c).
Proof.
  intros W1 S1 H1 W2 S2 H2. destruct (name_of_range _ _ W1 S1 H1) as (E1 & _ & T1), (name_of_range _ _ W2 S2 H2) as (E2 & _ & T2).
  unfold name_cmp, hostrange_prefix_cmp. rewrite E1, E2. cbn zeta. destruct (Z.eqb_spec (strnatcmp (hr_prefix h1) (hr_prefix h2)) 0) as [E|E]; simpl.
  2: { by rewrite (proj2 (Z.eqb_neq _ _)). }
  destruct (hr_singlehost h1), (hr_singlehost h2); simpl.
  - by rewrite T1, T2.
  - rewrite T1. by destruct (trail t).
  - rewrite T2. by destruct (trail s).
  - by destruct (trail s), (trail t).
Qed.

Lemma before_names h1 h2 s t : range_wf h1 -> range_std h1 -> s ∈ range_hosts h1 -> range_wf h2 -> range_std h2 -> t ∈ range_hosts h2 ->
  before h1 h2 -> name_lt s t.
Proof.
  intros W1 S1 H1 W2 S2 H2 Hb. unfold name_lt. rewrite (name_cmp_ranges h1 h2) by done. cbn zeta.
  destruct (name_of_range _ _ W1 S1 H1) as (_ & B1 & _), (name_of_range _ _ W2 S2 H2) as (_ & B2 & _).
  destruct Hb as [Hb|(Hk & _ & Hb)]; [rewrite (proj2 (Z.eqb_neq _ _)) by lia; done|].
  apply prefix_cmp_kind in Hk as ->; [|apply W1|apply W2]. simpl. lia.
Qed.

Lemma upto_names h1 h2 s t : range_wf h1 -> range_std h1 -> s ∈ range_hosts h1 -> range_wf h2 -> range_std h2 -> t ∈ range_hosts h2 ->
  upto h1 h2 -> name_le s t.
Proof.
  intros W1 S1 H1 W2 S2 H2 Hb. unfold name_le. rewrite (name_cmp_ranges h1 h2) by done. cbn zeta.
  destruct (name_of_range _ _ W1 S1 H1) as (_ & B1 & _), (name_of_range _ _ W2 S2 H2) as (_ & B2 & _).
  destruct Hb as [Hb|(Hk & Hb)]; [rewrite (proj2 (Z.eqb_neq _ _)); lia|].
  apply prefix_cmp_kind in Hk as ->; [|apply W1|apply W2]. simpl. lia.
Qed.

(** Names made from increasing numbers. *)
Lemma numbered_sorted {A : Type} (R : A -> A -> Prop) (f : Z -> A) k : forall c,
  (forall n m, c <= n < m -> m < c + k -> R (f n) (f m)) -> StronglySorted R (f <$> seqZ c k).
Proof.
  destruct (decide (0 <= k)) as [Hk|Hk]; [|intros c _; rewrite seqZ_nil by lia; constructor]. pattern k. apply natlike_ind; [intros c _; constructor| |done].
  clear k Hk. intros k Hk IH c HR. rewrite seqZ_cons by lia. rewrite Z.pred_succ. cbn [fmap list_fmap]. constructor.
  - apply IH. intros n m Hn Hm. apply HR; lia.
  - apply Forall_fmap, Forall_forall. intros n Hn%elem_of_seqZ. apply HR; lia.
Qed.

Lemma range_names_sorted h : range_wf h -> range_std h -> StronglySorted name_lt (range_hosts h).
Proof.
  intros Wf Sd. destruct (hr_singlehost h) eqn:Es; [unfold range_hosts; rewrite Es; repeat constructor|].
  pose proof (rw_lo _ Wf). pose proof (rw_hi _ Wf). assert (E : range_hosts h = host_name (hr_prefix h) (hr_width h) <$> nums h) by (unfold range_hosts; by rewrite Es).
  rewrite E. apply numbered_sorted. intros n m Hn Hm. unfold name_lt.
  assert (Hin : forall k, hr_lo h <= k <= hr_hi h -> host_name (hr_prefix h) (hr_width h) k ∈ range_hosts h).
  { intros k Hk. rewrite E. apply list_elem_of_fmap. exists k. split; [done|]. unfold nums. rewrite elem_of_seqZ. lia. }
  assert (Hn' : forall k, hr_lo h <= k <= hr_hi h -> num (trail (host_name (hr_prefix h) (hr_width h) k)) = k).
  { intros k Hk. unfold host_name. destruct (trail_app (hr_prefix h) (fmt_lu (hr_width h) k)) as [_ ->].
    - apply fmt_lu_digits; lia.
    - unfold range_std in Sd. by rewrite Es in Sd.
    - apply num_fmt_lu; lia. }
  rewrite (name_cmp_ranges h h) by (done || apply Hin; lia). cbn zeta.
  rewrite (proj2 (prefix_cmp_kind h h (rw_plain _ Wf) (rw_plain _ Wf)) eq_refl). simpl. rewrite !Hn' by lia. lia.
Qed.

(** Lists of ranges that are ordered by [P] list their names in the order [R]. *)
Lemma names_sorted (P : hostrange -> hostrange -> Prop) (R : cstr -> cstr -> Prop) rs :
  (forall h1 h2 s t, range_wf h1 -> range_std h1 -> s ∈ range_hosts h1 -> range_wf h2 -> range_std h2 -> t ∈ range_hosts h2 -> P h1 h2 -> R s t) ->
  (forall s t, name_lt s t -> R s t) ->
  Forall (fun x => range_wf x.2) rs -> Forall (fun x => range_std x.2) rs -> StronglySorted P rs.*2 -> StronglySorted R (rhosts rs).
Proof.
  intros HP HR. induction rs as [|[a h] rs IH]; intros Wf Sd S; [constructor|]. rewrite rhosts_cons. simpl in *.
  apply Forall_cons in Wf as [Wh Wf], Sd as [Sh Sd]. apply StronglySorted_inv in S as [S Hh]. simpl in *. apply StronglySorted_app_iff.
  split_and!; [|by apply IH|].
  - pose proof (range_names_sorted h Wh Sh) as Hr. clear - Hr HR. induction Hr as [|s l Hr IH Hs]; constructor; [done|]. by eapply Forall_impl; [|apply HR].
  - intros s t Hs Ht. apply list_elem_of_bind in Ht as ([b h2] & Ht & Hin). simpl in Ht.
    rewrite Forall_forall in Wf, Sd. rewrite Forall_forall in Hh. apply (HP h h2); try done; [apply (Wf _ Hin)|apply (Sd _ Hin)|].
    apply Hh, list_elem_of_fmap. by exists (b, h2).
Qed.

(** Strictly sorted names are different. *)
Lemma name_lt_irrefl s : plain s -> ~ name_lt s s.
Proof.
  intros Hp. unfold name_lt, name_cmp. assert (Hs : plain (stem s)) by (rewrite <-(stem_trail s) in Hp; by apply plain_app in Hp as [? _]).
  rewrite (proj2 (strnatcmp_eq _ _ Hs Hs) eq_refl). simpl. destruct (trail s); lia.
Qed.

Lemma range_hosts_plain h s : range_wf h -> s ∈ range_hosts h -> plain s.
Proof.
  intros Wf Hs. pose proof (rw_lo _ Wf). pose proof (rw_hi _ Wf). unfold range_hosts in Hs. destruct (hr_singlehost h).
  - apply list_elem_of_singleton in Hs as ->. apply Wf.
  - apply list_elem_of_fmap in Hs as (n & -> & Hn%elem_of_seqZ). apply plain_app. split; [apply Wf|]. apply digits_are_plain, fmt_lu_digits. lia.
Qed.

Lemma sorted_names_NoDup l : Forall plain l -> StronglySorted name_lt l -> NoDup l.
Proof.
  intros Hp. induction 1 as [|s l S IH Hs]; [constructor|]. apply Forall_cons in Hp as [Hp1 Hp2]. constructor; [|by apply IH].
  intros Hin. rewrite Forall_forall in Hs. by apply (name_lt_irrefl s Hp1), Hs.
Qed.

(** Uniform names make uniform ranges. *)
Lemma uniform_good rs : Forall (fun x => range_wf x.2) rs -> Forall (fun x => range_std x.2) rs -> uniform (rhosts rs) -> exists W, all_good W rs.
Proof.
  intros Wf Sd [W HW]. exists W. rewrite Forall_forall in Wf, Sd |- *. rewrite Forall_forall in HW. intros [a h] Hx. specialize (Wf _ Hx). specialize (Sd _ Hx). simpl in *.
  split; [done|]. intros Es. pose proof (rw_lo _ Wf). pose proof (rw_hi _ Wf). set (s := host_name (hr_prefix h) (hr_width h) (hr_lo h)).
  assert (Hs : s ∈ range_hosts h). { unfold range_hosts. rewrite Es. apply list_elem_of_fmap. exists (hr_lo h). split; [done|]. rewrite elem_of_seqZ. lia. }
  specialize (HW s). unfold range_std in Sd. rewrite Es in Sd. unfold s, host_name in HW.
  destruct (trail_app (hr_prefix h) (fmt_lu (hr_width h) (hr_lo h))) as [E1 E2]; [apply fmt_lu_digits; lia|done|].
  rewrite E1, E2, num_fmt_lu, strlen_fmt_lu in HW by lia. rewrite <-HW.
  - unfold ewidth. lia.
  - apply list_elem_of_bind. by exists (a, h).
  - apply fmt_lu_nonempty. lia.
Qed.
