(* ===== verification/HostlistIter.v ===== *)
(** * Iterators over host lists: lemmas

    What an iterator has still to visit, and how [hostlist_next] moves it. *)

From S2P Require Import Prelude NatCmp Hostlist HostlistFacts HostlistOps HostlistSeq HostlistCoalesce.

Local Open Scope Z_scope.
Local Open Scope slurm_scope.

(** ** Handles *)

Lemma iter_at_cons hl j x l k : iter_at (with_ilist hl ((j, x) :: l)) k = if decide (j = k) then Ret x else iter_at (with_ilist hl l) k.
Proof.
  unfold iter_at. simpl. destruct (decide (j = k)); [done|].
  by destruct (list_find (fun y => y.1 = k) l) as [[? [? ?]]|].
Qed.

Lemma iter_at_set hl k i i0 : iter_at hl k = Ret i0 -> iter_at (set_iter hl k i) k = Ret i.
Proof.
  unfold set_iter. change (iter_at hl k) with (iter_at (with_ilist hl (hl_ilist hl)) k). induction (hl_ilist hl) as [|[j x] l IH]; [done|].
  cbn [fmap list_fmap fst]. rewrite iter_at_cons. destruct (decide (j = k)) as [->|Hne]; rewrite iter_at_cons; [by rewrite decide_True|].
  rewrite decide_False by done. apply IH.
Qed.

Lemma iter_at_other hl k i j : j <> k -> iter_at (set_iter hl k i) j = iter_at hl j.
Proof.
  intros Hj. unfold set_iter. change (iter_at hl j) with (iter_at (with_ilist hl (hl_ilist hl)) j). induction (hl_ilist hl) as [|[m x] l IH]; [done|].
  cbn [fmap list_fmap fst]. rewrite iter_at_cons. destruct (decide (m = k)) as [->|Hne]; rewrite iter_at_cons, IH; [|done].
  by rewrite !decide_False.
Qed.

Lemma arr_set_iter hl rs k i : hl_arr hl rs -> hl_arr (set_iter hl k i) rs.
Proof. by intros []. Qed.

Lemma set_iter_handles hl k i : (hl_ilist (set_iter hl k i)).*1 = (hl_ilist hl).*1.
Proof. unfold set_iter. simpl. induction (hl_ilist hl) as [|[j x] l IH]; [done|]. cbn [fmap list_fmap]. rewrite IH. simpl. by case_decide; subst. Qed.

(** ** Positions *)

(** The hosts that an iterator has still to visit. *)
Inductive visit (rs : rlist) : hiter -> list cstr -> Prop :=
| visit_at l1 a h l2 d : rs = l1 ++ (a, h) :: l2 -> -1 <= d <= hr_hi h - hr_lo h ->
    visit rs (Hiter (Z.of_nat (length l1)) (Some a) d) (drop (Z.to_nat (d + 1)) (range_hosts h) ++ rhosts l2)
| visit_end p d : visit rs (Hiter (Z.of_nat (length rs)) p d) [].

Section next.
Context {hl : hostlist} {rs : rlist}.
Context (A : hl_arr hl rs) (Wf : Forall (fun x => range_wf x.2) rs) (F : Forall short (rhosts rs)).

Lemma slot_ptr_used l1 x l2 i : rs = l1 ++ x :: l2 -> i = Z.of_nat (length l1) -> slot_ptr hl i = Ret (Some x.1).
Proof using A.
  intros E ->. unfold slot_ptr. rewrite (arr_hr _ _ A), (aget_lookup _ _ (Some x)); [done|lia|].
  rewrite Nat2Z.id. apply slots_lookup. by rewrite E, list_lookup_middle.
Qed.

Lemma slot_ptr_free : Z.of_nat (length rs) < hl_size hl -> slot_ptr hl (Z.of_nat (length rs)) = Ret None.
Proof using A.
  intros Hlt. unfold slot_ptr. rewrite (arr_hr _ _ A), (aget_lookup _ _ None); [done|lia|].
  apply slots_lookup_free. lia.
Qed.

(** A new iterator has everything before it. *)
Lemma visit_new : exists p, slot_ptr hl 0 = Ret p /\ visit rs (Hiter 0 p (-1)) (rhosts rs).
Proof using A Wf.
  assert (H : rs = [] \/ exists a h l2, rs = (a, h) :: l2) by (clear; destruct rs as [|[a h] l2]; [by left|right; by exists a, h, l2]).
  destruct H as [E|(a & h & l2 & E)].
  - exists None. pose proof (arr_chunk _ _ A). unfold HOSTLIST_CHUNK in *. pose proof slot_ptr_free as Hf. pose proof (visit_end rs None (-1)) as V.
    rewrite E in Hf, V |- *. split; [apply Hf; simpl; lia|done].
  - exists (Some a). split; [by apply (slot_ptr_used [] (a, h) l2)|]. rewrite E, rhosts_cons.
    apply (visit_at _ [] a h l2 (-1)); [done|]. assert (Wh : range_wf h) by (rewrite E, Forall_cons in Wf; apply Wf). pose proof (rw_lo _ Wh). lia.
Qed.

(** The host at a position. *)
Lemma visited_text l1 a h l2 d : rs = l1 ++ (a, h) :: l2 -> 0 <= d <= hr_hi h - hr_lo h ->
  exists s, host_text h d 1 = Ret (Some s) /\ drop (Z.to_nat d) (range_hosts h) = s :: drop (Z.to_nat (d + 1)) (range_hosts h).
Proof using Wf F.
  intros E Hd. assert (Wh : range_wf h). { rewrite E, Forall_app, Forall_cons in Wf. apply Wf. }
  pose proof (length_range_hosts _ Wh) as Hlen. destruct (lookup_lt_is_Some_2 (range_hosts h) (Z.to_nat d)) as [s Hs]; [lia|].
  exists s. split.
  - apply host_text_spec; try done. rewrite E, rhosts_app, rhosts_cons, !Forall_app in F. simpl in F. destruct F as (_ & Fh & _).
    by eapply Forall_lookup_1.
  - rewrite (drop_S _ s) by done. by replace (S (Z.to_nat d)) with (Z.to_nat (d + 1)) by lia.
Qed.

Lemma advance_spec it rest : Z.of_nat (length rs) < hl_size hl -> visit rs it rest ->
  exists it', _iterator_advance hl it = Ret it' /\
    match rest with
    | [] => it_idx it' = Z.of_nat (length rs)
    | s :: rest' => it_idx it' < Z.of_nat (length rs) /\ (exists h, deref hl (it_hr it') = Ret h /\ host_text h (it_depth it') 1 = Ret (Some s))
    end /\ visit rs it' (tail rest).
Proof using A Wf F.
  intros Hroom V. unfold _iterator_advance. rewrite (arr_nranges _ _ A). destruct V as [l1 a h l2 d E Hd|p d]; simpl.
  2: { rewrite (proj2 (Z.ltb_lt _ _)) by lia. eexists. split_and!; [done|done|constructor]. }
  assert (Hl : length rs = (length l1 + S (length l2))%nat) by (by rewrite E, length_app).
  assert (Wh : range_wf h). { rewrite E, Forall_app, Forall_cons in Wf. apply Wf. }
  pose proof (rw_lo _ Wh). pose proof (rw_hi _ Wh). rewrite (proj2 (Z.ltb_ge _ _)) by lia.
  assert (A' : hl_arr hl (l1 ++ (a, h) :: l2)) by (by rewrite <-E). rewrite (arr_deref _ _ _ _ _ A'). cbn [mbind exec_bind].
  rewrite !u64_small by lia. destruct (Z.ltb_spec (hr_hi h - hr_lo h) (d + 1)) as [Hend|Hin].
  - rewrite drop_ge by (pose proof (length_range_hosts _ Wh); lia). rewrite app_nil_l. destruct l2 as [|[b h2] l3].
    + replace (Z.of_nat (length l1) + 1) with (Z.of_nat (length rs)) by (simpl in Hl; lia). rewrite slot_ptr_free by done.
      eexists. split_and!; [done|done|constructor].
    + rewrite (slot_ptr_used (l1 ++ [(a, h)]) (b, h2) l3); [|by rewrite E, <-app_assoc|rewrite length_app; simpl; lia]. cbn [mbind exec_bind fst].
      assert (E2 : rs = (l1 ++ [(a, h)]) ++ (b, h2) :: l3) by (by rewrite E, <-app_assoc).
      assert (Wh2 : range_wf h2). { rewrite E2, Forall_app, Forall_cons in Wf. apply Wf. }
      pose proof (rw_lo _ Wh2). destruct (visited_text _ b h2 l3 0 E2) as (s & Ht & Hs); [lia|]. rewrite drop_0 in Hs.
      rewrite rhosts_cons. cbn [snd]. rewrite Hs. cbn [app tail]. eexists. split; [done|]. split.
      * split; [simpl in *; lia|]. exists h2. split; [|done]. apply (arr_deref _ (l1 ++ [(a, h)]) b h2 l3). by rewrite <-E2.
      * replace (Z.of_nat (length l1) + 1) with (Z.of_nat (length (l1 ++ [(a, h)]))) by (rewrite length_app; simpl; lia).
        by apply (visit_at _ _ b h2 l3 0); [|lia].
  - destruct (visited_text _ a h l2 (d + 1) E) as (s & Ht & Hs); [lia|]. rewrite Hs. cbn [app tail]. eexists. split; [done|]. split.
    + simpl. split; [lia|]. exists h. by rewrite (arr_deref _ _ _ _ _ A').
    + by apply (visit_at _ l1 a h l2 (d + 1)); [|lia].
Qed.
End next.

Lemma next_spec env hl rs k it rest : one_dim env -> hl_arr hl rs -> Forall (fun x => range_wf x.2) rs -> Forall short (rhosts rs) ->
  Z.of_nat (length rs) < hl_size hl -> iter_at hl k = Ret it -> visit rs it rest ->
  exists it', hostlist_next env hl k = Ret (head rest, set_iter hl k it') /\ visit rs it' (tail rest).
Proof.
  intros E1 A Wf F Hroom Hk V. destruct (advance_spec A Wf F it rest Hroom V) as (it' & Ea & Hr & V').
  exists it'. split; [|done]. unfold hostlist_next, hostlist_next_dims. rewrite Hk. cbn [mbind exec_bind]. rewrite Ea. cbn [mbind exec_bind].
  rewrite E1. change (1 =? 0) with false. cbn match. change (hl_nranges (set_iter hl k it')) with (hl_nranges hl). rewrite (arr_nranges _ _ A).
  destruct rest as [|s rest]; simpl.
  - by rewrite (proj2 (Z.ltb_lt _ _)) by lia.
  - destruct Hr as (Hlt & h & Hd & Ht). rewrite (proj2 (Z.ltb_ge _ _)) by lia.
    change (deref (set_iter hl k it') (it_hr it')) with (deref hl (it_hr it')). rewrite Hd. cbn [mbind exec_bind]. by rewrite Ht.
Qed.
