(* ===== verification/HostlistNames.v ===== *)
(** * Host lists as sequences of names: lemmas

    What each operation does to the sequence of names that a list stands for;
    these are the facts that other components use. *)

From Stdlib Require Import Sorting.Sorted.
From S2P Require Import Prelude NatCmp Hostlist HostlistParse HostlistPrint HostlistFacts HostlistOps HostlistSeq HostlistText HostlistRead HostlistSort HostlistCoalesce HostlistOrder.

Local Open Scope Z_scope.
Local Open Scope slurm_scope.

(** A list that stands for a sequence of names. *)
Definition is_seq (hl : hostlist) (l : list cstr) : Prop :=
  exists rs, hl_rep hl rs /\ rhosts rs = l /\ Forall (fun x => range_std x.2) rs /\ Forall short l.

Lemma is_seq_new : is_seq hostlist_new [].
Proof. exists []. split; [apply rep_new|]. done. Qed.

(** A list after an operation that did not bring new kinds of ranges. *)
Lemma is_seq_step hl rs rs' l : hl_rep hl rs' -> kinds rs' ⊆ kinds rs -> Forall (fun x => range_std x.2) rs ->
  rhosts rs' = l -> Forall short l -> is_seq hl l.
Proof. intros R K S E F. exists rs'. split_and!; [done|done|by eapply std_kinds|done]. Qed.

Section simulation.
Context (env : cluster_env) (E1 : one_dim env).
Implicit Types (l : list cstr) (hl : hostlist).

Lemma push_host_seq hl l s : is_seq hl l -> name_ok s -> short s -> Z.of_nat (length l) < i32_max ->
  wp (hostlist_push_host env hl s) (fun '(rc, hl') => rc = 1 /\ is_seq hl' (l ++ [s])).
Proof.
  intros (rs & R & <- & S & F) Hs Hsh Hlt. unfold hostlist_push_host. rewrite E1.
  eapply wp_mono; [apply (push_host_spec env E1 _ rs); auto|]. intros [rc hl'] (-> & rs' & h' & P & R' & E). split; [done|].
  rewrite <-E. apply (is_seq_step _ (rs ++ [(0%nat, host_range s)]) rs'); [done| | |done|].
  - pose proof (pushed_kinds _ _ _ _ _ P) as K. by rewrite kinds_app.
  - apply Forall_app. split; [done|]. apply Forall_singleton, host_range_std.
  - rewrite E. apply Forall_app. by split; [|apply Forall_singleton].
Qed.

Lemma pop_seq hl l : is_seq hl l ->
  wp (hostlist_pop env hl) (fun '(h, hl') => h = last l /\ is_seq hl' (take (length l - 1) l)).
Proof.
  intros (rs & R & <- & S & F). eapply wp_mono; [by apply (pop_spec env E1 _ rs)|].
  intros [[s|] hl'] (rs' & R' & E).
  - destruct E as [E K]. rewrite E in *. rewrite last_snoc, length_app, Nat.add_sub, take_app_length. split; [done|].
    apply Forall_app in F as [F _]. by apply (is_seq_step _ rs rs').
  - destruct E as (E & -> & ->). rewrite E. split; [done|]. exists rs. rewrite E. done.
Qed.

Lemma shift_seq hl l : is_seq hl l ->
  wp (hostlist_shift env hl) (fun '(h, hl') => h = head l /\ is_seq hl' (drop 1 l)).
Proof.
  intros (rs & R & <- & S & F). eapply wp_mono; [by apply (shift_spec env E1 _ rs 0); [left|]|].
  intros [[s|] hl'] (rs' & R' & E).
  - destruct E as [E K]. rewrite E in *. split; [done|]. apply Forall_cons in F as [_ F]. by apply (is_seq_step _ rs rs').
  - destruct E as (E & -> & ->). rewrite E. split; [done|]. exists rs. rewrite E. done.
Qed.

Lemma delete_nth_seq hl l n : is_seq hl l -> 0 <= n < Z.of_nat (length l) ->
  wp (hostlist_delete_nth hl n) (fun '(rc, hl') => rc = 1 /\ is_seq hl' (delete (Z.to_nat n) l)).
Proof.
  intros (rs & R & <- & S & F) Hn. eapply wp_mono; [by apply (delete_nth_spec _ rs)|].
  intros [rc hl'] (-> & rs' & R' & E & K). split; [done|]. apply (is_seq_step _ rs rs'); [done..|].
  by apply Forall_delete.
Qed.

Lemma find_seq hl l s : is_seq hl l -> name_ok s ->
  wp (hostlist_find env hl s) (fun '(i, hl') => i = found_at s l /\ is_seq hl' l).
Proof.
  intros (rs & R & <- & S & F) Hs. eapply wp_mono; [by apply (find_spec _ _ rs)|].
  intros [i hl'] (-> & rs' & R' & E & S'). split; [done|]. by exists rs'.
Qed.

Lemma index_of_lt s l i : index_of s l = Some i -> (i < length l)%nat.
Proof.
  revert i. induction l as [|x l IH]; intros i; cbn [index_of]; [done|]. case_decide; [intros [= <-]; simpl; lia|].
  destruct (index_of s l) as [k|]; [|done]. intros [= <-]. specialize (IH k eq_refl). simpl. lia.
Qed.

Lemma delete_host_seq hl l s : is_seq hl l -> name_ok s ->
  wp (hostlist_delete_host env hl s) (fun '(rc, hl') =>
    match index_of s l with
    | Some i => rc = 1 /\ is_seq hl' (delete i l)
    | None => rc = 0 /\ is_seq hl' l
    end).
Proof.
  intros H Hs. unfold hostlist_delete_host. apply wp_bind. eapply wp_mono; [by apply (find_seq _ l)|].
  intros [i hl'] [-> H']. unfold found_at. destruct (index_of s l) as [i|] eqn:Ei; [|by apply wp_ret].
  rewrite (proj2 (Z.leb_le _ _)) by lia. pose proof (index_of_lt _ _ _ Ei). apply wp_bind.
  eapply wp_mono; [apply (delete_nth_seq _ l); [done|lia]|]. intros [rc hl2] [_ H2]. rewrite Nat2Z.id in H2. by apply wp_ret.
Qed.

Lemma push_list_seq hl1 l1 hl2 l2 : is_seq hl1 l1 -> is_seq hl2 l2 ->
  Z.of_nat (length l2) * Z.of_nat (length (l1 ++ l2)) <= i32_max ->
  wp (hostlist_push_list hl1 hl2) (fun '(_, hl1', hl2') => is_seq hl1' (l1 ++ l2) /\ is_seq hl2' l2).
Proof.
  intros (rs1 & R1 & <- & S1 & F1) (rs2 & R2 & <- & S2 & F2) Hmax. pose proof (ranges_le_hosts _ (rep_wf _ _ R2)).
  eapply wp_mono; [apply (push_list_spec _ rs1 _ rs2); [done|done|nia]|].
  intros [[n h1] h2] (rs1' & rs2' & (R1' & E1' & K1) & R2' & E2' & K2). split.
  - apply (is_seq_step _ (rs1 ++ rs2) rs1'); [done|by rewrite kinds_app|by apply Forall_app|done|by apply Forall_app].
  - apply (is_seq_step _ rs2 rs2'); [done|by rewrite K2|done..].
Qed.

Lemma copy_seq hl l : is_seq hl l -> wp (hostlist_copy hl) (fun hl' => is_seq hl' l).
Proof.
  intros (rs & R & <- & S & F). eapply wp_mono; [by apply (copy_spec _ rs)|]. intros hl' (rs' & R' & E).
  apply (is_seq_step _ rs rs'); [done| |done|by apply rhosts_snd|done].
  assert (Hk : forall r, kinds r = kind <$> r.*2) by (intros r; by rewrite <-list_fmap_compose). by rewrite !Hk, E.
Qed.
End simulation.

(** ** Sorting *)

Lemma seq_uniform_good hl rs : hl_rep hl rs -> Forall (fun x => range_std x.2) rs -> uniform (rhosts rs) -> exists W, all_good W rs.
Proof. intros R. apply uniform_good, R. Qed.

Lemma rhosts_plain rs : Forall (fun x => range_wf x.2) rs -> Forall plain (rhosts rs).
Proof.
  intros Wf. rewrite Forall_forall in Wf. apply Forall_forall. intros s Hs. apply list_elem_of_bind in Hs as (x & Hs & Hin).
  by apply (range_hosts_plain x.2); [apply Wf|].
Qed.

Lemma uniq_seq hl l : is_seq hl l -> uniform l ->
  exists hl' l', hostlist_uniq hl = Ret hl' /\ is_seq hl' l' /\ NoDup l' /\ (forall s, s ∈ l' <-> s ∈ l) /\ StronglySorted name_lt l'.
Proof.
  intros (rs & R & <- & S & F) U. destruct (seq_uniform_good hl rs R S U) as [W G].
  destruct (wp_inv _ _ (uniq_spec W hl rs R G)) as (hl' & -> & rs' & R' & G' & Ss & Hm & Hk). exists hl', (rhosts rs').
  pose proof (std_kinds _ _ S Hk) as S'. assert (Ss' : StronglySorted before rs'.*2).
  { clear - Ss. induction Ss as [|x l Ss IH Hx]; [constructor|]. cbn [fmap list_fmap]. constructor; [done|]. by apply Forall_fmap. }
  pose proof (names_sorted before name_lt rs' before_names (fun s t H => H) (rep_wf _ _ R') S' Ss') as Hs.
  split_and!; try done; [|by apply sorted_names_NoDup; [apply rhosts_plain, R'|]].
  exists rs'. split_and!; try done. rewrite Forall_forall in F |- *. intros s Hin. by apply F, Hm.
Qed.

Lemma sort_seq fuel hl l : is_seq hl l -> uniform l -> (sort_rounds (Z.of_nat (length l)) <= fuel)%nat ->
  exists hl' l', hostlist_sort fuel hl = Ret hl' /\ is_seq hl' l' /\ l' ≡ₚ l /\ StronglySorted name_le l'.
Proof.
  intros (rs & R & <- & S & F) U Hfuel. destruct (seq_uniform_good hl rs R S U) as [W G].
  destruct (wp_inv _ _ (sort_spec W fuel hl rs R G Hfuel)) as (hl' & -> & rs1 & rs' & R' & G1 & Ss & Hk1 & Hh & Hp & Hk). exists hl', (rhosts rs').
  assert (Wf1 : Forall (fun x => range_wf x.2) rs1) by (eapply Forall_impl; [exact G1|]; by intros x []).
  pose proof (names_sorted upto name_le rs1 upto_names ltac:(intros s t; unfold name_lt, name_le; lia) Wf1 (std_kinds _ _ S Hk1) Ss) as Hs.
  rewrite Hh. split_and!; try done. exists rs'. split_and!; [done|done|by apply (std_kinds rs)|]. by rewrite Hp.
Qed.

(** ** Text *)

(** Names that can be written in an expression. *)
Definition printable (s : cstr) : Prop := name_ok s /\ clean s /\ s <> [].

Lemma clean_stem s : clean s -> clean (stem s).
Proof.
  intros (Hu & Ho & Hc). rewrite <-(stem_trail s) in Hu, Ho, Hc. rewrite Forall_app in Hu. rewrite not_elem_of_app in Ho, Hc.
  split_and!; [apply Hu|apply Ho|apply Hc].
Qed.

(** A host of each range. *)
Lemma range_has_host rs x : Forall (fun x => range_wf x.2) rs -> Forall (fun x => range_std x.2) rs -> x ∈ rs ->
  exists s, s ∈ rhosts rs /\ s ∈ range_hosts x.2 /\ stem s = hr_prefix x.2.
Proof.
  rewrite !Forall_forall. intros Wf Sd Hx. specialize (Wf _ Hx). specialize (Sd _ Hx). pose proof (range_hosts_nonempty _ Wf) as Hne.
  destruct (range_hosts x.2) as [|s l] eqn:E; [done|]. exists s. assert (Hs : s ∈ range_hosts x.2) by (rewrite E; left).
  split_and!; [apply list_elem_of_bind; by exists x|left|]. by destruct (name_of_range x.2 s).
Qed.

Lemma range_count_le rs x : Forall (fun x => range_wf x.2) rs -> x ∈ rs -> hr_hi x.2 - hr_lo x.2 < Z.of_nat (length (rhosts rs)).
Proof.
  intros Wf Hx. rewrite Forall_forall in Wf. specialize (Wf _ Hx). pose proof (length_range_hosts _ Wf).
  apply list_elem_of_split in Hx as (l1 & l2 & ->). rewrite rhosts_app, rhosts_cons, !length_app. lia.
Qed.

Lemma printable_listable rs : Forall (fun x => range_wf x.2) rs -> Forall (fun x => range_std x.2) rs -> Forall printable (rhosts rs) ->
  Z.of_nat (length (rhosts rs)) <= MAX_RANGE -> Forall listable rs.*2.
Proof.
  intros Wf Sd Hp Hlen. apply Forall_fmap, Forall_forall. intros x Hx. destruct (range_has_host rs x Wf Sd Hx) as (s & Hs & Hin & Es).
  pose proof (range_count_le rs x Wf Hx). rewrite Forall_forall in Hp. destruct (Hp _ Hs) as (Hok & Hcl & Hne).
  rewrite Forall_forall in Wf. specialize (Wf _ Hx). split; [done| | |lia].
  - rewrite <-Es. by apply clean_stem.
  - intros E. unfold range_hosts in Hin. rewrite E in Hin. by apply list_elem_of_singleton in Hin as ->.
Qed.

(** The length of an expression. *)
Definition range_size (h : hostrange) : Z := strlen (hr_prefix h) + 3 * (hr_width h + 20) + 5.
Definition text_size (rs : list hostrange) : Z := foldr (fun h n => range_size h + n) 0 rs.

Lemma text_size_app l1 l2 : text_size (l1 ++ l2) = text_size l1 + text_size l2.
Proof. induction l1 as [|h l1 IH]; [done|]. simpl. rewrite IH. lia. Qed.

Lemma strlen_commas l : strlen (commas l) <= foldr (fun s n => strlen s + 1 + n) 0 l.
Proof.
  induction l as [|s l IH]; [done|]. destruct l as [|s' l]; [simpl; lia|]. rewrite commas_cons, strlen_app by done.
  change (strlen (c_comma :: commas (s' :: l))) with (Z.of_nat (S (length (commas (s' :: l))))). unfold strlen in *. cbn [foldr] in *. lia.
Qed.

Lemma num_text_size z h : range_wf h -> strlen (num_text z h) <= 2 * (hr_width h + 20) + 1.
Proof.
  intros [_ _ Hl Hh Hw]. unfold num_text. destruct (hr_singlehost h); [change (strlen []) with 0; lia|]. cbn zeta.
  set (w := hr_width h - _). assert (Hw' : w <= hr_width h). { unfold w. destruct (Z.ltb_spec z 0), (Z.ltb_spec (hr_width h) z); simpl; lia. }
  pose proof (dg_20 (hr_lo h) ltac:(lia)). pose proof (dg_20 (hr_hi h) ltac:(lia)).
  rewrite strlen_app, strlen_fmt_lu by lia. unfold ewidth. case_match.
  - change (strlen (c_dash :: fmt_lu w (hr_hi h))) with (strlen ([c_dash] ++ fmt_lu w (hr_hi h))). rewrite strlen_app, strlen_fmt_lu by lia.
    change (strlen [c_dash]) with 1. unfold ewidth. lia.
  - change (strlen []) with 0. lia.
Qed.

Lemma group_text_size cray brackets g : Forall range_wf g -> g <> [] -> strlen (group_text cray brackets g) + 1 <= text_size g.
Proof.
  intros W Hne. destruct g as [|h g]; [done|]. unfold group_text. rewrite !strlen_app.
  assert (Hnums : forall z l, Forall range_wf l -> foldr (fun s n => strlen s + 1 + n) 0 (num_text z <$> l) <= foldr (fun h n => 2 * (hr_width h + 20) + 2 + n) 0 l).
  { intros z l Wl. induction Wl as [|x l Wx Wl IH]; [done|]. cbn [fmap list_fmap foldr]. pose proof (num_text_size z x Wx). lia. }
  assert (Hsum : forall l, Forall range_wf l -> foldr (fun h n => 2 * (hr_width h + 20) + 2 + n) 0 l <= text_size l).
  { intros l Wl. induction Wl as [|x l Wx Wl IH]; [done|]. cbn [foldr]. change (text_size (x :: l)) with (range_size x + text_size l).
    unfold range_size, strlen. pose proof (rw_width _ Wx). lia. }
  set (z := group_pad cray (h :: g)). pose proof (strlen_commas (num_text z <$> h :: g)) as Hc. pose proof (Hnums z _ W) as Hn.
  apply Forall_cons in W as [Wh W]. specialize (Hsum g W). cbn [foldr] in Hn. simpl in Hc |- *. cbn [text_size foldr]. unfold range_size. fold (text_size g).
  assert (Hz : strlen (if z =? 0 then [] else fmt_lu z 0) <= hr_width h + 20).
  { pose proof (rw_width _ Wh). destruct (z =? 0); [change (strlen []) with 0; lia|]. rewrite strlen_fmt_lu by lia. unfold ewidth.
    pose proof (dg_20 0 ltac:(lia)). assert (z <= Z.max 0 (hr_width h)); [|lia]. unfold z, group_pad. destruct cray; [|lia].
    pose proof (pad_from_le (_zero_padded (hr_hi h) (hr_width h)) h g). pose proof (rw_lo _ Wh). pose proof (rw_hi _ Wh).
    rewrite zero_padded_eq in * by lia. pose proof (dg_pos (hr_hi h) ltac:(lia)). lia. }
  assert (forall (b : bool) c, strlen (if b then [c] else []) <= 1) as Hb by (by intros []).
  pose proof (Hb (brackets && needs_brackets (h :: g)) c_open). pose proof (Hb (brackets && needs_brackets (h :: g)) c_close). simpl in *. lia.
Qed.

Lemma ranged_text_size cray brackets rs : Forall range_wf rs -> strlen (ranged_text cray brackets rs) <= text_size rs.
Proof.
  intros W. unfold ranged_text. etransitivity; [apply strlen_commas|]. rewrite <-(groups_concat rs) at 2.
  assert (Wg : Forall (fun g => Forall range_wf g /\ g <> []) (groups rs)).
  { apply Forall_and. split; [by apply groups_Forall|]. apply Forall_forall. apply groups_nonempty. }
  clear W. induction Wg as [|g gs [Wg Hne] Wgs IH]; [done|]. cbn [fmap list_fmap foldr concat]. rewrite text_size_app.
  pose proof (group_text_size cray brackets g Wg Hne). lia.
Qed.

Lemma short_range_size h : range_wf h -> Forall short (range_hosts h) -> range_size h <= 400.
Proof.
  intros Wf F. unfold range_size. pose proof (rw_lo _ Wf). pose proof (rw_hi _ Wf). assert (Hp : 0 <= strlen (hr_prefix h)) by (unfold strlen; lia).
  unfold range_hosts in F. destruct (hr_singlehost h) eqn:Es.
  - rewrite Forall_singleton in F. destruct (rw_single _ Wf Es) as (_ & _ & ->). unfold short in F. lia.
  - rewrite Forall_fmap, Forall_forall in F. specialize (F (hr_lo h) ltac:(rewrite elem_of_seqZ; lia)). simpl in F. unfold short, host_name in F.
    rewrite strlen_app, strlen_fmt_lu in F by lia. unfold ewidth in F. pose proof (dg_pos (hr_lo h) ltac:(lia)). pose proof (rw_width _ Wf). lia.
Qed.

Lemma short_text_size rs : Forall (fun x => range_wf x.2) rs -> Forall short (rhosts rs) -> text_size rs.*2 <= 400 * Z.of_nat (length rs).
Proof.
  intros Wf. induction Wf as [|x rs Wx Wf IH]; [done|]. rewrite rhosts_cons, Forall_app. intros [Fx F]. specialize (IH F).
  cbn [fmap list_fmap length]. change (text_size (x.2 :: rs.*2)) with (range_size x.2 + text_size rs.*2). pose proof (short_range_size _ Wx Fx). lia.
Qed.

(** Printing a list of at most 65536 hosts. *)
Lemma print_fits rs cray brackets : Forall (fun x => range_wf x.2) rs -> Forall short (rhosts rs) -> Z.of_nat (length (rhosts rs)) <= MAX_RANGE ->
  strlen (ranged_text cray brackets rs.*2) + 6 <= 2 ^ 30.
Proof.
  intros Wf F Hlen. pose proof (ranged_text_size cray brackets rs.*2 ltac:(by apply Forall_fmap)). pose proof (short_text_size rs Wf F).
  pose proof (ranges_le_hosts rs Wf). unfold MAX_RANGE in Hlen. lia.
Qed.

(** Names that are numbers without leading zeros. *)
Abbreviation plain_numbers l := (Forall (fun s => stem s = [] /\ trail s <> [] /\
  ewidth (strlen (trail s)) (num (trail s)) = ewidth 1 (num (trail s))) l).

Section text.
Context (env : cluster_env) (E1 : one_dim env) (fill : Z -> cstr) (Hfill : forall n, 0 <= n -> Z.of_nat (length (fill n)) = n).

(** A list that is printed and read back. *)
Lemma read_back_seq g hl l fuel : is_seq hl l -> Forall printable l -> Z.of_nat (length l) <= MAX_RANGE ->
  exists text hl' rs', hostlist_ranged_string_xmalloc fill env g hl = Ret (text, g) /\
    hostlist_create env fuel text = Ret (Some hl') /\ hl_rep hl' rs' /\ rhosts rs' = l /\ (is_cray_system env = false -> is_seq hl' l).
Proof using All.
  intros (rs & R & <- & Sd & F) Hp Hlen. pose proof (rep_wf _ _ R) as Wf. assert (Eh : rs.*2 ≫= range_hosts = rhosts rs) by (by rewrite list_fmap_bind).
  pose proof (print_fits rs (is_cray_system env) true Wf F Hlen) as Ht. pose proof (ranges_le_hosts rs Wf) as Hle. unfold MAX_RANGE in Hlen.
  destruct (wp_inv _ _ (create_ranged_text env fuel rs.*2 E1 (printable_listable rs Wf Sd Hp Hlen) ltac:(rewrite length_fmap; unfold MAX_RANGES; lia)
    ltac:(rewrite Eh; eapply Forall_impl; [exact Hp|]; by intros s []) ltac:(rewrite Eh, <-(rep_nhosts _ _ R); apply (rep_int _ _ R)))) as (r & Ec & hl' & rs' & -> & R' & E' & S').
  exists (ranged_text (is_cray_system env) true rs.*2), hl', rs'. unfold hostlist_ranged_string_xmalloc. rewrite E1.
  rewrite (ranged_xmalloc_spec fill Hfill env E1 g hl rs true 1) by (done || (by right) || apply R). rewrite E', Eh. split_and!; [done..|].
  intros Ecray. exists rs'. rewrite E', Eh. split_and!; try done. by apply S', Forall_fmap.
Qed.

(** Reading one token. *)
Lemma create_token fuel t (P : hostlist -> Prop) : token t ->
  wp (push_token env fuel 1 t 0 hostlist_new) (fun r => exists cap hl, r = Some (cap, hl) /\ P hl) ->
  wp (hostlist_create env fuel t) (fun r => exists hl, r = Some hl /\ P hl).
Proof using E1.
  intros Ht Hp. destruct (token_first t [] Ht) as [Hne _]. unfold hostlist_create, hostlist_create_dims. rewrite E1. cbn [Z.eqb].
  unfold _hostlist_create_bracketed. destruct t as [|c t]; [done|]. cbn [length]. rewrite loop_step.
  rewrite <-(app_nil_r (c :: t)) at 1. rewrite (next_tok_spec (c :: t) []) by (done || by left). cbn [mbind exec_bind drop_run].
  apply wp_inv in Hp as (r & -> & cap & hl & -> & HP). cbn [mbind exec_bind]. rewrite loop_step. simpl. by exists hl.
Qed.

(** All ranges are numbers only: they share one pair of brackets. *)
Lemma groups_numbers rs : Forall (fun h => hr_prefix h = [] /\ hr_singlehost h = false) rs -> rs <> [] -> groups rs = [rs].
Proof.
  induction 1 as [|h rs [Eh Es] Hrs IH]; [done|]. intros _. cbn [groups]. destruct rs as [|h' rs]; [done|]. rewrite IH by done.
  apply Forall_cons in Hrs as [[Eh' Es'] _]. assert (follows h h' = true) as ->; [|done].
  unfold follows, hostrange_within_range, hostrange_prefix_cmp. by rewrite Eh, Eh', Es, Es'.
Qed.

Lemma number_ranges rs : Forall (fun x => range_wf x.2) rs -> Forall (fun x => range_std x.2) rs -> plain_numbers (rhosts rs) ->
  Z.of_nat (length (rhosts rs)) <= MAX_RANGE -> Forall (fun h => readable [] h /\ _zero_padded (hr_hi h) (hr_width h) = 0) rs.*2.
Proof using.
  intros Wf Sd Hs Hlen. apply Forall_fmap, Forall_forall. intros x Hx. pose proof (range_count_le rs x Wf Hx).
  destruct (range_has_host rs x Wf Sd Hx) as (s & Hin' & Hin & Es). rewrite Forall_forall in Hs. destruct (Hs s Hin') as (E0 & Ht & Hw).
  rewrite Forall_forall in Wf, Sd. specialize (Wf _ Hx). specialize (Sd _ Hx). simpl. pose proof (rw_lo _ Wf). pose proof (rw_hi _ Wf).
  destruct (name_of_range _ _ Wf Sd Hin) as (_ & Hn & Hsing). destruct (hr_singlehost x.2) eqn:Esh; [done|].
  split; [split; [done|done|congruence|lia]|]. rewrite zero_padded_eq by lia.
  apply (elem_of_range_hosts _ _ Wf Sd Esh) in Hin as (_ & _ & _ & Hin); [|lia]. rewrite Hw in Hin. unfold ewidth in Hin.
  pose proof (dg_pos (num (trail s)) ltac:(lia)). pose proof (dg_mono (hr_hi x.2) ltac:(lia) (num (trail s)) ltac:(lia)). lia.
Qed.

Lemma numbers_text cray rs : Forall (fun h => readable [] h /\ _zero_padded (hr_hi h) (hr_width h) = 0) rs -> rs <> [] ->
  ranged_text cray false rs = commas (num_text 0 <$> rs) /\ commas (num_text 0 <$> rs) <> [].
Proof using.
  intros [Hr Hz]%Forall_and Hne. split.
  - unfold ranged_text. rewrite groups_numbers; [|eapply Forall_impl; [exact Hr|]; by intros h []|done]. cbn [fmap list_fmap commas]. unfold group_text.
    destruct rs as [|h l]; [done|]. apply Forall_cons in Hr as [[_ _ -> _] _], Hz as [Hz _].
    assert (group_pad cray (h :: l) = 0) as ->; [|rewrite Z.eqb_refl; cbn [andb app]; by rewrite app_nil_r].
    unfold group_pad. destruct cray; [|done]. rewrite Hz. pose proof (pad_from_le 0 h l). pose proof (pad_from_nonneg 0 h l). lia.
  - destruct rs as [|h l]; [done|]. apply Forall_cons in Hr as [[Wh Es _ _] _]. cbn [fmap list_fmap]. intros E.
    assert (E2 : num_text 0 h = []). { destruct (num_text 0 <$> l) eqn:El; [done|]. rewrite commas_cons in E by done. by apply app_nil in E as [-> _]. }
    unfold num_text in E2. rewrite Es in E2. apply app_nil in E2 as [E2 _]. pose proof (rw_lo _ Wh). pose proof (rw_hi _ Wh). by apply fmt_lu_nonempty in E2; [|lia].
Qed.

(** Numbers printed without brackets are read back between brackets. *)
Lemma read_back_numbers g hl l fuel : is_seq hl l -> l <> [] -> plain_numbers l -> Z.of_nat (length l) <= MAX_RANGE ->
  exists text hl' rs', hostlist_ranged_string_xmalloc_dims fill env g hl 1 false = Ret (text, g) /\ text <> [] /\
    hostlist_create env fuel (c_open :: text ++ [c_close]) = Ret (Some hl') /\ hl_rep hl' rs' /\ rhosts rs' = l.
Proof using All.
  intros (rs & R & <- & Sd & F) Hne Hs Hlen. pose proof (rep_wf _ _ R) as Wf. pose proof (ranges_le_hosts rs Wf) as Hle.
  rewrite (ranged_xmalloc_spec fill Hfill env E1 g hl rs false 1) by ((by right) || apply R || by apply print_fits).
  pose proof (number_ranges rs Wf Sd Hs Hlen) as Hr. assert (Hne2 : rs.*2 <> []) by (intros E%fmap_nil_inv; subst; by apply Hne).
  destruct (numbers_text (is_cray_system env) rs.*2 Hr Hne2) as [-> Ht]. apply Forall_and in Hr as [Hr _].
  assert (Eh : rs.*2 ≫= range_hosts = rhosts rs) by (by rewrite list_fmap_bind). set (text := commas (num_text 0 <$> rs.*2)) in *.
  assert (Hp : wp (push_token env fuel 1 (c_open :: text ++ [c_close]) 0 hostlist_new) (fun r =>
    exists cap hl', r = Some (cap, hl') /\ exists rs', hl_rep hl' rs' /\ rhosts rs' = rhosts rs)).
  { eapply wp_mono; [apply (push_list_token env fuel [] rs.*2 0 hostlist_new []); try done|].
    - split_and!; [constructor|apply not_elem_of_nil..].
    - rewrite length_fmap. unfold MAX_RANGE, MAX_RANGES in *. lia.
    - apply rep_new.
    - rewrite Eh. simpl. rewrite <-(rep_nhosts _ _ R). apply (rep_int _ _ R).
    - intros r (cap & hl' & rs' & -> & _ & R' & E' & _). exists cap, hl'. split; [done|]. exists rs'. by rewrite E', Eh. }
  assert (Htok : token (c_open :: text ++ [c_close])).
  { apply (token_list [] text); [constructor|apply not_elem_of_nil..|by apply (commas_chars [])|by apply (commas_chars [])]. }
  destruct (wp_inv _ _ (create_token fuel _ _ Htok Hp)) as (r & Ec & hl' & -> & rs' & R' & E'). by exists text, hl', rs'.
Qed.
End text.
