(* ===== verification/HostlistProps.v ===== *)
(** * Host lists: theorems

    A pool of host lists is driven by sequences of operations and compared with
    a pool of plain sequences of names. *)

From Stdlib Require Import Sorting.Sorted.
From stdpp Require Import functions.
From S2P Require Import Prelude NatCmp Hostlist HostlistParse HostlistPrint HostlistFacts HostlistOps HostlistSeq HostlistText HostlistRead HostlistSort HostlistCoalesce HostlistOrder HostlistIter HostlistNames.

Local Open Scope Z_scope.
Local Open Scope slurm_scope.

(** ** The order of names *)

(** A number without leading zeros. *)
Lemma dec_head_nonzero n : 0 < n < 2 ^ 64 -> exists c d, dec n = c :: d /\ 49 <= c <= 57.
Proof.
  intros Hn. assert (H : 0 < n -> exists c d, dec n = c :: d /\ 49 <= c <= 57); [|apply H; lia].
  pattern n. apply digits_ind; [| |lia]; intros k Hk.
  - intros H. rewrite dec_lt10 by lia. exists (48 + k), []. split; [done|lia].
  - intros IH _. rewrite dec_ge10 by lia. destruct IH as (c & d & -> & Hc); [dlia|]. by exists c, (d ++ [48 + k `mod` 10]).
Qed.

Lemma digit_run_all d : all_digits d -> digit_run d = d.
Proof. induction 1 as [|c d Hc Hd IH]; [done|]. cbn [digit_run]. by rewrite Hc, IH. Qed.

Lemma dec_all_digits n : 0 <= n -> all_digits (dec n).
Proof. intros Hn. by apply dec_digits_are_digits. Qed.

(** The first token of a number. *)
Lemma tok_dec n : 0 <= n < 2 ^ 64 -> tok (dec n) = if n =? 0 then [48] else 49 :: dg n :: dec n.
Proof.
  intros Hn. pose proof (digit_run_all _ (dec_all_digits n ltac:(lia))) as Hr. destruct (Z.eqb_spec n 0) as [->|]; [done|].
  destruct (dec_head_nonzero n ltac:(lia)) as (c & d & E & Hc). unfold dg. rewrite E in *. unfold tok. rewrite Hr.
  unfold isdigit. rewrite (proj2 (andb_true_iff _ _)) by lia. by rewrite (proj2 (Z.eqb_neq _ _)) by lia.
Qed.

Lemma num_dec n : 0 <= n < 2 ^ 64 -> num (dec n) = n.
Proof. intros Hn. unfold num, dec. by rewrite scan_dec by lia. Qed.

(** Fewer digits make a smaller number. *)
Lemma dg_lt n m : 0 <= n < 2 ^ 64 -> 0 <= m < 2 ^ 64 -> dg n < dg m -> n < m.
Proof. intros Hn Hm H. destruct (decide (n < m)); [done|]. pose proof (dg_mono n Hn m). lia. Qed.

Lemma lexz_tok_dec n m : 0 <= n < 2 ^ 64 -> 0 <= m < 2 ^ 64 -> lexz (tok (dec n)) (tok (dec m)) = Zcmp n m.
Proof.
  intros Hn Hm. rewrite !tok_dec by done. destruct (Z.eqb_spec n 0) as [->|], (Z.eqb_spec m 0) as [->|]; [done|..].
  - unfold Zcmp at 2. cbn. destruct (Z.ltb_spec 0 m); [done|lia].
  - unfold Zcmp at 2. cbn. destruct (Z.ltb_spec n 0); [lia|]. destruct (Z.ltb_spec 0 n); [done|lia].
  - cbn [lex]. rewrite (cmp_refl Zcmp 49). simpl. destruct (Z.lt_trichotomy (dg n) (dg m)) as [Hd|[Hd|Hd]].
    + pose proof (dg_lt n m Hn Hm Hd). by rewrite !Zcmp_lt by lia.
    + rewrite Hd, (cmp_refl Zcmp (dg m)). simpl. unfold dg in Hd.
      rewrite (lexz_scan (dec n) (dec m) 0) by (lia || by apply dec_all_digits; lia).
      fold (num (dec n)) (num (dec m)). by rewrite !num_dec.
    + pose proof (dg_lt m n Hm Hn Hd). by rewrite !Zcmp_gt by lia.
Qed.

Lemma strnatcmp_dec n m : 0 <= n < 2 ^ 64 -> 0 <= m < 2 ^ 64 -> strnatcmp (dec n) (dec m) = Zcmp n m.
Proof.
  intros Hn Hm. rewrite strnatcmp_toks by (apply digits_are_plain, dec_all_digits; lia). pose proof (lexz_tok_dec n m Hn Hm) as H.
  assert (Ht : forall s, toks s = tok s :: match s with [] => [] | _ :: s' => toks s' end) by (by intros []).
  rewrite (Ht (dec n)), (Ht (dec m)). cbn [lex]. rewrite H.
  destruct (Z.eqb_spec (Zcmp n m) 0) as [E|]; [|done]. apply (cmp_eq (cmp:=Zcmp)) in E as ->.
  rewrite (cmp_refl Zcmp). apply (cmp_refl (lex lexz)).
Qed.

(** Natural order is a linear order on the prefixes of hosts, which have no
    white space: two of them compare equal exactly when they are the same,
    swapping them negates the result and the order is transitive, which sorting
    and merging of ranges rely on.  Numbers after a common start without a digit
    at its end compare by value, so that "n2" comes before "n10". *)
Theorem natural_order_is_linear a b c p n m : plain a -> plain b -> plain c ->
  plain p -> (forall x, last p = Some x -> isdigit x = false) -> 0 <= n < 2 ^ 64 -> 0 <= m < 2 ^ 64 ->
  (strnatcmp a b = 0 <-> a = b) /\ strnatcmp b a = - strnatcmp a b /\
  (strnatcmp a b <= 0 -> strnatcmp b c <= 0 -> strnatcmp a c <= 0) /\
  strnatcmp (p ++ fmt_lu 0 n) (p ++ fmt_lu 0 m) = Zcmp n m.
Proof.
  intros Ha Hb Hc Hp Hl Hn Hm. split_and!; [by apply strnatcmp_eq|by apply strnatcmp_anti|by apply strnatcmp_trans|].
  change (fmt_lu 0 n) with (dec n). change (fmt_lu 0 m) with (dec m).
  rewrite strnatcmp_common; [by apply strnatcmp_dec| | |done];
    (apply Forall_app; split; [done|apply digits_are_plain, dec_all_digits; lia]).
Qed.

(** "n2", "n10" and "n10a". *)
Lemma natural_order_is_linear_witness :
  let n2 := [110; 50] in let n10 := [110; 49; 48] in let n10a := [110; 49; 48; 97] in
  (strnatcmp n2 n10 = 0 <-> n2 = n10) /\ strnatcmp n10 n2 = - strnatcmp n2 n10 /\
  (strnatcmp n2 n10 <= 0 -> strnatcmp n10 n10a <= 0 -> strnatcmp n2 n10a <= 0) /\
  strnatcmp ([110] ++ fmt_lu 0 2) ([110] ++ fmt_lu 0 10) = Zcmp 2 10.
Proof.
  cbv zeta. apply natural_order_is_linear; [..|lia|lia]; try (repeat constructor; (done || lia)).
  by intros x [= <-].
Defined.

(** ** Lists as sequences of names *)

(** Operations; [p] and [q] are lists of the pool. *)
Inductive hl_op : Type :=
| PushHost (p : nat) (s : cstr)
| PopHost (p : nat)
| ShiftHost (p : nat)
| NthHost (p : nat) (n : Z)
| DeleteNth (p : nat) (n : Z)
| FindHost (p : nat) (s : cstr)
| DeleteHost (p : nat) (s : cstr)
| CountHosts (p : nat)
| PushList (p q : nat)
| CopyList (p : nat).

(** What the caller sees; [hostlist_push_list] returns nothing of use. *)
Inductive hl_out : Type :=
| Number (n : Z)
| Name (s : option cstr)
| Nothing.

Section run.
Context (env : cluster_env).

Definition pick (pool : list hostlist) (p : nat) : exec hostlist :=
  match pool !! p with Some hl => Ret hl | None => Fault end.

Definition run_hl_op (op : hl_op) (pool : list hostlist) : exec (hl_out * list hostlist) :=
  match op with
  | PushHost p s =>
      hl ← pick pool p; '(rc, hl) ← hostlist_push_host env hl s; Ret (Number rc, <[p := hl]> pool)
  | PopHost p =>
      hl ← pick pool p; '(h, hl) ← hostlist_pop env hl; Ret (Name h, <[p := hl]> pool)
  | ShiftHost p =>
      hl ← pick pool p; '(h, hl) ← hostlist_shift env hl; Ret (Name h, <[p := hl]> pool)
  | NthHost p n =>
      hl ← pick pool p; h ← hostlist_nth env hl n; Ret (Name h, pool)
  | DeleteNth p n =>
      hl ← pick pool p; '(rc, hl) ← hostlist_delete_nth hl n; Ret (Number rc, <[p := hl]> pool)
  | FindHost p s =>
      hl ← pick pool p; '(i, hl) ← hostlist_find env hl s; Ret (Number i, <[p := hl]> pool)
  | DeleteHost p s =>
      hl ← pick pool p; '(rc, hl) ← hostlist_delete_host env hl s; Ret (Number rc, <[p := hl]> pool)
  | CountHosts p =>
      hl ← pick pool p; Ret (Number (hostlist_count hl), pool)
  | PushList p q =>
      h1 ← pick pool p; h2 ← pick pool q;
      '(_, h1, h2) ← hostlist_push_list h1 h2;
      Ret (Nothing, <[p := h1]> (<[q := h2]> pool))
  | CopyList p =>
      hl ← pick pool p; hl ← hostlist_copy hl; Ret (Nothing, pool ++ [hl])
  end.

Fixpoint run_hl_ops (ops : list hl_op) (pool : list hostlist) : exec (list hl_out * list hostlist) :=
  match ops with
  | [] => Ret ([], pool)
  | op :: ops =>
      '(x, pool) ← run_hl_op op pool;
      '(xs, pool) ← run_hl_ops ops pool;
      Ret (x :: xs, pool)
  end.
End run.

(** The same operations on sequences of names. *)
Definition seq_op (op : hl_op) (ls : list (list cstr)) : hl_out * list (list cstr) :=
  match op with
  | PushHost p s => (Number 1, <[p := (ls !!! p) ++ [s]]> ls)
  | PopHost p => (Name (last (ls !!! p)), <[p := take (length (ls !!! p) - 1) (ls !!! p)]> ls)
  | ShiftHost p => (Name (head (ls !!! p)), <[p := drop 1 (ls !!! p)]> ls)
  | NthHost p n => (Name ((ls !!! p) !! Z.to_nat n), ls)
  | DeleteNth p n => (Number 1, <[p := delete (Z.to_nat n) (ls !!! p)]> ls)
  | FindHost p s => (Number (found_at s (ls !!! p)), ls)
  | DeleteHost p s =>
      match index_of s (ls !!! p) with
      | Some i => (Number 1, <[p := delete i (ls !!! p)]> ls)
      | None => (Number 0, ls)
      end
  | CountHosts p => (Number (Z.of_nat (length (ls !!! p))), ls)
  | PushList p q => (Nothing, <[p := (ls !!! p) ++ (ls !!! q)]> ls)
  | CopyList p => (Nothing, ls ++ [ls !!! p])
  end.

Fixpoint seq_ops (ops : list hl_op) (ls : list (list cstr)) : list hl_out * list (list cstr) :=
  match ops with
  | [] => ([], ls)
  | op :: ops =>
      let '(x, ls) := seq_op op ls in
      let '(xs, ls) := seq_ops ops ls in
      (x :: xs, ls)
  end.

(** What callers must ensure: lists of the pool, names that fit the buffers,
    positions of hosts, and totals that fit an [int]. *)
Definition hl_op_ok (op : hl_op) (ls : list (list cstr)) : Prop :=
  match op with
  | PushHost p s => (p < length ls)%nat /\ name_ok s /\ short s /\ Z.of_nat (length (ls !!! p)) < i32_max
  | NthHost p n => (p < length ls)%nat /\ 0 <= n
  | DeleteNth p n => (p < length ls)%nat /\ 0 <= n < Z.of_nat (length (ls !!! p))
  | FindHost p s | DeleteHost p s => (p < length ls)%nat /\ name_ok s
  | PushList p q => (p < length ls)%nat /\ (q < length ls)%nat /\ p <> q /\
      Z.of_nat (length (ls !!! q)) * Z.of_nat (length ((ls !!! p) ++ (ls !!! q))) <= i32_max
  | PopHost p | ShiftHost p | CountHosts p | CopyList p => (p < length ls)%nat
  end.

Fixpoint hl_ops_ok (ops : list hl_op) (ls : list (list cstr)) : Prop :=
  match ops with
  | [] => True
  | op :: ops => hl_op_ok op ls /\ hl_ops_ok ops (seq_op op ls).2
  end.

Section simulation.
Context (env : cluster_env) (E1 : one_dim env).

(** One operation of the pool. *)
Lemma run_hl_op_seq op pool ls : Forall2 is_seq pool ls -> hl_op_ok op ls ->
  wp (run_hl_op env op pool) (fun '(x, pool') => x = (seq_op op ls).1 /\ Forall2 is_seq pool' (seq_op op ls).2).
Proof.
  intros H Hop. pose proof (Forall2_length _ _ _ H) as Hlen.
  assert (Hpick : forall p, (p < length ls)%nat -> exists hl, pick pool p = Ret hl /\ pool !! p = Some hl /\ is_seq hl (ls !!! p)).
  { intros p Hp. destruct (lookup_lt_is_Some_2 ls p Hp) as [l Hl]. destruct (Forall2_lookup_r _ _ _ _ _ H Hl) as (hl & Ehl & Hs).
    exists hl. unfold pick. by rewrite Ehl, (list_lookup_total_correct _ _ _ Hl). }
  assert (Hset : forall p hl l, is_seq hl l -> Forall2 is_seq (<[p := hl]> pool) (<[p := l]> ls)) by (intros; by apply Forall2_insert).
  assert (Hsame : forall p hl, is_seq hl (ls !!! p) -> Forall2 is_seq (<[p := hl]> pool) ls).
  { intros p hl Hs. destruct (decide (p < length ls)%nat) as [Hp|Hp].
    - rewrite <-(list_insert_id ls p (ls !!! p)); [by apply Hset|by apply list_lookup_lookup_total_lt].
    - rewrite list_insert_ge by lia. done. }
  destruct op as [p s|p|p|p n|p n|p s|p s|p|p q|p]; simpl in Hop |- *.
  1: destruct Hop as (Hp & Hs & Hsh & Hlt). 4, 5, 6, 7: destruct Hop as [Hp Hs]. 9: destruct Hop as (Hp & Hq & Hne & Hmax).
  all: destruct (Hpick p ltac:(done)) as (hl & -> & Epool & Hl); simpl.
  - apply wp_bind. eapply wp_mono; [by apply (push_host_seq env E1 _ _ s Hl)|]. intros [rc hl'] [-> H']. split; [done|]. by apply Hset.
  - apply wp_bind. eapply wp_mono; [by apply (pop_seq env E1 _ _ Hl)|]. intros [h hl'] [-> H']. split; [done|]. by apply Hset.
  - apply wp_bind. eapply wp_mono; [by apply (shift_seq env E1 _ _ Hl)|]. intros [h hl'] [-> H']. split; [done|]. by apply Hset.
  - destruct Hl as (rs & R & <- & S & F). by rewrite (nth_spec env hl rs).
  - apply wp_bind. eapply wp_mono; [by apply (delete_nth_seq _ _ n Hl)|]. intros [rc hl'] [-> H']. split; [done|]. by apply Hset.
  - apply wp_bind. eapply wp_mono; [by apply (find_seq env E1 _ _ s Hl)|]. intros [i hl'] [-> H']. split; [done|]. by apply Hsame.
  - apply wp_bind. eapply wp_mono; [by apply (delete_host_seq env E1 _ _ s Hl)|]. intros [rc hl'] H'.
    destruct (index_of s (ls !!! p)) as [i|]; destruct H' as [-> H']; (split; [done|]); [by apply Hset|by apply Hsame].
  - destruct Hl as (rs & R & <- & _). split; [|done]. unfold hostlist_count. by rewrite (rep_nhosts _ _ R).
  - destruct (Hpick q Hq) as (hl2 & -> & Eq & Hl2). simpl. apply wp_bind.
    eapply wp_mono; [by apply (push_list_seq _ _ _ _ Hl Hl2)|]. intros [[k h1] h2] [H1 H2]. split; [done|].
    apply Forall2_insert; [by apply Hsame|done].
  - apply wp_bind. eapply wp_mono; [by apply (copy_seq _ _ Hl)|]. intros hl' H'. split; [done|].
    apply Forall2_app; [done|]. by constructor.
Qed.

Lemma run_hl_ops_seq ops : forall pool ls, Forall2 is_seq pool ls -> hl_ops_ok ops ls ->
  wp (run_hl_ops env ops pool) (fun '(xs, pool') => xs = (seq_ops ops ls).1 /\ Forall2 is_seq pool' (seq_ops ops ls).2).
Proof.
  induction ops as [|op ops IH]; intros pool ls H Hok; [done|]. destruct Hok as [Hop Hok]. cbn [run_hl_ops seq_ops].
  apply wp_bind. eapply wp_mono; [by apply (run_hl_op_seq op pool ls)|]. intros [x pool'] [-> H'].
  destruct (seq_op op ls) as [x ls']. apply wp_bind. eapply wp_mono; [by apply (IH pool' ls')|].
  intros [xs pool2] [-> H2]. destruct (seq_ops ops ls') as [xs' ls2]. done.
Qed.
End simulation.

(** C10: Host lists are sequences of host names.  From any number of new lists,
    every sequence of pushes of names and of whole lists, removals at both ends,
    by position and by name, lookups by position and by name, counts and copies
    runs without touching memory that is not its own or failing an assertion, and
    returns exactly what the same operations on plain sequences of names return:
    however the names are merged into ranges, no host is lost, duplicated,
    renamed or reordered.  Names have no white space, have at most 78 characters,
    end in numbers below 2^31, and systems have one dimension; the lists that
    result stand for the resulting sequences. *)
Theorem hostlists_refine_sequences env k ops : one_dim env -> hl_ops_ok ops (replicate k []) ->
  exists pool, run_hl_ops env ops (replicate k hostlist_new) = Ret ((seq_ops ops (replicate k [])).1, pool) /\
    Forall2 is_seq pool (seq_ops ops (replicate k [])).2.
Proof.
  intros E1 Hok. destruct (wp_inv _ _ (run_hl_ops_seq env E1 ops (replicate k hostlist_new) (replicate k [])
    (Forall2_replicate _ _ _ _ is_seq_new) Hok)) as ([xs pool] & -> & -> & H).
  by exists pool.
Qed.

(** A cluster of one dimension. *)
Definition env_1d : cluster_env := ClusterEnv None 1 false.

(** "n07" and "n08" share a range, "n9" and "gpu" do not. *)
Lemma hostlists_refine_sequences_witness :
  let n07 := [110; 48; 55] in let n08 := [110; 48; 56] in let n9 := [110; 57] in let gpu := [103; 112; 117] in
  let ops := [PushHost 0 n07; PushHost 0 n08; PushHost 0 n9; PushHost 0 gpu; CopyList 0; FindHost 1 n08; DeleteHost 1 n07;
              PushList 0 1; CountHosts 0; DeleteNth 0 1; NthHost 0 1; PopHost 0; ShiftHost 0] in
  exists pool, run_hl_ops env_1d ops (replicate 1 hostlist_new) =
    Ret ([Number 1; Number 1; Number 1; Number 1; Nothing; Number 1; Number 1; Nothing; Number 7; Number 1;
          Name (Some n9); Name (Some gpu); Name (Some n07)], pool).
Proof.
  cbv zeta. match goal with |- exists _, run_hl_ops _ ?ops _ = _ =>
    destruct (hostlists_refine_sequences env_1d 1 ops eq_refl) as (pool & -> & _) end; [|by exists pool].
  repeat split; try (vm_compute; reflexivity || lia); try (repeat constructor; vm_compute; done || lia); vm_compute; lia.
Defined.

(** ** Text *)

(** What a function that prints [text] into the first [n] characters of [buf] may
    return: the length of the text, which is in the buffer with a NUL after it, or
    -1 and a NUL in the last place; nothing is written from position [n] on.
    [slack] is the room that must be left for the text to be printed. *)
Definition printed (slack n : Z) (buf text : cstr) (len : Z) (buf' : cstr) : Prop :=
  length buf' = length buf /\ drop (Z.to_nat n) buf' = drop (Z.to_nat n) buf /\
  ((len = -1 /\ n < strlen text + slack /\ buf' !! Z.to_nat (n - 1) = Some 0) \/
   (len = strlen text /\ len < n /\ text ++ [0] `prefix_of` buf')).

(** C14: The functions that print host lists stay within their buffers.  For every
    list, every buffer and every size [n] that is at least 1 and not more than what
    the buffer has, [hostlist_ranged_string_dims] and, for lists that are not
    empty, [hostlist_deranged_string_dims] read and write inside the list and the
    first [n] characters only; they return the length of the complete text, which
    is then in the buffer and ends in a NUL, or -1 when it does not fit, with a NUL
    in the last place.  A text that leaves 6 characters, respectively 1 character,
    unused is never refused. *)
Theorem printing_stays_in_buffer env g hl rs n buf dims brackets fuel :
  one_dim env -> hl_rep hl rs -> 1 <= n <= Z.of_nat (length buf) -> dims = 0 \/ dims = 1 -> (length (rhosts rs) < fuel)%nat ->
  (exists len buf', hostlist_ranged_string_dims env g hl n buf dims brackets = Ret (len, buf', g) /\
     printed 6 n buf (ranged_text (is_cray_system env) brackets rs.*2) len buf') /\
  (rs <> [] -> exists len buf', hostlist_deranged_string_dims env fuel hl n buf dims = Ret (len, buf') /\
     printed 1 n buf (commas (rhosts rs)) len buf').
Proof.
  intros E1 R Hn Hd Hfuel. pose proof (rep_wf _ _ R) as W. split.
  - assert (Hp : Forall (fun h => plain (hr_prefix h)) rs.*2).
    { apply Forall_fmap. eapply Forall_impl; [exact W|]. by intros x []. }
    destruct (wp_inv _ _ (ranged_string_spec env E1 buf n ltac:(lia) hl rs (rep_arr _ _ R) Hp brackets g dims Hd))
      as ([[len buf'] g'] & -> & -> & Hl & Hr & H). exists len, buf'. split; [done|]. split; [done|]. split; [done|].
    destruct H as [(-> & Hlt & H)|H]; [left|by right]. split; [done|]. split; [done|]. apply H. lia.
  - intros Hne. destruct (wp_inv _ _ (deranged_string_spec env E1 buf n ltac:(lia) hl rs fuel dims ltac:(lia) (rep_arr _ _ R) W Hfuel Hd))
      as ([len buf'] & -> & Hl & Hr & H). exists len, buf'. split; [done|]. split; [done|]. split; [done|].
    destruct H as [(-> & Hlt & H)|(-> & Hlt & H)]; [left|right]; [split_and!; (done || lia)|]. by rewrite decide_False in H.
Qed.

(** "n07" and "n08", in a range of width 2. *)
Definition hl_n78 : hostlist :=
  match hostlist_push_hr hostlist_new [110] 7 8 2 with Ret (_, hl) => hl | _ => hostlist_new end.
Lemma hl_n78_rep : hl_rep hl_n78 [(0%nat, hostrange_create [110] 7 8 2)].
Proof.
  split; [split|..]; try done; try (repeat constructor; done || lia). apply NoDup_singleton.
Qed.

(** Nine characters of a buffer of ten. *)
Lemma printing_stays_in_buffer_witness :
  (exists len buf', hostlist_ranged_string_dims env_1d grid_init hl_n78 9 (replicate 10 1) 0 true = Ret (len, buf', grid_init) /\
     printed 6 9 (replicate 10 1) (ranged_text false true [hostrange_create [110] 7 8 2]) len buf') /\
  ([(0%nat, hostrange_create [110] 7 8 2)] <> [] ->
   exists len buf', hostlist_deranged_string_dims env_1d 3 hl_n78 9 (replicate 10 1) 0 = Ret (len, buf') /\
     printed 1 9 (replicate 10 1) (commas (rhosts [(0%nat, hostrange_create [110] 7 8 2)])) len buf').
Proof.
  apply (printing_stays_in_buffer env_1d grid_init hl_n78 [(0%nat, hostrange_create [110] 7 8 2)]);
    [done|apply hl_n78_rep|simpl; lia|by left|vm_compute; lia].
Defined.

(** C11: Host lists survive being sent as text.  The expression that
    [hostlist_ranged_string_xmalloc] returns for a list, with its brackets, merged
    ranges and, on Cray systems, zeros in front of the brackets, is parsed by
    [hostlist_create] into a list of exactly the same host names in the same
    order, whatever was in the memory that is allocated for the text.  Prefixes
    have no brackets, commas or white space, ranges and groups have at most 65536
    members, and the text is shorter than a gigabyte. *)
Theorem hostlist_string_roundtrip env fill g hl rs fuel :
  one_dim env -> (forall n, 0 <= n -> Z.of_nat (length (fill n)) = n) -> hl_rep hl rs ->
  Forall listable rs.*2 -> Z.of_nat (length rs) <= MAX_RANGES -> Forall name_ok (rhosts rs) ->
  strlen (ranged_text (is_cray_system env) true rs.*2) + 6 <= 2 ^ 30 ->
  exists text hl' rs', hostlist_ranged_string_xmalloc fill env g hl = Ret (text, g) /\
    hostlist_create env fuel text = Ret (Some hl') /\ hl_rep hl' rs' /\ rhosts rs' = rhosts rs.
Proof.
  intros E1 Hfill R Hl Hlen Hok Ht. assert (Eh : rs.*2 ≫= range_hosts = rhosts rs) by (by rewrite list_fmap_bind).
  destruct (wp_inv _ _ (create_ranged_text env fuel rs.*2 E1 Hl ltac:(by rewrite length_fmap) ltac:(by rewrite Eh)
    ltac:(rewrite Eh, <-(rep_nhosts _ _ R); apply (rep_int _ _ R)))) as (r & Ec & hl' & rs' & -> & R' & E' & _).
  exists (ranged_text (is_cray_system env) true rs.*2), hl', rs'. unfold hostlist_ranged_string_xmalloc. rewrite E1.
  rewrite (ranged_xmalloc_spec fill Hfill env E1 g hl rs true 1) by (done || (by right) || apply R). by rewrite E', Eh.
Qed.

Lemma hostlist_string_roundtrip_witness :
  exists text hl' rs', hostlist_ranged_string_xmalloc (fun n => replicate (Z.to_nat n) 1) env_1d grid_init hl_n78 = Ret (text, grid_init) /\
    hostlist_create env_1d 0 text = Ret (Some hl') /\ hl_rep hl' rs' /\ rhosts rs' = rhosts [(0%nat, hostrange_create [110] 7 8 2)].
Proof.
  apply (hostlist_string_roundtrip env_1d _ grid_init hl_n78 [(0%nat, hostrange_create [110] 7 8 2)]);
    [done|intros n Hn; rewrite length_replicate; lia|apply hl_n78_rep| |vm_compute; discriminate| |vm_compute; discriminate].
  - repeat constructor; try done; try lia; by apply (bool_decide_unpack _).
  - assert (rhosts [(0%nat, hostrange_create [110] 7 8 2)] = [[110; 48; 55]; [110; 48; 56]]) as -> by (vm_compute; reflexivity).
    repeat constructor; vm_compute; done || lia.
Defined.

(** ** Sorting *)

(** C13: [hostlist_uniq] returns for every list whose numbers after one prefix are
    padded to one width, and leaves every host of the list exactly once, no other
    host, in increasing order: by prefix in natural order, names without a number
    first, then by number. *)
Theorem uniq_sorts_without_duplicates hl l : is_seq hl l -> uniform l ->
  exists hl' l', hostlist_uniq hl = Ret hl' /\ is_seq hl' l' /\ NoDup l' /\ (forall s, s ∈ l' <-> s ∈ l) /\ StronglySorted name_lt l'.
Proof. intros S U. destruct (uniq_seq hl l S U) as (hl' & l' & H). by exists hl', l'. Qed.

(** C12: [hostlist_sort] terminates and sorts.  For every list whose numbers after
    one prefix are padded to one width it comes to an end, although it may split
    ranges that overlap and start over: a list of [n] hosts takes at most
    [sort_rounds n] rounds of its loops.  The list then has the same hosts,
    duplicates included, in increasing order. *)
Theorem sort_terminates_and_sorts fuel hl l : is_seq hl l -> uniform l -> (sort_rounds (Z.of_nat (length l)) <= fuel)%nat ->
  exists hl' l', hostlist_sort fuel hl = Ret hl' /\ is_seq hl' l' /\ l' ≡ₚ l /\ StronglySorted name_le l'.
Proof. intros S U Hf. destruct (sort_seq fuel hl l S U Hf) as (hl' & l' & H). by exists hl', l'. Qed.

(** The list "n9,n[8-9],n7". *)
Definition hl_9897 : hostlist :=
  let add lo hi hl := match hostlist_push_hr hl [110] lo hi 1 with Ret (_, hl) => hl | _ => hl end in
  add 7 7 (add 8 9 (add 9 9 hostlist_new)).
Definition seq_9897 : list cstr := [[110; 57]; [110; 56]; [110; 57]; [110; 55]].

Lemma hl_9897_seq : is_seq hl_9897 seq_9897.
Proof.
  exists [(0%nat, hostrange_create [110] 9 9 1); (1%nat, hostrange_create [110] 8 9 1); (2%nat, hostrange_create [110] 7 7 1)].
  split_and!; [|by vm_compute|repeat constructor; by intros c [= <-]|repeat constructor].
  split; [split|..]; try done; try (repeat constructor; done || lia). by apply (bool_decide_unpack _).
Qed.

Lemma seq_9897_uniform : uniform seq_9897.
Proof. exists (fun _ => 1). repeat constructor. Qed.

Lemma uniq_sorts_without_duplicates_witness :
  exists hl' l', hostlist_uniq hl_9897 = Ret hl' /\ is_seq hl' l' /\ NoDup l' /\ (forall s, s ∈ l' <-> s ∈ seq_9897) /\ StronglySorted name_lt l'.
Proof. apply (uniq_sorts_without_duplicates hl_9897 seq_9897); [apply hl_9897_seq|apply seq_9897_uniform]. Defined.

Lemma sort_terminates_and_sorts_witness :
  exists hl' l', hostlist_sort (sort_rounds 4) hl_9897 = Ret hl' /\ is_seq hl' l' /\ l' ≡ₚ seq_9897 /\ StronglySorted name_le l'.
Proof. apply (sort_terminates_and_sorts (sort_rounds 4) hl_9897 seq_9897); [apply hl_9897_seq|apply seq_9897_uniform|done]. Defined.

(** Without the uniform padding neither holds: "a[5-15],a07,a10" keeps "a10" twice, and
    sorting "a[3-20],a[5-20],a07" fails an assertion. *)
Definition hl_mixed (rs : list (Z * Z * Z)) : hostlist :=
  foldl (fun hl '(lo, hi, w) => match hostlist_push_hr hl [97] lo hi w with Ret (_, hl) => hl | _ => hl end) hostlist_new rs.

Example uniq_mixed_padding :
  (hl ← hostlist_uniq (hl_mixed [(5, 15, 1); (7, 7, 2); (10, 10, 2)]); Ret (hl_nhosts hl)) = Ret 13.
Proof. by vm_compute. Qed.

Example sort_mixed_padding : hostlist_sort 1000 (hl_mixed [(3, 20, 1); (5, 20, 1); (7, 7, 2)]) = Fault.
Proof. by vm_compute. Qed.

(** ** Iterators *)

(** [m] new iterators. *)
Fixpoint create_iterators (m : nat) (hl : hostlist) : exec (list nat * hostlist) :=
  match m with
  | O => Ret ([], hl)
  | S m => '(k, hl) ← hostlist_iterator_create hl; '(ks, hl) ← create_iterators m hl; Ret (k :: ks, hl)
  end.

(** Calls of [hostlist_next] on the iterators [ks] in that order. *)
Fixpoint run_nexts (env : cluster_env) (ks : list nat) (hl : hostlist) : exec (list (option cstr) * hostlist) :=
  match ks with
  | [] => Ret ([], hl)
  | k :: ks => '(s, hl) ← hostlist_next env hl k; '(l, hl) ← run_nexts env ks hl; Ret (s :: l, hl)
  end.

(** The same calls on the names each iterator has still to visit. *)
Fixpoint seq_nexts (ks : list nat) (todo : nat -> list cstr) : list (option cstr) :=
  match ks with
  | [] => []
  | k :: ks => head (todo k) :: seq_nexts ks (<[k := tail (todo k)]> todo)
  end.

(** The iterators [ks] of [hl] have still to visit [todo]. *)
Definition iterating (hl : hostlist) (rs : rlist) (ks : list nat) (todo : nat -> list cstr) : Prop :=
  forall k, k ∈ ks -> exists it, iter_at hl k = Ret it /\ visit rs it (todo k).

Lemma create_iterators_spec rs m : forall hl, hl_arr hl rs -> Forall (fun x => range_wf x.2) rs ->
  exists ks hl', create_iterators m hl = Ret (ks, hl') /\ hl_arr hl' rs /\ hl_size hl' = hl_size hl /\ length ks = m /\ NoDup ks /\
    Forall (fun k => (hl_fresh hl <= k)%nat) ks /\ iterating hl' rs ks (fun _ => rhosts rs) /\
    (forall k, (k < hl_fresh hl)%nat -> iter_at hl' k = iter_at hl k).
Proof.
  induction m as [|m IH]; intros hl A Wf.
  { exists [], hl. split_and!; try done; [apply NoDup_nil_2|by intros k ?%not_elem_of_nil]. }
  destruct (visit_new A Wf) as (p & Hp & V). cbn [create_iterators]. unfold hostlist_iterator_create at 1. rewrite Hp. cbn [mbind exec_bind].
  set (k := hl_fresh hl). set (hl1 := with_fresh (with_ilist hl ((k, Hiter 0 p (-1)) :: hl_ilist hl)) (S k)).
  assert (A1 : hl_arr hl1 rs). { destruct A as [? ? ? ? ? Hf]. split; try done. eapply Forall_impl; [exact Hf|]. simpl. fold k. intros x. lia. }
  assert (H1 : forall j, iter_at hl1 j = if decide (k = j) then Ret (Hiter 0 p (-1)) else iter_at hl j) by (intros j; apply (iter_at_cons hl k (Hiter 0 p (-1)) (hl_ilist hl) j)).
  destruct (IH hl1 A1 Wf) as (ks & hl' & -> & A' & Hs & Hlen & Hnd & Hge & Hit & Hold). simpl in Hge, Hold. cbn [mbind exec_bind].
  exists (k :: ks), hl'. split_and!; try done; [by simpl; rewrite Hlen| | |..].
  - constructor; [|done]. intros Hin. rewrite Forall_forall in Hge. specialize (Hge _ Hin). lia.
  - constructor; [done|]. eapply Forall_impl; [exact Hge|]. simpl. fold k. intros x. lia.
  - intros j [->|Hj]%elem_of_cons; [|by apply Hit]. exists (Hiter 0 p (-1)). rewrite Hold by lia. by rewrite H1, decide_True.
  - intros j Hj. rewrite Hold by (fold k in Hj; lia). rewrite H1, decide_False; [done|]. fold k in Hj. lia.
Qed.

Lemma run_nexts_spec env rs ks sched : one_dim env -> Forall (fun x => range_wf x.2) rs -> Forall short (rhosts rs) -> forall hl todo,
  hl_arr hl rs -> Z.of_nat (length rs) < hl_size hl -> iterating hl rs ks todo -> Forall (.∈ ks) sched ->
  exists hl', run_nexts env sched hl = Ret (seq_nexts sched todo, hl').
Proof.
  intros E1 Wf F. induction sched as [|k sched IH]; intros hl todo A Hroom Hit Hin; [by exists hl|]. apply Forall_cons in Hin as [Hk Hin].
  destruct (Hit k Hk) as (it & Hat & V). destruct (next_spec env hl rs k it _ E1 A Wf F Hroom Hat V) as (it' & En & V').
  cbn [run_nexts seq_nexts]. rewrite En. cbn [mbind exec_bind].
  destruct (IH (set_iter hl k it') (<[k := tail (todo k)]> todo) ltac:(by apply arr_set_iter) Hroom) as (hl' & ->); [|done|by exists hl'].
  intros j Hj. destruct (decide (j = k)) as [->|Hne].
  - exists it'. rewrite (iter_at_set _ _ _ it), fn_lookup_insert by done. done.
  - destruct (Hit j Hj) as (it2 & Hj2 & V2). exists it2. rewrite iter_at_other, fn_lookup_insert_ne by done. done.
Qed.

(** C15: Iterators visit every host.  Any number of iterators over one list can be
    advanced in any order: each of them returns the hosts of the list one after
    the other, none left out or repeated, and then NULL however often it is asked,
    without regard to the others.  The list has a free slot in its array, is not
    changed meanwhile, and its names have at most 78 characters. *)
Theorem iterators_visit_every_host env hl l m : one_dim env -> is_seq hl l -> hl_nranges hl < hl_size hl ->
  exists ks hl', create_iterators m hl = Ret (ks, hl') /\ length ks = m /\ NoDup ks /\
    forall sched, Forall (.∈ ks) sched -> exists hl2, run_nexts env sched hl' = Ret (seq_nexts sched (fun _ => l), hl2).
Proof.
  intros E1 (rs & R & <- & S & F) Hroom. pose proof (rep_arr _ _ R) as A. rewrite (arr_nranges _ _ A) in Hroom.
  destruct (create_iterators_spec rs m hl A (rep_wf _ _ R)) as (ks & hl' & -> & A' & Hs & Hlen & Hnd & _ & Hit & _).
  exists ks, hl'. split_and!; try done. intros sched Hin. apply (run_nexts_spec env rs ks sched E1 (rep_wf _ _ R) F hl'); (done || lia).
Qed.

(** Two iterators over "n9,n[8-9],n7". *)
Lemma iterators_visit_every_host_witness :
  exists ks hl', create_iterators 2 hl_9897 = Ret (ks, hl') /\ length ks = 2%nat /\ NoDup ks /\
    forall sched, Forall (.∈ ks) sched -> exists hl2, run_nexts env_1d sched hl' = Ret (seq_nexts sched (fun _ => seq_9897), hl2).
Proof. apply (iterators_visit_every_host env_1d hl_9897 seq_9897 2); [done|apply hl_9897_seq|by vm_compute]. Defined.
