(* ===== verification/Route.v ===== *)
(** * Routing of forwarded messages: src/common/slurm_route.c

    How a list of hosts is divided among the branches of the message tree:
    [set_span] of src/common/slurm_protocol_api.c, the division by tree width
    of slurm_route.c and the plugin src/plugins/route/default, over the model of
    the host lists.  Debugging output is left out. *)

From S2P Require Import Prelude Hostlist HostlistParse.

Local Open Scope Z_scope.
Local Open Scope slurm_scope.

(** The configuration: [slurmdbd_conf] is set in the database daemon only, and
    [tree_width] is TreeWidth of slurm.conf. *)
Record route_conf : Type := RouteConf { slurmdbd_conf : bool; conf_tree_width : Z }.

Definition slurm_get_tree_width (conf : route_conf) : Z :=
  if slurmdbd_conf conf then 1 else conf_tree_width conf.

(** ** set_span *)

(** The body of [for (i = 0; i < tree_width; i++)]: go on with the next branch,
    or leave the loop. *)
Definition span_step (tree_width : Z) : Z * Z * list Z -> exec (Z * Z * list Z + Z * list Z) := fun '(i, rest, span) =>
  if negb (i <? tree_width) then Ret (inr (rest, span)) else
  x ← aget span i;
  if rest <=? tree_width - i then
    if x =? 0 then Ret (inr (0, span))
    else x ← i32 (x + rest); span ← aset span i x; Ret (inr (0, span))
  else if rest <=? tree_width then
    let rest := if x =? 0 then rest - 1 else rest in
    x ← i32 (x + rest); span ← aset span i x; Ret (inr (0, span))
  else
    let rest := if x =? 0 then rest - 1 else rest in
    x ← i32 (x + tree_width); span ← aset span i x;
    Ret (inl (i + 1, rest - tree_width, span)).

Definition set_span (conf : route_conf) (total tree_width : Z) : exec (list Z) :=
  let tree_width := if tree_width =? 0 then slurm_get_tree_width conf else tree_width in
  let span := replicate (Z.to_nat tree_width) 0 in
  if total <=? tree_width then Ret span else
  loop (S (Z.to_nat total)) (fun '(rest, span) =>
    if 0 <? rest then
      r ← loop (S (Z.to_nat tree_width)) (span_step tree_width) (0, rest, span);
      Ret (inl r)
    else Ret (inr span)) (total, span).

(** ** Dividing a list *)

Section split.
Context (env : cluster_env) (fuel : nat) (conf : route_conf).

(** [for (j = 0; j < span[nhl]; j++)], which ends early when the list is empty. *)
Definition fill_branch (n : Z) (hl : hostlist) (branch : option hostlist) : exec (hostlist * option hostlist) :=
  loop (S (Z.to_nat n)) (fun '(j, hl, branch) =>
    if j <? n then
      '(name, hl) ← hostlist_shift env hl;
      match name with
      | None => Ret (inr (hl, branch))
      | Some name =>
          match branch with
          | Some b => '(_, b) ← hostlist_push_host env b name; Ret (inl (j + 1, hl, Some b))
          | None => Ret (inl (j + 1, hl, None))
          end
      end
    else Ret (inr (hl, branch))) (0, hl, branch).

(** The lists made, their number and what is left of [hl]; [sp_hl] has
    [tree_width] entries. *)
Definition route_split_hostlist_treewidth (g_tree_width : Z) (hl : hostlist) (tree_width : Z) :
    exec (list (option hostlist) * Z * hostlist) :=
  let tree_width := if tree_width =? 0 then g_tree_width else tree_width in
  let host_count := hostlist_count hl in
  span ← set_span conf host_count tree_width;
  loop (S (Z.to_nat host_count)) (fun '(sp_hl, nhl, hl) =>
    '(name, hl) ← hostlist_shift env hl;
    match name with
    | None => Ret (inr (sp_hl, nhl, hl))
    | Some name =>
        branch ← hostlist_create env fuel name;
        sp_hl ← aset sp_hl nhl branch;
        n ← aget span nhl;
        '(hl, branch) ← fill_branch n hl branch;
        sp_hl ← aset sp_hl nhl branch;
        Ret (inl (sp_hl, nhl + 1, hl))
    end) (replicate (Z.to_nat tree_width) None, 0, hl).

(** The default plugin. *)
Definition route_p_split_hostlist (g_tree_width : Z) (hl : hostlist) (tree_width : Z) :
    exec (list (option hostlist) * Z * hostlist) :=
  route_split_hostlist_treewidth g_tree_width hl tree_width.

Definition route_g_split_hostlist (g_tree_width : Z) (hl : hostlist) (tree_width : Z) :
    exec (list (option hostlist) * Z * hostlist) :=
  route_p_split_hostlist g_tree_width hl (if tree_width =? 0 then g_tree_width else tree_width).

(** [_get_all_nodes], for a node table with the given names. *)
Fixpoint push_nodes (hl : hostlist) (names : list cstr) : exec hostlist :=
  match names with
  | [] => Ret hl
  | name :: names => '(_, hl) ← hostlist_push_host env hl name; push_nodes hl names
  end.
Definition _get_all_nodes (names : list cstr) : exec hostlist := push_nodes hostlist_new names.
End split.

(** ** Message collectors *)

(** Where a node sends its messages to be aggregated: the controller, or another node
    and possibly a second one. *)
Inductive collector : Type :=
| Controller
| Collector (parent : cstr) (backup : option cstr).

Section collectors.
Context (env : cluster_env) (fuel : nat) (conf : route_conf) (g_tree_width : Z).

(** The list that contains the node, and its position in the list. *)
Fixpoint find_branch (hll : list (option hostlist)) (this_node_name : cstr) : exec (option (hostlist * Z)) :=
  match hll with
  | [] => Ret None
  | None :: hll => find_branch hll this_node_name
  | Some hl :: hll =>
      '(f, hl) ← hostlist_find env hl this_node_name;
      if f =? -1 then find_branch hll this_node_name else Ret (Some (hl, f))
  end.

(** The collector and [this_is_collector]; the daemon stops when the node is not in
    the node table. *)
Definition _set_collectors (names : list cstr) (this_node_name : cstr) : exec (collector * bool) :=
  nodes ← _get_all_nodes env names;
  loop (S (length names)) (fun '(nodes, to) =>
    '(hll, hl_count, _) ← route_g_split_hostlist env fuel conf g_tree_width nodes 0;
    r ← find_branch (take (Z.to_nat hl_count) hll) this_node_name;
    match r with
    | None => Fault
    | Some (hl, f) =>
        if f =? 0 then Ret (inr (to, 1 <? hostlist_count hl))
        else
          nodes ← hostlist_copy hl;
          '(parent, nodes) ← hostlist_shift env nodes;
          backup ← hostlist_nth env nodes 0;
          backup ← (if bool_decide (backup = Some this_node_name)
                    then if 1 <? hostlist_count nodes then hostlist_nth env nodes 1 else Ret None
                    else Ret backup);
          Ret (inl (nodes, match parent with Some parent => Collector parent backup | None => to end))
    end) (nodes, Controller).
End collectors.
