(* ===== verification/RouteFacts.v ===== *)
(** * Division of host lists among branches: lemmas *)

From S2P Require Import Prelude NatCmp Hostlist HostlistParse HostlistPrint HostlistFacts HostlistOps HostlistSeq HostlistText HostlistRead HostlistSort HostlistCoalesce HostlistOrder HostlistNames Route.

Local Open Scope Z_scope.
Local Open Scope slurm_scope.

(** ** Spans *)

(** The hosts that the branches can take: one each, and what is forwarded. *)
Definition capacity (span : list Z) : Z := foldr (fun x n => 1 + x + n) 0 span.

(** The first branches forward to one tree width more than the last ones, and the
    branch between them to some part of it. *)
Definition even_span (W : nat) (span : list Z) : Prop :=
  exists (i : nat) c r, (i < W)%nat /\ 0 <= c /\ 0 <= r <= Z.of_nat W /\
    span = replicate i (c + Z.of_nat W) ++ (c + r) :: replicate (W - i - 1) c.

Lemma capacity_cons x l : capacity (x :: l) = 1 + x + capacity l.
Proof. done. Qed.

Lemma capacity_nonneg l : Forall (fun x => 0 <= x) l -> 0 <= capacity l.
Proof. induction 1; [done|]. rewrite capacity_cons. lia. Qed.

Lemma capacity_app l1 l2 : capacity (l1 ++ l2) = capacity l1 + capacity l2.
Proof. induction l1 as [|x l1 IH]; [done|]. simpl. rewrite IH. lia. Qed.

Lemma capacity_replicate n x : capacity (replicate n x) = Z.of_nat n * (1 + x).
Proof. induction n as [|n IH]; [done|]. simpl. rewrite IH. lia. Qed.

Lemma even_span_length W span : even_span W span -> length span = W.
Proof. intros (i & c & r & Hi & _ & _ & ->). rewrite length_app, length_cons, !length_replicate. lia. Qed.

Lemma even_span_bounds W span : even_span W span -> Forall (fun x => 0 <= x) span /\
  forall x y, x ∈ span -> y ∈ span -> x <= y + Z.of_nat W.
Proof.
  intros (i & c & r & Hi & Hc & Hr & ->).
  assert (H : forall x, x ∈ replicate i (c + Z.of_nat W) ++ (c + r) :: replicate (W - i - 1) c -> c <= x <= c + Z.of_nat W).
  { intros x. rewrite elem_of_app, elem_of_cons. intros [[-> _]%elem_of_replicate|[->|[-> _]%elem_of_replicate]]; lia. }
  split; [apply Forall_forall; intros x Hx; specialize (H x Hx); lia|].
  intros x y Hx Hy. pose proof (H x Hx). pose proof (H y Hy). lia.
Qed.

Lemma flat_even W c : (0 < W)%nat -> 0 <= c -> even_span W (replicate W c).
Proof.
  intros HW Hc. exists 0%nat, c, 0. split_and!; try lia. rewrite Z.add_0_r. by replace W with (S (W - 0 - 1)) at 1 by lia.
Qed.

Section span.
Context (W : nat) (HW : (0 < W)%nat).
Let w := Z.of_nat W.

(** The spans after the branches below [i] have been raised from [c]. *)
Definition raised (i : nat) (c : Z) : list Z := replicate i (c + w) ++ replicate (W - i) c.

Lemma raised_at i c : (i < W)%nat -> raised i c = replicate i (c + w) ++ c :: replicate (W - i - 1) c.
Proof. intros Hi. unfold raised. by replace (W - i)%nat with (S (W - i - 1)) at 1 by lia. Qed.

Lemma raised_lookup i c : (i < W)%nat -> aget (raised i c) (Z.of_nat i) = Ret c.
Proof.
  intros Hi. apply aget_lookup; [lia|]. rewrite Nat2Z.id, raised_at by done.
  rewrite lookup_app_r; rewrite length_replicate; [|done]. by rewrite Nat.sub_diag.
Qed.

Lemma raised_update i c x : (i < W)%nat -> aset (raised i c) (Z.of_nat i) x = Ret (replicate i (c + w) ++ x :: replicate (W - i - 1) c).
Proof.
  intros Hi. apply wp_eq, wp_aset.
  - unfold raised. rewrite length_app, !length_replicate. lia.
  - rewrite Nat2Z.id, raised_at by done. rewrite insert_app_r_alt; rewrite length_replicate; [|done]. by rewrite Nat.sub_diag.
Qed.

Lemma raised_next i c : (i < W)%nat -> replicate i (c + w) ++ (c + w) :: replicate (W - i - 1) c = raised (S i) c.
Proof. intros Hi. unfold raised. rewrite replicate_S_end, <-app_assoc. simpl. by replace (W - S i)%nat with (W - i - 1)%nat by lia. Qed.

(** One host of a branch that had no span yet is its own. *)
Definition own (c : Z) : Z := if c =? 0 then 1 else 0.

Lemma raise_spec c rest0 total : 0 <= c -> 0 < rest0 -> rest0 + c * w + (if c =? 0 then 0 else w) = total -> total <= i32_max ->
  wp (loop (S (Z.to_nat w)) (span_step w) (0, rest0, raised 0 c)) (fun '(rest, span) => 0 <= rest < rest0 /\
    Forall (fun x => x <= c + w) span /\
    (rest = 0 /\ even_span W span /\ total <= capacity span \/
     span = replicate W (c + w) /\ rest + (c + w) * w + w = total)).
Proof using HW.
  intros Hc Hr0 Ht Hmax.
  apply (wp_loop (fun '(i, rest, span) => exists k, (k <= W)%nat /\ i = Z.of_nat k /\ span = raised k c /\
      rest + i * (w + own c) = rest0 /\ 0 <= rest) (fun '(i, _, _) => Z.to_nat (w - i))
    (fun '(rest, span) => 0 <= rest < rest0 /\ Forall (fun x => x <= c + w) span /\ (rest = 0 /\ even_span W span /\ total <= capacity span \/
     span = replicate W (c + w) /\ rest + (c + w) * w + w = total))).
  4: done. 3: lia. 2: { exists 0%nat. split_and!; try done; lia. }
  intros [[i rest] span] (k & Hk & -> & -> & Hrest & Hpos). unfold span_step.
  destruct (Z.ltb_spec (Z.of_nat k) w) as [Hlt|Hge]; simpl.
  2: { assert (k = W) as -> by lia. unfold raised. rewrite Nat.sub_diag, app_nil_r. split; [unfold own in *; case_match; nia|].
       split; [apply Forall_replicate; lia|]. right. split; [done|]. unfold own in Hrest. destruct (Z.eqb_spec c 0) as [->|]; lia. }
  rewrite raised_lookup by lia. simpl. assert (Hcw : 0 <= Z.of_nat k * (w + own c)) by (unfold own; case_match; nia).
  assert (Htot : (if c =? 0 then Z.of_nat k else w) + Z.of_nat k * w + c * w + rest = total).
  { unfold own in Hrest. destruct (Z.eqb_spec c 0) as [->|]; lia. }
  assert (Hfin : forall r, 0 <= r <= w -> r <= rest -> rest <= r + own c \/ r = 0 /\ c = 0 /\ rest <= w - Z.of_nat k ->
    total <= capacity (replicate k (c + w) ++ (c + r) :: replicate (W - k - 1) c) /\ i32_min <= c + r <= i32_max).
  { intros r Hr Hrr Hor. rewrite capacity_app, capacity_cons, !capacity_replicate.
    unfold own, i32_min in *. destruct (Z.eqb_spec c 0); split; nia. }
  assert (Hle : forall r, r <= w -> Forall (fun x => x <= c + w) (replicate k (c + w) ++ (c + r) :: replicate (W - k - 1) c)).
  { intros r Hr. apply Forall_app. split; [apply Forall_replicate; lia|]. constructor; [lia|apply Forall_replicate; lia]. }
  destruct (Z.leb_spec rest (w - Z.of_nat k)) as [Hlw|Hgt].
  - destruct (Z.eqb_spec c 0) as [E0|E0].
    + apply wp_ret. split; [lia|]. destruct (Hfin 0) as [H1 _]; [lia|lia|right; lia|]. specialize (Hle 0 ltac:(lia)). rewrite Z.add_0_r in H1, Hle.
      rewrite raised_at by lia. split; [done|]. left. split; [done|]. split; [|done]. exists k, c, 0. rewrite Z.add_0_r. split_and!; (done || lia).
    + assert (own c = 0) as Eo by (unfold own; case_match; lia). destruct (Hfin rest) as [H1 H2]; [lia|lia|left; lia|].
      rewrite i32_ok by done. simpl. rewrite raised_update by lia. apply wp_ret. split; [nia|]. split; [apply Hle; lia|]. left. split_and!; [done| |done].
      exists k, c, rest. split_and!; (done || lia).
  - destruct (Z.leb_spec rest w) as [Hlw2|Hgw].
    + assert (E : (if c =? 0 then rest - 1 else rest) = rest - own c) by (unfold own; case_match; lia). rewrite E.
      assert (0 <= own c <= 1) by (unfold own; case_match; lia). destruct (Hfin (rest - own c)) as [H1 H2]; [lia|lia|left; lia|].
      rewrite i32_ok by done. simpl. rewrite raised_update by lia. apply wp_ret. split; [nia|]. split; [apply Hle; lia|]. left. split_and!; [done| |done].
      exists k, c, (rest - own c). split_and!; (done || lia).
    + assert (E : (if c =? 0 then rest - 1 else rest) = rest - own c) by (unfold own; case_match; lia). rewrite E.
      assert (0 <= own c <= 1) by (unfold own; case_match; lia).
      assert (c <= c * w /\ 0 <= Z.of_nat k * w) by nia. assert (0 <= (if c =? 0 then Z.of_nat k else w)) by (case_match; lia).
      rewrite i32_ok by (unfold i32_min; lia). simpl. rewrite raised_update, raised_next by lia. apply wp_ret. split; [|lia].
      exists (S k). split_and!; (done || lia).
Qed.

Lemma set_span_spec conf total tree_width : (if tree_width =? 0 then slurm_get_tree_width conf else tree_width) = w -> 0 <= total <= i32_max ->
  wp (set_span conf total tree_width) (fun span => even_span W span /\ total <= capacity span /\
    forall k, 0 <= k -> total <= w * (1 + k * w) -> Forall (fun x => x <= k * w) span).
Proof using HW.
  intros Ew Ht. unfold set_span. rewrite Ew. cbn zeta. rewrite (Nat2Z.id W : Z.to_nat w = W).
  destruct (Z.leb_spec total w) as [Hle|Hgt]; [apply wp_ret; rewrite capacity_replicate; split_and!; [by apply flat_even|lia|intros k Hk _; apply Forall_replicate; nia]|].
  set (small span := forall k, 0 <= k -> total <= w * (1 + k * w) -> Forall (fun x => x <= k * w) span).
  apply (wp_loop (fun '(rest, span) => 0 <= rest /\ ((rest = 0 /\ even_span W span /\ total <= capacity span /\ small span) \/
      exists q c, 0 <= q /\ c = q * w /\ span = replicate W c /\ rest + c * w + (if c =? 0 then 0 else w) = total))
    (fun '(rest, _) => Z.to_nat rest) (fun span => even_span W span /\ total <= capacity span /\ small span)).
  4: done. 3: lia. 2: { split; [lia|]. right. exists 0, 0. split_and!; try done. simpl. lia. }
  intros [rest span] [H0 H]. destruct (Z.ltb_spec 0 rest) as [Hpos|Hz].
  - destruct H as [(? & _)|(q & c & Hq & Eq & -> & Hsum)]; [lia|]. assert (Hc : 0 <= c) by nia.
    assert (Er : replicate W c = raised 0 c) by (unfold raised; by rewrite Nat.sub_0_r). rewrite Er. apply wp_bind.
    pose proof (raise_spec c rest total Hc Hpos Hsum ltac:(lia)) as Hr. rewrite (Nat2Z.id W : Z.to_nat w = W) in Hr.
    eapply wp_mono; [exact Hr|].
    assert (Hsmall : forall span', Forall (fun x => x <= c + w) span' -> small span').
    { intros span' Hs k Hk Htk. eapply Forall_impl; [exact Hs|]. intros x Hx. cbn beta in Hx |- *.
      destruct (Z.le_gt_cases k q) as [Hkq|Hkq]; [exfalso|pose proof (Z.mul_le_mono_nonneg_r (q + 1) k w ltac:(lia) ltac:(lia)); lia].
      pose proof (Z.mul_le_mono_nonneg_r k q w ltac:(lia) Hkq). pose proof (Z.mul_le_mono_nonneg_l (k * w) c w ltac:(lia) ltac:(lia)).
      destruct (Z.eqb_spec c 0); lia. }
    intros [rest' span'] (Hb & Hs & [(E0 & H1 & H2)|[-> E]]); apply wp_ret; (split; [split; [lia|]|lia]); [left; split_and!; auto|]. right.
    exists (q + 1), (c + w). split_and!; [lia|lia|done|]. rewrite (proj2 (Z.eqb_neq _ _)) by lia. lia.
  - apply wp_ret. destruct H as [(_ & H)|(q & c & Hq & Eq & -> & Hsum)]; [done|]. rewrite capacity_replicate.
    assert (c <> 0) by (intros ->; simpl in Hsum; lia). rewrite (proj2 (Z.eqb_neq _ _)) in Hsum by done.
    split_and!; [apply flat_even; (done || nia)|lia|]. intros k Hk Htk. apply Forall_replicate.
    destruct (Z.le_gt_cases q k) as [Hqk|Hqk]; [pose proof (Z.mul_le_mono_nonneg_r q k w ltac:(lia) Hqk); lia|].
    pose proof (Z.mul_le_mono_nonneg_r (k + 1) q w ltac:(lia) ltac:(lia)). pose proof (Z.mul_le_mono_nonneg_l (k * w) (c - w) w ltac:(lia) ltac:(lia)). nia.
Qed.
End span.

(** ** Branches *)

(** The hosts of each branch, for given spans. *)
Fixpoint branches (span : list Z) (l : list cstr) : list (list cstr) :=
  match span, l with
  | x :: span, a :: l => (a :: take (Z.to_nat x) l) :: branches span (drop (Z.to_nat x) l)
  | _, _ => []
  end.

Lemma branches_concat span : forall l, Forall (fun x => 0 <= x) span -> Z.of_nat (length l) <= capacity span -> concat (branches span l) = l.
Proof.
  induction span as [|x span IH]; intros [|a l] Hp Hl; try done. apply Forall_cons in Hp as [Hx Hp].
  cbn [branches concat]. pose proof (capacity_nonneg _ Hp). rewrite IH by (done || rewrite length_drop; rewrite capacity_cons in Hl; cbn [length] in Hl; lia). by rewrite <-app_comm_cons, take_drop.
Qed.

Lemma branches_le span l : (length (branches span l) <= length span)%nat.
Proof. revert l. induction span as [|x span IH]; intros [|a l]; simpl; try lia. specialize (IH (drop (Z.to_nat x) l)). lia. Qed.

Lemma branches_nonempty span l : Forall (fun b => b <> []) (branches span l).
Proof. revert l. induction span as [|x span IH]; intros [|a l]; simpl; constructor; done. Qed.

(** A branch is as long as its span, except the last one, which may be shorter. *)
Lemma branches_length span l i b : branches span l !! i = Some b -> exists x, span !! i = Some x /\
  (1 <= length b <= 1 + Z.to_nat x)%nat /\ (is_Some (branches span l !! S i) -> length b = (1 + Z.to_nat x)%nat).
Proof.
  revert l i. induction span as [|x span IH]; intros [|a l] i; try done. cbn [branches]. destruct i as [|i]; [|apply IH].
  intros [= <-]. exists x. split; [done|]. cbn [length]. rewrite length_take. split; [lia|]. intros [b' Hb]. simpl in Hb.
  destruct (drop (Z.to_nat x) l) eqn:E; [by destruct span|]. apply (f_equal length) in E. rewrite length_drop in E. simpl in E. lia.
Qed.

Section split.
Context (env : cluster_env) (E1 : one_dim env) (fuel : nat).

(** The list with one host. *)
Lemma create_host s : printable s -> short s -> wp (hostlist_create env fuel s) (fun r => exists hl, r = Some hl /\ is_seq hl [s]).
Proof using E1.
  intros (Hok & (Hu & Ho & Hc) & Hne) Hsh. apply (create_token env E1 fuel s (fun hl => is_seq hl [s])); [by apply token_name|].
  unfold push_token. rewrite strrchr_None by done. apply wp_bind. pose proof (push_host_seq env E1 hostlist_new [] s is_seq_new Hok Hsh ltac:(done)) as Hp.
  unfold hostlist_push_host in Hp. rewrite E1 in Hp. eapply wp_mono; [exact Hp|]. intros [rc hl] [_ H]. apply wp_ret. by exists 0, hl.
Qed.

Lemma is_seq_count hl l : is_seq hl l -> hostlist_count hl = Z.of_nat (length l) /\ Z.of_nat (length l) <= i32_max.
Proof. intros (rs & R & <- & _). unfold hostlist_count. pose proof (rep_int _ _ R). rewrite (rep_nhosts _ _ R) in *. done. Qed.

Lemma fill_branch_spec n hl l b lb : 0 <= n -> is_seq hl l -> Forall name_ok l -> is_seq b lb -> Z.of_nat (length (lb ++ l)) <= i32_max ->
  wp (fill_branch env n hl (Some b)) (fun '(hl', br) => is_seq hl' (drop (Z.to_nat n) l) /\ exists b', br = Some b' /\ is_seq b' (lb ++ take (Z.to_nat n) l)).
Proof using E1.
  intros Hn Hs Hok Hb Hmax. unfold fill_branch.
  apply (wp_loop (fun '(j, hl, br) => exists k b, 0 <= j <= n /\ k = Z.to_nat j /\ br = Some b /\ is_seq hl (drop k l) /\ is_seq b (lb ++ take k l))
    (fun '(j, _, _) => Z.to_nat (n - j))
    (fun '(hl', br) => is_seq hl' (drop (Z.to_nat n) l) /\ exists b', br = Some b' /\ is_seq b' (lb ++ take (Z.to_nat n) l))).
  4: done. 3: lia. 2: { exists 0%nat, b. rewrite drop_0, take_0, app_nil_r. split_and!; (done || lia). }
  clear b Hb. intros [[j hl1] br] (k & b & Hj & -> & -> & Hhl & Hb). destruct (Z.ltb_spec j n) as [Hlt|Hge].
  2: { assert (j = n) as -> by lia. apply wp_ret. split; [done|]. by exists b. }
  apply wp_bind. eapply wp_mono; [by apply (shift_seq env E1 _ (drop (Z.to_nat j) l))|]. intros [[name|] hl2] [Eh Hs2]; rewrite drop_drop in Hs2.
  - assert (El : l !! Z.to_nat j = Some name) by (rewrite <-(Nat.add_0_r (Z.to_nat j)), <-lookup_drop; by destruct (drop _ _)).
    pose proof (lookup_lt_Some _ _ _ El). rewrite Forall_lookup in Hok. assert (Hsh : short name).
    { destruct Hhl as (rs & _ & _ & _ & F). rewrite Forall_lookup in F. apply (F 0%nat). by rewrite lookup_drop, Nat.add_0_r. }
    apply wp_bind. eapply wp_mono; [apply (push_host_seq env E1 b _ name Hb); [by eapply Hok|done|]|].
    { rewrite !length_app in *. rewrite length_take. lia. }
    intros [rc b'] [_ Hb']. apply wp_ret. split; [|lia]. exists (Z.to_nat (j + 1)), b'. replace (Z.to_nat (j + 1)) with (S (Z.to_nat j)) by lia.
    split_and!; try (done || lia); [by replace (S (Z.to_nat j)) with (Z.to_nat j + 1)%nat by lia|]. by rewrite (take_S_r _ _ _ El), app_assoc.
  - assert (Hlen : (length l <= Z.to_nat j)%nat). { destruct (drop (Z.to_nat j) l) eqn:E; [|done]. apply (f_equal length) in E. rewrite length_drop in E. simpl in E. lia. }
    apply wp_ret. rewrite drop_ge in Hs2 |- * by lia. rewrite take_ge in Hb |- * by lia. split; [done|]. by exists b.
Qed.

Lemma capacity_head span (a : cstr) (l : list cstr) : Z.of_nat (length (a :: l)) <= capacity span -> exists x span', span = x :: span'.
Proof. destruct span as [|x span]; simpl; [lia|]. by exists x, span. Qed.

(** The division of a list, for the spans that [set_span] gives. *)
Lemma split_loop_spec conf g_tree_width hl l tree_width span : is_seq hl l -> Forall printable l ->
  set_span conf (hostlist_count hl) (if tree_width =? 0 then g_tree_width else tree_width) = Ret span ->
  length span = Z.to_nat (if tree_width =? 0 then g_tree_width else tree_width) -> Forall (fun x => 0 <= x) span -> Z.of_nat (length l) <= capacity span ->
  wp (route_split_hostlist_treewidth env fuel conf g_tree_width hl tree_width) (fun '(sp_hl, nhl, hl') => is_seq hl' [] /\
    exists bs, Forall2 is_seq bs (branches span l) /\ nhl = Z.of_nat (length bs) /\ sp_hl = (Some <$> bs) ++ replicate (length span - length bs) None).
Proof using E1.
  intros Hs Hp Espan Elen Hpos Hcap. unfold route_split_hostlist_treewidth. destruct (is_seq_count _ _ Hs) as [Ec Hmax]. rewrite Espan. cbn [mbind exec_bind]. rewrite <-Elen, Ec.
  apply (wp_loop (fun '(sp_hl, nhl, hl) => exists bs r, is_seq hl r /\ Forall printable r /\ (length r <= length l)%nat /\ nhl = Z.of_nat (length bs) /\
      sp_hl = (Some <$> bs) ++ replicate (length span - length bs) None /\ Z.of_nat (length r) <= capacity (drop (length bs) span) /\
      exists ls, Forall2 is_seq bs ls /\ branches span l = ls ++ branches (drop (length bs) span) r)
    (fun '(_, _, hl) => Z.to_nat (hostlist_count hl))
    (fun '(sp_hl, nhl, hl') => is_seq hl' [] /\ exists bs, Forall2 is_seq bs (branches span l) /\ nhl = Z.of_nat (length bs) /\
      sp_hl = (Some <$> bs) ++ replicate (length span - length bs) None)).
  4: done. 3: by rewrite Ec; lia. 2: { exists [], l. simpl. rewrite Nat.sub_0_r, drop_0. split_and!; try done. by exists []. }
  intros [[sp nhl] hl1] (bs & r & Hr & Hpr & Hle & -> & -> & Hc & ls & Hls & Ebr).
  destruct (is_seq_count _ _ Hr) as [Ecr _]. apply wp_bind. eapply wp_mono; [by apply (shift_seq env E1 _ r)|].
  intros [name hl2] [-> Hr2]. destruct r as [|a r]; cbn [head].
  { apply wp_ret. split; [done|]. exists bs. split_and!; try done. rewrite Ebr. destruct (drop (length bs) span); by rewrite app_nil_r. }
  destruct (capacity_head _ _ _ Hc) as (x & span' & Ed). apply Forall_cons in Hpr as [Hpa Hpr]. cbn [drop] in Hr2. rewrite drop_0 in Hr2.
  assert (Hk : span !! length bs = Some x) by (rewrite <-(Nat.add_0_r (length bs)), <-lookup_drop; by rewrite Ed).
  pose proof (lookup_lt_Some _ _ _ Hk) as Hlt. assert (Hx : 0 <= x) by (rewrite Forall_lookup in Hpos; by eapply Hpos).
  assert (Hsa : short a) by (destruct Hr as (rs & _ & _ & _ & F); by apply Forall_cons in F as [F _]).
  apply wp_bind. eapply wp_mono; [by apply create_host|]. intros br (b & -> & Hb).
  assert (Hset : forall o o', <[length bs := o]> ((Some <$> bs) ++ o' :: replicate (length span - length bs - 1) None) =
    (Some <$> bs) ++ o :: replicate (length span - length bs - 1) None).
  { intros o o'. rewrite insert_app_r_alt; rewrite length_fmap; [|done]. by rewrite Nat.sub_diag. }
  replace (length span - length bs)%nat with (S (length span - length bs - 1)) at 1 by lia. cbn [replicate].
  apply wp_bind. apply wp_aset; [rewrite length_app, length_cons, length_fmap, length_replicate; lia|]. rewrite Nat2Z.id, Hset.
  rewrite (aget_lookup _ _ x) by (rewrite ?Nat2Z.id; done || lia). cbn [mbind exec_bind wp].
  apply wp_bind. eapply wp_mono; [apply (fill_branch_spec x hl2 r b [a]); [done|done| |done|simpl in *; lia]|].
  { eapply Forall_impl; [exact Hpr|]. by intros s []. }
  intros [hl3 br] (Hr3 & b' & -> & Hb'). apply wp_bind, wp_aset; [rewrite length_app, length_cons, length_fmap, length_replicate; lia|]. rewrite Nat2Z.id, Hset.
  apply wp_ret. destruct (is_seq_count _ _ Hr3) as [Ec3 _]. split; [|rewrite Ec3, Ecr, length_drop; simpl; lia].
  exists (bs ++ [b']), (drop (Z.to_nat x) r). assert (Edrop : drop (length (bs ++ [b'])) span = span') by (rewrite length_app, <-drop_drop, Ed; done).
  rewrite Edrop. rewrite Ed in Hc, Ebr. rewrite capacity_cons in Hc. cbn [length] in Hc. rewrite fmap_app, length_app. simpl. split_and!; try done.
  - by apply Forall_drop.
  - rewrite length_drop. simpl in Hle. lia.
  - lia.
  - rewrite <-app_assoc. simpl. do 3 f_equal. lia.
  - pose proof (capacity_nonneg span' ltac:(rewrite <-Edrop; by apply Forall_drop)). rewrite length_drop. lia.
  - exists (ls ++ [a :: take (Z.to_nat x) r]). split; [by apply Forall2_app; [|constructor]|]. rewrite <-app_assoc. by rewrite Ebr.
Qed.

(** Every division: the branches are the list, cut. *)
Lemma split_spec conf g_tree_width hl l tree_width W : is_seq hl l -> Forall printable l -> (0 < W)%nat ->
  (if tree_width =? 0 then g_tree_width else tree_width) = Z.of_nat W ->
  wp (route_g_split_hostlist env fuel conf g_tree_width hl tree_width) (fun '(sp_hl, nhl, hl') => is_seq hl' [] /\
    exists span bs ls, even_span W span /\ ls = branches span l /\ Forall2 is_seq bs ls /\ nhl = Z.of_nat (length bs) /\
      sp_hl = (Some <$> bs) ++ replicate (W - length bs) None /\ concat ls = l /\ (length ls <= W)%nat /\ Forall (fun b => b <> []) ls /\
      forall k, 0 <= k -> Z.of_nat (length l) <= Z.of_nat W * (1 + k * Z.of_nat W) -> Forall (fun b => Z.of_nat (length b) <= 1 + k * Z.of_nat W) ls).
Proof using E1.
  intros Hs Hp HW Ew. destruct (is_seq_count _ _ Hs) as [Ec Hmax]. unfold route_g_split_hostlist, route_p_split_hostlist. rewrite Ew.
  assert (E : (if Z.of_nat W =? 0 then g_tree_width else Z.of_nat W) = Z.of_nat W) by (by rewrite (proj2 (Z.eqb_neq _ _)) by lia).
  destruct (wp_inv _ _ (set_span_spec W HW conf (hostlist_count hl) (Z.of_nat W) ltac:(by rewrite (proj2 (Z.eqb_neq _ _)) by lia) ltac:(lia))) as (span & Es & He & Hc & Hsm).
  pose proof (even_span_length _ _ He) as Hl. destruct (even_span_bounds _ _ He) as [Hpos _]. rewrite Ec in Hc, Hsm.
  eapply wp_mono; [apply (split_loop_spec conf g_tree_width hl l (Z.of_nat W) span Hs Hp); rewrite ?E; (done || lia)|].
  intros [[sp n] hl'] (Hs' & bs & Hbs & -> & ->). split; [done|]. exists span, bs, (branches span l). rewrite Hl. split_and!; try done.
  - by apply branches_concat.
  - rewrite <-Hl. apply branches_le.
  - apply branches_nonempty.
  - intros k Hk Hl2. specialize (Hsm k Hk Hl2). apply Forall_lookup. intros i b Hb. destruct (branches_length _ _ _ _ Hb) as (x & Hx & Hbl & _).
    rewrite Forall_lookup in Hsm. specialize (Hsm i x Hx). lia.
Qed.
End split.
