(* ===== verification/RouteProps.v ===== *)
(** * Division of host lists among branches: properties *)

From S2P Require Import Prelude NatCmp Hostlist HostlistParse HostlistPrint HostlistFacts HostlistOps HostlistSeq HostlistText HostlistRead HostlistSort HostlistCoalesce HostlistOrder HostlistNames Route RouteFacts.

Local Open Scope Z_scope.
Local Open Scope slurm_scope.

(** The list of all nodes of the node table. *)
Lemma push_nodes_seq env names : one_dim env -> forall hl l, is_seq hl l -> Forall (fun s => name_ok s /\ short s) names ->
  Z.of_nat (length (l ++ names)) <= i32_max -> wp (push_nodes env hl names) (fun hl' => is_seq hl' (l ++ names)).
Proof.
  intros E1. induction names as [|s names IH]; intros hl l Hs Hn Hlen; [by rewrite app_nil_r|]. apply Forall_cons in Hn as [[Hok Hsh] Hn].
  rewrite length_app in Hlen. simpl in Hlen. cbn [push_nodes]. apply wp_bind. eapply wp_mono; [by apply (push_host_seq env E1 hl l); [..|lia]|].
  intros [rc hl'] [_ Hs']. eapply wp_mono; [apply (IH _ _ Hs' Hn); rewrite !length_app; simpl; lia|]. intros hl2. by rewrite <-app_assoc.
Qed.

Lemma get_all_nodes_seq env names : one_dim env -> Forall (fun s => name_ok s /\ short s) names -> Z.of_nat (length names) <= i32_max ->
  is_seq (value hostlist_new (_get_all_nodes env names)) names.
Proof.
  intros E1 Hn Hlen. destruct (wp_inv _ _ (push_nodes_seq env names E1 hostlist_new [] is_seq_new Hn Hlen)) as (hl & E & Hs). unfold _get_all_nodes. by rewrite E.
Qed.

(** C16: A list of hosts is divided among the branches of the message tree.  Whatever
    the tree width: at most that many branches are made, none of them is empty,
    together they are the hosts of the list in its order, which is empty afterwards;
    the array of branches and the spans are never accessed out of bounds, and no
    two branches except the last one differ by more than the tree width. *)
Theorem branches_divide_hosts (env : cluster_env) (fuel : nat) (conf : route_conf) (g_tree_width tree_width : Z) (hl : hostlist) (l : list cstr) :
  let W := if tree_width =? 0 then g_tree_width else tree_width in
  one_dim env -> is_seq hl l -> Forall printable l -> 0 < W ->
  wp (route_g_split_hostlist env fuel conf g_tree_width hl tree_width) (fun '(sp_hl, count, hl') => is_seq hl' [] /\
    exists branches, Forall2 (fun b ls => exists h, b = Some h /\ is_seq h ls) (take (Z.to_nat count) sp_hl) branches /\
      count = Z.of_nat (length branches) /\ count <= W /\ Z.of_nat (length sp_hl) = W /\ concat branches = l /\ Forall (fun b => b <> []) branches /\
      forall i j b b', branches !! i = Some b -> branches !! j = Some b' -> is_Some (branches !! S j) -> Z.of_nat (length b) <= Z.of_nat (length b') + W).
Proof.
  intros W E1 Hs Hp HW. eapply wp_mono; [apply (split_spec env E1 fuel conf g_tree_width hl l tree_width (Z.to_nat W) Hs Hp); fold W; lia|].
  intros [[sp n] hl'] (Hs' & span & bs & ls & He & -> & Hbs & -> & -> & Hcat & Hle & Hne & _). split; [done|]. exists (branches span l).
  pose proof (Forall2_length _ _ _ Hbs) as Hlen. rewrite Nat2Z.id, take_app_length' by (by rewrite length_fmap). split_and!; try done; try lia.
  - apply Forall2_fmap_l. eapply Forall2_impl; [exact Hbs|]. intros h m H. by exists h.
  - rewrite length_app, length_fmap, length_replicate. lia.
  - intros i j b b' Hi Hj Hnext. destruct (branches_length _ _ _ _ Hi) as (x & Hx & Hbl & _). destruct (branches_length _ _ _ _ Hj) as (y & Hy & _ & Hbl').
    specialize (Hbl' Hnext). destruct (even_span_bounds _ _ He) as [Hpos Hd]. apply list_elem_of_lookup_2 in Hx, Hy. specialize (Hd x y Hx Hy).
    rewrite Forall_forall in Hpos. pose proof (Hpos _ Hx). pose proof (Hpos _ Hy). lia.
Qed.

(** Seven nodes of a small cluster. *)
Definition small_env : cluster_env := ClusterEnv None 1 false.
Definition seven : list cstr := [[110; 49]; [110; 50]; [110; 51]; [110; 52]; [110; 53]; [110; 54]; [110; 55]].
Definition seven_hosts : hostlist := value hostlist_new (_get_all_nodes small_env seven).

Lemma seven_ok : is_seq seven_hosts seven /\ Forall printable seven /\ uniform seven /\ NoDup seven.
Proof.
  split_and!.
  - apply get_all_nodes_seq; [done| |done]. repeat constructor; (done || lia).
  - repeat constructor; try done; try lia; by apply (bool_decide_unpack _).
  - exists (fun _ => 1). by repeat constructor.
  - by apply (bool_decide_unpack _).
Qed.

Lemma branches_divide_hosts_witness :
  wp (route_g_split_hostlist small_env 0 (RouteConf false 2) 2 seven_hosts 0) (fun '(sp_hl, count, hl') => is_seq hl' [] /\
    exists branches, Forall2 (fun b ls => exists h, b = Some h /\ is_seq h ls) (take (Z.to_nat count) sp_hl) branches /\
      count = Z.of_nat (length branches) /\ count <= 2 /\ Z.of_nat (length sp_hl) = 2 /\ concat branches = seven /\ Forall (fun b => b <> []) branches /\
      forall i j b b', branches !! i = Some b -> branches !! j = Some b' -> is_Some (branches !! S j) -> Z.of_nat (length b) <= Z.of_nat (length b') + 2).
Proof. destruct seven_ok as (H1 & H2 & _). by apply (branches_divide_hosts small_env 0 (RouteConf false 2) 2 0 seven_hosts seven). Defined.
