(* ===== verification/RouteCollect.v ===== *)
(** * Message collectors: the nodes that aggregate messages form a tree *)

From S2P Require Import Prelude NatCmp Hostlist HostlistParse HostlistPrint HostlistFacts HostlistOps HostlistSeq HostlistText HostlistRead HostlistSort HostlistCoalesce HostlistOrder HostlistNames Route RouteFacts RouteProps.

Local Open Scope Z_scope.
Local Open Scope slurm_scope.

Lemma index_of_elem (s : cstr) l : s ∈ l -> exists i, index_of s l = Some i.
Proof.
  induction l as [|x l IH]; intros Hin; [by apply elem_of_nil in Hin|]. cbn [index_of]. case_decide; [by eexists|].
  apply elem_of_cons in Hin as [->|Hin]; [done|]. destruct (IH Hin) as [i ->]. by eexists.
Qed.

Section collectors.
Context (env : cluster_env) (E1 : one_dim env) (fuel : nat) (conf : route_conf) (w : Z) (Hw : 0 < w).

(** The spans for a number of hosts. *)
Definition spans (n : nat) : list Z := value [] (set_span conf (Z.of_nat n) w).

(** The node after the first one that is not this node. *)
Definition second (b : list cstr) (this : cstr) : option cstr :=
  match b with x :: b => if decide (x = this) then head b else Some x | [] => None end.

(** The collector of a node among the hosts [l], which [to] forwards to. *)
Fixpoint collect (n : nat) (l : list cstr) (this : cstr) (to : collector) : collector * bool :=
  match n with
  | O => (to, false)
  | S n =>
      match list_find (fun b => this ∈ b) (branches (spans (length l)) l) with
      | Some (_, p :: b) => if decide (p = this) then (to, bool_decide (b <> [])) else collect n b this (Collector p (second b this))
      | _ => (to, false)
      end
  end.

Lemma find_branch_spec this hs ls : name_ok this -> Forall2 is_seq hs ls ->
  wp (find_branch env (Some <$> hs) this) (fun r =>
    match list_find (fun b => this ∈ b) ls with
    | Some (_, b) => exists h, r = Some (h, found_at this b) /\ is_seq h b
    | None => r = None
    end).
Proof using E1.
  intros Hok. induction 1 as [|h b hs ls Hb Hls IH]; [done|]. cbn [fmap list_fmap find_branch list_find]. apply wp_bind.
  eapply wp_mono; [by apply (find_seq env E1 h b)|]. intros [f h'] [-> Hh']. unfold found_at. destruct (decide (this ∈ b)) as [Hin|Hin].
  - destruct (index_of_elem _ _ Hin) as [i Ei]. rewrite Ei, (proj2 (Z.eqb_neq _ _)) by lia. apply wp_ret. by exists h'.
  - rewrite index_of_None by done. simpl. eapply wp_mono; [exact IH|]. intros r. destruct (list_find _ ls) as [[k b']|]; done.
Qed.

(** The spans and branches of a list. *)
Lemma spans_spec n : Z.of_nat n <= i32_max -> set_span conf (Z.of_nat n) w = Ret (spans n) /\ even_span (Z.to_nat w) (spans n) /\ Z.of_nat n <= capacity (spans n).
Proof using Hw.
  intros Hn. unfold spans. assert (Ew : (if w =? 0 then slurm_get_tree_width conf else w) = Z.of_nat (Z.to_nat w)) by (rewrite (proj2 (Z.eqb_neq _ _)); lia).
  destruct (wp_inv _ _ (set_span_spec (Z.to_nat w) ltac:(lia) conf (Z.of_nat n) w Ew ltac:(lia))) as (span & -> & He & Hc & _). done.
Qed.

Lemma spans_branches l : Z.of_nat (length l) <= i32_max -> concat (branches (spans (length l)) l) = l.
Proof using Hw.
  intros Hl. destruct (spans_spec (length l) Hl) as (_ & He & Hc). destruct (even_span_bounds _ _ He) as [Hpos _]. by apply branches_concat.
Qed.

(** The branch of a node. *)
Lemma branch_of l this : Z.of_nat (length l) <= i32_max -> this ∈ l ->
  exists k p b l1 l2, list_find (fun b => this ∈ b) (branches (spans (length l)) l) = Some (k, p :: b) /\ l = l1 ++ (p :: b) ++ l2 /\ this ∈ p :: b.
Proof using Hw.
  intros Hl Hin. pose proof (spans_branches l Hl) as Ecat. rewrite <-Ecat in Hin. apply list_elem_of_In, in_concat in Hin as (b & Hb & Hbt). apply list_elem_of_In in Hb, Hbt.
  destruct (list_find_elem_of (fun b => this ∈ b) _ b Hb Hbt) as [[k b'] Hf]. pose proof Hf as Hf0. apply list_find_Some in Hf as (Hk & Hin & _).
  pose proof (branches_nonempty (spans (length l)) l) as Hne. rewrite Forall_lookup in Hne. specialize (Hne _ _ Hk). destruct b' as [|p b']; [done|].
  apply take_drop_middle in Hk. rewrite <-Hk, concat_app in Ecat. simpl in Ecat. eexists k, p, b', _, _. split; [exact Hf0|]. split; [symmetry; exact Ecat|done].
Qed.

Lemma split_spans nodes l : is_seq nodes l -> Forall printable l ->
  wp (route_g_split_hostlist env fuel conf w nodes 0) (fun '(hll, n, _) => exists bs, Forall2 is_seq bs (branches (spans (length l)) l) /\ take (Z.to_nat n) hll = Some <$> bs).
Proof using E1 Hw.
  intros Hs Hp. destruct (is_seq_count _ _ Hs) as [Ec Hmax]. destruct (spans_spec (length l) Hmax) as (Es & He & Hc). destruct (even_span_bounds _ _ He) as [Hpos _].
  pose proof (even_span_length _ _ He) as Hl. unfold route_g_split_hostlist, route_p_split_hostlist. change (if 0 =? 0 then w else 0) with w.
  assert (Ew : (if w =? 0 then w else w) = w) by (by destruct (w =? 0)).
  eapply wp_mono; [apply (split_loop_spec env E1 fuel conf w nodes l w (spans (length l)) Hs Hp); rewrite ?Ew; (done || by rewrite Ec)|].
  intros [[hll n] hl'] (_ & bs & Hbs & -> & ->). exists bs. split; [done|]. by rewrite Nat2Z.id, take_app_length' by (by rewrite length_fmap).
Qed.

(** The collector that [_set_collectors] finds. *)
Lemma collect_loop this : name_ok this -> forall n nodes l to, is_seq nodes l -> Forall printable l -> this ∈ l -> (length l < n)%nat ->
  loop n (fun '(nodes, to) =>
    '(hll, hl_count, _) ← route_g_split_hostlist env fuel conf w nodes 0;
    r ← find_branch env (take (Z.to_nat hl_count) hll) this;
    match r with
    | None => Fault
    | Some (hl, f) =>
        if f =? 0 then Ret (inr (to, 1 <? hostlist_count hl))
        else
          nodes ← hostlist_copy hl;
          '(parent, nodes) ← hostlist_shift env nodes;
          backup ← hostlist_nth env nodes 0;
          backup ← (if bool_decide (backup = Some this)
                    then if 1 <? hostlist_count nodes then hostlist_nth env nodes 1 else Ret None
                    else Ret backup);
          Ret (inl (nodes, match parent with Some parent => Collector parent backup | None => to end))
    end) (nodes, to) = Ret (collect n l this to).
Proof using E1 Hw.
  intros Hok. induction n as [|n IH]; intros nodes l to Hs Hp Hin Hn; [lia|]. rewrite loop_step. destruct (is_seq_count _ _ Hs) as [_ Hmax].
  destruct (branch_of l this Hmax Hin) as (k & p & b & l1 & l2 & Hf & El & Hpb). cbn [collect]. rewrite Hf.
  destruct (wp_inv _ _ (split_spans nodes l Hs Hp)) as ([[hll m] hl'] & -> & bs & Hbs & Etake). cbn [mbind exec_bind]. rewrite Etake.
  destruct (wp_inv _ _ (find_branch_spec this bs _ Hok Hbs)) as (r & -> & Hr). rewrite Hf in Hr. destruct Hr as (h & -> & Hh). cbn [mbind exec_bind].
  destruct (is_seq_count _ _ Hh) as [Ech _]. rewrite Ech. unfold found_at. cbn [index_of]. destruct (decide (p = this)) as [->|Hne].
  { simpl. do 2 f_equal. destruct b; simpl; [done|]. by rewrite (proj2 (Z.ltb_lt _ _)) by lia. }
  apply elem_of_cons in Hpb as [?|Hb]; [done|]. destruct (index_of_elem _ _ Hb) as [i ->].
  cbn [fmap option_fmap option_map]. rewrite (proj2 (Z.eqb_neq _ _)) by lia.
  destruct (wp_inv _ _ (copy_seq h _ Hh)) as (c & -> & Hc). cbn [mbind exec_bind]. destruct (wp_inv _ _ (shift_seq env E1 c _ Hc)) as ([o c'] & -> & -> & Hc'). cbn [mbind exec_bind head].
  cbn [drop] in Hc'. rewrite drop_0 in Hc'.
  assert (Hnth : forall i, 0 <= i -> hostlist_nth env c' i = Ret (b !! Z.to_nat i)) by (intros j Hj; destruct Hc' as (rs & R & <- & _ & F); by apply nth_spec).
  destruct (is_seq_count _ _ Hc') as [Ecc _]. rewrite (Hnth 0), (Hnth 1), Ecc by lia. cbn [mbind exec_bind].
  assert (Hb' : forall backup, (if bool_decide (b !! 0%nat = Some this) then if 1 <? Z.of_nat (length b) then Ret (b !! 1%nat) else Ret None else Ret (b !! 0%nat)) = Ret backup -> backup = second b this).
  { unfold second. destruct b as [|x b]; [intros backup; rewrite bool_decide_false by done; simpl; congruence|]. cbn [lookup list_lookup]. intros backup. case_bool_decide as Ex; case_decide as Ey; try congruence.
    destruct b as [|y b]; cbn [length]; [simpl; congruence|]. rewrite (proj2 (Z.ltb_lt _ _)) by lia. simpl. congruence. }
  change (Z.to_nat 0) with 0%nat. change (Z.to_nat 1) with 1%nat.
  destruct (if bool_decide (b !! 0%nat = Some this) then _ else _) as [backup| |] eqn:Eb; [|repeat case_match; done..]. cbn [mbind exec_bind].
  rewrite (Hb' backup eq_refl). apply IH; [done| |done|].
  - rewrite El, !Forall_app, Forall_cons in Hp. apply Hp.
  - rewrite El, !length_app in Hn. simpl in Hn. lia.
Qed.

(** Every host is in one branch. *)
Lemma one_branch (bs : list (list cstr)) i j A B (x : cstr) : NoDup (concat bs) -> bs !! i = Some A -> bs !! j = Some B -> x ∈ A -> x ∈ B -> i = j.
Proof.
  clear. revert i j. induction bs as [|C bs IH]; intros i j Hnd Hi Hj HA HB; [done|]. simpl in Hnd. apply NoDup_app in Hnd as (_ & Hd & Hnd).
  assert (Hc : forall k D, bs !! k = Some D -> x ∈ D -> x ∈ concat bs).
  { intros k D Hk HD. apply take_drop_middle in Hk. rewrite <-Hk, concat_app. simpl. set_solver. }
  destruct i as [|i], j as [|j]; simpl in *; simplify_eq; [done| | |f_equal; by eapply IH]; exfalso; eapply Hd; eauto.
Qed.

Lemma same_branch (bs : list (list cstr)) k B (x y : cstr) : NoDup (concat bs) -> list_find (fun b => x ∈ b) bs = Some (k, B) -> y ∈ B ->
  list_find (fun b => y ∈ b) bs = Some (k, B).
Proof.
  clear. intros Hnd Hf Hy. apply list_find_Some in Hf as (Hk & _ & _). apply list_find_Some. split_and!; [done|done|].
  intros j C Hj Hjk HC. pose proof (one_branch bs j k C B y Hnd Hj Hk HC Hy). lia.
Qed.

(** What the collector of a node is. *)
Definition collected (l : list cstr) (this : cstr) (c to : collector) : Prop :=
  c = to \/ exists p b, c = Collector p b /\ (exists l1 l2, l = l1 ++ p :: l2 /\ this ∈ l2) /\ b <> Some this /\ b <> Some p /\
    forall m to', (length l < m)%nat -> (collect m l p to').2 = true.

Lemma collect_spec n : forall l this to, Z.of_nat (length l) <= i32_max -> NoDup l -> this ∈ l -> (length l < n)%nat -> collected l this (collect n l this to).1 to.
Proof using Hw.
  induction n as [|n IH]; intros l this to Hmax Hnd Hin Hn; [lia|]. destruct (branch_of l this Hmax Hin) as (k & p & b & l1 & l2 & Hf & El & Hpb).
  cbn [collect]. rewrite Hf. destruct (decide (p = this)) as [->|Hne]; [by left|]. apply elem_of_cons in Hpb as [?|Hb]; [done|].
  assert (Hnb : NoDup (p :: b)). { rewrite El in Hnd. apply NoDup_app in Hnd as (_ & _ & Hnd). by apply NoDup_app in Hnd as (Hnd & _). }
  pose proof Hnb as Hnb0. apply NoDup_cons in Hnb as [Hp Hnb]. assert (Hlen : (length b < length l)%nat) by (rewrite El, !length_app; simpl; lia).
  pose proof (spans_branches l Hmax) as Ecat. rewrite <-Ecat in Hnd. right.
  assert (Hstep : forall m q to', q ∈ p :: b -> collect (S m) l q to' = if decide (p = q) then (to', bool_decide (b <> [])) else collect m b q (Collector p (second b q))).
  { intros m q to' Hq. cbn [collect]. by rewrite (same_branch _ _ _ _ _ Hnd Hf Hq). }
  destruct (IH b this (Collector p (second b this))) as [->|(p2 & b2 & -> & (l3 & l4 & -> & H4) & Hb2 & Hb2' & Hm)]; [lia|done|done|lia| |].
  - exists p, (second b this). split_and!; [done| | | |].
    + exists l1, (b ++ l2). split; [done|]. apply elem_of_app. by left.
    + unfold second. destruct b as [|x b]; [done|]. case_decide; [|congruence]. subst x. apply NoDup_cons in Hnb as [Hnb _].
      destruct b as [|y b]; [done|]. simpl. intros [= ->]. apply Hnb. left.
    + unfold second. destruct b as [|x b]; [done|]. rewrite !not_elem_of_cons in Hp. case_decide; [|intros [= ->]; tauto]. destruct b as [|y b]; [done|]. simpl. intros [= ->].
      destruct Hp as [_ Hp]. apply Hp. left.
    + intros m to' Hml. destruct m as [|m]; [lia|]. rewrite Hstep by left. rewrite decide_True by done. simpl. rewrite bool_decide_true; [done|]. by intros ->; apply elem_of_nil in Hb.
  - exists p2, b2. split_and!; [done| |done|done|].
    + exists (l1 ++ p :: l3), (l4 ++ l2). rewrite El. split; [by rewrite <-!app_assoc; simpl; rewrite <-!app_assoc|]. apply elem_of_app. by left.
    + assert (Hp2 : p2 ∈ p :: l3 ++ p2 :: l4) by (right; apply elem_of_app; right; left).
      intros m to' Hml. destruct m as [|m]; [lia|]. rewrite Hstep by done. rewrite decide_False; [apply Hm; lia|].
      intros ->. apply Hp, elem_of_app. right. left.
Qed.
End collectors.

(** C17: Message collectors form a tree.  For every node of the node table
    [_set_collectors] ends, and the node collects for the controller or sends its
    messages to a node that comes before it in the table and is itself a collector;
    so following collectors leads to the controller, and there is no loop.  The
    second collector, if there is one, is neither the node itself nor its first
    collector. *)
Theorem collectors_form_a_tree (env : cluster_env) (fuel : nat) (conf : route_conf) (g_tree_width : Z) (names : list cstr) (this : cstr) :
  one_dim env -> 0 < g_tree_width -> NoDup names -> Forall (fun s => printable s /\ short s) names -> Z.of_nat (length names) <= i32_max -> this ∈ names ->
  exists c is_collector, _set_collectors env fuel conf g_tree_width names this = Ret (c, is_collector) /\
    match c with
    | Controller => True
    | Collector p b => (exists l1 l2, names = l1 ++ p :: l2 /\ this ∈ l2) /\ b <> Some this /\ b <> Some p /\
        exists c', _set_collectors env fuel conf g_tree_width names p = Ret (c', true)
    end.
Proof.
  intros E1 Hw Hnd Hp Hmax Hin. assert (Hn : Forall (fun s => name_ok s /\ short s) names) by (eapply Forall_impl; [exact Hp|]; by intros s [[? _] ?]).
  assert (Hp' : Forall printable names) by (eapply Forall_impl; [exact Hp|]; by intros s []).
  destruct (wp_inv _ _ (push_nodes_seq env names E1 hostlist_new [] is_seq_new Hn Hmax)) as (nodes & Enodes & Hs). simpl in Hs.
  assert (Hset : forall x, x ∈ names -> _set_collectors env fuel conf g_tree_width names x = Ret (collect conf g_tree_width (S (length names)) names x Controller)).
  { intros x Hx. unfold _set_collectors, _get_all_nodes. rewrite Enodes. cbn [mbind exec_bind]. apply collect_loop; try done; [|lia]. rewrite Forall_forall in Hn. by apply Hn. }
  pose proof (collect_spec conf g_tree_width Hw (S (length names)) names this Controller Hmax Hnd Hin ltac:(lia)) as Hc. rewrite (Hset this Hin).
  destruct (collect _ _ _ names this Controller) as [c flag]. simpl in Hc. exists c, flag. split; [done|].
  destruct Hc as [->|(p & b & -> & Hpos & Hb1 & Hb2 & Hm)]; [done|]. split_and!; try done. assert (Hpn : p ∈ names) by (destruct Hpos as (l1 & l2 & -> & _); apply elem_of_app; right; left).
  rewrite (Hset p Hpn). specialize (Hm (S (length names)) Controller ltac:(lia)). destruct (collect _ _ _ names p Controller) as [c' flag']. simpl in Hm. subst flag'. by exists c'.
Qed.

Lemma collectors_form_a_tree_witness :
  exists c is_collector, _set_collectors small_env 0 (RouteConf false 2) 2 seven [110; 52] = Ret (c, is_collector) /\
    match c with
    | Controller => True
    | Collector p b => (exists l1 l2, seven = l1 ++ p :: l2 /\ [110; 52] ∈ l2) /\ b <> Some [110; 52] /\ b <> Some p /\
        exists c', _set_collectors small_env 0 (RouteConf false 2) 2 seven p = Ret (c', true)
    end.
Proof.
  apply (collectors_form_a_tree small_env 0 (RouteConf false 2) 2 seven [110; 52]); [done|done|apply seven_ok| |done|by apply (bool_decide_unpack _)].
  repeat constructor; try done; try lia; by apply (bool_decide_unpack _).
Defined.
