(* ===== verification/Forward.v ===== *)
(** * Fan-out of messages: src/common/forward.c, the head of the tree

    [start_msg_tree] divides the hosts among branches, starts one thread for
    each branch and waits until no thread is left; a thread sends the message to
    the first host of its branch, which forwards it to the others, and collects
    the answers.  The threads of one call share the list of answers and the
    thread count, under a mutex, and nothing else; a state of the call has the
    position of the main thread and of every other thread, and a step lets one of
    them go on to its next access to the shared data.

    What the network does is a parameter: each attempt to send gets an [event].
    Timeouts, the body of messages and debugging output are left out, and
    [pthread_create] succeeds. *)

From stdpp Require Import relations.
From S2P Require Import Prelude Hostlist HostlistParse HostlistPrint Route.

Local Open Scope Z_scope.
Local Open Scope slurm_scope.

Definition RESPONSE_FORWARD_FAILED : Z := 9001.
Definition SLURM_COMMUNICATIONS_CONNECTION_ERROR : Z := 1001.
Definition SLURM_UNKNOWN_FORWARD_ADDR : Z := 1012.

(** An answer; the bodies of messages are left out. *)
Record ret_data_info : Type := RetDataInfo { node_name : option cstr; ret_type : Z; ret_err : Z }.

(** [list_push] puts the failure at the front of the list. *)
Definition mark_as_failed_forward (ret_list : list ret_data_info) (name : cstr) (err : Z) : list ret_data_info :=
  RetDataInfo (Some name) RESPONSE_FORWARD_FAILED err :: ret_list.

(** ** Sending *)

(** What arrives at an open connection: the error of the receiving functions (0 if
    the message could be read), the answers in its header, if it has any, and
    the type of the message. *)
Record incoming : Type := Incoming { in_rc : Z; in_ret_list : option (list ret_data_info); in_msg_type : Z }.

(** What happens when a message is sent to a host. *)
Inductive event : Type :=
| NoAddress
| NoConnection
| NotSent (err : Z)
| Received (msg : incoming).

(** The list of answers and [errno]. *)
Definition slurm_receive_msgs (msg : incoming) : option (list ret_data_info) * Z :=
  (if in_rc msg =? 0 then Some (RetDataInfo None (in_msg_type msg) 0 :: default [] (in_ret_list msg))
   else match in_ret_list msg with
        | Some l => Some (RetDataInfo None RESPONSE_FORWARD_FAILED (in_rc msg) :: l)
        | None => None
        end,
   in_rc msg).

Definition _send_and_recv_msgs (e : event) : option (list ret_data_info) * Z :=
  match e with
  | Received msg => slurm_receive_msgs msg
  | NotSent err => (None, err)
  | NoAddress | NoConnection => (None, SLURM_COMMUNICATIONS_CONNECTION_ERROR)
  end.

(** Answers without a name are those of the host that was called. *)
Definition own_name (name : cstr) (r : ret_data_info) : ret_data_info :=
  RetDataInfo (Some (default name (node_name r))) (ret_type r) (ret_err r).

(** The answers and [errno]. *)
Definition slurm_send_addr_recv_msgs (e : event) (name : cstr) : list ret_data_info * Z :=
  match e with
  | NoAddress | NoConnection =>
      (mark_as_failed_forward [] name SLURM_COMMUNICATIONS_CONNECTION_ERROR, SLURM_COMMUNICATIONS_CONNECTION_ERROR)
  | _ =>
      match _send_and_recv_msgs e with
      | (None, err) => (mark_as_failed_forward [] name err, SLURM_COMMUNICATIONS_CONNECTION_ERROR)
      | (Some l, err) => (own_name name <$> l, err)
      end
  end.

(** ** Threads *)

(** Where a thread of the call is: at the head of its loop, in
    [_start_msg_tree_internal] with [n] threads still to be started, or about to
    give up its place ([_destroy_tree_fwd]). *)
Inductive thread : Type :=
| TLoop (tree_hl : option hostlist)
| TSpawn (tree_hl : option hostlist) (n : Z)
| TEnd.

(** What was sent: the host, the number of hosts to forward to and their names. *)
Record sent : Type := Sent { sent_to : cstr; sent_cnt : Z; sent_nodelist : cstr }.

(** What a step of a thread does: its next position, the threads that it starts,
    the list of answers, the thread count and what it has sent. *)
Record outcome : Type := Outcome {
  out_next : option thread; out_new : list thread; out_ret_list : list ret_data_info; out_thr_count : Z; out_sent : option sent
}.

(** [hostlist_shift], which gives nothing for a list that does not exist. *)
Definition shift_list (env : cluster_env) (hl : option hostlist) : exec (option cstr * option hostlist) :=
  match hl with
  | None => Ret (None, None)
  | Some hl => '(name, hl) ← hostlist_shift env hl; Ret (name, Some hl)
  end.

Definition list_hosts (hl : option hostlist) : Z := match hl with Some hl => hostlist_count hl | None => 0 end.

Section thread.
Context (env : cluster_env) (fuel : nat) (fill : Z -> cstr) (g : grid).

(** Hosts that have answered although the forwarding failed are not called again. *)
Fixpoint delete_answered (tree_hl : hostlist) (name : cstr) (ret_list : list ret_data_info) : exec hostlist :=
  match ret_list with
  | [] => Ret tree_hl
  | r :: ret_list =>
      tree_hl ← (if bool_decide (node_name r = Some name) then Ret tree_hl
                 else match node_name r with
                      | Some other => '(_, hl) ← hostlist_delete_host env tree_hl other; Ret hl
                      | None => Ret tree_hl
                      end);
      delete_answered tree_hl name ret_list
  end.

(** The text of the hosts to forward to, when there are any. *)
Definition forward_nodelist (tree_hl : hostlist) (cnt : Z) : exec cstr :=
  if cnt =? 0 then Ret [] else '(text, _) ← hostlist_ranged_string_xmalloc fill env g tree_hl; Ret text.

(** One round of [_fwd_tree_thread] for the host [name]; [tree_hl] has the hosts
    behind it. *)
Definition tree_round (e : event) (name : cstr) (tree_hl : hostlist) (ret_list : list ret_data_info) (thr_count : Z) : exec outcome :=
  match e with
  | NoAddress =>
      Ret (Outcome (Some (TLoop (Some tree_hl))) [] (mark_as_failed_forward ret_list name SLURM_UNKNOWN_FORWARD_ADDR) thr_count None)
  | _ =>
      let cnt := u16 (hostlist_count tree_hl) in
      text ← forward_nodelist tree_hl cnt;
      let '(answers, err) := slurm_send_addr_recv_msgs e name in
      let ret_cnt := Z.of_nat (length answers) in
      tree_hl ← (if (ret_cnt <=? cnt) && negb (err =? SLURM_COMMUNICATIONS_CONNECTION_ERROR) && (1 <? ret_cnt)
                 then delete_answered tree_hl name answers else Ret tree_hl);
      let next :=
        if ret_cnt <=? cnt then TSpawn (Some tree_hl) (hostlist_count tree_hl)
        else if err =? SLURM_COMMUNICATIONS_CONNECTION_ERROR then TLoop (Some tree_hl)
        else TEnd in
      Ret (Outcome (Some next) [] (ret_list ++ answers) thr_count (Some (Sent name cnt text)))
  end.

Definition _fwd_tree_thread (e : event) (t : thread) (ret_list : list ret_data_info) (thr_count : Z) : exec outcome :=
  match t with
  | TLoop tree_hl =>
      '(name, tree_hl) ← shift_list env tree_hl;
      match name, tree_hl with
      | Some name, Some tree_hl => tree_round e name tree_hl ret_list thr_count
      | _, _ => Ret (Outcome (Some TEnd) [] ret_list thr_count None)
      end
  | TSpawn tree_hl n =>
      if 0 <? n then
        '(name, tree_hl) ← shift_list env tree_hl;
        new ← match name with Some name => hostlist_create env fuel name | None => Ret (Some hostlist_new) end;
        Ret (Outcome (Some (TSpawn tree_hl (n - 1))) [TLoop new] ret_list (thr_count + 1) None)
      else Ret (Outcome (Some (TLoop tree_hl)) [] ret_list thr_count None)
  | TEnd => Ret (Outcome None [] ret_list (thr_count - 1) None)
  end.
End thread.

(** ** The call *)

(** Where the main thread is: starting threads, waiting for them, or done with the
    number of answers. *)
Inductive main_pc : Type :=
| MStart (sp_hl : list (option hostlist))
| MWait
| MDone (count : Z).

Record call : Type := Call { c_main : main_pc; c_threads : list thread; c_thr_count : Z; c_ret_list : list ret_data_info }.

(** The main thread starts the next thread, begins to wait, or goes on when no
    thread is left. *)
Definition main_step (c : call) : option call :=
  match c_main c with
  | MStart (tree_hl :: sp_hl) =>
      Some (Call (MStart sp_hl) (c_threads c ++ [TLoop tree_hl]) (c_thr_count c + 1) (c_ret_list c))
  | MStart [] => Some (Call MWait (c_threads c) (c_thr_count c) (c_ret_list c))
  | MWait =>
      if 0 <? c_thr_count c then None
      else Some (Call (MDone (Z.of_nat (length (c_ret_list c)))) (c_threads c) (c_thr_count c) (c_ret_list c))
  | MDone _ => None
  end.

(** The call before the first thread has been started, and the number of hosts. *)
Definition start_msg_tree (env : cluster_env) (fuel : nat) (conf : route_conf) (g_tree_width : Z) (hl : hostlist) (tree_width : Z) :
    exec (call * Z) :=
  hl ← hostlist_uniq hl;
  let host_count := hostlist_count hl in
  '(sp_hl, hl_count, _) ← route_g_split_hostlist env fuel conf g_tree_width hl tree_width;
  Ret (Call (MStart (take (Z.to_nat hl_count) sp_hl)) [] 0 [], host_count).

(** The threads after thread [i] has gone on to [next] and has started [new]. *)
Definition respawn {A : Type} (i : nat) (next : option A) (new ts : list A) : list A :=
  match next with Some t => <[i := t]> ts | None => delete i ts end ++ new.

(** The steps of a call, in a network that behaves as [net] says; in the steps in
    which nothing is sent, the event is that there is no address. *)
Section steps.
Context (env : cluster_env) (fuel : nat) (fill : Z -> cstr) (g : grid) (net : sent -> event -> Prop).

Inductive call_step : call -> call -> Prop :=
| step_main c c' : main_step c = Some c' -> call_step c c'
| step_thread c i t e o :
    c_threads c !! i = Some t ->
    _fwd_tree_thread env fuel fill g e t (c_ret_list c) (c_thr_count c) = Ret o ->
    match out_sent o with Some s => net s e | None => e = NoAddress end ->
    call_step c (Call (c_main c) (respawn i (out_next o) (out_new o) (c_threads c))
                   (out_thr_count o) (out_ret_list o)).
End steps.
