(* ===== verification/ForwardFacts.v ===== *)
(** * Fan-out of messages: invariants *)

From stdpp Require Import relations.
From S2P Require Import Prelude NatCmp Hostlist HostlistParse HostlistPrint HostlistFacts HostlistOps HostlistSeq HostlistText HostlistRead HostlistSort HostlistCoalesce HostlistOrder HostlistNames Route RouteFacts Forward.

Local Open Scope Z_scope.
Local Open Scope slurm_scope.

(** ** Answers *)

(** The host has an answer. *)
Definition answered (ret_list : list ret_data_info) (s : cstr) : Prop := Some s ∈ node_name <$> ret_list.

(** Answers name hosts. *)
Definition names_ok (ret_list : list ret_data_info) : Prop := Forall (fun r => forall s, node_name r = Some s -> name_ok s) ret_list.
Definition event_ok (e : event) : Prop :=
  match e with Received msg => forall l, in_ret_list msg = Some l -> names_ok l | _ => True end.

Lemma answered_app l1 l2 s : answered (l1 ++ l2) s <-> answered l1 s \/ answered l2 s.
Proof. unfold answered. by rewrite fmap_app, elem_of_app. Qed.

Lemma answered_mark l s t err : answered (mark_as_failed_forward l t err) s <-> s = t \/ answered l s.
Proof. unfold answered, mark_as_failed_forward. cbn [fmap list_fmap node_name]. rewrite elem_of_cons. naive_solver. Qed.

(** The host that is called always has an answer, and it comes first. *)
Lemma send_answers e name : event_ok e -> name_ok name -> exists r l,
  (slurm_send_addr_recv_msgs e name).1 = r :: l /\ node_name r = Some name /\ names_ok (r :: l).
Proof.
  intros He Hn. assert (Hr : forall r, node_name r = Some name -> names_ok [r]) by (intros r E; apply Forall_singleton; intros s; rewrite E; by intros [= <-]).
  assert (Hown : forall r l, node_name r = None -> names_ok l -> names_ok (own_name name <$> r :: l)).
  { intros r l E Hl. apply Forall_cons. split; [simpl; rewrite E; by intros s [= <-]|]. apply Forall_fmap. eapply Forall_impl; [exact Hl|].
    intros r' H s. simpl. destruct (node_name r') as [t|] eqn:Et; simpl; intros [= <-]; [by apply H|done]. }
  destruct e as [| |err|[rc rets ty]]; simpl; try (by eexists _, _; split_and!; [done|done|apply Hr]).
  unfold slurm_receive_msgs. simpl. simpl in He. destruct (Z.eqb_spec rc 0).
  - eexists _, _. split_and!; [done|done|]. apply Hown; [done|]. destruct rets; [by apply He|constructor].
  - destruct rets as [l|]; simpl; eexists _, _; (split_and!; [done|done|]); [apply Hown; [done|by apply He]|by apply Hr].
Qed.

(** ** Pools of threads *)

Section pool.
Context {A : Type} (R : A -> list cstr -> Prop).
Implicit Types (ts : list A) (ls : list (list cstr)).

Lemma pool_thread ts ls rest i t : Forall2 R ts ls -> ts !! i = Some t -> Forall printable (concat ls ++ rest) ->
  exists T1 T2 L1 l L2, ts = T1 ++ t :: T2 /\ i = length T1 /\ ls = L1 ++ l :: L2 /\ Forall2 R T1 L1 /\ R t l /\ Forall2 R T2 L2 /\
    Forall printable l /\ (length l <= length (concat ls ++ rest))%nat.
Proof.
  intros Ht Hi Hp. exists (take i ts), (drop (S i) ts). pose proof (lookup_lt_Some _ _ _ Hi). pose proof (take_drop_middle _ _ _ Hi) as E.
  rewrite <-E in Ht. apply Forall2_app_inv_l in Ht as (L1 & L' & H1 & H2 & ->). apply Forall2_cons_inv_l in H2 as (l & L2 & Htl & H2 & ->).
  exists L1, l, L2. rewrite concat_app in *. simpl in *. rewrite !Forall_app in Hp. rewrite !length_app. split_and!; try done; [rewrite length_take; lia|apply Hp|lia].
Qed.

Lemma respawn_at (T1 : list A) t T2 next new : respawn (length T1) next new (T1 ++ t :: T2) = (T1 ++ option_list next ++ T2) ++ new.
Proof.
  unfold respawn. f_equal. destruct next; simpl; [rewrite insert_app_r_alt by done; by rewrite Nat.sub_diag|].
  rewrite delete_take_drop, take_app_length. f_equal. by rewrite drop_app_ge, Nat.sub_succ_l, Nat.sub_diag by lia.
Qed.

(** The hosts of the threads, when one of them has passed on some of its hosts. *)
Lemma respawn_hosts (L1 : list (list cstr)) l L2 lmid l' ln rest : concat lmid = l' -> l' ++ concat ln ⊆+ l ->
  let now := concat ((L1 ++ lmid ++ L2) ++ ln) ++ rest in let old := concat (L1 ++ l :: L2) ++ rest in
  now ⊆+ old /\ (length now + length l = length old + length (l' ++ concat ln))%nat /\
  (forall s, s ∈ old -> s ∈ l \/ s ∈ now) /\ (forall s, s ∈ l' ++ concat ln -> s ∈ now).
Proof.
  intros Emid Hsub now old.
  assert (En : now ≡ₚ (l' ++ concat ln) ++ concat L1 ++ concat L2 ++ rest) by (unfold now; rewrite !concat_app, Emid; solve_Permutation).
  assert (Eo : old ≡ₚ l ++ concat L1 ++ concat L2 ++ rest) by (unfold old; rewrite concat_app; simpl; solve_Permutation).
  split_and!.
  - rewrite En, Eo. by apply submseteq_skips_r.
  - rewrite En, Eo, !length_app. lia.
  - intros s. rewrite En, Eo. rewrite (elem_of_app l), (elem_of_app (l' ++ _)). tauto.
  - intros s Hs. rewrite En. apply elem_of_app. by left.
Qed.
End pool.

(** ** Threads *)

(** The hosts that a thread still has to call. *)
Definition thread_is (t : thread) (l : list cstr) : Prop :=
  match t with
  | TLoop hl => exists h, hl = Some h /\ is_seq h l
  | TSpawn hl n => exists h, hl = Some h /\ is_seq h l /\ n = Z.of_nat (length l)
  | TEnd => l = []
  end.

Definition next_is (t : option thread) (l : list cstr) : Prop := match t with Some t => thread_is t l | None => l = [] end.

(** What is left to do. *)
Definition loop_weight (hl : option hostlist) : nat := let n := Z.to_nat (list_hosts hl) in if decide (n = 0%nat) then 2 else 5 * n - 1.
Definition weight (t : thread) : nat :=
  match t with TLoop hl => loop_weight hl | TSpawn hl _ => 5 * Z.to_nat (list_hosts hl) + 3 | TEnd => 1 end.
Definition next_weight (t : option thread) : nat := match t with Some t => weight t | None => 0 end.
Definition weights (ts : list thread) : nat := sum_list_with weight ts.

(** What a step does, in terms of the hosts. *)
Record step_ok (t : thread) (l : list cstr) (ret_list : list ret_data_info) (thr_count : Z) (complete : option sent -> Prop) (o : outcome) (l' : list cstr) (ls : list (list cstr)) : Prop := {
  so_next : next_is (out_next o) l';
  so_new : Forall2 thread_is (out_new o) ls;
  so_sub : l' ++ concat ls ⊆+ l;
  so_count : out_thr_count o = thr_count + Z.of_nat (length (out_new o)) - (match out_next o with Some _ => 0 | None => 1 end);
  so_answers : (length l + length ret_list <= length (l' ++ concat ls) + length (out_ret_list o))%nat;
  so_kept : forall s, answered ret_list s -> answered (out_ret_list o) s;
  so_named : complete (out_sent o) -> forall s, s ∈ l -> s ∈ l' ++ concat ls \/ answered (out_ret_list o) s;
  so_weight : (next_weight (out_next o) + weights (out_new o) < weight t)%nat
}.

(** The answers to a message name the hosts that it was to be forwarded to, if there
    are as many of them as there should be. *)
Definition complete_answer (env : cluster_env) (fuel : nat) (s : sent) (e : event) : Prop :=
  sent_cnt s < Z.of_nat (length (slurm_send_addr_recv_msgs e (sent_to s)).1) ->
  forall hl rs h, hostlist_create env fuel (sent_nodelist s) = Ret (Some hl) -> hl_rep hl rs -> h ∈ rhosts rs ->
  answered (slurm_send_addr_recv_msgs e (sent_to s)).1 h.

Lemma index_of_lookup (s : cstr) l i : index_of s l = Some i -> l !! i = Some s.
Proof.
  revert i. induction l as [|x l IH]; intros i; cbn [index_of]; [done|]. case_decide; [intros [= <-]; simpl; congruence|].
  destruct (index_of s l) as [k|]; [|done]. intros [= <-]. by apply IH.
Qed.

Section thread.
Context (env : cluster_env) (E1 : one_dim env) (fuel : nat) (fill : Z -> cstr) (Hfill : forall n, 0 <= n -> Z.of_nat (length (fill n)) = n) (g : grid).

Lemma delete_answered_spec name ans : forall hl l, is_seq hl l -> names_ok ans ->
  wp (delete_answered env hl name ans) (fun hl' => exists l', is_seq hl' l' /\ l' ⊆+ l /\
    (length l <= length l' + length (filter (fun r => node_name r <> Some name) ans))%nat /\ (forall s, s ∈ l -> s ∈ l' \/ answered ans s)).
Proof using E1.
  induction ans as [|r ans IH]; intros hl l Hs Hok; [exists l; split_and!; auto; simpl; lia|]. apply Forall_cons in Hok as [Hr Hok].
  assert (Hrec : forall hl1 l1, is_seq hl1 l1 -> l1 ⊆+ l ->
    (length l <= length l1 + (if decide (node_name r = Some name) then 0 else 1))%nat ->
    (forall s, s ∈ l -> s ∈ l1 \/ node_name r = Some s) ->
    wp (delete_answered env hl1 name ans) (fun hl' => exists l', is_seq hl' l' /\ l' ⊆+ l /\
      (length l <= length l' + length (filter (fun r => node_name r <> Some name) (r :: ans)))%nat /\ (forall s, s ∈ l -> s ∈ l' \/ answered (r :: ans) s))).
  { intros hl1 l1 Hs1 Hsub Hlen Hin. eapply wp_mono; [by apply (IH hl1 l1)|]. intros hl' (l' & Hs' & Hsub' & Hlen' & Hin'). exists l'.
    split_and!; [done|by etransitivity| |].
    - rewrite filter_cons. destruct (decide (node_name r = Some name)); case_decide; simpl; (done || lia).
    - intros s H. unfold answered. cbn [fmap list_fmap]. rewrite elem_of_cons. destruct (Hin s H) as [H1|H1]; [|auto]. destruct (Hin' s H1); auto. }
  cbn [delete_answered]. case_bool_decide as En.
  { simpl. apply (Hrec hl l); [done|done|rewrite decide_True by done; lia|auto]. }
  destruct (node_name r) as [s|] eqn:Er; [|simpl; apply (Hrec hl l); [done|done|rewrite decide_False by done; lia|auto]].
  apply wp_bind, wp_bind. eapply wp_mono; [apply (delete_host_seq env E1 hl l s Hs); by apply Hr|].
  intros [rc hl1] H. apply wp_ret. destruct (index_of s l) as [i|] eqn:Ei.
  - destruct H as [_ H]. pose proof (index_of_lt _ _ _ Ei). apply (Hrec hl1 (delete i l)); [done|apply submseteq_delete| |].
    + rewrite length_delete by (by apply lookup_lt_is_Some_2). rewrite decide_False by done. lia.
    + intros t Ht. rewrite <-(take_drop_middle l i s (index_of_lookup _ _ _ Ei)), elem_of_app, elem_of_cons in Ht.
      rewrite delete_take_drop, elem_of_app. destruct Ht as [?|[->|?]]; auto.
  - destruct H as [_ H]. apply (Hrec hl1 l); [done|done|rewrite decide_False by done; lia|auto].
Qed.

(** The text that goes with the message is read as the hosts to forward to. *)
Lemma forward_nodelist_spec hl l : is_seq hl l -> Forall printable l -> Z.of_nat (length l) < 65536 ->
  u16 (hostlist_count hl) = Z.of_nat (length l) /\
  wp (forward_nodelist env fill g hl (Z.of_nat (length l))) (fun text => exists hl' rs, hostlist_create env fuel text = Ret (Some hl') /\ hl_rep hl' rs /\ rhosts rs = l).
Proof using All.
  intros Hs Hp Hlen. destruct (is_seq_count _ _ Hs) as [Ec _]. split; [rewrite Ec; unfold u16; apply Z.mod_small; lia|]. unfold forward_nodelist.
  destruct (Z.eqb_spec (Z.of_nat (length l)) 0) as [E|E].
  - rewrite (nil_length_inv l) by lia. simpl. exists hostlist_new, []. split_and!; [|apply rep_new|done].
    unfold hostlist_create, hostlist_create_dims. by rewrite E1.
  - destruct (read_back_seq env E1 fill Hfill g hl l fuel Hs Hp ltac:(unfold MAX_RANGE; lia)) as (text & hl' & rs & Et & Ec' & R & Er & Hseq).
    rewrite Et. simpl. by exists hl', rs.
Qed.

Definition complete (e : event) (s : option sent) : Prop := match s with Some s => complete_answer env fuel s e | None => True end.

Lemma loop_weight_cons hl a l : is_seq hl (a :: l) -> loop_weight (Some hl) = (5 * length l + 4)%nat.
Proof. intros Hs. destruct (is_seq_count _ _ Hs) as [Ec _]. unfold loop_weight, list_hosts. rewrite Ec, Nat2Z.id. simpl. lia. Qed.

Lemma loop_weight_le hl l : is_seq hl l -> (loop_weight (Some hl) <= 5 * length l + 2)%nat.
Proof. intros Hs. destruct (is_seq_count _ _ Hs) as [Ec _]. unfold loop_weight, list_hosts. rewrite Ec, Nat2Z.id. case_decide; lia. Qed.

Lemma tree_round_spec e t name hl l ret_list thr_count : event_ok e -> is_seq hl l -> printable name -> Forall printable l ->
  Z.of_nat (length l) < 65536 -> weight t = (5 * length l + 4)%nat ->
  wp (tree_round env fill g e name hl ret_list thr_count) (fun o => exists l', step_ok t (name :: l) ret_list thr_count (complete e) o l' []).
Proof using All.
  intros He Hs (Hn & _) Hp Hlen Hw. pose proof (forward_nodelist_spec hl l Hs Hp Hlen) as [Ecnt Htext]. unfold tree_round.
  assert (e = NoAddress \/ e <> NoAddress) as [->|Hne] by (destruct e; [by left|by right..]).
  { apply wp_ret. exists l. split; simpl; rewrite ?app_nil_r; try done; try lia.
    - by exists hl.
    - by apply submseteq_cons.
    - intros s. rewrite answered_mark. auto.
    - intros _ s. rewrite answered_mark, elem_of_cons. tauto.
    - pose proof (loop_weight_le _ _ Hs). unfold weights. simpl. lia. }
  assert (Em : forall A (x y : A), match e with NoAddress => x | _ => y end = y) by (by destruct e). rewrite Em. clear Em. cbn zeta. rewrite Ecnt.
  apply wp_bind. eapply wp_mono; [exact Htext|]. intros text (hlt & rst & Et & Rt & Ert).
  destruct (send_answers e name He Hn) as (r & ans & Ea & Er & Hok). set (cnt := Z.of_nat (length l)) in *.
  assert (Hcomp : complete_answer env fuel (Sent name cnt text) e -> cnt < Z.of_nat (length (r :: ans)) -> forall s, s ∈ l -> answered (r :: ans) s).
  { intros Hc Hlt s Hin. unfold complete_answer in Hc. simpl in Hc. rewrite Ea in Hc. apply (Hc Hlt hlt rst s); [done|done|by rewrite Ert]. }
  destruct (slurm_send_addr_recv_msgs e name) as [answers err] eqn:Esend. simpl in Ea. subst answers.
  assert (Hname : answered (r :: ans) name) by (unfold answered; cbn [fmap list_fmap]; rewrite Er; left).
  set (ret_cnt := Z.of_nat (length (r :: ans))) in *.
  assert (Hdel : wp (if (ret_cnt <=? cnt) && negb (err =? SLURM_COMMUNICATIONS_CONNECTION_ERROR) && (1 <? ret_cnt) then delete_answered env hl name (r :: ans) else Ret hl)
    (fun hl' => exists l', is_seq hl' l' /\ l' ⊆+ l /\ ((ret_cnt <=? cnt) = false -> hl' = hl /\ l' = l) /\ (length l <= length l' + length ans)%nat /\
      forall s, s ∈ l -> s ∈ l' \/ answered (r :: ans) s)).
  { destruct (_ && _ && _) eqn:Ec; [|exists l; split_and!; auto; lia]. eapply wp_mono; [by apply delete_answered_spec|].
    intros hl' (l' & Hs' & Hsub & Hl & Hin). exists l'. split_and!; try done; [intros Ef; by rewrite Ef in Ec|].
    rewrite filter_cons, decide_False in Hl by (intros Hf; by apply Hf). pose proof (length_filter (fun r => node_name r <> Some name) ans). lia. }
  apply wp_bind. eapply wp_mono; [exact Hdel|]. clear Hdel. intros hl' (l' & Hs' & Hsub & Hsame & Hl & Hin). apply wp_ret.
  pose proof (submseteq_length _ _ Hsub) as Hle.
  assert (Hdone : forall next l2, next_is (Some next) l2 -> l2 ⊆+ l -> (length l < length l2 + length (r :: ans))%nat ->
    (complete_answer env fuel (Sent name cnt text) e -> forall s, s ∈ l -> s ∈ l2 \/ answered (r :: ans) s) -> (weight next < 5 * length l + 4)%nat ->
    step_ok t (name :: l) ret_list thr_count (complete e) (Outcome (Some next) [] (ret_list ++ r :: ans) thr_count (Some (Sent name cnt text))) l2 []).
  { intros next l2 H1 H2 H3 H4 H5. split; simpl; rewrite ?app_nil_r; try done; try lia.
    - by apply submseteq_cons.
    - rewrite length_app. simpl in *. lia.
    - intros s. rewrite answered_app. auto.
    - intros Hc s. rewrite answered_app, elem_of_cons. intros [->|Hs2]; [auto|]. destruct (H4 Hc s Hs2); auto. }
  destruct (is_seq_count _ _ Hs') as [Ec' _].
  destruct (Z.leb_spec ret_cnt cnt) as [Hle2|Hgt].
  - exists l'. apply Hdone; [exists hl'; by split_and!|done|simpl; lia|intros _; exact Hin|]. simpl. rewrite Ec', Nat2Z.id. lia.
  - destruct (Hsame eq_refl) as [-> ->]. destruct (err =? SLURM_COMMUNICATIONS_CONNECTION_ERROR).
    + exists l. apply Hdone; [by exists hl|done|simpl; lia|auto|]. pose proof (loop_weight_le _ _ Hs). simpl. lia.
    + exists []. apply Hdone; [done|apply submseteq_nil_l|unfold ret_cnt, cnt in *; simpl in *; lia| |simpl; lia]. intros Hc s Hs2. right. by apply Hcomp.
Qed.

Lemma thread_spec e t l ret_list thr_count : event_ok e -> thread_is t l -> Forall printable l -> Z.of_nat (length l) <= 65536 ->
  wp (_fwd_tree_thread env fuel fill g e t ret_list thr_count) (fun o => exists l' ls, step_ok t l ret_list thr_count (complete e) o l' ls).
Proof using All.
  intros He Ht Hp Hlen. destruct t as [hl|hl n|]; simpl in Ht.
  - destruct Ht as (h & -> & Hs). cbn [_fwd_tree_thread shift_list]. apply wp_bind, wp_bind. eapply wp_mono; [by apply (shift_seq env E1 h l)|].
    intros [name h'] [-> Hs']. apply wp_ret. destruct l as [|name l]; cbn [head].
    + apply wp_ret. exists [], []. split; simpl; rewrite ?app_nil_r; auto; try lia. unfold weights. destruct (is_seq_count _ _ Hs) as [Ec _].
      simpl. unfold loop_weight, list_hosts. rewrite Ec. simpl. lia.
    + cbn [drop] in Hs'. rewrite drop_0 in Hs'. apply Forall_cons in Hp as [Hn Hp]. simpl in Hlen. pose proof (loop_weight_cons h name l Hs).
      eapply wp_mono; [by apply (tree_round_spec e (TLoop (Some h)) name h' l); try lia|]. intros o [l' H']. by exists l', [].
  - destruct Ht as (h & -> & Hs & ->). cbn [_fwd_tree_thread shift_list]. destruct (is_seq_count _ _ Hs) as [Ec _].
    destruct l as [|name l]; cbn [length]; [|rewrite (proj2 (Z.ltb_lt _ _)) by lia].
    + apply wp_ret. exists [], []. split; simpl; rewrite ?app_nil_r; auto; try lia; [by exists h|].
      unfold weights. simpl. unfold loop_weight, list_hosts. rewrite Ec. simpl. lia.
    + apply Forall_cons in Hp as [Hn Hp]. apply wp_bind, wp_bind. eapply wp_mono; [by apply (shift_seq env E1 h (name :: l))|].
      intros [o h'] [-> Hs']. cbn [drop] in Hs'. rewrite drop_0 in Hs'. apply wp_ret. cbn [head]. apply wp_bind.
      assert (Hsh : short name) by (destruct Hs as (rs & _ & _ & _ & F); by apply Forall_cons in F as [F _]).
      eapply wp_mono; [by apply (create_host env E1 fuel name)|]. intros r (b & -> & Hb). apply wp_ret. exists l, [[name]].
      destruct (is_seq_count _ _ Hs') as [Ec' _]. simpl in Ec. split; simpl; try done; try lia.
      * exists h'. split_and!; [done..|lia].
      * by repeat constructor; exists b.
      * rewrite Permutation_app_comm. simpl. done.
      * rewrite length_app. simpl. lia.
      * intros _ s. rewrite elem_of_cons, elem_of_app, list_elem_of_singleton. tauto.
      * unfold weights. simpl. rewrite (loop_weight_cons b name [] Hb), Ec, Ec'. simpl. lia.
  - subst l. apply wp_ret. exists [], []. split; simpl; auto; try lia.
Qed.
End thread.
