(* ===== verification/ForwardProps.v ===== *)
(** * Fan-out of messages: every host is answered for *)

From Stdlib Require Import Sorting.Sorted.
From stdpp Require Import relations.
From S2P Require Import Prelude NatCmp Hostlist HostlistParse HostlistPrint HostlistFacts HostlistOps HostlistSeq HostlistText HostlistRead HostlistSort HostlistCoalesce HostlistOrder HostlistNames Route RouteFacts RouteProps Forward ForwardFacts.

Local Open Scope Z_scope.
Local Open Scope slurm_scope.

(** ** The invariant of a call *)

Definition list_is (hl : option hostlist) (l : list cstr) : Prop := exists h, hl = Some h /\ is_seq h l.

(** The branches that have no thread yet. *)
Definition main_is (m : main_pc) (ms : list (list cstr)) : Prop := match m with MStart sp => Forall2 list_is sp ms | _ => ms = [] end.

(** Every host waits in a thread or branch, or has been answered for. *)
Record call_inv (named : Prop) (hosts : list cstr) (c : call) (ls ms : list (list cstr)) : Prop := {
  ci_threads : Forall2 thread_is (c_threads c) ls;
  ci_main : main_is (c_main c) ms;
  ci_print : Forall printable (concat ls ++ concat ms);
  ci_size : Z.of_nat (length (concat ls ++ concat ms)) <= 65536;
  ci_count : c_thr_count c = Z.of_nat (length (c_threads c));
  ci_total : (length hosts <= length (concat ls ++ concat ms) + length (c_ret_list c))%nat;
  ci_named : named -> forall s, s ∈ hosts -> s ∈ concat ls ++ concat ms \/ answered (c_ret_list c) s;
  ci_done : forall n, c_main c = MDone n -> n = Z.of_nat (length (c_ret_list c)) /\ c_threads c = []
}.

Definition main_weight (m : main_pc) : nat :=
  match m with MStart sp => sum_list_with (fun hl => S (loop_weight hl)) sp + 2 | MWait => 1 | MDone _ => 0 end.
Definition call_weight (c : call) : nat := weights (c_threads c) + main_weight (c_main c).

Lemma weights_app l1 l2 : weights (l1 ++ l2) = (weights l1 + weights l2)%nat.
Proof. apply sum_list_with_app. Qed.

Lemma main_step_inv named hosts c ls ms c' : call_inv named hosts c ls ms -> main_step c = Some c' ->
  (exists ls' ms', call_inv named hosts c' ls' ms') /\ (call_weight c' < call_weight c)%nat.
Proof.
  intros [Ht Hm Hp Hz Hc Hl Hn Hd]. unfold main_step, call_weight. destruct (c_main c) as [[|hl sp]| |n] eqn:Em; simpl in Hm; [| | |done].
  - intros [= <-]. split; [|simpl; lia]. apply Forall2_nil_inv_l in Hm as ->. by exists ls, [].
  - intros [= <-]. apply Forall2_cons_inv_l in Hm as (m & ms' & Hh & Hm & ->). split.
    + exists (ls ++ [m]), ms'. assert (E : concat (ls ++ [m]) ++ concat ms' = concat ls ++ concat (m :: ms')).
      { rewrite concat_app. simpl. by rewrite app_nil_r, <-app_assoc. }
      split; simpl; rewrite ?E; try done; [by apply Forall2_app; [|constructor]|]. rewrite Hc, length_app. simpl. lia.
    + simpl. rewrite weights_app. unfold weights. simpl. lia.
  - destruct (Z.ltb_spec 0 (c_thr_count c)) as [|Hle]; [done|]. intros [= <-]. subst ms. split; [|simpl; lia]. exists ls, [].
    split; simpl; try done. intros n [= <-]. split; [done|]. apply nil_length_inv. lia.
Qed.

Section run.
Context (env : cluster_env) (E1 : one_dim env) (fuel : nat) (fill : Z -> cstr) (Hfill : forall n, 0 <= n -> Z.of_nat (length (fill n)) = n) (g : grid).

Lemma fwd_thread_step_inv (named : Prop) hosts c ls ms i t e o : call_inv named hosts c ls ms -> event_ok e -> c_threads c !! i = Some t ->
  _fwd_tree_thread env fuel fill g e t (c_ret_list c) (c_thr_count c) = Ret o -> (named -> complete env fuel e (out_sent o)) ->
  let c' := Call (c_main c) (respawn i (out_next o) (out_new o) (c_threads c)) (out_thr_count o) (out_ret_list o) in
  (exists ls', call_inv named hosts c' ls' ms) /\ (call_weight c' < call_weight c)%nat.
Proof using E1 Hfill.
  intros [Hts Hm Hp Hz Hc Hl Hn Hd] He Hi Ho Hcomp c'.
  destruct (pool_thread thread_is _ _ (concat ms) i t Hts Hi Hp) as (T1 & T2 & L1 & l & L2 & ET & -> & -> & H1 & Ht & H2 & Hpl & Hzl).
  pose proof (thread_spec env E1 fuel fill Hfill g e t l (c_ret_list c) (c_thr_count c) He Ht Hpl ltac:(lia)) as Hw. rewrite Ho in Hw.
  destruct Hw as (l' & ln & [Sn Sw Ss Sc Sa Sk Snm Swt]). set (lmid := match out_next o with Some _ => [l'] | None => [] end).
  assert (Emid : concat lmid = l') by (unfold lmid; destruct (out_next o); simpl in *; [by rewrite app_nil_r|done]).
  destruct (respawn_hosts L1 l L2 lmid l' ln (concat ms) Emid Ss) as (Hsub & Hlen & Hold & Hnew). pose proof (submseteq_length _ _ Hsub).
  pose proof (respawn_at T1 t T2 (out_next o) (out_new o)) as ET'. rewrite <-ET in ET'. split.
  - exists ((L1 ++ lmid ++ L2) ++ ln). split; cbn [c_threads c' c_main c_thr_count c_ret_list]; rewrite ?ET'; try done.
    + repeat apply Forall2_app; try done. unfold lmid. destruct (out_next o); simpl in Sn; by repeat constructor.
    + rewrite Forall_forall in Hp |- *. intros s Hs. by eapply Hp, elem_of_submseteq.
    + lia.
    + rewrite Sc, Hc, ET, !length_app. destruct (out_next o); simpl; lia.
    + lia.
    + intros Hnm s Hs. destruct (Hn Hnm s Hs) as [[Hin|Hin]%Hold|Hin]; [|by left|right; auto].
      destruct (Snm (Hcomp Hnm) s Hin); [left; auto|by right].
    + intros n Hmn. destruct (Hd n Hmn) as [_ Hnil]. rewrite Hnil in Hi. done.
  - unfold call_weight. cbn [c_threads c' c_main]. rewrite ET', ET, !weights_app. change (weights (t :: T2)) with (weight t + weights T2)%nat.
    destruct (out_next o) as [t'|]; unfold weights at 2; simpl in *; lia.
Qed.

(** The call when it starts. *)
Lemma start_spec conf g_tree_width hl l tree_width (W : nat) : is_seq hl l -> uniform l -> Forall printable l -> Z.of_nat (length l) <= 65536 -> (0 < W)%nat ->
  (if tree_width =? 0 then g_tree_width else tree_width) = Z.of_nat W ->
  exists hosts c ms, start_msg_tree env fuel conf g_tree_width hl tree_width = Ret (c, Z.of_nat (length hosts)) /\
    NoDup hosts /\ (forall s, s ∈ hosts <-> s ∈ l) /\ call_inv True hosts c [] ms.
Proof using E1.
  intros Hs Hu Hp Hz HW Ew. destruct (uniq_seq hl l Hs Hu) as (hl1 & hosts & Eu & Hs1 & Hnd & Hin & _). unfold start_msg_tree. rewrite Eu. simpl.
  assert (Hp1 : Forall printable hosts) by (rewrite Forall_forall in Hp |- *; intros s H; by apply Hp, Hin).
  assert (Hz1 : (length hosts <= length l)%nat) by (apply submseteq_length, NoDup_submseteq; [done|]; intros s; by rewrite Hin).
  destruct (wp_inv _ _ (split_spec env E1 fuel conf g_tree_width hl1 hosts tree_width W Hs1 Hp1 HW Ew)) as ([[sp n] hl2] & -> & _ & span & bs & ls & _ & _ & Hbs & -> & -> & Hcat & _).
  destruct (is_seq_count _ _ Hs1) as [-> _]. simpl. eexists hosts, _, ls. split_and!; [done|done|done|].
  rewrite Nat2Z.id, take_app_length' by (by rewrite length_fmap). split; simpl; rewrite ?Hcat; try done; try lia; auto.
  apply Forall2_fmap_l. eapply Forall2_impl; [exact Hbs|]. intros h m H. by exists h.
Qed.

(** A step can be made: by the main thread, or by some thread whatever the network
    does. *)
Definition can_go (c : call) : Prop :=
  is_Some (main_step c) \/ exists i t, c_threads c !! i = Some t /\
    forall e, event_ok e -> exists o, _fwd_tree_thread env fuel fill g e t (c_ret_list c) (c_thr_count c) = Ret o.

Lemma inv_can_go named hosts c ls ms : call_inv named hosts c ls ms -> (forall n, c_main c <> MDone n) -> can_go c.
Proof using E1 Hfill.
  intros Hinv Hnd. destruct (c_threads c) as [|t T] eqn:ET.
  - left. unfold main_step. pose proof (ci_count _ _ _ _ _ Hinv) as Hc. rewrite ET in Hc. rewrite Hc. simpl.
    destruct (c_main c) as [[|hl sp]| |n]; [done|done|done|by destruct (Hnd n)].
  - right. exists 0%nat, t. rewrite ET. split; [done|]. intros e He.
    destruct Hinv as [Hts _ Hp Hz _ _ _ _]. rewrite ET in Hts. destruct (pool_thread thread_is _ _ (concat ms) 0 t Hts eq_refl Hp) as (_ & _ & _ & l & _ & _ & _ & _ & _ & Ht & _ & Hpl & Hzl).
    destruct (wp_inv _ _ (thread_spec env E1 fuel fill Hfill g e t l (c_ret_list c) (c_thr_count c) He Ht Hpl ltac:(lia))) as (o & Eo & _). by exists o.
Qed.

Context (net : sent -> event -> Prop) (Hnet : forall s e, net s e -> event_ok e).

(** Answers with enough entries name the hosts of the message. *)
Definition complete_net : Prop := forall s e, net s e -> complete_answer env fuel s e.

Lemma call_step_inv named hosts c ls ms c' : (named -> complete_net) -> call_inv named hosts c ls ms -> call_step env fuel fill g net c c' ->
  (exists ls' ms', call_inv named hosts c' ls' ms') /\ (call_weight c' < call_weight c)%nat.
Proof using E1 Hfill Hnet.
  intros Hcn Hinv Hstep. destruct Hstep as [c c' Hm|c i t e o Hi Ho Hs]; [by eapply main_step_inv|].
  assert (He : event_ok e) by (destruct (out_sent o); [by eapply Hnet|by subst e]).
  destruct (fwd_thread_step_inv named hosts c ls ms i t e o Hinv He Hi Ho) as [[ls' H] Hw].
  - intros Hnm. unfold complete. destruct (out_sent o); [|done]. by apply Hcn.
  - split; [|done]. by exists ls', ms.
Qed.

Lemma run_inv named hosts n c c' : (named -> complete_net) -> nsteps (call_step env fuel fill g net) n c c' ->
  forall ls ms, call_inv named hosts c ls ms -> (exists ls' ms', call_inv named hosts c' ls' ms') /\ (n + call_weight c' <= call_weight c)%nat.
Proof using E1 Hfill Hnet.
  intros Hcn. induction 1 as [c|n c1 c2 c3 Hstep Hrun IH]; intros ls ms Hinv; [split; [by exists ls, ms|simpl; lia]|].
  destruct (call_step_inv _ _ _ _ _ _ Hcn Hinv Hstep) as [(ls2 & ms2 & H2) Hw]. destruct (IH ls2 ms2 H2) as [H3 Hw3]. split; [done|lia].
Qed.
End run.

(** C8: [start_msg_tree] answers for every host.  For any list of at most 65536 hosts
    with printable one-dimensional names in which the numbers after one stem are padded to one width
    ([uniform]), and any positive tree width, in every interleaving of the main thread and the threads that it and
    they start, and whatever the network does (unknown addresses, refused
    connections, lost or incomplete answers): no step faults, the call is never
    stuck before it has returned, it returns after finitely many steps, and then
    no thread is left and the list of answers has at least one entry for each of
    the distinct hosts, as the assertion at the end of the function says.  If
    moreover answers that have one entry for each host of a message name these
    hosts, then every host has an entry with its name. *)
Theorem every_host_is_answered (env : cluster_env) (fuel : nat) (fill : Z -> cstr) (g : grid) (net : sent -> event -> Prop) (conf : route_conf)
    (g_tree_width tree_width : Z) (hl : hostlist) (l : list cstr) :
  one_dim env -> (forall n, 0 <= n -> Z.of_nat (length (fill n)) = n) -> (forall s e, net s e -> event_ok e) ->
  is_seq hl l -> uniform l -> Forall printable l -> Z.of_nat (length l) <= 65536 -> 0 < (if tree_width =? 0 then g_tree_width else tree_width) ->
  exists c0 host_count, start_msg_tree env fuel conf g_tree_width hl tree_width = Ret (c0, host_count) /\
    (exists hosts, NoDup hosts /\ (forall s, s ∈ hosts <-> s ∈ l) /\ host_count = Z.of_nat (length hosts)) /\
    (exists bound, forall n c, nsteps (call_step env fuel fill g net) n c0 c -> (n <= bound)%nat) /\
    forall c, rtc (call_step env fuel fill g net) c0 c ->
      ((forall count, c_main c <> MDone count) -> can_go env fuel fill g c) /\
      forall count, c_main c = MDone count -> host_count <= count /\ c_threads c = [] /\
        (complete_net env fuel net -> forall s, s ∈ l -> answered (c_ret_list c) s).
Proof.
  intros E1 Hfill Hnet Hs Hu Hp Hz Hw. set (w := if tree_width =? 0 then g_tree_width else tree_width) in Hw.
  destruct (start_spec env E1 fuel conf g_tree_width hl l tree_width (Z.to_nat w) Hs Hu Hp Hz ltac:(lia) ltac:(lia)) as (hosts & c0 & ms & Est & Hnd & Hin & Hinv).
  assert (Hinv' : call_inv (complete_net env fuel net) hosts c0 [] ms) by (destruct Hinv; split; auto).
  exists c0, (Z.of_nat (length hosts)). split; [done|]. split; [by exists hosts|]. split.
  - exists (call_weight c0). intros n c Hrun. destruct (run_inv env E1 fuel fill Hfill g net Hnet _ hosts n c0 c id Hrun _ _ Hinv') as [_ H]. lia.
  - intros c [n Hrun]%rtc_nsteps_1. destruct (run_inv env E1 fuel fill Hfill g net Hnet _ hosts n c0 c id Hrun _ _ Hinv') as [(ls' & ms' & Hc) _].
    split; [by eapply inv_can_go|]. intros count Hm. destruct Hc as [Ht Hmain Hpr Hsz Hct Htot Hnm Hdone]. destruct (Hdone count Hm) as [-> ET].
    rewrite Hm in Hmain. rewrite ET in Ht. apply Forall2_nil_inv_l in Ht. simpl in Hmain. subst ls' ms'. simpl in *. split_and!; [lia|done|].
    intros Hcn s Hsl. destruct (Hnm Hcn s ltac:(by apply Hin)) as [?%elem_of_nil|?]; done.
Qed.

(** A call for seven hosts in a network in which anything can happen. *)
Lemma every_host_is_answered_witness :
  exists c0 host_count, start_msg_tree small_env 0 (RouteConf false 2) 2 seven_hosts 0 = Ret (c0, host_count) /\
    (exists hosts, NoDup hosts /\ (forall s, s ∈ hosts <-> s ∈ seven) /\ host_count = Z.of_nat (length hosts)) /\
    (exists bound, forall n c, nsteps (call_step small_env 0 (fun n => replicate (Z.to_nat n) 0) grid_init (fun _ => event_ok)) n c0 c -> (n <= bound)%nat) /\
    forall c, rtc (call_step small_env 0 (fun n => replicate (Z.to_nat n) 0) grid_init (fun _ => event_ok)) c0 c ->
      ((forall count, c_main c <> MDone count) -> can_go small_env 0 (fun n => replicate (Z.to_nat n) 0) grid_init c) /\
      forall count, c_main c = MDone count -> host_count <= count /\ c_threads c = [] /\
        (complete_net small_env 0 (fun _ => event_ok) -> forall s, s ∈ seven -> answered (c_ret_list c) s).
Proof.
  destruct seven_ok as (H1 & H2 & H3 & _).
  apply (every_host_is_answered small_env 0 (fun n => replicate (Z.to_nat n) 0) grid_init (fun _ => event_ok) (RouteConf false 2) 2 0 seven_hosts seven);
    [done| |done|done|done|done|done|done]. intros n Hn. rewrite length_replicate. lia.
Defined.
