(* ===== verification/ForwardNode.v ===== *)
(** * Fan-out of messages: src/common/forward.c, a node of the tree

    A node that receives a message with hosts to forward it to divides them among
    branches ([forward_msg]), starts a thread for each, and waits until there is an
    answer for every host ([forward_wait]); then it frees the [forward_struct] that it
    shares with the threads, and a thread that locks it later faults.  As in [Forward], a
    state has the positions of the threads, and each attempt to send gets an event. *)

From stdpp Require Import relations.
From S2P Require Import Prelude Hostlist HostlistParse HostlistPrint Route Forward.

Local Open Scope Z_scope.
Local Open Scope slurm_scope.

Definition REQUEST_RECONFIGURE : Z := 1003.
Definition REQUEST_SHUTDOWN : Z := 1005.
Definition REQUEST_REBOOT_NODES : Z := 1015.

(** Messages that are not answered. *)
Definition no_return (msg_type : Z) : bool :=
  (msg_type =? REQUEST_SHUTDOWN) || (msg_type =? REQUEST_RECONFIGURE) || (msg_type =? REQUEST_REBOOT_NODES).

(** ** Threads *)

(** A thread has not read its list of hosts yet, is at the head of its loop, or
    starts a thread for each of the [n] hosts that are left ([_forward_msg_internal]). *)
Inductive fthread : Type :=
| FStart (nodelist : cstr)
| FLoop (hl : option hostlist)
| FSpawn (hl : option hostlist) (n : Z).

(** What a step does: the next position, the threads started, the list of answers
    and what was sent. *)
Record foutcome : Type := FOutcome {
  fout_next : option fthread; fout_new : list fthread; fout_ret_list : list ret_data_info; fout_sent : option sent
}.

(** The answer of [tmp] is looked for; on the way the answer without a name is given
    the name of the host that was called. *)
Fixpoint scan_answers (name tmp : cstr) (ret_list : list ret_data_info) : list ret_data_info * bool * bool :=
  match ret_list with
  | [] => ([], false, false)
  | r :: ret_list =>
      let first := bool_decide (node_name r = None) in
      let r := own_name name r in
      if bool_decide (node_name r = Some tmp) then (r :: ret_list, first, true)
      else let '(l, f, found) := scan_answers name tmp ret_list in (r :: l, first || f, found)
  end.

Section thread.
Context (env : cluster_env) (fuel : nat) (fill : Z -> cstr) (g : grid) (msg_type : Z).

(** An answer for each host that is left. *)
Definition answer_all (hl : hostlist) (ret_list : list ret_data_info) : exec (list ret_data_info) :=
  loop (S (Z.to_nat (hostlist_count hl))) (fun '(hl, ret_list) =>
    '(name, hl) ← hostlist_shift env hl;
    match name with
    | Some name => Ret (inl (hl, RetDataInfo (Some name) 0 0 :: ret_list))
    | None => Ret (inr ret_list)
    end) (hl, ret_list).

(** "We shouldn't be here": the hosts without an answer are marked as failed. *)
Definition reconcile (name : cstr) (hl : hostlist) (answers ret_list : list ret_data_info) :
    exec (list ret_data_info * list ret_data_info) :=
  '(k, hl) ← hostlist_iterator_create hl;
  '(answers, ret_list, first) ← loop (S (Z.to_nat (hostlist_count hl))) (fun '(hl, answers, ret_list, first) =>
    '(tmp, hl) ← hostlist_next env hl k;
    match tmp with
    | None => Ret (inr (answers, ret_list, first))
    | Some tmp =>
        let '(answers, f, found) := scan_answers name tmp answers in
        let ret_list := if found then ret_list else mark_as_failed_forward ret_list tmp SLURM_COMMUNICATIONS_CONNECTION_ERROR in
        Ret (inl (hl, answers, ret_list, first || f))
    end) (hl, answers, ret_list, false);
  Ret (answers, if first : bool then ret_list else mark_as_failed_forward ret_list name SLURM_COMMUNICATIONS_CONNECTION_ERROR).

(** The host has failed: go on with the next one, if there is one. *)
Definition failed (name : cstr) (hl : hostlist) (err : Z) (ret_list : list ret_data_info) (s : option sent) : exec foutcome :=
  Ret (FOutcome (if 0 <? hostlist_count hl then Some (FLoop (Some hl)) else None) [] (mark_as_failed_forward ret_list name err) s).

(** The host cannot be reached: the other hosts get a thread each. *)
Definition abandon (name : cstr) (hl : hostlist) (err : Z) (ret_list : list ret_data_info) (s : option sent) : exec foutcome :=
  Ret (FOutcome (if 0 <? hostlist_count hl then Some (FSpawn (Some hl) (hostlist_count hl)) else None) []
         (mark_as_failed_forward ret_list name err) s).

Definition forward_round (e : event) (name : cstr) (hl : hostlist) (ret_list : list ret_data_info) : exec foutcome :=
  match e with
  | NoAddress => failed name hl SLURM_UNKNOWN_FORWARD_ADDR ret_list None
  | NoConnection => abandon name hl SLURM_COMMUNICATIONS_CONNECTION_ERROR ret_list None
  | NotSent err =>
      '(text, _) ← hostlist_ranged_string_xmalloc fill env g hl;
      abandon name hl err ret_list (Some (Sent name (u16 (hostlist_count hl)) text))
  | Received msg =>
      '(text, _) ← hostlist_ranged_string_xmalloc fill env g hl;
      let cnt := u16 (hostlist_count hl) in
      let s := Some (Sent name cnt text) in
      if no_return msg_type then
        ret_list ← answer_all hl (RetDataInfo (Some name) 0 0 :: ret_list);
        Ret (FOutcome None [] ret_list s)
      else
        match slurm_receive_msgs msg with
        | (None, err) => failed name hl err ret_list s
        | (Some answers, err) =>
            let n := Z.of_nat (length answers) in
            if negb (cnt =? 0) && (n <=? 1) then failed name hl err ret_list s
            else
              '(answers, ret_list) ← (if negb (cnt + 1 =? n) then reconcile name hl answers ret_list else Ret (answers, ret_list));
              Ret (FOutcome None [] (reverse (own_name name <$> answers) ++ ret_list) s)
        end
  end.

(** Every way through the loop locks the mutex of the [forward_struct]; [live]: it has
    not been freed.  Before the loop, and in [_forward_msg_internal], only the pointer
    is copied. *)
Definition _forward_thread (live : bool) (e : event) (t : fthread) (ret_list : list ret_data_info) : exec foutcome :=
  match t with
  | FStart nodelist =>
      hl ← hostlist_create env fuel nodelist;
      Ret (FOutcome (Some (FLoop hl)) [] ret_list None)
  | FLoop hl =>
      if negb live then Fault else
      '(name, hl) ← shift_list env hl;
      match name, hl with
      | Some name, Some hl => forward_round e name hl ret_list
      | _, _ => Ret (FOutcome None [] ret_list None)
      end
  | FSpawn hl n =>
      if 0 <? n then
        '(name, hl) ← shift_list env hl;
        Ret (FOutcome (Some (FSpawn hl (n - 1))) [FStart (default [] name)] ret_list None)
      else Ret (FOutcome (Some (FLoop hl)) [] ret_list None)
  end.
End thread.

(** ** The node *)

(** The thread that received the message starts the threads, waits, or is done. *)
Inductive node_pc : Type :=
| NStart (sp_hl : list (option hostlist))
| NWait
| NDone.

(** [n_live]: the [forward_struct] is allocated. *)
Record node : Type := Node { n_main : node_pc; n_threads : list fthread; n_ret_list : list ret_data_info; n_fwd_cnt : Z; n_live : bool }.

(** One round of the loop of [forward_wait]: it waits until there are as many answers as
    hosts, and then frees the [forward_struct]. *)
Definition forward_wait (n : node) : exec (option node) :=
  if negb (n_live n) then Fault else
  if Z.of_nat (length (n_ret_list n)) <? n_fwd_cnt n then Ret None
  else Ret (Some (Node NDone (n_threads n) (n_ret_list n) (n_fwd_cnt n) false)).

Definition node_main_step (env : cluster_env) (fill : Z -> cstr) (g : grid) (n : node) : exec (option node) :=
  match n_main n with
  | NStart (hl :: sp_hl) =>
      match hl with
      | Some hl =>
          '(text, _) ← hostlist_ranged_string_xmalloc fill env g hl;
          Ret (Some (Node (NStart sp_hl) (n_threads n ++ [FStart text]) (n_ret_list n) (n_fwd_cnt n) (n_live n)))
      | None => Fault
      end
  | NStart [] => Ret (Some (Node NWait (n_threads n) (n_ret_list n) (n_fwd_cnt n) (n_live n)))
  | NWait => forward_wait n
  | NDone => Ret None
  end.

(** The node when [forward_msg] has divided the hosts; [cnt] and [nodelist] come with
    the message. *)
Definition forward_msg (env : cluster_env) (fuel : nat) (conf : route_conf) (g_tree_width cnt : Z) (nodelist : cstr) (tree_width : Z) : exec node :=
  hl ← hostlist_create env fuel nodelist;
  match hl with
  | None => Fault
  | Some hl =>
      hl ← hostlist_uniq hl;
      '(sp_hl, hl_count, _) ← route_g_split_hostlist env fuel conf g_tree_width hl tree_width;
      Ret (Node (NStart (take (Z.to_nat hl_count) sp_hl)) [] [] cnt true)
  end.

Section steps.
Context (env : cluster_env) (fuel : nat) (fill : Z -> cstr) (g : grid) (msg_type : Z) (net : sent -> event -> Prop).

Inductive node_step : node -> node -> Prop :=
| nstep_main n n' : node_main_step env fill g n = Ret (Some n') -> node_step n n'
| nstep_thread n i t e o :
    n_threads n !! i = Some t ->
    _forward_thread env fuel fill g msg_type (n_live n) e t (n_ret_list n) = Ret o ->
    match fout_sent o with Some s => net s e | None => e = NoAddress \/ e = NoConnection end ->
    node_step n (Node (n_main n) (respawn i (fout_next o) (fout_new o) (n_threads n))
                   (fout_ret_list o) (n_fwd_cnt n) (n_live n)).
End steps.
