(* ===== verification/ForwardNodeProps.v ===== *)
(** * Fan-out of messages: a node answers for the hosts it forwards to *)

From Stdlib Require Import Sorting.Sorted.
From stdpp Require Import relations.
From S2P Require Import Prelude NatCmp Hostlist HostlistParse HostlistPrint HostlistFacts HostlistOps HostlistSeq HostlistText HostlistRead HostlistSort HostlistCoalesce HostlistOrder HostlistNames Route RouteFacts RouteProps Forward ForwardFacts ForwardProps ForwardNode.

Local Open Scope Z_scope.
Local Open Scope slurm_scope.

(** ** Threads *)

(** The answers to a message that goes to [k] hosts are missing, or there is one for
    each of them; the caller takes a single answer for several hosts as a failure. *)
Definition whole_answer (k : Z) (e : event) : Prop :=
  match e with
  | Received msg => match (slurm_receive_msgs msg).1 with Some a => Z.of_nat (length a) <= 1 \/ Z.of_nat (length a) = k | None => True end
  | _ => True
  end.

(** The first answer is the host's own. *)
Lemma receive_own msg a : (slurm_receive_msgs msg).1 = Some a -> exists r a', a = r :: a' /\ node_name r = None.
Proof. unfold slurm_receive_msgs. simpl. destruct (in_rc msg =? 0), (in_ret_list msg); intros [= <-]; by eexists _, _. Qed.

(** What is left to do for [n] hosts. *)
Definition floop_weight (n : nat) : nat := match n with O => 1 | S n => 5 * n + 3 end.
Definition fweight (t : fthread) (n : nat) : nat :=
  match t with FStart _ => S (floop_weight n) | FLoop _ => floop_weight n | FSpawn _ _ => 5 * n + 2 end.
Definition fnext_weight (t : option fthread) (n : nat) : nat := match t with Some t => fweight t n | None => 0 end.
Fixpoint fweights (ts : list fthread) (ls : list (list cstr)) : nat :=
  match ts, ls with t :: ts, l :: ls => fweight t (length l) + fweights ts ls | _, _ => 0 end.

Lemma fweights_app ts1 ls1 ts2 ls2 : length ts1 = length ls1 -> fweights (ts1 ++ ts2) (ls1 ++ ls2) = (fweights ts1 ls1 + fweights ts2 ls2)%nat.
Proof. revert ls1. induction ts1 as [|t ts1 IH]; intros [|l ls1]; try done. intros [=]. simpl. rewrite IH by done. lia. Qed.

Section thread.
Context (env : cluster_env) (E1 : one_dim env) (Hcray : is_cray_system env = false) (fuel : nat)
  (fill : Z -> cstr) (Hfill : forall n, 0 <= n -> Z.of_nat (length (fill n)) = n) (g : grid) (msg_type : Z).

(** The hosts that a thread still has to call. *)
Definition fthread_is (t : fthread) (l : list cstr) : Prop :=
  match t with
  | FStart text => exists h, hostlist_create env fuel text = Ret (Some h) /\ is_seq h l
  | FLoop hl => list_is hl l
  | FSpawn hl n => list_is hl l /\ n = Z.of_nat (length l)
  end.
Definition fnext_is (t : option fthread) (l : list cstr) : Prop := match t with Some t => fthread_is t l | None => l = [] end.

Record fstep_ok (t : fthread) (l : list cstr) (ret_list : list ret_data_info) (complete : option sent -> Prop) (o : foutcome) (l' : list cstr) (ls : list (list cstr)) : Prop := {
  fo_next : fnext_is (fout_next o) l';
  fo_new : Forall2 fthread_is (fout_new o) ls;
  fo_sub : l' ++ concat ls ⊆+ l;
  fo_answers : (length l + length ret_list = length (l' ++ concat ls) + length (fout_ret_list o))%nat;
  fo_kept : forall s, answered ret_list s -> answered (fout_ret_list o) s;
  fo_named : complete (fout_sent o) -> forall s, s ∈ l -> s ∈ l' ++ concat ls \/ answered (fout_ret_list o) s;
  fo_weight : (fnext_weight (fout_next o) (length l') + fweights (fout_new o) ls < fweight t (length l))%nat
}.

Lemma answer_all_spec hl l ret_list : is_seq hl l ->
  wp (answer_all env hl ret_list) (fun r => r = reverse ((fun s => RetDataInfo (Some s) 0 0) <$> l) ++ ret_list).
Proof using E1 Hcray.
  intros Hs. unfold answer_all. destruct (is_seq_count _ _ Hs) as [Ec _]. rewrite Ec, Nat2Z.id.
  eapply (wp_loop (fun '(hl', r) => exists l1 l2, l = l1 ++ l2 /\ is_seq hl' l2 /\ r = reverse ((fun s => RetDataInfo (Some s) 0 0) <$> l1) ++ ret_list)
    (fun '(hl', _) => Z.to_nat (hostlist_count hl'))
    (fun r => r = reverse ((fun s => RetDataInfo (Some s) 0 0) <$> l) ++ ret_list)); [|by exists [], l|by rewrite Ec; lia|done].
  intros [hl' r] (l1 & l2 & -> & Hs' & ->). destruct (is_seq_count _ _ Hs') as [Ec' _]. apply wp_bind. eapply wp_mono; [by apply (shift_seq env E1 _ l2)|].
  intros [name hl2] [-> Hs2]. destruct l2 as [|s l2]; cbn [head]; apply wp_ret; [by rewrite app_nil_r|].
  cbn [drop] in Hs2. rewrite drop_0 in Hs2. destruct (is_seq_count _ _ Hs2) as [Ec2 _]. split; [|rewrite Ec', Ec2; simpl; lia].
  exists (l1 ++ [s]), l2. rewrite <-app_assoc, fmap_app, reverse_app. done.
Qed.

(** The text that goes with the message. *)
Lemma sent_text hl l : is_seq hl l -> Forall printable l -> Z.of_nat (length l) < 65536 ->
  u16 (hostlist_count hl) = Z.of_nat (length l) /\
  exists text, hostlist_ranged_string_xmalloc fill env g hl = Ret (text, g) /\
    exists h, hostlist_create env fuel text = Ret (Some h) /\ is_seq h l.
Proof using E1 Hcray Hfill.
  intros Hs Hp Hlen. destruct (is_seq_count _ _ Hs) as [Ec _]. split; [rewrite Ec; unfold u16; apply Z.mod_small; lia|].
  destruct (read_back_seq env E1 fill Hfill g hl l fuel Hs Hp ltac:(unfold MAX_RANGE; lia)) as (text & hl' & rs & Et & Ec' & R & Er & Hseq).
  exists text. split; [done|]. exists hl'. split; [done|by apply Hseq].
Qed.

Lemma next_list hl l (t : fthread) : is_seq hl l -> fthread_is t l -> (0 < length l -> fweight t (length l) < 5 * length l + 3)%nat ->
  fnext_is (if 0 <? hostlist_count hl then Some t else None) l /\
  (fnext_weight (if (0 <? hostlist_count hl)%Z then Some t else None) (length l) < 5 * length l + 3)%nat.
Proof.
  intros Hs Ht Hw. destruct (is_seq_count _ _ Hs) as [Ec _]. rewrite Ec. destruct (Z.ltb_spec 0 (Z.of_nat (length l))); simpl; split; auto; try lia.
  apply nil_length_inv. lia.
Qed.

(** A host that has failed. *)
Lemma failed_ok t name hl l err ret_list s next (P : option sent -> Prop) : is_seq hl l -> fweight t (S (length l)) = (5 * length l + 3)%nat ->
  fthread_is next l -> (0 < length l -> fweight next (length l) < 5 * length l + 3)%nat ->
  fstep_ok t (name :: l) ret_list P
    (FOutcome (if 0 <? hostlist_count hl then Some next else None) [] (mark_as_failed_forward ret_list name err) s) l [].
Proof.
  intros Hs Hw Ht Hn. destruct (next_list hl l next Hs Ht Hn) as [H1 H2]. split; simpl; rewrite ?app_nil_r; try done; try lia.
  - by apply submseteq_cons.
  - intros x. rewrite answered_mark. auto.
  - intros _ x. rewrite answered_mark, elem_of_cons. tauto.
Qed.

Lemma forward_round_spec e t name hl l ret_list : is_seq hl l -> Forall printable l -> Z.of_nat (length l) < 65536 ->
  whole_answer (Z.of_nat (S (length l))) e -> fweight t (S (length l)) = (5 * length l + 3)%nat ->
  wp (forward_round env fill g msg_type e name hl ret_list) (fun o => exists l', fstep_ok t (name :: l) ret_list (complete env fuel e) o l' []).
Proof using E1 Hcray Hfill.
  intros Hs Hp Hlen Hwh Hw. destruct (sent_text hl l Hs Hp Hlen) as (Ecnt & text & Et & hlt & Ect & Hst). destruct (is_seq_count _ _ Hs) as [Ec _].
  assert (Hloop : forall err s, wp (failed name hl err ret_list s) (fun o => exists l', fstep_ok t (name :: l) ret_list (complete env fuel e) o l' [])).
  { intros err s. apply wp_ret. exists l. apply failed_ok; [done|done|by exists hl|]. simpl. destruct (length l); simpl; lia. }
  assert (Hab : forall err s, wp (abandon name hl err ret_list s) (fun o => exists l', fstep_ok t (name :: l) ret_list (complete env fuel e) o l' [])).
  { intros err s. apply wp_ret. exists l. apply failed_ok; [done|done| |simpl; lia]. split; [by exists hl|done]. }
  assert (Hdone : forall ans s, length ans = S (length l) -> (complete env fuel e (Some s) -> forall x, x ∈ name :: l -> answered (ans ++ ret_list) x) ->
    exists l', fstep_ok t (name :: l) ret_list (complete env fuel e) (FOutcome None [] (ans ++ ret_list) (Some s)) l' []).
  { intros ans s Hl Hn. exists []. split; simpl; try done; try lia; [apply submseteq_nil_l|rewrite length_app; lia|intros x; rewrite answered_app; auto|].
    intros Hc x Hx. right. by apply Hn. }
  destruct e as [| |err|msg]; unfold forward_round; [apply Hloop|apply Hab|rewrite Et; simpl; apply Hab|]. rewrite Et. cbn [mbind exec_bind]. rewrite Ecnt. cbn zeta.
  destruct (no_return msg_type).
  { apply wp_bind. eapply wp_mono; [by apply (answer_all_spec hl l)|]. intros r ->. apply wp_ret. rewrite (app_assoc _ [_] ret_list : _ ++ _ :: ret_list = _).
    apply Hdone; [rewrite length_app, length_reverse, length_fmap; simpl; lia|]. intros _ x Hx. apply answered_app. left. apply answered_app. unfold answered.
    apply elem_of_cons in Hx as [->|Hx]; [right; left|left]. rewrite fmap_reverse, elem_of_reverse, <-list_fmap_compose. by apply list_elem_of_fmap_2. }
  unfold whole_answer in Hwh. destruct (slurm_receive_msgs msg) as [[a|] err] eqn:Er; cbn [fst] in Hwh; [|apply Hloop].
  destruct (receive_own msg a ltac:(by rewrite Er)) as (r & a' & Ea & En). assert (Hpos : (0 < length a)%nat) by (rewrite Ea; simpl; lia).
  destruct (negb (Z.of_nat (length l) =? 0) && (Z.of_nat (length a) <=? 1)) eqn:Ef; [apply Hloop|].
  assert (Hn : length a = S (length l)) by lia. rewrite (proj2 (negb_false_iff _)) by lia. simpl.
  apply Hdone; [by rewrite length_reverse, length_fmap|]. intros Hc x Hx. apply answered_app. left. unfold answered. rewrite fmap_reverse, elem_of_reverse.
  assert (Esend : (slurm_send_addr_recv_msgs (Received msg) name).1 = own_name name <$> a) by (unfold slurm_send_addr_recv_msgs, _send_and_recv_msgs; by rewrite Er).
  apply elem_of_cons in Hx as [->|Hx].
  - rewrite Ea. cbn [fmap list_fmap]. unfold own_name at 1. rewrite En. left.
  - destruct Hst as (rs & R & Ers & _). specialize (Hc ltac:(cbn [sent_cnt sent_to]; rewrite Esend, length_fmap; lia) hlt rs x Ect R ltac:(by rewrite Ers)).
    cbn [sent_to] in Hc. by rewrite Esend in Hc.
Qed.

(** The answers that a thread may get. *)
Definition whole_for (t : fthread) (e : event) : Prop := match t with FLoop hl => whole_answer (list_hosts hl) e | _ => True end.

Lemma fthread_spec e t l ret_list : fthread_is t l -> Forall printable l -> Z.of_nat (length l) <= 65536 -> whole_for t e ->
  wp (_forward_thread env fuel fill g msg_type true e t ret_list) (fun o => exists l' ls, fstep_ok t l ret_list (complete env fuel e) o l' ls).
Proof using E1 Hcray Hfill.
  intros Ht Hp Hlen Hwh. destruct t as [text|hl|hl n]; simpl in Ht.
  - destruct Ht as (h & Eh & Hs). cbn [_forward_thread]. rewrite Eh. simpl. exists l, []. split; simpl; rewrite ?app_nil_r; auto; try lia. by exists h.
  - destruct Ht as (h & -> & Hs). simpl in Hwh. destruct (is_seq_count _ _ Hs) as [Ec _]. rewrite Ec in Hwh. cbn [_forward_thread shift_list negb]. apply wp_bind, wp_bind.
    eapply wp_mono; [by apply (shift_seq env E1 h l)|]. intros [name h'] [-> Hs']. apply wp_ret. destruct l as [|name l]; cbn [head].
    + apply wp_ret. exists [], []. split; simpl; auto; lia.
    + cbn [drop] in Hs'. rewrite drop_0 in Hs'. apply Forall_cons in Hp as [_ Hp]. simpl in Hlen.
      eapply wp_mono; [apply (forward_round_spec e (FLoop (Some h)) name h' l); try done; lia|]. intros o [l' H]. by exists l', [].
  - destruct Ht as [(h & -> & Hs) ->]. cbn [_forward_thread shift_list negb]. destruct l as [|name l]; cbn [length]; [|rewrite (proj2 (Z.ltb_lt _ _)) by lia].
    + apply wp_ret. exists [], []. split; simpl; auto; try lia. by exists h.
    + apply Forall_cons in Hp as [Hn Hp]. apply wp_bind, wp_bind. eapply wp_mono; [by apply (shift_seq env E1 h (name :: l))|].
      intros [o h'] [-> Hs']. cbn [drop] in Hs'. rewrite drop_0 in Hs'. apply wp_ret. cbn [head default]. apply wp_ret. exists l, [[name]].
      assert (Hsh : short name) by (destruct Hs as (rs & _ & _ & _ & F); by apply Forall_cons in F as [F _]).
      destruct (wp_inv _ _ (create_host env E1 fuel name Hn Hsh)) as (r & Ecr & b & -> & Hb).
      split; simpl; try done; try lia.
      * split; [by exists h'|lia].
      * by repeat constructor; exists b.
      * rewrite Permutation_app_comm. done.
      * rewrite length_app. simpl. lia.
      * intros _ s. rewrite elem_of_cons, elem_of_app, list_elem_of_singleton. tauto.
Qed.
End thread.

(** ** The node *)

(** A thread that gets on after the structure is freed would do the same before. *)
Lemma thread_live env fuel fill g msg_type live e t ret_list o :
  _forward_thread env fuel fill g msg_type live e t ret_list = Ret o -> _forward_thread env fuel fill g msg_type true e t ret_list = Ret o.
Proof. by destruct live, t. Qed.

Section run.
Context (env : cluster_env) (E1 : one_dim env) (Hcray : is_cray_system env = false) (fuel : nat)
  (fill : Z -> cstr) (Hfill : forall n, 0 <= n -> Z.of_nat (length (fill n)) = n) (g : grid) (msg_type : Z).

Definition node_is (m : node_pc) (ms : list (list cstr)) : Prop := match m with NStart sp => Forall2 list_is sp ms | _ => ms = [] end.

(** Every host waits in a thread or branch, or has exactly one answer. *)
Record node_inv (named : Prop) (hosts : list cstr) (c : node) (ls ms : list (list cstr)) : Prop := {
  ni_threads : Forall2 (fthread_is env fuel) (n_threads c) ls;
  ni_main : node_is (n_main c) ms;
  ni_print : Forall printable (concat ls ++ concat ms);
  ni_size : Z.of_nat (length (concat ls ++ concat ms)) < 65536;
  ni_total : length hosts = (length (concat ls ++ concat ms) + length (n_ret_list c))%nat;
  ni_fwd_cnt : n_fwd_cnt c = Z.of_nat (length hosts);
  ni_named : named -> forall s, s ∈ hosts -> s ∈ concat ls ++ concat ms \/ answered (n_ret_list c) s;
  ni_done : n_main c = NDone -> concat ls = [];
  ni_live : n_main c <> NDone -> n_live c = true
}.

Definition node_weight (c : node) (ls ms : list (list cstr)) : nat :=
  fweights (n_threads c) ls +
  match n_main c with NStart _ => sum_list_with (fun m => S (fweight (FStart []) (length m))) ms + 2 | NWait => 1 | NDone => 0 end.

Lemma node_main_inv named hosts c ls ms : node_inv named hosts c ls ms -> wp (node_main_step env fill g c) (fun r =>
  match r with
  | Some c' => exists ls' ms', node_inv named hosts c' ls' ms' /\ (node_weight c' ls' ms' < node_weight c ls ms)%nat
  | None => n_main c = NDone \/ n_main c = NWait /\ concat ls <> []
  end).
Proof using E1 Hcray Hfill.
  intros [Ht Hm Hp Hz Hl Hf Hn Hd Hlv]. unfold node_main_step, forward_wait, node_weight. destruct (n_main c) as [[|hl sp]| |] eqn:Em; simpl in Hm.
  - apply Forall2_nil_inv_l in Hm as ->. apply wp_ret. exists ls, []. split; [split; try done; intros _; by apply Hlv|simpl; lia].
  - apply Forall2_cons_inv_l in Hm as (m & ms' & (h & -> & Hh) & Hm & ->).
    assert (E : concat (ls ++ [m]) ++ concat ms' = concat ls ++ concat (m :: ms')) by (rewrite concat_app; simpl; by rewrite app_nil_r, <-app_assoc).
    assert (Hpm : Forall printable m /\ Z.of_nat (length m) < 65536).
    { rewrite <-E, concat_app in Hp, Hz. simpl in Hp, Hz. rewrite app_nil_r, !Forall_app in Hp. rewrite app_nil_r, !length_app in Hz. split; [apply Hp|lia]. }
    destruct (sent_text env E1 Hcray fuel fill Hfill g h m Hh (proj1 Hpm) (proj2 Hpm)) as (_ & text & -> & Htext). simpl. exists (ls ++ [m]), ms'. split.
    + split; simpl; rewrite ?E; try done; [by apply Forall2_app; [|constructor]|intros _; by apply Hlv].
    + pose proof (Forall2_length _ _ _ Ht). rewrite fweights_app by done. simpl. lia.
  - subst ms. rewrite Hlv by done. cbn [negb]. destruct (Z.ltb_spec (Z.of_nat (length (n_ret_list c))) (n_fwd_cnt c)) as [Hlt|Hge]; apply wp_ret.
    + right. split; [done|]. intros E. rewrite E in Hl. simpl in Hl. lia.
    + exists ls, []. split; [|simpl; lia]. split; simpl in *; try done. intros _. rewrite app_nil_r in *. apply nil_length_inv. lia.
  - apply wp_ret. by left.
Qed.

Lemma node_thread_inv (named : Prop) hosts c ls ms i t e o : node_inv named hosts c ls ms -> n_threads c !! i = Some t -> whole_for t e ->
  _forward_thread env fuel fill g msg_type (n_live c) e t (n_ret_list c) = Ret o -> (named -> complete env fuel e (fout_sent o)) ->
  let c' := Node (n_main c) (respawn i (fout_next o) (fout_new o) (n_threads c)) (fout_ret_list o) (n_fwd_cnt c) (n_live c) in
  exists ls', node_inv named hosts c' ls' ms /\ (node_weight c' ls' ms < node_weight c ls ms)%nat.
Proof using E1 Hcray Hfill.
  intros [Hts Hm Hp Hz Hl Hf Hn Hd Hlv] Hi Hwh Ho%thread_live Hcomp c'.
  destruct (pool_thread (fthread_is env fuel) _ _ (concat ms) i t Hts Hi Hp) as (T1 & T2 & L1 & l & L2 & ET & -> & -> & H1 & Ht & H2 & Hpl & Hzl).
  pose proof (fthread_spec env E1 Hcray fuel fill Hfill g msg_type e t l (n_ret_list c) Ht Hpl ltac:(lia) Hwh) as Hw. rewrite Ho in Hw.
  destruct Hw as (l' & ln & [Sn Sw Ss Sa Sk Snm Swt]). set (lmid := match fout_next o with Some _ => [l'] | None => [] end).
  assert (Emid : concat lmid = l') by (unfold lmid; destruct (fout_next o); simpl in *; [by rewrite app_nil_r|done]).
  destruct (respawn_hosts L1 l L2 lmid l' ln (concat ms) Emid Ss) as (Hsub & Hlen & Hold & Hnew). pose proof (submseteq_length _ _ Hsub).
  pose proof (respawn_at T1 t T2 (fout_next o) (fout_new o)) as ET'. rewrite <-ET in ET'.
  pose proof (Forall2_length _ _ _ H1) as EL1. pose proof (Forall2_length _ _ _ H2) as EL2.
  exists ((L1 ++ lmid ++ L2) ++ ln). split.
  - split; cbn [n_threads c' n_main n_ret_list n_fwd_cnt]; rewrite ?ET'; try done.
    + repeat apply Forall2_app; try done. unfold lmid. destruct (fout_next o); simpl in Sn; by repeat constructor.
    + rewrite Forall_forall in Hp |- *. intros s Hs. by eapply Hp, elem_of_submseteq.
    + lia.
    + lia.
    + intros Hnm s Hs. destruct (Hn Hnm s Hs) as [[Hin|Hin]%Hold|Hin]; [|by left|right; auto].
      destruct (Snm (Hcomp Hnm) s Hin); [left; auto|by right].
    + intros Hmn. specialize (Hd Hmn). rewrite Hmn in Hm. simpl in Hm. subst ms. rewrite Hd in Hsub. rewrite !app_nil_r in Hsub. by apply submseteq_nil_r in Hsub.
  - unfold node_weight. cbn [n_threads c' n_main]. rewrite ET', ET. assert (Elm : length (option_list (fout_next o)) = length lmid) by (unfold lmid; by destruct (fout_next o)).
    rewrite !fweights_app by (rewrite ?length_app; lia). cbn [fweights]. unfold lmid. destruct (fout_next o) as [t'|]; simpl in *; lia.
Qed.

(** A step can be made: by the thread that waits, or by some other thread whatever
    the network does, as long as answers are whole. *)
Definition node_can_go (c : node) : Prop :=
  (exists c', node_main_step env fill g c = Ret (Some c')) \/ exists i t, n_threads c !! i = Some t /\
    forall e, whole_for t e -> exists o, _forward_thread env fuel fill g msg_type (n_live c) e t (n_ret_list c) = Ret o.

(** Until the node stops waiting no thread uses freed memory or faults otherwise. *)
Lemma node_inv_safe named hosts c ls ms : node_inv named hosts c ls ms -> n_main c <> NDone ->
  n_live c = true /\ (exists r, node_main_step env fill g c = Ret r) /\
  forall i t e, n_threads c !! i = Some t -> whole_for t e -> exists o, _forward_thread env fuel fill g msg_type (n_live c) e t (n_ret_list c) = Ret o.
Proof using E1 Hcray Hfill.
  intros Hinv Hnd. pose proof (ni_live _ _ _ _ _ Hinv Hnd) as Hlv. rewrite Hlv. split; [done|]. split.
  - destruct (wp_inv _ _ (node_main_inv _ _ _ _ _ Hinv)) as (r & Em & _). by exists r.
  - intros i t e Hi He. destruct Hinv as [Hts _ Hp Hz _ _ _ _ _]. destruct (pool_thread _ _ _ (concat ms) i t Hts Hi Hp) as (_ & _ & _ & l & _ & _ & _ & _ & _ & Ht & _ & Hpl & Hzl).
    destruct (wp_inv _ _ (fthread_spec env E1 Hcray fuel fill Hfill g msg_type e t l (n_ret_list c) Ht Hpl ltac:(lia) He)) as (o & Eo & _). by exists o.
Qed.

Lemma node_inv_can_go named hosts c ls ms : node_inv named hosts c ls ms -> n_main c <> NDone -> node_can_go c.
Proof using E1 Hcray Hfill.
  intros Hinv Hnd. destruct (wp_inv _ _ (node_main_inv _ _ _ _ _ Hinv)) as ([c'|] & Em & H); [left; by exists c'|]. right.
  destruct H as [?|[_ Hne]]; [done|]. assert (HT : n_threads c <> []).
  { intros E. pose proof (ni_threads _ _ _ _ _ Hinv) as Ht. rewrite E in Ht. apply Forall2_nil_inv_l in Ht. by subst ls. }
  destruct (n_threads c) as [|t T] eqn:ET; [done|]. exists 0%nat, t. split; [done|]. intros e He.
  destruct (node_inv_safe _ _ _ _ _ Hinv Hnd) as (_ & _ & Hsafe). apply (Hsafe 0%nat); [by rewrite ET|done].
Qed.

Context (net : sent -> event -> Prop) (Hnet : forall s e, net s e -> whole_answer (sent_cnt s + 1) e).

(** What a thread sends is for its own hosts. *)
Lemma sent_whole named hosts c ls ms i t e o : node_inv named hosts c ls ms -> n_threads c !! i = Some t ->
  _forward_thread env fuel fill g msg_type (n_live c) e t (n_ret_list c) = Ret o ->
  match fout_sent o with Some s => net s e | None => e = NoAddress \/ e = NoConnection end -> whole_for t e.
Proof using E1 Hcray Hnet.
  intros Hinv Hi Ho%thread_live Hs. destruct t as [text|hl|hl n]; try done. destruct Hinv as [Hts _ Hp Hz _ _ _ _ _].
  destruct (pool_thread _ _ _ (concat ms) i _ Hts Hi Hp) as (_ & _ & _ & l & _ & _ & _ & _ & _ & (h & -> & Hsq) & _ & _ & Hzl). simpl.
  destruct e as [| |err|msg]; try done. destruct (is_seq_count _ _ Hsq) as [Ec _]. rewrite Ec.
  cbn [_forward_thread shift_list negb] in Ho. destruct (wp_inv _ _ (shift_seq env E1 h l Hsq)) as ([name h'] & Esh & -> & Hsq'). rewrite Esh in Ho. cbn [mbind exec_bind] in Ho.
  destruct l as [|name l]; cbn [head] in Ho.
  { injection Ho as <-. simpl in Hs. destruct Hs as [[=]|[=]]. }
  cbn [drop] in Hsq'. rewrite drop_0 in Hsq'. destruct (is_seq_count _ _ Hsq') as [Ec' _].
  assert (Hsent : forall s, fout_sent o = Some s -> sent_cnt s = u16 (hostlist_count h') -> whole_answer (Z.of_nat (length (name :: l))) (Received msg)).
  { intros s Es En. rewrite Es in Hs. specialize (Hnet _ _ Hs). rewrite En, Ec' in Hnet. simpl in Hzl. unfold u16 in Hnet. rewrite Z.mod_small in Hnet by lia.
    by replace (Z.of_nat (length (name :: l))) with (Z.of_nat (length l) + 1) by (simpl; lia). }
  unfold forward_round in Ho. destruct (hostlist_ranged_string_xmalloc fill env g h') as [[text g']| |]; [|done..]. cbn [mbind exec_bind] in Ho.
  destruct (no_return msg_type); [destruct (answer_all _ _ _); [|done..]; injection Ho as <-; by eapply Hsent|].
  destruct (slurm_receive_msgs msg) as [[a|] err]; [|injection Ho as <-; by eapply Hsent].
  destruct (_ && _); [injection Ho as <-; by eapply Hsent|].
  match type of Ho with context [if negb ?b then ?x else ?y] => destruct (if negb b then x else y) as [[a' r']| |] end; [|done..]. injection Ho as <-. by eapply Hsent.
Qed.

Lemma node_run_inv named hosts n c c' : (named -> complete_net env fuel net) -> nsteps (node_step env fuel fill g msg_type net) n c c' ->
  forall ls ms, node_inv named hosts c ls ms -> exists ls' ms', node_inv named hosts c' ls' ms' /\ (n + node_weight c' ls' ms' <= node_weight c ls ms)%nat.
Proof using E1 Hcray Hfill Hnet.
  intros Hcn. induction 1 as [c|n c1 c2 c3 Hstep Hrun IH]; intros ls ms Hinv; [exists ls, ms; split; [done|simpl; lia]|].
  assert (H2 : exists ls' ms', node_inv named hosts c2 ls' ms' /\ (node_weight c2 ls' ms' < node_weight c1 ls ms)%nat).
  { destruct Hstep as [c1 c2 Hm|c1 i t e o Hi Ho Hs].
    - pose proof (node_main_inv _ _ _ _ _ Hinv) as H. by rewrite Hm in H.
    - destruct (node_thread_inv named hosts c1 ls ms i t e o Hinv Hi) as (ls' & H' & Hw); [by eapply sent_whole|done| |by exists ls', ms].
      intros Hnm. unfold complete. destruct (fout_sent o); [|done]. by apply Hcn. }
  destruct H2 as (ls2 & ms2 & H2 & Hw2). destruct (IH ls2 ms2 H2) as (ls3 & ms3 & H3 & Hw3). exists ls3, ms3. split; [done|lia].
Qed.

Lemma idle_threads T ls : Forall2 (fthread_is env fuel) T ls -> concat ls = [] -> Forall (fun t => fthread_is env fuel t []) T.
Proof using. induction 1 as [|t l T ls Ht _ IH]; cbn [concat]; [done|]. intros [-> E]%app_eq_nil. constructor; auto. Qed.

(** The node when it starts. *)
Lemma node_start conf g_tree_width l text hl tree_width (W : nat) : hostlist_create env fuel text = Ret (Some hl) -> is_seq hl l -> NoDup l -> uniform l ->
  Forall printable l -> Z.of_nat (length l) < 65536 -> (0 < W)%nat -> (if tree_width =? 0 then g_tree_width else tree_width) = Z.of_nat W ->
  exists hosts c ms, forward_msg env fuel conf g_tree_width (Z.of_nat (length l)) text tree_width = Ret c /\ hosts ≡ₚ l /\ node_inv True hosts c [] ms.
Proof using E1 Hcray.
  intros Ecr Hs Hnd Hu Hp Hz HW Ew. destruct (uniq_seq hl l Hs Hu) as (hl1 & hosts & Eu & Hs1 & Hnd1 & Hin & _). unfold forward_msg. rewrite Ecr. cbn [mbind exec_bind]. rewrite Eu. cbn [mbind exec_bind].
  assert (Hperm : hosts ≡ₚ l) by (by apply NoDup_Permutation). assert (Hp1 : Forall printable hosts) by (by rewrite Hperm).
  destruct (wp_inv _ _ (split_spec env E1 fuel conf g_tree_width hl1 hosts tree_width W Hs1 Hp1 HW Ew)) as ([[sp n] hl2] & -> & _ & span & bs & ls & _ & _ & Hbs & -> & -> & Hcat & _).
  simpl. eexists hosts, _, ls. split_and!; [done|done|]. pose proof (Permutation_length Hperm).
  rewrite Nat2Z.id, take_app_length' by (by rewrite length_fmap). split; simpl; rewrite ?Hcat; try done; try lia; auto.
  apply Forall2_fmap_l. eapply Forall2_impl; [exact Hbs|]. intros h m H1. by exists h.
Qed.
End run.

(** C9: [forward_wait] returns.  A node gets a message with the text of distinct hosts to
    forward it to and their number (fewer than 65536 hosts, names that are printed and
    read back, with uniformly padded numbers; a system with one-dimensional names, and not a
    Cray).  In every interleaving of its threads and whatever the network does, as long
    as the answers are missing or whole (see [whole_answer]): every run is finite; until
    the node stops waiting, the [forward_struct] is allocated, no step of the node or of
    any of its threads faults, and some step can be made; when it stops waiting, the
    list of answers has exactly as many entries as there are hosts, every host has an
    entry with its name if the answers of other nodes name the hosts of their
    messages, and the threads that are left have no host left to call.  Nothing is
    claimed of those threads: the structure is freed by then, and a thread that had
    abandoned its branch faults on it ([abandoned_thread_uses_freed_struct]). *)
Theorem forwarding_node_answers (env : cluster_env) (fuel : nat) (fill : Z -> cstr) (g : grid) (msg_type : Z) (net : sent -> event -> Prop) (conf : route_conf)
    (g_tree_width tree_width : Z) (text : cstr) (hl : hostlist) (l : list cstr) :
  one_dim env -> is_cray_system env = false -> (forall n, 0 <= n -> Z.of_nat (length (fill n)) = n) ->
  (forall s e, net s e -> whole_answer (sent_cnt s + 1) e) ->
  hostlist_create env fuel text = Ret (Some hl) -> is_seq hl l -> NoDup l -> uniform l -> Forall printable l -> Z.of_nat (length l) < 65536 ->
  0 < (if tree_width =? 0 then g_tree_width else tree_width) ->
  exists n0, forward_msg env fuel conf g_tree_width (Z.of_nat (length l)) text tree_width = Ret n0 /\
    (exists bound, forall k n, nsteps (node_step env fuel fill g msg_type net) k n0 n -> (k <= bound)%nat) /\
    forall n, rtc (node_step env fuel fill g msg_type net) n0 n ->
      (n_main n <> NDone -> n_live n = true /\ (exists r, node_main_step env fill g n = Ret r) /\
        (forall i t e, n_threads n !! i = Some t -> whole_for t e -> exists o, _forward_thread env fuel fill g msg_type (n_live n) e t (n_ret_list n) = Ret o) /\
        node_can_go env fuel fill g msg_type n) /\
      (n_main n = NDone -> Z.of_nat (length (n_ret_list n)) = n_fwd_cnt n /\ n_fwd_cnt n = Z.of_nat (length l) /\
        Forall (fun t => fthread_is env fuel t []) (n_threads n) /\
        (complete_net env fuel net -> forall s, s ∈ l -> answered (n_ret_list n) s)).
Proof.
  intros E1 Hcray Hfill Hnet Ecr Hs Hnd Hu Hp Hz Hw. set (w := if tree_width =? 0 then g_tree_width else tree_width) in Hw.
  destruct (node_start env E1 Hcray fuel conf g_tree_width l text hl tree_width (Z.to_nat w) Ecr Hs Hnd Hu Hp Hz ltac:(lia) ltac:(lia)) as (hosts & c0 & ms & Est & Hperm & Hinv).
  assert (Hinv' : node_inv env fuel (complete_net env fuel net) hosts c0 [] ms) by (destruct Hinv; split; auto).
  exists c0. split; [done|]. pose proof (node_run_inv env E1 Hcray fuel fill Hfill g msg_type net Hnet (complete_net env fuel net) hosts) as Hrun. split.
  - exists (node_weight c0 [] ms). intros k n Hk. destruct (Hrun k c0 n id Hk _ _ Hinv') as (ls' & ms' & _ & H). lia.
  - intros n [k Hk]%rtc_nsteps_1. destruct (Hrun k c0 n id Hk _ _ Hinv') as (ls' & ms' & Hc & _). split.
    { intros Hnd'. destruct (node_inv_safe env E1 Hcray fuel fill Hfill g msg_type _ _ _ _ _ Hc Hnd') as (? & ? & ?). split_and!; try done. by eapply node_inv_can_go. }
    intros Hm. destruct Hc as [Ht Hmain Hpr Hsz Htot Hfc Hnm Hdone Hlv]. specialize (Hdone Hm). rewrite Hm in Hmain. simpl in Hmain. subst ms'. rewrite Hdone in *. simpl in *.
    pose proof (Permutation_length Hperm). split_and!; [lia|lia|by eapply idle_threads|]. intros Hcn s Hsl. destruct (Hnm Hcn s ltac:(by rewrite Hperm)) as [?%elem_of_nil|?]; done.
Qed.

(** The text "n[1-7]" and the list that is read from it. *)
Definition seven_text : cstr := [110; 91; 49; 45; 55; 93].
Definition seven_list : hostlist := default hostlist_new (value None (hostlist_create small_env 0 seven_text)).

Lemma seven_list_seq : is_seq seven_list seven.
Proof.
  exists [(0%nat, hostrange_create [110] 1 7 1)]. split_and!; [|by vm_compute|repeat constructor; by intros c [= <-]|repeat constructor].
  split; [split|..]; try done; try (repeat constructor; done || lia). by apply (bool_decide_unpack _).
Qed.

Definition zeros (n : Z) : cstr := replicate (Z.to_nat n) 0.

Lemma forwarding_node_answers_witness :
  exists n0, forward_msg small_env 0 (RouteConf false 2) 2 7 seven_text 0 = Ret n0 /\
    (exists bound, forall k n, nsteps (node_step small_env 0 zeros grid_init 1011 (fun s => whole_answer (sent_cnt s + 1))) k n0 n -> (k <= bound)%nat) /\
    forall n, rtc (node_step small_env 0 zeros grid_init 1011 (fun s => whole_answer (sent_cnt s + 1))) n0 n ->
      (n_main n <> NDone -> n_live n = true /\ (exists r, node_main_step small_env zeros grid_init n = Ret r) /\
        (forall i t e, n_threads n !! i = Some t -> whole_for t e -> exists o, _forward_thread small_env 0 zeros grid_init 1011 (n_live n) e t (n_ret_list n) = Ret o) /\
        node_can_go small_env 0 zeros grid_init 1011 n) /\
      (n_main n = NDone -> Z.of_nat (length (n_ret_list n)) = n_fwd_cnt n /\ n_fwd_cnt n = 7 /\
        Forall (fun t => fthread_is small_env 0 t []) (n_threads n) /\
        (complete_net small_env 0 (fun s => whole_answer (sent_cnt s + 1)) -> forall s, s ∈ seven -> answered (n_ret_list n) s)).
Proof.
  destruct seven_ok as (_ & H2 & H3 & H4).
  apply (forwarding_node_answers small_env 0 zeros grid_init 1011 (fun s => whole_answer (sent_cnt s + 1)) (RouteConf false 2) 2 0 seven_text seven_list seven);
    [done|done| |done|by vm_compute|apply seven_list_seq|done|done|done|done|done]. intros n Hn. unfold zeros. rewrite length_replicate. lia.
Defined.

(** ** A thread that outlives the call

    The thread that abandons its branch goes back to the head of its loop, finds no
    host and locks the mutex of the [forward_struct].  By then the threads that it
    has started can have answered for all hosts, and [forward_wait] can have
    returned, which frees the [forward_struct]. *)
Definition two_text : cstr := [110; 91; 49; 45; 50; 93].
Definition two_start : node :=
  value (Node NDone [] [] 0 false) (forward_msg small_env 0 (RouteConf false 1) 1 2 two_text 0).

(** A step of the given thread when it cannot connect; [None] is the thread that
    received the message. *)
Definition replay_step (i : option nat) (n : node) : option node :=
  match i with
  | None => value None (node_main_step small_env zeros grid_init n)
  | Some i =>
      match n_threads n !! i with
      | Some t =>
          match _forward_thread small_env 0 zeros grid_init 1011 (n_live n) NoConnection t (n_ret_list n) with
          | Ret o =>
              match fout_sent o with Some _ => None | None => Some (Node (n_main n) (respawn i (fout_next o) (fout_new o) (n_threads n)) (fout_ret_list o) (n_fwd_cnt n) (n_live n)) end
          | _ => None
          end
      | None => None
      end
  end.

Fixpoint replay (sched : list (option nat)) (n : node) : option node :=
  match sched with [] => Some n | i :: sched => n ← replay_step i n; replay sched n end.

Lemma replay_ok net sched : forall n n', replay sched n = Some n' ->
  rtc (node_step small_env 0 zeros grid_init 1011 net) n n'.
Proof.
  induction sched as [|i sched IH]; intros n n'; cbn [replay]; [by intros [= <-]|]. destruct (replay_step i n) as [n1|] eqn:E; [|done]. cbn [mbind option_bind]. intros Hr.
  eapply rtc_l; [|by apply IH]. clear IH Hr. destruct i as [i|]; cbn [replay_step] in E.
  - destruct (n_threads n !! i) as [t|] eqn:Et; [|done]. destruct (_forward_thread _ _ _ _ _ _ _ _ _) as [o| |] eqn:Eo; [|done..].
    destruct (fout_sent o) eqn:Es; [done|]. injection E as <-. eapply nstep_thread; [done|exact Eo|]. rewrite Es. by right.
  - constructor. by destruct (node_main_step _ _ _ _); simpl in E; subst.
Qed.

Definition outliving : list (option nat) := [None; None; Some 0; Some 0; Some 0; Some 0; Some 1; Some 1; None]%nat.

Example abandoned_thread_uses_freed_struct : exists n t,
  rtc (node_step small_env 0 zeros grid_init 1011 (fun s => whole_answer (sent_cnt s + 1))) two_start n /\
  n_main n = NDone /\ n_threads n = [t] /\ forall e, _forward_thread small_env 0 zeros grid_init 1011 (n_live n) e t (n_ret_list n) = Fault.
Proof.
  assert (H : match replay outliving two_start with
              | Some (Node NDone [FLoop _] _ _ false) => True | _ => False end) by (by vm_compute).
  destruct (replay outliving two_start) as [n|] eqn:E; [|destruct H]. apply (replay_ok (fun s => whole_answer (sent_cnt s + 1))) in E.
  destruct n as [[?| |] [|[?|hl|? ?] [|? ?]] ans cnt [|]]; try done. by exists (Node NDone [FLoop hl] ans cnt false), (FLoop hl).
Qed.
