(* ===== verification/ForwardTree.v ===== *)
(** * Fan-out of messages: the whole tree

    [start_msg_tree] on one machine and [forward_msg] on those that get the message,
    put together: which machines get it when no connection fails.  All of them
    have the same tree width. *)

From S2P Require Import Prelude NatCmp Hostlist HostlistParse HostlistPrint HostlistFacts HostlistOps HostlistSeq HostlistText HostlistRead HostlistSort HostlistCoalesce HostlistOrder HostlistNames Route RouteFacts RouteProps Forward ForwardFacts ForwardProps ForwardNode ForwardNodeProps.

Local Open Scope Z_scope.
Local Open Scope slurm_scope.

Section tree.
Context (env : cluster_env) (fuel : nat) (fill : Z -> cstr) (g : grid) (conf : route_conf) (g_tree_width : Z).

(** What the first round of a thread of the head sends. *)
Definition tree_send (tree_hl : option hostlist) : exec (option sent) :=
  '(name, tree_hl) ← shift_list env tree_hl;
  match name, tree_hl with
  | Some name, Some tree_hl =>
      let cnt := u16 (hostlist_count tree_hl) in
      text ← forward_nodelist env fill g tree_hl cnt;
      Ret (Some (Sent name cnt text))
  | _, _ => Ret None
  end.

(** What the first round of a thread of a node sends, for the list that the node
    makes for the thread. *)
Definition node_send (sp_hl : option hostlist) : exec (option sent) :=
  match sp_hl with
  | None => Fault
  | Some hl =>
      '(text, _) ← hostlist_ranged_string_xmalloc fill env g hl;
      hl ← hostlist_create env fuel text;
      '(name, hl) ← shift_list env hl;
      match name, hl with
      | Some name, Some hl =>
          '(text, _) ← hostlist_ranged_string_xmalloc fill env g hl;
          Ret (Some (Sent name (u16 (hostlist_count hl)) text))
      | _, _ => Ret None
      end
  end.

Fixpoint sends (send : option hostlist -> exec (option sent)) (sp_hl : list (option hostlist)) : exec (list sent) :=
  match sp_hl with
  | [] => Ret []
  | hl :: sp_hl => s ← send hl; ss ← sends send sp_hl; Ret (option_list s ++ ss)
  end.

(** The messages that a node sends when it gets one: a message with a forward count
    is forwarded ([slurm_receive_msg_and_forward]). *)
Definition forwarded (s : sent) : exec (list sent) :=
  if 0 <? sent_cnt s then
    n ← forward_msg env fuel conf g_tree_width (sent_cnt s) (sent_nodelist s) 0;
    match n_main n with NStart sp_hl => sends node_send sp_hl | _ => Fault end
  else Ret [].

(** The machines that messages get to, with [next] for those that are forwarded. *)
Fixpoint deliver_each (next : list sent -> exec (list cstr)) (ss : list sent) : exec (list cstr) :=
  match ss with
  | [] => Ret []
  | s :: ss => fs ← forwarded s; l ← next fs; rest ← deliver_each next ss; Ret (sent_to s :: l ++ rest)
  end.

(** The machines that messages get to, in at most [hops] hops. *)
Fixpoint delivered (hops : nat) (ss : list sent) : exec (list cstr) :=
  match hops with
  | O => match ss with [] => Ret [] | _ :: _ => NoFuel end
  | S hops => deliver_each (delivered hops) ss
  end.

Definition message_tree (hops : nat) (hl : hostlist) (tree_width : Z) : exec (list cstr) :=
  '(c, _) ← start_msg_tree env fuel conf g_tree_width hl tree_width;
  match c_main c with MStart sp_hl => ss ← sends tree_send sp_hl; delivered hops ss | _ => Fault end.
End tree.

(** The number of hosts of a full tree: [W + W^2 + ... + W^hops]. *)
Fixpoint reach (W : Z) (hops : nat) : Z := match hops with O => 0 | S h => W * (1 + reach W h) end.

Lemma reach_multiple W hops : 0 <= W -> exists k, 0 <= k /\ reach W hops = k * W.
Proof.
  intros HW. destruct hops as [|h]; [by exists 0|]. exists (1 + reach W h). simpl. split; [|lia].
  induction h as [|h IH]; simpl; nia.
Qed.

Section facts.
Context (env : cluster_env) (E1 : one_dim env) (Hcray : is_cray_system env = false) (fuel : nat)
  (fill : Z -> cstr) (Hfill : forall n, 0 <= n -> Z.of_nat (length (fill n)) = n) (g : grid).

(** Hosts that a message can be sent to. *)
Record sendable (l : list cstr) : Prop := {
  sd_nodup : NoDup l;
  sd_uniform : uniform l;
  sd_print : Forall printable l;
  sd_size : Z.of_nat (length l) <= 65536
}.

Lemma sendable_sub l l' : l' ⊆+ l -> sendable l -> sendable l'.
Proof using.
  clear. intros Hs [Hn [U Hu] Hp Hz]. pose proof (submseteq_length _ _ Hs). assert (Hin : forall s, s ∈ l' -> s ∈ l) by (intros s Hx; by eapply elem_of_submseteq).
  split; [apply submseteq_Permutation in Hs as [k Hk]; rewrite Hk in Hn; by apply NoDup_app in Hn as [Hn _]| | |lia].
  - exists U. rewrite Forall_forall in Hu |- *. auto.
  - rewrite Forall_forall in Hp |- *. auto.
Qed.

(** The message is for the host and those that it forwards to. *)
Definition carries (s : sent) (l : list cstr) : Prop :=
  sent_cnt s = Z.of_nat (length l) /\ exists h, hostlist_create env fuel (sent_nodelist s) = Ret (Some h) /\ is_seq h l.

(** One message for each branch. *)
Definition cover (ss : list sent) (ls : list (list cstr)) : Prop :=
  Forall2 (fun s l => exists l', l = sent_to s :: l' /\ carries s l') ss ls.

Lemma sends_spec send sp ls : Forall2 list_is sp ls ->
  (forall hl l, list_is hl l -> l ∈ ls -> wp (send hl) (fun r => exists s l', r = Some s /\ l = sent_to s :: l' /\ carries s l')) ->
  wp (sends send sp) (fun ss => cover ss ls).
Proof using.
  induction 1 as [|hl l sp ls Hl Hls IH]; intros Hsend; [constructor|]. cbn [sends]. apply wp_bind. eapply wp_mono; [apply Hsend; [done|left]|].
  intros r (s & l' & -> & -> & Hc). apply wp_bind. eapply wp_mono; [apply IH; intros; apply Hsend; [done|by right]|]. intros ss Hss. apply wp_ret.
  constructor; [by exists l'|done].
Qed.

Lemma node_send_spec hl l : list_is hl l -> l <> [] -> sendable l -> Z.of_nat (length l) < 65536 ->
  wp (node_send env fuel fill g hl) (fun r => exists s l', r = Some s /\ l = sent_to s :: l' /\ carries s l').
Proof using E1 Hcray Hfill.
  intros (h & -> & Hs) Hne [_ _ Hp _] Hz. unfold node_send. destruct (sent_text env E1 Hcray fuel fill Hfill g h l Hs Hp Hz) as (_ & text & -> & h1 & Ec & Hs1).
  cbn [mbind exec_bind]. rewrite Ec. cbn [mbind exec_bind shift_list]. destruct (wp_inv _ _ (shift_seq env E1 h1 l Hs1)) as ([name h2] & -> & -> & Hs2).
  destruct l as [|a l]; [done|]. cbn [mbind exec_bind head]. cbn [drop] in Hs2. rewrite drop_0 in Hs2. apply Forall_cons in Hp as [_ Hp]. simpl in Hz.
  destruct (sent_text env E1 Hcray fuel fill Hfill g h2 l Hs2 Hp ltac:(lia)) as (En & text2 & -> & Ht). simpl. eexists _, l. split_and!; [done|done|]. by split.
Qed.

Lemma tree_send_spec hl l : list_is hl l -> l <> [] -> sendable l ->
  wp (tree_send env fill g hl) (fun r => exists s l', r = Some s /\ l = sent_to s :: l' /\ carries s l').
Proof using E1 Hcray Hfill.
  intros (h & -> & Hs) Hne [_ _ Hp Hz]. unfold tree_send. cbn [shift_list]. destruct (wp_inv _ _ (shift_seq env E1 h l Hs)) as ([name h2] & -> & -> & Hs2).
  destruct l as [|a l]; [done|]. cbn [mbind exec_bind head]. cbn [drop] in Hs2. rewrite drop_0 in Hs2. apply Forall_cons in Hp as [_ Hp]. simpl in Hz.
  destruct (sent_text env E1 Hcray fuel fill Hfill g h2 l Hs2 Hp ltac:(lia)) as (En & text2 & Et & Ht). cbn zeta. rewrite En. unfold forward_nodelist.
  destruct (Z.eqb_spec (Z.of_nat (length l)) 0) as [E|E].
  - simpl. eexists _, l. split_and!; [done|done|]. split; [done|]. simpl. rewrite (nil_length_inv l) in * by lia. exists hostlist_new.
    split; [|apply is_seq_new]. unfold hostlist_create, hostlist_create_dims. by rewrite E1.
  - rewrite Et. simpl. eexists _, l. split_and!; [done|done|]. by split.
Qed.

Context (conf : route_conf) (W : nat) (HW : (0 < W)%nat).
Let w := Z.of_nat W.

(** Branches are short enough for one hop less. *)
Lemma branch_reach (ls : list (list cstr)) (l : list cstr) hops : Z.of_nat (length l) <= reach w (S hops) ->
  (forall k, 0 <= k -> Z.of_nat (length l) <= w * (1 + k * w) -> Forall (fun b => Z.of_nat (length b) <= 1 + k * w) ls) ->
  Forall (fun b => Z.of_nat (length b) <= 1 + reach w hops) ls.
Proof using HW. clear - HW. intros Hl H. destruct (reach_multiple w hops ltac:(lia)) as (k & Hk & E). simpl in Hl. rewrite E in *. by apply H. Qed.

Lemma forwarded_spec s l hops : carries s l -> sendable l -> Z.of_nat (length l) < 65536 -> Z.of_nat (length l) <= reach w (S hops) ->
  wp (forwarded env fuel fill g conf w s) (fun ss => exists ls, cover ss ls /\ concat ls ≡ₚ l /\ Forall (fun b => Z.of_nat (length b) <= 1 + reach w hops) ls).
Proof using E1 Hcray Hfill HW.
  intros (Ecnt & h & Ec & Hs) Hsd Hz Hr. unfold forwarded. rewrite Ecnt. destruct (Z.ltb_spec 0 (Z.of_nat (length l))) as [Hpos|Hle].
  2: { apply wp_ret. exists []. split_and!; [constructor| |constructor]. by rewrite (nil_length_inv l) by lia. }
  unfold forward_msg. rewrite Ec. cbn [mbind exec_bind]. destruct (uniq_seq h l Hs (sd_uniform _ Hsd)) as (h1 & hosts & -> & Hs1 & Hnd & Hin & _). cbn [mbind exec_bind].
  assert (Hperm : hosts ≡ₚ l) by (apply NoDup_Permutation; [done|apply Hsd|done]). pose proof (Permutation_length Hperm) as Hlen.
  assert (Hsd1 : sendable hosts) by (eapply sendable_sub; [by rewrite Hperm|done]).
  destruct (wp_inv _ _ (split_spec env E1 fuel conf w h1 hosts 0 W Hs1 (sd_print _ Hsd1) HW eq_refl)) as ([[sp n] h2] & -> & _ & span & bs & ls & _ & _ & Hbs & -> & -> & Hcat & _ & Hne & Hsm).
  cbn [mbind exec_bind n_main]. rewrite Nat2Z.id, take_app_length' by (by rewrite length_fmap).
  assert (Hls : Forall2 list_is (Some <$> bs) ls) by (apply Forall2_fmap_l; eapply Forall2_impl; [exact Hbs|]; intros a b H; by exists a).
  assert (Hb : forall b, b ∈ ls -> b <> [] /\ sendable b /\ Z.of_nat (length b) < 65536).
  { intros b Hb. rewrite Forall_forall in Hne. split; [by apply Hne|].
    assert (Hbs' : b ⊆+ hosts). { apply list_elem_of_split in Hb as (l1 & l2 & ->). rewrite <-Hcat, concat_app. simpl. apply submseteq_inserts_l, submseteq_inserts_r. done. }
    split; [by eapply sendable_sub|]. apply submseteq_length in Hbs'. lia. }
  eapply wp_mono; [apply (sends_spec (node_send env fuel fill g) _ ls Hls)|].
  - intros hl b Hl Hbl. destruct (Hb b Hbl) as (? & ? & ?). by apply node_send_spec.
  - intros ss Hc. exists ls. split_and!; [done|by rewrite Hcat|]. apply (branch_reach ls hosts); [by rewrite Hlen|done].
Qed.

Lemma delivered_spec hops : forall ss ls, cover ss ls -> sendable (concat ls) -> Forall (fun b => Z.of_nat (length b) <= 1 + reach w hops) ls ->
  wp (delivered env fuel fill g conf w (S hops) ss) (fun r => r ≡ₚ concat ls).
Proof using E1 Hcray Hfill HW.
  induction hops as [|hops IH]; intros ss ls Hc Hsd Hr; cbn [delivered].
  all: induction Hc as [|s l ss ls (l' & -> & Hcar) Hss IHs]; [simpl; reflexivity|]; cbn [deliver_each].
  all: apply Forall_cons in Hr as [Hrb Hr]; cbn [length] in Hrb.
  all: assert (Hsub : l' ⊆+ concat ((sent_to s :: l') :: ls)) by (simpl; by apply submseteq_cons, submseteq_inserts_r).
  all: assert (Hsub2 : concat ls ⊆+ concat ((sent_to s :: l') :: ls)) by (simpl; by apply submseteq_cons, submseteq_inserts_l).
  all: pose proof (sendable_sub _ _ Hsub Hsd) as Hsd1; pose proof (sendable_sub _ _ Hsub2 Hsd) as Hsd2.
  all: pose proof (sd_size _ Hsd) as Hz; simpl in Hz; rewrite length_app in Hz.
  - change (reach w 0) with 0 in Hrb. assert (Hl : length l' = 0%nat) by lia. apply wp_bind. unfold forwarded. destruct Hcar as [-> _]. rewrite Hl. apply wp_ret, wp_bind. cbn [delivered]. apply wp_ret, wp_bind.
    eapply wp_mono; [by apply IHs|]. intros r Hrr. apply wp_ret. rewrite (nil_length_inv l') by done. simpl. by rewrite Hrr.
  - apply wp_bind. eapply wp_mono; [apply (forwarded_spec s l' hops Hcar Hsd1); [lia|lia]|]. intros ss1 (ls1 & Hc1 & Hp1 & Hr1). apply wp_bind.
    eapply wp_mono; [apply (IH ss1 ls1 Hc1); [|done]|].
    { eapply sendable_sub; [|exact Hsd1]. by rewrite Hp1. }
    intros r1 Hr1'. apply wp_bind. eapply wp_mono; [by apply IHs|]. intros r Hrr. apply wp_ret. by rewrite Hr1', Hp1, Hrr.
Qed.
End facts.

(** C7: A message reaches every host exactly once.  When no connection fails, the
    machines that get a message which [start_msg_tree] sends to a list of hosts, by
    the head of the tree or forwarded by another machine, are exactly the distinct
    hosts of the list, each once; and a tree of width [W] reaches [W + W^2 + ... +
    W^hops] hosts in that many hops.  The names are written to and read from the
    text of the messages by the host list code.  The scope: at most 65536 hosts of a
    system that is not a Cray and has one-dimensional names; names that the host list
    code prints and reads back ([printable]), in which the numbers after one stem are
    padded to one width ([uniform]; with mixed padding [hostlist_uniq] keeps duplicates,
    [uniq_mixed_padding], and a host can get the message twice); and a [tree_width] that is 0 or
    the configured one, which is the one that the forwarding machines use. *)
Theorem message_reaches_each_host_once (env : cluster_env) (fuel : nat) (fill : Z -> cstr) (g : grid) (conf : route_conf)
    (g_tree_width tree_width : Z) (hl : hostlist) (l : list cstr) (hops : nat) :
  one_dim env -> is_cray_system env = false -> (forall n, 0 <= n -> Z.of_nat (length (fill n)) = n) ->
  is_seq hl l -> uniform l -> Forall printable l -> Z.of_nat (length l) <= 65536 ->
  0 < g_tree_width -> tree_width = 0 \/ tree_width = g_tree_width ->
  Z.of_nat (length (remove_dups l)) <= reach g_tree_width (S hops) ->
  exists receivers, message_tree env fuel fill g conf g_tree_width (S hops) hl tree_width = Ret receivers /\
    NoDup receivers /\ forall s, s ∈ receivers <-> s ∈ l.
Proof.
  intros E1 Hcray Hfill Hs Hu Hp Hz Hw Etw Hr. set (W := Z.to_nat g_tree_width). assert (HW : (0 < W)%nat) by lia. assert (Ew : g_tree_width = Z.of_nat W) by lia.
  destruct (uniq_seq hl l Hs Hu) as (h1 & hosts & Eu & Hs1 & Hnd & Hin & _). unfold message_tree, start_msg_tree. rewrite Eu. cbn [mbind exec_bind].
  assert (Hperm : hosts ≡ₚ remove_dups l) by (apply NoDup_Permutation; [done|apply NoDup_remove_dups|]; intros s; by rewrite Hin, elem_of_remove_dups).
  pose proof (Permutation_length Hperm) as Hlen. assert (Hsub : (length hosts <= length l)%nat) by (apply submseteq_length, NoDup_submseteq; [done|]; intros s; by rewrite Hin).
  assert (Hsd : sendable hosts).
  { split; [done| | |lia]; [|rewrite Forall_forall in Hp |- *; intros s Hx; by apply Hp, Hin]. destruct Hu as [U Hu]. exists U. rewrite Forall_forall in Hu |- *. intros s Hx. by apply Hu, Hin. }
  assert (Eq : (if tree_width =? 0 then g_tree_width else tree_width) = Z.of_nat W) by (destruct Etw as [->| ->]; simpl; [done|case_match; lia]).
  destruct (wp_inv _ _ (split_spec env E1 fuel conf g_tree_width h1 hosts tree_width W Hs1 (sd_print _ Hsd) HW Eq)) as ([[sp n] h2] & -> & _ & span & bs & ls & _ & _ & Hbs & -> & -> & Hcat & _ & Hne & Hsm).
  cbn [mbind exec_bind c_main]. rewrite Nat2Z.id, take_app_length' by (by rewrite length_fmap).
  assert (Hls : Forall2 list_is (Some <$> bs) ls) by (apply Forall2_fmap_l; eapply Forall2_impl; [exact Hbs|]; intros a b H; by exists a).
  assert (Hss : wp (sends (tree_send env fill g) (Some <$> bs)) (fun ss => cover env fuel ss ls)).
  { apply (sends_spec env fuel _ _ ls Hls). intros b0 b Hl Hb. rewrite Forall_forall in Hne. apply (tree_send_spec env E1 Hcray fuel fill Hfill g); [done|by apply Hne|].
    apply (sendable_sub hosts); [|done]. apply list_elem_of_split in Hb as (l1 & l2 & ->). rewrite <-Hcat, concat_app. simpl. by apply submseteq_inserts_l, submseteq_inserts_r. }
  destruct (wp_inv _ _ Hss) as (ss & -> & Hcov). cbn [mbind exec_bind]. rewrite Ew in Hr |- *.
  destruct (wp_inv _ _ (delivered_spec env E1 Hcray fuel fill Hfill g conf W HW hops ss ls Hcov ltac:(by rewrite Hcat)
    (branch_reach W HW ls hosts hops ltac:(by rewrite Hlen) Hsm))) as (r & Er & Hpr). exists r. split; [done|]. rewrite Hcat in Hpr. rewrite Hpr.
  split; [done|]. intros s. by rewrite Hpr.
Qed.

Lemma message_reaches_each_host_once_witness :
  exists receivers, message_tree small_env 0 (fun n => replicate (Z.to_nat n) 0) grid_init (RouteConf false 2) 2 3 seven_hosts 0 = Ret receivers /\
    NoDup receivers /\ forall s, s ∈ receivers <-> s ∈ seven.
Proof.
  destruct seven_ok as (H1 & H2 & H3 & _).
  apply (message_reaches_each_host_once small_env 0 (fun n => replicate (Z.to_nat n) 0) grid_init (RouteConf false 2) 2 0 seven_hosts seven 2);
    [done|done| |done|done|done|done|done|by left|by vm_compute]. intros n Hn. rewrite length_replicate. lia.
Defined.

(** Two hops are not enough for seven hosts in a tree of width two. *)
Example seven_hosts_need_three_hops :
  message_tree small_env 0 (fun n => replicate (Z.to_nat n) 0) grid_init (RouteConf false 2) 2 2 seven_hosts 0 = NoFuel.
Proof. by vm_compute. Qed.
