(* ===== verification/ReverseTree.v ===== *)
(** * Reverse trees: src/slurmd/common/reverse_tree_math.c

    The tree in which step daemons and MPI plugins pass results towards rank 0:
    each node computes its parent, its children, its depth and the number of nodes
    below it from its rank, the number of nodes and the width of the tree. *)

From S2P Require Import Prelude.

Local Open Scope Z_scope.
Local Open Scope slurm_scope.

Definition int_pow (num power : Z) : exec Z :=
  if power =? 0 then Ret 1
  else if power =? 1 then Ret num
  else for_while (fun _ => true) (fun _ res => i32 (res * num)) (Z.to_nat (power - 1)) 1 num.

Definition geometric_series (width depth : Z) : exec Z :=
  if width =? 1 then Ret 1
  else p ← int_pow width (depth + 1); Ret (Z.quot (1 - p) (1 - width)).

(** The depth of a tree with [total] nodes; [fuel] bounds the rounds of the loop. *)
Definition dep (fuel : nat) (total width : Z) : exec Z :=
  loop fuel (fun '(i, x) =>
    if x <? total - 1 then p ← int_pow width i; x ← i32 (x + p); Ret (inl (i + 1, x))
    else Ret (inr (i - 1))) (1, 0).

(** What [search_tree] sets: [parent_id], [next_max_children], [depth]. *)
Record found : Type := Found { parent_id : Z; next_max_children : Z; found_depth : Z }.

(** The loop over the children: the answer, or the child whose subtree has [id]. *)
Definition search_children (id node width next_children depth : Z) : exec (found + option Z) :=
  loop (S (Z.to_nat width)) (fun '(i, current) =>
    if i <=? width then
      next ← i32 (current + next_children + 1);
      if id =? next then Ret (inr (inl (Found node next_children depth)))
      else if (current <? id) && (id <? next) then Ret (inr (inr (Some current)))
      else Ret (inl (i + 1, next))
    else Ret (inr (inr None))) (1, node + 1).

Fixpoint search_tree (fuel : nat) (id node max_children width depth : Z) : exec (bool * found) :=
  match fuel with
  | O => NoFuel
  | S fuel =>
      let depth := depth + 1 in
      current ← i32 (node + 1);
      let next_children := Z.quot max_children width - 1 in
      if id =? current then Ret (true, Found node next_children depth)
      else
        r ← search_children id node width next_children depth;
        match r with
        | inl f => Ret (true, f)
        | inr (Some current) => search_tree fuel id current next_children width depth
        | inr None => Ret (false, Found (-1) (-1) depth)
        end
  end.

(** [parent], [num_children], [depth] and [max_depth]. *)
Record tree_info : Type := TreeInfo { ti_parent : Z; ti_num_children : Z; ti_depth : Z; ti_max_depth : Z }.

Definition reverse_tree_info (fuel : nat) (rank num_nodes width : Z) : exec tree_info :=
  if num_nodes <=? rank then Ret (TreeInfo (-1) (-1) (-1) (-1)) else
  max_depth ← dep fuel num_nodes width;
  if rank =? 0 then Ret (TreeInfo (-1) (num_nodes - 1) 0 max_depth) else
  max_children ← geometric_series width max_depth;
  '(_, f) ← search_tree fuel rank 0 max_children width 0;
  last ← i32 (rank + next_max_children f);
  let c := if num_nodes <=? last then num_nodes - rank - 1 else next_max_children f in
  Ret (TreeInfo (parent_id f) c (found_depth f) max_depth).

(** The children that are stored in the array. *)
Definition reverse_tree_direct_children (fuel : nat) (rank num_nodes width depth : Z) : exec (list Z) :=
  max_depth ← dep fuel num_nodes width;
  let sub_depth := max_depth - depth in
  if sub_depth =? 0 then Ret [] else
  max_rank_children ← geometric_series width sub_depth;
  let child_distance := Z.quot max_rank_children width in
  loop (S (Z.to_nat width)) (fun '(i, current, children) =>
    if (i <? width) && (current <? num_nodes) then
      next ← i32 (current + child_distance);
      Ret (inl (i + 1, next, children ++ [current]))
    else Ret (inr children)) (0, rank + 1, []).
