(* ===== verification/ReverseTreeFacts.v ===== *)
(** * Reverse trees: lemmas *)

From S2P Require Import Prelude ReverseTree.

Local Open Scope Z_scope.
Local Open Scope slurm_scope.

(** ** Sizes *)

Section tree.
Context (w : Z) (Hw : 2 <= w).

(** The number of nodes of a full tree of height [h]. *)
Fixpoint full (h : nat) : Z := match h with O => 1 | S h => 1 + w * full h end.

Lemma full_pos h : 1 <= full h.
Proof using Hw. induction h; simpl; nia. Qed.

Lemma full_pow h : (w - 1) * full h = w ^ Z.of_nat (S h) - 1.
Proof.
  induction h as [|h IH]; [simpl; lia|]. rewrite Nat2Z.inj_succ, Z.pow_succ_r by lia. cbn [full]. nia.
Qed.

Lemma full_succ h : full (S h) = full h + w ^ Z.of_nat (S h).
Proof. pose proof (full_pow h). cbn [full]. lia. Qed.

Lemma full_mono h h' : (h <= h')%nat -> full h <= full h'.
Proof using Hw. induction 1 as [|h' _ IH]; [lia|]. cbn [full]. pose proof (full_pos h'). nia. Qed.

Lemma full_strict h h' : (h < h')%nat -> full h < full h'.
Proof using Hw. intros H. pose proof (full_mono (S h) h' H). cbn [full] in *. pose proof (full_pos h). nia. Qed.

Lemma full_ge h : Z.of_nat h < full h.
Proof using Hw. induction h as [|h IH]; [simpl; lia|]. cbn [full]. nia. Qed.

(** ** Powers and depths *)

Lemma int_pow_spec p : 0 <= p -> w ^ p <= i32_max -> int_pow w p = Ret (w ^ p).
Proof using Hw.
  intros Hp Hmax. unfold int_pow. destruct (Z.eqb_spec p 0) as [->|]; [done|]. destruct (Z.eqb_spec p 1) as [->|]; [by rewrite Z.pow_1_r|].
  apply wp_eq, (wp_for (fun i res => res = w ^ i)); [by rewrite Z.pow_1_r| |].
  - intros i res Hi -> _. assert (w ^ i * w = w ^ (i + 1)) as -> by (rewrite Z.pow_add_r, Z.pow_1_r; lia).
    apply wp_i32; [|done]. assert (w ^ (i + 1) <= w ^ p) by (apply Z.pow_le_mono_r; lia). pose proof (Z.pow_pos_nonneg w (i + 1)). unfold i32_min. lia.
  - intros i res Hi -> [->|?]; [|done]. f_equal. lia.
Qed.

Lemma geometric_series_spec h : w ^ Z.of_nat (S h) <= i32_max -> geometric_series w (Z.of_nat h) = Ret (full h).
Proof using Hw.
  intros Hmax. unfold geometric_series. rewrite (proj2 (Z.eqb_neq _ _)) by lia. replace (Z.of_nat h + 1) with (Z.of_nat (S h)) by lia.
  rewrite int_pow_spec by lia. simpl. f_equal. pose proof (full_pow h). replace (1 - w ^ Z.of_nat (S h)) with (full h * (1 - w)) by lia.
  apply Z.quot_mul. lia.
Qed.

(** The depth is the height of the smallest full tree with enough nodes. *)
Lemma dep_spec fuel n : 1 <= n -> n * w * w <= i32_max -> n <= Z.of_nat fuel ->
  exists D, dep fuel n w = Ret (Z.of_nat D) /\ n <= full D /\ (forall h, (h < D)%nat -> full h < n) /\ w ^ Z.of_nat (S D) <= i32_max.
Proof using Hw.
  intros Hn Hmax Hfuel. unfold dep.
  assert (Hpow : forall h, full h < n -> w ^ Z.of_nat (S h) <= w * n /\ full (S h) <= w * n).
  { intros h Hh. pose proof (full_pow h). pose proof (full_pos h). cbn [full]. nia. }
  assert (H : wp (loop fuel (fun '(i, x) => if x <? n - 1 then p ← int_pow w i; x ← i32 (x + p); Ret (inl (i + 1, x)) else Ret (inr (i - 1))) (1, 0))
    (fun d => exists D, d = Z.of_nat D /\ n <= full D /\ (forall h, (h < D)%nat -> full h < n) /\ w ^ Z.of_nat (S D) <= i32_max)).
  { apply (wp_loop (fun '(i, x) => exists h, i = Z.of_nat (S h) /\ x = full h - 1 /\ (forall k, (k < h)%nat -> full k < n) /\ full h <= w * n /\ w ^ Z.of_nat (S h) <= w * (w * n))
      (fun '(_, x) => Z.to_nat (n - 1 - x))
      (fun d => exists D, d = Z.of_nat D /\ n <= full D /\ (forall h, (h < D)%nat -> full h < n) /\ w ^ Z.of_nat (S D) <= i32_max)); [| |lia|done].
    2: { exists 0%nat. rewrite Z.pow_1_r. simpl. split_and!; try done; nia. }
    intros [i x] (h & -> & -> & Hall & Hf & Hp). destruct (Z.ltb_spec (full h - 1) (n - 1)) as [Hlt|Hge].
    - destruct (Hpow h ltac:(lia)) as [H1 H2]. rewrite int_pow_spec by nia. cbn [mbind exec_bind]. pose proof (full_succ h). pose proof (full_pos h).
      rewrite i32_ok by (unfold i32_min; nia). cbn [mbind exec_bind]. pose proof (full_strict h (S h) ltac:(lia)). apply wp_ret. split; [|lia].
      exists (S h). split_and!; [lia|lia| |done|].
      + intros k Hk. destruct (decide (k = h)) as [->|]; [lia|]. apply Hall. lia.
      + rewrite (Nat2Z.inj_succ (S h)), Z.pow_succ_r by lia. nia.
    - apply wp_ret. exists h. split_and!; [lia|lia|done|nia]. }
  destruct (wp_inv _ _ H) as (d & E & D & -> & H'). exists D. by rewrite E.
Qed.

(** ** Positions *)

(** The parent of [id] and the height of its subtree, below [root] of height [h]. *)
Fixpoint place (h : nat) (root id : Z) : Z * nat :=
  match h with
  | O => (root, 0%nat)
  | S h =>
      let child := root + 1 + (id - root - 1) / full h * full h in
      if decide (child = id) then (root, h) else place h child id
  end.

(** The child whose subtree has [id]. *)
Lemma child_bounds h root id : root < id < root + full (S h) ->
  let k := (id - root - 1) / full h in let child := root + 1 + k * full h in 0 <= k < w /\ child <= id < child + full h.
Proof using Hw.
  intros Hid k child. pose proof (full_pos h). cbn [full] in Hid. pose proof (Z.mul_div_le (id - root - 1) (full h) ltac:(lia)).
  pose proof (Z.mul_succ_div_gt (id - root - 1) (full h) ltac:(lia)). split; [|unfold child, k; lia].
  split; [apply Z.div_pos; lia|]. apply Z.div_lt_upper_bound; lia.
Qed.

Lemma child_at h root k : 0 <= k < w -> forall id, root + 1 + k * full h <= id < root + 1 + (k + 1) * full h -> (id - root - 1) / full h = k.
Proof using Hw. intros Hk id Hid. pose proof (full_pos h). symmetry. apply (Z.div_unique _ _ _ (id - root - 1 - k * full h)); lia. Qed.

(** Where the parent is. *)
Lemma place_spec h : forall root id, root < id < root + full h -> let '(p, hp) := place h root id in
  (hp < h)%nat /\ root <= p < id /\ id + full hp <= root + full h /\ (exists k, 0 <= k < w /\ id = p + 1 + k * full hp) /\
  (p = root /\ h = S hp \/ root < p /\ snd (place h root p) = S hp).
Proof using Hw.
  induction h as [|h IH]; intros root id Hid; [simpl in Hid; lia|]. cbn [place]. pose proof (child_bounds h root id Hid) as [Hk Hc]. cbn zeta in Hk, Hc.
  set (k := (id - root - 1) / full h) in *. set (child := root + 1 + k * full h) in *. pose proof (full_pos h).
  assert (Hsub : child + full h <= root + full (S h)) by (cbn [full]; unfold child; nia). assert (Hroot : root < child) by (unfold child; nia).
  destruct (decide (child = id)) as [E|Hne].
  - split_and!; try lia. by exists k.
  - specialize (IH child id ltac:(lia)). destruct (place h child id) as [p hp]. destruct IH as (H1 & H2 & H3 & H4 & H5). split_and!; try lia; [done|]. right. split; [lia|].
    assert (Ek : (p - root - 1) / full h = k) by (apply child_at; [done|]; unfold child in *; lia). rewrite Ek. fold child.
    destruct (decide (child = p)) as [->|Hnp]; [destruct H5 as [[_ ->]|[? _]]; [done|lia]|]. destruct H5 as [[? _]|[_ H5]]; [lia|done].
Qed.

(** The children of a node. *)
Lemma place_child h : forall root p hp k, 0 <= k < w -> (p = root /\ h = S hp \/ root < p < root + full h /\ snd (place h root p) = S hp) ->
  p + 1 + k * full hp + full hp <= root + full h /\ place h root (p + 1 + k * full hp) = (p, hp).
Proof using Hw.
  induction h as [|h IH]; intros root p hp k Hk Hp; [destruct Hp as [[_ ?]|[_ ?]]; done|]. pose proof (full_pos hp). destruct Hp as [[-> [= ->]]|[Hin Hh]].
  - cbn [place full]. split; [nia|]. rewrite (child_at hp root k) by (done || lia). by rewrite decide_True.
  - cbn [place] in Hh. pose proof (child_bounds h root p Hin) as [Hkk Hc]. cbn zeta in Hkk, Hc. set (kk := (p - root - 1) / full h) in *. set (child := root + 1 + kk * full h) in *.
    assert (Hsub : child + full h <= root + full (S h)) by (cbn [full]; unfold child; nia).
    assert (H2 : p + 1 + k * full hp + full hp <= child + full h /\ place h child (p + 1 + k * full hp) = (p, hp)).
    { apply IH; [done|]. destruct (decide (child = p)) as [E|Hne]; simpl in Hh; [left|right; split; [lia|done]]. split; [done|lia]. }
    destruct H2 as [H2 H3]. split; [lia|]. cbn [place]. assert (Ek : (p + 1 + k * full hp - root - 1) / full h = kk) by (apply child_at; [done|]; unfold child in *; nia).
    rewrite Ek. fold child. rewrite decide_False by nia. done.
Qed.

(** ** The search *)

Lemma search_children_spec id node h depth : 0 <= node -> node + 1 < id < node + full (S h) -> node + full (S h) <= i32_max ->
  search_children id node w (full h - 1) depth = Ret (
    let child := node + 1 + (id - node - 1) / full h * full h in
    if decide (child = id) then inl (Found node (full h - 1) depth) else inr (Some child)).
Proof using Hw.
  intros Hn Hid Hmax. pose proof (child_bounds h node id ltac:(lia)) as [Hk Hc]. cbn zeta in *. set (k := (id - node - 1) / full h) in *. set (child := node + 1 + k * full h) in *.
  pose proof (full_pos h). apply wp_eq. unfold search_children. set (r := if decide (child = id) then _ else _).
  apply (wp_loop (fun '(i, current) => 1 <= i <= w + 1 /\ current = node + 1 + (i - 1) * full h /\ current < id) (fun '(i, _) => Z.to_nat (w + 1 - i)) (eq r)); [|lia|lia|done].
  intros [i current] (Hi & -> & Hlt). assert (Hiw : i <= w) by (cbn [full] in Hid; nia). rewrite (proj2 (Z.leb_le _ _)) by done.
  replace (node + 1 + (i - 1) * full h + (full h - 1) + 1) with (node + 1 + i * full h) by lia.
  rewrite i32_ok by (cbn [full] in Hmax; unfold i32_min; nia). cbn [mbind exec_bind].
  destruct (Z.eqb_spec id (node + 1 + i * full h)) as [E|Hne].
  - apply wp_ret. unfold r. assert (k = i) as Ek; [|rewrite decide_True; [done|unfold child; rewrite Ek; lia]]. unfold child in Hc. nia.
  - destruct (Z.ltb_spec (node + 1 + (i - 1) * full h) id); [|lia]. destruct (Z.ltb_spec id (node + 1 + i * full h)) as [Hlt2|Hge]; simpl.
    + assert (Ek : k = i - 1) by (unfold child in Hc; nia). unfold r, child. rewrite Ek, decide_False by lia. done.
    + split_and!; lia.
Qed.

Lemma search_tree_spec h : forall fuel id node M depth, (h < fuel)%nat -> 0 <= node -> node < id < node + full (S h) -> node + full (S h) <= i32_max -> Z.quot M w = full h ->
  search_tree fuel id node M w depth = Ret (
    let '(p, hp) := place (S h) node id in (true, Found p (full hp - 1) (depth + Z.of_nat (S h - hp)))).
Proof using Hw.
  induction h as [|h IH]; intros fuel id node M depth Hf Hn Hid Hmax HM; destruct fuel as [|fuel]; try lia; cbn [search_tree]; rewrite i32_ok by (unfold i32_min; lia);
    cbn [mbind exec_bind]; rewrite HM.
  - destruct (Z.eqb_spec id (node + 1)) as [->|Hne].
    + cbn [place full]. rewrite decide_True by (rewrite Z.div_1_r; lia). do 2 f_equal; simpl; lia.
    + rewrite search_children_spec by lia. cbn zeta. cbn [place full]. rewrite Z.div_1_r. rewrite !decide_True by lia. cbn [mbind exec_bind]. do 2 f_equal; simpl; lia.
  - destruct (Z.eqb_spec id (node + 1)) as [->|Hne].
    + cbn [place]. rewrite decide_True by (replace (node + 1 - node - 1) with 0 by lia; rewrite Z.div_0_l; [lia|pose proof (full_pos (S h)); lia]).
      do 2 f_equal. f_equal. rewrite Nat.sub_succ_l, Nat.sub_diag by lia. done.
    + rewrite search_children_spec by lia. change (place (S (S h)) node id) with
        (let child := node + 1 + (id - node - 1) / full (S h) * full (S h) in if decide (child = id) then (node, S h) else place (S h) child id).
      cbn zeta. pose proof (child_bounds (S h) node id ltac:(lia)) as [Hk Hc]. cbn zeta in Hc. set (child := node + 1 + _) in *.
      pose proof (full_pos (S h)). assert (child + full (S h) <= node + full (S (S h))) by (change (full (S (S h))) with (1 + w * full (S h)); unfold child; nia).
      destruct (decide (child = id)); cbn [mbind exec_bind].
      { do 2 f_equal. f_equal. rewrite Nat.sub_succ_l, Nat.sub_diag by lia. done. }
      rewrite (IH fuel id child (full (S h) - 1) (depth + 1)); [|lia|unfold child; nia|lia|lia|].
      * pose proof (place_spec (S h) child id ltac:(lia)) as Hps. destruct (place (S h) child id) as [p hp]. destruct Hps as (Hlt & _). do 2 f_equal. f_equal. lia.
      * replace (full (S h) - 1) with (full h * w) by (cbn [full]; lia). apply Z.quot_mul. lia.
Qed.

Lemma quot_full h : Z.quot (full (S h)) w = full h.
Proof using Hw.
  pose proof (full_pos h). rewrite Z.quot_div_nonneg by (pose proof (full_pos (S h)); lia). symmetry. apply (Z.div_unique _ _ _ 1); [lia|]. cbn [full]. lia.
Qed.

(** ** The functions *)

(** Parent, height and depth of the nodes of a tree of height [D]. *)
Definition height (D : nat) (rank : Z) : nat := if decide (rank = 0) then D else snd (place D 0 rank).
Definition parent (D : nat) (rank : Z) : Z := if decide (rank = 0) then -1 else fst (place D 0 rank).

(** The nodes below one that exist. *)
Definition below (n : Z) (D : nat) (rank : Z) : Z := Z.min (full (height D rank) - 1) (n - rank - 1).

Lemma full_max D : full D < w ^ Z.of_nat (S D).
Proof using Hw. pose proof (full_pow D). pose proof (full_pos D). nia. Qed.

Section nodes.
Context (n : Z) (D : nat) (Hn : 1 <= n <= full D).

Lemma height_le rank : 0 <= rank < n -> (height D rank <= D)%nat /\ rank + full (height D rank) <= full D.
Proof using Hn Hw.
  intros Hr. unfold height. destruct (decide (rank = 0)) as [->|Hne]; [lia|]. pose proof (place_spec D 0 rank ltac:(lia)) as H. destruct (place D 0 rank) as [p hp]. simpl. lia.
Qed.

Lemma parent_child rank : 0 < rank < n -> 0 <= parent D rank < rank /\ height D (parent D rank) = S (height D rank) /\
  exists k, 0 <= k < w /\ rank = parent D rank + 1 + k * full (height D rank).
Proof using Hn Hw.
  intros Hr. unfold parent, height. rewrite !(decide_False (P := rank = 0)) by lia. pose proof (place_spec D 0 rank ltac:(lia)) as H. destruct (place D 0 rank) as [p hp]. simpl.
  destruct H as (H1 & H2 & H3 & H4 & H5). split_and!; try lia; [|done]. destruct H5 as [[-> ->]|[Hp H5]]; [by rewrite decide_True|]. by rewrite decide_False by lia.
Qed.

Lemma child_parent p hp k : 0 <= p < n -> height D p = S hp -> 0 <= k < w -> parent D (p + 1 + k * full hp) = p /\ height D (p + 1 + k * full hp) = hp.
Proof using Hn Hw.
  intros Hp Hh Hk. pose proof (full_pos hp). unfold height, parent in *. rewrite !(decide_False (P := p + 1 + _ = 0)) by nia.
  destruct (place_child D 0 p hp k Hk) as [_ ->]; [|done]. destruct (decide (p = 0)) as [->|]; [by left|]. right. split; [lia|done].
Qed.
End nodes.
End tree.
