(* ===== verification/ReverseTreeProps.v ===== *)
(** * Reverse trees: every node computes the same tree *)

From Stdlib Require Import Sorting.Sorted.
From stdpp Require Import sorting.
From S2P Require Import Prelude ReverseTree ReverseTreeFacts.

Local Open Scope Z_scope.
Local Open Scope slurm_scope.

Section tree.
Context (w : Z) (Hw : 2 <= w) (fuel : nat) (n : Z) (Hn : 1 <= n) (Hmax : n * w * w <= i32_max) (Hfuel : n <= Z.of_nat fuel).
Context (D : nat) (HD : dep fuel n w = Ret (Z.of_nat D)) (HDn : n <= full w D) (Hmin : forall h, (h < D)%nat -> full w h < n) (Hpow : w ^ Z.of_nat (S D) <= i32_max).
Let Hnn : 1 <= n <= full w D := conj Hn HDn.

Lemma info_spec rank : 0 <= rank < n ->
  reverse_tree_info fuel rank n w = Ret (TreeInfo (parent w D rank) (below w n D rank) (Z.of_nat (D - height w D rank)) (Z.of_nat D)).
Proof using All.
  intros Hr. unfold reverse_tree_info. rewrite (proj2 (Z.leb_gt _ _)) by lia. rewrite HD. cbn [mbind exec_bind].
  destruct (Z.eqb_spec rank 0) as [->|Hne].
  { unfold parent, below, height. rewrite !decide_True by done. rewrite Nat.sub_diag. do 2 f_equal. lia. }
  destruct D as [|h]; [simpl in HDn; lia|]. pose proof (full_max w Hw (S h)) as Hfm. rewrite (geometric_series_spec w Hw) by done. cbn [mbind exec_bind].
  assert (Hh : Z.of_nat h < n) by (pose proof (full_ge w Hw h); pose proof (Hmin h ltac:(lia)); lia).
  rewrite (search_tree_spec w Hw h) by (try lia; by apply quot_full).
  pose proof (place_spec w Hw (S h) 0 rank ltac:(lia)) as Hp. unfold parent, below, height. rewrite !decide_False by done.
  destruct (place w (S h) 0 rank) as [p hp]. destruct Hp as (H1 & H2 & H3 & _). cbn [mbind exec_bind next_max_children parent_id found_depth fst snd].
  pose proof (full_pos w Hw hp). rewrite i32_ok by (unfold i32_min; lia). cbn [mbind exec_bind]. do 2 f_equal.
  destruct (Z.leb_spec n (rank + (full w hp - 1))); lia.
Qed.

(** The children of a node of height [S hp]. *)
Definition child_list (rank : Z) (hp : nat) : list Z := filter (fun c => c < n) ((fun k => rank + 1 + k * full w hp) <$> seqZ 0 w).

Lemma full_depth : full w D <= w * n.
Proof using All. destruct D as [|h]; [simpl; nia|]. pose proof (Hmin h ltac:(lia)). cbn [full]. nia. Qed.

Lemma direct_children_spec rank hp : 0 <= rank < n -> height w D rank = S hp ->
  reverse_tree_direct_children fuel rank n w (Z.of_nat (D - S hp)) = Ret (child_list rank hp).
Proof using All.
  intros Hr Hh. destruct (height_le w Hw n D Hnn rank Hr) as [Hle Hsz]. rewrite Hh in Hle, Hsz. unfold reverse_tree_direct_children. rewrite HD. cbn [mbind exec_bind].
  replace (Z.of_nat D - Z.of_nat (D - S hp)) with (Z.of_nat (S hp)) by lia. rewrite (proj2 (Z.eqb_neq _ _)) by lia.
  assert (Hpw : w ^ Z.of_nat (S (S hp)) <= i32_max) by (etransitivity; [|exact Hpow]; apply Z.pow_le_mono_r; lia).
  rewrite (geometric_series_spec w Hw) by done. cbn [mbind exec_bind]. rewrite quot_full by done. pose proof (full_pos w Hw hp) as Hpos. pose proof full_depth as Hfd.
  pose proof (full_mono w Hw (S hp) D Hle) as Hmono. cbn [full] in Hmono. set (q := full w hp) in *.
  set (kid k := rank + 1 + k * q). set (upto m := filter (fun c => c < n) (kid <$> seqZ 0 m)).
  assert (Hsnoc : forall m, 0 <= m -> upto (m + 1) = if decide (kid m < n) then upto m ++ [kid m] else upto m).
  { intros m Hm. unfold upto. rewrite seqZ_app by lia. rewrite fmap_app, filter_app. change (seqZ (0 + m) 1) with [0 + (0 + m)]. rewrite !Z.add_0_l. cbn [fmap list_fmap].
    rewrite filter_cons. case_decide; rewrite filter_nil; [done|by rewrite app_nil_r]. }
  assert (Hrest : forall m m', 0 <= m <= m' -> n <= kid m -> upto m' = upto m).
  { intros m m' Hm Hk. replace m' with (m + Z.of_nat (Z.to_nat (m' - m))) by lia. induction (Z.to_nat (m' - m)) as [|j IH]; [by rewrite Z.add_0_r|].
    rewrite Nat2Z.inj_succ, <-Z.add_1_r, Z.add_assoc, Hsnoc, decide_False by (unfold kid in *; nia). done. }
  apply wp_eq, (wp_loop (fun '(i, current, children) => 0 <= i <= w /\ current = kid i /\ children = upto i) (fun '(i, _, _) => Z.to_nat (w - i)) (eq (upto w)));
    [|split_and!; (done || unfold kid; lia)|lia|done].
  intros [[i current] children] (Hi & -> & ->). destruct ((i <? w) && (kid i <? n)) eqn:E.
  - rewrite i32_ok by (unfold kid, i32_min in *; nia). cbn [mbind exec_bind]. apply wp_ret. split; [|lia]. split_and!; try lia; [unfold kid; lia|].
    rewrite Hsnoc, decide_True by lia. done.
  - apply wp_ret. destruct (decide (i = w)) as [->|]; [done|]. apply Hrest; lia.
Qed.

Lemma direct_children_leaf rank : 0 <= rank < n -> height w D rank = 0%nat -> reverse_tree_direct_children fuel rank n w (Z.of_nat D) = Ret [].
Proof using HD. intros Hr Hh. unfold reverse_tree_direct_children. rewrite HD. cbn [mbind exec_bind]. by rewrite Z.sub_diag. Qed.

(** The children are the nodes whose parent the node is. *)
Lemma elem_child_list rank hp c : 0 <= rank < n -> height w D rank = S hp -> c ∈ child_list rank hp <-> rank < c < n /\ parent w D c = rank.
Proof using All.
  intros Hr Hh. pose proof (full_pos w Hw hp). unfold child_list. rewrite list_elem_of_filter, list_elem_of_fmap. split.
  - intros (Hc & k & -> & Hk%elem_of_seqZ). destruct (child_parent w Hw n D Hnn rank hp k Hr Hh ltac:(lia)) as [E _]. split; [nia|done].
  - intros [Hc <-]. split; [lia|]. destruct (parent_child w Hw n D Hnn c ltac:(lia)) as (_ & Eh & k & Hk & Ec). rewrite Eh in Hh. injection Hh as Hh. exists k.
    rewrite elem_of_seqZ, <-Hh. split; [done|lia].
Qed.

Lemma seqZ_increasing m k : StronglySorted Z.lt (seqZ m k).
Proof.
  destruct (Z.le_gt_cases k 0); [rewrite seqZ_nil by lia; constructor|]. replace k with (Z.of_nat (Z.to_nat k)) by lia. revert m.
  induction (Z.to_nat k) as [|j IH]; intros m; [constructor|]. rewrite seqZ_cons by lia. constructor.
  - by replace (Z.pred (Z.of_nat (S j))) with (Z.of_nat j) by lia.
  - apply Forall_forall. intros x Hx%elem_of_seqZ. lia.
Qed.

Lemma sorted_filter (P : Z -> Prop) `{!forall x, Decision (P x)} l : StronglySorted Z.lt l -> StronglySorted Z.lt (filter P l).
Proof.
  induction 1 as [|x l Hs IH Hx]; [constructor|]. rewrite filter_cons. case_decide; [|done]. constructor; [done|].
  rewrite Forall_forall in Hx |- *. intros y [_ Hy]%list_elem_of_filter. by apply Hx.
Qed.

Lemma sorted_fmap (f : Z -> Z) l : (forall x y, x < y -> f x < f y) -> StronglySorted Z.lt l -> StronglySorted Z.lt (f <$> l).
Proof. intros Hf. induction 1 as [|x l Hs IH Hx]; [constructor|]. cbn [fmap list_fmap]. constructor; [done|]. apply Forall_fmap. eapply Forall_impl; [exact Hx|]. intros y. apply Hf. Qed.

Lemma increasing_same l1 l2 : StronglySorted Z.lt l1 -> StronglySorted Z.lt l2 -> (forall x, x ∈ l1 <-> x ∈ l2) -> l1 = l2.
Proof.
  clear. assert (Hnd : forall l, StronglySorted Z.lt l -> NoDup l).
  { induction 1 as [|x l Hs IH Hx]; constructor; [|done]. intros Hin. rewrite Forall_forall in Hx. specialize (Hx x Hin). lia. }
  intros H1 H2 Hx. assert (AntiSymm (=) Z.lt) by (intros x y; lia). apply (StronglySorted_unique Z.lt); [done|done|]. apply NoDup_Permutation; auto.
Qed.

Lemma child_list_eq rank hp : 0 <= rank < n -> height w D rank = S hp ->
  child_list rank hp = filter (fun c => parent w D c = rank) (seqZ (rank + 1) (n - rank - 1)).
Proof using All.
  intros Hr Hh. pose proof (full_pos w Hw hp). apply increasing_same.
  - apply sorted_filter, sorted_fmap; [intros; nia|apply seqZ_increasing].
  - apply sorted_filter, seqZ_increasing.
  - intros c. rewrite (elem_child_list rank hp c Hr Hh), list_elem_of_filter, elem_of_seqZ. lia.
Qed.

(** The nodes below a node are its children and those below them. *)
Lemma below_children rank hp : 0 <= rank < n -> height w D rank = S hp ->
  below w n D rank = foldr (fun c s => 1 + below w n D c + s) 0 (child_list rank hp).
Proof using All.
  intros Hr Hh. pose proof (full_pos w Hw hp) as Hpos. set (q := full w hp) in *. set (kid k := rank + 1 + k * q).
  assert (Hk : forall k, 0 <= k < w -> 1 + below w n D (kid k) = Z.min q (n - kid k)).
  { intros k Hk. unfold below. destruct (child_parent w Hw n D Hnn rank hp k Hr Hh Hk) as [_ E]. unfold kid. fold q in E. rewrite E. fold q. lia. }
  assert (Hsum : forall m : nat, Z.of_nat m <= w -> foldr (fun c s => 1 + below w n D c + s) 0 (filter (fun c => c < n) (kid <$> seqZ 0 (Z.of_nat m))) = Z.min (Z.of_nat m * q) (n - rank - 1)).
  { intros m. induction m as [|m IH]; intros Hm; [simpl; lia|]. rewrite Nat2Z.inj_succ. unfold Z.succ. rewrite seqZ_app by lia. rewrite fmap_app, filter_app, foldr_app.
    change (seqZ (0 + Z.of_nat m) 1) with [0 + (0 + Z.of_nat m)]. rewrite !Z.add_0_l. cbn [fmap list_fmap].
    assert (Hacc : forall l a, foldr (fun c s => 1 + below w n D c + s) a l = foldr (fun c s => 1 + below w n D c + s) 0 l + a) by (intros l a; induction l as [|x l IHl]; simpl; lia).
    rewrite Hacc, IH by lia. rewrite filter_cons, filter_nil. case_decide as Hlt; cbn [foldr]; [rewrite Hk by lia|]; unfold kid in *; nia. }
  unfold child_list. fold q. specialize (Hsum (Z.to_nat w) ltac:(lia)). rewrite Z2Nat.id in Hsum by lia. unfold kid in Hsum. rewrite Hsum. unfold below. rewrite Hh. cbn [full]. fold q. lia.
Qed.
End tree.

(** The answers of a node. *)
Definition answer (fuel : nat) (rank num_nodes width : Z) : tree_info := value (TreeInfo 0 0 0 0) (reverse_tree_info fuel rank num_nodes width).

(** C30: The nodes of a reverse tree agree on it.  For any width of at least two and
    every rank: the root has no parent and all other nodes below it; the parent of
    another node has a smaller rank and is one level nearer to the root; the
    children that a node computes are, in order, exactly the nodes that compute it
    as their parent (what [dumb_direct_children] finds by trying all of them); and
    the number of nodes that a node expects below it is that of its children and of
    all nodes that they expect.  No computation overflows as long as the number of
    nodes times the square of the width fits an [int]. *)
Theorem reverse_tree_consistent (fuel : nat) (rank num_nodes width : Z) :
  2 <= width -> 0 <= rank < num_nodes -> num_nodes * width * width <= i32_max -> num_nodes <= Z.of_nat fuel ->
  exists info children, reverse_tree_info fuel rank num_nodes width = Ret info /\
    reverse_tree_direct_children fuel rank num_nodes width (ti_depth info) = Ret children /\
    0 <= ti_depth info <= ti_max_depth info /\
    (rank = 0 -> ti_parent info = -1 /\ ti_depth info = 0 /\ ti_num_children info = num_nodes - 1) /\
    (0 < rank -> 0 <= ti_parent info < rank /\ ti_depth info = ti_depth (answer fuel (ti_parent info) num_nodes width) + 1) /\
    children = filter (fun c => ti_parent (answer fuel c num_nodes width) = rank) (seqZ (rank + 1) (num_nodes - rank - 1)) /\
    ti_num_children info = foldr (fun c s => 1 + ti_num_children (answer fuel c num_nodes width) + s) 0 children.
Proof.
  intros Hw Hr Hmax Hfuel. destruct (dep_spec width Hw fuel num_nodes ltac:(lia) Hmax Hfuel) as (D & HD & HDn & Hmin & Hpow). set (n := num_nodes) in *.
  assert (Hinfo : forall r, 0 <= r < n -> reverse_tree_info fuel r n width = Ret (TreeInfo (parent width D r) (below width n D r) (Z.of_nat (D - height width D r)) (Z.of_nat D)))
    by (intros r Hrr; apply (info_spec width Hw fuel n); (done || lia)).
  assert (Hans : forall r, 0 <= r < n -> answer fuel r n width = TreeInfo (parent width D r) (below width n D r) (Z.of_nat (D - height width D r)) (Z.of_nat D))
    by (intros r Hrr; unfold answer; by rewrite Hinfo).
  assert (Hnn : 1 <= n <= full width D) by lia. destruct (height_le width Hw n D Hnn rank Hr) as [Hle _].
  assert (Hbrute : filter (fun c => ti_parent (answer fuel c n width) = rank) (seqZ (rank + 1) (n - rank - 1)) = filter (fun c => parent width D c = rank) (seqZ (rank + 1) (n - rank - 1))).
  { assert (Hs : forall l, Forall (fun c => 0 <= c < n) l -> filter (fun c => ti_parent (answer fuel c n width) = rank) l = filter (fun c => parent width D c = rank) l).
    { induction 1 as [|c l Hc Hl IH]; [done|]. rewrite !filter_cons, IH. by rewrite (Hans c Hc). }
    apply Hs, Forall_forall. intros c Hc%elem_of_seqZ. lia. }
  assert (Hsum : forall l, Forall (fun c => 0 <= c < n) l -> foldr (fun c s => 1 + ti_num_children (answer fuel c n width) + s) 0 l = foldr (fun c s => 1 + below width n D c + s) 0 l).
  { induction 1 as [|c l Hc Hl IH]; [done|]. cbn [foldr]. by rewrite IH, (Hans c Hc). }
  set (children := filter (fun c => parent width D c = rank) (seqZ (rank + 1) (n - rank - 1))) in *.
  assert (Hin : Forall (fun c => 0 <= c < n) children) by (apply Forall_forall; intros c [_ Hc%elem_of_seqZ]%list_elem_of_filter; lia).
  assert (Hkids : reverse_tree_direct_children fuel rank n width (Z.of_nat (D - height width D rank)) = Ret children /\
    below width n D rank = foldr (fun c s => 1 + below width n D c + s) 0 children).
  { destruct (height width D rank) as [|hp] eqn:Eh.
    - rewrite Nat.sub_0_r, (direct_children_leaf width fuel n D HD rank Hr Eh). assert (children = []) as ->; [|split; [done|unfold below; rewrite Eh; simpl; lia]].
      destruct children as [|c l] eqn:Ech; [done|]. exfalso. assert (Hc : c ∈ children) by (rewrite Ech; left). apply list_elem_of_filter in Hc as [Hpc Hc%elem_of_seqZ].
      destruct (parent_child width Hw n D Hnn c ltac:(lia)) as (_ & Ehp & _). by rewrite Hpc, Eh in Ehp.
    - rewrite (direct_children_spec width Hw fuel n ltac:(lia) Hmax Hfuel D HD HDn Hmin Hpow rank hp Hr Eh).
      rewrite (below_children width Hw fuel n ltac:(lia) Hmax Hfuel D HD HDn Hmin Hpow rank hp Hr Eh).
      by rewrite (child_list_eq width Hw fuel n ltac:(lia) Hmax Hfuel D HD HDn Hmin Hpow rank hp Hr Eh). }
  destruct Hkids as [Hk1 Hk2]. eexists _, children. split; [by apply Hinfo|]. cbn [ti_depth ti_parent ti_num_children ti_max_depth]. rewrite Hbrute, Hsum by done.
  split_and!; try done; try lia.
  - intros ->. unfold parent, below, height. rewrite !decide_True by done. split_and!; [done|lia|lia].
  - intros Hpos. destruct (parent_child width Hw n D Hnn rank ltac:(lia)) as (Hp & Eh & _). split; [done|]. rewrite Hans by lia. cbn [ti_depth]. rewrite Eh.
    destruct (height_le width Hw n D Hnn (parent width D rank) ltac:(lia)) as [Hle' _]. lia.
Qed.

Lemma reverse_tree_consistent_witness :
  exists info children, reverse_tree_info 20 4 20 3 = Ret info /\
    reverse_tree_direct_children 20 4 20 3 (ti_depth info) = Ret children /\
    0 <= ti_depth info <= ti_max_depth info /\
    (4 = 0 -> ti_parent info = -1 /\ ti_depth info = 0 /\ ti_num_children info = 20 - 1) /\
    (0 < 4 -> 0 <= ti_parent info < 4 /\ ti_depth info = ti_depth (answer 20 (ti_parent info) 20 3) + 1) /\
    children = filter (fun c => ti_parent (answer 20 c 20 3) = 4) (seqZ (4 + 1) (20 - 4 - 1)) /\
    ti_num_children info = foldr (fun c s => 1 + ti_num_children (answer 20 c 20 3) + s) 0 children.
Proof. apply (reverse_tree_consistent 20 4 20 3); (done || lia). Defined.

(** With width one [geometric_series] does not add up: the nodes from the fourth on
    are not found in the tree and have no parent. *)
Example width_one_has_orphans : reverse_tree_info 10 3 5 1 = Ret (TreeInfo (-1) (-1) 1 4) /\ reverse_tree_info 10 2 5 1 = Ret (TreeInfo 0 0 1 4).
Proof. by vm_compute. Qed.
