(* ===== verification/Mapping.v ===== *)
(** * Process mappings: src/common/mapping.c

    The text of a mapping of tasks to nodes, as PMI and PMIx programs get it:
    "(vector,(0,2,1),(0,2,1))" puts one task on each of the nodes 0 and 1, and then
    once more.  [pack_process_mapping] writes it for the task ids of each node,
    [unpack_process_mapping] reads the task ids back. *)

From S2P Require Import Prelude HostlistParse.

Local Open Scope Z_scope.
Local Open Scope slurm_scope.

(** [xassert], which is compiled out when [NDEBUG] is defined. *)
Definition xassert (ndebug c : bool) : exec unit := if ndebug then Ret tt else assert_ c.

(** The next task of a node, [tids[i][j]]. *)
Definition tid_at (tids : list (list Z)) (i j : Z) : exec Z := l ← aget tids i; aget l j.

Definition fmt_u (n : Z) : cstr := fmt_d (u32 n).

(** ",(%u,%u,%u)". *)
Definition triple_text (a b c : Z) : cstr := [44; 40] ++ fmt_u a ++ [44] ++ fmt_u b ++ [44] ++ fmt_u c ++ [41].

(** "(vector". *)
Definition vector_text : cstr := [40; 118; 101; 99; 116; 111; 114].

Section pack.
Context (ndebug : bool) (node_cnt task_cnt : Z) (tasks : list Z) (tids : list (list Z)).

(** The node whose next task is [offset]; 0 if there is none. *)
Definition find_start (next_task : list Z) (offset : Z) : exec Z :=
  loop (S (Z.to_nat node_cnt)) (fun i =>
    if i <? node_cnt then
      n ← aget next_task i;
      t ← aget tasks i;
      if n <? t then
        id ← tid_at tids i n;
        _ ← xassert ndebug (id <=? offset);
        if offset =? id then Ret (inr i) else Ret (inl (i + 1))
      else Ret (inl (i + 1))
    else Ret (inr 0)) 0.

(** The end of the run of consecutive task ids that starts at [j] on node [i]. *)
Definition run_end (i j : Z) : exec Z :=
  t ← aget tasks i;
  loop (S (Z.to_nat t)) (fun j =>
    if j + 1 <? t then
      a ← tid_at tids i j;
      b ← tid_at tids i (j + 1);
      if u32 (a + 1) =? b then Ret (inl (j + 1)) else Ret (inr (j + 1))
    else Ret (inr (j + 1))) j.

(** The nodes from [start_node] on that take [depth] tasks each: the end of the bar,
    [depth], the number of tasks and [next_task]. *)
Definition bar (start_node : Z) (next_task : list Z) : exec (Z * Z * Z * list Z) :=
  loop (S (Z.to_nat node_cnt)) (fun '(i, end_node, depth, mapped, next_task) =>
    if i <? end_node then
      n ← aget next_task i;
      t ← aget tasks i;
      if t <=? n then Ret (inl (i + 1, i, depth, mapped, next_task)) else
      j ← run_end i n;
      follows ← (if depth <? 0 then Ret true
                 else m ← aget next_task (i - 1); a ← tid_at tids (i - 1) (m - 1); b ← tid_at tids i n; Ret (u32 (a + 1) =? b));
      if negb follows then Ret (inl (i + 1, i, depth, mapped, next_task)) else
      let depth := if depth <? 0 then j - n else depth in
      if depth =? j - n then
        next_task ← aset next_task i (u16 j);
        Ret (inl (i + 1, end_node, depth, mapped + depth, next_task))
      else Ret (inl (i + 1, i, depth, mapped, next_task))
    else Ret (inr (end_node, depth, mapped, next_task)))
  (start_node, s32 node_cnt, -1, 0, next_task).

Definition pack_process_mapping : exec cstr :=
  packing ← loop (S (Z.to_nat task_cnt)) (fun '(offset, next_task, packing) =>
    if offset <? task_cnt then
      start_node ← find_start next_task offset;
      '(end_node, depth, mapped, next_task) ← bar start_node next_task;
      offset ← i32 (offset + mapped);
      Ret (inl (offset, next_task, packing ++ triple_text start_node (end_node - start_node) depth))
    else Ret (inr packing)) (0, replicate (Z.to_nat node_cnt) 0, vector_text);
  Ret (packing ++ [41]).
End pack.

(** ** Reading *)

(** [strstr], as what follows the match. *)
Fixpoint strstr_after (s prefix : cstr) : option cstr :=
  if bool_decide (take (length prefix) s = prefix) then Some (drop (length prefix) s)
  else match s with [] => None | _ :: s => strstr_after s prefix end.

(** One "%d" of [sscanf], with what follows it. *)
Definition scan_d (s : cstr) : exec (option (Z * cstr)) :=
  let s := skip_space s in
  let '(neg, s) := match s with 45 :: s => (true, s) | 43 :: s => (false, s) | _ => (false, s) end in
  match s with
  | c :: _ =>
      if isdigit c then
        let '(n, rest) := scan_digits 0 s in
        v ← i32 (if neg : bool then - n else n);
        Ret (Some (v, rest))
      else Ret None
  | [] => Ret None
  end.

(** [sscanf(p, "%d,%d,%d", ...)] when it returns 3. *)
Definition scan_triple (p : cstr) : exec (option (Z * Z * Z)) :=
  r ← scan_d p;
  match r with
  | Some (a, 44 :: p) =>
      r ← scan_d p;
      match r with
      | Some (b, 44 :: p) =>
          r ← scan_d p;
          match r with Some (c, _) => Ret (Some (a, b, c)) | None => Ret None end
      | _ => Ret None
      end
  | _ => Ret None
  end.

(** [depth] tasks on one node. *)
Definition put_tasks (node depth : Z) (st : list Z * Z * option (list Z)) : exec (list Z * Z * option (list Z)) :=
  for_while (fun _ => true) (fun _ '(task_map, taskid, tasks) =>
    task_map ← aset task_map taskid node;
    tasks ← match tasks with
            | Some ts => t ← aget ts node; ts ← aset ts node (u16 (t + 1)); Ret (Some ts)
            | None => Ret None
            end;
    Ret (task_map, taskid + 1, tasks)) (Z.to_nat (u32 depth)) 0 st.

(** The next triple of the text. *)
Definition read_triple (ndebug : bool) (node_cnt : Z) (st : cstr * list Z * Z * option (list Z)) :
    exec (cstr * list Z * Z * option (list Z) + option (list Z) * option (list Z)) :=
  let '(p, task_map, taskid, tasks) := st in
  match strchr p 40 with
  | None => Ret (inr (Some task_map, tasks))
  | Some k =>
      let p := drop (S k) p in
      r ← scan_triple p;
      match r with
      | None => Ret (inr (None, tasks))
      | Some (node, end_node, depth) =>
          end_node ← i32 (end_node + node);
          _ ← xassert ndebug ((u32 node <? node_cnt) && (u32 end_node <=? node_cnt));
          '(task_map, taskid, tasks) ← for_while (fun _ => true) (fun node st => put_tasks node depth st)
            (Z.to_nat (end_node - node)) node (task_map, taskid, tasks);
          Ret (inl (p, task_map, taskid, tasks))
      end
  end.

(** The node of each task; [tasks] is given if the tasks of each node are to be
    counted. *)
Definition unpack_process_mapping_flat (ndebug : bool) (map : cstr) (node_cnt task_cnt : Z) (tasks : option (list Z)) :
    exec (option (list Z) * option (list Z)) :=
  tasks ← match tasks with
          | Some ts => ts ← for_while (fun _ => true) (fun i ts => aset ts i 0) (Z.to_nat node_cnt) 0 ts; Ret (Some ts)
          | None => Ret None
          end;
  match strstr_after map (vector_text ++ [44]) with
  | None => Ret (None, tasks)
  | Some p =>
      loop (S (length p)) (read_triple ndebug node_cnt) (p, replicate (Z.to_nat task_cnt) 0, 0, tasks)
  end.

Definition SLURM_ERROR : Z := -1.

(** The return code, and the task count and task ids of each node. *)
Definition unpack_process_mapping (ndebug : bool) (map : cstr) (node_cnt task_cnt : Z) (tasks : list Z) (tids : list (list Z)) :
    exec (Z * list Z * list (list Z)) :=
  '(task_map, tasks') ← unpack_process_mapping_flat ndebug map node_cnt task_cnt (Some tasks);
  let tasks := default tasks tasks' in
  match task_map with
  | None => Ret (SLURM_ERROR, tasks, tids)
  | Some task_map =>
      tids ← for_while (fun _ => true) (fun i tids => t ← aget tasks i; aset tids i (replicate (Z.to_nat t) 0)) (Z.to_nat node_cnt) 0 tids;
      '(tids, _) ← for_while (fun _ => true) (fun i '(tids, node_task_cnt) =>
        node ← aget task_map i;
        k ← aget node_task_cnt node;
        l ← aget tids node;
        l ← aset l k i;
        tids ← aset tids node l;
        node_task_cnt ← aset node_task_cnt node (u16 (k + 1));
        t ← aget tasks node;
        _ ← xassert ndebug (u16 (k + 1) <=? t);
        Ret (tids, node_task_cnt)) (Z.to_nat task_cnt) 0 (tids, replicate (Z.to_nat node_cnt) 0);
      Ret (0, tasks, tids)
  end.
