(* ===== verification/MappingFacts.v ===== *)
(** * Layouts of tasks and the text of a mapping

    What a layout of tasks on nodes is, the number of tasks of a node below a task
    id, the nodes that the triples of a mapping stand for, and the lemmas on them. *)

From stdpp Require Import sorting.
From S2P Require Import Prelude HostlistParse HostlistFacts HostlistRead Mapping.

Local Open Scope Z_scope.
Local Open Scope slurm_scope.

(** ** Layouts *)

(** Every task id below [task_cnt] is on one node, and a node lists its tasks in
    order. *)
Record layout (node_cnt task_cnt : Z) (tids : list (list Z)) : Prop := {
  layout_nodes : Z.of_nat (length tids) = node_cnt;
  layout_tasks : concat tids ≡ₚ seqZ 0 task_cnt;
  layout_sorted : Forall (StronglySorted Z.lt) tids;
  layout_counts : Forall (fun l => Z.of_nat (length l) < 2 ^ 16) tids;
  layout_small : 0 <= task_cnt <= i32_max /\ node_cnt <= i32_max
}.

Lemma concat_NoDup (L : list (list Z)) i j l m t :
  NoDup (concat L) -> L !! i = Some l -> L !! j = Some m -> t ∈ l -> t ∈ m -> i = j.
Proof.
  revert i j. induction L as [|x L IH]; intros i j Hn Hi Hj Hl Hm; [done|]. cbn [concat] in Hn. apply NoDup_app in Hn as (_ & Hd & Hn).
  destruct i as [|i], j as [|j]; [done| | |].
  - injection Hi as ->. exfalso. apply (Hd t Hl). apply list_elem_of_In, in_concat. exists m. rewrite <- !list_elem_of_In. split; [by eapply list_elem_of_lookup_2|done].
  - injection Hj as ->. exfalso. apply (Hd t Hm). apply list_elem_of_In, in_concat. exists l. rewrite <- !list_elem_of_In. split; [by eapply list_elem_of_lookup_2|done].
  - f_equal. by apply (IH i j).
Qed.

Section layouts.
Context (node_cnt task_cnt : Z) (tids : list (list Z)) (Hlay : layout node_cnt task_cnt tids).

Lemma task_range i l t : tids !! i = Some l -> t ∈ l -> 0 <= t < task_cnt.
Proof using Hlay.
  intros Hi Hl. assert (Hin : t ∈ seqZ 0 task_cnt); [|apply elem_of_seqZ in Hin; lia]. rewrite <- (layout_tasks _ _ _ Hlay).
  apply list_elem_of_In, in_concat. exists l. rewrite <- !list_elem_of_In. split; [by eapply list_elem_of_lookup_2|done].
Qed.

Lemma task_node t : 0 <= t < task_cnt -> exists i l, tids !! i = Some l /\ t ∈ l.
Proof using Hlay.
  intros Ht. assert (Hin : t ∈ concat tids) by (rewrite (layout_tasks _ _ _ Hlay); apply elem_of_seqZ; lia).
  apply list_elem_of_In, in_concat in Hin as (l & Hl & Hin). rewrite <- !list_elem_of_In in *. apply list_elem_of_lookup in Hl as [i Hi]. eauto.
Qed.

Lemma task_unique i j l m t : tids !! i = Some l -> tids !! j = Some m -> t ∈ l -> t ∈ m -> i = j.
Proof using Hlay. apply concat_NoDup. rewrite (layout_tasks _ _ _ Hlay). apply NoDup_seqZ. Qed.

Lemma node_sorted i l : tids !! i = Some l -> StronglySorted Z.lt l.
Proof using Hlay. apply Forall_lookup_1, (layout_sorted _ _ _ Hlay). Qed.

Lemma node_count i l : tids !! i = Some l -> Z.of_nat (length l) < 2 ^ 16.
Proof using Hlay. intros Hi. exact (Forall_lookup_1 _ _ _ _ (layout_counts _ _ _ Hlay) Hi). Qed.
End layouts.

(** ** The tasks of a node below a task id *)

Lemma list_filter_all (o : Z) l : Forall (fun t => t < o) l -> filter (fun t => t < o) l = l.
Proof. induction 1 as [|x l Hx _ IH]; [done|]. rewrite filter_cons_True by lia. by rewrite IH. Qed.

Lemma filter_none (o : Z) l : Forall (fun t => o <= t) l -> filter (fun t => t < o) l = [].
Proof. induction 1 as [|x l Hx _ IH]; [done|]. by rewrite filter_cons_False by lia. Qed.

Definition below_id (o : Z) (l : list Z) : nat := length (filter (fun t => t < o) l).

Lemma below_id_at l k y : StronglySorted Z.lt l -> l !! k = Some y -> below_id y l = k /\ below_id (y + 1) l = S k.
Proof.
  intros Hs. revert k. unfold below_id. induction Hs as [|x l Hs IH Hx]; intros k Hk; [done|]. destruct k as [|k].
  - injection Hk as ->. rewrite (filter_cons_False _ y l), (filter_cons_True _ y l) by lia.
    assert (Hz : filter (fun t => t < y) l = [] /\ filter (fun t => t < y + 1) l = []); [|destruct Hz as [-> ->]; done].
    split; apply filter_none; (eapply Forall_impl; [exact Hx|]); intros t Ht; simpl in *; lia.
  - assert (x < y) by (eapply (Forall_lookup_1 _ _ _ _ Hx); exact Hk). rewrite !filter_cons_True by lia. destruct (IH k Hk). cbn [length]. lia.
Qed.

Lemma below_id_next l o : StronglySorted Z.lt l -> (below_id o l < length l)%nat ->
  exists y, l !! below_id o l = Some y /\ o <= y.
Proof.
  intros Hs Hl. destruct (lookup_lt_is_Some_2 l _ Hl) as [y Hy]. exists y. split; [done|].
  destruct (decide (o <= y)) as [|Hlt]; [done|]. exfalso. apply below_id_at in Hy as [_ Hy]; [|done].
  assert (Hle : (below_id (y + 1) l <= below_id o l)%nat); [|lia].
  unfold below_id. clear - Hlt. induction l as [|x l IH]; [done|]. rewrite !filter_cons. repeat case_decide; cbn [length]; lia.
Qed.

Lemma below_id_le o l : (below_id o l <= length l)%nat.
Proof. apply length_filter. Qed.

(** Ids that the node does not have do not count. *)
Lemma below_id_skip o o' l : o <= o' -> (forall t, t ∈ l -> t < o \/ o' <= t) -> below_id o l = below_id o' l.
Proof.
  intros Ho Hl. unfold below_id. f_equal. induction l as [|x l IH]; [done|]. specialize (Hl x ltac:(left)) as Hx.
  rewrite !filter_cons. rewrite IH by (intros t Ht; apply Hl; by right). repeat case_decide; (done || lia).
Qed.

(** ** Triples *)

Definition triple : Type := Z * Z * Z.

(** The nodes of the tasks that triples stand for. *)
Definition expand1 (t : triple) : list Z := let '(a, c, d) := t in concat (map (fun node => replicate (Z.to_nat d) node) (seqZ a c)).
Definition expand (ts : list triple) : list Z := concat (map expand1 ts).

Definition triple_ok (node_cnt : Z) (t : triple) : Prop :=
  let '(a, c, d) := t in 0 <= a /\ 0 < c /\ a + c <= node_cnt /\ 0 <= d <= i32_max.

(** The nodes of the first tasks. *)
Definition owned (tids : list (list Z)) (l : list Z) : Prop :=
  forall t n, l !! t = Some n -> 0 <= n /\ exists ids, tids !! Z.to_nat n = Some ids /\ Z.of_nat t ∈ ids.

Lemma expand1_cons a c d : expand1 (a, Z.of_nat (S c), d) = replicate (Z.to_nat d) a ++ expand1 (a + 1, Z.of_nat c, d).
Proof. unfold expand1. rewrite seqZ_cons by lia. by replace (Z.pred (Z.of_nat (S c))) with (Z.of_nat c) by lia. Qed.

Lemma length_expand1 a c d : 0 <= c -> 0 <= d -> Z.of_nat (length (expand1 (a, c, d))) = d * c.
Proof.
  intros Hc Hd. rewrite <- (Z2Nat.id c) by done. generalize (Z.to_nat c) as k. clear Hc c. intros k. revert a. induction k as [|k IH]; intros a; [change (0 = d * 0); lia|].
  rewrite expand1_cons, length_app, length_replicate. specialize (IH (a + 1)). lia.
Qed.

(** The task [t] of a triple is task [q] of its node [k]. *)
Lemma expand1_lookup a c d t n : 0 <= c -> 0 <= d -> expand1 (a, c, d) !! t = Some n ->
  exists k q, 0 <= k < c /\ 0 <= q < d /\ Z.of_nat t = k * d + q /\ n = a + k.
Proof.
  intros Hc Hd. rewrite <- (Z2Nat.id c) by done. generalize (Z.to_nat c) as m. clear Hc c. intros m. revert a t. induction m as [|m IH]; intros a t; [done|].
  rewrite expand1_cons. intros [Ht|[Hge Ht]]%lookup_app_Some.
  - apply lookup_replicate in Ht as [-> Ht]. exists 0, (Z.of_nat t). lia.
  - rewrite length_replicate in *. apply IH in Ht as (k & q & Hk & Hq & Et & ->). exists (k + 1), q. lia.
Qed.

Lemma expand_snoc ts t : expand (ts ++ [t]) = expand ts ++ expand1 t.
Proof. unfold expand. rewrite map_app, concat_app. cbn [map concat]. by rewrite app_nil_r. Qed.

Lemma expand_app ts ts' : expand (ts ++ ts') = expand ts ++ expand ts'.
Proof. unfold expand. by rewrite map_app, concat_app. Qed.

Lemma expand_cons t ts : expand (t :: ts) = expand1 t ++ expand ts.
Proof. done. Qed.

(** ** Text *)

Definition body (t : triple) : cstr := let '(a, b, c) := t in fmt_u a ++ [44] ++ fmt_u b ++ [44] ++ fmt_u c.
Definition triples_text (ts : list triple) : cstr := concat (map (fun t => [44; 40] ++ body t ++ [41]) ts).
Definition tail_text (ts : list triple) : cstr := triples_text ts ++ [41].

Lemma triples_text_snoc ts a b c : triples_text (ts ++ [(a, b, c)]) = triples_text ts ++ triple_text a b c.
Proof. unfold triples_text. rewrite map_app, concat_app. cbn [map concat body triple_text]. rewrite app_nil_r. unfold triple_text. by rewrite <- !app_assoc. Qed.


(** What is printed is read back, up to a character that is no digit. *)
Lemma scan_d_fmt n c rest : 0 <= n <= i32_max -> isdigit c = false -> scan_d (fmt_u n ++ c :: rest) = Ret (Some (n, c :: rest)).
Proof.
  intros Hn Hc. assert (i32_max = 2147483647) by done. unfold fmt_u, fmt_d, u32. rewrite Z.mod_small by lia. rewrite (proj2 (Z.ltb_ge n 0)) by lia.
  rewrite <- dec_digits_acc. pose proof (scan_dec 20 n (c :: rest) ltac:(simpl; lia)) as Hs.
  destruct (dec_head 19 n (c :: rest) ltac:(lia)) as (x & r & E & Hx). rewrite E in *. unfold scan_d. cbn [skip_space].
  assert (isspace x = false) as -> by (unfold isspace; lia).
  assert (Hd : isdigit x = true) by (unfold isdigit; lia).
  assert (Hm : match x with 45 => (true, r) | 43 => (false, r) | _ => (false, x :: r) end = (false, x :: r)).
  { assert (Hxs : x = 48 \/ x = 49 \/ x = 50 \/ x = 51 \/ x = 52 \/ x = 53 \/ x = 54 \/ x = 55 \/ x = 56 \/ x = 57) by lia.
    by destruct_or! Hxs; subst. }
  rewrite Hm, Hd, Hs. cbn [scan_digits]. rewrite Hc. rewrite i32_ok by (unfold i32_min; lia). done.
Qed.

Lemma scan_triple_body node_cnt t rest : triple_ok node_cnt t -> node_cnt <= i32_max ->
  scan_triple (body t ++ 41 :: rest) = Ret (Some t).
Proof.
  destruct t as [[a b] c]. intros (Ha & Hb & Hab & Hc) Hn. unfold scan_triple, body. rewrite <- !app_assoc. cbn [app].
  rewrite scan_d_fmt by (done || lia). cbn [mbind exec_bind]. rewrite scan_d_fmt by (done || lia). cbn [mbind exec_bind].
  by rewrite scan_d_fmt by (done || lia).
Qed.

(** There is no parenthesis inside a triple. *)
Lemma body_closed node_cnt t : triple_ok node_cnt t -> node_cnt <= i32_max -> 40 ∉ body t.
Proof.
  destruct t as [[a b] c]. intros (Ha & Hb & Hab & Hc) Hn. assert (i32_max = 2147483647) by done.
  assert (Hd : forall n, 0 <= n <= i32_max -> 40 ∉ fmt_u n).
  { intros n Hn' Hin. unfold fmt_u, u32 in Hin. rewrite Z.mod_small in Hin by lia. destruct (fmt_d_digits n ltac:(lia)) as [Hf _].
    rewrite Forall_forall in Hf. by specialize (Hf 40 Hin). }
  unfold body. rewrite !not_elem_of_app, !list_elem_of_singleton. repeat split; (done || apply Hd; lia).
Qed.
