(* ===== verification/MappingPack.v ===== *)
(** * Writing a mapping

    [pack_process_mapping] writes triples that stand for the nodes of the tasks, in the
    order of the task ids; its assertion fails exactly when a triple starts after a node
    that has tasks left. *)

From stdpp Require Import sorting.
From S2P Require Import Prelude HostlistParse HostlistRead Mapping MappingFacts.

Local Open Scope Z_scope.
Local Open Scope slurm_scope.

Definition counts (o : Z) (tids : list (list Z)) : list Z := map (fun l => Z.of_nat (below_id o l)) tids.
Definition sizes (tids : list (list Z)) : list Z := map (fun l => Z.of_nat (length l)) tids.

Lemma aget_map {A : Type} (f : A -> Z) (L : list A) i l : L !! i = Some l -> aget (map f L) (Z.of_nat i) = Ret (f l).
Proof. intros Hi. apply aget_lookup; [lia|]. rewrite Nat2Z.id, list_lookup_fmap. by rewrite Hi. Qed.

Lemma aget_counts o tids i l : tids !! i = Some l -> aget (counts o tids) (Z.of_nat i) = Ret (Z.of_nat (below_id o l)).
Proof. apply (aget_map (fun l => Z.of_nat (below_id o l))). Qed.

Lemma aget_sizes tids i l : tids !! i = Some l -> aget (sizes tids) (Z.of_nat i) = Ret (Z.of_nat (length l)).
Proof. apply (aget_map (fun l : list Z => Z.of_nat (length l))). Qed.

Lemma tid_at_lookup tids i j l y : tids !! i = Some l -> l !! j = Some y -> tid_at tids (Z.of_nat i) (Z.of_nat j) = Ret y.
Proof.
  intros Hi Hj. unfold tid_at. rewrite (aget_lookup tids _ l) by (rewrite ?Nat2Z.id; (done || lia)). cbn [mbind exec_bind].
  apply aget_lookup; [lia|]. by rewrite Nat2Z.id.
Qed.

Section pack.
Context (node_cnt task_cnt : Z) (tids : list (list Z)) (Hlay : layout node_cnt task_cnt tids).

(** No task from [o] on is on one of the first [a] nodes. *)
Definition drained (o : Z) (l : list Z) : bool := forallb (fun t => t <? o) l.
Definition clear_before (o : Z) (a : nat) : bool := forallb (drained o) (take a tids).

Lemma drained_below o l : drained o l = (Z.of_nat (length l) <=? Z.of_nat (below_id o l)).
Proof using.
  unfold drained, below_id. induction l as [|t l IH]; [done|]. cbn [forallb length]. rewrite IH, filter_cons.
  pose proof (below_id_le o l) as Hle. unfold below_id in Hle. destruct (Z.ltb_spec t o); case_decide; cbn [length andb]; lia.
Qed.

(** The search for the node of task [o], from node [j] on. *)
Lemma search_from ndebug o w lw n : tids !! w = Some lw -> lw !! below_id o lw = Some o -> forall j fuel, (w - j = n)%nat -> (j <= w)%nat -> (n < fuel)%nat ->
  loop fuel (fun i =>
    if i <? node_cnt then
      n ← aget (counts o tids) i;
      t ← aget (sizes tids) i;
      if n <? t then
        id ← tid_at tids i n;
        _ ← xassert ndebug (id <=? o);
        if o =? id then Ret (inr i) else Ret (inl (i + 1))
      else Ret (inl (i + 1))
    else Ret (inr 0)) (Z.of_nat j) = if ndebug || forallb (drained o) (take n (drop j tids)) then Ret (Z.of_nat w) else Fault.
Proof using Hlay.
  intros Hw How. pose proof (lookup_lt_Some _ _ _ Hw) as Hlt. pose proof (layout_nodes _ _ _ Hlay) as HN.
  induction n as [|n IH]; intros j [|fuel] Hn Hj Hf; try lia; rewrite loop_step, (proj2 (Z.ltb_lt _ _)) by lia.
  - assert (j = w) as -> by lia. rewrite (aget_counts _ _ w lw Hw), (aget_sizes _ w lw Hw). cbn [mbind exec_bind].
    pose proof (lookup_lt_Some _ _ _ How). rewrite (proj2 (Z.ltb_lt _ _)) by lia.
    rewrite (tid_at_lookup tids w _ lw o Hw How). cbn [mbind exec_bind take forallb]. rewrite orb_true_r, Z.leb_refl, Z.eqb_refl. by destruct ndebug.
  - destruct (lookup_lt_is_Some_2 tids j) as [l Hl]; [lia|]. rewrite (aget_counts _ _ j l Hl), (aget_sizes _ j l Hl). cbn [mbind exec_bind].
    rewrite (drop_S _ _ _ Hl). cbn [take forallb]. rewrite drained_below. specialize (IH (S j) fuel ltac:(lia) ltac:(lia) ltac:(lia)).
    rewrite Nat2Z.inj_succ in IH. destruct (Z.ltb_spec (Z.of_nat (below_id o l)) (Z.of_nat (length l))) as [Hs|Hs].
    2: { rewrite (proj2 (Z.leb_le _ _)) by lia. exact IH. }
    destruct (below_id_next l o (node_sorted _ _ _ Hlay _ _ Hl) ltac:(lia)) as (y & Hy & Hoy). rewrite (tid_at_lookup tids j _ l y Hl Hy). cbn [mbind exec_bind].
    assert (Hne : o <> y).
    { intros ->. assert (j = w); [|lia]. by apply (task_unique _ _ _ Hlay j w l lw y Hl Hw); [eapply list_elem_of_lookup_2|eapply list_elem_of_lookup_2]. }
    rewrite (proj2 (Z.leb_gt _ (Z.of_nat (below_id o l)))) by lia. cbn [andb]. rewrite orb_false_r.
    destruct ndebug; cbn [xassert assert_ mbind exec_bind orb] in *; [by rewrite (proj2 (Z.eqb_neq o y))|].
    unfold assert_. by rewrite (proj2 (Z.leb_gt y o)) by lia.
Qed.

Lemma find_start_spec o : 0 <= o < task_cnt -> exists i l, tids !! i = Some l /\ l !! below_id o l = Some o /\
  forall ndebug, find_start ndebug node_cnt (sizes tids) tids (counts o tids) o = if ndebug || clear_before o i then Ret (Z.of_nat i) else Fault.
Proof using Hlay.
  intros Ho. destruct (task_node _ _ _ Hlay o Ho) as (w & lw & Hw & How). apply list_elem_of_lookup in How as [k Hk].
  pose proof (below_id_at _ _ _ (node_sorted _ _ _ Hlay _ _ Hw) Hk) as [Hb _]. exists w, lw. rewrite Hb. split; [done|]. split; [done|].
  intros ndebug. pose proof (lookup_lt_Some _ _ _ Hw) as Hlt. pose proof (layout_nodes _ _ _ Hlay).
  apply (search_from ndebug o w lw w Hw ltac:(by rewrite Hb) 0%nat); lia.
Qed.

Lemma run_end_spec i l j y : tids !! i = Some l -> l !! j = Some y ->
  wp (run_end (sizes tids) tids (Z.of_nat i) (Z.of_nat j)) (fun e =>
    exists k, e = Z.of_nat k /\ (j < k <= length l)%nat /\ forall q, (j <= q < k)%nat -> l !! q = Some (y + Z.of_nat (q - j))).
Proof using Hlay.
  intros Hi Hj. unfold run_end. rewrite (aget_sizes _ i l Hi). cbn [mbind exec_bind].
  pose proof (lookup_lt_Some _ _ _ Hj) as Hjl. pose proof (layout_small _ _ _ Hlay) as [Hsm _]. assert (i32_max = 2147483647) by done.
  eapply (wp_loop (fun e => exists k, e = Z.of_nat k /\ (j <= k < length l)%nat /\ forall q, (j <= q <= k)%nat -> l !! q = Some (y + Z.of_nat (q - j)))
    (fun e => length l - Z.to_nat e)%nat); [| |lia|intros r Hr; exact Hr].
  2: { exists j. split; [done|]. split; [lia|]. intros q Hq. replace q with j by lia. rewrite Hj. f_equal. lia. }
  intros e (k & -> & Hk & Hq). destruct (Z.ltb_spec (Z.of_nat k + 1) (Z.of_nat (length l))) as [Hlt|].
  2: { exists (S k). split; [lia|]. split; [lia|]. intros q Hqq. apply Hq. lia. }
  destruct (lookup_lt_is_Some_2 l (S k)) as [z Hz]; [lia|].
  rewrite (tid_at_lookup tids i k l _ Hi (Hq k ltac:(lia))). cbn [mbind exec_bind].
  replace (Z.of_nat k + 1) with (Z.of_nat (S k)) by lia. rewrite (tid_at_lookup tids i (S k) l z) by done. cbn [mbind exec_bind].
  pose proof (task_range _ _ _ Hlay i l _ Hi (list_elem_of_lookup_2 _ _ _ (Hq k ltac:(lia)))) as Hr.
  unfold u32. rewrite Z.mod_small by lia. destruct (Z.eqb_spec (y + Z.of_nat (k - j) + 1) z) as [Heq|].
  - split; [|lia]. exists (S k). split; [lia|]. split; [lia|]. intros q Hqq. destruct (decide (q = S k)) as [->|]; [rewrite Hz; f_equal; lia|apply Hq; lia].
  - exists (S k). split; [lia|]. split; [lia|]. intros q Hqq. apply Hq. lia.
Qed.

(** The counts after a run of a node. *)
Lemma counts_run i l j k y : tids !! i = Some l -> (j < k <= length l)%nat ->
  (forall q, (j <= q < k)%nat -> l !! q = Some (y + Z.of_nat (q - j))) ->
  <[i := Z.of_nat k]> (counts y tids) = counts (y + Z.of_nat (k - j)) tids.
Proof using Hlay.
  intros Hi Hk Hq. apply list_eq. intros p. unfold counts. destruct (decide (p = i)) as [->|Hne].
  - rewrite list_lookup_insert_eq by (rewrite length_map; by eapply lookup_lt_Some). rewrite list_lookup_fmap, Hi. cbn [fmap option_fmap option_map].
    f_equal. f_equal. symmetry. pose proof (Hq (k - 1)%nat ltac:(lia)) as Hlast.
    apply below_id_at in Hlast as [_ Hlast]; [|by eapply node_sorted]. replace (y + Z.of_nat (k - j)) with (y + Z.of_nat (k - 1 - j) + 1) by lia. lia.
  - rewrite list_lookup_insert_ne by done. rewrite !list_lookup_fmap. destruct (tids !! p) as [m|] eqn:Hm; [|done]. cbn [fmap option_fmap option_map].
    f_equal. f_equal. apply below_id_skip; [lia|]. intros t Ht.
    destruct (decide (t < y \/ y + Z.of_nat (k - j) <= t)) as [|Hin]; [done|]. exfalso. apply Hne.
    eapply (task_unique _ _ _ Hlay _ _ m l t); [done|done|done|]. apply list_elem_of_lookup. exists (j + Z.to_nat (t - y))%nat.
    rewrite Hq by lia. f_equal. lia.
Qed.

(** Nodes [s .. i-1] hold [d] tasks each, from task [o] on. *)
Definition pieces (s i : nat) (d o : Z) : Prop :=
  forall k, (s <= k < i)%nat -> exists l, tids !! k = Some l /\ forall q, 0 <= q < d -> o + Z.of_nat (k - s) * d + q ∈ l.

(** The bar has taken the nodes [s .. e-1], of [d] tasks each, [m] tasks in all. *)
Definition taken (o : Z) (s e : nat) (d m : Z) : Prop :=
  (s <= e <= length tids)%nat /\ m = Z.max d 0 * Z.of_nat (e - s) /\ pieces s e d o /\ ((e = s /\ d = -1) \/ ((s < e)%nat /\ 0 < d < 2 ^ 16)).

(** What the loop over the nodes of a bar keeps: it goes on with node [e], or it has
    stopped there. *)
Definition bar_inv (o : Z) (s : nat) (st : Z * Z * Z * Z * list Z) : Prop :=
  let '(i, en, d, m, nt) := st in
  nt = counts (o + m) tids /\ exists e, taken o s e d m /\
    ((i = Z.of_nat e /\ en = node_cnt) \/ ((s < e)%nat /\ i = Z.of_nat e + 1 /\ i <= node_cnt /\ en = Z.of_nat e)).

(** The task of the last node that the code compares with. *)
Lemma last_mapped o s e d : (s < e <= length tids)%nat -> 0 < d -> pieces s e d o ->
  let m := d * Z.of_nat (e - s) in
  0 <= o + m - 1 < task_cnt /\
  exists l, tids !! (e - 1)%nat = Some l /\ (0 < below_id (o + m) l)%nat /\ l !! (below_id (o + m) l - 1)%nat = Some (o + m - 1).
Proof using Hlay.
  intros He Hd Hp m. destruct (Hp (e - 1)%nat ltac:(lia)) as (l & Hl & Hq). specialize (Hq (d - 1) ltac:(lia)).
  replace (o + Z.of_nat (e - 1 - s) * d + (d - 1)) with (o + m - 1) in Hq by (subst m; nia).
  split; [by eapply task_range|]. exists l. apply list_elem_of_lookup in Hq as [k Hk].
  apply below_id_at in Hk as Hb; [|by eapply node_sorted]. destruct Hb as [_ Hb]. replace (o + m - 1 + 1) with (o + m) in Hb by lia.
  rewrite Hb. split; [done|]. split; [lia|]. by replace (S k - 1)%nat with k by lia.
Qed.

(** One more node. *)
Lemma pieces_more o s e d l n : (s <= e)%nat -> pieces s e d o -> tids !! e = Some l ->
  (forall q, (n <= q < n + Z.to_nat d)%nat -> l !! q = Some (o + d * Z.of_nat (e - s) + Z.of_nat (q - n))) -> pieces s (S e) d o.
Proof using.
  intros He Hp Hl Hq k Hk. destruct (decide (k = e)) as [->|]; [|apply Hp; lia]. exists l. split; [done|]. intros q Hqd.
  apply list_elem_of_lookup. exists (n + Z.to_nat q)%nat. rewrite Hq by lia. f_equal. lia.
Qed.

(** The first task of the next node follows the tasks taken so far. *)
Lemma follows_spec o s e d m l y : taken o s e d m -> tids !! e = Some l -> l !! below_id (o + m) l = Some y -> (e = s -> y = o) ->
  exists b, (if d <? 0 then Ret true
   else m0 ← aget (counts (o + m) tids) (Z.of_nat e - 1); a ← tid_at tids (Z.of_nat e - 1) (m0 - 1);
        b ← tid_at tids (Z.of_nat e) (Z.of_nat (below_id (o + m) l)); Ret (u32 (a + 1) =? b)) = Ret b /\ (b = true -> y = o + m) /\ (e = s -> b = true).
Proof using Hlay.
  intros (He & -> & Hp & [[-> ->]|[Hlt Hd]]) Hl Hy Hfirst; [exists true; split; [done|]; split; [intros _; rewrite Hfirst by done; lia|done]|].
  pose proof (layout_small _ _ _ Hlay) as [Hsm _]. assert (i32_max = 2147483647) by done.
  rewrite (proj2 (Z.ltb_ge d 0)) by lia. rewrite Z.max_l in * by lia.
  destruct (last_mapped o s e d ltac:(lia) ltac:(lia) Hp) as (Hr & l' & Hl' & Hpos & Hlast). set (m := d * Z.of_nat (e - s)) in *.
  replace (Z.of_nat e - 1) with (Z.of_nat (e - 1)) by lia. rewrite (aget_counts _ _ _ l' Hl'). cbn [mbind exec_bind].
  replace (Z.of_nat (below_id (o + m) l') - 1) with (Z.of_nat (below_id (o + m) l' - 1)) by lia.
  rewrite (tid_at_lookup tids _ _ l' (o + m - 1) Hl' Hlast). cbn [mbind exec_bind]. rewrite (tid_at_lookup tids _ _ l y Hl Hy). cbn [mbind exec_bind].
  eexists. split; [reflexivity|]. unfold u32. rewrite Z.mod_small by lia. split; [|lia]. intros Hb%Z.eqb_eq. lia.
Qed.

Lemma taken_more o s e d m l n k : taken o s e d m -> tids !! e = Some l -> (n < k <= length l)%nat -> (d < 0 \/ d = Z.of_nat (k - n)) ->
  (forall q, (n <= q < k)%nat -> l !! q = Some (o + m + Z.of_nat (q - n))) -> taken o s (S e) (Z.of_nat (k - n)) (m + Z.of_nat (k - n)).
Proof using Hlay.
  intros (He & -> & Hp & Hcase) Hl Hk Hd Hq. pose proof (lookup_lt_Some _ _ _ Hl). pose proof (node_count _ _ _ Hlay _ _ Hl).
  set (d' := Z.of_nat (k - n)) in *. assert (Hm : Z.max d 0 * Z.of_nat (e - s) = d' * Z.of_nat (e - s)).
  { destruct Hcase as [[-> ->]|[? ?]]; [rewrite Nat.sub_diag; lia|]. replace d with d' by lia. lia. }
  rewrite Hm in *. split; [lia|]. split; [nia|]. split; [|right; lia].
  eapply (pieces_more o s e d' l n); [lia| |done|intros q Hqq; apply Hq; lia].
  destruct Hcase as [[-> ->]|[? ?]]; [intros p Hpp; lia|]. replace d' with d by lia. done.
Qed.

Lemma bar_spec o s l0 : 0 <= o < task_cnt -> tids !! s = Some l0 -> l0 !! below_id o l0 = Some o ->
  wp (bar node_cnt (sizes tids) tids (Z.of_nat s) (counts o tids)) (fun '(en, d, m, nt) =>
    exists e, en = Z.of_nat e /\ taken o s e d m /\ (s < e)%nat /\ nt = counts (o + m) tids).
Proof using Hlay.
  intros Ho Hs Hl0. pose proof (layout_nodes _ _ _ Hlay) as HN. pose proof (layout_small _ _ _ Hlay) as [Hsm HNm]. assert (i32_max = 2147483647) by done.
  pose proof (lookup_lt_Some _ _ _ Hs) as Hslt. unfold bar. assert (s32 node_cnt = node_cnt) as -> by (unfold s32; rewrite Z.mod_small; lia).
  eapply (wp_loop (bar_inv o s) (fun '(i, _, _, _, _) => Z.to_nat (node_cnt - i))); [| |lia|intros r Hr; exact Hr].
  2: { split; [by rewrite Z.add_0_r|]. exists s. split; [|by left]. split; [lia|]. split; [lia|]. split; [intros k Hk; lia|by left]. }
  intros [[[[i en] d] m] nt] (-> & e & Ht & Hcase).
  destruct Hcase as [[-> ->]|(Hlt & -> & Hi & ->)]; [|rewrite (proj2 (Z.ltb_ge _ _)) by lia; by exists e].
  destruct (Z.ltb_spec (Z.of_nat e) node_cnt) as [HeN|HeN].
  2: { exists e. pose proof Ht as (? & _). split; [lia|]. split; [done|]. split; [lia|done]. }
  destruct (lookup_lt_is_Some_2 tids e) as [l Hl]; [lia|]. rewrite (aget_counts _ _ e l Hl), (aget_sizes _ e l Hl). cbn [mbind exec_bind].
  assert (Hstop : (s < e)%nat -> bar_inv o s (Z.of_nat e + 1, Z.of_nat e, d, m, counts (o + m) tids) /\ (Z.to_nat (node_cnt - (Z.of_nat e + 1)) < Z.to_nat (node_cnt - Z.of_nat e))%nat).
  { intros Hse. split; [|lia]. split; [done|]. exists e. split; [done|]. right. lia. }
  pose proof (below_id_le (o + m) l) as Hble.
  assert (Hse : e = s -> l !! below_id (o + m) l = Some o).
  { intros ->. destruct Ht as (_ & -> & _ & [[_ ->]|]); [|lia]. rewrite Z.add_0_r. congruence. }
  destruct (Z.leb_spec (Z.of_nat (length l)) (Z.of_nat (below_id (o + m) l))) as [Hfull|Hsome].
  { apply Hstop. destruct Ht as (? & _). destruct (decide (e = s)) as [Hes|]; [|lia]. apply Hse, lookup_lt_Some in Hes. lia. }
  destruct (lookup_lt_is_Some_2 l (below_id (o + m) l)) as [y Hy]; [lia|].
  apply wp_bind. eapply wp_mono; [by apply (run_end_spec e l _ y)|]. intros j (k & -> & Hk & Hq). cbv beta.
  destruct (follows_spec o s e d m l y Ht Hl Hy ltac:(intros Hes; rewrite (Hse Hes) in Hy; congruence)) as (b & Hb & Hby & Hbs). rewrite Hb. cbn [mbind exec_bind].
  assert (Hes : e <> s -> (s < e)%nat) by (destruct Ht as (? & _); lia).
  destruct b; cbn [negb]; [|apply Hstop, Hes; intros He; by specialize (Hbs He)]. specialize (Hby eq_refl) as ->.
  set (n := below_id (o + m) l) in *. replace (Z.of_nat k - Z.of_nat n) with (Z.of_nat (k - n)) by lia.
  destruct (Z.eqb_spec (if d <? 0 then Z.of_nat (k - n) else d) (Z.of_nat (k - n))) as [Hd|Hd].
  - rewrite Hd. pose proof (node_count _ _ _ Hlay _ _ Hl). apply wp_bind, wp_aset; [unfold counts; rewrite length_map; lia|].
    rewrite Nat2Z.id. unfold u16. rewrite Z.mod_small by lia. rewrite (counts_run e l n k (o + m) Hl Hk Hq).
    split; [|lia]. split; [f_equal; lia|]. exists (S e). split; [|left; lia].
    apply (taken_more o s e d m l n k Ht Hl Hk); [destruct (Z.ltb_spec d 0); lia|done].
  - destruct (Z.ltb_spec d 0) as [|Hd0]; [done|]. apply Hstop, Hes. intros ->. destruct Ht as (_ & _ & _ & [[_ ->]|]); lia.
Qed.

(** A bar, as a triple, stands for the next tasks. *)
Lemma owned_bar o s e d m l : 0 <= o -> taken o s e d m -> (s < e)%nat -> owned tids l -> Z.of_nat (length l) = o ->
  owned tids (l ++ expand1 (Z.of_nat s, Z.of_nat e - Z.of_nat s, d)) /\ o + m <= task_cnt /\
  triple_ok node_cnt (Z.of_nat s, Z.of_nat e - Z.of_nat s, d) /\ Z.of_nat (length (expand1 (Z.of_nat s, Z.of_nat e - Z.of_nat s, d))) = m.
Proof using Hlay.
  intros Ho (He & -> & Hp & Hcase) Hse Hl Hlen. destruct Hcase as [|[_ Hd]]; [lia|]. rewrite Z.max_l by lia.
  pose proof (layout_nodes _ _ _ Hlay). assert (i32_max = 2147483647) by done.
  destruct (last_mapped o s e d ltac:(lia) ltac:(lia) Hp) as [Hlast _]. split; [|split; [lia|split; [unfold triple_ok; lia|rewrite length_expand1; lia]]].
  intros t n Ht. apply lookup_app_Some in Ht as [Ht|[Hge Ht]]; [by apply Hl|].
  apply expand1_lookup in Ht as (k & q & Hk & Hq & Et & ->); [|lia..]. split; [lia|].
  destruct (Hp (s + Z.to_nat k)%nat ltac:(lia)) as (ids & Hids & Hin). exists ids. rewrite Z2Nat.inj_add, Nat2Z.id by lia. split; [done|].
  specialize (Hin q Hq). replace (o + Z.of_nat (s + Z.to_nat k - s) * d + q) with (Z.of_nat t) in Hin by lia. done.
Qed.

Lemma counts_0 : counts 0 tids = replicate (Z.to_nat node_cnt) 0.
Proof using Hlay.
  pose proof (layout_nodes _ _ _ Hlay) as HN. symmetry. apply replicate_as_elem_of. unfold counts. rewrite length_map. split; [lia|]. intros x Hx.
  apply list_elem_of_fmap in Hx as (l & -> & Hl). apply list_elem_of_lookup in Hl as [i Hi]. unfold below_id. rewrite filter_none; [done|].
  apply Forall_forall. intros t Ht. by apply (task_range _ _ _ Hlay i l).
Qed.

Lemma triples_text_cons a b c ts : triples_text ((a, b, c) :: ts) = triple_text a b c ++ triples_text ts.
Proof using. change ((a, b, c) :: ts) with ([(a, b, c)] ++ ts). unfold triples_text. rewrite map_app, concat_app. f_equal. apply (triples_text_snoc [] a b c). Qed.

(** The bars start where the assertion lets them: no node before the first one of a
    bar has a task left. *)
Fixpoint in_order (o : Z) (ts : list triple) : bool :=
  match ts with
  | [] => true
  | (a, c, d) :: ts => clear_before o (Z.to_nat a) && in_order (o + c * d) ts
  end.

(** The loop of [pack_process_mapping]. *)
Definition next_bar (ndebug : bool) : Z * list Z * cstr -> exec (Z * list Z * cstr + cstr) := fun '(offset, next_task, packing) =>
  if offset <? task_cnt then
    start_node ← find_start ndebug node_cnt (sizes tids) tids next_task offset;
    '(end_node, depth, mapped, next_task) ← bar node_cnt (sizes tids) tids start_node next_task;
    offset ← i32 (offset + mapped);
    Ret (inl (offset, next_task, packing ++ triple_text start_node (end_node - start_node) depth))
  else Ret (inr packing).

Lemma bars_spec n : forall o l fuel, Z.to_nat (task_cnt - o) = n -> 0 <= o <= task_cnt -> owned tids l -> Z.of_nat (length l) = o ->
  (n < fuel)%nat -> exists ts, Forall (triple_ok node_cnt) ts /\ Z.of_nat (length (l ++ expand ts)) = task_cnt /\ owned tids (l ++ expand ts) /\
    forall ndebug packing, loop fuel (next_bar ndebug) (o, counts o tids, packing) =
      if ndebug || in_order o ts then Ret (packing ++ triples_text ts) else Fault.
Proof using Hlay.
  pose proof (layout_small _ _ _ Hlay) as [Hsm _]. assert (i32_max = 2147483647) by done.
  induction n as [n IH] using lt_wf_ind. intros o l [|fuel] Hn Ho Hown Hlen Hf; [lia|]. destruct (Z.ltb_spec o task_cnt) as [Hlt|Hge].
  2: { exists []. cbn [expand map concat triples_text in_order]. rewrite app_nil_r. split; [constructor|]. split; [lia|]. split; [done|]. intros ndebug packing.
    rewrite loop_step. cbn [next_bar]. by rewrite (proj2 (Z.ltb_ge _ _)), orb_true_r, app_nil_r by lia. }
  destruct (find_start_spec o ltac:(lia)) as (s & l0 & Hs & Hl0 & Hfind).
  pose proof (bar_spec o s l0 ltac:(lia) Hs Hl0) as Hbar. apply wp_inv in Hbar as ([[[en d] m] nt] & Eb & e & -> & Ht & Hse & ->).
  destruct (owned_bar o s e d m l ltac:(lia) Ht Hse Hown Hlen) as (Hown' & Hm & Htr & Hlm).
  assert (Hdm : d * Z.of_nat (e - s) = m /\ 0 < m) by (destruct Ht as (_ & -> & _ & [|]); [lia|nia]).
  destruct (IH (Z.to_nat (task_cnt - (o + m))) ltac:(lia) (o + m) (l ++ expand1 (Z.of_nat s, Z.of_nat e - Z.of_nat s, d)) fuel eq_refl
    ltac:(lia) Hown' ltac:(rewrite length_app; lia) ltac:(lia)) as (ts & Hok & Hl & Ho' & Hrun).
  exists ((Z.of_nat s, Z.of_nat e - Z.of_nat s, d) :: ts). rewrite expand_cons, app_assoc. split; [by constructor|]. split; [done|]. split; [done|]. intros ndebug packing.
  rewrite loop_step. cbn [next_bar in_order]. rewrite (proj2 (Z.ltb_lt _ _)), Hfind, Nat2Z.id by done.
  destruct (clear_before o s) eqn:Ec; cbn [andb]; destruct ndebug; cbn [orb mbind exec_bind]; try done;
    rewrite Eb; cbn [mbind exec_bind]; rewrite i32_ok by (unfold i32_min; lia); cbn [mbind exec_bind]; rewrite Hrun, ?triples_text_cons, <- ?app_assoc; cbn [orb]; try done.
  by replace (o + (Z.of_nat e - Z.of_nat s) * d) with (o + m) by lia.
Qed.

Lemma pack_spec :
  exists ts, (forall ndebug, pack_process_mapping ndebug node_cnt task_cnt (sizes tids) tids = if ndebug || in_order 0 ts then Ret (vector_text ++ tail_text ts) else Fault) /\
    Forall (triple_ok node_cnt) ts /\ Z.of_nat (length (expand ts)) = task_cnt /\ owned tids (expand ts).
Proof using Hlay.
  pose proof (layout_small _ _ _ Hlay) as [Hsm _].
  destruct (bars_spec _ 0 [] (S (Z.to_nat task_cnt)) eq_refl ltac:(lia) ltac:(intros t n Ht; done) eq_refl ltac:(lia)) as (ts & Hok & Hlen & Hown & Hrun).
  exists ts. split; [|done]. intros ndebug. specialize (Hrun ndebug vector_text). rewrite counts_0 in Hrun.
  change (pack_process_mapping ndebug node_cnt task_cnt (sizes tids) tids) with
    (packing ← loop (S (Z.to_nat task_cnt)) (next_bar ndebug) (0, replicate (Z.to_nat node_cnt) 0, vector_text); Ret (packing ++ [41])).
  rewrite Hrun. destruct (ndebug || _); [|done]. cbn [mbind exec_bind]. unfold tail_text. by rewrite app_assoc.
Qed.
End pack.
