(* ===== verification/MappingProps.v ===== *)
(** * Mappings are read back

    [unpack_process_mapping] reads the layout that [pack_process_mapping] wrote. *)

From stdpp Require Import sorting.
From S2P Require Import Prelude HostlistParse HostlistRead Mapping MappingFacts MappingPack.

Local Open Scope Z_scope.
Local Open Scope slurm_scope.

Section unpack.
Context (node_cnt task_cnt : Z) (tids : list (list Z)) (Hlay : layout node_cnt task_cnt tids).
Context (nodes : list Z) (Hlen : Z.of_nat (length nodes) = task_cnt) (Hown : owned tids nodes) (counted : bool).

(** The arrays after the first [o] tasks. *)
Definition filled (o : nat) : list Z * Z * option (list Z) :=
  (take o nodes ++ replicate (length nodes - o) 0, Z.of_nat o, if counted then Some (counts (Z.of_nat o) tids) else None).

(** The counts after one more task. *)
Lemma counts_step o n : nodes !! o = Some n -> 0 <= n < node_cnt /\
  exists ids, tids !! Z.to_nat n = Some ids /\ ids !! below_id (Z.of_nat o) ids = Some (Z.of_nat o) /\ Z.of_nat (below_id (Z.of_nat o) ids) + 1 < 2 ^ 16 /\
  <[Z.to_nat n := Z.of_nat (below_id (Z.of_nat o) ids) + 1]> (counts (Z.of_nat o) tids) = counts (Z.of_nat o + 1) tids.
Proof using Hlay Hown.
  intros Ho. destruct (Hown o n Ho) as (Hn & ids & Hids & Hin). pose proof (lookup_lt_Some _ _ _ Hids). pose proof (layout_nodes _ _ _ Hlay).
  split; [lia|]. exists ids. split; [done|]. apply list_elem_of_lookup in Hin as [k Hk].
  apply below_id_at in Hk as Hb; [|by eapply node_sorted]. destruct Hb as [-> _]. pose proof (lookup_lt_Some _ _ _ Hk). pose proof (node_count _ _ _ Hlay _ _ Hids).
  split; [done|]. split; [lia|].
  pose proof (counts_run _ _ _ Hlay (Z.to_nat n) ids k (S k) (Z.of_nat o) Hids ltac:(lia)) as Hrun. replace (S k - k)%nat with 1%nat in Hrun by lia.
  replace (Z.of_nat k + 1) with (Z.of_nat (S k)) by lia. apply Hrun. intros q Hq. replace q with k by lia. rewrite Hk. f_equal. lia.
Qed.

Lemma put_tasks_spec n d o : 0 <= d <= i32_max -> (forall q, (o <= q < o + Z.to_nat d)%nat -> nodes !! q = Some n) ->
  put_tasks n d (filled o) = Ret (filled (o + Z.to_nat d)).
Proof using Hlay Hown.
  intros Hd Hq. assert (i32_max = 2147483647) by done. unfold put_tasks, u32. rewrite Z.mod_small by lia.
  replace (filled o) with (filled (o + Z.to_nat 0)) by (f_equal; lia). rewrite (for_family (fun k => filled (o + Z.to_nat k))); [by rewrite Z.add_0_l, Z2Nat.id by lia|].
  intros k Hk. set (t := (o + Z.to_nat k)%nat). replace (o + Z.to_nat (k + 1))%nat with (S t) by lia. specialize (Hq t ltac:(lia)). clearbody t.
  pose proof (lookup_lt_Some _ _ _ Hq) as Hlt. destruct (counts_step t n Hq) as (Hn & ids & Hids & Hb & Hsm & Hc). unfold filled.
  apply wp_eq. apply wp_bind, wp_aset; [rewrite length_app, length_take, length_replicate; lia|]. rewrite Nat2Z.id.
  assert (Hmap : <[t := n]> (take t nodes ++ replicate (length nodes - t) 0) = take (S t) nodes ++ replicate (length nodes - S t) 0).
  { rewrite insert_app_r_alt by (rewrite length_take; lia). rewrite length_take, Nat.min_l, Nat.sub_diag by lia.
    replace (length nodes - t)%nat with (S (length nodes - S t)) by lia. cbn [replicate]. rewrite (take_S_r _ _ n) by done. by rewrite <- app_assoc. }
  rewrite Hmap. destruct counted; [|cbn; by rewrite Nat2Z.inj_succ].
  rewrite <- (Z2Nat.id n) by lia. apply wp_bind. rewrite (aget_counts _ _ _ _ Hids). cbn [mbind exec_bind]. apply wp_bind, wp_aset.
  { unfold counts. rewrite length_map. apply lookup_lt_Some in Hids. lia. }
  rewrite Nat2Z.id. unfold u16. rewrite Z.mod_small by lia. rewrite Hc. cbn. by rewrite Nat2Z.inj_succ.
Qed.

(** The nodes of one triple. *)
Lemma put_triple a c d o : triple_ok node_cnt (a, c, d) ->
  take (length (expand1 (a, c, d))) (drop o nodes) = expand1 (a, c, d) ->
  for_while (fun _ => true) (fun node st => put_tasks node d st) (Z.to_nat c) a (filled o) = Ret (filled (o + length (expand1 (a, c, d)))).
Proof using Hlay Hown.
  intros (Ha & Hc & Hac & Hd) Ht. pose proof (length_expand1 a c d ltac:(lia) ltac:(lia)) as Hl.
  assert (Hat : forall k q, 0 <= k < c -> 0 <= q < d -> nodes !! (o + Z.to_nat (k * d + q))%nat = Some (a + k)).
  { intros k q Hk Hq. assert (Z.of_nat (Z.to_nat (k * d + q)) < d * c) by nia.
    destruct (lookup_lt_is_Some_2 (expand1 (a, c, d)) (Z.to_nat (k * d + q))) as [n Hn]; [lia|].
    pose proof Hn as Hn'. apply expand1_lookup in Hn' as (k' & q' & Hk' & Hq' & E & ->); [|lia..].
    rewrite Z2Nat.id in E by nia. assert (k' = k) as -> by nia. rewrite <- Hn, <- Ht. rewrite lookup_take_lt by lia. by rewrite lookup_drop. }
  replace (filled o) with (filled (o + Z.to_nat ((a - a) * d))) by (f_equal; lia).
  rewrite (for_family (fun k => filled (o + Z.to_nat ((k - a) * d)))); [do 2 f_equal; nia|].
  intros k Hk. rewrite put_tasks_spec; [do 2 f_equal; nia|done|]. intros q Hq.
  replace q with (o + Z.to_nat ((k - a) * d + (Z.of_nat q - Z.of_nat o - (k - a) * d)))%nat by nia. rewrite Hat by nia. f_equal. lia.
Qed.

Lemma counts_all : counts task_cnt tids = sizes tids.
Proof using Hlay.
  apply list_eq. intros i. unfold counts, sizes. rewrite !list_lookup_fmap. destruct (tids !! i) as [l|] eqn:Hi; [|done]. cbn [fmap option_fmap option_map].
  do 2 f_equal. unfold below_id. f_equal. apply list_filter_all. apply Forall_forall. intros t Ht. by apply (task_range _ _ _ Hlay i l).
Qed.

Lemma drop_past (j X : cstr) c : drop (S (length j)) (j ++ c :: X) = X.
Proof using. by induction j. Qed.

Lemma tail_text_cons t ts : tail_text (t :: ts) = 44 :: 40 :: body t ++ 41 :: tail_text ts.
Proof using. unfold tail_text, triples_text. cbn [map concat]. rewrite <- !app_assoc. cbn [app]. done. Qed.

Lemma tail_text_head ts : exists c, c <> 40 /\ tail_text ts = c :: drop 1 (tail_text ts).
Proof using. destruct ts as [|t ts]; [by exists 41|]. exists 44. split; [done|]. by rewrite tail_text_cons. Qed.

Lemma strstr_vector r : strstr_after (vector_text ++ 44 :: r) (vector_text ++ [44]) = Some r.
Proof using. cbn [app vector_text strstr_after]. by rewrite bool_decide_eq_true_2. Qed.

(** What the loop over the triples keeps. *)
Definition read_inv (ts : list triple) (st : cstr * list Z * Z * option (list Z)) : Prop :=
  let '(p, task_map, taskid, tasks) := st in
  exists dn rest junk, ts = dn ++ rest /\ p = junk ++ drop 1 (tail_text rest) /\ (40 ∉ junk) /\
    (task_map, taskid, tasks) = filled (length (expand dn)).

Lemma read_loop ndebug ts : Forall (triple_ok node_cnt) ts -> expand ts = nodes -> forall p fuel, read_inv ts (p, replicate (Z.to_nat task_cnt) 0, 0, if counted then Some (counts 0 tids) else None) -> (length p < fuel)%nat ->
  wp (loop fuel (read_triple ndebug node_cnt) (p, replicate (Z.to_nat task_cnt) 0, 0, if counted then Some (counts 0 tids) else None))
    (fun r => r = (Some nodes, if counted then Some (counts task_cnt tids) else None)).
Proof using Hlay Hown Hlen.
  intros Hok Hts p fuel Hinv Hfuel. pose proof (layout_small _ _ _ Hlay) as [Hsm HNm]. assert (i32_max = 2147483647) by done.
  eapply (wp_loop (read_inv ts) (fun '(p, _, _, _) => length p)); [|exact Hinv|exact Hfuel|intros r Hr; exact Hr].
  intros [[[q task_map] taskid] tasks] (dn & rest & junk & Ets & -> & Hj & Hf). unfold read_triple. destruct rest as [|t rest].
  - cbn [tail_text triples_text map concat app drop]. rewrite app_nil_r, strchr_None by done. rewrite app_nil_r in Ets. subst dn. rewrite Hts in Hf.
    unfold filled in Hf. rewrite Nat.sub_diag, take_ge, app_nil_r, Hlen in Hf by lia. by injection Hf as -> _ ->.
  - rewrite tail_text_cons. cbn [drop]. rewrite strchr_app by done. cbv zeta. rewrite drop_past.
    rewrite Ets in Hok. apply Forall_app in Hok as [_ [Ht Hok]%Forall_cons]. rewrite (scan_triple_body node_cnt) by done. cbn [mbind exec_bind].
    destruct t as [[a c] d]. pose proof Ht as (Ha & Hc & Hac & Hd). rewrite i32_ok by (unfold i32_min; lia). cbn [mbind exec_bind].
    assert (xassert ndebug ((u32 a <? node_cnt) && (u32 (c + a) <=? node_cnt)) = Ret tt) as ->.
    { unfold u32. rewrite !Z.mod_small by lia. rewrite (proj2 (Z.ltb_lt _ _)), (proj2 (Z.leb_le _ _)) by lia. by destruct ndebug. }
    cbn [mbind exec_bind]. rewrite Hf. replace (c + a - a) with c by lia. rewrite (put_triple a c d _ Ht).
    2: { rewrite <- Hts, Ets, expand_app, drop_app_length, expand_cons. by rewrite take_app_length. }
    cbn [mbind exec_bind]. unfold filled at 1. cbn [mbind exec_bind]. split; [|rewrite ?length_app; cbn [length]; rewrite ?length_app; cbn [length]; lia].
    destruct (tail_text_head rest) as (h & Hh & Eh). exists (dn ++ [(a, c, d)]), rest, (body (a, c, d) ++ [41; h]). split; [by rewrite <- app_assoc|].
    split; [rewrite Eh at 1; by rewrite <- app_assoc|].
    split; [rewrite not_elem_of_app, !not_elem_of_cons; split; [by eapply body_closed|]; repeat split; (done || apply not_elem_of_nil)|].
    by rewrite expand_snoc, length_app.
Qed.

Lemma zero_loop (ts : list Z) : Z.of_nat (length ts) = node_cnt ->
  for_while (fun _ => true) (fun i ts => aset ts i 0) (Z.to_nat node_cnt) 0 ts = Ret (counts 0 tids).
Proof using Hlay.
  clear Hlen Hown. intros Hts. pose proof (layout_nodes _ _ _ Hlay) as HN. replace ts with ((fun k => take (Z.to_nat k) (counts 0 tids) ++ drop (Z.to_nat k) ts) 0) by done.
  assert (Hz : forall i, (i < length tids)%nat -> counts 0 tids !! i = Some 0) by (intros i Hi; rewrite (counts_0 _ _ _ Hlay); apply lookup_replicate; lia).
  assert (Hc : length (counts 0 tids) = length tids) by apply length_map.
  rewrite (for_family (fun k => take (Z.to_nat k) (counts 0 tids) ++ drop (Z.to_nat k) ts)).
  - rewrite take_ge, drop_ge, app_nil_r by lia. done.
  - intros k Hk. set (j := Z.to_nat k). replace (Z.to_nat (k + 1)) with (S j) by lia. destruct (lookup_lt_is_Some_2 ts j) as [x Hx]; [lia|].
    apply wp_eq, wp_aset; [rewrite length_app, length_take, length_drop; lia|]. fold j.
    rewrite insert_app_r_alt by (rewrite length_take; lia). rewrite length_take, Nat.min_l, Nat.sub_diag by lia.
    rewrite (drop_S ts x j) by done. cbn [insert list_insert]. rewrite (take_S_r _ _ 0) by (apply Hz; lia). by rewrite <- app_assoc.
Qed.

Lemma unpack_flat_spec ndebug ts tasks : Forall (triple_ok node_cnt) ts -> expand ts = nodes -> ts <> [] ->
  (if counted then exists t, tasks = Some t /\ Z.of_nat (length t) = node_cnt else tasks = None) ->
  unpack_process_mapping_flat ndebug (vector_text ++ tail_text ts) node_cnt task_cnt tasks = Ret (Some nodes, if counted then Some (sizes tids) else None).
Proof using Hlay Hown Hlen.
  intros Hok Hts Hne Htasks. destruct ts as [|t ts]; [done|]. unfold unpack_process_mapping_flat. rewrite tail_text_cons, strstr_vector.
  set (p := 40 :: body t ++ 41 :: tail_text ts).
  assert (Hinv : read_inv (t :: ts) (p, replicate (Z.to_nat task_cnt) 0, 0, if counted then Some (counts 0 tids) else None)).
  { exists [], (t :: ts), []. split; [done|]. split; [by rewrite tail_text_cons|]. split; [apply not_elem_of_nil|]. unfold filled. cbn [expand map concat length take app].
    rewrite Nat.sub_0_r. by replace (Z.to_nat task_cnt) with (length nodes) by lia. }
  pose proof (read_loop ndebug (t :: ts) Hok Hts p (S (length p)) Hinv ltac:(lia)) as Hloop. apply wp_inv in Hloop as (r & Hloop & ->). rewrite counts_all in Hloop.
  destruct counted; [destruct Htasks as (tk & -> & Htk)|subst tasks]; cbn [mbind exec_bind]; [rewrite zero_loop by done; cbn [mbind exec_bind]|]; exact Hloop.
Qed.

(** ** The task ids of each node *)

(** A node's ids below [o], with room for the others. *)
Definition partial (o : Z) (l : list Z) : list Z := take (below_id o l) l ++ replicate (length l - below_id o l) 0.

Lemma partial_step o n ids : nodes !! o = Some n -> tids !! Z.to_nat n = Some ids -> ids !! below_id (Z.of_nat o) ids = Some (Z.of_nat o) ->
  <[Z.to_nat n := Z.of_nat (below_id (Z.of_nat o) ids) + 1]> (counts (Z.of_nat o) tids) = counts (Z.of_nat o + 1) tids ->
  <[below_id (Z.of_nat o) ids := Z.of_nat o]> (partial (Z.of_nat o) ids) = partial (Z.of_nat o + 1) ids /\
  <[Z.to_nat n := partial (Z.of_nat o + 1) ids]> (map (partial (Z.of_nat o)) tids) = map (partial (Z.of_nat o + 1)) tids.
Proof using Hlay.
  intros Hn Hids Hb Hc. apply below_id_at in Hb as Hb'; [|by eapply node_sorted]. destruct Hb' as [_ Hb']. pose proof (lookup_lt_Some _ _ _ Hb) as Hlt. split.
  - unfold partial. rewrite Hb'. set (k := below_id (Z.of_nat o) ids) in *. rewrite insert_app_r_alt by (rewrite length_take; lia).
    rewrite length_take, Nat.min_l, Nat.sub_diag by lia. replace (length ids - k)%nat with (S (length ids - S k)) by lia. cbn [replicate insert list_insert].
    rewrite (take_S_r _ _ (Z.of_nat o)) by done. by rewrite <- app_assoc.
  - apply list_eq. intros p. destruct (decide (p = Z.to_nat n)) as [->|Hne].
    + rewrite list_lookup_insert_eq by (rewrite length_map; by eapply lookup_lt_Some). by rewrite list_lookup_fmap, Hids.
    + rewrite list_lookup_insert_ne by done. rewrite !list_lookup_fmap. destruct (tids !! p) as [m|] eqn:Hm; [|done]. cbn [fmap option_fmap option_map].
      f_equal. unfold partial. apply (f_equal (lookup p)) in Hc. rewrite list_lookup_insert_ne in Hc by done. unfold counts in Hc. rewrite !list_lookup_fmap, Hm in Hc.
      cbn [fmap option_fmap option_map] in Hc. injection Hc as Hc%Nat2Z.inj. by rewrite Hc.
Qed.

Lemma ids_step ndebug o : (o < length nodes)%nat ->
  (node ← aget nodes (Z.of_nat o);
   k ← aget (counts (Z.of_nat o) tids) node;
   l ← aget (map (partial (Z.of_nat o)) tids) node;
   l ← aset l k (Z.of_nat o);
   tids' ← aset (map (partial (Z.of_nat o)) tids) node l;
   node_task_cnt ← aset (counts (Z.of_nat o) tids) node (u16 (k + 1));
   t ← aget (sizes tids) node;
   _ ← xassert ndebug (u16 (k + 1) <=? t);
   Ret (tids', node_task_cnt)) = Ret (map (partial (Z.of_nat o + 1)) tids, counts (Z.of_nat o + 1) tids).
Proof using Hlay Hown.
  intros Ho. destruct (lookup_lt_is_Some_2 nodes o Ho) as [n Hn]. destruct (counts_step o n Hn) as (Hr & ids & Hids & Hb & Hsm & Hc).
  destruct (partial_step o n ids Hn Hids Hb Hc) as [Hp1 Hp2].
  rewrite (aget_lookup nodes _ n) by (rewrite ?Nat2Z.id; (done || lia)). cbn [mbind exec_bind]. set (k := below_id (Z.of_nat o) ids) in *.
  pose proof (lookup_lt_Some _ _ _ Hb) as Hlt. pose proof (lookup_lt_Some _ _ _ Hids) as Hnl.
  assert (En : n = Z.of_nat (Z.to_nat n)) by lia. rewrite En. set (j := Z.to_nat n) in *. clearbody j. rewrite (aget_counts _ _ _ _ Hids). fold k. cbn [mbind exec_bind].
  rewrite (aget_lookup _ _ (partial (Z.of_nat o) ids)) by (rewrite ?Nat2Z.id, ?list_lookup_fmap, ?Hids; (done || lia)). cbn [mbind exec_bind].
  rewrite (aget_sizes _ _ _ Hids). unfold u16. rewrite Z.mod_small by lia. apply wp_eq. apply wp_bind, wp_aset.
  { unfold partial. fold k. rewrite length_app, length_take, length_replicate. lia. }
  rewrite Nat2Z.id, Hp1. apply wp_bind, wp_aset; [rewrite length_map; lia|]. rewrite Nat2Z.id, Hp2.
  apply wp_bind, wp_aset; [unfold counts; rewrite length_map; lia|]. rewrite Nat2Z.id, Hc. cbn [mbind exec_bind].
  rewrite (proj2 (Z.leb_le _ _)) by lia. by destruct ndebug.
Qed.
End unpack.

Section read_back.
Context (node_cnt task_cnt : Z) (tids : list (list Z)) (Hlay : layout node_cnt task_cnt tids).
Context (nodes : list Z) (Hlen : Z.of_nat (length nodes) = task_cnt) (Hown : owned tids nodes).

(** The arrays for the task ids. *)
Lemma alloc_loop (old : list (list Z)) : Z.of_nat (length old) = node_cnt ->
  for_while (fun _ => true) (fun i tids' => t ← aget (sizes tids) i; aset tids' i (replicate (Z.to_nat t) 0)) (Z.to_nat node_cnt) 0 old = Ret (map (partial 0) tids).
Proof using Hlay.
  clear Hlen Hown. intros Hold. pose proof (layout_nodes _ _ _ Hlay) as HN. replace old with ((fun k => take (Z.to_nat k) (map (partial 0) tids) ++ drop (Z.to_nat k) old) 0) by done.
  rewrite (for_family (fun k => take (Z.to_nat k) (map (partial 0) tids) ++ drop (Z.to_nat k) old)).
  - rewrite take_ge, drop_ge, app_nil_r by (rewrite ?length_map; lia). done.
  - intros k Hk. assert (Ek : k = Z.of_nat (Z.to_nat k)) by lia. replace (Z.to_nat (k + 1)) with (S (Z.to_nat k)) by lia. set (j := Z.to_nat k) in *. rewrite Ek.
    destruct (lookup_lt_is_Some_2 old j) as [x Hx]; [lia|]. destruct (lookup_lt_is_Some_2 tids j) as [l Hl]; [lia|].
    rewrite (aget_sizes _ _ _ Hl). cbn [mbind exec_bind]. rewrite Nat2Z.id.
    apply wp_eq, wp_aset; [rewrite length_app, length_take, length_drop, length_map; lia|].
    rewrite Nat2Z.id, insert_app_r_alt by (rewrite length_take; lia). rewrite length_take, length_map, Nat.min_l, Nat.sub_diag by lia.
    rewrite (drop_S old x j) by done. cbn [insert list_insert]. rewrite (take_S_r _ _ (partial 0 l)) by (by rewrite list_lookup_fmap, Hl). rewrite <- app_assoc.
    cbn [app]. unfold partial at 2. unfold below_id. rewrite filter_none; [cbn [length take app]; by rewrite Nat.sub_0_r|].
    apply Forall_forall. intros t Ht. by apply (task_range _ _ _ Hlay j l).
Qed.

Lemma partial_all : map (partial task_cnt) tids = tids.
Proof using Hlay.
  clear Hlen Hown. apply list_eq. intros i. rewrite list_lookup_fmap. destruct (tids !! i) as [l|] eqn:Hi; [|done]. cbn [fmap option_fmap option_map]. f_equal.
  unfold partial, below_id. rewrite list_filter_all; [by rewrite firstn_all, Nat.sub_diag, app_nil_r|].
  apply Forall_forall. intros t Ht. by apply (task_range _ _ _ Hlay i l).
Qed.


Lemma unpack_spec ndebug ts tasks old : Forall (triple_ok node_cnt) ts -> expand ts = nodes -> ts <> [] ->
  Z.of_nat (length tasks) = node_cnt -> Z.of_nat (length old) = node_cnt ->
  unpack_process_mapping ndebug (vector_text ++ tail_text ts) node_cnt task_cnt tasks old = Ret (0, sizes tids, tids).
Proof using Hlay Hlen Hown.
  intros Hok Hts Hne Htasks Hold. unfold unpack_process_mapping.
  rewrite (unpack_flat_spec node_cnt task_cnt tids Hlay nodes Hlen Hown true ndebug ts (Some tasks) Hok Hts Hne) by eauto. cbn [mbind exec_bind default].
  rewrite alloc_loop by done. cbn [mbind exec_bind]. rewrite <- (counts_0 _ _ _ Hlay).
  rewrite (for_family (fun k => (map (partial k) tids, counts k tids))).
  - cbn [mbind exec_bind]. replace (0 + Z.of_nat (Z.to_nat task_cnt)) with task_cnt by lia. by rewrite partial_all.
  - intros k Hk. rewrite <- (Z2Nat.id k) by lia. apply (ids_step node_cnt task_cnt tids Hlay nodes Hown ndebug (Z.to_nat k)). lia.
Qed.
End read_back.

(** ** Round trip *)

(** C29: A layout of tasks on nodes survives the text of a process mapping: for every
    layout (every task id on one node, the ids of a node in order, at most 65535 tasks
    on a node, at least one task), [pack_process_mapping] writes a text from which
    [unpack_process_mapping] restores the number of tasks and the task ids of every
    node, whatever the arrays held before, and from which
    [unpack_process_mapping_flat] restores the node of every task.  With assertions
    compiled out ([ndebug]) the text is always written; with assertions it is written exactly when the
    bars of the text are in order ([in_order]: no node before the first one of a bar has
    a task left), and otherwise the assertion of the writing side aborts
    ([writer_assertion_fails]).  The assertions of the reading side hold.  Without
    tasks the text is refused ([empty_mapping_is_refused]). *)
Theorem mapping_roundtrip node_cnt task_cnt tids : layout node_cnt task_cnt tids -> 0 < task_cnt ->
  exists ts, let map := vector_text ++ triples_text ts ++ [41] in
    (forall ndebug, pack_process_mapping ndebug node_cnt task_cnt (sizes tids) tids = if ndebug || in_order tids 0 ts then Ret map else Fault) /\
    (forall ndebug tasks old, Z.of_nat (length tasks) = node_cnt -> Z.of_nat (length old) = node_cnt ->
       unpack_process_mapping ndebug map node_cnt task_cnt tasks old = Ret (0, sizes tids, tids)) /\
    (forall ndebug, exists nodes, unpack_process_mapping_flat ndebug map node_cnt task_cnt None = Ret (Some nodes, None) /\
       Z.of_nat (length nodes) = task_cnt /\
       forall t n, nodes !! t = Some n -> 0 <= n /\ exists ids, tids !! Z.to_nat n = Some ids /\ Z.of_nat t ∈ ids).
Proof.
  intros Hlay Ht. destruct (pack_spec _ _ _ Hlay) as (ts & Hp & Hok & Hlen & Hown). assert (Hne : ts <> []) by (intros ->; cbn in Hlen; lia).
  exists ts. cbv zeta. split; [exact Hp|]. split.
  - intros ndebug tasks old Htasks Hold. by apply (unpack_spec _ _ _ Hlay (expand ts) Hlen Hown).
  - intros ndebug. exists (expand ts). split; [|done]. by apply (unpack_flat_spec _ _ _ Hlay (expand ts) Hlen Hown false).
Qed.

(** Three nodes with tasks 0, 3, 4 and 1, 5 and 2. *)
Lemma mixed_layout : layout 3 6 [[0; 3; 4]; [1; 5]; [2]].
Proof.
  constructor; [done| |repeat constructor; lia|repeat constructor; (done || (cbn; lia))|unfold i32_max; lia].
  apply NoDup_Permutation; [apply (bool_decide_unpack _); vm_compute; exact I|apply NoDup_seqZ|].
  intros x. rewrite elem_of_seqZ. cbn. set_unfold. lia.
Qed.

Lemma mapping_roundtrip_witness : exists map, pack_process_mapping true 3 6 [3; 2; 1] [[0; 3; 4]; [1; 5]; [2]] = Ret map /\
  unpack_process_mapping false map 3 6 [9; 9; 9] [[]; []; [7]] = Ret (0, [3; 2; 1], [[0; 3; 4]; [1; 5]; [2]]).
Proof.
  destruct (mapping_roundtrip 3 6 _ mixed_layout eq_refl) as (ts & Hp & Hu & _). eexists. split; [exact (Hp true)|]. by apply Hu.
Defined.

(** "(vector,(0,3,1),(0,1,2),(1,1,1))", also with assertions. *)
Example mixed_text : forall ndebug, pack_process_mapping ndebug 3 6 [3; 2; 1] [[0; 3; 4]; [1; 5]; [2]] =
  Ret (vector_text ++ triple_text 0 3 1 ++ triple_text 0 1 2 ++ triple_text 1 1 1 ++ [41]).
Proof. by intros []. Qed.

(** The assertion of the writing side does not hold for every layout: with task 1 on
    node 0 and task 0 on node 1, the search for task 0 passes node 0, whose next task
    is later. *)
Example writer_assertion_fails : pack_process_mapping false 2 2 [1; 1] [[1]; [0]] = Fault /\
  pack_process_mapping true 2 2 [1; 1] [[1]; [0]] = Ret (vector_text ++ triple_text 1 1 1 ++ triple_text 0 1 1 ++ [41]).
Proof. split; reflexivity. Qed.

(** A step without tasks has a text that is refused. *)
Example empty_mapping_is_refused : pack_process_mapping true 0 0 [] [] = Ret (vector_text ++ [41]) /\
  unpack_process_mapping true (vector_text ++ [41]) 0 0 [] [] = Ret (SLURM_ERROR, [], []).
Proof. split; reflexivity. Qed.
