(* ===== verification/Hilbert.v ===== *)
(** * The Hilbert curve: src/plugins/topology/3d_torus/hilbert.c

    The transformation between the axes of a point and the transpose of its Hilbert
    integer, on an array of [n] words of [b] bits, and the interleaving that makes
    the integer for three axes of five bits. *)

From S2P Require Import Prelude.

Local Open Scope Z_scope.
Local Open Scope slurm_scope.

(** [for (i = n; i; i--)]. *)
Fixpoint for_down {S : Type} (body : Z -> S -> exec S) (n : nat) (s : S) : exec S :=
  match n with
  | O => Ret s
  | Datatypes.S m => s ← body (Z.of_nat n) s; for_down body m s
  end.

(** [X[i] ^= v]. *)
Definition xor_at (X : list Z) (i v : Z) : exec (list Z) := x ← aget X i; aset X i (Z.lxor x v).

(** Invert the low bits of [X[0]] if [X[i]] has bit [Q], else exchange them with those
    of [X[i]]. *)
Definition exchange (Q P i : Z) (X : list Z) : exec (list Z) :=
  x ← aget X i;
  if negb (Z.land x Q =? 0) then xor_at X 0 P
  else x0 ← aget X 0; let t := Z.land (Z.lxor x0 x) P in X ← xor_at X 0 t; xor_at X i t.

(** [if (X[0] & Q) X[0] ^= P]. *)
Definition invert (Q P : Z) (X : list Z) : exec (list Z) :=
  x ← aget X 0; if negb (Z.land x Q =? 0) then xor_at X 0 P else Ret X.

(** [x << k] on [int]. *)
Definition shl32 (x k : Z) : exec Z := if (0 <=? k) && (k <? 32) then i32 (Z.shiftl x k) else Fault.

Definition TransposetoAxes (X : list Z) (b n : Z) : exec (list Z) :=
  x ← aget X (n - 1);
  let t := Z.shiftr x 1 in
  X ← for_down (fun i X => y ← aget X (i - 1); xor_at X i y) (Z.to_nat (n - 1)) X;
  X ← xor_at X 0 t;
  M ← shl32 2 (b - 1);
  loop 33 (fun '(Q, X) =>
    if negb (Q =? M) then
      let P := u32 (Q - 1) in
      X ← for_down (exchange Q P) (Z.to_nat (n - 1)) X;
      X ← invert Q P X;
      Ret (inl (u32 (Z.shiftl Q 1), X))
    else Ret (inr X)) (2, X).

Definition AxestoTranspose (X : list Z) (b n : Z) : exec (list Z) :=
  Q ← shl32 1 (b - 1);
  X ← loop 33 (fun '(Q, X) =>
    if 1 <? Q then
      let P := Q - 1 in
      X ← invert Q P X;
      X ← for_while (fun _ => true) (exchange Q P) (Z.to_nat (n - 1)) 1 X;
      Ret (inl (Z.shiftr Q 1, X))
    else Ret (inr X)) (Q, X);
  X ← for_while (fun _ => true) (fun i X => y ← aget X (i - 1); xor_at X i y) (Z.to_nat (n - 1)) 1 X;
  t ← aget X (n - 1);
  X ← loop 33 (fun '(i, X) =>
    if i <? b then x ← aget X (n - 1); X ← xor_at X (n - 1) (Z.shiftr x i); Ret (inl (Z.shiftl i 1, X))
    else Ret (inr X)) (1, X);
  x ← aget X (n - 1);
  let t := Z.lxor t x in
  for_down (fun i X => xor_at X (i - 1) t) (Z.to_nat (n - 1)) X.

(** The Hilbert integer of three words of five bits, from their transpose. *)
Definition bit_to (x from to : Z) : Z := Z.shiftl (Z.land (Z.shiftr x from) 1) to.
Definition node_rank (h0 h1 h2 : Z) : Z :=
  bit_to h0 4 14 + bit_to h1 4 13 + bit_to h2 4 12 + bit_to h0 3 11 + bit_to h1 3 10 + bit_to h2 3 9 +
  bit_to h0 2 8 + bit_to h1 2 7 + bit_to h2 2 6 + bit_to h0 1 5 + bit_to h1 1 4 + bit_to h2 1 3 +
  bit_to h0 0 2 + bit_to h1 0 1 + bit_to h2 0 0.
