(* ===== verification/HilbertFacts.v ===== *)
(** * Steps of the Hilbert transformation

    The steps as functions on lists: each of them is its own inverse, so that the
    loops of [TransposetoAxes], which run the steps of [AxestoTranspose] backwards,
    undo them; and the Gray code. *)

From S2P Require Import Prelude Hilbert.

Local Open Scope Z_scope.
Local Open Scope slurm_scope.

(** ** Bits *)

Ltac xor_bits := apply Z.bits_inj'; intros ? ?; rewrite ?Z.lxor_spec, ?Z.land_spec; repeat match goal with |- context [Z.testbit ?a ?k] => destruct (Z.testbit a k) end; done.

Lemma log2_below b x : 0 < b -> 0 <= x < 2 ^ b -> Z.log2 x < b.
Proof. intros Hb Hx. destruct (decide (x = 0)) as [->|]; [rewrite Z.log2_nonpos; lia|apply Z.log2_lt_pow2; lia]. Qed.

Lemma below_log2 b x : 0 <= x -> Z.log2 x < b -> 0 <= x < 2 ^ b.
Proof. intros Hx Hl. destruct (decide (x = 0)) as [->|]; [split; [done|]; apply Z.pow_pos_nonneg; [done|]; rewrite Z.log2_nonpos in Hl; lia|]. split; [done|]. apply Z.log2_lt_pow2; lia. Qed.

Lemma lxor_range b x y : 0 < b -> 0 <= x < 2 ^ b -> 0 <= y < 2 ^ b -> 0 <= Z.lxor x y < 2 ^ b.
Proof.
  intros Hb Hx Hy. apply below_log2; [apply Z.lxor_nonneg; lia|]. pose proof (Z.log2_lxor x y ltac:(lia) ltac:(lia)).
  pose proof (log2_below b x Hb Hx). pose proof (log2_below b y Hb Hy). lia.
Qed.

Lemma land_range_r b x y : 0 <= b -> 0 <= x < 2 ^ b -> 0 <= Z.land y x < 2 ^ b.
Proof. intros Hb Hx. rewrite Z.land_comm. by apply land_range. Qed.

(** Bits below [2 ^ q] do not touch bit [q]. *)
Lemma low_bits q x t : 0 < q -> 0 <= t < 2 ^ q -> Z.land (Z.lxor x t) (2 ^ q) = Z.land x (2 ^ q).
Proof.
  intros Hq Ht. apply Z.bits_inj'. intros k Hk. rewrite !Z.land_spec, Z.lxor_spec, Z.pow2_bits_eqb by lia.
  destruct (Z.eqb_spec q k) as [->|]; [|by rewrite !andb_false_r]. rewrite (Z.bits_above_log2 t k); [by rewrite xorb_false_r|lia|by apply log2_below].
Qed.

(** ** Gray code *)

Lemma gray_step y Y k i : 0 <= k -> 0 <= i -> Z.lxor y (Z.shiftr y k) = Z.lxor Y (Z.shiftr Y i) ->
  Z.lxor (Z.lxor y (Z.shiftr y i)) (Z.shiftr (Z.lxor y (Z.shiftr y i)) k) = Z.lxor Y (Z.shiftr Y (2 * i)).
Proof.
  intros Hk Hi H. rewrite Z.shiftr_lxor, Z.shiftr_shiftr by lia. rewrite (Z.add_comm i k), <- Z.shiftr_shiftr by lia.
  transitivity (Z.lxor (Z.lxor y (Z.shiftr y k)) (Z.shiftr (Z.lxor y (Z.shiftr y k)) i)); [rewrite Z.shiftr_lxor; xor_bits|].
  rewrite H, Z.shiftr_lxor, Z.shiftr_shiftr by lia. replace (i + i) with (2 * i) by lia. xor_bits.
Qed.

Lemma gray_inj x y : 0 <= x -> 0 <= y -> Z.lxor x (Z.shiftr x 1) = Z.lxor y (Z.shiftr y 1) -> x = y.
Proof.
  intros Hx Hy H. apply Z.lxor_eq. set (c := Z.lxor x y). assert (Hc : 0 <= c) by (apply Z.lxor_nonneg; lia).
  assert (E : c = Z.shiftr c 1).
  { unfold c. rewrite Z.shiftr_lxor. apply Z.lxor_eq. transitivity (Z.lxor (Z.lxor x (Z.shiftr x 1)) (Z.lxor y (Z.shiftr y 1))); [xor_bits|].
    rewrite H. apply Z.lxor_nilpotent. }
  rewrite Z.shiftr_div_pow2 in E by lia. change (2 ^ 1) with 2 in E. dlia.
Qed.

(** ** Runs of steps that undo themselves *)

Section runs.
Context (ok : list Z -> Prop) (f : nat -> list Z -> list Z) (m : nat).
Context (Hok : forall i X, (0 < i <= m)%nat -> ok X -> ok (f i X)) (Hinv : forall i X, (0 < i <= m)%nat -> ok X -> f i (f i X) = X).

Fixpoint up (k : nat) (X : list Z) : list Z := match k with O => X | S j => f (S j) (up j X) end.
Fixpoint down (k : nat) (X : list Z) : list Z := match k with O => X | S j => down j (f (S j) X) end.

Lemma up_ok k X : (k <= m)%nat -> ok X -> ok (up k X).
Proof using Hok. induction k as [|k IH]; intros Hk HX; [done|]. cbn [up]. apply Hok; [lia|]. apply IH; [lia|done]. Qed.

Lemma down_ok k X : (k <= m)%nat -> ok X -> ok (down k X).
Proof using Hok. revert X. induction k as [|k IH]; intros X Hk HX; [done|]. cbn [down]. apply IH; [lia|]. apply Hok; [lia|done]. Qed.

Lemma down_up k X : (k <= m)%nat -> ok X -> down k (up k X) = X.
Proof using Hok Hinv. induction k as [|k IH]; intros Hk HX; [done|]. cbn [down up]. rewrite Hinv by (lia || (apply up_ok; [lia|done])). apply IH; [lia|done]. Qed.

Lemma up_down k X : (k <= m)%nat -> ok X -> up k (down k X) = X.
Proof using Hok Hinv. revert X. induction k as [|k IH]; intros X Hk HX; [done|]. cbn [down up]. rewrite IH by (lia || (apply Hok; [lia|done])). apply Hinv; [lia|done]. Qed.

Lemma for_up body X : (forall i X, (0 < i <= m)%nat -> ok X -> body (Z.of_nat i) X = Ret (f i X)) -> ok X ->
  for_while (fun _ => true) body m 1 X = Ret (up m X).
Proof using Hok.
  intros Hb HX. replace X with (up (Z.to_nat (1 - 1)) X) at 1 by done. rewrite (for_family (fun k => up (Z.to_nat (k - 1)) X)); [do 2 f_equal; lia|].
  intros k Hk. replace (Z.to_nat (k + 1 - 1)) with (S (Z.to_nat (k - 1))) by lia. cbn [up].
  replace k with (Z.of_nat (S (Z.to_nat (k - 1)))) at 1 by lia. apply Hb; [lia|]. apply up_ok; [lia|done].
Qed.

Lemma for_down_run body k X : (forall i X, (0 < i <= m)%nat -> ok X -> body (Z.of_nat i) X = Ret (f i X)) -> (k <= m)%nat -> ok X ->
  for_down body k X = Ret (down k X).
Proof using Hok.
  intros Hb. revert X. induction k as [|k IH]; intros X Hk HX; [done|]. cbn [for_down down]. rewrite Hb by (lia || done). cbn [mbind exec_bind].
  apply IH; [lia|]. apply Hok; [lia|done].
Qed.
End runs.

(** ** The steps *)

Section steps.
Context (b : Z) (n : nat) (Hb : 1 <= b <= 30) (Hn : (1 <= n)%nat).

(** [n] words of [b] bits. *)
Definition words (X : list Z) : Prop := length X = n /\ Forall (fun x => 0 <= x < 2 ^ b) X.

Definition pxor (X : list Z) (i : nat) (v : Z) : list Z := <[i := Z.lxor (X !!! i) v]> X.

Lemma words_lookup X i : words X -> (i < n)%nat -> X !! i = Some (X !!! i) /\ 0 <= X !!! i < 2 ^ b.
Proof using Hb Hn.
  intros [Hl HX] Hi. destruct (lookup_lt_is_Some_2 X i) as [x Hx]; [lia|]. rewrite (list_lookup_total_correct _ _ _ Hx). split; [done|].
  exact (Forall_lookup_1 _ _ _ _ HX Hx).
Qed.

Lemma words_insert X i v : words X -> 0 <= v < 2 ^ b -> words (<[i := v]> X).
Proof using Hb Hn. intros [Hl HX] Hv. split; [by rewrite length_insert|]. by apply Forall_insert. Qed.

Lemma words_pxor X i v : words X -> (i < n)%nat -> 0 <= v < 2 ^ b -> words (pxor X i v).
Proof using Hb Hn. intros HX Hi Hv. apply words_insert; [done|]. apply lxor_range; [lia|by apply words_lookup|done]. Qed.

Lemma aget_words X i : words X -> (i < n)%nat -> aget X (Z.of_nat i) = Ret (X !!! i).
Proof using Hb Hn. intros HX Hi. apply aget_lookup; [lia|]. rewrite Nat2Z.id. by apply words_lookup. Qed.

Lemma xor_at_pxor X i v : words X -> (i < n)%nat -> xor_at X (Z.of_nat i) v = Ret (pxor X i v).
Proof using Hb Hn.
  intros HX Hi. unfold xor_at. rewrite aget_words by done. cbn [mbind exec_bind]. apply wp_eq, wp_aset; [destruct HX; lia|]. by rewrite Nat2Z.id.
Qed.

Lemma aget_words0 X : words X -> aget X 0 = Ret (X !!! 0%nat).
Proof using Hb Hn. intros HX. apply (aget_words X 0); [done|lia]. Qed.

Lemma xor_at_pxor0 X v : words X -> xor_at X 0 v = Ret (pxor X 0 v).
Proof using Hb Hn. intros HX. apply (xor_at_pxor X 0); [done|lia]. Qed.

Lemma pxor_same X i v : words X -> (i < n)%nat -> pxor X i v !!! i = Z.lxor (X !!! i) v.
Proof using Hb Hn. intros [Hl _] Hi. apply list_lookup_total_insert_eq. lia. Qed.

Lemma pxor_other X i j v : i <> j -> pxor X i v !!! j = X !!! j.
Proof using. intros Hij. by apply list_lookup_total_insert_ne. Qed.

Lemma pxor_twice X i v : words X -> (i < n)%nat -> pxor (pxor X i v) i v = X.
Proof using Hb Hn.
  intros HX Hi. unfold pxor at 1. rewrite pxor_same by done. unfold pxor. rewrite list_insert_insert_eq.
  replace (Z.lxor (Z.lxor (X !!! i) v) v) with (X !!! i) by xor_bits. apply list_insert_id. by apply words_lookup.
Qed.

Lemma pxor_comm X i j v w : i <> j -> pxor (pxor X i v) j w = pxor (pxor X j w) i v.
Proof using.
  intros Hij. unfold pxor at 1 3. rewrite !pxor_other by done. unfold pxor. by rewrite list_insert_insert_ne.
Qed.

(** [X[i] ^= X[i-1]]. *)
Definition pchain (i : nat) (X : list Z) : list Z := pxor X i (X !!! (i - 1)%nat).

Lemma pchain_ok i X : (0 < i <= n - 1)%nat -> words X -> words (pchain i X).
Proof using Hb Hn. intros Hi HX. apply words_pxor; [done|lia|]. apply words_lookup; [done|lia]. Qed.

Lemma pchain_inv i X : (0 < i <= n - 1)%nat -> words X -> pchain i (pchain i X) = X.
Proof using Hb Hn. intros Hi HX. unfold pchain at 1. unfold pchain at 2. rewrite pxor_other by lia. apply pxor_twice; [done|lia]. Qed.

Section level.
Context (q : Z) (Hq : 1 <= q < b).

Definition pinvert (X : list Z) : list Z := if negb (Z.land (X !!! 0%nat) (2 ^ q) =? 0) then pxor X 0 (2 ^ q - 1) else X.

Definition pexchange (i : nat) (X : list Z) : list Z :=
  if negb (Z.land (X !!! i) (2 ^ q) =? 0) then pxor X 0 (2 ^ q - 1)
  else let t := Z.land (Z.lxor (X !!! 0%nat) (X !!! i)) (2 ^ q - 1) in pxor (pxor X 0 t) i t.

Lemma mask_range : 0 <= 2 ^ q - 1 < 2 ^ q /\ 2 ^ q < 2 ^ b.
Proof using Hq Hb Hn. pose proof (Z.pow_pos_nonneg 2 q). pose proof (Z.pow_lt_mono_r 2 q b). lia. Qed.

Lemma swap_range x y : 0 <= x -> 0 <= y -> 0 <= Z.land (Z.lxor x y) (2 ^ q - 1) < 2 ^ q.
Proof using Hq Hb Hn. intros Hx Hy. apply land_range_r; [lia|apply mask_range]. Qed.

Lemma pinvert_ok X : words X -> words (pinvert X).
Proof using Hq Hb Hn. intros HX. unfold pinvert. pose proof mask_range. destruct (negb _); [|done]. apply words_pxor; [done|lia|lia]. Qed.

Lemma pinvert_inv X : words X -> pinvert (pinvert X) = X.
Proof using Hq Hb Hn.
  intros HX. pose proof mask_range. unfold pinvert at 2. destruct (negb (Z.land (X !!! 0%nat) (2 ^ q) =? 0)) eqn:E; unfold pinvert; [|by rewrite E].
  rewrite pxor_same, low_bits by (done || lia). rewrite E. apply pxor_twice; [done|lia].
Qed.

Lemma pexchange_ok i X : (0 < i <= n - 1)%nat -> words X -> words (pexchange i X).
Proof using Hq Hb Hn.
  intros Hi HX. unfold pexchange. pose proof mask_range. destruct (negb _); [apply words_pxor; [done|lia|lia]|]. cbv zeta.
  pose proof (proj2 (words_lookup X 0 HX ltac:(lia))) as Hr0. pose proof (proj2 (words_lookup X i HX ltac:(lia))) as Hri.
  pose proof (swap_range _ _ (proj1 Hr0) (proj1 Hri)). apply words_pxor; [apply words_pxor; [done|lia|lia]|lia|lia].
Qed.

Lemma pexchange_inv i X : (0 < i <= n - 1)%nat -> words X -> pexchange i (pexchange i X) = X.
Proof using Hq Hb Hn.
  intros Hi HX. pose proof mask_range. unfold pexchange at 2. destruct (negb (Z.land (X !!! i) (2 ^ q) =? 0)) eqn:E.
  - unfold pexchange. rewrite pxor_other by lia. rewrite E. apply pxor_twice; [done|lia].
  - cbv zeta. pose proof (proj2 (words_lookup X 0 HX ltac:(lia))) as Hr0. pose proof (proj2 (words_lookup X i HX ltac:(lia))) as Hri.
    pose proof (swap_range _ _ (proj1 Hr0) (proj1 Hri)) as Ht. set (t := Z.land _ (2 ^ q - 1)) in *.
    assert (HX0 : words (pxor X 0 t)) by (apply words_pxor; [done|lia|lia]). unfold pexchange.
    rewrite (pxor_same _ i) by (done || lia). rewrite (pxor_other _ i 0), (pxor_other X 0 i) by lia. rewrite (pxor_same _ 0) by (done || lia). rewrite low_bits by lia. rewrite E. cbv zeta.
    replace (Z.lxor (Z.lxor (X !!! 0%nat) t) (Z.lxor (X !!! i) t)) with (Z.lxor (X !!! 0%nat) (X !!! i)) by xor_bits. fold t.
    rewrite (pxor_comm (pxor X 0 t) i 0) by lia. rewrite (pxor_twice X 0) by (done || lia). apply pxor_twice; [done|lia].
Qed.

Lemma invert_spec X : words X -> invert (2 ^ q) (2 ^ q - 1) X = Ret (pinvert X).
Proof using Hb Hn Hq. intros HX. unfold invert, pinvert. rewrite aget_words0 by done. cbn [mbind exec_bind]. destruct (negb _); [|done]. by apply xor_at_pxor0. Qed.

Lemma exchange_spec i X : (0 < i <= n - 1)%nat -> words X -> exchange (2 ^ q) (2 ^ q - 1) (Z.of_nat i) X = Ret (pexchange i X).
Proof using Hq Hb Hn.
  intros Hi HX. unfold exchange, pexchange. rewrite (aget_words X i) by (done || lia). cbn [mbind exec_bind]. destruct (negb _); [by apply xor_at_pxor0|].
  rewrite aget_words0 by done. cbn [mbind exec_bind]. cbv zeta. rewrite xor_at_pxor0 by done. cbn [mbind exec_bind].
  apply xor_at_pxor; [|lia]. pose proof (proj2 (words_lookup X 0 HX ltac:(lia))) as Hr0. pose proof (proj2 (words_lookup X i HX ltac:(lia))) as Hri. pose proof mask_range.
  pose proof (swap_range _ _ (proj1 Hr0) (proj1 Hri)). apply words_pxor; [done|lia|lia].
Qed.
End level.
End steps.
