(* ===== verification/HilbertProps.v ===== *)
(** * The Hilbert transformation is a bijection

    [AxestoTranspose] and [TransposetoAxes] undo each other, for every number of
    axes and up to 30 bits. *)

From S2P Require Import Prelude Hilbert HilbertFacts.

Local Open Scope Z_scope.
Local Open Scope slurm_scope.

Section transform.
Context (b : Z) (n : nat) (Hb : 1 <= b <= 30) (Hn : (1 <= n)%nat).

(** ** Excess work *)

Definition level_axes (q : Z) (X : list Z) : list Z := up (pexchange q) (n - 1) (pinvert q X).
Definition level_transpose (q : Z) (X : list Z) : list Z := pinvert q (down (pexchange q) (n - 1) X).

Fixpoint work_axes (k : nat) (X : list Z) : list Z := match k with O => X | S j => work_axes j (level_axes (Z.of_nat k) X) end.
Fixpoint work_transpose (k : nat) (X : list Z) : list Z := match k with O => X | S j => level_transpose (Z.of_nat k) (work_transpose j X) end.

Lemma level_axes_ok q X : 1 <= q < b -> words b n X -> words b n (level_axes q X).
Proof using Hb Hn. intros Hq HX. apply (up_ok _ _ (n - 1)); [intros; by apply pexchange_ok|lia|by apply pinvert_ok]. Qed.

Lemma level_transpose_ok q X : 1 <= q < b -> words b n X -> words b n (level_transpose q X).
Proof using Hb Hn. intros Hq HX. apply pinvert_ok; [done..|]. apply (down_ok _ _ (n - 1)); [intros; by apply pexchange_ok|lia|done]. Qed.

Lemma transpose_axes_level q X : 1 <= q < b -> words b n X -> level_transpose q (level_axes q X) = X.
Proof using Hb Hn.
  intros Hq HX. unfold level_transpose, level_axes. rewrite (down_up (words b n) _ (n - 1)); [by apply (pinvert_inv b n)|..].
  - intros; by apply pexchange_ok.
  - intros; by apply (pexchange_inv b n).
  - lia.
  - by apply pinvert_ok.
Qed.

Lemma axes_transpose_level q X : 1 <= q < b -> words b n X -> level_axes q (level_transpose q X) = X.
Proof using Hb Hn.
  intros Hq HX. unfold level_transpose, level_axes. rewrite (pinvert_inv b n) by (done || (apply (down_ok _ _ (n - 1)); [intros; by apply pexchange_ok|lia|done])).
  apply (up_down (words b n) _ (n - 1)); [intros; by apply pexchange_ok|intros; by apply (pexchange_inv b n)|lia|done].
Qed.

Lemma work_axes_ok k X : Z.of_nat k < b -> words b n X -> words b n (work_axes k X).
Proof using Hb Hn. revert X. induction k as [|k IH]; intros X Hk HX; [done|]. cbn [work_axes]. apply IH; [lia|]. apply level_axes_ok; [lia|done]. Qed.

Lemma work_transpose_ok k X : Z.of_nat k < b -> words b n X -> words b n (work_transpose k X).
Proof using Hb Hn. induction k as [|k IH]; intros Hk HX; [done|]. cbn [work_transpose]. apply level_transpose_ok; [lia|]. apply IH; [lia|done]. Qed.

Lemma transpose_axes_work k X : Z.of_nat k < b -> words b n X -> work_transpose k (work_axes k X) = X.
Proof using Hb Hn.
  revert X. induction k as [|k IH]; intros X Hk HX; [done|]. cbn [work_axes work_transpose]. rewrite IH by (lia || (apply level_axes_ok; [lia|done])).
  apply transpose_axes_level; [lia|done].
Qed.

Lemma axes_transpose_work k X : Z.of_nat k < b -> words b n X -> work_axes k (work_transpose k X) = X.
Proof using Hb Hn.
  induction k as [|k IH]; intros Hk HX; [done|]. cbn [work_axes work_transpose].
  rewrite axes_transpose_level by (lia || (apply work_transpose_ok; [lia|done])). apply IH; [lia|done].
Qed.

(** ** The loops *)

Lemma level_axes_spec q X : 1 <= q < b -> words b n X ->
  (X ← invert (2 ^ q) (2 ^ q - 1) X; for_while (fun _ => true) (exchange (2 ^ q) (2 ^ q - 1)) (n - 1) 1 X) = Ret (level_axes q X).
Proof using Hb Hn.
  intros Hq HX. rewrite (invert_spec b n) by done. cbn [mbind exec_bind].
  apply (for_up (words b n)); [intros; by apply pexchange_ok|intros; by apply (exchange_spec b n)|by apply pinvert_ok].
Qed.

Lemma level_transpose_spec q X : 1 <= q < b -> words b n X ->
  (X ← for_down (exchange (2 ^ q) (2 ^ q - 1)) (n - 1) X; invert (2 ^ q) (2 ^ q - 1) X) = Ret (level_transpose q X).
Proof using Hb Hn.
  intros Hq HX. rewrite (for_down_run (words b n) (pexchange q) (n - 1)); [|intros; by apply pexchange_ok|intros; by apply (exchange_spec b n)|lia|done].
  cbn [mbind exec_bind]. apply (invert_spec b n); [done..|]. apply (down_ok _ _ (n - 1)); [intros; by apply pexchange_ok|lia|done].
Qed.

Lemma axes_loop k X fuel : (k < fuel)%nat -> Z.of_nat k < b -> words b n X ->
  loop fuel (fun '(Q, X) =>
    if 1 <? Q then
      let P := Q - 1 in
      X ← invert Q P X;
      X ← for_while (fun _ => true) (exchange Q P) (n - 1) 1 X;
      Ret (inl (Z.shiftr Q 1, X))
    else Ret (inr X)) (2 ^ Z.of_nat k, X) = Ret (work_axes k X).
Proof using Hb Hn.
  revert X fuel. induction k as [|k IH]; intros X fuel Hf Hk HX; (destruct fuel as [|fuel]; [lia|]); [done|]. rewrite loop_step. cbn [work_axes].
  rewrite (proj2 (Z.ltb_lt _ _)) by (apply Z.pow_gt_1; lia). cbv zeta.
  pose proof (level_axes_spec (Z.of_nat (S k)) X ltac:(lia) HX) as Hl. rewrite (invert_spec b n) in * by (done || lia). cbn [mbind exec_bind] in *. rewrite Hl.
  cbn [mbind exec_bind]. replace (Z.shiftr (2 ^ Z.of_nat (S k)) 1) with (2 ^ Z.of_nat k); [apply IH; [lia|lia|apply level_axes_ok; [lia|done]]|].
  rewrite Z.shiftr_div_pow2, Nat2Z.inj_succ, Z.pow_succ_r by lia. change (2 ^ 1) with 2. dlia.
Qed.

Lemma transpose_loop k X : (k < Z.to_nat b)%nat -> words b n X -> forall fuel, (Z.to_nat b - 1 - k < fuel)%nat ->
  loop fuel (fun '(Q, X) =>
    if negb (Q =? 2 ^ b) then
      let P := u32 (Q - 1) in
      X ← for_down (exchange Q P) (n - 1) X;
      X ← invert Q P X;
      Ret (inl (u32 (Z.shiftl Q 1), X))
    else Ret (inr X)) (2 ^ Z.of_nat (S k), work_transpose k X) = Ret (work_transpose (Z.to_nat b - 1) X).
Proof using Hb Hn.
  intros Hk HX fuel. remember (Z.to_nat b - 1 - k)%nat as d eqn:Ed. revert k Ed Hk fuel. induction d as [|d IH]; intros k Ed Hk fuel Hf; (destruct fuel as [|fuel]; [lia|]); rewrite loop_step.
  { replace (2 ^ Z.of_nat (S k)) with (2 ^ b) by (f_equal; lia). rewrite Z.eqb_refl. by replace k with (Z.to_nat b - 1)%nat by lia. }
  set (q := Z.of_nat (S k)). assert (Hq : 1 <= q < b) by lia. pose proof (Z.pow_lt_mono_r 2 q b ltac:(lia) ltac:(lia) ltac:(lia)).
  pose proof (Z.pow_le_mono_r 2 b 30 ltac:(lia) ltac:(lia)) as H30. change (2 ^ 30) with 1073741824 in H30. pose proof (Z.pow_pos_nonneg 2 q).
  rewrite (proj2 (Z.eqb_neq (2 ^ q) (2 ^ b))) by lia. cbn [negb]. assert (u32 (2 ^ q - 1) = 2 ^ q - 1) as -> by (apply Z.mod_small; lia). cbv zeta.
  pose proof (level_transpose_spec q (work_transpose k X) Hq ltac:(apply work_transpose_ok; [lia|done])) as Hl.
  destruct (for_down _ _ _) as [Y| |]; [|done|done]. cbn [mbind exec_bind] in *. rewrite Hl. cbn [mbind exec_bind].
  replace (u32 (Z.shiftl (2 ^ q) 1)) with (2 ^ Z.of_nat (S (S k))); [apply (IH (S k)); lia|].
  unfold u32. rewrite Z.shiftl_mul_pow2 by lia. change (2 ^ 1) with 2. replace (Z.of_nat (S (S k))) with (Z.succ q) by lia. rewrite Z.pow_succ_r, Z.mod_small by lia. lia.
Qed.

(** ** Gray code *)

Lemma words_ext X Y : words b n X -> words b n Y -> (forall j, (j < n)%nat -> X !!! j = Y !!! j) -> X = Y.
Proof using Hb Hn.
  intros HX HY H. apply list_eq_same_length with n; [by destruct HY|by destruct HX|]. intros j x y Hj Hx Hy.
  specialize (H j Hj). by rewrite (list_lookup_total_correct _ _ _ Hx), (list_lookup_total_correct _ _ _ Hy) in H.
Qed.

Definition xor_all (t : Z) (X : list Z) : list Z := map (fun x => Z.lxor x t) X.

Lemma xor_all_ok t X : 0 <= t < 2 ^ b -> words b n X -> words b n (xor_all t X).
Proof using Hb Hn.
  intros Ht [Hl HX]. split; [unfold xor_all; by rewrite length_map|]. apply Forall_fmap. eapply Forall_impl; [exact HX|]. intros x Hx. apply lxor_range; [lia|exact Hx|exact Ht].
Qed.

Lemma xor_all_lookup t X j : words b n X -> (j < n)%nat -> xor_all t X !!! j = Z.lxor (X !!! j) t.
Proof using Hb Hn.
  intros HX Hj. apply list_lookup_total_correct. unfold xor_all. rewrite list_lookup_fmap. by rewrite (proj1 (words_lookup b n Hb Hn X j HX Hj)).
Qed.

(** [X[i] ^= X[i-1]], from the last word down. *)
Lemma down_chain_lookup k X j : (k <= n - 1)%nat -> (j < n)%nat -> words b n X ->
  down pchain k X !!! j = if decide (0 < j <= k)%nat then Z.lxor (X !!! j) (X !!! (j - 1)%nat) else X !!! j.
Proof using Hb Hn.
  revert X. induction k as [|k IH]; intros X Hk Hj HX; [cbn [down]; by rewrite decide_False by lia|]. cbn [down].
  rewrite IH by (lia || (apply pchain_ok; [done|done|lia|done])). unfold pchain at 1 2 3. destruct (decide (j = S k)) as [->|Hne].
  - rewrite decide_False, decide_True by lia. by rewrite (pxor_same b n) by (done || lia).
  - destruct (decide (0 < j <= k)%nat); [rewrite decide_True by lia; by rewrite !pxor_other by lia|]. rewrite decide_False by lia. by rewrite pxor_other by lia.
Qed.

Lemma down_chain_ok X : words b n X -> words b n (down pchain (n - 1) X).
Proof using Hb Hn. intros HX. apply (down_ok _ _ (n - 1)); [intros; by apply pchain_ok|lia|done]. Qed.

Lemma up_chain_ok X : words b n X -> words b n (up pchain (n - 1) X).
Proof using Hb Hn. intros HX. apply (up_ok _ _ (n - 1)); [intros; by apply pchain_ok|lia|done]. Qed.

Lemma down_chain_xor t X : 0 <= t < 2 ^ b -> words b n X -> down pchain (n - 1) (xor_all t X) = pxor (down pchain (n - 1) X) 0 t.
Proof using Hb Hn.
  intros Ht HX. apply words_ext; [by apply down_chain_ok, xor_all_ok|apply words_pxor; [done|done|by apply down_chain_ok|lia|done]|]. intros j Hj.
  rewrite down_chain_lookup by (lia || by apply xor_all_ok). destruct (decide (0 < j <= n - 1)%nat) as [Hj0|Hj0].
  - rewrite !xor_all_lookup by (done || lia). rewrite pxor_other by lia. rewrite down_chain_lookup, decide_True by (done || lia). xor_bits.
  - replace j with 0%nat by lia. rewrite (pxor_same b n) by (lia || by apply down_chain_ok). rewrite down_chain_lookup, decide_False by (done || lia). by rewrite xor_all_lookup by (done || lia).
Qed.

Definition decode (X : list Z) : list Z := pxor (down pchain (n - 1) X) 0 (Z.shiftr (X !!! (n - 1)%nat) 1).

(** What the encoding adds to each word. *)
Definition gray_mask (X : list Z) (t : Z) : Prop :=
  0 <= t < 2 ^ b /\ t = Z.shiftr (Z.lxor (up pchain (n - 1) X !!! (n - 1)%nat) t) 1.

Lemma shiftr1_range x : 0 <= x < 2 ^ b -> 0 <= Z.shiftr x 1 < 2 ^ b.
Proof using. clear Hb Hn. intros Hx. rewrite Z.shiftr_div_pow2 by lia. change (2 ^ 1) with 2. dlia. Qed.

Lemma decode_ok X : words b n X -> words b n (decode X).
Proof using Hb Hn.
  intros HX. apply words_pxor; [done|done|by apply down_chain_ok|lia|]. apply shiftr1_range. apply (words_lookup b n Hb Hn X (n - 1) HX). lia.
Qed.

Lemma decode_encode X t : words b n X -> gray_mask X t -> decode (xor_all t (up pchain (n - 1) X)) = X.
Proof using Hb Hn.
  intros HX [Ht E]. unfold decode. rewrite xor_all_lookup by (lia || by apply up_chain_ok). rewrite <- E.
  rewrite down_chain_xor by (done || by apply up_chain_ok).
  rewrite (down_up (words b n) pchain (n - 1)); [|intros; by apply pchain_ok|intros; by apply (pchain_inv b n)|lia|done]. apply (pxor_twice b n); [done|done|done|lia].
Qed.

Lemma encode_decode X t : words b n X -> gray_mask (decode X) t -> xor_all t (up pchain (n - 1) (decode X)) = X.
Proof using Hb Hn.
  intros HX [Ht E]. set (x := X !!! (n - 1)%nat) in *. assert (Hx : 0 <= x < 2 ^ b) by (apply (words_lookup b n Hb Hn X (n - 1) HX); lia).
  set (t0 := Z.shiftr x 1) in *. assert (Ht0 : 0 <= t0 < 2 ^ b) by by apply shiftr1_range.
  assert (Hup : up pchain (n - 1) (decode X) = xor_all t0 X).
  { unfold decode. fold x t0. rewrite <- down_chain_xor by done.
    apply (up_down (words b n) pchain (n - 1)); [intros; by apply pchain_ok|intros; by apply (pchain_inv b n)|lia|by apply xor_all_ok]. }
  rewrite Hup in *. rewrite xor_all_lookup in E by (done || lia). fold x in E.
  assert (Hy : Z.lxor (Z.lxor x t0) t = x).
  { apply gray_inj; [apply Z.lxor_nonneg; pose proof (lxor_range b x t0); lia|lia|]. rewrite <- E. fold t0. xor_bits. }
  rewrite Hy in E. fold t0 in E. subst t. apply words_ext; [by apply xor_all_ok, xor_all_ok|done|]. intros j Hj.
  rewrite !xor_all_lookup by (done || by apply xor_all_ok). xor_bits.
Qed.

(** ** The functions *)

(** The loop that decodes the Gray code of a word. *)
Lemma gray_loop Y : words b n Y ->
  wp (loop 33 (fun '(i, X) =>
    if i <? b then x ← aget X (Z.of_nat n - 1); X ← xor_at X (Z.of_nat n - 1) (Z.shiftr x i); Ret (inl (Z.shiftl i 1, X)) else Ret (inr X)) (1, Y))
  (fun X => exists y, X = <[(n - 1)%nat := y]> Y /\ 0 <= y < 2 ^ b /\ Z.lxor y (Z.shiftr y 1) = Y !!! (n - 1)%nat).
Proof using Hb Hn.
  intros HY. replace (Z.of_nat n - 1) with (Z.of_nat (n - 1)) by lia. destruct (words_lookup b n Hb Hn Y (n - 1) HY ltac:(lia)) as [Hl Hr].
  set (v := Y !!! (n - 1)%nat) in *. pose proof (Z.pow_pos_nonneg 2 b ltac:(lia) ltac:(lia)).
  eapply (wp_loop (fun '(i, X) => 1 <= i <= 2 * b /\ exists y, X = <[(n - 1)%nat := y]> Y /\ 0 <= y < 2 ^ b /\ Z.lxor y (Z.shiftr y 1) = Z.lxor v (Z.shiftr v i))
    (fun '(i, _) => Z.to_nat (b - i))); [| |lia|intros X HX; exact HX].
  - intros [i X] (Hi & y & -> & Hy & E). destruct (Z.ltb_spec i b) as [Hib|Hib].
    + assert (HX : words b n (<[(n - 1)%nat := y]> Y)) by by apply words_insert.
      assert (Hg : <[(n - 1)%nat := y]> Y !!! (n - 1)%nat = y) by (apply list_lookup_total_insert_eq; destruct HY; lia).
      rewrite (aget_words b n) by (done || lia). cbn [mbind exec_bind]. rewrite (xor_at_pxor b n) by (done || lia). cbn [mbind exec_bind]. rewrite Hg.
      rewrite Z.shiftl_mul_pow2 by lia. change (2 ^ 1) with 2. split; [|lia]. split; [lia|]. exists (Z.lxor y (Z.shiftr y i)). unfold pxor. rewrite Hg, list_insert_insert_eq.
      split; [done|]. split; [|rewrite (gray_step y v 1 i) by (done || lia); by replace (i * 2) with (2 * i) by lia].
      apply lxor_range; [lia|done|]. rewrite Z.shiftr_div_pow2 by lia. pose proof (Z.pow_pos_nonneg 2 i ltac:(lia) ltac:(lia)). split; [apply Z.div_pos; lia|].
      apply Z.le_lt_trans with y; [|lia]. apply Z.div_le_upper_bound; nia.
    + exists y. split; [done|]. split; [done|]. rewrite E, Z.shiftr_div_pow2 by lia. rewrite Z.div_small; [apply Z.lxor_0_r|].
      pose proof (Z.pow_le_mono_r 2 b i ltac:(lia) ltac:(lia)). lia.
  - split; [lia|]. exists v. split; [symmetry; by apply list_insert_id|]. done.
Qed.

Lemma mask_down t k X : (k <= n - 1)%nat -> 0 <= t < 2 ^ b -> words b n X ->
  exists Y, for_down (fun i X => xor_at X (i - 1) t) k X = Ret Y /\ words b n Y /\
    forall j, (j < n)%nat -> Y !!! j = if decide (j < k)%nat then Z.lxor (X !!! j) t else X !!! j.
Proof using Hb Hn.
  intros Hk Ht. revert X. induction k as [|k IH]; intros X HX; [exists X; split; [done|]; split; [done|]; intros j Hj; by rewrite decide_False by lia|].
  cbn [for_down]. replace (Z.of_nat (S k) - 1) with (Z.of_nat k) by lia. rewrite (xor_at_pxor b n) by (done || lia). cbn [mbind exec_bind].
  destruct (IH ltac:(lia) (pxor X k t)) as (Y & -> & HY & Hj); [apply words_pxor; [done|done|done|lia|done]|]. exists Y. split; [done|]. split; [done|].
  intros j Hjn. rewrite Hj by done. destruct (decide (j = k)) as [->|Hne].
  - rewrite decide_False, decide_True by lia. by rewrite (pxor_same b n) by (done || lia).
  - rewrite pxor_other by lia. destruct (decide (j < k)%nat); [by rewrite decide_True by lia|by rewrite decide_False by lia].
Qed.

Lemma chain_spec i X : (0 < i <= n - 1)%nat -> words b n X -> (y ← aget X (Z.of_nat i - 1); xor_at X (Z.of_nat i) y) = Ret (pchain i X).
Proof using Hb Hn.
  intros Hi HX. replace (Z.of_nat i - 1) with (Z.of_nat (i - 1)) by lia. rewrite (aget_words b n) by (done || lia). cbn [mbind exec_bind].
  apply (xor_at_pxor b n); [done|done|done|lia].
Qed.

Lemma axes_spec X : words b n X -> exists t, gray_mask (work_axes (Z.to_nat b - 1) X) t /\
  AxestoTranspose X b (Z.of_nat n) = Ret (xor_all t (up pchain (n - 1) (work_axes (Z.to_nat b - 1) X))).
Proof using Hb Hn.
  intros HX. set (W := work_axes (Z.to_nat b - 1) X). assert (HW : words b n W) by (apply work_axes_ok; [lia|done]). pose proof (up_chain_ok W HW) as HY.
  set (Y := up pchain (n - 1) W) in *. destruct (words_lookup b n Hb Hn Y (n - 1) HY ltac:(lia)) as [_ Hv].
  unfold AxestoTranspose, shl32. rewrite (proj2 (andb_true_iff _ _)) by lia. rewrite Z.shiftl_1_l. pose proof (Z.pow_le_mono_r 2 (b - 1) 29 ltac:(lia) ltac:(lia)) as H29.
  change (2 ^ 29) with 536870912 in H29. pose proof (Z.pow_pos_nonneg 2 (b - 1) ltac:(lia) ltac:(lia)). rewrite i32_ok by (unfold i32_min, i32_max; lia). cbn [mbind exec_bind].
  replace (Z.to_nat (Z.of_nat n - 1)) with (n - 1)%nat by lia. replace (2 ^ (b - 1)) with (2 ^ Z.of_nat (Z.to_nat b - 1)) by (f_equal; lia).
  rewrite axes_loop by (done || lia). cbn [mbind exec_bind]. fold W.
  rewrite (for_up (words b n) pchain (n - 1)) by (intros; by apply pchain_ok || by apply chain_spec || done). cbn [mbind exec_bind]. fold Y.
  replace (Z.of_nat n - 1) with (Z.of_nat (n - 1)) by lia. rewrite (aget_words b n) by (done || lia). cbn [mbind exec_bind].
  pose proof (gray_loop Y HY) as Hg. replace (Z.of_nat n - 1) with (Z.of_nat (n - 1)) in Hg by lia. apply wp_inv in Hg as (X' & -> & y & -> & Hy & E). cbn [mbind exec_bind].
  assert (HX' : words b n (<[(n - 1)%nat := y]> Y)) by by apply words_insert.
  rewrite (aget_words b n) by (done || lia). cbn [mbind exec_bind]. cbv zeta. rewrite (list_lookup_total_insert_eq Y) by (destruct HY; lia).
  set (t := Z.lxor (Y !!! (n - 1)%nat) y). assert (Ht : 0 <= t < 2 ^ b) by (apply lxor_range; [lia|done|done]).
  destruct (mask_down t (n - 1) (<[(n - 1)%nat := y]> Y) ltac:(lia) Ht HX') as (R & -> & HR & Hj). exists t.
  assert (Hyt : Z.lxor (Y !!! (n - 1)%nat) t = y) by (unfold t; xor_bits). split.
  - split; [done|]. fold Y. rewrite Hyt. unfold t. rewrite <- E. xor_bits.
  - f_equal. apply words_ext; [done|by apply xor_all_ok|]. intros j Hjn. rewrite Hj, xor_all_lookup by done. destruct (decide (j < n - 1)%nat).
    + by rewrite list_lookup_total_insert_ne by lia.
    + replace j with (n - 1)%nat by lia. rewrite list_lookup_total_insert_eq by (destruct HY; lia). done.
Qed.

Lemma transpose_spec X : words b n X -> TransposetoAxes X b (Z.of_nat n) = Ret (work_transpose (Z.to_nat b - 1) (decode X)).
Proof using Hb Hn.
  intros HX. unfold TransposetoAxes. replace (Z.of_nat n - 1) with (Z.of_nat (n - 1)) by lia. rewrite (aget_words b n) by (done || lia). cbn [mbind exec_bind]. cbv zeta.
  rewrite Nat2Z.id, (for_down_run (words b n) pchain (n - 1)); [|intros; by apply pchain_ok|intros; by apply chain_spec|lia|done]. cbn [mbind exec_bind].
  rewrite (xor_at_pxor0 b n) by (done || by apply down_chain_ok). cbn [mbind exec_bind]. fold (decode X).
  unfold shl32. rewrite (proj2 (andb_true_iff _ _)) by lia. rewrite Z.shiftl_mul_pow2 by lia. replace (2 * 2 ^ (b - 1)) with (2 ^ b) by (rewrite <- Z.pow_succ_r by lia; f_equal; lia).
  pose proof (Z.pow_le_mono_r 2 b 30 ltac:(lia) ltac:(lia)) as H30. change (2 ^ 30) with 1073741824 in H30. pose proof (Z.pow_pos_nonneg 2 b ltac:(lia) ltac:(lia)).
  rewrite i32_ok by (unfold i32_min, i32_max; lia). cbn [mbind exec_bind]. apply (transpose_loop 0 (decode X)); [lia|by apply decode_ok|lia].
Qed.
End transform.

(** C27: [AxestoTranspose] and [TransposetoAxes] are inverse bijections on arrays of [n]
    words of [b] bits, for every [n] from 1 and every [b] from 1 to 30: both return,
    with words of [b] bits, and each undoes the other. *)
Theorem hilbert_transform_bijective b n X : 1 <= b <= 30 -> (1 <= n)%nat -> length X = n -> Forall (fun x => 0 <= x < 2 ^ b) X ->
  (exists Y, AxestoTranspose X b (Z.of_nat n) = Ret Y /\ length Y = n /\ Forall (fun y => 0 <= y < 2 ^ b) Y /\ TransposetoAxes Y b (Z.of_nat n) = Ret X) /\
  (exists Y, TransposetoAxes X b (Z.of_nat n) = Ret Y /\ length Y = n /\ Forall (fun y => 0 <= y < 2 ^ b) Y /\ AxestoTranspose Y b (Z.of_nat n) = Ret X).
Proof.
  intros Hb Hn Hl HX. assert (Hw : words b n X) by done. split.
  - destruct (axes_spec b n Hb Hn X Hw) as (t & Ht & ->). set (W := work_axes n (Z.to_nat b - 1) X) in *.
    assert (HW : words b n W) by (apply work_axes_ok; [done|done|lia|done]). pose proof (proj1 Ht) as Hr.
    pose proof (xor_all_ok b n Hb Hn t _ Hr (up_chain_ok b n Hb Hn W HW)) as HY. eexists. split; [done|]. split; [apply HY|]. split; [apply HY|].
    rewrite transpose_spec by done. rewrite (decode_encode b n) by done. unfold W. by rewrite (transpose_axes_work b n) by (done || lia).
  - rewrite transpose_spec by done. pose proof (decode_ok b n Hb Hn X Hw) as HD. assert (HY : words b n (work_transpose n (Z.to_nat b - 1) (decode n X))) by (apply work_transpose_ok; [done|done|lia|done]).
    eexists. split; [done|]. split; [apply HY|]. split; [apply HY|].
    destruct (axes_spec b n Hb Hn _ HY) as (t & Ht & ->). rewrite (axes_transpose_work b n) in * by (done || lia). by rewrite (encode_decode b n).
Qed.

(** The point (5, 10, 20) of a cube of 32 x 32 x 32 points. *)
Lemma hilbert_transform_bijective_witness : exists Y, AxestoTranspose [5; 10; 20] 5 3 = Ret Y /\ TransposetoAxes Y 5 3 = Ret [5; 10; 20].
Proof.
  destruct (hilbert_transform_bijective 5 3 [5; 10; 20]) as [(Y & HY & _ & _ & HX) _]; [lia|lia|done|repeat constructor; lia|]. exists Y. split; [exact HY|exact HX].
Defined.
