(* ===== verification/HilbertCurve.v ===== *)
(** * The Hilbert curve is continuous

    The Hilbert integers of points with three coordinates of five bits are a
    numbering of the 32768 points, in which successors are neighbours. *)

From S2P Require Import Prelude Hilbert HilbertFacts HilbertProps.

Local Open Scope Z_scope.
Local Open Scope slurm_scope.

(** ** Bits of an integer, the lowest first *)

Fixpoint of_bits (l : list bool) : Z := match l with [] => 0 | a :: l => 2 * of_bits l + Z.b2z a end.

Lemma testbit_of_bits l k : Z.testbit (of_bits l) (Z.of_nat k) = default false (l !! k).
Proof.
  revert k. induction l as [|a l IH]; intros k; [cbn [of_bits lookup list_lookup default]; apply Z.testbit_0_l|].
  destruct k as [|k]; cbn [of_bits]; [apply Z.testbit_0_r|]. rewrite Nat2Z.inj_succ, Z.testbit_succ_r by lia. apply IH.
Qed.

Lemma of_bits_word h : 0 <= h < 2 ^ 5 -> of_bits [Z.testbit h 0; Z.testbit h 1; Z.testbit h 2; Z.testbit h 3; Z.testbit h 4] = h.
Proof.
  intros Hh. cbn [of_bits]. rewrite !Z.testbit_spec' by lia. change (2 ^ 0) with 1. change (2 ^ 1) with 2. change (2 ^ 2) with 4. change (2 ^ 3) with 8. change (2 ^ 4) with 16. dlia.
Qed.

Lemma bit_to_b2z x from to : 0 <= from -> 0 <= to -> bit_to x from to = Z.b2z (Z.testbit x from) * 2 ^ to.
Proof.
  intros Hf Ht. unfold bit_to. rewrite Z.shiftl_mul_pow2 by lia. f_equal. rewrite Z.testbit_spec' by lia.
  change 1 with (Z.ones 1). rewrite Z.land_ones, Z.shiftr_div_pow2 by lia. done.
Qed.

Lemma node_rank_bits h0 h1 h2 : node_rank h0 h1 h2 = of_bits
  [Z.testbit h2 0; Z.testbit h1 0; Z.testbit h0 0; Z.testbit h2 1; Z.testbit h1 1; Z.testbit h0 1; Z.testbit h2 2; Z.testbit h1 2; Z.testbit h0 2;
   Z.testbit h2 3; Z.testbit h1 3; Z.testbit h0 3; Z.testbit h2 4; Z.testbit h1 4; Z.testbit h0 4].
Proof.
  unfold node_rank. rewrite !bit_to_b2z by lia. cbn [of_bits]. repeat match goal with |- context [Z.b2z ?t] => generalize (Z.b2z t); intros ? end.
  change (2 ^ 14) with 16384. change (2 ^ 13) with 8192. change (2 ^ 12) with 4096. change (2 ^ 11) with 2048. change (2 ^ 10) with 1024. change (2 ^ 9) with 512.
  change (2 ^ 8) with 256. change (2 ^ 7) with 128. change (2 ^ 6) with 64. change (2 ^ 5) with 32. change (2 ^ 4) with 16. change (2 ^ 3) with 8.
  change (2 ^ 2) with 4. change (2 ^ 1) with 2. change (2 ^ 0) with 1. lia.
Qed.

Lemma of_bits_range l : 0 <= of_bits l < 2 ^ Z.of_nat (length l).
Proof.
  induction l as [|a l IH]; [done|]. cbn [of_bits length]. rewrite Nat2Z.inj_succ, Z.pow_succ_r by lia. assert (0 <= Z.b2z a <= 1) by (by destruct a). lia.
Qed.

(** The word of an integer whose bits start at [o]. *)
Definition word_of (r o : Z) : Z := of_bits [Z.testbit r o; Z.testbit r (3 + o); Z.testbit r (6 + o); Z.testbit r (9 + o); Z.testbit r (12 + o)].

Lemma word_of_rank h0 h1 h2 : 0 <= h0 < 2 ^ 5 -> 0 <= h1 < 2 ^ 5 -> 0 <= h2 < 2 ^ 5 ->
  let r := node_rank h0 h1 h2 in 0 <= r < 2 ^ 15 /\ word_of r 2 = h0 /\ word_of r 1 = h1 /\ word_of r 0 = h2.
Proof.
  intros H0 H1 H2 r. unfold r. rewrite node_rank_bits. split; [apply (of_bits_range [_; _; _; _; _; _; _; _; _; _; _; _; _; _; _])|].
  set (l := [_; _; _; _; _; _; _; _; _; _; _; _; _; _; _]). pose proof (testbit_of_bits l) as Hb. unfold word_of.
  assert (Hw : forall o h, 0 <= h < 2 ^ 5 -> map (fun k => default false (l !! k)) [o; 3 + o; 6 + o; 9 + o; 12 + o]%nat =
      [Z.testbit h 0; Z.testbit h 1; Z.testbit h 2; Z.testbit h 3; Z.testbit h 4] -> of_bits (map (fun k => Z.testbit (of_bits l) (Z.of_nat k)) [o; 3 + o; 6 + o; 9 + o; 12 + o]%nat) = h).
  { intros o h Hh E. etransitivity; [|by apply of_bits_word]. f_equal. etransitivity; [|exact E]. apply map_ext, Hb. }
  split; [exact (Hw 2%nat h0 H0 eq_refl)|]. split; [exact (Hw 1%nat h1 H1 eq_refl)|exact (Hw 0%nat h2 H2 eq_refl)].
Qed.

(** ** Three axes *)

Definition point : Type := Z * Z * Z.
Definition list3 (p : point) : list Z := let '(x, y, z) := p in [x; y; z].

Definition invert3 (q : Z) (p : point) : point :=
  let '(x, y, z) := p in if negb (Z.land x (2 ^ q) =? 0) then (Z.lxor x (2 ^ q - 1), y, z) else (x, y, z).
Definition exchange1 (q : Z) (p : point) : point :=
  let '(x, y, z) := p in
  if negb (Z.land y (2 ^ q) =? 0) then (Z.lxor x (2 ^ q - 1), y, z)
  else let t := Z.land (Z.lxor x y) (2 ^ q - 1) in (Z.lxor x t, Z.lxor y t, z).
Definition exchange2 (q : Z) (p : point) : point :=
  let '(x, y, z) := p in
  if negb (Z.land z (2 ^ q) =? 0) then (Z.lxor x (2 ^ q - 1), y, z)
  else let t := Z.land (Z.lxor x z) (2 ^ q - 1) in (Z.lxor x t, y, Z.lxor z t).
Definition level3 (q : Z) (p : point) : point := invert3 q (exchange1 q (exchange2 q p)).
Definition decode3 (p : point) : point := let '(x, y, z) := p in (Z.lxor x (Z.shiftr z 1), Z.lxor y x, Z.lxor z y).
Definition axes3 (p : point) : point := level3 4 (level3 3 (level3 2 (level3 1 (decode3 p)))).

Lemma level3_spec q p : level_transpose 3 q (list3 p) = list3 (level3 q p).
Proof.
  assert (H2 : forall p, pexchange q 2 (list3 p) = list3 (exchange2 q p)) by (intros [[x y] z]; unfold pexchange, exchange2, list3; cbn; by destruct (negb _)).
  assert (H1 : forall p, pexchange q 1 (list3 p) = list3 (exchange1 q p)) by (intros [[x y] z]; unfold pexchange, exchange1, list3; cbn; by destruct (negb _)).
  assert (H0 : forall p, pinvert q (list3 p) = list3 (invert3 q p)) by (intros [[x y] z]; unfold pinvert, invert3, list3; cbn; by destruct (negb _)).
  unfold level_transpose, level3. cbn [down Nat.sub]. by rewrite H2, H1, H0.
Qed.

Lemma axes3_spec p : Forall (fun x => 0 <= x < 2 ^ 5) (list3 p) -> TransposetoAxes (list3 p) 5 3 = Ret (list3 (axes3 p)).
Proof.
  intros Hp. assert (Hw : words 5 3 (list3 p)) by (split; [by destruct p as [[? ?] ?]|done]).
  change 3 with (Z.of_nat 3). rewrite transpose_spec by (lia || done). f_equal.
  replace (decode 3 (list3 p)) with (list3 (decode3 p)) by (by destruct p as [[x y] z]).
  change (Z.to_nat 5 - 1)%nat with 4%nat. cbn [work_transpose]. by rewrite !level3_spec.
Qed.

(** ** Continuity *)

(** The point of an integer. *)
Definition point_of (r : Z) : point := axes3 (word_of r 2, word_of r 1, word_of r 0).

(** Points that differ by one, in one coordinate. *)
Definition adjacent (p q : point) : Prop :=
  let '(x, y, z) := p in let '(x', y', z') := q in Z.abs (x - x') + Z.abs (y - y') + Z.abs (z - z') = 1.
#[export] Instance adjacent_dec p q : Decision (adjacent p q).
Proof. destruct p as [[? ?] ?], q as [[? ?] ?]. unfold adjacent. apply _. Defined.

Fixpoint adjacent_from (n : nat) (r : Z) (p : point) : bool :=
  match n with O => true | S m => let p' := point_of (r + 1) in bool_decide (adjacent p p') && adjacent_from m (r + 1) p' end.

Lemma adjacent_from_spec n r k : adjacent_from n r (point_of r) = true -> r <= k < r + Z.of_nat n -> adjacent (point_of k) (point_of (k + 1)).
Proof.
  revert r. induction n as [|n IH]; intros r H Hk; [lia|]. cbn [adjacent_from] in H. apply andb_true_iff in H as [Ha H].
  destruct (decide (k = r)) as [->|]; [by apply bool_decide_eq_true in Ha|]. apply (IH (r + 1)); [done|lia].
Qed.

Lemma curve_continuous r : 0 <= r < 32767 -> adjacent (point_of r) (point_of (r + 1)).
Proof. intros Hr. apply (adjacent_from_spec (Z.to_nat 32767) 0); [vm_compute; reflexivity|lia]. Qed.

(** The Hilbert integer of a point, and the point of the integer. *)
Lemma hilbert_rank p : Forall (fun x => 0 <= x < 2 ^ 5) (list3 p) ->
  exists h0 h1 h2, AxestoTranspose (list3 p) 5 3 = Ret [h0; h1; h2] /\ 0 <= node_rank h0 h1 h2 < 2 ^ 15 /\ point_of (node_rank h0 h1 h2) = p.
Proof.
  intros Hp. assert (Hw : words 5 3 (list3 p)) by (split; [by destruct p as [[? ?] ?]|done]).
  destruct (axes_spec 5 3 ltac:(lia) ltac:(lia) (list3 p) Hw) as (t & Ht & E). change (Z.of_nat 3) with 3 in E.
  set (W := work_axes 3 (Z.to_nat 5 - 1) (list3 p)) in *. assert (HW : words 5 3 W) by (apply work_axes_ok; [lia|lia|done|done]).
  pose proof (xor_all_ok 5 3 ltac:(lia) ltac:(lia) t _ (proj1 Ht) (up_chain_ok 5 3 ltac:(lia) ltac:(lia) W HW)) as HY.
  pose proof (decode_encode 5 3 ltac:(lia) ltac:(lia) W t HW Ht) as Hd.
  set (Y := xor_all t (up pchain (3 - 1) W)) in *. destruct HY as [HYl HY]. destruct Y as [|h0 [|h1 [|h2 [|]]]] eqn:EY; try done. exists h0, h1, h2. split; [done|].
  assert (Hh : 0 <= h0 < 2 ^ 5 /\ 0 <= h1 < 2 ^ 5 /\ 0 <= h2 < 2 ^ 5) by (rewrite !Forall_cons in HY; tauto). destruct Hh as (Hh0 & Hh1 & Hh2).
  destruct (word_of_rank h0 h1 h2 Hh0 Hh1 Hh2) as (Hr & E0 & E1 & E2). split; [done|]. unfold point_of. rewrite E0, E1, E2.
  pose proof (axes3_spec (h0, h1, h2) HY) as Ha. change 3 with (Z.of_nat 3) in Ha. rewrite transpose_spec in Ha by (lia || done).
  cbn [list3] in Ha. rewrite Hd in Ha. unfold W in Ha. rewrite (transpose_axes_work 5 3) in Ha by (lia || done).
  injection Ha as Ha. destruct p as [[? ?] ?], (axes3 _) as [[? ?] ?]. cbn [list3] in Ha. by injection Ha as -> -> ->.
Qed.
