(* ===== verification/NodeOrder.v ===== *)
(** * The order of the node table: src/slurmctld/read_config.c

    When the configuration has been read, the table of nodes is put in order before
    any bitmap of nodes is built: by the rank that the topology plugin gave the
    nodes (for a three-dimensional torus, their Hilbert integer, from
    src/plugins/topology/3d_torus/hilbert_slurm.c), or by the natural order of
    their names. *)

From S2P Require Import Prelude NatCmp Hilbert.

Local Open Scope Z_scope.
Local Open Scope slurm_scope.

(** A node record: its name, its rank and whatever else it holds. *)
Record node_record (A : Type) : Type := mk_node { nr_name : cstr; nr_rank : Z; nr_other : A }.
Arguments mk_node {A}.
Arguments nr_name {A}.
Arguments nr_rank {A}.
Arguments nr_other {A}.

(** The topology plugins whose ranking is modelled. *)
Inductive topology := Torus3d | TopoNone | TopoTree | TopoNodeRank.

Definition select_char2coord (coord : Z) : Z :=
  if (48 <=? coord) && (coord <=? 57) then coord - 48
  else if (65 <=? coord) && (coord <=? 90) then coord - 65 + 10
  else -1.

Section tables.
Context {A : Type}.
Implicit Types (table : list (node_record A)).

(** ** Ranks *)

(** The coordinates in the last three characters of a name; [None] is [fatal]. *)
Definition name_coords (name : cstr) : exec (option (list Z)) :=
  let j := Z.of_nat (length name) in
  if j <? 3 then Ret None else
  for_down (fun k acc =>
    match acc with
    | None => Ret None
    | Some coords => c ← aget name (j - k); let x := select_char2coord c in if x <? 0 then Ret None else Ret (Some (coords ++ [x]))
    end) 3 (Some []).

(** The coordinates of all nodes, one after the other, and the largest of them. *)
Fixpoint all_coords table : exec (option (list Z * Z)) :=
  match table with
  | [] => Ret (Some ([], 0))
  | node :: table =>
      c ← name_coords (nr_name node);
      match c with
      | None => Ret None
      | Some c =>
          r ← all_coords table;
          match r with
          | None => Ret None
          | Some (coords, m) => Ret (Some (c ++ coords, fold_right Z.max m c))
          end
      end
  end.

(** The Hilbert integer of each node, from the coordinates. *)
Fixpoint set_ranks table (coords : list Z) : exec (list (node_record A)) :=
  match table with
  | [] => Ret []
  | node :: table =>
      c0 ← aget coords 0; c1 ← aget coords 1; c2 ← aget coords 2;
      hilbert ← AxestoTranspose [u32 c0; u32 c1; u32 c2] 5 3;
      h0 ← aget hilbert 0; h1 ← aget hilbert 1; h2 ← aget hilbert 2;
      table ← set_ranks table (drop 3 coords);
      Ret (mk_node (nr_name node) (u32 (node_rank h0 h1 h2)) (nr_other node) :: table)
  end.

(** [system_dims] is the build's [SYSTEM_DIMENSIONS]; [first_run] is the static
    variable of the function, which the function leaves as it is.  [None] is
    [fatal]. *)
Definition nodes_to_hilbert_curve (system_dims : Z) (first_run : bool) table : exec (option (list (node_record A))) :=
  if negb (system_dims =? 3) then Ret None else
  if negb first_run then Ret (Some table) else
  r ← all_coords table;
  match r with
  | None => Ret None
  | Some (coords, max_coord) => if 31 <? max_coord then Ret None else table ← set_ranks table coords; Ret (Some table)
  end.

(** The table, and whether it has ranks. *)
Definition topo_generate_node_ranking (topo : topology) (system_dims : Z) (first_run : bool) table :
    exec (option (list (node_record A) * bool)) :=
  match topo with
  | Torus3d => r ← nodes_to_hilbert_curve system_dims first_run table; match r with Some table => Ret (Some (table, true)) | None => Ret None end
  | TopoNone | TopoTree | TopoNodeRank => Ret (Some (table, false))
  end.

(** The select/linear and select/cons_res plugins do not rank nodes. *)
Definition select_p_node_ranking table : bool := false.

(** ** Order *)

(** Exchange two records. *)
Definition swap_records table (i min_inx : Z) : exec (list (node_record A)) :=
  if min_inx =? i then Ret table else
  x ← aget table i; y ← aget table min_inx;
  table ← aset table i y;
  aset table min_inx x.

Definition _reorder_nodes_by_name table : exec (list (node_record A)) :=
  let node_record_count := Z.of_nat (length table) in
  for_while (fun _ => true) (fun i table =>
    min_inx ← for_while (fun _ => true) (fun j min_inx =>
      x ← aget table j; y ← aget table min_inx;
      Ret (if strnatcmp (nr_name x) (nr_name y) <? 0 then j else min_inx))
      (Z.to_nat (node_record_count - (i + 1))) (i + 1) i;
    swap_records table i min_inx) (Z.to_nat node_record_count) 0 table.

Definition _reorder_nodes_by_rank table : exec (list (node_record A)) :=
  let node_record_count := Z.of_nat (length table) in
  for_while (fun _ => true) (fun i table =>
    x ← aget table i;
    '(_, min_inx) ← for_while (fun _ => true) (fun j '(min_val, min_inx) =>
      x ← aget table j;
      Ret (if nr_rank x <? min_val then (nr_rank x, j) else (min_val, min_inx)))
      (Z.to_nat (node_record_count - (i + 1))) (i + 1) (nr_rank x, i);
    swap_records table i min_inx) (Z.to_nat node_record_count) 0 table.

(** The part of [read_slurm_conf] that orders the nodes; [None] is [fatal]. *)
Definition order_nodes (topo : topology) (system_dims : Z) (first_run : bool) table : exec (option (list (node_record A))) :=
  r ← topo_generate_node_ranking topo system_dims first_run table;
  match r with
  | None => Ret None
  | Some (table, ranked) =>
      table ← (if ranked || select_p_node_ranking table then _reorder_nodes_by_rank table else _reorder_nodes_by_name table);
      Ret (Some table)
  end.
End tables.
