(* ===== verification/NodeOrderProps.v ===== *)
(** * The node table is in order

    The selection sorts of [read_slurm_conf] order the table, by name or by rank,
    without losing a record; on a three-dimensional torus the order follows the
    Hilbert curve. *)

From S2P Require Import Prelude NatCmp Hilbert HilbertFacts HilbertProps HilbertCurve NodeOrder.

Local Open Scope Z_scope.
Local Open Scope slurm_scope.

(** ** Selection sort *)

Section selection.
Context {A : Type} (P : node_record A -> Prop) (R : node_record A -> node_record A -> Prop).
Context (R_refl : forall x, P x -> R x x) (R_trans : forall x y z, P x -> P y -> P z -> R x y -> R y z -> R x z).

(** The first [k] records are in place. *)
Definition placed (k : Z) (table : list (node_record A)) : Prop :=
  forall i j x y, (i < j)%nat -> Z.of_nat i < k -> table !! i = Some x -> table !! j = Some y -> R x y.

Definition least_from (i : Z) (table : list (node_record A)) (m : Z) : Prop :=
  i <= m < Z.of_nat (length table) /\ forall j x y, i <= Z.of_nat j -> table !! j = Some y -> table !! Z.to_nat m = Some x -> R x y.

Lemma swap_spec (table : list (node_record A)) i m : 0 <= i -> i <= m < Z.of_nat (length table) ->
  exists x y, table !! Z.to_nat i = Some x /\ table !! Z.to_nat m = Some y /\
    swap_records table i m = Ret (<[Z.to_nat m := x]> (<[Z.to_nat i := y]> table)) /\ <[Z.to_nat m := x]> (<[Z.to_nat i := y]> table) ≡ₚ table.
Proof using.
  intros Hi Hm. destruct (lookup_lt_is_Some_2 table (Z.to_nat i)) as [x Hx]; [lia|]. destruct (lookup_lt_is_Some_2 table (Z.to_nat m)) as [y Hy]; [lia|].
  exists x, y. split; [done|]. split; [done|]. unfold swap_records. destruct (Z.eqb_spec m i) as [->|Hne].
  - rewrite Hx in Hy. injection Hy as <-. by rewrite !(list_insert_id _ _ _ Hx).
  - rewrite (aget_lookup _ _ _ Hi Hx), (aget_lookup _ _ y) by (done || lia). cbn [mbind exec_bind]. split.
    + apply wp_eq, wp_bind, wp_aset; [lia|]. apply wp_aset; [rewrite length_insert; lia|done].
    + by apply Permutation_insert_swap.
Qed.

Lemma selection_sort table (body : Z -> list (node_record A) -> exec (list (node_record A))) :
  (forall i t, 0 <= i < Z.of_nat (length table) -> t ≡ₚ table -> exists m, least_from i t m /\ body i t = swap_records t i m) ->
  exists t, for_while (fun _ => true) body (length table) 0 table = Ret t /\ t ≡ₚ table /\
    forall i j x y, (i < j)%nat -> t !! i = Some x -> t !! j = Some y -> R x y.
Proof using.
  intros Hfind. apply wp_inv. eapply (wp_for (fun k t => t ≡ₚ table /\ placed k t)).
  - split; [done|]. intros i j x y Hij Hi. lia.
  - intros k t Hk [Ht Hpl] _. destruct (Hfind k t ltac:(lia) Ht) as (m & [Hm Hle] & ->). pose proof (Permutation_length Ht) as Hlen.
    destruct (swap_spec t k m ltac:(lia) Hm) as (x & y & Hx & Hy & -> & Hp). split; [by rewrite Hp|].
    set (t' := <[Z.to_nat m := x]> (<[Z.to_nat k := y]> t)) in *.
    assert (Hold : forall j v, t' !! j = Some v -> exists j', t !! j' = Some v /\ ((j < Z.to_nat k)%nat -> j' = j) /\ ((Z.to_nat k <= j)%nat -> (Z.to_nat k <= j')%nat)).
    { intros j v Hj. unfold t' in Hj. destruct (decide (j = Z.to_nat m)) as [->|].
      - rewrite list_lookup_insert_eq in Hj by (rewrite length_insert; lia). injection Hj as <-. exists (Z.to_nat k). split; [done|lia].
      - rewrite list_lookup_insert_ne in Hj by done. destruct (decide (j = Z.to_nat k)) as [->|].
        + rewrite list_lookup_insert_eq in Hj by lia. injection Hj as <-. exists (Z.to_nat m). split; [done|lia].
        + rewrite list_lookup_insert_ne in Hj by done. by exists j. }
    intros i j u v Hij Hi Hu Hv. destruct (Hold j v Hv) as (j' & Hj' & Hjl & Hjr). destruct (decide (i < Z.to_nat k)%nat) as [Hik|Hik].
    + destruct (Hold i u Hu) as (i' & Hi' & Hil & _). rewrite (Hil Hik) in Hi'. apply (Hpl i j' u v); [destruct (decide (j < Z.to_nat k)%nat); [rewrite Hjl by done|specialize (Hjr ltac:(lia))]; lia|lia|done|done].
    + assert (i = Z.to_nat k) as -> by lia. assert (u = y) as ->.
      { unfold t' in Hu. destruct (decide (m = k)) as [->|].
        - rewrite list_lookup_insert_eq in Hu by (rewrite length_insert; lia). congruence.
        - rewrite list_lookup_insert_ne, list_lookup_insert_eq in Hu by lia. congruence. }
      apply (Hle j'); [specialize (Hjr ltac:(lia)); lia|done|done].
  - intros k t Hk [Ht Hpl] [->|]; [|done]. split; [done|]. intros i j x y Hij Hx Hy. apply (Hpl i j); [done| |done|done].
    apply lookup_lt_Some in Hx. pose proof (Permutation_length Ht). lia.
Qed.

(** The search for the least record, with any test that is false when the record so
    far is at most the next one. *)
Lemma least_step i t m j x y (b : bool) : Forall P t -> 0 <= i <= m -> m < j < Z.of_nat (length t) -> t !! Z.to_nat m = Some x -> t !! Z.to_nat j = Some y ->
  (forall q z, i <= Z.of_nat q < j -> t !! q = Some z -> R x z) -> (if b then R y x else R x y) ->
  exists w, t !! Z.to_nat (if b then j else m) = Some w /\ forall q z, i <= Z.of_nat q < j + 1 -> t !! q = Some z -> R w z.
Proof using R_refl R_trans.
  intros HP Hm Hj Hx Hy Hq Hb. assert (HPl : forall q z, t !! q = Some z -> P z) by (intros q z; by apply Forall_lookup_1). destruct b.
  - exists y. split; [done|]. intros q z Hr Hz. destruct (decide (Z.of_nat q = j)) as [Eq|].
    + replace (Z.to_nat j) with q in Hy by lia. assert (z = y) as -> by congruence. apply R_refl. eauto.
    + apply (R_trans y x z); eauto. apply (Hq q z); [lia|done].
  - exists x. split; [done|]. intros q z Hr Hz. destruct (decide (Z.of_nat q = j)) as [Eq|]; [replace (Z.to_nat j) with q in Hy by lia; congruence|]. apply (Hq q z); [lia|done].
Qed.
End selection.

(** ** By name *)

Section orders.
Context {A : Type}.
Implicit Types (table : list (node_record A)).

Definition plain_name (x : node_record A) : Prop := plain (nr_name x).
Definition name_le (x y : node_record A) : Prop := strnatcmp (nr_name x) (nr_name y) <= 0.

Lemma name_le_refl (x : node_record A) : plain_name x -> name_le x x.
Proof using. intros Hx. unfold name_le. rewrite (proj2 (strnatcmp_eq _ _ Hx Hx) eq_refl). done. Qed.

Lemma name_le_trans (x y z : node_record A) : plain_name x -> plain_name y -> plain_name z -> name_le x y -> name_le y z -> name_le x z.
Proof using. apply strnatcmp_trans. Qed.

Lemma by_name_spec table : Forall plain_name table -> exists t, _reorder_nodes_by_name table = Ret t /\ t ≡ₚ table /\
  forall i j x y, (i < j)%nat -> t !! i = Some x -> t !! j = Some y -> name_le x y.
Proof using.
  intros HP. unfold _reorder_nodes_by_name. cbv zeta. rewrite Nat2Z.id.
  apply (selection_sort name_le). intros i t Hi Ht. pose proof (Permutation_length Ht) as Hlen. assert (HPt : Forall plain_name t) by (by rewrite Ht).
  match goal with |- exists m, _ /\ mbind _ ?e = _ => assert (Hwp : wp e (least_from name_le i t)) end.
  2: { apply wp_inv in Hwp as (m & -> & Hm). by exists m. }
  eapply (wp_for (fun j m => i <= m < j /\ exists x, t !! Z.to_nat m = Some x /\ forall q z, i <= Z.of_nat q < j -> t !! q = Some z -> name_le x z)).
  - split; [lia|]. destruct (lookup_lt_is_Some_2 t (Z.to_nat i)) as [x Hx]; [lia|]. exists x. split; [done|]. intros q z Hq Hz. replace (Z.to_nat i) with q in Hx by lia.
    assert (z = x) as -> by congruence. apply name_le_refl. by eapply (Forall_lookup_1 plain_name).
  - intros j m Hj (Hm & x & Hx & Hq) _. destruct (lookup_lt_is_Some_2 t (Z.to_nat j)) as [y Hy]; [lia|].
    rewrite (aget_lookup t j y), (aget_lookup t m x) by (done || lia). cbn [mbind exec_bind]. set (b := strnatcmp (nr_name y) (nr_name x) <? 0).
    destruct (least_step plain_name name_le name_le_refl name_le_trans i t m j x y b HPt) as (w & Hw & Hwq); [lia|lia|done|done|done| |].
    { assert (Hpx : plain_name x) by (by eapply (Forall_lookup_1 plain_name)). assert (Hpy : plain_name y) by (by eapply (Forall_lookup_1 plain_name)).
      unfold b, name_le. pose proof (strnatcmp_anti _ _ Hpx Hpy). destruct (Z.ltb_spec (strnatcmp (nr_name y) (nr_name x)) 0); lia. }
    split; [destruct b; lia|]. eauto.
  - intros j m Hj (Hm & x & Hx & Hq) [Ej|]; [|done]. split; [lia|]. intros q u v Hiq Hv Hu. assert (u = x) as -> by congruence.
    apply (Hq q v); [apply lookup_lt_Some in Hv; lia|done].
Qed.

(** ** By rank *)

Definition rank_le (x y : node_record A) : Prop := nr_rank x <= nr_rank y.

Lemma by_rank_spec table : exists t, _reorder_nodes_by_rank table = Ret t /\ t ≡ₚ table /\
  forall i j x y, (i < j)%nat -> t !! i = Some x -> t !! j = Some y -> rank_le x y.
Proof using.
  unfold _reorder_nodes_by_rank. cbv zeta. rewrite Nat2Z.id.
  assert (Hrefl : forall x : node_record A, True -> rank_le x x) by (intros; unfold rank_le; lia).
  assert (Htrans : forall x y z : node_record A, True -> True -> True -> rank_le x y -> rank_le y z -> rank_le x z) by (unfold rank_le; intros; lia).
  apply (selection_sort rank_le). intros i t Hi Ht. pose proof (Permutation_length Ht) as Hlen. destruct (lookup_lt_is_Some_2 t (Z.to_nat i)) as [x0 Hx0]; [lia|].
  rewrite (aget_lookup t i x0) by (done || lia). cbn [mbind exec_bind].
  match goal with |- exists m, _ /\ mbind _ ?e = _ => assert (Hwp : wp e (fun r => least_from rank_le i t r.2)) end.
  2: { apply wp_inv in Hwp as ([v m] & -> & Hm). by exists m. }
  eapply (wp_for (fun j '(v, m) => i <= m < j /\ exists x, t !! Z.to_nat m = Some x /\ v = nr_rank x /\ forall q z, i <= Z.of_nat q < j -> t !! q = Some z -> rank_le x z)).
  - split; [lia|]. exists x0. split; [done|]. split; [done|]. intros q z Hq Hz. replace (Z.to_nat i) with q in Hx0 by lia. assert (z = x0) as -> by congruence. by apply Hrefl.
  - intros j [v m] Hj (Hm & x & Hx & -> & Hq) _. destruct (lookup_lt_is_Some_2 t (Z.to_nat j)) as [y Hy]; [lia|].
    rewrite (aget_lookup t j y) by (done || lia). cbn [mbind exec_bind]. set (b := nr_rank y <? nr_rank x).
    destruct (least_step (fun _ => True) rank_le Hrefl Htrans i t m j x y b) as (w & Hw & Hwq); [by apply Forall_true|lia|lia|done|done|done| |].
    { unfold b, rank_le. destruct (Z.ltb_spec (nr_rank y) (nr_rank x)); lia. }
    destruct b; (split; [lia|]); exists w; (split; [done|]); (split; [congruence|done]).
  - intros j [v m] Hj (Hm & x & Hx & -> & Hq) [Ej|]; [|done]. split; [cbn; lia|]. cbn [snd]. intros q u w Hiq Hw Hu. assert (u = x) as -> by congruence.
    apply (Hq q w); [apply lookup_lt_Some in Hw; lia|done].
Qed.
End orders.

(** ** The torus *)

(** The position that a name ends with: three characters, each a coordinate below 32. *)
Definition place (name : cstr) (p : point) : Prop :=
  exists pre c0 c1 c2, name = pre ++ [c0; c1; c2] /\ p = (select_char2coord c0, select_char2coord c1, select_char2coord c2) /\
    Forall (fun x => 0 <= x < 2 ^ 5) (list3 p).

Lemma name_coords_place name p : place name p -> name_coords name = Ret (Some (list3 p)).
Proof.
  intros (pre & c0 & c1 & c2 & -> & -> & Hr). cbn [list3] in *. rewrite !Forall_cons in Hr. destruct Hr as (H0 & H1 & H2 & _).
  unfold name_coords. rewrite length_app. cbn [length]. rewrite (proj2 (Z.ltb_ge _ _)) by lia. cbn [for_down].
  assert (Hget : forall k c, [c0; c1; c2] !! k = Some c -> forall n, n = Z.of_nat (3 - k) -> aget (pre ++ [c0; c1; c2]) (Z.of_nat (length pre + 3) - n) = Ret c).
  { intros k c Hk n ->. pose proof (lookup_lt_Some _ _ _ Hk) as Hlt. cbn [length] in Hlt. apply aget_lookup; [lia|].
    rewrite lookup_app_r by lia. rewrite <- Hk. f_equal. lia. }
  rewrite (Hget 0%nat c0 eq_refl (Z.of_nat 3) eq_refl). cbn [mbind exec_bind]. rewrite (proj2 (Z.ltb_ge _ _)) by lia. cbn [mbind exec_bind].
  rewrite (Hget 1%nat c1 eq_refl (Z.of_nat 2) eq_refl). cbn [mbind exec_bind]. rewrite (proj2 (Z.ltb_ge _ _)) by lia. cbn [mbind exec_bind].
  rewrite (Hget 2%nat c2 eq_refl (Z.of_nat 1) eq_refl). cbn [mbind exec_bind]. by rewrite (proj2 (Z.ltb_ge _ _)) by lia.
Qed.

Section torus.
Context {A : Type}.
Implicit Types (table : list (node_record A)).

(** A record without its rank. *)
Definition identity (x : node_record A) : cstr * A := (nr_name x, nr_other x).

Lemma all_coords_spec table pos : Forall2 (fun x p => place (nr_name x) p) table pos ->
  exists m, all_coords table = Ret (Some (concat (map list3 pos), m)) /\ 0 <= m <= 31.
Proof using.
  induction 1 as [|x p table pos Hp _ (m & IH & Hm)]; [by exists 0|]. cbn [all_coords map concat]. rewrite (name_coords_place _ p Hp). cbn [mbind exec_bind].
  rewrite IH. cbn [mbind exec_bind]. eexists. split; [done|]. destruct Hp as (_ & _ & _ & _ & _ & _ & Hr). destruct p as [[a b] c]. cbn [list3 fold_right] in *.
  rewrite !Forall_cons in Hr. lia.
Qed.

Lemma set_ranks_spec table pos : Forall2 (fun x p => place (nr_name x) p) table pos ->
  exists t, set_ranks table (concat (map list3 pos)) = Ret t /\ map identity t = map identity table /\
    Forall2 (fun x p => 0 <= nr_rank x < 2 ^ 15 /\ point_of (nr_rank x) = p /\ place (nr_name x) p) t pos.
Proof using.
  induction 1 as [|x p table pos Hp _ (t & IH & Hid & Hr)]; [by exists []|]. cbn [set_ranks map concat]. pose proof Hp as (_ & _ & _ & _ & _ & _ & Hrange).
  destruct (hilbert_rank p Hrange) as (h0 & h1 & h2 & Hh & Hrk & Hpt). destruct p as [[a b] c]. cbn [list3] in *. rewrite !Forall_cons in Hrange.
  cbn [app]. change (drop 3 (a :: b :: c :: concat (map list3 pos))) with (concat (map list3 pos)). rewrite (aget_lookup _ 0 a), (aget_lookup _ 1 b), (aget_lookup _ 2 c) by (done || lia). cbn [mbind exec_bind].
  assert (Hu : forall z, 0 <= z < 2 ^ 5 -> u32 z = z) by (intros z Hz; apply Z.mod_small; lia). rewrite !Hu by lia. rewrite Hh. cbn [mbind exec_bind].
  rewrite (aget_lookup _ 0 h0), (aget_lookup _ 1 h1), (aget_lookup _ 2 h2) by (done || lia). cbn [mbind exec_bind]. rewrite IH. cbn [mbind exec_bind].
  eexists. split; [done|]. split; [cbn [map]; by rewrite Hid|]. constructor; [|done]. cbn [nr_rank nr_name]. unfold u32. rewrite Z.mod_small by lia. done.
Qed.

Lemma torus_order table pos : Forall2 (fun x p => place (nr_name x) p) table pos -> NoDup pos ->
  exists t, order_nodes Torus3d 3 true table = Ret (Some t) /\ map identity t ≡ₚ map identity table /\
    (forall i j x y, (i < j)%nat -> t !! i = Some x -> t !! j = Some y -> nr_rank x < nr_rank y) /\
    (forall x, x ∈ t -> 0 <= nr_rank x < 2 ^ 15 /\ place (nr_name x) (point_of (nr_rank x))).
Proof using.
  intros Hp Hnd. destruct (all_coords_spec table pos Hp) as (m & Hc & Hm). destruct (set_ranks_spec table pos Hp) as (t0 & Hs & Hid & Hr).
  destruct (by_rank_spec t0) as (t & Ht & Hperm & Hsorted). exists t. split.
  { unfold order_nodes, topo_generate_node_ranking, nodes_to_hilbert_curve. cbn [Z.eqb Pos.eqb negb]. rewrite Hc. cbn [mbind exec_bind].
    rewrite (proj2 (Z.ltb_ge _ _)) by lia. rewrite Hs. cbn [mbind exec_bind orb]. by rewrite Ht. }
  split; [by rewrite Hperm, Hid|].
  assert (Hin : forall x, x ∈ t -> 0 <= nr_rank x < 2 ^ 15 /\ place (nr_name x) (point_of (nr_rank x))).
  { intros x Hx. rewrite Hperm in Hx. apply list_elem_of_lookup in Hx as [i Hi]. destruct (Forall2_lookup_l _ _ _ _ _ Hr Hi) as (p & _ & Hrk & <- & Hpl). done. }
  split; [|done]. assert (Hndr : NoDup (map nr_rank t)).
  { rewrite Hperm. apply (NoDup_fmap_1 point_of). replace (point_of <$> map nr_rank t0) with pos; [done|]. clear -Hr. induction Hr as [|x p t0 pos (_ & <- & _) _ IH]; [done|]. cbn [map fmap list_fmap]. by rewrite <- IH. }
  intros i j x y Hij Hx Hy. pose proof (Hsorted i j x y Hij Hx Hy) as Hle. unfold rank_le in Hle. destruct (decide (nr_rank x = nr_rank y)) as [E|]; [|lia].
  assert (i = j); [|lia]. apply (NoDup_lookup (map nr_rank t) i j (nr_rank x) Hndr); rewrite list_lookup_fmap; [by rewrite Hx|by rewrite Hy, E].
Qed.
End torus.

(** ** Claims *)

(** C26: On a three-dimensional torus, the node table follows a Hilbert curve through
    the nodes: if every node's name ends in its three coordinates (digits, or letters
    for 10 to 31) and no two nodes have the same position, ordering the table
    succeeds, keeps every record (apart from the rank it sets), gives the nodes
    different ranks from 0 to 32767 and leaves the table in increasing order of rank;
    and nodes with consecutive ranks are neighbours: they differ by one, in one
    coordinate. *)
Theorem torus_table_follows_the_curve {A : Type} (table : list (node_record A)) pos :
  Forall2 (fun x p => place (nr_name x) p) table pos -> NoDup pos ->
  exists t, order_nodes Torus3d 3 true table = Ret (Some t) /\ map identity t ≡ₚ map identity table /\
    (forall x, x ∈ t -> 0 <= nr_rank x < 32768) /\
    (forall i j x y, (i < j)%nat -> t !! i = Some x -> t !! j = Some y -> nr_rank x < nr_rank y) /\
    (forall x y, x ∈ t -> y ∈ t -> nr_rank y = nr_rank x + 1 -> exists p q, place (nr_name x) p /\ place (nr_name y) q /\ adjacent p q).
Proof.
  intros Hp Hnd. destruct (torus_order table pos Hp Hnd) as (t & Ho & Hperm & Hs & Hin). exists t. split; [done|]. split; [done|].
  split; [intros x Hx; by apply Hin|]. split; [done|]. intros x y Hx Hy E. destruct (Hin x Hx) as [Hrx Hpx], (Hin y Hy) as [Hry Hpy].
  exists (point_of (nr_rank x)), (point_of (nr_rank y)). split; [done|]. split; [done|]. rewrite E. apply curve_continuous. lia.
Qed.

(** Four nodes "n000", "n100", "n010" and "n110", with their numbers. *)
Definition four_nodes : list (node_record Z) :=
  [mk_node [110; 48; 48; 48] 0 0; mk_node [110; 49; 48; 48] 0 1; mk_node [110; 48; 49; 48] 0 2; mk_node [110; 49; 49; 48] 0 3].
Lemma four_places : Forall2 (fun x p => place (nr_name x) p) four_nodes [(0, 0, 0); (1, 0, 0); (0, 1, 0); (1, 1, 0)].
Proof. repeat constructor; (exists [110]; eexists _, _, _; split; [reflexivity|]; split; [reflexivity|]; repeat constructor; lia). Qed.

Lemma torus_table_follows_the_curve_witness : exists t, order_nodes Torus3d 3 true four_nodes = Ret (Some t) /\ map identity t ≡ₚ map identity four_nodes.
Proof.
  destruct (torus_table_follows_the_curve four_nodes [(0, 0, 0); (1, 0, 0); (0, 1, 0); (1, 1, 0)]) as (t & Ho & Hp & _);
    [exact four_places|apply (bool_decide_unpack _); vm_compute; exact I|]. exists t. split; [exact Ho|exact Hp].
Defined.

(** C28: Without a ranking, the node table is in the natural order of the names: for names
    without spaces, ordering keeps every record, ranks included, and no name is
    before an earlier one in the order of [strnatcmp]. *)
Theorem node_table_in_natural_order {A : Type} topo dims first_run (table : list (node_record A)) :
  topo <> Torus3d -> Forall plain_name table ->
  exists t, order_nodes topo dims first_run table = Ret (Some t) /\ t ≡ₚ table /\
    forall i j x y, (i < j)%nat -> t !! i = Some x -> t !! j = Some y -> strnatcmp (nr_name x) (nr_name y) <= 0.
Proof.
  intros Ht HP. destruct (by_name_spec table HP) as (t & Hs & Hperm & Hle). exists t. split; [|done]. unfold order_nodes, topo_generate_node_ranking.
  destruct topo; [done|..]; cbn [mbind exec_bind orb select_p_node_ranking]; by rewrite Hs.
Qed.

Lemma node_table_in_natural_order_witness :
  exists t, order_nodes TopoTree 1 true [mk_node [110; 49; 48] 0 tt; mk_node [110; 57] 0 tt] = Ret (Some t) /\ t ≡ₚ [mk_node [110; 49; 48] 0 tt; mk_node [110; 57] 0 tt].
Proof.
  destruct (node_table_in_natural_order TopoTree 1 true [mk_node [110; 49; 48] 0 tt; mk_node [110; 57] 0 tt]) as (t & Ho & Hp & _); [done|repeat constructor; lia|].
  exists t. split; [exact Ho|exact Hp].
Defined.

(** "n9" is before "n10". *)
Example nine_before_ten : order_nodes TopoTree 1 true [mk_node [110; 49; 48] 0 tt; mk_node [110; 57] 0 tt] = Ret (Some [mk_node [110; 57] 0 tt; mk_node [110; 49; 48] 0 tt]).
Proof. reflexivity. Qed.

(** A name that does not end in coordinates is fatal on a torus; so is a coordinate
    above 31. *)
Example bad_positions_are_fatal : order_nodes Torus3d 3 true [mk_node [110; 48; 48; 97] 0 tt] = Ret None /\ order_nodes Torus3d 3 true [mk_node [110; 48; 48; 90] 0 tt] = Ret None.
Proof. split; reflexivity. Qed.
