(* ===== verification/Backfill.v ===== *)
(** * The backfill scheduler's table of free nodes: src/plugins/sched/backfill/backfill.c

    The scheduler plans the start of pending jobs on a table of time intervals, each
    with the nodes that are free in it: records of an array that are linked by
    index, in the order of time.  [_add_reservation] takes the nodes of a planned
    job out of the intervals that the job uses. *)

From S2P Require Import Prelude Bitstring.

Local Open Scope Z_scope.
Local Open Scope slurm_scope.

Record node_space_map : Type := Space {
  begin_time : Z;
  end_time : Z;
  avail_bitmap : option bitstr;
  next : Z
}.

Definition no_space : node_space_map := Space 0 0 None 0.

(** The bitmap of a record; [None] is a null pointer. *)
Definition space_bitmap (r : node_space_map) : exec bitstr := match avail_bitmap r with Some b => Ret b | None => Fault end.

Definition set_end (r : node_space_map) (t : Z) : node_space_map := Space (begin_time r) t (avail_bitmap r) (next r).
Definition set_next (r : node_space_map) (i : Z) : node_space_map := Space (begin_time r) (end_time r) (avail_bitmap r) i.
Definition set_bitmap (r : node_space_map) (b : option bitstr) : node_space_map := Space (begin_time r) (end_time r) b (next r).

(** The table at the start of a cycle. *)
Definition init_space (max_backfill_job_cnt sched_start backfill_window : Z) (avail_node_bitmap : bitstr) : exec (list node_space_map * Z) :=
  avail ← bit_copy avail_node_bitmap;
  node_space ← aset (replicate (Z.to_nat (max_backfill_job_cnt * 2 + 1)) no_space) 0
                 (Space sched_start (sched_start + backfill_window) (Some avail) 0);
  Ret (node_space, 1).

(** Record [i] takes over what record [j] covers from time [t] on. *)
Definition insert_record (node_space : list node_space_map) (i j t : Z) : exec (list node_space_map) :=
  rj ← aget node_space j;
  b ← space_bitmap rj;
  copy ← bit_copy b;
  node_space ← aset node_space i (Space t (end_time rj) (Some copy) (next rj));
  aset node_space j (set_next (set_end rj t) i).

(** The search for the end of the reservation, from the record after [j]. *)
Definition place_end (end_reserve : Z) (node_space : list node_space_map) (recs j : Z) : exec (list node_space_map * Z) :=
  loop (S (length node_space)) (fun j =>
    rj ← aget node_space j;
    let j := next rj in
    if j =? 0 then Ret (inr (node_space, recs)) else
    rj ← aget node_space j;
    if end_reserve <? end_time rj then
      node_space ← insert_record node_space recs j end_reserve;
      Ret (inr (node_space, recs + 1))
    else if end_reserve =? end_time rj then Ret (inr (node_space, recs))
    else Ret (inl j)) j.

(** The search for the start. *)
Definition place_start (start_time end_reserve : Z) (node_space : list node_space_map) (recs : Z) : exec (list node_space_map * Z) :=
  loop (S (length node_space)) (fun j =>
    rj ← aget node_space j;
    if start_time <? end_time rj then
      node_space ← insert_record node_space recs j start_time;
      r ← place_end end_reserve node_space (recs + 1) j;
      Ret (inr r)
    else if end_time rj =? start_time then
      r ← place_end end_reserve node_space recs j;
      Ret (inr r)
    else if next rj =? 0 then Ret (inr (node_space, recs)) else Ret (inl (next rj))) 0.

(** The nodes of the job are taken out of the intervals within the reservation. *)
Definition restrict (start_time end_reserve : Z) (res_bitmap : bitstr) (node_space : list node_space_map) : exec (list node_space_map) :=
  loop (S (length node_space)) (fun '(j, node_space) =>
    rj ← aget node_space j;
    node_space ← (if (start_time <=? begin_time rj) && (end_time rj <=? end_reserve) then
                    b ← space_bitmap rj; b ← bit_and b res_bitmap; aset node_space j (set_bitmap rj (Some b))
                  else Ret node_space);
    if end_reserve <=? begin_time rj then Ret (inr node_space)
    else if next rj =? 0 then Ret (inr node_space) else Ret (inl (next rj, node_space))) (0, node_space).

(** The first two neighbours with the same nodes become one record. *)
Definition merge_one (node_space : list node_space_map) : exec (list node_space_map) :=
  loop (S (length node_space)) (fun i =>
    ri ← aget node_space i;
    let j := next ri in
    if j =? 0 then Ret (inr node_space) else
    rj ← aget node_space j;
    bi ← space_bitmap ri;
    bj ← space_bitmap rj;
    same ← bit_equal bi bj;
    if negb same then Ret (inl j) else
    node_space ← aset node_space i (set_next (set_end ri (end_time rj)) (next rj));
    _ ← bit_free bj;
    rj ← aget node_space j;
    node_space ← aset node_space j (set_bitmap rj None);
    Ret (inr node_space)) 0.

Definition _add_reservation (start_time end_reserve : Z) (res_bitmap : bitstr) (node_space : list node_space_map) (recs : Z) :
    exec (list node_space_map * Z) :=
  r0 ← aget node_space 0;
  let start_time := u32 (Z.max start_time (begin_time r0)) in
  '(node_space, recs) ← place_start start_time end_reserve node_space recs;
  node_space ← restrict start_time end_reserve res_bitmap node_space;
  node_space ← merge_one node_space;
  Ret (node_space, recs).

Definition _test_resv_overlap (node_space : list node_space_map) (use_bitmap : bitstr) (start_time end_reserve : Z) : exec bool :=
  loop (S (length node_space)) (fun j =>
    rj ← aget node_space j;
    overlap ← (if (start_time <? end_time rj) && (begin_time rj <? end_reserve) then
                 b ← space_bitmap rj; super ← bit_super_set use_bitmap b; Ret (negb super)
               else Ret false);
    if overlap : bool then Ret (inr true)
    else if next rj =? 0 then Ret (inr false) else Ret (inl (next rj))) 0.

(** The next record, or the end, of the loop over the table. *)
Definition usable_step (start_res end_time' : Z) (ns : list node_space_map) (st : Z * bitstr * Z) : exec (Z * bitstr * Z + bitstr * Z) :=
  let '(j, avail, later_start) := st in
  rj ← aget ns j;
  let later_start := if (start_res <? end_time rj) && negb (next rj =? 0) && (later_start =? 0) then end_time rj else later_start in
  if end_time rj <=? start_res then
    if next rj =? 0 then Ret (inr (avail, later_start)) else Ret (inl (next rj, avail, later_start))
  else if begin_time rj <=? end_time' then
    b ← space_bitmap rj;
    avail ← bit_and avail b;
    if next rj =? 0 then Ret (inr (avail, later_start)) else Ret (inl (next rj, avail, later_start))
  else Ret (inr (avail, later_start)).

(** The nodes of [avail] that are free from [start_res] to [end_time'], and the end of
    the first interval that ends later than [start_res], if another one follows. *)
Definition usable_nodes (node_space : list node_space_map) (avail : bitstr) (start_res end_time' : Z) : exec (bitstr * Z) :=
  loop (S (length node_space)) (usable_step start_res end_time' node_space) (0, avail, 0).

(** What becomes of a job that is to start later. *)
Inductive verdict := TableFull | TryLater | NotReserved | Reserved.

(** The end of a job's round in [_attempt_backfill]: the table is full, the job overlaps
    a planned one, no reservation is wanted for it (its QOS, or the number of
    reservations of its partition: [reserve]), or its nodes are reserved.
    [bb_wait]: it waits for a burst buffer. *)
Definition plan_job (max_backfill_job_cnt now job_start : Z) (bb_wait reserve : bool) (start_time end_reserve : Z) (avail : bitstr)
    (node_space : list node_space_map) (recs : Z) : exec (verdict * list node_space_map * Z) :=
  if max_backfill_job_cnt <=? recs then Ret (TableFull, node_space, recs) else
  overlap ← (if (now <? job_start) && negb bb_wait then _test_resv_overlap node_space avail start_time end_reserve else Ret false);
  if overlap : bool then Ret (TryLater, node_space, recs) else
  if negb reserve then Ret (NotReserved, node_space, recs) else
  res ← bit_not avail;
  '(node_space, recs) ← _add_reservation start_time end_reserve res node_space recs;
  Ret (Reserved, node_space, recs).
