(* ===== verification/BackfillFacts.v ===== *)
(** * The table of free nodes as a list of intervals

    The chain of records that a table links, as a list of intervals with their
    nodes, and what the steps of [_add_reservation] do to it. *)

From S2P Require Import Prelude Bitstring BitstringFacts BitstringCount Backfill.

Local Open Scope Z_scope.
Local Open Scope slurm_scope.

Lemma aget_nat {A : Type} (l : list A) j x : l !! j = Some x -> aget l (Z.of_nat j) = Ret x.
Proof. intros Hj. apply aget_lookup; [lia|]. by rewrite Nat2Z.id. Qed.

Lemma aset_nat {A : Type} (l : list A) j x : (j < length l)%nat -> aset l (Z.of_nat j) x = Ret (<[j := x]> l).
Proof. intros Hj. apply wp_eq, wp_aset; [lia|]. by rewrite Nat2Z.id. Qed.

(** ** Intervals *)

Record interval : Type := Interval { iv_begin : Z; iv_end : Z; iv_nodes : bitstr }.

(** Records [l] of the table hold the intervals [L]; the last one links to [nxt]. *)
Fixpoint linked (ns : list node_space_map) (l : list nat) (L : list interval) (nxt : nat) : Prop :=
  match l, L with
  | [], [] => True
  | j :: l', s :: L' => ns !! j = Some (Space (iv_begin s) (iv_end s) (Some (iv_nodes s)) (Z.of_nat (hd nxt l'))) /\ linked ns l' L' nxt
  | _, _ => False
  end.

Lemma linked_app ns l1 l2 L nxt : linked ns (l1 ++ l2) L nxt <-> exists L1 L2, L = L1 ++ L2 /\ linked ns l1 L1 (hd nxt l2) /\ linked ns l2 L2 nxt.
Proof.
  revert L. induction l1 as [|j l1 IH]; intros L; cbn [app linked].
  - split; [intros H; by exists [], L|]. intros (L1 & L2 & -> & H1 & H2). by destruct L1.
  - destruct L as [|s L]; [split; [done|]; intros (L1 & L2 & E & H1 & _); by destruct L1|]. rewrite IH.
    assert (Eh : hd nxt (l1 ++ l2) = hd (hd nxt l2) l1) by (by destruct l1). rewrite Eh. split.
    + intros (Hj & L1 & L2 & -> & H1 & H2). exists (s :: L1), L2. done.
    + intros (L1 & L2 & E & H1 & H2). destruct L1 as [|s' L1]; [done|]. cbn [app] in E. injection E as -> ->. destruct H1 as [Hj H1]. split; [done|]. eauto.
Qed.

Lemma linked_insert ns l L nxt i r : linked ns l L nxt -> i ∉ l -> linked (<[i := r]> ns) l L nxt.
Proof.
  revert L. induction l as [|j l IH]; intros [|s L]; cbn [linked]; try done. intros [Hj Hl] [Hi Hil]%not_elem_of_cons.
  split; [by rewrite list_lookup_insert_ne|by apply IH].
Qed.

(** Intervals that follow each other from [b] to [e]. *)
Fixpoint covers (b : Z) (L : list interval) (e : Z) : Prop :=
  match L with [] => b = e | s :: L => iv_begin s = b /\ b <= iv_end s /\ covers (iv_end s) L e end.

Lemma covers_app b L1 L2 e : covers b (L1 ++ L2) e <-> exists m, covers b L1 m /\ covers m L2 e.
Proof.
  revert b. induction L1 as [|s L1 IH]; intros b; cbn [app covers]; [split; [eauto|]; by intros (m & -> & H)|].
  rewrite IH. split; [intros (Hb & Hle & m & H1 & H2); eauto|]. intros (m & (Hb & Hle & H1) & H2). eauto.
Qed.

Lemma covers_range b L e s : covers b L e -> s ∈ L -> b <= iv_begin s <= iv_end s /\ iv_end s <= e.
Proof.
  revert b. induction L as [|x L IH]; intros b Hc Hs; [by apply not_elem_of_nil in Hs|]. destruct Hc as (Hb & Hle & Hc).
  assert (Hlast : forall b' L', covers b' L' e -> b' <= e) by (intros b' L'; revert b'; induction L' as [|y L' IH']; intros b' H; [cbn in H; lia|]; destruct H as (? & ? & H); apply IH' in H; lia).
  apply elem_of_cons in Hs as [->|Hs]; [apply Hlast in Hc; lia|]. specialize (IH _ Hc Hs). lia.
Qed.

Lemma covers_le b L e : covers b L e -> b <= e.
Proof. revert b. induction L as [|x L IH]; intros b Hc; [by apply Z.eq_le_incl|]. destruct Hc as (_ & Hle & Hc). apply IH in Hc. lia. Qed.

Lemma covers_at b L e t : covers b L e -> b <= t < e -> exists x, x ∈ L /\ iv_begin x <= t < iv_end x.
Proof.
  revert b. induction L as [|y L IH]; intros b Hc Ht; [cbn in Hc; lia|]. destruct Hc as (Hb & Hle & Hc).
  destruct (decide (t < iv_end y)); [exists y; split; [left|lia]|]. destruct (IH (iv_end y)) as (x & Hx & Hr); [done|lia|]. exists x. split; [by right|done].
Qed.

(** Node [n] is free at time [t]. *)
Definition free_at (L : list interval) (t n : Z) : bool := existsb (fun s => (iv_begin s <=? t) && (t <? iv_end s) && bs_mem (iv_nodes s) n) L.

Lemma free_at_app L1 L2 t n : free_at (L1 ++ L2) t n = free_at L1 t n || free_at L2 t n.
Proof. apply existsb_app. Qed.

Lemma free_at_split b e t0 m1 m2 t n : b <= t0 <= e -> bs_mem m2 n = bs_mem m1 n ->
  free_at [Interval b t0 m1; Interval t0 e m2] t n = free_at [Interval b e m1] t n.
Proof. intros Ht Hm. unfold free_at. cbn [existsb iv_begin iv_end iv_nodes]. rewrite Hm. destruct (bs_mem m1 n); [|by rewrite !andb_false_r]. rewrite !andb_true_r. lia. Qed.

(** No interval has [c] inside it. *)
Definition cut_at (c : Z) (L : list interval) : Prop := Forall (fun s => iv_end s <= c \/ c <= iv_begin s) L.

(** The same nodes are free. *)
Definition same_free (L L' : list interval) : Prop := forall t n, 0 <= n -> free_at L' t n = free_at L t n.

Lemma same_free_middle L1 L2 M M' : same_free M M' -> same_free (L1 ++ M ++ L2) (L1 ++ M' ++ L2).
Proof. intros H t n Hn. rewrite !free_at_app. by rewrite H. Qed.

(** An interval in two. *)
Lemma split_interval L1 s L2 t m lo hi : covers lo (L1 ++ s :: L2) hi -> iv_begin s <= t <= iv_end s -> (forall i, 0 <= i -> bs_mem m i = bs_mem (iv_nodes s) i) ->
  let L' := L1 ++ Interval (iv_begin s) t (iv_nodes s) :: Interval t (iv_end s) m :: L2 in
  same_free (L1 ++ s :: L2) L' /\ cut_at t L' /\ forall c, cut_at c (L1 ++ s :: L2) -> cut_at c L'.
Proof.
  intros Hc Ht Hm L'. split; [|split].
  - apply (same_free_middle L1 L2 [s] [Interval (iv_begin s) t (iv_nodes s); Interval t (iv_end s) m]). intros u n Hn. destruct s as [b e ns]. apply free_at_split; [done|]. by apply Hm.
  - apply covers_app in Hc as (c & Hc1 & Hsb & Hse & Hc2). unfold cut_at, L'. rewrite Forall_app, !Forall_cons, !Forall_forall. cbn [iv_begin iv_end].
    split; [intros x Hx; apply (covers_range _ _ _ _ Hc1) in Hx; lia|]. split; [lia|]. split; [lia|]. intros x Hx. apply (covers_range _ _ _ _ Hc2) in Hx. lia.
  - intros c Hcut. unfold cut_at, L' in *. rewrite Forall_app, !Forall_cons in *. cbn [iv_begin iv_end]. destruct Hcut as (H1 & Hs & H2). split; [done|]. split; [lia|]. split; [lia|done].
Qed.

(** ** Tables *)

Section tables.
Context (bits lo hi : Z).

(** A bitmap of [bits] nodes, on the heap. *)
Definition nodes_ok (b : bitstr) : Prop := bs_wf b /\ bs_magic b = BITSTR_MAGIC /\ bs_bits b = bits.

(** Table [ns] with [recs] used records: its chain [l] holds the intervals [L], which
    cover the time from [lo] to [hi]. *)
Record table (ns : list node_space_map) (recs : Z) (l : list nat) (L : list interval) : Prop := {
  tb_linked : linked ns l L 0;
  tb_head : exists l', l = 0%nat :: l';
  tb_nodup : NoDup l;
  tb_used : Forall (fun j => Z.of_nat j < recs) l;
  tb_size : 0 < recs <= Z.of_nat (length ns);
  tb_covers : covers lo L hi;
  tb_nodes : Forall (fun s => nodes_ok (iv_nodes s)) L
}.

(** Where the search in a chain is. *)
Lemma table_at ns recs l1 j l2 L : table ns recs (l1 ++ j :: l2) L ->
  exists L1 s L2, L = L1 ++ s :: L2 /\ linked ns l1 L1 j /\ linked ns l2 L2 0 /\ length l1 = length L1 /\
    ns !! j = Some (Space (iv_begin s) (iv_end s) (Some (iv_nodes s)) (Z.of_nat (hd 0%nat l2))) /\
    (j ∉ l1) /\ (j ∉ l2) /\ (forall k, k ∈ l1 -> k ∉ l2) /\ (0%nat ∉ l2) /\ (j < length ns)%nat /\ Z.of_nat j < recs.
Proof using.
  intros [Hl Hh Hn Hu Hs _ _]. apply linked_app in Hl as (L1 & L2 & -> & H1 & H2). destruct L2 as [|s L2]; [done|]. destruct H2 as [Hj H2].
  exists L1, s, L2. cbn [hd] in H1. split; [done|]. split; [done|]. split; [done|]. split.
  { clear -H1. revert L1 H1. induction l1 as [|k l1 IH]; intros [|x L1]; cbn [linked length]; try done. intros [_ H]. f_equal. by apply IH. }
  split; [done|]. apply NoDup_app in Hn as (Hn1 & Hd & [Hjl Hn2]%NoDup_cons).
  split; [intros Hin; apply (Hd j Hin); left|]. split; [done|]. split; [intros k Hk Hk2; apply (Hd k Hk); by right|]. split.
  - intros H0. destruct Hh as [l' E]. destruct l1 as [|k l1]; cbn [app] in E; injection E as -> _; [done|]. apply (Hd 0%nat); [left|by right].
  - split; [by eapply lookup_lt_Some|]. rewrite Forall_app, Forall_cons in Hu. tauto.
Qed.

(** The same with the intervals given. *)
Lemma table_split ns recs l1 j l2 L1 s L2 : length l1 = length L1 -> table ns recs (l1 ++ j :: l2) (L1 ++ s :: L2) ->
  linked ns l1 L1 j /\ linked ns l2 L2 0 /\ ns !! j = Some (Space (iv_begin s) (iv_end s) (Some (iv_nodes s)) (Z.of_nat (hd 0%nat l2))) /\
  (j ∉ l1) /\ (j ∉ l2) /\ (j < length ns)%nat /\ (0%nat ∉ l2) /\ Z.of_nat j < recs.
Proof using.
  intros Hlen Ht. destruct (table_at _ _ _ _ _ _ Ht) as (L1' & s' & L2' & E & H1 & H2 & Hlen' & Hj & Hj1 & Hj2 & Hd & H0 & Hlt & Hr).
  apply app_inj_1 in E as [<- E]; [|lia]. injection E as <- <-. done.
Qed.

Lemma insert_record_spec ns recs l1 j l2 L1 s L2 t : length l1 = length L1 -> table ns recs (l1 ++ j :: l2) (L1 ++ s :: L2) ->
  iv_begin s <= t <= iv_end s -> recs < Z.of_nat (length ns) ->
  wp (insert_record ns recs (Z.of_nat j) t) (fun ns' => exists m, (forall i, 0 <= i -> bs_mem m i = bs_mem (iv_nodes s) i) /\ length ns' = length ns /\
    table ns' (recs + 1) (l1 ++ j :: Z.to_nat recs :: l2) (L1 ++ Interval (iv_begin s) t (iv_nodes s) :: Interval t (iv_end s) m :: L2)).
Proof using.
  intros Hlen Ht Hb Hr. destruct (table_split _ _ _ _ _ _ _ _ Hlen Ht) as (H1 & H2 & Hj & Hj1 & Hj2 & Hlt & _ & Hjr). destruct Ht as [Hl Hh Hn Hu Hs Hc Hok].
  unfold insert_record. rewrite (aget_nat _ _ _ Hj). cbn [mbind exec_bind space_bitmap avail_bitmap end_time next set_next set_end begin_time].
  rewrite Forall_app, Forall_cons in Hok. destruct Hok as (Hok1 & (Hwf & Hmag & Hbits) & Hok2).
  apply wp_bind. eapply wp_mono; [by apply bit_copy_spec|]. intros m (Hmw & Hmm & Hmb & Hmem). apply wp_bind, wp_aset; [lia|]. apply wp_aset; [rewrite length_insert; lia|].
  rewrite Nat2Z.id. set (i := Z.to_nat recs). assert (Hi : i ∉ l1 ++ j :: l2).
  { intros Hin. rewrite Forall_forall in Hu. specialize (Hu i Hin). lia. }
  apply not_elem_of_app in Hi as [Hi1 [Hij Hi2]%not_elem_of_cons]. exists m. split; [done|]. split; [by rewrite !length_insert|]. constructor.
  - apply linked_app. eexists L1, _. split; [reflexivity|]. split; [by apply linked_insert, Hj1; apply linked_insert|]. cbn [linked hd iv_begin iv_end iv_nodes].
    split; [rewrite list_lookup_insert_eq by (rewrite length_insert; lia); repeat f_equal; lia|].
    split; [rewrite list_lookup_insert_ne, list_lookup_insert_eq by lia; done|]. apply linked_insert; [|done]. by apply linked_insert.
  - destruct Hh as [l' E]. destruct l1 as [|k l1]; cbn [app] in *; injection E as -> _; eauto.
  - apply NoDup_app in Hn as (Hn1 & Hd & [Hjl Hn2]%NoDup_cons). apply NoDup_app. split; [done|]. split.
    + intros k Hk. apply not_elem_of_cons. split; [by intros ->|]. apply not_elem_of_cons. split; [by intros ->|]. intros Hk2. apply (Hd k Hk). by right.
    + apply NoDup_cons. split; [apply not_elem_of_cons; done|]. by apply NoDup_cons.
  - rewrite Forall_app, Forall_cons in Hu. destruct Hu as (Hu1 & _ & Hu2). assert (Hm : forall l, Forall (fun j => Z.of_nat j < recs) l -> Forall (fun j => Z.of_nat j < recs + 1) l) by (intros l Hll; eapply Forall_impl; [exact Hll|intros; simpl in *; lia]).
    rewrite Forall_app, !Forall_cons. split; [auto|]. split; [lia|]. split; [lia|auto].
  - rewrite !length_insert. lia.
  - apply covers_app in Hc as (c & Hc1 & Hc2). apply covers_app. exists c. split; [done|]. destruct Hc2 as (Hsb & Hse & Hc2). cbn [covers iv_begin iv_end]. lia || (split; [done|]; split; [lia|]; split; [done|]; split; [lia|done]).
  - rewrite Forall_app, !Forall_cons. split; [done|]. split; [done|]. split; [|done]. split; [done|]. split; [done|]. cbn. congruence.
Qed.

(** What a placed start or end leaves. *)
Definition placed (recs k : Z) (ns : list node_space_map) (L : list interval) (r : list node_space_map * Z) (L' : list interval) : Prop :=
  recs <= r.2 <= recs + k /\ length r.1 = length ns /\ (exists l', table r.1 r.2 l' L') /\ same_free L L' /\ forall c, cut_at c L -> cut_at c L'.

Lemma placed_same recs k ns l L : 0 <= k -> table ns recs l L -> placed recs k ns L (ns, recs) L.
Proof using. intros Hk Ht. split; [cbn; lia|]. split; [done|]. split; [by exists l|]. done. Qed.

Lemma chain_length ns recs l L : table ns recs l L -> (length l <= length ns)%nat.
Proof using.
  intros [_ _ Hn Hu Hs _ _]. assert (Hsub : l ⊆+ seq 0 (length ns)).
  { apply NoDup_submseteq; [done|]. intros j Hj. rewrite Forall_forall in Hu. specialize (Hu j Hj). apply elem_of_seq. lia. }
  apply submseteq_length in Hsub. by rewrite length_seq in Hsub.
Qed.

(** The intervals before and after one of them. *)
Lemma table_next ns recs l L1 s x L2 : table ns recs l (L1 ++ s :: x :: L2) -> iv_begin x = iv_end s.
Proof using. intros Ht. pose proof (tb_covers _ _ _ _ Ht) as Hc. apply covers_app in Hc as (c & _ & _ & _ & Hx & _). done. Qed.

Lemma table_ends ns recs l L1 s L2 c : table ns recs l (L1 ++ s :: L2) -> iv_end s <= c -> (L2 = [] \/ iv_end s = c) -> cut_at c (L1 ++ s :: L2).
Proof using.
  intros Ht Hs H. pose proof (tb_covers _ _ _ _ Ht) as Hc. apply covers_app in Hc as (m & Hc1 & Hb & Hse & Hc2). apply Forall_app. split.
  - apply Forall_forall. intros x Hx. apply (covers_range _ _ _ _ Hc1) in Hx. lia.
  - apply Forall_cons. split; [lia|]. apply Forall_forall. intros x Hx. destruct H as [->|H]; [by apply not_elem_of_nil in Hx|]. apply (covers_range _ _ _ _ Hc2) in Hx. lia.
Qed.

(** The chain after record [j]. *)
Lemma table_cons ns recs l1 j l2 L1 s L2 : length l1 = length L1 -> table ns recs (l1 ++ j :: l2) (L1 ++ s :: L2) ->
  (l2 = [] /\ L2 = [] /\ Z.of_nat (hd 0%nat l2) = 0) \/
  (exists k l3 x L3, l2 = k :: l3 /\ L2 = x :: L3 /\ Z.of_nat (hd 0%nat l2) <> 0 /\ hd 0%nat l2 = k /\ length (l1 ++ [j]) = length (L1 ++ [s]) /\
     table ns recs ((l1 ++ [j]) ++ k :: l3) ((L1 ++ [s]) ++ x :: L3)).
Proof using.
  intros Hlen Ht. destruct (table_split _ _ _ _ _ _ _ _ Hlen Ht) as (H1 & H2 & Hj & Hj1 & Hj2 & Hlt & H0 & Hjr).
  destruct l2 as [|k l3], L2 as [|x L3]; try done; [by left|]. right. exists k, l3, x, L3. rewrite <- !app_assoc. cbn [app hd].
  apply not_elem_of_cons in H0 as [H0 _]. rewrite !length_app. cbn [length]. split; [done|]. split; [done|]. split; [lia|]. split; [done|]. split; [lia|done].
Qed.

Lemma place_end_spec end_reserve ns recs l2 : forall l1 j L1 s L2, length l1 = length L1 -> table ns recs (l1 ++ j :: l2) (L1 ++ s :: L2) ->
  iv_end s <= end_reserve -> recs < Z.of_nat (length ns) -> forall fuel, (length l2 < fuel)%nat ->
  wp (loop fuel (fun j =>
    rj ← aget ns j;
    let j := next rj in
    if j =? 0 then Ret (inr (ns, recs)) else
    rj ← aget ns j;
    if end_reserve <? end_time rj then
      node_space ← insert_record ns recs j end_reserve;
      Ret (inr (node_space, recs + 1))
    else if end_reserve =? end_time rj then Ret (inr (ns, recs))
    else Ret (inl j)) (Z.of_nat j)) (fun r => exists L', placed recs 1 ns (L1 ++ s :: L2) r L' /\ cut_at end_reserve L').
Proof using.
  induction l2 as [|k l3 IH]; intros l1 j L1 s L2 Hlen Ht He Hr fuel Hf; (destruct fuel as [|fuel]; [lia|]); rewrite loop_step;
    destruct (table_split _ _ _ _ _ _ _ _ Hlen Ht) as (_ & _ & Hj & _); rewrite (aget_nat _ _ _ Hj); cbn [mbind exec_bind next]; cbv zeta;
    destruct (table_cons _ _ _ _ _ _ _ _ Hlen Ht) as [(El & -> & Hz)|(k' & l3' & x & L3 & El & -> & Hz & Hk & Hlen' & Ht')]; try done.
  - rewrite Hz, Z.eqb_refl. exists (L1 ++ [s]). split; [by apply (placed_same _ 1 _ _ _ ltac:(lia) Ht)|]. by apply (table_ends _ _ _ _ _ _ _ Ht He); left.
  - rewrite (proj2 (Z.eqb_neq _ _) Hz). injection El as <- <-. rewrite Hk. destruct (table_split _ _ _ _ _ _ _ _ Hlen' Ht') as (_ & _ & Hj' & _). rewrite (aget_nat _ _ _ Hj').
    cbn [mbind exec_bind end_time]. pose proof (table_next _ _ _ _ _ _ _ Ht) as Hnx. replace (L1 ++ s :: x :: L3) with ((L1 ++ [s]) ++ x :: L3) in * by (by rewrite <- app_assoc).
    destruct (Z.ltb_spec end_reserve (iv_end x)) as [Hx|Hx]; [|destruct (Z.eqb_spec end_reserve (iv_end x)) as [Hx'|Hx']].
    + pose proof (insert_record_spec ns recs (l1 ++ [j]) k l3 (L1 ++ [s]) x L3 end_reserve Hlen' Ht' ltac:(lia) Hr) as Hw.
      apply wp_inv in Hw as (ns' & -> & m & Hm & Hl' & Ht2). cbn [mbind exec_bind].
      destruct (split_interval (L1 ++ [s]) x L3 end_reserve m lo hi (tb_covers _ _ _ _ Ht') ltac:(lia) Hm) as (Hsf & Hcut & Hkeep).
      eexists. split; [|exact Hcut]. split; [cbn; lia|]. split; [done|]. split; [eexists; exact Ht2|]. done.
    + eexists. split; [by apply (placed_same _ 1 _ _ _ ltac:(lia) Ht')|]. apply (table_ends _ _ _ _ _ _ _ Ht'); [lia|by right].
    + cbn [length] in Hf. apply (IH (l1 ++ [j]) k (L1 ++ [s]) x L3); [done|done|lia|done|lia].
Qed.

Definition cut_both (start_time end_reserve : Z) (L : list interval) : Prop := cut_at start_time L /\ cut_at end_reserve L.

Lemma start_inserted start_time end_reserve ns recs l1 j l2 L1 s L2 : length l1 = length L1 -> table ns recs (l1 ++ j :: l2) (L1 ++ s :: L2) ->
  iv_begin s <= start_time < iv_end s -> start_time <= end_reserve -> recs + 1 < Z.of_nat (length ns) ->
  exists ns' r L', insert_record ns recs (Z.of_nat j) start_time = Ret ns' /\ place_end end_reserve ns' (recs + 1) (Z.of_nat j) = Ret r /\
    placed recs 2 ns (L1 ++ s :: L2) r L' /\ cut_both start_time end_reserve L'.
Proof using.
  intros Hlen Ht Hs Hse Hr. pose proof (insert_record_spec ns recs l1 j l2 L1 s L2 start_time Hlen Ht ltac:(lia) ltac:(lia)) as Hw.
  apply wp_inv in Hw as (ns' & -> & m & Hm & Hl' & Ht2). exists ns'.
  destruct (split_interval L1 s L2 start_time m lo hi (tb_covers _ _ _ _ Ht) ltac:(lia) Hm) as (Hsf & Hcut & Hkeep).
  pose proof (chain_length _ _ _ _ Ht2) as Hcl. rewrite length_app in Hcl. cbn [length] in Hcl.
  pose proof (place_end_spec end_reserve ns' (recs + 1) (Z.to_nat recs :: l2) l1 j L1 (Interval (iv_begin s) start_time (iv_nodes s)) (Interval start_time (iv_end s) m :: L2)
    Hlen Ht2 Hse ltac:(lia) (S (length ns')) ltac:(cbn [length]; lia)) as Hw.
  apply wp_inv in Hw as (r & Hr' & L' & (Hrr & Hlr & Htr & Hsr & Hkr) & Hcr). exists r, L'. split; [done|]. split; [exact Hr'|].
  split; [|split; [by apply Hkr|done]]. split; [lia|]. split; [lia|]. split; [done|]. split; [intros t n Hn; rewrite Hsr by done; by apply Hsf|]. intros c Hc. by apply Hkr, Hkeep.
Qed.

Lemma start_found start_time end_reserve ns recs l1 j l2 L1 s L2 : length l1 = length L1 -> table ns recs (l1 ++ j :: l2) (L1 ++ s :: L2) ->
  iv_end s = start_time -> start_time <= end_reserve -> recs < Z.of_nat (length ns) ->
  exists r L', place_end end_reserve ns recs (Z.of_nat j) = Ret r /\ placed recs 2 ns (L1 ++ s :: L2) r L' /\ cut_both start_time end_reserve L'.
Proof using.
  intros Hlen Ht Hs Hse Hr. pose proof (chain_length _ _ _ _ Ht) as Hcl. rewrite length_app in Hcl. cbn [length] in Hcl.
  pose proof (place_end_spec end_reserve ns recs l2 l1 j L1 s L2 Hlen Ht ltac:(lia) ltac:(lia) (S (length ns)) ltac:(lia)) as Hw.
  apply wp_inv in Hw as (r & Hr' & L' & (Hrr & Hlr & Htr & Hsr & Hkr) & Hcr). exists r, L'. split; [exact Hr'|].
  split; [split; [lia|done]|]. split; [|done]. apply Hkr. apply (table_ends _ _ _ _ _ _ _ Ht); [lia|by right].
Qed.

Lemma place_start_spec start_time end_reserve ns recs l2 : start_time <= end_reserve -> recs + 1 < Z.of_nat (length ns) ->
  forall l1 j L1 s L2, length l1 = length L1 -> table ns recs (l1 ++ j :: l2) (L1 ++ s :: L2) ->
  iv_begin s <= start_time -> forall fuel, (length l2 < fuel)%nat ->
  wp (loop fuel (fun j =>
    rj ← aget ns j;
    if start_time <? end_time rj then
      node_space ← insert_record ns recs j start_time;
      r ← place_end end_reserve node_space (recs + 1) j;
      Ret (inr r)
    else if end_time rj =? start_time then
      r ← place_end end_reserve ns recs j;
      Ret (inr r)
    else if next rj =? 0 then Ret (inr (ns, recs)) else Ret (inl (next rj))) (Z.of_nat j))
  (fun r => exists L', placed recs 2 ns (L1 ++ s :: L2) r L' /\ cut_both start_time end_reserve L').
Proof using.
  intros Hse Hr. induction l2 as [|k l3 IH]; intros l1 j L1 s L2 Hlen Ht Hb fuel Hf; (destruct fuel as [|fuel]; [lia|]); rewrite loop_step;
    destruct (table_split _ _ _ _ _ _ _ _ Hlen Ht) as (_ & _ & Hj & _); rewrite (aget_nat _ _ _ Hj); cbn [mbind exec_bind next end_time];
    (destruct (Z.ltb_spec start_time (iv_end s)) as [Hs|Hs];
      [destruct (start_inserted start_time end_reserve _ _ _ _ _ _ _ _ Hlen Ht (conj Hb Hs) Hse Hr) as (ns' & r & L' & -> & Hpe & HL'); cbn [mbind exec_bind]; rewrite Hpe; by exists L'|];
     destruct (Z.eqb_spec (iv_end s) start_time) as [Hs'|Hs'];
      [destruct (start_found start_time end_reserve _ _ _ _ _ _ _ _ Hlen Ht Hs' Hse ltac:(lia)) as (r & L' & -> & HL'); by exists L'|]);
    destruct (table_cons _ _ _ _ _ _ _ _ Hlen Ht) as [(El & -> & Hz)|(k' & l3' & x & L3 & El & -> & Hz & Hk & Hlen' & Ht')]; try done.
  - rewrite Hz, Z.eqb_refl. eexists. split; [by apply (placed_same _ 2 _ _ _ ltac:(lia) Ht)|]. split; (apply (table_ends _ _ _ _ _ _ _ Ht); [lia|by left]).
  - rewrite (proj2 (Z.eqb_neq _ _) Hz). injection El as <- <-. rewrite Hk. pose proof (table_next _ _ _ _ _ _ _ Ht) as Hnx.
    replace (L1 ++ s :: x :: L3) with ((L1 ++ [s]) ++ x :: L3) in * by (by rewrite <- app_assoc). cbn [length] in Hf.
    apply (IH (l1 ++ [j]) k (L1 ++ [s]) x L3); [done|done|lia|lia].
Qed.
End tables.
