(* ===== verification/BackfillProps.v ===== *)
(** * Reservations of the backfill scheduler

    [_add_reservation] takes the nodes of a job out of the time of its reservation
    and out of nothing else; jobs that passed the test for overlaps never get the
    same node at the same time. *)

From S2P Require Import Prelude Bitstring BitstringFacts BitstringCount Backfill BackfillFacts.

Local Open Scope Z_scope.
Local Open Scope slurm_scope.

Section steps.
Context (bits lo hi : Z).

(** ** The nodes of the job *)

(** Record [j] with other nodes. *)
Lemma table_update ns recs l1 j l2 L1 s L2 m : length l1 = length L1 -> table bits lo hi ns recs (l1 ++ j :: l2) (L1 ++ s :: L2) -> nodes_ok bits m ->
  table bits lo hi (<[j := Space (iv_begin s) (iv_end s) (Some m) (Z.of_nat (hd 0%nat l2))]> ns) recs (l1 ++ j :: l2) (L1 ++ Interval (iv_begin s) (iv_end s) m :: L2).
Proof using.
  intros Hlen Ht Hm. destruct (table_split _ _ _ _ _ _ _ _ _ _ _ Hlen Ht) as (H1 & H2 & Hj & Hj1 & Hj2 & Hlt & _ & Hjr). destruct Ht as [Hl Hh Hn Hu Hs Hc Hok].
  constructor; [|done|done|done|by rewrite length_insert| |].
  - apply linked_app. eexists L1, _. split; [done|]. split; [by apply linked_insert|]. cbn [linked iv_begin iv_end iv_nodes]. split; [by apply list_lookup_insert_eq|by apply linked_insert].
  - apply covers_app in Hc as (c & Hc1 & Hc2). apply covers_app. by exists c.
  - rewrite Forall_app, Forall_cons in *. tauto.
Qed.

(** Whether the reservation leaves node [n] at time [t]. *)
Definition leaves (start_time end_reserve : Z) (res : bitstr) (t n : Z) : bool := implb ((start_time <=? t) && (t <? end_reserve)) (bs_mem res n).

Lemma free_at_cons s L t n : free_at (s :: L) t n = free_at [s] t n || free_at L t n.
Proof using. apply (free_at_app [s] L). Qed.

(** An interval that the reservation covers, and one that it does not. *)
Lemma within_reservation start_time end_reserve res s m t n : start_time <= iv_begin s -> iv_end s <= end_reserve ->
  bs_mem m n = bs_mem (iv_nodes s) n && bs_mem res n ->
  free_at [Interval (iv_begin s) (iv_end s) m] t n = free_at [s] t n && leaves start_time end_reserve res t n.
Proof using.
  intros Hs He Hm. unfold free_at, leaves. cbn [existsb iv_begin iv_end iv_nodes]. rewrite !orb_false_r, Hm.
  destruct (Z.leb_spec (iv_begin s) t); [|done]. destruct (Z.ltb_spec t (iv_end s)); [|done].
  rewrite (proj2 (Z.leb_le _ _)), (proj2 (Z.ltb_lt _ _)) by lia. done.
Qed.

Lemma outside_reservation start_time end_reserve res s t n : (iv_end s <= start_time \/ end_reserve <= iv_begin s) ->
  free_at [s] t n = free_at [s] t n && leaves start_time end_reserve res t n.
Proof using.
  intros Hs. unfold free_at, leaves. cbn [existsb]. rewrite !orb_false_r.
  destruct (Z.leb_spec (iv_begin s) t); [|done]. destruct (Z.ltb_spec t (iv_end s)); [|done].
  replace ((start_time <=? t) && (t <? end_reserve)) with false by lia. symmetry. apply andb_true_r.
Qed.

Lemma all_outside start_time end_reserve res b L e t n : covers b L e -> end_reserve <= b -> free_at L t n = free_at L t n && leaves start_time end_reserve res t n.
Proof using.
  revert b. induction L as [|s L IH]; intros b Hc Hb; [done|]. destruct Hc as (Hsb & Hse & Hc). rewrite free_at_cons.
  rewrite (outside_reservation start_time end_reserve res s t n) at 1 by lia. rewrite (IH _ Hc) at 1 by lia. by rewrite andb_orb_distrib_l.
Qed.

Lemma restrict_step start_time end_reserve res ns recs l1 j l2 L1 s L2 : length l1 = length L1 -> table bits lo hi ns recs (l1 ++ j :: l2) (L1 ++ s :: L2) ->
  nodes_ok bits res -> cut_both start_time end_reserve (s :: L2) ->
  exists ns' s', (if (start_time <=? iv_begin s) && (iv_end s <=? end_reserve)
    then b ← space_bitmap (Space (iv_begin s) (iv_end s) (Some (iv_nodes s)) (Z.of_nat (hd 0%nat l2)));
         b ← bit_and b res; aset ns (Z.of_nat j) (set_bitmap (Space (iv_begin s) (iv_end s) (Some (iv_nodes s)) (Z.of_nat (hd 0%nat l2))) (Some b))
    else Ret ns) = Ret ns' /\ table bits lo hi ns' recs (l1 ++ j :: l2) (L1 ++ s' :: L2) /\ length ns' = length ns /\ iv_begin s' = iv_begin s /\ iv_end s' = iv_end s /\
    forall t n, 0 <= n -> free_at [s'] t n = free_at [s] t n && leaves start_time end_reserve res t n.
Proof using.
  intros Hlen Ht (Hrw & Hrm & Hrb) [Hcs Hce]. apply Forall_cons in Hcs as [Hcs _], Hce as [Hce _].
  destruct (table_split _ _ _ _ _ _ _ _ _ _ _ Hlen Ht) as (_ & _ & _ & _ & _ & Hlt & _).
  destruct ((start_time <=? iv_begin s) && (iv_end s <=? end_reserve)) eqn:Hin.
  - pose proof (tb_nodes _ _ _ _ _ _ _ Ht) as Hok. rewrite Forall_app, Forall_cons in Hok. destruct Hok as (_ & (Hw & Hm & Hb) & _).
    cbn [space_bitmap avail_bitmap mbind exec_bind set_bitmap begin_time end_time next].
    pose proof (bit_and_spec (iv_nodes s) res Hw Hrw ltac:(congruence)) as Hand. apply wp_inv in Hand as (m & -> & [Hmw Hmm Hmb Hmem]). cbn [mbind exec_bind].
    eexists _, (Interval (iv_begin s) (iv_end s) m). split; [apply wp_eq, wp_aset; [lia|]; rewrite Nat2Z.id; reflexivity|].
    split; [apply table_update; [done|done|]; split; [done|]; split; congruence|]. split; [by rewrite length_insert|]. split; [done|]. split; [done|].
    intros t n Hn. apply within_reservation; [lia|lia|by apply Hmem].
  - exists ns, s. split; [done|]. split; [done|]. split; [done|]. split; [done|]. split; [done|]. intros t n Hn. apply outside_reservation. lia.
Qed.

Lemma restrict_spec start_time end_reserve res recs l2 : nodes_ok bits res -> forall ns l1 j L1 s L2, length l1 = length L1 ->
  table bits lo hi ns recs (l1 ++ j :: l2) (L1 ++ s :: L2) -> cut_both start_time end_reserve (s :: L2) -> forall fuel, (length l2 < fuel)%nat ->
  wp (loop fuel (fun '(j, node_space) =>
    rj ← aget node_space j;
    node_space ← (if (start_time <=? begin_time rj) && (end_time rj <=? end_reserve) then
                    b ← space_bitmap rj; b ← bit_and b res; aset node_space j (set_bitmap rj (Some b))
                  else Ret node_space);
    if end_reserve <=? begin_time rj then Ret (inr node_space)
    else if next rj =? 0 then Ret (inr node_space) else Ret (inl (next rj, node_space))) (Z.of_nat j, ns))
  (fun ns' => length ns' = length ns /\ exists L2', table bits lo hi ns' recs (l1 ++ j :: l2) (L1 ++ L2') /\
    forall t n, 0 <= n -> free_at L2' t n = free_at (s :: L2) t n && leaves start_time end_reserve res t n).
Proof using.
  intros Hres. induction l2 as [|k l3 IH]; intros ns l1 j L1 s L2 Hlen Ht Hcut fuel Hf; (destruct fuel as [|fuel]; [lia|]); rewrite loop_step;
    destruct (table_split _ _ _ _ _ _ _ _ _ _ _ Hlen Ht) as (_ & _ & Hj & _); rewrite (aget_nat _ _ _ Hj); cbn [mbind exec_bind begin_time end_time];
    destruct (restrict_step start_time end_reserve res ns recs l1 j _ L1 s L2 Hlen Ht Hres Hcut) as (ns' & s' & -> & Ht1 & Hl1 & Hsb & Hse & Hfree); cbn [mbind exec_bind next];
    destruct (Z.leb_spec end_reserve (iv_begin s)) as [He|He].
  1,3: split; [done|]; exists (s' :: L2); split; [done|]; intros t n Hn; rewrite (free_at_cons s'), (free_at_cons s), Hfree by done;
    pose proof (tb_covers _ _ _ _ _ _ _ Ht) as Hc; apply covers_app in Hc as (c & _ & Hb & Hle & Hc); rewrite (all_outside start_time end_reserve res _ _ _ t n Hc) at 1 by lia; by rewrite andb_orb_distrib_l.
  all: destruct (table_cons _ _ _ _ _ _ _ _ _ _ _ Hlen Ht1) as [(El & -> & Hz)|(k' & l3' & x & L3 & El & -> & Hz & Hk & Hlen' & Ht')]; try done.
  - rewrite Hz, Z.eqb_refl. split; [done|]. exists [s']. split; [done|]. intros t n Hn. by apply Hfree.
  - rewrite (proj2 (Z.eqb_neq _ _) Hz). injection El as <- <-. rewrite Hk. cbn [length] in Hf.
    eapply wp_mono; [apply (IH ns' (l1 ++ [j]) k (L1 ++ [s']) x L3 Hlen' Ht')|].
    + destruct Hcut as [H1 H2]. apply Forall_cons in H1 as [_ H1], H2 as [_ H2]. done.
    + lia.
    + intros ns2 [Hl2 (L2' & Ht2 & Hf2)]. split; [lia|]. exists (s' :: L2'). rewrite <- !app_assoc in Ht2. split; [exact Ht2|].
      intros t n Hn. rewrite (free_at_cons s'), (free_at_cons s), Hfree, Hf2 by done. by rewrite andb_orb_distrib_l.
Qed.

(** ** One pair of neighbours *)

Lemma table_merge ns recs l1 j k l3 L1 s x L3 r : length l1 = length L1 -> table bits lo hi ns recs (l1 ++ j :: k :: l3) (L1 ++ s :: x :: L3) ->
  table bits lo hi (<[k := r]> (<[j := Space (iv_begin s) (iv_end x) (Some (iv_nodes s)) (Z.of_nat (hd 0%nat l3))]> ns)) recs (l1 ++ j :: l3)
    (L1 ++ Interval (iv_begin s) (iv_end x) (iv_nodes s) :: L3).
Proof using.
  intros Hlen Ht. destruct (table_split _ _ _ _ _ _ _ _ _ _ _ Hlen Ht) as (H1 & H2 & Hj & Hj1 & Hj2 & Hlt & _ & Hjr). destruct Ht as [Hl Hh Hn Hu Hs Hc Hok].
  destruct H2 as [Hk H2]. apply not_elem_of_cons in Hj2 as [Hjk Hj2]. apply NoDup_app in Hn as (Hn1 & Hd & [Hjl [Hkl Hn3]%NoDup_cons]%NoDup_cons).
  assert (Hk1 : k ∉ l1) by (intros Hin; apply (Hd k Hin); right; left). constructor.
  - apply linked_app. eexists L1, _. split; [done|]. split; [by do 2 (apply linked_insert; [|done])|]. cbn [linked iv_begin iv_end iv_nodes].
    split; [rewrite list_lookup_insert_ne by done; by apply list_lookup_insert_eq|by do 2 (apply linked_insert; [|done])].
  - destruct Hh as [l' E]. destruct l1 as [|i l1]; cbn [app] in *; injection E as -> _; eauto.
  - apply NoDup_app. split; [done|]. split; [|by apply NoDup_cons]. intros i Hi. apply not_elem_of_cons. split; [by intros ->|]. intros Hi3. apply (Hd i Hi). right. by right.
  - rewrite Forall_app, !Forall_cons in *. tauto.
  - by rewrite !length_insert.
  - apply covers_app in Hc as (c & Hc1 & Hb & Hse & Hxb & Hxe & Hc3). apply covers_app. exists c. split; [done|]. cbn [covers iv_begin iv_end]. split; [done|]. split; [lia|done].
  - rewrite Forall_app, !Forall_cons in *. tauto.
Qed.

Lemma merge_one_spec ns recs l2 : forall l1 j L1 s L2, length l1 = length L1 -> table bits lo hi ns recs (l1 ++ j :: l2) (L1 ++ s :: L2) -> forall fuel, (length l2 < fuel)%nat ->
  wp (loop fuel (fun i =>
    ri ← aget ns i;
    let j := next ri in
    if j =? 0 then Ret (inr ns) else
    rj ← aget ns j;
    bi ← space_bitmap ri;
    bj ← space_bitmap rj;
    same ← bit_equal bi bj;
    if negb same then Ret (inl j) else
    node_space ← aset ns i (set_next (set_end ri (end_time rj)) (next rj));
    _ ← bit_free bj;
    rj ← aget node_space j;
    node_space ← aset node_space j (set_bitmap rj None);
    Ret (inr node_space)) (Z.of_nat j))
  (fun ns' => length ns' = length ns /\ exists l' L', table bits lo hi ns' recs l' L' /\ same_free (L1 ++ s :: L2) L').
Proof using.
  induction l2 as [|k l3 IH]; intros l1 j L1 s L2 Hlen Ht fuel Hf; (destruct fuel as [|fuel]; [lia|]); rewrite loop_step;
    destruct (table_split _ _ _ _ _ _ _ _ _ _ _ Hlen Ht) as (_ & _ & Hj & _ & _ & Hjl & _); rewrite (aget_nat _ _ _ Hj); cbn [mbind exec_bind next]; cbv zeta;
    destruct (table_cons _ _ _ _ _ _ _ _ _ _ _ Hlen Ht) as [(El & -> & Hz)|(k' & l3' & x & L3 & El & -> & Hz & Hk & Hlen' & Ht')]; try done.
  - rewrite Hz, Z.eqb_refl. split; [done|]. by exists (l1 ++ [j]), (L1 ++ [s]).
  - rewrite (proj2 (Z.eqb_neq _ _) Hz). injection El as <- <-. rewrite Hk. destruct (table_split _ _ _ _ _ _ _ _ _ _ _ Hlen' Ht') as (_ & _ & Hk' & Hkj & _ & Hkl & _).
    rewrite (aget_nat _ _ _ Hk'). cbn [mbind exec_bind space_bitmap avail_bitmap]. pose proof (tb_nodes _ _ _ _ _ _ _ Ht) as Hok. rewrite Forall_app, !Forall_cons in Hok.
    destruct Hok as (_ & (Hw & Hm & Hb) & (Hxw & Hxm & Hxb) & _). pose proof (bit_equal_spec _ _ Hw Hxw) as Heq. apply wp_inv in Heq as ([|] & -> & Heq); cbn [mbind exec_bind negb].
    + destruct Heq as [Heq _]. destruct (Heq eq_refl) as [_ Hsame]. clear Heq. apply not_elem_of_app in Hkj as [_ Hkj]. rewrite list_elem_of_singleton in Hkj.
      match goal with |- wp (match ?e with _ => _ end) _ => assert (He : exists r, e = Ret (inr (<[k := r]> (<[j := Space (iv_begin s) (iv_end x) (Some (iv_nodes s)) (Z.of_nat (hd 0%nat l3))]> ns)))) end.
      { unfold bit_free. rewrite Hxm. cbn [set_next set_end begin_time end_time avail_bitmap next]. rewrite aset_nat by done. cbn [mbind exec_bind].
        rewrite Z.eqb_refl. cbn [assert_ mbind exec_bind]. rewrite (aget_nat _ k (Space (iv_begin x) (iv_end x) (Some (iv_nodes x)) (Z.of_nat (hd 0%nat l3)))) by (rewrite list_lookup_insert_ne by done; done).
        cbn [mbind exec_bind]. rewrite aset_nat by (by rewrite length_insert). eexists. reflexivity. }
      destruct He as [r ->]. split; [by rewrite !length_insert|]. eexists _, _. split; [exact (table_merge ns recs l1 j k l3 L1 s x L3 r Hlen Ht)|].
      pose proof (table_next _ _ _ _ _ _ _ _ _ _ Ht) as Hnx. pose proof (tb_covers _ _ _ _ _ _ _ Ht) as Hc. apply covers_app in Hc as (c & _ & Hsb & Hse & _ & Hxe & _).
      apply (same_free_middle L1 L3 [s; x] [Interval (iv_begin s) (iv_end x) (iv_nodes s)]). intros t n Hn. symmetry. destruct s as [sb se sm], x as [xb xe xm]. cbn in *. subst xb.
      apply free_at_split; [lia|]. symmetry. by apply Hsame.
    + cbn [length] in Hf. eapply wp_mono; [apply (IH (l1 ++ [j]) k (L1 ++ [s]) x L3 Hlen' Ht'); lia|]. intros ns' H. by rewrite <- app_assoc in H.
Qed.

(** ** The whole reservation *)

Lemma table_start ns recs l L : table bits lo hi ns recs l L -> exists l2 s L2, l = 0%nat :: l2 /\ L = s :: L2 /\ iv_begin s = lo /\ (length l2 < S (length ns))%nat /\
  ns !! 0%nat = Some (Space (iv_begin s) (iv_end s) (Some (iv_nodes s)) (Z.of_nat (hd 0%nat l2))).
Proof using.
  intros Ht. pose proof (chain_length _ _ _ _ _ _ _ Ht) as Hcl. destruct Ht as [Hl [l2 ->] _ _ _ Hc _]. destruct L as [|s L2]; [done|]. destruct Hl as [H0 _].
  exists l2, s, L2. split; [done|]. split; [done|]. split; [by destruct Hc|]. split; [cbn [length] in Hcl; lia|done].
Qed.

Lemma add_reservation_spec start_time end_reserve res ns recs l L : table bits lo hi ns recs l L -> nodes_ok bits res ->
  0 <= Z.max start_time lo < 2 ^ 32 -> Z.max start_time lo <= end_reserve -> recs + 1 < Z.of_nat (length ns) ->
  wp (_add_reservation start_time end_reserve res ns recs) (fun '(ns', recs') => length ns' = length ns /\ recs <= recs' <= recs + 2 /\
    exists l' L', table bits lo hi ns' recs' l' L' /\ forall t n, 0 <= n -> free_at L' t n = free_at L t n && leaves start_time end_reserve res t n).
Proof using.
  intros Ht Hres Hu Hse Hr. destruct (table_start _ _ _ _ Ht) as (l2 & s & L2 & -> & -> & Hsb & Hfu & H0). unfold _add_reservation.
  rewrite (aget_lookup ns 0 _ ltac:(lia) H0). cbn [mbind exec_bind begin_time]. cbv zeta. rewrite Hsb. unfold u32. rewrite Z.mod_small by lia. set (st := Z.max start_time lo) in *.
  pose proof (place_start_spec bits lo hi st end_reserve ns recs l2 Hse Hr [] 0%nat [] s L2 eq_refl Ht ltac:(lia) (S (length ns)) Hfu) as Hw.
  apply wp_inv in Hw as ([ns1 recs1] & Hpl & L1 & (Hrr & Hlr & (l1 & Ht1) & Hsf & _) & Hcut). cbn [fst snd] in *. assert (place_start st end_reserve ns recs = Ret (ns1, recs1)) as -> by exact Hpl. cbn [mbind exec_bind].
  destruct (table_start _ _ _ _ Ht1) as (m2 & s1 & M2 & -> & -> & _ & Hfu1 & _).
  pose proof (restrict_spec st end_reserve res recs1 m2 Hres ns1 [] 0%nat [] s1 M2 eq_refl Ht1 Hcut (S (length ns1)) Hfu1) as Hw.
  apply wp_inv in Hw as (ns2 & Hre & Hl2 & L3 & Ht2 & Hf2). cbn [app] in Ht2. assert (restrict st end_reserve res ns1 = Ret ns2) as -> by exact Hre. cbn [mbind exec_bind].
  destruct (table_start _ _ _ _ Ht2) as (q2 & s2 & Q2 & E & -> & _ & Hfu2 & _). injection E as <-.
  pose proof (merge_one_spec ns2 recs1 m2 [] 0%nat [] s2 Q2 eq_refl Ht2 (S (length ns2)) Hfu2) as Hw.
  apply wp_inv in Hw as (ns3 & Hme & Hl3 & l3 & L4 & Ht3 & Hsf3). assert (merge_one ns2 = Ret ns3) as -> by exact Hme. cbn [mbind exec_bind].
  split; [lia|]. split; [lia|]. exists l3, L4. split; [done|]. intros t n Hn. rewrite Hsf3 by done. cbn [app] in *. rewrite Hf2, Hsf by done.
  destruct (free_at (s :: L2) t n) eqn:Hfr; [|done]. cbn [andb]. unfold leaves. f_equal. f_equal.
  apply existsb_exists in Hfr as (x & Hx & Hm). apply list_elem_of_In in Hx. apply (covers_range _ _ _ _ (tb_covers _ _ _ _ _ _ _ Ht)) in Hx. lia.
Qed.

(** ** The test for overlaps *)

Lemma overlap_here use start_time end_reserve ns recs l L1 s L2 nxt : table bits lo hi ns recs l (L1 ++ s :: L2) -> nodes_ok bits use ->
  exists b, (if (start_time <? iv_end s) && (iv_begin s <? end_reserve)
    then b ← space_bitmap (Space (iv_begin s) (iv_end s) (Some (iv_nodes s)) nxt); super ← bit_super_set use b; Ret (negb super) else Ret false) = Ret b /\
  (b = false -> forall t n, iv_begin s <= t < iv_end s -> start_time <= t < end_reserve -> 0 <= n -> bs_mem use n = true -> bs_mem (iv_nodes s) n = true).
Proof using.
  intros Ht (Huw & Hum & Hub). destruct ((start_time <? iv_end s) && (iv_begin s <? end_reserve)) eqn:Hin.
  - pose proof (tb_nodes _ _ _ _ _ _ _ Ht) as Hok. rewrite Forall_app, Forall_cons in Hok. destruct Hok as (_ & (Hw & Hm & Hb) & _). cbn [space_bitmap avail_bitmap mbind exec_bind].
    pose proof (bit_super_set_spec use (iv_nodes s) Huw Hw ltac:(congruence)) as Hss. apply wp_inv in Hss as (r & -> & Hss). eexists. split; [reflexivity|].
    destruct r; [|done]. intros _ t n _ _ Hn Hu. pose proof (proj1 Hss eq_refl n Hn) as Hi. by rewrite Hu in Hi.
  - exists false. split; [done|]. intros _ t n H1 H2. lia.
Qed.

Lemma overlap_spec ns recs use start_time end_reserve l2 : nodes_ok bits use -> forall l1 j L1 s L2, length l1 = length L1 -> table bits lo hi ns recs (l1 ++ j :: l2) (L1 ++ s :: L2) ->
  forall fuel, (length l2 < fuel)%nat ->
  wp (loop fuel (fun j =>
    rj ← aget ns j;
    overlap ← (if (start_time <? end_time rj) && (begin_time rj <? end_reserve) then
                 b ← space_bitmap rj; super ← bit_super_set use b; Ret (negb super)
               else Ret false);
    if overlap : bool then Ret (inr true)
    else if next rj =? 0 then Ret (inr false) else Ret (inl (next rj))) (Z.of_nat j))
  (fun b => b = false -> forall x t n, x ∈ s :: L2 -> iv_begin x <= t < iv_end x -> start_time <= t < end_reserve -> 0 <= n -> bs_mem use n = true -> bs_mem (iv_nodes x) n = true).
Proof using.
  intros (Huw & Hum & Hub). induction l2 as [|k l3 IH]; intros l1 j L1 s L2 Hlen Ht fuel Hf; (destruct fuel as [|fuel]; [lia|]); rewrite loop_step;
    destruct (table_split _ _ _ _ _ _ _ _ _ _ _ Hlen Ht) as (_ & _ & Hj & _); rewrite (aget_nat _ _ _ Hj); cbn [mbind exec_bind begin_time end_time next];
    (match type of Hj with _ = Some (Space _ _ _ ?nxt) => destruct (overlap_here use start_time end_reserve _ _ _ _ _ _ nxt Ht (conj Huw (conj Hum Hub))) as (ob & -> & Hob) end);
    cbn [mbind exec_bind]; (destruct ob; [done|]);
    destruct (table_cons _ _ _ _ _ _ _ _ _ _ _ Hlen Ht) as [(El & -> & Hz)|(k' & l3' & x & L3 & El & -> & Hz & Hk & Hlen' & Ht')]; try done.
  - rewrite Hz, Z.eqb_refl. intros _ x t n Hx. apply list_elem_of_singleton in Hx as ->. by apply Hob.
  - rewrite (proj2 (Z.eqb_neq _ _) Hz). injection El as <- <-. rewrite Hk. cbn [length] in Hf.
    eapply wp_mono; [apply (IH (l1 ++ [j]) k (L1 ++ [s]) x L3 Hlen' Ht'); lia|]. intros b Hb Hfalse y t n Hy. apply elem_of_cons in Hy as [->|Hy]; [by apply Hob|by apply Hb].
Qed.

Lemma no_overlap_free ns recs l L use start_time end_reserve : table bits lo hi ns recs l L -> nodes_ok bits use ->
  exists b, _test_resv_overlap ns use start_time end_reserve = Ret b /\
    (b = false -> forall t n, lo <= t < hi -> start_time <= t < end_reserve -> 0 <= n -> bs_mem use n = true -> free_at L t n = true).
Proof using.
  intros Ht Hu. destruct (table_start _ _ _ _ Ht) as (l2 & s & L2 & -> & -> & _ & Hfu & _).
  pose proof (overlap_spec ns recs use start_time end_reserve l2 Hu [] 0%nat [] s L2 eq_refl Ht (S (length ns)) Hfu) as Hw. apply wp_inv in Hw as (b & Hb & Hno).
  exists b. split; [exact Hb|]. intros Hf t n Ht1 Ht2 Hn Hm. pose proof (tb_covers _ _ _ _ _ _ _ Ht) as Hc.
  destruct (covers_at _ _ _ _ Hc Ht1) as (x & Hx & Hr). apply existsb_exists. exists x. split; [by apply list_elem_of_In|]. rewrite (Hno Hf x t n Hx Hr Ht2 Hn Hm). lia.
Qed.

(** ** The nodes for a job *)

(** Whether an interval restricts a job from [start_res] to [end_time']. *)
Definition asks (start_res end_time' : Z) (s : interval) : bool := (start_res <? iv_end s) && (iv_begin s <=? end_time').

Lemma asks_later start_res end_time' b L e : covers b L e -> end_time' < b -> forallb (fun s => negb (asks start_res end_time' s)) L = true.
Proof using.
  revert b. induction L as [|s L IH]; intros b Hc Hb; [done|]. destruct Hc as (Hsb & Hse & Hc). cbn [forallb]. rewrite (IH _ Hc) by lia. unfold asks. rewrite (proj2 (Z.leb_gt _ _)) by lia. by rewrite andb_false_r.
Qed.

Lemma usable_here ns recs start_res end_time' l1 j l2 L1 s L2 avail later : length l1 = length L1 -> table bits lo hi ns recs (l1 ++ j :: l2) (L1 ++ s :: L2) -> nodes_ok bits avail ->
  exists avail' later', nodes_ok bits avail' /\ (forall n, 0 <= n -> bs_mem avail' n = bs_mem avail n && implb (asks start_res end_time' s) (bs_mem (iv_nodes s) n)) /\
    (usable_step start_res end_time' ns (Z.of_nat j, avail, later) =
       (if Z.of_nat (hd 0%nat l2) =? 0 then Ret (inr (avail', later')) else Ret (inl (Z.of_nat (hd 0%nat l2), avail', later'))) \/
     usable_step start_res end_time' ns (Z.of_nat j, avail, later) = Ret (inr (avail', later')) /\ end_time' < iv_begin s).
Proof using.
  intros Hlen Ht (Hw & Hm & Hb). destruct (table_split _ _ _ _ _ _ _ _ _ _ _ Hlen Ht) as (_ & _ & Hj & _). unfold usable_step. rewrite (aget_nat _ _ _ Hj). cbn [mbind exec_bind begin_time end_time next]. cbv zeta.
  unfold asks. destruct (Z.leb_spec (iv_end s) start_res) as [He|He].
  { exists avail. eexists. split; [done|]. split; [|left; reflexivity]. intros n Hn. rewrite (proj2 (Z.ltb_ge _ _)) by lia. symmetry. apply andb_true_r. }
  rewrite (proj2 (Z.ltb_lt _ _) He). cbn [andb]. destruct (Z.leb_spec (iv_begin s) end_time') as [Hbe|Hbe].
  - pose proof (tb_nodes _ _ _ _ _ _ _ Ht) as Hok. rewrite Forall_app, Forall_cons in Hok. destruct Hok as (_ & (Hsw & Hsm & Hsb) & _). cbn [space_bitmap avail_bitmap mbind exec_bind].
    pose proof (bit_and_spec avail (iv_nodes s) Hw Hsw ltac:(congruence)) as Hand. apply wp_inv in Hand as (m & -> & [Hmw Hmm Hmb Hmem]). cbn [mbind exec_bind].
    exists m. eexists. split; [split; [done|]; split; congruence|]. split; [exact Hmem|]. left. reflexivity.
  - exists avail. eexists. split; [done|]. split; [intros n Hn; symmetry; apply andb_true_r|]. right. split; [reflexivity|lia].
Qed.

Lemma usable_spec ns recs start_res end_time' l2 : forall l1 j L1 s L2 avail later, length l1 = length L1 -> table bits lo hi ns recs (l1 ++ j :: l2) (L1 ++ s :: L2) -> nodes_ok bits avail ->
  forall fuel, (length l2 < fuel)%nat ->
  wp (loop fuel (usable_step start_res end_time' ns) (Z.of_nat j, avail, later))
  (fun r => nodes_ok bits r.1 /\ forall n, 0 <= n -> bs_mem r.1 n = bs_mem avail n && forallb (fun x => implb (asks start_res end_time' x) (bs_mem (iv_nodes x) n)) (s :: L2)).
Proof using.
  induction l2 as [|k l3 IH]; intros l1 j L1 s L2 avail later Hlen Ht Hav fuel Hf; (destruct fuel as [|fuel]; [lia|]); rewrite loop_step;
    destruct (usable_here ns recs start_res end_time' _ _ _ _ _ _ avail later Hlen Ht Hav) as (avail' & later' & Hav' & Hmem & [->|[-> Hlate]]).
  2,4: split; [done|]; intros n Hn; cbn [fst forallb]; rewrite Hmem by done; pose proof (tb_covers _ _ _ _ _ _ _ Ht) as Hc; apply covers_app in Hc as (c & _ & Hb & Hle & Hc);
    pose proof (asks_later start_res end_time' _ _ _ Hc ltac:(lia)) as Hno;
    replace (forallb (fun x => implb (asks start_res end_time' x) (bs_mem (iv_nodes x) n)) L2) with true; [by rewrite andb_true_r|];
    symmetry; rewrite forallb_forall in *; intros x Hx; specialize (Hno x Hx); by destruct (asks start_res end_time' x).
  all: destruct (table_cons _ _ _ _ _ _ _ _ _ _ _ Hlen Ht) as [(El & -> & Hz)|(k' & l3' & x & L3 & El & -> & Hz & Hk & Hlen' & Ht')]; try done.
  - rewrite Hz, Z.eqb_refl. split; [done|]. intros n Hn. cbn [fst forallb]. rewrite Hmem by done. by rewrite andb_true_r.
  - rewrite (proj2 (Z.eqb_neq _ _) Hz). injection El as <- <-. rewrite Hk. cbn [length] in Hf.
    eapply wp_mono; [apply (IH (l1 ++ [j]) k (L1 ++ [s]) x L3 avail' later' Hlen' Ht' Hav'); lia|]. intros r [Hr Hrm]. split; [done|]. intros n Hn. rewrite Hrm, Hmem by done.
    change (forallb ?f (s :: x :: L3)) with (f s && forallb f (x :: L3)). by rewrite andb_assoc.
Qed.
End steps.
