(* ===== verification/BackfillPlan.v ===== *)
(** * The plan of the backfill scheduler

    The table of free nodes as a refinement of the plan it stands for, and the
    cycle of the scheduler as a sequence of steps on it. *)

From stdpp Require Import relations.
From S2P Require Import Prelude Bitstring BitstringFacts BitstringCount Backfill BackfillFacts BackfillProps.

Local Open Scope Z_scope.
Local Open Scope slurm_scope.

(** ** Operations *)

(** C6: A reservation takes the nodes of its job out of its time, and out of nothing else:
    for a table of free nodes that covers the time from [lo] to [hi] without gaps,
    [_add_reservation] returns a table that covers the same time, in which a node is
    free at a time exactly if it was free before and either the time is outside the
    reservation or the node is in [res_bitmap] (the nodes that the job does not use).
    The records split, linked and merged on the way stay within the array if two are
    left. *)
Theorem reservation_takes_its_nodes bits lo hi ns recs l L start_time end_reserve res :
  table bits lo hi ns recs l L -> nodes_ok bits res ->
  0 <= Z.max start_time lo < 2 ^ 32 -> Z.max start_time lo <= end_reserve -> recs + 2 <= Z.of_nat (length ns) ->
  exists ns' recs' l' L', _add_reservation start_time end_reserve res ns recs = Ret (ns', recs') /\
    table bits lo hi ns' recs' l' L' /\ length ns' = length ns /\ recs <= recs' <= recs + 2 /\
    forall t n, 0 <= n -> free_at L' t n = free_at L t n && implb ((start_time <=? t) && (t <? end_reserve)) (bs_mem res n).
Proof.
  intros Ht Hres Hu Hse Hr. pose proof (add_reservation_spec bits lo hi start_time end_reserve res ns recs l L Ht Hres Hu Hse ltac:(lia)) as Hw.
  apply wp_inv in Hw as ([ns' recs'] & -> & Hl & Hrr & l' & L' & Ht' & Hf). exists ns', recs', l', L'. done.
Qed.

(** The nodes that the scheduler considers for a job are the candidates that are free
    all the time: of the candidates [avail], [usable_nodes] keeps exactly the nodes
    that are free in every interval of the table that ends after [start_res] and
    begins by the end of the job; so every node it keeps is free at every time
    from [start_res] to the end of the job that the table covers. *)
Theorem usable_nodes_are_free bits lo hi ns recs l L avail start_res end_time' : table bits lo hi ns recs l L -> nodes_ok bits avail ->
  exists avail' later, usable_nodes ns avail start_res end_time' = Ret (avail', later) /\ nodes_ok bits avail' /\
    (forall n, 0 <= n -> bs_mem avail' n = true <-> bs_mem avail n = true /\ forall s, s ∈ L -> start_res < iv_end s -> iv_begin s <= end_time' -> bs_mem (iv_nodes s) n = true) /\
    (forall n t, 0 <= n -> bs_mem avail' n = true -> lo <= t < hi -> start_res <= t <= end_time' -> free_at L t n = true).
Proof.
  intros Ht Hav. destruct (table_start _ _ _ _ _ _ _ Ht) as (l2 & s & L2 & -> & -> & _ & Hfu & _).
  pose proof (usable_spec bits lo hi ns recs start_res end_time' l2 [] 0%nat [] s L2 avail 0 eq_refl Ht Hav (S (length ns)) Hfu) as Hw.
  apply wp_inv in Hw as ([avail' later] & Hr & Hok & Hm). cbn [fst] in *. exists avail', later. split; [exact Hr|]. split; [done|].
  assert (Hiff : forall n, 0 <= n -> bs_mem avail' n = true <-> bs_mem avail n = true /\ forall x, x ∈ s :: L2 -> start_res < iv_end x -> iv_begin x <= end_time' -> bs_mem (iv_nodes x) n = true).
  { intros n Hn. rewrite Hm, andb_true_iff, forallb_forall by done. split; intros [H1 H2]; (split; [done|]); intros x Hx.
    - intros Hx1 Hx2. apply list_elem_of_In in Hx. specialize (H2 x Hx). unfold asks in H2. by rewrite (proj2 (Z.ltb_lt _ _)), (proj2 (Z.leb_le _ _)) in H2 by lia.
    - apply list_elem_of_In in Hx. specialize (H2 x Hx). unfold asks. destruct (Z.ltb_spec start_res (iv_end x)); [|done]. destruct (Z.leb_spec (iv_begin x) end_time'); [|done]. by apply H2. }
  split; [exact Hiff|]. intros n t Hn Hmem Ht1 Ht2. apply (Hiff n Hn) in Hmem as [_ Hall].
  destruct (covers_at _ _ _ _ (tb_covers _ _ _ _ _ _ _ Ht) Ht1) as (x & Hx & Hxt). apply existsb_exists. exists x. split; [by apply list_elem_of_In|]. rewrite Hall by (done || lia). lia.
Qed.

(** ** A cycle of the scheduler *)

(** A planned job: the time and the nodes of its reservation, and whether the scheduler
    tested them against the jobs planned before (it does not for a job that waits for a
    burst buffer, nor for one that is due). *)
Record plan : Type := Plan { pl_start : Z; pl_end : Z; pl_nodes : bitstr; pl_tested : bool }.

Section cycle.
Context (max_backfill_job_cnt bits lo hi : Z).

(** The table, and the jobs planned so far. *)
Definition state : Type := list node_space_map * Z * list plan.

(** A job for which the scheduler comes to the end of its round: its nodes are nodes of
    the table, its start fits the 32 bits of [_add_reservation], and its reservation
    does not end before the table begins. *)
Record job_round (start_time end_reserve : Z) (avail : bitstr) : Prop := {
  jr_nodes : nodes_ok bits avail;
  jr_start : 0 <= Z.max start_time lo < 2 ^ 32;
  jr_end : Z.max start_time lo <= end_reserve
}.

Inductive round : state -> state -> Prop :=
  | round_job now job_start bb_wait reserve start_time end_reserve avail ns recs G v ns' recs' :
      job_round start_time end_reserve avail ->
      plan_job max_backfill_job_cnt now job_start bb_wait reserve start_time end_reserve avail ns recs = Ret (v, ns', recs') ->
      round (ns, recs, G) (ns', recs', match v with Reserved => Plan start_time end_reserve avail ((now <? job_start) && negb bb_wait) :: G | _ => G end).

(** Two jobs that need the same node at the same time. *)
Definition conflict (p q : plan) : Prop :=
  exists t n, lo <= t < hi /\ pl_start p <= t < pl_end p /\ pl_start q <= t < pl_end q /\ 0 <= n < bits /\ bs_mem (pl_nodes p) n = true /\ bs_mem (pl_nodes q) n = true.

Record cycle_inv (st : state) : Prop := {
  ci_size : Z.of_nat (length st.1.1) = max_backfill_job_cnt * 2 + 1;
  ci_table : exists l L, table bits lo hi st.1.1 st.1.2 l L /\
    forall p t n, p ∈ st.2 -> pl_start p <= t < pl_end p -> 0 <= n < bits -> bs_mem (pl_nodes p) n = true -> free_at L t n = false;
  ci_apart : forall i j p q, (i < j)%nat -> st.2 !! i = Some p -> st.2 !! j = Some q -> pl_tested p = true -> ~ conflict p q
}.

Lemma complement_nodes avail : nodes_ok bits avail -> exists res, bit_not avail = Ret res /\ nodes_ok bits res /\ forall n, 0 <= n < bits -> bs_mem res n = negb (bs_mem avail n).
Proof using.
  intros (Hw & Hm & Hb). pose proof (bit_not_spec avail Hw) as Hn. apply wp_inv in Hn as (res & Hr & [Hrw Hrm Hrb Hmem]). exists res. split; [done|]. split; [split; [done|]; split; congruence|].
  intros n Hn. rewrite Hmem by lia. rewrite (proj2 (Z.ltb_lt _ _)); [done|]. pose proof (wf_len _ Hw) as Hl. rewrite Hl. unfold bitstr_words. rewrite Hb.
  unfold BITSTR_MAXPOS, BITSTR_SHIFT. rewrite Z.shiftr_div_pow2 by lia. change (2 ^ 6) with 64. dlia.
Qed.

(** What a round does. *)
Lemma plan_job_spec now job_start bb_wait reserve start_time end_reserve avail ns recs l L : Z.of_nat (length ns) = max_backfill_job_cnt * 2 + 1 -> table bits lo hi ns recs l L ->
  job_round start_time end_reserve avail ->
  exists v ns' recs', plan_job max_backfill_job_cnt now job_start bb_wait reserve start_time end_reserve avail ns recs = Ret (v, ns', recs') /\
    ((v <> Reserved /\ ns' = ns /\ recs' = recs) \/
     (v = Reserved /\ length ns' = length ns /\ ((now <? job_start) && negb bb_wait = true -> forall t n, lo <= t < hi -> start_time <= t < end_reserve -> 0 <= n -> bs_mem avail n = true -> free_at L t n = true) /\
      exists l' L', table bits lo hi ns' recs' l' L' /\ forall t n, 0 <= n < bits ->
        free_at L' t n = free_at L t n && negb ((start_time <=? t) && (t <? end_reserve) && bs_mem avail n))).
Proof using.
  intros Hlen Ht [Hav Hst Hend]. unfold plan_job. destruct (Z.leb_spec max_backfill_job_cnt recs) as [Hfull|Hroom]; [eexists _, _, _; split; [done|]; by left|].
  destruct (no_overlap_free _ _ _ _ _ _ _ _ start_time end_reserve Ht Hav) as (b & Hb & Hfree).
  set (tested := (now <? job_start) && negb bb_wait).
  assert (exists b', (if tested then _test_resv_overlap ns avail start_time end_reserve else Ret false) = Ret b' /\ (tested = true -> b' = b)) as (b' & -> & Hb') by (destruct tested; eauto; by exists false).
  cbn [mbind exec_bind]. destruct b'; [eexists _, _, _; split; [done|]; by left|]. destruct reserve; cbn [negb]; [|eexists _, _, _; split; [done|]; by left].
  destruct (complement_nodes avail Hav) as (res & -> & Hres & Hmem). cbn [mbind exec_bind].
  pose proof (add_reservation_spec bits lo hi start_time end_reserve res ns recs l L Ht Hres Hst Hend ltac:(lia)) as Hw. apply wp_inv in Hw as ([ns' recs'] & -> & Hl & _ & l' & L' & Ht' & Hf).
  cbn [mbind exec_bind]. eexists _, _, _. split; [done|]. right. split; [done|]. split; [done|]. split; [intros Hte; specialize (Hb' Hte); by apply Hfree|]. exists l', L'. split; [done|]. intros t n Hn. rewrite Hf by lia.
  unfold leaves. rewrite Hmem by done. by destruct (free_at L t n), ((start_time <=? t) && (t <? end_reserve)), (bs_mem avail n).
Qed.

Lemma round_cycle_inv st st' : cycle_inv st -> round st st' -> cycle_inv st'.
Proof using.
  intros [Hlen (l & L & Ht & Hbusy) Hap] Hr. destruct Hr as [now job_start bb_wait reserve start_time end_reserve avail ns recs G v ns' recs' Hjob Hpj]. cbn [fst snd] in *.
  destruct (plan_job_spec now job_start bb_wait reserve start_time end_reserve avail ns recs l L Hlen Ht Hjob) as (v' & ns2 & recs2 & E & Hcase). rewrite E in Hpj. injection Hpj as -> -> ->.
  destruct Hcase as [(Hv & -> & ->)|(-> & Hl' & Hfree & l' & L' & Ht' & Hf)].
  - assert (match v with Reserved => Plan start_time end_reserve avail ((now <? job_start) && negb bb_wait) :: G | _ => G end = G) as -> by (by destruct v). constructor; [done|by exists l, L|done].
  - constructor; cbn [fst snd]; [by rewrite Hl'| |].
    + exists l', L'. split; [done|]. intros p t n Hp Ht0 Hn Hm. rewrite Hf by done. apply elem_of_cons in Hp as [->|Hp].
      * cbn [pl_start pl_end pl_nodes] in *. rewrite (proj2 (Z.leb_le _ _)), (proj2 (Z.ltb_lt _ _)), Hm by lia. apply andb_false_r.
      * by rewrite (Hbusy p t n Hp Ht0 Hn Hm).
    + intros [|i] [|j] p q Hij Hi Hj; [lia| |lia|cbn [lookup list_lookup] in *; by apply (Hap i j p q ltac:(lia))]. cbn in Hi, Hj. injection Hi as <-.
      intros Hte (t & n & Htw & H1 & H2 & Hn & Hm1 & Hm2). cbn [pl_start pl_end pl_nodes] in *. apply list_elem_of_lookup_2 in Hj as Hin.
      specialize (Hfree Hte t n Htw H1 ltac:(lia) Hm1). by rewrite (Hbusy q t n Hin H2 Hn Hm2) in Hfree.
Qed.
End cycle.

Lemma init_inv max_backfill_job_cnt bits lo window avail ns recs : 1 <= max_backfill_job_cnt -> 0 <= window -> bs_wf avail -> bs_bits avail = bits ->
  init_space max_backfill_job_cnt lo window avail = Ret (ns, recs) -> cycle_inv max_backfill_job_cnt bits lo (lo + window) (ns, recs, []).
Proof.
  intros Hmax Hwin Hw Hb Hi. unfold init_space in Hi. pose proof (bit_copy_spec avail Hw) as Hc. apply wp_inv in Hc as (copy & Ec & Hcw & Hcm & Hcb & _). rewrite Ec in Hi. cbn [mbind exec_bind] in Hi.
  change 0 with (Z.of_nat 0) in Hi at 1. rewrite aset_nat in Hi by (rewrite length_replicate; lia). cbn [mbind exec_bind] in Hi. injection Hi as <- <-.
  constructor; cbn [fst snd]; [rewrite length_insert, length_replicate; lia| |intros i j p q _ H; done].
  exists [0%nat], [Interval lo (lo + window) copy]. split; [|intros p t n Hp; by apply not_elem_of_nil in Hp]. constructor.
  - split; [|done]. cbn [iv_begin iv_end iv_nodes hd]. rewrite list_lookup_insert_eq by (rewrite length_replicate; lia). done.
  - by exists [].
  - apply NoDup_singleton.
  - constructor; [lia|constructor].
  - rewrite length_insert, length_replicate. lia.
  - cbn [covers iv_begin iv_end]. lia.
  - constructor; [split; [done|split; [done|cbn; congruence]]|constructor].
Qed.

(** C5: The backfill scheduler does not plan a job on nodes that an earlier job of the
    plan has at the same time: in every state that a cycle reaches, from the table with
    the available nodes and by any sequence of jobs (each is refused because the table
    is full or because it overlaps a planned job, left without reservation, or
    reserved), a planned job that was tested has no node in common with a job planned
    before it, at any time of the scheduler's window; and the next job's round succeeds,
    whatever the job, so that the records of the table always suffice. A job is
    tested unless it waits for a burst buffer or is due now; the scheduler reserves those
    without a test, and they can overlap ([burst_buffer_job_overlaps]). The jobs are those whose start
    fits 32 bits and whose reservation does not end before the table begins (see
    [rounded_end_before_begin] for one that does). *)
Theorem planned_job_avoids_earlier_ones max_backfill_job_cnt bits lo window avail ns0 recs0 ns recs G :
  1 <= max_backfill_job_cnt -> 0 <= window -> bs_wf avail -> bs_bits avail = bits ->
  init_space max_backfill_job_cnt lo window avail = Ret (ns0, recs0) ->
  rtc (round max_backfill_job_cnt bits lo) (ns0, recs0, []) (ns, recs, G) ->
  (forall i j p q, (i < j)%nat -> G !! i = Some p -> G !! j = Some q -> pl_tested p = true -> ~ conflict bits lo (lo + window) p q) /\
  (forall now job_start bb_wait reserve start_time end_reserve nodes, job_round bits lo start_time end_reserve nodes ->
     exists v ns' recs', plan_job max_backfill_job_cnt now job_start bb_wait reserve start_time end_reserve nodes ns recs = Ret (v, ns', recs')).
Proof.
  intros Hmax Hwin Hw Hb Hi Hr. pose proof (init_inv _ _ _ _ _ _ _ Hmax Hwin Hw Hb Hi) as H0.
  assert (Hinv : cycle_inv max_backfill_job_cnt bits lo (lo + window) (ns, recs, G)).
  { clear Hi. remember (ns0, recs0, []) as st0 eqn:E0. remember (ns, recs, G) as st eqn:E. clear E0 E. induction Hr as [|a b c Hab _ IH]; [done|]. apply IH. by eapply round_cycle_inv. }
  destruct Hinv as [Hlen (l & L & Ht & _) Hap]. cbn [fst snd] in *. split; [done|]. intros now job_start bb_wait reserve start_time end_reserve nodes Hjob.
  destruct (plan_job_spec max_backfill_job_cnt bits lo (lo + window) now job_start bb_wait reserve start_time end_reserve nodes ns recs l L Hlen Ht Hjob) as (v & ns' & recs' & E & _). eauto.
Qed.

(** ** Instances *)

(** Eight nodes, all free for a day. *)
Definition eight_nodes : bitstr := Bitstr BITSTR_MAGIC 8 [255].
Definition low_nodes : bitstr := Bitstr BITSTR_MAGIC 8 [15].

Lemma small_bitmap_ok w : 0 <= w < 2 ^ 64 -> nodes_ok 8 (Bitstr BITSTR_MAGIC 8 [w]).
Proof. intros Hw. split; [|done]. constructor; [done|cbn; lia|done|]. cbn. by constructor. Qed.

Definition day_table : list node_space_map := Space 1000 87400 (Some eight_nodes) 0 :: replicate 20 no_space.

Lemma day_table_ok : table 8 1000 87400 day_table 1 [0%nat] [Interval 1000 87400 eight_nodes].
Proof.
  constructor; [done|by exists []|apply NoDup_singleton|by repeat constructor|cbn; lia|cbn; lia|]. constructor; [|constructor]. apply small_bitmap_ok. lia.
Qed.

Lemma reservation_takes_its_nodes_witness :
  exists ns' recs', _add_reservation 2000 5000 (Bitstr BITSTR_MAGIC 8 [240]) day_table 1 = Ret (ns', recs') /\ 1 <= recs' <= 3.
Proof.
  destruct (reservation_takes_its_nodes 8 1000 87400 day_table 1 _ _ 2000 5000 (Bitstr BITSTR_MAGIC 8 [240]) day_table_ok) as (ns' & recs' & _ & _ & E & _ & _ & Hr & _);
    [apply small_bitmap_ok; lia|lia|lia|cbn; lia|]. exists ns', recs'. split; [exact E|lia].
Defined.

Lemma usable_nodes_are_free_witness : exists avail' later, usable_nodes day_table low_nodes 2000 5000 = Ret (avail', later) /\ nodes_ok 8 avail'.
Proof.
  destruct (usable_nodes_are_free 8 1000 87400 day_table 1 _ _ low_nodes 2000 5000 day_table_ok) as (a & later & E & Hok & _); [apply small_bitmap_ok; lia|]. exists a, later. split; [exact E|exact Hok].
Defined.

Definition high_nodes : bitstr := Bitstr BITSTR_MAGIC 8 [240].

Lemma round_example start_time end_reserve w : 1000 <= start_time < 87400 -> start_time <= end_reserve -> 0 <= w < 2 ^ 64 ->
  job_round 8 1000 start_time end_reserve (Bitstr BITSTR_MAGIC 8 [w]).
Proof. intros. constructor; [by apply small_bitmap_ok|lia|lia]. Qed.

(** The table after a job on the low nodes, and after a second one on the high nodes. *)
Definition first_planned : list node_space_map * Z :=
  match plan_job 10 1000 2000 false true 2000 5000 low_nodes day_table 1 with Ret (_, ns, recs) => (ns, recs) | _ => ([], 0) end.
Definition both_planned : list node_space_map * Z :=
  match plan_job 10 1000 3000 false true 3000 6000 high_nodes first_planned.1 first_planned.2 with Ret (_, ns, recs) => (ns, recs) | _ => ([], 0) end.

Lemma both_planned_reachable : rtc (round 10 8 1000) (day_table, 1, [])
  (both_planned.1, both_planned.2, [Plan 3000 6000 high_nodes true; Plan 2000 5000 low_nodes true]).
Proof.
  eapply rtc_l; [exact (round_job 10 8 1000 1000 2000 false true 2000 5000 low_nodes day_table 1 [] Reserved first_planned.1 first_planned.2
    (round_example 2000 5000 15 ltac:(lia) ltac:(lia) ltac:(lia)) ltac:(vm_compute; reflexivity))|].
  eapply rtc_l; [|apply rtc_refl]. exact (round_job 10 8 1000 1000 3000 false true 3000 6000 high_nodes first_planned.1 first_planned.2 [Plan 2000 5000 low_nodes true]
    Reserved both_planned.1 both_planned.2 (round_example 3000 6000 240 ltac:(lia) ltac:(lia) ltac:(lia)) ltac:(vm_compute; reflexivity)).
Qed.

Lemma planned_job_avoids_earlier_ones_witness :
  ~ conflict 8 1000 87400 (Plan 3000 6000 high_nodes true) (Plan 2000 5000 low_nodes true) /\
  exists v ns' recs', plan_job 10 1000 4000 true true 4000 7000 low_nodes both_planned.1 both_planned.2 = Ret (v, ns', recs').
Proof.
  destruct (planned_job_avoids_earlier_ones 10 8 1000 86400 eight_nodes day_table 1 both_planned.1 both_planned.2 [Plan 3000 6000 high_nodes true; Plan 2000 5000 low_nodes true]) as [Hap Hgo];
    [lia|lia|apply small_bitmap_ok; lia|reflexivity|reflexivity|exact both_planned_reachable|]. split.
  - exact (Hap 0%nat 1%nat _ _ ltac:(lia) eq_refl eq_refl eq_refl).
  - exact (Hgo 1000 4000 true true 4000 7000 low_nodes (round_example 4000 7000 15 ltac:(lia) ltac:(lia) ltac:(lia))).
Defined.

(** A job that waits for its burst buffer is planned without the test: it gets the nodes
    that another job has at the same time. *)
Example burst_buffer_job_overlaps : exists ns recs,
  plan_job 10 1000 3000 true true 3000 6000 low_nodes first_planned.1 first_planned.2 = Ret (Reserved, ns, recs) /\
  round 10 8 1000 (first_planned.1, first_planned.2, [Plan 2000 5000 low_nodes true]) (ns, recs, [Plan 3000 6000 low_nodes false; Plan 2000 5000 low_nodes true]) /\
  conflict 8 1000 87400 (Plan 3000 6000 low_nodes false) (Plan 2000 5000 low_nodes true).
Proof.
  eexists _, _. split; [vm_compute; reflexivity|]. split.
  - apply (round_job 10 8 1000 1000 3000 true true 3000 6000 low_nodes first_planned.1 first_planned.2 [Plan 2000 5000 low_nodes true] Reserved);
      [exact (round_example 3000 6000 15 ltac:(lia) ltac:(lia) ltac:(lia))|vm_compute; reflexivity].
  - exists 3000, 0. cbn [pl_start pl_end pl_nodes]. split_and!; (lia || reflexivity).
Qed.

(** A second job on the same nodes is told to try later, and one on the other nodes is
    planned. *)
Example second_job_tries_later : exists ns recs, plan_job 10 1000 2000 false true 2000 5000 low_nodes day_table 1 = Ret (Reserved, ns, recs) /\
  (exists ns' recs', plan_job 10 1000 3000 false true 3000 6000 low_nodes ns recs = Ret (TryLater, ns', recs')) /\
  (exists ns' recs', plan_job 10 1000 3000 false true 3000 6000 (Bitstr BITSTR_MAGIC 8 [240]) ns recs = Ret (Reserved, ns', recs')).
Proof. eexists _, _. split; [vm_compute; reflexivity|]. split; eexists _, _; vm_compute; reflexivity. Qed.

(** Times are rounded down to the resolution before the reservation: with a resolution of
    an hour, a job of ten minutes is planned with an end before the table's begin, its
    nodes stay free, and the table gets an interval that ends before it begins. *)
Example rounded_end_before_begin : exists ns recs, _add_reservation 0 0 (Bitstr BITSTR_MAGIC 8 [240]) day_table 1 = Ret (ns, recs) /\
  exists r, ns !! 1%nat = Some r /\ begin_time r = 1000 /\ end_time r = 0.
Proof. eexists _, _. split; [vm_compute; reflexivity|]. eexists. split; [reflexivity|]. done. Qed.
