(* ===== verification/StepLayout.v ===== *)
(** * Task layout of job steps: src/common/slurm_step_layout.c

    How the tasks of a step are assigned to its nodes: block, cyclic, plane and
    arbitrary distributions, the lookup of a task's node, copying, and packing.
    Host list expressions are used through the interface [HostExprs], the part
    of src/common/hostlist.h that this code relies on; HostlistLayout.v
    discharges it for the model of hostlist.c. *)

From Stdlib Require Import String.
From stdpp Require Import strings.
From S2P Require Import Prelude Pack.

Local Open Scope Z_scope.
Local Open Scope slurm_scope.

(** What the layout code uses of host lists: the host names an expression
    stands for, in the order of iteration, and the expression for the sorted
    list without duplicates ([hostlist_uniq], [hostlist_ranged_string_xmalloc]).
    [hosts_ok] says for which expressions duplicates are really removed. *)
Class HostExprs : Type := {
  hosts_of : cstr -> list cstr;
  uniq_string : cstr -> cstr;
  hosts_ok : cstr -> Prop;
  uniq_NoDup : forall s, hosts_ok s -> NoDup (hosts_of (uniq_string s));
  uniq_same : forall s h, hosts_ok s -> h ∈ hosts_of (uniq_string s) <-> h ∈ hosts_of s
}.

Definition SLURM_DIST_CYCLIC : Z := 0x0001.
Definition SLURM_DIST_BLOCK : Z := 0x0002.
Definition SLURM_DIST_ARBITRARY : Z := 0x0003.
Definition SLURM_DIST_PLANE : Z := 0x0004.
Definition SLURM_DIST_NODECYCLIC : Z := 0x0001.
Definition SLURM_DIST_STATE_BASE : Z := 0x00FFFF.
Definition SLURM_DIST_PACK_NODES : Z := 0x800000.
Definition SLURM_DIST_NO_PACK_NODES : Z := 0x400000.
Definition SLURM_DIST_NODEMASK : Z := 0xF00F.
Definition CR_PACK_NODES : Z := 0x0200.
Definition CLUSTER_FLAG_BG : Z := 0x1.
Definition CLUSTER_FLAG_CRAY_A : Z := 0x100.
Definition CLUSTER_FLAG_FE : Z := 0x200.
Definition NO_VAL16 : Z := 0xfffe.
Definition SLURM_SUCCESS : Z := 0.
Definition SLURM_ERROR : Z := -1.

Definition flag (x mask : Z) : bool := negb (Z.land x mask =? 0).

Record step_layout_req : Type := StepLayoutReq {
  req_node_list : cstr;
  req_cpus_per_node : list Z;
  req_cpu_count_reps : list Z;
  req_num_hosts : Z;
  req_num_tasks : Z;
  req_cpus_per_task : option (list Z);
  req_cpus_task_reps : list Z;
  req_task_dist : Z;
  req_plane_size : Z
}.

(** Arrays that are not allocated yet are [None]. *)
Record step_layout : Type := StepLayout {
  sl_front_end : option cstr;
  sl_node_cnt : Z;
  sl_node_list : option cstr;
  sl_plane_size : Z;
  sl_start_protocol_ver : Z;
  sl_tasks : option (list Z);
  sl_task_cnt : Z;
  sl_task_dist : Z;
  sl_tids : option (list (list Z))
}.

(** [tasks[i]++] on 16-bit counters. *)
Definition incr_tasks (tasks : list Z) (i : Z) : exec (list Z) :=
  t ← aget tasks i; aset tasks i (u16 (t + 1)).

Definition layout_fuel (task_cnt : Z) : nat := S (S (2 * Z.to_nat task_cnt)).

(** The rounds over the nodes that [_task_layout_block] and
    [_task_layout_cyclic] share; [place] puts a task on a node. *)
Definition cyclic_rounds {A : Type} (place : Z -> Z -> A -> exec A) (node_cnt task_cnt : Z)
    (cpus : list Z) (a : A) : exec A :=
  loop (layout_fuel task_cnt) (fun '(j, taskid, over_subscribe, a) =>
    if taskid <? task_cnt
    then '(taskid, space_remaining, a) ←
           for_while (fun '(taskid, _, _) => taskid <? task_cnt)
             (fun i '(taskid, space_remaining, a) =>
                c ← aget cpus i;
                if (j <? c) || over_subscribe
                then a ← place i taskid a;
                     Ret (taskid + 1, space_remaining || (j + 1 <? c), a)
                else Ret (taskid, space_remaining, a))
             (Z.to_nat node_cnt) 0 (taskid, false, a);
         Ret (inl (j + 1, taskid, over_subscribe || negb space_remaining, a))
    else Ret (inr a)) (0, 0, false, a).

(** Number the tasks node by node. *)
Definition number_tasks (node_cnt : Z) (tasks : list Z) (tids : list (list Z)) : exec (list (list Z)) :=
  '(_, tids) ← for_while (fun _ => true)
    (fun i '(task_id, tids) =>
       t ← aget tasks i;
       tids ← aset tids i (seqZ task_id t);
       Ret (task_id + t, tids))
    (Z.to_nat node_cnt) 0 (0, tids);
  Ret tids.

Definition pack_pass1 (node_cnt task_cnt : Z) (cpus : list Z) : Z * list Z -> exec (Z * list Z) :=
  for_while (fun '(task_id, _) => task_id <? task_cnt)
    (fun i '(task_id, tasks) =>
       t ← aget tasks i;
       c ← aget cpus i;
       if t <? c then tasks ← incr_tasks tasks i; Ret (task_id + 1, tasks)
       else Ret (task_id, tasks))
    (Z.to_nat node_cnt) 0.
Definition pack_pass2 (node_cnt task_cnt : Z) (cpus : list Z) : Z * list Z -> exec (Z * list Z) :=
  for_while (fun '(task_id, _) => task_id <? task_cnt)
    (fun i => loop (layout_fuel task_cnt) (fun '(task_id, tasks) =>
       t ← aget tasks i;
       c ← aget cpus i;
       if (t <? c) && (task_id <? task_cnt)
       then tasks ← incr_tasks tasks i; Ret (inl (task_id + 1, tasks))
       else Ret (inr (task_id, tasks))))
    (Z.to_nat node_cnt) 0.
Definition pack_pass3 (node_cnt task_cnt : Z) : Z * list Z -> exec (list Z) :=
  loop (layout_fuel task_cnt) (fun '(task_id, tasks) =>
    if task_id <? task_cnt
    then s ← for_while (fun '(task_id, _) => task_id <? task_cnt)
               (fun i '(task_id, tasks) => tasks ← incr_tasks tasks i; Ret (task_id + 1, tasks))
               (Z.to_nat node_cnt) 0 (task_id, tasks);
         Ret (inl s)
    else Ret (inr tasks)).

Definition block_pack_nodes (task_dist select_params : Z) : bool :=
  if flag task_dist SLURM_DIST_PACK_NODES then true
  else if flag task_dist SLURM_DIST_NO_PACK_NODES then false
  else flag select_params CR_PACK_NODES.

Definition task_layout_block (select_params node_cnt task_cnt task_dist : Z) (cpus tasks : list Z)
    (tids : list (list Z)) : exec (list Z * list (list Z)) :=
  tasks ←
    (if block_pack_nodes task_dist select_params
     then s ← pack_pass1 node_cnt task_cnt cpus (0, tasks);
          s ← pack_pass2 node_cnt task_cnt cpus s;
          pack_pass3 node_cnt task_cnt s
     else cyclic_rounds (fun i _ tasks => incr_tasks tasks i) node_cnt task_cnt cpus tasks);
  tids ← number_tasks node_cnt tasks tids;
  Ret (tasks, tids).

Definition cyclic_place (i taskid : Z) (st : list Z * list (list Z)) : exec (list Z * list (list Z)) :=
  let '(tasks, tids) := st in
  t ← aget tasks i;
  l ← aget tids i;
  l ← aset (resize (Z.to_nat (t + 1)) 0 l) t taskid;
  tids ← aset tids i l;
  tasks ← incr_tasks tasks i;
  Ret (tasks, tids).

Definition task_layout_cyclic (node_cnt task_cnt : Z) (cpus tasks : list Z) (tids : list (list Z)) :
    exec (list Z * list (list Z)) :=
  cyclic_rounds cyclic_place node_cnt task_cnt cpus (tasks, tids).

(** How many tasks each node gets in a plane distribution. *)
Definition plane_counts (node_cnt task_cnt plane_size : Z) (cpus tasks : list Z) : exec (list Z) :=
  loop (layout_fuel task_cnt) (fun '(j, taskid, over_subscribe, tasks) =>
    if taskid <? task_cnt
    then
      '(taskid, tasks) ←
        (if j =? 0
         then for_while (fun '(taskid, _) => taskid <? task_cnt)
                (fun i '(taskid, tasks) => tasks ← incr_tasks tasks i; Ret (taskid + 1, tasks))
                (Z.to_nat node_cnt) 0 (taskid, tasks)
         else Ret (taskid, tasks));
      '(taskid, space_remaining, tasks) ←
        for_while (fun '(taskid, _, _) => taskid <? task_cnt)
          (fun i st =>
             let plane_start := if j =? 0 then 1 else 0 in
             for_while (fun '(taskid, _, _) => taskid <? task_cnt)
               (fun k '(taskid, space_remaining, tasks) =>
                  c ← aget cpus i;
                  t ← aget tasks i;
                  if negb (c - t =? 0) || over_subscribe
                  then tasks ← incr_tasks tasks i;
                       t ← aget tasks i;
                       Ret (taskid + 1, space_remaining || (0 <=? c - (t + 1)), tasks)
                  else Ret (taskid, space_remaining, tasks))
               (Z.to_nat (plane_size - plane_start)) plane_start st)
          (Z.to_nat node_cnt) 0 (taskid, false, tasks);
      Ret (inl (j + 1, taskid, over_subscribe || negb space_remaining, tasks))
    else Ret (inr tasks)) (0, 0, false, tasks).

(** The inner loop of the second half: a block of [plane_size] tasks for one
    node, which has [t] task slots of which [cur] are taken. *)
Definition plane_fill (task_cnt plane_size t : Z) : Z * Z * list Z -> exec (Z * Z * list Z) :=
  for_while (fun '(taskid, cur, _) => (cur <? t) && (taskid <? task_cnt))
    (fun k '(taskid, cur, l) => l ← aset l cur taskid; Ret (taskid + 1, cur + 1, l))
    (Z.to_nat plane_size) 0.

Definition plane_number (node_cnt task_cnt plane_size : Z) (tasks : list Z) (tids : list (list Z)) :
    exec (Z * list (list Z)) :=
  '(tids, cur_task) ← for_while (fun _ => true)
    (fun i '(tids, cur_task) =>
       t ← aget tasks i;
       tids ← aset tids i (replicate (Z.to_nat t) 0);
       cur_task ← aset cur_task i 0;
       Ret (tids, cur_task))
    (Z.to_nat node_cnt) 0 (tids, replicate (Z.to_nat node_cnt) 0);
  loop (layout_fuel task_cnt) (fun '(taskid, tids, cur_task) =>
    if taskid <? task_cnt
    then s ← for_while (fun '(taskid, _, _) => taskid <? task_cnt)
               (fun i '(taskid, tids, cur_task) =>
                  t ← aget tasks i;
                  cur ← aget cur_task i;
                  l ← aget tids i;
                  '(taskid, cur, l) ← plane_fill task_cnt plane_size t (taskid, cur, l);
                  tids ← aset tids i l;
                  cur_task ← aset cur_task i cur;
                  Ret (taskid, tids, cur_task))
               (Z.to_nat node_cnt) 0 (taskid, tids, cur_task);
         Ret (inl s)
    else Ret (inr (taskid, tids))) (0, tids, cur_task).

(** [None] is [SLURM_ERROR]. *)
Definition task_layout_plane (node_cnt task_cnt plane_size : Z) (cpus tasks : list Z)
    (tids : list (list Z)) : exec (option (list Z * list (list Z))) :=
  if plane_size <=? 0 then Ret None else
  tasks ← plane_counts node_cnt task_cnt plane_size cpus tasks;
  '(taskid, tids) ← plane_number node_cnt task_cnt plane_size tasks tids;
  if negb (taskid =? task_cnt) then Ret None else Ret (Some (tasks, tids)).

(** The two scans of the task list for one host of the allocation. *)
Fixpoint count_host (host : cstr) (step_hosts : list cstr) (total tasks_i task_cnt : Z) : Z * Z :=
  match step_hosts with
  | [] => (tasks_i, task_cnt)
  | host_task :: rest =>
      let '(tasks_i, task_cnt) :=
        if bool_decide (host = host_task) then (u16 (tasks_i + 1), task_cnt + 1)
        else (tasks_i, task_cnt) in
      if total <=? task_cnt then (tasks_i, task_cnt)
      else count_host host rest total tasks_i task_cnt
  end.
Fixpoint number_host (host : cstr) (step_hosts : list cstr) (tasks_i taskid j : Z) (l : list Z) :
    exec (list Z) :=
  match step_hosts with
  | [] => Ret l
  | host_task :: rest =>
      '(j, l) ← (if bool_decide (host = host_task) then l ← aset l j taskid; Ret (j + 1, l)
                 else Ret (j, l));
      if tasks_i <=? j then Ret l
      else number_host host rest tasks_i (taskid + 1) j l
  end.

Fixpoint hostfile_loop (job_hosts step_hosts : list cstr) (total i task_cnt : Z) (tasks : list Z)
    (tids : list (list Z)) : exec (Z * list Z * list (list Z)) :=
  match job_hosts with
  | [] => Ret (task_cnt, tasks, tids)
  | host :: rest =>
      tasks ← aset tasks i 0;
      let '(n, task_cnt) := count_host host step_hosts total 0 task_cnt in
      tasks ← aset tasks i n;
      '(i, tids) ←
        (if n =? 0 then Ret (i, tids)
         else l ← number_host host step_hosts n 0 0 (replicate (Z.to_nat n) 0);
              tids ← aset tids i l;
              Ret (i + 1, tids));
      if total <? i then Ret (task_cnt, tasks, tids)
      else hostfile_loop rest step_hosts total i task_cnt tasks tids
  end.

Section layout.
Context `{!HostExprs}.
(** [slurmdb_setup_cluster_flags()] and [slurm_get_select_type_param()]. *)
Variables cluster_flags select_params : Z.

Definition task_layout_hostfile (node_list arbitrary_nodes : option cstr) (task_cnt : Z)
    (tasks : list Z) (tids : list (list Z)) : exec (option (list Z * list (list Z))) :=
  match arbitrary_nodes with
  | None => Ret None
  | Some arbitrary_nodes =>
      let step_alloc_hosts := hosts_of arbitrary_nodes in
      if negb (Z.of_nat (length step_alloc_hosts) =? task_cnt) then Ret None else
      '(placed, tasks, tids) ←
        hostfile_loop (from_option hosts_of [] node_list) step_alloc_hosts task_cnt 0 0 tasks tids;
      if negb (placed =? task_cnt) then Ret None else Ret (Some (tasks, tids))
  end.

(** The CPUs of one node that tasks of the step can use. *)
Definition node_cpus (cpus_per_node cpus_per_task plane_size task_dist : Z) : exec Z :=
  if cpus_per_task =? 0 then Fault else
  let c := u16 (cpus_per_node `quot` cpus_per_task) in
  let c := if c =? 0 then 1 else c in
  if negb (plane_size =? 0) && negb (plane_size =? NO_VAL16) &&
     negb (Z.land task_dist SLURM_DIST_STATE_BASE =? SLURM_DIST_PLANE)
  then p ← i32 (plane_size * cpus_per_task);
       let lim := u16 p in
       Ret (if lim <? c then lim else c)
  else Ret c.

(** One step of a pair of value and repetition arrays. *)
Definition rep_next (reps : list Z) (inx cnt : Z) : exec (Z * Z) :=
  r ← aget reps inx;
  Ret (if r <=? cnt + 1 then (inx + 1, 0) else (inx, cnt + 1)).

Definition init_cpus (req : step_layout_req) (cpus_per_task : list Z) (node_cnt plane_size task_dist : Z) :
    exec (list Z) :=
  '(_, _, cpus) ← for_while (fun _ => true)
    (fun i '((cpu_inx, cpu_cnt), (cpu_task_inx, cpu_task_cnt), cpus) =>
       cpn ← aget (req_cpus_per_node req) cpu_inx;
       cpt ← aget cpus_per_task cpu_task_inx;
       c ← node_cpus cpn cpt plane_size task_dist;
       p ← rep_next (req_cpu_count_reps req) cpu_inx cpu_cnt;
       q ← rep_next (req_cpus_task_reps req) cpu_task_inx cpu_task_cnt;
       Ret (p, q, cpus ++ [c]))
    (Z.to_nat node_cnt) 0 ((0, 0), (0, 0), []);
  Ret cpus.

(** The defaults for [cpus_per_task]. *)
Definition init_req (req : step_layout_req) : exec (step_layout_req * list Z) :=
  let set cpt reps := StepLayoutReq (req_node_list req) (req_cpus_per_node req) (req_cpu_count_reps req)
    (req_num_hosts req) (req_num_tasks req) (Some cpt) reps (req_task_dist req) (req_plane_size req) in
  match req_cpus_per_task req with
  | None => Ret (set [1] [req_num_hosts req], [1])
  | Some cpt =>
      c0 ← aget cpt 0;
      if (c0 <? 1) || (c0 =? NO_VAL16)
      then cpt ← aset cpt 0 1;
           reps ← aset (req_cpus_task_reps req) 0 (req_num_hosts req);
           Ret (set cpt reps, cpt)
      else Ret (req, cpt)
  end.

Definition with_arrays (l : step_layout) (node_cnt : Z) (tasks : list Z) (tids : list (list Z)) : step_layout :=
  StepLayout (sl_front_end l) node_cnt (sl_node_list l) (sl_plane_size l) (sl_start_protocol_ver l)
    (Some tasks) (sl_task_cnt l) (sl_task_dist l) (Some tids).

Definition init_task_layout (req : step_layout_req) (l : step_layout) (arbitrary_nodes : option cstr) :
    exec (step_layout_req * step_layout * Z) :=
  if sl_node_cnt l =? 0 then Ret (req, l, SLURM_ERROR) else
  if bool_decide (sl_tasks l <> None) then Ret (req, l, SLURM_SUCCESS) else
  '(req, cpus_per_task) ← init_req req;
  let plane_size := req_plane_size req in
  let l := StepLayout (sl_front_end l) (sl_node_cnt l) (sl_node_list l) plane_size
             (sl_start_protocol_ver l) (sl_tasks l) (sl_task_cnt l) (sl_task_dist l) (sl_tids l) in
  let tasks := replicate (Z.to_nat (sl_node_cnt l)) 0 in
  let tids := replicate (Z.to_nat (sl_node_cnt l)) [] in
  let count := Z.of_nat (length (from_option hosts_of [] (sl_node_list l))) in
  let node_cnt :=
    if negb (flag cluster_flags CLUSTER_FLAG_BG) && (count <? sl_node_cnt l) then count
    else sl_node_cnt l in
  if node_cnt <? 1 then Ret (req, with_arrays l node_cnt tasks tids, SLURM_ERROR) else
  let task_dist := sl_task_dist l in
  let task_cnt := sl_task_cnt l in
  cpus ← init_cpus req cpus_per_task node_cnt plane_size task_dist;
  r ←
    (if Z.land task_dist SLURM_DIST_NODEMASK =? SLURM_DIST_NODECYCLIC
     then Some <$> task_layout_cyclic node_cnt task_cnt cpus tasks tids
     else if (Z.land task_dist SLURM_DIST_STATE_BASE =? SLURM_DIST_ARBITRARY) &&
             negb (flag cluster_flags CLUSTER_FLAG_FE)
     then task_layout_hostfile (sl_node_list l) arbitrary_nodes task_cnt tasks tids
     else if Z.land task_dist SLURM_DIST_STATE_BASE =? SLURM_DIST_PLANE
     then task_layout_plane node_cnt task_cnt plane_size cpus tasks tids
     else Some <$> task_layout_block select_params node_cnt task_cnt task_dist cpus tasks tids);
  match r with
  | Some (tasks, tids) => Ret (req, with_arrays l node_cnt tasks tids, SLURM_SUCCESS)
  | None => Ret (req, with_arrays l node_cnt tasks tids, SLURM_ERROR)
  end.

(** The loop frees [tids[i]] for every node. *)
Definition slurm_step_layout_destroy (l : option step_layout) : exec Z :=
  match l with
  | None => Ret SLURM_SUCCESS
  | Some l =>
      _ ← for_while (fun _ => true)
            (fun i _ => match sl_tids l with Some tids => _ ← aget tids i; Ret tt | None => Fault end)
            (Z.to_nat (sl_node_cnt l)) 0 tt;
      Ret SLURM_SUCCESS
  end.

Definition slurm_step_layout_create (req : step_layout_req) :
    exec (step_layout_req * option step_layout) :=
  let arbitrary := Z.land (req_task_dist req) SLURM_DIST_STATE_BASE =? SLURM_DIST_ARBITRARY in
  let uniq := uniq_string (req_node_list req) in
  let num_hosts := if arbitrary then Z.of_nat (length (hosts_of uniq)) else req_num_hosts req in
  let req := StepLayoutReq (req_node_list req) (req_cpus_per_node req) (req_cpu_count_reps req)
    num_hosts (req_num_tasks req) (req_cpus_per_task req) (req_cpus_task_reps req)
    (req_task_dist req) (req_plane_size req) in
  let node_cnt :=
    if flag cluster_flags CLUSTER_FLAG_FE
    then if flag cluster_flags CLUSTER_FLAG_BG || flag cluster_flags CLUSTER_FLAG_CRAY_A
         then num_hosts else 1
    else num_hosts in
  let node_list := if arbitrary then uniq else req_node_list req in
  let l := StepLayout None node_cnt (Some node_list) 0 0 None (req_num_tasks req) (req_task_dist req) None in
  '(req', l, rc) ← init_task_layout req l (if arbitrary then Some (req_node_list req) else None);
  if negb (rc =? SLURM_SUCCESS)
  then _ ← slurm_step_layout_destroy (Some l); Ret (req', None)
  else Ret (req', Some l).

(** ** Looking up tasks *)
Definition host_has_task (tasks : list Z) (tids : list (list Z)) (taskid i : Z) : exec bool :=
  t ← aget tasks i;
  l ← aget tids i;
  for_while negb (fun j _ => x ← aget l j; Ret (x =? taskid)) (Z.to_nat t) 0 false.

Definition slurm_step_layout_host_id (s : step_layout) (taskid : Z) : exec Z :=
  match sl_tasks s, sl_tids s with
  | Some tasks, Some tids =>
      if u32 (sl_task_cnt s - 1) <? u32 taskid then Ret SLURM_ERROR else
      for_while (fun r => r =? SLURM_ERROR)
        (fun i r => b ← host_has_task tasks tids (u32 taskid) i; Ret (if (b : bool) then i else r))
        (Z.to_nat (sl_node_cnt s)) 0 SLURM_ERROR
  | _, _ => Ret SLURM_ERROR
  end.

(** [nodelist_nth_host]. *)
Definition slurm_step_layout_host_name (s : step_layout) (taskid : Z) : exec (option cstr) :=
  hostid ← slurm_step_layout_host_id s taskid;
  if hostid <? 0 then Ret None
  else Ret (from_option hosts_of [] (sl_node_list s) !! Z.to_nat hostid).
End layout.

(** ** Layouts without an allocation *)

(** The inner loop: hand out the next task ids to one node, up to [task_cnt];
    the result is the next id, the array and the number of entries used. *)
Definition fake_fill (task_cnt cpn cur : Z) : exec (Z * list Z * Z) :=
  '(cur, l, used, _) ← for_while (fun '(_, _, _, full) => negb full)
    (fun j '(cur, l, used, _) =>
       l ← aset l j cur;
       let cur := u32 (cur + 1) in
       if task_cnt <=? cur then Ret (cur, l, u16 (j + 1), true) else Ret (cur, l, used, false))
    (Z.to_nat cpn) 0 (cur, replicate (Z.to_nat cpn) 0, u16 cpn, false);
  Ret (cur, l, used).

Definition fake_slurm_step_layout_create (tlist : option cstr) (cpus_per_node cpu_count_reps : option (list Z))
    (node_cnt task_cnt : Z) : exec (option step_layout) :=
  if (node_cnt <=? 0) || ((task_cnt <=? 0) && bool_decide (cpus_per_node = None)) ||
     bool_decide (tlist = None)
  then Ret None else
  '(cur, _, _, tasks, tids) ← for_while (fun _ => true)
    (fun i '(cur, cpu_inx, cpu_cnt, tasks, tids) =>
       match cpus_per_node, cpu_count_reps with
       | Some cpn, Some reps =>
           t ← aget cpn cpu_inx;
           '(cpu_inx, cpu_cnt) ← rep_next reps cpu_inx cpu_cnt;
           Ret (u32 (cur + t), cpu_inx, cpu_cnt, tasks ++ [t], tids ++ [u32 <$> seqZ cur t])
       | _, _ =>
           let left := u32 (node_cnt - i) in
           let cpn := u32 (u32 (task_cnt - cur) + left - 1) `quot` left in
           if task_cnt <=? cur
           then Ret (cur, cpu_inx, cpu_cnt, tasks ++ [0], tids ++ [[]])
           else '(cur, l, used) ← fake_fill task_cnt cpn cur;
                Ret (cur, cpu_inx, cpu_cnt, tasks ++ [used], tids ++ [l])
       end)
    (Z.to_nat node_cnt) 0 (0, 0, 0, [], []);
  Ret (Some (StepLayout None node_cnt tlist 0 0 (Some tasks) cur 0 (Some tids))).

(** ** Copies *)
Definition copy_tids (node_cnt : Z) (tasks : list Z) (tids : list (list Z)) : exec (list (list Z)) :=
  for_while (fun _ => true)
    (fun i acc =>
       t ← aget tasks i;
       l ← aget tids i;
       l ← read_mem l t;
       Ret (acc ++ [l]))
    (Z.to_nat node_cnt) 0 [].

Definition slurm_step_layout_copy (l : option step_layout) : exec (option step_layout) :=
  match l with
  | None => Ret None
  | Some s =>
      match sl_tasks s, sl_tids s with
      | Some tasks, Some tids =>
          tasks' ← read_mem tasks (sl_node_cnt s);
          tids' ← copy_tids (sl_node_cnt s) tasks' tids;
          Ret (Some (StepLayout None (sl_node_cnt s) (sl_node_list s) 0 (sl_start_protocol_ver s)
                       (Some tasks') (sl_task_cnt s) (sl_task_dist s) (Some tids')))
      | _, _ => Fault
      end
  end.

(** ** Messages *)
Definition SLURM_16_05_PROTOCOL_VERSION : Z := Z.shiftl 30 8.
Definition SLURM_MIN_PROTOCOL_VERSION : Z := Z.shiftl 29 8.

Definition pack_layout_tids (s : step_layout) (b : slurm_buf) : exec slurm_buf :=
  for_while (fun _ => true)
    (fun i b =>
       match sl_tasks s, sl_tids s with
       | Some tasks, Some tids =>
           l ← aget tids i;
           t ← aget tasks i;
           pack32_array l t b
       | _, _ => Fault
       end)
    (Z.to_nat (sl_node_cnt s)) 0 b.

Definition pack_slurm_step_layout (l : option step_layout) (protocol_version : Z) (b : slurm_buf) :
    exec slurm_buf :=
  if SLURM_MIN_PROTOCOL_VERSION <=? protocol_version
  then
    b ← pack16 (if bool_decide (l = None) then 0 else 1) b;
    match l with
    | None => Ret b
    | Some s =>
        b ← packstr (sl_front_end s) b;
        b ← packstr (sl_node_list s) b;
        b ← pack32 (sl_node_cnt s) b;
        b ← (if SLURM_16_05_PROTOCOL_VERSION <=? protocol_version
             then pack16 (sl_start_protocol_ver s) b else Ret b);
        b ← pack32 (sl_task_cnt s) b;
        b ← pack32 (sl_task_dist s) b;
        pack_layout_tids s b
    end
  else Ret b.

(** An unpacked string, as text.  Unpacking does not look for the NUL: a block
    without one is taken as it is. *)
Definition unpack_cstr (slurmdbd_conf : bool) : unpacker (option cstr) :=
  m <-? unpackstr_xmalloc_chooser slurmdbd_conf ;;
  uret (c_prefix <$> m).

Definition empty_layout (start_protocol_ver : Z) : step_layout :=
  StepLayout None 0 None 0 start_protocol_ver None 0 0 None.

(** [safe_unpack...(&step_layout->field, ...)]: on failure continue with
    [unpack_error] on the layout as far as it was filled. *)
Definition unpack_field {A : Type} (u : unpacker A) (k : A -> slurm_buf -> exec (slurm_buf * option step_layout * Z))
    (s : step_layout) : slurm_buf -> exec (slurm_buf * option step_layout * Z) := fun b =>
  '(b, r) ← u b;
  match r with
  | Some a => k a b
  | None => _ ← slurm_step_layout_destroy (Some s); Ret (b, None, SLURM_ERROR)
  end.

Fixpoint unpack_layout_tids (s : step_layout) (n : nat) (tasks : list Z) (tids : list (list Z)) :
    slurm_buf -> exec (slurm_buf * option step_layout * Z) :=
  match n with
  | O => fun b => Ret (b, Some (with_arrays s (sl_node_cnt s) tasks tids), SLURM_SUCCESS)
  | S n => unpack_field unpack32_array (fun l b =>
             unpack_layout_tids s n (tasks ++ [u16 (Z.of_nat (length l))]) (tids ++ [l]) b)
             (with_arrays s (sl_node_cnt s) (tasks ++ replicate (S n) 0) (tids ++ replicate (S n) []))
  end.

(** [old] is the value of the caller's layout pointer before the call. *)
Definition unpack_slurm_step_layout (slurmdbd_conf : bool) (protocol_version : Z)
    (old : option step_layout) : slurm_buf -> exec (slurm_buf * option step_layout * Z) := fun b =>
  if SLURM_MIN_PROTOCOL_VERSION <=? protocol_version
  then
    '(b, r) ← unpack16 b;
    match r with
    | None => Ret (b, None, SLURM_ERROR)
    | Some 0 => Ret (b, old, SLURM_SUCCESS)
    | Some _ =>
        let new := SLURM_16_05_PROTOCOL_VERSION <=? protocol_version in
        let s := empty_layout (if new then 0 else protocol_version) in
        unpack_field (unpack_cstr slurmdbd_conf) (fun fe =>
          let s := StepLayout fe 0 None 0 (sl_start_protocol_ver s) None 0 0 None in
        unpack_field (unpack_cstr slurmdbd_conf) (fun nl =>
          let s := StepLayout fe 0 nl 0 (sl_start_protocol_ver s) None 0 0 None in
        unpack_field unpack32 (fun nc =>
          let s := StepLayout fe nc nl 0 (sl_start_protocol_ver s) None 0 0 None in
        unpack_field (if new then unpack16 else uret (sl_start_protocol_ver s)) (fun ver =>
          let s := StepLayout fe nc nl 0 ver None 0 0 None in
        unpack_field unpack32 (fun tc =>
          let s := StepLayout fe nc nl 0 ver None tc 0 None in
        unpack_field unpack32 (fun td =>
          let s := StepLayout fe nc nl 0 ver None tc td None in
          unpack_layout_tids s (Z.to_nat nc) [] []) s) s) s) s) s) s b
    end
  else Ret (b, None, SLURM_ERROR).

(** ** Names *)
Local Open Scope string_scope.
Definition dist_name (base : Z) : string * bool :=
  match base with
  | 0x0001 => ("Cyclic", false) | 0x0002 => ("Block", false)
  | 0x0003 => ("Arbitrary", false) | 0x0004 => ("Plane", false)
  | 0x0011 => ("CCyclic", false) | 0x0021 => ("CBlock", false)
  | 0x0012 => ("BCyclic", false) | 0x0022 => ("BBlock", false)
  | 0x0031 => ("CFCyclic", false) | 0x0032 => ("BFCyclic", false)
  | 0x0111 => ("CCyclicCyclic", true) | 0x0211 => ("CCyclicBlock", true)
  | 0x0311 => ("CCyclicFCyclic", true) | 0x0121 => ("CBlockCyclic", true)
  | 0x0221 => ("CBlockBlock", true) | 0x0321 => ("CCyclicFCyclic", true)
  | 0x0131 => ("CFCyclicCyclic", true) | 0x0231 => ("CFCyclicBlock", true)
  | 0x0331 => ("CFCyclicFCyclic", true) | 0x0112 => ("BCyclicCyclic", true)
  | 0x0212 => ("BCyclicBlock", true) | 0x0312 => ("BCyclicFCyclic", true)
  | 0x0122 => ("BBlockCyclic", true) | 0x0222 => ("BBlockBlock", true)
  | 0x0322 => ("BBlockFCyclic", true) | 0x0132 => ("BFCyclicCyclic", true)
  | 0x0232 => ("BFCyclicBlock", true) | 0x0332 => ("BFCyclicFCyclic", true)
  | _ => ("Unknown", false)
  end.

(** The cases that return directly do not mention the packing flags. *)
Definition slurm_step_layout_type_name (task_dist : Z) : string :=
  let '(name, returns) := dist_name (Z.land task_dist SLURM_DIST_STATE_BASE) in
  if (returns : bool) then name else
  let name := if flag task_dist SLURM_DIST_PACK_NODES then name ++ "," ++ "Pack" else name in
  if flag task_dist SLURM_DIST_NO_PACK_NODES then name ++ "," ++ "NoPack" else name.
