(* ===== verification/HostlistLayout.v ===== *)
(** * Host lists for the layout code: src/common/hostlist.c behind [HostExprs]

    The interface that slurm_step_layout.c uses, discharged by the functions of
    hostlist.c: expressions are parsed, made unique and printed again. *)

From S2P Require Import Prelude StepLayout NatCmp Hostlist HostlistParse HostlistPrint HostlistFacts HostlistOps HostlistSeq HostlistOrder HostlistNames.

Local Open Scope Z_scope.
Local Open Scope slurm_scope.

Section names.
Context (env : cluster_env) (fill : Z -> cstr) (g : grid) (fuel : nat).

(** The names of a list, by position. *)
Definition host_names (hl : hostlist) : exec (list cstr) :=
  l ← mapM (hostlist_nth env hl) (seqZ 0 (hostlist_count hl)); Ret (omap id l).

Definition expr_hosts (s : cstr) : exec (list cstr) :=
  hl ← hostlist_create env fuel s;
  match hl with Some hl => host_names hl | None => Fault end.

(** [hl = hostlist_create(node_list); hostlist_uniq(hl);
    buf = hostlist_ranged_string_xmalloc(hl)]. *)
Definition expr_uniq (s : cstr) : exec cstr :=
  hl ← hostlist_create env fuel s;
  match hl with
  | Some hl => hl ← hostlist_uniq hl; '(text, _) ← hostlist_ranged_string_xmalloc fill env g hl; Ret text
  | None => Fault
  end.

(** Expressions of at most 65536 names that fit the buffers and are padded to one
    width per prefix. *)
Definition expr_ok (s : cstr) : Prop :=
  exists hl l, hostlist_create env fuel s = Ret (Some hl) /\ is_seq hl l /\ uniform l /\ Forall printable l /\ Z.of_nat (length l) <= MAX_RANGE.

Context (E1 : one_dim env) (Hfill : forall n, 0 <= n -> Z.of_nat (length (fill n)) = n).

Lemma host_names_spec hl rs : hl_rep hl rs -> Forall short (rhosts rs) -> host_names hl = Ret (rhosts rs).
Proof using E1.
  intros R F. unfold host_names, hostlist_count. rewrite (rep_nhosts _ _ R).
  assert (H : forall k l, (forall n, 0 <= n -> l !! Z.to_nat n = rhosts rs !! Z.to_nat (k + n)) -> 0 <= k ->
    wp (mapM (hostlist_nth env hl) (seqZ k (Z.of_nat (length l)))) (fun r => omap id r = l)).
  { intros k l. revert k. induction l as [|s l IH]; intros k Hl Hk; [done|]. cbn [length]. rewrite seqZ_cons by lia. rewrite Nat2Z.inj_succ, Z.pred_succ. cbn [mapM].
    rewrite (nth_spec env hl rs k) by done. pose proof (Hl 0 ltac:(lia)) as H0. simpl in H0. rewrite Z.add_0_r in H0. rewrite <-H0. cbn [mbind exec_bind].
    apply wp_bind. eapply wp_mono; [apply (IH (Z.succ k)); [|lia]|].
    - intros n Hn. specialize (Hl (n + 1) ltac:(lia)). replace (Z.to_nat (n + 1)) with (S (Z.to_nat n)) in Hl by lia. simpl in Hl. rewrite Hl. f_equal. lia.
    - intros r <-. done. }
  apply wp_eq, wp_bind. eapply wp_mono; [apply (H 0 (rhosts rs)); [done|lia]|]. by intros r ->.
Qed.

Lemma expr_ok_spec s : expr_ok s -> exists l l' text, expr_hosts s = Ret l /\ expr_uniq s = Ret text /\ expr_hosts text = Ret l' /\
  NoDup l' /\ forall h, h ∈ l' <-> h ∈ l.
Proof using All.
  intros (hl & l & Ec & Hs & U & Hp & Hlen). destruct (uniq_seq hl l Hs U) as (hl' & l' & Eu & Hs' & Hnd & Hm & _).
  assert (Hle : (length l' <= length l)%nat). { apply submseteq_length, NoDup_submseteq; [done|]. intros h. by rewrite Hm. }
  destruct (read_back_seq env E1 fill Hfill g hl' l' fuel Hs') as (text & hl2 & rs & Et & Ec2 & R & Er & _); [|lia|].
  { rewrite Forall_forall in Hp |- *. intros h Hh. by apply Hp, Hm. }
  exists l, l', text. unfold expr_hosts, expr_uniq. rewrite Ec, Ec2. simpl. rewrite Eu. simpl. rewrite Et. simpl.
  destruct Hs as (rs0 & R0 & <- & _ & F0), Hs' as (rs1 & _ & <- & _ & F1).
  rewrite (host_names_spec hl rs0), (host_names_spec hl2 rs) by (done || by rewrite Er). by rewrite Er.
Qed.
End names.

(** The interface, for systems of one dimension. *)
Definition host_exprs (env : cluster_env) (fill : Z -> cstr) (g : grid) (fuel : nat) (E1 : one_dim env)
    (Hfill : forall n, 0 <= n -> Z.of_nat (length (fill n)) = n) : HostExprs.
Proof.
  refine {| hosts_of s := value [] (expr_hosts env fuel s); uniq_string s := value [] (expr_uniq env fill g fuel s); hosts_ok := expr_ok env fuel |}.
  - intros s Hs. destruct (expr_ok_spec env fill g fuel E1 Hfill s Hs) as (l & l' & text & _ & Eu & H & Hnd & _). rewrite Eu. simpl. by rewrite H.
  - intros s h Hs. destruct (expr_ok_spec env fill g fuel E1 Hfill s Hs) as (l & l' & text & El & Eu & H & _ & Hm). rewrite El, Eu. simpl. by rewrite H.
Defined.

(** ** Examples *)

Lemma replicate_fill c n : 0 <= n -> Z.of_nat (length (replicate (Z.to_nat n) c : cstr)) = n.
Proof. intros Hn. rewrite length_replicate. lia. Qed.

Definition hosts_1d : HostExprs :=
  host_exprs (ClusterEnv None 1 false) (fun n => replicate (Z.to_nat n) 0) grid_init 0 eq_refl (replicate_fill 0).

(** "n[1-3]" and "n[1-2],n1". *)
Definition text_123 : cstr := [110; 91; 49; 45; 51; 93].
Definition text_121 : cstr := [110; 91; 49; 45; 50; 93; 44; 110; 49].

Lemma text_121_ok : @hosts_ok hosts_1d text_121.
Proof.
  exists (value hostlist_new (from_option Ret Fault (value None (hostlist_create (ClusterEnv None 1 false) 0 text_121)))), [[110; 49]; [110; 50]; [110; 49]].
  split; [by vm_compute|]. split; [|split; [exists (fun _ => 1); by repeat constructor|split; [|by vm_compute]]].
  - exists [(0%nat, hostrange_create [110] 1 2 1); (1%nat, hostrange_create [110] 1 1 1)].
    split_and!; [|by vm_compute|repeat constructor; by intros c [= <-]|repeat constructor].
    split; [split|..]; try done; try (repeat constructor; done || lia). by apply (bool_decide_unpack _).
  - repeat constructor; try done; try lia; by apply (bool_decide_unpack _).
Qed.
