(* ===== verification/StepLayoutFacts.v ===== *)
(** * Task layout of job steps: lemmas

    The counting half of a layout is described by [counted]: the counters add
    up to the number of tasks placed.  [fair] says that no node has more tasks
    than CPUs while another has fewer.  The numbering half is described by
    [numbered]: each node has as many task ids as its counter says, and
    together they are the ids below the task count. *)

From S2P Require Import Prelude StepLayout.

Local Open Scope Z_scope.
Local Open Scope slurm_scope.

(** ** Sums and updates *)
Definition sumZ (l : list Z) : Z := foldr Z.add 0 l.

Lemma sumZ_app l l' : sumZ (l ++ l') = sumZ l + sumZ l'.
Proof. induction l as [|x l IH]; simpl; [done|]. unfold sumZ in *. lia. Qed.

Lemma sumZ_insert l i x y : l !! i = Some x -> sumZ (<[i := y]> l) = sumZ l - x + y.
Proof.
  revert i. induction l as [|z l IH]; intros [|i]; simpl; try done.
  - intros [= ->]. unfold sumZ. simpl. lia.
  - intros H. specialize (IH i H). unfold sumZ in *. simpl. lia.
Qed.

Lemma sumZ_nonneg l : Forall (fun x => 0 <= x) l -> 0 <= sumZ l.
Proof. induction 1; unfold sumZ in *; simpl; lia. Qed.

Lemma sumZ_lookup l i x : Forall (fun x => 0 <= x) l -> l !! i = Some x -> 0 <= x <= sumZ l.
Proof.
  intros HF. revert i. induction HF as [|z l Hz HF IH]; intros [|i]; simpl; try done.
  - intros [= ->]. pose proof (sumZ_nonneg l HF). unfold sumZ in *. simpl. lia.
  - intros H. specialize (IH i H). unfold sumZ in *. simpl. lia.
Qed.

Lemma sumZ_replicate n : sumZ (replicate n 0) = 0.
Proof. induction n; unfold sumZ in *; simpl; lia. Qed.

(** The value at an index, zero outside the array. *)
Definition at_ (l : list Z) (i : Z) : Z := if i <? 0 then 0 else default 0 (l !! Z.to_nat i).

Lemma at_lookup l i : 0 <= i < Z.of_nat (length l) -> l !! Z.to_nat i = Some (at_ l i).
Proof.
  intros Hi. unfold at_. if_false.
  destruct (lookup_lt_is_Some_2 l (Z.to_nat i)) as [x Hx]; [lia|]. by rewrite Hx.
Qed.

Lemma at_insert l i x k :
  0 <= i < Z.of_nat (length l) -> at_ (<[Z.to_nat i := x]> l) k = if k =? i then x else at_ l k.
Proof.
  intros Hi. unfold at_. destruct (Z.ltb_spec k 0); [by rewrite (proj2 (Z.eqb_neq k i)) by lia|].
  destruct (Z.eqb_spec k i) as [->|].
  - by rewrite list_lookup_insert_eq by lia.
  - by rewrite list_lookup_insert_ne by lia.
Qed.

Lemma at_replicate n k : at_ (replicate n 0) k = 0.
Proof.
  unfold at_. destruct (k <? 0); [done|]. destruct (replicate n 0 !! Z.to_nat k) eqn:H; [|done].
  by apply lookup_replicate in H as [-> _].
Qed.

Lemma aget_at l i : 0 <= i < Z.of_nat (length l) -> aget l i = Ret (at_ l i).
Proof. intros Hi. apply aget_lookup; [lia|]. by apply at_lookup. Qed.

Lemma sumZ_le (f g : list Z) :
  length f = length g -> (forall k, 0 <= k < Z.of_nat (length f) -> at_ f k <= at_ g k) ->
  sumZ f <= sumZ g /\ (sumZ f = sumZ g -> f = g).
Proof.
  revert g. induction f as [|x f IH]; intros [|y g] Hl Hle; simpl in *; try done.
  destruct (IH g) as [H1 H2]; [lia| |].
  { intros k Hk. specialize (Hle (k + 1) ltac:(lia)). unfold at_ in *.
    repeat match goal with H : context [?a <? ?b] |- _ => replace (a <? b) with false in H by lia end.
    repeat match goal with |- context [?a <? ?b] => replace (a <? b) with false by lia end.
    by replace (Z.to_nat (k + 1)) with (S (Z.to_nat k)) in Hle by lia. }
  specialize (Hle 0 ltac:(lia)). unfold at_ in Hle; simpl in Hle. unfold sumZ in *; simpl.
  split; [lia|]. intros Heq. f_equal; [lia|apply H2; lia].
Qed.

(** ** Counting *)

(** [tasks] has room for [n] nodes and holds [t] tasks, none beyond node [n]. *)
Record counted (n t : Z) (tasks : list Z) : Prop := {
  cnt_len : n <= Z.of_nat (length tasks);
  cnt_nonneg : Forall (fun x => 0 <= x) tasks;
  cnt_beyond : forall k, n <= k -> at_ tasks k = 0;
  cnt_sum : sumZ tasks = t
}.

(** No node is over-subscribed while another has a CPU left. *)
Definition fair (n : Z) (cpus tasks : list Z) : Prop :=
  (forall k, 0 <= k < n -> at_ tasks k <= at_ cpus k) \/
  (forall k, 0 <= k < n -> at_ cpus k <= at_ tasks k).

Lemma counted_at n t tasks k : counted n t tasks -> 0 <= at_ tasks k <= t.
Proof.
  intros [Hl Hn Hb Hs]. pose proof (sumZ_nonneg _ Hn). destruct (decide (0 <= k < Z.of_nat (length tasks))).
  - rewrite <-Hs. apply (sumZ_lookup _ (Z.to_nat k)); [done|]. by apply at_lookup.
  - unfold at_. destruct (Z.ltb_spec k 0); [lia|]. rewrite lookup_ge_None_2 by lia. simpl. lia.
Qed.

Lemma counted_start n m : n <= Z.of_nat m -> counted n 0 (replicate m 0).
Proof.
  intros Hm. constructor.
  - by rewrite length_replicate.
  - by apply Forall_replicate.
  - intros k _. apply at_replicate.
  - apply sumZ_replicate.
Qed.

Lemma incr_tasks_spec n t tasks i (Q : list Z -> Prop) :
  counted n t tasks -> 0 <= i < n -> t < 65535 ->
  (forall tasks', counted n (t + 1) tasks' -> length tasks' = length tasks ->
     (forall k, at_ tasks' k = if k =? i then at_ tasks i + 1 else at_ tasks k) -> Q tasks') ->
  wp (incr_tasks tasks i) Q.
Proof.
  intros Hc Hi Ht HQ. pose proof Hc as [Hl Hn Hb Hs]. pose proof (counted_at n t tasks i Hc).
  unfold incr_tasks. rewrite aget_at by lia. cbn [mbind exec_bind].
  apply wp_aset; [lia|]. unfold u16. rewrite Z.mod_small by lia.
  assert (Hat : forall k, at_ (<[Z.to_nat i := at_ tasks i + 1]> tasks) k =
    if k =? i then at_ tasks i + 1 else at_ tasks k) by (intros k; apply at_insert; lia).
  apply HQ; [|by rewrite length_insert|done]. constructor.
  - by rewrite length_insert.
  - apply Forall_insert; [done|lia].
  - intros k Hk. rewrite Hat, (proj2 (Z.eqb_neq k i)) by lia. by apply Hb.
  - rewrite (sumZ_insert _ _ (at_ tasks i)); [lia|]. apply at_lookup. lia.
Qed.

(** ** Rounds over the nodes *)
Section rounds.
Context {A : Type} (cnt : A -> list Z) (J : Z -> A -> Prop) (place : Z -> Z -> A -> exec A).
Context (n task_cnt : Z) (cpus : list Z).
Hypothesis Hn : 0 < n <= Z.of_nat (length cpus).
Hypothesis Htask : task_cnt <= 65535.
Hypothesis Hcpus : forall k, 0 <= at_ cpus k.
(** Placing a task counts it on its node and keeps [J]. *)
Hypothesis Hplace : forall i t a, 0 <= i < n -> t < task_cnt -> counted n t (cnt a) -> J t a ->
  wp (place i t a) (fun a' => counted n (t + 1) (cnt a') /\ J (t + 1) a' /\
    forall k, at_ (cnt a') k = if k =? i then at_ (cnt a) i + 1 else at_ (cnt a) k).

(** Where the counters stand in round [j] before node [i]. *)
Definition level (over : bool) (j i : Z) (tasks : list Z) : Prop :=
  if over then forall k, 0 <= k < n -> at_ cpus k <= at_ tasks k
  else forall k, 0 <= k < n -> at_ tasks k = Z.min (at_ cpus k) (if k <? i then j + 1 else j).

Lemma level_fair over j i tasks : level over j i tasks -> fair n cpus tasks.
Proof.
  destruct over; simpl; intros Hl; [by right|left]. intros k Hk. rewrite Hl by done. lia.
Qed.

Definition round_inv (over : bool) (j t0 i : Z) : Z * bool * A -> Prop := fun '(t, space, a) =>
  0 <= t <= task_cnt /\ counted n t (cnt a) /\ J t a /\ level over j i (cnt a) /\
  (space = false -> over = false -> forall k, 0 <= k < i -> at_ cpus k <= j + 1) /\
  (t0 <= t) /\ (over = true -> 0 < i -> t0 < t) /\
  (over = false -> t0 = t -> space = false).

Lemma round_step over j t0 i s :
  0 <= i < n -> 0 <= j -> round_inv over j t0 i s -> (let '(t, _, _) := s in t <? task_cnt) = true ->
  wp ((fun '(taskid, space_remaining, a) =>
         c ← aget cpus i;
         if (j <? c) || over
         then a ← place i taskid a; Ret (taskid + 1, space_remaining || (j + 1 <? c), a)
         else Ret (taskid, space_remaining, a)) s) (round_inv over j t0 (i + 1)).
Proof.
  intros Hi Hj. destruct s as [[t space] a]. intros (Ht & Hc & HJ & Hlev & Hsp & Hle & Hov & Hno) Hlt.
  rewrite aget_at by lia. cbn [mbind exec_bind]. apply Z.ltb_lt in Hlt.
  destruct ((j <? at_ cpus i) || over) eqn:Hcond.
  - apply wp_bind. eapply wp_mono; [by apply Hplace|]. intros a' (Hc' & HJ' & Hat). apply wp_ret.
    split_and!; try done; try lia.
    + destruct over; simpl in *; intros k Hk; rewrite Hat.
      * destruct (Z.eqb_spec k i) as [->|]; [|by apply Hlev]. specialize (Hlev i Hi). lia.
      * rewrite orb_false_r in Hcond. destruct (Z.eqb_spec k i) as [->|]; rewrite Hlev by lia; if_solve.
    + intros Hs -> k Hk. apply orb_false_iff in Hs as [Hs1 Hs2].
      destruct (decide (k = i)) as [->|]; [lia|apply Hsp; [done|done|lia]].
  - apply orb_false_iff in Hcond as [Hcond ->]. apply wp_ret. split_and!; try done; try lia.
    + intros k Hk. simpl in Hlev. rewrite Hlev by lia. destruct (decide (k = i)) as [->|]; if_solve.
    + intros Hs _ k Hk. destruct (decide (k = i)) as [->|]; [lia|apply Hsp; [done|done|lia]].
Qed.

Lemma cyclic_rounds_spec a :
  0 <= task_cnt -> counted n 0 (cnt a) -> (forall k, 0 <= k < n -> at_ (cnt a) k = 0) -> J 0 a ->
  wp (cyclic_rounds place n task_cnt cpus a) (fun a' =>
    counted n task_cnt (cnt a') /\ J task_cnt a' /\ fair n cpus (cnt a')).
Proof.
  intros H0 Hc Hz HJ. unfold cyclic_rounds.
  eapply (wp_loop (fun '(j, t, over, a) => 0 <= j /\ 0 <= t <= task_cnt /\ counted n t (cnt a) /\ J t a /\
            fair n cpus (cnt a) /\ (t < task_cnt -> level over j 0 (cnt a)))
          (fun '(_, t, over, _) => (2 * Z.to_nat (task_cnt - t) + (if (over : bool) then 0 else 1))%nat)
          (fun a' => counted n task_cnt (cnt a') /\ J task_cnt a' /\ fair n cpus (cnt a')));
    [| |unfold layout_fuel; lia|done].
  2: { split_and!; [lia|lia|lia|done|done| |].
       - left. intros k Hk. rewrite Hz by done. apply Hcpus.
       - intros _ k Hk. rewrite Hz by done. specialize (Hcpus k). if_solve. }
  intros [[[j t] over] a1] (Hj & Ht & Hc1 & HJ1 & Hf & Hlev). destruct (Z.ltb_spec t task_cnt) as [Hlt|Hge].
  2: { apply wp_ret. assert (t = task_cnt) as -> by lia. done. }
  specialize (Hlev Hlt). apply wp_bind.
  eapply (wp_for (fun i s => 0 <= i <= n /\ round_inv over j t i s)).
  - split; [lia|]. split_and!; try done; try lia.
  - intros i [[t1 sp] a2] Hi [_ HI] Hcond. eapply wp_mono; [apply (round_step over j t i (t1, sp, a2)); [lia|done..]|].
    intros s HI'. split; [lia|done].
  - intros i [[t1 sp] a2] Hi [Hin (Ht1 & Hc2 & HJ2 & Hlev2 & Hsp & Hle & Hov & Hno)] Hend.
    apply wp_ret. split_and!; try done; try lia.
    + by apply (level_fair over j i).
    + intros Hlt1. assert (i = n) as -> by (destruct Hend as [?|Hend]; [lia|]; apply Z.ltb_ge in Hend; lia).
      destruct over; simpl; [done|]. destruct sp; simpl.
      * intros k Hk. rewrite Hlev2 by done. if_solve.
      * intros k Hk. rewrite Hlev2 by done. specialize (Hsp eq_refl eq_refl k Hk). if_solve.
    + destruct (decide (t = t1)) as [<-|]; [|destruct over, sp; simpl; lia].
      destruct over; [exfalso; destruct Hend as [?|Hend]; [lia|]|by rewrite Hno by done; simpl; lia].
      apply Z.ltb_ge in Hend. lia.
Qed.
End rounds.

(** ** Packed block distribution *)
Definition below (n : Z) (cpus tasks : list Z) : Prop :=
  forall k, 0 <= k < n -> at_ tasks k <= at_ cpus k.

Section packed.
Context (n task_cnt : Z) (cpus : list Z).
Hypothesis Hn : 0 < n <= Z.of_nat (length cpus).
Hypothesis Htask : 0 <= task_cnt <= 65535.

Definition placed (t : Z) (tasks : list Z) : Prop :=
  0 <= t <= task_cnt /\ counted n t tasks.

Lemma pack_pass1_spec s :
  placed s.1 s.2 -> below n cpus s.2 ->
  wp (pack_pass1 n task_cnt cpus s) (fun s' => placed s'.1 s'.2 /\ below n cpus s'.2).
Proof.
  intros Hp Hb. unfold pack_pass1.
  eapply (wp_for (fun _ s => placed s.1 s.2 /\ below n cpus s.2)); [done| |intros k s' _ HI _; exact HI].
  clear s Hp Hb. intros i [t tasks] Hi [[Ht Hc] Hb] Hlt. apply Z.ltb_lt in Hlt. simpl in *.
  pose proof (cnt_len _ _ _ Hc).
  rewrite !aget_at by lia. cbn [mbind exec_bind]. destruct (Z.ltb_spec (at_ tasks i) (at_ cpus i)).
  - apply wp_bind. eapply incr_tasks_spec; [exact Hc|lia|lia|]. intros tasks' Hc' _ Hat. apply wp_ret. simpl.
    split; [split; [lia|done]|]. intros k Hk. rewrite Hat. destruct (Z.eqb_spec k i) as [->|]; [lia|by apply Hb].
  - apply wp_ret. done.
Qed.

Lemma pack_pass2_spec s :
  placed s.1 s.2 -> below n cpus s.2 ->
  wp (pack_pass2 n task_cnt cpus s) (fun s' => placed s'.1 s'.2 /\ below n cpus s'.2 /\
    (s'.1 < task_cnt -> forall k, 0 <= k < n -> at_ s'.2 k = at_ cpus k)).
Proof.
  intros Hp Hb. unfold pack_pass2.
  eapply (wp_for (fun i s => placed s.1 s.2 /\ below n cpus s.2 /\
    (s.1 < task_cnt -> forall k, 0 <= k < i -> at_ s.2 k = at_ cpus k))).
  - split_and!; [done..|]. intros _ k Hk. lia.
  - clear s Hp Hb. intros i s Hi (Hp & Hb & Hfull) Hlt.
    eapply (wp_loop (fun s => placed s.1 s.2 /\ below n cpus s.2 /\
      (s.1 < task_cnt -> forall k, 0 <= k < i -> at_ s.2 k = at_ cpus k)) (fun s => Z.to_nat (task_cnt - s.1)));
      [|done|destruct s as [t tasks], Hp; unfold layout_fuel; simpl in *; lia|intros r Hr; exact Hr].
    clear s Hp Hb Hfull Hlt. intros [t tasks] ((Ht & Hc) & Hb & Hfull). simpl in *. pose proof (cnt_len _ _ _ Hc).
    rewrite !aget_at by lia. cbn [mbind exec_bind].
    destruct ((at_ tasks i <? at_ cpus i) && (t <? task_cnt)) eqn:Hcond.
    + apply wp_bind. eapply incr_tasks_spec; [exact Hc|lia|lia|]. intros tasks' Hc' _ Hat. apply wp_ret. simpl.
      split; [|lia]. split_and!; [split; [lia|done]|..].
      * intros k Hk. rewrite Hat. destruct (Z.eqb_spec k i) as [->|]; [lia|by apply Hb].
      * intros Ht' k Hk. rewrite Hat, (proj2 (Z.eqb_neq k i)) by lia. apply Hfull; lia.
    + apply wp_ret. split_and!; [done..|]. intros Ht' k Hk. simpl in *.
      destruct (decide (k = i)) as [->|]; [|apply Hfull; lia]. specialize (Hb i). lia.
  - intros k s' Hk (Hp' & Hb' & Hfull) Hend. split_and!; [done..|]. intros Ht.
    destruct s' as [t tasks]. simpl in *. replace n with k by lia. by apply Hfull.
Qed.

Lemma pack_pass3_spec s :
  placed s.1 s.2 -> fair n cpus s.2 ->
  (s.1 < task_cnt -> forall k, 0 <= k < n -> at_ cpus k <= at_ s.2 k) ->
  wp (pack_pass3 n task_cnt s) (fun tasks => counted n task_cnt tasks /\ fair n cpus tasks).
Proof.
  intros Hp Hf Hfull. unfold pack_pass3.
  eapply (wp_loop (fun s => placed s.1 s.2 /\ fair n cpus s.2 /\
      (s.1 < task_cnt -> forall k, 0 <= k < n -> at_ cpus k <= at_ s.2 k)) (fun s => Z.to_nat (task_cnt - s.1)));
    [|done|destruct s as [t tasks], Hp; unfold layout_fuel; simpl in *; lia|intros r Hr; exact Hr].
  clear s Hp Hf Hfull. intros [t tasks] ((Ht & Hc) & Hf & Hfull). simpl in *.
  destruct (Z.ltb_spec t task_cnt) as [Hlt|]; [|apply wp_ret; by replace task_cnt with t by lia].
  apply wp_bind. specialize (Hfull Hlt).
  eapply (wp_for (fun i s => placed s.1 s.2 /\ t <= s.1 /\ (0 < i -> t < s.1) /\
    forall k, 0 <= k < n -> at_ cpus k <= at_ s.2 k)).
  - split_and!; simpl; done || lia.
  - intros i [t1 tasks1] Hi ((Ht1 & Hc1) & Hle & Hinc & Hge) Hlt1. apply Z.ltb_lt in Hlt1. simpl in *.
    apply wp_bind. eapply incr_tasks_spec; [exact Hc1|lia|lia|]. intros tasks' Hc' _ Hat. apply wp_ret. simpl.
    split_and!; [split; [lia|done]|lia|lia|]. intros k Hk. rewrite Hat. specialize (Hge k Hk).
    destruct (Z.eqb_spec k i) as [->|]; lia.
  - intros i [t1 tasks1] Hi ((Ht1 & Hc1) & Hle & Hinc & Hge) Hend. simpl in *. apply wp_ret. simpl.
    split; [split_and!; [split; [lia|done]|by right|done]|lia].
Qed.
End packed.

(** ** Numbering *)
Record numbered (n t : Z) (tasks : list Z) (tids : list (list Z)) : Prop := {
  num_len : n <= Z.of_nat (length tids) /\ n <= Z.of_nat (length tasks);
  num_cnt : forall i l, tids !! i = Some l -> Z.of_nat (length l) = at_ tasks (Z.of_nat i);
  num_beyond : forall i l, n <= Z.of_nat i -> tids !! i = Some l -> l = [];
  num_perm : concat tids ≡ₚ seqZ 0 t
}.

Lemma numbered_intro n t tasks tids :
  counted n t tasks -> n <= Z.of_nat (length tids) ->
  (forall i l, tids !! i = Some l -> Z.of_nat (length l) = at_ tasks (Z.of_nat i)) ->
  concat tids ≡ₚ seqZ 0 t -> numbered n t tasks tids.
Proof.
  intros Hc Hl Hcnt Hp. constructor; [split; [done|apply Hc]|done| |done]. intros i l Hi Hil. apply Hcnt in Hil.
  rewrite (cnt_beyond _ _ _ Hc) in Hil by done. destruct l; [done|simpl in Hil; lia].
Qed.

Lemma seqZ_snoc t : 0 <= t -> seqZ 0 (t + 1) = seqZ 0 t ++ [t].
Proof. intros Ht. replace (t + 1) with (Z.of_nat (S (Z.to_nat t))) by lia. rewrite seqZ_S. do 2 f_equal; [lia|f_equal; lia]. Qed.

Lemma seqZ_join m n1 n2 : 0 <= n1 -> 0 <= n2 -> seqZ m n1 ++ seqZ (m + n1) n2 = seqZ m (n1 + n2).
Proof. intros H1 H2. by rewrite seqZ_app by lia. Qed.

Lemma concat_insert (tids : list (list Z)) i l x :
  tids !! i = Some l -> concat (<[i := l ++ x]> tids) ≡ₚ concat tids ++ x.
Proof.
  intros Hi. rewrite insert_take_drop by (by eapply lookup_lt_Some).
  rewrite <-(take_drop_middle tids i l Hi) at 3. rewrite !concat_app. simpl.
  rewrite <-!app_assoc. do 2 f_equiv. by rewrite Permutation_app_comm.
Qed.

Lemma sumZ_take_all tasks n t : counted n t tasks -> sumZ (take (Z.to_nat n) tasks) = t.
Proof.
  intros [Hl Hn Hb Hs]. rewrite <-Hs. rewrite <-(take_drop (Z.to_nat n) tasks) at 2. rewrite sumZ_app.
  assert (HF : Forall (eq 0) (drop (Z.to_nat n) tasks)).
  { apply Forall_lookup. intros i x Hx. rewrite lookup_drop in Hx. destruct (decide (0 <= n)).
    - specialize (Hb (Z.of_nat (Z.to_nat n + i)) ltac:(lia)). unfold at_ in Hb.
      rewrite (proj2 (Z.ltb_ge _ _)), Nat2Z.id, Hx in Hb by lia. done.
    - specialize (Hb (Z.of_nat (Z.to_nat n + i)) ltac:(lia)). unfold at_ in Hb.
      rewrite (proj2 (Z.ltb_ge _ _)), Nat2Z.id, Hx in Hb by lia. done. }
  assert (sumZ (drop (Z.to_nat n) tasks) = 0); [|lia].
  induction HF as [|x l <- HF IH]; [done|]. unfold sumZ in *. simpl. lia.
Qed.

Lemma take_insert_S {A} (l : list A) i x :
  (i < length l)%nat -> take (S i) (<[i := x]> l) = take i l ++ [x].
Proof.
  intros Hi. erewrite take_S_r by (by apply list_lookup_insert_eq). by rewrite take_insert_ge by lia.
Qed.

Lemma number_tasks_spec n t tasks m :
  0 <= n <= Z.of_nat m -> counted n t tasks ->
  wp (number_tasks n tasks (replicate m [])) (fun tids =>
    numbered n t tasks tids /\ concat tids = seqZ 0 t).
Proof.
  intros H0 Hc. pose proof Hc as [Hl Hn Hb Hs]. unfold number_tasks. apply wp_bind.
  eapply (wp_for (fun i '(task_id, tids) => 0 <= task_id /\ task_id = sumZ (take (Z.to_nat i) tasks) /\
    length tids = m /\ concat (take (Z.to_nat i) tids) = seqZ 0 task_id /\
    (forall k, i <= k -> tids !! Z.to_nat k = replicate m [] !! Z.to_nat k) /\
    (forall k l, 0 <= k < i -> tids !! Z.to_nat k = Some l -> Z.of_nat (length l) = at_ tasks k))).
  - split_and!; try done; [by rewrite length_replicate|intros k l Hk; lia].
  - intros i [task_id tids] Hi (Ht & Hsum & Hlen & Hcat & Hrest & Hcnt) _.
    assert (Hi' : 0 <= i < Z.of_nat (length tasks)) by lia.
    pose proof (at_lookup _ _ Hi') as Hat. pose proof (counted_at _ _ _ i Hc).
    rewrite aget_at by lia. cbn [mbind exec_bind]. apply wp_bind, wp_aset; [lia|]. apply wp_ret.
    replace (Z.to_nat (i + 1)) with (S (Z.to_nat i)) by lia. split_and!.
    + lia.
    + erewrite take_S_r by exact Hat. rewrite sumZ_app. unfold sumZ at 2. simpl. lia.
    + by rewrite length_insert.
    + rewrite take_insert_S by lia. rewrite concat_app, Hcat. simpl.
      rewrite app_nil_r. rewrite <-(Z.add_0_l task_id) at 2. apply seqZ_join; lia.
    + intros k Hk. rewrite list_lookup_insert_ne by lia. apply Hrest. lia.
    + intros k l Hk. destruct (decide (k = i)) as [->|].
      * rewrite list_lookup_insert_eq by lia. intros [= <-]. rewrite length_seqZ. lia.
      * rewrite list_lookup_insert_ne by lia. apply Hcnt. lia.
  - intros i [task_id tids] Hi (Ht & Hsum & Hlen & Hcat & Hrest & Hcnt) Hend.
    assert (i = n) as -> by (destruct Hend; [lia|done]). apply wp_ret.
    rewrite (sumZ_take_all _ _ _ Hc) in Hsum. subst task_id.
    assert (Hall : concat tids = seqZ 0 t).
    { rewrite <-(take_drop (Z.to_nat n) tids), concat_app, Hcat.
      replace (concat (drop (Z.to_nat n) tids)) with (@nil Z); [apply app_nil_r|]. symmetry.
      apply concat_nil_Forall, Forall_lookup. intros k l Hk. rewrite lookup_drop in Hk.
      specialize (Hrest (Z.of_nat (Z.to_nat n + k)) ltac:(lia)). rewrite Nat2Z.id, Hk in Hrest.
      symmetry in Hrest. by apply lookup_replicate in Hrest as [-> _]. }
    split; [|done]. apply numbered_intro; [done|lia| |by rewrite Hall].
    intros k l Hk. destruct (decide (Z.of_nat k < n)).
    + apply Hcnt; [lia|]. by rewrite Nat2Z.id.
    + specialize (Hrest (Z.of_nat k) ltac:(lia)). rewrite Nat2Z.id, Hk in Hrest. symmetry in Hrest.
      apply lookup_replicate in Hrest as [-> _]. rewrite Hb by lia. done.
Qed.

Lemma cyclic_place_spec n task_cnt i t st :
  0 <= i < n -> 0 <= t < task_cnt -> task_cnt <= 65535 -> counted n t st.1 -> numbered n t st.1 st.2 ->
  wp (cyclic_place i t st) (fun st' => counted n (t + 1) st'.1 /\ numbered n (t + 1) st'.1 st'.2 /\
    forall k, at_ st'.1 k = if k =? i then at_ st.1 i + 1 else at_ st.1 k).
Proof.
  destruct st as [tasks tids]. simpl. intros Hi Ht Hmax Hc [[Hlen _] Hcnt _ Hperm]. pose proof (cnt_len _ _ _ Hc).
  pose proof (counted_at _ _ _ i Hc). destruct (lookup_lt_is_Some_2 tids (Z.to_nat i)) as [l Hl]; [lia|].
  pose proof (Hcnt _ _ Hl) as Hll. rewrite Z2Nat.id in Hll by lia.
  rewrite aget_at by lia. rewrite (aget_lookup tids i l) by (done || lia). cbn [mbind exec_bind].
  rewrite resize_ge, Z2Nat.inj_add by lia.
  replace (Z.to_nat (at_ tasks i) + Z.to_nat 1 - length l)%nat with 1%nat by lia. cbn [replicate].
  apply wp_bind, wp_aset; [rewrite length_app; simpl; lia|].
  replace (Z.to_nat (at_ tasks i)) with (length l + 0)%nat by lia. rewrite insert_app_r. cbn [list_insert insert].
  apply wp_bind, wp_aset; [lia|]. apply wp_bind. eapply incr_tasks_spec; [exact Hc|lia|lia|].
  intros tasks' Hc' Hl' Hat. apply wp_ret. simpl. split_and!; [done| |done]. apply numbered_intro; [done|..].
  - by rewrite length_insert.
  - intros k l' Hk. rewrite Hat. destruct (decide (k = Z.to_nat i)) as [->|].
    + rewrite list_lookup_insert_eq in Hk by lia. injection Hk as <-. rewrite Z2Nat.id, Z.eqb_refl by lia.
      rewrite length_app. simpl. lia.
    + rewrite list_lookup_insert_ne in Hk by lia. rewrite (proj2 (Z.eqb_neq _ _)) by lia. by apply Hcnt.
  - rewrite concat_insert by done. rewrite Hperm, <-seqZ_snoc by lia. done.
Qed.

(** ** Plane distribution: counting *)
Section plane.
Context (n task_cnt plane_size : Z) (cpus : list Z).
Hypothesis Hn : 0 < n <= Z.of_nat (length cpus).
Hypothesis Htask : 0 <= task_cnt <= 65535.
Hypothesis Hplane : 0 < plane_size.
Hypothesis Hcpus : forall k, 0 <= k < n -> 1 <= at_ cpus k.

(** Over-subscribed nodes are full; others are not over-subscribed. *)
Definition plane_level (over : bool) (tasks : list Z) : Prop :=
  if over then forall k, 0 <= k < n -> at_ cpus k <= at_ tasks k
  else forall k, 0 <= k < n -> at_ tasks k <= at_ cpus k.

Lemma plane_level_fair over tasks : plane_level over tasks -> fair n cpus tasks.
Proof. destruct over; [by right|by left]. Qed.

Definition plane_inv (strict over : bool) (t0 : Z) (full : Z -> Prop) : Z * bool * list Z -> Prop :=
  fun '(t, space, tasks) =>
  t0 <= t <= task_cnt /\ 0 <= t /\ counted n t tasks /\ (strict = true -> plane_level over tasks) /\
  (strict = true -> over = false -> space = false -> t < task_cnt ->
     forall k, 0 <= k < n -> full k -> at_ tasks k = at_ cpus k) /\
  (t = t0 -> space = false).

Lemma plane_node_step strict over t0 i k first full s :
  0 <= i < n -> plane_inv strict over t0 (fun m => full m \/ (m = i /\ first < k)) s ->
  (let '(t, _, _) := s in t <? task_cnt) = true -> first <= k ->
  wp ((fun '(taskid, space_remaining, tasks) =>
         c ← aget cpus i;
         t ← aget tasks i;
         if negb (c - t =? 0) || over
         then tasks ← incr_tasks tasks i;
              t ← aget tasks i;
              Ret (taskid + 1, space_remaining || (0 <=? c - (t + 1)), tasks)
         else Ret (taskid, space_remaining, tasks)) s)
     (fun s' => plane_inv strict over t0 (fun m => full m \/ (m = i /\ first < k + 1)) s' /\
        (over = true -> t0 < (let '(t, _, _) := s' in t))).
Proof.
  intros Hi. destruct s as [[t space] tasks]. intros (Ht & H0 & Hc & Hlev & Hfull & Hno) Hlt Hk.
  apply Z.ltb_lt in Hlt. pose proof (cnt_len _ _ _ Hc). rewrite !aget_at by lia. cbn [mbind exec_bind].
  destruct (negb (at_ cpus i - at_ tasks i =? 0) || over) eqn:Hcond.
  - apply wp_bind. eapply incr_tasks_spec; [exact Hc|lia|lia|]. intros tasks' Hc' Hl' Hat.
    rewrite aget_at by lia. cbn [mbind exec_bind]. rewrite (Hat i), Z.eqb_refl. apply wp_ret.
    split; [|lia]. split_and!; try lia; try done.
    + intros Hs. specialize (Hlev Hs). destruct over; simpl in *; intros m Hm; specialize (Hlev m Hm); rewrite Hat;
        (destruct (Z.eqb_spec m i) as [->|]; lia).
    + intros Hs -> Hsp Hlt' m Hm Hf. specialize (Hlev Hs i Hi). apply orb_false_iff in Hsp as [Hsp Hge].
      rewrite Hat. destruct (Z.eqb_spec m i) as [->|]; [lia|].
      apply Hfull; [done|done|done|lia|done|]. destruct Hf as [?|[? _]]; [by left|done].
  - apply orb_false_iff in Hcond as [Hcond ->]. apply wp_ret. split; [|done]. split_and!; try lia; try done.
    intros Hs _ Hsp Hlt' m Hm [Hf|[-> _]]; [|lia]. apply Hfull; [done..|by left].
Qed.

Definition plane_body (over : bool) (i : Z) : Z * bool * list Z -> exec (Z * bool * list Z) :=
  fun '(taskid, space_remaining, tasks) =>
    c ← aget cpus i;
    t ← aget tasks i;
    if negb (c - t =? 0) || over
    then tasks ← incr_tasks tasks i;
         t ← aget tasks i;
         Ret (taskid + 1, space_remaining || (0 <=? c - (t + 1)), tasks)
    else Ret (taskid, space_remaining, tasks).

Lemma plane_node_spec strict over t0 i ps s :
  0 <= i < n -> 0 <= ps <= plane_size -> (strict = true -> ps < plane_size) ->
  plane_inv strict over t0 (fun m => m < i) s ->
  wp (for_while (fun '(taskid, _, _) => taskid <? task_cnt) (fun _ => plane_body over i)
        (Z.to_nat (plane_size - ps)) ps s)
     (fun s' => plane_inv strict over t0 (fun m => m < i + 1) s' /\
        ((let '(t, _, _) := s in t <? task_cnt) = true -> over = true -> ps < plane_size ->
         t0 < (let '(t, _, _) := s' in t))).
Proof.
  intros Hi Hps Hstrict HI.
  eapply (wp_for (fun k s' => plane_inv strict over t0 (fun m => m < i \/ (m = i /\ ps < k)) s' /\
    (over = true -> ps < k -> t0 < (let '(t, _, _) := s' in t)) /\
    (ps = k -> s' = s))).
  - split_and!; [|lia|done]. destruct s as [[t space] tasks]. destruct HI as (? & ? & ? & ? & Hf & ?).
    unfold plane_inv. split_and!; try done; try lia. intros ? ? ? ? m Hm [?|[? ?]]; [by apply Hf|lia].
  - intros k s' Hk (HI' & _ & _) Hcond.
    eapply wp_mono; [apply (plane_node_step strict over t0 i k ps (fun m => m < i) s'); [done|done|done|lia]|].
    intros s'' [HI'' Hp]. split_and!; [done|by intros Ho _; apply Hp|lia].
  - intros k s' Hk (HI' & Hprog & Hsame) Hend. split.
    + destruct s' as [[t space] tasks]. destruct HI' as (? & ? & ? & ? & Hf & ?).
      unfold plane_inv. split_and!; try done; try lia. intros Hs ? ? Hlt m Hm Hm'. apply Hf; [done..|].
      destruct Hend as [->|Hend]; [|lia]. specialize (Hstrict Hs). lia.
    + intros Hlt Ho Hlt'. destruct (decide (ps = k)) as [Heq|]; [|apply Hprog; [done|lia]].
      specialize (Hsame Heq). subst s'. destruct Hend as [?|Hend]; [lia|congruence].
Qed.

Lemma plane_round_spec strict over t0 ps s :
  0 <= ps <= plane_size -> (strict = true -> ps < plane_size) ->
  plane_inv strict over t0 (fun _ => False) s ->
  wp (for_while (fun '(taskid, _, _) => taskid <? task_cnt)
        (fun i st => for_while (fun '(taskid, _, _) => taskid <? task_cnt) (fun _ => plane_body over i)
           (Z.to_nat (plane_size - ps)) ps st)
        (Z.to_nat n) 0 s)
     (fun s' => plane_inv strict over t0 (fun _ => True) s' /\
        ((let '(t, _, _) := s in t <? task_cnt) = true -> over = true -> ps < plane_size ->
         t0 < (let '(t, _, _) := s' in t))).
Proof.
  intros Hps Hstrict HI.
  eapply (wp_for (fun i s' => plane_inv strict over t0 (fun m => m < i) s' /\
    (over = true -> ps < plane_size -> 0 < i -> t0 < (let '(t, _, _) := s' in t)) /\ (0 = i -> s' = s))).
  - split_and!; [|lia|done]. destruct s as [[t space] tasks]. destruct HI as (? & ? & ? & ? & Hf & ?).
    unfold plane_inv. split_and!; try done; try lia.
  - intros i s' Hi (HI' & _ & _) Hcond.
    eapply wp_mono; [apply (plane_node_spec strict over t0 i ps s'); [lia|done|done|done]|].
    intros s'' [HI'' Hp]. split_and!; [done|intros; by apply Hp|lia].
  - intros i s' Hi (HI' & Hprog & Hsame) Hend. split.
    + destruct s' as [[t space] tasks]. destruct HI' as (? & ? & ? & ? & Hf & ?).
      unfold plane_inv. split_and!; try done; try lia. intros ? ? ? Hlt m Hm _. apply Hf; try done. lia.
    + intros Hlt Ho Hlt'. destruct (decide (0 = i)) as [Heq|]; [|apply Hprog; [done|done|lia]].
      specialize (Hsame Heq). subst s'. destruct Hend as [?|Hend]; [lia|congruence].
Qed.

(** The first task of each node. *)
Lemma plane_first_spec t tasks :
  0 <= t < task_cnt -> counted n t tasks -> (forall k, 0 <= k < n -> at_ tasks k = 0) ->
  wp (for_while (fun '(taskid, _) => taskid <? task_cnt)
        (fun i '(taskid, tasks) => tasks ← incr_tasks tasks i; Ret (taskid + 1, tasks))
        (Z.to_nat n) 0 (t, tasks))
     (fun '(t', tasks') => t < t' <= task_cnt /\ counted n t' tasks' /\
        forall k, 0 <= k < n -> at_ tasks' k <= 1).
Proof.
  intros Ht Hc Hz.
  eapply (wp_for (fun i '(t', tasks') => t <= t' <= task_cnt /\ (0 < i -> t < t') /\ counted n t' tasks' /\
    forall k, 0 <= k < n -> at_ tasks' k = if k <? i then 1 else 0)).
  - split_and!; [lia|lia|lia|done|]. intros k Hk. rewrite Hz by done. if_solve.
  - intros i [t' tasks'] Hi (Ht' & _ & Hc' & Hat) Hlt. apply Z.ltb_lt in Hlt. apply wp_bind.
    eapply incr_tasks_spec; [exact Hc'|lia|lia|]. intros tasks'' Hc'' _ Hat'. apply wp_ret.
    split_and!; [lia|lia|lia|done|]. intros k Hk. rewrite Hat'. destruct (Z.eqb_spec k i) as [->|].
    + rewrite Hat by lia. if_solve.
    + rewrite Hat by done. if_solve.
  - intros i [t' tasks'] Hi (Ht' & Hinc & Hc' & Hat) Hend. split_and!; [|lia|done|].
    + destruct (decide (0 < i)); [lia|]. destruct Hend as [?|Hend]; [lia|]. apply Z.ltb_ge in Hend. lia.
    + intros k Hk. rewrite Hat by done. if_solve.
Qed.

Lemma plane_counts_spec tasks :
  counted n 0 tasks -> (forall k, 0 <= k < n -> at_ tasks k = 0) ->
  wp (plane_counts n task_cnt plane_size cpus tasks) (fun tasks' =>
    counted n task_cnt tasks' /\ (1 < plane_size -> fair n cpus tasks')).
Proof.
  intros Hc Hz. unfold plane_counts. set (strict := 1 <? plane_size).
  eapply (wp_loop (fun '(j, t, over, tasks) => 0 <= j /\ 0 <= t <= task_cnt /\ counted n t tasks /\
            (strict = true -> fair n cpus tasks) /\ (strict = true -> t < task_cnt -> plane_level over tasks) /\
            (j = 0 -> t = 0 /\ over = false /\ forall k, 0 <= k < n -> at_ tasks k = 0))
          (fun '(_, t, over, _) => (2 * Z.to_nat (task_cnt - t) + (if (over : bool) then 0 else 1))%nat) _ _);
    [| |unfold layout_fuel; lia|intros r Hr; exact Hr].
  2: { split_and!; try done; try lia.
       - intros _. left. intros k Hk. rewrite Hz by done. specialize (Hcpus k Hk). lia.
       - intros _ _ k Hk. rewrite Hz by done. specialize (Hcpus k Hk). lia. }
  clear tasks Hc Hz. intros [[[j t] over] tasks] (Hj & Ht & Hc & Hf & Hlev & Hj0).
  destruct (Z.ltb_spec t task_cnt) as [Hlt|Hge].
  2: { apply wp_ret. assert (t = task_cnt) as -> by lia. split; [done|]. intros. apply Hf. subst strict. lia. }
  apply wp_bind.
  apply (wp_mono _ (fun '(t', tasks') => t <= t' <= task_cnt /\ (j = 0 -> t < t') /\ counted n t' tasks' /\
    (strict = true -> plane_level over tasks'))).
  { destruct (Z.eqb_spec j 0) as [->|].
    - destruct (Hj0 eq_refl) as (-> & -> & Hz). eapply wp_mono; [by apply plane_first_spec|].
      intros [t' tasks'] (? & ? & Hle). split_and!; [lia|lia|lia|done|]. intros _ k Hk.
      specialize (Hle k Hk). specialize (Hcpus k Hk). lia.
    - apply wp_ret. split_and!; [lia|lia|lia|done|]. intros Hs. by apply Hlev. }
  intros [t' tasks'] (Ht' & Hjt & Hc' & Hlev'). apply wp_bind.
  eapply wp_mono; [apply (plane_round_spec strict over t' (if j =? 0 then 1 else 0) (t', false, tasks'))|].
  - if_solve.
  - subst strict. if_solve.
  - unfold plane_inv. split_and!; try done; try lia.
  - intros [[t1 space] tasks1] [(Ht1 & _ & Hc1 & Hlev1 & Hfull & Hno) Hprog]. apply wp_ret.
    split; [split_and!; try done; try lia|].
    + intros Hs. by apply (plane_level_fair over), Hlev1.
    + intros Hs Hlt1. specialize (Hlev1 Hs). destruct over; [done|]. destruct space; [done|]. simpl.
      intros k Hk. rewrite (Hfull Hs eq_refl eq_refl Hlt1 k Hk I). lia.
    + destruct (decide (t = t1)) as [<-|]; [|destruct over, space; simpl; lia].
      assert (t' = t) as -> by lia. destruct over; [|rewrite Hno by done; simpl; lia].
      exfalso. rewrite (proj2 (Z.ltb_lt _ _)) in Hprog by lia. 
      destruct (Z.eqb_spec j 0); [lia|]. specialize (Hprog eq_refl eq_refl ltac:(lia)). lia.
Qed.
End plane.

(** ** Plane distribution: numbering *)

(** The task ids written so far: the first [cur] slots of every node. *)
Definition filled (cur : list Z) (tids : list (list Z)) : list Z :=
  concat (zip_with (fun c l => take (Z.to_nat c) l) cur tids).

Lemma plane_fill_spec task_cnt plane_size t taskid cur l :
  0 <= cur <= t -> Z.of_nat (length l) = t -> 0 <= taskid <= task_cnt ->
  wp (plane_fill task_cnt plane_size t (taskid, cur, l)) (fun '(taskid', cur', l') =>
    exists m, 0 <= m /\ taskid' = taskid + m /\ cur' = cur + m /\ cur' <= t /\ taskid' <= task_cnt /\
      length l' = length l /\ take (Z.to_nat cur') l' = take (Z.to_nat cur) l ++ seqZ taskid m /\
      (m = 0 -> l' = l) /\ (m = 0 -> 0 < plane_size -> cur = t \/ taskid = task_cnt)).
Proof.
  intros Hcur Hl Ht. unfold plane_fill.
  eapply (wp_for (fun k '(taskid', cur', l') => exists m, 0 <= m /\ taskid' = taskid + m /\ cur' = cur + m /\
      cur' <= t /\ taskid' <= task_cnt /\ length l' = length l /\
      take (Z.to_nat cur') l' = take (Z.to_nat cur) l ++ seqZ taskid m /\ (m = 0 -> l' = l) /\ (m = 0 -> k = 0))).
  - exists 0. rewrite app_nil_r, !Z.add_0_r. split_and!; try done; lia.
  - intros k [[taskid' cur'] l'] Hk (m & Hm & -> & -> & Hc' & Ht' & Hl' & Htk & _) Hcond.
    apply andb_true_iff in Hcond as [Hc1 Hc2]. apply Z.ltb_lt in Hc1, Hc2.
    apply wp_bind, wp_aset; [lia|]. apply wp_ret. exists (m + 1). rewrite length_insert.
    split_and!; try lia. replace (Z.to_nat (cur + m + 1)) with (S (Z.to_nat (cur + m))) by lia.
    rewrite take_insert_S by lia. rewrite Htk, <-app_assoc. f_equal.
    replace (m + 1) with (Z.of_nat (S (Z.to_nat m))) by lia. rewrite seqZ_S, Z2Nat.id by lia. done.
  - intros k [[taskid' cur'] l'] Hk (m & Hm & -> & -> & Hc' & Ht' & Hl' & Htk & H0 & Hk0) Hend.
    exists m. split_and!; try done. intros -> Hps. specialize (Hk0 eq_refl). rewrite !Z.add_0_r in Hend.
    destruct Hend as [?|Hend]; [lia|]. apply andb_false_iff in Hend. lia.
Qed.

Section plane_numbering.
Context (n task_cnt plane_size : Z) (tasks : list Z) (m : nat).
Hypothesis Hn : 0 <= n <= Z.of_nat m.
Hypothesis Hplane : 0 < plane_size.
Hypothesis Hc : counted n task_cnt tasks.

Definition slots (tids : list (list Z)) : Prop :=
  length tids = m /\ forall i l, tids !! i = Some l -> Z.of_nat (length l) = at_ tasks (Z.of_nat i).

Definition pn_inv : Z * list (list Z) * list Z -> Prop := fun '(taskid, tids, cur) =>
  0 <= taskid <= task_cnt /\ slots tids /\ Z.of_nat (length cur) = n /\ sumZ cur = taskid /\
  (forall k, 0 <= k < n -> 0 <= at_ cur k <= at_ tasks k) /\ filled cur tids ≡ₚ seqZ 0 taskid.

Definition pn_body (i : Z) : Z * list (list Z) * list Z -> exec (Z * list (list Z) * list Z) :=
  fun '(taskid, tids, cur_task) =>
    t ← aget tasks i;
    cur ← aget cur_task i;
    l ← aget tids i;
    '(taskid, cur, l) ← plane_fill task_cnt plane_size t (taskid, cur, l);
    tids ← aset tids i l;
    cur_task ← aset cur_task i cur;
    Ret (taskid, tids, cur_task).

Lemma pn_body_spec i taskid tids cur :
  0 <= i < n -> pn_inv (taskid, tids, cur) ->
  wp (pn_body i (taskid, tids, cur)) (fun '(taskid', tids', cur') => pn_inv (taskid', tids', cur') /\
    taskid <= taskid' /\ (taskid' = taskid -> cur' = cur /\ (at_ cur i = at_ tasks i \/ taskid = task_cnt))).
Proof using All.
  intros Hi (Ht & [Hlen Hsl] & Hlc & Hsum & Hle & Hfill). pose proof (cnt_len _ _ _ Hc).
  destruct (lookup_lt_is_Some_2 tids (Z.to_nat i)) as [l Hl]; [lia|].
  pose proof (Hsl _ _ Hl) as Hll. rewrite Z2Nat.id in Hll by lia. unfold pn_body.
  rewrite !aget_at, (aget_lookup tids i l) by (done || lia). cbn [mbind exec_bind].
  apply wp_bind. eapply wp_mono; [apply plane_fill_spec; [by apply Hle|done|done]|].
  intros [[taskid' c'] l'] (d & Hd & -> & -> & Hcap & Ht' & Hl' & Htk & Hsame & Hfull).
  apply wp_bind, wp_aset; [lia|]. apply wp_bind, wp_aset; [lia|]. apply wp_ret.
  assert (Hcl : cur !! Z.to_nat i = Some (at_ cur i)) by (apply at_lookup; lia).
  split_and!; [|lia|].
  - unfold pn_inv, slots. split_and!; try lia.
    + by rewrite length_insert.
    + intros k l0 Hk. destruct (decide (k = Z.to_nat i)) as [->|].
      * rewrite list_lookup_insert_eq in Hk by lia. injection Hk as <-. rewrite Hl', Z2Nat.id by lia. done.
      * rewrite list_lookup_insert_ne in Hk by lia. by apply Hsl.
    + by rewrite length_insert.
    + rewrite (sumZ_insert _ _ _ _ Hcl). lia.
    + intros k Hk. rewrite at_insert by lia. specialize (Hle k Hk). destruct (Z.eqb_spec k i) as [->|]; lia.
    + unfold filled. rewrite <-insert_zip_with, Htk, concat_insert.
      * fold (filled cur tids). rewrite Hfill. rewrite <-seqZ_join by lia. done.
      * rewrite lookup_zip_with, Hcl, Hl. done.
  - intros Heq. assert (d = 0) as -> by lia. rewrite Z.add_0_r, list_insert_id by done. split; [done|].
    destruct (Hfull eq_refl Hplane) as [?|?]; [by left|by right].
Qed.

Lemma pn_round_spec taskid tids cur :
  taskid < task_cnt -> pn_inv (taskid, tids, cur) ->
  wp (for_while (fun '(taskid, _, _) => taskid <? task_cnt) pn_body (Z.to_nat n) 0 (taskid, tids, cur))
     (fun '(taskid', tids', cur') => pn_inv (taskid', tids', cur') /\ taskid < taskid').
Proof using All.
  intros Hlt HI.
  eapply (wp_for (fun i '(taskid', tids', cur') => pn_inv (taskid', tids', cur') /\ taskid <= taskid' /\
    (taskid' = taskid -> cur' = cur /\ forall k, 0 <= k < i -> at_ cur k = at_ tasks k))).
  - split_and!; [done|lia|]. intros _. split; [done|lia].
  - intros i [[taskid' tids'] cur'] Hi (HI' & Hle & Hsame) _.
    eapply wp_mono; [by apply pn_body_spec; [lia|]|]. intros [[taskid2 tids2] cur2] (HI2 & Hle2 & Hsame2).
    split_and!; [done|lia|]. intros Heq. assert (taskid' = taskid) as Heq' by lia.
    destruct (Hsame Heq') as [-> Hk]. destruct Hsame2 as [-> Hi2]; [lia|]. split; [done|].
    intros k Hk'. destruct (decide (k = i)) as [->|]; [|apply Hk; lia]. destruct Hi2; [done|lia].
  - intros i [[taskid' tids'] cur'] Hi (HI' & Hle & Hsame) Hend. split; [done|].
    destruct (decide (taskid' = taskid)) as [->|]; [exfalso|lia].
    destruct (Hsame eq_refl) as [-> Hk]. destruct Hend as [->|Hend]; [|apply Z.ltb_ge in Hend; lia].
    destruct HI as (Ht & _ & Hlc & Hsum & _ & _). pose proof (cnt_len _ _ _ Hc).
    assert (cur = take (Z.to_nat n) tasks) as ->; [|rewrite (sumZ_take_all _ _ _ Hc) in Hsum; lia].
    apply list_eq_same_length with (n := Z.to_nat n); [rewrite length_take; lia|lia|].
    intros k x y Hk' Hx Hy. rewrite lookup_take_lt in Hy by lia.
    specialize (Hk (Z.of_nat k) ltac:(lia)). unfold at_ in Hk.
    rewrite (proj2 (Z.ltb_ge _ _)), Nat2Z.id, Hx, Hy in Hk by lia. done.
Qed.
End plane_numbering.

Lemma filled_all n task_cnt tasks m tids cur :
  0 <= n <= Z.of_nat m -> counted n task_cnt tasks -> pn_inv n task_cnt tasks m (task_cnt, tids, cur) ->
  filled cur tids = concat tids.
Proof.
  intros Hn Hc (_ & [Hlen Hsl] & Hlc & Hsum & Hle & _). pose proof (cnt_len _ _ _ Hc).
  assert (Hcur : cur = take (Z.to_nat n) tasks).
  { apply (sumZ_le cur (take (Z.to_nat n) tasks)); [rewrite length_take; lia| |].
    - intros k Hk. replace (at_ (take (Z.to_nat n) tasks) k) with (at_ tasks k); [apply Hle; lia|].
      unfold at_. rewrite (proj2 (Z.ltb_ge _ _)) by lia. by rewrite lookup_take_lt by lia.
    - by rewrite (sumZ_take_all _ _ _ Hc). }
  unfold filled. rewrite <-(take_drop (Z.to_nat n) tids) at 2. rewrite concat_app.
  replace (concat (drop (Z.to_nat n) tids)) with (@nil Z).
  2: { symmetry. apply concat_nil_Forall, Forall_lookup. intros i l Hl. rewrite lookup_drop in Hl.
       apply Hsl in Hl. rewrite (cnt_beyond _ _ _ Hc) in Hl by lia. destruct l; [done|simpl in Hl; lia]. }
  rewrite app_nil_r. f_equal. apply list_eq. intros i. rewrite lookup_zip_with.
  destruct (decide (i < Z.to_nat n)%nat) as [Hi|Hi].
  - rewrite lookup_take_lt by done. destruct (tids !! i) as [l|] eqn:Hl;
      [|apply lookup_ge_None_1 in Hl; lia].
    rewrite Hcur, lookup_take_lt by done. pose proof (Hsl _ _ Hl) as Hll. unfold at_ in Hll.
    rewrite (proj2 (Z.ltb_ge _ _)), Nat2Z.id in Hll by lia.
    destruct (tasks !! i) as [x|] eqn:Hx; [|apply lookup_ge_None_1 in Hx; lia]. simpl in *.
    by rewrite take_ge by lia.
  - rewrite (lookup_ge_None_2 cur) by lia. simpl. symmetry. apply lookup_ge_None_2. rewrite length_take. lia.
Qed.

Lemma plane_number_spec n task_cnt plane_size tasks m :
  0 <= n <= Z.of_nat m -> 0 < plane_size -> 0 <= task_cnt -> counted n task_cnt tasks ->
  wp (plane_number n task_cnt plane_size tasks (replicate m [])) (fun '(taskid, tids) =>
    taskid = task_cnt /\ numbered n task_cnt tasks tids).
Proof.
  intros Hn Hps Ht Hc. pose proof (cnt_len _ _ _ Hc). unfold plane_number. apply wp_bind.
  eapply (wp_for (fun i '(tids, cur) => length tids = m /\ cur = replicate (Z.to_nat n) 0 /\
    (forall k, (Z.to_nat i <= k)%nat -> tids !! k = replicate m [] !! k) /\
    (forall k l, (k < Z.to_nat i)%nat -> tids !! k = Some l -> Z.of_nat (length l) = at_ tasks (Z.of_nat k)))).
  - split_and!; [by rewrite length_replicate|done|done|lia].
  - intros i [tids cur] Hi (Hl & -> & Hrest & Hsl) _. pose proof (counted_at _ _ _ i Hc).
    rewrite aget_at by lia. cbn [mbind exec_bind]. apply wp_bind, wp_aset; [lia|].
    apply wp_bind, wp_aset; [rewrite length_replicate; lia|]. apply wp_ret. split_and!.
    + by rewrite length_insert.
    + apply list_insert_id, lookup_replicate_2. lia.
    + intros k Hk. rewrite list_lookup_insert_ne by lia. apply Hrest. lia.
    + intros k l Hk. destruct (decide (k = Z.to_nat i)) as [->|].
      * rewrite list_lookup_insert_eq by lia. intros [= <-]. rewrite length_replicate, !Z2Nat.id by lia. done.
      * rewrite list_lookup_insert_ne by lia. apply Hsl. lia.
  - intros i [tids cur] Hi (Hl & -> & Hrest & Hsl) Hend. destruct Hend as [->|]; [|done].
    rewrite Z.add_0_l, Nat2Z.id in *.
    assert (HI : pn_inv n task_cnt tasks m (0, tids, replicate (Z.to_nat n) 0)).
    { unfold pn_inv, slots. split_and!; try done.
      - intros k l Hk. destruct (decide (k < Z.to_nat n)%nat); [by apply Hsl|].
        rewrite Hrest in Hk by lia. apply lookup_replicate in Hk as [-> _].
        rewrite (cnt_beyond _ _ _ Hc) by lia. done.
      - rewrite length_replicate. lia.
      - apply sumZ_replicate.
      - intros k Hk. rewrite at_replicate. pose proof (counted_at _ _ _ k Hc). lia.
      - clear. unfold filled. assert (zip_with (fun c l => take (Z.to_nat c) l) (replicate (Z.to_nat n) 0) tids
          = replicate (min (Z.to_nat n) (length tids)) []) as ->.
        { generalize (Z.to_nat n) as q. induction tids as [|l tids IH]; intros [|q]; simpl; try done. by rewrite IH. }
        induction (min _ _); simpl; done. }
    eapply (wp_loop (pn_inv n task_cnt tasks m) (fun '(taskid, _, _) => Z.to_nat (task_cnt - taskid))
              (fun '(taskid, tids) => taskid = task_cnt /\ numbered n task_cnt tasks tids));
      [|exact HI|unfold layout_fuel; lia|done].
    clear tids Hl Hrest Hsl HI. intros [[taskid tids] cur] HI. destruct (Z.ltb_spec taskid task_cnt) as [Hlt|Hge].
    + apply wp_bind. eapply wp_mono; [by apply (pn_round_spec n task_cnt plane_size tasks m)|].
      intros [[taskid' tids'] cur'] [HI' Hlt']. apply wp_ret. split; [done|]. lia.
    + apply wp_ret. assert (taskid = task_cnt) as -> by (destruct HI; lia). split; [done|].
      pose proof (filled_all n task_cnt tasks m tids cur Hn Hc HI) as Hall.
      destruct HI as (_ & [Hlen Hsl] & _ & _ & _ & Hfill). apply numbered_intro; [done|lia|done|by rewrite <-Hall].
Qed.

(** ** Arbitrary distribution *)

(** The task ids of a host: its positions in the list of the tasks' hosts. *)
Fixpoint positions (host : cstr) (step_hosts : list cstr) (k : Z) : list Z :=
  match step_hosts with
  | [] => []
  | h :: rest => if bool_decide (host = h) then k :: positions host rest (k + 1)
                 else positions host rest (k + 1)
  end.

Lemma positions_length host l k k' : length (positions host l k) = length (positions host l k').
Proof.
  revert k k'. induction l as [|h l IH]; intros k k'; simpl; [done|].
  destruct (bool_decide _); simpl; by rewrite (IH _ (k' + 1)).
Qed.

Abbreviation occ host l := (Z.of_nat (length (positions host l 0))).

Lemma aset_middle {A} (l r : list A) x y i :
  i = Z.of_nat (length l) -> aset (l ++ x :: r) i y = Ret (l ++ y :: r).
Proof.
  intros ->. unfold aset. rewrite length_app. cbn [length]. rewrite (proj2 (andb_true_iff _ _)) by lia.
  rewrite Nat2Z.id, <-(Nat.add_0_r (length l)), insert_app_r. done.
Qed.

Lemma count_host_spec host l total : forall n tc,
  tc + occ host l <= total -> 0 <= n -> n + occ host l < 65536 ->
  count_host host l total n tc = (n + occ host l, tc + occ host l).
Proof.
  induction l as [|h l IH]; intros n tc Htc Hn Hmax; cbn [count_host positions length] in *.
  { f_equal; lia. }
  destruct (bool_decide (host = h)); cbn [length] in *.
  - unfold u16. rewrite Z.mod_small by lia. rewrite (positions_length host l (0 + 1) 0) in *.
    destruct (Z.leb_spec total (tc + 1)); [f_equal; lia|]. rewrite IH by lia. f_equal; lia.
  - rewrite (positions_length host l (0 + 1) 0) in *.
    destruct (Z.leb_spec total tc); [f_equal; lia|]. by apply IH.
Qed.

Lemma number_host_spec host l : forall n k pre,
  0 < n -> n = Z.of_nat (length pre + length (positions host l k)) ->
  number_host host l n k (Z.of_nat (length pre)) (pre ++ replicate (length (positions host l k)) 0) =
  Ret (pre ++ positions host l k).
Proof.
  induction l as [|h l IH]; intros n k pre H0 Hn; cbn [number_host positions length] in *; [done|].
  destruct (bool_decide (host = h)); cbn [length replicate] in *.
  - rewrite aset_middle by done. cbn [mbind exec_bind].
    destruct (Z.leb_spec n (Z.of_nat (length pre) + 1)) as [Hle|Hgt].
    + assert (positions host l (k + 1) = []) as -> by (apply nil_length_inv; lia). done.
    + specialize (IH n (k + 1) (pre ++ [k])). rewrite length_app, <-!app_assoc in IH. simpl in IH.
      replace (Z.of_nat (length pre) + 1) with (Z.of_nat (length pre + 1)) by lia. apply IH; lia.
  - cbn [mbind exec_bind]. destruct (Z.leb_spec n (Z.of_nat (length pre))) as [Hle|Hgt].
    + assert (positions host l (k + 1) = []) as -> by (apply nil_length_inv; lia). done.
    + by apply IH.
Qed.

Lemma positions_notin host l k : host ∉ l -> positions host l k = [].
Proof.
  revert k. induction l as [|h l IH]; intros k Hin; simpl; [done|].
  rewrite bool_decide_eq_false_2 by set_solver. apply IH. set_solver.
Qed.

Lemma positions_cons_perm hosts h l k :
  NoDup hosts -> h ∈ hosts ->
  concat ((fun x => positions x (h :: l) k) <$> hosts) ≡ₚ
  k :: concat ((fun x => positions x l (k + 1)) <$> hosts).
Proof.
  intros Hnd Hin. apply list_elem_of_split in Hin as (h1 & h2 & ->).
  apply NoDup_app in Hnd as (Hnd1 & Hdis & Hnd2). apply NoDup_cons in Hnd2 as [Hni Hnd2].
  assert (Hsame : forall hs : list cstr, h ∉ hs ->
    (fun x => positions x (h :: l) k) <$> hs = (fun x => positions x l (k + 1)) <$> hs).
  { intros hs Hhs. apply list_fmap_ext. intros i x Hx. simpl. rewrite bool_decide_eq_false_2; [done|].
    intros ->. apply Hhs. by eapply list_elem_of_lookup_2. }
  rewrite !fmap_app, !fmap_cons, !concat_app. rewrite (Hsame h1), (Hsame h2); [|done|].
  2: { intros Hin. apply (Hdis h Hin). left. }
  cbn [concat positions]. rewrite bool_decide_eq_true_2 by done. cbn [app].
  by rewrite <-Permutation_middle.
Qed.

Lemma positions_perm hosts : NoDup hosts -> forall l k,
  (forall h, h ∈ l -> h ∈ hosts) ->
  concat ((fun x => positions x l k) <$> hosts) ≡ₚ seqZ k (Z.of_nat (length l)).
Proof.
  intros Hnd l. induction l as [|h l IH]; intros k Hin.
  - replace (concat _) with (@nil Z); [done|]. symmetry. by apply concat_nil_Forall, Forall_fmap, Forall_true.
  - rewrite positions_cons_perm by (done || apply Hin; left). rewrite IH by (intros x Hx; apply Hin; by right).
    cbn [length]. rewrite Nat2Z.inj_succ, (seqZ_cons k), Z.pred_succ by lia. done.
Qed.

Definition occs (hosts step_hosts : list cstr) : list Z := (fun h => occ h step_hosts) <$> hosts.

Lemma sum_occs hosts l :
  NoDup hosts -> (forall h, h ∈ l -> h ∈ hosts) -> sumZ (occs hosts l) = Z.of_nat (length l).
Proof.
  intros Hnd Hin. pose proof (positions_perm hosts Hnd l 0 Hin) as Hp. apply Permutation_length in Hp.
  rewrite length_seqZ, Nat2Z.id in Hp. rewrite <-Hp. clear. induction hosts as [|h hosts IH]; [done|].
  rewrite fmap_cons. cbn [concat]. rewrite length_app, Nat2Z.inj_add, <-IH. done.
Qed.

Lemma occ_pos host l : host ∈ l -> 0 < occ host l.
Proof.
  induction l as [|h l IH]; intros Hin; [by apply elem_of_nil in Hin|]. cbn [positions].
  destruct (bool_decide (host = h)) eqn:E; cbn [length]; [lia|].
  rewrite (positions_length _ _ _ 0). apply IH. apply bool_decide_eq_false in E.
  apply elem_of_cons in Hin as [?|?]; done.
Qed.

Lemma hostfile_loop_spec step_hosts : forall rest done m,
  NoDup (done ++ rest) -> (forall h, h ∈ step_hosts <-> h ∈ done ++ rest) ->
  Z.of_nat (length step_hosts) <= 65535 -> (length (done ++ rest) <= m)%nat ->
  hostfile_loop rest step_hosts (Z.of_nat (length step_hosts)) (Z.of_nat (length done)) (sumZ (occs done step_hosts))
    (occs done step_hosts ++ replicate (m - length done) 0)
    (((fun h => positions h step_hosts 0) <$> done) ++ replicate (m - length done) []) =
  Ret (Z.of_nat (length step_hosts),
       occs (done ++ rest) step_hosts ++ replicate (m - length (done ++ rest)) 0,
       ((fun h => positions h step_hosts 0) <$> (done ++ rest)) ++ replicate (m - length (done ++ rest)) []).
Proof.
  induction rest as [|h rest IH]; intros dn m Hnd Hin Hmax Hm; cbn [hostfile_loop].
  { rewrite app_nil_r in *. do 3 f_equal. apply sum_occs; [done|]. intros h' Hh. by apply Hin. }
  assert (Hh : h ∈ step_hosts) by (apply Hin, elem_of_app; right; left). pose proof (occ_pos h step_hosts Hh) as Hpos.
  assert (Hsum : sumZ (occs dn step_hosts) + occ h step_hosts <= Z.of_nat (length step_hosts)).
  { rewrite <-(sum_occs (dn ++ h :: rest) step_hosts) by (done || (intros; by apply Hin)).
    unfold occs at 2. rewrite fmap_app, fmap_cons, sumZ_app. fold (occs dn step_hosts) (occs rest step_hosts).
    pose proof (sumZ_nonneg (occs rest step_hosts)) as Hnn. unfold sumZ at 3; cbn [foldr].
    fold (sumZ (occs rest step_hosts)). assert (0 <= sumZ (occs rest step_hosts)); [|lia].
    apply Hnn, Forall_fmap, Forall_forall. intros; simpl; lia. }
  assert (Hnn : 0 <= sumZ (occs dn step_hosts)) by (apply sumZ_nonneg, Forall_fmap, Forall_forall; intros; simpl; lia).
  rewrite length_app in Hm. cbn [length] in Hm.
  assert (Hlo : length (occs dn step_hosts) = length dn) by apply length_fmap.
  assert (Hrep : (m - length dn)%nat = S (m - length (dn ++ [h]))) by (rewrite length_app; simpl; lia).
  rewrite Hrep. cbn [replicate]. rewrite aset_middle by lia. cbn [mbind exec_bind].
  rewrite count_host_spec by lia. rewrite aset_middle by lia. cbn [mbind exec_bind].
  rewrite (proj2 (Z.eqb_neq _ _)) by lia.
  pose proof (number_host_spec h step_hosts (occ h step_hosts) 0 [] Hpos eq_refl) as Hnum.
  cbn [length app] in Hnum. change (Z.of_nat 0) with 0 in Hnum. rewrite Z.add_0_l, Nat2Z.id, Hnum.
  cbn [mbind exec_bind]. rewrite aset_middle by (by rewrite length_fmap). cbn [mbind exec_bind].
  assert (Hlen : Z.of_nat (length dn) <= sumZ (occs dn step_hosts)).
  { assert (Hd : forall h', h' ∈ dn -> h' ∈ step_hosts) by (intros h' Hh'; apply Hin, elem_of_app; by left).
    clear -Hd. induction dn as [|x dn IH]; [done|]. unfold occs, sumZ in *. cbn.
    pose proof (occ_pos x step_hosts ltac:(apply Hd; left)). specialize (IH ltac:(intros h' Hh'; apply Hd; by right)). lia. }
  rewrite (proj2 (Z.ltb_ge _ _)) by lia.
  specialize (IH (dn ++ [h]) m). rewrite <-app_assoc in IH. cbn [app] in IH.
  rewrite length_app in IH. cbn [length] in IH. unfold occs in IH. rewrite !fmap_app, <-!app_assoc, sumZ_app in IH.
  cbn [fmap list_fmap app] in IH. fold (occs dn step_hosts) (occs rest step_hosts) in IH.
  replace (sumZ [occ h step_hosts]) with (occ h step_hosts) in IH by (unfold sumZ; simpl; lia).
  replace (Z.of_nat (length dn) + 1) with (Z.of_nat (length (dn ++ [h]))) by (rewrite length_app; simpl; lia).
  unfold occs at 3. rewrite !fmap_app, (length_app dn (h :: rest)), !fmap_cons.
  fold (occs dn step_hosts) (occs rest step_hosts). rewrite <-!app_assoc.
  apply IH; [done|done|lia|lia].
Qed.

(** ** The layouts of one step *)
Section layouts.
Context (n task_cnt : Z) (cpus : list Z) (m : nat).
Hypothesis Hn : 0 < n <= Z.of_nat (length cpus).
Hypothesis Hm : n <= Z.of_nat m.
Hypothesis Htask : 0 <= task_cnt <= 65535.
Hypothesis Hcpus : forall k, 0 <= at_ cpus k.

Definition laid_out (st : list Z * list (list Z)) : Prop :=
  counted n task_cnt st.1 /\ numbered n task_cnt st.1 st.2.

Lemma numbered_start : numbered n 0 (replicate m 0) (replicate m []).
Proof using Hm.
  apply numbered_intro; [by apply counted_start|by rewrite length_replicate|..].
  - intros i l Hl. apply lookup_replicate in Hl as [-> _]. by rewrite at_replicate.
  - clear. by induction m.
Qed.

Lemma task_layout_cyclic_spec :
  wp (task_layout_cyclic n task_cnt cpus (replicate m 0) (replicate m [])) (fun st =>
    laid_out st /\ fair n cpus st.1).
Proof using All.
  unfold task_layout_cyclic.
  eapply wp_mono; [apply (cyclic_rounds_spec fst (fun t st => numbered n t st.1 st.2)); try done; try lia|].
  - intros i t a Hi Ht Hc HJ. pose proof (counted_at _ _ _ i Hc). by apply (cyclic_place_spec n task_cnt); [|lia|lia|..].
  - by apply counted_start.
  - intros k _. apply at_replicate.
  - apply numbered_start.
  - intros st (Hc & HJ & Hf). done.
Qed.

Lemma block_counts_spec task_dist select_params :
  wp (if block_pack_nodes task_dist select_params
      then s ← pack_pass1 n task_cnt cpus (0, replicate m 0);
           s ← pack_pass2 n task_cnt cpus s;
           pack_pass3 n task_cnt s
      else cyclic_rounds (fun i _ tasks => incr_tasks tasks i) n task_cnt cpus (replicate m 0))
     (fun tasks => counted n task_cnt tasks /\ fair n cpus tasks).
Proof using All.
  pose proof (counted_start n m Hm) as H0. destruct (block_pack_nodes _ _).
  - apply wp_bind. eapply wp_mono; [apply (pack_pass1_spec n task_cnt cpus)|]; try done.
    + split; simpl; [lia|done].
    + intros k Hk. simpl. by rewrite at_replicate.
    + intros s1 [Hp1 Hb1]. apply wp_bind. eapply wp_mono; [by apply (pack_pass2_spec n task_cnt cpus)|].
      intros s2 (Hp2 & Hb2 & Hf2). eapply (pack_pass3_spec n task_cnt cpus); [done|done|done|by left|].
      intros Hlt k Hk. by rewrite Hf2 by done.
  - eapply wp_mono; [apply (cyclic_rounds_spec (fun x => x) (fun _ _ => True)); try done; try lia|].
    + intros i t a Hi Ht Hc _. eapply incr_tasks_spec; [exact Hc|lia|lia|]. intros tasks' Hc' _ Hat. done.
    + intros k _. apply at_replicate.
    + intros tasks (? & _ & ?). done.
Qed.

Lemma task_layout_block_spec task_dist select_params :
  wp (task_layout_block select_params n task_cnt task_dist cpus (replicate m 0) (replicate m []))
     (fun st => laid_out st /\ fair n cpus st.1 /\ concat st.2 = seqZ 0 task_cnt).
Proof using All.
  unfold task_layout_block. apply wp_bind. eapply wp_mono; [apply block_counts_spec|].
  intros tasks [Hc Hf]. apply wp_bind. eapply wp_mono; [apply (number_tasks_spec n task_cnt); [lia|done]|].
  intros tids [Hnum Hcat]. by apply wp_ret.
Qed.

Lemma task_layout_plane_spec plane_size :
  0 < plane_size -> (forall k, 0 <= k < n -> 1 <= at_ cpus k) ->
  wp (task_layout_plane n task_cnt plane_size cpus (replicate m 0) (replicate m [])) (fun r =>
    exists st, r = Some st /\ laid_out st /\ (1 < plane_size -> fair n cpus st.1)).
Proof using All.
  intros Hps H1. unfold task_layout_plane. rewrite (proj2 (Z.leb_gt _ _)) by lia. apply wp_bind.
  eapply wp_mono; [apply (plane_counts_spec n task_cnt plane_size cpus); try done; try lia|].
  - by apply counted_start.
  - intros k _. apply at_replicate.
  - intros tasks [Hc Hf]. apply wp_bind. eapply wp_mono; [apply (plane_number_spec n task_cnt); try done; lia|].
    intros [taskid tids] [-> Hnum]. rewrite Z.eqb_refl. apply wp_ret. exists (tasks, tids). done.
Qed.
End layouts.

Lemma task_layout_hostfile_spec `{!HostExprs} nodes task_cnt m : hosts_ok nodes ->
  Z.of_nat (length (hosts_of nodes)) = task_cnt -> task_cnt <= 65535 ->
  let hosts := hosts_of (uniq_string nodes) in (length hosts <= m)%nat ->
  wp (task_layout_hostfile (Some (uniq_string nodes)) (Some nodes) task_cnt (replicate m 0) (replicate m []))
    (fun r => exists tasks tids, r = Some (tasks, tids) /\
       numbered (Z.of_nat (length hosts)) task_cnt tasks tids /\
       forall i h, hosts !! i = Some h -> tids !! i = Some (positions h (hosts_of nodes) 0)).
Proof.
  intros Hnodes Hlen Hmax hosts Hm. unfold task_layout_hostfile. rewrite Hlen, Z.eqb_refl. cbn [negb from_option].
  fold hosts. subst task_cnt.
  pose proof (hostfile_loop_spec (hosts_of nodes) hosts [] m) as Hl. cbn [app length fmap list_fmap] in Hl.
  unfold occs in Hl at 1 2. cbn [fmap list_fmap] in Hl. rewrite Nat.sub_0_r in Hl. cbn [app] in Hl.
  change (sumZ []) with 0 in Hl. change (Z.of_nat 0) with 0 in Hl. 
  rewrite Hl; [|by apply uniq_NoDup|intros h; symmetry; by apply uniq_same|done|done].
  cbn [mbind exec_bind]. rewrite Z.eqb_refl. apply wp_ret. eexists _, _. split; [done|].
  assert (Hpos : forall i h, hosts !! i = Some h ->
    ((fun h => positions h (hosts_of nodes) 0) <$> hosts) !! i = Some (positions h (hosts_of nodes) 0)).
  { intros i h Hi. by rewrite list_lookup_fmap, Hi. }
  split; [constructor|].
  - unfold occs. rewrite !length_app, !length_fmap. lia.
  - intros i l Hi. unfold at_. rewrite (proj2 (Z.ltb_ge _ _)), Nat2Z.id by lia.
    destruct (decide (i < length hosts)%nat) as [Hlt|Hge].
    + destruct (lookup_lt_is_Some_2 hosts i Hlt) as [h Hh].
      rewrite lookup_app_l in Hi by (by rewrite length_fmap).
      rewrite lookup_app_l by (unfold occs; by rewrite length_fmap).
      rewrite Hpos with (h := h) in Hi by done. injection Hi as <-. unfold occs. by rewrite list_lookup_fmap, Hh.
    + rewrite lookup_app_r in Hi by (rewrite length_fmap; lia).
      rewrite lookup_app_r by (unfold occs; rewrite length_fmap; lia). rewrite length_fmap in Hi.
      unfold occs. rewrite length_fmap. pose proof (lookup_lt_Some _ _ _ Hi) as Hlt. rewrite length_replicate in Hlt.
      apply lookup_replicate in Hi as [-> _]. by rewrite lookup_replicate_2 by done.
  - intros i l Hi Hil. rewrite lookup_app_r in Hil by (rewrite length_fmap; lia).
    by apply lookup_replicate in Hil as [-> _].
  - rewrite concat_app. replace (concat (replicate _ [])) with (@nil Z).
    2: { symmetry. apply concat_nil_Forall, Forall_replicate. done. }
    rewrite app_nil_r. apply positions_perm; [by apply uniq_NoDup|]. intros h Hh. by apply uniq_same.
  - intros i h Hi. rewrite lookup_app_l by (rewrite length_fmap; by eapply lookup_lt_Some). by apply Hpos.
Qed.

(** ** Values with repetition counts *)
Definition expand (vals reps : list Z) : list Z :=
  concat (zip_with (fun v r => replicate (Z.to_nat r) v) vals reps).

(** [l] is what is left of the expansion at the position [inx], [cnt]. *)
Definition cursor (vals reps : list Z) (inx cnt : Z) (l : list Z) : Prop :=
  0 <= inx /\ 0 <= cnt /\ (cnt = 0 \/ exists r, reps !! Z.to_nat inx = Some r /\ cnt < r) /\
  l = drop (Z.to_nat cnt) (expand (drop (Z.to_nat inx) vals) (drop (Z.to_nat inx) reps)).

Lemma cursor_start vals reps : cursor vals reps 0 0 (expand vals reps).
Proof. split_and!; [lia|lia|by left|done]. Qed.

Lemma cursor_step vals reps inx cnt x l :
  Forall (fun r => 1 <= r) reps -> cursor vals reps inx cnt (x :: l) ->
  vals !! Z.to_nat inx = Some x /\
  exists inx' cnt', rep_next reps inx cnt = Ret (inx', cnt') /\ cursor vals reps inx' cnt' l.
Proof.
  intros Hreps (Hi & Hc & Hlt & Hl).
  destruct (vals !! Z.to_nat inx) as [v|] eqn:Hv.
  2: { rewrite (drop_ge vals) in Hl by (by apply lookup_ge_None). unfold expand in Hl.
       cbn [zip_with concat] in Hl. by rewrite drop_nil in Hl. }
  destruct (reps !! Z.to_nat inx) as [r|] eqn:Hr.
  2: { rewrite (drop_ge reps) in Hl by (by apply lookup_ge_None). unfold expand in Hl.
       rewrite zip_with_nil_r in Hl. cbn [concat] in Hl. by rewrite drop_nil in Hl. }
  pose proof (Forall_lookup_1 _ _ _ _ Hreps Hr) as Hr1. cbv beta in Hr1.
  assert (Hcr : cnt < r) by (destruct Hlt as [->|(r' & [= <-] & ?)]; lia).
  assert (Hx : expand (drop (Z.to_nat inx) vals) (drop (Z.to_nat inx) reps) =
    replicate (Z.to_nat r) v ++ expand (drop (S (Z.to_nat inx)) vals) (drop (S (Z.to_nat inx)) reps)).
  { rewrite (drop_S vals v), (drop_S reps r) by done. done. }
  rewrite Hx, drop_app_le, drop_replicate in Hl by (rewrite length_replicate; lia).
  replace (Z.to_nat r - Z.to_nat cnt)%nat with (S (Z.to_nat (r - cnt - 1))) in Hl by lia.
  cbn [replicate app] in Hl. injection Hl as -> ->. split; [done|].
  unfold rep_next. rewrite (aget_lookup reps inx r) by (done || lia). cbn [mbind exec_bind].
  destruct (Z.leb_spec r (cnt + 1)).
  - exists (inx + 1), 0. split; [done|]. split_and!; [lia|lia|by left|].
    replace (Z.to_nat (r - cnt - 1)) with 0%nat by lia. replace (Z.to_nat (inx + 1)) with (S (Z.to_nat inx)) by lia.
    done.
  - exists inx, (cnt + 1). split; [done|]. split_and!; [lia|lia|right; exists r; split; [done|lia]|].
    rewrite Hx, drop_app_le, drop_replicate by (rewrite length_replicate; lia). do 2 f_equal. lia.
Qed.

Lemma node_cpus_ok cpn cpt plane_size task_dist :
  0 <= cpn < 65536 -> 1 <= cpt -> 0 <= plane_size -> plane_size * cpt <= i32_max ->
  wp (node_cpus cpn cpt plane_size task_dist) (fun c => 0 <= c < 65536 /\
    (Z.land task_dist SLURM_DIST_STATE_BASE = SLURM_DIST_PLANE -> 1 <= c)).
Proof.
  intros Hn Ht Hp Hmul. unfold node_cpus. rewrite (proj2 (Z.eqb_neq cpt 0)) by lia.
  set (c := if u16 _ =? 0 then 1 else _).
  assert (Hc : 1 <= c < 65536).
  { subst c. unfold u16. destruct (Z.eqb_spec ((cpn `quot` cpt) `mod` 2 ^ 16) 0); [lia|].
    pose proof (Z.mod_pos_bound (cpn `quot` cpt) (2 ^ 16)). lia. }
  destruct (Z.eqb_spec (Z.land task_dist SLURM_DIST_STATE_BASE) SLURM_DIST_PLANE) as [He|Hne].
  - rewrite andb_false_r. apply wp_ret. lia.
  - destruct (_ && _); [|apply wp_ret; lia]. apply wp_bind, wp_i32; [unfold i32_min; nia|]. apply wp_ret.
    unfold u16. pose proof (Z.mod_pos_bound (plane_size * cpt) (2 ^ 16)). split; [if_solve|done].
Qed.

Lemma init_cpus_spec req cpt n plane_size task_dist :
  0 <= n -> Forall (fun r => 1 <= r) (req_cpu_count_reps req) -> Forall (fun r => 1 <= r) (req_cpus_task_reps req) ->
  let vs := expand (req_cpus_per_node req) (req_cpu_count_reps req) in
  let ws := expand cpt (req_cpus_task_reps req) in
  n <= Z.of_nat (length vs) -> n <= Z.of_nat (length ws) ->
  (forall i v w, (i < Z.to_nat n)%nat -> vs !! i = Some v -> ws !! i = Some w ->
     0 <= v < 65536 /\ 1 <= w /\ plane_size * w <= i32_max) -> 0 <= plane_size ->
  wp (init_cpus req cpt n plane_size task_dist) (fun cpus => Z.of_nat (length cpus) = n /\
    (forall i v w, (i < Z.to_nat n)%nat -> vs !! i = Some v -> ws !! i = Some w ->
       node_cpus v w plane_size task_dist = Ret (at_ cpus (Z.of_nat i)))).
Proof.
  intros Hn Hr1 Hr2 vs ws Hv Hw Hok Hps. unfold init_cpus. apply wp_bind.
  eapply (wp_for (fun i '((ci, cc), (ti, tc), cpus) => Z.of_nat (length cpus) = i /\
    cursor (req_cpus_per_node req) (req_cpu_count_reps req) ci cc (drop (Z.to_nat i) vs) /\
    cursor cpt (req_cpus_task_reps req) ti tc (drop (Z.to_nat i) ws) /\
    (forall k v w, (k < Z.to_nat i)%nat -> vs !! k = Some v -> ws !! k = Some w ->
       node_cpus v w plane_size task_dist = Ret (at_ cpus (Z.of_nat k))))).
  - split_and!; [done|apply cursor_start|apply cursor_start|lia].
  - intros i [[[ci cc] [ti tc]] cpus] Hi (Hl & C1 & C2 & Hall) _.
    destruct (lookup_lt_is_Some_2 vs (Z.to_nat i)) as [v Hvi]; [lia|].
    destruct (lookup_lt_is_Some_2 ws (Z.to_nat i)) as [w Hwi]; [lia|].
    rewrite (drop_S vs v) in C1 by done. rewrite (drop_S ws w) in C2 by done.
    destruct (cursor_step _ _ _ _ _ _ Hr1 C1) as (E1 & ci' & cc' & N1 & C1').
    destruct (cursor_step _ _ _ _ _ _ Hr2 C2) as (E2 & ti' & tc' & N2 & C2').
    destruct (Hok (Z.to_nat i) v w ltac:(lia) Hvi Hwi) as (Hv1 & Hw1 & Hm1).
    destruct (wp_inv _ _ (node_cpus_ok v w plane_size task_dist Hv1 Hw1 Hps Hm1)) as (c & Hc & _).
    destruct C1 as (? & _), C2 as (? & _).
    rewrite (aget_lookup _ ci v), (aget_lookup _ ti w) by done. cbn [mbind exec_bind].
    rewrite Hc, N1, N2. cbn [mbind exec_bind]. apply wp_ret.
    replace (Z.to_nat (i + 1)) with (S (Z.to_nat i)) by lia.
    split_and!; [rewrite length_app; simpl; lia|done|done|].
    intros k v' w' Hk Hv' Hw'. unfold at_. rewrite (proj2 (Z.ltb_ge _ _)), Nat2Z.id by lia.
    destruct (decide (k = Z.to_nat i)) as [->|].
    + rewrite lookup_app_r by lia. replace (Z.to_nat i - length cpus)%nat with 0%nat by lia. simpl.
      rewrite Hvi in Hv'. rewrite Hwi in Hw'. by injection Hv' as <-; injection Hw' as <-.
    + rewrite lookup_app_l by lia. rewrite (Hall k v' w') by (done || lia). unfold at_.
      by rewrite (proj2 (Z.ltb_ge _ _)), Nat2Z.id by lia.
  - intros i [[[ci cc] [ti tc]] cpus] Hi (Hl & C1 & C2 & Hall) Hend. destruct Hend as [->|]; [|done].
    apply wp_ret. split; [lia|]. intros k v w Hk. apply Hall. lia.
Qed.
