(* ===== verification/StepLayoutProps.v ===== *)
(** * Task layout of job steps: properties

    Every distribution places every task exactly once; block, cyclic and plane
    distributions (for planes of more than one task) over-subscribe no node
    while another has CPUs left; lookups invert the layout; and
    layouts survive being sent in a message. *)

From S2P Require Import HostlistLayout.
From S2P Require Import Prelude Pack PackFacts PackProps StepLayout StepLayoutFacts.

Local Open Scope Z_scope.
Local Open Scope slurm_scope.

Section create.
Context `{!HostExprs}.

Definition arbitrary (req : step_layout_req) : bool :=
  Z.land (req_task_dist req) SLURM_DIST_STATE_BASE =? SLURM_DIST_ARBITRARY.

(** The request as [slurm_step_layout_create] completes it. *)
Definition full_req (req : step_layout_req) : step_layout_req :=
  StepLayoutReq (req_node_list req) (req_cpus_per_node req) (req_cpu_count_reps req)
    (if arbitrary req then Z.of_nat (length (hosts_of (uniq_string (req_node_list req))))
     else req_num_hosts req)
    (req_num_tasks req) (req_cpus_per_task req) (req_cpus_task_reps req)
    (req_task_dist req) (req_plane_size req).

Definition nodes_text (req : step_layout_req) : cstr :=
  if arbitrary req then uniq_string (req_node_list req) else req_node_list req.

(** The node count the layout starts from. *)
Definition start_nodes (flags : Z) (req : step_layout_req) : Z :=
  if flag flags CLUSTER_FLAG_FE
  then if flag flags CLUSTER_FLAG_BG || flag flags CLUSTER_FLAG_CRAY_A
       then req_num_hosts (full_req req) else 1
  else req_num_hosts (full_req req).

(** What a caller has to provide: at least one host; arrays of CPU counts that
    cover the nodes; no more than 65535 tasks (the counters have 16 bits); a
    plane size for plane distributions and, for arbitrary ones, one host per task
    in an expression whose duplicates can be removed. *)
Record req_valid (flags : Z) (req : step_layout_req) : Prop := {
  rv_tasks : 0 <= req_num_tasks req <= 65535;
  rv_nodes : 0 < start_nodes flags req;
  rv_hosts : hosts_of (nodes_text req) <> [];
  rv_cpus : start_nodes flags req <= Z.of_nat (length (expand (req_cpus_per_node req) (req_cpu_count_reps req))) /\
    Forall (fun r => 1 <= r) (req_cpu_count_reps req) /\
    Forall (fun v => 0 <= v < 65536) (expand (req_cpus_per_node req) (req_cpu_count_reps req));
  rv_cpt : exists req' cpt, init_req (full_req req) = Ret (req', cpt) /\
    start_nodes flags req <= Z.of_nat (length (expand cpt (req_cpus_task_reps req'))) /\
    Forall (fun r => 1 <= r) (req_cpus_task_reps req') /\
    Forall (fun w => 1 <= w /\ req_plane_size req * w <= i32_max) (expand cpt (req_cpus_task_reps req'));
  rv_plane : 0 <= req_plane_size req /\
    (Z.land (req_task_dist req) SLURM_DIST_STATE_BASE = SLURM_DIST_PLANE -> 0 < req_plane_size req);
  rv_arbitrary : arbitrary req = true -> hosts_ok (req_node_list req) /\ Z.of_nat (length (hosts_of (req_node_list req))) = req_num_tasks req
}.

(** The arrays describe a complete layout of [t] tasks. *)
Definition complete (t : Z) (l : step_layout) : Prop :=
  0 < sl_node_cnt l /\ sl_task_cnt l = t /\
  exists tasks tids, sl_tasks l = Some tasks /\ sl_tids l = Some tids /\ numbered (sl_node_cnt l) t tasks tids.

Lemma init_req_fields req req' cpt :
  init_req req = Ret (req', cpt) ->
  req_cpus_per_node req' = req_cpus_per_node req /\ req_cpu_count_reps req' = req_cpu_count_reps req /\
  req_plane_size req' = req_plane_size req.
Proof.
  unfold init_req. destruct (req_cpus_per_task req) as [c|]; [|intros [= <- _]; done].
  destruct (aget c 0) as [c0| |]; [|done|done]. cbn [mbind exec_bind]. destruct (_ || _); [|intros [= <- _]; done].
  destruct (aset c 0 1) as [?| |]; [|done|done]. cbn [mbind exec_bind].
  destruct (aset (req_cpus_task_reps req) 0 _) as [?| |]; [|done|done]. cbn [mbind exec_bind]. by intros [= <- _].
Qed.

(** The dispatch on the distribution, once the node and CPU counts are known. *)
Lemma dispatch_spec flags select_params req n cpus m :
  req_valid flags req -> 0 < n <= Z.of_nat (length cpus) -> n <= Z.of_nat m -> (forall k, 0 <= at_ cpus k) ->
  (Z.land (req_task_dist req) SLURM_DIST_STATE_BASE = SLURM_DIST_PLANE -> forall k, 0 <= k < n -> 1 <= at_ cpus k) ->
  (arbitrary req = true -> flag flags CLUSTER_FLAG_FE = false ->
     n = Z.of_nat (length (hosts_of (nodes_text req)))) ->
  wp (if Z.land (req_task_dist req) SLURM_DIST_NODEMASK =? SLURM_DIST_NODECYCLIC
      then Some <$> task_layout_cyclic n (req_num_tasks req) cpus (replicate m 0) (replicate m [])
      else if arbitrary req && negb (flag flags CLUSTER_FLAG_FE)
      then task_layout_hostfile (Some (nodes_text req))
             (if arbitrary req then Some (req_node_list req) else None) (req_num_tasks req)
             (replicate m 0) (replicate m [])
      else if Z.land (req_task_dist req) SLURM_DIST_STATE_BASE =? SLURM_DIST_PLANE
      then task_layout_plane n (req_num_tasks req) (req_plane_size req) cpus (replicate m 0) (replicate m [])
      else Some <$> task_layout_block select_params n (req_num_tasks req) (req_task_dist req) cpus
             (replicate m 0) (replicate m []))
     (fun r => exists tasks tids, r = Some (tasks, tids) /\ numbered n (req_num_tasks req) tasks tids).
Proof.
  intros Hv Hn Hm Hc0 Hc1 Harb. pose proof (rv_tasks _ _ Hv) as Ht.
  assert (Hmap : forall e : exec (list Z * list (list Z)),
    wp e (fun st => numbered n (req_num_tasks req) st.1 st.2) ->
    wp (Some <$> e) (fun r => exists tasks tids, r = Some (tasks, tids) /\ numbered n (req_num_tasks req) tasks tids)).
  { intros e He. destruct e as [[tasks tids]| |]; [|done|done]. simpl. eauto. }
  destruct (_ =? SLURM_DIST_NODECYCLIC).
  { apply Hmap. eapply wp_mono; [by apply task_layout_cyclic_spec|]. by intros st [[_ ?] _]. }
  destruct (arbitrary req) eqn:Ha; cbn [andb].
  - destruct (flag flags CLUSTER_FLAG_FE) eqn:Hfe; cbn [negb].
    + unfold arbitrary in Ha. apply Z.eqb_eq in Ha. rewrite Ha. cbn [Z.eqb SLURM_DIST_ARBITRARY SLURM_DIST_PLANE].
      apply Hmap. eapply wp_mono; [by apply task_layout_block_spec|]. by intros st [[_ ?] _].
    + unfold nodes_text in *. rewrite Ha in *.
      eapply wp_mono; [apply task_layout_hostfile_spec; [by apply (rv_arbitrary _ _ Hv)|by apply (rv_arbitrary _ _ Hv)|lia|]|].
      { specialize (Harb eq_refl eq_refl). lia. }
      intros r (tasks & tids & -> & Hnum & _). rewrite <-Harb in Hnum by done. eauto.
  - destruct (Z.eqb_spec (Z.land (req_task_dist req) SLURM_DIST_STATE_BASE) SLURM_DIST_PLANE) as [Hp|].
    + eapply wp_mono; [apply task_layout_plane_spec; try done; [by apply (rv_plane _ _ Hv)|by apply Hc1]|].
      intros r ([tasks tids] & -> & [_ Hnum] & _). eauto.
    + apply Hmap. eapply wp_mono; [by apply task_layout_block_spec|]. by intros st [[_ ?] _].
Qed.

Lemma create_unfold flags select_params req :
  slurm_step_layout_create flags select_params req =
  ('(req', l, rc) ← init_task_layout flags select_params (full_req req)
     (StepLayout None (start_nodes flags req) (Some (nodes_text req)) 0 0 None (req_num_tasks req)
        (req_task_dist req) None)
     (if arbitrary req then Some (req_node_list req) else None);
   if negb (rc =? SLURM_SUCCESS)
   then _ ← slurm_step_layout_destroy (Some l); Ret (req', None)
   else Ret (req', Some l)).
Proof. reflexivity. Qed.

(** C21: for a valid request every distribution (block, packed block, cyclic,
    plane, arbitrary) succeeds and places every task exactly once: the task ids
    of all nodes together are the numbers below the task count, and each node
    has as many ids as its counter says. *)
Theorem layout_places_every_task_once (flags select_params : Z) (req : step_layout_req) :
  req_valid flags req ->
  wp (slurm_step_layout_create flags select_params req) (fun '(_, r) =>
    exists l, r = Some l /\ complete (req_num_tasks req) l).
Proof.
  intros Hv. pose proof Hv as [Ht Hnodes Hhosts (Hcov & Hreps & Hvals) (req' & cpt & Hinit & Hcov' & Hreps' & Hvals') [Hp0 Hp1] Harb].
  destruct (init_req_fields _ _ _ Hinit) as (F1 & F2 & F3). cbn in F1, F2, F3.
  rewrite create_unfold. unfold init_task_layout. cbn [sl_node_cnt sl_tasks sl_node_list sl_task_dist sl_task_cnt].
  rewrite (proj2 (Z.eqb_neq (start_nodes flags req) 0)) by lia. rewrite bool_decide_eq_false_2 by (intros Hx; by apply Hx).
  rewrite Hinit. cbn [mbind exec_bind from_option].
  set (count := Z.of_nat (length (hosts_of (nodes_text req)))).
  assert (Hcount : 1 <= count) by (subst count; destruct (hosts_of (nodes_text req)); [done|simpl; lia]).
  set (n := if negb _ && _ then count else start_nodes flags req).
  assert (Hn : 0 < n <= start_nodes flags req) by (subst n; if_solve).
  rewrite (proj2 (Z.ltb_ge n 1)) by lia. rewrite F3. apply wp_bind, wp_bind.
  eapply wp_mono; [apply (init_cpus_spec req' cpt n); rewrite ?F1, ?F2; try done; try lia|].
  { intros i v w Hi Hiv Hiw. rewrite Forall_lookup in Hvals. rewrite Forall_lookup in Hvals'.
    specialize (Hvals _ _ Hiv). destruct (Hvals' _ _ Hiw). split_and!; done || lia. }
  intros cpus [Hlen Hcpus]. rewrite F1, F2 in Hcpus. apply wp_bind.
  assert (Hrange : forall k, 0 <= k < n -> 0 <= at_ cpus k /\
    (Z.land (req_task_dist req) SLURM_DIST_STATE_BASE = SLURM_DIST_PLANE -> 1 <= at_ cpus k)).
  { intros k Hk. destruct (lookup_lt_is_Some_2 (expand (req_cpus_per_node req) (req_cpu_count_reps req)) (Z.to_nat k)) as [v Hiv]; [lia|].
    destruct (lookup_lt_is_Some_2 (expand cpt (req_cpus_task_reps req')) (Z.to_nat k)) as [w Hiw]; [lia|].
    specialize (Hcpus (Z.to_nat k) v w ltac:(lia) Hiv Hiw). rewrite Z2Nat.id in Hcpus by lia.
    rewrite Forall_lookup in Hvals. specialize (Hvals _ _ Hiv). rewrite Forall_lookup in Hvals'. destruct (Hvals' _ _ Hiw).
    pose proof (node_cpus_ok v w (req_plane_size req) (req_task_dist req) Hvals ltac:(done) Hp0 ltac:(done)) as Hok.
    rewrite Hcpus in Hok. destruct Hok as [Hc0 Hc1]. split; [lia|exact Hc1]. }
  eapply wp_mono; [apply (dispatch_spec flags select_params req n cpus (Z.to_nat (start_nodes flags req)))|]; try done; try lia.
  - intros k. destruct (decide (0 <= k < n)) as [Hk|]; [by apply Hrange|]. unfold at_.
    destruct (Z.ltb_spec k 0); [lia|]. rewrite lookup_ge_None_2 by lia. done.
  - intros Hpl k Hk. by apply Hrange.
  - intros Ha Hfe. subst n. unfold start_nodes, full_req, nodes_text in *. rewrite Ha, Hfe in *. cbn [req_num_hosts] in *.
    fold count. if_solve.
  - intros r (tasks & tids & -> & Hnum). apply wp_ret. cbn [Z.eqb negb]. apply wp_ret. eexists. split; [done|].
    split; [simpl; lia|]. split; [done|]. eexists _, _. done.
Qed.
End create.

#[local] Existing Instance hosts_1d.

(** Three nodes with 4, 2 and 2 CPUs. *)
Definition sample_req (dist plane : Z) : step_layout_req :=
  StepLayoutReq text_123 [4; 2] [1; 2] 3 9 None [] dist plane.

Lemma sample_req_valid dist plane :
  Z.land dist SLURM_DIST_STATE_BASE <> SLURM_DIST_ARBITRARY -> 0 < plane <= 100 ->
  req_valid 0 (sample_req dist plane).
Proof.
  intros Hd Hp. assert (Ha : arbitrary (sample_req dist plane) = false) by (unfold arbitrary; simpl; lia).
  assert (Hh : hosts_of (req_node_list (sample_req dist plane)) <> []) by (by vm_compute).
  constructor; unfold start_nodes, full_req, nodes_text; rewrite ?Ha; [simpl|done|done|simpl..|done]; try lia.
  - split_and!; [done|by repeat constructor|by repeat constructor].
  - eexists _, _. split; [done|]. simpl. split_and!; [done|by repeat constructor|].
    assert (plane * 1 <= i32_max) by (unfold i32_max; lia). by repeat constructor.
Qed.

(** Tasks 0 and 2 on n1, task 1 on n2. *)
Definition arbitrary_req : step_layout_req := StepLayoutReq text_121 [4] [2] 0 3 None [] SLURM_DIST_ARBITRARY 0.

Lemma arbitrary_req_valid : req_valid 0 arbitrary_req.
Proof.
  assert (Hn : start_nodes 0 arbitrary_req = 2) by (by vm_compute).
  assert (Hf : full_req arbitrary_req = StepLayoutReq text_121 [4] [2] 2 3 None [] SLURM_DIST_ARBITRARY 0) by (by vm_compute).
  constructor.
  - simpl. lia.
  - rewrite Hn. lia.
  - by vm_compute.
  - rewrite Hn. split_and!; [done|by repeat constructor|by repeat constructor].
  - rewrite Hn, Hf. eexists _, _. split; [done|]. split_and!; [done|by repeat constructor|by repeat constructor].
  - split; [by vm_compute|]. intros H. by vm_compute in H.
  - intros _. split; [apply text_121_ok|by vm_compute].
Qed.

Lemma layout_places_every_task_once_witness :
  wp (slurm_step_layout_create 0 0 (sample_req SLURM_DIST_CYCLIC 100)) (fun '(_, r) =>
    exists l, r = Some l /\ complete 9 l) /\
  wp (slurm_step_layout_create 0 0 arbitrary_req) (fun '(_, r) => exists l, r = Some l /\ complete 3 l) /\
  wp (slurm_step_layout_create 0 0 (sample_req SLURM_DIST_CYCLIC 100)) (fun '(_, r) =>
    (r ≫= sl_tids) = Some [[0; 3; 6; 7; 8]; [1; 4]; [2; 5]]) /\
  wp (slurm_step_layout_create 0 0 arbitrary_req) (fun '(_, r) => (r ≫= sl_tids) = Some [[0; 2]; [1]]).
Proof.
  split; [|split; [|split; by vm_compute]].
  - apply (layout_places_every_task_once 0 0 (sample_req SLURM_DIST_CYCLIC 100)).
    apply sample_req_valid; [done|lia].
  - apply (layout_places_every_task_once 0 0 arbitrary_req), arbitrary_req_valid.
Defined.

(** ** Fair use of the CPUs *)
Lemma at_take l n k : 0 <= k < n -> at_ (take (Z.to_nat n) l) k = at_ l k.
Proof. intros Hk. unfold at_. rewrite (proj2 (Z.ltb_ge _ _)) by lia. by rewrite lookup_take_lt by lia. Qed.

Lemma fair_sum n t cpus tasks :
  0 <= n <= Z.of_nat (length cpus) -> counted n t tasks -> fair n cpus tasks ->
  (t <= sumZ (take (Z.to_nat n) cpus) -> forall k, 0 <= k < n -> at_ tasks k <= at_ cpus k) /\
  (sumZ (take (Z.to_nat n) cpus) <= t -> forall k, 0 <= k < n -> at_ cpus k <= at_ tasks k).
Proof.
  intros Hn Hc Hf. pose proof (cnt_len _ _ _ Hc). pose proof (sumZ_take_all _ _ _ Hc) as Hs.
  assert (Heq : forall f g : list Z, n <= Z.of_nat (length f) -> n <= Z.of_nat (length g) ->
    (forall k, 0 <= k < n -> at_ f k <= at_ g k) -> sumZ (take (Z.to_nat n) g) <= sumZ (take (Z.to_nat n) f) ->
    forall k, 0 <= k < n -> at_ g k <= at_ f k).
  { intros f g Hlf Hlg Hle Hge k Hk.
    destruct (sumZ_le (take (Z.to_nat n) f) (take (Z.to_nat n) g)) as [H1 H2]; [rewrite !length_take; lia| |].
    - intros j Hj. rewrite length_take in Hj. rewrite !at_take by lia. apply Hle. lia.
    - rewrite <-(at_take g n k), <-(at_take f n k), H2 by lia. lia. }
  destruct Hf as [Hle|Hge]; split; intros Hsum; try done.
  - apply (Heq tasks cpus); [lia|lia|done|lia].
  - apply (Heq cpus tasks); [lia|lia|done|lia].
Qed.

(** C22: block (packed or not), cyclic and plane distributions, the latter with
    a plane size above one, use the CPUs fairly on nodes that have one each: when the step has no more tasks than CPUs no node gets more tasks
    than it has CPUs, and when it has at least as many every CPU is used. *)
Theorem layout_uses_cpus_fairly (n task_cnt plane_size task_dist select_params : Z) (cpus : list Z) (m : nat) :
  0 < n <= Z.of_nat (length cpus) -> n <= Z.of_nat m -> 0 <= task_cnt <= 65535 ->
  (forall k, 0 <= at_ cpus k) -> (forall k, 0 <= k < n -> 1 <= at_ cpus k) -> 1 < plane_size ->
  let within st := (task_cnt <= sumZ (take (Z.to_nat n) cpus) ->
                      forall k, 0 <= k < n -> at_ st k <= at_ cpus k) /\
                   (sumZ (take (Z.to_nat n) cpus) <= task_cnt ->
                      forall k, 0 <= k < n -> at_ cpus k <= at_ st k) in
  wp (task_layout_block select_params n task_cnt task_dist cpus (replicate m 0) (replicate m []))
    (fun st => within st.1) /\
  wp (task_layout_cyclic n task_cnt cpus (replicate m 0) (replicate m [])) (fun st => within st.1) /\
  wp (task_layout_plane n task_cnt plane_size cpus (replicate m 0) (replicate m []))
    (fun r => exists st, r = Some st /\ within st.1).
Proof.
  intros Hn Hm Ht H0 H1 Hp within. split_and!.
  - eapply wp_mono; [by apply task_layout_block_spec|]. intros st ([Hc _] & Hf & _). apply fair_sum; [lia|done..].
  - eapply wp_mono; [by apply task_layout_cyclic_spec|]. intros st ([Hc _] & Hf). apply fair_sum; [lia|done..].
  - eapply wp_mono; [apply task_layout_plane_spec; try done; lia|]. intros r (st & -> & [Hc _] & Hf).
    exists st. split; [done|]. apply fair_sum; [lia|done|auto].
Qed.

Lemma layout_uses_cpus_fairly_witness :
  wp (task_layout_cyclic 3 9 [4; 2; 3] (replicate 3 0) (replicate 3 [])) (fun st => at_ st.1 1 <= 2) /\
  wp (task_layout_cyclic 3 9 [4; 2; 3] (replicate 3 0) (replicate 3 [])) (fun st => st.1 = [4; 2; 3]).
Proof.
  split; [|by vm_compute].
  destruct (layout_uses_cpus_fairly 3 9 2 1 0 [4; 2; 3] 3) as (_ & Hc & _); try (simpl; lia).
  - intros k. destruct (decide (0 <= k < 3)) as [Hk|].
    + assert (k = 0 \/ k = 1 \/ k = 2) by lia. destruct_or!; by subst.
    + unfold at_. destruct (Z.ltb_spec k 0); [done|]. by rewrite lookup_ge_None_2 by (simpl; lia).
  - intros k Hk. assert (k = 0 \/ k = 1 \/ k = 2) by lia. destruct_or!; by subst.
  - eapply wp_mono; [exact Hc|]. intros st [Hle _]. apply Hle; simpl; lia.
Defined.

(** With a plane size of one the first round places no task beyond the first of
    each node, and over-subscription starts although CPUs are left: five tasks
    on nodes of four CPUs and one CPU put two tasks on the single CPU. *)
Lemma plane_of_one_oversubscribes :
  task_layout_plane 2 5 1 [4; 1] [0; 0] [[]; []] = Ret (Some ([3; 2], [[0; 2; 4]; [1; 3]])) /\
  task_layout_cyclic 2 5 [4; 1] [0; 0] [[]; []] = Ret ([4; 1], [[0; 2; 3; 4]; [1]]).
Proof. by vm_compute. Qed.

(** The counters have 16 bits: one more task than 65535 resets a node to 0. *)
Lemma counters_wrap : incr_tasks [65535] 0 = Ret [0].
Proof. by vm_compute. Qed.

(** ** Lookups *)
Lemma elem_of_concat {A} (x : A) (ls : list (list A)) :
  x ∈ concat ls <-> exists l, x ∈ l /\ l ∈ ls.
Proof.
  rewrite list_elem_of_In, in_concat. split; intros (l & H1 & H2); exists l; by rewrite <-!list_elem_of_In in *.
Qed.

Lemma host_has_task_spec tasks tids taskid i l :
  0 <= i < Z.of_nat (length tasks) -> tids !! Z.to_nat i = Some l -> Z.of_nat (length l) = at_ tasks i ->
  host_has_task tasks tids taskid i = Ret (bool_decide (taskid ∈ l)).
Proof.
  intros Hi Hl Hlen. apply wp_eq. unfold host_has_task.
  rewrite aget_at, (aget_lookup tids i l) by (done || lia). cbn [mbind exec_bind].
  eapply (wp_for (fun j found => found = bool_decide (taskid ∈ take (Z.to_nat j) l))).
  - by rewrite bool_decide_eq_false_2 by apply not_elem_of_nil.
  - intros j found Hj Hfound Hcond. apply negb_true_iff in Hcond. rewrite Hcond in Hfound. symmetry in Hfound.
    apply bool_decide_eq_false in Hfound. rewrite aget_at by lia. cbn [mbind exec_bind]. apply wp_ret.
    replace (Z.to_nat (j + 1)) with (S (Z.to_nat j)) by lia.
    erewrite take_S_r by (apply at_lookup; lia).
    destruct (Z.eqb_spec (at_ l j) taskid) as [<-|]; symmetry.
    + apply bool_decide_eq_true. apply elem_of_app. right. by apply list_elem_of_singleton.
    + apply bool_decide_eq_false. rewrite elem_of_app, list_elem_of_singleton. intuition congruence.
  - intros j found Hj Hfound Hend. subst found. destruct Hend as [->|Hend].
    + rewrite take_ge by lia. done.
    + apply negb_false_iff in Hend. rewrite Hend. apply bool_decide_eq_true in Hend.
      apply bool_decide_eq_true_2. rewrite <-(take_drop (Z.to_nat j) l). apply elem_of_app. by left.
Qed.

(** The node of a task, when its id is the id of a task. *)
Lemma numbered_node n t tasks tids x :
  numbered n t tasks tids -> 0 <= x < t ->
  exists i l, (Z.of_nat i < n) /\ tids !! i = Some l /\ x ∈ l /\
    forall j l', tids !! j = Some l' -> x ∈ l' -> j = i.
Proof.
  intros [[Hl _] Hc Hb Hp] Hx. assert (Hin : x ∈ concat tids) by (rewrite Hp; apply elem_of_seqZ; lia).
  assert (Hnd : NoDup (concat tids)) by (rewrite Hp; apply NoDup_seqZ).
  apply elem_of_concat in Hin as (l & Hxl & Hin). apply list_elem_of_lookup in Hin as [i Hi].
  exists i, l. split_and!; [|done|done|].
  - destruct (decide (Z.of_nat i < n)); [done|]. rewrite (Hb i l) in Hxl by (done || lia).
    by apply not_elem_of_nil in Hxl.
  - intros j l' Hj Hxl'. destruct (decide (j = i)) as [|Hne]; [done|exfalso].
    assert (Hg : forall a c la lc, (a < c)%nat -> tids !! a = Some la -> tids !! c = Some lc -> x ∈ la -> x ∈ lc -> False).
    { intros a c la lc Hac Ha Hcc Hxa Hxc. rewrite <-(take_drop c tids), concat_app in Hnd.
      apply NoDup_app in Hnd as (_ & Hdis & _). apply (Hdis x).
      - apply elem_of_concat. exists la. split; [done|]. apply list_elem_of_lookup. exists a. by rewrite lookup_take_lt.
      - apply elem_of_concat. exists lc. split; [done|]. apply list_elem_of_lookup. exists 0%nat.
        by rewrite lookup_drop, Nat.add_0_r. }
    destruct (decide (i < j)%nat); [by eapply (Hg i j)|eapply (Hg j i); [lia|done..]].
Qed.

(** in a complete layout [slurm_step_layout_host_id] returns the one node
    that has the task, for every task id below the task count, and an error for
    every other id. *)
Theorem host_id_finds_the_node (l : step_layout) (t taskid : Z) :
  complete t l -> 0 < t <= 2 ^ 31 -> - 2 ^ 31 <= taskid < 2 ^ 31 ->
  wp (slurm_step_layout_host_id l taskid) (fun i =>
    if (0 <=? taskid) && (taskid <? t)
    then 0 <= i < sl_node_cnt l /\ exists tids ids, sl_tids l = Some tids /\
           tids !! Z.to_nat i = Some ids /\ taskid ∈ ids /\
           forall j ids', tids !! j = Some ids' -> taskid ∈ ids' -> j = Z.to_nat i
    else i = SLURM_ERROR).
Proof.
  intros (Hn & Htc & tasks & tids & Et & Ei & Hnum) Ht Hx. pose proof (num_len _ _ _ _ Hnum) as [_ Hlen]. unfold slurm_step_layout_host_id.
  rewrite Et, Ei, Htc in *.
  destruct ((0 <=? taskid) && (taskid <? t)) eqn:Hr.
  - rewrite !u32_small by lia. rewrite (proj2 (Z.ltb_ge _ _)) by lia.
    destruct (numbered_node _ _ _ _ taskid Hnum ltac:(lia)) as (i & ids & Hi & Hids & Hin & Huniq).
    eapply (wp_for (fun k r => (r = SLURM_ERROR /\ k <= Z.of_nat i) \/ r = Z.of_nat i)).
    + left. split; [done|lia].
    + intros k r Hk Hr' Hcond. apply Z.eqb_eq in Hcond. destruct Hr' as [[-> Hki]| ->]; [|unfold SLURM_ERROR in *; lia].
      destruct (lookup_lt_is_Some_2 tids (Z.to_nat k)) as [ids' Hids']; [pose proof (num_len _ _ _ _ Hnum); lia|].
      rewrite (host_has_task_spec tasks tids taskid k ids');
        [|lia|done|rewrite (num_cnt _ _ _ _ Hnum _ _ Hids'); f_equal; lia].
      cbn [mbind exec_bind]. apply wp_ret. case_bool_decide as Hin'.
      * right. apply (Huniq _ _ Hids') in Hin'. lia.
      * left. split; [done|]. destruct (decide (k = Z.of_nat i)) as [->|]; [|lia].
        rewrite Nat2Z.id, Hids in Hids'. by injection Hids' as <-.
    + intros k r Hk Hr' Hend. destruct Hr' as [[-> Hki]| ->].
      * exfalso. destruct Hend as [?|Hend]; [lia|]. by vm_compute in Hend.
      * split; [lia|]. exists tids, ids. rewrite Nat2Z.id. done.
  - rewrite (u32_small (t - 1)) by lia. rewrite (proj2 (Z.ltb_lt _ _)); [done|].
    destruct (decide (0 <= taskid)); [rewrite u32_small; lia|].
    assert (u32 taskid = taskid + 2 ^ 32) as -> by (unfold u32; dlia). lia.
Qed.

(** Three tasks on two nodes. *)
Definition sample_layout : step_layout :=
  StepLayout None 2 (Some [97; 98]) 0 0 (Some [2; 1]) 3 SLURM_DIST_BLOCK (Some [[0; 1]; [2]]).

Lemma sample_layout_complete : complete 3 sample_layout.
Proof.
  split; [done|]. split; [done|]. eexists _, _. split; [done|]. split; [done|]. constructor.
  - done.
  - intros [|[|i]] l; simpl; by intros [= <-].
  - intros [|[|i]] l Hi; simpl in *; lia || done.
  - done.
Qed.

Lemma host_id_finds_the_node_witness :
  wp (slurm_step_layout_host_id sample_layout 2) (fun i => 0 <= i < 2) /\
  slurm_step_layout_host_id sample_layout 2 = Ret 1 /\
  wp (slurm_step_layout_host_id sample_layout 3) (fun i => i = SLURM_ERROR).
Proof.
  split; [|split; [by vm_compute|]].
  - eapply wp_mono; [apply (host_id_finds_the_node sample_layout 3 2); [apply sample_layout_complete|lia|lia]|].
    intros i [Hi _]. exact Hi.
  - apply (host_id_finds_the_node sample_layout 3 3); [apply sample_layout_complete|lia|lia].
Defined.

(** ** Layouts in messages *)
Record wire_layout (l : step_layout) (tids : list (list Z)) : Prop := {
  wl_tids : sl_tids l = Some tids;
  wl_tasks : sl_tasks l = Some ((fun ids => Z.of_nat (length ids)) <$> tids);
  wl_nodes : sl_node_cnt l = Z.of_nat (length tids) /\ sl_node_cnt l < 2 ^ 32;
  wl_ids : Forall (fun ids => Forall (fun x => 0 <= x < 2 ^ 32) ids /\ Z.of_nat (length ids) < 65536) tids;
  wl_ints : 0 <= sl_task_cnt l < 2 ^ 32 /\ 0 <= sl_task_dist l < 2 ^ 32 /\ 0 <= sl_start_protocol_ver l < 2 ^ 16;
  wl_strs : str_valid (sl_front_end l) /\ str_valid (sl_node_list l)
}.

Definition enc_ids (ids : list Z) : list Z := be 4 (Z.of_nat (length ids)) ++ flat_map (be 4) ids.
Definition enc_layout (l : step_layout) (tids : list (list Z)) (ver : list Z) : list Z :=
  be 2 1 ++ enc_mem (str_mem (sl_front_end l)) ++ enc_mem (str_mem (sl_node_list l)) ++
  be 4 (sl_node_cnt l) ++ ver ++ be 4 (sl_task_cnt l) ++ be 4 (sl_task_dist l) ++ flat_map enc_ids tids.

(** What the receiver gets: everything but the plane size. *)
Definition received (l : step_layout) (ver : Z) : step_layout :=
  StepLayout (sl_front_end l) (sl_node_cnt l) (sl_node_list l) 0 ver (sl_tasks l)
    (sl_task_cnt l) (sl_task_dist l) (sl_tids l).

Lemma for_writes (f : Z -> slurm_buf -> exec slurm_buf) (enc : list Z -> list Z) l : forall i,
  (forall k x, l !! k = Some x -> writes (f (i + Z.of_nat k)) (enc x)) ->
  writes (for_while (fun _ => true) f (length l) i) (flat_map enc l).
Proof.
  induction l as [|x l IH]; intros i Hf; cbn [length for_while flat_map]; [apply writes_nil|].
  apply writes_seq.
  - specialize (Hf 0%nat x eq_refl). by rewrite Z.add_0_r in Hf.
  - apply IH. intros k y Hk. specialize (Hf (S k) y Hk). by replace (i + 1 + Z.of_nat k) with (i + Z.of_nat (S k)) by lia.
Qed.

Lemma pack_layout_writes l tids ver :
  wire_layout l tids -> SLURM_MIN_PROTOCOL_VERSION <= ver ->
  writes (pack_slurm_step_layout (Some l) ver)
    (enc_layout l tids (if SLURM_16_05_PROTOCOL_VERSION <=? ver then be 2 (sl_start_protocol_ver l) else [])).
Proof.
  intros [E1 E2 [En _] Hids _ [Hfe Hnl]] Hver. unfold pack_slurm_step_layout.
  rewrite (proj2 (Z.leb_le _ _)) by done. rewrite bool_decide_eq_false_2 by done. unfold enc_layout.
  apply (writes_seq (pack_int 2 1)); [by apply pack_int_writes; lia|].
  apply writes_seq; [by apply packstr_writes|]. apply writes_seq; [by apply packstr_writes|].
  apply (writes_seq (pack_int 4 (sl_node_cnt l))); [by apply pack_int_writes; lia|].
  apply writes_seq.
  { destruct (_ <=? ver); [apply (pack_int_writes 2); lia|apply writes_nil]. }
  apply (writes_seq (pack_int 4 (sl_task_cnt l))); [by apply pack_int_writes; lia|].
  apply (writes_seq (pack_int 4 (sl_task_dist l))); [by apply pack_int_writes; lia|].
  unfold pack_layout_tids. rewrite En, Nat2Z.id. apply for_writes. intros k ids Hk. rewrite E1, E2.
  rewrite Z.add_0_l, (aget_lookup tids _ ids) by (rewrite ?Nat2Z.id; done || lia).
  rewrite (aget_lookup _ _ (Z.of_nat (length ids))); [|lia|by rewrite Nat2Z.id, list_lookup_fmap, Hk].
  cbn [mbind exec_bind]. apply (pack_array_writes (pack_int 4) (be 4)). intros v _. apply pack_int_writes. lia.
Qed.

(** A field that is there is read, and unpacking goes on behind it. *)
Lemma unpack_field_reads {A} (u : unpacker A) k s l a b tl Q :
  reads u l a -> buf_wf b -> unread b = l ++ tl ->
  (forall b', buf_wf b' -> unread b' = tl -> wp (k a b') Q) -> wp (unpack_field u k s b) Q.
Proof.
  intros Hu W U HQ. unfold unpack_field. apply wp_bind. eapply wp_mono; [by apply (Hu b tl)|].
  intros [b' r] (-> & W' & U' & _). by apply HQ.
Qed.

Lemma unpack_layout_tids_reads s : forall rest tasks tids b tl,
  Forall (fun ids => Forall (fun x => 0 <= x < 2 ^ 32) ids /\ Z.of_nat (length ids) < 65536) rest ->
  buf_wf b -> unread b = flat_map enc_ids rest ++ tl ->
  wp (unpack_layout_tids s (length rest) tasks tids b) (fun '(b', r, rc) => rc = SLURM_SUCCESS /\
    r = Some (with_arrays s (sl_node_cnt s) (tasks ++ ((fun ids => Z.of_nat (length ids)) <$> rest)) (tids ++ rest)) /\
    unread b' = tl).
Proof.
  induction rest as [|ids rest IH]; intros tasks tids b tl HF W U; cbn [length unpack_layout_tids flat_map] in *.
  { apply wp_ret. simpl. by rewrite !app_nil_r. }
  apply Forall_cons in HF as [[Hids Hlen] HF]. rewrite <-app_assoc in U.
  eapply (unpack_field_reads _ _ _ (enc_ids ids) ids b); [|done|exact U|].
  - apply (unpack_array_reads (unpack_int 4) (be 4)); [|lia]. intros x Hx. apply unpack_int_reads.
    rewrite Forall_forall in Hids. specialize (Hids x Hx). rewrite pow256. simpl. lia.
  - intros b' W' U'. eapply wp_mono; [by apply (IH _ _ b' tl)|]. intros [[b2 r] rc] (-> & -> & U2).
    split_and!; [done| |done]. unfold u16. rewrite Z.mod_small by lia. by rewrite <-!app_assoc.
Qed.

Lemma unpack_cstr_reads s :
  str_valid s -> reads (unpack_cstr false) (enc_mem (str_mem s)) s.
Proof.
  intros Hs. unfold unpack_cstr. eapply reads_bind_nil; [by apply unpackmem_ptr_reads, str_mem_valid|].
  replace (c_prefix <$> str_mem s) with s; [apply reads_ret|].
  destruct s as [s|]; [|done]. simpl. f_equal. symmetry. apply c_prefix_terminated. apply Hs.
Qed.

(** a layout packed and unpacked with one protocol version is the same
    layout, except for the plane size, which is not part of the message; before
    version 16.05 the start version is not either, and the receiver takes the
    protocol version for it. *)
Theorem layout_message_roundtrip (l : step_layout) (tids : list (list Z)) (ver : Z) (b : slurm_buf) :
  wire_layout l tids -> SLURM_MIN_PROTOCOL_VERSION <= ver < 2 ^ 16 -> buf_wf b ->
  fits b (Z.of_nat (length (enc_layout l tids (be 2 0)))) ->
  wp (pack_slurm_step_layout (Some l) ver b) (fun b' =>
    wp (unpack_slurm_step_layout false ver None (set_buf_offset b' (buf_processed b))) (fun '(_, r, rc) =>
      rc = SLURM_SUCCESS /\
      r = Some (received l (if SLURM_16_05_PROTOCOL_VERSION <=? ver then sl_start_protocol_ver l else ver)))).
Proof.
  intros Hl Hver W Hf. pose proof Hl as [E1 E2 [En Hmax] Hids (Htc & Htd & Hsv) [Hfe Hnl]].
  eapply wp_mono; [apply (pack_layout_writes l tids ver Hl); [lia|done|]|].
  { unfold fits in *. unfold enc_layout in *. rewrite !length_app, !be_length in *.
    destruct (_ <=? ver); rewrite ?be_length; simpl; lia. }
  intros b' [W' Hw]. destruct (rewind_unread b b' _ W W' Hw) as (Wr & Ur & _). unfold enc_layout in Ur.
  rewrite <-!app_assoc in Ur. unfold unpack_slurm_step_layout. rewrite (proj2 (Z.leb_le _ _)) by lia.
  apply wp_bind. eapply wp_mono; [apply (unpack_int_reads 2 1 ltac:(done) _ _ Wr Ur)|].
  intros [b1 r] (-> & W1 & U1 & _). cbn [sl_start_protocol_ver empty_layout].
  eapply unpack_field_reads; [apply (unpack_cstr_reads _ Hfe)|done|exact U1|]. intros b2 W2 U2.
  eapply unpack_field_reads; [apply (unpack_cstr_reads _ Hnl)|done|exact U2|]. intros b3 W3 U3.
  eapply unpack_field_reads; [apply (unpack_int_reads 4 (sl_node_cnt l)); rewrite pow256; simpl; lia|done|exact U3|]. intros b4 W4 U4.
  eapply (unpack_field_reads _ _ _ _ (if SLURM_16_05_PROTOCOL_VERSION <=? ver then sl_start_protocol_ver l else ver));
    [|done|exact U4|].
  { destruct (SLURM_16_05_PROTOCOL_VERSION <=? ver); [apply (unpack_int_reads 2); rewrite pow256; simpl; lia|apply reads_ret]. }
  intros b5 W5 U5.
  eapply unpack_field_reads; [apply (unpack_int_reads 4 (sl_task_cnt l)); rewrite pow256; simpl; lia|done|exact U5|]. intros b6 W6 U6.
  eapply unpack_field_reads; [apply (unpack_int_reads 4 (sl_task_dist l)); rewrite pow256; simpl; lia|done|exact U6|]. intros b7 W7 U7.
  rewrite En, Nat2Z.id. eapply wp_mono; [apply (unpack_layout_tids_reads _ tids [] [] b7 _ Hids W7 U7)|].
  intros [[b8 r] rc] (-> & -> & _). split; [done|]. unfold received, with_arrays. cbn. by rewrite E1, E2, En.
Qed.

Lemma sample_layout_wire : wire_layout sample_layout [[0; 1]; [2]].
Proof. constructor; try done. - repeat constructor; done. - repeat constructor. Qed.

Lemma layout_message_roundtrip_witness :
  wp (pack_slurm_step_layout (Some sample_layout) SLURM_16_05_PROTOCOL_VERSION small_buf) (fun b' =>
    wp (unpack_slurm_step_layout false SLURM_16_05_PROTOCOL_VERSION None (set_buf_offset b' 0))
      (fun '(_, r, rc) => rc = SLURM_SUCCESS /\ r = Some (received sample_layout 0))).
Proof.
  apply (layout_message_roundtrip sample_layout [[0; 1]; [2]] SLURM_16_05_PROTOCOL_VERSION small_buf).
  - apply sample_layout_wire.
  - done.
  - apply small_buf_wf.
  - unfold fits. vm_compute. congruence.
Defined.

(** A message cut off after the node count makes [unpack_slurm_step_layout]
    destroy a layout whose task arrays were never allocated: it reads through a
    null pointer. *)
Lemma truncated_layout_message_faults :
  unpack_slurm_step_layout false SLURM_16_05_PROTOCOL_VERSION None
    (Buf BUF_MAGIC [0; 1; 0; 0; 0; 0; 0; 0; 0; 0; 0; 0; 0; 1] 14 0) = Fault.
Proof. by vm_compute. Qed.

(** ** Copies *)
Lemma read_mem_all l : read_mem l (Z.of_nat (length l)) = Ret l.
Proof. unfold read_mem. by rewrite Z.leb_refl, Nat2Z.id, firstn_all. Qed.

Lemma copy_tids_spec : forall rest i tasks tids pre acc,
  tids = pre ++ rest -> i = Z.of_nat (length pre) ->
  tasks = (fun ids => Z.of_nat (length ids)) <$> tids ->
  for_while (fun _ => true)
    (fun i acc => t ← aget tasks i; l ← aget tids i; l ← read_mem l t; Ret (acc ++ [l]))
    (length rest) i acc = Ret (acc ++ rest).
Proof.
  induction rest as [|ids rest IH]; intros i tasks tids pre acc Htids Hi Htasks; cbn [length for_while].
  { by rewrite app_nil_r. }
  assert (Hl : tids !! Z.to_nat i = Some ids) by (rewrite Hi, Htids, Nat2Z.id; by apply list_lookup_middle).
  rewrite (aget_lookup tasks i (Z.of_nat (length ids))) by (rewrite ?Htasks, ?list_lookup_fmap, ?Hl; done || lia).
  rewrite (aget_lookup tids i ids) by (done || lia). cbn [mbind exec_bind].
  rewrite read_mem_all. cbn [mbind exec_bind]. rewrite (IH (i + 1) tasks tids (pre ++ [ids])); try done.
  - by rewrite <-app_assoc.
  - by rewrite Htids, <-app_assoc.
  - rewrite length_app. simpl. lia.
Qed.

(** A copy has the nodes, the tasks and the task ids of the original;
    the front end and the plane size are not copied. *)
Theorem copy_keeps_tasks (l : step_layout) (tids : list (list Z)) :
  wire_layout l tids ->
  slurm_step_layout_copy (Some l) =
    Ret (Some (StepLayout None (sl_node_cnt l) (sl_node_list l) 0 (sl_start_protocol_ver l)
      (sl_tasks l) (sl_task_cnt l) (sl_task_dist l) (sl_tids l))).
Proof.
  intros [E1 E2 [En _] _ _ _]. unfold slurm_step_layout_copy. rewrite E1, E2. unfold read_mem at 1.
  rewrite length_fmap, En, Z.leb_refl, Nat2Z.id. cbn [mbind exec_bind].
  rewrite take_ge by (by rewrite length_fmap). unfold copy_tids. rewrite Nat2Z.id.
  by rewrite (copy_tids_spec tids 0 _ tids [] []).
Qed.

Lemma copy_keeps_tasks_witness :
  slurm_step_layout_copy (Some sample_layout) = Ret (Some sample_layout).
Proof. rewrite (copy_keeps_tasks sample_layout [[0; 1]; [2]]); [done|apply sample_layout_wire]. Defined.

(** ** Layouts without an allocation *)
Lemma fake_fill_spec task_cnt cpn cur :
  0 <= cur -> 0 < cpn -> cur + cpn <= task_cnt -> task_cnt <= 65535 ->
  fake_fill task_cnt cpn cur = Ret (cur + cpn, seqZ cur cpn, cpn).
Proof.
  intros Hcur Hc Hle Hmax. apply wp_eq. unfold fake_fill. apply wp_bind.
  eapply (wp_for (fun j '(c, l, used, full) => c = cur + j /\ length l = Z.to_nat cpn /\
    take (Z.to_nat j) l = seqZ cur j /\ used = cpn /\ (full = true -> j = cpn))).
  - split_and!; [lia|by rewrite length_replicate|done|unfold u16; rewrite Z.mod_small by lia; done|done].
  - intros j [[[c l] used] full] Hj (-> & Hl & Htk & -> & _) Hcond. apply wp_bind, wp_aset; [lia|].
    rewrite u32_small by lia. assert (Htk' : take (Z.to_nat (j + 1)) (<[Z.to_nat j:=cur + j]> l) = seqZ cur (j + 1)).
    { replace (Z.to_nat (j + 1)) with (S (Z.to_nat j)) by lia. rewrite take_insert_S by lia.
      rewrite Htk. replace (j + 1) with (Z.of_nat (S (Z.to_nat j))) by lia. by rewrite seqZ_S, Z2Nat.id by lia. }
    destruct (Z.leb_spec task_cnt (cur + j + 1)); apply wp_ret; split_and!;
      try done; try lia; try (by rewrite length_insert). unfold u16. rewrite Z.mod_small; lia.
  - intros j [[[c l] used] full] Hj (-> & Hl & Htk & -> & Hfull) Hend. apply wp_ret.
    assert (j = cpn) as -> by (destruct Hend as [?|Hend]; [lia|apply Hfull, negb_false_iff, Hend]).
    by rewrite <-Htk, take_ge by lia.
Qed.

(** A layout made from a task count alone is complete and balanced: the task
    counts of any two nodes differ by at most one. *)
Theorem fake_layout_balanced (tlist : cstr) (n t : Z) :
  0 < n < 2 ^ 31 -> 0 < t <= 65535 ->
  wp (fake_slurm_step_layout_create (Some tlist) None None n t) (fun r =>
    exists l, r = Some l /\ complete t l /\
      forall tasks i x, sl_tasks l = Some tasks -> tasks !! i = Some x ->
        t / n <= x <= (t + n - 1) / n).
Proof.
  intros Hn Ht. unfold fake_slurm_step_layout_create.
  rewrite (proj2 (Z.leb_gt n 0)), (proj2 (Z.leb_gt t 0)) by lia. cbn [orb andb].
  rewrite bool_decide_eq_false_2 by done. apply wp_bind. set (p := t / n). set (q := (t + n - 1) / n).
  assert (Hpq : 0 <= p <= q /\ q <= p + 1 /\ p * n <= t <= q * n) by (subst p q; Z.to_euclidean_division_equations; nia).
  eapply (wp_for (fun i '(cur, _, _, tasks, tids) => 0 <= cur <= t /\ p * (n - i) <= t - cur <= q * (n - i) /\
    Z.of_nat (length tids) = i /\ tasks = ((fun ids => Z.of_nat (length ids)) <$> tids) /\ concat tids = seqZ 0 cur /\
    Forall (fun x => p <= x <= q) tasks)).
  - split_and!; try done; try lia.
  - intros i [[[[cur ci] cc] tasks] tids] Hi (Hcur & Hbal & Hl & Hts & Hcat & HF) _.
    assert (Hbeta : forall c, 0 <= c -> p <= c <= q -> t - cur - c <= q * (n - (i + 1)) -> p * (n - (i + 1)) <= t - cur - c ->
      let '(cur', _, _, tasks', tids') := (cur + c, ci, cc, tasks ++ [c], tids ++ [seqZ cur c]) in
      0 <= cur' /\ p * (n - (i + 1)) <= t - cur' <= q * (n - (i + 1)) /\
      Z.of_nat (length tids') = i + 1 /\ tasks' = ((fun ids => Z.of_nat (length ids)) <$> tids') /\ concat tids' = seqZ 0 cur' /\
      Forall (fun x => p <= x <= q) tasks').
    { intros c Hc Hpc H1 H2. split_and!; [lia|lia|lia|rewrite length_app; simpl; lia|..].
      - rewrite fmap_app, Hts. cbn [fmap list_fmap]. rewrite length_seqZ, Z2Nat.id by lia. done.
      - rewrite concat_app, Hcat. simpl. rewrite app_nil_r. apply seqZ_join; lia.
      - apply Forall_app. split; [done|]. by apply Forall_singleton. }
    rewrite (u32_small (n - i)), (u32_small (t - cur)), u32_small by lia.
    destruct (Z.leb_spec t cur).
    + apply wp_ret. assert (cur = t) as -> by lia. specialize (Hbeta 0 ltac:(lia)). rewrite Z.add_0_r in Hbeta.
      destruct Hbeta as (? & ? & ? & ? & ? & ?); [nia|nia|nia|]. split_and!; done || lia.
    + set (c := (t - cur + (n - i) - 1) `quot` (n - i)).
      assert (Hc : 0 < c /\ c <= t - cur /\ p <= c <= q /\ t - cur - c <= q * (n - (i + 1)) /\ p * (n - (i + 1)) <= t - cur - c).
      { assert (Hdiv : (n - i) * (c - 1) < t - cur <= (n - i) * c).
        { subst c. rewrite Z.quot_div_nonneg by lia. Z.to_euclidean_division_equations; nia. }
        clearbody c p q. assert (0 < n - i) by lia. nia. }
      rewrite fake_fill_spec by lia. cbn [mbind exec_bind]. apply wp_ret.
      destruct (Hbeta c) as (? & ? & ? & ? & ? & ?); try lia. split_and!; done || lia.
  - intros i [[[[cur ci] cc] tasks] tids] Hi (Hcur & Hbal & Hl & -> & Hcat & HF) Hend.
    destruct Hend as [->|]; [|done]. apply wp_ret. eexists. split; [done|].
    assert (cur = t) as -> by nia. split.
    + split; [simpl; lia|]. split; [done|]. eexists _, _. split; [done|]. split; [done|]. cbn [sl_node_cnt]. constructor.
      * rewrite length_fmap. lia.
      * intros k ids Hk. unfold at_. rewrite (proj2 (Z.ltb_ge _ _)), Nat2Z.id, list_lookup_fmap, Hk by lia. done.
      * intros k ids Hk Hids. apply lookup_lt_Some in Hids. lia.
      * by rewrite Hcat.
    + intros tasks k x [= <-] Hx. rewrite Forall_lookup in HF. by apply (HF k x).
Qed.

Lemma fake_layout_balanced_witness :
  wp (fake_slurm_step_layout_create (Some [97]) None None 3 7) (fun r =>
    exists l, r = Some l /\ complete 7 l) /\
  wp (fake_slurm_step_layout_create (Some [97]) None None 3 7) (fun r =>
    (r ≫= sl_tasks) = Some [3; 2; 2]).
Proof.
  split; [|by vm_compute].
  eapply wp_mono; [apply (fake_layout_balanced [97] 3 7); lia|]. intros r (l & Hr & Hc & _). by exists l.
Defined.

(** Two distributions have the same name. *)
Lemma type_name_not_injective :
  slurm_step_layout_type_name 0x0321 = slurm_step_layout_type_name 0x0311.
Proof. reflexivity. Qed.
