(* ===== verification/NodeConf.v ===== *)
(** * The table of nodes: src/common/node_conf.c

    Node names and bitmaps of nodes are converted into each other with the host
    list code and a hash table of the names; the arrays [cr_node_num_cores] and
    [cr_node_cores_offset] place the cores of each node in a bitmap of all cores of
    the cluster.  The table itself is that of [NodeOrder], whose records hold the
    hardware here. *)

From S2P Require Import Prelude Bitstring BitstringFacts BitstringCount StepLayout Hostlist HostlistParse HostlistPrint HostlistFacts HostlistOps HostlistSeq HostlistText HostlistRead HostlistCoalesce HostlistOrder HostlistNames NodeOrder.

Local Open Scope Z_scope.
Local Open Scope slurm_scope.

(** What a node registered with, and what its configuration says ([config_ptr]). *)
Record hardware : Type := Hardware { hw_sockets : Z; hw_cores : Z; conf_sockets : Z; conf_cores : Z }.

Abbreviation node_table := (list (node_record hardware)).

Definition EINVAL : Z := 22.

(** ** Finding nodes *)

(** A hash table of src/common/xhash.c as the keys and items added to it, the last
    one first. *)
Definition xhash : Type := list (cstr * Z).

Definition xhash_add (h : xhash) (key : cstr) (item : Z) : xhash := (key, item) :: h.
Fixpoint xhash_get (h : xhash) (key : cstr) : option Z :=
  match h with [] => None | (k, item) :: h => if bool_decide (k = key) then Some item else xhash_get h key end.

(** Items are positions in the table of nodes; a vestigial record has no name. *)
Fixpoint rehash_from (i : Z) (table : node_table) (h : xhash) : xhash :=
  match table with
  | [] => h
  | node :: table => rehash_from (i + 1) table (match nr_name node with [] => h | name => xhash_add h name i end)
  end.
Definition rehash_node (table : node_table) : xhash := rehash_from 0 table [].

(** The sequential search. *)
Fixpoint search_from (i : Z) (table : node_table) (name : cstr) : option Z :=
  match table with [] => None | node :: table => if bool_decide (name = nr_name node) then Some i else search_from (i + 1) table name end.

(** "localhost". *)
Definition localhost : cstr := [108; 111; 99; 97; 108; 104; 111; 115; 116].

Section nodes.
Context (env : cluster_env) (fill : Z -> cstr) (fuel : nat).

(** The table and its hash table, [None] before [rehash_node] has been called.
    [slurm_conf_get_nodename] is the function of read_config.c that finds the name of
    the node with a host name. *)
Context (slurm_conf_get_nodename : cstr -> option cstr) (table : node_table) (node_hash_table : option xhash).

Definition node_record_count : Z := Z.of_nat (length table).

Definition _find_alias_node_record (name : cstr) : option Z :=
  match name with
  | [] => None
  | _ => alias ← slurm_conf_get_nodename name;
         match node_hash_table with Some h => xhash_get h alias | None => search_from 0 table alias end
  end.

(** The position of the record. *)
Definition _find_node_record (name : cstr) (test_alias : bool) : option Z :=
  let alias := if test_alias then _find_alias_node_record name else None in
  match name with
  | [] => None
  | _ =>
      match node_hash_table with
      | Some h =>
          match xhash_get h name with
          | Some node => Some node
          | None =>
              if (node_record_count =? 1) && bool_decide (nr_name <$> head table = Some localhost) then Some 0 else alias
          end
      | None => match search_from 0 table name with Some node => Some node | None => alias end
      end
  end.

Definition find_node_record (name : cstr) : option Z := _find_node_record name true.
Definition find_node_record_no_alias (name : cstr) : option Z := _find_node_record name false.

(** ** Bitmaps to names *)

Definition bitmap2hostlist (bitmap : option bitstr) : exec (option hostlist) :=
  match bitmap with
  | None => Ret None
  | Some bitmap =>
      first ← bit_ffs bitmap;
      if first =? -1 then Ret None else
      last ← bit_fls bitmap;
      hl ← for_while (fun _ => true) (fun i hl =>
        t ← bit_test bitmap i;
        if negb t then Ret hl else node ← aget table i; '(_, hl) ← hostlist_push_host env hl (nr_name node); Ret hl)
        (Z.to_nat (last - first + 1)) first hostlist_new;
      Ret (Some hl)
  end.

Definition bitmap2node_name_sortable (g : grid) (bitmap : option bitstr) (sort : bool) : exec (cstr * grid) :=
  hl ← bitmap2hostlist bitmap;
  match hl with
  | None => Ret ([], g)
  | Some hl =>
      hl ← (if sort then hostlist_sort fuel hl else Ret hl);
      hostlist_ranged_string_xmalloc fill env g hl
  end.

Definition bitmap2node_name (g : grid) (bitmap : option bitstr) : exec (cstr * grid) :=
  bitmap2node_name_sortable g bitmap true.

(** ** Names to bitmaps *)

(** One name: the bitmap, and whether there is no such node. *)
Definition set_node (best_effort : bool) (my_bitmap : bitstr) (rc : Z) (name : cstr) : exec (bitstr * Z) :=
  match _find_node_record name best_effort with
  | Some node => my_bitmap ← bit_set my_bitmap node; Ret (my_bitmap, rc)
  | None => Ret (my_bitmap, if best_effort then rc else EINVAL)
  end.

Definition node_name2bitmap (node_names : option cstr) (best_effort : bool) : exec (bitstr * Z) :=
  my_bitmap ← bit_alloc node_record_count;
  match node_names with
  | None => Ret (my_bitmap, SLURM_SUCCESS)
  | Some node_names =>
      host_list ← hostlist_create env fuel node_names;
      match host_list with
      | None => Ret (my_bitmap, if best_effort then SLURM_SUCCESS else EINVAL)
      | Some host_list =>
          loop (S (Z.to_nat (hl_nhosts host_list))) (fun '(host_list, my_bitmap, rc) =>
            '(this_node_name, host_list) ← hostlist_shift env host_list;
            match this_node_name with
            | None => Ret (inr (my_bitmap, rc))
            | Some name => '(my_bitmap, rc) ← set_node best_effort my_bitmap rc name; Ret (inl (host_list, my_bitmap, rc))
            end) (host_list, my_bitmap, SLURM_SUCCESS)
      end
  end.

(** The bitmap, the error code and the list, whose iterator has come and gone. *)
Definition hostlist2bitmap (hl : hostlist) (best_effort : bool) : exec (bitstr * Z * hostlist) :=
  my_bitmap ← bit_alloc node_record_count;
  '(hi, hl) ← hostlist_iterator_create hl;
  '(my_bitmap, rc, hl) ← loop (S (Z.to_nat (hl_nhosts hl))) (fun '(hl, my_bitmap, rc) =>
    '(name, hl) ← hostlist_next env hl hi;
    match name with
    | None => Ret (inr (my_bitmap, rc, hl))
    | Some name => '(my_bitmap, rc) ← set_node best_effort my_bitmap rc name; Ret (inl (hl, my_bitmap, rc))
    end) (hl, my_bitmap, SLURM_SUCCESS);
  hl ← hostlist_iterator_destroy hl hi;
  Ret (my_bitmap, rc, hl).
End nodes.

(** ** Cores of the cluster *)

(** The sockets of a node and the cores of each. *)
Definition node_size (fast_schedule : bool) (hw : hardware) : Z * Z :=
  if fast_schedule then (conf_sockets hw, conf_cores hw) else (hw_sockets hw, hw_cores hw).

(** [cr_node_num_cores] and [cr_node_cores_offset], the latter with an extra element. *)
Definition cr_init_global_core_data (table : node_table) (fast_schedule : bool) : exec (list Z * list Z) :=
  let node_cnt := Z.of_nat (length table) in
  '(num_cores, offset) ← for_while (fun _ => true) (fun n '(num_cores, offset) =>
    node ← aget table n;
    let '(sockets, cores) := node_size fast_schedule (nr_other node) in
    num_cores ← aset num_cores n (u16 (cores * sockets));
    off ← (if 0 <? n then o ← aget offset (n - 1); c ← aget num_cores (n - 1); Ret (u32 (o + c)) else Ret 0);
    offset ← aset offset n off;
    Ret (num_cores, offset)) (length table) 0 (replicate (length table) 0, replicate (S (length table)) 0);
  o ← aget offset (node_cnt - 1); c ← aget num_cores (node_cnt - 1);
  offset ← aset offset node_cnt (u32 (o + c));
  Ret (num_cores, offset).

Definition cr_get_coremap_offset (cr_node_cores_offset : option (list Z)) (node_index : Z) : exec Z :=
  match cr_node_cores_offset with None => Fault | Some offset => aget offset node_index end.

(** [cnt] is the static variable of the function, which keeps the size of the first
    call that found cores. *)
Definition cr_create_cluster_core_bitmap (cr_node_cores_offset : option (list Z)) (node_record_count cnt core_mult : Z) : exec (bitstr * Z) :=
  cnt ← (if cnt =? 0 then c ← cr_get_coremap_offset cr_node_cores_offset node_record_count; i32 (s32 c * (if core_mult =? 0 then 1 else core_mult))
         else Ret cnt);
  core_bitmap ← bit_alloc cnt;
  Ret (core_bitmap, cnt).

(** C division rounds towards zero. *)
Definition adjust_cpus_nppcu (ntasks_per_core threads cpus : Z) : exec Z :=
  if negb (ntasks_per_core =? 0) && negb (ntasks_per_core =? 0xffff) && negb (threads =? 0)
  then c ← i32 (cpus * ntasks_per_core); Ret (c ÷ threads)
  else Ret cpus.

(** ** Finding a node by its name *)

Abbreviation names table := (nr_name <$> table).

Lemma rehash_from_other i (table : node_table) h key : key ∉ names table -> xhash_get (rehash_from i table h) key = xhash_get h key.
Proof.
  revert i h. induction table as [|node table IH]; intros i h Hk; [done|]. cbn [rehash_from]. rewrite fmap_cons in Hk. apply not_elem_of_cons in Hk as [Hne Hk].
  rewrite IH by done. destruct (nr_name node) as [|c s] eqn:E; [done|]. cbn [xhash_add xhash_get]. by rewrite bool_decide_eq_false_2 by congruence.
Qed.

Lemma rehash_from_found i (table : node_table) h j node : NoDup (names table) -> table !! j = Some node -> nr_name node <> [] ->
  xhash_get (rehash_from i table h) (nr_name node) = Some (i + Z.of_nat j).
Proof.
  revert i h j. induction table as [|x table IH]; intros i h j Hn Hj Hne; [done|]. rewrite fmap_cons in Hn. apply NoDup_cons in Hn as [Hx Hn]. cbn [rehash_from].
  destruct j as [|j]; cbn [lookup list_lookup] in Hj.
  - injection Hj as ->. rewrite rehash_from_other by done. destruct (nr_name node) as [|c s]; [done|]. cbn [xhash_add xhash_get].
    rewrite bool_decide_eq_true_2 by done. f_equal. lia.
  - rewrite (IH _ _ j) by done. f_equal. lia.
Qed.

(** The hash table finds every node of the table. *)
Lemma find_by_name getname (table : node_table) test_alias j node : NoDup (names table) -> table !! j = Some node -> nr_name node <> [] ->
  _find_node_record getname table (Some (rehash_node table)) (nr_name node) test_alias = Some (Z.of_nat j).
Proof.
  intros Hn Hj Hne. unfold _find_node_record, rehash_node. rewrite (rehash_from_found 0 table [] j node) by done. rewrite Z.add_0_l. by destruct (nr_name node).
Qed.

(** ** Names and bitmaps *)

(** Node names that host lists can hold and print, no two of them equal. *)
Record table_ok (table : node_table) : Prop := {
  tab_nodup : NoDup (names table);
  tab_uniform : uniform (names table);
  tab_printable : Forall printable (names table);
  tab_short : Forall short (names table)
}.

(** The names of the nodes [l]. *)
Definition node_names (table : node_table) (l : list Z) : list cstr := omap (fun i => nr_name <$> table !! Z.to_nat i) l.

Lemma node_names_snoc table l i node : table !! Z.to_nat i = Some node -> node_names table (l ++ [i]) = node_names table l ++ [nr_name node].
Proof. intros H. unfold node_names. rewrite omap_app. cbn [omap list_omap]. by rewrite H. Qed.

Lemma node_names_in table l : Forall (fun s => s ∈ names table) (node_names table l).
Proof.
  apply Forall_forall. intros s Hs. unfold node_names in Hs. apply list_elem_of_omap in Hs as (i & _ & E). apply fmap_Some in E as (node & E & ->).
  apply list_elem_of_fmap. exists node. split; [done|]. by eapply list_elem_of_lookup_2.
Qed.

Lemma Forall_names (P : cstr -> Prop) table l : Forall P (names table) -> Forall P (node_names table l).
Proof. intros H. eapply Forall_impl; [apply node_names_in|]. intros s Hs. rewrite Forall_forall in H. by apply H. Qed.

Lemma node_names_uniform table l : uniform (names table) -> uniform (node_names table l).
Proof. intros [W H]. exists W. by apply Forall_names. Qed.

Lemma node_names_length table l : (length (node_names table l) <= length l)%nat.
Proof. unfold node_names. induction l as [|i l IH]; [done|]. cbn [omap list_omap length]. destruct (table !! Z.to_nat i); simpl in *; lia. Qed.

Section roundtrip.
Context (env : cluster_env) (E1 : one_dim env) (fill : Z -> cstr) (Hfill : forall n, 0 <= n -> Z.of_nat (length (fill n)) = n) (fuel : nat).
Context (getname : cstr -> option cstr) (table : node_table) (T : table_ok table).

Lemma bitmap2hostlist_spec b : bs_wf b -> bs_bits b = Z.of_nat (length table) ->
  wp (bitmap2hostlist env table (Some b)) (fun r =>
    match r with None => set_bits b = [] | Some hl => set_bits b <> [] /\ is_seq hl (node_names table (set_bits b)) end).
Proof using E1 T.
  intros Wf Hb. pose proof (wf_size _ Wf) as Hsz. unfold bitmap2hostlist. apply wp_bind. eapply wp_mono; [by apply bit_ffs_spec|]. intros first Hf.
  destruct (Z.eqb_spec first (-1)) as [->|Hne]; [by apply wp_ret, set_bits_none|].
  apply wp_bind. eapply wp_mono; [by apply bit_fls_spec|]. intros last Hl. destruct (set_bits_between b first last Hf Hl Hne) as (Hfl & Hlt & -> & Hnil).
  apply wp_bind. apply (wp_for_bits b first _ _ (fun l hl => is_seq hl (node_names table l))); [done|lia|lia|apply is_seq_new| |].
  - intros i hl Hi _ Hs. destruct (lookup_lt_is_Some_2 table (Z.to_nat i)) as [node Hn]; [lia|]. rewrite (aget_lookup table i node) by (done || lia). cbn [mbind exec_bind].
    rewrite (node_names_snoc _ _ _ node) by done. assert (Hin : nr_name node ∈ names table) by (apply list_elem_of_fmap; exists node; split; [done|by eapply list_elem_of_lookup_2]).
    apply wp_bind. eapply wp_mono; [apply (push_host_seq env E1 hl _ (nr_name node) Hs)|by intros [rc hl'] [_ H]].
    + pose proof (tab_printable _ T) as Hp. rewrite Forall_forall in Hp. apply (Hp _ Hin).
    + pose proof (tab_short _ T) as Hp. rewrite Forall_forall in Hp. apply (Hp _ Hin).
    + pose proof (node_names_length table (bits_in b first i)) as Hle. unfold bits_in in Hle at 2.
      pose proof (length_filter (fun j => bs_mem b j = true) (seqZ first (i - first))) as Hle2. rewrite length_seqZ in Hle2. unfold i32_max. lia.
  - intros hl Hs. apply wp_ret. rewrite Z2Nat.id in Hs by lia. replace (first + (last - first + 1)) with (last + 1) in Hs by lia. done.
Qed.

(** Setting the bits of named nodes. *)
Lemma set_node_spec b rc s : bs_wf b -> bs_bits b = Z.of_nat (length table) -> s ∈ names table ->
  exists j node, table !! j = Some node /\ s = nr_name node /\
    wp (set_node getname table (Some (rehash_node table)) false b rc s) (fun '(b', rc') => rc' = rc /\
      bs_upd b b' (fun i => if i =? Z.of_nat j then true else bs_mem b i)).
Proof using T.
  intros Wf Hb Hs. apply list_elem_of_fmap in Hs as (node & -> & [j Hj]%list_elem_of_lookup). exists j, node. split; [done|]. split; [done|].
  assert (Hne : nr_name node <> []).
  { pose proof (tab_printable _ T) as Hp. rewrite Forall_fmap, Forall_forall in Hp. destruct (Hp node) as (_ & _ & H); [by eapply list_elem_of_lookup_2|done]. }
  unfold set_node. rewrite (find_by_name getname table false j node (tab_nodup _ T) Hj Hne). apply wp_bind.
  pose proof (lookup_lt_Some _ _ _ Hj). eapply wp_mono; [apply bit_set_spec; [done|lia]|]. intros b' Hu. by apply wp_ret.
Qed.

(** The nodes whose names are in [l]. *)
Definition named (l : list cstr) (i : Z) : bool := match table !! Z.to_nat i with Some node => bool_decide (nr_name node ∈ l) | None => false end.

Lemma named_snoc l j node i : table !! j = Some node -> 0 <= i -> named (l ++ [nr_name node]) i = if i =? Z.of_nat j then true else named l i.
Proof using T.
  intros Hj Hi. unfold named. destruct (Z.eqb_spec i (Z.of_nat j)) as [->|Hne].
  - rewrite Nat2Z.id, Hj. apply bool_decide_eq_true_2, elem_of_app. right. by apply list_elem_of_singleton.
  - destruct (table !! Z.to_nat i) as [x|] eqn:Ex; [|done]. apply bool_decide_ext. rewrite elem_of_app, list_elem_of_singleton. split; [|by left]. intros [H|E]; [done|]. exfalso. apply Hne.
    assert (Z.to_nat i = j); [|lia]. apply (NoDup_lookup (names table) _ _ (nr_name node) (tab_nodup _ T)); rewrite list_lookup_fmap; [by rewrite Ex, <-E|by rewrite Hj].
Qed.

(** Reading a list of node names. *)
Lemma read_names text hl rs : Z.of_nat (length table) <= 0x40000000 -> hostlist_create env fuel text = Ret (Some hl) -> hl_rep hl rs ->
  Forall (fun s => s ∈ names table) (rhosts rs) ->
  wp (node_name2bitmap env fuel getname table (Some (rehash_node table)) (Some text) false) (fun '(b, rc) =>
    rc = SLURM_SUCCESS /\ bs_wf b /\ bs_magic b = BITSTR_MAGIC /\ bs_bits b = Z.of_nat (length table) /\ forall i, 0 <= i -> bs_mem b i = named (rhosts rs) i).
Proof using E1 T.
  intros Hlen Ec R Hin. unfold node_name2bitmap, node_record_count. apply wp_bind. eapply wp_mono; [apply bit_alloc_spec; lia|]. intros b0 (W0 & M0 & B0 & Z0).
  rewrite Ec. cbn [mbind exec_bind].
  eapply (wp_loop (fun '(hl', b, rc) => rc = SLURM_SUCCESS /\ exists rs' seen, hl_rep hl' rs' /\ rhosts rs = seen ++ rhosts rs' /\ bs_upd b0 b (named seen))
    (fun '(hl', _, _) => Z.to_nat (hl_nhosts hl'))
    (fun '(b, rc) => rc = SLURM_SUCCESS /\ bs_upd b0 b (named (rhosts rs)))); [| |lia|].
  - intros [[hl' b] rc] (-> & rs' & seen & R' & Es & Hu).
    destruct (wp_inv _ _ (shift_spec env E1 hl' rs' 0 ltac:(by left) R')) as ([[s|] hl2] & Esh & rs2 & R2 & H); unfold hostlist_shift; rewrite Esh; cbn [mbind exec_bind].
    + destruct H as [H _]. rewrite H in Es. rewrite Es in Hin. apply Forall_app in Hin as [_ [Hs _]%Forall_cons].
      destruct (set_node_spec b SLURM_SUCCESS s (upd_wf _ _ _ Hu) ltac:(rewrite (upd_bits _ _ _ Hu); done) Hs) as (j & node & Hj & -> & Hw).
      apply wp_bind. eapply wp_mono; [exact Hw|]. intros [b' rc'] [-> Hu']. apply wp_ret. split.
      * split; [done|]. exists rs2, (seen ++ [nr_name node]). split; [done|]. rewrite Es, <-app_assoc. split; [done|].
        eapply upd_ext; [eapply upd_trans; [exact Hu|exact Hu']|]. intros i Hi. cbv beta. rewrite (named_snoc seen j node i) by done. by rewrite (upd_mem _ _ _ Hu) by done.
      * rewrite (rep_nhosts _ _ R'), (rep_nhosts _ _ R2), H. simpl. lia.
    + destruct H as (H & _). apply wp_ret. split; [done|]. rewrite Es, H, app_nil_r. done.
  - split; [done|]. exists rs, []. split; [done|]. split; [done|]. eapply upd_ext; [by apply upd_refl|]. intros i Hi. rewrite Z0 by done.
    unfold named. destruct (table !! Z.to_nat i); [|done]. symmetry. apply bool_decide_eq_false_2, not_elem_of_nil.
  - intros [b rc] [-> Hu]. split; [done|]. split_and!; [apply Hu|by rewrite (upd_magic _ _ _ Hu)|by rewrite (upd_bits _ _ _ Hu)|apply Hu].
Qed.

Lemma named_set_bits b l i : bs_bits b = Z.of_nat (length table) -> l ≡ₚ node_names table (set_bits b) -> 0 <= i < bs_bits b -> named l i = bs_mem b i.
Proof using T.
  intros Hb Hl Hi. unfold named. destruct (lookup_lt_is_Some_2 table (Z.to_nat i)) as [node Hn]; [lia|]. rewrite Hn. destruct (bs_mem b i) eqn:E.
  - apply bool_decide_eq_true_2. rewrite Hl. apply list_elem_of_omap. exists i. split; [apply elem_of_set_bits; done|]. by rewrite Hn.
  - apply bool_decide_eq_false_2. rewrite Hl. intros (k & [Hk Ek]%elem_of_set_bits & En)%list_elem_of_omap. apply fmap_Some in En as (x & Ex & En).
    assert (Z.to_nat i = Z.to_nat k).
    { apply (NoDup_lookup (names table) _ _ (nr_name node) (tab_nodup _ T)); rewrite list_lookup_fmap; [by rewrite Hn|by rewrite Ex, En]. }
    replace k with i in Ek by lia. congruence.
Qed.
End roundtrip.

Lemma table_ok_perm (table table' : node_table) : table' ≡ₚ table -> table_ok table -> table_ok table'.
Proof.
  intros Hp [H1 [W H2] H3 H4]. assert (Hn : names table' ≡ₚ names table) by (by apply fmap_Permutation).
  split; [by rewrite Hn|exists W; by rewrite Hn|by rewrite Hn|by rewrite Hn].
Qed.

Lemma node_names_all (table : node_table) l : Forall (fun i => 0 <= i < Z.of_nat (length table)) l -> length (node_names table l) = length l.
Proof.
  unfold node_names. induction 1 as [|i l Hi _ IH]; [done|]. cbn [omap list_omap]. destruct (lookup_lt_is_Some_2 table (Z.to_nat i)) as [node ->]; [lia|].
  simpl. by rewrite IH.
Qed.

Lemma create_empty env fuel : one_dim env -> hostlist_create env fuel [] = Ret (Some hostlist_new).
Proof. intros E1. unfold hostlist_create, hostlist_create_dims. rewrite E1. done. Qed.

(** C25: The text of a set of nodes stands for these nodes.  For a table of nodes with
    distinct names that host lists can hold, [bitmap2node_name] writes a sorted host
    list expression for any bitmap of at most 65536 nodes, and [node_name2bitmap]
    finds in that expression exactly the nodes of the bitmap, without an error; no
    nodes are the empty string.  So the nodes of jobs, partitions and reservations,
    which are saved by name, are the same after a restart, also when the table
    has been put in another order. *)
Theorem node_names_roundtrip (env : cluster_env) (fill : Z -> cstr) (fuel : nat) (getname : cstr -> option cstr) (g : grid) (table table' : node_table) (b : bitstr) :
  one_dim env -> (forall n, 0 <= n -> Z.of_nat (length (fill n)) = n) -> table_ok table -> table' ≡ₚ table ->
  bs_wf b -> bs_bits b = Z.of_nat (length table) -> Z.of_nat (length (set_bits b)) <= MAX_RANGE -> (sort_rounds (Z.of_nat (length (set_bits b))) <= fuel)%nat ->
  wp (bitmap2node_name env fill fuel table g (Some b)) (fun '(text, g') => g' = g /\ (set_bits b = [] <-> text = []) /\
    wp (node_name2bitmap env fuel getname table' (Some (rehash_node table')) (Some text) false) (fun '(b', rc) =>
      rc = SLURM_SUCCESS /\ bs_wf b' /\ bs_bits b' = bs_bits b /\
      forall i j node, 0 <= i -> 0 <= j -> table !! Z.to_nat i = Some node -> table' !! Z.to_nat j = Some node -> bs_mem b' j = bs_mem b i)).
Proof.
  intros E1 Hfill T Hp Wf Hb Hmax Hfuel. pose proof (table_ok_perm _ _ Hp T) as T'. pose proof (wf_size _ Wf) as Hsz. pose proof (Permutation_length Hp) as Hlen.
  pose proof (node_names_all table (set_bits b)) as Hall. rewrite Forall_forall in Hall. specialize (Hall ltac:(intros i [Hi _]%elem_of_set_bits; lia)).
  assert (Hread : forall text hl rs l, hostlist_create env fuel text = Ret (Some hl) -> hl_rep hl rs -> rhosts rs = l -> l ≡ₚ node_names table (set_bits b) ->
    wp (node_name2bitmap env fuel getname table' (Some (rehash_node table')) (Some text) false) (fun '(b', rc) => rc = SLURM_SUCCESS /\ bs_wf b' /\ bs_bits b' = bs_bits b /\
      forall i j node, 0 <= i -> 0 <= j -> table !! Z.to_nat i = Some node -> table' !! Z.to_nat j = Some node -> bs_mem b' j = bs_mem b i)).
  { intros text hl rs l Ec R El Hl. eapply wp_mono; [apply (read_names env E1 fuel getname table' T' text hl rs); [lia|done|done|]|].
    - rewrite El. apply Forall_forall. intros s. rewrite Hl. intros Hs. pose proof (node_names_in table (set_bits b)) as Hin. rewrite Forall_forall in Hin.
      rewrite (fmap_Permutation nr_name _ _ Hp). by apply Hin.
    - intros [b' rc] (-> & W' & _ & B' & M'). split_and!; [done|done|lia|]. intros i j node Hi Hj Ei Ej. rewrite M' by done. unfold named. rewrite Ej.
      rewrite <-(named_set_bits table T b l i Hb Hl); [unfold named; by rewrite Ei, El|]. apply lookup_lt_Some in Ei. lia. }
  unfold bitmap2node_name, bitmap2node_name_sortable. apply wp_bind. eapply wp_mono; [by apply (bitmap2hostlist_spec env E1 table T)|]. intros [hl|] H.
  - destruct H as [Hne Hs]. cbn [mbind exec_bind].
    destruct (sort_seq fuel hl _ Hs (node_names_uniform _ _ (tab_uniform _ T))) as (hl' & l' & -> & Hs' & Hperm & _); [by rewrite Hall|]. cbn [mbind exec_bind].
    destruct (read_back_seq env E1 fill Hfill g hl' l' fuel Hs') as (text & hl2 & rs & Et & Ec & R & Er & _).
    { rewrite Hperm. apply Forall_names, (tab_printable _ T). }
    { by rewrite (Permutation_length Hperm), Hall. }
    rewrite Et. apply wp_ret. split; [done|]. split; [|by apply (Hread text hl2 rs l')]. split; [done|]. intros ->. rewrite create_empty in Ec by done. injection Ec as <-.
    pose proof (rep_nhosts _ _ R) as Hn. rewrite Er, (Permutation_length Hperm), Hall in Hn. cbn in Hn. destruct (set_bits b); [done|simpl in Hn; lia].
  - apply wp_ret. split; [done|]. split; [done|]. apply (Hread [] hostlist_new [] []); [by apply create_empty|apply rep_new|done|]. by rewrite H.
Qed.

(** "n1", "n2" and "n10", and the same nodes in another order. *)
Definition three_nodes : node_table :=
  [mk_node [110; 49] 0 (Hardware 2 4 2 4); mk_node [110; 50] 0 (Hardware 2 4 2 4); mk_node [110; 49; 48] 0 (Hardware 1 8 2 4)].
Definition nodes_moved : node_table := reverse three_nodes.

Lemma three_nodes_ok : table_ok three_nodes.
Proof.
  split; [by apply (bool_decide_unpack _)|exists (fun _ => 1); by repeat constructor| |by repeat constructor].
  repeat constructor; try done; try lia; by apply (bool_decide_unpack _).
Qed.

Lemma node_names_roundtrip_witness :
  wp (bitmap2node_name (ClusterEnv None 1 false) (fun n => replicate (Z.to_nat n) 0) 76 three_nodes grid_init (Some (Bitstr BITSTR_MAGIC 3 [5]))) (fun '(text, g') =>
    g' = grid_init /\ (set_bits (Bitstr BITSTR_MAGIC 3 [5]) = [] <-> text = []) /\
    wp (node_name2bitmap (ClusterEnv None 1 false) 76 (fun _ => None) nodes_moved (Some (rehash_node nodes_moved)) (Some text) false) (fun '(b', rc) =>
      rc = SLURM_SUCCESS /\ bs_wf b' /\ bs_bits b' = 3 /\
      forall i j node, 0 <= i -> 0 <= j -> three_nodes !! Z.to_nat i = Some node -> nodes_moved !! Z.to_nat j = Some node ->
        bs_mem b' j = bs_mem (Bitstr BITSTR_MAGIC 3 [5]) i)).
Proof.
  apply (node_names_roundtrip (ClusterEnv None 1 false) (fun n => replicate (Z.to_nat n) 0) 76 (fun _ => None) grid_init three_nodes nodes_moved).
  - done.
  - intros n Hn. rewrite length_replicate. lia.
  - apply three_nodes_ok.
  - apply reverse_Permutation.
  - split; [done|by vm_compute|done|]. by repeat constructor.
  - done.
  - by vm_compute.
  - by apply (bool_decide_unpack _).
Defined.

(** The text of the first and the last of the nodes is "n[1,10]". *)
Example text_of_two_nodes :
  bitmap2node_name (ClusterEnv None 1 false) (fun n => replicate (Z.to_nat n) 0) 76 three_nodes grid_init (Some (Bitstr BITSTR_MAGIC 3 [5])) =
  Ret ([110; 91; 49; 44; 49; 48; 93], grid_init).
Proof. by vm_compute. Qed.

(** ** The cores of the cluster are numbered node by node *)

(** Cores of a node, in 16 bits. *)
Definition cores_of (fast_schedule : bool) (node : node_record hardware) : Z := let '(sockets, cores) := node_size fast_schedule (nr_other node) in u16 (cores * sockets).

Lemma sum_take_S (l : list Z) n x : l !! n = Some x -> foldr Z.add 0 (take (S n) l) = foldr Z.add 0 (take n l) + x.
Proof. revert n. induction l as [|y l IH]; intros [|n] Hn; try done; cbn [take foldr] in *; [injection Hn as ->; simpl; lia|]. rewrite IH by done. lia. Qed.

(** The arrays when [k] nodes are done. *)
Definition core_data_upto (fast : bool) (table : node_table) (k : nat) (num offset : list Z) : Prop :=
  length num = length table /\ length offset = S (length table) /\
  (forall n node, (n < k)%nat -> table !! n = Some node -> num !! n = Some (cores_of fast node)) /\
  forall n, (n < k)%nat -> offset !! n = Some (u32 (foldr Z.add 0 (take n (cores_of fast <$> table)))).

Lemma core_offset_next fast table k num offset x : core_data_upto fast table (S k) num offset -> table !! k = Some x ->
  exists o c, aget offset (Z.of_nat k) = Ret o /\ aget num (Z.of_nat k) = Ret c /\ u32 (o + c) = u32 (foldr Z.add 0 (take (S k) (cores_of fast <$> table))).
Proof.
  intros (_ & _ & Hn & Ho) Hx. exists (u32 (foldr Z.add 0 (take k (cores_of fast <$> table)))), (cores_of fast x).
  split; [apply aget_lookup; [lia|]; rewrite Nat2Z.id; apply Ho; lia|]. split; [apply aget_lookup; [lia|]; rewrite Nat2Z.id; apply Hn; [lia|done]|].
  rewrite (sum_take_S _ k (cores_of fast x)) by (by rewrite list_lookup_fmap, Hx). unfold u32. by rewrite Zplus_mod_idemp_l.
Qed.

(** The arrays say how many cores each node has and where they start: after those of
    all nodes before it; the extra element is the number of cores of the cluster. *)
Theorem cores_numbered_by_node (table : node_table) (fast : bool) : table <> [] ->
  wp (cr_init_global_core_data table fast) (fun '(num, offset) =>
    num = cores_of fast <$> table /\
    forall n, (n <= length table)%nat -> offset !! n = Some (u32 (foldr Z.add 0 (take n (cores_of fast <$> table))))).
Proof.
  intros Hne. unfold cr_init_global_core_data. apply wp_bind.
  eapply (wp_for (fun k '(num, offset) => core_data_upto fast table (Z.to_nat k) num offset)).
  - split_and!; [by rewrite length_replicate|by rewrite length_replicate|intros; lia|intros; lia].
  - intros k [num offset] Hk Hd _. destruct (lookup_lt_is_Some_2 table (Z.to_nat k)) as [node Hn]; [lia|]. rewrite (aget_lookup table k node) by (done || lia).
    cbn [mbind exec_bind]. destruct Hd as (L1 & L2 & Dn & Do).
    assert (Ec : (let '(sockets, cores) := node_size fast (nr_other node) in u16 (cores * sockets)) = cores_of fast node) by done.
    destruct (node_size fast (nr_other node)) as [sockets cores]. rewrite Ec. apply wp_bind, wp_aset; [lia|].
    assert (D1 : core_data_upto fast table (Z.to_nat k) (<[Z.to_nat k := cores_of fast node]> num) offset).
    { split_and!; [by rewrite length_insert|done| |done]. intros n x Hlt Hx. rewrite list_lookup_insert_ne by lia. by apply Dn. }
    apply wp_bind. eapply (wp_mono _ (fun off => off = u32 (foldr Z.add 0 (take (Z.to_nat k) (cores_of fast <$> table))))).
    + destruct (Z.ltb_spec 0 k) as [H0|H0]; [|by replace k with 0 by lia]. destruct (lookup_lt_is_Some_2 table (Z.to_nat (k - 1))) as [x Hx]; [lia|].
      replace (Z.to_nat k) with (S (Z.to_nat (k - 1))) in D1 at 1 by lia. destruct (core_offset_next _ _ _ _ _ x D1 Hx) as (o & c & Eo & Ecn & Es).
      rewrite Z2Nat.id in Eo, Ecn by lia. rewrite Eo, Ecn. simpl. rewrite Es. by replace (S (Z.to_nat (k - 1))) with (Z.to_nat k) by lia.
    + intros off ->. apply wp_bind, wp_aset; [lia|]. apply wp_ret. replace (Z.to_nat (k + 1)) with (S (Z.to_nat k)) by lia.
      split_and!; [by rewrite length_insert|by rewrite length_insert| |].
      * intros n x Hlt Hx. destruct (decide (n = Z.to_nat k)) as [->|]; [rewrite list_lookup_insert_eq by lia; congruence|]. rewrite list_lookup_insert_ne by done. apply Dn; [lia|done].
      * intros n Hlt. destruct (decide (n = Z.to_nat k)) as [->|]; [by rewrite list_lookup_insert_eq by lia|]. rewrite list_lookup_insert_ne by done. apply Do. lia.
  - intros k [num offset] Hk Hd [->|]; [|done]. rewrite Z.add_0_l, Nat2Z.id in Hd. destruct (length table) as [|m] eqn:El; [by apply nil_length_inv in El|].
    destruct (lookup_lt_is_Some_2 table m) as [x Hx]; [lia|]. destruct (core_offset_next _ _ _ _ _ x Hd Hx) as (o & c & Eo & Ecn & Es). destruct Hd as (L1 & L2 & Dn & Do).
    replace (Z.of_nat (S m) - 1) with (Z.of_nat m) by lia. rewrite Eo, Ecn. cbn [mbind exec_bind]. apply wp_bind, wp_aset; [lia|]. apply wp_ret. rewrite Nat2Z.id. split.
    + apply list_eq. intros n. rewrite list_lookup_fmap. destruct (table !! n) as [node|] eqn:En; [|simpl; apply lookup_ge_None; apply lookup_ge_None in En; lia].
      simpl. apply Dn; [apply lookup_lt_Some in En; lia|done].
    + intros n Hle. destruct (decide (n = S m)) as [->|]; [rewrite list_lookup_insert_eq by lia; by rewrite Es|]. rewrite list_lookup_insert_ne by done. apply Do. lia.
Qed.

(** The size of [cr_create_cluster_core_bitmap] is that of the first call: when the
    cluster has grown from two cores to four, it still makes bitmaps of two. *)
Example core_bitmap_keeps_first_size :
  cr_create_cluster_core_bitmap (Some [0; 2]) 1 0 0 = Ret (Bitstr BITSTR_MAGIC 2 [0], 2) /\
  cr_create_cluster_core_bitmap (Some [0; 2; 4]) 2 2 0 = Ret (Bitstr BITSTR_MAGIC 2 [0], 2).
Proof. by vm_compute. Qed.
