(* ===== verification/Locks.v ===== *)
(** * Locks of the controller's data: src/slurmctld/locks.c, locks.h

    Five kinds of data are protected by read and write locks that are built
    from counters, one mutex and one condition variable.  The lock functions
    are programs over four primitive operations; the threads of the controller
    interleave at the points where the mutex is free.  A thread that has to
    wait keeps the mutex until it calls [pthread_cond_wait], and a waiting
    thread can wake up at any time, as POSIX allows. *)

From stdpp Require Import relations.
From S2P Require Import Prelude.

Local Open Scope Z_scope.

Inductive lock_level : Type := NO_LOCK | READ_LOCK | WRITE_LOCK.
Inductive lock_datatype : Type := CONFIG_LOCK | JOB_LOCK | NODE_LOCK | PART_LOCK | FED_LOCK.

#[global] Instance lock_level_eq_dec : EqDecision lock_level.
Proof. solve_decision. Defined.
#[global] Instance lock_datatype_eq_dec : EqDecision lock_datatype.
Proof. solve_decision. Defined.

Record slurmctld_lock : Type := SlurmctldLock {
  lk_config : lock_level;
  lk_job : lock_level;
  lk_node : lock_level;
  lk_partition : lock_level;
  lk_federation : lock_level
}.

Definition dt_code (dt : lock_datatype) : nat :=
  match dt with CONFIG_LOCK => 0 | JOB_LOCK => 1 | NODE_LOCK => 2 | PART_LOCK => 3 | FED_LOCK => 4 end.
Definition ENTITY_COUNT : nat := 5.

(** The counters of a kind of data within [entity]. *)
Definition read_lock (dt : lock_datatype) : nat := dt_code dt * 4 + 0.
Definition write_lock (dt : lock_datatype) : nat := dt_code dt * 4 + 1.
Definition write_wait_lock (dt : lock_datatype) : nat := dt_code dt * 4 + 2.
Definition write_cnt_lock (dt : lock_datatype) : nat := dt_code dt * 4 + 3.

Definition init_locks : list Z := replicate (ENTITY_COUNT * 4) 0.
Definition get_lock_values (entity : list Z) : list Z := entity.

Definition add (entity : list Z) (n : nat) (x : Z) : list Z := <[n := entity !!! n + x]> entity.

(** ** One pass through the critical sections *)
Inductive outcome : Type :=
| Acquired (entity : list Z)
| Refused (entity : list Z)
| MustWait (entity : list Z).

(** The body of the [while (1)] of [_wr_rdlock]. *)
Definition wr_rdlock_pass (entity : list Z) (dt : lock_datatype) (wait_lock : bool) : outcome :=
  if (entity !!! write_lock dt =? 0) && (entity !!! write_wait_lock dt =? 0)
  then Acquired (<[write_cnt_lock dt := 0]> (add entity (read_lock dt) 1))
  else if negb wait_lock then Refused entity
  else MustWait entity.

Definition wr_rdunlock (entity : list Z) (dt : lock_datatype) : list Z := add entity (read_lock dt) (-1).

(** [_wr_wrlock] announces itself before its loop. *)
Definition wr_wrlock_enter (entity : list Z) (dt : lock_datatype) : list Z :=
  add entity (write_wait_lock dt) 1.
Definition wr_wrlock_pass (entity : list Z) (dt : lock_datatype) (wait_lock : bool) : outcome :=
  if (entity !!! read_lock dt =? 0) && (entity !!! write_lock dt =? 0)
  then Acquired (add (add (add entity (write_lock dt) 1) (write_wait_lock dt) (-1)) (write_cnt_lock dt) 1)
  else if negb wait_lock then Refused (add entity (write_wait_lock dt) (-1))
  else MustWait entity.

Definition wr_wrunlock (entity : list Z) (dt : lock_datatype) : list Z := add entity (write_lock dt) (-1).

(** ** Programs over the primitive operations *)
Inductive op : Type :=
| Rdlock (dt : lock_datatype) (wait_lock : bool)
| Wrlock (dt : lock_datatype) (wait_lock : bool)
| Rdunlock (dt : lock_datatype)
| Wrunlock (dt : lock_datatype).

Inductive prog (A : Type) : Type :=
| PRet (a : A)
| POp (o : op) (k : bool -> prog A).
Arguments PRet {A} a.
Arguments POp {A} o k.

Fixpoint pbind {A B : Type} (p : prog A) (f : A -> prog B) : prog B :=
  match p with
  | PRet a => f a
  | POp o k => POp o (fun b => pbind (k b) f)
  end.
#[global] Instance prog_bind : MBind prog := fun A B f p => pbind p f.

(** [if (level == READ_LOCK) ... else if (level == WRITE_LOCK) ...]; nothing to
    do counts as success. *)
Definition lock_one (dt : lock_datatype) (level : lock_level) (wait_lock : bool) : prog bool :=
  match level with
  | NO_LOCK => PRet true
  | READ_LOCK => POp (Rdlock dt wait_lock) PRet
  | WRITE_LOCK => POp (Wrlock dt wait_lock) PRet
  end.
Definition unlock_one (dt : lock_datatype) (level : lock_level) : prog unit :=
  match level with
  | NO_LOCK => PRet tt
  | READ_LOCK => POp (Rdunlock dt) (fun _ => PRet tt)
  | WRITE_LOCK => POp (Wrunlock dt) (fun _ => PRet tt)
  end.

Definition lock_slurmctld (lv : slurmctld_lock) : prog unit :=
  _ ← lock_one CONFIG_LOCK (lk_config lv) true;
  _ ← lock_one JOB_LOCK (lk_job lv) true;
  _ ← lock_one NODE_LOCK (lk_node lv) true;
  _ ← lock_one PART_LOCK (lk_partition lv) true;
  _ ← lock_one FED_LOCK (lk_federation lv) true;
  PRet tt.

Definition try_lock_slurmctld (lv : slurmctld_lock) : prog Z :=
  success ← lock_one CONFIG_LOCK (lk_config lv) false;
  if negb success then PRet (-1) else
  success ← lock_one JOB_LOCK (lk_job lv) false;
  if negb success then
    _ ← unlock_one CONFIG_LOCK (lk_config lv);
    PRet (-1)
  else
  success ← lock_one NODE_LOCK (lk_node lv) false;
  if negb success then
    _ ← unlock_one JOB_LOCK (lk_job lv);
    _ ← unlock_one CONFIG_LOCK (lk_config lv);
    PRet (-1)
  else
  success ← lock_one PART_LOCK (lk_partition lv) false;
  if negb success then
    _ ← unlock_one NODE_LOCK (lk_node lv);
    _ ← unlock_one JOB_LOCK (lk_job lv);
    _ ← unlock_one CONFIG_LOCK (lk_config lv);
    PRet (-1)
  else
  success ← lock_one FED_LOCK (lk_federation lv) false;
  if negb success then
    _ ← unlock_one PART_LOCK (lk_partition lv);
    _ ← unlock_one NODE_LOCK (lk_node lv);
    _ ← unlock_one JOB_LOCK (lk_job lv);
    _ ← unlock_one CONFIG_LOCK (lk_config lv);
    PRet (-1)
  else PRet 0.

Definition unlock_slurmctld (lv : slurmctld_lock) : prog unit :=
  _ ← unlock_one FED_LOCK (lk_federation lv);
  _ ← unlock_one PART_LOCK (lk_partition lv);
  _ ← unlock_one NODE_LOCK (lk_node lv);
  _ ← unlock_one JOB_LOCK (lk_job lv);
  _ ← unlock_one CONFIG_LOCK (lk_config lv);
  PRet tt.

(** What the callers do: lock, work, unlock; or try, and work and unlock only
    on success. *)
Inductive session : Type :=
| Locked (lv : slurmctld_lock)
| Tried (lv : slurmctld_lock).
Definition session_prog (s : session) : prog unit :=
  match s with
  | Locked lv => _ ← lock_slurmctld lv; unlock_slurmctld lv
  | Tried lv => rc ← try_lock_slurmctld lv;
                if rc =? 0 then unlock_slurmctld lv else PRet tt
  end.
Fixpoint client (l : list session) : prog unit :=
  match l with [] => PRet tt | s :: l => _ ← session_prog s; client l end.

(** ** Threads *)
(** [Running]: between operations.  [Deciding]: has seen that it must wait and
    holds the mutex.  [Waiting]: in [pthread_cond_wait].  [Woken]: has to
    acquire the mutex again.  [Exited]: ended by [pthread_exit]. *)
Inductive status : Type := Running | Deciding | Waiting | Woken | Exited.
#[global] Instance status_eq_dec : EqDecision status.
Proof. solve_decision. Defined.

(** [th_held] records the locks a thread has; no operation reads it. *)
Record thread : Type := Thread { th_status : status; th_prog : prog unit; th_held : slurmctld_lock }.
Record sys : Type := Sys {
  entity : list Z;
  mutex : option nat;
  kill_thread : bool;
  threads : list thread
}.

Definition level (h : slurmctld_lock) (dt : lock_datatype) : lock_level :=
  match dt with
  | CONFIG_LOCK => lk_config h | JOB_LOCK => lk_job h | NODE_LOCK => lk_node h
  | PART_LOCK => lk_partition h | FED_LOCK => lk_federation h
  end.
Definition set_level (h : slurmctld_lock) (dt : lock_datatype) (l : lock_level) : slurmctld_lock :=
  let '(SlurmctldLock a b c d e) := h in
  match dt with
  | CONFIG_LOCK => SlurmctldLock l b c d e | JOB_LOCK => SlurmctldLock a l c d e
  | NODE_LOCK => SlurmctldLock a b l d e | PART_LOCK => SlurmctldLock a b c l e
  | FED_LOCK => SlurmctldLock a b c d l
  end.
Definition no_locks : slurmctld_lock := SlurmctldLock NO_LOCK NO_LOCK NO_LOCK NO_LOCK NO_LOCK.

(** One pass of a locking operation; [first] on entry, not after a wake-up. *)
Definition lock_pass (first : bool) (e : list Z) (o : op) : outcome :=
  match o with
  | Rdlock dt w => wr_rdlock_pass e dt w
  | Wrlock dt w => wr_wrlock_pass (if first then wr_wrlock_enter e dt else e) dt w
  | Rdunlock dt => Acquired (wr_rdunlock e dt)
  | Wrunlock dt => Acquired (wr_wrunlock e dt)
  end.
Definition op_held (o : op) (h : slurmctld_lock) : slurmctld_lock :=
  match o with
  | Rdlock dt _ => set_level h dt READ_LOCK
  | Wrlock dt _ => set_level h dt WRITE_LOCK
  | Rdunlock dt | Wrunlock dt => set_level h dt NO_LOCK
  end.

(** [pthread_cond_broadcast]. *)
Definition wake (t : thread) : thread :=
  if decide (th_status t = Waiting) then Thread Woken (th_prog t) (th_held t) else t.
Definition broadcasts (o : op) : bool :=
  match o with Rdunlock _ | Wrunlock _ => true | _ => false end.

Definition run_op (first : bool) (i : nat) (t : thread) (o : op) (k : bool -> prog unit) (s : sys) : sys :=
  match lock_pass first (entity s) o with
  | Acquired e =>
      Sys e None (kill_thread s)
        (<[i := Thread Running (k true) (op_held o (th_held t))]>
           (if broadcasts o then wake <$> threads s else threads s))
  | Refused e => Sys e None (kill_thread s) (<[i := Thread Running (k false) (th_held t)]> (threads s))
  | MustWait e => Sys e (Some i) (kill_thread s) (<[i := Thread Deciding (POp o k) (th_held t)]> (threads s))
  end.

(** What thread [i] does next, when it can. *)
Definition thread_step (i : nat) (s : sys) : option sys :=
  t ← threads s !! i;
  match th_status t, th_prog t, mutex s with
  | Running, POp o k, None => Some (run_op true i t o k s)
  | Deciding, p, _ =>
      Some (Sys (entity s) None (kill_thread s) (<[i := Thread Waiting p (th_held t)]> (threads s)))
  | Woken, POp o k, None =>
      if kill_thread s
      then Some (Sys (entity s) (Some i) true (<[i := Thread Exited (POp o k) (th_held t)]> (threads s)))
      else Some (run_op false i t o k s)
  | _, _, _ => None
  end.

Definition kill_locked_threads (s : sys) : sys :=
  Sys (entity s) (mutex s) true (wake <$> threads s).

Inductive step (s : sys) : sys -> Prop :=
| step_thread i s' : thread_step i s = Some s' -> step s s'
| step_spurious i t : threads s !! i = Some t -> th_status t = Waiting ->
    step s (Sys (entity s) (mutex s) (kill_thread s) (<[i := wake t]> (threads s)))
| step_kill : step s (kill_locked_threads s).

Definition start (clients : list (list session)) : sys :=
  Sys init_locks None false ((fun l => Thread Running (client l) no_locks) <$> clients).
Definition reachable (clients : list (list session)) : sys -> Prop := rtc step (start clients).

(** The threads run one after the other as listed. *)
Fixpoint run_schedule (l : list nat) (s : sys) : option sys :=
  match l with [] => Some s | i :: l => s' ← thread_step i s; run_schedule l s' end.
