(* ===== verification/LocksFacts.v ===== *)
(** * Locks of the controller's data: invariants

    The counters equal what the threads hold and wait for, threads keep to the
    locking order, and no wake-up is lost. *)

From stdpp Require Import relations.
From S2P Require Import Prelude Locks.

Local Open Scope Z_scope.

(** ** Locking discipline

    [pwp h p Q]: started with the locks [h], the program asks only for locks it
    does not have, waits only for kinds of data above all it has locked,
    releases only what it has, and ends in a state satisfying [Q]. *)
Definition above (h : slurmctld_lock) (dt : lock_datatype) : Prop :=
  forall dt', (dt_code dt <= dt_code dt')%nat -> level h dt' = NO_LOCK.

Definition may (h : slurmctld_lock) (o : op) : Prop :=
  match o with
  | Rdlock dt w | Wrlock dt w => level h dt = NO_LOCK /\ (w = true -> above h dt)
  | Rdunlock dt => level h dt = READ_LOCK
  | Wrunlock dt => level h dt = WRITE_LOCK
  end.
Definition refusable (o : op) : Prop :=
  match o with Rdlock _ w | Wrlock _ w => w = false | _ => False end.

Fixpoint pwp {A : Type} (h : slurmctld_lock) (p : prog A) (Q : slurmctld_lock -> A -> Prop) : Prop :=
  match p with
  | PRet a => Q h a
  | POp o k => may h o /\ pwp (op_held o h) (k true) Q /\ (refusable o -> pwp h (k false) Q)
  end.

Lemma pwp_mono {A} (p : prog A) : forall h (P Q : slurmctld_lock -> A -> Prop),
  pwp h p P -> (forall h a, P h a -> Q h a) -> pwp h p Q.
Proof.
  induction p as [a|o k IH]; intros h P Q HP HPQ; simpl in *; [auto|].
  destruct HP as (? & ? & ?). split_and!; [done|by eapply IH|]. intros. eapply IH; eauto.
Qed.

Lemma pwp_bind {A B} (p : prog A) (f : A -> prog B) : forall h Q,
  pwp h p (fun h' a => pwp h' (f a) Q) -> pwp h (p ≫= f) Q.
Proof.
  unfold mbind, prog_bind. induction p as [a|o k IH]; intros h Q; simpl; [done|].
  intros (? & ? & ?). split_and!; auto.
Qed.

Lemma set_level_same h dt l : level h dt = l -> set_level h dt l = h.
Proof. by destruct h, dt; simpl; intros ->. Qed.
Lemma level_set h dt dt' l : level (set_level h dt l) dt' = if decide (dt' = dt) then l else level h dt'.
Proof. by destruct h, dt, dt'. Qed.

Lemma pwp_lock_one h dt lvl w (Q : slurmctld_lock -> bool -> Prop) :
  level h dt = NO_LOCK -> (w = true -> above h dt) ->
  Q (set_level h dt lvl) true -> (w = false -> Q h false) -> pwp h (lock_one dt lvl w) Q.
Proof. intros Hn Ha Ht Hf. destruct lvl; simpl; auto. by rewrite set_level_same in Ht. Qed.

Lemma pwp_unlock_one h dt lvl (Q : slurmctld_lock -> unit -> Prop) :
  level h dt = lvl -> Q (set_level h dt NO_LOCK) tt -> pwp h (unlock_one dt lvl) Q.
Proof.
  intros Hl HQ. destruct lvl; simpl; try by split_and!.
  by rewrite set_level_same in HQ.
Qed.

Ltac pwp_go :=
  repeat (apply pwp_bind || (apply pwp_lock_one; [done|by intros _ []; simpl; intros; lia || done| |intros ?; try done])
    || (apply pwp_unlock_one; [done|]) || done); cbn [negb set_level no_locks].

Lemma lock_disciplined lv : pwp no_locks (lock_slurmctld lv) (fun h _ => h = lv).
Proof. destruct lv. unfold lock_slurmctld. pwp_go. Qed.

Lemma unlock_disciplined lv : pwp lv (unlock_slurmctld lv) (fun h _ => h = no_locks).
Proof. destruct lv. unfold unlock_slurmctld. pwp_go. Qed.

Lemma try_disciplined lv :
  pwp no_locks (try_lock_slurmctld lv) (fun h rc => (rc = 0 /\ h = lv) \/ (rc = -1 /\ h = no_locks)).
Proof. destruct lv. unfold try_lock_slurmctld. do 20 pwp_go; simpl; auto. Qed.

Lemma client_disciplined l : pwp no_locks (client l) (fun h _ => h = no_locks).
Proof.
  induction l as [|s l IH]; [done|]. apply pwp_bind. destruct s as [lv|lv]; apply pwp_bind.
  - eapply pwp_mono; [apply lock_disciplined|]. intros h _ ->.
    eapply pwp_mono; [apply unlock_disciplined|]. by intros h _ ->.
  - eapply pwp_mono; [apply try_disciplined|]. intros h rc [[-> ->]|[-> ->]]; cbn [Z.eqb]; [|done].
    eapply pwp_mono; [apply unlock_disciplined|]. by intros h _ ->.
Qed.

(** ** Counting threads *)
Definition cnt (P : thread -> bool) (l : list thread) : Z :=
  Z.of_nat (length (filter (fun t => P t = true) l)).

Lemma cnt_cons P t l : cnt P (t :: l) = (if P t then 1 else 0) + cnt P l.
Proof. unfold cnt. rewrite filter_cons. destruct (P t); case_decide; simpl; done || lia. Qed.

Lemma cnt_nonneg P l : 0 <= cnt P l.
Proof. unfold cnt. lia. Qed.

Lemma cnt_insert P l i t t' :
  l !! i = Some t ->
  cnt P (<[i := t']> l) = cnt P l - (if P t then 1 else 0) + (if P t' then 1 else 0).
Proof.
  revert i. induction l as [|x l IH]; intros [|i] Hi; simplify_eq/=; rewrite !cnt_cons; [lia|].
  rewrite IH by done. lia.
Qed.

Lemma cnt_wake P l : (forall t, P (wake t) = P t) -> cnt P (wake <$> l) = cnt P l.
Proof. intros HP. induction l as [|t l IH]; [done|]. rewrite fmap_cons, !cnt_cons, HP, IH. done. Qed.

Lemma cnt_le_length P l : cnt P l <= Z.of_nat (length l).
Proof. unfold cnt. pose proof (list.length_filter (fun t => P t = true) l). lia. Qed.

Lemma cnt_pos P l : 0 < cnt P l -> exists i t, l !! i = Some t /\ P t = true.
Proof.
  induction l as [|x l IH]; [by unfold cnt|]. rewrite cnt_cons. destruct (P x) eqn:Hx.
  - intros _. by exists 0%nat, x.
  - intros H. destruct IH as (i & t & ? & ?); [lia|]. by exists (S i), t.
Qed.

Lemma cnt_one P l i t : l !! i = Some t -> P t = true -> 1 <= cnt P l.
Proof.
  revert i. induction l as [|x l IH]; intros [|i] Hi HP; simplify_eq/=; rewrite cnt_cons.
  - rewrite HP. pose proof (cnt_nonneg P l). lia.
  - specialize (IH i Hi HP). destruct (P x); lia.
Qed.

Lemma cnt_two P l i j t t' :
  l !! i = Some t -> l !! j = Some t' -> i <> j -> P t = true -> P t' = true -> 2 <= cnt P l.
Proof.
  revert i j. induction l as [|x l IH]; intros [|i] [|j] Hi Hj Hij Ht Ht'; simplify_eq/=; rewrite cnt_cons.
  - rewrite Ht. pose proof (cnt_one P l j t' Hj Ht'). lia.
  - rewrite Ht'. pose proof (cnt_one P l i t Hi Ht). lia.
  - specialize (IH i j Hi Hj ltac:(congruence) Ht Ht'). destruct (P x); lia.
Qed.

(** ** The counters *)
Definition holds (dt : lock_datatype) (l : lock_level) (t : thread) : bool :=
  bool_decide (level (th_held t) dt = l).
Definition pending (dt : lock_datatype) (t : thread) : bool :=
  negb (bool_decide (th_status t = Running)) &&
  match th_prog t with POp (Wrlock dt' _) _ => bool_decide (dt' = dt) | _ => false end.

Abbreviation rd e dt := (e !!! read_lock dt).
Abbreviation wr e dt := (e !!! write_lock dt).
Abbreviation ww e dt := (e !!! write_wait_lock dt).

Definition counts (e : list Z) (l : list thread) : Prop :=
  length e = 20%nat /\ forall dt,
    rd e dt = cnt (holds dt READ_LOCK) l /\ wr e dt = cnt (holds dt WRITE_LOCK) l /\ ww e dt = cnt (pending dt) l.

Lemma dt_code_inj dt dt' : dt_code dt = dt_code dt' -> dt = dt'.
Proof. by destruct dt, dt'. Qed.
Lemma dt_code_lt dt : (dt_code dt < 5)%nat.
Proof. destruct dt; simpl; lia. Qed.

Definition bit (b : bool) : Z := if b then 1 else 0.
Definition same (dt dt' : lock_datatype) : bool := bool_decide (dt = dt').

Lemma slot_ne dt dt' a b : (a < 4)%nat -> (b < 4)%nat -> a <> b -> (dt_code dt * 4 + a)%nat <> (dt_code dt' * 4 + b)%nat.
Proof. lia. Qed.

Lemma add_length e n x : length (add e n x) = length e.
Proof. apply length_insert. Qed.

(** Counters of one kind change only where they are updated. *)
Lemma add_same a e dt dt' x :
  length e = 20%nat -> (a < 4)%nat ->
  add e (dt_code dt' * 4 + a) x !!! (dt_code dt * 4 + a)%nat = e !!! (dt_code dt * 4 + a)%nat + bit (same dt dt') * x.
Proof.
  intros Hl Ha. pose proof (dt_code_lt dt'). unfold add, same. case_bool_decide as Hd; simpl.
  - subst. rewrite list_lookup_total_insert_eq by lia. lia.
  - rewrite list_lookup_total_insert_ne; [lia|]. intros Heq. apply Hd, dt_code_inj. lia.
Qed.
Lemma insert_other a b (e : list Z) dt dt' (x : Z) :
  (a < 4)%nat -> (b < 4)%nat -> a <> b ->
  <[(dt_code dt' * 4 + b)%nat := x]> e !!! (dt_code dt * 4 + a)%nat = e !!! (dt_code dt * 4 + a)%nat.
Proof. intros. apply list_lookup_total_insert_ne. intros Heq. by eapply (slot_ne dt' dt b a). Qed.

Lemma add_other a b e dt dt' x :
  (a < 4)%nat -> (b < 4)%nat -> a <> b ->
  add e (dt_code dt' * 4 + b) x !!! (dt_code dt * 4 + a)%nat = e !!! (dt_code dt * 4 + a)%nat.
Proof. apply insert_other. Qed.

Ltac counters :=
  unfold wr_wrlock_enter, wr_rdunlock, wr_wrunlock, read_lock, write_lock, write_wait_lock, write_cnt_lock in *;
  repeat first
    [ rewrite (insert_other 0 3) by lia | rewrite (insert_other 1 3) by lia | rewrite (insert_other 2 3) by lia
    | rewrite (add_same 0) by (rewrite ?length_insert, ?add_length; lia)
    | rewrite (add_same 1) by (rewrite ?length_insert, ?add_length; lia)
    | rewrite (add_same 2) by (rewrite ?length_insert, ?add_length; lia)
    | rewrite (add_other 0) by lia | rewrite (add_other 1) by lia | rewrite (add_other 2) by lia ].

Lemma pending_wake dt t : pending dt (wake t) = pending dt t.
Proof. unfold wake. case_decide as H; [|done]. unfold pending. simpl. by rewrite H. Qed.
Lemma holds_wake dt l t : holds dt l (wake t) = holds dt l t.
Proof. unfold wake. by case_decide. Qed.

Definition op_dt (o : op) : lock_datatype :=
  match o with Rdlock dt _ | Wrlock dt _ | Rdunlock dt | Wrunlock dt => dt end.

(** One pass changes the counters as it changes the thread. *)
Definition pass_counts (e e' : list Z) (t t' : thread) : Prop :=
  length e' = 20%nat /\ forall dt,
    rd e' dt = rd e dt - bit (holds dt READ_LOCK t) + bit (holds dt READ_LOCK t') /\
    wr e' dt = wr e dt - bit (holds dt WRITE_LOCK t) + bit (holds dt WRITE_LOCK t') /\
    ww e' dt = ww e dt - bit (pending dt t) + bit (pending dt t').

(** The locks and the waiting of a thread after an operation on [dt0]. *)
Lemma holds_set st p h dt dt0 l l' :
  bit (holds dt l (Thread st p (set_level h dt0 l'))) =
  if same dt dt0 then bit (bool_decide (l' = l)) else bit (bool_decide (level h dt = l)).
Proof. unfold holds, same. cbn [th_held]. rewrite level_set. by repeat (case_decide || case_bool_decide). Qed.

Lemma holds_old st p h dt dt0 l l' : level h dt0 = l' ->
  bit (holds dt l (Thread st p h)) =
  if same dt dt0 then bit (bool_decide (l' = l)) else bit (bool_decide (level h dt = l)).
Proof. intros <-. rewrite <-(holds_set st p h dt dt0 l (level h dt0)). by rewrite set_level_same. Qed.

Ltac pass_solve dt0 :=
  split; [unfold wr_wrlock_enter, wr_rdunlock, wr_wrunlock; by rewrite ?length_insert, ?add_length|];
  intros dt; counters; cbn [op_held]; rewrite ?holds_set; unfold pending; cbn [th_status th_prog];
  repeat erewrite (holds_old _ _ _ dt dt0) by eassumption;
  destruct (same dt dt0) eqn:Hsame; unfold same in Hsame;
  [apply bool_decide_eq_true in Hsame; subst dt|apply bool_decide_eq_false in Hsame];
  repeat case_bool_decide; simplify_eq; simpl; try lia; try done.

Lemma pass_counts_spec e t o k :
  length e = 20%nat -> th_prog t = POp o k -> may (th_held t) o ->
  (th_status t <> Running -> ~ refusable o) ->
  match lock_pass (bool_decide (th_status t = Running)) e o with
  | Acquired e' => pass_counts e e' t (Thread Running (k true) (op_held o (th_held t)))
  | Refused e' => pass_counts e e' t (Thread Running (k false) (th_held t)) /\ refusable o
  | MustWait e' => pass_counts e e' t (Thread Deciding (POp o k) (th_held t))
  end.
Proof.
  intros Hl Hp Hm Hr. destruct t as [st p h]. simpl in *. subst p.
  destruct o as [dt0 w|dt0 w|dt0|dt0]; simpl in Hm, Hr; cbn [lock_pass].
  - destruct Hm as [Hm _]. unfold wr_rdlock_pass.
    destruct (_ && _); [|destruct w; cbn [negb]; [|split; [|done]]]; pass_solve dt0.
  - destruct Hm as [Hm _]. unfold wr_wrlock_pass.
    destruct (decide (st = Running)) as [->|Hst].
    + rewrite bool_decide_eq_true_2 by done.
      destruct (_ && _); [|destruct w; cbn [negb]; [|split; [|done]]]; pass_solve dt0.
    + rewrite bool_decide_eq_false_2 by done. assert (w = true) as -> by (destruct w; [done|by destruct (Hr Hst)]).
      destruct (_ && _); cbn [negb]; pass_solve dt0.
  - pass_solve dt0.
  - pass_solve dt0.
Qed.

(** ** The invariant *)
Definition excl (e : list Z) : Prop := forall dt, wr e dt <= 1 /\ (wr e dt = 1 -> rd e dt = 0).

Definition waits (o : op) : Prop :=
  match o with Rdlock _ w | Wrlock _ w => w = true | _ => False end.
(** The condition on which [o] has to wait. *)
Definition blocked (e : list Z) (o : op) : Prop :=
  match o with
  | Rdlock dt _ => wr e dt <> 0 \/ ww e dt <> 0
  | Wrlock dt _ => rd e dt <> 0 \/ wr e dt <> 0
  | _ => False
  end.

Record thread_ok (s : sys) (i : nat) (t : thread) : Prop := {
  ok_pwp : pwp (th_held t) (th_prog t) (fun h _ => h = no_locks);
  ok_wait : th_status t <> Running -> exists o k, th_prog t = POp o k /\ waits o /\
    (th_status t = Waiting \/ th_status t = Deciding -> blocked (entity s) o);
  ok_mutex : th_status t = Deciding \/ th_status t = Exited -> mutex s = Some i;
  ok_exit : th_status t = Exited -> kill_thread s = true
}.

Record inv (s : sys) : Prop := {
  inv_counts : counts (entity s) (threads s);
  inv_excl : excl (entity s);
  inv_threads : forall i t, threads s !! i = Some t -> thread_ok s i t;
  inv_mutex : forall i, mutex s = Some i ->
    exists t, threads s !! i = Some t /\ (th_status t = Deciding \/ th_status t = Exited)
}.

Lemma counts_insert e e' l i t t' :
  counts e l -> l !! i = Some t -> pass_counts e e' t t' -> counts e' (<[i := t']> l).
Proof.
  intros [_ Hc] Hi [Hl' Hp]. split; [done|]. intros dt. rewrite !(cnt_insert _ _ _ _ _ Hi).
  destruct (Hc dt) as (H1 & H2 & H3). destruct (Hp dt) as (E1 & E2 & E3).
  rewrite E1, E2, E3, H1, H2, H3. done.
Qed.

Lemma counts_wake e l : counts e l -> counts e (wake <$> l).
Proof.
  intros [Hl Hc]. split; [done|]. intros dt.
  rewrite !cnt_wake by (intros; apply holds_wake || apply pending_wake). apply Hc.
Qed.

Lemma counts_nonneg e l dt : counts e l -> 0 <= rd e dt /\ 0 <= wr e dt /\ 0 <= ww e dt.
Proof. intros [_ Hc]. destruct (Hc dt) as (-> & -> & ->). split_and!; apply cnt_nonneg. Qed.

(** What a pass does to the counters, by outcome. *)
Lemma pass_effect first e o :
  length e = 20%nat -> excl e -> (forall dt, 0 <= rd e dt /\ 0 <= wr e dt /\ 0 <= ww e dt) ->
  match lock_pass first e o with
  | Acquired e' => broadcasts o = false ->
      excl e' /\ (forall o', blocked e o' -> blocked e' o')
  | Refused e' => forall dt, first = true -> rd e' dt = rd e dt /\ wr e' dt = wr e dt /\ ww e' dt = ww e dt
  | MustWait e' => excl e' /\ (forall o', blocked e o' -> blocked e' o') /\ blocked e' o /\ waits o
  end.
Proof.
  intros Hl Hx Hn.
  assert (Hsame : forall a b : lock_datatype, bit (same a b) = 0 \/ (bit (same a b) = 1 /\ a = b)).
  { intros a b. unfold same. case_bool_decide; simpl; auto. }
  destruct o as [dt0 w|dt0 w|dt0|dt0]; cbn [lock_pass]; try done.
  - unfold wr_rdlock_pass. destruct (_ && _) eqn:E; [intros _|destruct w; cbn [negb]; [|done]].
    + split.
      * intros dt. counters. specialize (Hx dt). specialize (Hn dt). unfold read_lock, write_lock in *.
        (destruct (Hsame dt dt0) as [Hs|[Hs ?]]; [|subst dt]; lia).
      * intros [dt ?|dt ?|?|?]; simpl; try done; specialize (Hn dt); counters;
          (destruct (Hsame dt dt0) as [Hs|[Hs ?]]; [|subst dt]; lia).
    + split_and!; [done|done| |done]. simpl. lia.
  - unfold wr_wrlock_pass. destruct (_ && _) eqn:E; [intros _|destruct w; cbn [negb]].
    + assert (E' : rd e dt0 = 0 /\ wr e dt0 = 0) by (destruct first; counters; revert E; counters; lia).
      split.
      * intros dt. specialize (Hx dt). specialize (Hn dt). destruct first; counters;
          (destruct (Hsame dt dt0) as [Hs|[Hs ?]]; [|subst dt]; lia).
      * intros [dt ?|dt ?|?|?]; simpl; try done; specialize (Hn dt); destruct first; counters;
          (destruct (Hsame dt dt0) as [Hs|[Hs ?]]; [|subst dt]; lia).
    + assert (E' : rd e dt0 <> 0 \/ wr e dt0 <> 0) by (destruct first; counters; revert E; counters; lia).
      split_and!; [| | |done].
      * intros dt. specialize (Hx dt). destruct first; counters; done.
      * intros [dt ?|dt ?|?|?]; simpl; try done; specialize (Hn dt); destruct first; counters;
          try done; (destruct (Hsame dt dt0) as [Hs|[Hs ?]]; [|subst dt]; lia).
      * simpl. destruct first; counters; done.
    + intros dt ->. counters. split_and!; lia.
Qed.

Lemma unlock_effect e o l :
  length e = 20%nat -> excl e -> broadcasts o = true -> forall e' first, lock_pass first e o = Acquired e' ->
  counts e' l -> excl e'.
Proof.
  intros Hl Hx Hb e' first He Hc dt. pose proof (counts_nonneg _ _ dt Hc) as Hn. specialize (Hx dt).
  destruct o as [?|?|dt0|dt0]; try done; injection He as <-; revert Hn; counters; unfold bit;
    destruct (same dt dt0); lia.
Qed.

(** A state in which nobody has the mutex has no thread about to wait. *)
Lemma free_not_deciding s i t :
  inv s -> mutex s = None -> threads s !! i = Some t -> th_status t <> Deciding /\ th_status t <> Exited.
Proof.
  intros Hi Hm Ht. pose proof (ok_mutex _ _ _ (inv_threads _ Hi _ _ Ht)) as H. rewrite Hm in H.
  split; intros E; rewrite E in H; intuition congruence.
Qed.

(** The other threads, after a step that keeps them blocked or wakes them. *)
Lemma others_ok s e' m' l' j t :
  inv s -> mutex s = None -> threads s !! j = Some t ->
  (forall o, blocked (entity s) o -> blocked e' o) ->
  thread_ok (Sys e' m' (kill_thread s) l') j t.
Proof.
  intros Hi Hm Ht Hb. pose proof (free_not_deciding _ _ _ Hi Hm Ht) as [H1 H2].
  destruct (inv_threads _ Hi _ _ Ht) as [Hp Hw Hmx Hx]. constructor; simpl; [done| |intuition congruence|intuition congruence].
  intros Hr. destruct (Hw Hr) as (o & k & ? & ? & Hbl). exists o, k. split_and!; [done|done|auto].
Qed.

Lemma woken_ok s e' m' l' j t :
  inv s -> mutex s = None -> threads s !! j = Some t ->
  thread_ok (Sys e' m' (kill_thread s) l') j (wake t).
Proof.
  intros Hi Hm Ht. pose proof (free_not_deciding _ _ _ Hi Hm Ht) as [H1 H2].
  destruct (inv_threads _ Hi _ _ Ht) as [Hp Hw Hmx Hx].
  assert (Hst : th_status (wake t) <> Waiting /\ th_status (wake t) <> Deciding /\ th_status (wake t) <> Exited)
    by (unfold wake; case_decide; simpl; done).
  assert (Hpr : th_prog (wake t) = th_prog t /\ th_held (wake t) = th_held t) by (unfold wake; by case_decide).
  assert (Hrun : th_status (wake t) <> Running -> th_status t <> Running)
    by (unfold wake; case_decide; simpl; congruence).
  destruct Hpr as [E1 E2]. constructor; simpl; rewrite ?E1, ?E2; [done| |intuition congruence|intuition congruence].
  intros Hr. destruct (Hw (Hrun Hr)) as (o & k & ? & ? & _). exists o, k. split_and!; [done|done|intuition congruence].
Qed.

Lemma running_ok s j p h :
  pwp h p (fun h _ => h = no_locks) -> thread_ok s j (Thread Running p h).
Proof. intros Hp. constructor; simpl; [done|done|intuition congruence|done]. Qed.

Lemma run_op_inv s i t o k :
  inv s -> threads s !! i = Some t -> th_prog t = POp o k -> mutex s = None ->
  inv (run_op (bool_decide (th_status t = Running)) i t o k s).
Proof.
  intros Hi Ht Hp Hm. pose proof (inv_threads _ Hi _ _ Ht) as Hok. pose proof (ok_pwp _ _ _ Hok) as Hpwp.
  rewrite Hp in Hpwp. destruct Hpwp as (Hmay & Htrue & Hfalse).
  pose proof (inv_counts _ Hi) as Hc. pose proof (proj1 Hc) as Hl.
  assert (Hnr : th_status t <> Running -> ~ refusable o).
  { intros Hr. destruct (ok_wait _ _ _ Hok Hr) as (o' & k' & Hp' & Hw & _). rewrite Hp in Hp'. simplify_eq.
    by destruct o'; simpl in *; subst. }
  pose proof (pass_counts_spec _ t o k Hl Hp Hmay Hnr) as Hpass.
  pose proof (pass_effect (bool_decide (th_status t = Running)) _ o Hl (inv_excl _ Hi) (fun dt => counts_nonneg _ _ dt Hc)) as Heff.
  unfold run_op. destruct (lock_pass _ _ o) as [e|e|e] eqn:Hlp.
  - destruct (broadcasts o) eqn:Hb.
    + assert (Hc' : counts e (<[i := Thread Running (k true) (op_held o (th_held t))]> (wake <$> threads s))).
      { eapply counts_insert; [by apply counts_wake|by rewrite list_lookup_fmap, Ht|].
        destruct Hpass as [? Hpc]. split; [done|]. intros dt. unfold bit. rewrite !holds_wake, pending_wake. apply Hpc. }
      constructor; simpl; [done|by apply (unlock_effect (entity s) o _ Hl (inv_excl _ Hi) Hb e _ Hlp Hc')| |done].
      intros j t' [(-> & <- & _)|[Hne Hj]]%list_lookup_insert_Some; [by apply running_ok|].
      rewrite list_lookup_fmap in Hj. destruct (threads s !! j) as [tj|] eqn:Etj; [|done].
      injection Hj as <-. by apply woken_ok.
    + destruct (Heff eq_refl) as [Hx Hbl]. constructor; simpl; [by eapply counts_insert|done| |done].
      intros j t' [(-> & <- & _)|[Hne Hj]]%list_lookup_insert_Some; [by apply running_ok|by apply others_ok].
  - destruct Hpass as [Hpass Hrf]. assert (Hst : th_status t = Running) by (destruct (decide (th_status t = Running)); [done|by destruct Hnr]).
    rewrite Hst, bool_decide_eq_true_2 in Heff by done. constructor; simpl; [by eapply counts_insert| | |done].
    + intros dt. destruct (Heff dt eq_refl) as (-> & -> & _). apply (inv_excl _ Hi).
    + intros j t' [(-> & <- & _)|[Hne Hj]]%list_lookup_insert_Some; [by apply running_ok, Hfalse|].
      apply others_ok; [done..|]. intros [dt ?|dt ?|?|?]; simpl; try done; by (destruct (Heff dt eq_refl) as (H1 & H2 & H3); rewrite ?H1, ?H2, ?H3).
  - destruct Heff as (Hx & Hbl & Hbo & Hwo). constructor; simpl; [by eapply counts_insert|done| |].
    + intros j t' [(<- & <- & _)|[Hne Hj]]%list_lookup_insert_Some; [|by apply others_ok].
      constructor; simpl; [done| |done|done]. intros _. by exists o, k.
    + intros j [= <-]. eexists. split; [apply list_lookup_insert_eq; by eapply lookup_lt_Some|]. by left.
Qed.

(** Changing only the status of a thread that is not running. *)
Lemma pass_status st st' p h e :
  length e = 20%nat -> st <> Running -> st' <> Running -> pass_counts e e (Thread st p h) (Thread st' p h).
Proof.
  intros Hl H1 H2. split; [done|]. intros dt. unfold holds, pending. cbn [th_status th_prog th_held].
  rewrite (bool_decide_eq_false_2 (st = Running)), (bool_decide_eq_false_2 (st' = Running)) by done. split_and!; lia.
Qed.

(** [pthread_cond_wait] gives the mutex back. *)
Lemma wait_inv s i t :
  inv s -> threads s !! i = Some t -> th_status t = Deciding ->
  inv (Sys (entity s) None (kill_thread s) (<[i := Thread Waiting (th_prog t) (th_held t)]> (threads s))).
Proof.
  intros Hi Ht Hst. pose proof (inv_threads _ Hi _ _ Ht) as Hok. destruct (inv_counts _ Hi) as [Hl _].
  pose proof (ok_mutex _ _ _ Hok (or_introl Hst)) as Hm.
  constructor; simpl; [|apply (inv_excl _ Hi)| |done].
  - eapply counts_insert; [apply (inv_counts _ Hi)|done|]. destruct t as [st p h]. simpl in *.
    apply pass_status; [done|by subst|done].
  - intros j t' [(<- & <- & _)|[Hne Hj]]%list_lookup_insert_Some.
    + destruct Hok as [Hp Hw _ _]. constructor; simpl; [done| |intuition congruence|done].
      intros _. destruct Hw as (o & k & ? & ? & Hb); [congruence|]. exists o, k. auto.
    + destruct (inv_threads _ Hi _ _ Hj) as [Hp Hw Hmx Hx]. constructor; simpl; [done|done| |done].
      intros Hd. rewrite Hm in Hmx. specialize (Hmx Hd). congruence.
Qed.

(** [pthread_exit] keeps it. *)
Lemma exit_inv s i t :
  inv s -> threads s !! i = Some t -> th_status t = Woken -> mutex s = None -> kill_thread s = true ->
  inv (Sys (entity s) (Some i) true (<[i := Thread Exited (th_prog t) (th_held t)]> (threads s))).
Proof.
  intros Hi Ht Hst Hm Hk. pose proof (inv_threads _ Hi _ _ Ht) as Hok. destruct (inv_counts _ Hi) as [Hl _].
  constructor; simpl; [|apply (inv_excl _ Hi)| |].
  - eapply counts_insert; [apply (inv_counts _ Hi)|done|]. destruct t as [st p h]. simpl in *.
    apply pass_status; [done|by subst|done].
  - intros j t' [(<- & <- & _)|[Hne Hj]]%list_lookup_insert_Some.
    + destruct Hok as [Hp Hw _ _]. constructor; simpl; [done| |done|done].
      intros _. destruct Hw as (o & k & ? & ? & Hb); [congruence|]. exists o, k. split_and!; [done|done|intuition congruence].
    + rewrite <-Hk. apply others_ok; done.
  - intros j [= <-]. eexists. split; [apply list_lookup_insert_eq; by eapply lookup_lt_Some|]. by right.
Qed.

(** Waking threads, all or one. *)
Lemma wake_ok s s' i t :
  entity s' = entity s -> mutex s' = mutex s -> (kill_thread s = true -> kill_thread s' = true) ->
  thread_ok s i t -> thread_ok s' i t /\ thread_ok s' i (wake t).
Proof.
  intros E1 E2 E3 [Hp Hw Hm Hx].
  assert (H : thread_ok s' i t) by (constructor; rewrite ?E1, ?E2; auto). split; [done|].
  unfold wake. case_decide as Hst; [|done]. clear Hm Hx. destruct H as [Hp' Hw' Hm' Hx'].
  constructor; simpl; [done| |intuition congruence|done].
  intros _. destruct Hw' as (o & k & ? & ? & _); [congruence|]. exists o, k. split_and!; [done|done|intuition congruence].
Qed.

Lemma wake_status t : th_status t = Deciding \/ th_status t = Exited -> wake t = t.
Proof. unfold wake. case_decide; intuition congruence. Qed.

Lemma kill_inv s : inv s -> inv (kill_locked_threads s).
Proof.
  intros Hi. constructor; simpl.
  - apply counts_wake, (inv_counts _ Hi).
  - apply (inv_excl _ Hi).
  - intros i t Hit. rewrite list_lookup_fmap in Hit. destruct (threads s !! i) as [t0|] eqn:Ht; [|done].
    injection Hit as <-. by apply (wake_ok s (kill_locked_threads s)), (inv_threads _ Hi).
  - intros i Hm. destruct (inv_mutex _ Hi i Hm) as (t & Ht & Hst). exists t. split; [|done].
    rewrite list_lookup_fmap, Ht. simpl. by rewrite wake_status.
Qed.

Lemma spurious_inv s i t :
  inv s -> threads s !! i = Some t -> th_status t = Waiting ->
  inv (Sys (entity s) (mutex s) (kill_thread s) (<[i := wake t]> (threads s))).
Proof.
  intros Hi Ht Hst. constructor; simpl.
  - eapply counts_insert; [apply (inv_counts _ Hi)|done|]. split; [apply (inv_counts _ Hi)|].
    intros dt. rewrite !holds_wake, pending_wake. lia.
  - apply (inv_excl _ Hi).
  - intros j t' [(<- & <- & _)|[Hne Hj]]%list_lookup_insert_Some; by apply (wake_ok s), (inv_threads _ Hi).
  - intros j Hm. destruct (inv_mutex _ Hi j Hm) as (t' & Ht' & Hs'). exists t'. split; [|done].
    rewrite list_lookup_insert_ne; [done|]. intros <-. rewrite Ht in Ht'. intuition congruence.
Qed.

Lemma thread_step_inv s i s' : inv s -> thread_step i s = Some s' -> inv s'.
Proof.
  intros Hi. unfold thread_step. destruct (threads s !! i) as [t|] eqn:Ht; [|done]. cbn [mbind option_bind].
  pose proof (inv_threads _ Hi _ _ Ht) as Hok.
  destruct (th_status t) eqn:Hst; destruct (th_prog t) as [a|o k] eqn:Hp; destruct (mutex s) as [m|] eqn:Hm; try done.
  - intros [= <-]. rewrite <-(bool_decide_eq_true_2 (th_status t = Running)) by done. by apply run_op_inv.
  - destruct (ok_wait _ _ _ Hok) as (o & k & Hp' & _); [by rewrite Hst|congruence].
  - destruct (ok_wait _ _ _ Hok) as (o & k & Hp' & _); [by rewrite Hst|congruence].
  - intros [= <-]. rewrite <-Hp. by apply wait_inv.
  - rewrite (ok_mutex _ _ _ Hok) in Hm by auto. done.
  - destruct (kill_thread s) eqn:Hk; intros [= <-]; [rewrite <-Hp; by apply exit_inv|].
    rewrite <-(bool_decide_eq_false_2 (th_status t = Running)) by congruence. by apply run_op_inv.
Qed.

Lemma step_inv s s' : inv s -> step s s' -> inv s'.
Proof.
  intros Hi [i s'' Hs|i t Ht Hst|]; [by eapply thread_step_inv|by apply spurious_inv|by apply kill_inv].
Qed.

Lemma cnt_zero_all P l : (forall i t, l !! i = Some t -> P t = false) -> cnt P l = 0.
Proof.
  intros H. destruct (decide (0 < cnt P l)) as [Hp|]; [|pose proof (cnt_nonneg P l); lia].
  apply cnt_pos in Hp as (i & t & Hi & Ht). by rewrite (H i t Hi) in Ht.
Qed.

Lemma start_inv clients : inv (start clients).
Proof.
  assert (Hth : forall i t, threads (start clients) !! i = Some t ->
    th_status t = Running /\ th_held t = no_locks /\ exists l, th_prog t = client l).
  { intros i t Hit. simpl in Hit. rewrite list_lookup_fmap in Hit. destruct (clients !! i); [|done].
    injection Hit as <-. simpl. eauto. }
  assert (Hz : forall dt, rd init_locks dt = 0 /\ wr init_locks dt = 0 /\ ww init_locks dt = 0) by (by intros []).
  constructor; simpl; [| | |done].
  - split; [done|]. intros dt. destruct (Hz dt) as (-> & -> & ->).
    rewrite !cnt_zero_all; [done|..]; intros i t Hit; destruct (Hth i t Hit) as (Hs & Hh & _);
      unfold holds, pending; rewrite ?Hh, ?Hs; by destruct dt.
  - intros dt. by destruct (Hz dt) as (-> & -> & _).
  - intros i t Hit. destruct (Hth i t Hit) as (Hs & Hh & l & Hp). destruct t as [st p h]. simpl in *. subst.
    apply running_ok, client_disciplined.
Qed.

Lemma reachable_inv clients s : reachable clients s -> inv s.
Proof.
  intros H. unfold reachable in H. remember (start clients) as s0 eqn:E.
  assert (Hi : inv s0) by (subst; apply start_inv). clear E.
  induction H as [|s0 s1 s2 Hs _ IH]; [done|]. apply IH. by eapply step_inv.
Qed.
