(* ===== verification/LocksProps.v ===== *)
(** * Locks of the controller's data: properties

    Mutual exclusion in every interleaving, absence of lost wake-ups and of
    deadlock, termination of every run, and the all-or-nothing behaviour of
    [try_lock_slurmctld]. *)

From stdpp Require Import relations.
From S2P Require Import Prelude Locks LocksFacts.

Local Open Scope Z_scope.

(** Two threads that write jobs and read jobs, and one that tries. *)
Definition job_write : slurmctld_lock := SlurmctldLock NO_LOCK WRITE_LOCK NO_LOCK NO_LOCK NO_LOCK.
Definition job_read : slurmctld_lock := SlurmctldLock READ_LOCK READ_LOCK NO_LOCK NO_LOCK NO_LOCK.
Definition two : list (list session) := [[Locked job_write]; [Locked job_read]].

Lemma run_schedule_rtc l : forall s s', run_schedule l s = Some s' -> rtc step s s'.
Proof.
  induction l as [|i l IH]; intros s s'; simpl; [by intros [= <-]|].
  destruct (thread_step i s) as [s1|] eqn:E; [|done]. simpl. intros H. eapply rtc_l; [by eapply step_thread|]. auto.
Qed.

(** C1: in every reachable state, whatever the interleaving, the spurious
    wake-ups and the kill requests, a thread that has a write lock on a kind of
    data is alone: no other thread has any lock on it; and the counters of
    locks never exceed the number of threads. *)
Theorem locks_mutual_exclusion (clients : list (list session)) (s : sys) :
  reachable clients s ->
  (forall i j t t' dt, threads s !! i = Some t -> threads s !! j = Some t' -> i <> j ->
     level (th_held t) dt = WRITE_LOCK -> level (th_held t') dt = NO_LOCK) /\
  (forall dt, 0 <= entity s !!! read_lock dt <= Z.of_nat (length (threads s)) /\
     0 <= entity s !!! write_lock dt <= 1 /\
     0 <= entity s !!! write_wait_lock dt <= Z.of_nat (length (threads s))).
Proof.
  intros Hr. apply reachable_inv in Hr as [Hc Hx _ _]. pose proof Hc as [_ Hcc]. split.
  - intros i j t t' dt Hi Hj Hij Hw. destruct (Hcc dt) as (Hrd & Hwr & _). destruct (Hx dt) as [Hle Hex].
    pose proof (cnt_one (holds dt WRITE_LOCK) _ i t Hi (bool_decide_eq_true_2 _ Hw)).
    destruct (level (th_held t') dt) eqn:Hl; [done|exfalso..].
    + pose proof (cnt_one (holds dt READ_LOCK) _ j t' Hj (bool_decide_eq_true_2 _ Hl)). lia.
    + pose proof (cnt_two (holds dt WRITE_LOCK) _ i j t t' Hi Hj Hij (bool_decide_eq_true_2 _ Hw) (bool_decide_eq_true_2 _ Hl)). lia.
  - intros dt. pose proof (counts_nonneg _ _ dt Hc). destruct (Hcc dt) as (Hrd & Hwr & Hww). destruct (Hx dt) as [Hle _].
    pose proof (cnt_le_length (holds dt READ_LOCK) (threads s)). pose proof (cnt_le_length (pending dt) (threads s)). lia.
Qed.

(** The state in which the writer has its lock and the reader waits. *)
Definition contended : sys := default (start []) (run_schedule [0; 1; 1; 1]%nat (start two)).

Lemma contended_reachable : reachable two contended.
Proof. by apply (run_schedule_rtc [0; 1; 1; 1]%nat). Qed.

Lemma locks_mutual_exclusion_witness :
  (th_status <$> threads contended) = [Running; Waiting] /\ (0 <= entity contended !!! write_lock JOB_LOCK <= 1).
Proof.
  split; [reflexivity|].
  exact (proj1 (proj2 (proj2 (locks_mutual_exclusion two contended contended_reachable) JOB_LOCK))).
Defined.

(** C3: no wake-up is lost: in every reachable state a thread that sleeps in
    [pthread_cond_wait] would have to wait if it looked again.  And writers go
    first: while a writer waits no read lock on the same data is granted. *)
Theorem waiting_is_justified (clients : list (list session)) (s : sys) :
  reachable clients s ->
  (forall i t o k, threads s !! i = Some t -> th_status t = Waiting -> th_prog t = POp o k ->
     lock_pass false (entity s) o = MustWait (entity s)) /\
  (forall i t dt w k, threads s !! i = Some t -> th_status t <> Running -> th_prog t = POp (Wrlock dt w) k ->
     forall w' e, wr_rdlock_pass (entity s) dt w' <> Acquired e).
Proof.
  intros Hr. apply reachable_inv in Hr as [Hc _ Hth _]. split.
  - intros i t o k Hi Hst Hp. destruct (ok_wait _ _ _ (Hth i t Hi)) as (o' & k' & Hp' & Hw & Hb); [congruence|].
    rewrite Hp in Hp'. injection Hp' as <- <-. specialize (Hb (or_introl Hst)).
    destruct o as [dt w|dt w|?|?]; simpl in *; try done; subst w; unfold wr_rdlock_pass, wr_wrlock_pass;
      by replace (_ && _) with false by lia.
  - intros i t dt w k Hi Hst Hp w' e. destruct Hc as [_ Hc]. destruct (Hc dt) as (_ & _ & Hww).
    pose proof (cnt_one (pending dt) (threads s) i t Hi) as H1. unfold pending in H1 at 1.
    rewrite Hp, bool_decide_eq_false_2, bool_decide_eq_true_2 in H1 by done. specialize (H1 eq_refl).
    unfold wr_rdlock_pass. replace (_ && _) with false by lia. by destruct w'.
Qed.

Lemma waiting_is_justified_witness :
  lock_pass false (entity contended) (Rdlock JOB_LOCK true) = MustWait (entity contended).
Proof.
  exact (proj1 (waiting_is_justified two contended contended_reachable) 1%nat _ _ _ eq_refl eq_refl eq_refl).
Defined.

(** ** Progress *)
Definition tstep (s s' : sys) : Prop := exists i, thread_step i s = Some s'.

(** All threads have ended, and no lock is held or asked for. *)
Definition finished (s : sys) : Prop :=
  (forall i t, threads s !! i = Some t -> th_status t = Running /\ th_prog t = PRet tt /\ th_held t = no_locks) /\
  forall dt, entity s !!! read_lock dt = 0 /\ entity s !!! write_lock dt = 0 /\ entity s !!! write_wait_lock dt = 0.

Lemma held_by s dt :
  inv s -> rd (entity s) dt <> 0 \/ wr (entity s) dt <> 0 ->
  exists i t, threads s !! i = Some t /\ level (th_held t) dt <> NO_LOCK.
Proof.
  intros Hi H. destruct (inv_counts _ Hi) as [_ Hc]. destruct (Hc dt) as (H1 & H2 & _).
  pose proof (cnt_nonneg (holds dt READ_LOCK) (threads s)). pose proof (cnt_nonneg (holds dt WRITE_LOCK) (threads s)).
  destruct (decide (rd (entity s) dt = 0)).
  - destruct (cnt_pos (holds dt WRITE_LOCK) (threads s)) as (i & t & Ht & Hh); [lia|].
    exists i, t. split; [done|]. apply bool_decide_eq_true in Hh. congruence.
  - destruct (cnt_pos (holds dt READ_LOCK) (threads s)) as (i & t & Ht & Hh); [lia|].
    exists i, t. split; [done|]. apply bool_decide_eq_true in Hh. congruence.
Qed.

(** When no thread can move, each has ended or sleeps. *)
Lemma stuck_cases s i t :
  inv s -> kill_thread s = false -> (forall i, thread_step i s = None) -> threads s !! i = Some t ->
  (th_status t = Running /\ th_prog t = PRet tt /\ th_held t = no_locks) \/ th_status t = Waiting.
Proof.
  intros Hi Hk Hs Ht. pose proof (inv_threads _ Hi _ _ Ht) as Hok.
  assert (Hm : mutex s = None).
  { destruct (mutex s) as [m|] eqn:E; [|done]. destruct (inv_mutex _ Hi m E) as (u & Hu & Hst).
    pose proof (ok_exit _ _ _ (inv_threads _ Hi _ _ Hu)). specialize (Hs m). unfold thread_step in Hs.
    rewrite Hu in Hs. cbn [mbind option_bind] in Hs. destruct Hst as [Hst|Hst]; rewrite Hst in *; [done|].
    by rewrite H in Hk. }
  specialize (Hs i). unfold thread_step in Hs. rewrite Ht in Hs. cbn [mbind option_bind] in Hs.
  destruct (th_status t) eqn:Hst; rewrite ?Hm, ?Hk in Hs; try by right.
  - left. destruct (th_prog t) as [[]|o k] eqn:Hp; [|done]. pose proof (ok_pwp _ _ _ Hok) as Hw. rewrite Hp in Hw. done.
  - destruct (ok_wait _ _ _ Hok) as (o & k & Hp & _); [congruence|]. by rewrite Hp in Hs.
  - by rewrite (ok_exit _ _ _ Hok Hst) in Hk.
Qed.

(** A sleeping thread waits for a thread that sleeps for data further up in
    the order; so in the end nobody sleeps. *)
Lemma nobody_sleeps s :
  inv s -> kill_thread s = false -> (forall i, thread_step i s = None) ->
  forall n i t o k, threads s !! i = Some t -> th_status t = Waiting -> th_prog t = POp o k ->
  (5 - dt_code (op_dt o) <= n)%nat -> False.
Proof.
  intros Hi Hk Hs. induction n as [|n IH]; intros i t o k Ht Hst Hp Hn.
  { pose proof (dt_code_lt (op_dt o)). lia. }
  assert (Hbl : forall i t o k, threads s !! i = Some t -> th_status t = Waiting -> th_prog t = POp o k ->
    waits o /\ blocked (entity s) o).
  { intros i' t' o' k' Ht' Hst' Hp'. destruct (ok_wait _ _ _ (inv_threads _ Hi _ _ Ht')) as (o2 & k2 & Hp2 & Hw & Hb); [congruence|].
    rewrite Hp' in Hp2. injection Hp2 as <- <-. auto. }
  assert (Hheld : rd (entity s) (op_dt o) <> 0 \/ wr (entity s) (op_dt o) <> 0).
  { destruct (Hbl _ _ _ _ Ht Hst Hp) as [Hw Hb]. destruct o as [dt w|dt w|?|?]; try done; simpl in *.
    destruct Hb as [Hb|Hb]; [by right|]. destruct (inv_counts _ Hi) as [_ Hc]. destruct (Hc dt) as (_ & _ & H3).
    destruct (cnt_pos (pending dt) (threads s)) as (j & u & Hu & Hpe); [pose proof (cnt_nonneg (pending dt) (threads s)); lia|].
    unfold pending in Hpe. apply andb_true_iff in Hpe as [Hrun Hpe]. apply negb_true_iff, bool_decide_eq_false in Hrun.
    destruct (stuck_cases s j u Hi Hk Hs Hu) as [[? _]|Hsu]; [done|].
    destruct (th_prog u) as [|[?|dt' w'|?|?] k'] eqn:Hpu; try done. apply bool_decide_eq_true in Hpe as ->.
    by destruct (Hbl _ _ _ _ Hu Hsu Hpu). }
  destruct (held_by s (op_dt o) Hi Hheld) as (j & u & Hu & Hlev).
  destruct (stuck_cases s j u Hi Hk Hs Hu) as [(_ & _ & Hh)|Hsu].
  - rewrite Hh in Hlev. by destruct (op_dt o).
  - pose proof (inv_threads _ Hi _ _ Hu) as Hok. destruct (ok_wait _ _ _ Hok) as (o' & k' & Hpu & Hw' & _); [congruence|].
    pose proof (ok_pwp _ _ _ Hok) as Hpw. rewrite Hpu in Hpw. destruct Hpw as [Hmay _].
    assert (Hab : above (th_held u) (op_dt o')) by (destruct o'; simpl in *; try done; by apply Hmay).
    eapply (IH j u o' k'); [done..|]. destruct (decide (dt_code (op_dt o') <= dt_code (op_dt o))%nat) as [Hle|]; [|lia].
    by rewrite (Hab _ Hle) in Hlev.
Qed.

Lemma stuck_finished s :
  inv s -> kill_thread s = false -> (forall i, thread_step i s = None) -> finished s.
Proof.
  intros Hi Hk Hs. assert (Hall : forall i t, threads s !! i = Some t ->
    th_status t = Running /\ th_prog t = PRet tt /\ th_held t = no_locks).
  { intros i t Ht. destruct (stuck_cases s i t Hi Hk Hs Ht) as [?|Hst]; [done|exfalso].
    destruct (ok_wait _ _ _ (inv_threads _ Hi _ _ Ht)) as (o & k & Hp & _); [congruence|].
    by eapply (nobody_sleeps s Hi Hk Hs 5 i t o k); [..|lia]. }
  split; [done|]. intros dt. destruct (inv_counts _ Hi) as [_ Hc]. destruct (Hc dt) as (-> & -> & ->).
  rewrite !cnt_zero_all; [done|..]; intros i t Ht; destruct (Hall i t Ht) as (H1 & H2 & H3);
    unfold holds, pending; rewrite ?H1, ?H3; by destruct dt.
Qed.

(** ** Termination *)
Fixpoint size {A : Type} (p : prog A) : nat :=
  match p with PRet _ => 0 | POp _ k => S (Nat.max (size (k true)) (size (k false))) end.
Definition rank (t : thread) : nat :=
  match th_status t with Running | Woken => 2 | Deciding => 1 | Waiting | Exited => 0 end.
Definition total (f : thread -> nat) (l : list thread) : nat := sum_list_with f l.
(** Work left, and behind it the number of steps until all threads sleep. *)
Definition measure (s : sys) : nat :=
  total (fun t => size (th_prog t)) (threads s) * (2 * length (threads s) + 1) + total rank (threads s).

Lemma total_insert f l i t t' :
  l !! i = Some t -> (total f (<[i := t']> l) + f t = total f l + f t')%nat.
Proof.
  unfold total. revert i. induction l as [|x l IH]; intros [|i] Hi; simplify_eq/=; [lia|].
  specialize (IH i Hi). lia.
Qed.

Lemma total_wake l : total (fun t => size (th_prog t)) (wake <$> l) = total (fun t => size (th_prog t)) l.
Proof.
  unfold total. induction l as [|x l IH]; [done|]. rewrite fmap_cons. cbn [sum_list_with]. rewrite IH.
  unfold wake. by case_decide.
Qed.

Lemma total_rank l : (total rank l <= 2 * length l)%nat.
Proof. unfold total. induction l as [|x l IH]; simpl; [done|]. unfold rank at 1. case_match; lia. Qed.

(** Less work left is less, whatever the ranks. *)
Lemma measure_work s s' :
  length (threads s') = length (threads s) ->
  (total (fun t => size (th_prog t)) (threads s') < total (fun t => size (th_prog t)) (threads s))%nat ->
  (measure s' < measure s)%nat.
Proof. intros Hl Hw. unfold measure. pose proof (total_rank (threads s')). rewrite Hl in *. nia. Qed.

Lemma measure_rank s i t e m kt t' :
  threads s !! i = Some t -> size (th_prog t') = size (th_prog t) -> (rank t' < rank t)%nat ->
  (measure (Sys e m kt (<[i := t']> (threads s))) < measure s)%nat.
Proof.
  intros Ht Hs Hr. unfold measure. cbn [threads]. rewrite length_insert.
  pose proof (total_insert (fun t => size (th_prog t)) _ i t t' Ht). pose proof (total_insert rank _ i t t' Ht). nia.
Qed.

Lemma run_op_measure first s i t o k :
  threads s !! i = Some t -> th_prog t = POp o k -> th_status t = Running \/ th_status t = Woken ->
  (measure (run_op first i t o k s) < measure s)%nat.
Proof.
  intros Ht Hp Hst. unfold run_op. destruct (lock_pass first (entity s) o) as [e|e|e].
  - apply measure_work; cbn [threads]; [rewrite length_insert; by destruct (broadcasts o); rewrite ?length_fmap|].
    destruct (broadcasts o).
    + assert (Hw : (wake <$> threads s) !! i = Some (wake t)) by (by rewrite list_lookup_fmap, Ht).
      pose proof (total_insert (fun t => size (th_prog t)) _ i _ (Thread Running (k true) (op_held o (th_held t))) Hw) as H. cbv beta in H.
      rewrite total_wake in H. replace (th_prog (wake t)) with (POp o k) in H by (unfold wake; by case_decide). simpl in H. lia.
    + pose proof (total_insert (fun t => size (th_prog t)) _ i _ (Thread Running (k true) (op_held o (th_held t))) Ht) as H. cbv beta in H.
      rewrite Hp in H. simpl in H. lia.
  - apply measure_work; cbn [threads]; [apply length_insert|].
    pose proof (total_insert (fun t => size (th_prog t)) _ i _ (Thread Running (k false) (th_held t)) Ht) as H. cbv beta in H.
    rewrite Hp in H. simpl in H. lia.
  - apply measure_rank with t; [done|by rewrite Hp|]. unfold rank. simpl. destruct Hst as [-> | ->]; lia.
Qed.

Lemma thread_step_measure s i s' : thread_step i s = Some s' -> (measure s' < measure s)%nat.
Proof.
  unfold thread_step. destruct (threads s !! i) as [t|] eqn:Ht; [|done]. cbn [mbind option_bind].
  destruct (th_status t) eqn:Hst; destruct (th_prog t) as [a|o k] eqn:Hp; try done.
  - destruct (mutex s); [done|]. intros [= <-]. apply run_op_measure; auto.
  - intros [= <-]. apply measure_rank with t; [done|by rewrite Hp|unfold rank; simpl; rewrite Hst; lia].
  - intros [= <-]. apply measure_rank with t; [done|by rewrite Hp|unfold rank; simpl; rewrite Hst; lia].
  - destruct (mutex s); [done|]. destruct (kill_thread s); intros [= <-]; [|apply run_op_measure; auto].
    apply measure_rank with t; [done|by rewrite Hp|unfold rank; simpl; rewrite Hst; lia].
Qed.

Lemma tstep_sn s : sn tstep s.
Proof.
  remember (measure s) as n eqn:E. revert s E. induction n as [n IH] using lt_wf_ind. intros s ->.
  constructor. intros s' [i Hs]. eapply IH; [by eapply thread_step_measure|done].
Qed.

Lemma run_op_kill first i t o k s : kill_thread (run_op first i t o k s) = kill_thread s.
Proof. unfold run_op. by destruct (lock_pass _ _ _). Qed.

Lemma thread_step_kill s i s' : kill_thread s = false -> thread_step i s = Some s' -> kill_thread s' = false.
Proof.
  intros Hk. unfold thread_step. destruct (threads s !! i) as [t|]; [|done]. cbn [mbind option_bind]. rewrite Hk.
  destruct (th_status t), (th_prog t), (mutex s); intros [= <-]; simpl; by rewrite ?run_op_kill.
Qed.

(** C2: the locking order prevents deadlock.  From every reachable state in
    which the threads have not been told to exit, the threads cannot run for
    ever on lock operations, and when none of them can move any more all have
    finished and every lock has been given back. *)
Theorem locks_deadlock_free (clients : list (list session)) (s : sys) :
  reachable clients s -> kill_thread s = false ->
  sn tstep s /\ forall s', rtc tstep s s' -> (forall i, thread_step i s' = None) -> finished s'.
Proof.
  intros Hr Hk. split; [apply tstep_sn|]. intros s' Hs'. apply reachable_inv in Hr.
  induction Hs' as [s|s s1 s2 [i Hi] _ IH]; [by apply stuck_finished|].
  apply IH; [by eapply thread_step_inv|by eapply thread_step_kill].
Qed.

Lemma run_schedule_tstep l : forall s s', run_schedule l s = Some s' -> rtc tstep s s'.
Proof.
  induction l as [|i l IH]; intros s s'; simpl; [by intros [= <-]|].
  destruct (thread_step i s) as [s1|] eqn:E; [|done]. simpl. intros H. eapply rtc_l; [by exists i|]. auto.
Qed.

(** The contended state, run to its end. *)
Definition ended : sys := default (start []) (run_schedule [0; 1; 1; 1]%nat contended).

Lemma locks_deadlock_free_witness : sn tstep contended /\ finished ended.
Proof.
  destruct (locks_deadlock_free two contended contended_reachable eq_refl) as [Hsn Hend].
  split; [exact Hsn|]. apply Hend; [by apply (run_schedule_tstep [0; 1; 1; 1]%nat)|].
  intros [|[|i]]; reflexivity.
Defined.

(** ** Trying *)
(** A program run while no other thread interferes; [None] when it waits. *)
Fixpoint run_alone {A : Type} (p : prog A) (e : list Z) : option (A * list Z) :=
  match p with
  | PRet a => Some (a, e)
  | POp o k =>
      match lock_pass true e o with
      | Acquired e => run_alone (k true) e
      | Refused e => run_alone (k false) e
      | MustWait _ => None
      end
  end.

Definition free_for (e : list Z) (dt : lock_datatype) (l : lock_level) : bool :=
  match l with
  | NO_LOCK => true
  | READ_LOCK => (e !!! write_lock dt =? 0) && (e !!! write_wait_lock dt =? 0)
  | WRITE_LOCK => (e !!! read_lock dt =? 0) && (e !!! write_lock dt =? 0)
  end.

(** [e'] is [e] with the locks [h] taken, but for the counts of past writes. *)
Definition plus (e e' : list Z) (h : slurmctld_lock) : Prop :=
  length e' = 20%nat /\ forall dt,
    e' !!! read_lock dt = e !!! read_lock dt + bit (bool_decide (level h dt = READ_LOCK)) /\
    e' !!! write_lock dt = e !!! write_lock dt + bit (bool_decide (level h dt = WRITE_LOCK)) /\
    e' !!! write_wait_lock dt = e !!! write_wait_lock dt.

Definition alone {A : Type} (p : prog A) (e : list Z) (Q : A -> list Z -> Prop) : Prop :=
  match run_alone p e with Some (a, e') => Q a e' | None => False end.

Lemma alone_bind {A B} (p : prog A) (f : A -> prog B) : forall e Q,
  alone p e (fun a e' => alone (f a) e' Q) -> alone (p ≫= f) e Q.
Proof.
  unfold alone, mbind, prog_bind. induction p as [a|o k IH]; intros e Q; simpl; [done|].
  destruct (lock_pass true e o); [apply IH|apply IH|done].
Qed.

Lemma plus_level e0 e h dt0 l l' e' :
  plus e0 e h -> level h dt0 = l -> length e' = 20%nat ->
  (forall dt, e' !!! read_lock dt = e !!! read_lock dt + bit (same dt dt0) * (bit (bool_decide (l' = READ_LOCK)) - bit (bool_decide (l = READ_LOCK))) /\
    e' !!! write_lock dt = e !!! write_lock dt + bit (same dt dt0) * (bit (bool_decide (l' = WRITE_LOCK)) - bit (bool_decide (l = WRITE_LOCK))) /\
    e' !!! write_wait_lock dt = e !!! write_wait_lock dt) ->
  plus e0 e' (set_level h dt0 l').
Proof.
  intros [_ Hp] Hl Hlen He. split; [done|]. intros dt. destruct (Hp dt) as (H1 & H2 & H3).
  destruct (He dt) as (-> & -> & ->). rewrite H1, H2, H3, level_set. unfold same.
  destruct (decide (dt = dt0)) as [->|Hd].
  - rewrite (bool_decide_eq_true_2 (dt0 = dt0)), Hl by done. change (bit true) with 1. split_and!; lia.
  - rewrite (bool_decide_eq_false_2 (dt = dt0)) by done. change (bit false) with 0. split_and!; lia.
Qed.

Lemma alone_lock_one e0 e h dt l (Q : bool -> list Z -> Prop) :
  plus e0 e h -> level h dt = NO_LOCK ->
  (forall e', free_for e0 dt l = true -> plus e0 e' (set_level h dt l) -> Q true e') ->
  (forall e', free_for e0 dt l = false -> plus e0 e' h -> Q false e') ->
  alone (lock_one dt l false) e Q.
Proof.
  intros Hp Hl Ht Hf. pose proof Hp as [Hlen Hc]. destruct (Hc dt) as (H1 & H2 & H3). rewrite Hl in H1, H2. simpl in H1, H2.
  assert (Hfree : free_for e dt l = free_for e0 dt l) by (destruct l; simpl; rewrite ?H1, ?H2, ?H3, ?Z.add_0_r; done).
  rewrite <-Hfree in Ht, Hf. destruct l; unfold alone; cbn [lock_one run_alone lock_pass].
  - apply Ht; [done|]. by rewrite set_level_same.
  - unfold wr_rdlock_pass. simpl in Ht, Hf. destruct (_ && _); cbn [negb run_alone]; [|by apply Hf].
    apply Ht; [done|]. eapply plus_level; [done|done|by rewrite length_insert, add_length|].
    intros dt'. counters. simpl. split_and!; lia.
  - unfold wr_wrlock_pass. simpl in Ht, Hf.
    replace (wr_wrlock_enter e dt !!! read_lock dt) with (rd e dt) by (counters; done).
    replace (wr_wrlock_enter e dt !!! write_lock dt) with (wr e dt) by (counters; done).
    destruct (_ && _); cbn [negb run_alone].
    + apply Ht; [done|]. eapply plus_level; [done|done|unfold wr_wrlock_enter; by rewrite !add_length|].
      intros dt'. counters. simpl. split_and!; lia.
    + apply Hf; [done|]. split; [unfold wr_wrlock_enter; by rewrite !add_length|]. intros dt'.
      destruct (Hc dt') as (E1 & E2 & E3). revert E1 E2 E3. counters. intros E1 E2 E3. rewrite E1, E2, E3. split_and!; lia.
Qed.

Lemma alone_unlock_one e0 e h dt l (Q : unit -> list Z -> Prop) :
  plus e0 e h -> level h dt = l ->
  (forall e', plus e0 e' (set_level h dt NO_LOCK) -> Q tt e') -> alone (unlock_one dt l) e Q.
Proof.
  intros Hp Hl HQ. pose proof Hp as [Hlen Hc]. destruct l; unfold alone; cbn [unlock_one run_alone lock_pass]; apply HQ.
  - by rewrite set_level_same.
  - eapply plus_level; [done|done|unfold wr_rdunlock; by rewrite add_length|].
    intros dt'. counters. simpl. split_and!; lia.
  - eapply plus_level; [done|done|unfold wr_wrunlock; by rewrite add_length|].
    intros dt'. counters. simpl. split_and!; lia.
Qed.

Ltac try_step :=
  match goal with
  | |- alone (mbind _ _) _ _ => apply alone_bind
  | |- alone (lock_one _ _ false) _ _ =>
      eapply alone_lock_one; [eassumption|reflexivity| |];
      let e := fresh "e" in let F := fresh "F" in let P := fresh "P" in
      intros e F P; rewrite ?F; cbn [set_level no_locks negb andb] in *
  | |- alone (unlock_one _ _) _ _ =>
      eapply alone_unlock_one; [eassumption|reflexivity|];
      let e := fresh "e" in let P := fresh "P" in intros e P; cbn [set_level] in P
  | |- alone (PRet _) _ _ => unfold alone; cbn [run_alone]
  end.
Ltac try_go := repeat try_step; rewrite ?andb_false_r; done.

(** C4: [try_lock_slurmctld] is all or nothing: it never waits; when every
    requested lock is free it returns 0 with all of them taken, and otherwise
    it returns -1 with every lock as it was.  [unlock_slurmctld] gives back
    what was taken. *)
Theorem try_lock_all_or_nothing (lv : slurmctld_lock) (e : list Z) :
  length e = 20%nat ->
  let free := forallb (fun dt => free_for e dt (level lv dt))
                [CONFIG_LOCK; JOB_LOCK; NODE_LOCK; PART_LOCK; FED_LOCK] in
  exists rc e', run_alone (try_lock_slurmctld lv) e = Some (rc, e') /\
    (if free then rc = 0 /\ plus e e' lv else rc = -1 /\ plus e e' no_locks) /\
    (free = true -> exists e'', run_alone (unlock_slurmctld lv) e' = Some (tt, e'') /\ plus e e'' no_locks).
Proof.
  intros Hl free.
  assert (H0 : plus e e no_locks) by (split; [done|]; intros []; simpl; split_and!; lia).
  assert (Ht : alone (try_lock_slurmctld lv) e (fun rc e' =>
    if free then rc = 0 /\ plus e e' lv else rc = -1 /\ plus e e' no_locks)).
  { subst free. destruct lv as [a b c d f]. unfold try_lock_slurmctld. cbn [forallb level lk_config lk_job lk_node lk_partition lk_federation].
    try_go. }
  unfold alone in Ht. destruct (run_alone (try_lock_slurmctld lv) e) as [[rc e']|]; [|done].
  exists rc, e'. split_and!; [done|done|]. intros Hf. rewrite Hf in Ht. destruct Ht as [_ Hp].
  assert (Hu : alone (unlock_slurmctld lv) e' (fun _ e'' => plus e e'' no_locks)).
  { destruct lv as [a b c d f]. unfold unlock_slurmctld. cbn [lk_config lk_job lk_node lk_partition lk_federation].
    try_go. }
  unfold alone in Hu. destruct (run_alone (unlock_slurmctld lv) e') as [[[] e'']|]; [|done]. eauto.
Qed.

Lemma try_lock_all_or_nothing_witness :
  (exists rc e', run_alone (try_lock_slurmctld job_read) init_locks = Some (rc, e') /\ rc = 0 /\
     plus init_locks e' job_read) /\
  fst <$> run_alone (try_lock_slurmctld job_read) (entity contended) = Some (-1).
Proof.
  split; [|reflexivity].
  destruct (try_lock_all_or_nothing job_read init_locks eq_refl) as (rc & e' & H1 & H2 & _).
  exists rc, e'. split; [exact H1|]. exact H2.
Defined.

(** A thread that is told to exit while it waits ends with the mutex locked;
    the thread that has the lock cannot give it back. *)
Lemma exit_keeps_mutex :
  exists s, rtc step contended s /\ (th_status <$> threads s) = [Running; Exited] /\
    mutex s = Some 1%nat /\ thread_step 0 s = None /\ thread_step 1 s = None.
Proof.
  eexists. split; [eapply rtc_l; [apply step_kill|]; by apply (run_schedule_rtc [1]%nat)|].
  split_and!; reflexivity.
Qed.

(** [kill_locked_threads] does not take the mutex: a thread that has decided to
    wait but does not wait yet misses the broadcast and goes to sleep. *)
Lemma kill_misses_thread :
  exists s, reachable two s /\ kill_thread s = true /\ (th_status <$> threads s) = [Running; Waiting] /\
    thread_step 1 s = None.
Proof.
  eexists. split.
  { unfold reachable. etrans; [by apply (run_schedule_rtc [0; 1; 1]%nat)|].
    eapply rtc_l; [apply step_kill|]. by apply (run_schedule_rtc [1]%nat). }
  split_and!; reflexivity.
Qed.
