(* ===== verification/PortMgr.v ===== *)
(** * Reserved communication ports: src/slurmctld/port_mgr.c

    For every port of a configured range the controller keeps the bitmap of the
    nodes on which the port is reserved; job steps and jobs of a pack (JobPack)
    reserve and release ports on their nodes.  Host list expressions, which
    print and parse the port numbers, are parameters of the model. *)

From S2P Require Import Prelude Bitstring StepLayout.

Local Open Scope Z_scope.
Local Open Scope slurm_scope.

Definition ESLURM_PORTS_BUSY : Z := 2059.
Definition ESLURM_PORTS_INVALID : Z := 2060.

(** The globals of the file, with the variables [last_port_alloc] and [hport]
    that are static in [resv_port_alloc]. *)
Record ports : Type := Ports {
  port_resv_table : option (list bitstr);
  port_resv_cnt : Z;
  port_resv_min : Z;
  port_resv_max : Z;
  port_resv_cnt_jobpack : Z;
  last_port_alloc_jobpack : Z;
  last_port_alloc : Z;
  hport : Z
}.

(** What this code uses of a [struct step_record] and, under the same names, of
    a [struct job_record]. *)
Record holder : Type := Holder {
  resv_port_cnt : Z;
  resv_ports : option cstr;
  resv_port_array : option (list Z);
  node_bitmap : bitstr
}.

Definition with_table (st : ports) (table : option (list bitstr)) : ports :=
  Ports table (port_resv_cnt st) (port_resv_min st) (port_resv_max st) (port_resv_cnt_jobpack st)
    (last_port_alloc_jobpack st) (last_port_alloc st) (hport st).

(** [port_resv_table[j]], with the table [NULL] before it is configured. *)
Definition table_get (table : option (list bitstr)) (j : Z) : exec bitstr :=
  match table with Some t => aget t j | None => Fault end.
Definition table_set (table : option (list bitstr)) (j : Z) (b : bitstr) : exec (option (list bitstr)) :=
  match table with Some t => Some <$> aset t j b | None => Fault end.

(** [if (++last >= port_resv_cnt) last = 0]. *)
Definition next_port (last cnt : Z) : exec Z := last ← i32 (last + 1); Ret (if cnt <=? last then 0 else last).

(** "Identify available ports": go round the table from the port after [last]
    and collect ports that are free on the nodes of [bm] in an array of [need]
    entries; the result is [last], the number found and the array. *)
Definition find_ports (table : option (list bitstr)) (cnt : Z) (bm : bitstr) (need last : Z) :
    exec (Z * Z * list Z) :=
  '(last, inx, arr, _) ← for_while (fun '(_, _, _, stop) => negb stop)
    (fun _ '(last, port_inx, port_array, _) =>
       last ← next_port last cnt;
       t ← table_get table last;
       n ← bit_overlap bm t;
       if negb (n =? 0) then Ret (last, port_inx, port_array, false) else
       port_array ← aset port_array port_inx last;
       Ret (last, port_inx + 1, port_array, need <=? port_inx + 1))
    (Z.to_nat cnt) 0 (last, 0, replicate (Z.to_nat need) 0, false);
  Ret (last, inx, arr).

(** "Reserve selected ports": mark them and turn indexes into port numbers. *)
Definition take_ports (table : option (list bitstr)) (port_min : Z) (bm : bitstr) (inx : Z) (arr : list Z) :
    exec (option (list bitstr) * list Z) :=
  for_while (fun _ => true)
    (fun i '(table, arr) =>
       p ← aget arr i;
       t ← table_get table p;
       t ← bit_or t bm;
       table ← table_set table p t;
       port ← i32 (p + port_min);
       arr ← aset arr i port;
       Ret (table, arr))
    (Z.to_nat inx) 0 (table, arr).

(** Clear the nodes of a holder, given by the complement [bm], at its ports;
    ports outside the configured range are skipped. *)
Definition drop_ports (st : ports) (bm : bitstr) (cnt : Z) (arr : list Z) : exec (option (list bitstr)) :=
  for_while (fun _ => true)
    (fun i table =>
       p ← aget arr i;
       if (p <? port_resv_min st) || (port_resv_max st <? p) then Ret table else
       t ← table_get table (p - port_resv_min st);
       t ← bit_and t bm;
       table_set table (p - port_resv_min st) t)
    (Z.to_nat cnt) 0 (port_resv_table st).

Section ports.
(** The host list code used to print the sorted port numbers, without and with
    brackets ([hostlist_ranged_string_xmalloc_dims], [hostlist_ranged_string_xmalloc]),
    and the hosts of an expression, [None] when it is invalid ([hostlist_create],
    [hostlist_shift]). *)
Variable ports_text : list Z -> cstr.
Variable ports_text_brackets : list Z -> cstr.
Variable hostlist_hosts : cstr -> option (list cstr).

Definition resv_port_alloc (st : ports) (h : holder) : exec (ports * holder * Z) :=
  let hport := Z.max (hport st) (port_resv_cnt_jobpack st) in
  let last := if 0 <? hport then hport else last_port_alloc st in
  let st := Ports (port_resv_table st) (port_resv_cnt st) (port_resv_min st) (port_resv_max st)
              (port_resv_cnt_jobpack st) (last_port_alloc_jobpack st) last hport in
  wanted ← i32 (resv_port_cnt h + port_resv_cnt_jobpack st);
  if port_resv_cnt st <? wanted
  then Ret (st, h, ESLURM_PORTS_INVALID) else
  '(last, inx, arr) ← find_ports (port_resv_table st) (port_resv_cnt st) (node_bitmap h) (resv_port_cnt h) last;
  let st := Ports (port_resv_table st) (port_resv_cnt st) (port_resv_min st) (port_resv_max st)
              (port_resv_cnt_jobpack st) (last_port_alloc_jobpack st) last hport in
  if inx <? resv_port_cnt h then Ret (st, h, ESLURM_PORTS_BUSY) else
  '(table, arr) ← take_ports (port_resv_table st) (port_resv_min st) (node_bitmap h) inx arr;
  Ret (with_table st table, Holder (resv_port_cnt h) (Some (ports_text arr)) (Some arr) (node_bitmap h), SLURM_SUCCESS).

Definition resv_port_free (st : ports) (h : holder) : exec (ports * holder) :=
  match resv_port_array h with
  | None => Ret (st, h)
  | Some arr =>
      bm ← bit_not (node_bitmap h);
      table ← drop_ports st bm (resv_port_cnt h) arr;
      bm ← bit_not bm;
      Ret (with_table st table, Holder (resv_port_cnt h) (resv_ports h) None bm)
  end.

(** "Remove brackets from hostlist". *)
Definition strip_brackets (s : cstr) : cstr :=
  match s with 91 :: rest => removelast rest | _ => s end.

Definition resv_port_alloc_jobpack (st : ports) (h : holder) : exec (ports * holder * Z) :=
  if port_resv_cnt st <? resv_port_cnt h then Ret (st, h, ESLURM_PORTS_INVALID) else
  jobpack ← i32 (port_resv_cnt_jobpack st + resv_port_cnt h);
  '(last, inx, arr) ← find_ports (port_resv_table st) (port_resv_cnt st) (node_bitmap h) (resv_port_cnt h)
                        (last_port_alloc_jobpack st);
  let st := Ports (port_resv_table st) (port_resv_cnt st) (port_resv_min st) (port_resv_max st)
              jobpack last (last_port_alloc st) (hport st) in
  if inx <? resv_port_cnt h then Ret (st, h, ESLURM_PORTS_BUSY) else
  '(table, arr) ← take_ports (port_resv_table st) (port_resv_min st) (node_bitmap h) inx arr;
  Ret (with_table st table,
       Holder (resv_port_cnt h) (Some (strip_brackets (ports_text_brackets arr))) (Some arr) (node_bitmap h),
       SLURM_SUCCESS).

Definition resv_port_jobpack_free (st : ports) (h : holder) : exec (ports * holder) :=
  match resv_port_array h with
  | None => Ret (st, h)
  | Some arr =>
      bm ← bit_not (node_bitmap h);
      table ← drop_ports st bm (resv_port_cnt h) arr;
      bm ← bit_not bm;
      Ret (Ports table (port_resv_cnt st) (port_resv_min st) (port_resv_max st) 0 0 (last_port_alloc st) (hport st),
           Holder (resv_port_cnt h) (resv_ports h) None bm)
  end.

(** ** Recovery and configuration *)
(** The loop that fills the port array with the positive numbers. *)
Fixpoint fill_ports (names : list cstr) (arr : list Z) (cnt : Z) : exec (list Z * Z) :=
  match names with
  | [] => Ret (arr, cnt)
  | s :: names =>
      if 0 <? atoi s
      then arr ← aset arr cnt (atoi s); fill_ports names arr (u16 (cnt + 1))
      else fill_ports names arr cnt
  end.

Definition rebuild_port_array (h : holder) : exec holder :=
  match hostlist_hosts (91 :: default [] (resv_ports h) ++ [93]) with
  | None => Ret (Holder (resv_port_cnt h) None (resv_port_array h) (node_bitmap h))
  | Some names =>
      '(arr, cnt) ← fill_ports names (replicate (Z.to_nat (resv_port_cnt h)) 0) 0;
      Ret (Holder cnt (if cnt =? 0 then None else resv_ports h) (Some arr) (node_bitmap h))
  end.

Definition make_step_resv (st : ports) (h : holder) : exec (ports * holder) :=
  if (resv_port_cnt h =? 0) || bool_decide (default [] (resv_ports h) = []) then Ret (st, h) else
  h ← (if bool_decide (resv_port_array h = None) then rebuild_port_array h else Ret h);
  table ← for_while (fun _ => true)
    (fun i table =>
       match resv_port_array h with
       | None => Fault
       | Some arr =>
           p ← aget arr i;
           if (p <? port_resv_min st) || (port_resv_max st <? p) then Ret table else
           t ← table_get table (p - port_resv_min st);
           t ← bit_or t (node_bitmap h);
           table_set table (p - port_resv_min st) t
       end)
    (Z.to_nat (resv_port_cnt h)) 0 (port_resv_table st);
  Ret (with_table st table, h).

(** The steps of all jobs, each with its state. *)
Definition JOB_RUNNING : Z := 1.
Fixpoint make_all_resv (st : ports) (steps : list (Z * holder)) : exec (ports * list (Z * holder)) :=
  match steps with
  | [] => Ret (st, [])
  | (state, h) :: steps =>
      '(st, h) ← (if state <? JOB_RUNNING then Ret (st, h) else make_step_resv st h);
      '(st, steps) ← make_all_resv st steps;
      Ret (st, (state, h) :: steps)
  end.

Definition PORTS_KEY : cstr := [112; 111; 114; 116; 115; 61].
(** [strstr(s, "ports=")], returning what follows the key. *)
Fixpoint after_key (s : cstr) : option cstr :=
  if bool_decide (take 6 s = PORTS_KEY) then Some (drop 6 s)
  else match s with [] => None | _ :: s => after_key s end.

Definition reserve_port_config (node_record_count : Z) (mpi_params : option cstr) (st : ports)
    (steps : list (Z * holder)) : exec (ports * list (Z * holder) * Z) :=
  match mpi_params ≫= after_key with
  | None =>
      match port_resv_table st with
      | None => Ret (st, steps, SLURM_SUCCESS)
      | Some _ => Ret (Ports None 0 0 0 0 (last_port_alloc_jobpack st) (last_port_alloc st) (hport st),
                       steps, SLURM_SUCCESS)
      end
  | Some tmp_p =>
      let '(p_min, tmp_e) := strtol tmp_p in
      let p_min := s32 p_min in
      if (p_min <? 1) || negb (bool_decide (head tmp_e = Some 45)) then Ret (st, steps, SLURM_ERROR) else
      let p_max := s32 (strtol (tail tmp_e)).1 in
      if p_max <? p_min then Ret (st, steps, SLURM_ERROR) else
      if (p_min =? port_resv_min st) && (p_max =? port_resv_max st) then Ret (st, steps, SLURM_SUCCESS) else
      cnt ← i32 (p_max - p_min + 1);
      table ← for_while (fun _ => true) (fun _ t => b ← bit_alloc node_record_count; Ret (t ++ [b]))
                (Z.to_nat cnt) 0 [];
      '(st, steps) ← make_all_resv
        (Ports (Some table) cnt p_min p_max (port_resv_cnt_jobpack st) (last_port_alloc_jobpack st)
           (last_port_alloc st) (hport st)) steps;
      Ret (st, steps, SLURM_SUCCESS)
  end.
End ports.
