(* ===== verification/PortMgrFacts.v ===== *)
(** * Reserved communication ports: lemmas

    The port table as a predicate on ports and nodes, and what searching,
    taking and dropping ports does to it. *)

From S2P Require Import Prelude Bitstring BitstringFacts BitstringCount StepLayout PortMgr.

Local Open Scope Z_scope.
Local Open Scope slurm_scope.

(** [tb] has a bitmap of [nb] nodes for each port, and [f] says which nodes are
    reserved at which index. *)
Definition grid (nb : Z) (tb : list bitstr) (f : Z -> Z -> bool) : Prop :=
  forall j t, tb !! j = Some t -> bs_wf t /\ bs_bits t = nb /\
    forall n, 0 <= n < nb -> bs_mem t n = f (Z.of_nat j) n.

Definition nodes_ok (nb : Z) (bm : bitstr) : Prop := bs_wf bm /\ bs_bits bm = nb.

(** Whether index [j] is free on all nodes of [bm]. *)
Definition port_free (nb : Z) (f : Z -> Z -> bool) (bm : bitstr) (j : Z) : bool :=
  count (fun n => bs_mem bm n && f j n) 0 nb =? 0.

(** The indexes in the order in which the table is searched. *)
Definition visited (cnt start i : Z) : list Z := (fun k => (start + k) `mod` cnt) <$> seqZ 0 i.

Lemma visited_snoc cnt start i :
  0 <= i -> visited cnt start (i + 1) = visited cnt start i ++ [(start + i) `mod` cnt].
Proof.
  intros Hi. unfold visited. rewrite seqZ_app by lia. rewrite fmap_app. by rewrite Z.add_0_l.
Qed.

Lemma visited_prefix cnt start i m :
  0 <= i <= m -> exists r, visited cnt start m = visited cnt start i ++ r.
Proof.
  intros Hi. unfold visited. replace m with (i + (m - i)) by lia.
  rewrite seqZ_app, fmap_app by lia. eauto.
Qed.

Lemma visited_NoDup cnt start i : 0 < cnt -> i <= cnt -> NoDup (visited cnt start i).
Proof.
  intros Hc Hi. apply NoDup_fmap_2_strong; [|apply NoDup_seqZ].
  intros a b Ha Hb Heq. apply elem_of_seqZ in Ha, Hb.
  assert (Hd : (a - b) `mod` cnt = 0).
  { replace (a - b) with ((start + a) - (start + b)) by lia. rewrite Zminus_mod, Heq, Z.sub_diag. apply Zmod_0_l. }
  apply Z.mod_divide in Hd as [q Hq]; [|lia]. assert (- cnt < q * cnt < cnt) by lia. assert (q = 0) by nia. nia.
Qed.

Lemma visited_range cnt start i x : 0 < cnt -> x ∈ visited cnt start i -> 0 <= x < cnt.
Proof.
  intros Hc Hx. apply list_elem_of_fmap in Hx as (k & -> & _). apply Z.mod_pos_bound. lia.
Qed.

Lemma visited_all cnt start : 0 < cnt -> visited cnt start cnt ≡ₚ seqZ 0 cnt.
Proof.
  intros Hc. apply submseteq_length_Permutation.
  - apply NoDup_submseteq; [by apply visited_NoDup|]. intros x Hx. apply elem_of_seqZ.
    pose proof (visited_range _ _ _ _ Hc Hx). lia.
  - unfold visited. by rewrite length_fmap.
Qed.

Lemma count_filter_visited P cnt start :
  0 < cnt -> Z.of_nat (length (filter (fun j => P j = true) (visited cnt start cnt))) = count P 0 cnt.
Proof.
  intros Hc. unfold count. rewrite Z.sub_0_r. f_equal. apply Permutation_length.
  by rewrite (visited_all cnt start Hc).
Qed.

(** [next_port] when the counter does not overflow. *)
Definition after_port (last cnt : Z) : Z := if cnt <=? last + 1 then 0 else last + 1.

Lemma next_port_ok last cnt : -1 <= last < i32_max -> next_port last cnt = Ret (after_port last cnt).
Proof. intros Hl. unfold next_port. by rewrite i32_ok by (unfold i32_min, i32_max in *; lia). Qed.
Lemma after_port_range last cnt : 0 < cnt -> -1 <= last -> 0 <= after_port last cnt < cnt.
Proof. intros. unfold after_port. if_solve. Qed.
Lemma after_port_mod x cnt : 0 < cnt -> after_port (x `mod` cnt) cnt = (x + 1) `mod` cnt.
Proof.
  intros Hc. unfold after_port. pose proof (Z.mod_pos_bound x cnt Hc). rewrite <-(Zplus_mod_idemp_l x 1).
  destruct (Z.leb_spec cnt (x `mod` cnt + 1)).
  - replace (x `mod` cnt + 1) with cnt by lia. by rewrite Z_mod_same_full.
  - rewrite (Z.mod_small (x `mod` cnt + 1)); lia.
Qed.

Lemma grid_overlap nb tb f bm j :
  grid nb tb f -> nodes_ok nb bm -> 0 <= j < Z.of_nat (length tb) ->
  wp (t ← table_get (Some tb) j; bit_overlap bm t) (fun n => (n =? 0) = port_free nb f bm j).
Proof.
  intros Hg [Hwf Hb] Hj. apply wp_bind, wp_aget; [done|]. intros t Ht. destruct (Hg _ _ Ht) as (Hwt & Hbt & Hm).
  rewrite bit_overlap_spec by (done || lia). apply wp_ret. unfold port_free. rewrite Hb. f_equal.
  apply count_ext. intros n Hn. rewrite Hm by lia. by rewrite Z2Nat.id by lia.
Qed.

(** What the search finds: the first free indexes, as many as asked for or all
    there are. *)
Lemma find_ports_spec nb tb f bm need last cnt :
  grid nb tb f -> nodes_ok nb bm -> Z.of_nat (length tb) = cnt -> 0 < cnt < i32_max -> 0 < need -> -1 <= last < i32_max ->
  wp (find_ports (Some tb) cnt bm need last) (fun '(last', inx, arr) =>
    0 <= last' < cnt /\ length arr = Z.to_nat need /\
    inx = Z.min need (count (port_free nb f bm) 0 cnt) /\
    let l := take (Z.to_nat inx) arr in
    NoDup l /\ forall j, j ∈ l -> 0 <= j < cnt /\ port_free nb f bm j = true).
Proof.
  intros Hg Hbm Hlen Hc Hneed Hlast. unfold find_ports. apply wp_bind.
  set (start := after_port last cnt). destruct Hc as [Hc Hcm]. set (free := port_free nb f bm).
  assert (Hstart : 0 <= start < cnt) by (apply after_port_range; lia).
  set (found := fun i : Z => filter (fun j : Z => free j = true) (visited cnt start i)).
  assert (Hfound : forall i j : Z, i <= cnt -> NoDup (found i) /\ (j ∈ found i -> 0 <= j < cnt /\ free j = true)).
  { intros i j Hi. split; [by apply NoDup_filter, visited_NoDup|]. intros Hj.
    apply list_elem_of_filter in Hj as [Hf Hj]. split; [by eapply visited_range|done]. }
  eapply (wp_for (fun (i : Z) '((la, inx, arr, stop) : Z * Z * list Z * bool) => after_port la cnt = (start + i) `mod` cnt /\ -1 <= la < i32_max /\
    (0 < i -> 0 <= la < cnt) /\ length arr = Z.to_nat need /\ inx = Z.of_nat (length (found i)) /\
    take (Z.to_nat inx) arr = found i /\ (if stop then inx = need else inx < need))).
  - split_and!; try done; try lia; [|by rewrite length_replicate]. by rewrite Z.add_0_r, Z.mod_small.
  - intros i [[[la inx] arr] stop] Hi (Hla & Hov & _ & Hl & Hinx & Htk & Hst) Hcond.
    apply negb_true_iff in Hcond. subst stop. rewrite next_port_ok, Hla by done. cbn [mbind exec_bind]. clear Hov. set (p := (start + i) `mod` cnt) in *.
    assert (Hp : 0 <= p < cnt) by (apply Z.mod_pos_bound; lia).
    assert (Hnext : after_port p cnt = (start + (i + 1)) `mod` cnt).
    { subst p. rewrite after_port_mod by lia. f_equal. lia. }
    assert (Hsnoc : found (i + 1) = found i ++ (if free p then [p] else [])).
    { unfold found. rewrite visited_snoc, list.filter_app by lia. f_equal. fold p. rewrite filter_cons.
      destruct (free p) eqn:E; case_decide; done. }
    pose proof (grid_overlap nb tb f bm p Hg Hbm ltac:(lia)) as Hov.
    destruct (table_get (Some tb) p) as [t| |]; try done. cbn [mbind exec_bind] in *.
    destruct (bit_overlap bm t) as [n| |]; try done. cbn [mbind exec_bind wp] in *. fold free in Hov. rewrite Hov.
    destruct (free p) eqn:Hfree; cbn [negb].
    + apply wp_bind, wp_aset; [lia|]. apply wp_ret. rewrite Hsnoc, length_app. simpl.
      split_and!; [done|lia|lia|lia|by rewrite length_insert|lia| |destruct (Z.leb_spec need (inx + 1)); lia].
      replace (Z.to_nat (inx + 1)) with (S (Z.to_nat inx)) by lia.
      rewrite (take_S_r _ _ p) by (apply list_lookup_insert_eq; lia). by rewrite take_insert_ge, Htk by lia.
    + apply wp_ret. rewrite Hsnoc, app_nil_r. split_and!; done || lia.
  - intros i [[[la inx] arr] stop] Hi (Hla & _ & Hr & Hl & Hinx & Htk & Hst) Hend. apply wp_ret.
    assert (Hi' : i <= cnt) by lia.
    assert (Hle : Z.of_nat (length (found i)) <= count free 0 cnt).
    { rewrite <-(count_filter_visited free cnt start Hc). unfold found.
      destruct (visited_prefix cnt start i cnt ltac:(lia)) as [r ->]. rewrite list.filter_app, length_app. lia. }
    assert (Hmin : inx = Z.min need (count free 0 cnt)).
    { destruct stop; [lia|]. destruct Hend as [Hend|]; [|done]. rewrite Z2Nat.id in Hend by lia.
      assert (i = cnt) as -> by lia. unfold found in Hinx. rewrite count_filter_visited in Hinx by done. lia. }
    assert (Hpos : 0 < i).
    { destruct (decide (i = 0)) as [->|]; [|lia]. change (found 0) with (@nil Z) in Hinx. simpl in Hinx.
      destruct stop; [lia|]. destruct Hend; [lia|done]. }
    cbv zeta. rewrite Htk. specialize (Hr Hpos). split; [lia|]. split; [done|]. split; [done|]. split.
    + by apply (Hfound i 0).
    + intros j. by apply Hfound.
Qed.

(** ** Taking and dropping *)
Lemma grid_update nb tb f j t' g :
  grid nb tb f -> 0 <= j < Z.of_nat (length tb) -> bs_wf t' -> bs_bits t' = nb ->
  (forall n, 0 <= n < nb -> bs_mem t' n = g j n) -> (forall i n, i <> j -> g i n = f i n) ->
  grid nb (<[Z.to_nat j := t']> tb) g.
Proof.
  intros Hg Hj Hw Hb Hm Hgf i t [(<- & <- & _)|[Hne Hi]]%list_lookup_insert_Some.
  - split_and!; [done|done|]. intros n Hn. rewrite Z2Nat.id by lia. auto.
  - destruct (Hg _ _ Hi) as (? & ? & Hmem). split_and!; [done|done|]. intros n Hn. rewrite Hmem by done.
    symmetry. apply Hgf. lia.
Qed.

Lemma grid_ext nb tb f g :
  grid nb tb f -> (forall j n, 0 <= j < Z.of_nat (length tb) -> 0 <= n < nb -> g j n = f j n) -> grid nb tb g.
Proof.
  intros Hg He j t Hj. destruct (Hg j t Hj) as (? & ? & Hm). split_and!; [done|done|]. intros n Hn.
  apply lookup_lt_Some in Hj. rewrite He by lia. auto.
Qed.

(** One index of the table combined with the nodes of [bm]. *)
Lemma table_op_spec nb tb f bm j (op : bitstr -> bitstr -> exec bitstr) (c : bool -> bool -> bool) :
  (forall b1 b2, bs_wf b1 -> bs_wf b2 -> bs_bits b1 = bs_bits b2 ->
     wp (op b1 b2) (fun b' => bs_upd b1 b' (fun i => c (bs_mem b1 i) (bs_mem b2 i)))) ->
  grid nb tb f -> nodes_ok nb bm -> 0 <= j < Z.of_nat (length tb) ->
  wp (t ← table_get (Some tb) j; t ← op t bm; table_set (Some tb) j t) (fun table =>
    exists tb', table = Some tb' /\ length tb' = length tb /\
      grid nb tb' (fun i n => if i =? j then c (f i n) (bs_mem bm n) else f i n)).
Proof.
  intros Hop Hg [Hw Hb] Hj. apply wp_bind, wp_aget; [done|]. intros t Ht. destruct (Hg _ _ Ht) as (Hwt & Hbt & Hm).
  apply wp_bind. eapply wp_mono; [apply Hop; [done|done|lia]|]. intros t' [Hu1 _ Hu3 Hu4]. unfold table_set, aset.
  rewrite (proj2 (andb_true_iff _ _)) by lia. cbn [fmap exec_fmap wp]. eexists. split; [done|]. split; [apply length_insert|].
  eapply grid_update; [done|done|done|lia| |].
  - intros n Hn. rewrite Z.eqb_refl, Hu4, Hm by lia. by rewrite Z2Nat.id by lia.
  - intros i n Hi. by rewrite (proj2 (Z.eqb_neq i j)).
Qed.

Lemma take_ports_spec nb tb f bm pmin l :
  grid nb tb f -> nodes_ok nb bm -> (forall j, j ∈ l -> 0 <= j < Z.of_nat (length tb) /\ i32_min <= j + pmin <= i32_max) ->
  wp (take_ports (Some tb) pmin bm (Z.of_nat (length l)) l) (fun '(table, arr) =>
    exists tb', table = Some tb' /\ length tb' = length tb /\ arr = (fun j => j + pmin) <$> l /\
      grid nb tb' (fun j n => f j n || (bool_decide (j ∈ l) && bs_mem bm n))).
Proof.
  intros Hg Hbm Hl. unfold take_ports. rewrite Nat2Z.id.
  eapply (wp_for (fun i '(table, arr) => exists tb', table = Some tb' /\ length tb' = length tb /\
    arr = ((fun j => j + pmin) <$> take (Z.to_nat i) l) ++ drop (Z.to_nat i) l /\
    grid nb tb' (fun j n => f j n || (bool_decide (j ∈ take (Z.to_nat i) l) && bs_mem bm n)))).
  - exists tb. split_and!; [done|done|done|]. eapply grid_ext; [exact Hg|]. intros j n _ _.
    rewrite bool_decide_eq_false_2 by apply not_elem_of_nil. apply orb_false_r.
  - intros i [table arr] Hi (tb' & -> & Hlen & -> & Hg') _. rewrite Z.add_0_l in Hi.
    destruct (lookup_lt_is_Some_2 l (Z.to_nat i)) as [p Hp]; [lia|].
    assert (Hpr : 0 <= p < Z.of_nat (length tb') /\ i32_min <= p + pmin <= i32_max) by (rewrite Hlen; apply Hl; by eapply list_elem_of_lookup_2). destruct Hpr as [Hpr Hpi].
    assert (Hdrop : drop (Z.to_nat i) l = p :: drop (S (Z.to_nat i)) l) by (by apply drop_S).
    assert (Hlt : length ((fun j => j + pmin) <$> take (Z.to_nat i) l) = Z.to_nat i) by (rewrite length_fmap, length_take; lia).
    rewrite (aget_lookup _ i p) by (lia || (rewrite lookup_app_r, Hlt, Nat.sub_diag, Hdrop by lia; done)). cbn [mbind exec_bind].
    pose proof (table_op_spec nb tb' _ bm p bit_or orb bit_or_spec Hg' Hbm Hpr) as Hop.
    destruct (table_get (Some tb') p) as [t| |]; try done. cbn [mbind exec_bind] in *.
    destruct (bit_or t bm) as [t'| |]; try done. cbn [mbind exec_bind] in *.
    destruct (table_set (Some tb') p t') as [table'| |]; try done. cbn [mbind exec_bind wp] in *.
    destruct Hop as (tb2 & -> & Hlen2 & Hg2).
    rewrite i32_ok by done. cbn [mbind exec_bind].
    apply wp_bind, wp_aset; [rewrite length_app, Hlt, length_drop; lia|]. apply wp_ret.
    replace (Z.to_nat (i + 1)) with (S (Z.to_nat i)) by lia. rewrite (take_S_r _ _ _ Hp). exists tb2.
    split_and!; [done|lia| |].
    + rewrite Hdrop, insert_app_r_alt, Hlt, Nat.sub_diag by lia. simpl. by rewrite fmap_app, <-app_assoc.
    + eapply grid_ext; [exact Hg2|]. intros j n _ _. cbv beta. destruct (Z.eqb_spec j p) as [->|Hne].
      * rewrite (bool_decide_eq_true_2 (p ∈ _ ++ [p])) by (apply elem_of_app; right; by apply list_elem_of_singleton).
        cbn [andb]. destruct (f p n), (bs_mem bm n), (bool_decide (p ∈ take (Z.to_nat i) l)); reflexivity.
      * do 2 f_equal. apply bool_decide_ext. rewrite elem_of_app, list_elem_of_singleton. intuition.
  - intros i [table arr] Hi (tb' & -> & Hlen & -> & Hg') Hend. destruct Hend as [->|]; [|done].
    rewrite Z.add_0_l, Nat2Z.id, firstn_all, drop_all in *. exists tb'. by rewrite app_nil_r.
Qed.

Lemma drop_ports_spec nb tb f bm st l :
  port_resv_table st = Some tb -> Z.of_nat (length tb) = port_resv_max st - port_resv_min st + 1 ->
  grid nb tb f -> nodes_ok nb bm ->
  wp (drop_ports st bm (Z.of_nat (length l)) l) (fun table =>
    exists tb', table = Some tb' /\ length tb' = length tb /\
      grid nb tb' (fun j n => f j n && (negb (bool_decide (j + port_resv_min st ∈ l)) || bs_mem bm n))).
Proof.
  intros Htb Hcnt Hg Hbm. unfold drop_ports. rewrite Nat2Z.id, Htb.
  eapply (wp_for (fun i table => exists tb', table = Some tb' /\ length tb' = length tb /\
    grid nb tb' (fun j n => f j n && (negb (bool_decide (j + port_resv_min st ∈ take (Z.to_nat i) l)) || bs_mem bm n)))).
  - exists tb. split_and!; [done|done|]. eapply grid_ext; [exact Hg|]. intros j n _ _.
    rewrite bool_decide_eq_false_2 by apply not_elem_of_nil. apply andb_true_r.
  - intros i table Hi (tb' & -> & Hlen & Hg') _. rewrite Z.add_0_l in Hi.
    destruct (lookup_lt_is_Some_2 l (Z.to_nat i)) as [p Hp]; [lia|].
    rewrite (aget_lookup _ i p) by (done || lia). cbn [mbind exec_bind].
    replace (Z.to_nat (i + 1)) with (S (Z.to_nat i)) by lia. rewrite (take_S_r _ _ _ Hp).
    assert (Hsnoc : forall j, bool_decide (j + port_resv_min st ∈ take (Z.to_nat i) l ++ [p]) =
      bool_decide (j + port_resv_min st ∈ take (Z.to_nat i) l) || (j =? p - port_resv_min st)).
    { intros j. destruct (Z.eqb_spec j (p - port_resv_min st)) as [->|Hne].
      - rewrite orb_true_r. apply bool_decide_eq_true_2, elem_of_app. right. apply list_elem_of_singleton. lia.
      - rewrite orb_false_r. apply bool_decide_ext. rewrite elem_of_app, list_elem_of_singleton. split; [|auto].
        intros [?|?]; [done|lia]. }
    destruct (_ || _) eqn:Hrange.
    + apply wp_ret. exists tb'. split_and!; [done|done|]. eapply grid_ext; [exact Hg'|]. intros j n Hj Hn. cbv beta.
      by rewrite Hsnoc, (proj2 (Z.eqb_neq j (p - port_resv_min st))), orb_false_r by lia.
    + pose proof (table_op_spec nb tb' _ bm (p - port_resv_min st) bit_and andb bit_and_spec Hg' Hbm ltac:(lia)) as Hop.
      eapply wp_mono; [exact Hop|]. intros table (tb2 & -> & Hlen2 & Hg2). exists tb2. split_and!; [done|lia|].
      eapply grid_ext; [exact Hg2|]. intros j n Hj Hn. cbv beta. rewrite Hsnoc.
      destruct (j =? p - port_resv_min st), (bool_decide (j + port_resv_min st ∈ take (Z.to_nat i) l)), (f j n), (bs_mem bm n); reflexivity.
  - intros i table Hi (tb' & -> & Hlen & Hg') Hend. destruct Hend as [->|]; [|done].
    rewrite Z.add_0_l, Nat2Z.id, firstn_all in Hg'. by exists tb'.
Qed.
