(* ===== verification/PortMgrProps.v ===== *)
(** * Reserved communication ports: properties

    Reservations are exclusive for any sequence of reservations and releases,
    a reservation fails only for lack of ports, and a release undoes it. *)

From S2P Require Import Prelude Bitstring BitstringFacts BitstringCount BitstringProps StepLayout PortMgr PortMgrFacts.

Local Open Scope Z_scope.
Local Open Scope slurm_scope.

(** A configured table of [nb] nodes in which [f] says what is reserved; the counters,
    which are [int]s, have not reached the largest [int]. *)
Record ports_ok (nb : Z) (st : ports) (f : Z -> Z -> bool) : Prop := {
  po_table : exists tb, port_resv_table st = Some tb /\ Z.of_nat (length tb) = port_resv_cnt st /\ grid nb tb f;
  po_range : port_resv_cnt st = port_resv_max st - port_resv_min st + 1 /\ 0 < port_resv_cnt st /\ 0 < port_resv_min st /\ port_resv_max st < i32_max;
  po_vars : 0 <= port_resv_cnt_jobpack st < i32_max /\ -1 <= last_port_alloc_jobpack st < i32_max /\
    -1 <= last_port_alloc st < i32_max /\ hport st < i32_max
}.

Definition asks (nb : Z) (h : holder) : Prop := nodes_ok nb (node_bitmap h) /\ 0 < resv_port_cnt h < 65536.

Definition has (h : holder) (p n : Z) : bool :=
  bool_decide (p ∈ default [] (resv_port_array h)) && bs_mem (node_bitmap h) n.

(** [h'] is [h] with as many ports as it asked for, all of the range and free
    on its nodes, and the table has them added. *)
Definition granted (nb : Z) (st : ports) (f : Z -> Z -> bool) (h : holder) (st' : ports) (h' : holder) : Prop :=
  exists arr, resv_port_array h' = Some arr /\ node_bitmap h' = node_bitmap h /\ resv_port_cnt h' = resv_port_cnt h /\
    Z.of_nat (length arr) = resv_port_cnt h /\ NoDup arr /\
    (forall p, p ∈ arr -> port_resv_min st <= p <= port_resv_max st /\
       forall n, 0 <= n < nb -> bs_mem (node_bitmap h) n = true -> f (p - port_resv_min st) n = false) /\
    ports_ok nb st' (fun j n => f j n || has h' (j + port_resv_min st) n).

Definition free_ports (nb : Z) (st : ports) (f : Z -> Z -> bool) (h : holder) : Z :=
  count (port_free nb f (node_bitmap h)) 0 (port_resv_cnt st).

Definition same_range (st st' : ports) : Prop :=
  port_resv_min st' = port_resv_min st /\ port_resv_max st' = port_resv_max st.

Lemma port_free_true nb f bm j n :
  port_free nb f bm j = true -> 0 <= n < nb -> bs_mem bm n = true -> f j n = false.
Proof.
  unfold port_free. rewrite Z.eqb_eq, count_zero. intros H Hn Hm. specialize (H n Hn). by rewrite Hm in H.
Qed.

(** Search and reservation together, as in both allocation functions; [k]
    builds the results from the variables that were changed. *)
Lemma search_and_take nb st f h last (busy : Z -> ports) (done_ : Z -> option (list bitstr) -> ports)
    (text : list Z -> cstr) :
  ports_ok nb st f -> asks nb h -> -1 <= last < i32_max ->
  (forall la, 0 <= la < port_resv_cnt st -> ports_ok nb (busy la) f /\ same_range st (busy la)) ->
  (forall la tb g, 0 <= la < port_resv_cnt st -> Z.of_nat (length tb) = port_resv_cnt st -> grid nb tb g ->
     ports_ok nb (done_ la (Some tb)) g /\ same_range st (done_ la (Some tb))) ->
  wp ('(la, inx, arr) ← find_ports (port_resv_table st) (port_resv_cnt st) (node_bitmap h) (resv_port_cnt h) last;
      if inx <? resv_port_cnt h then Ret (busy la, h, ESLURM_PORTS_BUSY) else
      '(table, arr) ← take_ports (port_resv_table st) (port_resv_min st) (node_bitmap h) inx arr;
      Ret (done_ la table, Holder (resv_port_cnt h) (Some (text arr)) (Some arr) (node_bitmap h), SLURM_SUCCESS))
    (fun '(st', h', rc) => same_range st st' /\
      if free_ports nb st f h <? resv_port_cnt h
      then rc = ESLURM_PORTS_BUSY /\ h' = h /\ ports_ok nb st' f
      else rc = SLURM_SUCCESS /\ granted nb st f h st' h').
Proof.
  intros Hok [Hbm Hneed] Hlast Hbusy Hdone. destruct Hok as [(tb & Htb & Hlen & Hg) (Hrange & Hpos & Hmin & Hmax) _].
  rewrite Htb. apply wp_bind. eapply wp_mono; [apply (find_ports_spec nb tb f (node_bitmap h)); done || lia|].
  intros [[la inx] arr] (Hla & Harr & Hinx & Hnd & Hfree). fold (free_ports nb st f h) in Hinx.
  destruct (Hbusy la Hla) as [Hb1 Hb2].
  destruct (Z.ltb_spec (free_ports nb st f h) (resv_port_cnt h)) as [Hlt|Hge].
  { rewrite (proj2 (Z.ltb_lt inx _)) by lia. apply wp_ret. done. }
  rewrite (proj2 (Z.ltb_ge inx _)) by lia. assert (inx = Z.of_nat (length arr)) as -> by lia.
  rewrite Nat2Z.id, firstn_all in Hnd, Hfree. apply wp_bind.
  eapply wp_mono; [apply (take_ports_spec nb tb f (node_bitmap h) (port_resv_min st) arr Hg Hbm)|].
  { intros j Hj. destruct (Hfree j Hj). unfold i32_min. lia. }
  intros [table arr'] (tb' & -> & Hlen' & -> & Hg'). apply wp_ret. set (f' := fun j n => _) in Hg'.
  destruct (Hdone la tb' f' Hla ltac:(lia) Hg') as [Hd1 Hd2].
  split; [done|]. split; [done|]. eexists. split; [done|]. split; [done|]. split; [done|]. cbn [resv_port_array].
  split; [rewrite length_fmap; lia|]. split; [apply NoDup_fmap_2; [intros ? ? ?; lia|done]|]. split.
  - intros p Hp. apply list_elem_of_fmap in Hp as (j & -> & Hj). destruct (Hfree j Hj) as [Hj1 Hj2].
    split; [lia|]. intros n Hn Hm. replace (j + port_resv_min st - port_resv_min st) with j by lia.
    by eapply port_free_true.
  - destruct Hd1 as [(tb2 & H1 & H2 & H3) H4 H5]. constructor; [|done|done]. exists tb2. split_and!; [done|done|].
    eapply grid_ext; [exact H3|]. intros j n Hj Hn. unfold f', has. cbn [resv_port_array node_bitmap default from_option id].
    do 2 f_equal. apply bool_decide_ext. rewrite list_elem_of_fmap. split.
    + intros (x & Hx & Hin). by replace j with x by lia.
    + intros Hin. eauto.
Qed.

(** The result of a request, which may be for at most as many ports as exist,
    counted with [extra]. *)
Definition outcome (nb : Z) (st : ports) (f : Z -> Z -> bool) (h : holder) (extra : Z) : ports * holder * Z -> Prop :=
  fun '(st', h', rc) => same_range st st' /\
    if port_resv_cnt st <? resv_port_cnt h + extra then rc = ESLURM_PORTS_INVALID /\ h' = h /\ ports_ok nb st' f
    else if free_ports nb st f h <? resv_port_cnt h then rc = ESLURM_PORTS_BUSY /\ h' = h /\ ports_ok nb st' f
    else rc = SLURM_SUCCESS /\ granted nb st f h st' h'.

Lemma alloc_outcome text textb nb st f h :
  ports_ok nb st f -> asks nb h -> resv_port_cnt h + port_resv_cnt_jobpack st < i32_max ->
  wp (resv_port_alloc text st h) (outcome nb st f h (port_resv_cnt_jobpack st)) /\
  wp (resv_port_alloc_jobpack textb st h) (outcome nb st f h 0).
Proof.
  intros Hok Hask Hsum. pose proof Hok as [(tb & Htb & Hlen & Hg) Hrange (Hv1 & Hv2 & Hv3 & Hv4)].
  assert (0 < resv_port_cnt h) by apply Hask. split.
  - unfold resv_port_alloc. cbn [port_resv_cnt port_resv_cnt_jobpack port_resv_table port_resv_min].
    set (hp := Z.max _ _). set (last := if 0 <? hp then hp else last_port_alloc st).
    rewrite i32_ok by (unfold i32_min; lia). cbn [mbind exec_bind].
    assert (Hlast : -1 <= last < i32_max) by (subst last hp; if_solve). unfold outcome. destruct (port_resv_cnt st <? _).
    { apply wp_ret. split; [done|]. split_and!; [done|done|]. constructor; [by exists tb|done|simpl; lia]. }
    eapply (search_and_take nb st f h last
      (fun la => Ports (port_resv_table st) (port_resv_cnt st) (port_resv_min st) (port_resv_max st)
         (port_resv_cnt_jobpack st) (last_port_alloc_jobpack st) la hp)
      (fun la t => with_table (Ports (port_resv_table st) (port_resv_cnt st) (port_resv_min st) (port_resv_max st)
         (port_resv_cnt_jobpack st) (last_port_alloc_jobpack st) la hp) t) text Hok Hask Hlast).
    + intros la Hla. split; [|done]. constructor; [by exists tb|done|simpl; lia].
    + intros la tb' g Hla Hl Hg'. split; [|done]. constructor; [by exists tb'|done|simpl; lia].
  - unfold resv_port_alloc_jobpack, outcome. rewrite Z.add_0_r. destruct (port_resv_cnt st <? _).
    { apply wp_ret. done. }
    rewrite i32_ok by (unfold i32_min; lia). cbn [mbind exec_bind].
    eapply (search_and_take nb st f h (last_port_alloc_jobpack st)
      (fun la => Ports (port_resv_table st) (port_resv_cnt st) (port_resv_min st) (port_resv_max st)
         (port_resv_cnt_jobpack st + resv_port_cnt h) la (last_port_alloc st) (hport st))
      (fun la t => with_table (Ports (port_resv_table st) (port_resv_cnt st) (port_resv_min st) (port_resv_max st)
         (port_resv_cnt_jobpack st + resv_port_cnt h) la (last_port_alloc st) (hport st)) t)
      (fun arr => strip_brackets (textb arr)) Hok Hask Hv2).
    + intros la Hla. split; [|done]. constructor; [by exists tb|done|simpl; lia].
    + intros la tb' g Hla Hl Hg'. split; [|done]. constructor; [by exists tb'|done|simpl; lia].
Qed.

(** C19: when the reservations of steps and of pack jobs fail, and what they get.  A
    step is invalid when the ports that it asks for and the ports counted for pack jobs
    ([port_resv_cnt_jobpack], in which refused pack jobs stay counted, see
    [refused_pack_stays_counted]) are together more than exist; a pack job is invalid when
    it alone asks for more ports than exist; otherwise either is refused exactly when
    fewer ports than requested are free on all its nodes; and when it is granted, it
    gets the number of ports asked for, different ones of the configured range that
    were free on its nodes.  A refused request leaves the table as it was.  The
    scope: the request and the count for pack jobs are together below the largest [int]. *)
Theorem port_allocation_complete (text textb : list Z -> cstr) (nb : Z) (st : ports) (f : Z -> Z -> bool) (h : holder) :
  ports_ok nb st f -> asks nb h -> resv_port_cnt h + port_resv_cnt_jobpack st < i32_max ->
  wp (resv_port_alloc text st h) (outcome nb st f h (port_resv_cnt_jobpack st)) /\
  wp (resv_port_alloc_jobpack textb st h) (outcome nb st f h 0).
Proof. apply alloc_outcome. Qed.

(** ** Releases *)
Lemma bit_not_mem nb bm :
  nodes_ok nb bm ->
  wp (bit_not bm) (fun b => nodes_ok nb b /\ (forall n, 0 <= n < nb -> bs_mem b n = negb (bs_mem bm n)) /\
    wp (bit_not b) (fun b' => nodes_ok nb b' /\ forall n, 0 <= n < nb -> bs_mem b' n = bs_mem bm n)).
Proof.
  intros [Hw Hb].
  assert (Hin : forall b, bs_wf b -> bs_bits b = nb -> forall n, 0 <= n < nb -> n < 64 * Z.of_nat (length (bs_words b))).
  { intros b Hwb Hbb n Hn. rewrite (wf_len _ Hwb), Hbb, bitstr_words_div. dlia. }
  eapply wp_mono; [by apply bit_not_spec|]. intros b [U1 _ U3 U4].
  assert (Hm : forall n, 0 <= n < nb -> bs_mem b n = negb (bs_mem bm n)).
  { intros n Hn. rewrite U4 by lia. by rewrite (proj2 (Z.ltb_lt _ _)) by (by apply Hin). }
  split; [split; [done|lia]|]. split; [done|]. eapply wp_mono; [by apply bit_not_spec|]. intros b' [V1 _ V3 V4].
  split; [split; [done|lia]|]. intros n Hn. rewrite V4, Hm by lia.
  rewrite (proj2 (Z.ltb_lt _ _)) by (apply Hin; done || lia). by rewrite negb_involutive.
Qed.

(** A holder with all its ports. *)
Definition holds_ports (nb : Z) (h : holder) : Prop :=
  nodes_ok nb (node_bitmap h) /\
  exists arr, resv_port_array h = Some arr /\ Z.of_nat (length arr) = resv_port_cnt h.

Definition released (nb : Z) (st : ports) (f : Z -> Z -> bool) (h : holder) (st' : ports) : Prop :=
  same_range st st' /\ ports_ok nb st' (fun j n => f j n && negb (has h (j + port_resv_min st) n)).

(** The common part of the two release functions. *)
Lemma drop_released nb st f h arr bm (mk : option (list bitstr) -> ports) :
  ports_ok nb st f -> nodes_ok nb bm -> (forall n, 0 <= n < nb -> bs_mem bm n = negb (bs_mem (node_bitmap h) n)) ->
  resv_port_array h = Some arr -> Z.of_nat (length arr) = resv_port_cnt h ->
  (forall tb, port_resv_table (mk (Some tb)) = Some tb /\ port_resv_cnt (mk (Some tb)) = port_resv_cnt st /\ same_range st (mk (Some tb)) /\
     0 <= port_resv_cnt_jobpack (mk (Some tb)) < i32_max /\ -1 <= last_port_alloc_jobpack (mk (Some tb)) < i32_max /\
     -1 <= last_port_alloc (mk (Some tb)) < i32_max /\ hport (mk (Some tb)) < i32_max) ->
  wp (drop_ports st bm (resv_port_cnt h) arr) (fun table => released nb st f h (mk table)).
Proof.
  intros [(tb & Htb & Hlen & Hg) (Hr & Hp & Hmin & Hmax) _] Hbm Hm Harr Hl Hmk. rewrite <-Hl.
  eapply wp_mono; [apply (drop_ports_spec nb tb f bm st arr); [done|lia|done|done]|].
  intros table (tb' & -> & Hlen' & Hg'). destruct (Hmk tb') as (E1 & E2 & E3 & E4). pose proof E3 as [E5 E6].
  split; [done|]. constructor; [|lia|done]. exists tb'. split_and!; [done|lia|]. eapply grid_ext; [exact Hg'|].
  intros j n Hj Hn. cbv beta. unfold has. rewrite Harr, Hm by done. cbn [default from_option id]. by rewrite negb_andb.
Qed.

Lemma free_released nb st f h :
  ports_ok nb st f -> holds_ports nb h ->
  let ok '(st', h') := released nb st f h st' /\ resv_port_array h' = None /\
    forall n, 0 <= n < nb -> bs_mem (node_bitmap h') n = bs_mem (node_bitmap h) n in
  wp (resv_port_free st h) ok /\ wp (resv_port_jobpack_free st h) ok.
Proof.
  intros Hok (Hbm & arr & Harr & Hl) ok. pose proof Hok as [_ _ Hv].
  assert (Hgen : forall mk : option (list bitstr) -> ports,
    (forall tb, port_resv_table (mk (Some tb)) = Some tb /\ port_resv_cnt (mk (Some tb)) = port_resv_cnt st /\ same_range st (mk (Some tb)) /\
       0 <= port_resv_cnt_jobpack (mk (Some tb)) < i32_max /\ -1 <= last_port_alloc_jobpack (mk (Some tb)) < i32_max /\
       -1 <= last_port_alloc (mk (Some tb)) < i32_max /\ hport (mk (Some tb)) < i32_max) ->
    wp (bm ← bit_not (node_bitmap h); table ← drop_ports st bm (resv_port_cnt h) arr; bm ← bit_not bm;
        Ret (mk table, Holder (resv_port_cnt h) (resv_ports h) None bm)) ok).
  { intros mk Hmk. apply wp_bind. eapply wp_mono; [by apply (bit_not_mem nb)|]. intros b (Hb & Hm & Hback).
    apply wp_bind. eapply wp_mono; [by apply (drop_released nb st f h arr b mk)|]. intros table Hrel.
    apply wp_bind. eapply wp_mono; [exact Hback|]. intros b' [_ Hm']. apply wp_ret. done. }
  unfold resv_port_free, resv_port_jobpack_free. rewrite Harr. split.
  - apply (Hgen (fun t => with_table st t)). intros tb. done.
  - apply (Hgen (fun t => Ports t (port_resv_cnt st) (port_resv_min st) (port_resv_max st) 0 0 (last_port_alloc st) (hport st))).
    intros tb. simpl. split_and!; done || lia.
Qed.

(** ** Sequences of reservations and releases *)
Section runs.
Variables (text textb : list Z -> cstr) (nb : Z).

(** Requests of new holders, and releases of live ones by position. *)
Inductive port_op : Type :=
| AllocStep (h : holder)
| AllocPack (h : holder)
| FreeStep (k : nat)
| FreePack (k : nat).

(** The ports that pack jobs ask for; the controller adds them up in an [int], whether or
    not it grants them. *)
Definition op_pack (o : port_op) : Z := match o with AllocPack h => resv_port_cnt h | _ => 0 end.
Fixpoint pack_ports (l : list port_op) : Z := match l with [] => 0 | o :: l => op_pack o + pack_ports l end.

Definition op_ok (o : port_op) : Prop :=
  match o with AllocStep h | AllocPack h => asks nb h | _ => True end.

Definition enter_holder (live : list holder) (r : ports * holder * Z) : ports * list holder :=
  let '(st, h, rc) := r in (st, if rc =? SLURM_SUCCESS then live ++ [h] else live).

Definition run_port_op (o : port_op) (s : ports * list holder) : exec (ports * list holder) :=
  let '(st, live) := s in
  match o with
  | AllocStep h => enter_holder live <$> resv_port_alloc text st h
  | AllocPack h => enter_holder live <$> resv_port_alloc_jobpack textb st h
  | FreeStep k =>
      match live !! k with
      | Some h => '(st, _) ← resv_port_free st h; Ret (st, delete k live)
      | None => Ret (st, live)
      end
  | FreePack k =>
      match live !! k with
      | Some h => '(st, _) ← resv_port_jobpack_free st h; Ret (st, delete k live)
      | None => Ret (st, live)
      end
  end.
Fixpoint run_port_ops (l : list port_op) (s : ports * list holder) : exec (ports * list holder) :=
  match l with [] => Ret s | o :: l => s ← run_port_op o s; run_port_ops l s end.

Definition reserved (pmin : Z) (live : list holder) (j n : Z) : bool :=
  existsb (fun h => has h (j + pmin) n) live.

Record live_ok (pmin pmax : Z) (s : ports * list holder) : Prop := {
  lo_range : port_resv_min s.1 = pmin /\ port_resv_max s.1 = pmax;
  lo_table : ports_ok nb s.1 (reserved pmin s.2);
  lo_live : forall h, h ∈ s.2 -> holds_ports nb h /\ forall p n, has h p n = true -> pmin <= p <= pmax;
  lo_excl : forall i k h h' p n, s.2 !! i = Some h -> s.2 !! k = Some h' -> 0 <= n < nb ->
    has h p n = true -> has h' p n = true -> i = k
}.

Lemma has_spec h arr p n :
  resv_port_array h = Some arr -> has h p n = true <-> p ∈ arr /\ bs_mem (node_bitmap h) n = true.
Proof. intros E. unfold has. rewrite E. cbn [default from_option id]. by rewrite andb_true_iff, bool_decide_eq_true. Qed.

Lemma reserved_true pmin live j n :
  reserved pmin live j n = true <-> exists k h, live !! k = Some h /\ has h (j + pmin) n = true.
Proof.
  unfold reserved. rewrite existsb_exists. split.
  - intros (h & Hin & Hh). apply list_elem_of_In, list_elem_of_lookup in Hin as [k Hk]. eauto.
  - intros (k & h & Hk & Hh). exists h. split; [|done]. apply list_elem_of_In. by eapply list_elem_of_lookup_2.
Qed.

Lemma enter_live pmin pmax st live h extra r :
  live_ok pmin pmax (st, live) -> asks nb h -> outcome nb st (reserved pmin live) h extra r ->
  live_ok pmin pmax (enter_holder live r).
Proof.
  intros [[R1 R2] Hok Hl Hx] [Hbm Hn] Hout. simpl in *. destruct r as [[st' h'] rc]. destruct Hout as [[S1 S2] Hout].
  assert (Hsame : ports_ok nb st' (reserved pmin live) -> live_ok pmin pmax (st', live))
    by (intros; constructor; simpl; [lia|done|done|done]).
  destruct (_ <? _); [destruct Hout as (-> & _ & ?); by apply Hsame|].
  destruct (_ <? _); [destruct Hout as (-> & _ & ?); by apply Hsame|].
  destruct Hout as [-> (arr & Harr & Hbm' & Hcnt & Hlen & Hnd & Hfree & Hok')]. cbn [enter_holder Z.eqb SLURM_SUCCESS].
  rewrite R1 in *. rewrite R2 in *.
  assert (Hnew : forall k h2 p n, live !! k = Some h2 -> 0 <= n < nb -> has h2 p n = true -> has h' p n = true -> False).
  { intros k h2 p n Hk Hr H2 H'. apply (has_spec _ _ _ _ Harr) in H' as [Hp Hm]. rewrite Hbm' in Hm.
    destruct (Hfree p Hp) as [_ Hf]. specialize (Hf n Hr Hm).
    assert (reserved pmin live (p - pmin) n = true); [|congruence]. apply reserved_true. exists k, h2.
    by replace (p - pmin + pmin) with p by lia. }
  constructor; cbn [fst snd]; [lia| | |].
  - destruct Hok' as [(tb & E1 & E2 & E3) E4 E5]. constructor; [|done|done]. exists tb. split_and!; [done|done|].
    eapply grid_ext; [exact E3|]. intros j n _ _. unfold reserved. rewrite existsb_app. simpl. by rewrite orb_false_r.
  - intros h2 [Hin| ->%list_elem_of_singleton]%elem_of_app; [by apply Hl|]. split.
    + split; [by rewrite Hbm'|]. exists arr. split; [done|lia].
    + intros p n Hp. apply (has_spec _ _ _ _ Harr) in Hp as [Hp _]. by apply Hfree.
  - intros i k h1 h2 p n Hi Hk Hr H1 H2.
    apply lookup_app_Some in Hi as [Hi|[Hil Hi]]; apply lookup_app_Some in Hk as [Hk|[Hkl Hk]].
    + by eapply (Hx i k h1 h2 p n).
    + apply list_lookup_singleton_Some in Hk as [_ <-]. by destruct (Hnew i h1 p n).
    + apply list_lookup_singleton_Some in Hi as [_ <-]. by destruct (Hnew k h2 p n).
    + apply list_lookup_singleton_Some in Hi as [Hi _], Hk as [Hk _]. lia.
Qed.

Lemma delete_lookup_live (live : list holder) k i h :
  delete k live !! i = Some h -> exists i', live !! i' = Some h /\ i' <> k /\ (i' = i \/ i' = S i) /\ ((i < k)%nat <-> i' = i).
Proof.
  destruct (decide (i < k)%nat).
  - rewrite list_lookup_delete_lt by done. intros Hi. exists i. split_and!; [done|lia|auto|done].
  - rewrite list_lookup_delete_ge by lia. intros Hi. exists (S i). split_and!; [done|lia|auto|lia].
Qed.

Lemma release_live pmin pmax st live k h st' :
  live_ok pmin pmax (st, live) -> live !! k = Some h -> released nb st (reserved pmin live) h st' ->
  live_ok pmin pmax (st', delete k live).
Proof.
  intros [[R1 R2] Hok Hl Hx] Hk [[S1 S2] Hrel]. simpl in *. rewrite R1 in *.
  constructor; cbn [fst snd]; [lia| | |].
  - destruct Hrel as [(tb & E1 & E2 & E3) E4 E5]. constructor; [|done|done]. exists tb. split_and!; [done|done|].
    eapply grid_ext; [exact E3|]. intros j n _ Hn. cbv beta. apply eq_bool_prop_intro.
    rewrite !Is_true_true, andb_true_iff, negb_true_iff, !reserved_true. split.
    + intros (i & h2 & Hi & H2). apply delete_lookup_live in Hi as (i' & Hi' & Hne & _). split; [eauto|].
      destruct (has h (j + pmin) n) eqn:E; [|done]. exfalso. apply Hne. by eapply (Hx i' k h2 h).
    + intros [(i & h2 & Hi & H2) Hno]. assert (Hne : i <> k) by (intros ->; congruence).
      destruct (decide (i < k)%nat).
      * exists i, h2. by rewrite list_lookup_delete_lt.
      * exists (i - 1)%nat, h2. rewrite list_lookup_delete_ge by lia. by replace (S (i - 1)) with i by lia.
  - intros h2 Hin. apply list_elem_of_lookup in Hin as [i Hi]. apply delete_lookup_live in Hi as (i' & Hi' & _).
    apply Hl. by eapply list_elem_of_lookup_2.
  - intros i i2 h1 h2 p n Hi Hi2 Hr H1 H2.
    apply delete_lookup_live in Hi as (a & Ha & ? & ? & ?). apply delete_lookup_live in Hi2 as (b & Hb & ? & ? & ?).
    pose proof (Hx a b h1 h2 p n Ha Hb Hr H1 H2). lia.
Qed.

Lemma alloc_jobpack st h st' h' rc :
  (resv_port_alloc text st h = Ret (st', h', rc) -> port_resv_cnt_jobpack st' = port_resv_cnt_jobpack st) /\
  (resv_port_alloc_jobpack textb st h = Ret (st', h', rc) -> port_resv_cnt_jobpack st' = port_resv_cnt_jobpack st \/ port_resv_cnt_jobpack st' = port_resv_cnt_jobpack st + resv_port_cnt h).
Proof using.
  split.
  - unfold resv_port_alloc. destruct (i32 _) as [w| |]; [|done..]. cbn [mbind exec_bind]. destruct (_ <? w); [by intros [= <-]|].
    destruct (find_ports _ _ _ _ _) as [[[la inx] arr]| |]; [|done..]. cbn [mbind exec_bind]. destruct (inx <? _); [by intros [= <-]|].
    destruct (take_ports _ _ _ _ _) as [[t a]| |]; [|done..]. cbn [mbind exec_bind]. by intros [= <-].
  - unfold resv_port_alloc_jobpack. destruct (_ <? _); [intros [= <-]; by left|]. destruct (i32 _) as [w| |] eqn:Ew; [|done..]. cbn [mbind exec_bind].
    assert (w = port_resv_cnt_jobpack st + resv_port_cnt h) as -> by (unfold i32 in Ew; case_match; congruence).
    destruct (find_ports _ _ _ _ _) as [[[la inx] arr]| |]; [|done..]. cbn [mbind exec_bind]. destruct (inx <? _); [intros [= <-]; by right|].
    destruct (take_ports _ _ _ _ _) as [[t a]| |]; [|done..]. cbn [mbind exec_bind]. intros [= <-]. by right.
Qed.

Lemma free_jobpack st h st' h' :
  (resv_port_free st h = Ret (st', h') -> port_resv_cnt_jobpack st' = port_resv_cnt_jobpack st) /\
  (resv_port_jobpack_free st h = Ret (st', h') -> port_resv_cnt_jobpack st' = port_resv_cnt_jobpack st \/ port_resv_cnt_jobpack st' = 0).
Proof using.
  unfold resv_port_free, resv_port_jobpack_free. split; (destruct (resv_port_array h) as [arr|]; [|intros [= <-]; auto]);
    (destruct (bit_not _) as [bm| |]; [|done..]); cbn [mbind exec_bind]; (destruct (drop_ports _ _ _ _) as [t| |]; [|done..]); cbn [mbind exec_bind];
    (destruct (bit_not bm) as [bm'| |]; [|done..]); cbn [mbind exec_bind]; intros [= <-]; auto.
Qed.

(** The count for pack jobs grows by what they ask for. *)
Lemma run_port_op_jobpack o s s' : 0 <= port_resv_cnt_jobpack s.1 -> op_ok o -> run_port_op o s = Ret s' ->
  port_resv_cnt_jobpack s'.1 <= port_resv_cnt_jobpack s.1 + op_pack o.
Proof using.
  intros H0 Ho. destruct s as [st live]. cbn [fst] in *. destruct o as [h|h|k|k]; cbn [run_port_op op_pack op_ok] in *.
  - destruct (resv_port_alloc text st h) as [[[st' h'] rc]| |] eqn:E; [|done..]. apply alloc_jobpack in E. intros [= <-]. simpl. lia.
  - destruct (resv_port_alloc_jobpack textb st h) as [[[st' h'] rc]| |] eqn:E; [|done..]. apply alloc_jobpack in E. destruct Ho as [_ Ho]. intros [= <-]. simpl. lia.
  - destruct (live !! k) as [h|]; [|intros [= <-]; simpl; lia]. destruct (resv_port_free st h) as [[st' h']| |] eqn:E; [|done..]. apply free_jobpack in E. intros [= <-]. simpl. lia.
  - destruct (live !! k) as [h|]; [|intros [= <-]; simpl; lia]. destruct (resv_port_jobpack_free st h) as [[st' h']| |] eqn:E; [|done..]. apply free_jobpack in E. intros [= <-]. simpl. lia.
Qed.

Lemma run_port_op_live pmin pmax s o :
  live_ok pmin pmax s -> op_ok o -> port_resv_cnt_jobpack s.1 + 65536 <= i32_max -> port_resv_cnt_jobpack s.1 + op_pack o < i32_max ->
  wp (run_port_op o s) (live_ok pmin pmax).
Proof using.
  intros Hlo Ho Hb1 Hb2. destruct s as [st live]. pose proof Hlo as [_ Hok Hl _]. cbn [fst snd] in *.
  assert (Hmap : forall e h extra, asks nb h -> wp e (outcome nb st (reserved pmin live) h extra) ->
    wp (enter_holder live <$> e) (live_ok pmin pmax)).
  { intros e h extra Ha He. destruct e as [r| |]; [|done|done]. cbn [fmap exec_fmap wp] in *. by eapply enter_live. }
  assert (Hrel : forall (e : exec (ports * holder)) k h, live !! k = Some h -> wp e (fun '(st', _) => released nb st (reserved pmin live) h st') ->
    wp ('(st, _) ← e; Ret (st, delete k live)) (live_ok pmin pmax)).
  { intros e k h Hk He. apply wp_bind. eapply wp_mono; [exact He|]. intros [st' h'] Hr. apply wp_ret. by eapply release_live. }
  destruct o as [h|h|k|k]; cbn [run_port_op op_ok op_pack] in *.
  - eapply Hmap; [done|]. apply (alloc_outcome text textb); [done|done|]. destruct Ho as [_ Ho]. lia.
  - eapply Hmap; [done|]. apply (alloc_outcome text textb); [done|done|lia].
  - destruct (live !! k) as [h|] eqn:Hk; [|by apply wp_ret]. eapply Hrel; [done|].
    eapply wp_mono; [apply (free_released nb st (reserved pmin live) h Hok), Hl; by eapply list_elem_of_lookup_2|]. by intros [st' h'] [Hr _].
  - destruct (live !! k) as [h|] eqn:Hk; [|by apply wp_ret]. eapply Hrel; [done|].
    eapply wp_mono; [apply (free_released nb st (reserved pmin live) h Hok), Hl; by eapply list_elem_of_lookup_2|]. by intros [st' h'] [Hr _].
Qed.

Lemma op_pack_nonneg o : op_ok o -> 0 <= op_pack o.
Proof using. destruct o as [h|h|k|k]; cbn; [lia|intros [_ ?]; lia|lia|lia]. Qed.
Lemma pack_ports_nonneg l : Forall op_ok l -> 0 <= pack_ports l.
Proof using. induction 1 as [|o l Ho _ IH]; cbn [pack_ports]; [lia|]. pose proof (op_pack_nonneg o Ho). lia. Qed.

Lemma run_port_ops_live pmin pmax l : forall s,
  live_ok pmin pmax s -> Forall op_ok l -> port_resv_cnt_jobpack s.1 + pack_ports l + 65536 <= i32_max -> wp (run_port_ops l s) (live_ok pmin pmax).
Proof using.
  induction l as [|o l IH]; intros s Hs Hl Hb; [by apply wp_ret|]. apply Forall_cons in Hl as [Ho Hl].
  cbn [run_port_ops pack_ports] in *. pose proof (op_pack_nonneg o Ho). pose proof (pack_ports_nonneg l Hl). pose proof (po_vars _ _ _ (lo_table _ _ _ Hs)) as [Hj _].
  pose proof (run_port_op_live pmin pmax s o Hs Ho ltac:(lia) ltac:(lia)) as Hw. apply wp_inv in Hw as (s' & E & Hs').
  rewrite E. cbn [mbind exec_bind]. pose proof (run_port_op_jobpack o s s' ltac:(lia) Ho E). apply IH; [done|done|lia].
Qed.
End runs.

(** ** Recovery *)
Lemma fill_ports_spec l : forall pre arr,
  Forall (fun p => 0 < p < 2 ^ 31) l -> Z.of_nat (length pre + length l) < 65536 -> length arr = length l ->
  fill_ports (fmt_d <$> l) (pre ++ arr) (Z.of_nat (length pre)) = Ret (pre ++ l, Z.of_nat (length pre + length l)).
Proof.
  induction l as [|p l IH]; intros pre arr HF Hmax Hlen; cbn [fmap list_fmap fill_ports].
  { destruct arr; [|done]. by rewrite Nat.add_0_r. }
  apply Forall_cons in HF as [Hp HF]. destruct arr as [|a arr]; [done|]. simpl in Hlen, Hmax.
  rewrite atoi_fmt_d by lia. rewrite (proj2 (Z.ltb_lt 0 p)) by lia.
  unfold aset. rewrite (proj2 (andb_true_iff _ _)) by (rewrite length_app; simpl; lia).
  cbn [mbind exec_bind]. rewrite Nat2Z.id, insert_app_r_alt, Nat.sub_diag by lia. cbn [insert list_insert].
  unfold u16. rewrite Z.mod_small by lia. specialize (IH (pre ++ [p]) arr HF).
  rewrite length_app in IH. simpl in IH. replace (Z.of_nat (length pre) + 1) with (Z.of_nat (length pre + 1)) by lia.
  rewrite <-!app_assoc in IH. simpl in IH. rewrite IH by lia. do 2 f_equal. simpl. lia.
Qed.

(** Marking the ports of a step whose port array is known. *)
Lemma mark_ports nb st f h arr :
  ports_ok nb st f -> nodes_ok nb (node_bitmap h) -> resv_port_array h = Some arr ->
  Z.of_nat (length arr) = resv_port_cnt h ->
  wp (for_while (fun _ => true)
    (fun i table =>
       match resv_port_array h with
       | None => Fault
       | Some arr =>
           p ← aget arr i;
           if (p <? port_resv_min st) || (port_resv_max st <? p) then Ret table else
           t ← table_get table (p - port_resv_min st);
           t ← bit_or t (node_bitmap h);
           table_set table (p - port_resv_min st) t
       end)
    (Z.to_nat (resv_port_cnt h)) 0 (port_resv_table st))
    (fun table => ports_ok nb (with_table st table) (fun j n => f j n || has h (j + port_resv_min st) n)).
Proof.
  intros [(tb & Htb & Hlen & Hg) Hr Hv] Hbm Harr Hl. rewrite Harr, <-Hl, Nat2Z.id, Htb.
  set (mem := fun i j => bool_decide (j + port_resv_min st ∈ take (Z.to_nat i) arr)).
  eapply (wp_for (fun i table => exists tb', table = Some tb' /\ length tb' = length tb /\
    grid nb tb' (fun j n => f j n || (mem i j && bs_mem (node_bitmap h) n)))).
  - exists tb. split_and!; [done|done|]. eapply grid_ext; [exact Hg|]. intros j n _ _. unfold mem.
    rewrite bool_decide_eq_false_2 by apply not_elem_of_nil. apply orb_false_r.
  - intros i table Hi (tb' & -> & Hlen' & Hg') _. rewrite Z.add_0_l in Hi.
    destruct (lookup_lt_is_Some_2 arr (Z.to_nat i)) as [p Hp]; [lia|].
    rewrite (aget_lookup _ i p) by (done || lia). cbn [mbind exec_bind].
    assert (Hsnoc : forall j, mem (i + 1) j = mem i j || (j =? p - port_resv_min st)).
    { intros j. unfold mem. replace (Z.to_nat (i + 1)) with (S (Z.to_nat i)) by lia. rewrite (take_S_r _ _ _ Hp).
      destruct (Z.eqb_spec j (p - port_resv_min st)) as [->|Hne].
      - rewrite orb_true_r. apply bool_decide_eq_true_2, elem_of_app. right. apply list_elem_of_singleton. lia.
      - rewrite orb_false_r. apply bool_decide_ext. rewrite elem_of_app, list_elem_of_singleton. split; [|auto].
        intros [?|?]; [done|lia]. }
    destruct (_ || _) eqn:Hrange.
    + apply wp_ret. exists tb'. split_and!; [done|done|]. eapply grid_ext; [exact Hg'|]. intros j n Hj Hn. cbv beta.
      by rewrite Hsnoc, (proj2 (Z.eqb_neq j (p - port_resv_min st))), orb_false_r by lia.
    + eapply wp_mono; [apply (table_op_spec nb tb' _ (node_bitmap h) (p - port_resv_min st) bit_or orb bit_or_spec Hg' Hbm); lia|].
      intros table (tb2 & -> & Hlen2 & Hg2). exists tb2. split_and!; [done|lia|].
      eapply grid_ext; [exact Hg2|]. intros j n Hj Hn. cbv beta. rewrite Hsnoc.
      destruct (j =? p - port_resv_min st), (mem i j), (f j n), (bs_mem (node_bitmap h) n); reflexivity.
  - intros i table Hi (tb' & -> & Hlen' & Hg') Hend. destruct Hend as [->|]; [|done]. constructor; [|done|done].
    exists tb'. split; [done|]. cbn [port_resv_cnt with_table]. split; [lia|]. eapply grid_ext; [exact Hg'|].
    intros j n _ _. unfold has, mem. rewrite Harr. cbn [default from_option id]. by rewrite Z.add_0_l, Nat2Z.id, firstn_all.
Qed.

(** Three nodes, and the ports 12000 to 12003. *)
Definition no_ports : ports := Ports None 0 0 0 0 0 0 0.
Definition params : cstr := PORTS_KEY ++ fmt_d 12000 ++ [45] ++ fmt_d 12003.
Definition four_ports : ports := Ports (Some (replicate 4 (sample 3 0))) 4 12000 12003 0 0 0 0.
Definition on_nodes (cnt w : Z) : holder := Holder cnt None None (sample 3 w).

Lemma four_ports_configured :
  reserve_port_config (fun _ => None) 3 (Some params) no_ports [] = Ret (four_ports, [], SLURM_SUCCESS).
Proof. by vm_compute. Qed.

Lemma four_ports_ok : ports_ok 3 four_ports (fun _ _ => false).
Proof.
  constructor; [|by vm_compute|by vm_compute]. eexists. split; [done|]. split; [done|].
  intros j t Ht. apply list_elem_of_lookup_2, elem_of_replicate in Ht as [-> _].
  split; [by apply sample_wf|]. split; [done|]. intros n Hn.
  assert (n = 0 \/ n = 1 \/ n = 2) as Hc by lia. by destruct_or! Hc; subst.
Qed.

Lemma on_nodes_asks cnt w : 0 < cnt < 65536 -> 0 <= w < 8 -> asks 3 (on_nodes cnt w).
Proof. intros Hc Hw. split; [|done]. split; [apply sample_wf; lia|done]. Qed.

Lemma port_allocation_complete_witness :
  wp (resv_port_alloc (fun _ => []) four_ports (on_nodes 2 5))
    (outcome 3 four_ports (fun _ _ => false) (on_nodes 2 5) 0) /\
  wp (resv_port_alloc (fun _ => []) four_ports (on_nodes 2 5)) (fun '(_, h, rc) =>
    rc = SLURM_SUCCESS /\ resv_port_array h = Some [12001; 12002]).
Proof.
  split; [|by vm_compute].
  refine (proj1 (port_allocation_complete _ (fun _ => []) 3 four_ports (fun _ _ => false) (on_nodes 2 5) four_ports_ok _ _)); [|reflexivity].
  apply on_nodes_asks; lia.
Defined.

(** C18: port reservations are exclusive.  Whatever steps and pack jobs reserve
    and release, in any order, starting from a configured table: no port is
    reserved twice on a node, and the table marks exactly the ports of the
    holders that are alive on exactly their nodes.  The scope: the ports that the pack jobs of the
    sequence ask for do not add up to the largest [int], less 65536; they
    are counted in an [int] also when they are refused, and past the largest one the
    count overflows ([pack_count_overflows]). *)
Theorem port_reservations_exclusive (text textb : list Z -> cstr) (nb : Z) (st : ports) (l : list port_op) :
  ports_ok nb st (fun _ _ => false) -> Forall (op_ok nb) l -> port_resv_cnt_jobpack st + pack_ports l + 65536 <= i32_max ->
  wp (run_port_ops text textb l (st, [])) (fun '(st', live) =>
    (forall i k h h' p n, live !! i = Some h -> live !! k = Some h' -> 0 <= n < nb ->
       has h p n = true -> has h' p n = true -> i = k) /\
    exists tb, port_resv_table st' = Some tb /\ Z.of_nat (length tb) = port_resv_max st - port_resv_min st + 1 /\
      forall j t n, tb !! j = Some t -> 0 <= n < nb ->
        bs_mem t n = true <-> exists k h, live !! k = Some h /\ has h (Z.of_nat j + port_resv_min st) n = true).
Proof.
  intros Hok Hl Hb. eapply wp_mono; [apply (run_port_ops_live text textb nb (port_resv_min st) (port_resv_max st))|].
  - constructor; cbn [fst snd]; [done|exact Hok| |]; [intros h Hh; by apply not_elem_of_nil in Hh|by intros i].
  - exact Hl.
  - exact Hb.
  - intros [st' live] [[R1 R2] [(tb & Htb & Hlen & Hg) [Hr _] _] _ Hx]. cbn [fst snd] in *.
    split; [exact Hx|]. exists tb. split; [done|]. split; [lia|]. intros j t n Ht Hn.
    destruct (Hg j t Ht) as (_ & _ & Hm). rewrite Hm by done. apply reserved_true.
Qed.

Lemma port_reservations_exclusive_witness :
  wp (run_port_ops (fun _ => []) (fun _ => [])
        [AllocStep (on_nodes 2 5); AllocPack (on_nodes 2 4); FreeStep 0; AllocStep (on_nodes 1 6)] (four_ports, []))
    (fun '(st', live) => exists tb, port_resv_table st' = Some tb /\ Z.of_nat (length tb) = 4) /\
  wp (run_port_ops (fun _ => []) (fun _ => [])
        [AllocStep (on_nodes 2 5); AllocPack (on_nodes 2 4); FreeStep 0; AllocStep (on_nodes 1 6)] (four_ports, []))
    (fun '(_, live) => (resv_port_array <$> live) = [Some [12003; 12000]; Some [12001]]).
Proof.
  split; [|by vm_compute].
  eapply wp_mono; [apply (port_reservations_exclusive _ _ 3 four_ports); [exact four_ports_ok| |]|].
  - repeat constructor; apply sample_wf || simpl; lia.
  - by vm_compute.
  - intros [st' live] [_ (tb & H1 & H2 & _)]. exists tb. split; [exact H1|exact H2].
Defined.

(** releasing what was just reserved restores the table, for steps and for
    pack jobs. *)
Theorem release_undoes_reservation (text textb : list Z -> cstr) (nb : Z) (st : ports) (f : Z -> Z -> bool) (h : holder) :
  ports_ok nb st f -> asks nb h -> resv_port_cnt h + port_resv_cnt_jobpack st <= port_resv_cnt st ->
  resv_port_cnt h <= free_ports nb st f h ->
  wp ('(st, h, _) ← resv_port_alloc text st h; resv_port_free st h) (fun '(st', h') =>
    ports_ok nb st' f /\ resv_port_array h' = None) /\
  wp ('(st, h, _) ← resv_port_alloc_jobpack textb st h; resv_port_jobpack_free st h) (fun '(st', h') =>
    ports_ok nb st' f /\ resv_port_array h' = None).
Proof.
  intros Hok Hask Hlim Hfree. pose proof (po_range _ _ _ Hok) as (Hr1 & Hr2 & Hr3 & Hr4). destruct (alloc_outcome text textb nb st f h Hok Hask ltac:(lia)) as [H1 H2].
  assert (Hundo : forall extra st1 h1 rc st2, resv_port_cnt h + extra <= port_resv_cnt st ->
    outcome nb st f h extra (st1, h1, rc) ->
    ports_ok nb st1 (fun j n => f j n || has h1 (j + port_resv_min st) n) /\ holds_ports nb h1 /\
    (released nb st1 (fun j n => f j n || has h1 (j + port_resv_min st) n) h1 st2 -> ports_ok nb st2 f)).
  { intros extra st1 h1 rc st2 Hle [[R1 R2] Hout]. rewrite (proj2 (Z.ltb_ge _ _)), (proj2 (Z.ltb_ge _ _)) in Hout by lia.
    destruct Hout as [_ (arr & Harr & Hbm & Hcnt & Hlen & Hnd & Hfr & Hok1)]. split; [done|]. split.
    - split; [rewrite Hbm; apply Hask|]. exists arr. split; [done|lia].
    - intros [_ [(tb & E1 & E2 & E3) E4 E5]]. constructor; [|done|done]. exists tb. split_and!; [done|done|].
      eapply grid_ext; [exact E3|]. intros j n Hj Hn. cbv beta. rewrite R1.
      destruct (has h1 (j + port_resv_min st) n) eqn:Eh; [|by rewrite orb_false_r, andb_true_r].
      apply (has_spec _ _ _ _ Harr) in Eh as [Hp Hm]. rewrite Hbm in Hm. destruct (Hfr _ Hp) as [_ Hf].
      specialize (Hf n Hn Hm). replace (j + port_resv_min st - port_resv_min st) with j in Hf by lia. by rewrite Hf. }
  assert (0 <= port_resv_cnt_jobpack st) by apply (po_vars _ _ _ Hok). split; apply wp_bind.
  - eapply wp_mono; [exact H1|]. intros [[st1 h1] rc] Hout. destruct (Hundo _ st1 h1 rc st1 Hlim Hout) as (Hok1 & Hh1 & _).
    eapply wp_mono; [apply (free_released nb st1 _ h1 Hok1 Hh1)|]. intros [st2 h2] (Hrel & Hn & _). split; [|done].
    by apply (Hundo _ st1 h1 rc st2 Hlim Hout).
  - eapply wp_mono; [exact H2|]. intros [[st1 h1] rc] Hout. assert (Hlim0 : resv_port_cnt h + 0 <= port_resv_cnt st) by lia.
    destruct (Hundo _ st1 h1 rc st1 Hlim0 Hout) as (Hok1 & Hh1 & _).
    eapply wp_mono; [apply (free_released nb st1 _ h1 Hok1 Hh1)|]. intros [st2 h2] (Hrel & Hn & _). split; [|done].
    by apply (Hundo _ st1 h1 rc st2 Hlim0 Hout).
Qed.

Lemma release_undoes_reservation_witness :
  wp ('(st, h, _) ← resv_port_alloc (fun _ => []) four_ports (on_nodes 2 5); resv_port_free st h) (fun '(st', h') =>
    ports_ok 3 st' (fun _ _ => false) /\ resv_port_array h' = None).
Proof.
  refine (proj1 (release_undoes_reservation (fun _ => []) (fun _ => []) 3 four_ports (fun _ _ => false) (on_nodes 2 5)
    four_ports_ok (on_nodes_asks 2 5 _ _) _ _)); (lia || (vm_compute; congruence)).
Defined.

(** A restarted controller recovers the reservation of a step from the text
    of its ports.  When the host list code reads the printed ports back as
    their decimal numbers, in some order, the port array is rebuilt with the
    same ports and the table marks them on the nodes of the step; the ports it
    had already marked stay. *)
Lemma recover_reservation (hosts : cstr -> option (list cstr)) (nb : Z) (st : ports) (f : Z -> Z -> bool)
    (h : holder) (text : cstr) (arr printed : list Z) :
  ports_ok nb st f -> nodes_ok nb (node_bitmap h) ->
  resv_port_array h = None -> resv_ports h = Some text -> text <> [] ->
  arr <> [] -> Z.of_nat (length arr) = resv_port_cnt h -> resv_port_cnt h < 65536 ->
  Forall (fun p => 0 < p < 2 ^ 31) arr ->
  printed ≡ₚ arr -> hosts (91 :: text ++ [93]) = Some (fmt_d <$> printed) ->
  wp (make_step_resv hosts st h) (fun '(st', h') =>
    resv_port_cnt h' = resv_port_cnt h /\ resv_ports h' = resv_ports h /\
    (exists arr', resv_port_array h' = Some arr' /\ arr' ≡ₚ arr) /\
    ports_ok nb st' (fun j n => f j n ||
      (bool_decide (j + port_resv_min st ∈ arr) && bs_mem (node_bitmap h) n))).
Proof.
  intros Hok Hbm Hna Htext Hne Harr Hlen Hmax HF Hperm Hhosts.
  assert (Hpl : length printed = length arr) by (by rewrite Hperm).
  assert (Hpos : 0 < resv_port_cnt h) by (destruct arr; [done|simpl in Hlen; lia]).
  unfold make_step_resv. rewrite (proj2 (Z.eqb_neq (resv_port_cnt h) 0)), Htext by lia.
  rewrite bool_decide_eq_false_2 by done. cbn [orb]. rewrite bool_decide_eq_true_2 by done.
  unfold rebuild_port_array. rewrite Htext. cbn [default from_option id]. rewrite Hhosts.
  pose proof (fill_ports_spec printed [] (replicate (Z.to_nat (resv_port_cnt h)) 0)) as Hfill.
  cbn [app length] in Hfill. rewrite Nat.add_0_l in Hfill.
  change (Z.of_nat 0) with 0 in Hfill. rewrite Hfill; cycle 1.
  { by rewrite Hperm. }
  { lia. }
  { rewrite length_replicate. lia. }
  cbn [mbind exec_bind]. replace (Z.of_nat (length printed)) with (resv_port_cnt h) by lia.
  rewrite (proj2 (Z.eqb_neq (resv_port_cnt h) 0)) by lia.
  set (h' := Holder (resv_port_cnt h) (Some text) (Some printed) (node_bitmap h)).
  apply wp_bind. eapply wp_mono; [apply (mark_ports nb st f h' printed Hok Hbm eq_refl); simpl; lia|].
  intros table Ht. apply wp_ret. split; [done|]. split; [done|]. split; [by exists printed|].
  destruct Ht as [(tb & E1 & E2 & E3) E4 E5]. constructor; [|done|done]. exists tb. split_and!; [done|done|].
  eapply grid_ext; [exact E3|]. intros j n _ _. unfold has. cbn [resv_port_array h' default from_option id node_bitmap].
  do 2 f_equal. apply bool_decide_ext. by rewrite Hperm.
Qed.

(** ** Divergences *)

(** A step whose port text cannot be parsed keeps its port count but has no
    port array: marking its ports reads through a null pointer. *)
Lemma invalid_ports_text_faults :
  make_step_resv (fun _ => None) four_ports (Holder 1 (Some [63]) None (sample 3 5)) = Fault.
Proof. by vm_compute. Qed.

(** A pack job that is refused stays counted: a later step is told that its
    three ports do not exist although all four are free on its node. *)
Lemma refused_pack_stays_counted :
  wp ('(st, _, _) ← resv_port_alloc (fun _ => []) four_ports (on_nodes 3 1);
      '(st, _, rc) ← resv_port_alloc_jobpack (fun _ => []) st (on_nodes 2 1);
      '(_, _, rc') ← resv_port_alloc (fun _ => []) st (on_nodes 3 2);
      Ret (rc, rc')) (eq (ESLURM_PORTS_BUSY, ESLURM_PORTS_INVALID)).
Proof. by vm_compute. Qed.

(** The count of an [int] for pack jobs overflows: each refused pack job adds to it. *)
Lemma pack_count_overflows :
  wp (resv_port_alloc (fun _ => []) four_ports (on_nodes 3 1)) (fun '(st, _, _) =>
    let st n := Ports (port_resv_table st) (port_resv_cnt st) (port_resv_min st) (port_resv_max st) n
                  (last_port_alloc_jobpack st) (last_port_alloc st) (hport st) in
    wp (resv_port_alloc_jobpack (fun _ => []) (st (i32_max - 3)) (on_nodes 2 1)) (fun '(st', _, rc) => rc = ESLURM_PORTS_BUSY /\ port_resv_cnt_jobpack st' = i32_max - 1) /\
    resv_port_alloc_jobpack (fun _ => []) (st (i32_max - 1)) (on_nodes 2 1) = Fault).
Proof. by vm_compute. Qed.

(** Releasing one pack job resets the count of all of them. *)
Lemma pack_release_resets_count :
  wp ('(st, h, _) ← resv_port_alloc_jobpack (fun _ => []) four_ports (on_nodes 2 1);
      '(st, _, _) ← resv_port_alloc_jobpack (fun _ => []) st (on_nodes 2 2);
      '(st, _) ← resv_port_jobpack_free st h;
      Ret (port_resv_cnt_jobpack st)) (eq 0).
Proof. by vm_compute. Qed.

(** Without pack jobs a released port is not the next one to be used; once a
    pack job has reserved ports the search for the ports of a step restarts at
    the same place each time, and it is. *)
Definition twice (st : ports) : exec (option (list Z) * option (list Z)) :=
  '(st, a, _) ← resv_port_alloc (fun _ => []) st (on_nodes 1 1);
  '(st, _) ← resv_port_free st a;
  '(_, b, _) ← resv_port_alloc (fun _ => []) st (on_nodes 1 1);
  Ret (resv_port_array a, resv_port_array b).
Lemma round_robin_lost :
  twice four_ports = Ret (Some [12001], Some [12002]) /\
  wp ('(st, _, _) ← resv_port_alloc_jobpack (fun _ => []) four_ports (on_nodes 2 4); twice st)
    (eq (Some [12003], Some [12003])).
Proof. by vm_compute. Qed.
