(* ===== verification/PortRestart.v ===== *)
(** * Reserved ports as text: src/slurmctld/port_mgr.c with src/common/hostlist.c

    The text that [resv_port_alloc] keeps of the reserved ports and
    [_rebuild_port_array] reads after a restart, with the host list code in
    place of the parameters of [PortMgr]. *)

From stdpp Require Import list.
From S2P Require Import Prelude Bitstring BitstringFacts StepLayout NatCmp Hostlist HostlistParse HostlistPrint HostlistFacts HostlistOps HostlistSeq HostlistCoalesce HostlistOrder HostlistNames PortMgr PortMgrFacts PortMgrProps.

Local Open Scope Z_scope.
Local Open Scope slurm_scope.

Section text.
Context (env : cluster_env) (fill : Z -> cstr) (fuel : nat).

(** The list of the ports, one host per port, before it is sorted. *)
Fixpoint push_ports (hl : hostlist) (arr : list Z) : exec hostlist :=
  match arr with
  | [] => Ret hl
  | p :: arr => '(_, hl) ← hostlist_push_host env hl (fmt_d p); push_ports hl arr
  end.

(** "get the ranged string with no brackets on it". *)
Definition port_string (g : HostlistPrint.grid) (arr : list Z) : exec (cstr * HostlistPrint.grid) :=
  hl ← push_ports hostlist_new arr;
  hl ← hostlist_sort fuel hl;
  hostlist_ranged_string_xmalloc_dims fill env g hl (slurmdb_setup_cluster_name_dims env) false.

(** [while ((tmp_char = hostlist_shift(hl)))]. *)
Fixpoint shift_all (rounds : nat) (hl : hostlist) : exec (list cstr) :=
  match rounds with
  | O => NoFuel
  | S rounds =>
      '(s, hl) ← hostlist_shift env hl;
      match s with Some s => l ← shift_all rounds hl; Ret (s :: l) | None => Ret [] end
  end.

Definition port_names (s : cstr) : exec (option (list cstr)) :=
  hl ← hostlist_create env fuel s;
  match hl with None => Ret None | Some hl => l ← shift_all (S (Z.to_nat (hl_nhosts hl))) hl; Ret (Some l) end.
End text.

Definition ports_text (env : cluster_env) (fill : Z -> cstr) (fuel : nat) (g : HostlistPrint.grid) (arr : list Z) : cstr :=
  (value ([], g) (port_string env fill fuel g arr)).1.
Definition ports_hosts (env : cluster_env) (fuel : nat) (s : cstr) : option (list cstr) := value None (port_names env fuel s).

(** ** Port numbers as names *)

Lemma port_name p : 0 < p < 2 ^ 31 -> stem (fmt_d p) = [] /\ trail (fmt_d p) = fmt_d p /\ fmt_d p <> [] /\ num (fmt_d p) = p /\
  strlen (fmt_d p) = dg p /\ name_ok (fmt_d p) /\ short (fmt_d p).
Proof.
  intros Hp. assert (E : fmt_d p = fmt_lu 0 p).
  { unfold fmt_d. rewrite (proj2 (Z.ltb_ge p 0)) by lia. done. }
  rewrite E. pose proof (fmt_lu_digits 0 p ltac:(lia)) as Hd. destruct (trail_app [] (fmt_lu 0 p)) as [H1 H2]; [done|done|]. simpl in H1, H2.
  pose proof (dg_int p ltac:(lia)). pose proof (dg_pos p ltac:(lia)).
  assert (Hl : strlen (fmt_lu 0 p) = dg p) by (rewrite strlen_fmt_lu by lia; unfold ewidth; lia).
  split_and!; try done; [apply fmt_lu_nonempty; lia|apply num_fmt_lu; lia| |unfold short; lia].
  split_and!; [by apply digits_are_plain|rewrite H2, num_fmt_lu; lia|lia].
Qed.

Lemma port_numbers l : Forall (fun p => 0 < p < 2 ^ 31) l -> plain_numbers (fmt_d <$> l).
Proof.
  intros H. apply Forall_fmap. eapply Forall_impl; [exact H|]. simpl. intros p Hp. destruct (port_name p Hp) as (E1 & E2 & E3 & E4 & E5 & _).
  rewrite E2, E4, E5. split_and!; try done. unfold ewidth. pose proof (dg_pos p ltac:(lia)). lia.
Qed.

Lemma numbers_uniform l : plain_numbers l -> uniform l.
Proof. intros H. exists (fun _ => 1). eapply Forall_impl; [exact H|]. by intros s (_ & _ & E) _. Qed.

Section facts.
Context (env : cluster_env) (E1 : one_dim env).

Lemma push_ports_seq arr : forall hl l, is_seq hl l -> Forall (fun p => 0 < p < 2 ^ 31) arr -> Z.of_nat (length l + length arr) <= i32_max ->
  wp (push_ports env hl arr) (fun hl' => is_seq hl' (l ++ (fmt_d <$> arr))).
Proof using E1.
  induction arr as [|p arr IH]; intros hl l Hs Hp Hlen; [by rewrite app_nil_r|]. apply Forall_cons in Hp as [Hp Hps]. simpl in Hlen.
  destruct (port_name p Hp) as (_ & _ & _ & _ & _ & Hok & Hsh). cbn [push_ports]. apply wp_bind.
  eapply wp_mono; [apply (push_host_seq env E1 hl l); [done|done|done|lia]|]. intros [rc hl'] [_ Hs'].
  eapply wp_mono; [apply (IH _ _ Hs' Hps); rewrite length_app; simpl; lia|]. intros hl2. by rewrite <-app_assoc.
Qed.

Lemma shift_all_spec rounds : forall hl rs, hl_rep hl rs -> (length (rhosts rs) < rounds)%nat -> shift_all env rounds hl = Ret (rhosts rs).
Proof using E1.
  induction rounds as [|k IH]; intros hl rs R Hk; [lia|]. cbn [shift_all].
  destruct (wp_inv _ _ (shift_spec env E1 hl rs 0 ltac:(by left) R)) as ([[s|] hl'] & Es & rs' & R' & H); unfold hostlist_shift; rewrite Es; simpl.
  - destruct H as [H _]. rewrite H in Hk |- *. rewrite (IH hl' rs') by (done || simpl in Hk; lia). done.
  - by destruct H as [-> _].
Qed.

(** The text of reserved ports is read back as their numbers in some order. *)
Lemma ports_read_back fill fuel g arr : (forall n, 0 <= n -> Z.of_nat (length (fill n)) = n) -> arr <> [] ->
  Forall (fun p => 0 < p < 2 ^ 31) arr -> Z.of_nat (length arr) <= MAX_RANGE -> (sort_rounds (Z.of_nat (length arr)) <= fuel)%nat ->
  exists text printed, port_string env fill fuel g arr = Ret (text, g) /\ text <> [] /\ printed ≡ₚ arr /\
    port_names env fuel (91 :: text ++ [93]) = Ret (Some (fmt_d <$> printed)).
Proof using E1.
  intros Hfill Hne Hp Hlen Hfuel. unfold MAX_RANGE in Hlen.
  destruct (wp_inv _ _ (push_ports_seq arr hostlist_new [] is_seq_new Hp ltac:(simpl; unfold i32_max; lia))) as (hl & Eh & Hs). simpl in Hs.
  destruct (sort_seq fuel hl _ Hs (numbers_uniform _ (port_numbers _ Hp)) ltac:(by rewrite length_fmap)) as (hl' & l' & Esort & Hs' & Hperm & _).
  destruct (Permutation_map_inv fmt_d arr Hperm) as (printed & -> & Hpr). 
  assert (Hp' : Forall (fun p => 0 < p < 2 ^ 31) printed) by (by rewrite <-Hpr).
  assert (Hne' : printed <> []) by (intros ->; by apply Hne, Permutation_nil).
  assert (Hl : length printed = length arr) by (by rewrite Hpr).
  destruct (read_back_numbers env E1 fill Hfill g hl' _ fuel Hs') as (text & hl2 & rs & Et & Htne & Ec & R & Er);
    [by intros ?%fmap_nil_inv|by apply port_numbers|rewrite length_map, Hl; done|].
  exists text, printed. unfold port_string. rewrite Eh. simpl. rewrite Esort. simpl. rewrite E1. split_and!; try done.
  unfold port_names. change (91 :: text ++ [93]) with (c_open :: text ++ [c_close]). rewrite Ec. cbn [mbind exec_bind].
  rewrite (shift_all_spec _ hl2 rs R) by (rewrite (rep_nhosts _ _ R); lia). by rewrite Er.
Qed.
End facts.

(** A granted request keeps the text of its ports. *)
Lemma alloc_text text st h st' h' : resv_port_alloc text st h = Ret (st', h', SLURM_SUCCESS) ->
  exists arr, resv_port_array h' = Some arr /\ resv_ports h' = Some (text arr).
Proof.
  unfold resv_port_alloc, ESLURM_PORTS_INVALID, ESLURM_PORTS_BUSY, SLURM_SUCCESS. cbn zeta. destruct (i32 _) as [w| |]; [|done..]. cbn [mbind exec_bind].
  match goal with |- (if ?c then _ else _) = _ -> _ => destruct c end; [discriminate|]. destruct (find_ports _ _ _ _ _) as [[[la inx] arr]| |]; [|done..]. simpl.
  match goal with |- (if ?c then _ else _) = _ -> _ => destruct c end; [discriminate|]. destruct (take_ports _ _ _ _ _) as [[table arr']| |]; [|done..]. simpl. intros [= _ <-]. by exists arr'.
Qed.

(** C20: Reserved ports survive a restart of the controller.  The ports that a step
    has been granted are written as a sorted list of ranges without brackets, by
    the host list code; when the controller has been restarted and only this text
    is left of the reservation, reading it back rebuilds the array with exactly
    the ports of the step, and marks them in the new table on the nodes of the
    step, next to the reservations recovered before. *)
Theorem reservation_survives_restart (env : cluster_env) (fill : Z -> cstr) (g : HostlistPrint.grid) (fuel : nat) (nb : Z)
    (st st0 : ports) (f f0 : Z -> Z -> bool) (h : holder) :
  one_dim env -> (forall n, 0 <= n -> Z.of_nat (length (fill n)) = n) -> (sort_rounds (resv_port_cnt h) <= fuel)%nat ->
  ports_ok nb st f -> asks nb h -> 0 < port_resv_min st -> port_resv_max st < 65536 -> resv_port_cnt h < 65536 ->
  resv_port_cnt h + port_resv_cnt_jobpack st <= port_resv_cnt st -> resv_port_cnt h <= free_ports nb st f h ->
  ports_ok nb st0 f0 -> same_range st st0 ->
  wp (resv_port_alloc (ports_text env fill fuel g) st h) (fun '(_, h1, rc) => rc = SLURM_SUCCESS /\
    exists arr text, resv_port_array h1 = Some arr /\ port_string env fill fuel g arr = Ret (text, g) /\ resv_ports h1 = Some text /\
    wp (make_step_resv (ports_hosts env fuel) st0 (Holder (resv_port_cnt h1) (Some text) None (node_bitmap h1))) (fun '(st2, h2) =>
      (exists arr2, resv_port_array h2 = Some arr2 /\ arr2 ≡ₚ arr) /\ resv_ports h2 = Some text /\
      ports_ok nb st2 (fun j n => f0 j n || has h1 (j + port_resv_min st) n))).
Proof.
  intros E1 Hfill Hfuel Hok Hask Hmin Hmax Hcnt Hlim Hfree Hok0 [Emin Emax]. pose proof (po_range _ _ _ Hok) as (? & ? & _).
  destruct (alloc_outcome (ports_text env fill fuel g) (fun _ => []) nb st f h Hok Hask ltac:(unfold i32_max; lia)) as [Hw _].
  destruct (wp_inv _ _ Hw) as ([[st1 h1] rc] & Ea & _ & Hout). rewrite Ea. rewrite (proj2 (Z.ltb_ge _ _)), (proj2 (Z.ltb_ge _ _)) in Hout by lia.
  destruct Hout as [-> (arr & Harr & Hbm & Hc & Hlen & Hnd & Hfr & _)]. apply wp_ret. split; [done|].
  assert (Hr : Forall (fun p => 0 < p < 2 ^ 31) arr) by (apply Forall_forall; intros p Hp; destruct (Hfr p Hp); lia).
  assert (Hpos : 0 < resv_port_cnt h) by apply Hask. assert (Hne : arr <> []) by (intros ->; simpl in Hlen; lia).
  destruct (ports_read_back env E1 fill fuel g arr Hfill Hne Hr) as (text & printed & Et & Htne & Hperm & Hn); [unfold MAX_RANGE; lia|by rewrite Hlen|].
  destruct (alloc_text _ _ _ _ _ Ea) as (arr' & Harr' & Htext). rewrite Harr in Harr'. injection Harr' as <-.
  unfold ports_text in Htext. rewrite Et in Htext. simpl in Htext. exists arr, text. split_and!; try done.
  eapply wp_mono; [apply (recover_reservation (ports_hosts env fuel) nb st0 f0 (Holder (resv_port_cnt h1) (Some text) None (node_bitmap h1)) text arr printed);
    simpl; try done; [rewrite Hbm; apply Hask|lia|lia|unfold ports_hosts; by rewrite Hn]|].
  intros [st2 h2] (_ & H2 & H3 & H4). split_and!; [done|done|]. destruct H4 as [(tb & F1 & F2 & F3) F4 F5]. constructor; [|done|done].
  exists tb. split_and!; [done|done|]. eapply grid_ext; [exact F3|]. intros j n _ _. cbv beta. unfold has. rewrite Harr, Emin. done.
Qed.

(** Two of the ports 12000 to 12003, on two of three nodes. *)
Lemma reservation_survives_restart_witness :
  let env := ClusterEnv None 1 false in let fill n := replicate (Z.to_nat n) 1 in let fuel := sort_rounds 2 in
  wp (resv_port_alloc (ports_text env fill fuel grid_init) four_ports (on_nodes 2 5)) (fun '(_, h1, rc) =>
    exists arr text, resv_port_array h1 = Some arr /\ resv_ports h1 = Some text /\
      wp (make_step_resv (ports_hosts env fuel) four_ports (Holder (resv_port_cnt h1) (Some text) None (node_bitmap h1))) (fun '(_, h2) =>
        exists arr2, resv_port_array h2 = Some arr2 /\ arr2 ≡ₚ arr)).
Proof.
  cbv zeta. eapply wp_mono; [apply (reservation_survives_restart _ _ grid_init (sort_rounds 2) 3 four_ports four_ports (fun _ _ => false) (fun _ _ => false) (on_nodes 2 5))|].
  - done.
  - intros n Hn. rewrite length_replicate. lia.
  - done.
  - exact four_ports_ok.
  - apply on_nodes_asks; lia.
  - done.
  - done.
  - done.
  - by vm_compute.
  - by vm_compute.
  - exact four_ports_ok.
  - done.
  - intros [[st1 h1] rc] (_ & arr & text & H1 & _ & H2 & H3). exists arr, text. split; [done|]. split; [done|].
    eapply wp_mono; [exact H3|]. by intros [st2 h2] [H _].
Defined.
