(* ===== verification/Licenses.v ===== *)
(** * Licenses: src/slurmctld/licenses.c, licenses.h

    Counted licenses that jobs take while they run.  The parser of license
    strings works on the characters in memory, as [strtok_r] and the loop over
    each token do: a read outside the string is a fault.  Calls of [fatal], the
    failed assertions of the list functions on a [NULL] list included, are
    faults as well.  The mutex makes each function atomic. *)

From S2P Require Import Prelude Pack StepLayout.

Local Open Scope Z_scope.
Local Open Scope slurm_scope.

Definition EAGAIN : Z := 11.

Record licenses : Type := License {
  lic_name : cstr;
  lic_total : Z;
  lic_used : Z;
  lic_remote : Z
}.

(** [license_list] ([NULL] is [None]) and [last_license_update]. *)
Record lic_state : Type := LicState {
  license_list : option (list licenses);
  last_license_update : Z
}.

(** [list_find_first(l, _license_find_rec, name)], with the position. *)
Fixpoint find_rec (l : list licenses) (name : cstr) : option (nat * licenses) :=
  match l with
  | [] => None
  | e :: l => if bool_decide (lic_name e = name) then Some (0%nat, e)
              else prod_map S id <$> find_rec l name
  end.
Fixpoint find_remote_rec (l : list licenses) (name : cstr) : option (nat * licenses) :=
  match l with
  | [] => None
  | e :: l => if negb (lic_remote e =? 0) && bool_decide (lic_name e = name) then Some (0%nat, e)
              else prod_map S id <$> find_remote_rec l name
  end.
(** On the list of the system, which has to exist. *)
Definition find_in (l : option (list licenses)) (name : cstr) : exec (option (nat * licenses)) :=
  match l with Some l => Ret (find_rec l name) | None => Fault end.

(** ** License strings *)

(** The C string at a position of a buffer. *)
Fixpoint until_nul (l : list Z) : exec cstr :=
  match l with
  | [] => Fault
  | c :: l => if c =? 0 then Ret [] else s ← until_nul l; Ret (c :: s)
  end.
Definition cstr_at (buf : list Z) (p : Z) : exec cstr :=
  if (0 <=? p) && (p <? Z.of_nat (length buf)) then until_nul (drop (Z.to_nat p) buf) else Fault.

Definition is_delim (c : Z) : bool := (c =? 44) || (c =? 59).
Definition is_sep (c : Z) : bool := (c =? 58) || (c =? 42).

Definition buf_fuel (buf : list Z) : nat := S (S (length buf)).

(** [strtok_r(NULL, ",;", &last)]: the start of the token, the buffer with the
    end of the token written, and the new [last]. *)
Definition strtok_r (buf : list Z) (last : Z) : exec (option (Z * list Z * Z)) :=
  start ← loop (buf_fuel buf) (fun p =>
    c ← aget buf p; if is_delim c then Ret (inl (p + 1)) else Ret (inr p)) last;
  c ← aget buf start;
  if c =? 0 then Ret None else
  stop ← loop (buf_fuel buf) (fun p =>
    c ← aget buf p; if (c =? 0) || is_delim c then Ret (inr p) else Ret (inl (p + 1))) start;
  c ← aget buf stop;
  if c =? 0 then Ret (Some (start, buf, stop))
  else buf ← aset buf stop 0; Ret (Some (start, buf, stop + 1)).

(** The loop over the characters of a token.  Behind a separator [i] has been
    incremented once by the body, and is again by the loop. *)
Definition scan_token (buf : list Z) (token : Z) : exec (list Z * Z * bool) :=
  loop (buf_fuel buf) (fun '(i, buf, num) =>
    c ← aget buf (token + i);
    if c =? 0 then Ret (inr (buf, num, true))
    else if isspace c then Ret (inr (buf, num, false))
    else if is_sep c
    then buf ← aset buf (token + i) 0;
         s ← cstr_at buf (token + i + 1);
         Ret (inl (i + 2, buf, s32 (strtol s).1))
    else Ret (inl (i + 1, buf, num))) (0, buf, 1).

Definition add_license (l : list licenses) (name : cstr) (num : Z) : list licenses :=
  match find_rec l name with
  | Some (k, e) => <[k := License (lic_name e) (u32 (lic_total e + num)) (lic_used e) (lic_remote e)]> l
  | None => License name num 0 0 :: l
  end.

(** The list, [None] for [NULL], and [*valid]. *)
Definition build_license_list (s : option cstr) : exec (option (list licenses) * bool) :=
  match s with
  | None | Some [] => Ret (None, true)
  | Some s =>
      let buf := s ++ [0] in
      loop (buf_fuel buf) (fun '(buf, last, l) =>
        r ← strtok_r buf last;
        match r with
        | None => Ret (inr (Some l, true))
        | Some (token, buf, last) =>
            '(buf, num, valid) ← scan_token buf token;
            if num <? 0 then Ret (inr (None, false)) else
            name ← cstr_at buf token;
            let l := add_license l name num in
            if (valid : bool) then Ret (inl (buf, last, l)) else Ret (inr (None, false))
        end) (buf, 0, [])
  end.

(** [snprintf] into the buffer of 128 characters. *)
Definition license_text (first : bool) (e : licenses) : cstr :=
  take 127 ((if first then [] else [44]) ++ lic_name e ++ [42] ++ fmt_d (lic_total e)).
Fixpoint license_texts (first : bool) (l : list licenses) : cstr :=
  match l with [] => [] | e :: l => license_text first e ++ license_texts false l end.
Definition build_license_string (l : option (list licenses)) : option cstr :=
  match l with None | Some [] => None | Some l => Some (license_texts true l) end.

(** ** Configuration *)
Definition license_init (now : Z) (s : option cstr) (st : lic_state) : exec (lic_state * Z) :=
  if bool_decide (license_list st <> None) then Fault else
  '(l, valid) ← build_license_list s;
  if negb valid then Fault else Ret (LicState l now, SLURM_SUCCESS).

Definition remote_unused (l : list licenses) : list licenses :=
  (fun e => License (lic_name e) (lic_total e) 0 (lic_remote e)) <$> filter (fun e => lic_remote e <> 0) l.

Definition license_update (s : option cstr) (st : lic_state) : exec (lic_state * Z) :=
  '(new_list, valid) ← build_license_list s;
  if negb valid then Fault else
  match license_list st with
  | None => Ret (LicState new_list (last_license_update st), SLURM_SUCCESS)
  | Some old =>
      let new_list := match remote_unused old with
                      | [] => new_list
                      | r => Some (default [] new_list ++ r)
                      end in
      Ret (LicState new_list (last_license_update st), SLURM_SUCCESS)
  end.

Definition license_free (st : lic_state) : lic_state := LicState None (last_license_update st).

(** ** Licenses of remote servers, from the database *)
Record res_rec : Type := ResRec {
  res_name : cstr;
  res_server : cstr;
  res_count : Z;
  percent_allowed : Z;
  is_license : bool
}.
Definition remote_name (rec : res_rec) : cstr := res_name rec ++ [64] ++ res_server rec.
Definition remote_total (rec : res_rec) : Z := u32 (res_count rec * percent_allowed rec) / 100.
Definition add_res_rec (rec : res_rec) (sync : bool) (l : list licenses) : list licenses :=
  License (remote_name rec) (remote_total rec) 0 (if sync then 2 else 1) :: l.

(** The list, made if there is none; [license_init] must have run. *)
Definition need_list (st : lic_state) : exec (list licenses) :=
  match license_list st with
  | Some l => Ret l
  | None => assert! negb (last_license_update st =? 0) ;; Ret []
  end.

Definition license_add_remote (now : Z) (rec : res_rec) (st : lic_state) : exec lic_state :=
  assert! is_license rec ;;
  l ← need_list st;
  match find_remote_rec l (remote_name rec) with
  | Some _ => Ret (LicState (Some l) (last_license_update st))
  | None => Ret (LicState (Some (add_res_rec rec false l)) now)
  end.

Definition set_total (k : nat) (e : licenses) (total remote : Z) (l : list licenses) : list licenses :=
  <[k := License (lic_name e) total (lic_used e) remote]> l.

Definition license_update_remote (now : Z) (rec : res_rec) (st : lic_state) : exec lic_state :=
  assert! is_license rec ;;
  l ← need_list st;
  Ret (LicState (Some match find_remote_rec l (remote_name rec) with
                      | None => add_res_rec rec false l
                      | Some (k, e) => set_total k e (remote_total rec) (lic_remote e) l
                      end) now).

Definition license_remove_remote (now : Z) (rec : res_rec) (st : lic_state) : exec lic_state :=
  assert! is_license rec ;;
  l ← need_list st;
  match find_remote_rec l (remote_name rec) with
  | Some (k, _) => Ret (LicState (Some (delete k l)) now)
  | None => Ret (LicState (Some l) (last_license_update st))
  end.

(** Entries named by the database are marked 2, then unmarked ones go. *)
Definition sync_one (rec : res_rec) (l : list licenses) : list licenses :=
  if negb (is_license rec) then l else
  match find_remote_rec l (remote_name rec) with
  | Some (k, e) => set_total k e (remote_total rec) 2 l
  | None => add_res_rec rec true l
  end.
Fixpoint sync_all (recs : list res_rec) (l : list licenses) : list licenses :=
  match recs with [] => l | rec :: recs => sync_all recs (sync_one rec l) end.
Definition unmark (e : licenses) : licenses :=
  if lic_remote e =? 2 then License (lic_name e) (lic_total e) (lic_used e) 1 else e.
Definition license_sync_remote (now : Z) (recs : option (list res_rec)) (st : lic_state) : exec lic_state :=
  l ← match recs, license_list st with
      | Some _, _ => need_list st
      | None, Some l => Ret l
      | None, None => Fault
      end;
  let marked := sync_all (default [] recs) l in
  let kept := unmark <$> filter (fun e => lic_remote e <> 1) marked in
  let changed := existsb is_license (default [] recs) || existsb (fun e => lic_remote e =? 1) marked in
  Ret (LicState (Some kept) (if changed then now else last_license_update st)).

(** ** Jobs *)
Record lic_job : Type := LicJob {
  job_licenses : option cstr;
  job_license_list : option (list licenses)
}.

Section validate.
(** The position of a license in the arrays of trackable resources, -1 when it
    is not tracked ([assoc_mgr_find_tres_pos]). *)
Variable find_tres_pos : cstr -> Z.

Definition set_tres (tres : option (list Z)) (e : licenses) : exec (option (list Z)) :=
  match tres with
  | None => Ret None
  | Some cnt =>
      if find_tres_pos (lic_name e) =? -1 then Ret (Some cnt)
      else Some <$> aset cnt (find_tres_pos (lic_name e)) (lic_total e)
  end.

Fixpoint validate_entries (sys : option (list licenses)) (l : list licenses) (tres : option (list Z)) :
    exec (option (list Z) * bool) :=
  match l with
  | [] => Ret (tres, true)
  | e :: l =>
      match sys ≫= (fun s => find_rec s (lic_name e)) with
      | None => Ret (tres, false)
      | Some (_, match_) =>
          if lic_total match_ <? lic_total e then Ret (tres, false)
          else tres ← set_tres tres e; validate_entries sys l tres
      end
  end.

(** The list of the job, [*valid], and the resource counts. *)
Definition license_validate (st : lic_state) (s : option cstr) (tres : option (list Z)) :
    exec (option (list licenses) * bool * option (list Z)) :=
  '(l, valid) ← build_license_list s;
  match l with
  | None => Ret (None, valid, tres)
  | Some l =>
      '(tres, valid) ← validate_entries (license_list st) l tres;
      Ret (if (valid : bool) then Some l else None, valid, tres)
  end.

Fixpoint set_all_tres (l : list licenses) (tres : option (list Z)) : exec (option (list Z)) :=
  match l with [] => Ret tres | e :: l => tres ← set_tres tres e; set_all_tres l tres end.
Definition license_set_job_tres_cnt (l : option (list licenses)) (tres : option (list Z)) : exec (option (list Z)) :=
  match l with None => Ret tres | Some l => set_all_tres l tres end.
End validate.

Definition license_job_merge (job : lic_job) : exec lic_job :=
  '(l, _) ← build_license_list (job_licenses job);
  Ret (LicJob (build_license_string l) l).

Section test.
(** The licenses that reservations keep from the job ([job_test_lic_resv]). *)
Variable job_test_lic_resv : cstr -> Z.

Fixpoint test_entries (sys : option (list licenses)) (l : list licenses) : exec Z :=
  match l with
  | [] => Ret SLURM_SUCCESS
  | e :: l =>
      m ← find_in sys (lic_name e);
      match m with
      | None => Ret SLURM_ERROR
      | Some (_, match_) =>
          if lic_total match_ <? lic_total e then Ret SLURM_ERROR
          else if lic_total match_ <? u32 (lic_total e + lic_used match_) then Ret EAGAIN
          else if lic_total match_ <? u32 (lic_total e + lic_used match_ + job_test_lic_resv (lic_name e))
          then Ret EAGAIN
          else test_entries sys l
      end
  end.
Definition license_job_test (st : lic_state) (job : lic_job) : exec Z :=
  match job_license_list job with
  | None => Ret SLURM_SUCCESS
  | Some l => test_entries (license_list st) l
  end.
End test.

Definition license_job_copy (l : option (list licenses)) : option (list licenses) :=
  (fun l => reverse ((fun e => License (lic_name e) (lic_total e) 0 0) <$> l)) <$> l.

Definition set_used (k : nat) (e : licenses) (used : Z) (l : list licenses) : list licenses :=
  <[k := License (lic_name e) (lic_total e) used (lic_remote e)]> l.
Definition with_used (e : licenses) (used : Z) : licenses :=
  License (lic_name e) (lic_total e) used (lic_remote e).

(** The list of the system, that of the job, and the return code. *)
Fixpoint get_entries (sys : option (list licenses)) (l : list licenses) (rc : Z) :
    exec (option (list licenses) * list licenses * Z) :=
  match l with
  | [] => Ret (sys, [], rc)
  | e :: l =>
      m ← find_in sys (lic_name e);
      let '(sys, e, rc) :=
        match m with
        | Some (k, match_) =>
            (set_used k match_ (u32 (lic_used match_ + lic_total e)) <$> sys,
             with_used e (u32 (lic_used e + lic_total e)), rc)
        | None => (sys, e, SLURM_ERROR)
        end in
      '(sys, l, rc) ← get_entries sys l rc;
      Ret (sys, e :: l, rc)
  end.
Definition license_job_get (now : Z) (st : lic_state) (job : lic_job) : exec (lic_state * lic_job * Z) :=
  match job_license_list job with
  | None => Ret (st, job, SLURM_SUCCESS)
  | Some l =>
      '(sys, l, rc) ← get_entries (license_list st) l SLURM_SUCCESS;
      Ret (LicState sys now, LicJob (job_licenses job) (Some l), rc)
  end.

Fixpoint return_entries (sys : option (list licenses)) (l : list licenses) (rc : Z) :
    exec (option (list licenses) * list licenses * Z) :=
  match l with
  | [] => Ret (sys, [], rc)
  | e :: l =>
      m ← find_in sys (lic_name e);
      let '(sys, e, rc) :=
        match m with
        | Some (k, match_) =>
            if lic_total e <=? lic_used match_
            then (set_used k match_ (lic_used match_ - lic_total e) <$> sys, with_used e 0, rc)
            else (set_used k match_ 0 <$> sys, with_used e 0, SLURM_ERROR)
        | None => (sys, e, rc)
        end in
      '(sys, l, rc) ← return_entries sys l rc;
      Ret (sys, e :: l, rc)
  end.
Definition license_job_return (now : Z) (st : lic_state) (job : lic_job) : exec (lic_state * lic_job * Z) :=
  match job_license_list job with
  | None => Ret (st, job, SLURM_SUCCESS)
  | Some l =>
      '(sys, l, rc) ← return_entries (license_list st) l SLURM_SUCCESS;
      Ret (LicState sys now, LicJob (job_licenses job) (Some l), rc)
  end.

(** ** Queries *)
Definition license_list_overlap (l1 l2 : option (list licenses)) : bool :=
  match l1, l2 with
  | Some l1, Some l2 => existsb (fun e => bool_decide (find_rec l2 (lic_name e) <> None)) l1
  | _, _ => false
  end.
Definition get_total_license_cnt (st : lic_state) (name : cstr) : Z :=
  match license_list st ≫= (fun l => find_rec l name) with Some (_, e) => lic_total e | None => 0 end.
Definition license_get_total_cnt_from_list (l : option (list licenses)) (name : cstr) : exec Z :=
  m ← find_in l name;
  Ret (match m with Some (_, e) => lic_total e | None => 0 end).

Definition used_text (e : licenses) : cstr :=
  lic_name e ++ [58] ++ fmt_d (lic_used e) ++ [47] ++ fmt_d (lic_total e).
Fixpoint used_texts (l : list licenses) : cstr :=
  match l with [] => [] | [e] => used_text e | e :: l => used_text e ++ [44] ++ used_texts l end.
Definition get_licenses_used (st : lic_state) : option cstr :=
  match license_list st with None | Some [] => None | Some l => Some (used_texts l) end.

Definition pack_license (e : licenses) (protocol_version : Z) (b : slurm_buf) : exec slurm_buf :=
  if SLURM_MIN_PROTOCOL_VERSION <=? protocol_version
  then b ← packstr (Some (lic_name e)) b;
       b ← pack32 (lic_total e) b;
       b ← pack32 (lic_used e) b;
       pack8 (lic_remote e) b
  else Ret b.
