(* ===== verification/LicensesProps.v ===== *)
(** * Licenses: properties

    No license is ever over-committed, licenses are given back exactly, and
    printed license strings are read back. *)

From S2P Require Import Prelude Pack StepLayout Licenses.

Local Open Scope Z_scope.
Local Open Scope slurm_scope.

(** ** Finding entries *)
Definition names (l : list licenses) : list cstr := lic_name <$> l.

Lemma find_rec_some l n k e : find_rec l n = Some (k, e) -> l !! k = Some e /\ lic_name e = n.
Proof.
  revert k. induction l as [|x l IH]; intros k; simpl; [done|]. case_bool_decide as Hx; [by intros [= <- <-]|].
  destruct (find_rec l n) as [[k' e']|]; [|done]. intros [= <- <-]. by apply IH.
Qed.

Lemma find_rec_none l n : find_rec l n = None <-> n ∉ names l.
Proof.
  unfold names. induction l as [|x l IH]; [split; [intros _; apply not_elem_of_nil|done]|].
  rewrite fmap_cons, not_elem_of_cons. cbn [find_rec]. case_bool_decide as Hx; [intuition congruence|].
  rewrite <-IH. destruct (find_rec l n) as [[]|]; simpl; intuition congruence.
Qed.

Lemma find_rec_in l e : NoDup (names l) -> e ∈ l -> exists k, find_rec l (lic_name e) = Some (k, e).
Proof.
  induction l as [|x l IH]; intros Hnd He; [by apply not_elem_of_nil in He|].
  unfold names in Hnd. rewrite fmap_cons in Hnd. apply NoDup_cons in Hnd as [Hx Hnd]. simpl.
  apply elem_of_cons in He as [->|He]; [rewrite bool_decide_eq_true_2 by done; eauto|].
  rewrite bool_decide_eq_false_2 by (intros E; apply Hx; rewrite E; by apply list_elem_of_fmap_2).
  destruct (IH Hnd He) as [k ->]. simpl. eauto.
Qed.

(** How many licenses [l] asks for. *)
Definition requested (l : list licenses) (n : cstr) : Z :=
  match find_rec l n with Some (_, e) => lic_total e | None => 0 end.

Lemma requested_cons e l n :
  requested (e :: l) n = if bool_decide (lic_name e = n) then lic_total e else requested l n.
Proof. unfold requested. simpl. case_bool_decide; [done|]. by destruct (find_rec l n) as [[]|]. Qed.

Definition set_uses (f : licenses -> Z) (l : list licenses) : list licenses := (fun e => with_used e (f e)) <$> l.

Lemma names_set_uses f l : names (set_uses f l) = names l.
Proof. unfold names, set_uses. by rewrite <-list_fmap_compose. Qed.

Lemma set_uses_set_uses f g l : set_uses f (set_uses g l) = set_uses (fun e => f (with_used e (g e))) l.
Proof. unfold set_uses. rewrite <-list_fmap_compose. done. Qed.

Lemma set_uses_ext f g l : (forall e, e ∈ l -> f e = g e) -> set_uses f l = set_uses g l.
Proof. intros H. unfold set_uses. apply list_fmap_ext. intros i e Hi. by rewrite (H e) by (by eapply list_elem_of_lookup_2). Qed.

Lemma set_uses_id l : set_uses lic_used l = l.
Proof. unfold set_uses. induction l as [|[]]; [done|]. rewrite fmap_cons. by f_equal. Qed.

(** Updating the entry that was found. *)
Lemma set_used_found l n k e f :
  NoDup (names l) -> find_rec l n = Some (k, e) ->
  set_used k e (f e) l = set_uses (fun x => if bool_decide (lic_name x = n) then f x else lic_used x) l.
Proof.
  unfold set_used. revert k. induction l as [|x l IH]; intros k Hnd; cbn [find_rec]; [done|].
  unfold names in Hnd. rewrite fmap_cons in Hnd. apply NoDup_cons in Hnd as [Hx Hnd].
  case_bool_decide as Hn.
  - intros [= <- <-]. cbn [insert list_insert]. unfold set_uses. rewrite fmap_cons, bool_decide_eq_true_2 by done.
    f_equal. fold (set_uses (fun x0 => if bool_decide (lic_name x0 = n) then f x0 else lic_used x0) l).
    rewrite (set_uses_ext _ lic_used); [by rewrite set_uses_id|]. intros y Hy. rewrite bool_decide_eq_false_2; [done|].
    intros E. apply Hx. rewrite Hn, <-E. by apply list_elem_of_fmap_2.
  - destruct (find_rec l n) as [[k' e']|] eqn:Ef; [|done]. intros [= <- <-]. cbn [insert list_insert].
    unfold set_uses. rewrite fmap_cons, bool_decide_eq_false_2 by done. f_equal; [by destruct x|]. by apply IH.
Qed.

(** Taking: every entry of the system is charged what the job asks for. *)
Lemma get_entries_spec l : forall s,
  NoDup (names s) -> NoDup (names l) -> (forall e, e ∈ l -> lic_name e ∈ names s) ->
  (forall e, e ∈ s -> 0 <= lic_used e + requested l (lic_name e) < 2 ^ 32) ->
  exists l', names l' = names l /\ (forall n, requested l' n = requested l n) /\
    get_entries (Some s) l SLURM_SUCCESS =
      Ret (Some (set_uses (fun e => lic_used e + requested l (lic_name e)) s), l', SLURM_SUCCESS).
Proof.
  induction l as [|e l IH]; intros s Hs Hl Hin Hov; cbn [get_entries].
  { exists []. split_and!; [done|done|]. rewrite (set_uses_ext _ lic_used); [by rewrite set_uses_id|].
    intros x _. unfold requested. simpl. lia. }
  unfold names in Hl. rewrite fmap_cons in Hl. apply NoDup_cons in Hl as [He Hl]. fold (names l) in He, Hl.
  assert (Hr0 : forall n, n = lic_name e -> requested l n = 0)
    by (intros ? ->; unfold requested; by rewrite (proj2 (find_rec_none l _) He)).
  destruct (find_rec s (lic_name e)) as [[k m]|] eqn:Ef.
  2: { exfalso. apply find_rec_none in Ef. apply Ef, Hin, elem_of_cons. by left. }
  cbn [find_in mbind exec_bind]. rewrite Ef. cbn [fmap option_fmap option_map].
  destruct (find_rec_some _ _ _ _ Ef) as [Hk Hm].
  assert (Hu : u32 (lic_used m + lic_total e) = lic_used m + lic_total e).
  { specialize (Hov m ltac:(by eapply list_elem_of_lookup_2)). rewrite requested_cons, bool_decide_eq_true_2 in Hov by done.
    unfold u32. rewrite Z.mod_small; lia. }
  rewrite Hu, (set_used_found s _ k m (fun x => lic_used x + lic_total e) Hs Ef). set (s1 := set_uses _ s).
  assert (Hmem : forall x, x ∈ s1 -> exists y, y ∈ s /\ lic_name x = lic_name y /\
    lic_used x = if bool_decide (lic_name y = lic_name e) then lic_used y + lic_total e else lic_used y).
  { intros x Hx. apply list_elem_of_fmap in Hx as (y & -> & Hy). by exists y. }
  destruct (IH s1) as (l' & Hn' & Hr' & ->).
  - unfold s1. by rewrite names_set_uses.
  - done.
  - intros x Hx. unfold s1. rewrite names_set_uses. apply Hin, elem_of_cons. by right.
  - intros x Hx. destruct (Hmem x Hx) as (y & Hy & E1 & E2). specialize (Hov y Hy). rewrite E1, E2.
    rewrite requested_cons in Hov. case_bool_decide as Hc; case_bool_decide; try done; try congruence.
    rewrite Hr0 by congruence. lia.
  - cbn [mbind exec_bind].
    assert (set_uses (fun x => lic_used x + requested l (lic_name x)) s1 =
            set_uses (fun x => lic_used x + requested (e :: l) (lic_name x)) s) as ->.
    { unfold s1. rewrite set_uses_set_uses. apply set_uses_ext. intros x Hx. cbn [with_used lic_name lic_used].
      rewrite requested_cons. case_bool_decide as Hc; case_bool_decide; try done; try congruence. rewrite Hr0 by congruence. lia. }
    eexists. split; [|split; [|reflexivity]].
    + unfold names. rewrite !fmap_cons. fold (names l') (names l). by rewrite Hn'.
    + intros n. rewrite !requested_cons. cbn [with_used lic_name lic_total]. by rewrite Hr'.
Qed.

(** Returning: every entry is relieved of it, without underflow. *)
Lemma return_entries_spec l : forall s,
  NoDup (names s) -> NoDup (names l) -> (forall e, e ∈ l -> lic_name e ∈ names s) ->
  (forall e, e ∈ s -> requested l (lic_name e) <= lic_used e) ->
  exists l', names l' = names l /\ (forall n, requested l' n = requested l n) /\
    return_entries (Some s) l SLURM_SUCCESS =
      Ret (Some (set_uses (fun e => lic_used e - requested l (lic_name e)) s), l', SLURM_SUCCESS).
Proof.
  induction l as [|e l IH]; intros s Hs Hl Hin Hov; cbn [return_entries].
  { exists []. split_and!; [done|done|]. rewrite (set_uses_ext _ lic_used); [by rewrite set_uses_id|].
    intros x _. unfold requested. simpl. lia. }
  unfold names in Hl. rewrite fmap_cons in Hl. apply NoDup_cons in Hl as [He Hl]. fold (names l) in He, Hl.
  assert (Hr0 : forall n, n = lic_name e -> requested l n = 0)
    by (intros ? ->; unfold requested; by rewrite (proj2 (find_rec_none l _) He)).
  destruct (find_rec s (lic_name e)) as [[k m]|] eqn:Ef.
  2: { exfalso. apply find_rec_none in Ef. apply Ef, Hin, elem_of_cons. by left. }
  cbn [find_in mbind exec_bind]. rewrite Ef. cbn [fmap option_fmap option_map].
  destruct (find_rec_some _ _ _ _ Ef) as [Hk Hm].
  assert (Hle : lic_total e <= lic_used m).
  { specialize (Hov m ltac:(by eapply list_elem_of_lookup_2)). by rewrite requested_cons, bool_decide_eq_true_2 in Hov. }
  rewrite (proj2 (Z.leb_le _ _) Hle), (set_used_found s _ k m (fun x => lic_used x - lic_total e) Hs Ef).
  set (s1 := set_uses _ s).
  destruct (IH s1) as (l' & Hn' & Hr' & ->).
  - unfold s1. by rewrite names_set_uses.
  - done.
  - intros x Hx. unfold s1. rewrite names_set_uses. apply Hin, elem_of_cons. by right.
  - intros x Hx. apply list_elem_of_fmap in Hx as (y & -> & Hy). specialize (Hov y Hy). cbn [with_used lic_name lic_used].
    rewrite requested_cons in Hov. case_bool_decide as Hc; case_bool_decide; try done; try congruence.
    rewrite Hr0 by congruence. lia.
  - cbn [mbind exec_bind].
    assert (set_uses (fun x => lic_used x - requested l (lic_name x)) s1 =
            set_uses (fun x => lic_used x - requested (e :: l) (lic_name x)) s) as ->.
    { unfold s1. rewrite set_uses_set_uses. apply set_uses_ext. intros x Hx. cbn [with_used lic_name lic_used].
      rewrite requested_cons. case_bool_decide as Hc; case_bool_decide; try done; try congruence. rewrite Hr0 by congruence. lia. }
    eexists. split; [|split; [|reflexivity]].
    + unfold names. rewrite !fmap_cons. fold (names l') (names l). by rewrite Hn'.
    + intros n. rewrite !requested_cons. cbn [with_used lic_name lic_total]. by rewrite Hr'.
Qed.

(** A successful test: every license exists and has enough left. *)
Lemma test_entries_ok resv s l :
  (forall e, e ∈ s -> 0 <= lic_used e <= lic_total e /\ lic_total e < 2 ^ 31) ->
  (forall e, e ∈ l -> 0 <= lic_total e) ->
  test_entries resv (Some s) l = Ret SLURM_SUCCESS ->
  forall e, e ∈ l -> exists k m, find_rec s (lic_name e) = Some (k, m) /\ lic_total e + lic_used m <= lic_total m.
Proof.
  intros Hs. induction l as [|x l IH]; intros Hl Ht e He; [by apply not_elem_of_nil in He|].
  cbn [test_entries find_in mbind exec_bind] in Ht. destruct (find_rec s (lic_name x)) as [[k m]|] eqn:Ef; [|done].
  destruct (find_rec_some _ _ _ _ Ef) as [Hk _]. destruct (Hs m ltac:(by eapply list_elem_of_lookup_2)) as [Hm1 Hm2].
  specialize (Hl x ltac:(apply elem_of_cons; by left)) as Hx.
  destruct (Z.ltb_spec (lic_total m) (lic_total x)); [done|].
  assert (Hu : u32 (lic_total x + lic_used m) = lic_total x + lic_used m) by (unfold u32; rewrite Z.mod_small; lia).
  rewrite Hu in Ht. destruct (Z.ltb_spec (lic_total m) (lic_total x + lic_used m)); [done|].
  destruct (_ <? _); [done|].
  apply elem_of_cons in He as [->|He]; [exists k, m; split; [done|lia]|].
  apply IH; [|done|done]. intros y Hy. apply Hl, elem_of_cons. by right.
Qed.

Lemma test_entries_returns resv s l : wp (test_entries resv (Some s) l) (fun _ => True).
Proof.
  induction l as [|x l IH]; [done|]. cbn [test_entries find_in mbind exec_bind].
  destruct (find_rec s (lic_name x)) as [[k m]|]; [|done]. by repeat (destruct (_ <? _); [done|]).
Qed.

(** ** Jobs that come and go *)
Section runs.
Variable resv : cstr -> Z.

Inductive lic_op : Type :=
| StartJob (now : Z) (l : list licenses)
| EndJob (now : Z) (k : nat).

Definition live_req (live : list lic_job) (n : cstr) : Z :=
  foldr (fun j t => requested (default [] (job_license_list j)) n + t) 0 live.

(** A job starts when its licenses are free. *)
Definition run_lic_op (o : lic_op) (s : lic_state * list lic_job) : exec (lic_state * list lic_job) :=
  let '(st, live) := s in
  match o with
  | StartJob now l =>
      let job := LicJob None (Some l) in
      rc ← license_job_test resv st job;
      if rc =? SLURM_SUCCESS
      then '(st, job, _) ← license_job_get now st job; Ret (st, live ++ [job])
      else Ret (st, live)
  | EndJob now k =>
      match live !! k with
      | Some job => '(st, _, _) ← license_job_return now st job; Ret (st, delete k live)
      | None => Ret (st, live)
      end
  end.
Fixpoint run_lic_ops (l : list lic_op) (s : lic_state * list lic_job) : exec (lic_state * list lic_job) :=
  match l with [] => Ret s | o :: l => s ← run_lic_op o s; run_lic_ops l s end.

(** A request as [_build_license_list] makes it. *)
Definition request_ok (l : list licenses) : Prop :=
  NoDup (names l) /\ forall e, e ∈ l -> 0 <= lic_total e.
Definition lic_op_ok (o : lic_op) : Prop := match o with StartJob _ l => request_ok l | _ => True end.

Record lic_inv (s0 : list licenses) (st : lic_state) (live : list lic_job) : Prop := {
  li_sys : exists s, license_list st = Some s /\ names s = names s0 /\ lic_total <$> s = lic_total <$> s0 /\
    forall e, e ∈ s -> lic_used e = live_req live (lic_name e) /\ lic_used e <= lic_total e;
  li_live : forall j, j ∈ live -> exists l, job_license_list j = Some l /\ request_ok l /\
    forall e, e ∈ l -> lic_name e ∈ names s0
}.

Definition lic_config_ok (s : list licenses) : Prop :=
  NoDup (names s) /\ forall e, e ∈ s -> 0 <= lic_total e < 2 ^ 31.

Lemma request_nonneg l n : request_ok l -> 0 <= requested l n.
Proof.
  intros [_ Hl]. unfold requested. destruct (find_rec l n) as [[k e]|] eqn:E; [|done].
  destruct (find_rec_some _ _ _ _ E) as [Hk _]. apply Hl. by eapply list_elem_of_lookup_2.
Qed.

Lemma live_req_nonneg live n :
  (forall j, j ∈ live -> exists l, job_license_list j = Some l /\ request_ok l) -> 0 <= live_req live n.
Proof.
  induction live as [|j live IH]; intros H; [done|]. cbn [live_req foldr].
  destruct (H j ltac:(apply elem_of_cons; by left)) as (l & -> & Hl). cbn [default from_option id].
  pose proof (request_nonneg l n Hl). assert (0 <= live_req live n); [|unfold live_req in *; lia].
  apply IH. intros j' Hj. apply H, elem_of_cons. by right.
Qed.

Lemma live_req_snoc live j n :
  live_req (live ++ [j]) n = live_req live n + requested (default [] (job_license_list j)) n.
Proof. unfold live_req. induction live as [|x live IH]; simpl; [lia|]. rewrite IH. lia. Qed.

Lemma live_req_delete live k j n :
  live !! k = Some j -> live_req (delete k live) n = live_req live n - requested (default [] (job_license_list j)) n.
Proof.
  unfold live_req. revert k. induction live as [|x live IH]; intros [|k] Hk; simplify_eq/=; [lia|].
  specialize (IH k Hk). lia.
Qed.

Lemma total_of_config s0 s e :
  lic_config_ok s0 -> lic_total <$> s = lic_total <$> s0 -> e ∈ s -> 0 <= lic_total e < 2 ^ 31.
Proof.
  intros [_ H] Ht He. apply (list_elem_of_fmap_2 lic_total) in He. rewrite Ht in He.
  apply list_elem_of_fmap in He as (e0 & -> & He0). auto.
Qed.

Lemma start_inv_lic s0 st live now l :
  lic_config_ok s0 -> lic_inv s0 st live -> request_ok l ->
  wp (run_lic_op (StartJob now l) (st, live)) (fun '(st', live') => lic_inv s0 st' live').
Proof.
  intros Hcfg Hi Hl. pose proof Hi as [(s & Hs & Hn & Ht & Hu) Hlive]. cbn [run_lic_op license_job_test job_license_list].
  rewrite Hs. apply wp_bind. destruct (test_entries resv (Some s) l) as [rc| |] eqn:Etest;
    [|by pose proof (test_entries_returns resv s l) as H; rewrite Etest in H..].
  cbn [wp]. destruct (Z.eqb_spec rc SLURM_SUCCESS) as [->|]; [|done].
  assert (Hpos : forall n, 0 <= live_req live n).
  { intros n. apply live_req_nonneg. intros j Hj. destruct (Hlive j Hj) as (l0 & ? & ? & _). eauto. }
  assert (Hs' : forall e, e ∈ s -> 0 <= lic_used e <= lic_total e /\ lic_total e < 2 ^ 31).
  { intros e He. destruct (Hu e He) as [E1 E2]. pose proof (total_of_config s0 s e Hcfg Ht He). pose proof (Hpos (lic_name e)). lia. }
  pose proof (test_entries_ok resv s l Hs' (proj2 Hl) Etest) as Hok.
  assert (Hnd : NoDup (names s)) by (rewrite Hn; apply Hcfg).
  assert (Hreq : forall e, e ∈ s -> lic_used e + requested l (lic_name e) <= lic_total e).
  { intros e He. unfold requested. destruct (find_rec l (lic_name e)) as [[k x]|] eqn:E; [|destruct (Hs' e He); lia].
    destruct (find_rec_some _ _ _ _ E) as [Hk Hx]. destruct (Hok x ltac:(by eapply list_elem_of_lookup_2)) as (k' & m & Hm & Hle).
    rewrite Hx in Hm. destruct (find_rec_in s e Hnd He) as [k2 Hk2]. rewrite Hk2 in Hm. injection Hm as <- <-. lia. }
  assert (Hin : forall e, e ∈ l -> lic_name e ∈ names s).
  { intros e He. destruct (Hok e He) as (k & m & Hm & _). destruct (find_rec_some _ _ _ _ Hm) as [Hk <-].
    apply list_elem_of_fmap_2. by eapply list_elem_of_lookup_2. }
  destruct (get_entries_spec l s Hnd (proj1 Hl) Hin) as (l' & Hn' & Hr' & Hget).
  { intros e He. pose proof (request_nonneg l (lic_name e) Hl). pose proof (Hreq e He). destruct (Hs' e He). lia. }
  unfold license_job_get. cbn [job_license_list]. rewrite Hs, Hget. cbn [mbind exec_bind wp job_licenses].
  assert (Hl' : request_ok l').
  { split; [rewrite Hn'; apply Hl|]. intros e He. pose proof (find_rec_in l' e) as Hf. rewrite Hn' in Hf.
    destruct (Hf (proj1 Hl) He) as [k Hk]. pose proof (Hr' (lic_name e)) as Hr. unfold requested at 1 in Hr. rewrite Hk in Hr.
    rewrite Hr. by apply request_nonneg. }
  constructor.
  - eexists. split; [done|]. split; [by rewrite names_set_uses|]. split; [unfold set_uses; by rewrite <-list_fmap_compose|].
    intros e He. apply list_elem_of_fmap in He as (e0 & -> & He0). cbn [with_used lic_used lic_name lic_total].
    rewrite live_req_snoc. cbn [job_license_list default from_option id]. rewrite Hr'. destruct (Hu e0 He0) as [E1 _].
    split; [lia|by apply Hreq].
  - intros j [Hj| ->%list_elem_of_singleton]%elem_of_app; [by apply Hlive|]. exists l'. split; [done|]. split; [done|].
    intros e He. rewrite <-Hn. apply (list_elem_of_fmap_2 lic_name) in He. fold (names l') in He. rewrite Hn' in He.
    apply list_elem_of_fmap in He as (x & -> & Hx). by apply Hin.
Qed.

(** A live job can be returned. *)
Lemma return_inv_lic s0 st live now k j :
  lic_config_ok s0 -> lic_inv s0 st live -> live !! k = Some j ->
  wp (license_job_return now st j) (fun '(st', _, rc) => rc = SLURM_SUCCESS /\ lic_inv s0 st' (delete k live)).
Proof.
  intros Hcfg [(s & Hs & Hn & Ht & Hu) Hlive] Hk.
  assert (Hj : j ∈ live) by (by eapply list_elem_of_lookup_2).
  destruct (Hlive j Hj) as (l & El & Hl & Hin). unfold license_job_return. rewrite El, Hs.
  assert (Hsub : forall j', j' ∈ delete k live -> j' ∈ live).
  { intros j' Hj'. eapply elem_of_submseteq; [done|]. apply sublist_submseteq, sublist_delete. }
  assert (Hpos : forall n, 0 <= live_req (delete k live) n).
  { intros n. apply live_req_nonneg. intros j' Hj'. destruct (Hlive j' (Hsub _ Hj')) as (l0 & ? & ? & _). eauto. }
  assert (Hdel : forall n, live_req (delete k live) n = live_req live n - requested l n).
  { intros n. rewrite (live_req_delete live k j n Hk), El. done. }
  destruct (return_entries_spec l s) as (l' & _ & _ & Hret).
  - rewrite Hn. apply Hcfg.
  - apply Hl.
  - intros e He. rewrite Hn. auto.
  - intros e He. destruct (Hu e He) as [-> _]. specialize (Hpos (lic_name e)). rewrite Hdel in Hpos. lia.
  - rewrite Hret. cbn [mbind exec_bind wp]. split; [done|]. constructor; [|intros j' Hj'; by apply Hlive, Hsub].
    eexists. split; [done|]. split; [by rewrite names_set_uses|]. split; [unfold set_uses; by rewrite <-list_fmap_compose|].
    intros e He. apply list_elem_of_fmap in He as (e0 & -> & He0). cbn [with_used lic_used lic_name lic_total].
    destruct (Hu e0 He0) as [E1 E2]. rewrite Hdel. pose proof (request_nonneg l (lic_name e0) Hl). lia.
Qed.

Lemma run_lic_ops_inv s0 ops : forall s,
  lic_config_ok s0 -> lic_inv s0 s.1 s.2 -> Forall lic_op_ok ops ->
  wp (run_lic_ops ops s) (fun '(st', live') => lic_inv s0 st' live').
Proof.
  induction ops as [|o ops IH]; intros [st live] Hcfg Hi Hops; [done|]. apply Forall_cons in Hops as [Ho Hops].
  cbn [run_lic_ops fst snd] in *. apply wp_bind. destruct o as [now l|now k].
  - eapply wp_mono; [by apply (start_inv_lic s0 st live now l)|]. intros [st' live'] Hi'. by apply IH.
  - cbn [run_lic_op]. destruct (live !! k) as [j|] eqn:Hk; [|by apply wp_ret, IH].
    apply wp_bind. eapply wp_mono; [by apply (return_inv_lic s0 st live now k j)|].
    intros [[st' j'] rc] [_ Hi']. apply wp_ret. by apply IH.
Qed.
End runs.

(** C23: licenses are never over-committed.  However jobs start, when
    [license_job_test] lets them, and end: for every configured license the
    number in use is exactly what the running jobs asked for and at most the
    number configured; no operation fails; and any running job can give its
    licenses back without an underflow. *)
Theorem licenses_never_overcommitted (resv : cstr -> Z) (s0 : list licenses) (t0 : Z) (ops : list lic_op) :
  lic_config_ok s0 -> (forall e, e ∈ s0 -> lic_used e = 0) -> Forall lic_op_ok ops ->
  wp (run_lic_ops resv ops (LicState (Some s0) t0, [])) (fun '(st, live) =>
    (exists s, license_list st = Some s /\ names s = names s0 /\ lic_total <$> s = lic_total <$> s0 /\
       forall e, e ∈ s -> lic_used e = live_req live (lic_name e) /\ lic_used e <= lic_total e) /\
    forall now k j, live !! k = Some j ->
      wp (license_job_return now st j) (fun '(_, _, rc) => rc = SLURM_SUCCESS)).
Proof.
  intros Hcfg Hzero Hops. eapply wp_mono; [apply (run_lic_ops_inv resv s0 ops _ Hcfg); [|done]|].
  - constructor; cbn [fst snd]; [|intros j Hj; by apply not_elem_of_nil in Hj].
    exists s0. split_and!; try done. intros e He. rewrite (Hzero e He). split; [done|]. by apply Hcfg.
  - intros [st live] Hi. split; [apply Hi|]. intros now k j Hk.
    eapply wp_mono; [by apply (return_inv_lic s0 st live now k j)|]. intros [[st' j'] rc] [Hrc _]. exact Hrc.
Qed.

(** Two licenses of "f" and three of "g". *)
Definition lic_f (n : Z) : licenses := License [102] n 0 0.
Definition lic_g (n : Z) : licenses := License [103] n 0 0.

Lemma lic_fg_ok : lic_config_ok [lic_f 2; lic_g 3].
Proof.
  split; [|intros e He; repeat (apply elem_of_cons in He as [->|He]; [simpl; lia|]); by apply not_elem_of_nil in He].
  apply (bool_decide_unpack _). by vm_compute.
Qed.

Lemma licenses_never_overcommitted_witness :
  wp (run_lic_ops (fun _ => 0) [StartJob 1 [lic_f 1; lic_g 3]; StartJob 2 [lic_f 2]; StartJob 3 [lic_f 1]; EndJob 4 0]
        (LicState (Some [lic_f 2; lic_g 3]) 1, []))
    (fun '(st, live) => exists s, license_list st = Some s /\ forall e, e ∈ s -> lic_used e <= lic_total e) /\
  wp (run_lic_ops (fun _ => 0) [StartJob 1 [lic_f 1; lic_g 3]; StartJob 2 [lic_f 2]; StartJob 3 [lic_f 1]; EndJob 4 0]
        (LicState (Some [lic_f 2; lic_g 3]) 1, []))
    (fun '(st, live) => (fun s : list licenses => lic_used <$> s) <$> license_list st = Some [1; 0]).
Proof.
  split; [|by vm_compute].
  eapply wp_mono; [apply (licenses_never_overcommitted (fun _ => 0) [lic_f 2; lic_g 3] 1)|].
  - exact lic_fg_ok.
  - intros e He. repeat (apply elem_of_cons in He as [->|He]; [reflexivity|]). by apply not_elem_of_nil in He.
  - assert (Hreq : forall l, bool_decide (NoDup (names l)) = true -> Forall (fun e => 0 <= lic_total e) l -> request_ok l).
    { intros l H1 H2. split; [exact (proj1 (bool_decide_eq_true _) H1)|]. exact (proj1 (Forall_forall _ _) H2). }
    rewrite !Forall_cons. cbn [lic_op_ok]. split_and!; try done; try (by apply Forall_nil);
      apply Hreq; (by vm_compute) || (repeat constructor; simpl; lia).
  - intros [st live] [(s & H1 & _ & _ & H2) _]. exists s. split; [exact H1|]. intros e He. by apply H2.
Defined.

(** ** License strings *)
Lemma names_insert l k e e' :
  l !! k = Some e -> lic_name e' = lic_name e -> names (<[k := e']> l) = names l.
Proof.
  intros Hk He. unfold names. rewrite list_fmap_insert, He. apply list_insert_id. by rewrite list_lookup_fmap, Hk.
Qed.

Definition built (l : list licenses) : Prop :=
  NoDup (names l) /\ forall e, e ∈ l -> 0 <= lic_total e < 2 ^ 32 /\ lic_used e = 0 /\ lic_remote e = 0.

Lemma add_license_built l n num : built l -> 0 <= num < 2 ^ 32 -> built (add_license l n num).
Proof.
  intros [Hnd Hl] Hnum. unfold add_license. destruct (find_rec l n) as [[k e]|] eqn:E.
  - destruct (find_rec_some _ _ _ _ E) as [Hk Hn]. split; [by rewrite (names_insert l k e)|].
    intros x Hx. apply list_elem_of_lookup in Hx as [i Hi].
    apply list_lookup_insert_Some in Hi as [(-> & <- & _)|[_ Hi]]; [|apply Hl; by eapply list_elem_of_lookup_2].
    destruct (Hl e ltac:(by eapply list_elem_of_lookup_2)) as (_ & H2 & H3). simpl. split; [|done].
    unfold u32. apply Z.mod_pos_bound. lia.
  - apply find_rec_none in E. split; [by apply NoDup_cons|]. intros x [->|Hx]%elem_of_cons; [done|auto].
Qed.

Lemma s32_range x : - 2 ^ 31 <= s32 x < 2 ^ 31.
Proof. unfold s32. pose proof (Z.mod_pos_bound (x + 2 ^ 31) (2 ^ 32)). lia. Qed.

Lemma scan_token_num buf token buf' num v : scan_token buf token = Ret (buf', num, v) -> num < 2 ^ 31.
Proof.
  apply (loop_partial (fun s : Z * list Z * Z => s.2 < 2 ^ 31) (fun r : list Z * Z * bool => r.1.2 < 2 ^ 31)); [|simpl; lia].
  intros [[i b] n] x Hn. destruct (aget b (token + i)) as [c| |]; [|done|done]. cbn [mbind exec_bind].
  destruct (c =? 0); [by intros [= <-]|]. destruct (isspace c); [by intros [= <-]|].
  destruct (is_sep c); [|by intros [= <-]].
  destruct (aset b (token + i) 0) as [b2| |]; [|done|done]. cbn [mbind exec_bind].
  destruct (cstr_at b2 (token + i + 1)) as [t| |]; [|done|done]. intros [= <-]. apply s32_range.
Qed.

Lemma build_license_list_built s l v : build_license_list s = Ret (Some l, v) -> built l.
Proof.
  destruct s as [[|c s]|]; [done| |done]. unfold build_license_list. cbv zeta.
  apply (loop_partial (fun s : list Z * Z * list licenses => built s.2)
    (fun r : option (list licenses) * bool => match r.1 with Some l => built l | None => True end)).
  2: { split; [apply NoDup_nil_2|]. intros e He. by apply not_elem_of_nil in He. }
  intros [[buf last] l0] x Hl0. destruct (strtok_r buf last) as [[[[token buf1] last1]|]| |]; try done; cbn [mbind exec_bind].
  2: { by intros [= <-]. }
  destruct (scan_token buf1 token) as [[[buf2 num] valid]| |] eqn:Es; try done. cbn [mbind exec_bind].
  destruct (Z.ltb_spec num 0); [by intros [= <-]|].
  destruct (cstr_at buf2 token) as [name| |]; try done. cbn [mbind exec_bind].
  pose proof (scan_token_num _ _ _ _ _ Es). destruct valid; intros [= <-]; [|done]. apply add_license_built; [done|lia].
Qed.

Lemma validate_entries_ok tres_pos sys l : forall tres tres',
  validate_entries tres_pos sys l tres = Ret (tres', true) ->
  forall e, e ∈ l -> exists s k m, sys = Some s /\ find_rec s (lic_name e) = Some (k, m) /\ lic_total e <= lic_total m.
Proof.
  induction l as [|x l IH]; intros tres tres' H e He; [by apply not_elem_of_nil in He|]. cbn [validate_entries] in H.
  destruct sys as [s|]; [|done]. cbn [mbind option_bind] in H.
  destruct (find_rec s (lic_name x)) as [[k m]|] eqn:Ef; [|done].
  destruct (Z.ltb_spec (lic_total m) (lic_total x)); [done|].
  destruct (set_tres tres_pos tres x) as [t| |]; try done. cbn [mbind exec_bind] in H.
  apply elem_of_cons in He as [->|He]; [by exists s, k, m|]. by eapply IH.
Qed.

(** a license request that [license_validate] accepts has each name once,
    counts within 32 bits and nothing in use, and every license it names is
    configured with at least the count requested. *)
Theorem validated_requests_are_configured (tres_pos : cstr -> Z) (st : lic_state) (s : option cstr)
    (tres tres' : option (list Z)) (l : list licenses) (valid : bool) :
  license_validate tres_pos st s tres = Ret (Some l, valid, tres') ->
  valid = true /\ NoDup (names l) /\ forall e, e ∈ l ->
    0 <= lic_total e < 2 ^ 32 /\ lic_used e = 0 /\ lic_total e <= get_total_license_cnt st (lic_name e).
Proof.
  unfold license_validate. destruct (build_license_list s) as [[[l0|] v0]| |] eqn:Eb; try done. cbn [mbind exec_bind].
  destruct (validate_entries tres_pos (license_list st) l0 tres) as [[t v]| |] eqn:Ev; try done. cbn [mbind exec_bind].
  destruct v; [|done]. intros [= <- <- <-]. destruct (build_license_list_built _ _ _ Eb) as [Hnd Hl].
  split; [done|]. split; [done|]. intros e He. destruct (Hl e He) as (H1 & H2 & _).
  destruct (validate_entries_ok _ _ _ _ _ Ev e He) as (sl & k & m & Hs & Hm & Hle).
  split; [done|]. split; [done|]. unfold get_total_license_cnt. rewrite Hs. cbn [mbind option_bind]. by rewrite Hm.
Qed.

Definition fg_state : lic_state := LicState (Some [lic_f 2; lic_g 3]) 1.
Lemma validated_requests_are_configured_witness :
  let l := [lic_g 2; lic_f 1] in
  license_validate (fun _ => -1) fg_state (Some [102; 44; 103; 58; 50]) None = Ret (Some l, true, None) /\
  NoDup (names l).
Proof.
  intros l. assert (H : license_validate (fun _ => -1) fg_state (Some [102; 44; 103; 58; 50]) None = Ret (Some l, true, None))
    by (vm_compute; reflexivity).
  split; [exact H|]. exact (proj1 (proj2 (validated_requests_are_configured _ _ _ _ _ _ _ H))).
Defined.

(** ** Printing and reading back *)
Definition plain (c : Z) : bool := negb (c =? 0) && negb (isspace c) && negb (is_sep c).
Definition name_char (c : Z) : bool := plain c && negb (is_delim c).

(** A license whose text fits the buffer and whose name has no special
    characters. *)
Record printable (e : licenses) : Prop := {
  pr_name : lic_name e <> [] /\ Forall (fun c => name_char c = true) (lic_name e);
  pr_total : 0 <= lic_total e < 2 ^ 31;
  pr_fits : (length (lic_name e) + length (fmt_d (lic_total e)) + 2 <= 127)%nat
}.

Definition body (e : licenses) : cstr := lic_name e ++ 42 :: fmt_d (lic_total e).
Fixpoint joined (l : list licenses) : cstr :=
  match l with [] => [] | [e] => body e | e :: l => body e ++ 44 :: joined l end.

Lemma license_text_body first e :
  printable e -> license_text first e = (if first then [] else [44]) ++ body e.
Proof.
  intros [_ _ Hf]. unfold license_text, body. apply take_ge. rewrite !length_app. destruct first; simpl; lia.
Qed.

Lemma license_texts_joined l :
  Forall printable l ->
  license_texts true l = joined l /\ license_texts false l = match l with [] => [] | _ => 44 :: joined l end.
Proof.
  induction l as [|e l IH]; intros HF; [done|]. apply Forall_cons in HF as [He HF]. destruct (IH HF) as [_ IH2].
  cbn [license_texts]. rewrite !license_text_body, IH2 by done. destruct l as [|e' l]; cbn [joined].
  - by rewrite !app_nil_r.
  - done.
Qed.

Lemma aget_app {A} (pre : list A) c post : aget (pre ++ c :: post) (Z.of_nat (length pre)) = Ret c.
Proof. apply aget_lookup; [lia|]. rewrite Nat2Z.id. by apply list_lookup_middle. Qed.

Lemma aset_app {A} (pre : list A) c c' post : aset (pre ++ c :: post) (Z.of_nat (length pre)) c' = Ret (pre ++ c' :: post).
Proof.
  unfold aset. rewrite (proj2 (andb_true_iff _ _)) by (rewrite length_app; simpl; lia).
  rewrite Nat2Z.id, insert_app_r_alt, Nat.sub_diag by lia. done.
Qed.

Lemma until_nul_app s post : Forall (fun c => (c =? 0) = false) s -> until_nul (s ++ 0 :: post) = Ret s.
Proof.
  induction s as [|c s IH]; intros HF; [done|]. apply Forall_cons in HF as [Hc HF]. cbn [app until_nul].
  by rewrite Hc, IH.
Qed.

Lemma cstr_at_app pre s post :
  Forall (fun c => (c =? 0) = false) s -> cstr_at (pre ++ s ++ 0 :: post) (Z.of_nat (length pre)) = Ret s.
Proof.
  intros HF. unfold cstr_at. rewrite (proj2 (andb_true_iff _ _)) by (rewrite !length_app; simpl; lia).
  by rewrite Nat2Z.id, drop_app_length, until_nul_app.
Qed.

(** A loop that looks for a character. *)
Lemma scan_while (stop : Z -> bool) (tok : list Z) : forall n (pre : list Z) (d : Z) (post : list Z),
  Forall (fun c => stop c = false) tok -> stop d = true -> (length tok < n)%nat ->
  loop n (fun p => c ← aget (pre ++ tok ++ d :: post) p; if stop c then Ret (inr p) else Ret (inl (p + 1)))
    (Z.of_nat (length pre)) = Ret (Z.of_nat (length pre + length tok)).
Proof.
  induction tok as [|c tok IH]; intros [|n] pre d post HF Hd Hn; simpl in Hn; try lia; rewrite loop_step; cbn [app].
  - rewrite aget_app. cbn [mbind exec_bind]. rewrite Hd. by rewrite Nat.add_0_r.
  - apply Forall_cons in HF as [Hc HF]. rewrite aget_app. cbn [mbind exec_bind]. rewrite Hc.
    specialize (IH n (pre ++ [c]) d post HF Hd ltac:(lia)). rewrite <-app_assoc, length_app in IH. cbn [app length] in IH.
    replace (Z.of_nat (length pre) + 1) with (Z.of_nat (length pre + 1)) by lia. rewrite IH. f_equal. simpl. lia.
Qed.

Definition token_step (token : Z) : Z * list Z * Z -> exec ((Z * list Z * Z) + (list Z * Z * bool)) :=
  fun '(i, buf, num) =>
    c ← aget buf (token + i);
    if c =? 0 then Ret (inr (buf, num, true))
    else if isspace c then Ret (inr (buf, num, false))
    else if is_sep c
    then buf ← aset buf (token + i) 0;
         s ← cstr_at buf (token + i + 1);
         Ret (inl (i + 2, buf, s32 (strtol s).1))
    else Ret (inl (i + 1, buf, num)).

Lemma scan_token_unfold buf token : scan_token buf token = loop (buf_fuel buf) (token_step token) (0, buf, 1).
Proof. reflexivity. Qed.

(** Ordinary characters are passed over. *)
Lemma scan_plain tok : forall n token i pre rest num,
  Forall (fun c => plain c = true) tok -> token + i = Z.of_nat (length pre) ->
  loop (length tok + n) (token_step token) (i, pre ++ tok ++ rest, num) =
  loop n (token_step token) (i + Z.of_nat (length tok), pre ++ tok ++ rest, num).
Proof.
  induction tok as [|c tok IH]; intros n token i pre rest num HF Hi; [by rewrite Z.add_0_r|].
  apply Forall_cons in HF as [Hc HF]. cbn [length Nat.add]. rewrite loop_step. unfold token_step at 1.
  rewrite Hi. cbn [app]. rewrite aget_app. cbn [mbind exec_bind].
  unfold plain in Hc. apply andb_true_iff in Hc as [[H1 H2]%andb_true_iff H3]. apply negb_true_iff in H1, H2, H3.
  rewrite H1, H2, H3. specialize (IH n token (i + 1) (pre ++ [c]) rest num HF).
  rewrite length_app, <-app_assoc in IH. cbn [app length] in IH. rewrite IH by lia.
  by replace (i + 1 + Z.of_nat (length tok)) with (i + Z.of_nat (S (length tok))) by lia.
Qed.

Lemma digit_plain c : isdigit c = true -> plain c = true /\ is_delim c = false.
Proof. unfold isdigit, plain, isspace, is_sep, is_delim. lia. Qed.

Lemma plain_nonzero c : plain c = true -> (c =? 0) = false.
Proof. unfold plain. by destruct (c =? 0). Qed.

Lemma name_plain n : Forall (fun c => name_char c = true) n -> Forall (fun c => plain c = true) n.
Proof. intros HF. eapply Forall_impl; [exact HF|]. intros c H. unfold name_char in H. by apply andb_true_iff in H as [? _]. Qed.
Lemma digits_plain n : 0 <= n -> Forall (fun c => plain c = true) (fmt_d n).
Proof. intros Hn. eapply Forall_impl; [apply (fmt_d_digits n Hn)|]. intros c Hc. by apply digit_plain. Qed.

Lemma scan_token_body pre e post :
  printable e ->
  scan_token (pre ++ body e ++ 0 :: post) (Z.of_nat (length pre)) =
  Ret (pre ++ lic_name e ++ 0 :: fmt_d (lic_total e) ++ 0 :: post, lic_total e, true).
Proof.
  intros [[_ Hn] Ht _]. set (digits := fmt_d (lic_total e)) in *. apply name_plain in Hn.
  pose proof (digits_plain (lic_total e) ltac:(lia)) as Hdp. fold digits in Hdp.
  rewrite scan_token_unfold. unfold body. fold digits. rewrite <-app_assoc. cbn [app].
  set (buf := pre ++ lic_name e ++ 42 :: digits ++ 0 :: post).
  assert (Hfuel : exists n, buf_fuel buf = (length (lic_name e) + S (length (tail digits) + S n))%nat).
  { exists (length pre + length digits - length (tail digits) + length post + 2)%nat. unfold buf_fuel, buf.
    rewrite !length_app. cbn [length]. rewrite length_app. cbn [length]. destruct digits; simpl; lia. }
  destruct Hfuel as [n ->]. unfold buf. rewrite (scan_plain (lic_name e)) by (done || lia).
  rewrite Z.add_0_l, loop_step. unfold token_step at 1.
  replace (Z.of_nat (length pre) + Z.of_nat (length (lic_name e))) with (Z.of_nat (length (pre ++ lic_name e))) by (rewrite length_app; lia).
  rewrite app_assoc, aget_app. cbn [mbind exec_bind Z.eqb isspace is_sep]. change (isspace 42) with false. change (is_sep 42) with true.
  cbv iota. rewrite aset_app. cbn [mbind exec_bind].
  assert (Hz : Forall (fun c => (c =? 0) = false) digits) by (eapply Forall_impl; [exact Hdp|]; intros c; apply plain_nonzero).
  pose proof (cstr_at_app ((pre ++ lic_name e) ++ [0]) digits post Hz) as Hc.
  rewrite <-app_assoc, length_app in Hc. cbn [app length] in Hc.
  replace (Z.of_nat (length (pre ++ lic_name e)) + 1) with (Z.of_nat (length (pre ++ lic_name e) + 1)) by lia.
  rewrite Hc. cbn [mbind exec_bind]. 
  assert (s32 (strtol digits).1 = lic_total e) as -> by (apply (atoi_fmt_d (lic_total e)); lia).
  destruct (fmt_d_digits (lic_total e) ltac:(lia)) as [_ Hne]. fold digits in Hne. destruct digits as [|d ds]; [done|].
  apply Forall_cons in Hdp as [_ Hds]. cbn [tail].
  assert (Hre : (pre ++ lic_name e) ++ 0 :: (d :: ds) ++ 0 :: post = ((pre ++ lic_name e) ++ [0; d]) ++ ds ++ 0 :: post)
    by (by rewrite <-!app_assoc).
  rewrite Hre, scan_plain by (done || (rewrite !length_app; simpl; lia)).
  rewrite loop_step. unfold token_step at 1.
  match goal with |- context [aget _ ?p] => replace p with (Z.of_nat (length (((pre ++ lic_name e) ++ [0; d]) ++ ds)))
    by (rewrite !length_app; simpl; lia) end.
  rewrite app_assoc, aget_app. cbn [mbind exec_bind Z.eqb]. by rewrite <-!app_assoc.
Qed.

Lemma strtok_body pre e d post :
  printable e -> d = 0 \/ d = 44 ->
  strtok_r (pre ++ body e ++ d :: post) (Z.of_nat (length pre)) =
  Ret (Some (Z.of_nat (length pre), pre ++ body e ++ 0 :: post,
             Z.of_nat (length pre + length (body e)) + (if d =? 0 then 0 else 1))).
Proof.
  intros [[Hne Hn] Ht _] Hd. unfold strtok_r.
  assert (Hbody : Forall (fun c => (c =? 0) || is_delim c = false) (body e) /\ body e <> []).
  { unfold body. split; [|by destruct (lic_name e)]. apply Forall_app. split.
    - eapply Forall_impl; [exact Hn|]. intros c Hc. unfold name_char in Hc. apply andb_true_iff in Hc as [H1%plain_nonzero H2%negb_true_iff].
      by rewrite H1, H2.
    - apply Forall_cons. split; [done|]. eapply Forall_impl; [apply (fmt_d_digits (lic_total e)); lia|].
      intros c Hc. destruct (digit_plain c Hc) as [H1%plain_nonzero ->]. by rewrite H1. }
  destruct Hbody as [Hbody Hb0]. destruct (body e) as [|c b] eqn:Eb; [done|]. cbn [app].
  pose proof Hbody as [[Hc1 Hc2]%orb_false_iff _]%Forall_cons.
  unfold buf_fuel. rewrite loop_step, aget_app. cbn [mbind exec_bind]. rewrite Hc2. cbn [mbind exec_bind].
  rewrite aget_app. cbn [mbind exec_bind]. rewrite Hc1.
  change (pre ++ c :: b ++ d :: post) with (pre ++ (c :: b) ++ d :: post).
  rewrite (scan_while (fun c => (c =? 0) || is_delim c) (c :: b)).
  2: { done. }
  2: { destruct Hd; by subst. }
  2: { rewrite !length_app. simpl. lia. }
  cbn [mbind exec_bind]. rewrite app_assoc, <-length_app, aget_app. cbn [mbind exec_bind].
  destruct Hd as [-> | ->]; cbn [Z.eqb]; [by rewrite Z.add_0_r, <-app_assoc|].
  rewrite aset_app. cbn [mbind exec_bind]. by rewrite <-app_assoc.
Qed.

Definition fresh_entry (e : licenses) : licenses := License (lic_name e) (lic_total e) 0 0.

Lemma build_loop l : forall n pre acc,
  Forall printable l -> NoDup (names l) -> (forall e, e ∈ l -> lic_name e ∉ names acc) -> (length l < n)%nat ->
  loop n (fun '(buf, last, l) =>
    r ← strtok_r buf last;
    match r with
    | None => Ret (inr (Some l, true))
    | Some (token, buf, last) =>
        '(buf, num, valid) ← scan_token buf token;
        if num <? 0 then Ret (inr (None, false)) else
        name ← cstr_at buf token;
        let l := add_license l name num in
        if (valid : bool) then Ret (inl (buf, last, l)) else Ret (inr (None, false))
    end) (pre ++ joined l ++ [0], Z.of_nat (length pre), acc) =
  Ret (Some (reverse (fresh_entry <$> l) ++ acc), true).
Proof.
  induction l as [|e l IH]; intros [|n] pre acc HF Hnd Hacc Hn; simpl in Hn; try lia; rewrite loop_step.
  { cbn [joined app fmap list_fmap]. unfold strtok_r, buf_fuel. rewrite loop_step, aget_app. cbn [mbind exec_bind].
    change (is_delim 0) with false. cbn [mbind exec_bind]. rewrite aget_app. done. }
  apply Forall_cons in HF as [He HF]. unfold names in Hnd. rewrite fmap_cons in Hnd. apply NoDup_cons in Hnd as [Hne Hnd].
  assert (Hsplit : exists d post, (d = 0 \/ d = 44) /\ joined (e :: l) ++ [0] = body e ++ d :: post /\
    (if d =? 0 then l = [] /\ post = [] else post = joined l ++ [0])).
  { destruct l as [|e' l]; [exists 0, []; split; [by left|done]|]. exists 44, (joined (e' :: l) ++ [0]). split; [by right|].
    split; [|done]. change (joined (e :: e' :: l)) with (body e ++ 44 :: joined (e' :: l)). by rewrite <-app_assoc. }
  destruct Hsplit as (d & post & Hd & -> & Hpost). rewrite strtok_body by done. cbn [mbind exec_bind].
  rewrite scan_token_body by done. cbn [mbind exec_bind]. destruct (pr_total _ He) as [Ht0 _].
  rewrite (proj2 (Z.ltb_ge (lic_total e) 0)) by done.
  assert (Hz : Forall (fun c => (c =? 0) = false) (lic_name e)).
  { eapply Forall_impl; [apply name_plain, (pr_name _ He)|]. intros c. apply plain_nonzero. }
  rewrite cstr_at_app by done. cbn [mbind exec_bind]. cbv zeta. unfold add_license.
  rewrite (proj2 (find_rec_none acc (lic_name e))) by (apply Hacc, elem_of_cons; by left).
  fold (fresh_entry e). rewrite fmap_cons, reverse_cons, <-app_assoc. cbn [app].
  assert (Hacc' : forall x, x ∈ l -> lic_name x ∉ names (fresh_entry e :: acc)).
  { intros x Hx. unfold names. rewrite fmap_cons, not_elem_of_cons. split.
    - intros E. apply Hne. cbn in E. rewrite <-E. by apply list_elem_of_fmap_2.
    - apply Hacc, elem_of_cons. by right. }
  assert (Hlen : length (body e) = (length (lic_name e) + 1 + length (fmt_d (lic_total e)))%nat)
    by (unfold body; rewrite length_app; simpl; lia).
  destruct Hd as [-> | ->]; cbn [Z.eqb] in Hpost |- *.
  - destruct Hpost as [-> ->].
    specialize (IH n (pre ++ lic_name e ++ 0 :: fmt_d (lic_total e)) (fresh_entry e :: acc) HF Hnd Hacc' ltac:(simpl in *; lia)).
    cbn [joined app] in IH. rewrite <-IH. f_equal. rewrite <-!app_assoc. cbn [app]. rewrite !length_app. cbn [length].
    do 2 f_equal. lia.
  - subst post.
    specialize (IH n (pre ++ lic_name e ++ 0 :: fmt_d (lic_total e) ++ [0]) (fresh_entry e :: acc) HF Hnd Hacc' ltac:(lia)).
    rewrite <-IH. f_equal. rewrite <-!app_assoc. cbn [app]. rewrite <-app_assoc. cbn [app]. rewrite !length_app. cbn [length].
    rewrite length_app. cbn [length]. do 2 f_equal. lia.
Qed.

Lemma build_printed l :
  l <> [] -> Forall printable l -> NoDup (names l) ->
  build_license_list (build_license_string (Some l)) = Ret (Some (reverse (fresh_entry <$> l)), true).
Proof.
  intros Hl HF Hnd. destruct (license_texts_joined l HF) as [Ht _].
  assert (Hb : build_license_string (Some l) = Some (joined l)) by (destruct l; [done|]; cbn [build_license_string]; by rewrite Ht).
  rewrite Hb. unfold build_license_list.
  assert (Hlen : (length l <= length (joined l))%nat).
  { clear. induction l as [|e [|e' l] IH]; [done|..].
    - cbn [joined]. unfold body. rewrite length_app. simpl. lia.
    - change (joined (e :: e' :: l)) with (body e ++ 44 :: joined (e' :: l)). rewrite length_app. simpl in *. lia. }
  assert (Hne : joined l <> []) by (intros E; rewrite E in Hlen; destruct l; [done|simpl in Hlen; lia]).
  pose proof (build_loop l (buf_fuel (joined l ++ [0])) [] [] HF Hnd) as H. rewrite app_nil_r in H.
  cbn [app length] in H. destruct (joined l) as [|c s]; [done|]. apply H.
  - intros e _. apply not_elem_of_nil.
  - unfold buf_fuel. rewrite length_app. simpl in *. lia.
Qed.

(** C24: license strings round trip.  For a non-empty list of licenses with
    distinct names that fit the 128 characters of the print buffer ([printable]: a name
    is not empty and has no white space, separator or delimiter, the count is below
    2^31, and the name, the count and two more characters are at most 127), printing the list and
    reading the text back gives the same names and counts, in reverse order; and
    rebuilding the licenses of a job from such a text keeps what it asks for.  The text of a
    longer name is cut off and loses its count ([long_name_loses_count]). *)
Theorem license_string_roundtrip (l : list licenses) :
  l <> [] -> Forall printable l -> NoDup (names l) ->
  build_license_list (build_license_string (Some l)) = Ret (Some (reverse (fresh_entry <$> l)), true) /\
  wp (license_job_merge (LicJob (build_license_string (Some l)) None)) (fun job =>
    exists l', job_license_list job = Some l' /\ names l' ≡ₚ names l /\
      forall n, requested l' n = requested l n).
Proof.
  intros Hl HF Hnd. pose proof (build_printed l Hl HF Hnd) as Hb. split; [done|].
  unfold license_job_merge. cbn [job_licenses]. rewrite Hb. cbn [mbind exec_bind wp].
  eexists. split; [done|].
  assert (Hp : names (reverse (fresh_entry <$> l)) ≡ₚ names l).
  { unfold names. rewrite reverse_Permutation, <-list_fmap_compose. done. }
  split; [done|]. intros n. unfold requested.
  assert (Hnd' : NoDup (names (reverse (fresh_entry <$> l)))) by (by rewrite Hp).
  destruct (find_rec l n) as [[k e]|] eqn:E.
  - destruct (find_rec_some _ _ _ _ E) as [Hk <-].
    destruct (find_rec_in _ (fresh_entry e) Hnd') as [k' Hk']; [|cbn [fresh_entry lic_name] in Hk'; by rewrite Hk'].
    rewrite elem_of_reverse. apply list_elem_of_fmap_2. by eapply list_elem_of_lookup_2.
  - apply find_rec_none in E. by rewrite (proj2 (find_rec_none _ n)) by (by rewrite Hp).
Qed.

Lemma fg_printable : Forall printable [lic_f 2; lic_g 13].
Proof.
  apply Forall_cons. split; [|apply Forall_cons; split; [|apply Forall_nil_2]];
    (constructor; [split; [done|by repeat constructor]|simpl; lia|vm_compute; lia]).
Qed.

Lemma license_string_roundtrip_witness :
  build_license_list (build_license_string (Some [lic_f 2; lic_g 13])) = Ret (Some [lic_g 13; lic_f 2], true).
Proof.
  refine (proj1 (license_string_roundtrip [lic_f 2; lic_g 13] _ fg_printable _)); [done|].
  apply (bool_decide_unpack _). by vm_compute.
Defined.

(** a reconfiguration replaces the licenses of the configuration file and
    keeps those of remote servers; all of them are free afterwards. *)
Theorem reconfiguration_keeps_remote (s : option cstr) (st : lic_state) (old : list licenses)
    (new : option (list licenses)) :
  license_list st = Some old -> build_license_list s = Ret (new, true) ->
  wp (license_update s st) (fun '(st', rc) => rc = SLURM_SUCCESS /\
    forall e, e ∈ default [] (license_list st') <->
      e ∈ default [] new \/ exists o, o ∈ old /\ lic_remote o <> 0 /\
        e = License (lic_name o) (lic_total o) 0 (lic_remote o)) /\
  forall e, e ∈ default [] new -> lic_used e = 0.
Proof.
  intros Hold Hb. split.
  2: { destruct new as [l|]; [|intros e He; by apply not_elem_of_nil in He].
       intros e He. by apply (build_license_list_built _ _ _ Hb). }
  unfold license_update. rewrite Hb. cbn [mbind exec_bind negb]. rewrite Hold. split; [done|]. intros e.
  assert (Hr : e ∈ remote_unused old <-> exists o, o ∈ old /\ lic_remote o <> 0 /\
    e = License (lic_name o) (lic_total o) 0 (lic_remote o)).
  { unfold remote_unused. rewrite list_elem_of_fmap. setoid_rewrite list_elem_of_filter. split.
    - intros (o & -> & H1 & H2). eauto.
    - intros (o & H1 & H2 & ->). eauto. }
  rewrite <-Hr. destruct (remote_unused old) as [|r rs].
  - cbn [license_list]. split; [auto|]. intros [?|H]; [done|by apply not_elem_of_nil in H].
  - cbn [license_list default from_option id]. by rewrite elem_of_app.
Qed.

Lemma reconfiguration_keeps_remote_witness :
  wp (license_update (Some [102; 58; 50]) (LicState (Some [lic_g 3; License [104; 64; 104] 7 4 1]) 1)) (fun '(st', rc) =>
    rc = SLURM_SUCCESS) /\
  wp (license_update (Some [102; 58; 50]) (LicState (Some [lic_g 3; License [104; 64; 104] 7 4 1]) 1)) (fun '(st', _) =>
    license_list st' = Some [lic_f 2; License [104; 64; 104] 7 0 1]).
Proof.
  split; [|by vm_compute].
  assert (Hb : build_license_list (Some [102; 58; 50]) = Ret (Some [lic_f 2], true)) by (vm_compute; reflexivity).
  eapply wp_mono; [exact (proj1 (reconfiguration_keeps_remote _ (LicState (Some [lic_g 3; License [104; 64; 104] 7 4 1]) 1)
    _ _ eq_refl Hb))|].
  intros [st' rc] [H _]. exact H.
Defined.

(** ** Divergences *)

(** In "a:,b:3" the scan of the first token runs over its end: "a" gets the
    count of "b", and "b" the default. *)
Lemma empty_count_takes_neighbours :
  build_license_list (Some [97; 58; 44; 98; 58; 51]) =
    Ret (Some [License [98] 1 0 0; License [97] 3 0 0], true).
Proof. by vm_compute. Qed.

(** In "a:" it runs over the end of the string. *)
Lemma empty_count_reads_past_end : build_license_list (Some [97; 58]) = Fault.
Proof. by vm_compute. Qed.

(** When a reconfiguration has removed all licenses, a running job cannot give
    its licenses back: [list_find_first] asserts that the list exists. *)
Lemma return_without_licenses_faults :
  wp (license_update None fg_state) (fun '(st, _) =>
    license_list st = None /\ license_job_return 1 st (LicJob None (Some [lic_f 1])) = Fault).
Proof. by vm_compute. Qed.

(** A long name is cut off in the license string together with the count. *)
Lemma long_name_loses_count :
  build_license_string (Some [License (replicate 127 97) 5 0 0]) = Some (replicate 127 97).
Proof. by vm_compute. Qed.
