(* ===== verification/Cbuf.v ===== *)
(** * Circular buffers: src/common/cbuf.c

    The standard-output path of the step daemon and the log code keep bytes in
    circular buffers that can grow.  A [cbuf] is modelled as in a build with
    assertions: the block returned by [malloc] carries a magic cookie before and
    after the data, every [assert] of the source is executed, and touching
    memory outside the block, overflowing an [int] or taking a mutex twice is a
    [Fault].  The data written to or read from file descriptors go through
    scripts of the results of [read] and [write]. *)

From S2P Require Import Prelude.

Local Open Scope Z_scope.
Local Open Scope slurm_scope.

Definition EINTR : Z := 4.
Definition EINVAL : Z := 22.
Definition ENOSPC : Z := 28.

Definition CBUF_CHUNK : Z := 1000.
Definition CBUF_MAGIC : Z := 0xDEADBEEF.
Definition CBUF_MAGIC_LEN : Z := 8.

Inductive cbuf_overwrite : Set := CBUF_NO_DROP | CBUF_WRAP_ONCE | CBUF_WRAP_MANY.

#[global] Instance cbuf_overwrite_eq_dec : EqDecision cbuf_overwrite.
Proof. solve_decision. Defined.

(** [cb_data] is the whole block, cookies included; the C field [data] points
    [CBUF_MAGIC_LEN] bytes into it.  [cb_mutex] tells whether the mutex is
    held. *)
Record cbuf : Set := Cbuf {
  cb_magic : Z;
  cb_mutex : bool;
  cb_alloc : Z;
  cb_minsize : Z;
  cb_maxsize : Z;
  cb_size : Z;
  cb_used : Z;
  cb_overwrite : cbuf_overwrite;
  cb_got_wrap : bool;
  cb_i_in : Z;
  cb_i_out : Z;
  cb_i_rep : Z;
  cb_data : list Z
}.

Definition set_mutex (b : bool) (cb : cbuf) : cbuf :=
  Cbuf (cb_magic cb) b (cb_alloc cb) (cb_minsize cb) (cb_maxsize cb) (cb_size cb) (cb_used cb)
    (cb_overwrite cb) (cb_got_wrap cb) (cb_i_in cb) (cb_i_out cb) (cb_i_rep cb) (cb_data cb).
Definition set_overwrite (o : cbuf_overwrite) (cb : cbuf) : cbuf :=
  Cbuf (cb_magic cb) (cb_mutex cb) (cb_alloc cb) (cb_minsize cb) (cb_maxsize cb) (cb_size cb) (cb_used cb)
    o (cb_got_wrap cb) (cb_i_in cb) (cb_i_out cb) (cb_i_rep cb) (cb_data cb).
Definition set_out (used i_out : Z) (cb : cbuf) : cbuf :=
  Cbuf (cb_magic cb) (cb_mutex cb) (cb_alloc cb) (cb_minsize cb) (cb_maxsize cb) (cb_size cb) used
    (cb_overwrite cb) (cb_got_wrap cb) (cb_i_in cb) i_out (cb_i_rep cb) (cb_data cb).
Definition set_data (data : list Z) (cb : cbuf) : cbuf :=
  Cbuf (cb_magic cb) (cb_mutex cb) (cb_alloc cb) (cb_minsize cb) (cb_maxsize cb) (cb_size cb) (cb_used cb)
    (cb_overwrite cb) (cb_got_wrap cb) (cb_i_in cb) (cb_i_out cb) (cb_i_rep cb) data.

(** A function returns a count, or -1 with [errno] set. *)
Inductive cres : Set := Val (n : Z) | Err (errno : Z).
Definition rc (r : cres) : Z := match r with Val n => n | Err _ => -1 end.

(** [memcpy] and [memmove] from and to an object of bytes. *)
Definition mem_get (m : list Z) (p n : Z) : exec (list Z) :=
  if (0 <=? p) && (0 <=? n) && (p + n <=? Z.of_nat (length m))
  then Ret (take (Z.to_nat n) (drop (Z.to_nat p) m)) else Fault.
Definition mem_put (m : list Z) (p : Z) (bs : list Z) : exec (list Z) :=
  if (0 <=? p) && (p + Z.of_nat (length bs) <=? Z.of_nat (length m))
  then Ret (take (Z.to_nat p) m ++ bs ++ drop (Z.to_nat p + length bs) m) else Fault.

(** The bytes of an [unsigned long] in memory. *)
Definition cookie (v : Z) : list Z := (fun k => Z.land (Z.shiftr v (8 * k)) 255) <$> seqZ 0 8.

(** [x % (cb->size + 1)], [x] computed in [int]. *)
Definition ring (cb : cbuf) (x : Z) : exec Z :=
  x ← i32 x; Ret (Z.rem x (cb_size cb + 1)).

Definition slurm_mutex_lock (cb : cbuf) : exec cbuf :=
  if cb_mutex cb then Fault else Ret (set_mutex true cb).
Definition slurm_mutex_unlock (cb : cbuf) : exec cbuf :=
  if cb_mutex cb then Ret (set_mutex false cb) else Fault.
Definition _cbuf_mutex_is_locked (cb : cbuf) : bool := cb_mutex cb.

(** The conjunction of the assertions; the one on [overwrite] holds by the type
    of the field. *)
Definition _cbuf_is_valid (cb : cbuf) : bool :=
  _cbuf_mutex_is_locked cb &&
  (cb_magic cb =? CBUF_MAGIC) &&
  bool_decide (take 8 (cb_data cb) = cookie (cb_magic cb)) &&
  bool_decide (take 8 (drop (Z.to_nat (CBUF_MAGIC_LEN + cb_size cb + 1)) (cb_data cb)) = cookie (cb_magic cb)) &&
  (0 <? cb_alloc cb) && (cb_size cb <? cb_alloc cb) && (0 <? cb_size cb) &&
  (cb_minsize cb <=? cb_size cb) && (cb_size cb <=? cb_maxsize cb) &&
  (0 <? cb_minsize cb) && (0 <? cb_maxsize cb) &&
  (0 <=? cb_used cb) && (cb_used cb <=? cb_size cb) &&
  (cb_got_wrap cb || (cb_i_rep cb =? 0)) &&
  (0 <=? cb_i_in cb) && (cb_i_in cb <=? cb_size cb) &&
  (0 <=? cb_i_out cb) && (cb_i_out cb <=? cb_size cb) &&
  (0 <=? cb_i_rep cb) && (cb_i_rep cb <=? cb_size cb) &&
  (if cb_i_out cb <=? cb_i_in cb
   then (cb_i_in cb <? cb_i_rep cb) || (cb_i_rep cb <=? cb_i_out cb)
   else (cb_i_in cb <? cb_i_rep cb) && (cb_i_rep cb <=? cb_i_out cb)) &&
  (cb_size cb - cb_used cb =?
     Z.rem (cb_i_out cb - cb_i_in cb - 1 + (cb_size cb + 1)) (cb_size cb + 1)).

(** ** Creation, destruction and the state of a buffer *)

Section allocator.
(** What fresh memory holds, and whether a [realloc] of that many bytes
    succeeds.  When [malloc] fails the process aborts. *)
Variable junk : Z.
Variable realloc_ok : Z -> bool.

Definition malloc (n : Z) : exec (list Z) := if n <? 0 then Fault else Ret (replicate (Z.to_nat n) junk).
Definition realloc (m : list Z) (n : Z) : list Z :=
  take (Z.to_nat n) m ++ replicate (Z.to_nat n - length m) junk.

Definition cbuf_create (minsize maxsize : Z) : exec (cbuf + Z) :=
  if minsize <=? 0 then Ret (inr EINVAL) else
  alloc ← i32 (minsize + 1);
  let alloc := s32 (alloc + 2 * CBUF_MAGIC_LEN) in
  data ← malloc alloc;
  data ← mem_put data 0 (cookie CBUF_MAGIC);
  data ← mem_put data (CBUF_MAGIC_LEN + minsize + 1) (cookie CBUF_MAGIC);
  let cb := Cbuf CBUF_MAGIC false alloc minsize (if minsize <? maxsize then maxsize else minsize)
              minsize 0 CBUF_WRAP_MANY false 0 0 0 data in
  cb ← slurm_mutex_lock cb;
  assert! _cbuf_is_valid cb;;
  cb ← slurm_mutex_unlock cb;
  Ret (inl cb).

Definition cbuf_destroy (cb : cbuf) : exec unit :=
  cb ← slurm_mutex_lock cb;
  assert! _cbuf_is_valid cb;;
  let magic := Z.lxor CBUF_MAGIC (2 ^ 32 - 1) in
  data ← mem_put (cb_data cb) 0 (cookie magic);
  _ ← mem_put data (CBUF_MAGIC_LEN + cb_size cb + 1) (cookie magic);
  _ ← slurm_mutex_unlock cb;
  Ret tt.

Definition cbuf_flush (cb : cbuf) : exec cbuf :=
  cb ← slurm_mutex_lock cb;
  assert! _cbuf_is_valid cb;;
  let cb := Cbuf (cb_magic cb) (cb_mutex cb) (cb_alloc cb) (cb_minsize cb) (cb_maxsize cb) (cb_size cb) 0
              (cb_overwrite cb) false 0 0 0 (cb_data cb) in
  assert! _cbuf_is_valid cb;;
  slurm_mutex_unlock cb.

(** The body of a function that only looks at the buffer. *)
Definition with_lock {A : Type} (cb : cbuf) (f : cbuf -> exec A) : exec (A * cbuf) :=
  cb ← slurm_mutex_lock cb;
  assert! _cbuf_is_valid cb;;
  a ← f cb;
  cb ← slurm_mutex_unlock cb;
  Ret (a, cb).

Definition cbuf_size (cb : cbuf) : exec (Z * cbuf) := with_lock cb (fun cb => Ret (cb_maxsize cb)).
Definition cbuf_free (cb : cbuf) : exec (Z * cbuf) :=
  with_lock cb (fun cb => Ret (cb_maxsize cb - cb_used cb)).
Definition cbuf_used (cb : cbuf) : exec (Z * cbuf) := with_lock cb (fun cb => Ret (cb_used cb)).
Definition cbuf_reused (cb : cbuf) : exec (Z * cbuf) :=
  with_lock cb (fun cb => ring cb (cb_i_out cb - cb_i_rep cb + (cb_size cb + 1))).
Definition cbuf_is_empty (cb : cbuf) : exec (bool * cbuf) :=
  with_lock cb (fun cb => Ret (cb_used cb =? 0)).

(** Options: [CBUF_OPT_OVERWRITE] is 0, the only option name. *)
Definition overwrite_int (o : cbuf_overwrite) : Z :=
  match o with CBUF_NO_DROP => 0 | CBUF_WRAP_ONCE => 1 | CBUF_WRAP_MANY => 2 end.

(** [value] says whether the pointer is not [NULL]; the option's value comes
    with the return code. *)
Definition cbuf_opt_get (cb : cbuf) (name : Z) (value : bool) : exec (cres * option Z * cbuf) :=
  if negb value then Ret (Err EINVAL, None, cb) else
  '(r, v, cb) ← with_lock cb (fun cb =>
     Ret (if name =? 0 then (Val 0, Some (overwrite_int (cb_overwrite cb))) else (Err EINVAL, None)));
  Ret (r, v, cb).

Definition cbuf_opt_set (cb : cbuf) (name value : Z) : exec (cres * cbuf) :=
  cb ← slurm_mutex_lock cb;
  assert! _cbuf_is_valid cb;;
  let '(r, cb) :=
    if name =? 0 then
      if value =? 0 then (Val 0, set_overwrite CBUF_NO_DROP cb)
      else if value =? 1 then (Val 0, set_overwrite CBUF_WRAP_ONCE cb)
      else if value =? 2 then (Val 0, set_overwrite CBUF_WRAP_MANY cb)
      else (Err EINVAL, cb)
    else (Err EINVAL, cb) in
  assert! _cbuf_is_valid cb;;
  cb ← slurm_mutex_unlock cb;
  Ret (r, cb).

(** ** Growing *)

Definition cbuf_grow (cb : cbuf) (n : Z) : exec (Z * cbuf) :=
  assert! 0 <? n;;
  assert! _cbuf_mutex_is_locked cb;;
  if cb_size cb =? cb_maxsize cb then Ret (0, cb) else
  let size_old := cb_size cb in
  let size_meta := cb_alloc cb - cb_size cb in
  assert! 0 <? size_meta;;
  m ← i32 (cb_alloc cb + n);
  m ← i32 (m + (CBUF_CHUNK - Z.rem m CBUF_CHUNK));
  top ← i32 (cb_maxsize cb + size_meta);
  let m := Z.min m top in
  assert! cb_alloc cb <? m;;
  if negb (realloc_ok m) then Ret (0, cb) else
  let data := realloc (cb_data cb) m in
  let alloc := m in
  let size := m - size_meta in
  data ← mem_put data (CBUF_MAGIC_LEN + size + 1) (cookie (cb_magic cb));
  '(data, i_out, i_rep) ←
    (if cb_i_in cb <? cb_i_rep cb then
       let n := (size_old + 1) - cb_i_rep cb in
       let m := (size + 1) - n in
       bs ← mem_get data (CBUF_MAGIC_LEN + cb_i_rep cb) n;
       data ← mem_put data (CBUF_MAGIC_LEN + m) bs;
       let i_out := if cb_i_rep cb <=? cb_i_out cb then cb_i_out cb + (m - cb_i_rep cb) else cb_i_out cb in
       Ret (data, i_out, m)
     else Ret (data, cb_i_out cb, cb_i_rep cb));
  let cb := Cbuf (cb_magic cb) (cb_mutex cb) alloc (cb_minsize cb) (cb_maxsize cb) size (cb_used cb)
              (cb_overwrite cb) (cb_got_wrap cb) (cb_i_in cb) i_out i_rep data in
  assert! _cbuf_is_valid cb;;
  Ret (size - size_old, cb).

Definition cbuf_shrink (cb : cbuf) : exec Z :=
  assert! _cbuf_mutex_is_locked cb;;
  assert! _cbuf_is_valid cb;;
  if cb_size cb =? cb_minsize cb then Ret 0 else
  if cb_size cb - cb_used cb <=? CBUF_CHUNK then Ret 0 else
  assert! _cbuf_is_valid cb;;
  Ret 0.

(** ** Moving bytes in and out *)

Definition cbuf_dropper (cb : cbuf) (len : Z) : exec (Z * cbuf) :=
  assert! 0 <? len;;
  assert! len <=? cb_used cb;;
  assert! _cbuf_mutex_is_locked cb;;
  i_out ← ring cb (cb_i_out cb + len);
  let cb := set_out (cb_used cb - len) i_out cb in
  _ ← (if (CBUF_CHUNK <? cb_size cb - cb_used cb) && (cb_minsize cb <? cb_size cb)
       then cbuf_shrink cb else Ret 0);
  Ret (len, cb).

Section putf.
(** [putf] is given the bytes of the buffer and the object they go to. *)
Context {D : Type}.
Variable putf : list Z -> D -> exec (cres * D).

(** The copy loop that [cbuf_reader] and [cbuf_replayer] share. *)
Definition put_loop (src : cbuf) (len i_src : Z) (dst : D) : exec (Z * cres * D) :=
  loop (S (Z.to_nat len)) (fun '(nleft, i_src, m, dst) =>
    if nleft <=? 0 then Ret (inr (nleft, m, dst)) else
    let n := Z.min nleft ((cb_size src + 1) - i_src) in
    bs ← mem_get (cb_data src) (CBUF_MAGIC_LEN + i_src) n;
    '(m, dst) ← putf bs dst;
    '(nleft, i_src) ←
      (if 0 <? rc m then i ← ring src (i_src + rc m); Ret (nleft - rc m, i) else Ret (nleft, i_src));
    Ret (if negb (n =? rc m) then inr (nleft, m, dst) else inl (nleft, i_src, m, dst)))
  (len, i_src, Val 0, dst).

Definition cbuf_reader (src : cbuf) (len : Z) (dst : D) : exec (cres * D) :=
  assert! 0 <? len;;
  assert! _cbuf_mutex_is_locked src;;
  let len := Z.min len (cb_used src) in
  if len =? 0 then Ret (Val 0, dst) else
  '(nleft, m, dst) ← put_loop src len (cb_i_out src) dst;
  let n := len - nleft in
  assert! (0 <=? n) && (n <=? len);;
  Ret (if n =? 0 then m else Val n, dst).

Definition cbuf_replayer (src : cbuf) (len : Z) (dst : D) : exec (cres * D) :=
  assert! 0 <? len;;
  assert! _cbuf_mutex_is_locked src;;
  n ← ring src (cb_i_out src - cb_i_rep src + (cb_size src + 1));
  let len := Z.min len n in
  if len =? 0 then Ret (Val 0, dst) else
  i_src ← ring src (cb_i_out src - len + (cb_size src + 1));
  '(nleft, m, dst) ← put_loop src len i_src dst;
  let n := len - nleft in
  assert! (0 <=? n) && (n <=? len);;
  Ret (if n =? 0 then m else Val n, dst).
End putf.

Section getf.
(** [getf] is given a number of bytes and the object they come from; its result
    has the bytes it stored. *)
Context {S : Type}.
Variable getf : Z -> S -> exec (cres * list Z * S).

Definition get_loop (dst : cbuf) (len : Z) (src : S) : exec (Z * Z * cres * list Z * S) :=
  loop (Datatypes.S (Z.to_nat len)) (fun '(nleft, i_dst, m, data, src) =>
    if nleft <=? 0 then Ret (inr (nleft, i_dst, m, data, src)) else
    let n := Z.min nleft ((cb_size dst + 1) - i_dst) in
    '(m, bs, src) ← getf n src;
    data ← mem_put data (CBUF_MAGIC_LEN + i_dst) bs;
    '(nleft, i_dst) ←
      (if 0 <? rc m then i ← ring dst (i_dst + rc m); Ret (nleft - rc m, i) else Ret (nleft, i_dst));
    Ret (if negb (n =? rc m) then inr (nleft, i_dst, m, data, src) else inl (nleft, i_dst, m, data, src)))
  (len, cb_i_in dst, Val 0, cb_data dst, src).

(** The update of the indexes after [n] bytes went in before [i_dst]. *)
Definition note_written (dst : cbuf) (data : list Z) (nfree n i_dst : Z) : exec cbuf :=
  nrepl ← ring dst (cb_i_out dst - cb_i_rep dst + (cb_size dst + 1));
  used ← i32 (cb_used dst + n);
  e ← ring dst (cb_i_in dst + n);
  assert! i_dst =? e;;
  '(got_wrap, i_rep) ←
    (if nfree - nrepl <? n then i ← ring dst (i_dst + 1); Ret (true, i)
     else Ret (cb_got_wrap dst, cb_i_rep dst));
  let i_out := if nfree <? n then i_rep else cb_i_out dst in
  Ret (Cbuf (cb_magic dst) (cb_mutex dst) (cb_alloc dst) (cb_minsize dst) (cb_maxsize dst) (cb_size dst)
         (Z.min used (cb_size dst)) (cb_overwrite dst) got_wrap i_dst i_out i_rep data).

(** "Attempt to grow dst cbuf if necessary". *)
Definition make_room (dst : cbuf) (len : Z) : exec (Z * cbuf) :=
  let nfree := cb_size dst - cb_used dst in
  if (nfree <? len) && (cb_size dst <? cb_maxsize dst)
  then '(g, dst) ← cbuf_grow dst (len - nfree); Ret (nfree + g, dst)
  else Ret (nfree, dst).

(** The number of bytes to write under the buffer's overwrite option. *)
Definition write_len (dst : cbuf) (len : Z) : Z :=
  match cb_overwrite dst with
  | CBUF_NO_DROP => Z.min len (cb_size dst - cb_used dst)
  | CBUF_WRAP_ONCE => Z.min len (cb_size dst)
  | CBUF_WRAP_MANY => len
  end.
Definition no_space (dst : cbuf) (len : Z) : bool :=
  bool_decide (cb_overwrite dst = CBUF_NO_DROP) && (len =? 0).

(** The third component is the value stored through [ndropped], if any is. *)
Definition cbuf_writer (dst : cbuf) (len : Z) (src : S) : exec (cres * option Z * cbuf * S) :=
  assert! 0 <? len;;
  assert! _cbuf_mutex_is_locked dst;;
  '(nfree, dst) ← make_room dst len;
  let len := write_len dst len in
  if no_space dst len then Ret (Err ENOSPC, None, dst, src) else
  '(nleft, i_dst, m, data, src) ← get_loop dst len src;
  let n := len - nleft in
  assert! (0 <=? n) && (n <=? len);;
  if n =? 0 then Ret (m, None, set_data data dst, src) else
  dst ← note_written dst data nfree n i_dst;
  Ret (Val n, Some (Z.max 0 (n - nfree)), dst, src).
End getf.

(** [cbuf_copier] copies at most as many bytes as fit into the destination, the
    last ones when it wraps more than once. *)
Definition copy_loop (src dst : cbuf) (ncopy i_src : Z) : exec (Z * list Z) :=
  loop (S (Z.to_nat ncopy)) (fun '(nleft, i_src, i_dst, data) =>
    if nleft <=? 0 then Ret (inr (i_dst, data)) else
    let n := Z.min ((cb_size src + 1) - i_src) ((cb_size dst + 1) - i_dst) in
    let n := Z.min n nleft in
    bs ← mem_get (cb_data src) (CBUF_MAGIC_LEN + i_src) n;
    data ← mem_put data (CBUF_MAGIC_LEN + i_dst) bs;
    i_src ← ring src (i_src + n);
    i_dst ← ring dst (i_dst + n);
    Ret (inl (nleft - n, i_src, i_dst, data)))
  (ncopy, i_src, cb_i_in dst, cb_data dst).

Definition cbuf_copier (src dst : cbuf) (len : Z) : exec (cres * option Z * cbuf) :=
  assert! 0 <? len;;
  assert! _cbuf_mutex_is_locked src;;
  assert! _cbuf_mutex_is_locked dst;;
  let len := Z.min len (cb_used src) in
  if len =? 0 then Ret (Val 0, None, dst) else
  '(nfree, dst) ← make_room dst len;
  let len := write_len dst len in
  if no_space dst len then Ret (Err ENOSPC, None, dst) else
  let ndropped := Z.max 0 (len - cb_size dst + cb_used dst) in
  '(ncopy, i_src) ←
    (if cb_size dst <? len then
       let n := len - cb_size dst in
       i ← ring src (cb_i_out src + n);
       Ret (len - n, i)
     else Ret (len, cb_i_out src));
  '(i_dst, data) ← copy_loop src dst ncopy i_src;
  dst ← (if 0 <? ncopy then note_written dst data nfree ncopy i_dst else Ret (set_data data dst));
  Ret (Val len, Some ndropped, dst).

(** ** Lines *)

Definition newline : Z := 10.

(** [chars], [lines] and [n], [m], [l] are the variables of the source; the
    result is the byte count and the line count. *)
Definition cbuf_find_unread_line (cb : cbuf) (chars nlines : Z) : exec (Z * Z) :=
  assert! -1 <=? nlines;;
  assert! _cbuf_mutex_is_locked cb;;
  let lines := nlines in
  if (lines =? 0) || ((lines <=? -1) && (chars <=? 0)) then Ret (0, 0) else
  if cb_used cb =? 0 then Ret (0, 0) else
  let chars := if 0 <? lines then -1 else chars in
  '(lines, m, l) ← loop (Z.to_nat (cb_size cb + 2)) (fun '(i, n, m, l, chars, lines) =>
     if i =? cb_i_in cb then Ret (inr (lines, m, l)) else
     let n := n + 1 in
     let chars := if 0 <? chars then chars - 1 else chars in
     c ← aget (cb_data cb) (CBUF_MAGIC_LEN + i);
     let '(lines, m, l) :=
       if c =? newline then (if 0 <? lines then lines - 1 else lines, n, l + 1) else (lines, m, l) in
     if (chars =? 0) || (lines =? 0) then Ret (inr (lines, m, l)) else
     i ← ring cb (i + 1);
     Ret (inl (i, n, m, l, chars, lines)))
   (cb_i_out cb, 0, 0, 0, chars, lines);
  if 0 <? lines then Ret (0, 0) else Ret (m, l).

(** The result also has the value of [nl]: whether a newline is needed to end
    the replayed data. *)
Definition cbuf_find_replay_line (cb : cbuf) (chars nlines : Z) : exec (Z * Z * bool) :=
  assert! -1 <=? nlines;;
  assert! _cbuf_mutex_is_locked cb;;
  let lines := nlines in
  if (lines =? 0) || ((lines <=? -1) && (chars <=? 0)) then Ret (0, 0, false) else
  if cb_i_out cb =? cb_i_rep cb then Ret (0, 0, false) else
  chars ← (if 0 <? lines then Ret (-1) else i32 (chars + 1));
  last ← ring cb (cb_i_out cb + cb_size cb);
  c ← aget (cb_data cb) (CBUF_MAGIC_LEN + last);
  '(nl, chars, lines, l) ←
    (if negb (c =? newline) then Ret (true, chars - 1, lines, 0)
     else lines ← (if 0 <? lines then i32 (lines + 1) else Ret lines); Ret (false, chars, lines, -1));
  '(chars, lines, n, m, l) ← loop (Z.to_nat (cb_size cb + 2)) (fun '(i, n, m, l, chars, lines) =>
     if i =? cb_i_rep cb then Ret (inr (chars, lines, n, m, l)) else
     i ← ring cb (i + cb_size cb);
     let n := n + 1 in
     let chars := if 0 <? chars then chars - 1 else chars in
     c ← aget (cb_data cb) (CBUF_MAGIC_LEN + i);
     let '(lines, m, l) :=
       if c =? newline then (if 0 <? lines then lines - 1 else lines, n - 1, l + 1) else (lines, m, l) in
     if (chars =? 0) || (lines =? 0) then Ret (inr (chars, lines, n, m, l))
     else Ret (inl (i, n, m, l, chars, lines)))
   (cb_i_out cb, 0, 0, l, chars, lines);
  let '(lines, m, l) :=
    if negb (cb_got_wrap cb) && ((0 <? chars) || (0 <? lines))
    then (if 0 <? lines then lines - 1 else lines, n, l + 1) else (lines, m, l) in
  if 0 <? lines then Ret (0, 0, nl) else Ret (m, l, nl).

Definition cbuf_lines_used (cb : cbuf) : exec (Z * cbuf) :=
  with_lock cb (fun cb => snd <$> cbuf_find_unread_line cb (cb_size cb) (-1)).
Definition cbuf_lines_reused (cb : cbuf) : exec (Z * cbuf) :=
  with_lock cb (fun cb => '(_, l, _) ← cbuf_find_replay_line cb (cb_size cb) (-1); Ret l).

(** ** The objects on the other side of a transfer *)

(** Memory: an object and the offset of the pointer into it. *)
Record mem : Set := Mem { mem_bytes : list Z; mem_pos : Z }.

Definition cbuf_put_mem (bs : list Z) (dst : mem) : exec (cres * mem) :=
  let len := Z.of_nat (length bs) in
  assert! 0 <? len;;
  m ← mem_put (mem_bytes dst) (mem_pos dst) bs;
  Ret (Val len, Mem m (mem_pos dst + len)).

Definition cbuf_get_mem (len : Z) (src : mem) : exec (cres * list Z * mem) :=
  assert! 0 <? len;;
  bs ← mem_get (mem_bytes src) (mem_pos src) len;
  Ret (Val len, bs, Mem (mem_bytes src) (mem_pos src + len)).

(** A descriptor open for reading: what the coming calls of [read] find.  With
    no event left the file is at its end. *)
Inductive rd_event : Set := RdData (bs : list Z) | RdErr (errno : Z).

Fixpoint read_fd (len : Z) (s : list rd_event) : cres * list Z * list rd_event :=
  match s with
  | [] => (Val 0, [], [])
  | RdErr e :: s' => if e =? EINTR then read_fd len s' else (Err e, [], s')
  | RdData bs :: s' =>
      let got := take (Z.to_nat len) bs in
      (Val (Z.of_nat (length got)), got,
       match drop (Z.to_nat len) bs with [] => s' | rest => RdData rest :: s' end)
  end.

Definition cbuf_get_fd (len : Z) (s : list rd_event) : exec (cres * list Z * list rd_event) :=
  assert! 0 <? len;;
  Ret (read_fd len s).

(** A descriptor open for writing: the bytes written so far and how many bytes
    the coming calls of [write] take; with no event left they take all. *)
Inductive wr_event : Set := WrTake (n : nat) | WrErr (errno : Z).
Record wr_fd : Set := WrFd { wr_out : list Z; wr_script : list wr_event }.

Fixpoint write_fd (bs out : list Z) (s : list wr_event) : cres * wr_fd :=
  match s with
  | [] => (Val (Z.of_nat (length bs)), WrFd (out ++ bs) [])
  | WrErr e :: s' => if e =? EINTR then write_fd bs out s' else (Err e, WrFd out s')
  | WrTake n :: s' => (Val (Z.of_nat (length (take n bs))), WrFd (out ++ take n bs) s')
  end.

Definition cbuf_put_fd (bs : list Z) (dst : wr_fd) : exec (cres * wr_fd) :=
  assert! 0 <? Z.of_nat (length bs);;
  Ret (write_fd bs (wr_out dst) (wr_script dst)).

(** ** Public operations

    A buffer of the caller is [None] for [NULL], or the object the pointer
    points to the start of. *)

Definition cbuf_drop (src : cbuf) (len : Z) : exec (cres * cbuf) :=
  if len <? -1 then Ret (Err EINVAL, src) else
  if len =? 0 then Ret (Val 0, src) else
  src ← slurm_mutex_lock src;
  assert! _cbuf_is_valid src;;
  let len := if len =? -1 then cb_used src else Z.min len (cb_used src) in
  src ← (if 0 <? len then snd <$> cbuf_dropper src len else Ret src);
  assert! _cbuf_is_valid src;;
  src ← slurm_mutex_unlock src;
  Ret (Val len, src).

Definition cbuf_peek (src : cbuf) (dstbuf : option (list Z)) (len : Z) :
    exec (cres * cbuf * option (list Z)) :=
  match dstbuf with
  | None => Ret (Err EINVAL, src, dstbuf)
  | Some d =>
      if len <? 0 then Ret (Err EINVAL, src, dstbuf) else
      if len =? 0 then Ret (Val 0, src, dstbuf) else
      src ← slurm_mutex_lock src;
      assert! _cbuf_is_valid src;;
      '(n, d) ← cbuf_reader cbuf_put_mem src len (Mem d 0);
      assert! _cbuf_is_valid src;;
      src ← slurm_mutex_unlock src;
      Ret (n, src, Some (mem_bytes d))
  end.

Definition cbuf_read (src : cbuf) (dstbuf : option (list Z)) (len : Z) :
    exec (cres * cbuf * option (list Z)) :=
  match dstbuf with
  | None => Ret (Err EINVAL, src, dstbuf)
  | Some d =>
      if len <? 0 then Ret (Err EINVAL, src, dstbuf) else
      if len =? 0 then Ret (Val 0, src, dstbuf) else
      src ← slurm_mutex_lock src;
      assert! _cbuf_is_valid src;;
      '(n, d) ← cbuf_reader cbuf_put_mem src len (Mem d 0);
      src ← (if 0 <? rc n then snd <$> cbuf_dropper src (rc n) else Ret src);
      assert! _cbuf_is_valid src;;
      src ← slurm_mutex_unlock src;
      Ret (n, src, Some (mem_bytes d))
  end.

Definition cbuf_replay (src : cbuf) (dstbuf : option (list Z)) (len : Z) :
    exec (cres * cbuf * option (list Z)) :=
  match dstbuf with
  | None => Ret (Err EINVAL, src, dstbuf)
  | Some d =>
      if len <? 0 then Ret (Err EINVAL, src, dstbuf) else
      if len =? 0 then Ret (Val 0, src, dstbuf) else
      src ← slurm_mutex_lock src;
      assert! _cbuf_is_valid src;;
      '(n, d) ← cbuf_replayer cbuf_put_mem src len (Mem d 0);
      assert! _cbuf_is_valid src;;
      src ← slurm_mutex_unlock src;
      Ret (n, src, Some (mem_bytes d))
  end.

(** [if (n > 0) { used += n; i_out = (i_out - n + (size+1)) % (size+1); }] *)
Definition rewind_by (src : cbuf) (n : Z) : exec cbuf :=
  if 0 <? n then
    used ← i32 (cb_used src + n);
    i_out ← ring src (cb_i_out src - n + (cb_size src + 1));
    Ret (set_out used i_out src)
  else Ret src.

Definition cbuf_rewind (src : cbuf) (len : Z) : exec (cres * cbuf) :=
  if len <? -1 then Ret (Err EINVAL, src) else
  if len =? 0 then Ret (Val 0, src) else
  src ← slurm_mutex_lock src;
  assert! _cbuf_is_valid src;;
  reused ← ring src (cb_i_out src - cb_i_rep src + (cb_size src + 1));
  let len := if len =? -1 then reused else Z.min len reused in
  src ← rewind_by src len;
  assert! _cbuf_is_valid src;;
  src ← slurm_mutex_unlock src;
  Ret (Val len, src).

(** The second component is [*ndropped]. *)
Definition cbuf_write (dst : cbuf) (srcbuf : option (list Z)) (len : Z) : exec (cres * Z * cbuf) :=
  match srcbuf with
  | None => Ret (Err EINVAL, 0, dst)
  | Some s =>
      if len <? 0 then Ret (Err EINVAL, 0, dst) else
      if len =? 0 then Ret (Val 0, 0, dst) else
      dst ← slurm_mutex_lock dst;
      assert! _cbuf_is_valid dst;;
      '(n, d, dst, _) ← cbuf_writer cbuf_get_mem dst len (Mem s 0);
      assert! _cbuf_is_valid dst;;
      dst ← slurm_mutex_unlock dst;
      Ret (n, default 0 d, dst)
  end.

Definition cbuf_drop_line (src : cbuf) (len lines : Z) : exec (cres * cbuf) :=
  if (len <? 0) || (lines <? -1) then Ret (Err EINVAL, src) else
  if lines =? 0 then Ret (Val 0, src) else
  src ← slurm_mutex_lock src;
  assert! _cbuf_is_valid src;;
  '(n, _) ← cbuf_find_unread_line src len lines;
  src ← (if 0 <? n then snd <$> cbuf_dropper src n else Ret src);
  assert! _cbuf_is_valid src;;
  src ← slurm_mutex_unlock src;
  Ret (Val n, src).

(** [m = MIN(n, len - 1)] bytes go to [dstbuf], then a NUL. *)
Definition put_line (src : cbuf) (d : list Z) (len n : Z) : exec (list Z) :=
  if (0 <? n) && (0 <? len) then
    let m := Z.min n (len - 1) in
    d ← (if 0 <? m then
           '(l, d) ← cbuf_reader cbuf_put_mem src m (Mem d 0);
           assert! (rc l =? 0) || (rc l =? m);;
           Ret (mem_bytes d)
         else Ret d);
    assert! m <? len;;
    aset d m 0
  else Ret d.

Definition cbuf_peek_line (src : cbuf) (dstbuf : option (list Z)) (len lines : Z) :
    exec (cres * cbuf * option (list Z)) :=
  match dstbuf with
  | None => Ret (Err EINVAL, src, dstbuf)
  | Some d =>
      if (len <? 0) || (lines <? -1) then Ret (Err EINVAL, src, dstbuf) else
      if lines =? 0 then Ret (Val 0, src, dstbuf) else
      src ← slurm_mutex_lock src;
      assert! _cbuf_is_valid src;;
      '(n, _) ← cbuf_find_unread_line src (len - 1) lines;
      d ← put_line src d len n;
      assert! _cbuf_is_valid src;;
      src ← slurm_mutex_unlock src;
      Ret (Val n, src, Some d)
  end.

Definition cbuf_read_line (src : cbuf) (dstbuf : option (list Z)) (len lines : Z) :
    exec (cres * cbuf * option (list Z)) :=
  match dstbuf with
  | None => Ret (Err EINVAL, src, dstbuf)
  | Some d =>
      if (len <? 0) || (lines <? -1) then Ret (Err EINVAL, src, dstbuf) else
      if lines =? 0 then Ret (Val 0, src, dstbuf) else
      src ← slurm_mutex_lock src;
      assert! _cbuf_is_valid src;;
      '(n, _) ← cbuf_find_unread_line src (len - 1) lines;
      d ← put_line src d len n;
      src ← (if 0 <? n then snd <$> cbuf_dropper src n else Ret src);
      assert! _cbuf_is_valid src;;
      src ← slurm_mutex_unlock src;
      Ret (Val n, src, Some d)
  end.

Definition cbuf_replay_line (src : cbuf) (dstbuf : option (list Z)) (len lines : Z) :
    exec (cres * cbuf * option (list Z)) :=
  match dstbuf with
  | None => Ret (Err EINVAL, src, dstbuf)
  | Some d =>
      if (len <? 0) || (lines <? -1) then Ret (Err EINVAL, src, dstbuf) else
      if lines =? 0 then Ret (Val 0, src, dstbuf) else
      src ← slurm_mutex_lock src;
      assert! _cbuf_is_valid src;;
      '(n, _, nl) ← cbuf_find_replay_line src (len - 1) lines;
      '(n, d) ←
        (if (0 <? n) && (0 <? len) then
           let nl := Z.b2z nl in
           let m := Z.max (Z.min n (len - 1 - nl)) 0 in
           d ← (if 0 <? m then
                  '(l, d) ← cbuf_replayer cbuf_put_mem src m (Mem d 0);
                  assert! (rc l =? 0) || (rc l =? m);;
                  Ret (mem_bytes d)
                else Ret d);
           '(m, d) ← (if negb (nl =? 0) && (1 <? len) then d ← aset d m newline; Ret (m + 1, d)
                      else Ret (m, d));
           assert! m <? len;;
           d ← aset d m 0;
           Ret (n + nl, d)
         else Ret (n, d));
      assert! _cbuf_is_valid src;;
      src ← slurm_mutex_unlock src;
      Ret (Val n, src, Some d)
  end.

Definition cbuf_rewind_line (src : cbuf) (len lines : Z) : exec (cres * cbuf) :=
  if (len <? 0) || (lines <? -1) then Ret (Err EINVAL, src) else
  if lines =? 0 then Ret (Val 0, src) else
  src ← slurm_mutex_lock src;
  assert! _cbuf_is_valid src;;
  '(n, _, _) ← cbuf_find_replay_line src len lines;
  src ← rewind_by src n;
  assert! _cbuf_is_valid src;;
  src ← slurm_mutex_unlock src;
  Ret (Val n, src).

(** The value stored through the pointer to [d]; using it unset is an error. *)
Definition the_drop (d : option Z) : exec Z := match d with Some d => Ret d | None => Fault end.

(** [srcbuf] is a C string; in memory a NUL follows it. *)
Definition cbuf_write_line (dst : cbuf) (srcbuf : option cstr) : exec (cres * Z * cbuf) :=
  match srcbuf with
  | None => Ret (Err EINVAL, 0, dst)
  | Some s =>
      let str := s ++ [0] in
      let ncopy := s32 (Z.of_nat (length s)) in
      c ← (if ncopy =? 0 then Ret 0 else aget str (ncopy - 1));
      len ← (if (ncopy =? 0) || negb (c =? newline) then i32 (ncopy + 1) else Ret ncopy);
      dst ← slurm_mutex_lock dst;
      assert! _cbuf_is_valid dst;;
      '(_, dst) ← make_room dst len;
      let '(len, err) :=
        match cb_overwrite dst with
        | CBUF_NO_DROP => if cb_size dst - cb_used dst <? len then (-1, Err ENOSPC) else (len, Val len)
        | CBUF_WRAP_ONCE => if cb_size dst <? len then (-1, Err ENOSPC) else (len, Val len)
        | CBUF_WRAP_MANY => (len, Val len)
        end in
      '(ndrop, dst) ←
        (if 0 <? len then
           let '(ndrop, ncopy) :=
             if cb_size dst <? len then (len - cb_size dst, ncopy - (len - cb_size dst)) else (0, ncopy) in
           '(ndrop', dst) ←
             (if 0 <? ncopy then
                '(n, d, dst, _) ← cbuf_writer cbuf_get_mem dst ncopy (Mem str ndrop);
                assert! (rc n =? 0) || (rc n =? ncopy);;
                d ← the_drop d;
                Ret (ndrop + d, dst)
              else Ret (ndrop, dst));
           c ← aget str (len - 1);
           if negb (c =? newline) then
             '(n, d, dst, _) ← cbuf_writer cbuf_get_mem dst 1 (Mem [newline; 0] 0);
             assert! rc n =? 1;;
             d ← the_drop d;
             Ret (ndrop' + d, dst)
           else Ret (ndrop', dst)
         else Ret (0, dst));
      assert! _cbuf_is_valid dst;;
      dst ← slurm_mutex_unlock dst;
      Ret (err, ndrop, dst)
  end.

(** ** File descriptors *)

Definition cbuf_peek_to_fd (src : cbuf) (dstfd : Z) (fd : wr_fd) (len : Z) : exec (cres * cbuf * wr_fd) :=
  if (dstfd <? 0) || (len <? -1) then Ret (Err EINVAL, src, fd) else
  src ← slurm_mutex_lock src;
  assert! _cbuf_is_valid src;;
  let len := if len =? -1 then cb_used src else len in
  '(n, fd) ← (if 0 <? len then cbuf_reader cbuf_put_fd src len fd else Ret (Val 0, fd));
  assert! _cbuf_is_valid src;;
  src ← slurm_mutex_unlock src;
  Ret (n, src, fd).

Definition cbuf_read_to_fd (src : cbuf) (dstfd : Z) (fd : wr_fd) (len : Z) : exec (cres * cbuf * wr_fd) :=
  if (dstfd <? 0) || (len <? -1) then Ret (Err EINVAL, src, fd) else
  src ← slurm_mutex_lock src;
  assert! _cbuf_is_valid src;;
  let len := if len =? -1 then cb_used src else len in
  '(n, src, fd) ←
    (if 0 <? len then
       '(n, fd) ← cbuf_reader cbuf_put_fd src len fd;
       src ← (if 0 <? rc n then snd <$> cbuf_dropper src (rc n) else Ret src);
       Ret (n, src, fd)
     else Ret (Val 0, src, fd));
  assert! _cbuf_is_valid src;;
  src ← slurm_mutex_unlock src;
  Ret (n, src, fd).

Definition cbuf_replay_to_fd (src : cbuf) (dstfd : Z) (fd : wr_fd) (len : Z) : exec (cres * cbuf * wr_fd) :=
  if (dstfd <? 0) || (len <? -1) then Ret (Err EINVAL, src, fd) else
  src ← slurm_mutex_lock src;
  assert! _cbuf_is_valid src;;
  let len := if len =? -1 then cb_size src - cb_used src else len in
  '(n, fd) ← (if 0 <? len then cbuf_replayer cbuf_put_fd src len fd else Ret (Val 0, fd));
  assert! _cbuf_is_valid src;;
  src ← slurm_mutex_unlock src;
  Ret (n, src, fd).

Definition cbuf_write_from_fd (dst : cbuf) (srcfd : Z) (fd : list rd_event) (len : Z) :
    exec (cres * Z * cbuf * list rd_event) :=
  if (srcfd <? 0) || (len <? -1) then Ret (Err EINVAL, 0, dst, fd) else
  dst ← slurm_mutex_lock dst;
  assert! _cbuf_is_valid dst;;
  let len :=
    if len =? -1 then
      if cb_size dst - cb_used dst =? 0 then CBUF_CHUNK else cb_size dst - cb_used dst
    else len in
  '(n, d, dst, fd) ←
    (if 0 <? len then cbuf_writer cbuf_get_fd dst len fd else Ret (Val 0, None, dst, fd));
  assert! _cbuf_is_valid dst;;
  dst ← slurm_mutex_unlock dst;
  Ret (n, default 0 d, dst, fd).

(** ** Two buffers

    Pointers to buffers are indexes into a store; mutexes are taken in the
    order of the addresses. *)

Definition lock_at (st : list cbuf) (p : Z) : exec (list cbuf) :=
  cb ← aget st p; cb ← slurm_mutex_lock cb; aset st p cb.
Definition unlock_at (st : list cbuf) (p : Z) : exec (list cbuf) :=
  cb ← aget st p; cb ← slurm_mutex_unlock cb; aset st p cb.
Definition lock_both (st : list cbuf) (src dst : Z) : exec (list cbuf) :=
  if src <? dst then st ← lock_at st src; lock_at st dst
  else st ← lock_at st dst; lock_at st src.
Definition check_both (st : list cbuf) (src dst : Z) : exec unit :=
  s ← aget st src;
  d ← aget st dst;
  assert! _cbuf_is_valid s;;
  assert_ (_cbuf_is_valid d).

Definition cbuf_copy (st : list cbuf) (src dst len : Z) : exec (cres * Z * list cbuf) :=
  if src =? dst then Ret (Err EINVAL, 0, st) else
  if len <? -1 then Ret (Err EINVAL, 0, st) else
  if len =? 0 then Ret (Val 0, 0, st) else
  st ← lock_both st src dst;
  _ ← check_both st src dst;
  s ← aget st src;
  d ← aget st dst;
  let len := if len =? -1 then cb_used s else len in
  '(n, nd, d) ← (if 0 <? len then cbuf_copier s d len else Ret (Val 0, None : option Z, d));
  st ← aset st dst d;
  _ ← check_both st src dst;
  st ← unlock_at st src;
  st ← unlock_at st dst;
  Ret (n, default 0 nd, st).

Definition cbuf_move (st : list cbuf) (src dst len : Z) : exec (cres * Z * list cbuf) :=
  if src =? dst then Ret (Err EINVAL, 0, st) else
  if len <? -1 then Ret (Err EINVAL, 0, st) else
  if len =? 0 then Ret (Val 0, 0, st) else
  st ← lock_both st src dst;
  _ ← check_both st src dst;
  s ← aget st src;
  d ← aget st dst;
  let len := if len =? -1 then cb_used s else len in
  '(n, nd, s, d) ←
    (if 0 <? len then
       '(n, nd, d) ← cbuf_copier s d len;
       s ← (if 0 <? rc n then snd <$> cbuf_dropper s (rc n) else Ret s);
       Ret (n, nd, s, d)
     else Ret (Val 0, None : option Z, s, d));
  st ← aset st src s;
  st ← aset st dst d;
  _ ← check_both st src dst;
  st ← unlock_at st src;
  st ← unlock_at st dst;
  Ret (n, default 0 nd, st).
End allocator.
