(* ===== verification/CbufFacts.v ===== *)
(** * Circular buffers: the invariant and the steps of the operations

    The bytes of a buffer are read through [byte]; [cyc] is a slice of the ring.
    [cb_inv] is the invariant of a buffer whose mutex is ignored; it implies
    every assertion of [_cbuf_is_valid].  [unread] and [replay] are the bytes
    waiting to be read and those that can be replayed. *)

From S2P Require Import Prelude Cbuf.

Local Open Scope Z_scope.
Local Open Scope slurm_scope.

#[global] Arguments _cbuf_is_valid : simpl never.
#[global] Arguments cookie : simpl never.
#[global] Arguments mem_get : simpl never.
#[global] Arguments mem_put : simpl never.
#[global] Arguments ring : simpl never.
#[global] Arguments i32 : simpl never.

(** ** Slices of a ring *)

Section cyc.
Implicit Types (g : Z -> Z) (N i n k : Z).

Definition cyc g N i n : list Z := (fun k => g ((i + k) `mod` N)) <$> seqZ 0 n.

Lemma length_cyc g N i n : Z.of_nat (length (cyc g N i n)) = Z.max 0 n.
Proof. unfold cyc. rewrite length_fmap, length_seqZ. lia. Qed.

Lemma lookup_cyc g N i n (j : nat) :
  Z.of_nat j < n -> cyc g N i n !! j = Some (g ((i + Z.of_nat j) `mod` N)).
Proof. intros Hj. unfold cyc. rewrite list_lookup_fmap, lookup_seqZ_lt by lia. done. Qed.

Lemma lookup_cyc_Some g N i n (j : nat) x :
  cyc g N i n !! j = Some x -> Z.of_nat j < n /\ x = g ((i + Z.of_nat j) `mod` N).
Proof.
  intros Hx. pose proof (lookup_lt_Some _ _ _ Hx) as Hl. pose proof (length_cyc g N i n).
  rewrite lookup_cyc in Hx by lia. split; [lia|congruence].
Qed.

Lemma cyc_nil g N i n : n <= 0 -> cyc g N i n = [].
Proof. intros Hn. unfold cyc. by rewrite seqZ_nil. Qed.

(** A list is a slice when its elements are those of the ring. *)
Lemma cyc_intro g N i (l : list Z) :
  (forall (j : nat) x, l !! j = Some x -> g ((i + Z.of_nat j) `mod` N) = x) ->
  cyc g N i (Z.of_nat (length l)) = l.
Proof.
  intros Hl. apply list_eq_same_length with (length l); [done| |].
  { pose proof (length_cyc g N i (Z.of_nat (length l))). lia. }
  intros j x y Hj Hx Hy. apply lookup_cyc_Some in Hx as [_ ->]. by apply Hl.
Qed.

Lemma cyc_ext g g' N N' i i' n :
  (forall k, 0 <= k < n -> g ((i + k) `mod` N) = g' ((i' + k) `mod` N')) ->
  cyc g N i n = cyc g' N' i' n.
Proof.
  intros H. unfold cyc. apply list_fmap_ext. intros j x Hx.
  apply lookup_seqZ in Hx as [-> Hj]. apply H. lia.
Qed.

Lemma cyc_app g N i a b : 0 <= a -> 0 <= b -> cyc g N i (a + b) = cyc g N i a ++ cyc g N (i + a) b.
Proof.
  intros Ha Hb. unfold cyc. rewrite seqZ_app, fmap_app by lia. f_equal.
  apply list_eq. intros j. rewrite !list_lookup_fmap. destruct (decide (Z.of_nat j < b)).
  - rewrite !lookup_seqZ_lt by lia. cbn. do 2 f_equal. f_equal. lia.
  - rewrite !lookup_seqZ_ge by lia. done.
Qed.

Lemma cyc_take g N i n a : 0 <= a <= n -> take (Z.to_nat a) (cyc g N i n) = cyc g N i a.
Proof.
  intros Ha. replace n with (a + (n - a)) by lia. rewrite cyc_app by lia.
  apply take_app_length'. pose proof (length_cyc g N i a). lia.
Qed.

Lemma cyc_drop g N i n a : 0 <= a <= n -> drop (Z.to_nat a) (cyc g N i n) = cyc g N (i + a) (n - a).
Proof.
  intros Ha. replace n with (a + (n - a)) at 1 by lia. rewrite cyc_app by lia.
  apply drop_app_length'. pose proof (length_cyc g N i a). lia.
Qed.

Lemma cyc_mod g N i n : 0 < N -> cyc g N (i `mod` N) n = cyc g N i n.
Proof. intros HN. apply cyc_ext. intros k _. by rewrite Zplus_mod_idemp_l. Qed.
End cyc.

(** Remainders of sums of indexes. *)
Lemma mod_once (x N : Z) : 0 <= x < 2 * N -> x `mod` N = if x <? N then x else x - N.
Proof.
  intros Hx. destruct (Z.ltb_spec x N); [apply Z.mod_small; lia|].
  rewrite <-(Z.mod_small (x - N) N) by lia. rewrite <-(Z_mod_plus_full (x - N) 1 N). f_equal. lia.
Qed.

Lemma mod_shift (x y N : Z) (q : Z) : 0 <= y < N -> x = y + q * N -> x `mod` N = y.
Proof. intros Hy ->. rewrite Z_mod_plus_full. by apply Z.mod_small. Qed.

(** ** Memory *)

(** Byte [i] of the data of a block, after the first cookie. *)
Definition byte (m : list Z) (i : Z) : Z := default 0 (m !! Z.to_nat (CBUF_MAGIC_LEN + i)).

Lemma wp_mem_put (m : list Z) (p : Z) (bs : list Z) (Q : list Z -> Prop) :
  0 <= p -> p + Z.of_nat (length bs) <= Z.of_nat (length m) ->
  (forall m', length m' = length m ->
     (forall j : nat, m' !! j =
        if (p <=? Z.of_nat j) && (Z.of_nat j <? p + Z.of_nat (length bs))
        then bs !! (j - Z.to_nat p)%nat else m !! j) -> Q m') ->
  wp (mem_put m p bs) Q.
Proof.
  intros Hp Hlen HQ. unfold mem_put. rewrite (proj2 (andb_true_iff _ _)) by lia. apply wp_ret, HQ.
  { rewrite !length_app, length_take, length_drop. lia. }
  intros j. rewrite lookup_app, length_take. destruct (decide (Z.of_nat j < p)) as [Hj|Hj].
  { rewrite lookup_take_lt by lia. if_false. destruct (m !! j) eqn:E; [done|].
    apply lookup_ge_None_1 in E. lia. }
  rewrite lookup_take_ge by lia. rewrite lookup_app.
  replace (j - Z.to_nat p `min` length m)%nat with (j - Z.to_nat p)%nat by lia.
  destruct (bs !! (j - Z.to_nat p)%nat) eqn:E.
  { apply lookup_lt_Some in E as Hl. by if_true. }
  apply lookup_ge_None_1 in E. if_false. rewrite lookup_drop. f_equal. lia.
Qed.

Lemma wp_mem_get (m : list Z) (p n : Z) (Q : list Z -> Prop) :
  0 <= p -> 0 <= n -> p + n <= Z.of_nat (length m) ->
  Q (take (Z.to_nat n) (drop (Z.to_nat p) m)) -> wp (mem_get m p n) Q.
Proof. intros. unfold mem_get. rewrite !(proj2 (andb_true_iff _ _)) by lia. done. Qed.

(** A piece of the data that does not reach past the end of the ring. *)
Lemma piece_cyc (m : list Z) (N i n : Z) :
  0 <= i -> 0 <= n -> i + n <= N -> CBUF_MAGIC_LEN + N <= Z.of_nat (length m) ->
  take (Z.to_nat n) (drop (Z.to_nat (CBUF_MAGIC_LEN + i)) m) = cyc (byte m) N i n.
Proof.
  unfold CBUF_MAGIC_LEN. intros Hi Hn Hle Hm.
  set (l := take _ _). assert (Hl : Z.of_nat (length l) = n).
  { unfold l. rewrite length_take, length_drop. lia. }
  rewrite <-Hl. symmetry. apply cyc_intro. intros j x Hx.
  apply lookup_lt_Some in Hx as Hj. unfold l in Hx. rewrite lookup_take_lt, lookup_drop in Hx by lia.
  rewrite Z.mod_small by lia. unfold byte, CBUF_MAGIC_LEN.
  replace (Z.to_nat (8 + (i + Z.of_nat j))) with (Z.to_nat (8 + i) + j)%nat by lia. by rewrite Hx.
Qed.

(** ** The invariant *)

(** The sizes for which no [int] computation of the code overflows. *)
Definition CB_LIMIT : Z := 2 ^ 29.

Record cb_inv (cb : cbuf) : Prop := {
  inv_magic : cb_magic cb = CBUF_MAGIC;
  inv_first : take 8 (cb_data cb) = cookie CBUF_MAGIC;
  inv_last : take 8 (drop (Z.to_nat (CBUF_MAGIC_LEN + cb_size cb + 1)) (cb_data cb)) = cookie CBUF_MAGIC;
  inv_length : Z.of_nat (length (cb_data cb)) = cb_alloc cb;
  inv_alloc : cb_alloc cb = cb_size cb + 17;
  inv_min : 0 < cb_minsize cb <= cb_size cb;
  inv_max : cb_size cb <= cb_maxsize cb <= CB_LIMIT;
  inv_in : 0 <= cb_i_in cb <= cb_size cb;
  inv_out : 0 <= cb_i_out cb <= cb_size cb;
  inv_rep : 0 <= cb_i_rep cb <= cb_size cb;
  inv_used : cb_used cb = (cb_i_in cb - cb_i_out cb) `mod` (cb_size cb + 1);
  inv_fits : (cb_i_out cb - cb_i_rep cb) `mod` (cb_size cb + 1) + cb_used cb <= cb_size cb;
  inv_wrap : cb_got_wrap cb = true \/ cb_i_rep cb = 0
}.

(** Number of bytes that can be replayed. *)
Definition reused (cb : cbuf) : Z := (cb_i_out cb - cb_i_rep cb) `mod` (cb_size cb + 1).
Definition replay (cb : cbuf) : list Z :=
  cyc (byte (cb_data cb)) (cb_size cb + 1) (cb_i_rep cb) (reused cb).
Definition unread (cb : cbuf) : list Z :=
  cyc (byte (cb_data cb)) (cb_size cb + 1) (cb_i_out cb) (cb_used cb).

Lemma mod_diff (a b N : Z) : 0 <= a < N -> 0 <= b < N -> (a - b) `mod` N = if b <=? a then a - b else a - b + N.
Proof.
  intros Ha Hb. destruct (Z.leb_spec b a); [apply Z.mod_small; lia|].
  apply (mod_shift _ _ _ (-1)); lia.
Qed.

(** The index conditions of [cb_inv], without remainders. *)
Lemma inv_indexes cb : cb_inv cb ->
  cb_used cb = (if cb_i_out cb <=? cb_i_in cb then cb_i_in cb - cb_i_out cb
                else cb_i_in cb - cb_i_out cb + (cb_size cb + 1)) /\
  reused cb = (if cb_i_rep cb <=? cb_i_out cb then cb_i_out cb - cb_i_rep cb
               else cb_i_out cb - cb_i_rep cb + (cb_size cb + 1)) /\
  0 <= reused cb /\ 0 <= cb_used cb /\ reused cb + cb_used cb <= cb_size cb.
Proof.
  intros [_ _ _ _ _ ? _ ? ? ? Hu Hf _]. fold (reused cb) in Hf. unfold reused in *.
  rewrite (mod_diff (cb_i_in cb)) in Hu by lia. rewrite (mod_diff (cb_i_out cb)) in * by lia.
  repeat case_match; lia.
Qed.

Lemma valid_intro cb : cb_inv cb -> cb_mutex cb = true -> _cbuf_is_valid cb = true.
Proof.
  intros Hi Hm. pose proof (inv_indexes cb Hi) as (Hu & Hr & ?). destruct Hi as [Hmag Hc1 Hc2 ? ? ? ? ? ? ? _ _ Hw].
  unfold _cbuf_is_valid, _cbuf_mutex_is_locked. rewrite Hm, Hmag.
  rewrite (bool_decide_true _ Hc1), (bool_decide_true _ Hc2), Z.rem_mod_nonneg by lia.
  assert (cb_got_wrap cb || (cb_i_rep cb =? 0) = true) as -> by (destruct Hw as [->| ->]; [done|apply orb_true_r]).
  rewrite mod_once by lia. rewrite Z.eqb_refl. cbn [andb].
  rewrite !andb_true_iff, !Z.ltb_lt, !Z.leb_le, Z.eqb_eq. repeat split; try lia; repeat case_match; lia.
Qed.

Lemma inv_set_mutex b cb : cb_inv cb -> cb_inv (set_mutex b cb).
Proof. by intros []. Qed.
#[global] Hint Resolve inv_set_mutex : slurm.

(** ** Remainders computed in [int] *)
Lemma wp_ring cb x (Q : Z -> Prop) :
  cb_inv cb -> 0 <= x <= i32_max -> Q (x `mod` (cb_size cb + 1)) -> wp (ring cb x) Q.
Proof.
  intros [] Hx HQ. unfold ring. apply wp_bind, wp_i32; [unfold i32_min; lia|].
  apply wp_ret. by rewrite Z.rem_mod_nonneg by lia.
Qed.

(** The source adds [size + 1] to a difference of indexes before it takes the
    remainder. *)
Lemma wp_ring_sub cb a b (Q : Z -> Prop) :
  cb_inv cb -> 0 <= a <= cb_size cb -> 0 <= b <= cb_size cb ->
  Q ((a - b) `mod` (cb_size cb + 1)) -> wp (ring cb (a - b + (cb_size cb + 1))) Q.
Proof.
  intros Hi Ha Hb HQ. pose proof Hi as [_ _ _ _ _ ? ? _ _ _ _ _ _]. unfold CB_LIMIT in *.
  apply wp_ring; [done|unfold i32_max; lia|].
  rewrite <-(Z_mod_plus_full (a - b) 1 (cb_size cb + 1)) in HQ. by rewrite Z.mul_1_l in HQ.
Qed.

(** ** Taking and releasing the mutex *)
Lemma wp_lock_check {A} cb (k : cbuf -> exec A) (Q : A -> Prop) :
  cb_inv cb -> cb_mutex cb = false -> wp (k (set_mutex true cb)) Q ->
  wp (cb ← slurm_mutex_lock cb; assert! _cbuf_is_valid cb;; k cb) Q.
Proof.
  intros Hi Hm Hk. unfold slurm_mutex_lock. rewrite Hm. apply wp_bind, wp_ret.
  apply wp_assert; [|done]. apply valid_intro; [by apply inv_set_mutex|done].
Qed.

Lemma wp_check_unlock {A} cb (k : cbuf -> exec A) (Q : A -> Prop) :
  cb_inv cb -> cb_mutex cb = true -> wp (k (set_mutex false cb)) Q ->
  wp (assert! _cbuf_is_valid cb;; cb ← slurm_mutex_unlock cb; k cb) Q.
Proof.
  intros Hi Hm Hk. apply wp_assert; [by apply valid_intro|]. unfold slurm_mutex_unlock. rewrite Hm.
  by apply wp_bind, wp_ret.
Qed.

(** ** Reading: the objects that bytes go to *)

(** What a put function promises: [sink_out] are the bytes taken so far,
    [sink_room] how many more are safe to put, [sink_frame] what is left alone;
    a [sink_full] object takes all it is given. *)
Class Sink {D : Type} (putf : list Z -> D -> exec (cres * D)) : Type := {
  sink_out : D -> list Z;
  sink_room : D -> Z -> Prop;
  sink_frame : D -> D -> Prop;
  sink_full : bool;
  sink_frame_order : PreOrder sink_frame;
  sink_room_le : forall d n m, sink_room d n -> m <= n -> sink_room d m;
  sink_put : forall bs d, bs <> [] -> sink_room d (Z.of_nat (length bs)) ->
    wp (putf bs d) (fun '(r, d') =>
      -1 <= rc r <= Z.of_nat (length bs) /\
      sink_out d' = sink_out d ++ take (Z.to_nat (rc r)) bs /\ sink_frame d d' /\
      (forall n, sink_room d n -> sink_room d' (n - Z.max 0 (rc r))) /\
      (sink_full = true -> rc r = Z.of_nat (length bs)))
}.

#[global] Existing Instance sink_frame_order.

#[export] Program Instance mem_sink : Sink cbuf_put_mem := {|
  sink_out d := take (Z.to_nat (mem_pos d)) (mem_bytes d);
  sink_room d n := 0 <= mem_pos d /\ mem_pos d + n <= Z.of_nat (length (mem_bytes d));
  sink_frame d d' := mem_pos d <= mem_pos d' /\ length (mem_bytes d') = length (mem_bytes d) /\
    drop (Z.to_nat (mem_pos d')) (mem_bytes d') = drop (Z.to_nat (mem_pos d')) (mem_bytes d) /\
    (mem_pos d <= Z.of_nat (length (mem_bytes d)) -> mem_pos d' <= Z.of_nat (length (mem_bytes d')));
  sink_full := true
|}.
Next Obligation.
  split; [done|]. intros x y z (H1 & L1 & E1 & P1) (H2 & L2 & E2 & P2). split_and!; [lia|congruence| |by auto].
  rewrite E2. replace (Z.to_nat (mem_pos z)) with (Z.to_nat (mem_pos y) + (Z.to_nat (mem_pos z) - Z.to_nat (mem_pos y)))%nat by lia.
  by rewrite <-!drop_drop, E1.
Qed.
Next Obligation. simpl. lia. Qed.
Next Obligation.
  intros bs d Hbs [Hp Hr]. unfold cbuf_put_mem. destruct bs as [|b bs]; [done|]. set (l := b :: bs) in *.
  apply wp_assert; [simpl; lia|]. unfold mem_put. rewrite (proj2 (andb_true_iff _ _)) by lia.
  apply wp_bind, wp_ret, wp_ret. cbn [rc mem_pos mem_bytes].
  rewrite !length_app, length_take, length_drop. split_and!; [lia|lia| |lia| | |lia| |done].
  - rewrite take_ge with (n := Z.to_nat (Z.of_nat (length l))) by lia.
    rewrite app_assoc. apply take_app_length'. rewrite length_app, length_take. lia.
  - lia.
  - rewrite app_assoc. replace (Z.to_nat (mem_pos d + Z.of_nat (length l))) with (Z.to_nat (mem_pos d) + length l)%nat by lia.
    apply drop_app_length'. rewrite length_app, length_take. lia.
  - intros n Hn. lia.
Qed.

#[export] Program Instance fd_sink : Sink cbuf_put_fd := {|
  sink_out d := wr_out d;
  sink_room _ _ := True;
  sink_frame _ _ := True;
  sink_full := false
|}.
Next Obligation. done. Qed.
Next Obligation. done. Qed.
Next Obligation.
  intros bs d Hbs _. unfold cbuf_put_fd. destruct bs as [|b bs]; [done|]. apply wp_assert; [simpl; lia|].
  apply wp_ret. set (l := b :: bs). clearbody l. destruct d as [out s]. cbn [wr_out wr_script].
  induction s as [|[n|e] s IH]; cbn [write_fd].
  - cbn [rc wr_out]. rewrite take_ge by lia. split_and!; done || lia.
  - cbn [rc wr_out]. rewrite length_take. replace (Z.to_nat (Z.of_nat (n `min` length l))) with (n `min` length l)%nat by lia.
    split_and!; try done; try lia.
    f_equal. destruct (decide (n <= length l)%nat); [by rewrite Nat.min_l by lia|].
    rewrite Nat.min_r, !take_ge by lia. done.
  - destruct (e =? EINTR); [done|]. cbn [rc wr_out]. rewrite app_nil_r. split_and!; done || lia.
Qed.

(** After a complete transfer to memory. *)
Lemma mem_sink_done d bs r d' :
  -1 <= rc r -> sink_out d' = sink_out d ++ take (Z.to_nat (rc r)) bs -> sink_frame d d' ->
  rc r = Z.of_nat (length bs) -> mem_pos d = 0 ->
  r = Val (Z.of_nat (length bs)) /\ mem_bytes d' = bs ++ drop (length bs) (mem_bytes d).
Proof.
  intros Hr Ho (Hp & Hl & Hd & Hle) Hrc H0. split; [destruct r; simpl in *; [congruence|lia]|].
  rewrite Hrc, Nat2Z.id, take_ge in Ho by lia. cbn [sink_out mem_sink] in Ho. rewrite H0 in Ho. cbn [take] in Ho.
  rewrite Z2Nat.inj_0, take_0, app_nil_l in Ho. specialize (Hle ltac:(lia)).
  assert (Hpos : length bs = Z.to_nat (mem_pos d')) by (rewrite <-Ho, length_take; lia).
  rewrite <-(take_drop (Z.to_nat (mem_pos d')) (mem_bytes d')), Ho, Hd. by rewrite <-Hpos.
Qed.

Section reading.
Context {D : Type} {putf : list Z -> D -> exec (cres * D)} {K : Sink putf}.
Implicit Types (cb : cbuf) (d : D).

Definition ring_slice cb (i n : Z) : list Z := cyc (byte (cb_data cb)) (cb_size cb + 1) i n.

Definition sent cb (i len : Z) d (n : Z) d' : Prop :=
  0 <= n <= len /\ sink_out d' = sink_out d ++ ring_slice cb i n /\ sink_frame d d'.

Lemma wp_put_piece cb i (len nleft : Z) d d1 :
  cb_inv cb -> 0 <= i <= cb_size cb -> 0 < nleft <= len -> len <= cb_size cb ->
  sent cb i len d (len - nleft) d1 -> sink_room d1 nleft ->
  let i1 := (i + (len - nleft)) `mod` (cb_size cb + 1) in
  let n := Z.min nleft (cb_size cb + 1 - i1) in
  0 < n /\
  wp (bs ← mem_get (cb_data cb) (CBUF_MAGIC_LEN + i1) n; putf bs d1) (fun '(r, d2) =>
    -1 <= rc r <= n /\ sent cb i len d (len - nleft + Z.max 0 (rc r)) d2 /\
    sink_room d2 (nleft - Z.max 0 (rc r)) /\ (sink_full = true -> rc r = n)).
Proof.
  intros Hi Hi0 Hn Hlen (Hs & Ho & Hf) Hroom i1 n. pose proof Hi as [_ _ _ Hl Ha ? ? _ _ _ _ _ _].
  assert (Hi1 : 0 <= i1 < cb_size cb + 1) by (apply Z.mod_pos_bound; lia).
  split; [lia|]. apply wp_bind. apply wp_mem_get; [unfold CBUF_MAGIC_LEN; lia|lia|unfold CBUF_MAGIC_LEN; lia|].
  rewrite (piece_cyc _ (cb_size cb + 1)) by (unfold CBUF_MAGIC_LEN; lia).
  assert (Hlen' : Z.of_nat (length (cyc (byte (cb_data cb)) (cb_size cb + 1) i1 n)) = n) by (rewrite length_cyc; lia).
  eapply wp_mono; [apply sink_put|].
  - intros E. rewrite E in Hlen'. simpl in Hlen'. lia.
  - eapply sink_room_le; [done|lia].
  - intros [r d2] (Hr & Ho2 & Hf2 & Hro2 & Hfull). rewrite Hlen' in *. split_and!; [lia|lia| |by apply Hro2|done].
    assert (Hz : Z.to_nat (rc r) = Z.to_nat (Z.max 0 (rc r))) by lia.
    split; [lia|]. split; [|by etrans].
    unfold ring_slice in *. rewrite Ho2, Ho, Hz, cyc_take by lia. rewrite (cyc_app _ _ i) by lia.
    rewrite <-app_assoc. do 2 f_equal. unfold i1. by rewrite cyc_mod by lia.
Qed.

Lemma wp_put_loop cb (len i : Z) d (Q : Z * cres * D -> Prop) :
  cb_inv cb -> 0 <= i <= cb_size cb -> 0 < len <= cb_size cb -> sink_room d len ->
  (forall nleft m d', sent cb i len d (len - nleft) d' -> (nleft = len -> -1 <= rc m <= 0) ->
     (sink_full = true -> nleft = 0) -> Q (nleft, m, d')) ->
  wp (put_loop putf cb len i d) Q.
Proof.
  intros Hi Hi0 Hlen Hroom HQ. unfold put_loop.
  apply (wp_loop (fun '(nleft, i1, m, d1) =>
      sent cb i len d (len - nleft) d1 /\ i1 = (i + (len - nleft)) `mod` (cb_size cb + 1) /\
      sink_room d1 nleft /\ (nleft = len -> -1 <= rc m <= 0))
    (fun '(nleft, _, _, _) => Z.to_nat nleft)
    (fun '(nleft, m, d') => sent cb i len d (len - nleft) d' /\ (nleft = len -> -1 <= rc m <= 0) /\
      (sink_full = true -> nleft = 0))).
  - intros [[[nleft i1] m] d1] (Hs & -> & Hr & Hm). pose proof Hs as (Hs0 & _).
    destruct (Z.leb_spec nleft 0) as [H0|H0]; [apply wp_ret; split_and!; [done|done|lia]|].
    destruct (wp_put_piece cb i len nleft d d1 Hi Hi0 ltac:(lia) ltac:(lia) Hs Hr) as [Hn Hp].
    set (i1 := (i + (len - nleft)) `mod` (cb_size cb + 1)) in *.
    assert (Hi1 : 0 <= i1 < cb_size cb + 1) by (destruct Hi; apply Z.mod_pos_bound; lia).
    set (n := Z.min nleft _) in *.
    apply wp_inv in Hp as ([r d2] & E & Hr2 & Hs2 & Hro2 & Hfull).
    destruct (mem_get _ _ _) as [bs| |]; [|done..]. simpl in E |- *. rewrite E. simpl.
    destruct (Z.ltb_spec 0 (rc r)) as [Hp|Hp].
    + apply wp_bind, wp_bind, wp_ring; [done|destruct Hi; unfold CB_LIMIT, i32_max in *; lia|].
      apply wp_ret. rewrite Z.max_r in * by lia. simpl.
      assert (Hs3 : sent cb i len d (len - (nleft - rc r)) d2).
      { replace (len - (nleft - rc r)) with (len - nleft + rc r) by lia. done. }
      destruct (Z.eqb_spec n (rc r)); simpl.
      * split_and!; [done| |done|lia|lia]. unfold i1. destruct Hi. rewrite Zplus_mod_idemp_l. f_equal. lia.
      * split_and!; [done|lia|]. intros Hf. specialize (Hfull Hf). lia.
    + rewrite Z.max_l in * by lia. rewrite Z.add_0_r, Z.sub_0_r in *.
      rewrite (proj2 (Z.eqb_neq n (rc r))) by lia. simpl. split_and!; [done|lia|]. intros Hf. specialize (Hfull Hf). lia.
  - rewrite Z.sub_diag, Z.add_0_r, Z.mod_small by lia. split_and!; [|done|done|simpl; lia].
    split; [lia|]. split; [|done]. unfold ring_slice. by rewrite cyc_nil, app_nil_r.
  - lia.
  - intros [[nleft m] d'] (? & ? & ?). by apply HQ.
Qed.

(** The outcome of a transfer of bytes [bs] out of the buffer: the return value
    tells how many of them were taken. *)
Definition taken (bs : list Z) d (r : cres) d' : Prop :=
  -1 <= rc r <= Z.of_nat (length bs) /\ sink_out d' = sink_out d ++ take (Z.to_nat (rc r)) bs /\
  sink_frame d d' /\ (sink_full = true -> rc r = Z.of_nat (length bs)).

Lemma taken_nil d : taken [] d (Val 0) d.
Proof. split_and!; simpl; try lia; [by rewrite app_nil_r|done]. Qed.

Lemma wp_put_all cb len i d (Q : cres * D -> Prop) :
  cb_inv cb -> 0 <= i <= cb_size cb -> 0 < len <= cb_size cb -> sink_room d len ->
  (forall r d', taken (ring_slice cb i len) d r d' -> Q (r, d')) ->
  wp ('(nleft, m, d') ← put_loop putf cb len i d;
      let n := len - nleft in
      assert! (0 <=? n) && (n <=? len);;
      Ret (if n =? 0 then m else Val n, d')) Q.
Proof.
  intros Hi Hi0 Hlen Hroom HQ. apply wp_bind, wp_put_loop; [done..|].
  intros nleft m d' (Hn & Ho & Hf) Hm Hfull. apply wp_assert; [lia|]. apply wp_ret, HQ.
  assert (Hl : Z.of_nat (length (ring_slice cb i len)) = len) by (unfold ring_slice; rewrite length_cyc; lia).
  unfold taken. rewrite Hl, Ho. destruct (Z.eqb_spec (len - nleft) 0) as [E|E].
  - specialize (Hm ltac:(lia)). split_and!; [lia..| |done|intros H; specialize (Hfull H); lia].
    f_equal. replace (Z.to_nat (rc m)) with 0%nat by lia. unfold ring_slice. by rewrite cyc_nil by lia.
  - cbn [rc]. split_and!; [lia..| |done|intros H; specialize (Hfull H); lia].
    f_equal. unfold ring_slice. by rewrite cyc_take by lia.
Qed.

Lemma wp_reader cb len d (Q : cres * D -> Prop) :
  cb_inv cb -> cb_mutex cb = true -> 0 < len -> sink_room d (Z.min len (cb_used cb)) ->
  (forall r d', taken (take (Z.to_nat len) (unread cb)) d r d' -> Q (r, d')) ->
  wp (cbuf_reader putf cb len d) Q.
Proof.
  intros Hi Hmu Hlen Hroom HQ. unfold cbuf_reader. pose proof (inv_indexes cb Hi) as (_ & _ & ? & ? & ?).
  apply wp_assert; [lia|]. apply wp_assert; [done|].
  assert (Ht : take (Z.to_nat len) (unread cb) = ring_slice cb (cb_i_out cb) (Z.min len (cb_used cb))).
  { unfold unread, ring_slice. destruct (Z.le_ge_cases len (cb_used cb)).
    - rewrite cyc_take by lia. f_equal. lia.
    - rewrite Z.min_r by lia. apply take_ge. pose proof (length_cyc (byte (cb_data cb)) (cb_size cb + 1) (cb_i_out cb) (cb_used cb)). lia. }
  rewrite Ht in HQ. destruct (Z.eqb_spec (Z.min len (cb_used cb)) 0) as [E|E].
  - apply wp_ret, HQ. rewrite E. unfold ring_slice. rewrite cyc_nil by lia. apply taken_nil.
  - apply wp_put_all; [done|by destruct Hi|lia|done|done].
Qed.

(** The last [n] elements of a list. *)
Definition lastn (n : nat) (l : list Z) : list Z := drop (length l - n) l.

Lemma wp_replayer cb len d (Q : cres * D -> Prop) :
  cb_inv cb -> cb_mutex cb = true -> 0 < len -> sink_room d (Z.min len (reused cb)) ->
  (forall r d', taken (lastn (Z.to_nat len) (replay cb)) d r d' -> Q (r, d')) ->
  wp (cbuf_replayer putf cb len d) Q.
Proof.
  intros Hi Hmu Hlen Hroom HQ. unfold cbuf_replayer. pose proof (inv_indexes cb Hi) as (_ & _ & ? & ? & ?).
  apply wp_assert; [lia|]. apply wp_assert; [done|].
  apply wp_bind, wp_ring_sub; [done|by destruct Hi|by destruct Hi|]. fold (reused cb).
  pose proof Hi as [_ _ _ _ _ ? _ _ ? ? _ _ _].
  set (n := Z.min len (reused cb)) in *.
  assert (Ht : lastn (Z.to_nat len) (replay cb) = ring_slice cb (cb_i_out cb - n) n).
  { unfold lastn, replay, ring_slice. pose proof (length_cyc (byte (cb_data cb)) (cb_size cb + 1) (cb_i_rep cb) (reused cb)) as Hl.
    replace (length _ - _)%nat with (Z.to_nat (reused cb - n)) by lia. rewrite cyc_drop by lia.
    replace (reused cb - (reused cb - n)) with n by lia.
    rewrite <-cyc_mod, <-(cyc_mod _ _ (cb_i_out cb - n)) by lia. f_equal. unfold reused.
    rewrite Zplus_mod, Zminus_mod_idemp_l, <-Zplus_mod. f_equal. lia. }
  rewrite Ht in HQ. destruct (Z.eqb_spec n 0) as [E|E].
  - apply wp_ret, HQ. rewrite E. unfold ring_slice. rewrite cyc_nil by lia. apply taken_nil.
  - apply wp_bind, wp_ring_sub; [done|lia|lia|].
    apply wp_put_all; [done| |lia|done|].
    + pose proof (Z.mod_pos_bound (cb_i_out cb - n) (cb_size cb + 1) ltac:(lia)). lia.
    + intros r d'. unfold ring_slice. rewrite cyc_mod by lia. apply HQ.
Qed.
End reading.
