(* ===== verification/CbufWrite.v ===== *)
(** * Circular buffers: writing, growing, copying

    [queue] is the abstract state of a buffer: the bytes that can be replayed,
    those not read yet, the current and maximal sizes, the overwrite option and
    whether bytes have been overwritten.  The lemmas give the effect of the steps
    of cbuf.c on it; [Source] is what a function that delivers bytes promises. *)

From S2P Require Import Prelude Cbuf CbufFacts.

Local Open Scope Z_scope.
Local Open Scope slurm_scope.

(** ** Writing: the objects that bytes come from *)

(** [src_left] are the bytes to come, [src_ok] how many are safe to ask for; a
    [src_full] object delivers all it is asked for. *)
Class Source {S : Type} (getf : Z -> S -> exec (cres * list Z * S)) : Type := {
  src_left : S -> list Z;
  src_ok : S -> Z -> Prop;
  src_full : bool;
  src_ok_le : forall s n m, src_ok s n -> m <= n -> src_ok s m;
  src_get : forall n s, 0 < n -> src_ok s n ->
    wp (getf n s) (fun '(r, bs, s') =>
      -1 <= rc r <= n /\ Z.of_nat (length bs) = Z.max 0 (rc r) /\ src_left s = bs ++ src_left s' /\
      (forall k, src_ok s k -> src_ok s' (k - Z.max 0 (rc r))) /\ (src_full = true -> rc r = n))
}.

#[export] Program Instance mem_source : Source cbuf_get_mem := {|
  src_left s := drop (Z.to_nat (mem_pos s)) (mem_bytes s);
  src_ok s n := 0 <= mem_pos s /\ mem_pos s + n <= Z.of_nat (length (mem_bytes s));
  src_full := true
|}.
Next Obligation. simpl. lia. Qed.
Next Obligation.
  intros n [m p] Hn [Hp Hr]. cbn [mem_pos mem_bytes] in *. unfold cbuf_get_mem. cbn [mem_pos mem_bytes].
  apply wp_assert; [lia|]. apply wp_bind, wp_mem_get; [lia..|]. apply wp_ret. cbn [rc mem_pos mem_bytes].
  rewrite length_take, length_drop. split_and!; try lia.
  replace (Z.to_nat (p + n)) with (Z.to_nat p + Z.to_nat n)%nat by lia. by rewrite <-drop_drop, take_drop.
Qed.

(** What a descriptor delivers over all its events. *)
Definition rd_bytes (e : rd_event) : list Z := match e with RdData bs => bs | RdErr _ => [] end.

#[export] Program Instance fd_source : Source cbuf_get_fd := {|
  src_left s := concat (rd_bytes <$> s);
  src_ok _ _ := True;
  src_full := false
|}.
Next Obligation. done. Qed.
Next Obligation.
  intros n s Hn _. unfold cbuf_get_fd. apply wp_assert; [lia|]. apply wp_ret.
  induction s as [|[bs|e] s IH]; cbn [read_fd].
  - cbn [rc]. split_and!; done || (simpl; lia).
  - cbn [rc]. rewrite length_take. split_and!; try done; try lia.
    assert (Hd : take (Z.to_nat n) bs ++ drop (Z.to_nat n) bs = bs) by apply take_drop.
    rewrite fmap_cons. cbn [rd_bytes concat]. destruct (drop (Z.to_nat n) bs) eqn:E.
    + rewrite app_nil_r in Hd. by rewrite Hd.
    + rewrite fmap_cons. cbn [rd_bytes concat]. rewrite <-Hd at 1. by rewrite <-app_assoc.
  - destruct (e =? EINTR); [exact IH|]. cbn [rc]. split_and!; done || (simpl; lia).
Qed.

Lemma mod_eq_near (a b N : Z) : 0 < N -> a `mod` N = b `mod` N -> - N < a - b < N -> a = b.
Proof.
  intros HN E H.
  pose proof (Z.div_mod a N ltac:(lia)). pose proof (Z.div_mod b N ltac:(lia)).
  assert (Hd : (a / N - b / N) * N = a - b) by lia.
  assert (a / N - b / N = 0) by nia. lia.
Qed.

(** [new] is [old] after [bs] went into the ring from position [base] on. *)
Record written (N base : Z) (old new bs : list Z) : Prop := {
  wr_length : length new = length old;
  wr_outside : forall j : nat, Z.of_nat j < CBUF_MAGIC_LEN \/ CBUF_MAGIC_LEN + N <= Z.of_nat j -> new !! j = old !! j;
  wr_inside : forall (k : nat) x, bs !! k = Some x -> Z.of_nat (length bs) - N <= Z.of_nat k ->
    byte new ((base + Z.of_nat k) `mod` N) = x;
  wr_rest : forall k, Z.of_nat (length bs) <= k < N ->
    byte new ((base + k) `mod` N) = byte old ((base + k) `mod` N)
}.

Lemma written_refl N base m : written N base m m [].
Proof. by split. Qed.

Lemma written_nil N base old new :
  0 < N -> CBUF_MAGIC_LEN + N <= Z.of_nat (length old) -> written N base old new [] -> new = old.
Proof.
  intros HN Hl [El Ho _ Hr]. apply list_eq. intros j.
  destruct (decide (Z.of_nat j < CBUF_MAGIC_LEN \/ CBUF_MAGIC_LEN + N <= Z.of_nat j)) as [Hj|Hj]; [by apply Ho|].
  unfold CBUF_MAGIC_LEN in *. set (p := Z.of_nat j - 8).
  specialize (Hr ((p - base) `mod` N) ltac:(simpl; pose proof (Z.mod_pos_bound (p - base) N HN); lia)).
  rewrite Zplus_mod_idemp_r in Hr. replace (base + (p - base)) with p in Hr by lia.
  rewrite Z.mod_small in Hr by lia. unfold byte, CBUF_MAGIC_LEN in Hr.
  replace (Z.to_nat (8 + p)) with j in Hr by lia.
  destruct (lookup_lt_is_Some_2 new j) as [x Hx]; [lia|]. destruct (lookup_lt_is_Some_2 old j) as [y Hy]; [lia|].
  rewrite Hx, Hy in *. by simpl in Hr; subst.
Qed.

(** The next piece, which does not reach past the end of the ring. *)
Lemma wp_mem_put_ring N base old m bs1 bs2 (i : Z) (Q : list Z -> Prop) :
  0 < N -> CBUF_MAGIC_LEN + N <= Z.of_nat (length old) -> written N base old m bs1 ->
  i = (base + Z.of_nat (length bs1)) `mod` N -> i + Z.of_nat (length bs2) <= N ->
  (forall m', written N base old m' (bs1 ++ bs2) -> Q m') -> wp (mem_put m (CBUF_MAGIC_LEN + i) bs2) Q.
Proof.
  intros HN Hlen [Hl Ho Hin Hr] Hi Hle HQ. pose proof (Z.mod_pos_bound (base + Z.of_nat (length bs1)) N HN) as Hi0.
  rewrite <-Hi in Hi0. unfold CBUF_MAGIC_LEN in *. apply wp_mem_put; [lia|lia|]. intros m' Hl' Hm'. apply HQ.
  assert (Hb : forall p, 0 <= p < N -> byte m' p =
     if (i <=? p) && (p <? i + Z.of_nat (length bs2)) then default 0 (bs2 !! Z.to_nat (p - i)) else byte m p).
  { intros p Hp. unfold byte, CBUF_MAGIC_LEN. rewrite Hm'.
    replace (8 + i <=? Z.of_nat (Z.to_nat (8 + p))) with (i <=? p) by lia.
    replace (Z.of_nat (Z.to_nat (8 + p)) <? 8 + i + Z.of_nat (length bs2)) with (p <? i + Z.of_nat (length bs2)) by lia.
    if_case; [|done]. do 2 f_equal. lia. }
  assert (Hmod : forall k, 0 <= (base + k) `mod` N < N) by (intros k; apply Z.mod_pos_bound; lia).
  assert (Hhit : forall t, 0 <= t < Z.of_nat (length bs2) -> (base + (Z.of_nat (length bs1) + t)) `mod` N = i + t).
  { intros t Ht. rewrite Z.add_assoc, <-Zplus_mod_idemp_l, <-Hi. apply Z.mod_small. lia. }
  assert (Hmiss : forall k, Z.of_nat (length bs1) + Z.of_nat (length bs2) - N <= k -> k < Z.of_nat (length bs1) \/ Z.of_nat (length bs1) + Z.of_nat (length bs2) <= k < N -> 0 <= k ->
     byte m' ((base + k) `mod` N) = byte m ((base + k) `mod` N)).
  { intros k Hk1 Hk2 Hk0. rewrite Hb by done. if_case; [|done]. exfalso.
    set (t := (base + k) `mod` N - i). assert (Ht : 0 <= t < Z.of_nat (length bs2)) by lia.
    pose proof (Hhit t Ht) as Et. replace (i + t) with ((base + k) `mod` N) in Et by lia.
    apply mod_eq_near in Et; lia. }
  split.
  - lia.
  - unfold CBUF_MAGIC_LEN. intros j Hj. rewrite Hm'. if_false. by apply Ho.
  - intros k x Hx Hk. rewrite length_app in Hk. apply lookup_app_Some in Hx as [Hx|[Hk1 Hx]].
    + apply lookup_lt_Some in Hx as Hk1. rewrite Hmiss by lia. apply Hin; [done|lia].
    + apply lookup_lt_Some in Hx as Hk2. replace (Z.of_nat k) with (Z.of_nat (length bs1) + Z.of_nat (k - length bs1)) by lia.
      rewrite Hhit, Hb by lia. if_true. replace (Z.to_nat _) with (k - length bs1)%nat by lia. by rewrite Hx.
  - intros k Hk. rewrite length_app in Hk. rewrite Hmiss by lia. apply Hr. lia.
Qed.

Lemma inv_ring_room cb : cb_inv cb ->
  0 < cb_size cb + 1 /\ CBUF_MAGIC_LEN + (cb_size cb + 1) <= Z.of_nat (length (cb_data cb)).
Proof. unfold CBUF_MAGIC_LEN. intros []. lia. Qed.

Section writing.
Context {S : Type} {getf : Z -> S -> exec (cres * list Z * S)} {K : Source getf}.

Lemma wp_get_loop cb (len : Z) (s : S) (Q : Z * Z * cres * list Z * S -> Prop) :
  cb_inv cb -> 0 < len -> src_ok s len ->
  (forall bs m data s', Z.of_nat (length bs) <= len -> src_left s = bs ++ src_left s' ->
     written (cb_size cb + 1) (cb_i_in cb) (cb_data cb) data bs ->
     (bs = [] -> -1 <= rc m <= 0) -> (src_full = true -> Z.of_nat (length bs) = len) ->
     Q (len - Z.of_nat (length bs), (cb_i_in cb + Z.of_nat (length bs)) `mod` (cb_size cb + 1), m, data, s')) ->
  wp (get_loop getf cb len s) Q.
Proof.
  intros Hi Hlen Hok HQ. pose proof (inv_ring_room cb Hi) as [HN Hroom]. unfold get_loop.
  set (J := fun (nleft i : Z) (data : list Z) (s' : S) bs =>
    Z.of_nat (length bs) = len - nleft /\ 0 <= nleft /\ src_left s = bs ++ src_left s' /\
    written (cb_size cb + 1) (cb_i_in cb) (cb_data cb) data bs /\
    i = (cb_i_in cb + Z.of_nat (length bs)) `mod` (cb_size cb + 1)).
  apply (wp_loop
    (fun '(nleft, i, m, data, s') => src_ok s' nleft /\ exists bs, J nleft i data s' bs /\ (bs = [] -> -1 <= rc m <= 0))
    (fun '(nleft, _, _, _, _) => Z.to_nat nleft)
    (fun '(nleft, i, m, data, s') => exists bs, J nleft i data s' bs /\ (bs = [] -> -1 <= rc m <= 0) /\
       (src_full = true -> nleft = 0))).
  - intros [[[[nleft i] m] data] s1] (Hok1 & bs & (Hl & H0 & Hs & Hw & Hi1) & Hm).
    destruct (Z.leb_spec nleft 0) as [Hz|Hz].
    { apply wp_ret. exists bs. split; [by split_and!|]. split; [done|lia]. }
    assert (Hib : 0 <= i < cb_size cb + 1) by (rewrite Hi1; apply Z.mod_pos_bound; lia).
    set (n := Z.min nleft (cb_size cb + 1 - i)). assert (Hn : 0 < n) by lia.
    apply wp_bind. eapply wp_mono; [apply src_get; [done|eapply src_ok_le; [done|lia]]|].
    intros [[r bs2] s2] (Hr & Hl2 & Hs2 & Hok2 & Hfull). apply wp_bind.
    apply (wp_mem_put_ring (cb_size cb + 1) (cb_i_in cb) (cb_data cb) data bs bs2); [done|done|done|done|lia|]. intros data2 Hw2.
    assert (HJ : J (nleft - Z.max 0 (rc r)) ((i + Z.max 0 (rc r)) `mod` (cb_size cb + 1)) data2 s2 (bs ++ bs2)).
    { split_and!; [rewrite length_app; lia|lia| |done|].
      - by rewrite Hs, Hs2, app_assoc.
      - rewrite Hi1, Zplus_mod_idemp_l, length_app. f_equal. lia. }
    assert (Hm2 : bs ++ bs2 = [] -> -1 <= rc r <= 0).
    { intros [-> ->]%app_nil. simpl in Hl2. lia. }
    destruct (Z.ltb_spec 0 (rc r)).
    + apply wp_bind, wp_bind, wp_ring; [done|destruct Hi; unfold CB_LIMIT, i32_max in *; lia|]. apply wp_ret, wp_ret.
      rewrite Z.max_r in * by lia. destruct (Z.eqb_spec n (rc r)); cbn [negb].
      * split; [|lia]. split; [by apply Hok2|]. exists (bs ++ bs2). done.
      * exists (bs ++ bs2). split; [done|]. split; [done|]. intros Hf. specialize (Hfull Hf). lia.
    + apply wp_bind, wp_ret, wp_ret. rewrite (proj2 (Z.eqb_neq n (rc r))) by lia. cbn [negb].
      rewrite Z.max_l, Z.sub_0_r, Z.add_0_r, (Z.mod_small i) in HJ by lia.
      exists (bs ++ bs2). split; [done|]. split; [done|]. intros Hf. specialize (Hfull Hf). lia.
  - split; [done|]. exists []. unfold J. rewrite Z.add_0_r, Z.mod_small by (destruct Hi; lia).
    split; [|simpl; lia]. split_and!; [simpl; lia|lia|done|apply written_refl|done].
  - lia.
  - intros [[[[nleft i] m] data] s'] (bs & (Hl & H0 & Hs & Hw & ->) & Hm & Hfull).
    replace nleft with (len - Z.of_nat (length bs)) by lia. apply HQ; [lia|done|done|done|].
    intros Hf. specialize (Hfull Hf). lia.
Qed.
End writing.

(** ** The abstract queue *)

Record queue : Set := Queue {
  q_size : Z;
  q_max : Z;
  q_overwrite : cbuf_overwrite;
  q_wrapped : bool;
  q_replay : list Z;
  q_unread : list Z
}.

Definition absq (cb : cbuf) : queue :=
  Queue (cb_size cb) (cb_maxsize cb) (cb_overwrite cb) (cb_got_wrap cb) (replay cb) (unread cb).

(** Append [bs]: the oldest bytes are forgotten when there is no room. *)
Definition q_append (bs : list Z) (q : queue) : queue :=
  let unr := lastn (Z.to_nat (q_size q)) (q_unread q ++ bs) in
  Queue (q_size q) (q_max q) (q_overwrite q)
    (q_wrapped q || (q_size q <? Z.of_nat (length (q_replay q ++ q_unread q ++ bs))))
    (lastn (Z.to_nat (q_size q) - length unr) (q_replay q)) unr.

Lemma unread_length cb : cb_inv cb -> Z.of_nat (length (unread cb)) = cb_used cb.
Proof. intros Hi. pose proof (inv_indexes cb Hi). unfold unread. rewrite length_cyc. lia. Qed.
Lemma length_replay cb : cb_inv cb -> Z.of_nat (length (replay cb)) = reused cb.
Proof. intros Hi. pose proof (inv_indexes cb Hi). unfold replay. rewrite length_cyc. lia. Qed.

(** The whole of the buffer is one slice, ending at [i_in]. *)
Lemma whole_slice cb : cb_inv cb ->
  replay cb ++ unread cb = cyc (byte (cb_data cb)) (cb_size cb + 1) (cb_i_rep cb) (reused cb + cb_used cb) /\
  (cb_i_rep cb + reused cb) `mod` (cb_size cb + 1) = cb_i_out cb /\
  (cb_i_rep cb + reused cb + cb_used cb) `mod` (cb_size cb + 1) = cb_i_in cb.
Proof.
  intros Hi. pose proof (inv_indexes cb Hi) as (Hu & Hr & ? & ? & ?). pose proof (inv_ring_room cb Hi) as [HN _].
  destruct Hi.
  assert (Eo : (cb_i_rep cb + reused cb) `mod` (cb_size cb + 1) = cb_i_out cb).
  { rewrite mod_once by lia. repeat case_match; lia. }
  split_and!; [|done|].
  - rewrite cyc_app by lia. unfold replay, unread. f_equal. by rewrite <-Eo, cyc_mod.
  - rewrite <-Zplus_mod_idemp_l, Eo, mod_once by lia. repeat case_match; lia.
Qed.

(** After a write any part of the last [size + 1] bytes of the history is where
    it should be. *)
Lemma slice_after_write cb data bs (a c : Z) :
  cb_inv cb -> written (cb_size cb + 1) (cb_i_in cb) (cb_data cb) data bs ->
  let total := replay cb ++ unread cb ++ bs in
  0 <= a -> Z.of_nat (length total) - (cb_size cb + 1) <= a -> 0 <= c -> a + c <= Z.of_nat (length total) ->
  cyc (byte data) (cb_size cb + 1) (cb_i_rep cb + a) c = take (Z.to_nat c) (drop (Z.to_nat a) total).
Proof.
  intros Hi [_ _ Hin Hrest] total Ha Hold Hc Hac. pose proof (inv_ring_room cb Hi) as [HN _].
  pose proof (whole_slice cb Hi) as (Hw & _ & Hend). pose proof (inv_indexes cb Hi) as (_ & _ & ? & ? & ?).
  assert (Hlen : Z.of_nat (length (replay cb ++ unread cb)) = reused cb + cb_used cb) by (rewrite Hw, length_cyc; lia).
  set (l := take _ _). assert (Hl : Z.of_nat (length l) = c).
  { unfold l. rewrite length_take, length_drop. lia. }
  rewrite <-Hl. apply cyc_intro. intros j x Hx. apply lookup_lt_Some in Hx as Hj.
  unfold l in Hx. rewrite lookup_take_lt, lookup_drop in Hx by lia.
  unfold total in *. rewrite app_assoc in *. rewrite length_app in Hold, Hac. set (R := reused cb + cb_used cb) in *.
  assert (Hpos : forall k, (cb_i_in cb + k) `mod` (cb_size cb + 1) = (cb_i_rep cb + R + k) `mod` (cb_size cb + 1)).
  { intros k. rewrite <-Hend, Zplus_mod_idemp_l. f_equal. lia. }
  apply lookup_app_Some in Hx as [Hx|[Hge Hx]].
  - rewrite Hw in Hx. apply lookup_cyc_Some in Hx as [Hlt ->].
    set (k := Z.of_nat (Z.to_nat a + j) - R + (cb_size cb + 1)).
    specialize (Hrest k ltac:(lia)). rewrite Hpos in Hrest.
    replace (cb_i_rep cb + R + k) with (cb_i_rep cb + Z.of_nat (Z.to_nat a + j) + 1 * (cb_size cb + 1)) in Hrest by lia.
    rewrite Z_mod_plus_full in Hrest. rewrite <-Hrest. do 2 f_equal. lia.
  - specialize (Hin _ _ Hx ltac:(lia)). rewrite Hpos in Hin. rewrite <-Hin. do 2 f_equal. lia.
Qed.

Lemma length_lastn n l : length (lastn n l) = (n `min` length l)%nat.
Proof. unfold lastn. rewrite length_drop. lia. Qed.

Lemma lastn_all n l : (length l <= n)%nat -> lastn n l = l.
Proof. intros H. unfold lastn. by replace (length l - n)%nat with 0%nat by lia. Qed.

Lemma lastn_0 l : lastn 0 l = [].
Proof. unfold lastn. by rewrite drop_ge by lia. Qed.

Lemma lastn_app_r n l k : (n <= length k)%nat -> lastn n (l ++ k) = lastn n k.
Proof.
  intros H. unfold lastn. rewrite length_app, drop_app_ge by lia. f_equal. lia.
Qed.

(** The parts of the history that an append keeps, as pieces of it. *)
Lemma append_parts (rep unr bs : list Z) (S a b : nat) :
  let total := rep ++ unr ++ bs in
  a = (length total - S)%nat -> b = (if decide (S < length unr + length bs)%nat then a else length rep) ->
  drop b total = lastn S (unr ++ bs) /\
  take (b - a) (drop a total) = lastn (S - length (lastn S (unr ++ bs))) rep.
Proof.
  intros total Ha Hb. rewrite length_lastn, length_app. subst total. rewrite !length_app in Ha.
  case_decide as E.
  - subst b. rewrite Nat.sub_diag, take_0. split.
    + rewrite <-(lastn_app_r S rep (unr ++ bs)) by (rewrite length_app; lia). unfold lastn. rewrite !length_app. by subst a.
    + rewrite Nat.min_l, Nat.sub_diag by lia. by rewrite lastn_0.
  - subst b. rewrite drop_app_length, lastn_all by (rewrite length_app; lia). split; [done|].
    rewrite Nat.min_r by lia. unfold lastn. rewrite drop_app_le by lia.
    rewrite take_app_length' by (rewrite length_drop; lia). f_equal. lia.
Qed.

(** The cookies are not touched by a write into the ring. *)
Lemma written_cookies cb data bs : cb_inv cb ->
  written (cb_size cb + 1) (cb_i_in cb) (cb_data cb) data bs ->
  take 8 data = cookie CBUF_MAGIC /\
  take 8 (drop (Z.to_nat (CBUF_MAGIC_LEN + cb_size cb + 1)) data) = cookie CBUF_MAGIC /\
  length data = length (cb_data cb).
Proof.
  intros Hi [El Ho _ _]. destruct Hi as [_ Hc1 Hc2 Hl Ha ? _ _ _ _ _ _ _]. unfold CBUF_MAGIC_LEN in *.
  split_and!; [rewrite <-Hc1|rewrite <-Hc2|done]; apply list_eq; intros j;
    destruct (decide (j < 8)%nat) as [Hj|Hj]; rewrite ?lookup_take_ge by lia; try done;
    rewrite !lookup_take_lt, ?lookup_drop by lia; apply Ho; lia.
Qed.

(** Where the new replay and unread data start, as offsets from the old [i_rep],
    after [n] bytes were written. *)
Definition rep_off (cb : cbuf) (n : Z) : Z :=
  if cb_size cb <? reused cb + cb_used cb + n then reused cb + cb_used cb + n - cb_size cb else 0.
Definition out_off (cb : cbuf) (n : Z) : Z :=
  if cb_size cb - cb_used cb <? n then rep_off cb n else reused cb.

Definition after_write (cb : cbuf) (data : list Z) (n : Z) : cbuf :=
  let N := cb_size cb + 1 in
  Cbuf (cb_magic cb) (cb_mutex cb) (cb_alloc cb) (cb_minsize cb) (cb_maxsize cb) (cb_size cb)
    (Z.min (cb_used cb + n) (cb_size cb)) (cb_overwrite cb)
    (cb_got_wrap cb || (cb_size cb <? reused cb + cb_used cb + n)) ((cb_i_in cb + n) `mod` N)
    ((cb_i_rep cb + out_off cb n) `mod` N) ((cb_i_rep cb + rep_off cb n) `mod` N) data.

Section after_write.
Context (cb : cbuf) (data bs : list Z) (n : Z).
Hypothesis Hi : cb_inv cb.
Hypothesis Hw : written (cb_size cb + 1) (cb_i_in cb) (cb_data cb) data bs.
Hypothesis Hn : n = Z.of_nat (length bs).

Lemma offsets_after_write :
  0 <= rep_off cb n /\ rep_off cb n <= out_off cb n /\
  out_off cb n + Z.min (cb_used cb + n) (cb_size cb) = reused cb + cb_used cb + n /\
  out_off cb n - rep_off cb n + Z.min (cb_used cb + n) (cb_size cb) <= cb_size cb /\
  reused cb + cb_used cb + n - cb_size cb <= rep_off cb n.
Proof. pose proof (inv_indexes cb Hi). unfold out_off, rep_off. repeat case_match; lia. Qed.

Lemma counts_after_write :
  (cb_i_out (after_write cb data n) - cb_i_rep (after_write cb data n)) `mod` (cb_size cb + 1) =
    out_off cb n - rep_off cb n /\
  (cb_i_in (after_write cb data n) - cb_i_out (after_write cb data n)) `mod` (cb_size cb + 1) =
    Z.min (cb_used cb + n) (cb_size cb).
Proof.
  pose proof (inv_ring_room cb Hi) as [HN _]. pose proof offsets_after_write as (? & ? & ? & ? & ?).
  pose proof (whole_slice cb Hi) as (_ & _ & Ei). pose proof (inv_indexes cb Hi).
  cbn [cb_i_out cb_i_rep cb_i_in after_write]. rewrite <-Ei, Zplus_mod_idemp_l, <-!Zminus_mod.
  split; (etrans; [|apply Z.mod_small with (b := cb_size cb + 1); lia]); f_equal; lia.
Qed.

Lemma inv_after_write : cb_inv (after_write cb data n).
Proof.
  pose proof (inv_ring_room cb Hi) as [HN _]. pose proof counts_after_write as [Hr Hu].
  pose proof offsets_after_write as (? & ? & ? & ? & ?). pose proof (written_cookies cb data bs Hi Hw) as (Hc1 & Hc2 & Hl).
  assert (Hb : forall x, 0 <= x `mod` (cb_size cb + 1) <= cb_size cb).
  { intros x. pose proof (Z.mod_pos_bound x (cb_size cb + 1)). lia. }
  pose proof Hi as [Hmag _ _ Hlen Halloc Hmin Hmax _ _ Hrep _ _ Hwrap].
  split; [done|done|done|cbn; lia|done|done|done|apply Hb|apply Hb|apply Hb|symmetry; exact Hu| |].
  - cbn [cb_size cb_used after_write] in *. rewrite Hr. lia.
  - cbn [cb_got_wrap cb_i_rep after_write]. unfold rep_off. destruct (cb_size cb <? _); [left; apply orb_true_r|].
    destruct Hwrap as [-> | ->]; [by left|right]. by rewrite Z.mod_small by lia.
Qed.

Lemma absq_after_write : absq (after_write cb data n) = q_append bs (absq cb).
Proof.
  pose proof (inv_ring_room cb Hi) as [HN _]. pose proof counts_after_write as [Hr Hu].
  pose proof offsets_after_write as (? & ? & ? & ? & ?).
  pose proof (unread_length cb Hi) as HlU. pose proof (length_replay cb Hi) as HlR.
  pose proof (inv_indexes cb Hi) as (_ & _ & ? & ? & ?).
  set (total := replay cb ++ unread cb ++ bs).
  assert (HT : Z.of_nat (length total) = reused cb + cb_used cb + n) by (unfold total; rewrite !length_app; lia).
  unfold q_append, absq at 1. cbn [absq q_size q_max q_overwrite q_wrapped q_replay q_unread]. fold total. rewrite HT.
  unfold replay at 1, unread at 1, reused at 1. cbn [cb_size after_write] in Hr |- *. rewrite Hr.
  cbn [cb_maxsize cb_overwrite cb_got_wrap cb_i_rep cb_i_out cb_used cb_data after_write].
  rewrite !cyc_mod by lia. rewrite !(slice_after_write cb data bs) by (done || (fold total; lia)). fold total.
  destruct (append_parts (replay cb) (unread cb) bs (Z.to_nat (cb_size cb)) (Z.to_nat (rep_off cb n)) (Z.to_nat (out_off cb n))) as [E1 E2].
  { fold total. unfold rep_off. case_match; lia. }
  { unfold out_off. case_decide; case_match; lia. }
  fold total in E1, E2. rewrite <-E2, <-E1. f_equal; [f_equal; lia|].
  rewrite take_ge; [done|]. rewrite length_drop. lia.
Qed.
End after_write.

Lemma note_written_ok cb data n :
  cb_inv cb -> 0 < n <= CB_LIMIT ->
  note_written cb data (cb_size cb - cb_used cb) n ((cb_i_in cb + n) `mod` (cb_size cb + 1)) = Ret (after_write cb data n).
Proof.
  intros Hi Hn. pose proof (inv_ring_room cb Hi) as [HN _]. pose proof (inv_indexes cb Hi) as (_ & _ & ? & ? & ?).
  pose proof (whole_slice cb Hi) as (_ & Eo & Ei). pose proof Hi as [_ _ _ _ _ ? Hmax Hin Hout Hrep _ _ _].
  pose proof (Z.mod_pos_bound (cb_i_in cb + n) (cb_size cb + 1) HN). unfold CB_LIMIT in *.
  apply wp_eq. unfold note_written.
  apply wp_bind, wp_ring_sub; [done|done|done|].
  change ((cb_i_out cb - cb_i_rep cb) `mod` (cb_size cb + 1)) with (reused cb).
  apply wp_bind, wp_i32; [unfold i32_min, i32_max; lia|]. apply wp_bind, wp_ring; [done|unfold i32_max; lia|].
  apply wp_assert; [apply Z.eqb_refl|]. unfold after_write, out_off, rep_off.
  destruct (Z.ltb_spec (cb_size cb - cb_used cb - reused cb) n).
  - apply wp_bind, wp_bind, wp_ring; [done|unfold i32_max; lia|]. apply wp_ret, wp_ret.
    rewrite (proj2 (Z.ltb_lt (cb_size cb) (reused cb + cb_used cb + n))), orb_true_r by lia.
    assert (Enext : ((cb_i_in cb + n) `mod` (cb_size cb + 1) + 1) `mod` (cb_size cb + 1) =
      (cb_i_rep cb + (reused cb + cb_used cb + n - cb_size cb)) `mod` (cb_size cb + 1)).
    { rewrite Zplus_mod_idemp_l, <-Ei, <-Z.add_assoc, Zplus_mod_idemp_l.
      rewrite <-(Z_mod_plus_full (cb_i_rep cb + (reused cb + cb_used cb + n - cb_size cb)) 1 (cb_size cb + 1)).
      f_equal. lia. }
    rewrite Enext. destruct (cb_size cb - cb_used cb <? n); [done|by rewrite Eo].
  - apply wp_bind, wp_ret, wp_ret. rewrite (proj2 (Z.ltb_ge (cb_size cb) (reused cb + cb_used cb + n))), orb_false_r, Z.add_0_r by lia.
    rewrite (proj2 (Z.ltb_ge (cb_size cb - cb_used cb) n)), Eo, (Z.mod_small (cb_i_rep cb)) by lia. done.
Qed.

(** ** Growing *)

Section growing.
Variable junk : Z.
Variable realloc_ok : Z -> bool.

(** The size asked for: enough for [n] more bytes, up to a multiple of the
    chunk size, within the maximum. *)
Definition grown_alloc (size max n : Z) : Z :=
  let m := size + 17 + n in Z.min (m + (CBUF_CHUNK - m `mod` CBUF_CHUNK)) (max + 17).

Definition q_grow (n : Z) (q : queue) : queue :=
  let m := grown_alloc (q_size q) (q_max q) n in
  if (q_size q =? q_max q) || negb (realloc_ok m) then q
  else Queue (m - 17) (q_max q) (q_overwrite q) (q_wrapped q) (q_replay q) (q_unread q).

(** What the data block holds after growing from [N] to [N'] bytes with
    [i_rep]..[N-1] moved to the end when the replay data wraps. *)
Definition moved (cb : cbuf) (D p : Z) : Z :=
  if (cb_i_in cb <? cb_i_rep cb) && (cb_i_rep cb <=? p) then p + D else p.

Record grown_data (cb : cbuf) (D : Z) (data : list Z) : Prop := {
  gr_length : Z.of_nat (length data) = cb_alloc cb + D;
  gr_first : take 8 data = cookie CBUF_MAGIC;
  gr_last : take 8 (drop (Z.to_nat (CBUF_MAGIC_LEN + (cb_size cb + D) + 1)) data) = cookie CBUF_MAGIC;
  gr_byte : forall p, 0 <= p <= cb_size cb -> (cb_i_rep cb <= cb_i_in cb -> p < cb_i_in cb) ->
    (cb_i_in cb < cb_i_rep cb -> p < cb_i_in cb \/ cb_i_rep cb <= p) ->
    byte data (moved cb D p) = byte (cb_data cb) p
}.

Definition grown (cb : cbuf) (D : Z) (data : list Z) : cbuf :=
  Cbuf (cb_magic cb) (cb_mutex cb) (cb_alloc cb + D) (cb_minsize cb) (cb_maxsize cb) (cb_size cb + D)
    (cb_used cb) (cb_overwrite cb) (cb_got_wrap cb) (cb_i_in cb) (moved cb D (cb_i_out cb))
    (moved cb D (cb_i_rep cb)) data.

Section grown.
Context (cb : cbuf) (D : Z) (data : list Z).
Hypothesis Hi : cb_inv cb.
Hypothesis HD : 0 < D /\ cb_size cb + D <= cb_maxsize cb.
Hypothesis Hg : grown_data cb D data.

Lemma grown_counts :
  (cb_i_in (grown cb D data) - cb_i_out (grown cb D data)) `mod` (cb_size cb + D + 1) = cb_used cb /\
  (cb_i_out (grown cb D data) - cb_i_rep (grown cb D data)) `mod` (cb_size cb + D + 1) = reused cb /\
  0 <= cb_i_out (grown cb D data) <= cb_size cb + D /\ 0 <= cb_i_rep (grown cb D data) <= cb_size cb + D /\
  (cb_i_rep cb = 0 -> cb_i_rep (grown cb D data) = 0).
Proof.
  pose proof (inv_indexes cb Hi) as (Hu & Hr & ? & ? & ?). pose proof Hi as [_ _ _ _ _ ? ? ? ? ? _ _ _].
  cbn [cb_i_in cb_i_out cb_i_rep grown]. unfold moved.
  assert (Hb : forall p, 0 <= p <= cb_size cb -> 0 <= moved cb D p <= cb_size cb + D).
  { intros p Hp. unfold moved. if_case; lia. }
  pose proof (Hb (cb_i_out cb) ltac:(lia)) as Hb1. pose proof (Hb (cb_i_rep cb) ltac:(lia)) as Hb2. unfold moved in *.
  rewrite !mod_diff by lia. split_and!; repeat case_match; lia.
Qed.

Lemma inv_grown : cb_inv (grown cb D data).
Proof.
  pose proof grown_counts as (Hu & Hr & Ho & Hre & Hz). pose proof (inv_indexes cb Hi).
  pose proof Hi as [Hmag _ _ _ Halloc Hmin Hmax Hin _ _ _ _ Hwrap]. destruct Hg as [Hl H1 H2 _].
  split; try done; cbn [cb_data cb_alloc cb_size cb_minsize cb_maxsize cb_i_in cb_used cb_got_wrap grown]; lia.
Qed.

Lemma grown_whole :
  cyc (byte data) (cb_size cb + D + 1) (moved cb D (cb_i_rep cb)) (reused cb + cb_used cb) =
  cyc (byte (cb_data cb)) (cb_size cb + 1) (cb_i_rep cb) (reused cb + cb_used cb).
Proof.
  pose proof (inv_indexes cb Hi) as (Hu & Hr & ? & ? & ?). pose proof Hi as [_ _ _ _ _ ? ? ? ? ? _ _ _].
  destruct Hg as [_ _ _ Hb]. apply cyc_ext. intros k Hk.
  rewrite <-(Hb ((cb_i_rep cb + k) `mod` (cb_size cb + 1))).
  - f_equal. rewrite (mod_once (cb_i_rep cb + k)) by lia. unfold moved. rewrite Z.leb_refl, andb_true_r.
    rewrite mod_once by (repeat case_match; lia). repeat case_match; lia.
  - rewrite mod_once by lia. repeat case_match; lia.
  - rewrite mod_once by lia. repeat case_match; lia.
  - rewrite mod_once by lia. repeat case_match; lia.
Qed.

Lemma absq_grown : absq (grown cb D data) =
  Queue (cb_size cb + D) (cb_maxsize cb) (cb_overwrite cb) (cb_got_wrap cb) (replay cb) (unread cb).
Proof.
  pose proof (whole_slice _ inv_grown) as (E & _). pose proof (whole_slice _ Hi) as (E' & _).
  pose proof grown_counts as (_ & Hr & _).
  assert (Hr' : reused (grown cb D data) = reused cb) by exact Hr.
  cbn [cb_data cb_size cb_i_rep cb_used grown] in E. rewrite Hr' in E. rewrite grown_whole, <-E' in E.
  apply app_inj_1 in E as [E1 E2].
  - unfold absq. by rewrite E1, E2.
  - pose proof (length_replay _ inv_grown). pose proof (length_replay _ Hi). lia.
Qed.
End grown.

Lemma lookup_realloc (m : list Z) n (j : nat) :
  (j < length m)%nat -> (length m <= Z.to_nat n)%nat -> realloc junk m n !! j = m !! j.
Proof.
  intros Hj Hn. unfold realloc. rewrite take_ge by lia. by rewrite lookup_app_l.
Qed.

Lemma length_realloc (m : list Z) n :
  (length m <= Z.to_nat n)%nat -> length (realloc junk m n) = Z.to_nat n.
Proof. intros Hn. unfold realloc. rewrite length_app, length_take, length_replicate. lia. Qed.

Lemma length_cookie v : length (cookie v) = 8%nat.
Proof. done. Qed.

(** The block after [realloc] and the new cookie. *)
Definition regrown (cb : cbuf) (D : Z) (m : list Z) : Prop :=
  Z.of_nat (length m) = cb_alloc cb + D /\
  forall j : nat, m !! j =
    if (CBUF_MAGIC_LEN + (cb_size cb + D) + 1 <=? Z.of_nat j) && (Z.of_nat j <? CBUF_MAGIC_LEN + (cb_size cb + D) + 9)
    then cookie CBUF_MAGIC !! (j - Z.to_nat (CBUF_MAGIC_LEN + (cb_size cb + D) + 1))%nat
    else realloc junk (cb_data cb) (cb_alloc cb + D) !! j.

Lemma regrown_ok cb D m : cb_inv cb -> 0 < D -> regrown cb D m ->
  take 8 m = cookie CBUF_MAGIC /\
  take 8 (drop (Z.to_nat (CBUF_MAGIC_LEN + (cb_size cb + D) + 1)) m) = cookie CBUF_MAGIC /\
  forall p, 0 <= p <= cb_size cb -> byte m p = byte (cb_data cb) p.
Proof.
  intros [_ Hc1 _ Hl Ha ? _ _ _ _ _ _ _] HD [Hlm Hm]. unfold CBUF_MAGIC_LEN in *. split_and!.
  - rewrite <-Hc1. apply list_eq. intros j. destruct (decide (j < 8)%nat); [|by rewrite !lookup_take_ge by lia].
    rewrite !lookup_take_lt, Hm by lia. if_false. apply lookup_realloc; lia.
  - apply list_eq. intros j. destruct (decide (j < 8)%nat).
    + rewrite lookup_take_lt, lookup_drop, Hm by lia. if_true. f_equal. lia.
    + rewrite lookup_take_ge by lia. symmetry. apply lookup_ge_None. rewrite length_cookie. lia.
  - intros p Hp. unfold byte, CBUF_MAGIC_LEN. rewrite Hm. if_false. f_equal. apply lookup_realloc; lia.
Qed.

(** Moving the wrapped replay data to the end. *)
Lemma wp_move_replay cb D m (Q : list Z * Z * Z -> Prop) :
  cb_inv cb -> 0 < D -> regrown cb D m ->
  (forall data, grown_data cb D data -> Q (data, moved cb D (cb_i_out cb), moved cb D (cb_i_rep cb))) ->
  wp (if cb_i_in cb <? cb_i_rep cb then
       let n := (cb_size cb + 1) - cb_i_rep cb in
       let m' := (cb_size cb + D + 1) - n in
       bs ← mem_get m (CBUF_MAGIC_LEN + cb_i_rep cb) n;
       data ← mem_put m (CBUF_MAGIC_LEN + m') bs;
       let i_out := if cb_i_rep cb <=? cb_i_out cb then cb_i_out cb + (m' - cb_i_rep cb) else cb_i_out cb in
       Ret (data, i_out, m')
     else Ret (m, cb_i_out cb, cb_i_rep cb)) Q.
Proof.
  intros Hi HD Hg HQ. pose proof (regrown_ok cb D m Hi HD Hg) as (H1 & H2 & Hb). destruct Hg as [Hl _].
  pose proof Hi as [_ _ _ _ Ha ? ? ? ? ? _ _ _]. destruct (Z.ltb_spec (cb_i_in cb) (cb_i_rep cb)) as [Hc|Hc].
  2: { assert (Hid : forall p, moved cb D p = p) by (intros p; unfold moved; if_case; lia).
       rewrite !Hid in HQ. apply wp_ret, HQ. split; [done..|]. intros p Hp _ _. by rewrite Hid, Hb. }
  cbv zeta. set (n := cb_size cb + 1 - cb_i_rep cb). set (m' := cb_size cb + D + 1 - n). unfold CBUF_MAGIC_LEN in *.
  apply wp_bind, wp_mem_get; [lia..|]. set (bs := take _ _).
  assert (Hbs : Z.of_nat (length bs) = n) by (unfold bs; rewrite length_take, length_drop; lia).
  apply wp_bind, wp_mem_put; [lia|lia|]. intros data Hl' Hd. rewrite Hbs in Hd. apply wp_ret.
  assert (Eo : moved cb D (cb_i_out cb) = if cb_i_rep cb <=? cb_i_out cb then cb_i_out cb + (m' - cb_i_rep cb) else cb_i_out cb)
    by (unfold moved; repeat if_case; lia).
  assert (Er : moved cb D (cb_i_rep cb) = m') by (unfold moved; if_case; lia). rewrite Eo, Er in HQ.
  apply HQ. split.
  - lia.
  - rewrite <-H1. apply list_eq. intros j. destruct (decide (j < 8)%nat); [|by rewrite !lookup_take_ge by lia].
    rewrite !lookup_take_lt, Hd by lia. by if_false.
  - rewrite <-H2. unfold CBUF_MAGIC_LEN. apply list_eq. intros j. destruct (decide (j < 8)%nat); [|by rewrite !lookup_take_ge by lia].
    rewrite !lookup_take_lt, !lookup_drop, Hd by lia. by if_false.
  - intros p Hp _ Hcase. rewrite <-Hb by done. unfold moved, byte, CBUF_MAGIC_LEN. rewrite Hd.
    destruct (Z.leb_spec (cb_i_rep cb) p); rewrite ?andb_false_r, ?andb_true_r.
    + rewrite (proj2 (Z.ltb_lt _ _)) by lia. if_true. unfold bs. rewrite lookup_take_lt, lookup_drop by lia. do 2 f_equal. lia.
    + if_false. done.
Qed.

Lemma wp_grow cb n (Q : Z * cbuf -> Prop) :
  cb_inv cb -> cb_mutex cb = true -> 0 < n <= CB_LIMIT ->
  (forall cb', cb_inv cb' -> cb_mutex cb' = true -> absq cb' = q_grow n (absq cb) ->
     Q (cb_size cb' - cb_size cb, cb')) ->
  wp (cbuf_grow junk realloc_ok cb n) Q.
Proof.
  intros Hi Hmu Hn HQ. unfold cbuf_grow, CB_LIMIT in *. apply wp_assert; [lia|]. apply wp_assert; [done|].
  pose proof Hi as [Hmag _ _ Hl Ha Hmin Hmax Hin Hout Hrep _ _ _]. unfold CB_LIMIT in *.
  assert (HQ0 : absq cb = q_grow n (absq cb) -> Q (0, cb)).
  { intros E. replace 0 with (cb_size cb - cb_size cb) by lia. by apply HQ. }
  unfold q_grow in *. cbn [q_size q_max q_overwrite q_wrapped q_replay q_unread absq] in *.
  destruct (Z.eqb_spec (cb_size cb) (cb_maxsize cb)) as [E|Hne]; [by apply wp_ret, HQ0|]. cbn [orb] in *.
  cbv zeta. replace (cb_alloc cb - cb_size cb) with 17 by lia. apply wp_assert; [lia|].
  apply wp_bind, wp_i32; [unfold i32_min, i32_max; lia|]. rewrite Z.rem_mod_nonneg by (unfold CBUF_CHUNK; lia).
  pose proof (Z.mod_pos_bound (cb_alloc cb + n) CBUF_CHUNK ltac:(done)) as Hmod. unfold CBUF_CHUNK in Hmod.
  apply wp_bind, wp_i32; [unfold i32_min, i32_max, CBUF_CHUNK; lia|]. apply wp_bind, wp_i32; [unfold i32_min, i32_max; lia|].
  change (Z.min _ _) with (Z.min (cb_alloc cb + n + (CBUF_CHUNK - (cb_alloc cb + n) `mod` CBUF_CHUNK)) (cb_maxsize cb + 17)).
  set (m := grown_alloc (cb_size cb) (cb_maxsize cb) n) in *.
  replace (Z.min _ _) with m by (unfold m, grown_alloc; rewrite Ha; done).
  set (D := m - cb_alloc cb). assert (HD : 0 < D /\ cb_size cb + D <= cb_maxsize cb).
  { unfold D, m, grown_alloc. rewrite <-Ha. unfold CBUF_CHUNK in *. lia. }
  apply wp_assert; [lia|]. destruct (realloc_ok m); cbn [negb] in *; [|by apply wp_ret, HQ0].
  rewrite Hmag. replace m with (cb_alloc cb + D) by lia. replace (cb_alloc cb + D - 17) with (cb_size cb + D) by lia.
  assert (Hlr : length (realloc junk (cb_data cb) (cb_alloc cb + D)) = Z.to_nat (cb_alloc cb + D)) by (apply length_realloc; lia).
  apply wp_bind, wp_mem_put; [unfold CBUF_MAGIC_LEN; lia|rewrite length_cookie; unfold CBUF_MAGIC_LEN; lia|].
  intros data Hld Hd. rewrite length_cookie in Hd. apply wp_bind, (wp_move_replay cb D data); [done|lia| |].
  { split; [lia|]. intros j. rewrite Hd. replace (CBUF_MAGIC_LEN + (cb_size cb + D) + 9) with (CBUF_MAGIC_LEN + (cb_size cb + D) + 1 + Z.of_nat 8) by lia. done. }
  intros data' Hg. cbv beta iota. rewrite <-Hmag.
  change (Cbuf (cb_magic cb) _ _ _ _ _ _ _ _ _ _ _ _) with (grown cb D data').
  pose proof (inv_grown cb D data' Hi HD Hg) as Hi'. apply wp_assert; [by apply valid_intro|]. apply wp_ret.
  apply (HQ (grown cb D data')); [done|done|]. rewrite absq_grown by done. f_equal. lia.
Qed.

(** "Attempt to grow dst cbuf if necessary". *)
Definition q_room (len : Z) (q : queue) : queue :=
  let nfree := q_size q - Z.of_nat (length (q_unread q)) in
  if (nfree <? len) && (q_size q <? q_max q) then q_grow (len - nfree) q else q.

Lemma wp_make_room cb len (Q : Z * cbuf -> Prop) :
  cb_inv cb -> cb_mutex cb = true -> len <= CB_LIMIT ->
  (forall cb', cb_inv cb' -> cb_mutex cb' = true -> absq cb' = q_room len (absq cb) ->
     Q (cb_size cb' - cb_used cb', cb')) ->
  wp (make_room junk realloc_ok cb len) Q.
Proof.
  intros Hi Hmu Hlen HQ. pose proof (inv_indexes cb Hi) as (_ & _ & ? & ? & ?).
  pose proof (unread_length cb Hi) as HU. unfold make_room, q_room in *.
  cbn [absq q_size q_max q_unread] in HQ. rewrite HU in HQ. cbv zeta in *. if_case; [|by apply wp_ret, HQ].
  apply wp_bind, wp_grow; [done|done|lia|]. intros cb' Hi' Hmu' Eq. apply wp_ret.
  replace (cb_size cb - cb_used cb + (cb_size cb' - cb_size cb)) with (cb_size cb' - cb_used cb'); [by apply HQ|].
  assert (Hu : cb_used cb' = cb_used cb).
  { rewrite <-HU, <-(unread_length cb' Hi'). do 2 f_equal. change (unread cb') with (q_unread (absq cb')).
    rewrite Eq. unfold q_grow. by case_match. }
  lia.
Qed.
End growing.

(** ** Writing and copying *)

(** The number of bytes taken under the overwrite option. *)
Definition q_len (len : Z) (q : queue) : Z :=
  match q_overwrite q with
  | CBUF_NO_DROP => Z.min len (q_size q - Z.of_nat (length (q_unread q)))
  | CBUF_WRAP_ONCE => Z.min len (q_size q)
  | CBUF_WRAP_MANY => len
  end.

(** What the invariant says of the abstract state. *)
Definition q_wf (q : queue) : Prop :=
  0 < q_size q <= q_max q /\ q_max q <= CB_LIMIT /\
  Z.of_nat (length (q_replay q ++ q_unread q)) <= q_size q.

Lemma absq_wf cb : cb_inv cb -> q_wf (absq cb).
Proof.
  intros Hi. pose proof (inv_indexes cb Hi). pose proof (unread_length cb Hi). pose proof (length_replay cb Hi).
  destruct Hi. unfold q_wf. cbn. rewrite length_app. lia.
Qed.

Lemma q_append_nil q : q_wf q -> q_append [] q = q.
Proof.
  intros (? & ? & Hl). rewrite length_app in Hl. destruct q as [S M o w r u]. unfold q_append.
  cbn [q_size q_max q_overwrite q_wrapped q_replay q_unread] in *. rewrite !app_nil_r, length_app.
  rewrite (lastn_all _ u) by lia. rewrite (proj2 (Z.ltb_ge _ _)), orb_false_r by lia.
  by rewrite lastn_all by lia.
Qed.

Lemma write_len_absq cb len : cb_inv cb -> write_len cb len = q_len len (absq cb).
Proof. intros Hi. unfold write_len, q_len. cbn. by rewrite unread_length. Qed.

Section writer.
Variable junk : Z.
Variable realloc_ok : Z -> bool.
Context {S : Type} {getf : Z -> S -> exec (cres * list Z * S)} {K : Source getf}.

(** The outcome of a write of at most [len] bytes: [bs] are the bytes that went
    in. *)
Definition wrote (q : queue) (len : Z) (s : S) (r : cres) (d : option Z) (q' : queue) (s' : S) (bs : list Z) : Prop :=
  let q1 := q_room realloc_ok len q in
  src_left s = bs ++ src_left s' /\ Z.of_nat (length bs) <= q_len len q1 /\ q' = q_append bs q1 /\
  (bs = [] -> d = None /\ -1 <= rc r <= 0 /\ (q_len len q1 = 0 -> r = Err ENOSPC)) /\
  (bs <> [] -> d = Some (Z.max 0 (Z.of_nat (length (q_unread q1 ++ bs)) - q_size q1)) /\ r = Val (Z.of_nat (length bs))) /\
  (src_full = true -> Z.of_nat (length bs) = q_len len q1).

Lemma q_len_pos len q : q_wf q -> 0 < len -> 0 <= q_len len q <= len /\ (q_len len q = 0 -> q_overwrite q = CBUF_NO_DROP).
Proof. intros (? & ? & Hl) Hn. rewrite length_app in Hl. unfold q_len. destruct (q_overwrite q); split; done || lia. Qed.

Lemma wp_writer cb len s (Q : cres * option Z * cbuf * S -> Prop) :
  cb_inv cb -> cb_mutex cb = true -> 0 < len <= CB_LIMIT -> src_ok s len ->
  (forall r d cb' s' bs, cb_inv cb' -> cb_mutex cb' = true -> wrote (absq cb) len s r d (absq cb') s' bs ->
     Q (r, d, cb', s')) ->
  wp (cbuf_writer junk realloc_ok getf cb len s) Q.
Proof.
  intros Hi Hmu Hlen Hok HQ. unfold cbuf_writer. apply wp_assert; [lia|]. apply wp_assert; [done|].
  apply wp_bind, wp_make_room; [done|done|lia|]. intros cb1 Hi1 Hmu1 E1.
  pose proof (absq_wf cb1 Hi1) as Hwf. cbv beta iota zeta. rewrite (write_len_absq cb1 len Hi1).
  destruct (q_len_pos len (absq cb1) Hwf ltac:(lia)) as [Hql Hnd]. set (n := q_len len (absq cb1)) in *.
  unfold no_space. destruct (Z.eqb_spec n 0) as [Hz|Hnz].
  { specialize (Hnd Hz). cbn in Hnd. rewrite bool_decide_true by done. cbn [andb]. apply wp_ret.
    apply (HQ _ _ _ _ []); [done|done|]. unfold wrote. rewrite <-E1. fold n. rewrite q_append_nil by done.
    split_and!; try done; simpl; lia. }
  rewrite andb_false_r. apply wp_bind, wp_get_loop; [done|lia|eapply src_ok_le; [done|lia]|].
  intros bs m data s' Hbl Hsl Hw Hm Hfull. cbv beta iota zeta.
  replace (n - (n - Z.of_nat (length bs))) with (Z.of_nat (length bs)) by lia. apply wp_assert; [lia|].
  destruct bs as [|b bs'].
  - cbn [length Z.of_nat]. rewrite Z.eqb_refl. apply wp_ret.
    apply written_nil in Hw as ->; [|by apply inv_ring_room..]. replace (set_data (cb_data cb1) cb1) with cb1 by by destruct cb1.
    apply (HQ _ _ _ _ []); [done|done|]. unfold wrote. rewrite <-E1. fold n. rewrite q_append_nil by done.
    specialize (Hm eq_refl). split_and!; done || lia.
  - set (bs := b :: bs') in *. assert (Hpos : 0 < Z.of_nat (length bs)) by (simpl; lia).
    rewrite (proj2 (Z.eqb_neq _ _)) by lia. apply wp_bind. rewrite note_written_ok by (done || lia). apply wp_ret, wp_ret.
    apply (HQ _ _ _ _ bs); [by eapply inv_after_write|done|].
    unfold wrote. rewrite <-E1. fold n. rewrite (absq_after_write cb1 data bs) by done.
    split_and!; try done. intros _. split; [|done]. pose proof (unread_length cb1 Hi1). rewrite length_app. cbn [absq q_unread q_size]. do 2 f_equal. lia.
Qed.
End writer.

(** ** Moving the border between replay and unread data *)

(** [k > 0] bytes are consumed, or [- k] bytes are put back. *)
Definition q_seek (k : Z) (q : queue) : queue :=
  let whole := q_replay q ++ q_unread q in
  let n := Z.to_nat (Z.of_nat (length (q_replay q)) + k) in
  Queue (q_size q) (q_max q) (q_overwrite q) (q_wrapped q) (take n whole) (drop n whole).

Definition seek (cb : cbuf) (k : Z) : cbuf :=
  set_out (cb_used cb - k) ((cb_i_out cb + k) `mod` (cb_size cb + 1)) cb.

Lemma seek_ok cb k : cb_inv cb -> - reused cb <= k <= cb_used cb ->
  cb_inv (seek cb k) /\ absq (seek cb k) = q_seek k (absq cb).
Proof.
  intros Hi Hk. pose proof (inv_indexes cb Hi) as (_ & _ & ? & ? & ?). pose proof (inv_ring_room cb Hi) as [HN _].
  pose proof (whole_slice cb Hi) as (Hw & Eo & Ei).
  assert (Ho : cb_i_out (seek cb k) = (cb_i_rep cb + (reused cb + k)) `mod` (cb_size cb + 1)).
  { cbn. rewrite <-Eo, Zplus_mod_idemp_l. f_equal. lia. }
  assert (Hr : (cb_i_out (seek cb k) - cb_i_rep cb) `mod` (cb_size cb + 1) = reused cb + k).
  { rewrite Ho, Zminus_mod_idemp_l. replace (_ - _) with (reused cb + k) by lia. apply Z.mod_small. lia. }
  assert (Hu : (cb_i_in cb - cb_i_out (seek cb k)) `mod` (cb_size cb + 1) = cb_used cb - k).
  { rewrite Ho, <-Ei, <-Zminus_mod. replace (_ - _) with (cb_used cb - k) by lia. apply Z.mod_small. lia. }
  assert (Hi' : cb_inv (seek cb k)).
  { pose proof (Z.mod_pos_bound (cb_i_out cb + k) (cb_size cb + 1) HN). destruct Hi.
    split; try done; cbn [cb_i_out cb_i_rep cb_i_in cb_used cb_size seek set_out] in *; lia. }
  split; [done|]. pose proof (whole_slice _ Hi') as (Hw' & _ & _).
  assert (Hr' : reused (seek cb k) = reused cb + k) by exact Hr.
  cbn [cb_data cb_size cb_i_rep cb_used seek set_out] in Hw'. rewrite Hr' in Hw'.
  replace (reused cb + k + (cb_used cb - k)) with (reused cb + cb_used cb) in Hw' by lia. rewrite <-Hw in Hw'.
  pose proof (length_replay _ Hi') as Hl. unfold q_seek, absq at 1. cbn [absq q_size q_max q_overwrite q_wrapped q_replay q_unread].
  rewrite (length_replay cb Hi), <-Hw'. rewrite Hr' in Hl.
  rewrite take_app_length', drop_app_length' by lia. done.
Qed.

Lemma wp_dropper cb len (Q : Z * cbuf -> Prop) :
  cb_inv cb -> cb_mutex cb = true -> 0 < len <= cb_used cb ->
  Q (len, seek cb len) -> wp (cbuf_dropper cb len) Q.
Proof.
  intros Hi Hmu Hlen HQ. pose proof (inv_indexes cb Hi) as (_ & _ & ? & ? & ?).
  destruct (seek_ok cb len Hi ltac:(lia)) as [Hi' _]. pose proof Hi as [_ _ _ _ _ ? ? ? ? ? _ _ _].
  unfold cbuf_dropper, CB_LIMIT in *. do 3 (apply wp_assert; [done || lia|]).
  apply wp_bind, wp_ring; [done|unfold i32_max; lia|]. fold (seek cb len).
  apply wp_bind. apply (wp_mono _ (fun _ => True)); [|intros _ _; by apply wp_ret].
  if_case; [|done]. unfold cbuf_shrink. apply wp_assert; [done|]. pose proof (valid_intro _ Hi' Hmu) as Hv.
  apply wp_assert; [done|]. repeat (if_case; [done|]). by apply wp_assert.
Qed.

(** [if (n > 0) cbuf_dropper(src, n)]. *)
Lemma wp_drop_if cb n (Q : cbuf -> Prop) :
  cb_inv cb -> cb_mutex cb = true -> n <= cb_used cb -> Q (if 0 <? n then seek cb n else cb) ->
  wp (if 0 <? n then snd <$> cbuf_dropper cb n else Ret cb) Q.
Proof.
  intros Hi Hmu Hn HQ. destruct (Z.ltb_spec 0 n); [|by apply wp_ret].
  assert (Hd : wp (cbuf_dropper cb n) (fun x => Q x.2)) by (apply wp_dropper; [done|done|lia|done]).
  by destruct (cbuf_dropper cb n).
Qed.

Lemma wp_rewind_by cb n (Q : cbuf -> Prop) :
  cb_inv cb -> n <= reused cb -> Q (if 0 <? n then seek cb (- n) else cb) -> wp (rewind_by cb n) Q.
Proof.
  intros Hi Hn HQ. pose proof (inv_indexes cb Hi) as (_ & _ & ? & ? & ?). pose proof (inv_ring_room cb Hi) as [HN _].
  pose proof Hi as [_ _ _ _ _ ? ? ? ? ? _ _ _]. unfold rewind_by, CB_LIMIT in *.
  destruct (Z.ltb_spec 0 n); [|by apply wp_ret].
  apply wp_bind, wp_i32; [unfold i32_min, i32_max; lia|]. apply wp_bind, wp_ring_sub; [done|lia|lia|]. apply wp_ret.
  unfold seek in HQ. by replace (cb_used cb - - n) with (cb_used cb + n) in HQ by lia.
Qed.

(** ** Copying from buffer to buffer *)

Lemma wp_copy_loop src dst ncopy i (Q : Z * list Z -> Prop) :
  cb_inv src -> cb_inv dst -> 0 <= i <= cb_size src -> 0 <= ncopy <= cb_size src ->
  (forall data, written (cb_size dst + 1) (cb_i_in dst) (cb_data dst) data (ring_slice src i ncopy) ->
     Q ((cb_i_in dst + ncopy) `mod` (cb_size dst + 1), data)) ->
  wp (copy_loop src dst ncopy i) Q.
Proof.
  intros Hs Hd Hi Hn HQ. pose proof (inv_ring_room src Hs) as [HNs Hrs]. pose proof (inv_ring_room dst Hd) as [HNd Hrd].
  unfold copy_loop.
  apply (wp_loop (fun '(nleft, i_src, i_dst, data) => 0 <= nleft <= ncopy /\
      i_src = (i + (ncopy - nleft)) `mod` (cb_size src + 1) /\
      i_dst = (cb_i_in dst + (ncopy - nleft)) `mod` (cb_size dst + 1) /\
      written (cb_size dst + 1) (cb_i_in dst) (cb_data dst) data (ring_slice src i (ncopy - nleft)))
    (fun '(nleft, _, _, _) => Z.to_nat nleft)
    (fun '(i_dst, data) => i_dst = (cb_i_in dst + ncopy) `mod` (cb_size dst + 1) /\
      written (cb_size dst + 1) (cb_i_in dst) (cb_data dst) data (ring_slice src i ncopy))).
  - intros [[[nleft i1] i2] data] (Hnl & E1 & E2 & Hw). destruct (Z.leb_spec nleft 0).
    { replace nleft with 0 in * by lia. rewrite Z.sub_0_r in *. by apply wp_ret. }
    assert (Hi1 : 0 <= i1 < cb_size src + 1) by (rewrite E1; apply Z.mod_pos_bound; lia).
    assert (Hi2 : 0 <= i2 < cb_size dst + 1) by (rewrite E2; apply Z.mod_pos_bound; lia).
    cbv zeta. set (n := Z.min _ nleft). assert (Hn0 : 0 < n <= nleft) by lia.
    apply wp_bind, wp_mem_get; [unfold CBUF_MAGIC_LEN in *; lia..|]. rewrite (piece_cyc _ (cb_size src + 1)) by lia.
    assert (Hl : forall k, 0 <= k -> Z.of_nat (length (ring_slice src i k)) = k) by (intros; unfold ring_slice; rewrite length_cyc; lia).
    apply wp_bind, (wp_mem_put_ring (cb_size dst + 1) (cb_i_in dst) (cb_data dst) data (ring_slice src i (ncopy - nleft)));
      [done|done|done|by rewrite Hl by lia|rewrite length_cyc; lia|].
    intros data' Hw'. destruct Hs, Hd. unfold CB_LIMIT in *.
    apply wp_bind, wp_ring; [by constructor|unfold i32_max; lia|]. apply wp_bind, wp_ring; [by constructor|unfold i32_max; lia|].
    apply wp_ret. split_and!; [lia|lia| | | |lia].
    + rewrite E1, Zplus_mod_idemp_l. f_equal. lia.
    + rewrite E2, Zplus_mod_idemp_l. f_equal. lia.
    + replace (ncopy - (nleft - n)) with (ncopy - nleft + n) by lia. unfold ring_slice in *. rewrite cyc_app by lia.
      by rewrite E1, cyc_mod in Hw' by lia.
  - rewrite Z.sub_diag, !Z.add_0_r, !Z.mod_small by (destruct Hd; lia). split_and!; try lia.
    unfold ring_slice. rewrite cyc_nil by lia. apply written_refl.
  - lia.
  - intros [i_dst data] [-> Hw]. by apply HQ.
Qed.

Section copier.
Variable junk : Z.
Variable realloc_ok : Z -> bool.

(** Copying to [q] from a buffer whose unread bytes are [u]. *)
Definition q_copy (len : Z) (u : list Z) (q : queue) : cres * option Z * queue :=
  let len := Z.min len (Z.of_nat (length u)) in
  if len =? 0 then (Val 0, None, q) else
  let q := q_room realloc_ok len q in
  let n := q_len len q in
  if n =? 0 then (Err ENOSPC, None, q)
  else (Val n, Some (Z.max 0 (n - q_size q + Z.of_nat (length (q_unread q)))),
        q_append (lastn (Z.to_nat (q_size q)) (take (Z.to_nat n) u)) q).

Lemma copied_slice src n (k : Z) : cb_inv src -> 0 <= n <= cb_used src -> 0 <= k <= n ->
  lastn (Z.to_nat k) (take (Z.to_nat n) (unread src)) = ring_slice src ((cb_i_out src + (n - k)) `mod` (cb_size src + 1)) k.
Proof.
  intros Hi Hn Hk. pose proof (inv_ring_room src Hi) as [HN _]. unfold unread, ring_slice, lastn.
  pose proof (length_cyc (byte (cb_data src)) (cb_size src + 1) (cb_i_out src) n).
  rewrite cyc_take, cyc_mod by lia. replace (length _ - Z.to_nat k)%nat with (Z.to_nat (n - k)) by lia.
  rewrite cyc_drop by lia. f_equal. lia.
Qed.

Lemma wp_copier src dst len (Q : cres * option Z * cbuf -> Prop) :
  cb_inv src -> cb_mutex src = true -> cb_inv dst -> cb_mutex dst = true -> 0 < len ->
  (forall r d dst', cb_inv dst' -> cb_mutex dst' = true -> q_copy len (unread src) (absq dst) = (r, d, absq dst') ->
     Q (r, d, dst')) ->
  wp (cbuf_copier junk realloc_ok src dst len) Q.
Proof.
  intros Hs Hms Hd Hmd Hlen HQ. pose proof (inv_indexes src Hs) as (_ & _ & ? & ? & ?).
  pose proof Hs as [_ _ _ _ _ ? Hsz _ Hso _ _ _ _]. unfold CB_LIMIT in *.
  unfold cbuf_copier. do 3 (apply wp_assert; [done || lia|]). unfold q_copy in HQ. rewrite (unread_length src Hs) in HQ.
  cbv zeta in *. set (l := Z.min len (cb_used src)) in *.
  destruct (Z.eqb_spec l 0) as [|Hl0]; [by apply wp_ret, HQ|].
  apply wp_bind, wp_make_room; [done|done|unfold CB_LIMIT; lia|]. intros d1 Hi1 Hmu1 E1. rewrite <-E1 in HQ. cbv beta iota.
  rewrite (write_len_absq d1 l Hi1). pose proof (absq_wf d1 Hi1) as Hwf.
  destruct (q_len_pos l (absq d1) Hwf ltac:(lia)) as [Hql Hnd]. set (n := q_len l (absq d1)) in *.
  unfold no_space. destruct (Z.eqb_spec n 0) as [Hz|Hnz].
  { specialize (Hnd Hz). cbn in Hnd. rewrite bool_decide_true by done. by apply wp_ret, HQ. }
  rewrite andb_false_r. cbn [absq q_size q_unread] in HQ. rewrite (unread_length d1 Hi1) in HQ.
  pose proof Hi1 as [_ _ _ _ _ ? Hsz1 _ _ _ _ _ _]. unfold CB_LIMIT in *. set (k := Z.min n (cb_size d1)).
  apply wp_bind. apply (wp_mono _ (fun '(ncopy, i) => ncopy = k /\ i = (cb_i_out src + (n - k)) `mod` (cb_size src + 1))).
  { destruct (Z.ltb_spec (cb_size d1) n).
    - apply wp_bind, wp_ring; [done|unfold i32_max; lia|]. apply wp_ret. split; [lia|f_equal; lia].
    - apply wp_ret. split; [lia|]. replace (n - k) with 0 by lia. rewrite Z.add_0_r, Z.mod_small; lia. }
  intros [ncopy i] [-> ->]. pose proof (inv_ring_room src Hs) as [HN _].
  pose proof (Z.mod_pos_bound (cb_i_out src + (n - k)) (cb_size src + 1) HN).
  apply wp_bind, wp_copy_loop; [done|done|lia|lia|]. intros data Hw. rewrite <-copied_slice in Hw by (done || lia).
  rewrite (proj2 (Z.ltb_lt 0 k)) by lia. apply wp_bind. rewrite note_written_ok by (done || unfold CB_LIMIT; lia). apply wp_ret, wp_ret.
  assert (Hlk : k = Z.of_nat (length (lastn (Z.to_nat k) (take (Z.to_nat n) (unread src))))).
  { rewrite length_lastn, length_take. pose proof (unread_length src Hs). lia. }
  apply (HQ _ _ (after_write d1 data k)); [by eapply inv_after_write|done|].
  rewrite (absq_after_write d1 data _ k Hi1 Hw Hlk). do 2 f_equal. unfold lastn. f_equal.
  rewrite length_take. pose proof (unread_length src Hs). lia.
Qed.
End copier.
