(* ===== verification/CbufLines.v ===== *)
(** * Circular buffers: lines

    The searches for lines, first as functions of the unread and the replay
    data, then by what they find. *)

From S2P Require Import Prelude Cbuf CbufFacts CbufWrite.

Local Open Scope Z_scope.
Local Open Scope slurm_scope.

(** ** Searching for lines *)

(** The loop of [cbuf_find_unread_line] over the bytes that are left. *)
Fixpoint scan (u : list Z) (n m l chars lines : Z) : Z * Z * Z :=
  match u with
  | [] => (lines, m, l)
  | c :: u' =>
      let n := n + 1 in
      let chars := if 0 <? chars then chars - 1 else chars in
      let '(lines, m, l) :=
        if c =? newline then (if 0 <? lines then lines - 1 else lines, n, l + 1) else (lines, m, l) in
      if (chars =? 0) || (lines =? 0) then (lines, m, l) else scan u' n m l chars lines
  end.

Definition unread_line (u : list Z) (chars lines : Z) : Z * Z :=
  if (lines =? 0) || ((lines <=? -1) && (chars <=? 0)) then (0, 0) else
  let '(k, m, l) := scan u 0 0 0 (if 0 <? lines then -1 else chars) lines in
  if 0 <? k then (0, 0) else (m, l).

Lemma aget_byte cb i : cb_inv cb -> 0 <= i <= cb_size cb ->
  aget (cb_data cb) (CBUF_MAGIC_LEN + i) = Ret (byte (cb_data cb) i).
Proof.
  intros [] Hi. unfold byte, CBUF_MAGIC_LEN in *. destruct (lookup_lt_is_Some_2 (cb_data cb) (Z.to_nat (8 + i))) as [x Hx]; [lia|].
  rewrite Hx. apply aget_lookup; [lia|done].
Qed.

Lemma cyc_cons g N i n : 0 < n -> cyc g N i n = g (i `mod` N) :: cyc g N (i + 1) (n - 1).
Proof.
  intros Hn. replace n with (1 + (n - 1)) at 1 by lia. rewrite cyc_app by lia. unfold cyc at 1.
  change (seqZ 0 1) with [0]. cbn. by rewrite Z.add_0_r.
Qed.

Definition unread_loop (cb : cbuf) (fuel : nat) (st : Z * Z * Z * Z * Z * Z) : exec (Z * Z * Z) :=
  loop fuel (fun '(i, n, m, l, chars, lines) =>
     if i =? cb_i_in cb then Ret (inr (lines, m, l)) else
     let n := n + 1 in
     let chars := if 0 <? chars then chars - 1 else chars in
     c ← aget (cb_data cb) (CBUF_MAGIC_LEN + i);
     let '(lines, m, l) :=
       if c =? newline then (if 0 <? lines then lines - 1 else lines, n, l + 1) else (lines, m, l) in
     if (chars =? 0) || (lines =? 0) then Ret (inr (lines, m, l)) else
     i ← ring cb (i + 1);
     Ret (inl (i, n, m, l, chars, lines))) st.

Lemma unread_loop_ok cb (k : nat) : forall fuel i n m l chars lines,
  cb_inv cb -> 0 <= i <= cb_size cb -> Z.of_nat k <= cb_size cb ->
  (i + Z.of_nat k) `mod` (cb_size cb + 1) = cb_i_in cb -> (k < fuel)%nat ->
  unread_loop cb fuel (i, n, m, l, chars, lines) =
  Ret (scan (cyc (byte (cb_data cb)) (cb_size cb + 1) i (Z.of_nat k)) n m l chars lines).
Proof.
  induction k as [|k IH]; intros fuel i n m l chars lines Hi Hib Hk Hend Hf; (destruct fuel as [|fuel]; [lia|]);
    unfold unread_loop; rewrite loop_step; pose proof (inv_ring_room cb Hi) as [HN _].
  - rewrite Z.add_0_r, Z.mod_small in Hend by lia. rewrite Hend, Z.eqb_refl. done.
  - rewrite (proj2 (Z.eqb_neq i (cb_i_in cb))).
    2: { intros E. rewrite <-E in Hend. rewrite <-(Z.mod_small i (cb_size cb + 1)) in Hend at 2 by lia. apply mod_eq_near in Hend; lia. }
    rewrite aget_byte by done. cbn [mbind exec_bind]. rewrite cyc_cons, Z.mod_small by lia.
    replace (Z.of_nat (S k) - 1) with (Z.of_nat k) by lia. cbn [scan].
    destruct (byte (cb_data cb) i =? newline);
      (match goal with |- context [if ?c then _ else _] => destruct c; [done|] end).
    all: assert (Hr : ring cb (i + 1) = Ret ((i + 1) `mod` (cb_size cb + 1))).
    1, 3: apply wp_eq, wp_ring; [done|destruct Hi; unfold CB_LIMIT, i32_max in *; lia|done].
    all: rewrite Hr; cbn [mbind exec_bind].
    all: pose proof (Z.mod_pos_bound (i + 1) (cb_size cb + 1) HN) as Hm.
    all: rewrite <-(cyc_mod _ _ (i + 1)) by lia; apply IH; [done|lia|lia| |lia].
    all: rewrite Zplus_mod_idemp_l, <-Hend; f_equal; lia.
Qed.

Lemma find_unread_line_ok cb chars lines :
  cb_inv cb -> cb_mutex cb = true -> -1 <= lines ->
  cbuf_find_unread_line cb chars lines = Ret (unread_line (unread cb) chars lines).
Proof.
  intros Hi Hmu Hl. pose proof (inv_indexes cb Hi) as (_ & _ & ? & ? & ?). pose proof (whole_slice cb Hi) as (_ & Eo & Ei).
  unfold cbuf_find_unread_line, unread_line, _cbuf_mutex_is_locked. rewrite (proj2 (Z.leb_le (-1) lines)), Hmu by lia.
  cbn [assert_ mbind exec_bind]. if_case; [done|]. destruct (Z.eqb_spec (cb_used cb) 0) as [Hu|Hu].
  { unfold unread. rewrite cyc_nil by lia. cbn [scan]. by destruct (0 <? lines). }
  fold (unread_loop cb (Z.to_nat (cb_size cb + 2)) (cb_i_out cb, 0, 0, 0, (if 0 <? lines then -1 else chars), lines)).
  rewrite (unread_loop_ok cb (Z.to_nat (cb_used cb))); [|done|by destruct Hi|lia| |lia].
  - rewrite Z2Nat.id by lia. cbn [mbind exec_bind]. fold (unread cb). destruct (scan _ _ _ _ _ _) as [[a b] c]. by case_match.
  - by rewrite Z2Nat.id, <-Ei, <-Eo, Zplus_mod_idemp_l by lia.
Qed.

(** The loop of [cbuf_find_replay_line] over the bytes before, last byte
    first; the result also has the remaining [chars] and the count [n]. *)
Fixpoint rscan (u : list Z) (n m l chars lines : Z) : Z * Z * Z * Z * Z :=
  match u with
  | [] => (chars, lines, n, m, l)
  | c :: u' =>
      let n := n + 1 in
      let chars := if 0 <? chars then chars - 1 else chars in
      let '(lines, m, l) :=
        if c =? newline then (if 0 <? lines then lines - 1 else lines, n - 1, l + 1) else (lines, m, l) in
      if (chars =? 0) || (lines =? 0) then (chars, lines, n, m, l) else rscan u' n m l chars lines
  end.

Definition replay_line (wrapped : bool) (r : list Z) (chars lines : Z) : Z * Z * bool :=
  if (lines =? 0) || ((lines <=? -1) && (chars <=? 0)) then (0, 0, false) else
  match reverse r with
  | [] => (0, 0, false)
  | c :: _ =>
      let nl := negb (c =? newline) in
      let chars := if 0 <? lines then -1 else chars + 1 in
      let chars := if nl then chars - 1 else chars in
      let lines := if nl then lines else if 0 <? lines then lines + 1 else lines in
      let '(chars, lines, n, m, l) := rscan (reverse r) 0 0 (if nl then 0 else -1) chars lines in
      let '(lines, m, l) :=
        if negb wrapped && ((0 <? chars) || (0 <? lines))
        then (if 0 <? lines then lines - 1 else lines, n, l + 1) else (lines, m, l) in
      if 0 <? lines then (0, 0, nl) else (m, l, nl)
  end.

Lemma cyc_snoc g N i n : 0 < n -> cyc g N i n = cyc g N i (n - 1) ++ [g ((i + (n - 1)) `mod` N)].
Proof.
  intros Hn. replace n with (n - 1 + 1) at 1 by lia. rewrite cyc_app by lia. f_equal.
  unfold cyc. change (seqZ 0 1) with [0]. cbn. by rewrite Z.add_0_r.
Qed.

Definition replay_loop (cb : cbuf) (fuel : nat) (st : Z * Z * Z * Z * Z * Z) : exec (Z * Z * Z * Z * Z) :=
  loop fuel (fun '(i, n, m, l, chars, lines) =>
     if i =? cb_i_rep cb then Ret (inr (chars, lines, n, m, l)) else
     i ← ring cb (i + cb_size cb);
     let n := n + 1 in
     let chars := if 0 <? chars then chars - 1 else chars in
     c ← aget (cb_data cb) (CBUF_MAGIC_LEN + i);
     let '(lines, m, l) :=
       if c =? newline then (if 0 <? lines then lines - 1 else lines, n - 1, l + 1) else (lines, m, l) in
     if (chars =? 0) || (lines =? 0) then Ret (inr (chars, lines, n, m, l))
     else Ret (inl (i, n, m, l, chars, lines))) st.

(** [(i + size) % (size + 1)] is the index before [i]. *)
Lemma ring_before cb i : cb_inv cb -> 0 <= i <= cb_size cb ->
  ring cb (i + cb_size cb) = Ret ((i - 1) `mod` (cb_size cb + 1)).
Proof.
  intros Hi Hib. apply wp_eq, wp_ring; [done|destruct Hi; unfold CB_LIMIT, i32_max in *; lia|].
  rewrite <-(Z_mod_plus_full (i - 1) 1 (cb_size cb + 1)). f_equal. lia.
Qed.

Lemma replay_loop_ok cb (k : nat) : forall fuel i n m l chars lines,
  cb_inv cb -> 0 <= i <= cb_size cb -> Z.of_nat k <= cb_size cb ->
  i = (cb_i_rep cb + Z.of_nat k) `mod` (cb_size cb + 1) -> (k < fuel)%nat ->
  replay_loop cb fuel (i, n, m, l, chars, lines) =
  Ret (rscan (reverse (cyc (byte (cb_data cb)) (cb_size cb + 1) (cb_i_rep cb) (Z.of_nat k))) n m l chars lines).
Proof.
  induction k as [|k IH]; intros fuel i n m l chars lines Hi Hib Hk Hend Hf; (destruct fuel as [|fuel]; [lia|]);
    unfold replay_loop; rewrite loop_step; pose proof (inv_ring_room cb Hi) as [HN _]; pose proof Hi as [_ _ _ _ _ _ _ _ _ ? _ _ _].
  - rewrite Z.add_0_r, Z.mod_small in Hend by lia. by rewrite Hend, Z.eqb_refl.
  - rewrite (proj2 (Z.eqb_neq i (cb_i_rep cb))).
    2: { intros E. rewrite E in Hend. rewrite <-(Z.mod_small (cb_i_rep cb) (cb_size cb + 1)) in Hend at 1 by lia. apply mod_eq_near in Hend; lia. }
    rewrite ring_before by done. cbn [mbind exec_bind].
    assert (Ei : (i - 1) `mod` (cb_size cb + 1) = (cb_i_rep cb + Z.of_nat k) `mod` (cb_size cb + 1)).
    { rewrite Hend, Zminus_mod_idemp_l. f_equal. lia. }
    pose proof (Z.mod_pos_bound (cb_i_rep cb + Z.of_nat k) (cb_size cb + 1) HN) as Hm.
    rewrite Ei, aget_byte by (done || lia). cbn [mbind exec_bind].
    rewrite cyc_snoc, reverse_snoc by lia. replace (Z.of_nat (S k) - 1) with (Z.of_nat k) by lia. cbn [rscan].
    destruct (byte (cb_data cb) _ =? newline);
      (match goal with |- context [if ?c then _ else _] => destruct c; [done|] end).
    all: apply IH; [done|lia|lia|done|lia].
Qed.

Lemma find_replay_line_ok cb chars lines :
  cb_inv cb -> cb_mutex cb = true -> -1 <= lines < i32_max -> -1 <= chars < i32_max ->
  cbuf_find_replay_line cb chars lines = Ret (replay_line (cb_got_wrap cb) (replay cb) chars lines).
Proof.
  intros Hi Hmu Hl Hc. pose proof (inv_indexes cb Hi) as (_ & Hr & ? & ? & ?). pose proof (whole_slice cb Hi) as (_ & Eo & _).
  pose proof (inv_ring_room cb Hi) as [HN _]. pose proof Hi as [_ _ _ _ _ _ _ _ ? ? _ _ _].
  unfold cbuf_find_replay_line, replay_line, _cbuf_mutex_is_locked. rewrite (proj2 (Z.leb_le (-1) lines)), Hmu by lia.
  cbn [assert_ mbind exec_bind]. if_case; [done|]. destruct (Z.eqb_spec (cb_i_out cb) (cb_i_rep cb)) as [E'|Hne].
  { assert (reused cb = 0) by (case_match; lia). unfold replay. by rewrite cyc_nil by lia. }
  assert (Hpos : 0 < reused cb) by (case_match; lia).
  assert (Hch : (if 0 <? lines then Ret (-1) else i32 (chars + 1)) = Ret (if 0 <? lines then -1 else chars + 1)).
  { destruct (0 <? lines); [done|]. apply i32_ok. unfold i32_min, i32_max in *. lia. }
  rewrite Hch. cbn [mbind exec_bind]. rewrite ring_before by (done || lia). cbn [mbind exec_bind].
  pose proof (Z.mod_pos_bound (cb_i_out cb - 1) (cb_size cb + 1) HN). rewrite aget_byte by (done || lia). cbn [mbind exec_bind].
  assert (Hrev : reverse (replay cb) = byte (cb_data cb) ((cb_i_out cb - 1) `mod` (cb_size cb + 1)) ::
    reverse (cyc (byte (cb_data cb)) (cb_size cb + 1) (cb_i_rep cb) (reused cb - 1))).
  { unfold replay. rewrite cyc_snoc, reverse_snoc by lia. f_equal. f_equal. rewrite <-Eo, Zminus_mod_idemp_l. f_equal. lia. }
  set (c := byte _ _) in *. set (ch := if 0 <? lines then -1 else chars + 1).
  assert (Hloop : forall l ch lines, replay_loop cb (Z.to_nat (cb_size cb + 2)) (cb_i_out cb, 0, 0, l, ch, lines) =
    Ret (rscan (reverse (replay cb)) 0 0 l ch lines)).
  { intros l' ch' lines'. rewrite (replay_loop_ok cb (Z.to_nat (reused cb))); [|done|lia|lia| |lia].
    - by rewrite Z2Nat.id by lia.
    - by rewrite Z2Nat.id, Eo by lia. }
  set (rr := reverse (replay cb)) in *. rewrite Hrev at 1. cbv iota zeta.
  destruct (c =? newline); cbn [negb mbind exec_bind].
  - assert (Hli : (if 0 <? lines then i32 (lines + 1) else Ret lines) = Ret (if 0 <? lines then lines + 1 else lines)).
    { destruct (0 <? lines); [|done]. apply i32_ok. unfold i32_min, i32_max in *. lia. }
    rewrite Hli. cbn [mbind exec_bind].
    change (loop _ _ ?s) with (replay_loop cb (Z.to_nat (cb_size cb + 2)) s). rewrite Hloop. cbn [mbind exec_bind].
    destruct (rscan _ _ _ _ _ _) as [[[[a b] d] e] f]. repeat case_match; done || congruence.
  - change (loop _ _ ?s) with (replay_loop cb (Z.to_nat (cb_size cb + 2)) s). rewrite Hloop. cbn [mbind exec_bind].
    destruct (rscan _ _ _ _ _ _) as [[[[a b] d] e] f]. repeat case_match; done || congruence.
Qed.

(** ** What the searches find *)

Definition count_nl (s : list Z) : Z := Z.of_nat (length (filter (fun c => c = newline) s)).

Lemma count_nl_cons c s : count_nl (c :: s) = (if c =? newline then 1 else 0) + count_nl s.
Proof.
  unfold count_nl. destruct (Z.eqb_spec c newline).
  - rewrite filter_cons_True by done. cbn [length]. lia.
  - by rewrite filter_cons_False.
Qed.

Lemma count_nl_app s t : count_nl (s ++ t) = count_nl s + count_nl t.
Proof. unfold count_nl. rewrite list.filter_app, length_app. lia. Qed.

Lemma count_nl_reverse s : count_nl (reverse s) = count_nl s.
Proof.
  induction s as [|c s IH]; [done|]. rewrite reverse_cons, count_nl_app, IH, !count_nl_cons. unfold count_nl. simpl. lia.
Qed.

Lemma count_nl_nonneg s : 0 <= count_nl s.
Proof. unfold count_nl. lia. Qed.

(** A search for [k] newlines stops right after the last of them. *)
Lemma scan_lines u : forall n m l chars k, 0 < k -> chars < 0 ->
  match scan u n m l chars k with
  | (k', m', l') =>
      (k' = 0 /\ exists p : nat, u !! p = Some newline /\ count_nl (take (S p) u) = k /\
                 m' = n + Z.of_nat (S p) /\ l' = l + k) \/
      (0 < k' /\ count_nl u < k)
  end.
Proof.
  induction u as [|c u IH]; intros n m l chars k Hk Hch; cbn [scan]; [by right|].
  rewrite (proj2 (Z.ltb_ge 0 chars)), (proj2 (Z.ltb_lt 0 k)) by lia. rewrite (proj2 (Z.eqb_neq chars 0)) by lia. cbn [orb].
  rewrite count_nl_cons. destruct (Z.eqb_spec c newline) as [->|Hc].
  - destruct (Z.eqb_spec (k - 1) 0) as [Hk1|Hk1].
    { left. split; [lia|]. exists 0%nat. cbn [take]. rewrite take_0, count_nl_cons, Z.eqb_refl. change (count_nl []) with 0.
      split_and!; [done|lia|lia|lia]. }
    specialize (IH (n + 1) (n + 1) (l + 1) chars (k - 1) ltac:(lia) Hch).
    destruct (scan _ _ _ _ _ _) as [[k' m'] l']. destruct IH as [(E & p & Hp & Hcp & Hm & Hl)|[E Hu]]; [left|right; lia].
    split; [done|]. exists (S p). cbn [take]. rewrite count_nl_cons. simpl. split_and!; [done|cbn [take] in Hcp; lia|lia|lia].
  - destruct (Z.eqb_spec k 0); [lia|]. specialize (IH (n + 1) m l chars k Hk Hch).
    destruct (scan _ _ _ _ _ _) as [[k' m'] l']. destruct IH as [(E & p & Hp & Hcp & Hm & Hl)|[E Hu]]; [left|right; lia].
    split; [done|]. exists (S p). cbn [take]. rewrite count_nl_cons, (proj2 (Z.eqb_neq c newline)) by done.
    simpl. split_and!; [done|cbn [take] in Hcp; lia|lia|lia].
Qed.

(** Without a line count, the search covers [chars] bytes and remembers the last
    newline. *)
Lemma scan_chars u : forall n m l chars, 0 < chars ->
  match scan u n m l chars (-1) with
  | (k', m', l') =>
      k' = -1 /\ l' = l + count_nl (take (Z.to_nat chars) u) /\
      ((m' = m /\ count_nl (take (Z.to_nat chars) u) = 0) \/
       exists p : nat, Z.of_nat p < chars /\ u !! p = Some newline /\ m' = n + Z.of_nat (S p) /\
         count_nl (take (S p) u) = count_nl (take (Z.to_nat chars) u))
  end.
Proof.
  induction u as [|c u IH]; intros n m l chars Hch; cbn [scan].
  { rewrite take_nil. split_and!; [done|unfold count_nl; simpl; lia|by left]. }
  rewrite (proj2 (Z.ltb_lt 0 chars)) by lia. change (0 <? -1) with false. cbv iota zeta.
  replace (Z.to_nat chars) with (S (Z.to_nat (chars - 1))) by lia. cbn [take].
  set (m1 := if c =? newline then n + 1 else m). set (l1 := if c =? newline then l + 1 else l).
  assert (E : (if c =? newline then (-1, n + 1, l + 1) else (-1, m, l)) = (-1, m1, l1)) by (unfold m1, l1; by case_match).
  rewrite E. clear E. cbv iota. change (-1 =? 0) with false. rewrite orb_false_r. destruct (Z.eqb_spec (chars - 1) 0) as [H1|H1].
  - rewrite H1. change (Z.to_nat 0) with 0%nat. rewrite take_0, count_nl_cons. change (count_nl []) with 0. unfold m1, l1.
    destruct (Z.eqb_spec c newline) as [->|Hc]; (split_and!; [done|lia|]); [right|left; done].
    exists 0%nat. cbn [take lookup]. rewrite take_0, count_nl_cons, Z.eqb_refl. split_and!; [lia|done|lia|done].
  - specialize (IH (n + 1) m1 l1 (chars - 1) ltac:(lia)). destruct (scan _ _ _ _ _ _) as [[k' m'] l'].
    destruct IH as (-> & -> & IH). rewrite count_nl_cons. split; [done|]. split; [unfold l1; case_match; lia|].
    destruct IH as [[-> H0]|(p & Hp & Hlp & -> & Hcp)].
    + unfold m1. destruct (Z.eqb_spec c newline) as [->|Hc]; [right|left; by rewrite H0].
      exists 0%nat. cbn [take lookup]. rewrite take_0, count_nl_cons. split_and!; [lia|done|lia|rewrite H0; done].
    + right. exists (S p). cbn [take]. rewrite count_nl_cons. cbn [take] in Hcp. split_and!; [lia|done|lia|lia].
Qed.

(** The lines of unread data: [lines] of them, or as many as end within [chars]
    bytes. *)
Definition unread_lines_found (u : list Z) (chars lines m l : Z) : Prop :=
  (0 < lines ->
     (l = lines /\ (exists p : nat, m = Z.of_nat (S p) /\ u !! p = Some newline /\ count_nl (take (S p) u) = lines)) \/
     (m = 0 /\ l = 0 /\ count_nl u < lines)) /\
  (lines = -1 -> 0 < chars ->
     l = count_nl (take (Z.to_nat chars) u) /\
     ((m = 0 /\ l = 0) \/
      exists p : nat, m = Z.of_nat (S p) /\ m <= chars /\ u !! p = Some newline /\ count_nl (take (S p) u) = l)).

Lemma unread_line_found u chars lines m l :
  unread_line u chars lines = (m, l) -> unread_lines_found u chars lines m l.
Proof.
  unfold unread_line. intros H. split.
  - intros Hl. rewrite (proj2 (Z.eqb_neq lines 0)), (proj2 (Z.leb_gt lines (-1))), (proj2 (Z.ltb_lt 0 lines)) in H by lia.
    cbn [orb andb] in H. pose proof (scan_lines u 0 0 0 (-1) lines Hl ltac:(lia)) as Hs.
    destruct (scan _ _ _ _ _ _) as [[k m'] l']. destruct Hs as [(-> & p & Hp & Hc & -> & ->)|[Hk Hc]].
    + change (0 <? 0) with false in H. injection H as <- <-. left. split; [lia|]. by exists p.
    + rewrite (proj2 (Z.ltb_lt 0 k)) in H by lia. injection H as <- <-. by right.
  - intros -> Hch. change (-1 =? 0) with false in H. rewrite (proj2 (Z.leb_gt chars 0)) in H by lia. cbn [orb andb] in H.
    change (-1 <=? -1) with true in H. change (0 <? -1) with false in H. cbn [andb] in H.
    pose proof (scan_chars u 0 0 0 chars Hch) as Hs. destruct (scan _ _ _ _ _ _) as [[k m'] l'].
    destruct Hs as (-> & -> & Hs). change (0 <? -1) with false in H. injection H as <- <-. split; [lia|].
    destruct Hs as [[-> Hz]|(p & Hp & Hlp & -> & Hc)]; [left; lia|right]. exists p. split_and!; [lia|lia|done|lia].
Qed.

Lemma rscan_lines u : forall n m l chars k, 0 < k -> chars < 0 ->
  match rscan u n m l chars k with
  | (ch', k', n', m', l') =>
      ch' = chars /\
      ((k' = 0 /\ exists p : nat, u !! p = Some newline /\ count_nl (take (S p) u) = k /\
                  m' = n + Z.of_nat p /\ l' = l + k) \/
       (0 < k' /\ k' = k - count_nl u /\ n' = n + Z.of_nat (length u) /\ l' = l + count_nl u))
  end.
Proof.
  induction u as [|c u IH]; intros n m l chars k Hk Hch; cbn [rscan].
  { split; [done|]. right. change (count_nl []) with 0. simpl. lia. }
  rewrite (proj2 (Z.ltb_ge 0 chars)), (proj2 (Z.ltb_lt 0 k)) by lia. rewrite (proj2 (Z.eqb_neq chars 0)) by lia. cbn [orb].
  rewrite count_nl_cons. set (k1 := if c =? newline then k - 1 else k).
  set (m1 := if c =? newline then n + 1 - 1 else m). set (l1 := if c =? newline then l + 1 else l).
  assert (E : (if c =? newline then (k - 1, n + 1 - 1, l + 1) else (k, m, l)) = (k1, m1, l1)) by (unfold k1, m1, l1; by case_match).
  rewrite E. clear E. cbv iota. destruct (Z.eqb_spec k1 0) as [Hz|Hz].
  { split; [done|]. left. split; [done|]. exists 0%nat. cbn [take lookup]. rewrite take_0, count_nl_cons.
    change (count_nl []) with 0. unfold k1, m1, l1 in *. destruct (Z.eqb_spec c newline) as [->|]; [|lia].
    split_and!; [done|lia|lia|lia]. }
  specialize (IH (n + 1) m1 l1 chars k1 ltac:(unfold k1 in *; case_match; lia) Hch).
  destruct (rscan _ _ _ _ _ _) as [[[[ch' k'] n'] m'] l']. destruct IH as [-> IH]. split; [done|].
  destruct IH as [(-> & p & Hp & Hcp & -> & ->)|(Hk' & -> & -> & ->)]; [left|right].
  - split; [done|]. exists (S p). cbn [take]. cbn [take] in Hcp. rewrite count_nl_cons. unfold k1, l1 in *.
    destruct (c =? newline); split_and!; done || lia.
  - cbn [length]. unfold k1, l1 in *. destruct (c =? newline); lia.
Qed.

Lemma rscan_chars u : forall n m l chars, 0 < chars ->
  match rscan u n m l chars (-1) with
  | (ch', k', n', m', l') =>
      k' = -1 /\ l' = l + count_nl (take (Z.to_nat chars) u) /\ ch' = Z.max 0 (chars - Z.of_nat (length u)) /\
      (0 < ch' -> n' = n + Z.of_nat (length u)) /\
      ((m' = m /\ count_nl (take (Z.to_nat chars) u) = 0) \/
       exists p : nat, Z.of_nat p < chars /\ u !! p = Some newline /\ m' = n + Z.of_nat p /\
         count_nl (take (S p) u) = count_nl (take (Z.to_nat chars) u))
  end.
Proof.
  induction u as [|c u IH]; intros n m l chars Hch; cbn [rscan].
  { rewrite take_nil. change (count_nl []) with 0. simpl. split_and!; [done|lia|lia|lia|by left]. }
  rewrite (proj2 (Z.ltb_lt 0 chars)) by lia. change (0 <? -1) with false. cbv iota zeta.
  replace (Z.to_nat chars) with (S (Z.to_nat (chars - 1))) by lia. cbn [take].
  set (m1 := if c =? newline then n + 1 - 1 else m). set (l1 := if c =? newline then l + 1 else l).
  assert (E : (if c =? newline then (-1, n + 1 - 1, l + 1) else (-1, m, l)) = (-1, m1, l1)) by (unfold m1, l1; by case_match).
  rewrite E. clear E. cbv iota. change (-1 =? 0) with false. rewrite orb_false_r. destruct (Z.eqb_spec (chars - 1) 0) as [H1|H1].
  - rewrite H1. change (Z.to_nat 0) with 0%nat. rewrite take_0, count_nl_cons. change (count_nl []) with 0. unfold m1, l1. cbn [length].
    destruct (Z.eqb_spec c newline) as [->|Hc]; (split_and!; [done|lia|lia|lia|]); [right|left; done].
    exists 0%nat. cbn [take lookup]. rewrite take_0, count_nl_cons, Z.eqb_refl. split_and!; [lia|done|lia|done].
  - specialize (IH (n + 1) m1 l1 (chars - 1) ltac:(lia)). destruct (rscan _ _ _ _ _ _) as [[[[ch' k'] n'] m'] l'].
    destruct IH as (-> & -> & -> & Hn' & IH). rewrite count_nl_cons. cbn [length].
    split_and!; [done|unfold l1; case_match; lia|lia|intros; rewrite Hn'; lia|].
    destruct IH as [[-> H0]|(p & Hp & Hlp & -> & Hcp)].
    + unfold m1. destruct (Z.eqb_spec c newline) as [->|Hc]; [right|left; by rewrite H0].
      exists 0%nat. cbn [take lookup]. rewrite take_0, count_nl_cons. split_and!; [lia|done|lia|rewrite H0; done].
    + right. exists (S p). cbn [take]. rewrite count_nl_cons. cbn [take] in Hcp. split_and!; [lia|done|lia|lia].
Qed.

(** Does the data end in the middle of a line? *)
Definition ends_open (r : list Z) : bool := match last r with Some c => negb (c =? newline) | None => false end.

(** The number of lines of data, an open last line included. *)
Definition nlines (s : list Z) : Z := count_nl s + Z.b2z (ends_open s).

(** The last [k] bytes start at the beginning of a line: after a newline, or at
    the first byte ever written. *)
Definition aligned (wrapped : bool) (r : list Z) (k : nat) : Prop :=
  (wrapped = false /\ k = length r) \/ ((k < length r)%nat /\ r !! (length r - S k)%nat = Some newline).

Definition replay_lines_found (wrapped : bool) (r : list Z) (chars lines m l : Z) (nl : bool) : Prop :=
  (0 < lines ->
     (l = lines /\ nl = ends_open r /\
      exists k : nat, m = Z.of_nat k /\ (0 < k)%nat /\ aligned wrapped r k /\ nlines (lastn k r) = lines) \/
     (m = 0 /\ l = 0 /\ forall k : nat, (0 < k)%nat -> aligned wrapped r k -> nlines (lastn k r) <> lines)) /\
  (lines = -1 -> 0 < chars ->
     nl = ends_open r /\
     (exists k : nat, m = Z.of_nat k /\
        ((k = 0%nat /\ l = 0) \/
         (m + Z.b2z nl <= chars /\ aligned wrapped r k /\ nlines (lastn k r) = l))) /\
     (forall k : nat, (0 < k)%nat -> aligned wrapped r k -> Z.of_nat k + Z.b2z nl <= chars -> Z.of_nat k <= m)).

Section replay_facts.
Context (r : list Z) (c : Z) (rr : list Z).
Hypothesis Hr : reverse r = c :: rr.

Lemma rev_last : last r = Some c.
Proof. rewrite <-(reverse_involutive r), Hr, reverse_cons. apply last_snoc. Qed.

Lemma rev_ends_open : ends_open r = negb (c =? newline).
Proof. unfold ends_open. by rewrite rev_last. Qed.

Lemma rev_take k : take k (reverse r) = reverse (lastn k r).
Proof. apply take_reverse. Qed.

Lemma rev_lookup p x : reverse r !! p = Some x -> (p < length r)%nat /\ r !! (length r - S p)%nat = Some x.
Proof.
  intros H. apply lookup_lt_Some in H as Hp. rewrite length_reverse in Hp. split; [done|].
  by rewrite reverse_lookup in H by done.
Qed.

Lemma lastn_open k : (0 < k)%nat -> ends_open (lastn k r) = ends_open r.
Proof.
  intros Hk. unfold ends_open, lastn.
  assert (Hl : (0 < length r)%nat) by (rewrite <-length_reverse, Hr; simpl; lia).
  rewrite !last_lookup, length_drop, lookup_drop.
  by replace (length r - k + pred (length r - (length r - k)))%nat with (pred (length r)) by lia.
Qed.

Lemma count_before p : (p < length r)%nat -> r !! (length r - S p)%nat = Some newline ->
  count_nl (take (S p) (reverse r)) = 1 + count_nl (lastn p r).
Proof.
  intros Hp Hx. rewrite rev_take, count_nl_reverse. unfold lastn.
  rewrite (drop_S r newline (length r - S p)) by done. rewrite count_nl_cons, Z.eqb_refl.
  do 3 f_equal. lia.
Qed.

Lemma nlines_lastn k : (0 < k)%nat -> nlines (lastn k r) = count_nl (lastn k r) + Z.b2z (ends_open r).
Proof. intros Hk. unfold nlines. by rewrite lastn_open. Qed.

Lemma replay_nonempty : (0 < length r)%nat.
Proof. rewrite <-length_reverse, Hr. simpl. lia. Qed.

(** Too few newlines: no suffix has that many lines. *)
Lemma too_few_lines wrapped lines :
  count_nl r < lines + 1 - Z.b2z (ends_open r) ->
  wrapped = true \/ lines + 1 - Z.b2z (ends_open r) - count_nl r <> 1 ->
  forall k, (0 < k)%nat -> aligned wrapped r k -> nlines (lastn k r) <> lines.
Proof.
  intros Hfew Hw k Hk0 Ha. rewrite nlines_lastn by done. destruct Ha as [[-> ->]|[Hkl Hx]].
  - rewrite lastn_all by done. destruct Hw; [done|lia].
  - pose proof (count_before k Hkl Hx) as Hc. rewrite rev_take, count_nl_reverse in Hc.
    assert (Hle : count_nl (lastn (S k) r) <= count_nl r); [|lia].
    rewrite <-(take_drop (length r - S k) r) at 2. rewrite count_nl_app.
    pose proof (count_nl_nonneg (take (length r - S k) r)). unfold lastn. lia.
Qed.

(** A newline that is not the last byte. *)
Lemma found_before p : reverse r !! p = Some newline ->
  count_nl (take (S p) (reverse r)) = 1 + count_nl (lastn p r) /\
  (forall wrapped, aligned wrapped r p) /\ (ends_open r = true -> (0 < p)%nat).
Proof.
  intros Hp. destruct (rev_lookup p newline Hp) as [Hpl Hx]. split_and!; [by apply count_before|by right|].
  intros Ho. destruct p; [|lia]. rewrite Hr in Hp. injection Hp as Hc. by rewrite rev_ends_open, Hc in Ho.
Qed.

Lemma replay_line_lines wrapped chars lines m l nl :
  0 < lines -> replay_line wrapped r chars lines = (m, l, nl) -> replay_lines_found wrapped r chars lines m l nl.
Proof.
  unfold replay_line. rewrite Hr. intros Hl H. split; [intros _|lia]. rewrite <-Hr, <-rev_ends_open in H.
  rewrite (proj2 (Z.eqb_neq lines 0)), (proj2 (Z.leb_gt lines (-1))), (proj2 (Z.ltb_lt 0 lines)) in H by lia.
  cbn [orb andb] in H. set (o := ends_open r) in *. set (k0 := lines + 1 - Z.b2z o).
  replace (if o then lines else lines + 1) with k0 in H by (unfold k0; destruct o; simpl; lia).
  replace (if o then 0 else -1) with (Z.b2z o - 1) in H by (destruct o; done).
  set (ch := if o then -1 - 1 else -1) in H. assert (Hch : ch < 0) by (unfold ch; destruct o; lia).
  pose proof (rscan_lines (reverse r) 0 0 (Z.b2z o - 1) ch k0 ltac:(unfold k0; destruct o; simpl; lia) Hch) as Hs.
  rewrite length_reverse, count_nl_reverse in Hs. destruct (rscan _ _ _ _ _ _) as [[[[ch' k'] n'] m'] l'].
  destruct Hs as [-> Hs]. rewrite (proj2 (Z.ltb_ge 0 ch)) in H by lia. cbn [orb] in H.
  destruct Hs as [(-> & p & Hp & Hc & -> & ->)|(Hk & -> & -> & ->)].
  - change (0 <? 0) with false in H. rewrite andb_false_r in H. injection H as <- <- <-.
    destruct (found_before p Hp) as (Hcp & Ha & Hpos). rewrite Hcp in Hc. fold o in Hpos.
    assert (Hp0 : (0 < p)%nat).
    { destruct o; [by apply Hpos|]. destruct p; [|lia]. unfold lastn in Hc. rewrite Nat.sub_0_r, drop_all in Hc.
      change (count_nl []) with 0 in Hc. unfold k0 in Hc. simpl in Hc. lia. }
    left. split_and!; [unfold k0; lia|done|]. exists p. split_and!; [lia|done|done|].
    rewrite nlines_lastn by done. fold o. unfold k0 in Hc. lia.
  - rewrite (proj2 (Z.ltb_lt 0 _)) in H by exact Hk. rewrite andb_true_r in H. pose proof replay_nonempty.
    destruct wrapped; cbn [negb] in H.
    + rewrite (proj2 (Z.ltb_lt 0 _)) in H by exact Hk. injection H as <- <- <-. right. split_and!; [done|done|].
      apply too_few_lines; [fold o; unfold k0 in *; lia|by left].
    + destruct (Z.ltb_spec 0 (k0 - count_nl r - 1)); injection H as <- <- <-; [right|left].
      * split_and!; [done|done|]. apply too_few_lines; [fold o; unfold k0 in *; lia|right; fold o; unfold k0 in *; lia].
      * split_and!; [unfold k0 in *; lia|done|]. exists (length r). split_and!; [lia|done|by left|].
        rewrite nlines_lastn by done. rewrite lastn_all by done. fold o. unfold k0 in *. lia.
Qed.

Lemma count_take_le s (i j : nat) : (i <= j)%nat -> count_nl (take i s) <= count_nl (take j s).
Proof.
  intros Hij. rewrite <-(take_drop i (take j s)), count_nl_app, take_take, Nat.min_l by lia.
  pose proof (count_nl_nonneg (drop i (take j s))). lia.
Qed.

Lemma count_take_newline s (i : nat) : s !! i = Some newline -> count_nl (take (S i) s) = count_nl (take i s) + 1.
Proof. intros Hi. rewrite (take_S_r s i newline) by done. rewrite count_nl_app, count_nl_cons, Z.eqb_refl. done. Qed.

(** A line start within reach shows as a newline of the scanned part. *)
Lemma aligned_reverse wrapped k : aligned wrapped r k -> k <> length r -> reverse r !! k = Some newline.
Proof. intros [[_ ->]|[Hk Hx]] Hne; [done|]. by rewrite reverse_lookup. Qed.

Lemma aligned_le wrapped k : aligned wrapped r k -> (k <= length r)%nat.
Proof. intros [[_ ->]|[Hk _]]; lia. Qed.

Lemma replay_line_chars wrapped chars m l nl :
  0 < chars -> replay_line wrapped r chars (-1) = (m, l, nl) -> replay_lines_found wrapped r chars (-1) m l nl.
Proof.
  unfold replay_line. rewrite Hr. intros Hc H. split; [lia|intros _ _]. rewrite <-Hr, <-rev_ends_open in H.
  change (-1 =? 0) with false in H. change (-1 <=? -1) with true in H. change (0 <? -1) with false in H.
  rewrite (proj2 (Z.leb_gt chars 0)) in H by lia. cbn [orb andb] in H. set (o := ends_open r) in *.
  replace (if o then -1 else -1) with (-1) in H by (by destruct o).
  replace (if o then 0 else -1) with (Z.b2z o - 1) in H by (by destruct o).
  set (c1 := if o then chars + 1 - 1 else chars + 1) in H.
  assert (Hc1 : c1 = chars + 1 - Z.b2z o) by (unfold c1; destruct o; simpl; lia). clearbody c1.
  assert (Ho : 0 <= Z.b2z o <= 1) by (destruct o; simpl; lia).
  pose proof (rscan_chars (reverse r) 0 0 (Z.b2z o - 1) c1 ltac:(lia)) as Hs.
  rewrite length_reverse in Hs. destruct (rscan _ _ _ _ _ _) as [[[[ch' k'] n'] m'] l'].
  destruct Hs as (-> & -> & -> & Hn & Hs). change (0 <? -1) with false in H. rewrite orb_false_r in H.
  destruct (negb wrapped && (0 <? Z.max 0 (c1 - Z.of_nat (length r)))) eqn:E; injection H as <- <- <-; (split; [done|]).
  { apply andb_true_iff in E as [Ew E]. specialize (Hn ltac:(lia)). pose proof replay_nonempty. subst n'.
    rewrite take_ge, count_nl_reverse by (rewrite length_reverse; lia). split.
    - exists (length r). split; [lia|right]. split_and!; [lia|left; by destruct wrapped|].
      rewrite nlines_lastn by done. rewrite lastn_all by done. fold o. lia.
    - intros k _ Ha%aligned_le _. lia. }
  assert (Hwhole : forall k, aligned wrapped r k -> Z.of_nat k + Z.b2z o <= chars -> reverse r !! k = Some newline).
  { intros k Ha Hk. apply (aligned_reverse wrapped); [done|]. intros ->. destruct Ha as [[-> _]|[? _]]; [|lia].
    apply andb_false_iff in E as [?|E]; [done|lia]. }
  destruct Hs as [[-> H0]|(p & Hp & Hlp & -> & Hcp)].
  - rewrite H0. split.
    + exists 0%nat. split; [done|left]. split; [done|]. destruct o eqn:Eo; [simpl; lia|exfalso].
      assert (Hnl : reverse r !! 0%nat = Some newline).
      { rewrite Hr. unfold o in Eo. rewrite rev_ends_open in Eo. simpl. f_equal. apply negb_false_iff in Eo. lia. }
      pose proof (count_take_newline _ _ Hnl). pose proof (count_take_le (reverse r) 1 (Z.to_nat c1) ltac:(lia)).
      pose proof (count_nl_nonneg (take 0 (reverse r))). lia.
    + intros k Hk Ha Hkc. pose proof (Hwhole k Ha Hkc) as Hnl. pose proof (count_take_newline _ _ Hnl).
      pose proof (count_take_le (reverse r) (S k) (Z.to_nat c1) ltac:(lia)). pose proof (count_nl_nonneg (take k (reverse r))). lia.
  - destruct (found_before p Hlp) as (Hcp' & Ha & Hpos). fold o in Hpos. split.
    + exists p. split; [lia|]. destruct (decide (p = 0%nat)) as [->|Hp0]; [left|right].
      * split; [done|]. rewrite <-Hcp, Hcp'. unfold lastn. rewrite Nat.sub_0_r, drop_all. change (count_nl []) with 0.
        destruct o; [specialize (Hpos eq_refl); lia|simpl; lia].
      * split_and!; [lia|done|]. rewrite nlines_lastn by lia. fold o. lia.
    + intros k Hk Hak Hkc. destruct (decide (k <= p)%nat); [lia|exfalso]. pose proof (Hwhole k Hak Hkc) as Hnl.
      pose proof (count_take_newline _ _ Hnl). pose proof (count_take_le (reverse r) (S k) (Z.to_nat c1) ltac:(lia)).
      pose proof (count_take_le (reverse r) (S p) k ltac:(lia)). lia.
Qed.
End replay_facts.

Lemma replay_line_found wrapped r chars lines m l nl :
  -1 <= lines -> replay_line wrapped r chars lines = (m, l, nl) -> replay_lines_found wrapped r chars lines m l nl.
Proof.
  intros Hl H. destruct (reverse r) as [|c rr] eqn:Hr.
  - assert (r = []) as -> by (apply (f_equal reverse) in Hr; by rewrite reverse_involutive in Hr).
    assert (Hno : forall k, (0 < k)%nat -> ~ aligned wrapped [] k) by (intros k Hk [[_ Hx]|[Hx _]]; simpl in Hx; lia).
    unfold replay_line in H. rewrite reverse_nil in H.
    replace (if _ || _ then (0, 0, false) else (0, 0, false)) with (0, 0, false) in H by (by case_match).
    injection H as <- <- <-. split.
    + intros _. right. split_and!; [done|done|]. intros k Hk Ha. by destruct (Hno k Hk).
    + intros _ _. split_and!; [done| |]; [exists 0%nat; split; [done|by left]|]. intros k Hk Ha. by destruct (Hno k Hk).
  - destruct (decide (0 < lines)); [by eapply replay_line_lines|]. destruct (decide (lines = 0)) as [->|].
    { split; lia. }
    replace lines with (-1) in * by lia. destruct (decide (0 < chars)); [by eapply replay_line_chars|]. split; lia.
Qed.
