(* ===== verification/CbufOps.v ===== *)
(** * Circular buffers: the operations as steps of an abstract queue

    [op] are the public operations with their arguments; [run_op] runs one on a
    buffer, [q_step] tells what it may do to the abstract queue and what it
    returns.  [run_op_ok] is the simulation. *)

From S2P Require Import Prelude Cbuf CbufFacts CbufWrite CbufLines.

Local Open Scope Z_scope.
Local Open Scope slurm_scope.

(** The caller's memory and the descriptors' scripts are arguments. *)
Inductive op : Type :=
| Write (s : list Z) (len : Z)
| WriteLine (s : cstr)
| WriteFd (srcfd : Z) (fd : list rd_event) (len : Z)
| Read (d : list Z) (len : Z)
| Peek (d : list Z) (len : Z)
| Replay (d : list Z) (len : Z)
| Drop (len : Z)
| Rewind (len : Z)
| ReadLine (d : list Z) (len lines : Z)
| PeekLine (d : list Z) (len lines : Z)
| ReplayLine (d : list Z) (len lines : Z)
| DropLine (len lines : Z)
| RewindLine (len lines : Z)
| ReadFd (dstfd : Z) (fd : wr_fd) (len : Z)
| PeekFd (dstfd : Z) (fd : wr_fd) (len : Z)
| ReplayFd (dstfd : Z) (fd : wr_fd) (len : Z)
| Flush
| OptSet (name value : Z)
| Used | Free | Size | Reused | IsEmpty | LinesUsed | LinesReused.

(** What an operation gives back: its return value with the number of bytes
    dropped, the caller's memory or the descriptor. *)
Inductive out : Type :=
| Res (r : cres)
| Wrote (r : cres) (ndropped : Z)
| WroteFd (r : cres) (ndropped : Z) (fd : list rd_event)
| GotMem (r : cres) (d : list Z)
| GotFd (r : cres) (fd : wr_fd).

Definition out_res (o : out) : cres :=
  match o with Res r => r | Wrote r _ => r | WroteFd r _ _ => r | GotMem r _ => r | GotFd r _ => r end.

Definition got_mem (d : list Z) (x : cres * cbuf * option (list Z)) : out * cbuf :=
  let '(r, cb, d') := x in (GotMem r (default d d'), cb).
Definition got_fd (x : cres * cbuf * wr_fd) : out * cbuf := let '(r, cb, fd) := x in (GotFd r fd, cb).
Definition plain (x : cres * cbuf) : out * cbuf := let '(r, cb) := x in (Res r, cb).
Definition number (x : Z * cbuf) : out * cbuf := let '(n, cb) := x in (Res (Val n), cb).

Section ops.
Variable junk : Z.
Variable realloc_ok : Z -> bool.

Definition run_op (o : op) (cb : cbuf) : exec (out * cbuf) :=
  match o with
  | Write s len => '(r, nd, cb) ← cbuf_write junk realloc_ok cb (Some s) len; Ret (Wrote r nd, cb)
  | WriteLine s => '(r, nd, cb) ← cbuf_write_line junk realloc_ok cb (Some s); Ret (Wrote r nd, cb)
  | WriteFd n fd len => '(r, nd, cb, fd) ← cbuf_write_from_fd junk realloc_ok cb n fd len; Ret (WroteFd r nd fd, cb)
  | Read d len => got_mem d <$> cbuf_read cb (Some d) len
  | Peek d len => got_mem d <$> cbuf_peek cb (Some d) len
  | Replay d len => got_mem d <$> cbuf_replay cb (Some d) len
  | Drop len => plain <$> cbuf_drop cb len
  | Rewind len => plain <$> cbuf_rewind cb len
  | ReadLine d len lines => got_mem d <$> cbuf_read_line cb (Some d) len lines
  | PeekLine d len lines => got_mem d <$> cbuf_peek_line cb (Some d) len lines
  | ReplayLine d len lines => got_mem d <$> cbuf_replay_line cb (Some d) len lines
  | DropLine len lines => plain <$> cbuf_drop_line cb len lines
  | RewindLine len lines => plain <$> cbuf_rewind_line cb len lines
  | ReadFd n fd len => got_fd <$> cbuf_read_to_fd cb n fd len
  | PeekFd n fd len => got_fd <$> cbuf_peek_to_fd cb n fd len
  | ReplayFd n fd len => got_fd <$> cbuf_replay_to_fd cb n fd len
  | Flush => cb ← cbuf_flush cb; Ret (Res (Val 0), cb)
  | OptSet name value => plain <$> cbuf_opt_set cb name value
  | Used => number <$> cbuf_used cb
  | Free => number <$> cbuf_free cb
  | Size => number <$> cbuf_size cb
  | Reused => number <$> cbuf_reused cb
  | IsEmpty => '(b, cb) ← cbuf_is_empty cb; Ret (Res (Val (Z.b2z b)), cb)
  | LinesUsed => number <$> cbuf_lines_used cb
  | LinesReused => number <$> cbuf_lines_reused cb
  end.

(** The caller's part: memory for [len] bytes, and counts that are no larger than
    [CB_LIMIT]. *)
Definition op_ok (o : op) : Prop :=
  match o with
  | Write s len => len <= Z.of_nat (length s) /\ len <= CB_LIMIT
  | WriteLine s => Z.of_nat (length s) < CB_LIMIT
  | WriteFd _ _ len => len <= CB_LIMIT
  | Read d len | Peek d len | Replay d len => len <= Z.of_nat (length d)
  | ReadLine d len lines | PeekLine d len lines | ReplayLine d len lines =>
      len <= Z.of_nat (length d) /\ len <= CB_LIMIT /\ lines < i32_max
  | DropLine len lines | RewindLine len lines => len <= CB_LIMIT /\ lines < i32_max
  | _ => True
  end.

(** ** The abstract steps *)

(** Arguments that are refused with [EINVAL]. *)
Definition bad_args (o : op) : bool :=
  match o with
  | Write _ len | Read _ len | Peek _ len | Replay _ len => len <? 0
  | Drop len | Rewind len => len <? -1
  | ReadLine _ len lines | PeekLine _ len lines | ReplayLine _ len lines
  | DropLine len lines | RewindLine len lines => (len <? 0) || (lines <? -1)
  | WriteFd n _ len | ReadFd n _ len | PeekFd n _ len | ReplayFd n _ len => (n <? 0) || (len <? -1)
  | OptSet name value => negb ((name =? 0) && (0 <=? value) && (value <=? 2))
  | _ => false
  end.

(** [bs] at the start of the memory [d]. *)
Definition stored (bs d : list Z) : list Z := bs ++ drop (length bs) d.

(** The text of found lines, truncated to [len - 1] bytes and ended by a NUL. *)
Definition line_mem (u : list Z) (m len : Z) (d : list Z) : list Z :=
  if (0 <? m) && (0 <? len) then stored (take (Z.to_nat (Z.min m (len - 1))) u ++ [0]) d else d.

Definition replay_mem (r : list Z) (m len : Z) (nl : bool) (d : list Z) : list Z :=
  if (0 <? m) && (0 <? len)
  then stored (lastn (Z.to_nat (Z.min m (len - 1 - Z.b2z nl))) r ++ (if nl && (1 <? len) then [newline] else []) ++ [0]) d
  else d.

Definition q_len_arg (len dflt : Z) : Z := if len =? -1 then dflt else len.

(** A write of the [len] first bytes of [s]. *)
Definition q_write (s : list Z) (len : Z) (q : queue) : cres * Z * queue :=
  if len =? 0 then (Val 0, 0, q) else
  let q1 := q_room realloc_ok len q in
  let n := q_len len q1 in
  if n =? 0 then (Err ENOSPC, 0, q1)
  else (Val n, Z.max 0 (Z.of_nat (length (q_unread q1)) + n - q_size q1), q_append (take (Z.to_nat n) s) q1).

(** A line is [s] with a newline added when it does not end in one. *)
Definition line_text (s : cstr) : list Z := if ends_open s || bool_decide (s = []) then s ++ [newline] else s.

(** The line goes in as its last bytes that fit, the added newline by a write of
    its own. *)
Definition q_write_line (s : cstr) (q : queue) : cres * Z * queue :=
  let len := Z.of_nat (length (line_text s)) in
  let q1 := q_room realloc_ok len q in
  let limit := match q_overwrite q1 with
               | CBUF_NO_DROP => q_size q1 - Z.of_nat (length (q_unread q1))
               | CBUF_WRAP_ONCE => q_size q1
               | CBUF_WRAP_MANY => len
               end in
  if limit <? len then (Err ENOSPC, 0, q1) else
  let skip := Z.max 0 (len - q_size q1) in
  let s' := drop (Z.to_nat skip) s in
  let '(_, d1, q2) := q_write s' (Z.of_nat (length s')) q1 in
  let '(_, d2, q3) := if ends_open s || bool_decide (s = []) then q_write [newline] 1 q2 else (Val 0, 0, q2) in
  (Val len, skip + d1 + d2, q3).

Definition q_overwrite_set (value : Z) (q : queue) : queue :=
  Queue (q_size q) (q_max q)
    (if value =? 0 then CBUF_NO_DROP else if value =? 1 then CBUF_WRAP_ONCE else CBUF_WRAP_MANY)
    (q_wrapped q) (q_replay q) (q_unread q).

Definition q_fd_out (bs : list Z) (fd : wr_fd) (o : out) (r : cres) : Prop :=
  exists fd', o = GotFd r fd' /\ taken bs fd r fd'.

Definition q_step (o : op) (q : queue) (x : out) (q' : queue) : Prop :=
  let u := q_unread q in
  let r := q_replay q in
  match o with
  | Write s len => x = Wrote (q_write s len q).1.1 (q_write s len q).1.2 /\ q' = (q_write s len q).2
  | WriteLine s => x = Wrote (q_write_line s q).1.1 (q_write_line s q).1.2 /\ q' = (q_write_line s q).2
  | WriteFd n fd len =>
      let len := q_len_arg len (if q_size q - Z.of_nat (length u) =? 0 then CBUF_CHUNK else q_size q - Z.of_nat (length u)) in
      if len =? 0 then x = WroteFd (Val 0) 0 fd /\ q' = q
      else exists res d fd' bs, x = WroteFd res (default 0 d) fd' /\ wrote realloc_ok q len fd res d q' fd' bs
  | Read d len => let bs := take (Z.to_nat len) u in
      x = GotMem (Val (Z.of_nat (length bs))) (stored bs d) /\ q' = q_seek (Z.of_nat (length bs)) q
  | Peek d len => let bs := take (Z.to_nat len) u in
      x = GotMem (Val (Z.of_nat (length bs))) (stored bs d) /\ q' = q
  | Replay d len => let bs := lastn (Z.to_nat len) r in
      x = GotMem (Val (Z.of_nat (length bs))) (stored bs d) /\ q' = q
  | Drop len => let n := Z.min (q_len_arg len (Z.of_nat (length u))) (Z.of_nat (length u)) in
      x = Res (Val n) /\ q' = q_seek n q
  | Rewind len => let n := Z.min (q_len_arg len (Z.of_nat (length r))) (Z.of_nat (length r)) in
      x = Res (Val n) /\ q' = q_seek (- n) q
  | ReadLine d len lines => let m := (unread_line u (len - 1) lines).1 in
      x = GotMem (Val m) (line_mem u m len d) /\ q' = q_seek m q
  | PeekLine d len lines => let m := (unread_line u (len - 1) lines).1 in
      x = GotMem (Val m) (line_mem u m len d) /\ q' = q
  | ReplayLine d len lines => let '(m, _, nl) := replay_line (q_wrapped q) r (len - 1) lines in
      x = GotMem (Val (if (0 <? m) && (0 <? len) then m + Z.b2z nl else m)) (replay_mem r m len nl d) /\ q' = q
  | DropLine len lines => let m := (unread_line u len lines).1 in x = Res (Val m) /\ q' = q_seek m q
  | RewindLine len lines => let m := (replay_line (q_wrapped q) r len lines).1.1 in
      x = Res (Val m) /\ q' = q_seek (- m) q
  | ReadFd n fd len => exists res,
      q_fd_out (take (Z.to_nat (q_len_arg len (Z.of_nat (length u)))) u) fd x res /\ q' = q_seek (Z.max 0 (rc res)) q
  | PeekFd n fd len => exists res,
      q_fd_out (take (Z.to_nat (q_len_arg len (Z.of_nat (length u)))) u) fd x res /\ q' = q
  | ReplayFd n fd len => exists res,
      q_fd_out (lastn (Z.to_nat (q_len_arg len (q_size q - Z.of_nat (length u)))) r) fd x res /\ q' = q
  | Flush => x = Res (Val 0) /\ q' = Queue (q_size q) (q_max q) (q_overwrite q) false [] []
  | OptSet name value => x = Res (Val 0) /\ q' = q_overwrite_set value q
  | Used => x = Res (Val (Z.of_nat (length u))) /\ q' = q
  | Free => x = Res (Val (q_max q - Z.of_nat (length u))) /\ q' = q
  | Size => x = Res (Val (q_max q)) /\ q' = q
  | Reused => x = Res (Val (Z.of_nat (length r))) /\ q' = q
  | IsEmpty => x = Res (Val (Z.b2z (bool_decide (u = [])))) /\ q' = q
  | LinesUsed => x = Res (Val (count_nl u)) /\ q' = q
  | LinesReused => x = Res (Val (replay_line (q_wrapped q) r (q_size q) (-1)).1.2) /\ q' = q
  end.

(** Refused arguments change nothing, not even the caller's memory. *)
Definition q_refused (o : op) (x : out) : Prop :=
  match o with
  | Write _ _ => x = Wrote (Err EINVAL) 0
  | WriteFd _ fd _ => x = WroteFd (Err EINVAL) 0 fd
  | Read d _ | Peek d _ | Replay d _ | ReadLine d _ _ | PeekLine d _ _ | ReplayLine d _ _ => x = GotMem (Err EINVAL) d
  | ReadFd _ fd _ | PeekFd _ fd _ | ReplayFd _ fd _ => x = GotFd (Err EINVAL) fd
  | _ => x = Res (Err EINVAL)
  end.

Definition q_spec (o : op) (q : queue) (x : out) (q' : queue) : Prop :=
  if bad_args o then q_refused o x /\ q' = q else q_step o q x q'.
End ops.

(** ** The simulation, operation by operation *)

Lemma wp_fmap {A B} (f : A -> B) (e : exec A) (Q : B -> Prop) : wp e (fun a => Q (f a)) -> wp (f <$> e) Q.
Proof. by destruct e. Qed.

Lemma absq_mutex b cb : absq (set_mutex b cb) = absq cb.
Proof. done. Qed.

(** A buffer at rest that represents [q]. *)
Definition rest (cb : cbuf) (q : queue) : Prop := cb_inv cb /\ cb_mutex cb = false /\ absq cb = q.

Lemma rest_unlocked cb q : cb_inv cb -> absq cb = q -> rest (set_mutex false cb) q.
Proof. intros Hi E. split_and!; [by apply inv_set_mutex|done|done]. Qed.

(** The state inside an operation. *)
Definition held (cb : cbuf) (q : queue) : Prop := cb_inv cb /\ cb_mutex cb = true /\ absq cb = q.

Lemma wp_enter {A} cb q (k : cbuf -> exec A) (Q : A -> Prop) :
  rest cb q -> (forall cb, held cb q -> wp (k cb) Q) ->
  wp (cb ← slurm_mutex_lock cb; assert! _cbuf_is_valid cb;; k cb) Q.
Proof.
  intros (Hi & Hm & E) Hk. apply wp_lock_check; [done|done|]. apply Hk. split_and!; [by apply inv_set_mutex|done|done].
Qed.

Lemma wp_leave {A} cb q (k : cbuf -> exec A) (Q : A -> Prop) :
  held cb q -> (forall cb, rest cb q -> wp (k cb) Q) ->
  wp (assert! _cbuf_is_valid cb;; cb ← slurm_mutex_unlock cb; k cb) Q.
Proof. intros (Hi & Hm & E) Hk. apply wp_check_unlock; [done|done|]. by apply Hk, rest_unlocked. Qed.

Lemma held_seek cb q k : held cb q -> - reused cb <= k <= cb_used cb -> held (seek cb k) (q_seek k q).
Proof. intros (Hi & Hm & <-) Hk. destruct (seek_ok cb k Hi Hk). by split_and!. Qed.

Lemma held_facts cb q : held cb q ->
  cb_inv cb /\ cb_mutex cb = true /\ unread cb = q_unread q /\ replay cb = q_replay q /\
  cb_used cb = Z.of_nat (length (q_unread q)) /\ reused cb = Z.of_nat (length (q_replay q)) /\
  cb_size cb = q_size q /\ cb_maxsize cb = q_max q /\ cb_overwrite cb = q_overwrite q /\ cb_got_wrap cb = q_wrapped q.
Proof.
  intros (Hi & Hm & <-). split_and!; try done; [by rewrite <-(unread_length cb Hi)|by rewrite <-(length_replay cb Hi)].
Qed.

Lemma q_seek_0 q : q_seek 0 q = q.
Proof.
  destruct q as [s m o w r u]. unfold q_seek. cbn [q_size q_max q_overwrite q_wrapped q_replay q_unread].
  rewrite Z.add_0_r, Nat2Z.id, take_app_length, drop_app_length. done.
Qed.

(** [if (n > 0) cbuf_dropper(...)] and [rewind_by] as seeks. *)
Lemma wp_held_drop {A} cb q n (k : cbuf -> exec A) (Q : A -> Prop) :
  held cb q -> 0 <= n <= cb_used cb -> (forall cb, held cb (q_seek n q) -> wp (k cb) Q) ->
  wp (cb ← (if 0 <? n then snd <$> cbuf_dropper cb n else Ret cb); k cb) Q.
Proof.
  intros Hh Hn Hk. pose proof (held_facts cb q Hh) as (Hi & Hm & _). pose proof (inv_indexes cb Hi) as (_ & _ & ? & ? & ?).
  apply wp_bind, wp_drop_if; [done|done|lia|]. apply Hk. destruct (Z.ltb_spec 0 n); [apply held_seek; [done|lia]|].
  replace n with 0 by lia. by rewrite q_seek_0.
Qed.

Lemma wp_held_rewind {A} cb q n (k : cbuf -> exec A) (Q : A -> Prop) :
  held cb q -> 0 <= n <= reused cb -> (forall cb, held cb (q_seek (- n) q) -> wp (k cb) Q) ->
  wp (cb ← rewind_by cb n; k cb) Q.
Proof.
  intros Hh Hn Hk. pose proof (held_facts cb q Hh) as (Hi & Hm & _). pose proof (inv_indexes cb Hi) as (_ & _ & ? & ? & ?).
  apply wp_bind, wp_rewind_by; [done|lia|]. apply Hk. destruct (Z.ltb_spec 0 n); [apply held_seek; [done|lia]|].
  replace n with 0 by lia. by rewrite q_seek_0.
Qed.

Lemma taken_mem bs d r m : taken bs (Mem d 0) r m -> r = Val (Z.of_nat (length bs)) /\ mem_bytes m = stored bs d.
Proof. intros (Hr & Ho & Hf & Hfull). apply (mem_sink_done (Mem d 0) bs r m); [lia|done|done|by apply Hfull|done]. Qed.

Lemma wp_read_mem {A} cb q len d (k : cres * mem -> exec A) (Q : A -> Prop) :
  held cb q -> 0 < len <= Z.of_nat (length d) ->
  (let bs := take (Z.to_nat len) (q_unread q) in
   forall m, mem_bytes m = stored bs d -> wp (k (Val (Z.of_nat (length bs)), m)) Q) ->
  wp (cbuf_reader cbuf_put_mem cb len (Mem d 0) ≫= k) Q.
Proof.
  intros Hh Hlen Hk. pose proof (held_facts cb q Hh) as (Hi & Hm & Hu & _).
  apply wp_bind, wp_reader; [done|done|lia|cbn; lia|]. intros r m Ht. destruct (taken_mem _ _ _ _ Ht) as [-> E].
  rewrite Hu in *. by apply Hk.
Qed.

Lemma wp_replay_mem {A} cb q len d (k : cres * mem -> exec A) (Q : A -> Prop) :
  held cb q -> 0 < len <= Z.of_nat (length d) ->
  (let bs := lastn (Z.to_nat len) (q_replay q) in
   forall m, mem_bytes m = stored bs d -> wp (k (Val (Z.of_nat (length bs)), m)) Q) ->
  wp (cbuf_replayer cbuf_put_mem cb len (Mem d 0) ≫= k) Q.
Proof.
  intros Hh Hlen Hk. pose proof (held_facts cb q Hh) as (Hi & Hm & _ & Hr & _).
  apply wp_bind, wp_replayer; [done|done|lia|cbn; lia|]. intros r m Ht. destruct (taken_mem _ _ _ _ Ht) as [-> E].
  rewrite Hr in *. by apply Hk.
Qed.

Lemma stored_nil d : stored [] d = d.
Proof. done. Qed.

Section sim.
Variable junk : Z.
Variable realloc_ok : Z -> bool.

Definition sim (o : op) : Prop := forall cb q, rest cb q -> q_wf q -> op_ok o ->
  wp (run_op junk realloc_ok o cb) (fun '(x, cb') => exists q', rest cb' q' /\ q_spec realloc_ok o q x q').

Lemma sim_read d len : sim (Read d len).
Proof.
  intros cb q Hr Hq Hok. unfold q_spec. cbn [run_op bad_args op_ok q_refused q_step] in *. apply wp_fmap. unfold cbuf_read.
  destruct (Z.ltb_spec len 0); [apply wp_ret; by exists q|]. destruct (Z.eqb_spec len 0) as [->|Hne].
  { apply wp_ret. exists q. cbn. by rewrite q_seek_0. }
  apply (wp_enter cb q); [done|]. clear cb Hr. intros cb Hh.
  apply (wp_read_mem cb q); [done|lia|]. cbv zeta. intros m Em. cbn [rc].
  pose proof (held_facts cb q Hh) as (_ & _ & _ & _ & Hu & _).
  apply (wp_held_drop cb q); [done|rewrite length_take; lia|]. intros cb' Hh'.
  eapply wp_leave; [done|]. intros cb'' Hr. apply wp_ret. cbn. eexists. split; [done|]. by rewrite Em.
Qed.

Lemma sim_peek d len : sim (Peek d len).
Proof.
  intros cb q Hr Hq Hok. unfold q_spec. cbn [run_op bad_args op_ok q_refused q_step] in *. apply wp_fmap. unfold cbuf_peek.
  destruct (Z.ltb_spec len 0); [apply wp_ret; by exists q|]. destruct (Z.eqb_spec len 0) as [->|Hne].
  { apply wp_ret. by exists q. }
  apply (wp_enter cb q); [done|]. clear cb Hr. intros cb Hh.
  apply (wp_read_mem cb q); [done|lia|]. cbv zeta. intros m Em.
  eapply wp_leave; [done|]. intros cb'' Hr. apply wp_ret. cbn. exists q. split; [done|]. by rewrite Em.
Qed.

Lemma sim_replay d len : sim (Replay d len).
Proof.
  intros cb q Hr Hq Hok. unfold q_spec. cbn [run_op bad_args op_ok q_refused q_step] in *. apply wp_fmap. unfold cbuf_replay.
  destruct (Z.ltb_spec len 0); [apply wp_ret; by exists q|]. destruct (Z.eqb_spec len 0) as [->|Hne].
  { apply wp_ret. exists q. change (Z.to_nat 0) with 0%nat. rewrite lastn_0. done. }
  apply (wp_enter cb q); [done|]. clear cb Hr. intros cb Hh.
  apply (wp_replay_mem cb q); [done|lia|]. cbv zeta. intros m Em.
  eapply wp_leave; [done|]. intros cb'' Hr. apply wp_ret. cbn. exists q. split; [done|]. by rewrite Em.
Qed.

Lemma sim_drop len : sim (Drop len).
Proof.
  intros cb q Hr Hq Hok. unfold q_spec. cbn [run_op bad_args op_ok q_refused q_step] in *. apply wp_fmap. unfold cbuf_drop, q_len_arg.
  destruct (Z.ltb_spec len (-1)); [apply wp_ret; by exists q|]. destruct (Z.eqb_spec len 0) as [->|Hne].
  { apply wp_ret. exists q. change (0 =? -1) with false. rewrite Z.min_l, q_seek_0 by lia. done. }
  apply (wp_enter cb q); [done|]. clear cb Hr. intros cb Hh. pose proof (held_facts cb q Hh) as (_ & _ & _ & _ & Hu & _).
  cbv zeta. rewrite Hu. set (n := if len =? -1 then _ else _).
  replace (Z.min _ _) with n by (unfold n; case_match; lia).
  apply (wp_held_drop cb q); [done|rewrite Hu; unfold n; case_match; lia|]. intros cb' Hh'.
  eapply wp_leave; [done|]. intros cb'' Hr. apply wp_ret. cbn. by eexists.
Qed.

Lemma sim_rewind len : sim (Rewind len).
Proof.
  intros cb q Hr Hq Hok. unfold q_spec. cbn [run_op bad_args op_ok q_refused q_step] in *. apply wp_fmap. unfold cbuf_rewind, q_len_arg.
  destruct (Z.ltb_spec len (-1)); [apply wp_ret; by exists q|]. destruct (Z.eqb_spec len 0) as [->|Hne].
  { apply wp_ret. exists q. change (0 =? -1) with false. rewrite Z.min_l, q_seek_0 by lia. done. }
  apply (wp_enter cb q); [done|]. clear cb Hr. intros cb Hh. pose proof (held_facts cb q Hh) as (Hi & _ & _ & _ & _ & Hre & _).
  apply wp_bind, wp_ring_sub; [done|by destruct Hi|by destruct Hi|]. fold (reused cb). rewrite Hre. cbv zeta.
  set (n := if len =? -1 then _ else _). replace (Z.min _ _) with n by (unfold n; case_match; lia).
  apply (wp_held_rewind cb q); [done|rewrite Hre; unfold n; case_match; lia|]. intros cb' Hh'.
  eapply wp_leave; [done|]. intros cb'' Hr. apply wp_ret. cbn. by eexists.
Qed.

Lemma sim_opt_set name value : sim (OptSet name value).
Proof.
  intros cb q Hr Hq _. unfold q_spec. cbn [run_op bad_args q_refused q_step] in *. apply wp_fmap. unfold cbuf_opt_set.
  apply (wp_enter cb q); [done|]. clear cb Hr. intros cb Hh.
  assert (Hset : forall o, held (set_overwrite o cb) (Queue (q_size q) (q_max q) o (q_wrapped q) (q_replay q) (q_unread q))).
  { intros o. destruct Hh as ([] & Hm & <-). by split_and!. }
  assert (Hres : forall c r q', held c q' ->
     (exists b, b = negb ((name =? 0) && (0 <=? value) && (value <=? 2)) /\
        if b then r = Err EINVAL /\ q' = q else r = Val 0 /\ q' = q_overwrite_set value q) ->
     wp (assert! _cbuf_is_valid c;; cb ← slurm_mutex_unlock c; Ret (r, cb))
       (fun a => let '(x, cb') := plain a in exists q', rest cb' q' /\
         (if negb ((name =? 0) && (0 <=? value) && (value <=? 2)) then x = Res (Err EINVAL) /\ q' = q
          else x = Res (Val 0) /\ q' = q_overwrite_set value q))).
  { intros c r q' Hc (b & -> & Hb). eapply wp_leave; [done|]. intros c' Hc'. apply wp_ret. cbn. exists q'. split; [done|].
    destruct (negb _); destruct Hb as [-> ->]; split; reflexivity. }
  unfold q_overwrite_set in *. destruct (Z.eqb_spec name 0) as [->|Hn].
  2: { apply (Hres _ _ q); [done|]. exists true. split; [reflexivity|split; reflexivity]. }
  destruct (Z.eqb_spec value 0) as [->|H0]; [eapply Hres; [apply Hset|exists false; split; [reflexivity|split; reflexivity]]|].
  destruct (Z.eqb_spec value 1) as [->|H1]; [eapply Hres; [apply Hset|exists false; split; [reflexivity|split; reflexivity]]|].
  destruct (Z.eqb_spec value 2) as [->|H2]; [eapply Hres; [apply Hset|exists false; split; [reflexivity|split; reflexivity]]|].
  apply (Hres _ _ q); [done|]. exists true. split; [|split; reflexivity]. symmetry. apply negb_true_iff. lia.
Qed.

Lemma sim_flush : sim Flush.
Proof.
  intros cb q Hr Hq _. unfold q_spec. cbn [run_op bad_args q_step]. unfold cbuf_flush. apply wp_bind.
  apply (wp_enter cb q); [done|]. clear cb Hr. intros cb ([] & Hm & <-).
  match goal with |- wp (mbind _ (assert_ (_cbuf_is_valid ?c))) _ => set (cb' := c) end.
  assert (Hh : held cb' (Queue (cb_size cb) (cb_maxsize cb) (cb_overwrite cb) false [] [])).
  { split_and!; [|done|].
    - split; try done; cbn [cb_i_rep cb_i_out cb_i_in cb_used cb_size cb_got_wrap cb']; rewrite ?Z.sub_diag, ?Z.mod_0_l by lia; lia.
    - unfold absq, replay, unread, reused. cbn [cb_i_rep cb_i_out cb_used cb_size cb_maxsize cb_overwrite cb_got_wrap cb'].
      rewrite Z.sub_diag, Z.mod_0_l by lia. by rewrite !cyc_nil. }
  apply wp_assert; [apply valid_intro; by destruct Hh as (? & ? & ?)|]. unfold slurm_mutex_unlock. cbn [cb_mutex cb']. rewrite Hm.
  apply wp_ret, wp_ret. eexists. split; [|done]. destruct Hh as (Hi & _ & E). by apply rest_unlocked.
Qed.

(** Functions that only look. *)
Lemma wp_with_lock {A} cb q (f : cbuf -> exec A) (a : A) (Q : A * cbuf -> Prop) :
  rest cb q -> (forall cb, held cb q -> f cb = Ret a) -> (forall cb, rest cb q -> Q (a, cb)) ->
  wp (with_lock cb f) Q.
Proof.
  intros Hr Hf HQ. unfold with_lock. apply (wp_enter cb q); [done|]. clear cb Hr. intros cb Hh. rewrite (Hf cb Hh).
  destruct Hh as (Hi & Hm & E). unfold slurm_mutex_unlock. rewrite Hm. apply wp_bind, wp_ret, wp_bind, wp_ret, wp_ret.
  by apply HQ, rest_unlocked.
Qed.

Lemma sim_counts o : o ∈ [Used; Free; Size; Reused; IsEmpty] -> sim o.
Proof.
  intros Ho cb q Hr Hq _. unfold q_spec. rewrite !elem_of_cons, elem_of_nil in Ho. destruct_or! Ho; try done; subst o;
    cbn [run_op bad_args q_step]; first [apply wp_fmap|apply wp_bind].
  - apply (wp_with_lock cb q _ (Z.of_nat (length (q_unread q)))); [done| |by exists q].
    intros c (_ & _ & _ & _ & -> & _)%held_facts. done.
  - apply (wp_with_lock cb q _ (q_max q - Z.of_nat (length (q_unread q)))); [done| |by exists q].
    intros c (_ & _ & _ & _ & -> & _ & _ & -> & _)%held_facts. done.
  - apply (wp_with_lock cb q _ (q_max q)); [done| |by exists q].
    intros c (_ & _ & _ & _ & _ & _ & _ & -> & _)%held_facts. done.
  - apply (wp_with_lock cb q _ (Z.of_nat (length (q_replay q)))); [done| |by exists q].
    intros c (Hi & _ & _ & _ & _ & <- & _)%held_facts. apply wp_eq, wp_ring_sub; [done|by destruct Hi|by destruct Hi|done].
  - apply (wp_with_lock cb q _ (bool_decide (q_unread q = []))); [done| |].
    + intros c (_ & _ & _ & _ & -> & _)%held_facts. f_equal. destruct (q_unread q); [done|]. rewrite bool_decide_false by done. simpl. lia.
    + intros c Hc. apply wp_ret. by exists q.
Qed.

Lemma unread_line_range u chars lines : -1 <= lines ->
  0 <= (unread_line u chars lines).1 <= Z.of_nat (length u) /\
  (lines = -1 -> (unread_line u chars lines).1 <= Z.max 0 chars).
Proof.
  intros Hl. destruct (unread_line u chars lines) as [m l] eqn:E. pose proof (unread_line_found u chars lines m l E) as [H1 H2]. cbn.
  destruct (decide (0 < lines)).
  { destruct H1 as [(_ & p & -> & Hp & _)|(-> & _)]; [done| |lia]. apply lookup_lt_Some in Hp. lia. }
  destruct (decide (lines = -1 /\ 0 < chars)) as [[-> Hc]|Hn].
  { destruct (H2 eq_refl Hc) as [_ [[-> _]|(p & -> & Hle & Hp & _)]]; [lia|]. apply lookup_lt_Some in Hp. lia. }
  unfold unread_line in E. assert ((lines =? 0) || ((lines <=? -1) && (chars <=? 0)) = true) as He by lia. rewrite He in E.
  injection E as <- <-. lia.
Qed.

Lemma replay_line_range w r chars lines : -1 <= lines ->
  0 <= (replay_line w r chars lines).1.1 <= Z.of_nat (length r).
Proof.
  intros Hl. destruct (replay_line w r chars lines) as [[m l] nl] eqn:E.
  pose proof (replay_line_found w r chars lines m l nl Hl E) as [H1 H2]. cbn.
  assert (Hal : forall k, aligned w r k -> (k <= length r)%nat) by (intros k [[_ ->]|[? _]]; lia).
  destruct (decide (0 < lines)).
  { destruct H1 as [(_ & _ & k & -> & _ & Ha & _)|(-> & _)]; [done| |lia]. apply Hal in Ha. lia. }
  destruct (decide (lines = -1 /\ 0 < chars)) as [[-> Hc]|Hn].
  { destruct (H2 eq_refl Hc) as (_ & (k & -> & [[-> _]|(_ & Ha & _)]) & _); [lia|]. apply Hal in Ha. lia. }
  unfold replay_line in E. assert ((lines =? 0) || ((lines <=? -1) && (chars <=? 0)) = true) as He by lia. rewrite He in E.
  injection E as <- <- <-. lia.
Qed.

Lemma sim_lines o : o ∈ [LinesUsed; LinesReused] -> sim o.
Proof.
  intros Ho cb q Hr Hq _. unfold q_spec. rewrite !elem_of_cons, elem_of_nil in Ho. destruct_or! Ho; try done; subst o;
    cbn [run_op bad_args q_step]; apply wp_fmap; destruct Hq as (Hsz & Hmax & Hlen).
  - apply (wp_with_lock cb q _ (count_nl (q_unread q))); [done| |by exists q].
    intros c (Hi & Hm & Hu & _ & _ & _ & Hs & _)%held_facts. rewrite find_unread_line_ok by (done || lia). rewrite Hu, Hs.
    destruct (unread_line _ _ _) as [m l] eqn:E. apply unread_line_found in E as [_ E]. destruct E as [-> _]; [done|lia|].
    cbn. f_equal. rewrite length_app in Hlen. by rewrite take_ge by lia.
  - apply (wp_with_lock cb q _ (replay_line (q_wrapped q) (q_replay q) (q_size q) (-1)).1.2); [done| |by exists q].
    intros c (Hi & Hm & _ & Hr' & _ & _ & Hs & _ & _ & Hw)%held_facts. unfold CB_LIMIT, i32_max in *.
    rewrite find_replay_line_ok by (done || unfold i32_max; lia). rewrite Hr', Hs, Hw. cbn [mbind exec_bind].
    by destruct (replay_line _ _ _ _) as [[m l] nl].
Qed.

Lemma sim_drop_line len lines : sim (DropLine len lines).
Proof.
  intros cb q Hr Hq Hok. unfold q_spec. cbn [run_op bad_args op_ok q_refused q_step] in *. apply wp_fmap. unfold cbuf_drop_line.
  if_case; [apply wp_ret; by exists q|]. destruct (Z.eqb_spec lines 0) as [->|Hne].
  { apply wp_ret. exists q. unfold unread_line. cbn. by rewrite q_seek_0. }
  apply (wp_enter cb q); [done|]. clear cb Hr. intros cb Hh. pose proof (held_facts cb q Hh) as (Hi & Hm & Hu & _ & Hus & _).
  rewrite find_unread_line_ok by (done || lia). rewrite Hu. apply wp_bind, wp_ret.
  pose proof (unread_line_range (q_unread q) len lines ltac:(lia)) as [Hrg _].
  destruct (unread_line _ _ _) as [m l]. cbn [fst] in *.
  apply (wp_held_drop cb q); [done|lia|]. intros cb' Hh'.
  eapply wp_leave; [done|]. intros cb'' Hr. apply wp_ret. cbn. by eexists.
Qed.

Lemma sim_rewind_line len lines : sim (RewindLine len lines).
Proof.
  intros cb q Hr Hq Hok. unfold q_spec. cbn [run_op bad_args op_ok q_refused q_step] in *. apply wp_fmap. unfold cbuf_rewind_line.
  if_case; [apply wp_ret; by exists q|]. destruct (Z.eqb_spec lines 0) as [->|Hne].
  { apply wp_ret. exists q. unfold replay_line. cbn. by rewrite q_seek_0. }
  apply (wp_enter cb q); [done|]. clear cb Hr. intros cb Hh. pose proof (held_facts cb q Hh) as (Hi & Hm & _ & Hr & _ & Hre & _ & _ & _ & Hw).
  unfold CB_LIMIT, i32_max in *. rewrite find_replay_line_ok by (done || unfold i32_max; lia). rewrite Hr, Hw. apply wp_bind, wp_ret.
  pose proof (replay_line_range (q_wrapped q) (q_replay q) len lines ltac:(lia)) as Hrg.
  destruct (replay_line _ _ _ _) as [[m l] nl]. cbn [fst] in *.
  apply (wp_held_rewind cb q); [done|lia|]. intros cb' Hh'.
  eapply wp_leave; [done|]. intros cb'' Hr'. apply wp_ret. cbn. by eexists.
Qed.

(** ** Lines into memory *)

Lemma stored_snoc bs d x : (length bs < length d)%nat -> <[length bs := x]> (stored bs d) = stored (bs ++ [x]) d.
Proof.
  intros Hl. unfold stored. rewrite length_app. cbn [length]. rewrite insert_app_r_alt, Nat.sub_diag by lia.
  destruct (drop (length bs) d) as [|y t] eqn:E.
  { apply (f_equal length) in E. rewrite length_drop in E. simpl in E. lia. }
  cbn. rewrite <-app_assoc. do 2 f_equal. rewrite Nat.add_1_r.
  assert (Hd : drop (S (length bs)) d = drop 1 (drop (length bs) d)) by (rewrite drop_drop; f_equal; lia).
  rewrite Hd, E. done.
Qed.

Lemma length_stored bs d : (length bs <= length d)%nat -> length (stored bs d) = length d.
Proof. intros H. unfold stored. rewrite length_app, length_drop. lia. Qed.

Lemma wp_aset_stored bs d m x (Q : list Z -> Prop) :
  m = Z.of_nat (length bs) -> (length bs < length d)%nat -> Q (stored (bs ++ [x]) d) -> wp (aset (stored bs d) m x) Q.
Proof.
  intros -> Hl HQ. apply wp_aset; [rewrite length_stored; lia|]. by rewrite Nat2Z.id, stored_snoc.
Qed.

Lemma wp_put_line cb q d len n (Q : list Z -> Prop) :
  held cb q -> 0 <= n <= Z.of_nat (length (q_unread q)) -> len <= Z.of_nat (length d) ->
  Q (line_mem (q_unread q) n len d) -> wp (put_line cb d len n) Q.
Proof.
  intros Hh Hn Hlen HQ. unfold put_line, line_mem in *. if_case; [|by apply wp_ret].
  set (m := Z.min n (len - 1)) in *. set (bs := take (Z.to_nat m) (q_unread q)) in *.
  assert (Hbs : Z.of_nat (length bs) = Z.max 0 m) by (unfold bs; rewrite length_take; lia).
  apply wp_bind. apply (wp_mono _ (fun d' => d' = stored bs d)).
  - destruct (Z.ltb_spec 0 m).
    + apply (wp_read_mem cb q); [done|lia|]. cbv zeta. fold bs. intros mm ->. cbn [rc].
      apply wp_assert; [|by apply wp_ret]. apply orb_true_iff. right. apply Z.eqb_eq. lia.
    + apply wp_ret. unfold bs. replace (Z.to_nat m) with 0%nat by lia. by rewrite take_0.
  - intros d' ->. apply wp_assert; [lia|]. apply wp_aset_stored; [lia|lia|done].
Qed.

Lemma sim_read_line d len lines : sim (ReadLine d len lines).
Proof.
  intros cb q Hr Hq Hok. unfold q_spec. cbn [run_op bad_args op_ok q_refused q_step] in *. apply wp_fmap. unfold cbuf_read_line.
  if_case; [apply wp_ret; by exists q|]. destruct (Z.eqb_spec lines 0) as [->|Hne].
  { apply wp_ret. exists q. unfold unread_line. cbn. by rewrite q_seek_0. }
  apply (wp_enter cb q); [done|]. clear cb Hr. intros cb Hh. pose proof (held_facts cb q Hh) as (Hi & Hm & Hu & _ & Hus & _).
  rewrite find_unread_line_ok by (done || lia). rewrite Hu. apply wp_bind, wp_ret.
  pose proof (unread_line_range (q_unread q) (len - 1) lines ltac:(lia)) as [Hrg _].
  destruct (unread_line _ _ _) as [m l]. cbn [fst] in *. apply wp_bind, (wp_put_line cb q); [done|lia|lia|].
  apply (wp_held_drop cb q); [done|lia|]. intros cb' Hh'.
  eapply wp_leave; [done|]. intros cb'' Hr. apply wp_ret. cbn. by eexists.
Qed.

Lemma sim_peek_line d len lines : sim (PeekLine d len lines).
Proof.
  intros cb q Hr Hq Hok. unfold q_spec. cbn [run_op bad_args op_ok q_refused q_step] in *. apply wp_fmap. unfold cbuf_peek_line.
  if_case; [apply wp_ret; by exists q|]. destruct (Z.eqb_spec lines 0) as [->|Hne]; [apply wp_ret; by exists q|].
  apply (wp_enter cb q); [done|]. clear cb Hr. intros cb Hh. pose proof (held_facts cb q Hh) as (Hi & Hm & Hu & _ & Hus & _).
  rewrite find_unread_line_ok by (done || lia). rewrite Hu. apply wp_bind, wp_ret.
  pose proof (unread_line_range (q_unread q) (len - 1) lines ltac:(lia)) as [Hrg _].
  destruct (unread_line _ _ _) as [m l]. cbn [fst] in *. apply wp_bind, (wp_put_line cb q); [done|lia|lia|].
  eapply wp_leave; [done|]. intros cb'' Hr. apply wp_ret. cbn. by exists q.
Qed.

(** The text of [cbuf_replay_line]. *)
Lemma wp_replay_text cb q d len n (nl : bool) (Q : Z * list Z -> Prop) :
  held cb q -> 0 <= n <= Z.of_nat (length (q_replay q)) -> len <= Z.of_nat (length d) ->
  Q (if (0 <? n) && (0 <? len) then n + Z.b2z nl else n, replay_mem (q_replay q) n len nl d) ->
  wp (if (0 <? n) && (0 <? len) then
        let nl := Z.b2z nl in
        let m := Z.max (Z.min n (len - 1 - nl)) 0 in
        d ← (if 0 <? m then
               '(l, d) ← cbuf_replayer cbuf_put_mem cb m (Mem d 0);
               assert! (rc l =? 0) || (rc l =? m);;
               Ret (mem_bytes d)
             else Ret d);
        '(m, d) ← (if negb (nl =? 0) && (1 <? len) then d ← aset d m newline; Ret (m + 1, d) else Ret (m, d));
        assert! m <? len;;
        d ← aset d m 0;
        Ret (n + nl, d)
      else Ret (n, d)) Q.
Proof.
  intros Hh Hn Hlen HQ. unfold replay_mem in HQ. if_case; [|by apply wp_ret]. cbv zeta.
  assert (Hnl : 0 <= Z.b2z nl <= 1) by (destruct nl; simpl; lia).
  set (m := Z.min n (len - 1 - Z.b2z nl)) in *. set (bs := lastn (Z.to_nat m) (q_replay q)) in *.
  assert (Hbs : Z.of_nat (length bs) = Z.max m 0) by (unfold bs; rewrite length_lastn; lia).
  apply wp_bind. apply (wp_mono _ (fun d' => d' = stored bs d)).
  { destruct (Z.ltb_spec 0 (Z.max m 0)).
    - rewrite Z.max_l in * by lia. apply (wp_replay_mem cb q); [done|lia|]. cbv zeta. fold bs. intros mm ->. cbn [rc].
      apply wp_assert; [|by apply wp_ret]. apply orb_true_iff. right. apply Z.eqb_eq. lia.
    - apply wp_ret. unfold bs. replace (Z.to_nat m) with 0%nat by lia. by rewrite lastn_0. }
  intros d' ->. replace (negb (Z.b2z nl =? 0)) with nl by (by destruct nl).
  set (tail := if nl && (1 <? len) then [newline] else []) in *.
  apply wp_bind. apply (wp_mono _ (fun '(m', d') => m' = Z.of_nat (length (bs ++ tail)) /\ d' = stored (bs ++ tail) d)).
  { unfold tail. destruct (nl && (1 <? len)) eqn:Et.
    - apply wp_bind, wp_aset_stored; [lia|lia|]. apply wp_ret. rewrite length_app. simpl. split; [lia|done].
    - apply wp_ret. rewrite app_nil_r. split; [lia|done]. }
  intros [m' d'] [-> ->].
  assert (Hl : Z.of_nat (length (bs ++ tail)) < len).
  { rewrite length_app. unfold tail. destruct nl; simpl; [|lia]. destruct (Z.ltb_spec 1 len); simpl; [|lia]. simpl in *. lia. }
  apply wp_assert; [lia|]. apply wp_bind, wp_aset_stored; [done|lia|]. apply wp_ret. by rewrite <-app_assoc.
Qed.

Lemma sim_replay_line d len lines : sim (ReplayLine d len lines).
Proof.
  intros cb q Hr Hq Hok. unfold q_spec. cbn [run_op bad_args op_ok q_refused q_step] in *. apply wp_fmap. unfold cbuf_replay_line.
  if_case; [apply wp_ret; by exists q|]. destruct (Z.eqb_spec lines 0) as [->|Hne]; [apply wp_ret; by exists q|].
  apply (wp_enter cb q); [done|]. clear cb Hr. intros cb Hh. pose proof (held_facts cb q Hh) as (Hi & Hm & _ & Hr & _ & Hre & _ & _ & _ & Hw).
  unfold CB_LIMIT, i32_max in *. rewrite find_replay_line_ok by (done || unfold i32_max; lia). rewrite Hr, Hw. apply wp_bind, wp_ret.
  pose proof (replay_line_range (q_wrapped q) (q_replay q) (len - 1) lines ltac:(lia)) as Hrg.
  destruct (replay_line _ _ _ _) as [[m l] nl]. cbn [fst] in *. apply wp_bind, (wp_replay_text cb q); [done|lia|lia|].
  eapply wp_leave; [done|]. intros cb'' Hr''. apply wp_ret. cbn. by exists q.
Qed.

(** ** Descriptors *)

Lemma taken_range {D} {putf : list Z -> D -> exec (cres * D)} {K : Sink putf} bs d r d' :
  taken bs d r d' -> 0 <= Z.max 0 (rc r) <= Z.of_nat (length bs).
Proof. intros (H & _). lia. Qed.

Lemma wp_read_fd cb q len fd (Q : cres * wr_fd -> Prop) :
  held cb q -> (forall r fd', taken (take (Z.to_nat len) (q_unread q)) fd r fd' -> Q (r, fd')) ->
  wp (if 0 <? len then cbuf_reader cbuf_put_fd cb len fd else Ret (Val 0, fd)) Q.
Proof.
  intros Hh HQ. pose proof (held_facts cb q Hh) as (Hi & Hm & Hu & _). destruct (Z.ltb_spec 0 len).
  - apply wp_reader; [done|done|lia|done|]. rewrite Hu. apply HQ.
  - apply wp_ret, HQ. replace (Z.to_nat len) with 0%nat by lia. rewrite take_0. apply taken_nil.
Qed.

Lemma sim_peek_fd n fd len : sim (PeekFd n fd len).
Proof.
  intros cb q Hr Hq Hok. unfold q_spec. cbn [run_op bad_args op_ok q_refused q_step] in *. apply wp_fmap. unfold cbuf_peek_to_fd, q_len_arg.
  if_case; [apply wp_ret; by exists q|].
  apply (wp_enter cb q); [done|]. clear cb Hr. intros cb Hh. pose proof (held_facts cb q Hh) as (_ & _ & _ & _ & Hus & _).
  cbv zeta. rewrite Hus. apply wp_bind, (wp_read_fd cb q); [done|]. intros r fd' Ht.
  eapply wp_leave; [done|]. intros cb'' Hr. apply wp_ret. cbn. exists q. split; [done|]. exists r. split; [by exists fd'|done].
Qed.

Lemma sim_read_fd n fd len : sim (ReadFd n fd len).
Proof.
  intros cb q Hr Hq Hok. unfold q_spec. cbn [run_op bad_args op_ok q_refused q_step] in *. apply wp_fmap. unfold cbuf_read_to_fd, q_len_arg.
  if_case; [apply wp_ret; by exists q|].
  apply (wp_enter cb q); [done|]. clear cb Hr. intros cb Hh. pose proof (held_facts cb q Hh) as (Hi & Hm & Hu & _ & Hus & _).
  cbv zeta. rewrite Hus. set (len' := if len =? -1 then _ else _).
  apply wp_bind. apply (wp_mono _ (fun '(r, cb', fd') => taken (take (Z.to_nat len') (q_unread q)) fd r fd' /\ held cb' (q_seek (Z.max 0 (rc r)) q))).
  { destruct (Z.ltb_spec 0 len').
    - apply wp_bind, wp_reader; [done|done|lia|done|]. rewrite Hu. intros r fd' Ht. pose proof (taken_range _ _ _ _ Ht) as Hrg. rewrite length_take in Hrg.
      replace (if 0 <? rc r then _ else _) with (if 0 <? Z.max 0 (rc r) then snd <$> cbuf_dropper cb (Z.max 0 (rc r)) else Ret cb).
      2: { destruct (Z.ltb_spec 0 (rc r)), (Z.ltb_spec 0 (Z.max 0 (rc r))); try lia; [by rewrite Z.max_r by lia|done]. }
      apply (wp_held_drop cb q); [done|lia|]. intros cb' Hh'. by apply wp_ret.
    - apply wp_ret. replace (Z.to_nat len') with 0%nat by lia. rewrite take_0, q_seek_0. split; [apply taken_nil|done]. }
  intros [[r cb'] fd'] [Ht Hh']. eapply wp_leave; [done|]. intros cb'' Hr. apply wp_ret. cbn. eexists. split; [done|]. exists r. split; [by exists fd'|done].
Qed.

Lemma sim_replay_fd n fd len : sim (ReplayFd n fd len).
Proof.
  intros cb q Hr Hq Hok. unfold q_spec. cbn [run_op bad_args op_ok q_refused q_step] in *. apply wp_fmap. unfold cbuf_replay_to_fd, q_len_arg.
  if_case; [apply wp_ret; by exists q|].
  apply (wp_enter cb q); [done|]. clear cb Hr. intros cb Hh. pose proof (held_facts cb q Hh) as (Hi & Hm & _ & Hre & Hus & _ & Hs & _).
  cbv zeta. rewrite Hus, Hs. set (len' := if len =? -1 then _ else _).
  apply wp_bind. apply (wp_mono _ (fun '(r, fd') => taken (lastn (Z.to_nat len') (q_replay q)) fd r fd')).
  { destruct (Z.ltb_spec 0 len').
    - apply wp_replayer; [done|done|lia|done|]. by rewrite Hre.
    - apply wp_ret. replace (Z.to_nat len') with 0%nat by lia. rewrite lastn_0. apply taken_nil. }
  intros [r fd'] Ht. eapply wp_leave; [done|]. intros cb'' Hr. apply wp_ret. cbn. exists q. split; [done|]. exists r. split; [by exists fd'|done].
Qed.

(** ** Writing *)

Lemma q_grow_facts n q : q_wf q -> 0 < n -> q_wf (q_grow realloc_ok n q) /\ q_size q <= q_size (q_grow realloc_ok n q) /\
  q_max (q_grow realloc_ok n q) = q_max q /\ q_overwrite (q_grow realloc_ok n q) = q_overwrite q /\
  q_wrapped (q_grow realloc_ok n q) = q_wrapped q /\
  q_replay (q_grow realloc_ok n q) = q_replay q /\ q_unread (q_grow realloc_ok n q) = q_unread q.
Proof.
  intros (Hs & Hm & Hl) Hn. unfold q_grow. destruct (Z.eqb_spec (q_size q) (q_max q)); [by split_and!|].
  destruct (realloc_ok _); [|by split_and!]. cbn [orb negb]. unfold q_wf, grown_alloc. cbn [q_size q_max q_overwrite q_wrapped q_replay q_unread].
  pose proof (Z.mod_pos_bound (q_size q + 17 + n) CBUF_CHUNK ltac:(done)). unfold CBUF_CHUNK in *. split_and!; done || lia.
Qed.

Lemma q_room_facts len q : q_wf q -> let q1 := q_room realloc_ok len q in
  q_wf q1 /\ q_size q <= q_size q1 /\ q_max q1 = q_max q /\ q_overwrite q1 = q_overwrite q /\ q_wrapped q1 = q_wrapped q /\
  q_replay q1 = q_replay q /\ q_unread q1 = q_unread q /\
  (len <= q_size q - Z.of_nat (length (q_unread q)) -> q1 = q).
Proof.
  intros Hq. unfold q_room. cbv zeta. if_case; [|by split_and!].
  destruct (q_grow_facts (len - (q_size q - Z.of_nat (length (q_unread q)))) q Hq ltac:(lia)) as (? & ? & ? & ? & ? & ? & ?).
  split_and!; try done. lia.
Qed.

Lemma wp_write_mem {A} cb q s p len (k : cres * option Z * cbuf * mem -> exec A) (Q : A -> Prop) :
  held cb q -> 0 < len <= CB_LIMIT -> 0 <= p -> p + len <= Z.of_nat (length s) ->
  (forall d cb' m, let '(r, nd, q') := q_write realloc_ok (drop (Z.to_nat p) s) len q in
     held cb' q' -> default 0 d = nd -> (0 < rc r -> d = Some nd) -> wp (k (r, d, cb', m)) Q) ->
  wp (cbuf_writer junk realloc_ok cbuf_get_mem cb len (Mem s p) ≫= k) Q.
Proof.
  intros (Hi & Hm & <-) Hlen Hp Hl Hk. apply wp_bind, (wp_writer _ _ (K := mem_source)); [done|done|done|cbn; lia|].
  intros r d cb' m bs Hi' Hm' (Hsrc & Hle & Eq & Hnil & Hcons & Hfull). specialize (Hfull eq_refl).
  specialize (Hk d cb' m). unfold q_write in Hk. rewrite (proj2 (Z.eqb_neq len 0)) in Hk by lia. cbv zeta in Hk.
  destruct (q_room_facts len (absq cb) (absq_wf cb Hi)) as (Hwf & _). set (q1 := q_room realloc_ok len (absq cb)) in *.
  destruct (Z.eqb_spec (q_len len q1) 0) as [Hz|Hnz].
  - assert (bs = []) as -> by (destruct bs; [done|simpl in Hfull; lia]).
    destruct (Hnil eq_refl) as (-> & _ & Hr). rewrite (Hr Hz) in *. rewrite q_append_nil in Eq by done.
    apply Hk; [by split_and!|done|simpl; lia].
  - assert (Hne : bs <> []) by (intros ->; simpl in Hfull; lia). destruct (Hcons Hne) as [-> ->].
    cbn [src_left mem_source mem_pos mem_bytes] in Hsrc.
    assert (Hbs : take (Z.to_nat (q_len len q1)) (drop (Z.to_nat p) s) = bs).
    { rewrite Hsrc. apply take_app_length'. lia. }
    rewrite Hbs, Hfull in *. rewrite length_app, Nat2Z.inj_add, Hfull in *. apply Hk; [by split_and!|done|done].
Qed.

Lemma sim_write s len : sim (Write s len).
Proof.
  intros cb q Hr Hq Hok. unfold q_spec. cbn [run_op bad_args op_ok q_refused q_step] in *. apply wp_bind. unfold cbuf_write.
  destruct (Z.ltb_spec len 0); [apply wp_ret, wp_ret; by exists q|]. destruct (Z.eqb_spec len 0) as [->|Hne].
  { apply wp_ret, wp_ret. by exists q. }
  apply (wp_enter cb q); [done|]. clear cb Hr. intros cb Hh.
  apply (wp_write_mem cb q); [done|lia|lia|lia|]. intros d cb' m. change (Z.to_nat 0) with 0%nat. rewrite drop_0.
  destruct (q_write realloc_ok s len q) as [[r nd] q'] eqn:E. intros Hh' Hd _.
  eapply wp_leave; [done|]. intros cb'' Hr. apply wp_ret, wp_ret. exists q'. rewrite Hd. by split.
Qed.

Lemma sim_write_fd n fd len : sim (WriteFd n fd len).
Proof.
  intros cb q Hr Hq Hok. unfold q_spec. cbn [run_op bad_args op_ok q_refused q_step] in *. apply wp_bind. unfold cbuf_write_from_fd, q_len_arg.
  if_case; [apply wp_ret, wp_ret; by exists q|].
  apply (wp_enter cb q); [done|]. clear cb Hr. intros cb Hh. pose proof (held_facts cb q Hh) as (Hi & Hm & _ & _ & Hus & _ & Hs & _).
  cbv zeta. rewrite Hus, Hs. set (len' := if len =? -1 then _ else _).
  destruct Hq as (? & ? & Hl). rewrite length_app in Hl.
  assert (Hlen' : 0 <= len' <= CB_LIMIT).
  { unfold len', CBUF_CHUNK, CB_LIMIT in *. destruct (Z.eqb_spec len (-1)); [case_match; lia|lia]. }
  destruct (Z.eqb_spec len' 0) as [Hz|Hnz].
  - rewrite Hz. cbn [Z.ltb Z.compare]. apply wp_bind, wp_ret. eapply wp_leave; [done|]. intros cb'' Hr. apply wp_ret, wp_ret. exists q. by split.
  - rewrite (proj2 (Z.ltb_lt 0 len')) by lia. destruct Hh as (_ & _ & <-).
    apply wp_bind, (wp_writer _ _ (K := fd_source)); [done|done|lia|done|]. intros r d cb' fd' bs Hi' Hm' Hw.
    eapply wp_leave; [by split_and!|]. intros cb'' Hr. apply wp_ret, wp_ret. exists (absq cb'). split; [done|]. by exists r, d, fd', bs.
Qed.

(** A write that fits under the overwrite option goes in whole. *)
Lemma q_write_fits s len q : q_wf q -> 0 < len ->
  len <= match q_overwrite q with
         | CBUF_NO_DROP => q_size q - Z.of_nat (length (q_unread q)) | CBUF_WRAP_ONCE => q_size q | CBUF_WRAP_MANY => len
         end ->
  exists nd q', q_write realloc_ok s len q = (Val len, nd, q') /\ q_wf q' /\ q_overwrite q' = q_overwrite q /\
    (q_overwrite q = CBUF_NO_DROP -> len <= Z.of_nat (length s) ->
       q_size q' = q_size q /\ Z.of_nat (length (q_unread q')) = Z.of_nat (length (q_unread q)) + len).
Proof.
  intros Hq Hlen Hfit. destruct (q_room_facts len q Hq) as (Hwf & Hsz & _ & Hov & _ & _ & Hu & Hsame).
  unfold q_write. rewrite (proj2 (Z.eqb_neq len 0)) by lia. set (q1 := q_room realloc_ok len q) in *. cbv zeta.
  assert (Hn : q_len len q1 = len).
  { unfold q_len. rewrite Hov. destruct (q_overwrite q); [rewrite Hsame by lia; lia|lia|done]. }
  rewrite Hn, (proj2 (Z.eqb_neq len 0)) by lia. eexists _, _. split; [done|].
  destruct Hwf as (H1 & H2 & H3). rewrite length_app in H3. split_and!.
  - unfold q_wf, q_append. cbn [q_size q_max q_replay q_unread]. rewrite length_app, !length_lastn. lia.
  - unfold q_append. cbn [q_overwrite]. done.
  - intros Eo Hs. rewrite Eo in Hfit. rewrite Hsame by lia. unfold q_append. cbn [q_size q_unread].
    rewrite length_lastn, length_app, length_take. lia.
Qed.

Lemma aget_snoc (s : cstr) i : 0 <= i < Z.of_nat (length s) -> exists c, s !! Z.to_nat i = Some c /\ aget (s ++ [0]) i = Ret c.
Proof.
  intros Hi. destruct (lookup_lt_is_Some_2 s (Z.to_nat i)) as [c Hc]; [lia|]. exists c. split; [done|].
  apply aget_lookup; [lia|]. by apply lookup_app_l_Some.
Qed.

(** The test for a missing newline. *)
Definition adds_newline (s : cstr) : bool := ends_open s || bool_decide (s = []).

Lemma line_len (s : cstr) {A} (k : Z -> exec A) :
  Z.of_nat (length s) < CB_LIMIT ->
  (c ← (if Z.of_nat (length s) =? 0 then Ret 0 else aget (s ++ [0]) (Z.of_nat (length s) - 1));
   len ← (if (Z.of_nat (length s) =? 0) || negb (c =? newline) then i32 (Z.of_nat (length s) + 1) else Ret (Z.of_nat (length s)));
   k len) = k (Z.of_nat (length s) + Z.b2z (adds_newline s)).
Proof.
  intros Hl. unfold CB_LIMIT, adds_newline in *. assert (Hi : i32 (Z.of_nat (length s) + 1) = Ret (Z.of_nat (length s) + 1)).
  { apply i32_ok. unfold i32_min, i32_max. lia. }
  destruct s as [|x s']; [done|]. set (s := x :: s') in *. assert (Hs : 0 < Z.of_nat (length s)) by (simpl; lia).
  rewrite (proj2 (Z.eqb_neq _ 0)) by lia. destruct (aget_snoc s (Z.of_nat (length s) - 1) ltac:(lia)) as (c & Hc & ->).
  cbn [mbind exec_bind orb]. rewrite (bool_decide_false (s = [])) by done. rewrite orb_false_r.
  unfold ends_open. rewrite last_lookup. replace (pred (length s)) with (Z.to_nat (Z.of_nat (length s) - 1)) by lia. rewrite Hc.
  destruct (c =? newline); cbn [negb].
  - cbn [mbind exec_bind Z.b2z]. by rewrite Z.add_0_r.
  - rewrite Hi. done.
Qed.

(** The byte at the end of the line that is looked at after the copy. *)
Lemma line_end_byte s : exists c, aget (s ++ [0]) (Z.of_nat (length s) + Z.b2z (adds_newline s) - 1) = Ret c /\
  negb (c =? newline) = adds_newline s.
Proof.
  unfold adds_newline. destruct s as [|x s']; [by exists 0|]. set (s := x :: s').
  assert (Hs : 0 < Z.of_nat (length s)) by (simpl; lia). rewrite (bool_decide_false (s = [])) by done. rewrite orb_false_r.
  destruct (aget_snoc s (Z.of_nat (length s) - 1) ltac:(lia)) as (c & Hc & Hg).
  assert (Ho : ends_open s = negb (c =? newline)).
  { unfold ends_open. rewrite last_lookup. replace (pred (length s)) with (Z.to_nat (Z.of_nat (length s) - 1)) by lia. by rewrite Hc. }
  destruct (c =? newline) eqn:E; rewrite Ho; cbn [negb Z.b2z].
  - exists c. rewrite Z.add_0_r. by rewrite E.
  - exists 0. split; [|done]. apply aget_lookup; [lia|]. replace (Z.to_nat _) with (length s) by lia. apply list_lookup_middle. lia.
Qed.

Lemma length_line_text s : Z.of_nat (length (line_text s)) = Z.of_nat (length s) + Z.b2z (adds_newline s).
Proof. unfold line_text, adds_newline. case_match; rewrite ?length_app; simpl; lia. Qed.

(** Copying the string and adding the newline. *)
Lemma wp_write_text cb q s len (Q : Z * cbuf -> Prop) :
  held cb q -> q_wf q -> Z.of_nat (length s) < CB_LIMIT -> len = Z.of_nat (length s) + Z.b2z (adds_newline s) ->
  len <= match q_overwrite q with
         | CBUF_NO_DROP => q_size q - Z.of_nat (length (q_unread q)) | CBUF_WRAP_ONCE => q_size q | CBUF_WRAP_MANY => len
         end ->
  (let skip := Z.max 0 (len - q_size q) in
   let s' := drop (Z.to_nat skip) s in
   let '(_, d1, q2) := q_write realloc_ok s' (Z.of_nat (length s')) q in
   let '(_, d2, q3) := if adds_newline s then q_write realloc_ok [newline] 1 q2 else (Val 0, 0, q2) in
   forall cb', held cb' q3 -> Q (skip + d1 + d2, cb')) ->
  wp (let '(ndrop, ncopy) :=
        if cb_size cb <? len then (len - cb_size cb, Z.of_nat (length s) - (len - cb_size cb)) else (0, Z.of_nat (length s)) in
      '(ndrop', dst) ←
        (if 0 <? ncopy then
           '(n, d, dst, _) ← cbuf_writer junk realloc_ok cbuf_get_mem cb ncopy (Mem (s ++ [0]) ndrop);
           assert! (rc n =? 0) || (rc n =? ncopy);;
           d ← the_drop d;
           Ret (ndrop + d, dst)
         else Ret (ndrop, cb));
      c ← aget (s ++ [0]) (len - 1);
      if negb (c =? newline) then
        '(n, d, dst, _) ← cbuf_writer junk realloc_ok cbuf_get_mem dst 1 (Mem [newline; 0] 0);
        assert! rc n =? 1;;
        d ← the_drop d;
        Ret (ndrop' + d, dst)
      else Ret (ndrop', dst)) Q.
Proof.
  intros Hh Hq Hl Hlen Hfit HQ. pose proof (held_facts cb q Hh) as (_ & _ & _ & _ & _ & _ & -> & _). cbv zeta in HQ.
  pose proof Hq as (Hsz & _ & _). assert (Ha : 0 <= Z.b2z (adds_newline s) <= 1) by (destruct (adds_newline s); simpl; lia).
  set (skip := Z.max 0 (len - q_size q)) in *. set (s' := drop (Z.to_nat skip) s) in *.
  assert (Hs' : Z.of_nat (length s') = Z.of_nat (length s) - skip) by (unfold s'; rewrite length_drop; lia).
  replace (if q_size q <? len then _ else _) with (skip, Z.of_nat (length s')).
  2: { rewrite Hs'. destruct (Z.ltb_spec (q_size q) len); f_equal; lia. }
  cbv iota. destruct (line_end_byte s) as (c & Hc & Hnl). rewrite <-Hlen in Hc.
  apply wp_bind. apply (wp_mono _ (fun '(nd', cb') => exists d1 q2 r, q_write realloc_ok s' (Z.of_nat (length s')) q = (r, d1, q2) /\
     nd' = skip + d1 /\ held cb' q2 /\ q_wf q2 /\ q_overwrite q2 = q_overwrite q /\
     (q_overwrite q = CBUF_NO_DROP -> q_size q2 = q_size q /\ Z.of_nat (length (q_unread q2)) = Z.of_nat (length (q_unread q)) + Z.of_nat (length s')))).
  { destruct (Z.ltb_spec 0 (Z.of_nat (length s'))) as [Hp|Hp].
    2: { apply wp_ret. assert (s' = []) as -> by (destruct s'; [done|simpl in Hp; lia]). cbn [length Z.of_nat]. unfold q_write.
         cbn [Z.eqb]. eexists _, _, _. split; [done|]. split_and!; done || lia. }
    apply (wp_write_mem cb q); [done|unfold CB_LIMIT in *; lia|lia|rewrite length_app; simpl; lia|].
    intros d cb' m. assert (Hd : drop (Z.to_nat skip) (s ++ [0]) = s' ++ [0]) by (unfold s'; rewrite drop_app_le by lia; done).
    rewrite Hd. destruct (q_write_fits (s' ++ [0]) (Z.of_nat (length s')) q Hq Hp) as (nd & q2 & E & Hwf & Hov & Hno).
    { destruct (q_overwrite q); lia. }
    rewrite E. intros Hh' Hd' Hsome. rewrite (Hsome ltac:(simpl; lia)). apply wp_assert; [simpl; lia|]. apply wp_ret.
    exists nd, q2, (Val (Z.of_nat (length s'))). split_and!; try done.
    - rewrite <-E. unfold q_write. destruct (q_room_facts (Z.of_nat (length s')) q Hq) as (Hwf1 & _).
      destruct (q_len_pos (Z.of_nat (length s')) _ Hwf1 Hp) as [Hle _]. by rewrite (take_app_le s') by lia.
    - intros Eo. apply Hno; [done|]. rewrite length_app. lia. }
  intros [nd' cb'] (d1 & q2 & r & E1 & -> & Hh2 & Hwf2 & Hov2 & Hno2). rewrite E1 in HQ. rewrite Hc. apply wp_bind, wp_ret. rewrite Hnl.
  destruct (adds_newline s); [|apply wp_ret; specialize (HQ cb' Hh2); by rewrite Z.add_0_r in HQ].
  apply (wp_write_mem cb' q2); [done|unfold CB_LIMIT; lia|lia|simpl; lia|]. intros d cb'' m. change (Z.to_nat 0) with 0%nat. rewrite drop_0.
  destruct (q_write_fits [newline; 0] 1 q2 Hwf2 ltac:(lia)) as (nd & q3 & E & _).
  { pose proof Hwf2 as (? & ? & ?). rewrite Hov2. destruct (q_overwrite q); [specialize (Hno2 eq_refl); simpl in *; lia|lia|lia]. }
  rewrite E. intros Hh3 Hd Hsome. rewrite (Hsome ltac:(simpl; lia)). apply wp_assert; [done|]. apply wp_ret.
  assert (E' : q_write realloc_ok [newline] 1 q2 = (Val 1, nd, q3)).
  { destruct (q_room_facts 1 q2 Hwf2) as (Hwf1 & _). destruct (q_len_pos 1 _ Hwf1 ltac:(lia)) as [Hle _].
    unfold q_write in E |- *. cbn [Z.eqb] in E |- *. destruct (Z.eqb_spec (q_len 1 (q_room realloc_ok 1 q2)) 0); [done|].
    assert (Hn : q_len 1 (q_room realloc_ok 1 q2) = 1) by lia. by rewrite Hn in E |- *. }
  rewrite E' in HQ. by apply HQ.
Qed.

Lemma sim_write_line s : sim (WriteLine s).
Proof.
  intros cb q Hr Hq Hok. unfold q_spec. cbn [run_op bad_args op_ok q_refused q_step] in *. apply wp_bind. unfold cbuf_write_line.
  cbv zeta. assert (Hs32 : s32 (Z.of_nat (length s)) = Z.of_nat (length s)).
  { unfold s32, CB_LIMIT in *. rewrite Z.mod_small by lia. lia. }
  rewrite Hs32, line_len by done. set (len := Z.of_nat (length s) + Z.b2z (adds_newline s)).
  assert (Hlen : 0 < len <= CB_LIMIT).
  { unfold len, adds_newline. destruct s; [done|]. simpl length. unfold CB_LIMIT in *. simpl in Hok. destruct (_ || _); simpl; lia. }
  apply (wp_enter cb q); [done|]. clear cb Hr. intros cb (Hi & Hm & Eq). apply wp_bind, wp_make_room; [done|done|lia|].
  intros cb1 Hi1 Hm1 E1. rewrite Eq in E1. assert (Hh : held cb1 (q_room realloc_ok len q)) by (by split_and!).
  unfold q_write_line. cbv zeta. rewrite length_line_text. fold len. fold (adds_newline s).
  destruct (q_room_facts len q Hq) as (Hwf & _). set (q1 := q_room realloc_ok len q) in *. clearbody q1. clear E1 Hq Eq.
  set (limit := match q_overwrite q1 with CBUF_NO_DROP => _ | CBUF_WRAP_ONCE => _ | CBUF_WRAP_MANY => len end).
  pose proof (held_facts cb1 q1 Hh) as (_ & _ & _ & _ & Hus & _ & Hs & _ & Hov & _).
  assert (Hb : match cb_overwrite cb1 with
     | CBUF_NO_DROP => if cb_size cb1 - cb_used cb1 <? len then (-1, Err ENOSPC) else (len, Val len)
     | CBUF_WRAP_ONCE => if cb_size cb1 <? len then (-1, Err ENOSPC) else (len, Val len)
     | CBUF_WRAP_MANY => (len, Val len)
     end = if limit <? len then (-1, Err ENOSPC) else (len, Val len)).
  { rewrite Hov, Hs, Hus. unfold limit. destruct (q_overwrite q1); [done|done|]. by rewrite Z.ltb_irrefl. }
  rewrite Hb. destruct (Z.ltb_spec limit len) as [Hlt|Hge].
  { apply wp_bind, wp_ret. eapply wp_leave; [done|]. intros cb'' Hr. apply wp_ret, wp_ret. cbn. by exists q1. }
  rewrite (proj2 (Z.ltb_lt 0 len)) by lia. apply wp_bind, (wp_write_text cb1 q1 s len); [done|done|done|done|done|]. cbv zeta.
  destruct (q_write _ _ _ q1) as [[r1 d1] q2]. destruct (if adds_newline s then _ else _) as [[r2 d2] q3].
  intros cb' Hh'. eapply wp_leave; [done|]. intros cb'' Hr. apply wp_ret, wp_ret. cbn. by exists q3.
Qed.

Lemma run_op_ok o : sim o.
Proof.
  destruct o; [apply sim_write|apply sim_write_line|apply sim_write_fd|apply sim_read|apply sim_peek|apply sim_replay|apply sim_drop
    |apply sim_rewind|apply sim_read_line|apply sim_peek_line|apply sim_replay_line|apply sim_drop_line|apply sim_rewind_line
    |apply sim_read_fd|apply sim_peek_fd|apply sim_replay_fd|apply sim_flush|apply sim_opt_set|..];
    first [apply sim_counts; rewrite !elem_of_cons; tauto|apply sim_lines; rewrite !elem_of_cons; tauto].
Qed.
End sim.
