(* ===== verification/CbufProps.v ===== *)
(** * Circular buffers: theorems

    A store of buffers is driven by sequences of operations, copies and moves
    between buffers included, and compared with a store of abstract queues. *)

From S2P Require Import Prelude Cbuf CbufFacts CbufWrite CbufLines CbufOps.

Local Open Scope Z_scope.
Local Open Scope slurm_scope.

(** Operations on the buffers of a store. *)
Inductive sop : Type :=
| On (p : Z) (o : op)
| Copy (src dst len : Z)
| Move (src dst len : Z).

Section store.
Variable junk : Z.
Variable realloc_ok : Z -> bool.

Definition run_sop (s : sop) (st : list cbuf) : exec (out * list cbuf) :=
  match s with
  | On p o =>
      cb ← aget st p;
      '(x, cb) ← run_op junk realloc_ok o cb;
      st ← aset st p cb;
      Ret (x, st)
  | Copy src dst len => '(r, nd, st) ← cbuf_copy junk realloc_ok st src dst len; Ret (Wrote r nd, st)
  | Move src dst len => '(r, nd, st) ← cbuf_move junk realloc_ok st src dst len; Ret (Wrote r nd, st)
  end.

Fixpoint run_sops (ops : list sop) (st : list cbuf) : exec (list out * list cbuf) :=
  match ops with
  | [] => Ret ([], st)
  | s :: ops =>
      '(x, st) ← run_sop s st;
      '(xs, st) ← run_sops ops st;
      Ret (x :: xs, st)
  end.

(** The buffers of a store, made by [cbuf_create]. *)
Fixpoint create_all (sizes : list (Z * Z)) : exec (list cbuf) :=
  match sizes with
  | [] => Ret []
  | (min, max) :: sizes =>
      r ← cbuf_create junk min max;
      match r with
      | inl cb => cbs ← create_all sizes; Ret (cb :: cbs)
      | inr _ => Fault
      end
  end.

Definition sop_ok (n : nat) (s : sop) : Prop :=
  match s with
  | On p o => 0 <= p < Z.of_nat n /\ op_ok o
  | Copy src dst _ | Move src dst _ => 0 <= src < Z.of_nat n /\ 0 <= dst < Z.of_nat n
  end.

(** The abstract steps. *)
Definition q_new (min max : Z) : queue := Queue min (Z.max min max) CBUF_WRAP_MANY false [] [].

Definition q_transfer (src dst len : Z) (consume : bool) (qs : list queue) (x : out) (qs' : list queue) : Prop :=
  if (src =? dst) || (len <? -1) then x = Wrote (Err EINVAL) 0 /\ qs' = qs else
  if len =? 0 then x = Wrote (Val 0) 0 /\ qs' = qs else
  exists qsrc qdst, qs !! Z.to_nat src = Some qsrc /\ qs !! Z.to_nat dst = Some qdst /\
    let len := q_len_arg len (Z.of_nat (length (q_unread qsrc))) in
    let '(r, d, qdst') := q_copy realloc_ok len (q_unread qsrc) qdst in
    x = Wrote r (default 0 d) /\
    qs' = <[Z.to_nat dst := qdst']> (<[Z.to_nat src := if consume then q_seek (Z.max 0 (rc r)) qsrc else qsrc]> qs).

Definition s_spec (s : sop) (qs : list queue) (x : out) (qs' : list queue) : Prop :=
  match s with
  | On p o => exists q q', qs !! Z.to_nat p = Some q /\ q_spec realloc_ok o q x q' /\ qs' = <[Z.to_nat p := q']> qs
  | Copy src dst len => q_transfer src dst len false qs x qs'
  | Move src dst len => q_transfer src dst len true qs x qs'
  end.

Fixpoint s_run (ops : list sop) (qs : list queue) (xs : list out) (qs' : list queue) : Prop :=
  match ops, xs with
  | [], [] => qs' = qs
  | s :: ops, x :: xs => exists qs1, s_spec s qs x qs1 /\ s_run ops qs1 xs qs'
  | _, _ => False
  end.

(** ** Creation *)

Lemma create_ok min max : 0 < min <= CB_LIMIT -> max <= CB_LIMIT ->
  exists cb, cbuf_create junk min max = Ret (inl cb) /\ rest cb (q_new min max).
Proof.
  intros Hmin Hmax. unfold CB_LIMIT in *.
  assert (Hw : wp (cbuf_create junk min max) (fun r => exists cb, r = inl cb /\ rest cb (q_new min max))).
  2: { apply wp_inv in Hw as (r & E & cb & -> & Hr). by exists cb. }
  unfold cbuf_create. rewrite (proj2 (Z.leb_gt min 0)) by lia.
  apply wp_bind, wp_i32; [unfold i32_min, i32_max; lia|]. unfold CBUF_MAGIC_LEN.
  assert (Ha : s32 (min + 1 + 2 * 8) = min + 17) by (unfold s32; rewrite Z.mod_small; lia). rewrite Ha.
  unfold malloc. rewrite (proj2 (Z.ltb_ge (min + 17) 0)) by lia. apply wp_bind, wp_ret.
  set (d0 := replicate _ junk). assert (Hl0 : length d0 = Z.to_nat (min + 17)) by (unfold d0; by rewrite length_replicate).
  apply wp_bind, wp_mem_put; [lia|rewrite length_cookie; lia|]. intros d1 Hl1 Hd1. rewrite length_cookie in Hd1.
  apply wp_bind, wp_mem_put; [lia|rewrite length_cookie; lia|]. intros d2 Hl2 Hd2. rewrite length_cookie in Hd2.
  match goal with |- context [slurm_mutex_lock ?c] => set (cb := c) end.
  assert (Hi : cb_inv cb).
  { split; cbn [cb_magic cb_data cb_alloc cb_size cb_minsize cb_maxsize cb_used cb_i_in cb_i_out cb_i_rep cb_got_wrap cb];
      rewrite ?Z.sub_diag, ?Z.mod_0_l by lia; unfold CB_LIMIT; try (repeat case_match; lia).
    - apply list_eq. intros j. destruct (decide (j < 8)%nat).
      + rewrite lookup_take_lt, Hd2 by lia. if_false. rewrite Hd1. if_true. f_equal. lia.
      + rewrite lookup_take_ge by lia. symmetry. apply lookup_ge_None. rewrite length_cookie. lia.
    - unfold CBUF_MAGIC_LEN. apply list_eq. intros j. destruct (decide (j < 8)%nat).
      + rewrite lookup_take_lt, lookup_drop, Hd2 by lia. if_true. f_equal. lia.
      + rewrite lookup_take_ge by lia. symmetry. apply lookup_ge_None. rewrite length_cookie. lia. }
  apply wp_lock_check; [done|done|]. apply wp_bind. unfold slurm_mutex_unlock. cbn [cb_mutex set_mutex]. apply wp_ret, wp_ret.
  eexists. split; [done|]. split_and!; [by do 2 apply inv_set_mutex|done|].
  unfold absq, q_new, replay, unread, reused. cbn. rewrite Z.mod_0_l by lia. rewrite !cyc_nil by lia. f_equal. case_match; lia.
Qed.

(** ** Steps on the store *)

Definition rests (st : list cbuf) (qs : list queue) : Prop := Forall2 rest st qs /\ Forall q_wf qs.

Lemma rest_wf cb q : rest cb q -> q_wf q.
Proof. intros (Hi & _ & <-). by apply absq_wf. Qed.

Lemma rests_intro st qs : Forall2 rest st qs -> rests st qs.
Proof.
  intros H. split; [done|]. apply Forall_lookup. intros i q Hq. destruct (Forall2_lookup_r _ _ _ _ _ H Hq) as (cb & _ & Hr).
  by eapply rest_wf.
Qed.

Lemma aset_ok {A} (l : list A) i x : 0 <= i < Z.of_nat (length l) -> aset l i x = Ret (<[Z.to_nat i := x]> l).
Proof. intros Hi. by apply wp_eq, wp_aset. Qed.

Lemma run_op_rest o cb q : rest cb q -> op_ok o ->
  exists x cb' q', run_op junk realloc_ok o cb = Ret (x, cb') /\ rest cb' q' /\ q_spec realloc_ok o q x q'.
Proof.
  intros Hr Hok. pose proof (run_op_ok junk realloc_ok o cb q Hr (rest_wf cb q Hr) Hok) as Hw.
  apply wp_inv in Hw as ([x cb'] & E & q' & Hr' & Hs). by exists x, cb', q'.
Qed.

Lemma step_on p o st qs : rests st qs -> sop_ok (length st) (On p o) ->
  exists x st' qs', run_sop (On p o) st = Ret (x, st') /\ rests st' qs' /\ length st' = length st /\ s_spec (On p o) qs x qs'.
Proof.
  intros [Hf _] [Hp Hok]. destruct (lookup_lt_is_Some_2 st (Z.to_nat p)) as [cb Hcb]; [lia|].
  destruct (Forall2_lookup_l _ _ _ _ _ Hf Hcb) as (q & Hq & Hr).
  destruct (run_op_rest o cb q Hr Hok) as (x & cb' & q' & E & Hr' & Hs).
  exists x, (<[Z.to_nat p := cb']> st), (<[Z.to_nat p := q']> qs). cbn [run_sop].
  rewrite (aget_lookup st p cb) by (done || lia). cbn [mbind exec_bind]. rewrite E. cbn [mbind exec_bind]. rewrite aset_ok by done.
  split_and!; [done| |by rewrite length_insert|by exists q, q'].
  apply rests_intro. by apply Forall2_insert.
Qed.

(** Taking both mutexes, in either order, and releasing them. *)
Lemma lock_both_ok st src dst cs cd : 0 <= src -> 0 <= dst -> src <> dst ->
  st !! Z.to_nat src = Some cs -> st !! Z.to_nat dst = Some cd -> cb_mutex cs = false -> cb_mutex cd = false ->
  lock_both st src dst = Ret (<[Z.to_nat dst := set_mutex true cd]> (<[Z.to_nat src := set_mutex true cs]> st)).
Proof.
  intros Hs Hd Hne Ls Ld Ms Md. apply lookup_lt_Some in Ls as Hls. apply lookup_lt_Some in Ld as Hld.
  assert (Hat : forall l p c, 0 <= p -> l !! Z.to_nat p = Some c -> cb_mutex c = false ->
     lock_at l p = Ret (<[Z.to_nat p := set_mutex true c]> l)).
  { intros l p c Hp Hl Hm. unfold lock_at. rewrite (aget_lookup l p c) by done. cbn [mbind exec_bind].
    unfold slurm_mutex_lock. rewrite Hm. cbn [mbind exec_bind]. apply lookup_lt_Some in Hl. apply aset_ok. lia. }
  unfold lock_both. destruct (Z.ltb_spec src dst).
  - rewrite (Hat st src cs) by done. cbn [mbind exec_bind]. apply Hat; [done| |done]. rewrite list_lookup_insert_ne by lia. done.
  - rewrite (Hat st dst cd) by done. cbn [mbind exec_bind]. rewrite list_insert_insert_ne by lia. apply Hat; [done| |done].
    rewrite list_lookup_insert_ne by lia. done.
Qed.

Lemma unlock_at_ok st p c : 0 <= p -> st !! Z.to_nat p = Some c -> cb_mutex c = true ->
  unlock_at st p = Ret (<[Z.to_nat p := set_mutex false c]> st).
Proof.
  intros Hp Hl Hm. unfold unlock_at. rewrite (aget_lookup st p c) by done. cbn [mbind exec_bind].
  unfold slurm_mutex_unlock. rewrite Hm. cbn [mbind exec_bind]. apply lookup_lt_Some in Hl. apply aset_ok. lia.
Qed.

Lemma check_both_ok st src dst cs cd qs qd : 0 <= src -> 0 <= dst ->
  st !! Z.to_nat src = Some cs -> st !! Z.to_nat dst = Some cd -> held cs qs -> held cd qd -> check_both st src dst = Ret tt.
Proof.
  intros Hs Hd Ls Ld (His & Hms & _) (Hid & Hmd & _). unfold check_both.
  rewrite (aget_lookup st src cs), (aget_lookup st dst cd) by done. cbn [mbind exec_bind].
  unfold assert_. by rewrite !valid_intro.
Qed.

(** The two buffers after they were changed to [cs'] and [cd'] under their
    mutexes. *)
Lemma release_both {A} st src dst cs' cd' qs' qd' (k : list cbuf -> exec A) : 0 <= src -> 0 <= dst -> src <> dst ->
  (Z.to_nat src < length st)%nat -> (Z.to_nat dst < length st)%nat -> held cs' qs' -> held cd' qd' ->
  (st ← aset (<[Z.to_nat src := cs']> st) dst cd';
   _ ← check_both st src dst;
   st ← unlock_at st src;
   st ← unlock_at st dst;
   k st) = k (<[Z.to_nat dst := set_mutex false cd']> (<[Z.to_nat src := set_mutex false cs']> st)).
Proof.
  intros Hs Hd Hne Hls Hld Hhs Hhd. rewrite aset_ok by (rewrite length_insert; lia). cbn [mbind exec_bind].
  set (st1 := <[Z.to_nat dst := cd']> (<[Z.to_nat src := cs']> st)).
  assert (Ls : st1 !! Z.to_nat src = Some cs').
  { unfold st1. rewrite list_lookup_insert_ne by lia. apply list_lookup_insert_eq. lia. }
  assert (Ld : st1 !! Z.to_nat dst = Some cd').
  { unfold st1. apply list_lookup_insert_eq. rewrite length_insert. lia. }
  rewrite (check_both_ok st1 src dst cs' cd' qs' qd') by done. cbn [mbind exec_bind].
  rewrite (unlock_at_ok st1 src cs') by (done || apply Hhs). cbn [mbind exec_bind].
  rewrite (unlock_at_ok _ dst cd'); [|done|by rewrite list_lookup_insert_ne by lia|apply Hhd]. cbn [mbind exec_bind]. f_equal. unfold st1.
  rewrite (list_insert_insert_ne _ (Z.to_nat src) (Z.to_nat dst)) by lia.
  rewrite !list_insert_insert_eq. done.
Qed.

(** The state in which [cbuf_copy] and [cbuf_move] do their work. *)
Lemma transfer_start st qs src dst : rests st qs -> 0 <= src < Z.of_nat (length st) -> 0 <= dst < Z.of_nat (length st) -> src <> dst ->
  exists cs cd qs1 qd1 st1, st !! Z.to_nat src = Some cs /\ st !! Z.to_nat dst = Some cd /\
    qs !! Z.to_nat src = Some qs1 /\ qs !! Z.to_nat dst = Some qd1 /\
    lock_both st src dst = Ret st1 /\ check_both st1 src dst = Ret tt /\
    aget st1 src = Ret (set_mutex true cs) /\ aget st1 dst = Ret (set_mutex true cd) /\
    held (set_mutex true cs) qs1 /\ held (set_mutex true cd) qd1 /\ length st1 = length st /\
    st1 = <[Z.to_nat dst := set_mutex true cd]> (<[Z.to_nat src := set_mutex true cs]> st) /\
    <[Z.to_nat src := set_mutex true cs]> st1 = st1.
Proof.
  intros [Hf _] Hs Hd Hne. destruct (lookup_lt_is_Some_2 st (Z.to_nat src)) as [cs Ls]; [lia|].
  destruct (lookup_lt_is_Some_2 st (Z.to_nat dst)) as [cd Ld]; [lia|].
  destruct (Forall2_lookup_l _ _ _ _ _ Hf Ls) as (qs1 & Lqs & His & Hms & Es).
  destruct (Forall2_lookup_l _ _ _ _ _ Hf Ld) as (qd1 & Lqd & Hid & Hmd & Ed).
  assert (Hhs : held (set_mutex true cs) qs1) by (split_and!; [by apply inv_set_mutex|done|done]).
  assert (Hhd : held (set_mutex true cd) qd1) by (split_and!; [by apply inv_set_mutex|done|done]).
  exists cs, cd, qs1, qd1, (<[Z.to_nat dst := set_mutex true cd]> (<[Z.to_nat src := set_mutex true cs]> st)).
  set (st1 := <[Z.to_nat dst := _]> _).
  assert (L1 : st1 !! Z.to_nat src = Some (set_mutex true cs)).
  { unfold st1. rewrite list_lookup_insert_ne by lia. apply list_lookup_insert_eq. lia. }
  assert (L2 : st1 !! Z.to_nat dst = Some (set_mutex true cd)).
  { unfold st1. apply list_lookup_insert_eq. rewrite length_insert. lia. }
  split_and!; try done.
  - by apply lock_both_ok; [lia|lia|..].
  - by eapply check_both_ok; [lia|lia|..].
  - apply aget_lookup; [lia|done].
  - apply aget_lookup; [lia|done].
  - unfold st1. by rewrite !length_insert.
  - by apply list_insert_id.
Qed.

(** The copy itself, between buffers whose mutexes are held. *)
Lemma copier_step cs cd qs qd len r d qd' : held cs qs -> held cd qd -> 0 <= len ->
  q_copy realloc_ok len (q_unread qs) qd = (r, d, qd') ->
  exists cd', (if 0 <? len then cbuf_copier junk realloc_ok cs cd len else Ret (Val 0, None, cd)) = Ret (r, d, cd') /\
    held cd' qd' /\ -1 <= rc r <= Z.of_nat (length (q_unread qs)).
Proof.
  intros Hs (Hid & Hmd & <-) Hlen E. pose proof (held_facts cs qs Hs) as (His & Hms & Hu & _).
  assert (Hrc : -1 <= rc r <= Z.of_nat (length (q_unread qs))).
  { unfold q_copy in E. set (l := Z.min len _) in E. destruct (Z.eqb_spec l 0); [injection E as <- _ _; simpl; lia|].
    destruct (q_room_facts realloc_ok l (absq cd) (absq_wf cd Hid)) as (Hwf & _).
    destruct (q_len_pos l _ Hwf ltac:(lia)) as [Hle _]. cbv zeta in E.
    destruct (Z.eqb_spec (q_len l (q_room realloc_ok l (absq cd))) 0); injection E as <- _ _; simpl; lia. }
  destruct (Z.ltb_spec 0 len) as [Hp|Hp].
  - assert (Hw : wp (cbuf_copier junk realloc_ok cs cd len) (fun '(r', d', cd') => r' = r /\ d' = d /\ held cd' qd')).
    { apply wp_copier; [done..|]. intros r' d' cd' Hi' Hm' E'. rewrite Hu, E in E'. injection E' as -> -> ->. by split_and!. }
    apply wp_inv in Hw as ([[r' d'] cd'] & E' & -> & -> & Hh). by exists cd'.
  - exists cd. unfold q_copy in E. replace (Z.min len _) with 0 in E by lia. by injection E as <- <- <-.
Qed.

Lemma rests_insert st qs i cb q : rests st qs -> rest cb q -> rests (<[i := cb]> st) (<[i := q]> qs).
Proof. intros [Hf _] Hr. apply rests_intro. by apply Forall2_insert. Qed.

(** The tests before the mutexes are taken. *)
Lemma transfer_refused src dst len consume qs : src = dst \/ len < -1 \/ len = 0 -> forall st,
  exists r, cbuf_copy junk realloc_ok st src dst len = Ret (r, 0, st) /\ cbuf_move junk realloc_ok st src dst len = Ret (r, 0, st) /\
    q_transfer src dst len consume qs (Wrote r 0) qs.
Proof.
  intros H st. unfold q_transfer, cbuf_copy, cbuf_move. destruct (src =? dst) eqn:E1; [by eexists|].
  destruct (len <? -1) eqn:E2; [by eexists|]. destruct (len =? 0) eqn:E3; [by eexists|]. lia.
Qed.

(** The stores after the transfer. *)
Lemma transfer_end st qs src dst cs cd qs' qd' st1 : rests st qs ->
  st1 = <[Z.to_nat dst := set_mutex true cd]> (<[Z.to_nat src := set_mutex true cs]> st) -> src <> dst -> 0 <= src -> 0 <= dst ->
  forall cs' cd', held cs' qs' -> held cd' qd' ->
  rests (<[Z.to_nat dst := set_mutex false cd']> (<[Z.to_nat src := set_mutex false cs']> st1))
        (<[Z.to_nat dst := qd']> (<[Z.to_nat src := qs']> qs)).
Proof.
  intros Hr -> Hne H0 H1 cs' cd' (His & _ & Es) (Hid & _ & Ed).
  rewrite (list_insert_insert_ne _ (Z.to_nat src) (Z.to_nat dst)), !list_insert_insert_eq by lia.
  by apply rests_insert; [apply rests_insert; [done|]|]; apply rest_unlocked.
Qed.

Lemma step_transfer (consume : bool) src dst len st qs : rests st qs ->
  0 <= src < Z.of_nat (length st) -> 0 <= dst < Z.of_nat (length st) ->
  exists r nd st' qs', (if consume then cbuf_move else cbuf_copy) junk realloc_ok st src dst len = Ret (r, nd, st') /\
    rests st' qs' /\ length st' = length st /\ q_transfer src dst len consume qs (Wrote r nd) qs'.
Proof.
  intros Hr Hs Hd. destruct (decide (src = dst \/ len < -1 \/ len = 0)) as [Hbad|Hgood].
  { destruct (transfer_refused src dst len consume qs Hbad st) as (r & E1 & E2 & Hq). exists r, 0, st, qs. by destruct consume. }
  destruct (transfer_start st qs src dst Hr Hs Hd ltac:(lia)) as (cs & cd & qs1 & qd1 & st1 & Ls & Ld & Lqs & Lqd & Hlock & Hcheck & Gs & Gd & Hhs & Hhd & Hlen1 & Est1 & Eid).
  pose proof (held_facts _ _ Hhs) as (His & _ & _ & _ & Hus & Hrs & _). pose proof (inv_indexes _ His) as (_ & _ & ? & ? & ?).
  set (len' := q_len_arg len (Z.of_nat (length (q_unread qs1)))).
  assert (Hlen' : (if len =? -1 then cb_used (set_mutex true cs) else len) = len') by (unfold len', q_len_arg; by rewrite Hus).
  destruct (q_copy realloc_ok len' (q_unread qs1) qd1) as [[r d] qd'] eqn:Eq.
  destruct (copier_step _ _ _ _ len' r d qd' Hhs Hhd ltac:(unfold len', q_len_arg; case_match; lia) Eq) as (cd' & Hcop & Hhd' & Hrc).
  set (qs2 := if consume then q_seek (Z.max 0 (rc r)) qs1 else qs1).
  assert (Hspec : q_transfer src dst len consume qs (Wrote r (default 0 d)) (<[Z.to_nat dst := qd']> (<[Z.to_nat src := qs2]> qs))).
  { unfold q_transfer. assert ((src =? dst) || (len <? -1) = false) as -> by lia. rewrite (proj2 (Z.eqb_neq len 0)) by lia.
    exists qs1, qd1. cbv zeta. fold len'. rewrite Eq. by split_and!. }
  set (cs2 := if consume then (if 0 <? rc r then seek (set_mutex true cs) (rc r) else set_mutex true cs) else set_mutex true cs).
  assert (Hhs2 : held cs2 qs2).
  { unfold cs2, qs2. destruct consume; [|done]. destruct (Z.ltb_spec 0 (rc r)).
    - rewrite Z.max_r by lia. apply held_seek; [done|lia].
    - by rewrite Z.max_l, q_seek_0 by lia. }
  exists r, (default 0 d), (<[Z.to_nat dst := set_mutex false cd']> (<[Z.to_nat src := set_mutex false cs2]> st1)),
    (<[Z.to_nat dst := qd']> (<[Z.to_nat src := qs2]> qs)).
  split; [|split_and!; [by eapply transfer_end; [..|lia|lia|lia| |]|by rewrite !length_insert|done]].
  destruct consume; unfold cbuf_move, cbuf_copy;
    rewrite (proj2 (Z.eqb_neq src dst)), (proj2 (Z.ltb_ge len (-1))), (proj2 (Z.eqb_neq len 0)) by lia;
    rewrite Hlock; cbn [mbind exec_bind]; rewrite Hcheck; cbn [mbind exec_bind]; rewrite Gs; cbn [mbind exec_bind];
    rewrite Gd; cbn [mbind exec_bind]; rewrite Hlen'.
  - assert (Hd2 : (if 0 <? rc r then snd <$> cbuf_dropper (set_mutex true cs) (rc r) else Ret (set_mutex true cs)) = Ret cs2).
    { apply wp_eq, wp_drop_if; [done|done|lia|done]. }
    destruct (0 <? len'); [rewrite Hcop; cbn [mbind exec_bind]; rewrite Hd2; cbn [mbind exec_bind]|injection Hcop as <- <- <-; cbn [mbind exec_bind]].
    + rewrite aset_ok by lia. cbn [mbind exec_bind]. eapply release_both; [lia..|done|done].
    + change (Ret cs2) with (Ret (set_mutex true cs)) in Hd2. rewrite aset_ok by lia. cbn [mbind exec_bind].
      eapply release_both; [lia..|done|done].
  - rewrite Hcop. cbn [mbind exec_bind]. rewrite <-Eid at 1. eapply release_both; [lia..|done|done].
Qed.

Lemma step_ok s st qs : rests st qs -> sop_ok (length st) s ->
  exists x st' qs', run_sop s st = Ret (x, st') /\ rests st' qs' /\ length st' = length st /\ s_spec s qs x qs'.
Proof.
  intros Hr Hok. destruct s as [p o|src dst len|src dst len]; [by apply step_on|..]; destruct Hok as [Hs Hd].
  - destruct (step_transfer false src dst len st qs Hr Hs Hd) as (r & nd & st' & qs' & E & Hr' & Hl & Hq).
    exists (Wrote r nd), st', qs'. cbn [run_sop]. by rewrite E.
  - destruct (step_transfer true src dst len st qs Hr Hs Hd) as (r & nd & st' & qs' & E & Hr' & Hl & Hq).
    exists (Wrote r nd), st', qs'. cbn [run_sop]. by rewrite E.
Qed.

Lemma run_sops_ok ops : forall st qs, rests st qs -> Forall (sop_ok (length st)) ops ->
  exists xs st' qs', run_sops ops st = Ret (xs, st') /\ rests st' qs' /\ s_run ops qs xs qs'.
Proof.
  induction ops as [|s ops IH]; intros st qs Hr Hok; [by exists [], st, qs|].
  apply Forall_cons in Hok as [Hs Hok]. destruct (step_ok s st qs Hr Hs) as (x & st1 & qs1 & E & Hr1 & Hl & Hspec).
  rewrite <-Hl in Hok. destruct (IH st1 qs1 Hr1 Hok) as (xs & st' & qs' & E' & Hr' & Hrun).
  exists (x :: xs), st', qs'. cbn [run_sops]. rewrite E. cbn [mbind exec_bind]. rewrite E'. split; [done|]. split; [done|].
  by exists qs1.
Qed.

Definition sizes_ok (sizes : list (Z * Z)) : Prop :=
  Forall (fun '(min, max) => 0 < min <= CB_LIMIT /\ max <= CB_LIMIT) sizes.

Lemma create_all_ok sizes : sizes_ok sizes ->
  exists st, create_all sizes = Ret st /\ rests st ((fun '(min, max) => q_new min max) <$> sizes) /\ length st = length sizes.
Proof.
  intros H. induction H as [|[mn mx] sizes [Hmn Hmx] _ IH].
  { exists []. split; [done|]. split; [by apply rests_intro|done]. }
  destruct IH as (st & E & [Hf _] & Hl). destruct (create_ok mn mx Hmn Hmx) as (cb & Ec & Hr).
  exists (cb :: st). cbn [create_all]. rewrite Ec. cbn [mbind exec_bind]. rewrite E. split; [done|].
  split; [apply rests_intro; by constructor|simpl; by rewrite Hl].
Qed.

(** From creation on. *)
Lemma store_runs sizes ops : sizes_ok sizes -> Forall (sop_ok (length sizes)) ops ->
  exists st0 xs st qs, create_all sizes = Ret st0 /\ run_sops ops st0 = Ret (xs, st) /\ rests st qs /\
    s_run ops ((fun '(min, max) => q_new min max) <$> sizes) xs qs.
Proof.
  intros Hs Hops. destruct (create_all_ok sizes Hs) as (st0 & E0 & Hr0 & Hl). rewrite <-Hl in Hops.
  destruct (run_sops_ok ops st0 _ Hr0 Hops) as (xs & st & qs & E & Hr & Hrun). by exists st0, xs, st, qs.
Qed.

Lemma rests_absq st qs : rests st qs -> absq <$> st = qs.
Proof. intros [Hf _]. induction Hf as [|cb q st qs (_ & _ & <-) _ IH]; [done|]. by rewrite fmap_cons, IH. Qed.
End store.


(** The buffers simulate the abstract queues exactly: what every operation returns and
    stores is what [s_spec] allows, where cbuf.c differs from cbuf.h included, and at
    the end the unread and the replay data of the buffers are those of the queues. *)
Theorem cbufs_simulate_queues junk realloc_ok sizes ops :
  sizes_ok sizes -> Forall (sop_ok (length sizes)) ops ->
  exists st0 xs st, create_all junk sizes = Ret st0 /\ run_sops junk realloc_ok ops st0 = Ret (xs, st) /\
    s_run realloc_ok ops ((fun '(min, max) => q_new min max) <$> sizes) xs (absq <$> st).
Proof.
  intros Hs Hops. destruct (store_runs junk realloc_ok sizes ops Hs Hops) as (st0 & xs & st & qs & E0 & E & Hr & Hrun).
  exists st0, xs, st. by rewrite (rests_absq st qs Hr).
Qed.

(** ** The documented behaviour *)


Section documented.
Variable realloc_ok : Z -> bool.














End documented.


(** ** Nothing is lost when data must not be dropped *)

(** The bytes that an operation adds to and takes from the stream. *)
Definition bytes_in (o : op) (x : out) : list Z :=
  match o, x with
  | Write s _, Wrote r _ => take (Z.to_nat (rc r)) s
  | WriteLine s, Wrote (Val _) _ => line_text s
  | WriteFd _ fd _, WroteFd r _ _ => take (Z.to_nat (rc r)) (concat (rd_bytes <$> fd))
  | _, _ => []
  end.
Definition bytes_out (o : op) (x : out) : list Z :=
  match o, x with
  | Read _ _, GotMem r d => take (Z.to_nat (rc r)) d
  | ReadFd _ fd _, GotFd _ fd' => drop (length (wr_out fd)) (wr_out fd')
  | _, _ => []
  end.

(** Operations that neither discard nor put back data. *)
Definition streaming (o : op) : bool :=
  match o with
  | Drop _ | Rewind _ | ReadLine _ _ _ | DropLine _ _ | RewindLine _ _ | Flush | OptSet _ _ => false
  | _ => true
  end.

Lemma q_append_fits bs q : Z.of_nat (length (q_unread q ++ bs)) <= q_size q -> q_unread (q_append bs q) = q_unread q ++ bs.
Proof. intros H. unfold q_append. cbn [q_unread]. rewrite length_app in H. apply lastn_all. rewrite length_app. lia. Qed.

Lemma q_write_no_drop rk s len q : q_wf q -> q_overwrite q = CBUF_NO_DROP -> 0 <= len <= Z.of_nat (length s) ->
  let '(r, _, q') := q_write rk s len q in
  q_overwrite q' = CBUF_NO_DROP /\ q_unread q' = q_unread q ++ take (Z.to_nat (rc r)) s.
Proof.
  intros Hq Ho Hlen. unfold q_write. destruct (Z.eqb_spec len 0); [cbn; by rewrite app_nil_r|].
  destruct (q_room_facts rk len q Hq) as (Hwf & _ & _ & Hov & _ & _ & Hu & _). set (q1 := q_room rk len q) in *. cbv zeta.
  destruct (q_len_pos len q1 Hwf ltac:(lia)) as [Hle _].
  destruct (Z.eqb_spec (q_len len q1) 0); cbn [rc].
  { rewrite Hov, Hu. cbn. by rewrite app_nil_r. }
  split; [cbn; congruence|]. rewrite q_append_fits; [by rewrite Hu|]. rewrite length_app, length_take.
  assert (Hq1 : q_len len q1 = Z.min len (q_size q1 - Z.of_nat (length (q_unread q1)))) by (unfold q_len; by rewrite Hov, Ho).
  lia.
Qed.

Lemma q_write_line_no_drop rk s q : q_wf q -> q_overwrite q = CBUF_NO_DROP ->
  let '(r, _, q') := q_write_line rk s q in
  q_overwrite q' = CBUF_NO_DROP /\ q_unread q' = q_unread q ++ (match r with Val _ => line_text s | Err _ => [] end).
Proof.
  intros Hq Ho. unfold q_write_line. cbv zeta. set (len := Z.of_nat (length (line_text s))).
  destruct (q_room_facts rk len q Hq) as (Hwf & _ & _ & Hov & _ & _ & Hu & _). set (q1 := q_room rk len q) in *. rewrite Hov, Ho, Hu.
  destruct (Z.ltb_spec (q_size q1 - Z.of_nat (length (q_unread q))) len) as [Hlt|Hge].
  { split; [congruence|]. by rewrite app_nil_r. }
  replace (Z.max 0 (len - q_size q1)) with 0 by lia. change (Z.to_nat 0) with 0%nat. rewrite drop_0.
  assert (Hlen : len = Z.of_nat (length s) + Z.b2z (adds_newline s)) by apply length_line_text.
  assert (Ha : 0 <= Z.b2z (adds_newline s) <= 1) by (destruct (adds_newline s); simpl; lia).
  assert (H2 : let '(_, _, q2) := q_write rk s (Z.of_nat (length s)) q1 in
     q_wf q2 /\ q_overwrite q2 = CBUF_NO_DROP /\ q_size q2 = q_size q1 /\ q_unread q2 = q_unread q ++ s).
  { destruct (decide (s = [])) as [->|Hne].
    - unfold q_write. cbn. rewrite app_nil_r. split_and!; [done|congruence|done|done].
    - assert (Hp : 0 < Z.of_nat (length s)) by (destruct s; [done|simpl; lia]).
      destruct (q_write_fits rk s (Z.of_nat (length s)) q1 Hwf Hp) as (nd & q2 & E & Hwf2 & Hov2 & Hno); [rewrite Hov, Ho; rewrite Hu; lia|].
      pose proof (q_write_no_drop rk s (Z.of_nat (length s)) q1 Hwf ltac:(congruence) ltac:(lia)) as Hw. rewrite E in *.
      destruct Hw as [Ho2 Hu2]. cbn [rc] in Hu2. rewrite Nat2Z.id, take_ge, Hu in Hu2 by lia.
      destruct Hno as [Hs2 _]; [congruence|lia|]. by split_and!. }
  destruct (q_write rk s (Z.of_nat (length s)) q1) as [[r1 d1] q2]. destruct H2 as (Hwf2 & Ho2 & Hs2 & Hu2).
  unfold line_text. fold (adds_newline s). destruct (adds_newline s) eqn:Ea; [|by split].
  destruct (q_write_fits rk [newline] 1 q2 Hwf2 ltac:(lia)) as (nd & q3 & E & _).
  { rewrite Ho2, Hs2, Hu2, length_app. simpl in Hlen. lia. }
  pose proof (q_write_no_drop rk [newline] 1 q2 Hwf2 Ho2 ltac:(simpl; lia)) as Hw. rewrite E in *. destruct Hw as [Ho3 Hu3].
  split; [done|]. rewrite Hu3, Hu2. cbn. by rewrite app_assoc.
Qed.

Lemma q_seek_unread k q : 0 <= k -> q_unread (q_seek k q) = drop (Z.to_nat k) (q_unread q).
Proof. intros Hk. unfold q_seek. cbn [q_unread]. rewrite Z2Nat.inj_add, Nat2Z.id, <-drop_drop, drop_app_length by lia. done. Qed.

Lemma wrote_no_drop rk q len fd r d q' fd' bs : q_wf q -> q_overwrite q = CBUF_NO_DROP -> 0 < len ->
  wrote rk q len fd r d q' fd' bs ->
  q_overwrite q' = CBUF_NO_DROP /\ q_unread q' = q_unread q ++ take (Z.to_nat (rc r)) (concat (rd_bytes <$> fd)).
Proof.
  intros Hq Ho Hlen (Hsrc & Hbs & -> & Hnil & Hcons & _).
  destruct (q_room_facts rk len q Hq) as (Hwf & _ & _ & Hov & _ & _ & Hu & _). set (q1 := q_room rk len q) in *.
  assert (Hq1 : q_len len q1 = Z.min len (q_size q1 - Z.of_nat (length (q_unread q1)))) by (unfold q_len; by rewrite Hov, Ho).
  split; [cbn; congruence|]. rewrite q_append_fits, Hu by (rewrite length_app; lia). f_equal.
  cbn [src_left fd_source] in Hsrc. rewrite Hsrc. destruct bs as [|b bs].
  - destruct Hnil as (_ & Hr & _); [done|]. by replace (Z.to_nat (rc r)) with 0%nat by lia.
  - destruct Hcons as [_ ->]; [done|]. cbn [rc]. by rewrite Nat2Z.id, take_app_length.
Qed.

Lemma take_length_drop (n : nat) (l : list Z) : l = take n l ++ drop (length (take n l)) l.
Proof.
  rewrite length_take. destruct (decide (n <= length l)%nat); [by rewrite Nat.min_l, take_drop by lia|].
  by rewrite Nat.min_r, take_ge, drop_all, app_nil_r by lia.
Qed.

(** One streaming operation: what was unread and what comes in is what goes out
    and what stays unread. *)
Lemma stream_step rk o q x q' : streaming o = true -> op_ok o -> q_wf q -> q_overwrite q = CBUF_NO_DROP ->
  q_spec rk o q x q' -> q_overwrite q' = CBUF_NO_DROP /\ q_unread q ++ bytes_in o x = bytes_out o x ++ q_unread q'.
Proof.
  intros Hs Hok Hq Ho. unfold q_spec. destruct (bad_args o) eqn:Hb.
  { intros [Hx ->]. split; [done|]. destruct o; try done; cbn in Hx; subst x; cbn; rewrite ?app_nil_r, ?drop_all; done. }
  destruct o; try done; cbn [q_step bad_args op_ok] in *; cbv zeta;
    try (intros [-> ->]; cbn [bytes_in bytes_out]; by rewrite app_nil_r);
    try (intros (res & (fd' & -> & _) & ->); cbn [bytes_in bytes_out]; by rewrite app_nil_r).
  - intros [-> ->]. pose proof (q_write_no_drop rk s len q Hq Ho ltac:(lia)) as Hw.
    destruct (q_write rk s len q) as [[r nd] q2]. cbn. by destruct Hw as [? ->].
  - intros [-> ->]. pose proof (q_write_line_no_drop rk s q Hq Ho) as Hw.
    destruct (q_write_line rk s q) as [[r nd] q2]. cbn [fst snd]. destruct Hw as [? ->]. by destruct r.
  - if_case; [intros [-> ->]; cbn; by rewrite app_nil_r|]. intros (res & d & fd' & bs & -> & Hw).
    apply wrote_no_drop in Hw as [? ->]; [done|done|done|].
    destruct Hq as (? & ? & Hl). rewrite length_app in Hl. unfold q_len_arg, CBUF_CHUNK in *. repeat if_case; lia.
  - intros [-> ->]. cbn [bytes_in bytes_out rc q_overwrite q_seek]. split; [done|]. rewrite q_seek_unread by lia. rewrite Nat2Z.id.
    unfold stored. rewrite take_app_length, app_nil_r. apply take_length_drop.
  - destruct (replay_line _ _ _ _) as [[m l] nl]. intros [-> ->]. cbn [bytes_in bytes_out]. by rewrite app_nil_r.
  - intros (res & (fd' & -> & Hr & Hout & _) & ->). cbn [sink_out fd_sink] in Hout. cbn [bytes_in bytes_out q_overwrite q_seek].
    split; [done|]. rewrite q_seek_unread, Hout, drop_app_length, app_nil_r by lia. set (n := Z.to_nat (q_len_arg _ _)) in *.
    rewrite length_take in Hr. rewrite take_take. replace (Nat.min (Z.to_nat (rc res)) n) with (Z.to_nat (Z.max 0 (rc res))) by lia.
    by rewrite take_drop.
Qed.

Section one_buffer.
Variable junk : Z.
Variable realloc_ok : Z -> bool.

Fixpoint run_ops (ops : list op) (cb : cbuf) : exec (list out * cbuf) :=
  match ops with
  | [] => Ret ([], cb)
  | o :: ops =>
      '(x, cb) ← run_op junk realloc_ok o cb;
      '(xs, cb) ← run_ops ops cb;
      Ret (x :: xs, cb)
  end.

Definition stream_in (ops : list op) (xs : list out) : list Z := concat (zip_with bytes_in ops xs).
Definition stream_out (ops : list op) (xs : list out) : list Z := concat (zip_with bytes_out ops xs).

Lemma run_stream ops : forall cb q, rest cb q -> q_overwrite q = CBUF_NO_DROP ->
  Forall op_ok ops -> Forall (fun o => streaming o = true) ops ->
  exists xs cb', run_ops ops cb = Ret (xs, cb') /\
    q_unread q ++ stream_in ops xs = stream_out ops xs ++ unread cb'.
Proof.
  induction ops as [|o ops IH]; intros cb q Hr Ho Hok Hs.
  { exists [], cb. split; [done|]. destruct Hr as (_ & _ & <-). cbn. by rewrite app_nil_r. }
  apply Forall_cons in Hok as [Hok1 Hok], Hs as [Hs1 Hs].
  destruct (run_op_rest junk realloc_ok o cb q Hr Hok1) as (x & cb1 & q1 & E & Hr1 & Hspec).
  destruct (stream_step realloc_ok o q x q1 Hs1 Hok1 (rest_wf cb q Hr) Ho Hspec) as [Ho1 Hstep].
  destruct (IH cb1 q1 Hr1 Ho1 Hok Hs) as (xs & cb' & E' & Hstr). exists (x :: xs), cb'. cbn [run_ops]. rewrite E.
  cbn [mbind exec_bind]. rewrite E'. split; [done|]. unfold stream_in, stream_out in *. cbn [zip_with concat].
  by rewrite app_assoc, Hstep, <-!app_assoc, Hstr.
Qed.
End one_buffer.

(** C33: a buffer that must not drop data ([CBUF_NO_DROP]) is a lossless first-in
    first-out stream: after any sequence of writes (from memory, of lines, from
    descriptors that deliver any amounts or fail), reads (to memory, or to
    descriptors that take any amounts or fail), peeks, replays and queries, the
    bytes accepted so far are the bytes delivered so far followed by the unread
    bytes. *)
Theorem no_drop_buffer_is_lossless junk realloc_ok min max ops :
  0 < min <= CB_LIMIT -> max <= CB_LIMIT -> Forall op_ok ops -> Forall (fun o => streaming o = true) ops ->
  exists cb0 cb1 xs cb, cbuf_create junk min max = Ret (inl cb0) /\
    run_op junk realloc_ok (OptSet 0 0) cb0 = Ret (Res (Val 0), cb1) /\
    run_ops junk realloc_ok ops cb1 = Ret (xs, cb) /\
    stream_in ops xs = stream_out ops xs ++ unread cb.
Proof.
  intros Hmin Hmax Hok Hs. destruct (create_ok junk min max Hmin Hmax) as (cb0 & E0 & Hr0).
  destruct (run_op_rest junk realloc_ok (OptSet 0 0) cb0 _ Hr0 I) as (x & cb1 & q1 & E1 & Hr1 & -> & ->).
  destruct (run_stream junk realloc_ok ops cb1 _ Hr1 eq_refl Hok Hs) as (xs & cb & E & Hstr). by exists cb0, cb1, xs, cb.
Qed.

(** ** Errors *)

Lemma q_spec_refused rk o q x q' : q_spec rk o q x q' -> bad_args o = true -> out_res x = Err EINVAL.
Proof. intros H Hb. unfold q_spec in H. rewrite Hb in H. destruct H as [Hx _]. destruct o; cbn in Hx; by subst x. Qed.

Lemma wrote_failed rk q len fd e d q' fd' bs : q_wf q -> wrote rk q len fd (Err e) d q' fd' bs ->
  q_replay q' = q_replay q /\ q_unread q' = q_unread q.
Proof.
  intros Hq (_ & _ & -> & _ & Hcons & _). destruct (q_room_facts rk len q Hq) as (Hwf & _ & _ & _ & _ & ? & ? & _).
  destruct bs as [|b bs]; [by rewrite q_append_nil|]. by destruct Hcons as [_ ?].
Qed.

Lemma q_spec_failed rk o q x q' e : q_wf q -> q_spec rk o q x q' -> out_res x = Err e ->
  q_replay q' = q_replay q /\ q_unread q' = q_unread q.
Proof.
  intros Hq H He. unfold q_spec in H. destruct (bad_args o); [by destruct H as [_ ->]|].
  destruct o; cbn [q_step] in H; cbv zeta in H; try (destruct H as [-> ->]; cbn [out_res] in He; done);
    try (destruct H as (res & (fd' & -> & _) & ->); cbn [out_res] in He; subst res; cbn [rc]; change (Z.max 0 (-1)) with 0; rewrite ?q_seek_0; done).
  - destruct H as [-> ->]. cbn [out_res] in He. revert He. unfold q_write. if_case; [done|]. if_case; [|done]. intros _.
    by destruct (q_room_facts rk len q Hq) as (_ & _ & _ & _ & _ & ? & ? & _).
  - destruct H as [-> ->]. cbn [out_res] in He. revert He. unfold q_write_line. cbv zeta. if_case.
    + intros _. by destruct (q_room_facts rk (Z.of_nat (length (line_text s))) q Hq) as (_ & _ & _ & _ & _ & ? & ? & _).
    + destruct (q_write _ _ _ _) as [[? ?] q2]. by destruct (if ends_open s || bool_decide (s = []) then q_write rk [newline] 1 q2 else (Val 0, 0, q2)) as [[? ?] ?].
  - revert H. if_case; [intros [-> _]; done|]. intros (res & d & fd' & bs & -> & Hw). cbn in He. subst res.
    by apply wrote_failed in Hw.
  - destruct (replay_line _ _ _ _) as [[m l] nl]. by destruct H as [-> ->].
Qed.

(** C40: an operation that returns an error leaves the unread and the replay data
    of the buffer as they were, and refused arguments give [EINVAL]. *)
Theorem failed_operations_keep_data junk realloc_ok o cb :
  cb_inv cb -> cb_mutex cb = false -> op_ok o ->
  exists x cb', run_op junk realloc_ok o cb = Ret (x, cb') /\
    (bad_args o = true -> out_res x = Err EINVAL) /\
    (forall e, out_res x = Err e -> replay cb' = replay cb /\ unread cb' = unread cb).
Proof.
  intros Hi Hm Hok. assert (Hr : rest cb (absq cb)) by done.
  destruct (run_op_rest junk realloc_ok o cb _ Hr Hok) as (x & cb' & q' & E & (_ & _ & <-) & Hspec).
  exists x, cb'. split; [done|]. split; [intros Hb; by apply (q_spec_refused realloc_ok o (absq cb) x (absq cb'))|]. intros e He.
  exact (q_spec_failed realloc_ok o (absq cb) x (absq cb') e (rest_wf _ _ Hr) Hspec He).
Qed.

(** the searches for lines find exactly the lines of the text: the unread
    ones from the front, whose ends are newlines; the replayed ones from the
    back, each of which starts after a newline or at the first byte ever
    written, the last one counting also when it has no newline yet. *)
Theorem line_searches_find_lines cb chars lines :
  cb_inv cb -> cb_mutex cb = true -> -1 <= lines < i32_max -> -1 <= chars < i32_max ->
  exists m l m' l' nl,
    cbuf_find_unread_line cb chars lines = Ret (m, l) /\ unread_lines_found (unread cb) chars lines m l /\
    cbuf_find_replay_line cb chars lines = Ret (m', l', nl) /\
    replay_lines_found (cb_got_wrap cb) (replay cb) chars lines m' l' nl.
Proof.
  intros Hi Hm Hl Hc.
  destruct (unread_line (unread cb) chars lines) as [m l] eqn:E. destruct (replay_line (cb_got_wrap cb) (replay cb) chars lines) as [[m' l'] nl] eqn:E'.
  exists m, l, m', l', nl. rewrite find_unread_line_ok, find_replay_line_ok, E, E' by (done || lia).
  split_and!; [done|by apply unread_line_found|done|apply replay_line_found; [lia|done]].
Qed.

(** ** Examples *)







(** A pipe: bytes come from a descriptor in pieces, one read is interrupted, and
    leave through another one that takes three bytes at a time. *)
Definition pipe_ops : list op :=
  [WriteFd 3 [RdData [1; 2; 3]; RdErr EINTR; RdData [4; 5]] 5; ReadFd 4 (WrFd [] [WrTake 2; WrErr EINTR; WrTake 1]) 3;
   Write [6; 7; 8; 9] 4; Peek [0; 0] 2; Read [0; 0; 0; 0] 4; WriteLine (replicate 10 9)].

Lemma no_drop_buffer_is_lossless_witness :
  exists cb0 cb1 xs cb, cbuf_create 7 4 10 = Ret (inl cb0) /\
    run_op 7 (fun _ => true) (OptSet 0 0) cb0 = Ret (Res (Val 0), cb1) /\
    run_ops 7 (fun _ => true) pipe_ops cb1 = Ret (xs, cb) /\
    stream_in pipe_ops xs = stream_out pipe_ops xs ++ unread cb.
Proof.
  apply (no_drop_buffer_is_lossless 7 (fun _ => true) 4 10 pipe_ops); unfold CB_LIMIT; [lia|lia| |].
  - repeat (apply Forall_cons; split; [cbn; unfold CB_LIMIT; lia|]). apply Forall_nil_2.
  - repeat (apply Forall_cons; split; [reflexivity|]). apply Forall_nil_2.
Defined.

(** What the pipe delivers: short reads and writes end an operation, and the
    last line does not fit. *)
Lemma pipe_demo :
  match (cb0 ← cbuf_create 7 4 10; match cb0 with inl cb => '(_, cb) ← run_op 7 (fun _ => true) (OptSet 0 0) cb; run_ops 7 (fun _ => true) pipe_ops cb | inr _ => Fault end) with
  | Ret (xs, cb) => out_res <$> xs = [Val 3; Val 2; Val 4; Val 2; Val 4; Err ENOSPC] /\
      stream_out pipe_ops xs = [1; 2; 3; 6; 7; 8] /\ unread cb = [9]
  | _ => False
  end.
Proof. vm_compute. done. Qed.

Lemma failed_operations_keep_data_witness :
  exists cb x cb', cbuf_create 7 4 10 = Ret (inl cb) /\ run_op 7 (fun _ => true) (Write [1; 2] (-1)) cb = Ret (x, cb') /\
    out_res x = Err EINVAL /\ replay cb' = replay cb /\ unread cb' = unread cb.
Proof.
  destruct (create_ok 7 4 10 ltac:(unfold CB_LIMIT; lia) ltac:(unfold CB_LIMIT; lia)) as (cb & E & Hi & Hm & _).
  destruct (failed_operations_keep_data 7 (fun _ => true) (Write [1; 2] (-1)) cb Hi Hm
    ltac:(cbn; unfold CB_LIMIT; lia)) as (x & cb' & E' & Hb & He).
  pose proof (Hb eq_refl) as Hx. destruct (He _ Hx). by exists cb, x, cb'.
Defined.

Lemma line_searches_find_lines_witness :
  exists cb m l m' l' nl, cbuf_create 7 4 10 = Ret (inl cb) /\
    cbuf_find_unread_line (set_mutex true cb) 5 1 = Ret (m, l) /\ unread_lines_found (unread cb) 5 1 m l /\
    cbuf_find_replay_line (set_mutex true cb) 5 1 = Ret (m', l', nl) /\
    replay_lines_found (cb_got_wrap cb) (replay cb) 5 1 m' l' nl.
Proof.
  destruct (create_ok 7 4 10 ltac:(unfold CB_LIMIT; lia) ltac:(unfold CB_LIMIT; lia)) as (cb & E & Hi & _ & _).
  destruct (line_searches_find_lines (set_mutex true cb) 5 1 (inv_set_mutex true cb Hi) eq_refl
    ltac:(unfold i32_max; lia) ltac:(unfold i32_max; lia)) as (m & l & m' & l' & nl & H).
  by exists cb, m, l, m', l', nl.
Defined.

(** A copy into an empty smaller buffer that overwrites: the first four bytes
    are lost, and as the overrun is not recorded the rest of their line counts as
    a line when it is looked for in the replay data; a write of the same bytes
    records it. *)
Lemma copy_forgets_wrap :
  let text := [97; 98; 99; 100; 101; 102; 103; newline] in
  let after s := match (st ← create_all 0 [(8, 8); (4, 4)]; run_sops 0 (fun _ => true) ([On 0 (Write text 8); s; On 1 (Drop (-1)); On 1 LinesReused]) st) with
    | Ret (xs, st) => Some (out_res <$> last xs, cb_got_wrap <$> st !! 1%nat, replay <$> st !! 1%nat)
    | _ => None
    end in
  after (Copy 0 1 8) = Some (Some (Val 1), Some false, Some [101; 102; 103; newline]) /\
  after (On 1 (Write text 8)) = Some (Some (Val 0), Some true, Some [101; 102; 103; newline]).
Proof. vm_compute. done. Qed.
