(* ===== verification/Heap.v ===== *)
(** * Memory for pointer-based code

    Words of memory at byte addresses, with C's pointers as integers: loads and
    stores outside allocated memory fault.  Code that works on memory is written
    in the state and error monad [hx]; calls of functions that are only known by
    their address are recorded. *)

From S2P Require Import Prelude.
From stdpp Require Export gmap.

Local Open Scope Z_scope.

(** [brk] is the end of the memory in use, [calls] the calls made through
    function pointers: the function and its argument. *)
Record heap : Type := Heap { mem : gmap Z Z; brk : Z; calls : list (Z * Z) }.

Definition NULL : Z := 0.

Definition hx (A : Type) : Type := heap -> exec (A * heap).

#[global] Instance hx_ret : MRet hx := fun A a h => Ret (a, h).
#[global] Instance hx_bind : MBind hx := fun A B f m h =>
  match m h with Ret (a, h') => f a h' | Fault => Fault | NoFuel => NoFuel end.

Definition hret {A} (a : A) : hx A := fun h => Ret (a, h).
Definition hlift {A} (e : exec A) : hx A := fun h => a ← e; Ret (a, h).
Definition hassert (c : bool) : hx unit := hlift (assert_ c).

Definition load (a : Z) : hx Z := fun h =>
  match mem h !! a with Some v => Ret (v, h) | None => Fault end.
Definition store (a v : Z) : hx unit := fun h =>
  match mem h !! a with
  | Some _ => Ret (tt, Heap (<[a := v]> (mem h)) (brk h) (calls h))
  | None => Fault
  end.

(** The words of the block of [n] bytes at [a]. *)
Definition words (a n : Z) : list Z := (fun k => a + 8 * k) <$> seqZ 0 (n / 8).

(** [xmalloc] gives zeroed memory, and ends the program when there is none. *)
Definition xmalloc (n : Z) : hx Z := fun h =>
  Ret (brk h, Heap (list_to_map ((fun a => (a, 0)) <$> words (brk h) n) ∪ mem h) (brk h + n) (calls h)).

(** A call of the function at address [f] with argument [x]. *)
Definition call (f x : Z) : hx unit := fun h => Ret (tt, Heap (mem h) (brk h) (calls h ++ [(f, x)])).

(** Loops that go from one object to the next visit each address at most once. *)
Definition chain_fuel : hx nat := fun h => Ret (S (size (mem h)), h).

Fixpoint hloop {S R : Type} (fuel : nat) (step : S -> hx (S + R)) (s : S) : hx R :=
  match fuel with
  | O => fun _ => NoFuel
  | Datatypes.S n => x ← step s; match x with inl s' => hloop n step s' | inr r => hret r end
  end.

(** A mutex is a word: 1 while it is locked.  Locking it again would block for
    ever. *)
Definition slurm_mutex_init (a : Z) : hx unit := store a 0.
Definition mutex_lock (a : Z) : hx unit := v ← load a; _ ← hassert (v =? 0); store a 1.
Definition mutex_unlock (a : Z) : hx unit := v ← load a; _ ← hassert (v =? 1); store a 0.
