(* ===== verification/Lists.v ===== *)
(** * Generic lists (src/common/list.c)

    Singly linked lists of pointers, with iterators that stay meaningful while
    items are added and removed, on memory that is kept in free lists.  The
    functions work on the words of memory as the C code does: [List],
    [ListNode] and [ListIterator] are addresses, a [ListNode *] is the address of
    a list's [head] or of a node's [next] field.

    Functions passed by callers ([ListFindF], [ListForF], [ListCmpF]) are
    functions of the data pointers; the calls of a list's [fDel] are recorded. *)

From S2P Require Import Prelude Heap.

Local Open Scope Z_scope.

Definition LIST_ALLOC : Z := 128.
Definition LIST_MAGIC : Z := 0xDEADBEEF.
(** [~LIST_MAGIC] as an [unsigned int]. *)
Definition DEAD_MAGIC : Z := u32 (Z.lnot LIST_MAGIC).

(** The fields of [struct listNode], [struct listIterator] and [struct list]:
    one word each. *)
Definition n_data (p : Z) : Z := p.
Definition n_next (p : Z) : Z := p + 8.
Definition sizeof_listNode : Z := 16.

Definition i_list (i : Z) : Z := i.
Definition i_pos (i : Z) : Z := i + 8.
Definition i_prev (i : Z) : Z := i + 16.
Definition i_iNext (i : Z) : Z := i + 24.
Definition i_magic (i : Z) : Z := i + 32.
Definition sizeof_listIterator : Z := 40.

Definition l_head (l : Z) : Z := l.
Definition l_tail (l : Z) : Z := l + 8.
Definition l_iNext (l : Z) : Z := l + 16.
Definition l_fDel (l : Z) : Z := l + 24.
Definition l_count (l : Z) : Z := l + 32.
Definition l_mutex (l : Z) : Z := l + 40.
Definition l_magic (l : Z) : Z := l + 48.
Definition sizeof_list : Z := 56.

(** The static variables. *)
Definition list_free_lists : Z := 8.
Definition list_free_nodes : Z := 16.
Definition list_free_iterators : Z := 24.
Definition list_free_lock : Z := 32.

Definition start_heap : heap :=
  Heap (list_to_map [(list_free_lists, NULL); (list_free_nodes, NULL); (list_free_iterators, NULL); (list_free_lock, 0)]) 64 [].

(** ** Memory *)

Definition list_alloc_aux (size pfreelist : Z) : hx Z :=
  _ ← hassert (8 <=? size);
  _ ← hassert (negb (pfreelist =? NULL));
  _ ← mutex_lock list_free_lock;
  free ← load pfreelist;
  _ ← (if free =? NULL then
         b ← xmalloc (LIST_ALLOC * size);
         _ ← store pfreelist b;
         if b =? NULL then hret tt else
         let plast := b + (LIST_ALLOC - 1) * size in
         _ ← hloop (Z.to_nat LIST_ALLOC) (fun px =>
               if px <? plast then
                 _ ← store px (px + size);
                 px ← load px;
                 hret (inl px)
               else hret (inr tt)) b;
         store plast NULL
       else hret tt);
  px ← load pfreelist;
  _ ← (if px =? NULL then hret tt else v ← load px; store pfreelist v);
  _ ← mutex_unlock list_free_lock;
  hret px.

Definition list_free_aux (x pfreelist : Z) : hx unit :=
  _ ← hassert (negb (x =? NULL));
  _ ← hassert (negb (pfreelist =? NULL));
  _ ← mutex_lock list_free_lock;
  v ← load pfreelist;
  _ ← store x v;
  _ ← store pfreelist x;
  mutex_unlock list_free_lock.

Definition list_alloc : hx Z := list_alloc_aux sizeof_list list_free_lists.
Definition list_free (l : Z) : hx unit := list_free_aux l list_free_lists.
Definition list_node_alloc : hx Z := list_alloc_aux sizeof_listNode list_free_nodes.
Definition list_node_free (p : Z) : hx unit := list_free_aux p list_free_nodes.
Definition list_iterator_alloc : hx Z := list_alloc_aux sizeof_listIterator list_free_iterators.
Definition list_iterator_free (i : Z) : hx unit := list_free_aux i list_free_iterators.

Definition list_reinit_mutexes : hx unit := slurm_mutex_init list_free_lock.

(** ** Nodes *)

Definition _list_mutex_is_locked (mutex : Z) : hx bool := v ← load mutex; hret (v =? 1).

Definition check_magic (field : Z) : hx unit := v ← load field; hassert (v =? LIST_MAGIC).

(** The assertion on the iterator [i]: its position is the node after [prev], or
    the one after that. *)
Definition check_iterator (i : Z) : hx unit :=
  pos ← load (i_pos i);
  prev ← load (i_prev i);
  cur ← load prev;
  if pos =? cur then hret tt else
  _ ← hassert (negb (cur =? NULL));
  nx ← load (n_next cur);
  hassert (pos =? nx).

(** [for (i = l->iNext; i; i = i->iNext) body]. *)
Definition for_iterators (l : Z) (body : Z -> hx unit) : hx unit :=
  fuel ← chain_fuel;
  i ← load (l_iNext l);
  hloop fuel (fun i =>
    if i =? NULL then hret (inr tt) else
    _ ← check_magic (i_magic i);
    _ ← body i;
    i ← load (i_iNext i);
    hret (inl i)) i.

Definition list_node_create (l pp x : Z) : hx Z :=
  _ ← hassert (negb (l =? NULL));
  _ ← check_magic (l_magic l);
  b ← _list_mutex_is_locked (l_mutex l);
  _ ← hassert b;
  _ ← hassert (negb (pp =? NULL));
  _ ← hassert (negb (x =? NULL));
  p ← list_node_alloc;
  _ ← store (n_data p) x;
  v ← load pp;
  _ ← store (n_next p) v;
  _ ← (if v =? NULL then store (l_tail l) (n_next p) else hret tt);
  _ ← store pp p;
  c ← load (l_count l);
  c ← hlift (i32 (c + 1));
  _ ← store (l_count l) c;
  _ ← for_iterators l (fun i =>
        prev ← load (i_prev i);
        _ ← (if prev =? pp then store (i_prev i) (n_next p)
             else
               pos ← load (i_pos i);
               nx ← load (n_next p);
               if pos =? nx then store (i_pos i) p else hret tt);
        check_iterator i);
  hret x.

Definition list_node_destroy (l pp : Z) : hx Z :=
  _ ← hassert (negb (l =? NULL));
  _ ← check_magic (l_magic l);
  b ← _list_mutex_is_locked (l_mutex l);
  _ ← hassert b;
  _ ← hassert (negb (pp =? NULL));
  p ← load pp;
  if p =? NULL then hret NULL else
  v ← load (n_data p);
  nx ← load (n_next p);
  _ ← store pp nx;
  _ ← (if nx =? NULL then store (l_tail l) pp else hret tt);
  c ← load (l_count l);
  c ← hlift (i32 (c - 1));
  _ ← store (l_count l) c;
  _ ← for_iterators l (fun i =>
        pos ← load (i_pos i);
        _ ← (if pos =? p then
               nx ← load (n_next p);
               _ ← store (i_pos i) nx;
               store (i_prev i) pp
             else
               prev ← load (i_prev i);
               if prev =? n_next p then store (i_prev i) pp else hret tt);
        check_iterator i);
  _ ← list_node_free p;
  hret v.

Definition _list_pop_locked (l : Z) : hx Z := list_node_destroy l (l_head l).
Definition _list_append_locked (l x : Z) : hx Z :=
  tail ← load (l_tail l);
  list_node_create l tail x.

(** ** Lists *)

Definition list_create (f : Z) : hx Z :=
  l ← list_alloc;
  _ ← store (l_head l) NULL;
  _ ← store (l_tail l) (l_head l);
  _ ← store (l_iNext l) NULL;
  _ ← store (l_fDel l) f;
  _ ← store (l_count l) 0;
  _ ← slurm_mutex_init (l_mutex l);
  _ ← store (l_magic l) LIST_MAGIC;
  hret l.

Definition list_destroy (l : Z) : hx unit :=
  _ ← hassert (negb (l =? NULL));
  _ ← mutex_lock (l_mutex l);
  _ ← check_magic (l_magic l);
  fuel ← chain_fuel;
  i ← load (l_iNext l);
  _ ← hloop fuel (fun i =>
        if i =? NULL then hret (inr tt) else
        _ ← check_magic (i_magic i);
        iTmp ← load (i_iNext i);
        _ ← store (i_magic i) DEAD_MAGIC;
        _ ← list_iterator_free i;
        hret (inl iTmp)) i;
  p ← load (l_head l);
  _ ← hloop fuel (fun p =>
        if p =? NULL then hret (inr tt) else
        pTmp ← load (n_next p);
        data ← load (n_data p);
        fDel ← load (l_fDel l);
        _ ← (if (data =? NULL) || (fDel =? NULL) then hret tt else call fDel data);
        _ ← list_node_free p;
        hret (inl pTmp)) p;
  _ ← store (l_magic l) DEAD_MAGIC;
  _ ← mutex_unlock (l_mutex l);
  list_free l.

(** Functions on a list hold its mutex. *)
Definition locked {A : Type} (l : Z) (body : hx A) : hx A :=
  _ ← hassert (negb (l =? NULL));
  _ ← mutex_lock (l_mutex l);
  _ ← check_magic (l_magic l);
  r ← body;
  _ ← mutex_unlock (l_mutex l);
  hret r.

Definition list_is_empty (l : Z) : hx bool := n ← locked l (load (l_count l)); hret (n =? 0).
Definition list_count (l : Z) : hx Z := locked l (load (l_count l)).

Definition list_append (l x : Z) : hx Z :=
  _ ← hassert (negb (x =? NULL));
  locked l (_list_append_locked l x).
Definition list_prepend (l x : Z) : hx Z :=
  _ ← hassert (negb (x =? NULL));
  locked l (list_node_create l (l_head l) x).
Definition list_push (l x : Z) : hx Z :=
  _ ← hassert (negb (x =? NULL));
  locked l (list_node_create l (l_head l) x).
Definition list_enqueue (l x : Z) : hx Z :=
  _ ← hassert (negb (x =? NULL));
  locked l (tail ← load (l_tail l); list_node_create l tail x).
Definition list_pop (l : Z) : hx Z := locked l (_list_pop_locked l).
Definition list_dequeue (l : Z) : hx Z := locked l (list_node_destroy l (l_head l)).
Definition list_peek (l : Z) : hx Z :=
  locked l (h ← load (l_head l); if h =? NULL then hret NULL else load (n_data h)).

Definition list_find_first (l : Z) (f : Z -> Z -> bool) (key : Z) : hx Z :=
  _ ← hassert (negb (key =? NULL));
  locked l
    (fuel ← chain_fuel;
     p ← load (l_head l);
     hloop fuel (fun p =>
       if p =? NULL then hret (inr NULL) else
       data ← load (n_data p);
       if f data key then hret (inr data) else
       p ← load (n_next p);
       hret (inl p)) p).

Definition delete_data (l v : Z) : hx unit :=
  fDel ← load (l_fDel l);
  if fDel =? NULL then hret tt else call fDel v.

Definition list_delete_all (l : Z) (f : Z -> Z -> bool) (key : Z) : hx Z :=
  locked l
    (fuel ← chain_fuel;
     hloop fuel (fun '(pp, n) =>
       p ← load pp;
       if p =? NULL then hret (inr n) else
       data ← load (n_data p);
       if f data key then
         v ← list_node_destroy l pp;
         if v =? NULL then hret (inl (pp, n)) else
         _ ← delete_data l v;
         n ← hlift (i32 (n + 1));
         hret (inl (pp, n))
       else hret (inl (n_next p, n))) (l_head l, 0)).

Definition list_flush (l : Z) : hx Z :=
  locked l
    (fuel ← chain_fuel;
     hloop fuel (fun n =>
       p ← load (l_head l);
       if p =? NULL then hret (inr n) else
       v ← list_node_destroy l (l_head l);
       if v =? NULL then hret (inl n) else
       _ ← delete_data l v;
       n ← hlift (i32 (n + 1));
       hret (inl n)) 0).

(** [f] gets the item and what [arg] points to, and may change the latter. *)
Definition list_for_each {S : Type} (l : Z) (f : Z -> S -> Z * S) (arg : S) : hx (Z * S) :=
  locked l
    (fuel ← chain_fuel;
     p ← load (l_head l);
     hloop fuel (fun '(p, n, arg) =>
       if p =? NULL then hret (inr (n, arg)) else
       n ← hlift (i32 (n + 1));
       data ← load (n_data p);
       let '(r, arg) := f data arg in
       if r <? 0 then hret (inr (- n, arg)) else
       p ← load (n_next p);
       hret (inl (p, n, arg))) (p, 0, arg)).

(** ** Iterators *)

Definition list_iterator_create (l : Z) : hx Z :=
  _ ← hassert (negb (l =? NULL));
  i ← list_iterator_alloc;
  _ ← store (i_list i) l;
  _ ← mutex_lock (l_mutex l);
  _ ← check_magic (l_magic l);
  head ← load (l_head l);
  _ ← store (i_pos i) head;
  _ ← store (i_prev i) (l_head l);
  nx ← load (l_iNext l);
  _ ← store (i_iNext i) nx;
  _ ← store (l_iNext l) i;
  _ ← store (i_magic i) LIST_MAGIC;
  _ ← mutex_unlock (l_mutex l);
  hret i.

(** Functions on an iterator hold the mutex of its list. *)
Definition on_iterator {A : Type} (i : Z) (body : Z -> hx A) : hx A :=
  _ ← hassert (negb (i =? NULL));
  _ ← check_magic (i_magic i);
  l ← load (i_list i);
  _ ← mutex_lock (l_mutex l);
  _ ← check_magic (l_magic l);
  r ← body l;
  _ ← mutex_unlock (l_mutex l);
  hret r.

Definition rewind (i : Z) (l : Z) : hx unit :=
  head ← load (l_head l);
  _ ← store (i_pos i) head;
  store (i_prev i) (l_head l).

Definition list_iterator_reset (i : Z) : hx unit := on_iterator i (rewind i).

Definition list_iterator_destroy (i : Z) : hx unit :=
  _ ← on_iterator i (fun l =>
        fuel ← chain_fuel;
        hloop fuel (fun pi =>
          j ← load pi;
          if j =? NULL then hret (inr tt) else
          _ ← check_magic (i_magic j);
          if j =? i then
            nx ← load (i_iNext j);
            _ ← store pi nx;
            hret (inr tt)
          else hret (inl (i_iNext j))) (l_iNext l));
  _ ← store (i_magic i) DEAD_MAGIC;
  list_iterator_free i.

Definition node_data (p : Z) : hx Z := if p =? NULL then hret NULL else load (n_data p).

Definition list_next (i : Z) : hx Z :=
  p ← on_iterator i (fun _ =>
        p ← load (i_pos i);
        _ ← (if p =? NULL then hret tt else nx ← load (n_next p); store (i_pos i) nx);
        prev ← load (i_prev i);
        cur ← load prev;
        _ ← (if cur =? p then hret tt else
               prev ← load (i_prev i);
               cur ← load prev;
               store (i_prev i) (n_next cur));
        hret p);
  node_data p.

Definition list_peek_next (i : Z) : hx Z :=
  p ← on_iterator i (fun _ => load (i_pos i));
  node_data p.

Definition list_insert (i x : Z) : hx Z :=
  _ ← hassert (negb (x =? NULL));
  on_iterator i (fun l => prev ← load (i_prev i); list_node_create l prev x).

Definition list_find (i : Z) (f : Z -> Z -> bool) (key : Z) : hx Z :=
  _ ← hassert (negb (i =? NULL));
  _ ← hassert (negb (key =? NULL));
  _ ← check_magic (i_magic i);
  fuel ← chain_fuel;
  hloop fuel (fun _ =>
    v ← list_next i;
    if negb (v =? NULL) && negb (f v key) then hret (inl tt) else hret (inr v)) tt.

Definition list_remove (i : Z) : hx Z :=
  on_iterator i (fun l =>
    prev ← load (i_prev i);
    cur ← load prev;
    pos ← load (i_pos i);
    if cur =? pos then hret NULL else
    prev ← load (i_prev i);
    list_node_destroy l prev).

Definition list_delete_item (i : Z) : hx Z :=
  _ ← hassert (negb (i =? NULL));
  _ ← check_magic (i_magic i);
  v ← list_remove i;
  if v =? NULL then hret 0 else
  l ← load (i_list i);
  _ ← delete_data l v;
  hret 1.

(** ** Two lists *)

Definition list_append_list (l sub : Z) : hx Z :=
  _ ← hassert (negb (l =? NULL));
  fDel ← load (l_fDel l);
  _ ← hassert (fDel =? NULL);
  _ ← hassert (negb (sub =? NULL));
  itr ← list_iterator_create sub;
  fuel ← chain_fuel;
  n ← hloop fuel (fun n =>
        v ← list_next itr;
        if v =? NULL then hret (inr n) else
        r ← list_append l v;
        if r =? NULL then hret (inr n) else
        n ← hlift (i32 (n + 1));
        hret (inl n)) 0;
  _ ← list_iterator_destroy itr;
  hret n.

Definition list_transfer (l sub : Z) : hx Z :=
  _ ← hassert (negb (l =? NULL));
  _ ← hassert (negb (sub =? NULL));
  f1 ← load (l_fDel l);
  f2 ← load (l_fDel sub);
  _ ← hassert (f1 =? f2);
  fuel ← chain_fuel;
  hloop fuel (fun n =>
    v ← list_pop sub;
    if v =? NULL then hret (inr n) else
    r ← list_append l v;
    if r =? NULL then _ ← delete_data l v; hret (inr n) else
    n ← hlift (i32 (n + 1));
    hret (inl n)) 0.

(** ** Sorting

    [qsort] is the C library's. *)
Section sort.
Variable qsort : (Z -> Z -> Z) -> list Z -> list Z.

Definition list_sort (l : Z) (f : Z -> Z -> Z) : hx unit :=
  _ ← hassert (negb (l =? NULL));
  _ ← check_magic (l_magic l);
  _ ← mutex_lock (l_mutex l);
  lsize ← load (l_count l);
  if lsize <=? 1 then mutex_unlock (l_mutex l) else
  fuel ← chain_fuel;
  '(n, v) ← hloop fuel (fun '(n, v) =>
      e ← _list_pop_locked l;
      if e =? NULL then hret (inr (n, v)) else
      v ← hlift (aset v n e);
      n ← hlift (i32 (n + 1));
      hret (inl (n, v))) (0, replicate (Z.to_nat lsize) NULL);
  let v := qsort f (take (Z.to_nat n) v) ++ drop (Z.to_nat n) v in
  _ ← hloop (S (Z.to_nat lsize)) (fun n =>
        if n <? lsize then
          e ← hlift (aget v n);
          _ ← _list_append_locked l e;
          hret (inl (n + 1))
        else hret (inr tt)) 0;
  _ ← for_iterators l (fun i => l' ← load (i_list i); rewind i l');
  mutex_unlock (l_mutex l).
End sort.
