(* ===== verification/HeapLogic.v ===== *)
(** * Separation logic for pointer-based code

    Weakest preconditions for the monad [hx] in Iris: [W e Q] says that [e] runs
    without fault and within its fuel, and ends with resources that satisfy [Q].
    [a ↦ v] owns the word of memory at [a], [called cs] knows the calls made so
    far.  [W_sound] turns a proof into a fact about the execution. *)

From iris.proofmode Require Import proofmode.
From iris.base_logic.lib Require Import gen_heap ghost_var.
From S2P Require Import Prelude Heap.

Local Open Scope Z_scope.

Class memG (Σ : gFunctors) : Type := MemG {
  #[global] memG_heap :: gen_heapGS Z Z Σ;
  #[global] memG_calls :: ghost_varG Σ (list (Z * Z));
  calls_name : gname
}.

Notation "a ↦ v" := (pointsto (L := Z) (V := Z) a (DfracOwn 1) v) (at level 20, format "a  ↦  v") : bi_scope.

Section logic.
Context `{!memG Σ}.

Definition called (cs : list (Z * Z)) : iProp Σ := ghost_var calls_name (1/2) cs.

(** The memory of [h]; what lies beyond [brk] is free. *)
Definition interp (h : heap) : iProp Σ :=
  gen_heap_interp (mem h) ∗ ghost_var calls_name (1/2) (calls h) ∗
  ⌜0 < brk h⌝ ∗ ⌜forall a, is_Some (mem h !! a) -> a < brk h⌝.

Definition W {A : Type} (e : hx A) (Q : A -> iProp Σ) : iProp Σ :=
  ∀ h, interp h ==∗ ∃ a h', ⌜e h = Ret (a, h')⌝ ∗ interp h' ∗ Q a.

Lemma W_ret {A} (a : A) Q : Q a ⊢ W (hret a) Q.
Proof. iIntros "HQ" (h) "Hh !>". iExists a, h. by iFrame. Qed.

Lemma W_bind {A B} (e : hx A) (f : A -> hx B) Q : W e (fun a => W (f a) Q) ⊢ W (mbind f e) Q.
Proof.
  iIntros "He" (h) "Hh". iMod ("He" with "Hh") as (a h1 E1) "[Hh Hf]". iMod ("Hf" with "Hh") as (b h2 E2) "[Hh HQ]".
  iModIntro. iExists b, h2. iFrame. iPureIntro. unfold mbind, hx_bind. by rw E1.
Qed.

Lemma W_mono {A} (e : hx A) P Q : W e P -∗ (∀ a, P a -∗ Q a) -∗ W e Q.
Proof.
  iIntros "He HPQ" (h) "Hh". iMod ("He" with "Hh") as (a h1 E1) "[Hh HP]". iModIntro. iExists a, h1. iFrame.
  iSplit; [done|]. by iApply "HPQ".
Qed.

Lemma W_assert (c : bool) Q : c = true -> Q tt ⊢ W (hassert c) Q.
Proof. intros ->. iIntros "HQ" (h) "Hh !>". iExists tt, h. by iFrame. Qed.

Lemma W_lift {A} (e : exec A) a Q : e = Ret a -> Q a ⊢ W (hlift e) Q.
Proof. intros ->. iIntros "HQ" (h) "Hh !>". iExists a, h. by iFrame. Qed.

Lemma W_load a v Q : a ↦ v -∗ (a ↦ v -∗ Q v) -∗ W (load a) Q.
Proof.
  iIntros "Ha HQ" (h) "(Hh & Hr)". iDestruct (gen_heap_valid with "Hh Ha") as %E. iModIntro. iExists v, h. iFrame.
  iSplit; [iPureIntro; unfold load; by rw E|]. by iApply "HQ".
Qed.

Lemma W_store a v w Q : a ↦ v -∗ (a ↦ w -∗ Q tt) -∗ W (store a w) Q.
Proof.
  iIntros "Ha HQ" (h) "(Hh & Hc & Hb & %Hd)". iDestruct (gen_heap_valid with "Hh Ha") as %E.
  iMod (gen_heap_update _ _ _ w with "Hh Ha") as "[Hh Ha]". iModIntro.
  iExists tt, (Heap (<[a := w]> (mem h)) (brk h) (calls h)). iFrame.
  iSplit; [iPureIntro; unfold store; by rw E|]. iSplit; [|by iApply "HQ"].
  iPureIntro. cbn. intros b. rw lookup_insert_is_Some'. intros [<-|]; [by apply Hd|by apply Hd].
Qed.

Lemma W_call f x cs Q : called cs -∗ (called (cs ++ [(f, x)]) -∗ Q tt) -∗ W (call f x) Q.
Proof.
  iIntros "Hcs HQ" (h) "(Hh & Hc & Hr)". iCombine "Hc Hcs" gives %[_ E].
  iMod (ghost_var_update_2 (calls h ++ [(f, x)]) with "Hc Hcs") as "[Hc Hcs]"; [by rw Qp.half_half|].
  iModIntro. iExists tt, _. iSplit; [done|]. iFrame. rw E. by iApply "HQ".
Qed.

(** A block of [n] bytes with unspecified contents. *)
Definition raw (a n : Z) : iProp Σ := [∗ list] b ∈ words a n, ∃ v, b ↦ v.

Lemma W_xmalloc n Q : 0 <= n -> (∀ a, ⌜0 < a⌝ -∗ raw a n -∗ Q a) ⊢ W (xmalloc n) Q.
Proof.
  iIntros (Hn) "HQ". iIntros (h) "(Hh & Hc & %Hb & %Hd)".
  set (m := list_to_map ((fun a => (a, 0)) <$> words (brk h) n) : gmap Z Z).
  assert (Hk : ((fun a : Z => (a, 0)) <$> words (brk h) n).*1 = words (brk h) n) by (rw -list_fmap_compose; apply list_fmap_id).
  assert (Hdom : forall a, is_Some (m !! a) -> brk h <= a < brk h + n).
  { intros a [v Hv]. apply elem_of_list_to_map_2, list_elem_of_fmap in Hv as (b & [= <- _] & Hw).
    apply list_elem_of_fmap in Hw as (k & -> & Hk'). apply elem_of_seqZ in Hk'. dlia. }
  assert (HND : NoDup (words (brk h) n)). { unfold words. apply NoDup_fmap_2; [intros x y E; cbn in E; lia|apply NoDup_seqZ]. }
  iMod (gen_heap_alloc_big _ m with "Hh") as "(Hh & Hm & _)".
  { apply map_disjoint_spec. intros a v w Hv Hw. specialize (Hdom a (mk_is_Some _ _ Hv)). specialize (Hd a (mk_is_Some _ _ Hw)). lia. }
  iModIntro. iExists (brk h), _. iSplit; [done|]. cbn. iFrame. iSplit.
  - iPureIntro. cbn. split; [lia|]. intros a. rw lookup_union_is_Some.
    intros [Ha|Ha]; [specialize (Hdom a Ha)|specialize (Hd a Ha)]; lia.
  - iApply "HQ"; [done|]. unfold m, raw. rewrite -> big_sepM_list_to_map by (by rw Hk).
    rw big_sepL_fmap. iApply (big_sepL_impl with "Hm"). iIntros "!>" (k a _) "Ha". by iExists 0.
Qed.

Lemma W_loop {S R : Type} n (step : S -> hx (S + R)) s Q :
  W (step s) (fun x => match x with inl s' => W (hloop n step s') Q | inr r => Q r end) ⊢ W (hloop (Datatypes.S n) step s) Q.
Proof.
  iIntros "H". cbn [hloop]. iApply W_bind. iApply (W_mono with "H"). iIntros ([s'|r]) "H"; [done|]. by iApply W_ret.
Qed.

(** Distinct owned words are at most as many as the fuel. *)
Lemma owned_words l h : interp h -∗ ([∗ list] a ∈ l, ∃ v, a ↦ v) -∗ ⌜(length l <= size (mem h))%nat⌝.
Proof.
  iIntros "(Hh & _) Hl". iAssert ⌜NoDup l⌝%I with "[Hl]" as %HND.
  { clear h. iInduction l as [|a l] "IH"; [iPureIntro; constructor|]. iDestruct "Hl" as "[[%v Ha] Hl]".
    iAssert ⌜a ∉ l⌝%I as %Ha.
    { iIntros (Hin). apply list_elem_of_lookup in Hin as [j Hj]. iDestruct (big_sepL_lookup _ _ _ _ Hj with "Hl") as (w) "Hw".
      by iCombine "Ha Hw" gives %[? _]. }
    iDestruct ("IH" with "Hl") as %?. iPureIntro. by constructor. }
  iAssert ⌜forall a, a ∈ l -> is_Some (mem h !! a)⌝%I as %Hd.
  { iIntros (a Hin). apply list_elem_of_lookup in Hin as [j Hj]. iDestruct (big_sepL_lookup _ _ _ _ Hj with "Hl") as (w) "Hw".
    iDestruct (gen_heap_valid with "Hh Hw") as %E. by iExists w. }
  iPureIntro. rw -(size_dom (mem h)). rewrite <-(size_list_to_set (C := gset Z) l) by done.
  apply subseteq_size. intros a Ha. apply elem_of_dom. apply Hd. by apply elem_of_list_to_set in Ha.
Qed.

Lemma W_fuel (R : iProp Σ) l Q : (R ⊢ [∗ list] a ∈ l, ∃ v, a ↦ v) ->
  R -∗ (∀ n, ⌜(length l < n)%nat⌝ -∗ R -∗ Q n) -∗ W chain_fuel Q.
Proof.
  iIntros (HR) "HR HQ". iIntros (h) "Hh". iAssert ⌜(length l <= size (mem h))%nat⌝%I as %Hl.
  { iApply (owned_words with "Hh"). by iApply HR. }
  iModIntro. iExists _, h. iSplit; [done|]. iFrame "Hh". iApply ("HQ" with "[%] HR"). lia.
Qed.
End logic.

(** ** Adequacy *)

Definition memΣ : gFunctors := #[gen_heapΣ Z Z; ghost_varΣ (list (Z * Z))].

(** What is proved of [e] from the words of the first memory holds of its run. *)
Lemma W_sound {A : Type} (e : hx A) (h : heap) (phi : A -> list (Z * Z) -> Prop) :
  0 < brk h -> (forall a, is_Some (mem h !! a) -> a < brk h) ->
  (forall `{!memG memΣ}, ([∗ map] a ↦ v ∈ mem h, a ↦ v) -∗ called (calls h) -∗
     W e (fun a => ∃ cs, called cs ∗ ⌜phi a cs⌝)) ->
  exists a h', e h = Ret (a, h') /\ phi a (calls h').
Proof.
  intros Hb Hd Hwp. apply (pure_soundness (PROP := iPropI memΣ)). apply uPred.bupd_soundness; [apply _|].
  iMod (gen_heap_init (L := Z) (V := Z) (mem h)) as (Hheap) "(Hh & Hm & _)".
  iMod (ghost_var_alloc (calls h)) as (g) "[Hc Hcs]".
  pose (HG := MemG memΣ Hheap _ g). iMod (Hwp HG with "Hm Hcs [Hh Hc]") as (a h' E) "[(_ & Hc & _) (%cs & Hcs & %Hphi)]".
  { by iFrame. }
  iModIntro. iDestruct (ghost_var_agree with "Hc Hcs") as %<-. iPureIntro. by exists a, h'.
Qed.
