(* ===== verification/ListsLogic.v ===== *)
(** * Generic lists: representation in separation logic

    Chains of linked objects, the free lists, and the predicate [is_list] that
    describes a list with its iterators in memory. *)

From iris.proofmode Require Import proofmode environments.
From iris.base_logic.lib Require Import gen_heap ghost_var.
From S2P Require Import Prelude Heap Lists HeapLogic.

Local Open Scope Z_scope.

(** ** Tactics *)

(** Run the next primitive, with the word it needs taken from the context. *)
Ltac w_bind := iApply W_bind.
Ltac w_load :=
  lazymatch goal with
  | |- envs_entails _ (W (mbind _ (load ?a)) _) => w_bind; iApply (W_load a with "[$]")
  | |- envs_entails _ (W (load ?a) _) => iApply (W_load a with "[$]")
  end.
Ltac w_store :=
  lazymatch goal with
  | |- envs_entails _ (W (mbind _ (store ?a _)) _) => w_bind; iApply (W_store a with "[$]")
  | |- envs_entails _ (W (store ?a _) _) => iApply (W_store a with "[$]")
  end.
Ltac w_assert := w_bind; iApply W_assert; [|].
Ltac w_ret := iApply W_ret.

Section chains.
Context `{!memG Σ}.
Context {A : Type}.

(** [seg off P c ns]: the cell [c] points to the first object of [ns], whose
    field at [off] points to the next one, and so on; [P] describes the other
    fields. *)
Fixpoint seg (off : Z) (P : Z -> A -> iProp Σ) (c : Z) (ns : list (Z * A)) : iProp Σ :=
  match ns with
  | [] => emp
  | (p, x) :: ns => c ↦ p ∗ ⌜0 < p⌝ ∗ P p x ∗ seg off P (p + off) ns
  end.

(** The address of the last link. *)
Fixpoint endc (off c : Z) (ns : list (Z * A)) : Z :=
  match ns with [] => c | (p, _) :: ns => endc off (p + off) ns end.

Definition chain (off : Z) (P : Z -> A -> iProp Σ) (c : Z) (ns : list (Z * A)) : iProp Σ :=
  seg off P c ns ∗ endc off c ns ↦ NULL.

(** The object at position [k], and the address of the link to it. *)
Definition nodeat (ns : list (Z * A)) (k : nat) : Z := match ns !! k with Some (p, _) => p | None => NULL end.
Definition cellat (off c : Z) (ns : list (Z * A)) (k : nat) : Z := endc off c (take k ns).

Lemma seg_app off P c ns1 ns2 : seg off P c (ns1 ++ ns2) ⊣⊢ seg off P c ns1 ∗ seg off P (endc off c ns1) ns2.
Proof.
  revert c. induction ns1 as [|[p x] ns1 IH]; intros c; cbn [seg app endc]; [by rw left_id|]. rw IH.
  iSplit; iIntros "H"; [iDestruct "H" as "($ & $ & $ & $ & $)"|iDestruct "H" as "[($ & $ & $ & $) $]"].
Qed.

Lemma endc_app off c ns1 ns2 : endc off c (ns1 ++ ns2) = endc off (endc off c ns1) ns2.
Proof. revert c. induction ns1 as [|[p x] ns1 IH]; intros c; [done|]. cbn. apply IH. Qed.

Lemma chain_cons off P c p x ns : chain off P c ((p, x) :: ns) ⊣⊢ c ↦ p ∗ ⌜0 < p⌝ ∗ P p x ∗ chain off P (p + off) ns.
Proof. unfold chain. cbn [seg endc]. iSplit; iIntros "H"; [iDestruct "H" as "[($ & $ & $ & $) $]"|iDestruct "H" as "($ & $ & $ & $ & $)"]. Qed.

Lemma chain_nil off P c : chain off P c [] ⊣⊢ c ↦ NULL.
Proof. unfold chain. cbn. by rw left_id. Qed.

Lemma chain_app off P c ns1 ns2 : chain off P c (ns1 ++ ns2) ⊣⊢ seg off P c ns1 ∗ chain off P (endc off c ns1) ns2.
Proof. unfold chain. rw seg_app endc_app. iSplit; iIntros "H"; [iDestruct "H" as "[[$ $] $]"|iDestruct "H" as "[$ [$ $]]"]. Qed.

(** Take the link to position [k] out of the chain. *)
Lemma chain_split off P c ns k :
  chain off P c ns ⊣⊢ seg off P c (take k ns) ∗ chain off P (cellat off c ns k) (drop k ns).
Proof. rw -{1}(take_drop k ns). apply chain_app. Qed.

Lemma chain_head off P c ns : chain off P c ns -∗ c ↦ nodeat ns 0 ∗ (c ↦ nodeat ns 0 -∗ chain off P c ns).
Proof.
  destruct ns as [|[p x] ns]; [rw chain_nil; iIntros "$"; by iIntros|]. rw chain_cons. iIntros "($ & $ & $ & $)". by iIntros.
Qed.

(** Another cell can take the place of the first one. *)
Lemma chain_move off P c c' ns : chain off P c ns -∗ c' ↦ nodeat ns 0 -∗ chain off P c' ns ∗ c ↦ nodeat ns 0.
Proof.
  destruct ns as [|[p x] ns]; [rw !chain_nil; iIntros "$ $"|]. rw !chain_cons. iIntros "($ & $ & $ & $) $".
Qed.

Lemma nodeat_drop ns k j : nodeat (drop k ns) j = nodeat ns (k + j).
Proof. unfold nodeat. by rw lookup_drop. Qed.

Lemma chain_read off P c ns k :
  chain off P c ns -∗ cellat off c ns k ↦ nodeat ns k ∗ (cellat off c ns k ↦ nodeat ns k -∗ chain off P c ns).
Proof.
  iIntros "H". iDestruct (chain_split _ _ _ _ k with "H") as "[Hs Hc]". iDestruct (chain_head with "Hc") as "[Hc Hr]".
  rw nodeat_drop Nat.add_0_r. iFrame "Hc". iIntros "Hc". iApply (chain_split _ _ _ _ k). iFrame "Hs". by iApply "Hr".
Qed.

(** The cells of a chain are different. *)
Definition cells (off c : Z) (ns : list (Z * A)) : list Z := c :: ((fun '(p, _) => p + off) <$> ns).

Lemma chain_owns off P c ns : chain off P c ns ⊢ [∗ list] a ∈ cells off c ns, ∃ v, a ↦ v.
Proof.
  revert c. induction ns as [|[p x] ns IH]; intros c; [rw chain_nil; cbn; iIntros "H"; iSplit; [by iExists _|done]|].
  rw chain_cons IH. cbn. iIntros "(Hc & _ & _ & $)". by iExists p.
Qed.

Lemma owned_distinct l : ([∗ list] a ∈ l, ∃ v, a ↦ v) ⊢ ⌜NoDup l⌝ : iProp Σ.
Proof.
  induction l as [|a l IH]; [iIntros "_"; iPureIntro; constructor|]. cbn. iIntros "[[%v Ha] Hl]".
  iAssert ⌜a ∉ l⌝%I as %Ha.
  { iIntros (Hin). apply list_elem_of_lookup in Hin as [j Hj]. iDestruct (big_sepL_lookup _ _ _ _ Hj with "Hl") as (w) "Hw".
    by iCombine "Ha Hw" gives %[? _]. }
  iDestruct (IH with "Hl") as %?. iPureIntro. by constructor.
Qed.

Lemma chain_distinct off P c ns : chain off P c ns ⊢ ⌜NoDup (cells off c ns)⌝.
Proof. rw chain_owns. apply owned_distinct. Qed.

Lemma endc_cells off c ns : cells off c ns !! length ns = Some (endc off c ns).
Proof. revert c. induction ns as [|[p x] ns IH]; intros c; [done|]. apply (IH (p + off)). Qed.

Lemma cellat_cells off c ns k : (k <= length ns)%nat -> cells off c ns !! k = Some (cellat off c ns k).
Proof.
  intros Hk. unfold cellat. rw -(endc_cells off c (take k ns)). rewrite -> length_take_le by done.
  unfold cells. rw fmap_take. destruct k as [|k]; [done|]. rw !lookup_cons.
  by rewrite -> lookup_take_lt by lia.
Qed.

Lemma cellat_inj off c ns j k : NoDup (cells off c ns) -> (j <= length ns)%nat -> (k <= length ns)%nat ->
  cellat off c ns j = cellat off c ns k -> j = k.
Proof.
  intros HN Hj Hk E. pose proof (cellat_cells off c ns j Hj) as Ej. pose proof (cellat_cells off c ns k Hk) as Ek.
  rw -E in Ek. by apply (NoDup_lookup (cells off c ns) j k (cellat off c ns j)).
Qed.

Lemma chain_pos off P c ns : chain off P c ns ⊢ ⌜Forall (fun n => 0 < n.1) ns⌝.
Proof.
  revert c. induction ns as [|[p x] ns IH]; intros c; [iIntros "_"; iPureIntro; constructor|]. rw chain_cons IH.
  iIntros "(_ & %Hp & _ & %Hf)". iPureIntro. by constructor.
Qed.

Lemma nodeat_inj off c ns j k : NoDup (cells off c ns) -> Forall (fun n => 0 < n.1) ns ->
  (j <= length ns)%nat -> (k <= length ns)%nat -> nodeat ns j = nodeat ns k -> j = k.
Proof.
  intros HN Hp Hj Hk. unfold nodeat. destruct (ns !! j) as [[p x]|] eqn:Ej, (ns !! k) as [[q y]|] eqn:Ek.
  - intros <-. apply NoDup_cons in HN as [_ HN]. apply (NoDup_lookup _ j k (p + off) HN); rw list_lookup_fmap ?Ej ?Ek; done.
  - intros ->. apply (Forall_lookup_1 _ _ _ _ Hp) in Ej. cbn in Ej. unfold NULL in Ej. lia.
  - intros <-. apply (Forall_lookup_1 _ _ _ _ Hp) in Ek. cbn in Ek. unfold NULL in Ek. lia.
  - apply lookup_ge_None in Ej, Ek. lia.
Qed.

Lemma cellat_S off c ns k p x : ns !! k = Some (p, x) -> cellat off c ns (S k) = p + off.
Proof.
  intros Hk. pose proof (lookup_lt_Some _ _ _ Hk) as Hl. pose proof (cellat_cells off c ns (S k) ltac:(lia)) as E.
  unfold cells in E. cbn in E. rw list_lookup_fmap Hk in E. by injection E.
Qed.
End chains.

(** ** Free lists *)

Section pools.
Context `{!memG Σ}.

(** The objects of [size] bytes of a free list are linked by their first word. *)
Definition rest_of (size : Z) (p : Z) (_ : unit) : iProp Σ := raw (p + 8) (size - 8).
Definition pool (pf size : Z) : iProp Σ := ∃ fs, chain 0 (rest_of size) pf fs.

Lemma raw_head a n : 8 <= n -> raw a n ⊣⊢ (∃ v, a ↦ v) ∗ raw (a + 8) (n - 8).
Proof.
  intros Hn. unfold raw, words. replace (n / 8) with (1 + (n - 8) / 8) by dlia. rewrite -> seqZ_app by dlia.
  rw fmap_app big_sepL_app !big_sepL_fmap. f_equiv.
  - rw big_sepL_singleton. by replace (a + 8 * (0%nat + 0)) with a by lia.
  - apply big_sepL_proper. intros k y _. by replace (a + 8 * (y + (0 + 1))) with (a + 8 + 8 * (y + 0)) by lia.
Qed.

Lemma raw_app a n m : 0 <= n -> 0 <= m -> (8 | n) -> raw a (n + m) ⊣⊢ raw a n ∗ raw (a + n) m.
Proof.
  intros Hn Hm [k ->]. unfold raw, words. replace ((k * 8 + m) / 8) with (k + m / 8) by dlia.
  rewrite -> seqZ_app by dlia. rw fmap_app big_sepL_app !big_sepL_fmap Z.div_mul; [|done]. f_equiv.
  apply big_sepL_proper. intros j y _. by replace (a + 8 * (y + (0 + k))) with (a + k * 8 + 8 * (y + 0)) by lia.
Qed.

(** The loop that links the objects of a new chunk. *)
Lemma link_objects size : 8 <= size -> (8 | size) -> forall (m n : nat) a Q,
  (m < n)%nat -> 0 < a -> raw a ((Z.of_nat m + 1) * size) -∗
  (∀ fs, seg 0 (rest_of size) a fs -∗ ⌜endc 0 a fs = (a + Z.of_nat m * size)%Z⌝ -∗ raw (a + 8) (size - 8) -∗
     (∃ v, endc 0 a fs ↦ v) -∗ Q tt) -∗
  W (hloop n (fun px => if px <? a + Z.of_nat m * size then _ ← store px (px + size); px ← load px; hret (inl px)
                        else hret (inr tt)) a) Q.
Proof.
  intros Hs Hd. induction m as [|m IH]; intros n a Q Hn Ha; (destruct n as [|n]; [lia|]); iIntros "Hb HQ".
  - iApply W_loop. rewrite -> (proj2 (Z.ltb_ge a (a + Z.of_nat 0 * size))) by lia. w_ret.
    replace ((Z.of_nat 0 + 1) * size) with size by lia. iDestruct (raw_head with "Hb") as "[Ha Hb]"; [done|].
    iApply ("HQ" $! [] with "[//] [%] Hb Ha"). cbn. lia.
  - iApply W_loop. rewrite -> (proj2 (Z.ltb_lt a (a + Z.of_nat (S m) * size))) by nia.
    replace ((Z.of_nat (S m) + 1) * size) with (size + (Z.of_nat m + 1) * size) by lia.
    iDestruct (raw_app with "Hb") as "[Ho Hb]"; [lia|nia|done|]. iDestruct (raw_head with "Ho") as "[[%v Ha] Ho]"; [done|].
    w_store. iIntros "Ha". w_load. iIntros "Ha". w_ret.
    replace (a + Z.of_nat (S m) * size) with (a + size + Z.of_nat m * size) by lia.
    iApply (IH with "Hb"); [lia|lia|]. iIntros (fs) "Hseg %E Hr Hend".
    iApply ("HQ" $! ((a + size, tt) :: fs) with "[Ha Hseg Hr] [%] Ho [Hend]"); cbn [seg endc]; rw ?Z.add_0_r; [|done|done].
    iFrame. iPureIntro. lia.
Qed.

Lemma W_lock a Q : a ↦ 0 -∗ (a ↦ 1 -∗ Q tt) -∗ W (mutex_lock a) Q.
Proof. iIntros "Ha HQ". unfold mutex_lock. w_load. iIntros "Ha". w_assert; [done|]. w_store. by iApply "HQ". Qed.

Lemma W_unlock a Q : a ↦ 1 -∗ (a ↦ 0 -∗ Q tt) -∗ W (mutex_unlock a) Q.
Proof. iIntros "Ha HQ". unfold mutex_unlock. w_load. iIntros "Ha". w_assert; [done|]. w_store. by iApply "HQ". Qed.

Lemma W_alloc_aux size pf Q : 8 <= size -> (8 | size) -> 0 < pf ->
  pool pf size -∗ list_free_lock ↦ 0 -∗
  (∀ p, ⌜0 < p⌝ -∗ raw p size -∗ pool pf size -∗ list_free_lock ↦ 0 -∗ Q p) -∗
  W (list_alloc_aux size pf) Q.
Proof.
  iIntros (Hs Hd Hpf) "[%fs Hp] Hl HQ". unfold list_alloc_aux.
  w_assert; [lia|]. w_assert; [unfold NULL; lia|]. w_bind. iApply (W_lock with "Hl"). iIntros "Hl".
  iDestruct (chain_head with "Hp") as "[Hpf Hp]". w_load. iIntros "Hpf". iDestruct ("Hp" with "Hpf") as "Hp".
  iAssert (∀ (Q' : unit -> iProp Σ), (∀ p fs', chain 0 (rest_of size) pf ((p, tt) :: fs') -∗ Q' tt) -∗
    W (if nodeat fs 0 =? NULL then
         b ← xmalloc (LIST_ALLOC * size); _ ← store pf b;
         if b =? NULL then hret tt else
         _ ← hloop (Z.to_nat LIST_ALLOC) (fun px =>
               if px <? b + (LIST_ALLOC - 1) * size then _ ← store px (px + size); px ← load px; hret (inl px)
               else hret (inr tt)) b;
         store (b + (LIST_ALLOC - 1) * size) NULL
       else hret tt) Q')%I with "[Hp]" as "Hrefill".
  { iIntros (Q') "HQ'". destruct fs as [|[p []] fs]; cbn [nodeat lookup list_lookup].
    - rw chain_nil Z.eqb_refl. w_bind. iApply W_xmalloc; [unfold LIST_ALLOC; lia|]. iIntros (b Hb) "Hb".
      w_store. iIntros "Hp". rewrite -> (proj2 (Z.eqb_neq b NULL)) by (unfold NULL; lia). w_bind.
      change (LIST_ALLOC - 1) with (Z.of_nat 127). change (LIST_ALLOC * size) with ((Z.of_nat 127 + 1) * size).
      iApply (link_objects with "Hb"); [done|done|unfold LIST_ALLOC; lia|done|].
      iIntros (fs) "Hseg %E Ho [%v Hend]". rw -E. w_store. iIntros "Hend". iApply ("HQ'" $! b fs). rw chain_cons Z.add_0_r.
      unfold chain. by iFrame.
    - iDestruct (chain_pos with "Hp") as %Hpos. apply Forall_cons in Hpos as [Hp _]. cbn in Hp.
      rewrite -> (proj2 (Z.eqb_neq p NULL)) by (unfold NULL; lia). w_ret. by iApply "HQ'". }
  w_bind. iApply "Hrefill". clear fs. iIntros (p fs) "Hp". rw chain_cons Z.add_0_r. iDestruct "Hp" as "(Hpf & %Hp & Ho & Hc)".
  w_load. iIntros "Hpf". rewrite -> (proj2 (Z.eqb_neq p NULL)) by (unfold NULL; lia).
  iDestruct (chain_head with "Hc") as "[Hp Hc]". w_bind. w_load. iIntros "Hp". iDestruct ("Hc" with "Hp") as "Hc".
  w_store. iIntros "Hpf". w_bind. iApply (W_unlock with "Hl"). iIntros "Hl". w_ret.
  iDestruct (chain_move with "Hc Hpf") as "[Hc Hp]". iApply ("HQ" with "[//] [Hp Ho] [Hc] Hl"); [|by iExists fs].
  iApply raw_head; [done|]. iFrame "Ho". by iExists _.
Qed.

Lemma W_free_aux x size pf Q : 8 <= size -> 0 < pf -> 0 < x ->
  raw x size -∗ pool pf size -∗ list_free_lock ↦ 0 -∗ (pool pf size -∗ list_free_lock ↦ 0 -∗ Q tt) -∗
  W (list_free_aux x pf) Q.
Proof.
  iIntros (Hs Hpf Hx) "Hx [%fs Hp] Hl HQ". unfold list_free_aux. rw raw_head; [|done]. iDestruct "Hx" as "[[%v Hx] Ho]".
  w_assert; [unfold NULL; lia|]. w_assert; [unfold NULL; lia|]. w_bind. iApply (W_lock with "Hl"). iIntros "Hl".
  iDestruct (chain_head with "Hp") as "[Hpf Hp]". w_load. iIntros "Hpf". iDestruct ("Hp" with "Hpf") as "Hp".
  w_store. iIntros "Hx". iDestruct (chain_move with "Hp Hx") as "[Hp Hpf]". w_store. iIntros "Hpf".
  iApply (W_unlock with "Hl"). iIntros "Hl". iApply ("HQ" with "[Hp Hpf Ho] Hl"). iExists ((x, tt) :: fs). rw chain_cons Z.add_0_r.
  by iFrame.
Qed.

(** The allocator: the three free lists and their lock. *)
Definition pools : iProp Σ :=
  list_free_lock ↦ 0 ∗ pool list_free_lists sizeof_list ∗ pool list_free_nodes sizeof_listNode ∗
  pool list_free_iterators sizeof_listIterator.

Lemma div8 n : (n `mod` 8 =? 0) = true -> (8 | n).
Proof. intros H. apply Z.mod_divide; lia. Qed.

Lemma W_list_alloc Q : pools -∗ (∀ l, ⌜0 < l⌝ -∗ raw l sizeof_list -∗ pools -∗ Q l) -∗ W list_alloc Q.
Proof.
  iIntros "(Hl & H1 & H2 & H3) HQ". iApply (W_alloc_aux with "H1 Hl"); [done|by apply div8|done|]. iIntros (p Hp) "Hp H1 Hl".
  iApply ("HQ" with "[//] Hp"). by iFrame.
Qed.
Lemma W_list_free l Q : 0 < l -> raw l sizeof_list -∗ pools -∗ (pools -∗ Q tt) -∗ W (list_free l) Q.
Proof.
  iIntros (Hp) "Hp (Hl & H1 & H2 & H3) HQ". iApply (W_free_aux with "Hp H1 Hl"); [done..|]. iIntros "H1 Hl".
  iApply "HQ". by iFrame.
Qed.
Lemma W_node_alloc Q : pools -∗ (∀ p, ⌜0 < p⌝ -∗ raw p sizeof_listNode -∗ pools -∗ Q p) -∗ W list_node_alloc Q.
Proof.
  iIntros "(Hl & H1 & H2 & H3) HQ". iApply (W_alloc_aux with "H2 Hl"); [done|by apply div8|done|]. iIntros (p Hp) "Hp H2 Hl".
  iApply ("HQ" with "[//] Hp"). by iFrame.
Qed.
Lemma W_node_free p Q : 0 < p -> raw p sizeof_listNode -∗ pools -∗ (pools -∗ Q tt) -∗ W (list_node_free p) Q.
Proof.
  iIntros (Hp) "Hp (Hl & H1 & H2 & H3) HQ". iApply (W_free_aux with "Hp H2 Hl"); [done..|]. iIntros "H2 Hl".
  iApply "HQ". by iFrame.
Qed.
Lemma W_iterator_alloc Q :
  pools -∗ (∀ i, ⌜0 < i⌝ -∗ raw i sizeof_listIterator -∗ pools -∗ Q i) -∗ W list_iterator_alloc Q.
Proof.
  iIntros "(Hl & H1 & H2 & H3) HQ". iApply (W_alloc_aux with "H3 Hl"); [done|by apply div8|done|]. iIntros (p Hp) "Hp H3 Hl".
  iApply ("HQ" with "[//] Hp"). by iFrame.
Qed.
Lemma W_iterator_free i Q : 0 < i -> raw i sizeof_listIterator -∗ pools -∗ (pools -∗ Q tt) -∗ W (list_iterator_free i) Q.
Proof.
  iIntros (Hp) "Hp (Hl & H1 & H2 & H3) HQ". iApply (W_free_aux with "Hp H3 Hl"); [done..|]. iIntros "H3 Hl".
  iApply "HQ". by iFrame.
Qed.
End pools.

(** ** Lists and their iterators *)

(** The place of an iterator: the position of the next item, and whether the
    item before it is the current one, so that [list_remove] removes it. *)
Abbreviation mark := (nat * bool)%type.
Definition mark_cell (st : mark) : nat := st.1 - Nat.b2n st.2.
Definition mark_ok (n : nat) (st : mark) : Prop := (st.1 <= n)%nat /\ (st.2 = true -> (1 <= st.1)%nat).

(** What happens to marks when an item is put at, or taken from, position [j]. *)
Definition mark_insert (j : nat) (st : mark) : mark := (if (j <=? mark_cell st)%nat then S st.1 else st.1, st.2).
Definition mark_remove (j : nat) (st : mark) : mark :=
  if (st.1 =? j)%nat || ((st.1 =? S j)%nat && st.2) then (j, false)
  else if (j <? st.1)%nat then (pred st.1, st.2) else st.

Definition remark {A : Type} (g : A -> A) (its : list (Z * A)) : list (Z * A) := prod_map id g <$> its.

Section arith.
Context {A : Type}.
Implicit Types ns : list (Z * A).

Definition ins (j : nat) (n : Z * A) ns : list (Z * A) := take j ns ++ n :: drop j ns.
Definition del (j : nat) ns : list (Z * A) := take j ns ++ drop (S j) ns.

Lemma nodeat_ins j n ns k : (j <= length ns)%nat ->
  nodeat (ins j n ns) k = if (k <? j)%nat then nodeat ns k else if (k =? j)%nat then n.1 else nodeat ns (pred k).
Proof.
  intros Hj. unfold nodeat, ins. destruct (Nat.ltb_spec k j); [|destruct (Nat.eqb_spec k j) as [->|Hne]].
  - rewrite -> lookup_app_l by (rw length_take; lia). by rewrite -> lookup_take_lt by lia.
  - rewrite -> list_lookup_middle by (rw length_take; lia). by destruct n.
  - rewrite -> lookup_app_r by (rw length_take; lia). rw length_take_le; [|done].
    destruct (k - j)%nat as [|m] eqn:E; [lia|]. cbn [lookup list_lookup]. rw lookup_drop. by replace (j + m)%nat with (pred k) by lia.
Qed.

Lemma nodeat_del j ns k : (j < length ns)%nat -> nodeat (del j ns) k = if (k <? j)%nat then nodeat ns k else nodeat ns (S k).
Proof.
  intros Hj. unfold nodeat, del. destruct (Nat.ltb_spec k j).
  - rewrite -> lookup_app_l by (rw length_take; lia). by rewrite -> lookup_take_lt by lia.
  - rewrite -> lookup_app_r by (rw length_take; lia). rewrite -> length_take_le by lia. rw lookup_drop.
    by replace (S j + (k - j))%nat with (S k) by lia.
Qed.

Lemma cellat_node off c ns k : (k < length ns)%nat -> cellat off c ns (S k) = nodeat ns k + off.
Proof.
  intros Hk. destruct (lookup_lt_is_Some_2 ns k Hk) as [[p x] E]. unfold nodeat. rw E. by apply cellat_S with x.
Qed.

Lemma length_ins j n ns : length (ins j n ns) = S (length ns).
Proof. unfold ins. rw length_app /= length_take length_drop. lia. Qed.
Lemma length_del j ns : (j < length ns)%nat -> length (del j ns) = pred (length ns).
Proof. intros Hj. unfold del. rw length_app length_take length_drop. lia. Qed.

Lemma cellat_ins off c j n ns k : (j <= length ns)%nat -> (k <= S (length ns))%nat ->
  cellat off c (ins j n ns) k =
    if (k <=? j)%nat then cellat off c ns k else if (k =? S j)%nat then n.1 + off else cellat off c ns (pred k).
Proof.
  intros Hj Hk. destruct (Nat.leb_spec k j).
  - unfold cellat, ins. rewrite -> take_app_le by (rw length_take; lia). by rewrite -> take_take, Nat.min_l by lia.
  - destruct k as [|k]; [lia|]. rewrite -> cellat_node, nodeat_ins by (rw ?length_ins; lia).
    rewrite -> (proj2 (Nat.ltb_ge k j)) by lia. cbn [Nat.eqb]. destruct (Nat.eqb_spec k j) as [->|Hne]; [done|].
    destruct k as [|k]; [lia|]. cbn [pred]. by rewrite -> cellat_node by lia.
Qed.

Lemma cellat_del off c j ns k : (j < length ns)%nat -> (k < length ns)%nat ->
  cellat off c (del j ns) k = if (k <=? j)%nat then cellat off c ns k else cellat off c ns (S k).
Proof.
  intros Hj Hk. destruct (Nat.leb_spec k j).
  - unfold cellat, del. rewrite -> take_app_le by (rw length_take; lia). by rewrite -> take_take, Nat.min_l by lia.
  - destruct k as [|k]; [lia|]. rewrite -> !cellat_node by (rw ?length_del; lia). rewrite -> nodeat_del by lia.
    by rewrite -> (proj2 (Nat.ltb_ge k j)) by lia.
Qed.
End arith.

Section lists.
Context `{!memG Σ}.
Implicit Types (ns : list (Z * Z)) (its : list (Z * mark)) (st : mark).

Definition datum (p x : Z) : iProp Σ := n_data p ↦ x.
Definition iter_words (l pos prev i : Z) : iProp Σ :=
  i_list i ↦ l ∗ i_magic i ↦ LIST_MAGIC ∗ i_pos i ↦ pos ∗ i_prev i ↦ prev.

(** The iterator [i] over the nodes [ns] of [l]. *)
Definition iter_at (l : Z) (ns : list (Z * Z)) (i : Z) (st : mark) : iProp Σ :=
  iter_words l (nodeat ns st.1) (cellat 8 l ns (mark_cell st)) i ∗ ⌜mark_ok (length ns) st⌝.

Definition nodes (l : Z) (ns : list (Z * Z)) : iProp Σ := chain 8 datum (l_head l) ns.
Definition iters (l : Z) (ns : list (Z * Z)) (its : list (Z * mark)) : iProp Σ := chain 24 (iter_at l ns) (l_iNext l) its.

(** The other fields of a list with [n] items. *)
Definition fields (locked l fd tail : Z) (n : nat) : iProp Σ :=
  l_tail l ↦ tail ∗ l_fDel l ↦ fd ∗ l_count l ↦ Z.of_nat n ∗ l_mutex l ↦ locked ∗ l_magic l ↦ LIST_MAGIC ∗ ⌜0 < l⌝.

Definition items_ok ns : Prop := Forall (fun n => n.2 <> NULL) ns /\ Z.of_nat (length ns) <= i32_max.

(** The list [l] with the nodes [ns] and the iterators [its]. *)
Definition is_list (locked l fd : Z) (ns : list (Z * Z)) (its : list (Z * mark)) : iProp Σ :=
  nodes l ns ∗ iters l ns its ∗ fields locked l fd (endc 8 l ns) (length ns) ∗ ⌜items_ok ns⌝.

Lemma W_check_magic a Q : a ↦ LIST_MAGIC -∗ (a ↦ LIST_MAGIC -∗ Q tt) -∗ W (check_magic a) Q.
Proof. iIntros "Ha HQ". unfold check_magic. w_load. iIntros "Ha". iApply W_assert; [done|]. by iApply "HQ". Qed.

(** Visit all iterators: [P] becomes [P'] for each of them. *)
Lemma W_for_iterators l its (P P' : Z -> mark -> iProp Σ) g R body Q :
  (forall i st, P i st ⊢ i_magic i ↦ LIST_MAGIC ∗ (i_magic i ↦ LIST_MAGIC -∗ P i st)) ->
  (forall i st Q', P i st -∗ R -∗ (P' i (g st) -∗ R -∗ Q' tt) -∗ W (body i) Q') ->
  chain 24 P (l_iNext l) its -∗ R -∗ (chain 24 P' (l_iNext l) (remark g its) -∗ R -∗ Q tt) -∗ W (for_iterators l body) Q.
Proof.
  intros Hm Hb. iIntros "Hc HR HQ". unfold for_iterators. w_bind. iApply (W_fuel _ _ _ (chain_owns _ _ _ _) with "Hc").
  iIntros (n Hn) "Hc". cbn [length cells] in Hn. rw length_fmap in Hn.
  iDestruct (chain_head with "Hc") as "[Hi Hc]". w_load. iIntros "Hi". iDestruct ("Hc" with "Hi") as "Hc".
  set (c := l_iNext l). clearbody c. iInduction its as [|[i st] its] "IH" forall (c n Hn Q); (destruct n as [|n]; [cbn in Hn; lia|]).
  - iApply W_loop. w_ret. iApply ("HQ" with "Hc HR").
  - rw chain_cons. iDestruct "Hc" as "(Hi & %Hp & HP & Hc)". iApply W_loop. cbn [nodeat lookup list_lookup].
    rewrite -> (proj2 (Z.eqb_neq i NULL)) by (unfold NULL; lia).
    iDestruct (Hm with "HP") as "[Hmg HP]". w_bind. iApply (W_check_magic with "Hmg"). iIntros "Hmg".
    iDestruct ("HP" with "Hmg") as "HP". w_bind. iApply (Hb with "HP HR"). iIntros "HP HR".
    iDestruct (chain_head with "Hc") as "[Hn Hc]". w_load. iIntros "Hn". iDestruct ("Hc" with "Hn") as "Hc". w_ret.
    iApply ("IH" with "[%] HR [HQ Hi HP] Hc"); [cbn in Hn; lia|]. iIntros "Hc HR". iApply ("HQ" with "[Hi HP Hc] HR").
    cbn [remark fmap list_fmap prod_map]. rw chain_cons. by iFrame.
Qed.

(** The assertion on iterators holds. *)
Lemma W_check_iterator l ns i st Q : iter_at l ns i st -∗ nodes l ns -∗ (iter_at l ns i st -∗ nodes l ns -∗ Q tt) -∗
  W (check_iterator i) Q.
Proof.
  iIntros "[(Hl & Hm & Hpos & Hprev) %Hok] Hns HQ". unfold check_iterator. w_load. iIntros "Hpos". w_load. iIntros "Hprev".
  iDestruct (chain_read with "Hns") as "[Hc Hns]". w_load. iIntros "Hc". iDestruct ("Hns" with "Hc") as "Hns".
  destruct (Z.eqb_spec (nodeat ns st.1) (nodeat ns (mark_cell st))) as [E|Hne].
  { w_ret. iApply ("HQ" with "[Hl Hm Hpos Hprev] Hns"). by iFrame. }
  destruct st as [k [|]]; unfold mark_cell in *; cbn in *; [|by rw Nat.sub_0_r in Hne].
  destruct Hok as [Hk Hk1]. specialize (Hk1 eq_refl). cbn in *.
  destruct (lookup_lt_is_Some_2 ns (k - 1)) as [[p x] E]; [lia|].
  iDestruct (chain_pos with "Hns") as %Hpos. pose proof (Forall_lookup_1 _ _ _ _ Hpos E) as Hp. cbn in Hp.
  assert (Hnp : nodeat ns (k - 1) = p) by (unfold nodeat; by rw E). rw Hnp. w_assert; [unfold NULL; lia|].
  pose proof (cellat_S 8 (l_head l) ns (k - 1) p x E) as Hcell. replace (S (k - 1)) with k in Hcell by lia.
  iDestruct (chain_read _ _ _ _ k with "Hns") as "[Hc Hns]". rw Hcell. w_load. iIntros "Hc". iDestruct ("Hns" with "Hc") as "Hns".
  iApply W_assert; [by rw Z.eqb_refl|]. iApply ("HQ" with "[Hl Hm Hpos Hprev] Hns"). iFrame. by iPureIntro.
Qed.

Lemma endc_cellat {A} off c (ns : list (Z * A)) : endc off c ns = cellat off c ns (length ns).
Proof. unfold cellat. by rw firstn_all. Qed.

Lemma nodeat_null (ns : list (Z * Z)) k : Forall (fun n => 0 < n.1) ns -> (k <= length ns)%nat -> nodeat ns k = NULL <-> k = length ns.
Proof.
  intros Hp Hk. unfold nodeat. destruct (ns !! k) as [[p x]|] eqn:E.
  - pose proof (Forall_lookup_1 _ _ _ _ Hp E) as H. apply lookup_lt_Some in E. cbn in H. unfold NULL. split; lia.
  - apply lookup_ge_None in E. split; [lia|done].
Qed.

Lemma iter_magic l ns i st : iter_at l ns i st ⊢ i_magic i ↦ LIST_MAGIC ∗ (i_magic i ↦ LIST_MAGIC -∗ iter_at l ns i st).
Proof. iIntros "[(Hl & $ & Hpos & Hprev) %Hok] Hm". by iFrame. Qed.

(** The iterator's fields after an insertion are those of its new mark. *)
Lemma mark_insert_ok l ns j p x st : NoDup (cells 8 l ns) -> Forall (fun n => 0 < n.1) ns -> (j <= length ns)%nat ->
  mark_ok (length ns) st ->
  let pos := nodeat ns st.1 in let prev := cellat 8 l ns (mark_cell st) in
  mark_ok (S (length ns)) (mark_insert j st) /\
  nodeat (ins j (p, x) ns) (mark_insert j st).1 =
    (if prev =? cellat 8 l ns j then pos else if pos =? nodeat ns j then p else pos) /\
  cellat 8 l (ins j (p, x) ns) (mark_cell (mark_insert j st)) = (if prev =? cellat 8 l ns j then p + 8 else prev).
Proof.
  intros HN Hp Hj [Hk Hk1] pos prev. destruct st as [k cur]. unfold mark_insert, mark_cell in *. cbn [fst snd] in *.
  assert (Hb : (Nat.b2n cur <= k)%nat) by (destruct cur; cbn; lia). assert (Hb1 : (Nat.b2n cur <= 1)%nat) by (by destruct cur; cbn; lia).
  subst prev pos. remember (k - Nat.b2n cur)%nat as c eqn:Hc. set (pos := nodeat ns k). set (prev := cellat 8 l ns c).
  destruct (Z.eqb_spec prev (cellat 8 l ns j)) as [E|Hne].
  { apply (cellat_inj 8 l) in E; [|done|lia|done]. rewrite -> (proj2 (Nat.leb_le j c)) by lia.
    rewrite -> nodeat_ins, cellat_ins by lia. cbn [fst snd]. split_and!.
    - split; cbn; [lia|]. intros ->; cbn in *; lia.
    - rewrite -> (proj2 (Nat.ltb_ge _ _)), (proj2 (Nat.eqb_neq _ _)) by lia. done.
    - replace (S k - Nat.b2n cur)%nat with (S j) by lia.
      by rewrite -> (proj2 (Nat.leb_gt _ _)), Nat.eqb_refl by lia. }
  assert (Hcj : c <> j) by (intros E; apply Hne; unfold prev; by rw E).
  rewrite -> nodeat_ins, cellat_ins by (lia || (destruct (j <=? c)%nat; lia)). cbn [fst snd].
  destruct (Nat.leb_spec j c) as [Hjc|Hjc].
  - split_and!.
    + split; cbn; [lia|]. intros ->; cbn in *; lia.
    + rewrite -> (proj2 (Nat.ltb_ge _ _)), (proj2 (Nat.eqb_neq _ _)) by lia. cbn [pred].
      destruct (Z.eqb_spec pos (nodeat ns j)) as [E|]; [|done]. apply (nodeat_inj 8 l) in E; [lia|done..].
    + replace (S k - Nat.b2n cur)%nat with (S c) by lia.
      by rewrite -> (proj2 (Nat.leb_gt _ _)), (proj2 (Nat.eqb_neq _ _)) by lia.
  - split_and!.
    + split; cbn; [lia|done].
    + destruct (Nat.ltb_spec k j).
      * destruct (Z.eqb_spec pos (nodeat ns j)) as [E|]; [|done]. apply (nodeat_inj 8 l) in E; [lia|done..].
      * assert (k = j) as -> by lia. by rewrite -> Nat.eqb_refl, Z.eqb_refl.
    + rw -Hc. by rewrite -> (proj2 (Nat.leb_le _ _)) by lia.
Qed.

(** The same for a removal. *)
Lemma mark_remove_ok l ns j p x st : NoDup (cells 8 l ns) -> Forall (fun n => 0 < n.1) ns -> ns !! j = Some (p, x) ->
  mark_ok (length ns) st ->
  let pos := nodeat ns st.1 in let prev := cellat 8 l ns (mark_cell st) in
  mark_ok (pred (length ns)) (mark_remove j st) /\
  nodeat (del j ns) (mark_remove j st).1 = (if pos =? p then nodeat ns (S j) else pos) /\
  cellat 8 l (del j ns) (mark_cell (mark_remove j st)) =
    (if pos =? p then cellat 8 l ns j else if prev =? p + 8 then cellat 8 l ns j else prev).
Proof.
  intros HN Hp Hx [Hk Hk1] pos prev. pose proof (lookup_lt_Some _ _ _ Hx) as Hj.
  assert (Hpj : p = nodeat ns j) by (unfold nodeat; by rw Hx). assert (Hpc : p + 8 = cellat 8 l ns (S j)) by (by rewrite -> cellat_node, Hpj by lia).
  rw Hpc. destruct st as [k cur]. unfold mark_remove, mark_cell in *. cbn [fst snd] in *.
  assert (Hb : (Nat.b2n cur <= k)%nat) by (destruct cur; cbn; lia). assert (Hb1 : (Nat.b2n cur <= 1)%nat) by (by destruct cur; cbn; lia).
  subst prev pos. remember (k - Nat.b2n cur)%nat as c eqn:Hc. set (pos := nodeat ns k). set (prev := cellat 8 l ns c).
  assert (HP : (pos =? p) = (k =? j)%nat).
  { rw Hpj. destruct (Nat.eqb_spec k j) as [->|Hne]; [by rw Z.eqb_refl|]. apply Z.eqb_neq. intros E.
    apply (nodeat_inj 8 l) in E; [done|done|done|done|lia]. }
  assert (HC : (prev =? cellat 8 l ns (S j)) = (c =? S j)%nat).
  { destruct (Nat.eqb_spec c (S j)) as [->|Hne]; [by rw Z.eqb_refl|]. apply Z.eqb_neq. intros E.
    apply (cellat_inj 8 l) in E; [done|done|lia|lia]. }
  rw HP HC. destruct (Nat.eqb_spec k j) as [->|Hkj]; cbn [orb].
  { cbn [fst snd Nat.b2n]. rw Nat.sub_0_r. rewrite -> nodeat_del, cellat_del by lia.
    rewrite -> (proj2 (Nat.ltb_ge _ _)), (proj2 (Nat.leb_le _ _)) by lia. split_and!; [|done..]. split; cbn; lia || done. }
  destruct (Nat.eqb_spec k (S j)) as [->|Hk2]; [destruct cur|]; cbn [andb fst snd].
  - cbn in Hc. rw Nat.sub_0_r. rewrite -> nodeat_del, cellat_del, (proj2 (Nat.eqb_neq c (S j))) by lia.
    rewrite -> (proj2 (Nat.ltb_ge _ _)), (proj2 (Nat.leb_le _ _)) by lia. split_and!; [split; cbn; lia || done|done|].
    unfold prev. by replace c with j by lia.
  - cbn in Hc. rewrite -> (proj2 (Nat.ltb_lt j (S j))) by lia. cbn [fst snd Nat.b2n pred]. rw Nat.sub_0_r.
    rewrite -> nodeat_del, cellat_del, (proj2 (Nat.eqb_eq c (S j))) by lia.
    rewrite -> (proj2 (Nat.ltb_ge _ _)), (proj2 (Nat.leb_le _ _)) by lia. split_and!; [split; cbn; lia || done|done|done].
  - destruct (Nat.ltb_spec j k) as [Hjk|Hjk]; cbn [fst snd].
    + rewrite -> nodeat_del, cellat_del by lia. rewrite -> (proj2 (Nat.ltb_ge _ _)) by lia.
      split_and!; [split; cbn; [lia|]; intros ->; cbn in *; lia|by replace (S (pred k)) with k by lia|].
      destruct (Nat.eqb_spec c (S j)) as [E|Hne].
      * rewrite -> (proj2 (Nat.leb_le _ _)) by lia. by replace (pred k - Nat.b2n cur)%nat with j by lia.
      * rewrite -> (proj2 (Nat.leb_gt _ _)) by lia. unfold prev. by replace (S (pred k - Nat.b2n cur)) with c by lia.
    + rewrite -> nodeat_del, cellat_del by lia.
      rewrite -> (proj2 (Nat.ltb_lt _ _)), (proj2 (Nat.leb_le _ _)), (proj2 (Nat.eqb_neq c (S j))) by lia. rw -Hc.
      split_and!; [split; cbn; [lia|done]|done|done].
Qed.

(** ** Nodes *)

Lemma raw_node p : raw p sizeof_listNode ⊣⊢ (∃ v, n_data p ↦ v) ∗ (∃ v, n_next p ↦ v).
Proof.
  unfold sizeof_listNode. rw raw_head; [|done]. rw raw_head; [|done].
  assert (E : raw (p + 8 + 8) (16 - 8 - 8) ⊣⊢ emp) by done. by rw E right_id.
Qed.

Lemma cellat_pos l ns j : 0 < l -> Forall (fun n => 0 < n.1) ns -> (j <= length ns)%nat -> 0 < cellat 8 l ns j.
Proof.
  intros Hl Hpos Hj. destruct j as [|j]; [done|]. destruct (lookup_lt_is_Some_2 ns j) as [[p y] E]; [lia|].
  rewrite -> (cellat_S 8 l ns j p y E). pose proof (Forall_lookup_1 _ _ _ _ Hpos E). cbn in *. lia.
Qed.

Lemma endc_ins l j p x ns : (j <= length ns)%nat -> Forall (fun n => 0 < n.1) ns ->
  endc 8 l (ins j (p, x) ns) = if nodeat ns j =? NULL then n_next p else endc 8 l ns.
Proof.
  intros Hj Hpos. rw !endc_cellat length_ins. rewrite -> cellat_ins, (proj2 (Nat.leb_gt _ _)) by lia. cbn [Nat.eqb pred fst].
  destruct (Z.eqb_spec (nodeat ns j) NULL) as [E|Hne].
  - apply nodeat_null in E; [|done|done]. by rw E Nat.eqb_refl.
  - rewrite -> (proj2 (Nat.eqb_neq _ _)); [done|]. intros E. apply Hne. by apply nodeat_null.
Qed.

Lemma W_insert_iterators l j p x ns its Q : (j <= length ns)%nat -> NoDup (cells 8 l ns) -> Forall (fun n => 0 < n.1) ns ->
  iters l ns its -∗ nodes l (ins j (p, x) ns) -∗
  (iters l (ins j (p, x) ns) (remark (mark_insert j) its) -∗ nodes l (ins j (p, x) ns) -∗ Q tt) -∗
  W (for_iterators l (fun i =>
        prev ← load (i_prev i);
        _ ← (if prev =? cellat 8 l ns j then store (i_prev i) (n_next p)
             else
               pos ← load (i_pos i);
               nx ← load (n_next p);
               if pos =? nx then store (i_pos i) p else hret tt);
        check_iterator i)) Q.
Proof.
  intros Hj HN Hp. apply W_for_iterators; [apply iter_magic|]. clear its Q. intros i st Q.
  iIntros "[(Hl & Hm & Hpos & Hprev) %Hok] Hns HQ".
  destruct (mark_insert_ok l ns j p x st HN Hp Hj Hok) as (Hok' & Epos & Eprev).
  w_load. iIntros "Hprev". w_bind. destruct (Z.eqb_spec (cellat 8 l ns (mark_cell st)) (cellat 8 l ns j)) as [E|Hne].
  { w_store. iIntros "Hprev". iApply (W_check_iterator l (ins j (p, x) ns) i (mark_insert j st) with "[-Hns HQ] Hns HQ").
    unfold iter_at. rw Epos Eprev length_ins. by iFrame. }
  w_load. iIntros "Hpos".
  assert (En : nodeat (ins j (p, x) ns) (S j) = nodeat ns j).
  { rewrite -> nodeat_ins, (proj2 (Nat.ltb_ge _ _)), (proj2 (Nat.eqb_neq _ _)) by lia. done. }
  assert (Ec : cellat 8 (l_head l) (ins j (p, x) ns) (S j) = n_next p).
  { apply cellat_S with x. unfold ins. apply list_lookup_middle. rewrite -> length_take_le by done. done. }
  iDestruct (chain_read _ _ _ _ (S j) with "Hns") as "[Hc Hns]". rw En Ec. w_load. iIntros "Hc".
  iDestruct ("Hns" with "Hc") as "Hns". destruct (Z.eqb_spec (nodeat ns st.1) (nodeat ns j)) as [E|Hne'].
  - w_store. iIntros "Hpos". iApply (W_check_iterator l (ins j (p, x) ns) i (mark_insert j st) with "[-Hns HQ] Hns HQ").
    unfold iter_at. rw Epos Eprev length_ins. by iFrame.
  - w_ret. iApply (W_check_iterator l (ins j (p, x) ns) i (mark_insert j st) with "[-Hns HQ] Hns HQ").
    unfold iter_at. rw Epos Eprev length_ins. by iFrame.
Qed.

Lemma W_node_create l j x fd ns its Q : (j <= length ns)%nat -> x <> NULL -> Z.of_nat (length ns) < i32_max ->
  is_list 1 l fd ns its -∗ pools -∗
  (∀ p, is_list 1 l fd (ins j (p, x) ns) (remark (mark_insert j) its) -∗ pools -∗ Q x) -∗
  W (list_node_create l (cellat 8 l ns j) x) Q.
Proof.
  iIntros (Hj Hx Hmax) "(Hns & Hits & (Htail & Hfd & Hcnt & Hmx & Hmg & %Hl) & %Hnn & %Hlen) Hpl HQ". unfold list_node_create.
  iDestruct (chain_distinct with "Hns") as %HN. iDestruct (chain_pos with "Hns") as %Hpos. unfold l_head in HN.
  w_assert; [unfold NULL; lia|]. w_bind. iApply (W_check_magic with "Hmg"). iIntros "Hmg".
  w_bind. unfold _list_mutex_is_locked. w_load. iIntros "Hmx". w_ret. w_assert; [done|].
  w_assert; [pose proof (cellat_pos l ns j Hl Hpos Hj); unfold NULL; lia|]. w_assert; [unfold NULL in *; lia|].
  w_bind. iApply (W_node_alloc with "Hpl"). iIntros (p Hp) "Hp Hpl". rw raw_node. iDestruct "Hp" as "[[%v1 Hd] [%v2 Hn]]".
  w_store. iIntros "Hd". rw /nodes /l_head (chain_split 8 datum l ns j). iDestruct "Hns" as "[Hseg Hc]".
  iDestruct (chain_head with "Hc") as "[Hcell Hc]". w_load. iIntros "Hcell". iDestruct ("Hc" with "Hcell") as "Hc".
  rw nodeat_drop Nat.add_0_r. w_store. iIntros "Hn".
  rw -(Nat.add_0_r j) -(nodeat_drop ns j 0) Nat.add_0_r. iDestruct (chain_move with "Hc Hn") as "[Hc Hcell]".
  rw nodeat_drop Nat.add_0_r. w_bind.
  iAssert (∀ Q' : unit -> iProp Σ, (l_tail l ↦ endc 8 l (ins j (p, x) ns) -∗ Q' tt) -∗
    W (if nodeat ns j =? NULL then store (l_tail l) (n_next p) else hret tt) Q')%I with "[Htail]" as "Hset".
  { iIntros (Q') "HQ'". rewrite -> (endc_ins l j p x ns Hj Hpos). destruct (nodeat ns j =? NULL).
    - w_store. iIntros "Ht". by iApply "HQ'".
    - w_ret. by iApply "HQ'". }
  iApply "Hset". iIntros "Htail". w_store. iIntros "Hcell". w_load. iIntros "Hcnt". w_bind.
  iApply W_lift; [apply i32_ok; unfold i32_min, i32_max in *; lia|]. w_store. iIntros "Hcnt".
  w_bind. iApply (W_insert_iterators with "Hits [Hseg Hc Hcell Hd]"); [done|done|done| |].
  { unfold nodes, ins. rw chain_app chain_cons. iFrame "Hseg". rw /l_head. iFrame. done. }
  iIntros "Hits Hns". w_ret. iApply ("HQ" with "[-Hpl] Hpl"). iFrame "Hns Hits". rw length_ins. iSplit.
  - iFrame. rw Nat2Z.inj_succ. by iFrame.
  - iPureIntro. split; [|rw length_ins; lia]. unfold ins. apply Forall_app. split; [by apply Forall_take|]. constructor; [done|].
    by apply Forall_drop.
Qed.

Lemma endc_del l j p x ns : ns !! j = Some (p, x) -> Forall (fun n => 0 < n.1) ns ->
  endc 8 l (del j ns) = if nodeat ns (S j) =? NULL then cellat 8 l ns j else endc 8 l ns.
Proof.
  intros Hx Hpos. pose proof (lookup_lt_Some _ _ _ Hx) as Hj. rw !endc_cellat. rewrite -> length_del, cellat_del by lia.
  destruct (Z.eqb_spec (nodeat ns (S j)) NULL) as [E|Hne].
  - apply nodeat_null in E; [|done|lia]. rewrite -> (proj2 (Nat.leb_le _ _)) by lia. by replace (pred (length ns)) with j by lia.
  - assert (S j <> length ns) by (intros E; apply Hne; apply nodeat_null; [done|lia|done]).
    rewrite -> (proj2 (Nat.leb_gt _ _)) by lia. by replace (S (pred (length ns))) with (length ns) by lia.
Qed.

Lemma W_remove_iterators l j p x ns its Q : ns !! j = Some (p, x) -> NoDup (cells 8 l ns) -> Forall (fun n => 0 < n.1) ns ->
  iters l ns its -∗ (nodes l (del j ns) ∗ n_next p ↦ nodeat ns (S j)) -∗
  (iters l (del j ns) (remark (mark_remove j) its) -∗ (nodes l (del j ns) ∗ n_next p ↦ nodeat ns (S j)) -∗ Q tt) -∗
  W (for_iterators l (fun i =>
        pos ← load (i_pos i);
        _ ← (if pos =? p then
               nx ← load (n_next p);
               _ ← store (i_pos i) nx;
               store (i_prev i) (cellat 8 l ns j)
             else
               prev ← load (i_prev i);
               if prev =? n_next p then store (i_prev i) (cellat 8 l ns j) else hret tt);
        check_iterator i)) Q.
Proof.
  intros Hx HN Hp. apply W_for_iterators; [apply iter_magic|]. clear its Q. intros i st Q.
  iIntros "[(Hl & Hm & Hpos & Hprev) %Hok] [Hns Hn] HQ". pose proof (lookup_lt_Some _ _ _ Hx) as Hj.
  destruct (mark_remove_ok l ns j p x st HN Hp Hx Hok) as (Hok' & Epos & Eprev).
  assert (Hdone : iter_words l (if nodeat ns st.1 =? p then nodeat ns (S j) else nodeat ns st.1)
      (if nodeat ns st.1 =? p then cellat 8 l ns j
       else if cellat 8 l ns (mark_cell st) =? p + 8 then cellat 8 l ns j else cellat 8 l ns (mark_cell st)) i -∗
    nodes l (del j ns) -∗ n_next p ↦ nodeat ns (S j) -∗
    (iter_at l (del j ns) i (mark_remove j st) -∗ nodes l (del j ns) ∗ n_next p ↦ nodeat ns (S j) -∗ Q tt) -∗
    W (check_iterator i) Q).
  { iIntros "Hw Hns Hn HQ". iApply (W_check_iterator l (del j ns) i (mark_remove j st) with "[Hw] Hns [HQ Hn]").
    - unfold iter_at. rewrite -> Epos, Eprev, length_del by done. by iFrame.
    - iIntros "Hi Hns". iApply ("HQ" with "Hi"). iFrame. }
  unfold iter_words in Hdone. w_load. iIntros "Hpos". w_bind. destruct (nodeat ns st.1 =? p).
  { w_load. iIntros "Hn". w_store. iIntros "Hpos". w_store. iIntros "Hprev". iApply (Hdone with "[$] Hns Hn HQ"). }
  w_load. iIntros "Hprev". change (p + 8) with (n_next p) in Hdone. destruct (cellat 8 l ns (mark_cell st) =? n_next p).
  - w_store. iIntros "Hprev". iApply (Hdone with "[$] Hns Hn HQ").
  - w_ret. iApply (Hdone with "[$] Hns Hn HQ").
Qed.

Lemma W_node_destroy l j p x fd ns its Q : ns !! j = Some (p, x) ->
  is_list 1 l fd ns its -∗ pools -∗
  (is_list 1 l fd (del j ns) (remark (mark_remove j) its) -∗ pools -∗ Q x) -∗
  W (list_node_destroy l (cellat 8 l ns j)) Q.
Proof.
  iIntros (Hx) "(Hns & Hits & (Htail & Hfd & Hcnt & Hmx & Hmg & %Hl) & %Hnn & %Hlen) Hpl HQ". unfold list_node_destroy.
  pose proof (lookup_lt_Some _ _ _ Hx) as Hj.
  iDestruct (chain_distinct with "Hns") as %HN. iDestruct (chain_pos with "Hns") as %Hpos. unfold l_head in HN.
  w_assert; [unfold NULL; lia|]. w_bind. iApply (W_check_magic with "Hmg"). iIntros "Hmg".
  w_bind. unfold _list_mutex_is_locked. w_load. iIntros "Hmx". w_ret. w_assert; [done|].
  w_assert; [pose proof (cellat_pos l ns j Hl Hpos ltac:(lia)); unfold NULL; lia|].
  rw /nodes /l_head (chain_split 8 datum l ns j) (drop_S _ _ _ Hx) chain_cons.
  iDestruct "Hns" as "(Hseg & Hcell & %Hp & Hd & Hc)". w_load. iIntros "Hcell". rewrite -> (proj2 (Z.eqb_neq p NULL)) by (unfold NULL; lia).
  w_load. iIntros "Hd". iDestruct (chain_head with "Hc") as "[Hn Hc]". rw nodeat_drop Nat.add_0_r.
  w_load. iIntros "Hn". iDestruct ("Hc" with "Hn") as "Hc". w_store. iIntros "Hcell".
  rw -(Nat.add_0_r (S j)) -(nodeat_drop ns (S j) 0) Nat.add_0_r. iDestruct (chain_move with "Hc Hcell") as "[Hc Hn]".
  rw nodeat_drop Nat.add_0_r. w_bind.
  iAssert (∀ Q' : unit -> iProp Σ, (l_tail l ↦ endc 8 l (del j ns) -∗ Q' tt) -∗
    W (if nodeat ns (S j) =? NULL then store (l_tail l) (cellat 8 l ns j) else hret tt) Q')%I with "[Htail]" as "Hset".
  { iIntros (Q') "HQ'". rewrite -> (endc_del l j p x ns Hx Hpos). destruct (nodeat ns (S j) =? NULL).
    - w_store. iIntros "Ht". by iApply "HQ'".
    - w_ret. by iApply "HQ'". }
  iApply "Hset". iIntros "Htail". w_load. iIntros "Hcnt". w_bind.
  iApply W_lift; [apply i32_ok; unfold i32_min, i32_max in *; lia|]. w_store. iIntros "Hcnt".
  w_bind. iApply (W_remove_iterators with "Hits [Hseg Hc Hn]"); [done|done|done| |].
  { iFrame "Hn". unfold nodes, del. rw chain_app. iFrame. }
  iIntros "Hits [Hns Hn]". w_bind. iApply (W_node_free with "[Hd Hn] Hpl"); [done| |].
  { rw raw_node. iSplitL "Hd"; by iExists _. }
  iIntros "Hpl". w_ret. iApply ("HQ" with "[-Hpl] Hpl"). iFrame "Hns Hits". rewrite -> length_del by done. iSplit.
  - iFrame. replace (Z.of_nat (length ns) - 1) with (Z.of_nat (pred (length ns))) by lia. by iFrame.
  - iPureIntro. split; [|rewrite -> length_del by done; lia]. unfold del. apply Forall_app.
    split; [by apply Forall_take|by apply Forall_drop].
Qed.

Lemma W_node_destroy_end l j fd ns its Q : ns !! j = None -> (j <= length ns)%nat ->
  is_list 1 l fd ns its -∗ (is_list 1 l fd ns its -∗ Q NULL) -∗ W (list_node_destroy l (cellat 8 l ns j)) Q.
Proof.
  iIntros (Hx Hj) "(Hns & Hits & (Htail & Hfd & Hcnt & Hmx & Hmg & %Hl) & %Hok) HQ". unfold list_node_destroy.
  iDestruct (chain_pos with "Hns") as %Hpos. w_assert; [unfold NULL; lia|]. w_bind. iApply (W_check_magic with "Hmg"). iIntros "Hmg".
  w_bind. unfold _list_mutex_is_locked. w_load. iIntros "Hmx". w_ret. w_assert; [done|].
  w_assert; [pose proof (cellat_pos l ns j Hl Hpos ltac:(lia)); unfold NULL; lia|].
  iDestruct (chain_read _ _ _ _ j with "Hns") as "[Hc Hns]". assert (E : nodeat ns j = NULL) by (unfold nodeat; by rw Hx). rw E.
  w_load. iIntros "Hc". iDestruct ("Hns" with "Hc") as "Hns". w_ret. iApply "HQ". by iFrame.
Qed.
End lists.
