(* ===== verification/ListsOps.v ===== *)
(** * Generic lists: what the operations do

    One rule per function of list.c, in terms of the items of the list and the
    marks of its iterators. *)

From iris.proofmode Require Import proofmode environments.
From iris.base_logic.lib Require Import gen_heap ghost_var.
From S2P Require Import Prelude Heap Lists HeapLogic ListsLogic.

Local Open Scope Z_scope.

(** The calls of a list's deletion function for the items [xs]. *)
Definition deletions (fd : Z) (xs : list Z) : list (Z * Z) := if fd =? NULL then [] else (fun x => (fd, x)) <$> xs.

Section ops.
Context `{!memG Σ}.
Implicit Types (ns : list (Z * Z)) (its : list (Z * mark)) (st : mark).

(** ** Whole lists *)

Lemma raw_list l : raw l sizeof_list ⊣⊢ (∃ v, l_head l ↦ v) ∗ (∃ v, l_tail l ↦ v) ∗ (∃ v, l_iNext l ↦ v) ∗ (∃ v, l_fDel l ↦ v) ∗
  (∃ v, l_count l ↦ v) ∗ (∃ v, l_mutex l ↦ v) ∗ (∃ v, l_magic l ↦ v).
Proof.
  unfold sizeof_list. do 7 (rw raw_head; [|done]). assert (E : raw (l + 8 + 8 + 8 + 8 + 8 + 8 + 8) (56 - 8 - 8 - 8 - 8 - 8 - 8 - 8) ⊣⊢ emp) by done.
  rw E right_id. rw -!Z.add_assoc. done.
Qed.

Lemma raw_iterator i : raw i sizeof_listIterator ⊣⊢
  (∃ v, i_list i ↦ v) ∗ (∃ v, i_pos i ↦ v) ∗ (∃ v, i_prev i ↦ v) ∗ (∃ v, i_iNext i ↦ v) ∗ (∃ v, i_magic i ↦ v).
Proof.
  unfold sizeof_listIterator. do 5 (rw raw_head; [|done]). assert (E : raw (i + 8 + 8 + 8 + 8 + 8) (40 - 8 - 8 - 8 - 8 - 8) ⊣⊢ emp) by done.
  rw E right_id. rw -!Z.add_assoc. done.
Qed.

Lemma W_list_create f Q : pools -∗ (∀ l, is_list 0 l f [] [] -∗ pools -∗ Q l) -∗ W (list_create f) Q.
Proof.
  iIntros "Hp HQ". unfold list_create. w_bind. iApply (W_list_alloc with "Hp"). iIntros (l Hl) "Hl Hp". rw raw_list.
  iDestruct "Hl" as "([%v1 H1] & [%v2 H2] & [%v3 H3] & [%v4 H4] & [%v5 H5] & [%v6 H6] & [%v7 H7])".
  w_store. iIntros "H1". w_store. iIntros "H2". w_store. iIntros "H3". w_store. iIntros "H4". w_store. iIntros "H5".
  unfold slurm_mutex_init. w_store. iIntros "H6". w_store. iIntros "H7". w_ret. iApply ("HQ" with "[-Hp] Hp").
  unfold is_list, nodes, iters. rw !chain_nil. iFrame. iPureIntro. split; [done|]. split; [constructor|unfold i32_max; cbn; lia].
Qed.

(** Run [body] with the mutex held. *)
Lemma W_locked {A} l fd ns its (body : hx A) Q :
  is_list 0 l fd ns its -∗
  (is_list 1 l fd ns its -∗
     W body (fun r => ∃ ns' its', is_list 1 l fd ns' its' ∗ (is_list 0 l fd ns' its' -∗ Q r))) -∗
  W (locked l body) Q.
Proof.
  iIntros "(Hns & Hits & (Htail & Hfd & Hcnt & Hmx & Hmg & %Hl) & %Hok) Hbody". unfold locked.
  w_assert; [unfold NULL; lia|]. w_bind. iApply (W_lock with "Hmx"). iIntros "Hmx".
  w_bind. iApply (W_check_magic with "Hmg"). iIntros "Hmg". w_bind.
  iApply (W_mono with "[Hbody Hns Hits Htail Hfd Hcnt Hmx Hmg]"). { iApply "Hbody". by iFrame. }
  iIntros (r) "(%ns' & %its' & (Hns & Hits & (Htail & Hfd & Hcnt & Hmx & Hmg & _) & %Hok') & HQ)".
  w_bind. iApply (W_unlock with "Hmx"). iIntros "Hmx". w_ret. iApply "HQ". by iFrame.
Qed.

Lemma W_list_count l fd ns its Q : is_list 0 l fd ns its -∗ (is_list 0 l fd ns its -∗ Q (Z.of_nat (length ns))) -∗ W (list_count l) Q.
Proof.
  iIntros "Hl HQ". iApply (W_locked with "Hl"). iIntros "(Hns & Hits & (Htail & Hfd & Hcnt & Hmx & Hmg & %Hl) & %Hok)".
  w_load. iIntros "Hcnt". iExists ns, its. iSplitR "HQ"; [by iFrame|done].
Qed.

Lemma W_list_is_empty l fd ns its Q : is_list 0 l fd ns its -∗
  (is_list 0 l fd ns its -∗ Q (Z.of_nat (length ns) =? 0)) -∗ W (list_is_empty l) Q.
Proof.
  iIntros "Hl HQ". unfold list_is_empty. w_bind. iApply (W_list_count with "Hl"). iIntros "Hl". w_ret. by iApply "HQ".
Qed.

Lemma W_list_peek l fd ns its Q : is_list 0 l fd ns its -∗ (is_list 0 l fd ns its -∗ Q (default NULL (head ns.*2))) -∗ W (list_peek l) Q.
Proof.
  iIntros "Hl HQ". iApply (W_locked with "Hl"). iIntros "(Hns & Hits & Hf & %Hok)". destruct ns as [|[p x] ns].
  - unfold nodes. rw chain_nil. w_load. iIntros "Hns". rw Z.eqb_refl. w_ret. iExists [], its. iSplitR "HQ"; [|done].
    unfold is_list, nodes. rw chain_nil. by iFrame.
  - unfold nodes. rw chain_cons. iDestruct "Hns" as "(Hh & %Hp & Hd & Hns)". w_load. iIntros "Hh".
    rewrite -> (proj2 (Z.eqb_neq p NULL)) by (unfold NULL; lia). rw /datum. w_load. iIntros "Hd".
    iExists ((p, x) :: ns), its. iSplitR "HQ"; [|done]. unfold is_list, nodes. rw chain_cons. by iFrame.
Qed.

(** ** Adding items *)

Lemma W_insert_head l x fd ns its Q : x <> NULL -> Z.of_nat (length ns) < i32_max ->
  is_list 1 l fd ns its -∗ pools -∗
  (∀ p, is_list 1 l fd (ins 0 (p, x) ns) (remark (mark_insert 0) its) -∗ pools -∗ Q x) -∗
  W (list_node_create l (l_head l) x) Q.
Proof. iIntros (Hx Hn) "Hl Hp HQ". iApply (W_node_create l 0 with "Hl Hp HQ"); [lia|done|done]. Qed.

Lemma W_append_locked l x fd ns its Q : x <> NULL -> Z.of_nat (length ns) < i32_max ->
  is_list 1 l fd ns its -∗ pools -∗
  (∀ p, is_list 1 l fd (ns ++ [(p, x)]) (remark (mark_insert (length ns)) its) -∗ pools -∗ Q x) -∗
  W (_list_append_locked l x) Q.
Proof.
  iIntros (Hx Hn) "(Hns & Hits & (Htail & Hr) & %Hok) Hp HQ". unfold _list_append_locked. w_load. iIntros "Htail".
  rw {2}endc_cellat. iApply (W_node_create l (length ns) with "[Hns Hits Htail Hr] Hp"); [done|done|done|by iFrame|].
  iIntros (p) "Hl Hp". unfold ins. rw firstn_all drop_all. iApply ("HQ" with "Hl Hp").
Qed.

Lemma W_list_append l x fd ns its Q : x <> NULL -> Z.of_nat (length ns) < i32_max ->
  is_list 0 l fd ns its -∗ pools -∗
  (∀ p, is_list 0 l fd (ns ++ [(p, x)]) (remark (mark_insert (length ns)) its) -∗ pools -∗ Q x) -∗
  W (list_append l x) Q.
Proof.
  iIntros (Hx Hn) "Hl Hp HQ". unfold list_append. w_assert; [unfold NULL in *; lia|]. iApply (W_locked with "Hl"). iIntros "Hl".
  iApply (W_append_locked with "Hl Hp"); [done|done|]. iIntros (p) "Hl Hp". iExists _, _. iFrame "Hl". iIntros "Hl".
  iApply ("HQ" with "Hl Hp").
Qed.

Lemma W_list_prepend l x fd ns its Q : x <> NULL -> Z.of_nat (length ns) < i32_max ->
  is_list 0 l fd ns its -∗ pools -∗
  (∀ p, is_list 0 l fd ((p, x) :: ns) (remark (mark_insert 0) its) -∗ pools -∗ Q x) -∗
  W (list_prepend l x) Q.
Proof.
  iIntros (Hx Hn) "Hl Hp HQ". unfold list_prepend. w_assert; [unfold NULL in *; lia|]. iApply (W_locked with "Hl"). iIntros "Hl".
  iApply (W_insert_head with "Hl Hp"); [done|done|]. iIntros (p) "Hl Hp". iExists _, _. iFrame "Hl". iIntros "Hl".
  iApply ("HQ" with "Hl Hp").
Qed.

(** ** Removing items *)

(** The list and the marks without the first item. *)
Lemma W_pop_locked l fd ns its Q : is_list 1 l fd ns its -∗ pools -∗
  (is_list 1 l fd (tail ns) (if ns is [] then its else remark (mark_remove 0) its) -∗ pools -∗ Q (default NULL (head ns.*2))) -∗
  W (_list_pop_locked l) Q.
Proof.
  iIntros "Hl Hp HQ". unfold _list_pop_locked. destruct ns as [|[p x] ns].
  - iApply (W_node_destroy_end l 0 with "Hl"); [done|done|]. iIntros "Hl". iApply ("HQ" with "Hl Hp").
  - iApply (W_node_destroy l 0 p x with "Hl Hp"); [done|]. iIntros "Hl Hp". iApply ("HQ" with "Hl Hp").
Qed.

Lemma W_list_pop l fd ns its Q : is_list 0 l fd ns its -∗ pools -∗
  (is_list 0 l fd (tail ns) (if ns is [] then its else remark (mark_remove 0) its) -∗ pools -∗ Q (default NULL (head ns.*2))) -∗
  W (list_pop l) Q.
Proof.
  iIntros "Hl Hp HQ". iApply (W_locked with "Hl"). iIntros "Hl". iApply (W_pop_locked with "Hl Hp"). iIntros "Hl Hp".
  iExists _, _. iFrame "Hl". iIntros "Hl". iApply ("HQ" with "Hl Hp").
Qed.

Lemma W_delete_data l fd v cs tl n m Q : fields m l fd tl n -∗ called cs -∗
  (fields m l fd tl n -∗ called (cs ++ deletions fd [v]) -∗ Q tt) -∗ W (delete_data l v) Q.
Proof.
  iIntros "(Htail & Hfd & Hr) Hcs HQ". unfold delete_data, deletions. w_load. iIntros "Hfd". destruct (fd =? NULL).
  - w_ret. rw app_nil_r. iApply ("HQ" with "[-Hcs] Hcs"). iFrame.
  - iApply (W_call with "Hcs"). iIntros "Hcs". iApply ("HQ" with "[-Hcs] Hcs"). iFrame.
Qed.

(** ** Searching *)

(** The first item that matches, and NULL when there is none. *)
Definition first_match (f : Z -> bool) (xs : list Z) : Z := default NULL (head (filter (fun x => f x = true) xs)).

Lemma W_find_first l fd ns its f key Q : key <> NULL -> is_list 0 l fd ns its -∗
  (is_list 0 l fd ns its -∗ Q (first_match (fun x => f x key) ns.*2)) -∗ W (list_find_first l f key) Q.
Proof.
  iIntros (Hk) "Hl HQ". unfold list_find_first. w_assert; [unfold NULL in *; lia|]. iApply (W_locked with "Hl").
  iIntros "(Hns & Hits & Hf & %Hok)". w_bind. iApply (W_fuel _ _ _ (chain_owns _ _ _ _) with "Hns"). iIntros (n Hn) "Hns".
  cbn [length cells] in Hn. rw length_fmap in Hn.
  iDestruct (chain_head with "Hns") as "[Hi Hc]". w_load. iIntros "Hi". iDestruct ("Hc" with "Hi") as "Hns".
  iApply (W_mono _ (fun r => ⌜r = first_match (fun x => f x key) ns.*2⌝ ∗ nodes l ns)%I with "[Hns]").
  2: { iIntros (r) "[-> Hns]". iExists ns, its. iSplitR "HQ"; [by iFrame|done]. }
  clear Hok. unfold nodes. set (c := l_head l). clearbody c.
  iInduction ns as [|[p x] ns] "IH" forall (c n Hn); (destruct n as [|n]; [cbn in Hn; lia|]); iApply W_loop.
  { w_ret. by iFrame. }
  iDestruct (chain_cons with "Hns") as "(Hc & %Hp & Hd & Hns)". cbn [nodeat lookup list_lookup].
  rewrite -> (proj2 (Z.eqb_neq p NULL)) by (unfold NULL; lia). unfold datum. w_load. iIntros "Hd".
  unfold first_match. cbn [fmap list_fmap snd]. rw filter_cons. destruct (f x key); cbn [decide].
  - rewrite -> decide_True by done. w_ret. rw chain_cons. by iFrame.
  - rewrite -> decide_False by done. iDestruct (chain_head with "Hns") as "[Hn Hns]". w_load. iIntros "Hn".
    iDestruct ("Hns" with "Hn") as "Hns". w_ret. iApply (W_mono with "[Hns]"). { iApply ("IH" with "[%] Hns"). cbn in Hn. lia. }
    iIntros (r) "[-> Hns]". rw chain_cons. by iFrame.
Qed.

(** [list_for_each]: the number of items visited, negated when [f] stops it. *)
Fixpoint for_each {S : Type} (f : Z -> S -> Z * S) (xs : list Z) (n : Z) (arg : S) : Z * S :=
  match xs with
  | [] => (n, arg)
  | x :: xs => let '(r, arg) := f x arg in if r <? 0 then (- (n + 1), arg) else for_each f xs (n + 1) arg
  end.

Lemma W_for_each_loop {S} (f : Z -> S -> Z * S) ns : forall c n m arg, (length ns < n)%nat -> 0 <= m ->
  m + Z.of_nat (length ns) <= i32_max -> chain 8 datum c ns -∗
  W (hloop n (fun '(p, n, arg) =>
       if p =? NULL then hret (inr (n, arg)) else
       n ← hlift (i32 (n + 1));
       data ← load (n_data p);
       let '(r, arg) := f data arg in
       if r <? 0 then hret (inr (- n, arg)) else
       p ← load (n_next p);
       hret (inl (p, n, arg))) (nodeat ns 0, m, arg)) (fun r => ⌜r = for_each f ns.*2 m arg⌝ ∗ chain 8 datum c ns).
Proof.
  induction ns as [|[p x] ns IH]; intros c n m arg Hn Hm Hl; (destruct n as [|n]; [cbn in Hn; lia|]); iIntros "Hns"; iApply W_loop.
  { cbn [nodeat lookup list_lookup]. rw Z.eqb_refl. w_ret. by iFrame. }
  iDestruct (chain_cons with "Hns") as "(Hc & %Hp & Hd & Hns)". cbn [nodeat lookup list_lookup length] in *.
  rewrite -> (proj2 (Z.eqb_neq p NULL)) by (unfold NULL; lia). w_bind.
  iApply W_lift; [apply i32_ok; unfold i32_min in *; lia|]. rw {1}/datum. w_load. iIntros "Hd".
  cbn [fmap list_fmap snd for_each]. destruct (f x arg) as [r arg'] eqn:E. destruct (r <? 0).
  - w_ret. rw chain_cons. by iFrame.
  - iDestruct (chain_head with "Hns") as "[Hn Hns]". w_load. iIntros "Hn".
    iDestruct ("Hns" with "Hn") as "Hns". w_ret. iApply (W_mono with "[Hns]"). { iApply (IH with "Hns"); lia. }
    iIntros (r') "[-> Hns]". rw chain_cons. by iFrame.
Qed.

Lemma W_list_for_each {S} l fd ns its (f : Z -> S -> Z * S) arg Q : is_list 0 l fd ns its -∗
  (is_list 0 l fd ns its -∗ Q (for_each f ns.*2 0 arg)) -∗ W (list_for_each l f arg) Q.
Proof.
  iIntros "Hl HQ". unfold list_for_each. iApply (W_locked with "Hl").
  iIntros "(Hns & Hits & Hf & %Hok)". w_bind. iApply (W_fuel _ _ _ (chain_owns _ _ _ _) with "Hns"). iIntros (n Hn) "Hns".
  cbn [length cells] in Hn. rw length_fmap in Hn.
  iDestruct (chain_head with "Hns") as "[Hi Hc]". w_load. iIntros "Hi". iDestruct ("Hc" with "Hi") as "Hns".
  iApply (W_mono with "[Hns]"); [iApply (W_for_each_loop with "Hns"); [lia|done|by destruct Hok]|].
  iIntros (r) "[-> Hns]". iExists ns, its. iSplitR "HQ"; [by iFrame|done].
Qed.

(** ** Removing all items that match *)

(** The marks while the items [xs] from position [j] on are gone through. *)
Fixpoint purge_mark (f : Z -> bool) (j : nat) (xs : list Z) (st : mark) : mark :=
  match xs with
  | [] => st
  | x :: xs => if f x then purge_mark f j xs (mark_remove j st) else purge_mark f (S j) xs st
  end.

Lemma remark_id its : remark (fun st => st) its = its.
Proof. unfold remark. induction its as [|[i st] its IH]; [done|]. rw fmap_cons IH. done. Qed.
Lemma remark_remark g h its : remark g (remark h its) = remark (fun st => g (h st)) its.
Proof. unfold remark. rw -list_fmap_compose. apply list_fmap_ext. by intros ? [i st] _. Qed.

Lemma deletions_cons fd x xs : deletions fd (x :: xs) = deletions fd [x] ++ deletions fd xs.
Proof. unfold deletions. by destruct (fd =? NULL). Qed.

Lemma ins_del_middle ns1 n ns2 : del (length ns1) (ns1 ++ n :: ns2) = ns1 ++ ns2.
Proof. unfold del. rw take_app_length. f_equal. rewrite -> drop_app_ge by lia. by replace (S (length ns1) - length ns1)%nat with 1%nat by lia. Qed.

Lemma cellat_app off c ns1 ns2 : cellat off c (ns1 ++ ns2) (length ns1) = endc off c ns1.
Proof. unfold cellat. by rw take_app_length. Qed.

Lemma is_list_items_ok m l fd ns its : is_list m l fd ns its ⊢ ⌜items_ok ns /\ 0 < l⌝.
Proof. iIntros "(_ & _ & (_ & _ & _ & _ & _ & %) & %)". by iPureIntro. Qed.

(** The node at position [j], read and given back. *)
Lemma is_list_cell m l fd ns1 ns2 its :
  is_list m l fd (ns1 ++ ns2) its -∗ endc 8 l ns1 ↦ nodeat ns2 0 ∗ (endc 8 l ns1 ↦ nodeat ns2 0 -∗ is_list m l fd (ns1 ++ ns2) its).
Proof.
  iIntros "(Hns & Hr)". iDestruct (chain_read _ _ _ _ (length ns1) with "Hns") as "[Hc Hns]".
  rw cellat_app. assert (E : nodeat (ns1 ++ ns2) (length ns1) = nodeat ns2 0).
  { unfold nodeat. rewrite -> lookup_app_r by done. by rw Nat.sub_diag. }
  rw E. iFrame "Hc". iIntros "Hc". iFrame "Hr". by iApply "Hns".
Qed.

Lemma is_list_datum m l fd ns1 p x ns2 its :
  is_list m l fd (ns1 ++ (p, x) :: ns2) its -∗ ⌜0 < p⌝ ∗ n_data p ↦ x ∗ (n_data p ↦ x -∗ is_list m l fd (ns1 ++ (p, x) :: ns2) its).
Proof.
  iIntros "(Hns & Hr)". unfold nodes. iDestruct (chain_app with "Hns") as "[Hs Hns]".
  iDestruct (chain_cons with "Hns") as "(Hc & %Hp & Hd & Hns)". iFrame "Hd". iSplit; [done|]. iIntros "Hd". iFrame "Hr".
  unfold nodes. rw chain_app chain_cons. by iFrame.
Qed.

Lemma W_is_list_delete_data m l fd ns its v cs Q : is_list m l fd ns its -∗ called cs -∗
  (is_list m l fd ns its -∗ called (cs ++ deletions fd [v]) -∗ Q tt) -∗ W (delete_data l v) Q.
Proof.
  iIntros "(Hns & Hits & Hf & %Hok) Hcs HQ". iApply (W_delete_data with "Hf Hcs"). iIntros "Hf Hcs". iApply ("HQ" with "[-Hcs] Hcs").
  by iFrame.
Qed.

Lemma W_delete_loop l fd (f : Z -> Z -> bool) key ns2 : forall ns1 its n m cs Q, (length ns2 < n)%nat -> 0 <= m -> m + Z.of_nat (length ns2) <= i32_max ->
  is_list 1 l fd (ns1 ++ ns2) its -∗ pools -∗ called cs -∗
  (∀ ns2', ⌜ns2'.*2 = filter (fun x => f x key = false) ns2.*2⌝ -∗
     is_list 1 l fd (ns1 ++ ns2') (remark (purge_mark (fun x => f x key) (length ns1) ns2.*2) its) -∗ pools -∗
     called (cs ++ deletions fd (filter (fun x => f x key = true) ns2.*2)) -∗
     Q (m + Z.of_nat (length (filter (fun x => f x key = true) ns2.*2)))) -∗
  W (hloop n (fun '(pp, n) =>
       p ← load pp;
       if p =? NULL then hret (inr n) else
       data ← load (n_data p);
       if f data key then
         v ← list_node_destroy l pp;
         if v =? NULL then hret (inl (pp, n)) else
         _ ← delete_data l v;
         n ← hlift (i32 (n + 1));
         hret (inl (pp, n))
       else hret (inl (n_next p, n))) (endc 8 l ns1, m)) Q.
Proof.
  induction ns2 as [|[p x] ns2 IH]; intros ns1 its n m cs Q Hn Hm Hl; (destruct n as [|n]; [cbn in Hn; lia|]);
    iIntros "Hl Hp Hcs HQ"; iApply W_loop; iDestruct (is_list_cell with "Hl") as "[Hc Hl]"; w_load; iIntros "Hc";
    iDestruct ("Hl" with "Hc") as "Hl"; cbn [nodeat lookup list_lookup].
  { rw Z.eqb_refl. w_ret. cbn [length filter fmap list_fmap] in *. rw Z.add_0_r. cbn [purge_mark].
    iApply ("HQ" $! [] with "[//] [Hl] Hp [Hcs]"); [by rw remark_id|]. unfold deletions. destruct (fd =? NULL); cbn; by rw app_nil_r. }
  iDestruct (is_list_datum with "Hl") as "(%Hp & Hd & Hl)". rewrite -> (proj2 (Z.eqb_neq p NULL)) by (unfold NULL; lia).
  w_load. iIntros "Hd". iDestruct ("Hl" with "Hd") as "Hl". iDestruct (is_list_items_ok with "Hl") as %[[Hnn _] _].
  apply Forall_app in Hnn as [_ Hnn]. apply Forall_cons in Hnn as [Hx _]. cbn [snd fst length] in *.
  cbn [fmap list_fmap snd]. rw !filter_cons. destruct (f x key) eqn:Hf.
  - rewrite -> (decide_True (P := true = true)), (decide_False (P := true = false)) by done. w_bind. rw -(cellat_app 8 l ns1 ((p, x) :: ns2)).
    iApply (W_node_destroy l (length ns1) p x with "Hl Hp"); [by apply list_lookup_middle|]. rw ins_del_middle cellat_app.
    iIntros "Hl Hp". rewrite -> (proj2 (Z.eqb_neq x NULL)) by done. w_bind. iApply (W_is_list_delete_data with "Hl Hcs").
    iIntros "Hl Hcs". w_bind. iApply W_lift; [apply i32_ok; unfold i32_min in *; lia|]. w_ret.
    iApply (IH with "Hl Hp Hcs"); [lia|lia|lia|]. iIntros (ns2' E) "Hl Hp Hcs". rw -app_assoc -deletions_cons remark_remark.
    cbn [length purge_mark]. rw Hf. replace (m + 1 + Z.of_nat (length (filter (fun x => f x key = true) ns2.*2)))
      with (m + Z.of_nat (S (length (filter (fun x => f x key = true) ns2.*2)))) by lia.
    iApply ("HQ" with "[//] Hl Hp Hcs").
  - rewrite -> (decide_False (P := false = true)), (decide_True (P := false = false)) by done. w_ret.
    change (n_next p) with (endc 8 (endc 8 l ns1) [(p, x)]). rw -endc_app (cons_middle (p, x) ns1 ns2).
    iApply (IH with "[Hl] Hp Hcs"); [lia|done|lia|by rw -app_assoc|]. iIntros (ns2' E) "Hl Hp Hcs". rw -app_assoc.
    iApply ("HQ" $! ((p, x) :: ns2') with "[%] [Hl] Hp Hcs"); [cbn; by rw E|]. cbn [purge_mark]. rw Hf length_app Nat.add_comm. done.
Qed.

Lemma W_list_fuel m l fd ns its Q : is_list m l fd ns its -∗
  (∀ n, ⌜(length ns < n)%nat⌝ -∗ ⌜(length its < n)%nat⌝ -∗ is_list m l fd ns its -∗ Q n) -∗ W chain_fuel Q.
Proof.
  iIntros "Hl HQ". iApply (W_fuel _ (cells 8 (l_head l) ns ++ cells 24 (l_iNext l) its) with "Hl").
  - iIntros "(Hns & Hits & _)". rw big_sepL_app. iSplitL "Hns"; by iApply chain_owns.
  - iIntros (n Hn) "Hl". rw length_app /cells /= !length_fmap in Hn. iApply ("HQ" with "[%] [%] Hl"); lia.
Qed.

Lemma W_list_delete_all l fd ns its (f : Z -> Z -> bool) key cs Q :
  is_list 0 l fd ns its -∗ pools -∗ called cs -∗
  (∀ ns', ⌜ns'.*2 = filter (fun x => f x key = false) ns.*2⌝ -∗
     is_list 0 l fd ns' (remark (purge_mark (fun x => f x key) 0 ns.*2) its) -∗ pools -∗
     called (cs ++ deletions fd (filter (fun x => f x key = true) ns.*2)) -∗
     Q (Z.of_nat (length (filter (fun x => f x key = true) ns.*2)))) -∗
  W (list_delete_all l f key) Q.
Proof.
  iIntros "Hl Hp Hcs HQ". iApply (W_locked with "Hl"). iIntros "Hl". iDestruct (is_list_items_ok with "Hl") as %[[_ Hlen] _].
  w_bind. iApply (W_list_fuel with "Hl"). iIntros (n Hn _) "Hl".
  iApply (W_delete_loop l fd f key ns [] with "Hl Hp Hcs"); [done|done|done|]. iIntros (ns' E) "Hl Hp Hcs". iExists _, _. iFrame "Hl".
  iIntros "Hl". iApply ("HQ" with "[//] Hl Hp Hcs").
Qed.

Lemma W_flush_loop l fd ns : forall its n m cs Q, (length ns < n)%nat -> 0 <= m -> m + Z.of_nat (length ns) <= i32_max ->
  is_list 1 l fd ns its -∗ pools -∗ called cs -∗
  (is_list 1 l fd [] (remark (purge_mark (fun _ => true) 0 ns.*2) its) -∗ pools -∗ called (cs ++ deletions fd ns.*2) -∗
     Q (m + Z.of_nat (length ns))) -∗
  W (hloop n (fun n =>
       p ← load (l_head l);
       if p =? NULL then hret (inr n) else
       v ← list_node_destroy l (l_head l);
       if v =? NULL then hret (inl n) else
       _ ← delete_data l v;
       n ← hlift (i32 (n + 1));
       hret (inl n)) m) Q.
Proof.
  induction ns as [|[p x] ns IH]; intros its n m cs Q Hn Hm Hl; (destruct n as [|n]; [cbn in Hn; lia|]);
    iIntros "Hl Hp Hcs HQ"; iApply W_loop; iDestruct (is_list_cell _ _ _ [] with "Hl") as "[Hc Hl]"; cbn [endc]; w_load; iIntros "Hc";
    iDestruct ("Hl" with "Hc") as "Hl"; cbn [nodeat lookup list_lookup app].
  { rw Z.eqb_refl. w_ret. cbn [length fmap list_fmap purge_mark]. rw Z.add_0_r remark_id. iApply ("HQ" with "Hl Hp [Hcs]").
    unfold deletions. destruct (fd =? NULL); cbn; by rw app_nil_r. }
  iDestruct (is_list_datum _ _ _ [] with "Hl") as "(%Hp & Hd & Hl)". rewrite -> (proj2 (Z.eqb_neq p NULL)) by (unfold NULL; lia).
  iDestruct ("Hl" with "Hd") as "Hl". iDestruct (is_list_items_ok with "Hl") as %[[Hnn _] _].
  apply Forall_cons in Hnn as [Hx _]. cbn [snd fst length] in *. w_bind.
  iApply (W_node_destroy l 0 p x with "Hl Hp"); [done|]. iIntros "Hl Hp". rewrite -> (proj2 (Z.eqb_neq x NULL)) by done. w_bind.
  iApply (W_is_list_delete_data with "Hl Hcs"). iIntros "Hl Hcs". w_bind. iApply W_lift; [apply i32_ok; unfold i32_min in *; lia|].
  w_ret. iApply (IH with "Hl Hp Hcs"); [lia|lia|lia|]. iIntros "Hl Hp Hcs". rw -app_assoc -deletions_cons remark_remark.
  replace (m + 1 + Z.of_nat (length ns)) with (m + Z.of_nat (S (length ns))) by lia. iApply ("HQ" with "Hl Hp Hcs").
Qed.

Lemma W_list_flush l fd ns its cs Q : is_list 0 l fd ns its -∗ pools -∗ called cs -∗
  (is_list 0 l fd [] (remark (purge_mark (fun _ => true) 0 ns.*2) its) -∗ pools -∗ called (cs ++ deletions fd ns.*2) -∗
     Q (Z.of_nat (length ns))) -∗
  W (list_flush l) Q.
Proof.
  iIntros "Hl Hp Hcs HQ". iApply (W_locked with "Hl"). iIntros "Hl". iDestruct (is_list_items_ok with "Hl") as %[[_ Hlen] _].
  w_bind. iApply (W_list_fuel with "Hl"). iIntros (n Hn _) "Hl".
  iApply (W_flush_loop with "Hl Hp Hcs"); [done|done|done|]. iIntros "Hl Hp Hcs". iExists _, _. iFrame "Hl".
  iIntros "Hl". iApply ("HQ" with "Hl Hp Hcs").
Qed.

(** ** Destruction *)

(** A chain without its first cell. *)
Definition after {A} (off : Z) (P : Z -> A -> iProp Σ) (ns : list (Z * A)) : iProp Σ :=
  match ns with [] => emp | (p, x) :: ns => ⌜0 < p⌝ ∗ P p x ∗ chain off P (p + off) ns end.

Lemma chain_after {A} off (P : Z -> A -> iProp Σ) c (ls : list (Z * A)) : chain off P c ls ⊣⊢ c ↦ nodeat ls 0 ∗ after off P ls.
Proof. destruct ls as [|[p x] ls]; cbn [after]; [by rw chain_nil right_id|by rw chain_cons]. Qed.

Lemma W_free_iterators l ns its : forall n Q, (length its < n)%nat ->
  after 24 (iter_at l ns) its -∗ pools -∗ (pools -∗ Q tt) -∗
  W (hloop n (fun i =>
        if i =? NULL then hret (inr tt) else
        _ ← check_magic (i_magic i);
        iTmp ← load (i_iNext i);
        _ ← store (i_magic i) DEAD_MAGIC;
        _ ← list_iterator_free i;
        hret (inl iTmp)) (nodeat its 0)) Q.
Proof.
  induction its as [|[i st] its IH]; intros n Q Hn; (destruct n as [|n]; [cbn in Hn; lia|]); iIntros "Hc Hp HQ"; iApply W_loop;
    cbn [nodeat lookup list_lookup length after] in *.
  { rw Z.eqb_refl. w_ret. by iApply "HQ". }
  iDestruct "Hc" as "(%Hi & [(Hl & Hm & Hpos & Hprev) _] & Hits)". iDestruct (chain_after with "Hits") as "[Hn Hits]".
  rewrite -> (proj2 (Z.eqb_neq i NULL)) by (unfold NULL; lia). w_bind. iApply (W_check_magic with "Hm"). iIntros "Hm".
  w_load. iIntros "Hn". w_store. iIntros "Hm". w_bind. iApply (W_iterator_free with "[Hl Hpos Hprev Hn Hm] Hp"); [done| |].
  { rw raw_iterator. iSplitL "Hl"; [by iExists _|]. iSplitL "Hpos"; [by iExists _|]. iSplitL "Hprev"; [by iExists _|].
    iSplitL "Hn"; by iExists _. }
  iIntros "Hp". w_ret. iApply (IH with "Hits Hp HQ"). lia.
Qed.

Lemma W_free_nodes l fd ns : Forall (fun n => n.2 <> NULL) ns -> forall n cs Q, (length ns < n)%nat ->
  after 8 datum ns -∗ l_fDel l ↦ fd -∗ pools -∗ called cs -∗
  (l_fDel l ↦ fd -∗ pools -∗ called (cs ++ deletions fd ns.*2) -∗ Q tt) -∗
  W (hloop n (fun p =>
        if p =? NULL then hret (inr tt) else
        pTmp ← load (n_next p);
        data ← load (n_data p);
        fDel ← load (l_fDel l);
        _ ← (if (data =? NULL) || (fDel =? NULL) then hret tt else call fDel data);
        _ ← list_node_free p;
        hret (inl pTmp)) (nodeat ns 0)) Q.
Proof.
  induction 1 as [|[p x] ns Hx _ IH]; intros n cs Q Hn; (destruct n as [|n]; [cbn in Hn; lia|]); iIntros "Hc Hfd Hp Hcs HQ";
    iApply W_loop; cbn [nodeat lookup list_lookup length after snd] in *.
  { rw Z.eqb_refl. w_ret. iApply ("HQ" with "Hfd Hp"). unfold deletions. destruct (fd =? NULL); cbn; by rw app_nil_r. }
  iDestruct "Hc" as "(%Hi & Hd & Hns)". iDestruct (chain_after with "Hns") as "[Hn Hns]". unfold datum at 1.
  rewrite -> (proj2 (Z.eqb_neq p NULL)) by (unfold NULL; lia). w_load. iIntros "Hn". w_load. iIntros "Hd". w_load. iIntros "Hfd".
  rewrite -> (proj2 (Z.eqb_neq x NULL)) by done. cbn [orb]. w_bind.
  iAssert (∀ Q' : unit -> iProp Σ, (called (cs ++ deletions fd [x]) -∗ Q' tt) -∗
    W (if fd =? NULL then hret tt else call fd x) Q')%I with "[Hcs]" as "Hcall".
  { iIntros (Q') "HQ'". unfold deletions. destruct (fd =? NULL); [w_ret; rw app_nil_r; by iApply "HQ'"|]. by iApply (W_call with "Hcs"). }
  iApply "Hcall". iIntros "Hcs". w_bind. iApply (W_node_free with "[Hd Hn] Hp"); [done|rw raw_node; iSplitL "Hd"; by iExists _|].
  iIntros "Hp". w_ret. iApply (IH with "Hns Hfd Hp Hcs"); [lia|]. cbn [fmap list_fmap snd]. rw -app_assoc -deletions_cons. done.
Qed.

Lemma W_list_destroy l fd ns its cs Q : is_list 0 l fd ns its -∗ pools -∗ called cs -∗
  (pools -∗ called (cs ++ deletions fd ns.*2) -∗ Q tt) -∗ W (list_destroy l) Q.
Proof.
  iIntros "Hl Hp Hcs HQ". unfold list_destroy. iDestruct (is_list_items_ok with "Hl") as %[[Hnn _] Hl]. w_assert; [unfold NULL; lia|].
  iDestruct "Hl" as "(Hns & Hits & (Htail & Hfd & Hcnt & Hmx & Hmg & _) & %Hok)". w_bind. iApply (W_lock with "Hmx"). iIntros "Hmx".
  w_bind. iApply (W_check_magic with "Hmg"). iIntros "Hmg". w_bind.
  iApply (W_list_fuel 1 l fd ns its with "[Hns Hits Htail Hfd Hcnt Hmx Hmg]"); [by iFrame|]. iIntros (n Hn1 Hn2) "Hl".
  iDestruct "Hl" as "(Hns & Hits & (Htail & Hfd & Hcnt & Hmx & Hmg & _) & _)".
  iDestruct (chain_after with "Hits") as "[Hi Hits]". w_load. iIntros "Hi". w_bind. iApply (W_free_iterators with "Hits Hp"); [done|].
  iIntros "Hp". iDestruct (chain_after with "Hns") as "[Hh Hns]". w_load. iIntros "Hh". w_bind.
  iApply (W_free_nodes with "Hns Hfd Hp Hcs"); [done|done|]. iIntros "Hfd Hp Hcs". w_store. iIntros "Hmg".
  w_bind. iApply (W_unlock with "Hmx"). iIntros "Hmx".
  iApply (W_list_free with "[Hi Hh Htail Hfd Hcnt Hmx Hmg] Hp"); [done| |iIntros "Hp"; iApply ("HQ" with "Hp Hcs")].
  rw raw_list. iSplitL "Hh"; [by iExists _|]. iSplitL "Htail"; [by iExists _|]. iSplitL "Hi"; [by iExists _|].
  iSplitL "Hfd"; [by iExists _|]. iSplitL "Hcnt"; [by iExists _|]. iSplitL "Hmx"; by iExists _.
Qed.
End ops.
