(* ===== verification/ListsIter.v ===== *)
(** * Generic lists: iterators, sorting, and operations on two lists *)

From iris.proofmode Require Import proofmode environments.
From iris.base_logic.lib Require Import gen_heap ghost_var.
From S2P Require Import Prelude Heap Lists HeapLogic ListsLogic ListsOps.

Local Open Scope Z_scope.

(** Where [list_next] leaves an iterator, and where a reset does. *)
Definition mark_next (n : nat) (st : mark) : mark := if (st.1 <? n)%nat then (S st.1, true) else (st.1, false).
Definition mark_start : mark := (0%nat, false).

Section iterators.
Context `{!memG Σ}.
Implicit Types (ns : list (Z * Z)) (its : list (Z * mark)) (st : mark).

Lemma mark_start_ok n : mark_ok n mark_start.
Proof. split; cbn; [lia|done]. Qed.

Lemma remark_app g its1 i st its2 : remark g (its1 ++ (i, st) :: its2) = remark g its1 ++ (i, g st) :: remark g its2.
Proof. unfold remark. by rw fmap_app. Qed.

Lemma W_iterator_create l fd ns its Q : is_list 0 l fd ns its -∗ pools -∗
  (∀ i, is_list 0 l fd ns ((i, mark_start) :: its) -∗ pools -∗ Q i) -∗ W (list_iterator_create l) Q.
Proof.
  iIntros "(Hns & Hits & (Htail & Hfd & Hcnt & Hmx & Hmg & %Hl) & %Hok) Hp HQ". unfold list_iterator_create.
  w_assert; [unfold NULL; lia|]. w_bind. iApply (W_iterator_alloc with "Hp"). iIntros (i Hi) "Hi Hp". rw raw_iterator.
  iDestruct "Hi" as "([%v1 H1] & [%v2 H2] & [%v3 H3] & [%v4 H4] & [%v5 H5])". w_store. iIntros "H1".
  w_bind. iApply (W_lock with "Hmx"). iIntros "Hmx". w_bind. iApply (W_check_magic with "Hmg"). iIntros "Hmg".
  iDestruct (chain_head with "Hns") as "[Hh Hns]". w_load. iIntros "Hh". iDestruct ("Hns" with "Hh") as "Hns".
  w_store. iIntros "H2". w_store. iIntros "H3". iDestruct (chain_after with "Hits") as "[Hc Hits]". w_load. iIntros "Hc".
  w_store. iIntros "H4". w_store. iIntros "Hc". w_store. iIntros "H5". w_bind. iApply (W_unlock with "Hmx"). iIntros "Hmx".
  w_ret. iApply ("HQ" with "[-Hp] Hp"). iFrame "Hns Htail Hfd Hcnt Hmx Hmg". iSplit; [|by iPureIntro].
  unfold iters. rw chain_cons. iFrame "Hc". iSplit; [done|]. rw (chain_after 24 (iter_at l ns)). iFrame "H4 Hits". iFrame.
  iPureIntro. apply mark_start_ok.
Qed.

(** The iterator in its chain. *)
Lemma iters_acc l ns its1 i st its2 : iters l ns (its1 ++ (i, st) :: its2) -∗
  ⌜0 < i⌝ ∗ iter_at l ns i st ∗ (∀ st', iter_at l ns i st' -∗ iters l ns (its1 ++ (i, st') :: its2)).
Proof.
  unfold iters. iIntros "H". iDestruct (chain_app with "H") as "[Hs Hc]". iDestruct (chain_cons with "Hc") as "(Hc & %Hi & Hit & Hr)".
  iFrame "Hit". iSplit; [done|]. iIntros (st') "Hit". iApply chain_app. iFrame "Hs". iApply chain_cons. by iFrame.
Qed.

Lemma W_on_iterator {A} l fd ns its1 i st its2 (body : Z -> hx A) Q :
  is_list 0 l fd ns (its1 ++ (i, st) :: its2) -∗
  (is_list 1 l fd ns (its1 ++ (i, st) :: its2) -∗
     W (body l) (fun r => ∃ ns' its', is_list 1 l fd ns' its' ∗ (is_list 0 l fd ns' its' -∗ Q r))) -∗
  W (on_iterator i body) Q.
Proof.
  iIntros "(Hns & Hits & (Htail & Hfd & Hcnt & Hmx & Hmg & %Hl) & %Hok) Hbody". unfold on_iterator.
  iDestruct (iters_acc with "Hits") as "(%Hi & [(Hlist & Hm & Hpos & Hprev) %Hst] & Hits)". w_assert; [unfold NULL; lia|].
  w_bind. iApply (W_check_magic with "Hm"). iIntros "Hm". w_load. iIntros "Hlist". iDestruct ("Hits" $! st with "[$Hlist $Hm $Hpos $Hprev //]") as "Hits".
  w_bind. iApply (W_lock with "Hmx"). iIntros "Hmx". w_bind. iApply (W_check_magic with "Hmg"). iIntros "Hmg". w_bind.
  iApply (W_mono with "[Hbody Hns Hits Htail Hfd Hcnt Hmx Hmg]"). { iApply "Hbody". by iFrame. }
  iIntros (r) "(%ns' & %its' & (Hns & Hits & (Htail & Hfd & Hcnt & Hmx & Hmg & _) & %Hok') & HQ)".
  w_bind. iApply (W_unlock with "Hmx"). iIntros "Hmx". w_ret. iApply "HQ". by iFrame.
Qed.

(** Read or change the fields of an iterator of a list. *)
Lemma is_list_iter m l fd ns its1 i st its2 : is_list m l fd ns (its1 ++ (i, st) :: its2) -∗
  ⌜mark_ok (length ns) st⌝ ∗ ⌜0 < i⌝ ∗ nodes l ns ∗ i_list i ↦ l ∗ i_magic i ↦ LIST_MAGIC ∗ i_pos i ↦ nodeat ns st.1 ∗
  i_prev i ↦ cellat 8 l ns (mark_cell st) ∗
  (∀ st', ⌜mark_ok (length ns) st'⌝ -∗ nodes l ns -∗ i_list i ↦ l -∗ i_magic i ↦ LIST_MAGIC -∗ i_pos i ↦ nodeat ns st'.1 -∗
     i_prev i ↦ cellat 8 l ns (mark_cell st') -∗ is_list m l fd ns (its1 ++ (i, st') :: its2)).
Proof.
  iIntros "(Hns & Hits & Hr)". iDestruct (iters_acc with "Hits") as "(%Hi & [(Hlist & Hm & Hpos & Hprev) %Hst] & Hits)".
  iFrame "Hns Hlist Hm Hpos Hprev". iSplit; [done|]. iSplit; [done|]. iIntros (st' Hst') "Hns Hlist Hm Hpos Hprev". iFrame "Hns Hr".
  iApply "Hits". by iFrame.
Qed.

Lemma W_rewind m l fd ns its1 i st its2 Q : is_list m l fd ns (its1 ++ (i, st) :: its2) -∗
  (is_list m l fd ns (its1 ++ (i, mark_start) :: its2) -∗ Q tt) -∗ W (rewind i l) Q.
Proof.
  iIntros "Hl HQ". iDestruct (is_list_iter with "Hl") as "(%Hst & %Hi & Hns & Hlist & Hm & Hpos & Hprev & Hl)". unfold rewind.
  iDestruct (chain_head with "Hns") as "[Hh Hns]". w_load. iIntros "Hh". iDestruct ("Hns" with "Hh") as "Hns".
  w_store. iIntros "Hpos". w_store. iIntros "Hprev". iApply "HQ".
  iApply ("Hl" $! mark_start with "[%] Hns Hlist Hm Hpos Hprev"). apply mark_start_ok.
Qed.

Lemma W_iterator_reset l fd ns its1 i st its2 Q : is_list 0 l fd ns (its1 ++ (i, st) :: its2) -∗
  (is_list 0 l fd ns (its1 ++ (i, mark_start) :: its2) -∗ Q tt) -∗ W (list_iterator_reset i) Q.
Proof.
  iIntros "Hl HQ". iApply (W_on_iterator with "Hl"). iIntros "Hl". iApply (W_rewind with "Hl"). iIntros "Hl". iExists _, _.
  iFrame "Hl HQ".
Qed.

(** The data of the node at a position. *)
Lemma W_node_data l ns k Q : nodes l ns -∗ (nodes l ns -∗ Q (default NULL (ns.*2 !! k))) -∗ W (node_data (nodeat ns k)) Q.
Proof.
  iIntros "Hns HQ". unfold node_data. iDestruct (chain_pos with "Hns") as %Hpos. rw list_lookup_fmap. unfold nodeat.
  destruct (ns !! k) as [[p x]|] eqn:E; [|rw Z.eqb_refl; w_ret; by iApply "HQ"].
  pose proof (Forall_lookup_1 _ _ _ _ Hpos E) as Hp. cbn in Hp. rewrite -> (proj2 (Z.eqb_neq p NULL)) by (unfold NULL; lia).
  rw -(take_drop_middle _ _ _ E). unfold nodes. iDestruct (chain_app with "Hns") as "[Hs Hc]".
  iDestruct (chain_cons with "Hc") as "(Hc & %Hp' & Hd & Hr)". unfold datum at 2. w_load. iIntros "Hd". iApply "HQ".
  iApply chain_app. iFrame "Hs". iApply chain_cons. by iFrame.
Qed.

Lemma node_next l ns k p x : ns !! k = Some (p, x) ->
  nodes l ns -∗ n_next p ↦ nodeat ns (S k) ∗ (n_next p ↦ nodeat ns (S k) -∗ nodes l ns).
Proof.
  iIntros (Hk) "Hns". iDestruct (chain_read _ _ _ _ (S k) with "Hns") as "[Hc Hns]". rewrite -> (cellat_S _ _ _ _ _ _ Hk). iFrame.
Qed.

Lemma W_is_list_data l fd ns its k Q : is_list 0 l fd ns its -∗
  (is_list 0 l fd ns its -∗ Q (default NULL (ns.*2 !! k))) -∗ W (node_data (nodeat ns k)) Q.
Proof. iIntros "(Hns & Hr) HQ". iApply (W_node_data with "Hns"). iIntros "Hns". iApply "HQ". iFrame. Qed.

Lemma W_list_next l fd ns its1 i st its2 Q : is_list 0 l fd ns (its1 ++ (i, st) :: its2) -∗
  (is_list 0 l fd ns (its1 ++ (i, mark_next (length ns) st) :: its2) -∗ Q (default NULL (ns.*2 !! st.1))) -∗ W (list_next i) Q.
Proof.
  iIntros "Hl HQ". unfold list_next. w_bind. iApply (W_on_iterator with "Hl"). iIntros "Hl".
  iDestruct (is_list_iter with "Hl") as "(%Hst & %Hi & Hns & Hlist & Hm & Hpos & Hprev & Hl)". w_load. iIntros "Hpos".
  iDestruct (chain_pos with "Hns") as %Hp. iDestruct (chain_distinct with "Hns") as %HN. destruct st as [k cur], Hst as [Hk Hk1].
  set (st' := mark_next (length ns) (k, cur)). cbn [fst snd] in *. w_bind.
  iAssert (∀ Q' : unit -> iProp Σ, (nodes l ns -∗ i_pos i ↦ nodeat ns st'.1 -∗ Q' tt) -∗
    W (if nodeat ns k =? NULL then hret tt else nx ← load (n_next (nodeat ns k)); store (i_pos i) nx) Q')%I with "[Hns Hpos]" as "Hstep".
  { iIntros (Q') "HQ'". unfold st', mark_next. cbn [fst snd]. destruct (Nat.ltb_spec k (length ns)) as [Hlt|Hge]; cbn [fst].
    - destruct (lookup_lt_is_Some_2 ns k Hlt) as [[p x] E]. assert (Hnp : nodeat ns k = p) by (unfold nodeat; by rw E).
      pose proof (Forall_lookup_1 _ _ _ _ Hp E) as Hp0. cbn in Hp0. rw Hnp. rewrite -> (proj2 (Z.eqb_neq p NULL)) by (unfold NULL; lia).
      iDestruct (node_next with "Hns") as "[Hn Hns]"; [done|]. w_load. iIntros "Hn". iDestruct ("Hns" with "Hn") as "Hns".
      w_store. iIntros "Hpos". iApply ("HQ'" with "Hns Hpos").
    - assert (E : nodeat ns k = NULL) by (apply nodeat_null; [done|done|lia]). rw E Z.eqb_refl. w_ret.
      iApply ("HQ'" with "Hns Hpos"). }
  iApply "Hstep". iIntros "Hns Hpos". w_load. iIntros "Hprev".
  iDestruct (chain_read with "Hns") as "[Hc Hns]". w_load. iIntros "Hc". iDestruct ("Hns" with "Hc") as "Hns". w_bind.
  assert (Hst' : mark_ok (length ns) st').
  { unfold st', mark_next. cbn [fst]. destruct (Nat.ltb_spec k (length ns)); split; cbn; lia || done. }
  assert (Hcell : mark_cell st' = k) by (unfold st', mark_next, mark_cell; cbn [fst]; destruct (k <? length ns)%nat; cbn; lia).
  destruct (Z.eqb_spec (nodeat ns (mark_cell (k, cur))) (nodeat ns k)) as [E|Hne].
  - apply (nodeat_inj 8 (l_head l)) in E; [|done|done|unfold mark_cell; cbn; lia|done]. w_ret. w_ret. iExists ns, _.
    rw E -{2}Hcell. iSplitR "HQ"; [iApply ("Hl" $! st' with "[//] Hns Hlist Hm Hpos Hprev")|]. iIntros "Hl".
    iApply (W_is_list_data with "Hl"). iIntros "Hl". iApply ("HQ" with "Hl").
  - destruct cur; [|by destruct Hne; unfold mark_cell; cbn; rw Nat.sub_0_r]. specialize (Hk1 eq_refl).
    w_load. iIntros "Hprev". iDestruct (chain_read with "Hns") as "[Hc Hns]". w_load. iIntros "Hc". iDestruct ("Hns" with "Hc") as "Hns".
    w_store. iIntros "Hprev". w_ret. iExists ns, _. unfold mark_cell at 1. cbn [fst snd Nat.b2n].
    assert (Ec : n_next (nodeat ns (k - 1)) = cellat 8 l ns (mark_cell st')).
    { rw Hcell. replace k with (S (k - 1)) at 2 by lia. rewrite -> cellat_node by lia. done. }
    rw Ec. iSplitR "HQ"; [iApply ("Hl" $! st' with "[//] Hns Hlist Hm Hpos Hprev")|]. iIntros "Hl".
    iApply (W_is_list_data with "Hl"). iIntros "Hl". iApply ("HQ" with "Hl").
Qed.

Lemma W_list_peek_next l fd ns its1 i st its2 Q : is_list 0 l fd ns (its1 ++ (i, st) :: its2) -∗
  (is_list 0 l fd ns (its1 ++ (i, st) :: its2) -∗ Q (default NULL (ns.*2 !! st.1))) -∗ W (list_peek_next i) Q.
Proof.
  iIntros "Hl HQ". unfold list_peek_next. w_bind. iApply (W_on_iterator with "Hl"). iIntros "Hl".
  iDestruct (is_list_iter with "Hl") as "(%Hst & %Hi & Hns & Hlist & Hm & Hpos & Hprev & Hl)". w_load. iIntros "Hpos".
  iExists ns, _. iSplitR "HQ"; [iApply ("Hl" $! st with "[//] Hns Hlist Hm Hpos Hprev")|]. iIntros "Hl".
  iApply (W_is_list_data with "Hl"). iIntros "Hl". iApply ("HQ" with "Hl").
Qed.

Lemma W_list_insert l fd ns its1 i st its2 x Q : x <> NULL -> Z.of_nat (length ns) < i32_max ->
  is_list 0 l fd ns (its1 ++ (i, st) :: its2) -∗ pools -∗
  (∀ p, is_list 0 l fd (ins (mark_cell st) (p, x) ns) (remark (mark_insert (mark_cell st)) (its1 ++ (i, st) :: its2)) -∗ pools -∗ Q x) -∗
  W (list_insert i x) Q.
Proof.
  iIntros (Hx Hmax) "Hl Hp HQ". unfold list_insert. w_assert; [unfold NULL in *; lia|]. iApply (W_on_iterator with "Hl"). iIntros "Hl".
  iDestruct (is_list_iter with "Hl") as "(%Hst & %Hi & Hns & Hlist & Hm & Hpos & Hprev & Hl)". w_load. iIntros "Hprev".
  iDestruct ("Hl" $! st with "[//] Hns Hlist Hm Hpos Hprev") as "Hl". destruct Hst as [Hk Hk1].
  iApply (W_node_create with "Hl Hp"); [unfold mark_cell; lia|done|done|]. iIntros (p) "Hl Hp". iExists _, _. iFrame "Hl". iIntros "Hl".
  iApply ("HQ" with "Hl Hp").
Qed.

Lemma W_list_remove l fd ns its1 i st its2 Q : is_list 0 l fd ns (its1 ++ (i, st) :: its2) -∗ pools -∗
  (is_list 0 l fd (if st.2 then del (mark_cell st) ns else ns)
     (if st.2 then remark (mark_remove (mark_cell st)) (its1 ++ (i, st) :: its2) else its1 ++ (i, st) :: its2) -∗
   pools -∗ Q (if st.2 then default NULL (ns.*2 !! mark_cell st) else NULL)) -∗
  W (list_remove i) Q.
Proof.
  iIntros "Hl Hp HQ". iApply (W_on_iterator with "Hl"). iIntros "Hl".
  iDestruct (is_list_iter with "Hl") as "(%Hst & %Hi & Hns & Hlist & Hm & Hpos & Hprev & Hl)". w_load. iIntros "Hprev".
  iDestruct (chain_pos with "Hns") as %Hpos. iDestruct (chain_distinct with "Hns") as %HN.
  iDestruct (chain_read with "Hns") as "[Hc Hns]". w_load. iIntros "Hc". iDestruct ("Hns" with "Hc") as "Hns". w_load. iIntros "Hpos".
  destruct st as [k [|]], Hst as [Hk Hk1]; unfold mark_cell in *; cbn [fst snd Nat.b2n] in *.
  - specialize (Hk1 eq_refl). destruct (Z.eqb_spec (nodeat ns (k - 1)) (nodeat ns k)) as [E|Hne].
    { apply (nodeat_inj 8 (l_head l)) in E; [lia|done|done|lia|done]. }
    w_load. iIntros "Hprev". iDestruct ("Hl" $! (k, true) with "[//] Hns Hlist Hm Hpos Hprev") as "Hl".
    destruct (lookup_lt_is_Some_2 ns (k - 1)) as [[p x] E]; [lia|]. iApply (W_node_destroy with "Hl Hp"); [done|].
    iIntros "Hl Hp". iExists _, _. iFrame "Hl". iIntros "Hl". rw list_lookup_fmap E. iApply ("HQ" with "Hl Hp").
  - rw Nat.sub_0_r Z.eqb_refl. w_ret. iExists _, _. iSplitR "HQ Hp"; [iApply ("Hl" $! (k, false) with "[//] Hns Hlist Hm Hpos [Hprev]")|].
    { unfold mark_cell. cbn. by rw Nat.sub_0_r. }
    iIntros "Hl". iApply ("HQ" with "Hl Hp").
Qed.

(** What [list_find] returns from position [k] on, with the items [xs] ahead. *)
Fixpoint find_from (f : Z -> bool) (k : nat) (xs : list Z) : Z * mark :=
  match xs with
  | [] => (NULL, (k, false))
  | x :: xs => if f x then (x, (S k, true)) else find_from f (S k) xs
  end.

Lemma W_find_loop l fd ns its1 i its2 (f : Z -> Z -> bool) key : items_ok ns -> forall n st Q,
  (st.1 <= length ns)%nat -> (length ns - st.1 < n)%nat ->
  is_list 0 l fd ns (its1 ++ (i, st) :: its2) -∗
  (is_list 0 l fd ns (its1 ++ (i, (find_from (fun x => f x key) st.1 (drop st.1 ns.*2)).2) :: its2) -∗
     Q (find_from (fun x => f x key) st.1 (drop st.1 ns.*2)).1) -∗
  W (hloop n (fun _ : unit =>
    v ← list_next i;
    if negb (v =? NULL) && negb (f v key) then hret (inl tt) else hret (inr v)) tt) Q.
Proof.
  intros [Hnn _]. induction n as [|n IH]; intros st Q Hk Hn; [lia|]. iIntros "Hl HQ". iApply W_loop. w_bind.
  iApply (W_list_next with "Hl"). iIntros "Hl". destruct (ns.*2 !! st.1) as [x|] eqn:E; cbn [from_option id].
  - assert (Hx : x <> NULL).
    { rw list_lookup_fmap in E. destruct (ns !! st.1) as [[p y]|] eqn:E'; [|done]. injection E as <-. by apply (Forall_lookup_1 _ _ _ _ Hnn) in E'. }
    rewrite -> (proj2 (Z.eqb_neq x NULL)) by done. cbn [negb andb]. rw (drop_S _ _ _ E). cbn [find_from].
    assert (Hlt : (st.1 < length ns)%nat) by (apply lookup_lt_Some in E; by rw length_fmap in E).
    unfold mark_next. rewrite -> (proj2 (Nat.ltb_lt _ _)) by done. destruct (f x key); cbn [negb].
    + w_ret. by iApply "HQ".
    + w_ret. iApply (IH with "Hl HQ"); cbn; lia.
  - w_ret. rewrite -> drop_ge by (by apply lookup_ge_None). cbn [find_from fst snd].
    apply lookup_ge_None in E. rw length_fmap in E. unfold mark_next. rewrite -> (proj2 (Nat.ltb_ge _ _)) by done. by iApply "HQ".
Qed.

Lemma W_list_find l fd ns its1 i st its2 (f : Z -> Z -> bool) key Q : key <> NULL ->
  is_list 0 l fd ns (its1 ++ (i, st) :: its2) -∗
  (is_list 0 l fd ns (its1 ++ (i, (find_from (fun x => f x key) st.1 (drop st.1 ns.*2)).2) :: its2) -∗
     Q (find_from (fun x => f x key) st.1 (drop st.1 ns.*2)).1) -∗
  W (list_find i f key) Q.
Proof.
  iIntros (Hk) "Hl HQ". unfold list_find.
  iDestruct (is_list_iter with "Hl") as "(%Hst & %Hi & Hns & Hlist & Hm & Hpos & Hprev & Hl)". w_assert; [unfold NULL; lia|].
  w_assert; [unfold NULL in *; lia|]. w_bind. iApply (W_check_magic with "Hm"). iIntros "Hm".
  iDestruct ("Hl" $! st with "[//] Hns Hlist Hm Hpos Hprev") as "Hl". iDestruct (is_list_items_ok with "Hl") as %[Hok _].
  w_bind. iApply (W_list_fuel with "Hl"). iIntros (n Hn _) "Hl". iApply (W_find_loop with "Hl HQ"); [done|by destruct Hst|lia].
Qed.

Lemma W_list_delete_item l fd ns its1 i st its2 cs Q : is_list 0 l fd ns (its1 ++ (i, st) :: its2) -∗ pools -∗ called cs -∗
  (is_list 0 l fd (if st.2 then del (mark_cell st) ns else ns)
     (if st.2 then remark (mark_remove (mark_cell st)) (its1 ++ (i, st) :: its2) else its1 ++ (i, st) :: its2) -∗
   pools -∗ called (if st.2 then cs ++ deletions fd [default NULL (ns.*2 !! mark_cell st)] else cs) -∗ Q (Z.b2z st.2)) -∗
  W (list_delete_item i) Q.
Proof.
  iIntros "Hl Hp Hcs HQ". unfold list_delete_item.
  iDestruct (is_list_iter with "Hl") as "(%Hst & %Hi & Hns & Hlist & Hm & Hpos & Hprev & Hl)". w_assert; [unfold NULL; lia|].
  w_bind. iApply (W_check_magic with "Hm"). iIntros "Hm". iDestruct ("Hl" $! st with "[//] Hns Hlist Hm Hpos Hprev") as "Hl".
  iDestruct (is_list_items_ok with "Hl") as %[[Hnn _] _]. w_bind. iApply (W_list_remove with "Hl Hp"). iIntros "Hl Hp".
  destruct st as [k [|]], Hst as [Hk Hk1]; cbn [fst snd] in *; [|w_ret; iApply ("HQ" with "Hl Hp Hcs")]. specialize (Hk1 eq_refl).
  destruct (lookup_lt_is_Some_2 ns (mark_cell (k, true))) as [[p x] E]; [unfold mark_cell; cbn; lia|].
  pose proof (Forall_lookup_1 _ _ _ _ Hnn E) as Hx. cbn in Hx. rw list_lookup_fmap E. cbn [fmap option_fmap option_map from_option id snd].
  rewrite -> (proj2 (Z.eqb_neq x NULL)) by done. iEval (rw remark_app) in "Hl".
  iDestruct (is_list_iter with "Hl") as "(%Hst & _ & Hns & Hlist & Hm & Hpos & Hprev & Hl)". w_load. iIntros "Hlist".
  iDestruct ("Hl" with "[//] Hns Hlist Hm Hpos Hprev") as "Hl". w_bind. iApply (W_is_list_delete_data with "Hl Hcs"). iIntros "Hl Hcs".
  w_ret. iApply ("HQ" with "[Hl] Hp Hcs"). by iEval (rw remark_app).
Qed.

Lemma W_unlink l ns i st its2 : forall its1 c n, (length its1 < n)%nat -> i ∉ its1.*1 ->
  chain 24 (iter_at l ns) c (its1 ++ (i, st) :: its2) -∗
  W (hloop n (fun pi =>
          j ← load pi;
          if j =? NULL then hret (inr tt) else
          _ ← check_magic (i_magic j);
          if j =? i then
            nx ← load (i_iNext j);
            _ ← store pi nx;
            hret (inr tt)
          else hret (inl (i_iNext j))) c)
    (fun _ => chain 24 (iter_at l ns) c (its1 ++ its2) ∗ iter_at l ns i st ∗ ∃ v, i_iNext i ↦ v).
Proof.
  induction its1 as [|[j st1] its1 IH]; intros c n Hn Hni; (destruct n as [|n]; [cbn in Hn; lia|]); iIntros "Hc"; iApply W_loop; cbn [app];
    iDestruct (chain_cons with "Hc") as "(Hc & %Hj & [(Hl & Hm & Hpos & Hprev) %Hst] & Hr)"; w_load; iIntros "Hc";
    rewrite -> (proj2 (Z.eqb_neq _ NULL)) by (unfold NULL; lia); w_bind; iApply (W_check_magic with "Hm"); iIntros "Hm".
  - rw Z.eqb_refl. iDestruct (chain_after with "Hr") as "[Hn Hr]". w_load. iIntros "Hn". w_store. iIntros "Hc". w_ret.
    iSplitL "Hc Hr"; [iApply chain_after; iFrame|]. iSplitR "Hn"; [by iFrame|by iExists _].
  - apply not_elem_of_cons in Hni as [Hne Hni]. rewrite -> (proj2 (Z.eqb_neq j i)) by (by intros ->). w_ret.
    iApply (W_mono with "[Hr]"); [iApply (IH with "Hr"); [cbn in Hn; lia|done]|]. iIntros (r) "(Hr & Hi & Hn)". iFrame "Hi Hn".
    iApply chain_cons. by iFrame.
Qed.

Lemma W_iterator_destroy l fd ns its1 i st its2 Q : is_list 0 l fd ns (its1 ++ (i, st) :: its2) -∗ pools -∗
  (is_list 0 l fd ns (its1 ++ its2) -∗ pools -∗ Q tt) -∗ W (list_iterator_destroy i) Q.
Proof.
  iIntros "Hl Hp HQ". unfold list_iterator_destroy. w_bind. iApply (W_on_iterator with "Hl"). iIntros "Hl". w_bind.
  iApply (W_list_fuel with "Hl"). iIntros (n _ Hn) "(Hns & Hits & Hr)". iDestruct (chain_distinct with "Hits") as %HN.
  iDestruct (iters_acc with "Hits") as "(%Hi & Hit & Hits)". iDestruct ("Hits" with "Hit") as "Hits".
  iApply (W_mono with "[Hits]").
  { iApply (W_unlink with "Hits"); [rw length_app in Hn; cbn in Hn; lia|]. apply NoDup_cons in HN as [_ HN]. rw fmap_app in HN.
    apply NoDup_app in HN as (_ & HN & _). intros Hin. apply list_elem_of_fmap in Hin as ([i' st'] & -> & Hin).
    apply (HN (i' + 24)); [apply list_elem_of_fmap; by exists (i', st')|]. cbn. left. }
  iIntros ([]) "(Hits & [(Hlist & Hm & Hpos & Hprev) _] & Hn)". iExists ns, (its1 ++ its2). iFrame "Hns Hits Hr". iIntros "Hl".
  w_store. iIntros "Hm". iApply (W_iterator_free with "[Hlist Hpos Hprev Hn Hm] Hp"); [done| |].
  { rw raw_iterator. iSplitL "Hlist"; [by iExists _|]. iSplitL "Hpos"; [by iExists _|]. iSplitL "Hprev"; [by iExists _|].
    iFrame "Hn". by iExists _. }
  iIntros "Hp". iApply ("HQ" with "Hl Hp").
Qed.

(** ** Two lists *)

(** The marks while [xs] is appended to a list of [n] items. *)
Fixpoint append_mark (n : nat) (xs : list Z) (st : mark) : mark :=
  match xs with [] => st | _ :: xs => append_mark (S n) xs (mark_insert n st) end.

Lemma W_append_list_loop l sub fd fd2 ns2 its2 i : items_ok ns2 -> forall n k m ns its Q,
  (k <= length ns2)%nat -> (length ns2 - k < n)%nat -> 0 <= m -> m + Z.of_nat (length ns2 - k) <= i32_max ->
  Z.of_nat (length ns + (length ns2 - k)) <= i32_max -> forall cur,
  is_list 0 l fd ns its -∗ is_list 0 sub fd2 ns2 ((i, (k, cur)) :: its2) -∗ pools -∗
  (∀ ns' st, ⌜ns'.*2 = ns.*2 ++ drop k ns2.*2⌝ -∗ is_list 0 l fd ns' (remark (append_mark (length ns) (drop k ns2.*2)) its) -∗
     is_list 0 sub fd2 ns2 ((i, st) :: its2) -∗ pools -∗ Q (m + Z.of_nat (length ns2 - k))) -∗
  W (hloop n (fun n =>
        v ← list_next i;
        if v =? NULL then hret (inr n) else
        r ← list_append l v;
        if r =? NULL then hret (inr n) else
        n ← hlift (i32 (n + 1));
        hret (inl n)) m) Q.
Proof.
  intros [Hnn _]. induction n as [|n IH]; intros k m ns its Q Hk Hn Hm Hmax Hlen cur; [lia|]. iIntros "Hl Hs Hp HQ". iApply W_loop.
  w_bind. iApply (W_list_next sub fd2 ns2 [] i (k, cur) its2 with "Hs"). iIntros "Hs". cbn [fst app].
  destruct (ns2.*2 !! k) as [x|] eqn:E; cbn [from_option id].
  - assert (Hx : x <> NULL).
    { rw list_lookup_fmap in E. destruct (ns2 !! k) as [[p y]|] eqn:E'; [|done]. injection E as <-. by apply (Forall_lookup_1 _ _ _ _ Hnn) in E'. }
    assert (Hlt : (k < length ns2)%nat) by (apply lookup_lt_Some in E; by rw length_fmap in E).
    rewrite -> (proj2 (Z.eqb_neq x NULL)) by done. w_bind. iApply (W_list_append with "Hl Hp"); [done|lia|]. iIntros (p) "Hl Hp".
    rewrite -> (proj2 (Z.eqb_neq x NULL)) by done. w_bind. iApply W_lift; [apply i32_ok; unfold i32_min in *; lia|]. w_ret.
    unfold mark_next. cbn [fst]. rewrite -> (proj2 (Nat.ltb_lt _ _)) by done.
    iApply (IH with "Hl Hs Hp"); [lia|lia|lia|lia|rw length_app; cbn; lia|].
    iIntros (ns' st Ens) "Hl Hs Hp". rw (drop_S _ _ _ E) remark_remark. replace (m + 1 + Z.of_nat (length ns2 - S k))
      with (m + Z.of_nat (length ns2 - k)) by lia. rw length_app Nat.add_comm.
    iApply ("HQ" with "[%] Hl Hs Hp"). rw Ens fmap_app -app_assoc. done.
  - w_ret. apply lookup_ge_None in E. rw length_fmap in E. rewrite -> (drop_ge ns2.*2 k) by (by rw length_fmap).
    replace (length ns2 - k)%nat with 0%nat by lia. rw Z.add_0_r. cbn [append_mark].
    iApply ("HQ" with "[%] [Hl] Hs Hp"); [by rw app_nil_r|by rw remark_id].
Qed.

Lemma W_list_append_list l sub fd2 ns its ns2 its2 Q : Z.of_nat (length ns + length ns2) <= i32_max ->
  is_list 0 l NULL ns its -∗ is_list 0 sub fd2 ns2 its2 -∗ pools -∗
  (∀ ns', ⌜ns'.*2 = ns.*2 ++ ns2.*2⌝ -∗ is_list 0 l NULL ns' (remark (append_mark (length ns) ns2.*2) its) -∗
     is_list 0 sub fd2 ns2 its2 -∗ pools -∗ Q (Z.of_nat (length ns2))) -∗
  W (list_append_list l sub) Q.
Proof.
  iIntros (Hlen) "Hl Hs Hp HQ". unfold list_append_list. iDestruct (is_list_items_ok with "Hl") as %[_ Hl].
  iDestruct (is_list_items_ok with "Hs") as %[Hok Hs]. w_assert; [unfold NULL; lia|].
  iDestruct "Hl" as "(Hns & Hits & (Htail & Hfd & Hr) & %Hok1)". w_load. iIntros "Hfd". w_assert; [done|]. w_assert; [unfold NULL; lia|].
  w_bind. iApply (W_iterator_create with "Hs Hp"). iIntros (i) "Hs Hp". w_bind. iApply (W_list_fuel with "Hs"). iIntros (n Hn _) "Hs".
  w_bind. iApply (W_append_list_loop l sub NULL fd2 ns2 its2 i Hok n 0 0 ns its with "[Hns Hits Htail Hfd Hr] Hs Hp");
    [lia|lia|done|lia|lia|by iFrame|].
  iIntros (ns' st E) "Hl Hs Hp". w_bind. iApply (W_iterator_destroy sub fd2 ns2 [] with "Hs Hp"). iIntros "Hs Hp". w_ret.
  rw Nat.sub_0_r Z.add_0_l drop_0. iApply ("HQ" with "[//] Hl Hs Hp").
Qed.

Lemma W_transfer_loop l sub fd fd2 ns2 : Forall (fun n => n.2 <> NULL) ns2 -> forall n m ns its its2 Q,
  (length ns2 < n)%nat -> 0 <= m -> m + Z.of_nat (length ns2) <= i32_max -> Z.of_nat (length ns + length ns2) <= i32_max ->
  is_list 0 l fd ns its -∗ is_list 0 sub fd2 ns2 its2 -∗ pools -∗
  (∀ ns', ⌜ns'.*2 = ns.*2 ++ ns2.*2⌝ -∗ is_list 0 l fd ns' (remark (append_mark (length ns) ns2.*2) its) -∗
     is_list 0 sub fd2 [] (remark (purge_mark (fun _ => true) 0 ns2.*2) its2) -∗ pools -∗ Q (m + Z.of_nat (length ns2))) -∗
  W (hloop n (fun n =>
    v ← list_pop sub;
    if v =? NULL then hret (inr n) else
    r ← list_append l v;
    if r =? NULL then _ ← delete_data l v; hret (inr n) else
    n ← hlift (i32 (n + 1));
    hret (inl n)) m) Q.
Proof.
  induction 1 as [|[p x] ns2 Hx _ IH]; intros n m ns its its2 Q Hn Hm Hmax Hlen; (destruct n as [|n]; [cbn in Hn; lia|]);
    iIntros "Hl Hs Hp HQ"; iApply W_loop; w_bind; iApply (W_list_pop with "Hs Hp"); iIntros "Hs Hp";
    cbn [fmap list_fmap head from_option id snd tail length] in *.
  { rw Z.eqb_refl. w_ret. rw Z.add_0_r. cbn [append_mark purge_mark]. iApply ("HQ" with "[%] [Hl] [Hs] Hp"); [by rw app_nil_r|by rw remark_id..]. }
  rewrite -> (proj2 (Z.eqb_neq x NULL)) by done. w_bind. iApply (W_list_append with "Hl Hp"); [done|lia|]. iIntros (q) "Hl Hp".
  rewrite -> (proj2 (Z.eqb_neq x NULL)) by done. w_bind. iApply W_lift; [apply i32_ok; unfold i32_min in *; lia|]. w_ret.
  iApply (IH with "Hl Hs Hp"); [lia|lia|lia|rw length_app; cbn; lia|]. iIntros (ns' Ens) "Hl Hs Hp". rw !remark_remark.
  replace (m + 1 + Z.of_nat (length ns2)) with (m + Z.of_nat (S (length ns2))) by lia. rw length_app Nat.add_comm.
  iApply ("HQ" with "[%] Hl Hs Hp"). rw Ens fmap_app -app_assoc. done.
Qed.

Lemma W_list_transfer l sub fd ns its ns2 its2 Q : Z.of_nat (length ns + length ns2) <= i32_max ->
  is_list 0 l fd ns its -∗ is_list 0 sub fd ns2 its2 -∗ pools -∗
  (∀ ns', ⌜ns'.*2 = ns.*2 ++ ns2.*2⌝ -∗ is_list 0 l fd ns' (remark (append_mark (length ns) ns2.*2) its) -∗
     is_list 0 sub fd [] (remark (purge_mark (fun _ => true) 0 ns2.*2) its2) -∗ pools -∗ Q (Z.of_nat (length ns2))) -∗
  W (list_transfer l sub) Q.
Proof.
  iIntros (Hlen) "Hl Hs Hp HQ". unfold list_transfer. iDestruct (is_list_items_ok with "Hl") as %[_ Hl].
  iDestruct (is_list_items_ok with "Hs") as %[Hok Hs]. w_assert; [unfold NULL; lia|]. w_assert; [unfold NULL; lia|].
  iDestruct "Hl" as "(Hns & Hits & (Htail & Hfd & Hr) & %Hok1)". w_load. iIntros "Hfd".
  iDestruct "Hs" as "(Hns2 & Hits2 & (Htail2 & Hfd2 & Hr2) & %Hok2)". w_load. iIntros "Hfd2". w_assert; [by rw Z.eqb_refl|].
  w_bind. iApply (W_list_fuel 0 sub fd ns2 its2 with "[Hns2 Hits2 Htail2 Hfd2 Hr2]"); [by iFrame|]. iIntros (n Hn _) "Hs".
  iApply (W_transfer_loop l sub fd fd ns2 (proj1 Hok) n 0 ns its with "[Hns Hits Htail Hfd Hr] Hs Hp"); [lia|done|lia|lia|by iFrame|].
  iIntros (ns' E) "Hl Hs Hp". iApply ("HQ" with "[//] Hl Hs Hp").
Qed.
End iterators.

(** ** Sorting *)

Section sorting.
Context `{!memG Σ}.
Implicit Types (ns : list (Z * Z)) (its : list (Z * mark)) (st : mark).

Lemma W_pop_all l fd ns : Forall (fun n => n.2 <> NULL) ns -> forall n its xs Q,
  (length ns < n)%nat -> Z.of_nat (length xs + length ns) <= i32_max ->
  is_list 1 l fd ns its -∗ pools -∗
  (∀ g, is_list 1 l fd [] (remark g its) -∗ pools -∗ Q (Z.of_nat (length xs + length ns), xs ++ ns.*2)) -∗
  W (hloop n (fun '(n, v) =>
      e ← _list_pop_locked l;
      if e =? NULL then hret (inr (n, v)) else
      v ← hlift (aset v n e);
      n ← hlift (i32 (n + 1));
      hret (inl (n, v))) (Z.of_nat (length xs), xs ++ replicate (length ns) NULL)) Q.
Proof.
  induction 1 as [|[p x] ns Hx _ IH]; intros n its xs Q Hn Hlen; (destruct n as [|n]; [cbn in Hn; lia|]);
    iIntros "Hl Hp HQ"; iApply W_loop; w_bind; iApply (W_pop_locked with "Hl Hp"); iIntros "Hl Hp";
    cbn [fmap list_fmap head from_option id snd tail length replicate] in *.
  { rw Z.eqb_refl. w_ret. rw Nat.add_0_r. iApply ("HQ" $! (fun st => st) with "[Hl] Hp"). by rw remark_id. }
  rewrite -> (proj2 (Z.eqb_neq x NULL)) by done. w_bind.
  iApply (W_lift _ (xs ++ x :: replicate (length ns) NULL)).
  { unfold aset. rewrite -> (proj2 (andb_true_iff _ _)); [|rw length_app; cbn; lia]. rw Nat2Z.id insert_app_r_alt // Nat.sub_diag. done. }
  w_bind. iApply W_lift; [apply i32_ok; unfold i32_min in *; lia|]. w_ret.
  replace (Z.of_nat (length xs) + 1) with (Z.of_nat (length (xs ++ [x]))) by (rw length_app; cbn; lia).
  replace (xs ++ x :: replicate (length ns) NULL) with ((xs ++ [x]) ++ replicate (length ns) NULL) by (by rw -app_assoc). iApply (IH with "Hl Hp"); [lia|rw length_app; cbn; lia|]. iIntros (g) "Hl Hp".
  rw remark_remark -app_assoc length_app. replace (length xs + length [x] + length ns)%nat with (length xs + S (length ns))%nat by (cbn; lia).
  iApply ("HQ" with "Hl Hp").
Qed.

Lemma W_append_all l fd xs2 : Forall (fun x => x <> NULL) xs2 -> forall n xs1 ns its Q,
  (length xs2 < n)%nat -> ns.*2 = xs1 -> Z.of_nat (length xs1 + length xs2) <= i32_max ->
  is_list 1 l fd ns its -∗ pools -∗
  (∀ ns' g, ⌜ns'.*2 = xs1 ++ xs2⌝ -∗ is_list 1 l fd ns' (remark g its) -∗ pools -∗ Q tt) -∗
  W (hloop n (fun n =>
        if n <? Z.of_nat (length xs1 + length xs2) then
          e ← hlift (aget (xs1 ++ xs2) n);
          _ ← _list_append_locked l e;
          hret (inl (n + 1))
        else hret (inr tt)) (Z.of_nat (length xs1))) Q.
Proof.
  induction 1 as [|x xs2 Hx _ IH]; intros n xs1 ns its Q Hn Ens Hlen; (destruct n as [|n]; [cbn in Hn; lia|]);
    iIntros "Hl Hp HQ"; iApply W_loop; cbn [length] in *.
  { rewrite -> (proj2 (Z.ltb_ge _ _)) by lia. w_ret. iApply ("HQ" $! ns (fun st => st) with "[%] [Hl] Hp"); [by rw app_nil_r|by rw remark_id]. }
  rewrite -> (proj2 (Z.ltb_lt _ _)) by lia. w_bind. iApply W_lift.
  { apply aget_lookup; [lia|]. rw Nat2Z.id. by apply list_lookup_middle. }
  assert (Hl : length ns = length xs1) by (by rw -Ens length_fmap).
  w_bind. iApply (W_append_locked with "Hl Hp"); [done|lia|]. iIntros (p) "Hl Hp". w_ret.
  replace (Z.of_nat (length xs1) + 1) with (Z.of_nat (length (xs1 ++ [x]))) by (rw length_app; cbn; lia).
  replace (xs1 ++ x :: xs2) with ((xs1 ++ [x]) ++ xs2) by (by rw -app_assoc). replace (length xs1 + S (length xs2))%nat with (length (xs1 ++ [x]) + length xs2)%nat by (rw length_app; cbn; lia).
  iApply (IH with "Hl Hp"); [lia|by rw fmap_app Ens|rw length_app; cbn; lia|]. iIntros (ns' g E) "Hl Hp".
  rw remark_remark. iApply ("HQ" with "[//] Hl Hp").
Qed.

Lemma W_reset_iterators l ns its Q : iters l ns its -∗ nodes l ns -∗
  (iters l ns (remark (fun _ => mark_start) its) -∗ nodes l ns -∗ Q tt) -∗
  W (for_iterators l (fun i => l' ← load (i_list i); rewind i l')) Q.
Proof.
  apply W_for_iterators; [apply iter_magic|]. clear its Q. intros i st Q. iIntros "[(Hl & Hm & Hpos & Hprev) %Hok] Hns HQ".
  w_load. iIntros "Hl". unfold rewind. iDestruct (chain_head with "Hns") as "[Hh Hns]". w_load. iIntros "Hh".
  iDestruct ("Hns" with "Hh") as "Hns". w_store. iIntros "Hpos". w_store. iIntros "Hprev". iApply ("HQ" with "[-Hns] Hns"). iFrame.
  iPureIntro. apply mark_start_ok.
Qed.

Section qsort.
Variable qsort : (Z -> Z -> Z) -> list Z -> list Z.
Hypothesis qsort_perm : forall f xs, qsort f xs ≡ₚ xs.

(** The sorted items; lists of at most one item are left alone, with their
    iterators. *)
Lemma W_list_sort l fd ns its f Q : is_list 0 l fd ns its -∗ pools -∗
  (∀ ns', ⌜ns'.*2 = if (length ns <=? 1)%nat then ns.*2 else qsort f ns.*2⌝ -∗
     is_list 0 l fd ns' (if (length ns <=? 1)%nat then its else remark (fun _ => mark_start) its) -∗ pools -∗ Q tt) -∗
  W (list_sort qsort l f) Q.
Proof.
  iIntros "Hl Hp HQ". iDestruct (is_list_items_ok with "Hl") as %[[Hnn Hlen] Hl]. unfold list_sort. w_assert; [unfold NULL; lia|].
  iDestruct "Hl" as "(Hns & Hits & (Htail & Hfd & Hcnt & Hmx & Hmg & _) & %Hok)".
  w_bind. iApply (W_check_magic with "Hmg"). iIntros "Hmg". w_bind. iApply (W_lock with "Hmx"). iIntros "Hmx". w_load. iIntros "Hcnt".
  destruct (Nat.leb_spec (length ns) 1) as [Hle|Hgt].
  { rewrite -> (proj2 (Z.leb_le _ _)) by lia. iApply (W_unlock with "Hmx"). iIntros "Hmx". iApply ("HQ" with "[//] [-Hp] Hp"). by iFrame. }
  rewrite -> (proj2 (Z.leb_gt _ _)) by lia. w_bind.
  iApply (W_list_fuel 1 l fd ns its with "[Hns Hits Htail Hfd Hcnt Hmx Hmg]"); [by iFrame|]. iIntros (n Hn _) "Hl". w_bind.
  rw Nat2Z.id. iApply (W_pop_all l fd ns Hnn n its [] with "Hl Hp"); [lia|cbn; lia|]. iIntros (g) "Hl Hp".
  cbn [length Nat.add app]. assert (Hl2 : length ns = length ns.*2) by (by rw length_fmap).
  assert (Hperm : length (qsort f ns.*2) = length ns) by (by rw (qsort_perm f ns.*2) length_fmap).
  rw Nat2Z.id. rewrite -> (take_ge ns.*2), (drop_ge ns.*2), app_nil_r by lia. w_bind.
  assert (HF : Forall (fun x => x <> NULL) (qsort f ns.*2)) by (rw (qsort_perm f ns.*2); by apply Forall_fmap).
  pose proof (W_append_all l fd (qsort f ns.*2) HF) as Happ. rw -Hperm.
  iApply (Happ (S (length (qsort f ns.*2))) [] [] with "Hl Hp"); [lia|done|cbn [length Nat.add]; lia|].
  iIntros (ns' g' E) "Hl Hp". iDestruct "Hl" as "(Hns & Hits & Hf & %Hok')". w_bind.
  iApply (W_reset_iterators with "Hits Hns"). iIntros "Hits Hns". iDestruct "Hf" as "(Htail & Hfd & Hcnt & Hmx & Hmg & _)".
  iApply (W_unlock with "Hmx"). iIntros "Hmx". iApply ("HQ" with "[//] [-Hp] Hp"). rw !remark_remark. by iFrame.
Qed.
End qsort.
End sorting.
