(* ===== verification/ListsMachine.v ===== *)
(** * Generic lists: programs and sequences

    Programs that use lists and iterators, any number of each, and the machine on
    sequences they are compared with: [a_step] says what every operation does to
    the items and to the places of the iterators.  [srep] describes the memory of
    a program. *)

From iris.proofmode Require Import proofmode environments.
From iris.base_logic.lib Require Import gen_heap ghost_var.
From S2P Require Import Prelude Heap Lists HeapLogic ListsLogic ListsOps ListsIter.

Local Open Scope Z_scope.

(** Operations; lists and iterators are named by the order of their creation. *)
Inductive lop : Type :=
| Create (fDel : Z)
| Destroy (l : nat)
| IsEmpty (l : nat)
| Count (l : nat)
| Append (l : nat) (x : Z)
| Prepend (l : nat) (x : Z)
| Push (l : nat) (x : Z)
| Enqueue (l : nat) (x : Z)
| Pop (l : nat)
| Dequeue (l : nat)
| Peek (l : nat)
| FindFirst (l : nat) (f : Z -> Z -> bool) (key : Z)
| DeleteAll (l : nat) (f : Z -> Z -> bool) (key : Z)
| Flush (l : nat)
| ForEach (l : nat) (f : Z -> Z -> Z * Z) (arg : Z)
| Sort (l : nat) (f : Z -> Z -> Z)
| IterCreate (l : nat)
| IterReset (i : nat)
| IterDestroy (i : nat)
| Next (i : nat)
| PeekNext (i : nat)
| Insert (i : nat) (x : Z)
| Find (i : nat) (f : Z -> Z -> bool) (key : Z)
| Remove (i : nat)
| DeleteItem (i : nat)
| AppendList (l sub : nat)
| Transfer (l sub : nat).

(** The addresses of the lists and of the iterators created so far. *)
Record env : Type := Env { e_lists : list Z; e_iters : list Z }.

Definition handle (hs : list Z) (k : nat) : hx Z := hlift (aget hs (Z.of_nat k)).

Section machine.
Variable qsort : (Z -> Z -> Z) -> list Z -> list Z.

Definition on_list {A} (e : env) (k : nat) (f : Z -> hx A) (out : A -> list Z) : hx (list Z * env) :=
  l ← handle (e_lists e) k; r ← f l; hret (out r, e).
Definition on_iter {A} (e : env) (k : nat) (f : Z -> hx A) (out : A -> list Z) : hx (list Z * env) :=
  i ← handle (e_iters e) k; r ← f i; hret (out r, e).
Definition none (_ : unit) : list Z := [].
Definition one (x : Z) : list Z := [x].

Definition run_lop (o : lop) (e : env) : hx (list Z * env) :=
  match o with
  | Create f => l ← list_create f; hret ([], Env (e_lists e ++ [l]) (e_iters e))
  | Destroy k => on_list e k list_destroy none
  | IsEmpty k => on_list e k list_is_empty (fun b => [Z.b2z b])
  | Count k => on_list e k list_count one
  | Append k x => on_list e k (fun l => list_append l x) one
  | Prepend k x => on_list e k (fun l => list_prepend l x) one
  | Push k x => on_list e k (fun l => list_push l x) one
  | Enqueue k x => on_list e k (fun l => list_enqueue l x) one
  | Pop k => on_list e k list_pop one
  | Dequeue k => on_list e k list_dequeue one
  | Peek k => on_list e k list_peek one
  | FindFirst k f key => on_list e k (fun l => list_find_first l f key) one
  | DeleteAll k f key => on_list e k (fun l => list_delete_all l f key) one
  | Flush k => on_list e k list_flush one
  | ForEach k f arg => on_list e k (fun l => list_for_each l f arg) (fun r => [r.1; r.2])
  | Sort k f => on_list e k (fun l => list_sort qsort l f) none
  | IterCreate k => l ← handle (e_lists e) k; i ← list_iterator_create l; hret ([], Env (e_lists e) (e_iters e ++ [i]))
  | IterReset j => on_iter e j list_iterator_reset none
  | IterDestroy j => on_iter e j list_iterator_destroy none
  | Next j => on_iter e j list_next one
  | PeekNext j => on_iter e j list_peek_next one
  | Insert j x => on_iter e j (fun i => list_insert i x) one
  | Find j f key => on_iter e j (fun i => list_find i f key) one
  | Remove j => on_iter e j list_remove one
  | DeleteItem j => on_iter e j list_delete_item one
  | AppendList k k2 => sub ← handle (e_lists e) k2; on_list e k (fun l => list_append_list l sub) one
  | Transfer k k2 => sub ← handle (e_lists e) k2; on_list e k (fun l => list_transfer l sub) one
  end.

Fixpoint run_lops (ops : list lop) (e : env) : hx (list (list Z)) :=
  match ops with
  | [] => hret []
  | o :: ops => '(x, e) ← run_lop o e; xs ← run_lops ops e; hret (x :: xs)
  end.

(** ** Sequences *)

(** A list is its items and its deletion function; an iterator is the list it
    belongs to and its mark. *)
Record alist : Type := AList { a_items : list Z; a_del : Z }.
Record astate : Type := AState { a_lists : list (option alist); a_iters : list (option (nat * mark)); a_calls : list (Z * Z) }.

Definition live_list (a : astate) (k : nat) : option alist := mjoin (a_lists a !! k).
Definition live_iter (a : astate) (j : nat) : option (nat * mark) := mjoin (a_iters a !! j).

(** New items for list [k], with the marks of its iterators changed by [g]. *)
Definition a_marks (k : nat) (g : mark -> mark) (ai : list (option (nat * mark))) : list (option (nat * mark)) :=
  fmap (M := option) (fun '(k', st) => if decide (k' = k) then (k', g st) else (k', st)) <$> ai.
Definition a_set (k : nat) (al : alist) (g : mark -> mark) (a : astate) : astate :=
  AState (<[k := Some al]> (a_lists a)) (a_marks k g (a_iters a)) (a_calls a).
Definition a_iter_set (j : nat) (it : option (nat * mark)) (a : astate) : astate :=
  AState (a_lists a) (<[j := it]> (a_iters a)) (a_calls a).
Definition a_call (cs : list (Z * Z)) (a : astate) : astate := AState (a_lists a) (a_iters a) (a_calls a ++ cs).

Definition room (al : alist) : bool := Z.of_nat (length (a_items al)) <? i32_max.

(** An item [x] put at position [j] of list [k]. *)
Definition a_put (k j : nat) (x : Z) (a : astate) : option (list Z * astate) :=
  al ← live_list a k;
  if (x =? NULL) || negb (room al) then None else
  Some ([x], a_set k (AList (take j (a_items al) ++ x :: drop j (a_items al)) (a_del al)) (mark_insert j) a).

Definition a_pop (k : nat) (a : astate) : option (list Z * astate) :=
  al ← live_list a k;
  Some (match a_items al with
        | [] => ([NULL], a)
        | x :: xs => ([x], a_set k (AList xs (a_del al)) (mark_remove 0) a)
        end).

(** An iterator with its list. *)
Definition with_iter (a : astate) (j : nat) (F : nat -> mark -> alist -> option (list Z * astate)) : option (list Z * astate) :=
  it ← live_iter a j;
  al ← live_list a it.1;
  F it.1 it.2 al.

Definition a_step (o : lop) (a : astate) : option (list Z * astate) :=
  match o with
  | Create f => Some ([], AState (a_lists a ++ [Some (AList [] f)]) (a_iters a) (a_calls a))
  | Destroy k =>
      al ← live_list a k;
      Some ([], a_call (deletions (a_del al) (a_items al))
        (AState (<[k := None]> (a_lists a))
           ((fun it => it ≫= fun '(k', st) => if decide (k' = k) then None else Some (k', st)) <$> a_iters a) (a_calls a)))
  | IsEmpty k => al ← live_list a k; Some ([Z.b2z (Z.of_nat (length (a_items al)) =? 0)], a)
  | Count k => al ← live_list a k; Some ([Z.of_nat (length (a_items al))], a)
  | Append k x | Enqueue k x => al ← live_list a k; a_put k (length (a_items al)) x a
  | Prepend k x | Push k x => a_put k 0 x a
  | Pop k | Dequeue k => a_pop k a
  | Peek k => al ← live_list a k; Some ([default NULL (head (a_items al))], a)
  | FindFirst k f key =>
      al ← live_list a k;
      if key =? NULL then None else Some ([first_match (fun x => f x key) (a_items al)], a)
  | DeleteAll k f key =>
      al ← live_list a k;
      let gone := filter (fun x => f x key = true) (a_items al) in
      Some ([Z.of_nat (length gone)],
        a_call (deletions (a_del al) gone)
          (a_set k (AList (filter (fun x => f x key = false) (a_items al)) (a_del al)) (purge_mark (fun x => f x key) 0 (a_items al)) a))
  | Flush k =>
      al ← live_list a k;
      Some ([Z.of_nat (length (a_items al))],
        a_call (deletions (a_del al) (a_items al)) (a_set k (AList [] (a_del al)) (purge_mark (fun _ => true) 0 (a_items al)) a))
  | ForEach k f arg => al ← live_list a k; let r := for_each f (a_items al) 0 arg in Some ([r.1; r.2], a)
  | Sort k f =>
      al ← live_list a k;
      Some ([], if (length (a_items al) <=? 1)%nat then a
                else a_set k (AList (qsort f (a_items al)) (a_del al)) (fun _ => mark_start) a)
  | IterCreate k => al ← live_list a k; Some ([], AState (a_lists a) (a_iters a ++ [Some (k, mark_start)]) (a_calls a))
  | IterReset j => with_iter a j (fun k st al => Some ([], a_iter_set j (Some (k, mark_start)) a))
  | IterDestroy j => with_iter a j (fun k st al => Some ([], a_iter_set j None a))
  | Next j => with_iter a j (fun k st al =>
      Some ([default NULL (a_items al !! st.1)], a_iter_set j (Some (k, mark_next (length (a_items al)) st)) a))
  | PeekNext j => with_iter a j (fun k st al => Some ([default NULL (a_items al !! st.1)], a))
  | Insert j x => with_iter a j (fun k st al => a_put k (mark_cell st) x a)
  | Find j f key => with_iter a j (fun k st al =>
      if key =? NULL then None else
      let r := find_from (fun x => f x key) st.1 (drop st.1 (a_items al)) in
      Some ([r.1], a_iter_set j (Some (k, r.2)) a))
  | Remove j => with_iter a j (fun k st al =>
      Some (if st.2 then
              ([default NULL (a_items al !! mark_cell st)],
               a_set k (AList (delete (mark_cell st) (a_items al)) (a_del al)) (mark_remove (mark_cell st)) a)
            else ([NULL], a)))
  | DeleteItem j => with_iter a j (fun k st al =>
      Some (if st.2 then
              ([1], a_call (deletions (a_del al) [default NULL (a_items al !! mark_cell st)])
                      (a_set k (AList (delete (mark_cell st) (a_items al)) (a_del al)) (mark_remove (mark_cell st)) a))
            else ([0], a)))
  | AppendList k k2 =>
      al ← live_list a k;
      al2 ← live_list a k2;
      if decide (k = k2) then None else
      if negb (a_del al =? NULL) || (i32_max <? Z.of_nat (length (a_items al) + length (a_items al2))) then None else
      Some ([Z.of_nat (length (a_items al2))],
            a_set k (AList (a_items al ++ a_items al2) (a_del al)) (append_mark (length (a_items al)) (a_items al2)) a)
  | Transfer k k2 =>
      al ← live_list a k;
      al2 ← live_list a k2;
      if decide (k = k2) then None else
      if negb (a_del al =? a_del al2) || (i32_max <? Z.of_nat (length (a_items al) + length (a_items al2))) then None else
      Some ([Z.of_nat (length (a_items al2))],
            a_set k (AList (a_items al ++ a_items al2) (a_del al)) (append_mark (length (a_items al)) (a_items al2))
              (a_set k2 (AList [] (a_del al2)) (purge_mark (fun _ => true) 0 (a_items al2)) a))
  end.

Fixpoint a_run (ops : list lop) (a : astate) : option (list (list Z) * astate) :=
  match ops with
  | [] => Some ([], a)
  | o :: ops => '(x, a) ← a_step o a; '(xs, a) ← a_run ops a; Some (x :: xs, a)
  end.
End machine.

(** ** The memory of a program *)

(** The iterators of list [k], the newest first: this is the order of the chain. *)
Definition pick (k : nat) (p : Z * option (nat * mark)) : option (Z * mark) :=
  match p.2 with Some (k', st) => if decide (k' = k) then Some (p.1, st) else None | None => None end.
Definition its_of (k : nat) (es : list Z) (ai : list (option (nat * mark))) : list (Z * mark) := reverse (omap (pick k) (zip es ai)).

Lemma its_of_marks k g es ai : its_of k es (a_marks k g ai) = remark g (its_of k es ai).
Proof.
  unfold its_of, remark. rw fmap_reverse. f_equal. revert es. induction ai as [|it ai IH]; intros [|i es]; try done.
  cbn [a_marks fmap list_fmap zip zip_with omap list_omap]. rw (IH es). destruct it as [[k' st]|]; [|done]. unfold pick. cbn [fmap option_fmap option_map snd fst].
  destruct (decide (k' = k)) as [->|Hne]; [by rewrite -> decide_True by done|by rewrite -> decide_False by done].
Qed.

Lemma its_of_marks_ne k k' g es ai : k' <> k -> its_of k' es (a_marks k g ai) = its_of k' es ai.
Proof.
  intros Hne. unfold its_of. f_equal. revert es. induction ai as [|it ai IH]; intros [|i es]; try done.
  cbn [a_marks fmap list_fmap zip zip_with omap list_omap]. rw (IH es). destruct it as [[k2 st]|]; [|done]. unfold pick. cbn [fmap option_fmap option_map snd fst].
  destruct (decide (k2 = k)) as [->|]; [|done]. by rewrite -> !decide_False by done.
Qed.

Lemma its_of_app k es1 es2 ai1 ai2 : length es1 = length ai1 -> its_of k (es1 ++ es2) (ai1 ++ ai2) = its_of k es2 ai2 ++ its_of k es1 ai1.
Proof. intros Hl. unfold its_of. rewrite -> zip_with_app by done. by rw omap_app reverse_app. Qed.

Lemma its_of_one k i it : its_of k [i] [it] = match pick k (i, it) with Some p => [p] | None => [] end.
Proof. unfold its_of. cbn. by destruct (pick k (i, it)). Qed.

(** An iterator in the list of its list's iterators. *)
Lemma its_of_split (es : list Z) (ai : list (option (nat * mark))) j i it : length es = length ai -> es !! j = Some i -> ai !! j = Some it ->
  exists es1 es2 ai1 ai2, length es1 = length ai1 /\ es = es1 ++ i :: es2 /\ ai = ai1 ++ it :: ai2 /\ j = length ai1.
Proof.
  intros Hl Hi Hit. exists (take j es), (drop (S j) es), (take j ai), (drop (S j) ai).
  pose proof (lookup_lt_Some _ _ _ Hit). rw !length_take !take_drop_middle; [|done|done]. split_and!; [lia|done|done|lia].
Qed.

Lemma its_of_middle k es1 i es2 ai1 it ai2 : length es1 = length ai1 ->
  its_of k (es1 ++ i :: es2) (ai1 ++ it :: ai2) =
    its_of k es2 ai2 ++ match pick k (i, it) with Some p => [p] | None => [] end ++ its_of k es1 ai1.
Proof.
  intros Hl. replace (es1 ++ i :: es2) with ((es1 ++ [i]) ++ es2) by (by rw -app_assoc).
  replace (ai1 ++ it :: ai2) with ((ai1 ++ [it]) ++ ai2) by (by rw -app_assoc).
  rewrite -> its_of_app by (by rw !length_app Hl). rewrite -> its_of_app by done. by rw its_of_one.
Qed.

(** ** Representation *)

Definition wf (e : env) (a : astate) : Prop :=
  length (e_lists e) = length (a_lists a) /\ length (e_iters e) = length (a_iters a) /\
  Forall (fun it => match it with Some (k, _) => (k < length (a_lists a))%nat | None => True end) (a_iters a).

Section rep.
Context `{!memG Σ}.

Definition list_rep (k : nat) (l : Z) (e : env) (a : astate) : iProp Σ :=
  match live_list a k with
  | Some al => ∃ ns, ⌜ns.*2 = a_items al⌝ ∗ is_list 0 l (a_del al) ns (its_of k (e_iters e) (a_iters a))
  | None => emp
  end.

(** The lists that are not in [K]. *)
Definition others (K : list nat) (e : env) (a : astate) : iProp Σ :=
  [∗ list] k ↦ l ∈ e_lists e, if decide (k ∈ K) then emp else list_rep k l e a.

Definition srep (e : env) (a : astate) : iProp Σ := pools ∗ called (a_calls a) ∗ others [] e a ∗ ⌜wf e a⌝.

Lemma others_take K k l e a : e_lists e !! k = Some l -> k ∉ K -> others K e a ⊣⊢ list_rep k l e a ∗ others (k :: K) e a.
Proof.
  intros Hl HK. unfold others. rw big_sepL_delete; [|done]. rewrite -> decide_False by done. f_equiv. apply big_sepL_proper.
  intros k' l' _. destruct (decide (k' = k)) as [->|Hne]; [by rewrite -> decide_True by left|].
  destruct (decide (k' ∈ K)); [by rewrite -> decide_True by (by right)|]. rewrite -> decide_False; [done|]. by rw not_elem_of_cons.
Qed.

Lemma others_change K e a a' is' :
  (forall k, k ∉ K -> live_list a' k = live_list a k /\ its_of k is' (a_iters a') = its_of k (e_iters e) (a_iters a)) ->
  others K e a ⊢ others K (Env (e_lists e) is') a'.
Proof.
  intros H. unfold others. cbn [e_lists]. apply big_sepL_mono. intros k l _. destruct (decide (k ∈ K)) as [|HK]; [done|].
  unfold list_rep. cbn [e_iters]. destruct (H k HK) as [-> ->]. done.
Qed.

Lemma live_list_set k x als ai cs k' : (k < length als)%nat ->
  live_list (AState (<[k := x]> als) ai cs) k' = if decide (k' = k) then x else mjoin (als !! k').
Proof.
  intros Hk. unfold live_list. cbn [a_lists]. destruct (decide (k' = k)) as [->|Hne]; [by rewrite -> list_lookup_insert_eq by done|].
  by rewrite -> list_lookup_insert_ne by done.
Qed.

Lemma live_list_lt a k al : live_list a k = Some al -> (k < length (a_lists a))%nat.
Proof. unfold live_list. destruct (a_lists a !! k) eqn:E; [|done]. intros _. by apply lookup_lt_Some in E. Qed.

(** Put list [k] back, with the iterators [ai']. *)
Lemma srep_put e a k l al ai' items' ns' cs' :
  e_lists e !! k = Some l -> live_list a k = Some al -> wf e a -> wf e (AState (a_lists a) ai' cs') ->
  (forall k', k' <> k -> its_of k' (e_iters e) ai' = its_of k' (e_iters e) (a_iters a)) -> ns'.*2 = items' ->
  is_list 0 l (a_del al) ns' (its_of k (e_iters e) ai') -∗ others [k] e a -∗ pools -∗ called cs' -∗
  srep e (AState (<[k := Some (AList items' (a_del al))]> (a_lists a)) ai' cs').
Proof.
  iIntros (Hl Hal Hwf Hwf' Hits Hns) "Hl Ho Hp Hcs". pose proof (live_list_lt _ _ _ Hal) as Hk. unfold srep. iFrame "Hp Hcs". iSplit.
  - iApply (others_take [] k l); [done|by apply not_elem_of_nil|]. iSplitL "Hl".
    + unfold list_rep. rewrite -> live_list_set, decide_True by done. iExists ns'. by iFrame.
    + destruct e as [es ies]. iApply (others_change with "Ho"). intros k' Hk'. rw not_elem_of_cons in Hk'. destruct Hk' as [Hne _].
      rewrite -> live_list_set, decide_False by done. split; [done|by apply Hits].
  - iPureIntro. destruct Hwf' as (H1 & H2 & H3). split_and!; cbn [a_lists a_iters e_lists e_iters] in *; by rw ?length_insert.
Qed.
End rep.

(** ** One operation *)

Section steps.
Context `{!memG Σ}.

Lemma wf_marks e a k g cs : wf e a -> wf e (AState (a_lists a) (a_marks k g (a_iters a)) cs).
Proof.
  intros (H1 & H2 & H3). split_and!; cbn [a_lists a_iters]; [done|by rw /a_marks length_fmap|]. apply Forall_fmap.
  apply (Forall_impl _ _ _ H3). intros [[k' st]|]; [|done]. cbn. by destruct (decide (k' = k)).
Qed.

Lemma wf_handle e a k al : wf e a -> live_list a k = Some al -> exists l, e_lists e !! k = Some l /\ handle (e_lists e) k = hlift (Ret l).
Proof.
  intros (H1 & _) Hal. apply live_list_lt in Hal. rw -H1 in Hal. destruct (lookup_lt_is_Some_2 _ _ Hal) as [l Hl]. exists l. split; [done|].
  unfold handle. rewrite -> (aget_lookup _ _ l); [done|lia|by rw Nat2Z.id].
Qed.

(** The list [k] out of the memory of a program. *)
Lemma srep_take e a k al : live_list a k = Some al -> srep e a -∗
  ∃ l ns, ⌜e_lists e !! k = Some l⌝ ∗ ⌜handle (e_lists e) k = hlift (Ret l)⌝ ∗ ⌜wf e a⌝ ∗ ⌜ns.*2 = a_items al⌝ ∗
    is_list 0 l (a_del al) ns (its_of k (e_iters e) (a_iters a)) ∗ others [k] e a ∗ pools ∗ called (a_calls a).
Proof.
  iIntros (Hal) "(Hp & Hcs & Ho & %Hwf)". destruct (wf_handle e a k al Hwf Hal) as (l & Hl & Hh).
  iDestruct (others_take [] k l with "Ho") as "[Hl Ho]"; [done|by apply not_elem_of_nil|]. unfold list_rep. rw Hal.
  iDestruct "Hl" as (ns Hns) "Hl". iExists l, ns. by iFrame.
Qed.

Lemma step_list {A} e a k al (f : Z -> hx A) (out : A -> list Z) x items' g cs' :
  live_list a k = Some al ->
  (forall l ns its Q, ns.*2 = a_items al ->
     is_list 0 l (a_del al) ns its -∗ pools -∗ called (a_calls a) -∗
     (∀ r ns', ⌜out r = x⌝ -∗ ⌜ns'.*2 = items'⌝ -∗ is_list 0 l (a_del al) ns' (remark g its) -∗ pools -∗ called cs' -∗ Q r) -∗
     W (f l) Q) ->
  srep e a -∗ W (on_list e k f out) (fun r => ⌜r.1 = x⌝ ∗
    srep r.2 (AState (<[k := Some (AList items' (a_del al))]> (a_lists a)) (a_marks k g (a_iters a)) cs')).
Proof.
  iIntros (Hal Hf) "Hs". iDestruct (srep_take with "Hs") as (l ns) "(%Hl & %Hh & %Hwf & %Hns & Hl & Ho & Hp & Hcs)"; [done|].
  unfold on_list. rw Hh. w_bind. iApply W_lift; [done|]. w_bind. iApply (Hf with "Hl Hp Hcs"); [done|].
  iIntros (r ns' Hr Hns') "Hl Hp Hcs". w_ret. iSplit; [done|]. cbn [snd]. iEval (rw -its_of_marks) in "Hl".
  iApply (srep_put with "Hl Ho Hp Hcs"); [done|done|done|by apply wf_marks| |done]. intros k' Hne. by apply its_of_marks_ne.
Qed.

Lemma marks_id k ai : a_marks k (fun st => st) ai = ai.
Proof.
  unfold a_marks. rw -{2}(list_fmap_id ai). apply list_fmap_ext. intros _ [[k' st]|] _; [|done]. cbn. by destruct (decide (k' = k)).
Qed.

Lemma set_same a k al : live_list a k = Some al ->
  AState (<[k := Some (AList (a_items al) (a_del al))]> (a_lists a)) (a_marks k (fun st => st) (a_iters a)) (a_calls a) = a.
Proof.
  intros Hal. destruct a as [als ai cs]. cbn [a_lists a_iters a_calls]. rw marks_id. f_equal. unfold live_list in Hal. cbn [a_lists] in Hal.
  destruct (als !! k) as [x|] eqn:E; [|done]. cbn in Hal. subst x. apply list_insert_id. by destruct al.
Qed.

(** Operations that change nothing. *)
Lemma step_read {A} e a k al (f : Z -> hx A) (out : A -> list Z) x :
  live_list a k = Some al ->
  (forall l ns its Q, ns.*2 = a_items al ->
     is_list 0 l (a_del al) ns its -∗ (∀ r, ⌜out r = x⌝ -∗ is_list 0 l (a_del al) ns its -∗ Q r) -∗ W (f l) Q) ->
  srep e a -∗ W (on_list e k f out) (fun r => ⌜r.1 = x⌝ ∗ srep r.2 a).
Proof.
  iIntros (Hal Hf) "Hs". iApply (W_mono with "[Hs]").
  - iApply (step_list e a k al f out x (a_items al) (fun st => st) (a_calls a) with "Hs"); [done|].
    iIntros (l ns its Q Hns) "Hl Hp Hcs HQ". iApply (Hf with "Hl"); [done|]. iIntros (r Hr) "Hl".
    iApply ("HQ" with "[//] [//] [Hl] Hp Hcs"). by rw remark_id.
  - iIntros (r) "[%Hr Hs]". rewrite -> set_same by done. by iFrame.
Qed.

(** An iterator among those of its list, and the effect of moving it. *)
Lemma iter_split e a j k st : wf e a -> live_iter a j = Some (k, st) -> exists i its1 its2,
  handle (e_iters e) j = hlift (Ret i) /\ its_of k (e_iters e) (a_iters a) = its1 ++ (i, st) :: its2 /\
  (forall st', its_of k (e_iters e) (<[j := pair k <$> st']> (a_iters a)) = its1 ++ option_list (pair i <$> st') ++ its2) /\
  (forall st' k', k' <> k -> its_of k' (e_iters e) (<[j := pair k <$> st']> (a_iters a)) = its_of k' (e_iters e) (a_iters a)).
Proof.
  intros (_ & Hl & _) Hj. unfold live_iter in Hj. destruct (a_iters a !! j) as [it|] eqn:E; [|done]. cbn in Hj. subst it.
  destruct (lookup_lt_is_Some_2 (e_iters e) j) as [i Hi]; [rw Hl; by apply lookup_lt_Some in E|].
  destruct (its_of_split _ _ _ _ _ Hl Hi E) as (es1 & es2 & ai1 & ai2 & Hl1 & Ees & Eai & Hj).
  exists i, (its_of k es2 ai2), (its_of k es1 ai1). split; [|rw Ees Eai; split_and!].
  - unfold handle. rewrite -> (aget_lookup _ _ i); [done|lia|by rw Nat2Z.id].
  - rewrite -> its_of_middle by done. unfold pick. cbn [fst snd]. by rewrite -> decide_True by done.
  - intros st'. rewrite -> insert_app_r_alt by lia. rw Hj Nat.sub_diag /= its_of_middle; [|done]. unfold pick. cbn [fst snd].
    destruct st' as [st'|]; [|done]. cbn. by rewrite -> decide_True by done.
  - intros st' k' Hne. rewrite -> insert_app_r_alt by lia. rw Hj Nat.sub_diag /= !its_of_middle; [|done|done]. f_equal. f_equal.
    unfold pick. cbn [fst snd]. rewrite -> (decide_False (P := k = k')) by (by intros ->). destruct st' as [st'|]; [|done].
    cbn. by rewrite -> (decide_False (P := k = k')) by (by intros ->).
Qed.

Lemma wf_iter_set e a j k st' cs : wf e a -> (k < length (a_lists a))%nat ->
  wf e (AState (a_lists a) (<[j := pair k <$> st']> (a_iters a)) cs).
Proof.
  intros (H1 & H2 & H3) Hk. split_and!; cbn [a_lists a_iters]; [done|by rw length_insert|]. apply Forall_insert; [done|].
  by destruct st' as [st'|]; cbn.
Qed.

(** Operations that move or destroy an iterator. *)
Lemma step_iter {A} e a j k st al (f : Z -> hx A) (out : A -> list Z) x (st' : option mark) :
  live_iter a j = Some (k, st) -> live_list a k = Some al ->
  (forall l i ns its1 its2 Q, ns.*2 = a_items al ->
     is_list 0 l (a_del al) ns (its1 ++ (i, st) :: its2) -∗ pools -∗
     (∀ r, ⌜out r = x⌝ -∗ is_list 0 l (a_del al) ns (its1 ++ option_list (pair i <$> st') ++ its2) -∗ pools -∗ Q r) -∗
     W (f i) Q) ->
  srep e a -∗ W (on_iter e j f out) (fun r => ⌜r.1 = x⌝ ∗ srep r.2 (a_iter_set j (pair k <$> st') a)).
Proof.
  iIntros (Hj Hal Hf) "Hs". iDestruct (srep_take with "Hs") as (l ns) "(%Hl & _ & %Hwf & %Hns & Hl & Ho & Hp & Hcs)"; [done|].
  destruct (iter_split e a j k st Hwf Hj) as (i & its1 & its2 & Hh & Eits & Eset & Eother). rw Eits.
  unfold on_iter. rw Hh. w_bind. iApply W_lift; [done|]. w_bind. iApply (Hf with "Hl Hp"); [done|].
  iIntros (r Hr) "Hl Hp". w_ret. iSplit; [done|]. cbn [snd]. iEval (rw -(Eset st')) in "Hl".
  iDestruct (srep_put e a k l al _ (a_items al) ns with "Hl Ho Hp Hcs") as "Hs"; [done|done|done| |by intros; apply Eother|done|].
  { apply wf_iter_set; [done|by apply live_list_lt in Hal]. }
  unfold a_iter_set. pose proof (f_equal a_lists (set_same a k al Hal)) as E. cbn [a_lists] in E. by rw E.
Qed.

(** Operations that change the list of an iterator. *)
Lemma step_iter_list {A} e a j k st al (f : Z -> hx A) (out : A -> list Z) x items' g cs' :
  live_iter a j = Some (k, st) -> live_list a k = Some al ->
  (forall l i ns its1 its2 Q, ns.*2 = a_items al ->
     is_list 0 l (a_del al) ns (its1 ++ (i, st) :: its2) -∗ pools -∗ called (a_calls a) -∗
     (∀ r ns', ⌜out r = x⌝ -∗ ⌜ns'.*2 = items'⌝ -∗ is_list 0 l (a_del al) ns' (remark g (its1 ++ (i, st) :: its2)) -∗ pools -∗
        called cs' -∗ Q r) -∗
     W (f i) Q) ->
  srep e a -∗ W (on_iter e j f out) (fun r => ⌜r.1 = x⌝ ∗
    srep r.2 (AState (<[k := Some (AList items' (a_del al))]> (a_lists a)) (a_marks k g (a_iters a)) cs')).
Proof.
  iIntros (Hj Hal Hf) "Hs". iDestruct (srep_take with "Hs") as (l ns) "(%Hl & _ & %Hwf & %Hns & Hl & Ho & Hp & Hcs)"; [done|].
  destruct (iter_split e a j k st Hwf Hj) as (i & its1 & its2 & Hh & Eits & _ & _). iEval (rw Eits) in "Hl".
  unfold on_iter. rw Hh. w_bind. iApply W_lift; [done|]. w_bind. iApply (Hf with "Hl Hp Hcs"); [done|].
  iIntros (r ns' Hr Hns') "Hl Hp Hcs". w_ret. iSplit; [done|]. cbn [snd]. iEval (rw -Eits -its_of_marks) in "Hl".
  iApply (srep_put with "Hl Ho Hp Hcs"); [done|done|done|by apply wf_marks| |done]. intros k' Hne. by apply its_of_marks_ne.
Qed.
End steps.
