(* ===== verification/ListsProps.v ===== *)
(** * Generic lists: theorems

    Every operation of list.c does in memory what [a_step] does on sequences. *)

From stdpp Require Import sorting.
From iris.proofmode Require Import proofmode environments.
From iris.base_logic.lib Require Import gen_heap ghost_var.
From S2P Require Import Prelude Heap Lists HeapLogic ListsLogic ListsOps ListsIter ListsMachine.

Local Open Scope Z_scope.

(** ** Every operation *)

Section simulation.
Context `{!memG Σ}.
Variable qsort : (Z -> Z -> Z) -> list Z -> list Z.
Hypothesis qsort_perm : forall f xs, qsort f xs ≡ₚ xs.

Definition stepped (o : lop) : Prop := forall e a x a', a_step qsort o a = Some (x, a') ->
  srep e a -∗ W (run_lop qsort o e) (fun r => ⌜r.1 = x⌝ ∗ srep r.2 a').

(** Split [a_step] at the handle it looks up. *)
Ltac on_live :=
  match goal with |- context [live_list ?a ?n] => destruct (live_list a n) as [al|] eqn:Hal; [cbn [mbind option_bind]|done] end.
Ltac on_live_iter :=
  unfold with_iter;
  match goal with |- context [live_iter ?a ?n] => destruct (live_iter a n) as [[k st]|] eqn:Hj; [cbn [mbind option_bind fst snd]|done] end;
  on_live.

Lemma same_length (ns : list (Z * Z)) al : ns.*2 = a_items al -> length ns = length (a_items al).
Proof. intros <-. by rw length_fmap. Qed.

Lemma stepped_read o : match o with IsEmpty _ | Count _ | Peek _ | FindFirst _ _ _ | ForEach _ _ _ => True | _ => False end -> stepped o.
Proof.
  intros Ho e a x a'. destruct o; try done; cbn [a_step run_lop]; on_live.
  - intros [= <- <-]. apply step_read with al; [done|]. iIntros (h ns its Q Hns) "Hl HQ". iApply (W_list_is_empty with "Hl"). iIntros "Hl".
    iApply ("HQ" with "[%] Hl"). by rw (same_length ns al Hns).
  - intros [= <- <-]. apply step_read with al; [done|]. iIntros (h ns its Q Hns) "Hl HQ". iApply (W_list_count with "Hl"). iIntros "Hl".
    iApply ("HQ" with "[%] Hl"). by rw (same_length ns al Hns).
  - intros [= <- <-]. apply step_read with al; [done|]. iIntros (h ns its Q Hns) "Hl HQ". iApply (W_list_peek with "Hl"). iIntros "Hl".
    iApply ("HQ" with "[%] Hl"). by rw Hns.
  - destruct (Z.eqb_spec key NULL) as [|Hk]; [done|]. intros [= <- <-]. apply step_read with al; [done|]. iIntros (h ns its Q Hns) "Hl HQ".
    iApply (W_find_first with "Hl"); [done|]. iIntros "Hl". iApply ("HQ" with "[%] Hl"). by rw Hns.
  - intros [= <- <-]. apply step_read with al; [done|]. iIntros (h ns its Q Hns) "Hl HQ". iApply (W_list_for_each with "Hl"). iIntros "Hl".
    iApply ("HQ" with "[%] Hl"). by rw Hns.
Qed.

(** Putting an item at position [j], by any of the functions that do it. *)
Lemma put_items j (x p : Z) (ns : list (Z * Z)) : (ins j (p, x) ns).*2 = take j ns.*2 ++ x :: drop j ns.*2.
Proof. unfold ins. by rw fmap_app fmap_cons fmap_take fmap_drop. Qed.

Lemma room_spec al : room al = true -> Z.of_nat (length (a_items al)) < i32_max.
Proof. unfold room. lia. Qed.

Lemma stepped_put o : match o with Append _ _ | Enqueue _ _ | Prepend _ _ | Push _ _ => True | _ => False end -> stepped o.
Proof.
  intros Ho e a y a'. destruct o; try done; cbn [a_step run_lop]; unfold a_put; on_live;
    (destruct (Z.eqb_spec x NULL) as [|Hx]; [done|]; destruct (room al) eqn:Hr; [|done]; apply room_spec in Hr; cbn [orb negb]);
    intros [= <- <-]; apply (step_list e a l al); try done; iIntros (h ns its Q Hns) "Hl Hp Hcs HQ"; rw -(same_length ns al Hns) in Hr.
  - rw -(same_length ns al Hns). iApply (W_list_append with "Hl Hp"); [done|done|]. iIntros (p) "Hl Hp". iApply ("HQ" with "[//] [%] Hl Hp Hcs").
    rewrite -> fmap_app, Hns, (same_length ns al Hns), firstn_all, drop_all. done.
  - iApply (W_list_prepend with "Hl Hp"); [done|done|]. iIntros (p) "Hl Hp". iApply ("HQ" with "[//] [%] Hl Hp Hcs"). cbn. by rw Hns.
  - iApply (W_list_prepend with "Hl Hp"); [done|done|]. iIntros (p) "Hl Hp". iApply ("HQ" with "[//] [%] Hl Hp Hcs"). cbn. by rw Hns.
  - rw -(same_length ns al Hns). iApply (W_list_append with "Hl Hp"); [done|done|]. iIntros (p) "Hl Hp". iApply ("HQ" with "[//] [%] Hl Hp Hcs").
    rewrite -> fmap_app, Hns, (same_length ns al Hns), firstn_all, drop_all. done.
Qed.

Lemma stepped_pop o : match o with Pop _ | Dequeue _ => True | _ => False end -> stepped o.
Proof.
  intros Ho e a y a'. assert (H : exists k, a_step qsort o a = a_pop k a /\ run_lop qsort o e = on_list e k list_pop one).
  { destruct o; try done; by eexists. }
  destruct H as (k & -> & ->). unfold a_pop. on_live. destruct (a_items al) as [|x xs] eqn:Hit.
  - intros [= <- <-]. iIntros "Hs". iApply (W_mono with "[Hs]").
    + iApply (step_list e a k al list_pop one [NULL] (a_items al) (fun st => st) (a_calls a) with "Hs"); [done|].
      iIntros (h ns its Q Hns) "Hl Hp Hcs HQ". rw Hit in Hns. apply fmap_nil_inv in Hns as ->. iApply (W_list_pop with "Hl Hp").
      iIntros "Hl Hp". iApply ("HQ" $! _ [] with "[//] [%] [Hl] Hp Hcs"); [by rw Hit|by rw remark_id].
    + iIntros (r) "[%Hr Hs]". rewrite -> set_same by done. by iFrame.
  - intros [= <- <-]. apply (step_list e a k al); [done|]. iIntros (h ns its Q Hns) "Hl Hp Hcs HQ". rw Hit in Hns.
    destruct ns as [|[p x'] ns]; [done|]. injection Hns as -> Hns. iApply (W_list_pop with "Hl Hp"). iIntros "Hl Hp".
    iApply ("HQ" with "[//] [//] Hl Hp Hcs").
Qed.

Lemma stepped_purge o : match o with DeleteAll _ _ _ | Flush _ | Sort _ _ => True | _ => False end -> stepped o.
Proof.
  intros Ho e a y a'. destruct o; try done; cbn [a_step run_lop]; on_live.
  - intros [= <- <-]. apply (step_list e a l al); [done|]. iIntros (h ns its Q Hns) "Hl Hp Hcs HQ". rw -Hns.
    iApply (W_list_delete_all with "Hl Hp Hcs"). iIntros (ns' E) "Hl Hp Hcs". iApply ("HQ" with "[//] [//] Hl Hp Hcs").
  - intros [= <- <-]. apply (step_list e a l al); [done|]. iIntros (h ns its Q Hns) "Hl Hp Hcs HQ".
    rw -(same_length ns al Hns) -Hns. iApply (W_list_flush with "Hl Hp Hcs"). iIntros "Hl Hp Hcs".
    iApply ("HQ" $! _ [] with "[//] [//] Hl Hp Hcs").
  - destruct (Nat.leb_spec (length (a_items al)) 1) as [Hle|Hgt]; intros [= <- <-].
    + iIntros "Hs". iApply (W_mono with "[Hs]").
      * iApply (step_list e a l al _ none [] (a_items al) (fun st => st) (a_calls a) with "Hs"); [done|].
        iIntros (h ns its Q Hns) "Hl Hp Hcs HQ". iApply (W_list_sort qsort qsort_perm with "Hl Hp"). iIntros (ns' E) "Hl Hp".
        rewrite -> (proj2 (Nat.leb_le (length ns) 1)) in * by (rw (same_length ns al Hns); lia).
        iApply ("HQ" $! _ ns' with "[//] [%] [Hl] Hp Hcs"); [by rw E|by rw remark_id].
      * iIntros (r) "[%Hr Hs]". rewrite -> set_same by done. by iFrame.
    + apply (step_list e a l al); [done|]. iIntros (h ns its Q Hns) "Hl Hp Hcs HQ". iApply (W_list_sort qsort qsort_perm with "Hl Hp").
      iIntros (ns' E) "Hl Hp". rewrite -> (proj2 (Nat.leb_gt (length ns) 1)) in * by (rw (same_length ns al Hns); lia).
      iApply ("HQ" $! _ ns' with "[//] [%] Hl Hp Hcs"). by rw E Hns.
Qed.

Lemma stepped_move o : match o with IterReset _ | IterDestroy _ | Next _ | PeekNext _ | Find _ _ _ => True | _ => False end -> stepped o.
Proof.
  intros Ho e a y a'. destruct o; try done; cbn [a_step run_lop]; on_live_iter.
  - intros [= <- <-]. apply (step_iter e a i k st al _ _ _ (Some mark_start)); [done|done|].
    iIntros (l h ns its1 its2 Q Hns) "Hl Hp HQ". iApply (W_iterator_reset with "Hl"). iIntros "Hl". iApply ("HQ" with "[//] Hl Hp").
  - intros [= <- <-]. apply (step_iter e a i k st al _ _ _ None); [done|done|].
    iIntros (l h ns its1 its2 Q Hns) "Hl Hp HQ". iApply (W_iterator_destroy with "Hl Hp"). iIntros "Hl Hp". iApply ("HQ" with "[//] Hl Hp").
  - intros [= <- <-]. apply (step_iter e a i k st al _ _ _ (Some (mark_next (length (a_items al)) st))); [done|done|].
    iIntros (l h ns its1 its2 Q Hns) "Hl Hp HQ". iApply (W_list_next with "Hl"). iIntros "Hl". rw (same_length ns al Hns).
    iApply ("HQ" with "[%] Hl Hp"). by rw Hns.
  - intros [= <- <-]. iIntros "Hs". iApply (W_mono with "[Hs]").
    + iApply (step_iter e a i k st al _ one [default NULL (a_items al !! st.1)] (Some st) with "Hs"); [done|done|].
      iIntros (l h ns its1 its2 Q Hns) "Hl Hp HQ". iApply (W_list_peek_next with "Hl"). iIntros "Hl".
      iApply ("HQ" with "[%] Hl Hp"). by rw Hns.
    + iIntros (r) "[%Hr Hs]". iSplit; [done|]. assert (E : a_iter_set i (pair k <$> Some st) a = a); [|by rw E].
      unfold a_iter_set. destruct a as [als ai cs]. cbn [a_lists a_iters a_calls]. f_equal. apply list_insert_id.
      unfold live_iter in Hj. cbn [a_iters] in Hj. destruct (ai !! i); [|done]. cbn in Hj. by subst.
  - destruct (Z.eqb_spec key NULL) as [|Hk]; [done|]. intros [= <- <-].
    apply (step_iter e a i k st al _ _ _ (Some (find_from (fun x => f x key) st.1 (drop st.1 (a_items al))).2)); [done|done|].
    iIntros (l h ns its1 its2 Q Hns) "Hl Hp HQ". iApply (W_list_find with "Hl"); [done|]. iIntros "Hl". rw Hns.
    iApply ("HQ" with "[//] Hl Hp").
Qed.

Lemma del_items j (ns : list (Z * Z)) : (del j ns).*2 = delete j ns.*2.
Proof. unfold del. by rw fmap_app fmap_take fmap_drop -delete_take_drop. Qed.

Lemma step_iter_same {A} e a j k st al (f : Z -> hx A) (out : A -> list Z) x :
  live_iter a j = Some (k, st) -> live_list a k = Some al ->
  (forall l i ns its1 its2 Q, ns.*2 = a_items al ->
     is_list 0 l (a_del al) ns (its1 ++ (i, st) :: its2) -∗ pools -∗ called (a_calls a) -∗
     (∀ r, ⌜out r = x⌝ -∗ is_list 0 l (a_del al) ns (its1 ++ (i, st) :: its2) -∗ pools -∗ called (a_calls a) -∗ Q r) -∗ W (f i) Q) ->
  srep e a -∗ W (on_iter e j f out) (fun r => ⌜r.1 = x⌝ ∗ srep r.2 a).
Proof.
  iIntros (Hj Hal Hf) "Hs". iApply (W_mono with "[Hs]").
  - iApply (step_iter_list e a j k st al f out x (a_items al) (fun st => st) (a_calls a) with "Hs"); [done|done|].
    iIntros (l i ns its1 its2 Q Hns) "Hl Hp Hcs HQ". iApply (Hf with "Hl Hp Hcs"); [done|]. iIntros (r Hr) "Hl Hp Hcs".
    iApply ("HQ" with "[//] [//] [Hl] Hp Hcs"). by rw remark_id.
  - iIntros (r) "[%Hr Hs]". rewrite -> set_same by done. by iFrame.
Qed.

Lemma stepped_change o : match o with Insert _ _ | Remove _ | DeleteItem _ => True | _ => False end -> stepped o.
Proof.
  intros Ho e a y a'. destruct o; try done; cbn [a_step run_lop]; on_live_iter.
  - unfold a_put. rw Hal. cbn [mbind option_bind]. destruct (Z.eqb_spec x NULL) as [|Hx]; [done|].
    destruct (room al) eqn:Hr; [|done]. apply room_spec in Hr. intros [= <- <-]. apply (step_iter_list e a i k st al); [done|done|].
    iIntros (l h ns its1 its2 Q Hns) "Hl Hp Hcs HQ". iApply (W_list_insert with "Hl Hp"); [done|by rw (same_length ns al Hns)|].
    iIntros (p) "Hl Hp". iApply ("HQ" with "[//] [%] Hl Hp Hcs"). by rw put_items Hns.
  - destruct st as [n [|]]; cbn [snd]; intros [= <- <-].
    + apply (step_iter_list e a i k (n, true) al); [done|done|]. iIntros (l h ns its1 its2 Q Hns) "Hl Hp Hcs HQ".
      iApply (W_list_remove with "Hl Hp"). iIntros "Hl Hp". iApply ("HQ" with "[%] [%] Hl Hp Hcs"); cbn [snd]; [by rw Hns|by rw del_items Hns].
    + apply (step_iter_same e a i k (n, false) al); [done|done|]. iIntros (l h ns its1 its2 Q Hns) "Hl Hp Hcs HQ".
      iApply (W_list_remove with "Hl Hp"). iIntros "Hl Hp". iApply ("HQ" with "[//] Hl Hp Hcs").
  - destruct st as [n [|]]; cbn [snd]; intros [= <- <-].
    + apply (step_iter_list e a i k (n, true) al); [done|done|]. iIntros (l h ns its1 its2 Q Hns) "Hl Hp Hcs HQ".
      iApply (W_list_delete_item with "Hl Hp Hcs"). iIntros "Hl Hp Hcs". cbn [snd]. rw Hns.
      iApply ("HQ" with "[//] [%] Hl Hp Hcs"). by rw del_items Hns.
    + apply (step_iter_same e a i k (n, false) al); [done|done|]. iIntros (l h ns its1 its2 Q Hns) "Hl Hp Hcs HQ".
      iApply (W_list_delete_item with "Hl Hp Hcs"). iIntros "Hl Hp Hcs". iApply ("HQ" with "[//] Hl Hp Hcs").
Qed.

Lemma stepped_create f : stepped (Create f).
Proof.
  intros e a x a' [= <- <-]. iIntros "(Hp & Hcs & Ho & %Hwf)". cbn [run_lop]. w_bind. iApply (W_list_create with "Hp"). iIntros (l) "Hl Hp".
  w_ret. iSplit; [done|]. cbn [snd]. unfold srep. cbn [a_calls]. iFrame "Hp Hcs". destruct Hwf as (H1 & H2 & H3). iSplit.
  - unfold others. cbn [e_lists]. rw big_sepL_app. iSplitL "Ho".
    + iApply (big_sepL_impl with "Ho"). iIntros "!>" (k h Hk) "H". apply lookup_lt_Some in Hk. unfold list_rep, live_list. cbn [a_lists a_iters e_iters]. by rewrite -> lookup_app_l by lia.
    + rw big_sepL_singleton Nat.add_0_r /=. unfold list_rep, live_list. cbn [a_lists a_iters e_iters].
      rewrite -> list_lookup_middle by done. cbn [mjoin option_join a_items a_del]. iExists []. iSplit; [done|].
      assert (E : its_of (length (e_lists e)) (e_iters e) (a_iters a) = []); [|by rw E]. unfold its_of. rw H1. clear -H3.
      generalize (e_iters e). induction H3 as [|it ai Hit _ IH]; intros [|i is_]; try done. cbn [zip zip_with omap list_omap]. unfold pick at 1. cbn [fst snd].
      destruct it as [[k st]|]; [|apply IH]. rewrite -> decide_False by lia. apply IH.
  - iPureIntro. split_and!; cbn [a_lists a_iters e_lists e_iters]; [rw !length_app; cbn; lia|done|].
    apply (Forall_impl _ _ _ H3). intros [[k st]|]; [|done]. rw length_app. lia.
Qed.

Lemma stepped_destroy k : stepped (Destroy k).
Proof.
  intros e a x a'. cbn [a_step run_lop]. on_live. intros [= <- <-]. iIntros "Hs". pose proof (live_list_lt _ _ _ Hal) as Hk.
  iDestruct (srep_take with "Hs") as (l ns) "(%Hl & %Hh & %Hwf & %Hns & Hl & Ho & Hp & Hcs)"; [done|].
  unfold on_list. rw Hh. w_bind. iApply W_lift; [done|]. w_bind. iApply (W_list_destroy with "Hl Hp Hcs"). iIntros "Hp Hcs". w_ret.
  iSplit; [done|]. unfold srep, a_call. cbn [snd a_calls a_lists a_iters]. rw Hns. iFrame "Hp Hcs". iSplit.
  - iApply (others_take [] k l); [done|by apply not_elem_of_nil|]. iSplitR.
    + unfold list_rep. by rewrite -> live_list_set, decide_True by done.
    + destruct e as [es ies]. iApply (others_change with "Ho"). intros k' Hk'. rw not_elem_of_cons in Hk'. destruct Hk' as [Hne _].
      rewrite -> live_list_set, decide_False by done. split; [done|]. cbn [e_iters a_iters]. unfold its_of. f_equal. generalize (a_iters a). clear -Hne.
      induction ies as [|i ies IH]; intros [|it ai]; try done. cbn [fmap list_fmap zip zip_with omap list_omap]. rw IH. unfold pick. cbn [fst snd].
      destruct it as [[k2 st]|]; [|done]. cbn [mbind option_bind]. destruct (decide (k2 = k)) as [->|]; [|done]. by rewrite -> decide_False by done.
  - iPureIntro. destruct Hwf as (H1 & H2 & H3). split_and!; cbn [a_lists a_iters]; [by rw length_insert|by rw length_fmap|].
    apply Forall_fmap. apply (Forall_impl _ _ _ H3). intros [[k2 st]|]; [|done]. cbn. rw length_insert. by destruct (decide (k2 = k)).
Qed.

Lemma stepped_iter_create k : stepped (IterCreate k).
Proof.
  intros e a x a'. cbn [a_step run_lop]. on_live. intros [= <- <-]. iIntros "Hs". pose proof (live_list_lt _ _ _ Hal) as Hk.
  iDestruct (srep_take with "Hs") as (l ns) "(%Hl & %Hh & %Hwf & %Hns & Hl & Ho & Hp & Hcs)"; [done|]. rw Hh. w_bind. iApply W_lift; [done|].
  w_bind. iApply (W_iterator_create with "Hl Hp"). iIntros (i) "Hl Hp". w_ret. iSplit; [done|]. unfold srep. cbn [snd a_calls]. iFrame "Hp Hcs".
  destruct Hwf as (H1 & H2 & H3). iSplit.
  - iApply (others_take [] k l); [done|by apply not_elem_of_nil|]. iSplitL "Hl".
    + unfold list_rep. replace (live_list (AState (a_lists a) (a_iters a ++ [Some (k, mark_start)]) (a_calls a)) k) with (live_list a k) by done.
      rw Hal. iExists ns. iSplit; [done|]. cbn [a_iters e_iters]. rewrite -> its_of_app by done. rw its_of_one /pick /=. by rewrite -> decide_True by done.
    + iApply (others_change with "Ho"). intros k' Hk'. rw not_elem_of_cons in Hk'. destruct Hk' as [Hne _]. split; [done|]. cbn [a_iters].
      rewrite -> its_of_app by done. rw its_of_one /pick /=. by rewrite -> decide_False by (by intros ->).
  - iPureIntro. split_and!; cbn [a_lists a_iters e_lists e_iters]; [done|rw !length_app; cbn; lia|]. apply Forall_app. split; [done|].
    by apply Forall_singleton.
Qed.

Lemma stepped_append_list k k2 : stepped (AppendList k k2).
Proof.
  intros e a x a'. cbn [a_step run_lop]. destruct (live_list a k) as [al|] eqn:Hal; [cbn [mbind option_bind]|done].
  destruct (live_list a k2) as [al2|] eqn:Hal2; [cbn [mbind option_bind]|done].
  destruct (decide (k = k2)) as [|Hne]; [done|]. destruct (negb (a_del al =? NULL) || _) eqn:Hg; [done|]. apply orb_false_iff in Hg as [Hd Hlen].
  destruct al as [items del]. cbn [a_items a_del] in *. assert (del = NULL) as -> by lia. intros [= <- <-]. iIntros "Hs". iDestruct (srep_take e a k _ Hal with "Hs") as (l ns) "(%Hl & %Hh & %Hwf & %Hns & Hl & Ho & Hp & Hcs)".
  destruct (wf_handle e a k2 al2 Hwf Hal2) as (sub & Hsub & Hh2). rw Hh2. w_bind. iApply W_lift; [done|]. unfold on_list. rw Hh. w_bind.
  iApply W_lift; [done|]. iDestruct (others_take [k] k2 sub with "Ho") as "[Hs Ho]"; [done|by apply not_elem_of_cons; split; [done|apply not_elem_of_nil]|].
  unfold list_rep. rw Hal2. iDestruct "Hs" as (ns2 Hns2) "Hs". w_bind.
  iApply (W_list_append_list with "Hl Hs Hp"); [rewrite -> (same_length ns (AList items NULL) Hns), (same_length ns2 al2 Hns2); cbn [a_items]; lia|].
  iIntros (ns' E) "Hl Hs Hp". w_ret. rw (same_length ns2 al2 Hns2). iSplit; [done|]. cbn [snd].
  iAssert (others [k] e a) with "[Hs Ho]" as "Ho".
  { iApply (others_take [k] k2 sub); [done|by apply not_elem_of_cons; split; [done|apply not_elem_of_nil]|]. iFrame "Ho". unfold list_rep. rw Hal2.
    iExists ns2. by iFrame. }
  iEval (rw (same_length ns (AList items NULL) Hns) Hns2 -its_of_marks) in "Hl".
  iApply (srep_put e a k l (AList items NULL) with "Hl Ho Hp Hcs"); [done|done|done|by apply wf_marks| |by rw E Hns Hns2]. intros k' Hk'. by apply its_of_marks_ne.
Qed.

Lemma stepped_transfer k k2 : stepped (Transfer k k2).
Proof.
  intros e a x a'. cbn [a_step run_lop]. destruct (live_list a k) as [al|] eqn:Hal; [cbn [mbind option_bind]|done].
  destruct (live_list a k2) as [al2|] eqn:Hal2; [cbn [mbind option_bind]|done].
  destruct (decide (k = k2)) as [|Hne]; [done|]. destruct (negb (a_del al =? a_del al2) || _) eqn:Hg; [done|].
  apply orb_false_iff in Hg as [Hd Hlen]. assert (Ed : a_del al = a_del al2) by lia. intros [= <- <-]. iIntros "Hs".
  iDestruct (srep_take e a k al Hal with "Hs") as (l ns) "(%Hl & %Hh & %Hwf & %Hns & Hl & Ho & Hp & Hcs)".
  pose proof (live_list_lt _ _ _ Hal2) as Hk2.
  destruct (wf_handle e a k2 al2 Hwf Hal2) as (sub & Hsub & Hh2). rw Hh2. w_bind. iApply W_lift; [done|]. unfold on_list. rw Hh. w_bind.
  assert (HK : k2 ∉ [k]) by (by apply not_elem_of_cons; split; [done|apply not_elem_of_nil]).
  iApply W_lift; [done|]. iDestruct (others_take [k] k2 sub with "Ho") as "[Hs Ho]"; [done|done|].
  unfold list_rep. rw Hal2. iDestruct "Hs" as (ns2 Hns2) "Hs". w_bind. iEval (rw Ed) in "Hl".
  iApply (W_list_transfer with "Hl Hs Hp"); [rewrite -> (same_length ns al Hns), (same_length ns2 al2 Hns2); lia|].
  iIntros (ns' E) "Hl Hs Hp". w_ret. rw (same_length ns2 al2 Hns2). iSplit; [done|]. cbn [snd].
  set (a2 := a_set k2 (AList [] (a_del al2)) (purge_mark (fun _ => true) 0 (a_items al2)) a).
  iAssert (others [k] e a2) with "[Hs Ho]" as "Ho".
  { iApply (others_take [k] k2 sub); [done|done|]. iSplitL "Hs".
    - unfold list_rep, a2, a_set. rewrite -> live_list_set, decide_True by done. iExists []. iSplit; [done|]. cbn [a_iters a_del].
      rw its_of_marks Hns2. done.
    - destruct e as [es ies]. iApply (others_change with "Ho"). intros k' Hk'. unfold a2, a_set. rw not_elem_of_cons in Hk'. destruct Hk' as [Hk' _].
      rewrite -> live_list_set, decide_False by done. split; [done|]. cbn [a_iters e_iters]. by apply its_of_marks_ne. }
  assert (Hal' : live_list a2 k = Some al) by (unfold a2, a_set; by rewrite -> live_list_set, decide_False by done).
  assert (Hwf2 : wf e a2).
  { destruct (wf_marks e a k2 (purge_mark (fun _ => true) 0 (a_items al2)) (a_calls a) Hwf) as (H1 & H2 & H3). unfold a2, a_set.
    split_and!; cbn [a_lists a_iters] in *; by rw ?length_insert. }
  iEval (rw (same_length ns al Hns) Hns2 -(its_of_marks_ne k2 k (purge_mark (fun _ => true) 0 (a_items al2)) _ _ Hne) -its_of_marks -Ed) in "Hl".
  iApply (srep_put e a2 k l al with "Hl Ho Hp Hcs"); [done|done|done|by apply wf_marks| |by rw E Hns Hns2]. intros k' Hk'. by apply its_of_marks_ne.
Qed.

Lemma lop_ok o : stepped o.
Proof.
  destruct o; first [by apply stepped_read|by apply stepped_put|by apply stepped_pop|by apply stepped_purge|by apply stepped_move|
    by apply stepped_change|idtac]; first [apply stepped_create|apply stepped_destroy|apply stepped_iter_create|
    apply stepped_append_list|apply stepped_transfer].
Qed.

Lemma run_ok ops : forall e a xs a', a_run qsort ops a = Some (xs, a') ->
  srep e a -∗ W (run_lops qsort ops e) (fun r => ⌜r = xs⌝ ∗ called (a_calls a')).
Proof.
  induction ops as [|o ops IH]; intros e a xs a' H; cbn [a_run run_lops] in *.
  { injection H as <- <-. iIntros "(_ & Hcs & _)". w_ret. by iFrame. }
  destruct (a_step qsort o a) as [[x a1]|] eqn:E1; [|done]. cbn [mbind option_bind] in H.
  destruct (a_run qsort ops a1) as [[xs' a2]|] eqn:E2; [|done]. injection H as <- <-. iIntros "Hs". w_bind.
  iApply (W_mono with "[Hs]"); [by iApply (lop_ok o e a x a1)|]. iIntros ([x' e']) "[%Hx Hs]". cbn [fst snd] in *. subst x'. w_bind.
  iApply (W_mono with "[Hs]"); [by iApply (IH e' a1 xs' a2)|]. iIntros (r) "[-> Hcs]". w_ret. by iFrame.
Qed.
End simulation.

Definition no_lists : astate := AState [] [] [].

(** The memory a program starts with. *)
Lemma start_rep `{!memG Σ} : ([∗ map] a ↦ v ∈ mem start_heap, a ↦ v) -∗ called (calls start_heap) -∗ srep (Env [] []) no_lists.
Proof.
  iIntros "Hm Hcs". unfold start_heap. cbn [mem calls]. rw big_sepM_list_to_map; [|by apply (bool_decide_unpack _)].
  iDestruct "Hm" as "(H1 & H2 & H3 & H4 & _)". iFrame "Hcs". iSplitL.
  - unfold pools. iFrame "H4". iSplitL "H1"; [iExists []; by rw chain_nil|]. iSplitL "H2"; [iExists []; by rw chain_nil|].
    iExists []; by rw chain_nil.
  - iSplit; [done|]. iPureIntro. by split_and!; [..|constructor].
Qed.

Lemma run_sound qsort ops xs a : (forall f l, qsort f l ≡ₚ l) -> a_run qsort ops no_lists = Some (xs, a) ->
  exists h, run_lops qsort ops (Env [] []) start_heap = Ret (xs, h) /\ calls h = a_calls a.
Proof.
  intros Hq Hrun. destruct (W_sound (run_lops qsort ops (Env [] [])) start_heap (fun r cs => r = xs /\ cs = a_calls a)) as (r & h & E & -> & Hc).
  - done.
  - intros b [v Hv]. apply elem_of_list_to_map_2 in Hv. cbn. repeat (apply elem_of_cons in Hv as [[= -> _]|Hv]; [done|]). by apply not_elem_of_nil in Hv.
  - intros HG. iIntros "Hm Hcs". iDestruct (start_rep with "Hm Hcs") as "Hs". iApply (W_mono with "[Hs]"); [by iApply run_ok|].
    iIntros (r) "[-> Hcs]". iExists _. by iFrame.
  - by exists h.
Qed.

(** ** The documented iterators *)

(** Where list.h puts an iterator when an item is put at, or taken from, position [j]:
    items keep their order with respect to it, and the last item returned stays the
    current one until it is removed.  An item that is put at the very place of an iterator
    without a current item is on neither side of it. *)
Definition doc_put (j : nat) (st : mark) : option mark :=
  if (j <? st.1)%nat then Some (S st.1, st.2) else if (j =? st.1)%nat && negb st.2 then None else Some st.
Definition doc_take (j : nat) (st : mark) : mark :=
  if (j <? st.1)%nat then (pred st.1, st.2 && negb (j =? pred st.1)%nat) else st.
(** When only the items of [keep] are left. *)
Definition doc_keep (keep : Z -> bool) (items : list Z) (st : mark) : mark :=
  (length (filter (fun x => keep x = true) (take st.1 items)), st.2 && match items !! pred st.1 with Some x => keep x | None => false end).

Definition items_of (a : astate) (k : nat) : list Z := match live_list a k with Some al => a_items al | None => [] end.

(** The mark of iterator [j] of list [k] after an operation, by list.h. *)
Definition doc_mark (o : lop) (a : astate) (j k : nat) (st : mark) : option mark :=
  let on l (r : option mark) := if decide (k = l) then r else Some st in
  match o with
  | Append l _ | Enqueue l _ => on l (doc_put (length (items_of a l)) st)
  | Prepend l _ | Push l _ => on l (doc_put 0 st)
  | Pop l | Dequeue l => on l (Some (match items_of a l with [] => st | _ => doc_take 0 st end))
  | DeleteAll l f key => on l (Some (doc_keep (fun x => negb (f x key)) (items_of a l) st))
  | Flush l | Sort l _ => on l (Some mark_start)
  | IterReset i => Some (if decide (j = i) then mark_start else st)
  | Next i => Some (if decide (j = i) then mark_next (length (items_of a k)) st else st)
  | Find i f key => Some (if decide (j = i) then (find_from (fun x => f x key) st.1 (drop st.1 (items_of a k))).2 else st)
  | Insert i _ =>
      if decide (j = i) then Some (S st.1, st.2)
      else match live_iter a i with Some (l, sti) => on l (doc_put (mark_cell sti) st) | None => Some st end
  | Remove i | DeleteItem i =>
      match live_iter a i with Some (l, (S n, true)) => on l (Some (doc_take n st)) | _ => Some st end
  | AppendList l sub => match items_of a sub with [] => Some st | _ => on l (doc_put (length (items_of a l)) st) end
  | Transfer l sub =>
      if decide (k = sub) then Some mark_start
      else match items_of a sub with [] => Some st | _ => on l (doc_put (length (items_of a l)) st) end
  | _ => Some st
  end.

Definition doc_iters (o : lop) (a a' : astate) : bool :=
  forallb (fun j => match live_iter a j, live_iter a' j with
                    | Some (k, st), Some (k', st') => bool_decide (k' = k) && bool_decide (doc_mark o a j k st = Some st')
                    | _, _ => true
                    end) (seq 0 (length (a_iters a))).

(** The machine whose iterators are the documented ones: it accepts an operation if the
    marks of all iterators after it are those of list.h. *)
Definition d_step (qsort : (Z -> Z -> Z) -> list Z -> list Z) (o : lop) (a : astate) : option (list Z * astate) :=
  '(x, a') ← a_step qsort o a;
  if doc_iters o a a' then Some (x, a') else None.

Fixpoint d_run (qsort : (Z -> Z -> Z) -> list Z -> list Z) (ops : list lop) (a : astate) : option (list (list Z) * astate) :=
  match ops with
  | [] => Some ([], a)
  | o :: ops => '(x, a) ← d_step qsort o a; '(xs, a) ← d_run qsort ops a; Some (x :: xs, a)
  end.

Lemma d_run_a_run qsort ops : forall a r, d_run qsort ops a = Some r -> a_run qsort ops a = Some r.
Proof.
  induction ops as [|o ops IH]; intros a r; [done|]. cbn [d_run a_run]. unfold d_step. destruct (a_step qsort o a) as [[x a1]|]; [|done]. cbn [mbind option_bind].
  destruct (doc_iters o a a1); [|done]. cbn [mbind option_bind]. destruct (d_run qsort ops a1) as [[xs a2]|] eqn:E; [|done]. by rewrite -> (IH _ _ E).
Qed.

(** C34: programs on lists and iterators, in memory that is allocated, linked and
    reused word by word, behave as programs on sequences with the iterators that list.h
    documents: whatever the order of the operations, if the sequence machine accepts
    them, the C functions run without failing an assertion, touching unallocated
    memory, running in circles or locking a mutex twice, return the same results, and
    call the deletion functions on the same items in the same order.  The machine
    accepts a program on live handles, without NULL items and with at most [INT_MAX] items, if
    list.c moves its iterators as list.h says ([doc_mark]): left out are programs that
    remove the next item of an iterator by other means while it has a current item, put an
    item at the very place of an iterator without a current item (as [list_append]
    does for one at the end), or sort a list of at most one item under an iterator that has moved,
    see the examples below. *)
Theorem lists_refine_sequences qsort ops xs a :
  (forall f l, qsort f l ≡ₚ l) -> d_run qsort ops no_lists = Some (xs, a) ->
  exists h, run_lops qsort ops (Env [] []) start_heap = Ret (xs, h) /\ calls h = a_calls a.
Proof. intros Hq Hrun. apply run_sound; [done|by apply d_run_a_run]. Qed.

(** The same for all programs, with iterators that move as those of list.c do. *)
Theorem lists_simulate_machine qsort ops xs a :
  (forall f l, qsort f l ≡ₚ l) -> a_run qsort ops no_lists = Some (xs, a) ->
  exists h, run_lops qsort ops (Env [] []) start_heap = Ret (xs, h) /\ calls h = a_calls a.
Proof. apply run_sound. Qed.

(** ** Examples *)

Definition not_after (f : Z -> Z -> Z) (x y : Z) : Prop := f x y <= 0.
#[local] Instance not_after_dec f : RelDecision (not_after f) := fun x y => Z_le_dec (f x y) 0.
Definition demo_qsort (f : Z -> Z -> Z) (l : list Z) : list Z := merge_sort (not_after f) l.
Lemma demo_qsort_perm f l : demo_qsort f l ≡ₚ l.
Proof. apply merge_sort_Permutation. Qed.

(** Two lists with iterators, over which items are inserted, removed, sorted and
    moved to the other list. *)
Definition list_demo : list lop :=
  [Create 7; Create 7; Append 0 30; Append 0 10; Prepend 0 20; IterCreate 0; Next 0; Next 0; Insert 0 40; Next 0; DeleteItem 0; Next 0;
   Sort 0 (fun x y => x - y); Next 0; IterCreate 0; Find 1 (fun x key => x =? key) 40; Remove 1; Transfer 1 0; Count 1; Next 0;
   DeleteAll 1 (fun x key => x <? key) 25; IterDestroy 1; Destroy 1].

Lemma lists_refine_sequences_witness :
  exists h, run_lops demo_qsort list_demo (Env [] []) start_heap =
    Ret ([[]; []; [30]; [10]; [20]; []; [20]; [30]; [40]; [10]; [1]; [0]; []; [20]; []; [40]; [40]; [2]; [2]; [0]; [1]; []; []], h) /\
    calls h = [(7, 10); (7, 20); (7, 30)].
Proof.
  apply (lists_refine_sequences demo_qsort list_demo _ (AState [Some (AList [] 7); None] [Some (0%nat, (0%nat, false)); None] [(7, 10); (7, 20); (7, 30)])).
  - apply demo_qsort_perm.
  - vm_compute. reflexivity.
Defined.

Definition results (ops : list lop) : option (list (list Z)) :=
  match run_lops demo_qsort ops (Env [] []) start_heap with Ret (xs, _) => Some xs | _ => None end.

(** An iterator whose next item is removed by other means forgets its current
    item: [list_delete_item] does not remove it. *)
Lemma removal_of_next_forgets_current :
  results [Create 0; Append 0 1; Append 0 2; Append 0 3; IterCreate 0; IterCreate 0; Next 0; Next 1; Next 1; Remove 1; DeleteItem 0; Count 0] =
  Some [[]; [1]; [2]; [3]; []; []; [1]; [1]; [2]; [2]; [0]; [2]].
Proof. vm_compute. reflexivity. Qed.

(** An iterator created over an empty list does not see items appended later. *)
Lemma iterator_of_empty_list_misses_items :
  results [Create 0; IterCreate 0; Append 0 1; Next 0] = Some [[]; []; [1]; [0]].
Proof. vm_compute. reflexivity. Qed.

(** Sorting a list of one item does not reset its iterators. *)
Lemma sort_of_one_item_keeps_iterators :
  results [Create 0; Append 0 1; IterCreate 0; Next 0; Sort 0 (fun x y => x - y); Next 0] = Some [[]; [1]; []; [1]; []; [0]].
Proof. vm_compute. reflexivity. Qed.

(** An iterator at the start does not see an item that is put there. *)
Lemma iterator_misses_prepended_item :
  results [Create 0; Append 0 1; IterCreate 0; Prepend 0 2; Next 0] = Some [[]; [1]; []; [2]; [1]].
Proof. vm_compute. reflexivity. Qed.

(** The machine with the documented iterators does not accept these programs. *)
Example divergent_programs_are_left_out :
  d_run demo_qsort [Create 0; Append 0 1; Append 0 2; IterCreate 0; IterCreate 0; Next 0; Next 1; Next 1; Remove 1] no_lists = None /\
  d_run demo_qsort [Create 0; IterCreate 0; Append 0 1] no_lists = None /\
  d_run demo_qsort [Create 0; Append 0 1; IterCreate 0; Next 0; Sort 0 (fun x y => x - y)] no_lists = None /\
  d_run demo_qsort [Create 0; Append 0 1; IterCreate 0; Prepend 0 2] no_lists = None.
Proof. vm_compute. done. Qed.
